(* ===== verification/_CoqProject ===== *)
-Q . S2P
Prelude.v
Crc32.v
Packet.v
Section.v
Packetize.v
PacketReader.v
AribTables.v
Aribstr.v
Descriptors.v
Psi.v
Events.v
TableSections.v
Demux.v
Dsmcc.v
Carousel.v
Logo.v
LogoPng.v
Scanner.v
Jobs.v
Tuners.v
Schedule.v
Sessions.v
EventDescriptors.v
Programs.v
Completion.v
Peers.v
Distribution.v
Gate.v
ModuleCache.v
CarouselStates.v
DataBroadcast.v
DataBroadcastHub.v
Updates.v
MultiWriter.v
Config.v
Sources.v
Services.v
EpgPlan.v
Collect.v
ProgramSync.v
EventHub.v
