(* ===== verification/Prelude.v ===== *)
(** * Mahiron's transport stream library and managers, verified

    Mahiron is a tuner server for Japanese digital television.  This library
    models the parts of it that decide rather than transport: the package
    [ts], which takes MPEG-2 transport streams apart, and the in-memory state
    machines under [internal] that schedule work.  This first file is also the
    prelude, described at the end.

    ** How the parts work together

    Bytes from a tuner become packets ([PacketReader]), packets of one PID
    become sections ([SectionAssembler], whose test is the CRC), sections become
    tables ([ParsePAT] and its siblings, whose entries carry descriptors, whose
    texts are ARIB strings).  On the tables stand the consumers: the
    demultiplexer, which serves every viewer the packets of one service and a
    PAT written for it ([BuildPATSection], [packetizeSection]); the service
    scan; the event tables; and the DSM-CC carousel, from which data
    broadcasting and the logo collection take their modules.  The scans and
    collections are jobs of the job manager.  A request for a channel goes to the
    session registry, which asks the pool of sources for one of the channel's
    routes, which asks the tuner manager for a device.  The collection of the EPG
    fills a snapshot and gives its programs to the program manager, whose events go
    through the event hub to the clients and to other servers.

    ** What each file models

    - [Crc32]: [ts/section.go], the checksum: the table builder, the byte loop,
      equivalence with the bit-serial register of the standard, detection of
      every burst of at most 32 bits.
    - [Packet]: [ts/packet.go], the accessors of a packet.
    - [Section]: [ts/section.go], the accessors and [SectionAssembler]; what it
      emits is valid, and no packet makes it panic.
    - [Packetize]: [packetizeSection] of [ts/demux.go]; a packetized section
      comes back from any assembler state.
    - [PacketReader]: [ts/packet.go], the resynchronising reader over a script
      of reads; exact on aligned streams, terminating on every script that ends
      in EOF, and the script on which it does not end.
    - [AribTables], [Aribstr]: [ts/aribstr], the character tables and the
      decoder's state machine; total on all bytes, searches that find exactly
      the entries of their tables.
    - [Descriptors]: [ts/descriptors.go] and the strict splitter of
      [ts/nit.go]; the languages the two splitters accept, the typed parsers.
    - [Psi]: [ts/psi.go], [pat.go], [pmt.go], [nit.go], [sdt.go]: no byte string
      makes a parser panic, and tables that fit a section round-trip.
    - [Events]: [ts/eit.go], [tot.go], [bit.go], with the binary64 arithmetic of
      the calendar, checked day by day against the calendar proper.
    - [TableSections]: [tableSectionSet] of [ts/scanner.go], the collection of
      the sections of one table in any order.
    - [Demux]: [ts/demux.go], [Demuxer] and its views.  The state is one record,
      each method one function on it.  The PAT a view emits is specified by the
      single-programme PAT of its service (a refinement), the other packets by
      the set of PIDs forwarded.
    - [Dsmcc]: [ts/dsmcc_module_info.go], [dsmcc_stream.go] and the DII and DDB
      parsers of [logo_common.go].
    - [Carousel]: [ts/dsmcc_carousel.go], modules assembled within two byte
      budgets, the oldest evicted first.  The iteration order of Go's maps is
      an instance of the class [RangeOrder], over which every theorem is
      quantified.
    - [Logo], [LogoPng]: [ts/logo.go], [logo_common.go], [logo_png.go]: CDT, logo
      modules and their carousel, SDTT announcements, PNG normalisation.
    - [Scanner]: the [serviceScanState] of [ts/scanner.go], against a
      specification that does not know the order of arrival.
    - [Jobs]: [internal/job/manager.go], [job.go], the job manager as a
      transition system whose steps are its critical sections, the ends of its
      handlers and of its retry timers: invariant, progress, abort, shutdown.
    - [Tuners]: [internal/tuner/manager.go], [status.go], [tuner.go], the tuner
      manager: which tuner a request gets, whose device it grabs, and that the
      grab gives it the tuner.
    - [Schedule]: [internal/epg/snapshot.go], the bitmaps that tell when the EPG
      schedule of a service is complete, against the set of sections they stand
      for.
    - [Sessions]: [internal/stream/session_registry.go] and the loop of
      [getOrCreate]: the viewers of a channel share one session, which one
      request creates and the others wait for.
    - [EventDescriptors]: [internal/epg/convert.go], the events of an EIT section
      with their descriptors; extended events reassembled from their parts.
    - [Programs]: [internal/epg/eit.go], [snapshot.go],
      [snapshot_program_build.go], the programs of a snapshot, gathered from all
      sections of a service over a store of the maps that programs share.
    - [Completion]: the rest of [snapshot.go], which services are ready and what
      is missing, for the sequence of sections observed.
    - [Peers]: [internal/epg/program_merge.go], programs filled from those they
      share an event with, through a union-find forest, and the test of
      [collect.go] that ends a collection.
    - [Distribution]: [internal/stream/demux/demuxer.go], [subscription.go], the
      subscribers of a channel's stream and their queues: what each one gets, that
      the demuxer stops after the last one, and the continuity monitor.
    - [Gate]: [internal/stream/demux/program.go], the gate that cuts the stream of
      a programme out of that of its service, with its timer and the calls that
      the timer starts, in every interleaving.
    - [ModuleCache]: [internal/stream/databroadcast/module_cache.go], the cache of
      completed modules in memory, a least-recently-used list bounded in bytes,
      and the interface [ModuleStore] its clients see.
    - [CarouselStates], [DataBroadcast], [DataBroadcastHub]:
      [internal/stream/databroadcast/data_broadcast.go], the hub that keeps, for
      each service, its PMT, carousels, modules and stream events, and tells its
      subscribers: what each operation of a carousel makes of its modules, the
      hub's operations, and the theorems over their sequences - what a subscriber
      knows of the snapshot and of the modules from its events.
    - [Updates]: [internal/stream/channel/section_updates.go] and [NewSession] of
      [session.go], the queues between the demuxer of a channel and the EPG, the
      logos and the hub, with the goroutines that fill and empty them.
    - [MultiWriter]: [internal/util/dynamicmultiwriter.go], the writer that copies
      the output of a tuner process to the subscribers that come and go, through
      buffers that are counted and reused.
    - [Config]: [internal/config], the rules by which the configuration's files are
      checked and brought into their internal form; which rule is reported, what an
      accepted configuration has, and that loading it again changes nothing.
    - [Sources]: [internal/stream/source], the pool that opens the routes of a
      channel by their priorities, shares an open route between its subscribers and
      stops it after the last, as a transition system; the users of a remote input.
    - [Services]: [internal/service/order.go], [manager.go], the order in which the
      services are shown and the events of their changes, over a store given by its
      class [ServiceStore].
    - [EpgPlan]: [internal/epg/topology.go], which channels and services belong to
      the collection of a network.
    - [Collect]: [internal/epg/collect.go], [collect_workers.go], [gather.go],
      [remote_sync.go] and [Cleanup]: what a collection stores, for which services,
      and what it reports, as the log of the calls to the stores.
    - [ProgramSync]: [internal/program] with the rows of SQLite, the events of the
      programs, their rendering by the API ([internal/web/api/programs.go]) and what
      another server makes of them ([internal/stream/remote]).
    - [EventHub]: [internal/event/hub.go], the stream of [internal/web/api/events.go]
      and its reader [readRemoteProgramEvents], composed with [ProgramSync] into two
      servers that follow each other.

    ** The groups of theorems

    Totality (nothing indexes out of range, every loop ends): the theorems
    [..._total], [Decode_total], [NextInto_delivers].  Round trips of
    everything the program writes or a standard lets one write: the theorems
    [..._roundtrip] and [packetize_reassemble].  Refinements and functional
    specifications: [service_pat], [service_filter], [observePMT_follows],
    [scan_collects], [add_collects], [carousel_assembles],
    [logo_carousel_emits], [parseDescriptorsStrict_exact],
    [NormalizeARIBLogoPNG_exact], [Abort_spec], [tryAcquire_spec],
    [schedule_ready], [snapshot_programs], [snapshot_completion],
    [shared_peers_fill], [collection_stops], [cache_is_lru], [subscribers_served],
    [continuity_follows], [gate_safe], [subscribers_follow], [hub_serves_content],
    [priority_first], [fan_out], [config_reports], [route_selection],
    [services_ordered], [events_follow_services], [inputs_agree],
    [persist_accounts], [gather_accounts], [upsert_publishes], [mirror_follows],
    [stream_read], [servers_in_step].  Invariants of the stateful
    parts: [config_wellformed], [one_device_per_route], [broadcast_counts],
    [pf_upserter], [hub_delivers], [FeedAll_emits_valid_sections], [carousel_accounts], [demux_total],
    [manager_invariant], [tuner_manager_invariant], [distribution_invariant],
    [hub_total], [session_total], [eit_current], [buffers_safe];
    progress: [manager_progress], [Shutdown_ends], [grab_succeeds],
    [distribution_closes], [gate_ends], [session_drains], [write_returns],
    [closed_subscriber_ends], [unwatched_is_stopped].  Modelling also showed
    defects; each of these has a concrete execution: [NextInto_spins],
    [Abort_stalls], [Shutdown_skips], [stale_user], [samePAT_missing_is_zero],
    [shared_map_goes_stale], [grace_has_no_effect], [returning_carousel_waits],
    [new_PMT_forgets_the_event], [shared_carousel_depends_on_order],
    [kept_module_listed_incomplete],
    [priority_overtaken], [null_tuner_panics], [late_subscriber_is_cut_off],
    [unused_input_keeps_its_device], [last_failure_counts], [long_retention_deletes],
    [unchanged_is_updated], [languageless_is_updated], [nil_program_panics],
    [event_of_the_last], [running_goes_unseen].

    ** Conventions, fuel and bounds

    A Go function is a function into [outcome]: a value, an [error], a panic
    (index or slice out of range, nil dereference, double close), or exhausted
    fuel.  A slice is a list, a byte or a fixed-width integer is a [Z] whose
    wrap-around is written out ([u8], [u16], [u32], [u64]); [int] is 64 bits
    wide and is left unbounded where the code only adds lengths to it.  A map is
    a [gmap], a set of keys a [gset].  Every loop whose recursion is not
    structural runs through [loop], with a fuel that is a length of the data
    plus a constant; since the theorems state [returns] or [ends], they show
    that the fuel is enough.  Locks and goroutines: a method that runs under a
    mutex is one step, and the orders in which steps may come are quantified
    over.  Random choices, clocks and map orders are parameters.

    ** What is not modelled

    Sockets, pipes, processes, the driver of SQLite, HTTP and the generated API
    code; the parsers of YAML and of URLs, reading files, logging and metrics; the
    encoding of JSON (a parameter of [EventHub] with the laws it relies on); the
    ISO-2022-JP decoder of golang.org/x/text (a parameter of [Aribstr]); the time
    zone of a [time.Time]; [Scan]'s read loop and deadline; gocron's schedules,
    [Wait], [Changes] and job results in [Jobs]; the processes behind the devices of
    [Tuners]; what creates and runs the sessions of [Sessions], the methods of a
    session that stream, and what the inputs of [Sources] read and descramble; the
    store of [ModuleCache] in SQLite and the decoding of a module's resources; the
    loop of [CollectServiceSnapshots] that selects between sections, ticks and the
    deadline; the logos of the services and their store in SQLite; the HTTP client of
    another server and the delays with which it is asked again.

    ** The prelude

    Generic material shared by every file: the outcome monad, checked slice
    indexing and slicing, the bounded loop combinator, fixed-width integers,
    big-endian accessors, iteration over maps, and the tactics and hint
    databases that discharge bounds obligations. *)

From stdpp Require Export prelude list gmap strings sorting.
From Stdlib Require Export ZArith Lia.

#[global] Open Scope Z_scope.

Declare Scope go_scope.
Delimit Scope go_scope with go.

(** ** Outcomes *)

(** The error values returned by the modelled packages. *)
Inductive error : Type :=
| ErrInvalidSection
| ErrServiceNotFound
| ErrUnexpectedTag (tag : Z)
| ErrInvalidPMTPID (pid : Z)
| ErrDSMCCCarouselBudgetExceeded
| ErrARIBString
| ErrShortBuffer
| ErrEOF
| ErrIO (code : Z)
| ErrNew (message : string)
| ErrNotExist.

#[global] Instance error_eq_dec : EqDecision error.
Proof. solve_decision. Defined.

(** What a Go call can do: return, return a non-nil [error], panic (index or
    slice out of range), or, in the model only, run out of fuel. *)
Inductive outcome (A : Type) : Type :=
| Ret (a : A)
| Err (e : error)
| Panic
| Diverge.
Arguments Ret {A} _.
Arguments Err {A} _.
Arguments Panic {A}.
Arguments Diverge {A}.

#[global] Instance outcome_ret : MRet outcome := @Ret.
#[global] Instance outcome_bind : MBind outcome := λ A B f m,
  match m with
  | Ret a => f a
  | Err e => Err e
  | Panic => Panic
  | Diverge => Diverge
  end.
#[global] Instance outcome_fmap : FMap outcome := λ A B f m,
  match m with
  | Ret a => Ret (f a)
  | Err e => Err e
  | Panic => Panic
  | Diverge => Diverge
  end.

(** [ends E m P]: [m] neither panics nor runs out of fuel; a value it returns
    satisfies [P] and an error it returns satisfies [E]. *)
Definition ends {A} (E : error → Prop) (m : outcome A) (P : A → Prop) : Prop :=
  match m with
  | Ret a => P a
  | Err e => E e
  | Panic | Diverge => False
  end.

(** Any error is allowed, or none is. *)
Abbreviation safe := (ends (λ _, True)).
Abbreviation returns := (ends (λ _, False)).

(** [guard b e]: [if !b { return e }]. *)
Definition errorIf (b : bool) (e : error) : outcome unit :=
  if b then Err e else Ret tt.

(** Short-circuit disjunction of Go conditions that can themselves panic. *)
Definition orM (a b : outcome bool) : outcome bool :=
  x ← a; if x : bool then Ret true else b.
Infix "||?" := orM (at level 75, right associativity) : go_scope.
Definition andM (a b : outcome bool) : outcome bool :=
  x ← a; if x : bool then b else Ret false.
Infix "&&?" := andM (at level 74, right associativity) : go_scope.
#[global] Open Scope go_scope.

(** ** Integers of fixed width *)

Definition u8 (x : Z) : Z := x mod 2 ^ 8.
Definition u16 (x : Z) : Z := x mod 2 ^ 16.
Definition u32 (x : Z) : Z := x mod 2 ^ 32.
Definition u64 (x : Z) : Z := x mod 2 ^ 64.

(** Two's complement reading of a 16-bit word ([int16(x)]). *)
Definition i16 (x : Z) : Z :=
  let y := u16 x in if y <? 2 ^ 15 then y else y - 2 ^ 16.

Definition byte_ok (b : Z) : Prop := 0 ≤ b < 256.
Definition bytes_ok (l : list Z) : Prop := Forall byte_ok l.

(** ** Slices *)

Definition len {A} (l : list A) : Z := Z.of_nat (length l).

Definition idx {A} (l : list A) (i : Z) : outcome A :=
  if 0 <=? i then
    match l !! Z.to_nat i with Some b => Ret b | None => Panic end
  else Panic.

(** [l[a:b]].  Go bounds [b] by the capacity; the model bounds it by the
    length, so a model that does not panic describes a Go run that does not. *)
Definition slice {A} (l : list A) (a b : Z) : outcome (list A) :=
  if (0 <=? a) && (a <=? b) && (b <=? len l)
  then Ret (take (Z.to_nat (b - a)) (drop (Z.to_nat a) l))
  else Panic.

Notation "l ![ i ]" := (idx l i) (at level 1, i at level 100, left associativity,
  format "l ![ i ]") : go_scope.
Notation "l ![ a ; b ]" := (slice l a b) (at level 1, a at level 100,
  b at level 100, left associativity, format "l ![ a ; b ]") : go_scope.

(** Total accessors used in specifications. *)
Definition byteAt (l : list Z) (i : Z) : Z := default 0 (l !! Z.to_nat i).
Definition sub {A} (l : list A) (a b : Z) : list A :=
  take (Z.to_nat (b - a)) (drop (Z.to_nat a) l).

(** ** Big-endian reads *)

(** [uint16(hi)<<8 | uint16(lo)] *)
Definition be16 (hi lo : Z) : Z := Z.lor (Z.shiftl hi 8) lo.

(** [uint16(l[i]&mask)<<8 | uint16(l[i+1])] *)
Definition get16m (mask : Z) (l : list Z) (i : Z) : outcome Z :=
  hi ← l![i]; lo ← l![i + 1]; Ret (be16 (Z.land hi mask) lo).

(** [uint16(l[i])<<8 | uint16(l[i+1])], also [binary.BigEndian.Uint16(l[i:i+2])] *)
Definition get16 (l : list Z) (i : Z) : outcome Z :=
  hi ← l![i]; lo ← l![i + 1]; Ret (be16 hi lo).

(** [binary.BigEndian.Uint32(l[i:i+4])] *)
Definition get32 (l : list Z) (i : Z) : outcome Z :=
  h ← get16 l i; lo ← get16 l (i + 2); Ret (Z.lor (Z.shiftl h 16) lo).

(** [b & mask != 0] *)
Definition bit (b mask : Z) : bool := negb (Z.land b mask =? 0).

(** ** Loops *)

(** [loop fuel body s] runs [body] from state [s] until it breaks; [inl]
    continues with a new state, [inr] leaves the loop. *)
Fixpoint loop {S R} (fuel : nat) (body : S → outcome (S + R)) (s : S) : outcome R :=
  match fuel with
  | O => Diverge
  | Datatypes.S n =>
      r ← body s;
      match r with inl s' => loop n body s' | inr r => Ret r end
  end.

Lemma loop_S {S R} n (body : S → outcome (S + R)) s :
  loop (Datatypes.S n) body s =
  (r ← body s; match r with inl s' => loop n body s' | inr r => Ret r end).
Proof. done. Qed.

Definition continue {S R} (s : S) : outcome (S + R) := Ret (inl s).
Definition break {S R} (r : R) : outcome (S + R) := Ret (inr r).

(** Monadic left fold: [for _, x := range l { ... }]. *)
Fixpoint foldM {A S} (f : S → A → outcome S) (l : list A) (s : S) : outcome S :=
  match l with
  | [] => Ret s
  | x :: l => s' ← f s x; foldM f l s'
  end.

(** [if v, err := m; err != nil { ... }]: the error becomes [None]. *)
Definition caught {A} (m : outcome A) : outcome (option A) :=
  match m with
  | Ret a => Ret (Some a)
  | Err _ => Ret None
  | Panic => Panic
  | Diverge => Diverge
  end.

(** ** Maps *)

(** The order in which [for k, v := range m] visits a map is not specified: a
    model that ranges over a map takes the order from an instance of this class,
    which only promises that every entry is visited once. *)
Class RangeOrder (A : Type) := {
  range : gmap Z A → list (Z * A);
  range_perm m : range m ≡ₚ map_to_list m
}.

Lemma range_elem {A} {O : RangeOrder A} (m : gmap Z A) k x : (k, x) ∈ range m ↔ m !! k = Some x.
Proof. by rewrite range_perm, elem_of_map_to_list. Qed.

Lemma range_fresh {A} {O : RangeOrder A} (m : gmap Z A) k x :
  (k ++ [x]) `prefix_of` range m → x.1 ∉ k.*1.
Proof.
  intros [r Hr] Hin. assert (NoDup (range m).*1) as Hnd by (rewrite range_perm; apply NoDup_fst_map_to_list).
  rewrite Hr, !fmap_app, <- app_assoc in Hnd. apply NoDup_app in Hnd as (_ & Hnd & _).
  apply (Hnd x.1); [done |]. cbn. by left.
Qed.

(** A loop over a map whose every step changes its own key of another map only:
    the result does not depend on the order. *)
Lemma fold_range_own {A B} {O : RangeOrder A} (step : gmap Z B → Z * A → gmap Z B)
    (own : Z → A → option B → option B) m acc k :
  (∀ n e j, j ≠ fst e → step n e !! j = n !! j) →
  (∀ n j a, step n (j, a) !! j = own j a (n !! j)) →
  fold_left step (range m) acc !! k = match m !! k with Some a => own k a (acc !! k) | None => acc !! k end.
Proof.
  intros Hne Heq.
  assert (∀ l acc, NoDup l.*1 → fold_left step l acc !! k = match (list_to_map l : gmap Z A) !! k with
    Some a => own k a (acc !! k) | None => acc !! k end) as Hl.
  { clear acc. induction l as [| [j a] l IH]; intros acc Hnd; [by cbn; rewrite lookup_empty |].
    cbn [fmap list_fmap fst] in Hnd. apply NoDup_cons in Hnd as [Hj Hnd]. cbn [fold_left list_to_map foldr].
    rewrite IH by done. destruct (decide (j = k)) as [-> | Hjk].
    - rewrite lookup_insert_eq. cbn [fst snd]. rewrite not_elem_of_list_to_map_1 by done. by rewrite Heq.
    - rewrite lookup_insert_ne by done. by rewrite Hne. }
  rewrite Hl by (rewrite range_perm; apply NoDup_fst_map_to_list).
  rewrite (list_to_map_proper _ (map_to_list m)), list_to_map_to_list; [done | | apply range_perm].
  rewrite range_perm. apply NoDup_fst_map_to_list.
Qed.

Lemma fold_range_inserts {A} {O : RangeOrder A} (m acc : gmap Z A) :
  fold_left (λ acc e, <[fst e := snd e]> acc) (range m) acc = m ∪ acc.
Proof.
  apply map_eq. intros k. rewrite (fold_range_own _ (λ _ a _, Some a)).
  - rewrite lookup_union. destruct (m !! k), (acc !! k); done.
  - intros n e j Hj. by apply lookup_insert_ne.
  - intros n j a. apply lookup_insert_eq.
Qed.

Lemma fold_range_fmap {A} {O : RangeOrder A} (f : A → A) (m : gmap Z A) :
  fold_left (λ acc e, <[fst e := f (snd e)]> acc) (range m) m = f <$> m.
Proof.
  apply map_eq. intros k. rewrite (fold_range_own _ (λ _ a _, Some (f a))).
  - rewrite lookup_fmap. by destruct (m !! k).
  - intros n e j Hj. by apply lookup_insert_ne.
  - intros n j a. apply lookup_insert_eq.
Qed.

(** An order, for concrete runs. *)
Definition keyOrder {A} : RangeOrder A := {| range := map_to_list; range_perm m := reflexivity _ |}.

(** The same for keys of another type. *)
Class RangeOrderOf (K A : Type) `{Countable K} := {
  rangeOf : gmap K A → list (K * A);
  rangeOf_perm m : rangeOf m ≡ₚ map_to_list m
}.
Definition keyOrderOf {K A} `{Countable K} : RangeOrderOf K A :=
  {| rangeOf := map_to_list; rangeOf_perm m := reflexivity _ |}.

(** ** Stable sorting

    [sort.SliceStable] by a function [less]. *)

Section SliceStable.
Context {A : Type} (less : A → A → bool).

Fixpoint insertStable (r : A) (l : list A) : list A :=
  match l with
  | [] => [r]
  | x :: l => if less x r then x :: insertStable r l else r :: x :: l
  end.
Definition SliceStable (l : list A) : list A := foldr insertStable [] l.

Lemma insertStable_perm r l : insertStable r l ≡ₚ r :: l.
Proof. induction l as [| x l IH]; cbn; [done |]. destruct (less x r); [| done]. rewrite IH. apply Permutation_swap. Qed.

Lemma SliceStable_perm l : SliceStable l ≡ₚ l.
Proof. induction l as [| x l IH]; cbn; [done |]. by rewrite insertStable_perm, IH. Qed.

(** The items that [less] does not tell apart keep their order. *)
Lemma SliceStable_stable (P : A → Prop) `{∀ x, Decision (P x)} l :
  (∀ a b, P a → P b → less a b = false) → filter P (SliceStable l) = filter P l.
Proof.
  intros HP. assert (∀ r k, filter P (insertStable r k) = filter P (r :: k)) as Hins.
  { intros r k. induction k as [| x k IH]; [done |]. cbn [insertStable]. destruct (less x r) eqn:E; [| done]. rewrite filter_cons, IH, !filter_cons.
    destruct (decide (P x)), (decide (P r)); try done. by rewrite (HP x r) in E. }
  induction l as [| x l IH]; [done |]. cbn [SliceStable foldr]. rewrite Hins, !filter_cons. unfold SliceStable in IH. by rewrite IH.
Qed.

(** The order that [less] should be, and then the result is sorted. *)
Record strict_weak : Prop := {
  less_asym : ∀ a b, less a b = true → less b a = false;
  less_gap : ∀ a b c, less a b = false → less b c = false → less a c = false
}.

Lemma SliceStable_sorted l : strict_weak → StronglySorted (λ a b, less b a = false) (SliceStable l).
Proof.
  intros [Hasym Hgap]. induction l as [| r l IH]; cbn [SliceStable foldr]; [constructor |]. change (foldr insertStable [] l) with (SliceStable l).
  induction IH as [| x k Hk IHk Hx]; cbn [insertStable]; [by repeat constructor |]. destruct (less x r) eqn:E.
  - constructor; [done |]. rewrite insertStable_perm. constructor; [by apply Hasym | done].
  - constructor; [by constructor |]. constructor; [done |]. eapply Forall_impl; [exact Hx |]. intros y Hy. by apply (Hgap y x r).
Qed.

End SliceStable.

Lemma bind_assoc {A B C} (m : outcome A) (f : A → outcome B) (g : B → outcome C) :
  (x ← (y ← m; f y); g x) = (y ← m; x ← f y; g x).
Proof. by destruct m. Qed.

(** ** Rules for [ends] *)

Section Rules.
Context {E : error → Prop}.
Abbreviation safeE := (ends E).


Lemma safe_mono {A} (m : outcome A) (P P' : A → Prop) :
  safeE m P → (∀ a, P a → P' a) → safeE m P'.
Proof. destruct m; simpl; auto. Qed.

Lemma safe_bind {A B} (m : outcome A) (f : A → outcome B) Q :
  safeE m (λ a, safeE (f a) Q) → safeE (m ≫= f) Q.
Proof. by destruct m. Qed.

Lemma safe_fmap {A B} (m : outcome A) (f : A → B) Q :
  safeE m (λ a, Q (f a)) → safeE (f <$> m) Q.
Proof. by destruct m. Qed.

Lemma safe_conj {A} (m : outcome A) (P P' : A → Prop) :
  safeE m P → safeE m P' → safeE m (λ a, P a ∧ P' a).
Proof. destruct m; simpl; auto. Qed.

Lemma safe_ret {A} (a : A) (P : A → Prop) : P a → safeE (Ret a) P.
Proof. done. Qed.

Lemma safe_continue {S R} (s : S) (P : S + R → Prop) : P (inl s) → safeE (continue s) P.
Proof. done. Qed.

Lemma safe_break {S R} (r : R) (P : S + R → Prop) : P (inr r) → safeE (break r) P.
Proof. done. Qed.

Lemma safe_Ret {A} (m : outcome A) (P : A → Prop) a : safeE m P → m = Ret a → P a.
Proof. by intros H ->. Qed.

Lemma safe_errorIf b e P :
  (b = true → E e) → (b = false → P tt) → safeE (errorIf b e) P.
Proof. destruct b; simpl; auto. Qed.

Lemma safe_orM a b P :
  safeE a (λ x, if x : bool then P true else safeE b P) → safeE (orM a b) P.
Proof. destruct a as [[]| | |]; simpl; auto. Qed.

Lemma safe_andM a b P :
  safeE a (λ x, if x : bool then safeE b P else P false) → safeE (andM a b) P.
Proof. destruct a as [[]| | |]; simpl; auto. Qed.

Lemma foldM_app {A S} (f : S → A → outcome S) l1 l2 s : foldM f (l1 ++ l2) s = (s ← foldM f l1 s; foldM f l2 s).
Proof. revert s. induction l1 as [| x l1 IH]; intros s; [done |]. cbn. destruct (f s x); cbn; [apply IH | done..]. Qed.

Lemma safe_foldM {A S} (I : S → Prop) (f : S → A → outcome S) l s :
  I s → (∀ s x, I s → x ∈ l → safeE (f s x) I) → safeE (foldM f l s) I.
Proof.
  revert s. induction l as [| x l IH]; simpl; intros s Hs Hf; [done |].
  apply safe_bind. eapply safe_mono; [apply Hf; [done | set_solver] |].
  intros s' Hs'. apply IH; [done |]. intros; apply Hf; set_solver.
Qed.

(** The invariant may mention the elements already visited. *)
Lemma safe_foldM_prefix {A S} (I : list A → S → Prop) (f : S → A → outcome S) l s :
  I [] s → (∀ k x s, I k s → (k ++ [x]) `prefix_of` l → safeE (f s x) (I (k ++ [x]))) →
  safeE (foldM f l s) (I l).
Proof.
  intros H0 Hf. cut (∀ r k s, k ++ r = l → I k s → safeE (foldM f r s) (I l)).
  { intros H. by apply (H l []). }
  intros r. induction r as [| x r IH]; intros k s' Hl Hk; simpl.
  - by rewrite <- Hl, app_nil_r.
  - apply safe_bind. eapply safe_mono; [apply (Hf k x s'); [done |] |].
    + exists r. by rewrite <- app_assoc.
    + intros s'' Hs''. apply (IH (k ++ [x])); [by rewrite <- app_assoc | done].
Qed.

Lemma bind_Ret_inv {A B} (m : outcome A) (f : A → outcome B) b :
  m ≫= f = Ret b → ∃ a, m = Ret a ∧ f a = Ret b.
Proof. destruct m; simpl; intros; simplify_eq; eauto. Qed.

(** Total correctness of [loop]: an invariant that bounds a measure by the
    fuel shows both that the loop ends and what it returns. *)
Lemma safe_loop {S R} (I : S → Prop) (μ : S → nat) (P : R → Prop) body fuel s :
  (∀ s, I s → safeE (body s) (λ r,
     match r with inl s' => I s' ∧ (μ s' < μ s)%nat | inr r => P r end)) →
  I s → (μ s < fuel)%nat → safeE (loop fuel body s) P.
Proof.
  intros Hbody. revert s. induction fuel as [| fuel IH]; intros s Hs Hμ; [lia |].
  simpl. apply safe_bind. eapply safe_mono; [by apply Hbody |].
  intros [s' | r]; simpl; [| done]. intros [??]. apply IH; [done | lia].
Qed.

End Rules.

Lemma ends_weaken {A} (E E' : error → Prop) (m : outcome A) P :
  ends E m P → (∀ e, E e → E' e) → ends E' m P.
Proof. destruct m; simpl; auto. Qed.

Lemma returns_ends {A} (E : error → Prop) (m : outcome A) (P Q : A → Prop) :
  returns m P → (∀ a, P a → Q a) → ends E m Q.
Proof. destruct m; simpl; auto; done. Qed.

Lemma caught_returns {A} (E : error → Prop) (m : outcome A) (P : A → Prop) :
  ends E m P → returns (caught m) (λ r, ∀ a, r = Some a → P a).
Proof. destruct m; simpl; try done. by intros ? a' [= <-]. Qed.

(** ** Lengths and indexing *)

Lemma len_nonneg {A} (l : list A) : 0 ≤ len l.
Proof. unfold len. lia. Qed.
Lemma len_nil {A} : len (@nil A) = 0.
Proof. done. Qed.
Lemma len_cons {A} (x : A) l : len (x :: l) = 1 + len l.
Proof. unfold len. simpl. lia. Qed.
Lemma len_app {A} (l k : list A) : len (l ++ k) = len l + len k.
Proof. unfold len. rewrite length_app. lia. Qed.
Lemma len_zero_nil {A} (l : list A) : len l = 0 → l = [].
Proof. destruct l; [done |]. rewrite len_cons. pose proof (len_nonneg l). lia. Qed.
Lemma len_replicate {A} (n : nat) (x : A) : len (replicate n x) = Z.of_nat n.
Proof. unfold len. by rewrite length_replicate. Qed.
Lemma len_take {A} (l : list A) n : 0 ≤ n ≤ len l → len (take (Z.to_nat n) l) = n.
Proof. unfold len. rewrite length_take. lia. Qed.
Lemma len_drop {A} (l : list A) n :
  0 ≤ n ≤ len l → len (drop (Z.to_nat n) l) = len l - n.
Proof. unfold len. rewrite length_drop. lia. Qed.
Lemma len_sub {A} (l : list A) a b : 0 ≤ a ≤ b → b ≤ len l → len (sub l a b) = b - a.
Proof. unfold sub, len. rewrite length_take, length_drop. lia. Qed.

Lemma idx_byteAt (l : list Z) i : 0 ≤ i < len l → l![i] = Ret (byteAt l i).
Proof.
  unfold len, idx, byteAt. intros Hi. destruct (Z.leb_spec 0 i); [| lia].
  destruct (lookup_lt_is_Some_2 l (Z.to_nat i)) as [b ->]; [lia | done].
Qed.

Lemma idx_lookup {A} (l : list A) i x :
  0 ≤ i → l !! Z.to_nat i = Some x → l![i] = Ret x.
Proof. unfold idx. intros ? ->. destruct (Z.leb_spec 0 i); [done | lia]. Qed.

Lemma idx_out {A} (l : list A) i : ¬ (0 ≤ i < len l) → l![i] = Panic.
Proof.
  unfold len, idx. intros Hi. destruct (Z.leb_spec 0 i); [| done].
  rewrite lookup_ge_None_2; [done | lia].
Qed.

Lemma slice_sub {A} (l : list A) a b :
  0 ≤ a ≤ b → b ≤ len l → l![a; b] = Ret (sub l a b).
Proof.
  intros ??. unfold slice, sub.
  destruct (Z.leb_spec 0 a); [| lia]. destruct (Z.leb_spec a b); [| lia].
  by destruct (Z.leb_spec b (len l)); [| lia].
Qed.

Lemma slice_inv {A} (l k : list A) a b :
  l![a; b] = Ret k → k = sub l a b ∧ 0 ≤ a ≤ b ∧ b ≤ len l.
Proof.
  unfold slice, sub. destruct (Z.leb_spec 0 a); [| done].
  destruct (Z.leb_spec a b); [| done]. destruct (Z.leb_spec b (len l)); [| done].
  simpl. intros [= <-]. split; [done | lia].
Qed.

Lemma sub_full {A} (l : list A) : sub l 0 (len l) = l.
Proof. unfold sub, len. rewrite drop_0, take_ge; [done | lia]. Qed.

Lemma sub_sub {A} (l : list A) a b c :
  0 ≤ a ≤ b → b ≤ c → sub l a c = sub l a b ++ sub l b c.
Proof.
  intros ??. unfold sub.
  replace (drop (Z.to_nat b) l) with (drop (Z.to_nat (b - a)) (drop (Z.to_nat a) l))
    by (rewrite drop_drop; f_equal; lia).
  rewrite <- (take_drop (Z.to_nat (b - a)) (take (Z.to_nat (c - a)) (drop (Z.to_nat a) l))).
  rewrite take_take, skipn_firstn_comm. do 2 f_equal; f_equal; lia.
Qed.

Lemma sub_split {A} (l : list A) a b :
  0 ≤ a ≤ b → b ≤ len l → l = sub l 0 a ++ sub l a b ++ sub l b (len l).
Proof. intros ??. by rewrite <- !sub_sub, sub_full by lia. Qed.

Lemma sub_cut {A} (l : list A) a : 0 ≤ a ≤ len l → l = sub l 0 a ++ sub l a (len l).
Proof. intros ?. by rewrite <- sub_sub, sub_full by lia. Qed.

Lemma sub_app_l {A} (l k : list A) a b :
  0 ≤ a → b ≤ len l → sub (l ++ k) a b = sub l a b.
Proof.
  unfold sub, len. intros ??. destruct (decide (a ≤ len l)) as [Ha|Ha]; unfold len in Ha.
  - rewrite drop_app_le by lia. rewrite take_app_le; [done |]. rewrite length_drop. lia.
  - replace (Z.to_nat (b - a)) with 0%nat by lia. done.
Qed.

Lemma sub_app_r {A} (l k : list A) a b :
  len l ≤ a → sub (l ++ k) a b = sub k (a - len l) (b - len l).
Proof.
  unfold sub, len. intros ?. rewrite drop_app_ge by lia. f_equal; [| f_equal]; lia.
Qed.

Lemma sub_app_exact {A} (l k r : list A) a b :
  len l = a → b = a + len k → sub (l ++ k ++ r) a b = k.
Proof.
  intros <- ->. rewrite sub_app_r by lia.
  replace (len l - len l) with 0 by lia. replace (len l + len k - len l) with (len k) by lia.
  rewrite sub_app_l by lia. apply sub_full.
Qed.

Lemma byteAt_app_l l k i : 0 ≤ i < len l → byteAt (l ++ k) i = byteAt l i.
Proof. unfold byteAt, len. intros. rewrite lookup_app_l by lia. done. Qed.
Lemma byteAt_app_r l k i : len l ≤ i → byteAt (l ++ k) i = byteAt k (i - len l).
Proof.
  unfold byteAt, len. intros. rewrite lookup_app_r by lia. do 3 f_equal. lia.
Qed.

Lemma byteAt_sub l a b i :
  0 ≤ a → 0 ≤ i < b - a → byteAt (sub l a b) i = byteAt l (a + i).
Proof.
  unfold byteAt, sub. intros. rewrite lookup_take by lia.
  case_decide; [| lia]. rewrite lookup_drop. do 3 f_equal. lia.
Qed.

Lemma byteAt_ok l i : bytes_ok l → byte_ok (byteAt l i).
Proof.
  unfold byteAt. intros Hl. destruct (l !! Z.to_nat i) eqn:E; simpl; [| unfold byte_ok; lia].
  by eapply Forall_lookup_1.
Qed.

Lemma bytes_ok_sub l a b : bytes_ok l → bytes_ok (sub l a b).
Proof. intros. by apply Forall_take, Forall_drop. Qed.
Lemma bytes_ok_app l k : bytes_ok l → bytes_ok k → bytes_ok (l ++ k).
Proof. intros. by apply Forall_app. Qed.
Lemma bytes_ok_take n l : bytes_ok l → bytes_ok (take n l).
Proof. apply Forall_take. Qed.
Lemma bytes_ok_drop n l : bytes_ok l → bytes_ok (drop n l).
Proof. apply Forall_drop. Qed.

(** Deciding [bytes_ok], for concrete inputs. *)
Definition bytes_okb (l : list Z) : bool := forallb (λ b, (0 <=? b) && (b <? 256)) l.

Lemma bytes_okb_spec l : bytes_okb l = true → bytes_ok l.
Proof.
  unfold bytes_okb. intros H. apply Forall_forall. intros b Hb.
  rewrite forallb_forall in H. specialize (H b (proj1 (list_elem_of_In _ _) Hb)).
  apply andb_true_iff in H as [?%Z.leb_le ?%Z.ltb_lt]. by unfold byte_ok.
Qed.

(** ** Arithmetic of masks, shifts and widths *)

Lemma land_mask x m : 0 ≤ m → 0 ≤ Z.land x m ≤ m.
Proof.
  intros Hm. apply Z.ldiff_le; [done |]. apply Z.bits_inj'. intros k _.
  rewrite Z.ldiff_spec, Z.land_spec, Z.bits_0.
  by destruct (Z.testbit x k), (Z.testbit m k).
Qed.

Lemma lor_shift hi lo n : 0 ≤ n → 0 ≤ lo < 2 ^ n → Z.lor (Z.shiftl hi n) lo = hi * 2 ^ n + lo.
Proof.
  intros Hn Hlo. rewrite <- (Z.shiftl_mul_pow2 hi n) by lia.
  rewrite <- Z.lxor_lor, <- Z.add_nocarry_lxor; [done | |]; apply Z.bits_inj'; intros m Hm;
    rewrite Z.land_spec, Z.bits_0, Z.shiftl_spec by lia;
    destruct (Z.ltb_spec m n); rewrite ?(Z.testbit_neg_r hi) by lia; simpl; try done;
    replace lo with (lo mod 2 ^ n) by (apply Z.mod_small; lia);
    rewrite Z.mod_pow2_bits_high by lia; apply andb_false_r.
Qed.

Lemma be16_eq hi lo : byte_ok lo → be16 hi lo = hi * 256 + lo.
Proof. intros. unfold be16. by rewrite lor_shift. Qed.

Lemma be16_ok hi lo : byte_ok hi → byte_ok lo → 0 ≤ be16 hi lo < 2 ^ 16.
Proof. unfold byte_ok. intros. rewrite be16_eq by done. lia. Qed.

Lemma be16m_ok hi lo m :
  0 ≤ m → byte_ok lo → 0 ≤ be16 (Z.land hi m) lo ≤ m * 256 + 255.
Proof.
  unfold byte_ok. intros. rewrite be16_eq by done. pose proof (land_mask hi m). lia.
Qed.

Lemma u8_ok x : byte_ok (u8 x).
Proof. unfold byte_ok, u8. pose proof (Z.mod_pos_bound x (2 ^ 8)). lia. Qed.
Lemma u16_ok x : 0 ≤ u16 x < 2 ^ 16.
Proof. apply Z.mod_pos_bound. lia. Qed.
Lemma u32_ok x : 0 ≤ u32 x < 2 ^ 32.
Proof. apply Z.mod_pos_bound. lia. Qed.

(** Splitting a 16-bit word into its bytes and reading it back. *)
Lemma be16_split x : 0 ≤ x < 2 ^ 16 → be16 (u8 (Z.shiftr x 8)) (u8 x) = x.
Proof.
  intros. rewrite be16_eq by apply u8_ok. unfold u8.
  rewrite Z.shiftr_div_pow2 by lia. change (2 ^ 8) with 256.
  rewrite (Z.mod_small (x / 256)) by (split; [apply Z.div_pos | apply Z.div_lt_upper_bound]; lia).
  pose proof (Z.div_mod x 256). lia.
Qed.

(** ** Reads inside the slice *)

Lemma get16_ret l i : 0 ≤ i → i + 1 < len l →
  get16 l i = Ret (be16 (byteAt l i) (byteAt l (i + 1))).
Proof. intros. unfold get16. rewrite !idx_byteAt by lia. done. Qed.

Lemma get16m_ret m l i : 0 ≤ i → i + 1 < len l →
  get16m m l i = Ret (be16 (Z.land (byteAt l i) m) (byteAt l (i + 1))).
Proof. intros. unfold get16m. rewrite !idx_byteAt by lia. done. Qed.

Section Reads.
Context {E : error → Prop}.

Lemma safe_byte l i P :
  bytes_ok l → 0 ≤ i < len l → (byte_ok (byteAt l i) → P (byteAt l i)) → ends E (l![i]) P.
Proof. intros ?? HP. rewrite idx_byteAt by done. apply HP, byteAt_ok. done. Qed.

Lemma safe_elem {A} (l : list A) i P :
  0 ≤ i < len l → (∀ x, l !! Z.to_nat i = Some x → P x) → ends E (l![i]) P.
Proof.
  unfold len, idx. intros Hi HP. destruct (Z.leb_spec 0 i); [| lia].
  destruct (lookup_lt_is_Some_2 l (Z.to_nat i)) as [b Hb]; [lia |].
  rewrite Hb. by apply HP.
Qed.

Lemma safe_slice {A} (l : list A) a b P :
  0 ≤ a ≤ b → b ≤ len l → (len (sub l a b) = b - a → P (sub l a b)) → ends E (l![a; b]) P.
Proof. intros ?? HP. rewrite slice_sub by done. apply HP, len_sub; done. Qed.

Lemma safe_get16 l i P :
  bytes_ok l → 0 ≤ i → i + 1 < len l →
  (0 ≤ be16 (byteAt l i) (byteAt l (i + 1)) < 2 ^ 16 →
   P (be16 (byteAt l i) (byteAt l (i + 1)))) →
  ends E (get16 l i) P.
Proof.
  intros ??? HP. rewrite get16_ret by done. apply HP, be16_ok; by apply byteAt_ok.
Qed.

Lemma safe_get16m m l i P :
  0 ≤ m → bytes_ok l → 0 ≤ i → i + 1 < len l →
  (0 ≤ be16 (Z.land (byteAt l i) m) (byteAt l (i + 1)) ≤ m * 256 + 255 →
   P (be16 (Z.land (byteAt l i) m) (byteAt l (i + 1)))) →
  ends E (get16m m l i) P.
Proof.
  intros ???? HP. rewrite get16m_ret by done. apply HP, be16m_ok; [done |].
  by apply byteAt_ok.
Qed.

Lemma safe_get32 l i P :
  bytes_ok l → 0 ≤ i → i + 3 < len l → (∀ v, 0 ≤ v < 2 ^ 32 → P v) → ends E (get32 l i) P.
Proof.
  intros ??? HP. unfold get32. apply safe_bind, safe_get16; [done | lia | lia | intros Hh].
  apply safe_bind, safe_get16; [done | lia | lia | intros Hl]. simpl. apply HP.
  rewrite lor_shift by lia. lia.
Qed.

End Reads.

(** ** Reading back a layout *)

(** The two bytes of a 16-bit word, [PutUint16]. *)
Definition be16bytes (x : Z) : list Z := [u8 (Z.shiftr x 8); u8 x].

Lemma len_be16bytes x : len (be16bytes x) = 2.
Proof. done. Qed.

Lemma be16bytes_ok x : bytes_ok (be16bytes x).
Proof. repeat (apply Forall_cons; split; [apply u8_ok |]). apply Forall_nil_2. Qed.

Lemma idx_app {A} (pre : list A) x post i : len pre = i → (pre ++ x :: post)![i] = Ret x.
Proof.
  intros <-. apply idx_lookup; [apply len_nonneg |]. unfold len. rewrite Nat2Z.id.
  by rewrite list_lookup_middle.
Qed.

Lemma slice_app {A} (pre k post : list A) a b :
  len pre = a → b = a + len k → (pre ++ k ++ post)![a; b] = Ret k.
Proof.
  intros <- ->. pose proof (len_nonneg pre). pose proof (len_nonneg k). pose proof (len_nonneg post).
  rewrite slice_sub by (rewrite ?len_app; lia). by rewrite (sub_app_exact pre k post _ _ eq_refl eq_refl).
Qed.

Lemma get16_app pre x post i :
  len pre = i → 0 ≤ x < 2 ^ 16 → get16 (pre ++ be16bytes x ++ post) i = Ret x.
Proof.
  intros Hi Hx. unfold get16, be16bytes. cbn [app].
  rewrite (idx_app pre _ _ i Hi). cbn.
  change (pre ++ u8 (x ≫ 8) :: u8 x :: post) with (pre ++ [u8 (x ≫ 8)] ++ u8 x :: post).
  rewrite app_assoc, idx_app by (rewrite len_app; subst; done). cbn. by rewrite be16_split.
Qed.

Section LoopRead.
Context {E St R : Type}.
Context (enc : E → list Z) (step : St → E → St) (fin : St → R).
Context (body : St * Z → outcome (St * Z + R)) (s : list Z).

(** A loop that reads the encodings of [es] one after the other, and stops at
    the end of the last one. *)
Lemma loop_read es pre post acc n :
  s = pre ++ concat (map enc es) ++ post →
  (∀ pre e rest acc, e ∈ es → s = pre ++ enc e ++ rest → len post ≤ len rest →
     body (acc, len pre) = continue (step acc e, len pre + len (enc e))) →
  (∀ acc, body (acc, len s - len post) = break (fin acc)) →
  (length es < n)%nat →
  loop n body (acc, len pre) = Ret (fin (fold_left step es acc)).
Proof.
  revert pre acc n. induction es as [| e es IH]; intros pre acc [| n] Hs Hstep Hstop Hn;
    simpl in Hn; try lia; rewrite loop_S; simpl in Hs.
  - assert (len pre = len s - len post) as -> by (rewrite Hs, len_app; lia). by rewrite Hstop.
  - rewrite <- app_assoc in Hs.
    rewrite (Hstep pre e (concat (map enc es) ++ post) acc) by
      (done || set_solver || (rewrite len_app; pose proof (len_nonneg (concat (map enc es))); lia)).
    cbn. rewrite <- len_app. apply IH; [by rewrite Hs, app_assoc | | done | lia].
    intros pre' e' rest' acc' He' Hs' Hl'. apply (Hstep pre' e' rest' acc'); [set_solver | done | done].
Qed.

End LoopRead.

Lemma concat_fit {E} (enc : E → list Z) es e : e ∈ es → len (enc e) ≤ len (concat (map enc es)).
Proof.
  induction es as [| e' es IH]; [by intros ?%elem_of_nil |]. intros [-> | Hin]%elem_of_cons; cbn [map concat];
    rewrite len_app.
  - pose proof (len_nonneg (concat (map enc es))). lia.
  - pose proof (len_nonneg (enc e')). specialize (IH Hin). lia.
Qed.

Lemma concat_length_ge {E} (enc : E → list Z) es :
  (∀ e, enc e ≠ []) → (length es ≤ length (concat (map enc es)))%nat.
Proof.
  intros He. induction es as [| e es IH]; simpl; [done |]. rewrite length_app.
  specialize (He e). destruct (enc e); simpl; [done | lia].
Qed.

(** ** Automation *)

Create HintDb go discriminated.
#[export] Hint Resolve bytes_ok_sub bytes_ok_app bytes_ok_take bytes_ok_drop
  Forall_nil_2 : go.
Create Rewrite HintDb golen.
#[export] Hint Rewrite @len_nil @len_cons @len_app @len_replicate : golen.

(** Boolean tests in hypotheses, as propositions lia understands. *)
Ltac bools :=
  repeat match goal with
  | H : true = false |- _ => discriminate H
  | H : false = true |- _ => discriminate H
  | H : _ || _ = false |- _ => apply orb_false_iff in H as [??]
  | H : _ && _ = true |- _ => apply andb_true_iff in H as [??]
  | H : negb _ = false |- _ => apply negb_false_iff in H
  | H : negb _ = true |- _ => apply negb_true_iff in H
  | H : (_ <? _) = false |- _ => apply Z.ltb_ge in H
  | H : (_ <? _) = true |- _ => apply Z.ltb_lt in H
  | H : (_ <=? _) = false |- _ => apply Z.leb_gt in H
  | H : (_ <=? _) = true |- _ => apply Z.leb_le in H
  | H : (_ =? _) = false |- _ => apply Z.eqb_neq in H
  | H : (_ =? _) = true |- _ => apply Z.eqb_eq in H
  end.

(** Evaluate the monad's operations, and nothing else. *)
Ltac run := cbn beta iota; cbn [mbind outcome_bind fmap outcome_fmap orM andM mret outcome_ret caught
                 errorIf fst snd].

Ltac side := solve [ assumption | eauto with go | unfold byte_ok in *; lia ].

(** One symbolic step of a [safe] goal; [go] runs a straight-line body. *)
Ltac go_step :=
  match goal with
  | |- ends _ (mbind _ _) _ => apply safe_bind
  | |- ends _ (fmap _ _) _ => apply safe_fmap
  | |- ends _ (idx _ _) _ => first [ apply safe_byte; [side | side | intros ?]
                                 | apply safe_elem; [side | intros ? ?] ]
  | |- ends _ (slice _ _ _) _ => apply safe_slice; [side | side | intros ?]
  | |- ends _ (get16 _ _) _ => apply safe_get16; [side | side | side | intros ?]
  | |- ends _ (get16m _ _ _) _ => apply safe_get16m; [side | side | side | side | intros ?]
  | |- ends _ (get32 _ _) _ => apply safe_get32; [side | side | side | intros ? ?]
  | |- ends _ (errorIf _ _) _ => apply safe_errorIf; intros ?; bools; try first [exact I | exact eq_refl]
  | |- ends _ (orM _ _) _ => apply safe_orM
  | |- ends _ (andM _ _) _ => apply safe_andM
  | |- ends _ (Err _) _ => first [exact I | exact eq_refl | assumption | idtac]
  | |- ends _ (Ret _) _ => apply safe_ret
  | |- ends _ (continue _) _ => apply safe_continue
  | |- ends _ (break _) _ => apply safe_break
  | |- ends _ (match ?b with true => _ | false => _ end) _ => destruct b eqn:?; bools
  | |- match ?b with true => _ | false => _ end => destruct b eqn:?; bools
  end; cbn beta iota.
Ltac go := repeat go_step.
