(* ===== verification/Crc32.v ===== *)
(** * CRC-32/MPEG-2 ([ts/section.go])

    The table-driven checksum every PSI/SI section carries: the table
    builder, the byte loop, their equivalence with the bit-serial shift
    register of ISO/IEC 13818-1 Annex A, the self-check that
    [Section.ValidateCRC] relies on, and the detection of every error burst
    of at most four bytes. *)

From S2P Require Import Prelude.

(** ** The code *)

(** One round of the inner loop of [makeCRC32MPEG2Table]. *)
Definition crcTableRound (crc : Z) : Z :=
  if bit crc 0x80000000
  then Z.lxor (u32 (Z.shiftl crc 1)) 0x04c11db7
  else u32 (Z.shiftl crc 1).

Definition makeCRC32MPEG2Table : list Z :=
  map (λ i : nat, Nat.iter 8 crcTableRound (u32 (Z.shiftl (Z.of_nat i) 24))) (seq 0 256).

Definition crc32MPEG2Table : list Z := Eval vm_compute in makeCRC32MPEG2Table.

(** Indexing the [256]uint32 table with a byte is always in range. *)
Definition crcTableAt (i : Z) : Z := byteAt crc32MPEG2Table i.

Definition crcStep (crc b : Z) : Z :=
  Z.lxor (u32 (Z.shiftl crc 8)) (crcTableAt (Z.lxor (u8 (Z.shiftr crc 24)) b)).

Definition crc32MPEG2 (data : list Z) : Z := fold_left crcStep data 0xffffffff.

(** ** Reference: the bit-serial shift register *)

Definition lfsr (crc : Z) (b : bool) : Z :=
  Z.lxor (u32 (Z.shiftl crc 1)) (if xorb (Z.testbit crc 31) b then 0x04c11db7 else 0).

Definition byteBits (b : Z) : list bool :=
  map (λ i, Z.testbit b (Z.of_nat i)) (rev (seq 0 8)).

Definition crcSerial (data : list Z) : Z :=
  fold_left lfsr (flat_map byteBits data) 0xffffffff.

(** ** Words *)

Definition word32 (x : Z) : Prop := 0 ≤ x < 2 ^ 32.

Lemma u32_land x : u32 x = Z.land x (Z.ones 32).
Proof. unfold u32. by rewrite Z.land_ones by lia. Qed.
Lemma u8_land x : u8 x = Z.land x (Z.ones 8).
Proof. unfold u8. by rewrite Z.land_ones by lia. Qed.

Lemma land_lxor_distr x y m : Z.land (Z.lxor x y) m = Z.lxor (Z.land x m) (Z.land y m).
Proof.
  apply Z.bits_inj'. intros k _. rewrite Z.lxor_spec, !Z.land_spec, Z.lxor_spec.
  by destruct (Z.testbit x k), (Z.testbit y k), (Z.testbit m k).
Qed.

Lemma u32_lxor x y : u32 (Z.lxor x y) = Z.lxor (u32 x) (u32 y).
Proof. rewrite !u32_land. apply land_lxor_distr. Qed.
Lemma u8_lxor x y : u8 (Z.lxor x y) = Z.lxor (u8 x) (u8 y).
Proof. rewrite !u8_land. apply land_lxor_distr. Qed.

Lemma lxor_pow2_bound n x y :
  0 ≤ n → 0 ≤ x < 2 ^ n → 0 ≤ y < 2 ^ n → 0 ≤ Z.lxor x y < 2 ^ n.
Proof.
  intros Hn Hx Hy.
  replace (Z.lxor x y) with (Z.lxor x y mod 2 ^ n); [apply Z.mod_pos_bound; lia |].
  rewrite <- Z.land_ones, land_lxor_distr, !Z.land_ones, !Z.mod_small by lia. done.
Qed.

Lemma word32_lxor x y : word32 x → word32 y → word32 (Z.lxor x y).
Proof. apply (lxor_pow2_bound 32); lia. Qed.
Lemma byte_lxor x y : byte_ok x → byte_ok y → byte_ok (Z.lxor x y).
Proof. apply (lxor_pow2_bound 8); lia. Qed.

Lemma lxor_cancel_l x y z : Z.lxor x y = Z.lxor x z → y = z.
Proof.
  intros E. apply (f_equal (Z.lxor x)) in E.
  by rewrite <- !Z.lxor_assoc, !Z.lxor_nilpotent, !Z.lxor_0_l in E.
Qed.

Lemma lxor_swap a b c d :
  Z.lxor (Z.lxor a b) (Z.lxor c d) = Z.lxor (Z.lxor a c) (Z.lxor b d).
Proof.
  rewrite !Z.lxor_assoc. f_equal. rewrite <- !Z.lxor_assoc. f_equal. apply Z.lxor_comm.
Qed.

(** ** Facts about the table, by computation over its 256 entries *)

Definition allBytes (P : Z → bool) : bool := forallb (λ i, P (Z.of_nat i)) (seq 0 256).

Lemma allBytes_spec P : allBytes P = true → ∀ i, byte_ok i → P i = true.
Proof.
  unfold allBytes, byte_ok. rewrite forallb_forall. intros H i Hi.
  rewrite <- (Z2Nat.id i) by lia. apply H, in_seq. lia.
Qed.

Lemma crcTable_word i : byte_ok i → word32 (crcTableAt i).
Proof.
  intros Hi.
  assert (allBytes (λ i, (0 <=? crcTableAt i) && (crcTableAt i <? 2 ^ 32)) = true) as H
    by by vm_compute.
  apply (allBytes_spec _ H) in Hi. bools. unfold word32. lia.
Qed.

(** The low bytes of the entries are a permutation of 0..255, so an entry
    determines its index. *)
Lemma crcTable_inj i j :
  byte_ok i → byte_ok j → u8 (crcTableAt i) = u8 (crcTableAt j) → i = j.
Proof.
  intros Hi Hj E.
  set (inv := λ v, Z.of_nat (default 0%nat (fst <$> list_find (λ x, u8 x = v) crc32MPEG2Table))).
  assert (allBytes (λ i, inv (u8 (crcTableAt i)) =? i) = true) as H by by vm_compute.
  apply (allBytes_spec _ H) in Hi. apply (allBytes_spec _ H) in Hj. bools. congruence.
Qed.

Lemma crcTable_0 : crcTableAt 0 = 0.
Proof. done. Qed.

(** ** The step function *)

Lemma crcStep_word crc b : byte_ok b → word32 (crcStep crc b).
Proof.
  intros. apply word32_lxor; [apply u32_ok |].
  apply crcTable_word, byte_lxor; [apply u8_ok | done].
Qed.

Lemma crc_word_from data c : bytes_ok data → word32 c → word32 (fold_left crcStep data c).
Proof.
  intros Hd. revert c. induction Hd as [| b data Hb Hd IH]; simpl; intros c Hc; [done |].
  apply IH. by apply crcStep_word.
Qed.

Lemma crc_word data : bytes_ok data → word32 (crc32MPEG2 data).
Proof. intros. apply crc_word_from; [done |]. unfold word32. lia. Qed.

Lemma u8_u32_shiftl8 x : u8 (u32 (Z.shiftl x 8)) = 0.
Proof.
  rewrite u8_land, u32_land. apply Z.bits_inj'. intros k Hk.
  rewrite !Z.land_spec, Z.bits_0, Z.shiftl_spec by lia.
  destruct (Z.ltb_spec k 8); [rewrite Z.testbit_neg_r by lia; done |].
  rewrite (Z.ones_spec_high 8 k) by lia. apply andb_false_r.
Qed.

Lemma crcStep_low crc b :
  u8 (crcStep crc b) = u8 (crcTableAt (Z.lxor (u8 (Z.shiftr crc 24)) b)).
Proof. unfold crcStep. by rewrite u8_lxor, u8_u32_shiftl8, Z.lxor_0_l. Qed.

Lemma crcStep_inj_byte crc b b' :
  byte_ok b → byte_ok b' → crcStep crc b = crcStep crc b' → b = b'.
Proof.
  intros Hb Hb' E. apply (f_equal u8) in E. rewrite !crcStep_low in E.
  apply crcTable_inj in E; [| by apply byte_lxor; [apply u8_ok |] ..].
  by apply lxor_cancel_l in E.
Qed.

Lemma word32_split c : word32 c → c = u8 (Z.shiftr c 24) * 2 ^ 24 + u32 (Z.shiftl c 8) / 2 ^ 8.
Proof.
  unfold word32. intros. unfold u8, u32. rewrite Z.shiftr_div_pow2, Z.shiftl_mul_pow2 by lia.
  Z.div_mod_to_equations. lia.
Qed.

Lemma crcStep_inj_crc c c' b :
  word32 c → word32 c' → byte_ok b → crcStep c b = crcStep c' b → c = c'.
Proof.
  intros Hc Hc' Hb E. pose proof E as E8. apply (f_equal u8) in E8.
  rewrite !crcStep_low in E8.
  apply crcTable_inj in E8; [| by apply byte_lxor; [apply u8_ok |] ..].
  unfold crcStep in E. rewrite E8 in E. rewrite !(Z.lxor_comm _ (crcTableAt _)) in E.
  apply lxor_cancel_l in E. rewrite !(Z.lxor_comm _ b) in E8. apply lxor_cancel_l in E8.
  by rewrite (word32_split c), (word32_split c'), E, E8.
Qed.

Lemma crc_inj_from data c c' :
  bytes_ok data → word32 c → word32 c' →
  fold_left crcStep data c = fold_left crcStep data c' → c = c'.
Proof.
  intros Hd. revert c c'. induction Hd as [| b data Hb Hd IH]; simpl; intros c c' Hc Hc' E;
    [done |].
  apply IH in E; [| by apply crcStep_word ..]. by apply crcStep_inj_crc in E.
Qed.

(** ** Appending the checksum *)

(** The four bytes of a 32-bit word, most significant first, as
    [BuildPATSection] writes them. *)
Definition be32bytes (c : Z) : list Z :=
  [u8 (Z.shiftr c 24); u8 (Z.shiftr c 16); u8 (Z.shiftr c 8); u8 c].

Lemma crcStep_shift c : crcStep c (u8 (Z.shiftr c 24)) = u32 (Z.shiftl c 8).
Proof. unfold crcStep. by rewrite Z.lxor_nilpotent, crcTable_0, Z.lxor_0_r. Qed.

(** Shifting a word left by a byte brings the next byte to the top. *)
Lemma top_after_shift c n :
  0 ≤ n ≤ 24 → u8 (Z.shiftr c n) = u8 (Z.shiftr (u32 (Z.shiftl c (24 - n))) 24).
Proof.
  intros Hn. apply Z.bits_inj'. intros k Hk. rewrite !u8_land, u32_land, !Z.land_spec.
  rewrite !Z.shiftr_spec, Z.land_spec, Z.shiftl_spec by lia.
  destruct (Z.ltb_spec k 8);
    [| by rewrite (Z.ones_spec_high 8 k), !andb_false_r by lia].
  rewrite (Z.ones_spec_low 32) by lia. rewrite andb_true_r. do 2 f_equal. lia.
Qed.

Lemma u32_shiftl_shiftl c n m :
  0 ≤ n → 0 ≤ m → u32 (Z.shiftl (u32 (Z.shiftl c n)) m) = u32 (Z.shiftl c (n + m)).
Proof.
  intros. rewrite !u32_land. apply Z.bits_inj'. intros k Hk.
  rewrite !Z.land_spec, !Z.shiftl_spec by lia.
  destruct (Z.ltb_spec k 32);
    [| by rewrite (Z.ones_spec_high 32 k), !andb_false_r by lia].
  rewrite (Z.ones_spec_low 32 k), !andb_true_r by lia.
  destruct (Z.ltb_spec k m); [by rewrite !Z.testbit_neg_r by lia |].
  rewrite Z.land_spec, Z.shiftl_spec, Z.ones_spec_low, andb_true_r by lia. f_equal. lia.
Qed.

(** Running the register over its own contents clears it. *)
Lemma crc_self c : word32 c → fold_left crcStep (be32bytes c) c = 0.
Proof.
  intros Hc. unfold be32bytes. cbn [fold_left]. rewrite crcStep_shift.
  rewrite (top_after_shift c 16) by lia. change (24 - 16) with 8.
  rewrite crcStep_shift, u32_shiftl_shiftl by lia.
  rewrite (top_after_shift c 8) by lia. change (24 - 8) with (8 + 8).
  rewrite crcStep_shift, u32_shiftl_shiftl by lia.
  rewrite <- (Z.shiftr_0_r c) at 2. rewrite (top_after_shift c 0) by lia.
  change (24 - 0) with (8 + 8 + 8). rewrite crcStep_shift, u32_shiftl_shiftl by lia.
  unfold u32. rewrite Z.shiftl_mul_pow2 by lia. change (8 + 8 + 8 + 8) with 32.
  apply Z.mod_mul. lia.
Qed.

Lemma be32bytes_ok c : bytes_ok (be32bytes c).
Proof. repeat constructor; apply u8_ok. Qed.

(** Data followed by its checksum has checksum zero: what a section built by
    [BuildPATSection] carries is what [Section.ValidateCRC] tests. *)
Lemma crc_append data :
  bytes_ok data → crc32MPEG2 (data ++ be32bytes (crc32MPEG2 data)) = 0.
Proof.
  intros Hd. unfold crc32MPEG2 at 1. rewrite fold_left_app. by apply crc_self, crc_word.
Qed.

(** ** The table computes the shift register *)

Lemma u32_shiftl_lxor x y n :
  u32 (Z.shiftl (Z.lxor x y) n) = Z.lxor (u32 (Z.shiftl x n)) (u32 (Z.shiftl y n)).
Proof. by rewrite Z.shiftl_lxor, u32_lxor. Qed.

Lemma lfsr_lxor x y p q : lfsr (Z.lxor x y) (xorb p q) = Z.lxor (lfsr x p) (lfsr y q).
Proof.
  unfold lfsr. rewrite u32_shiftl_lxor, Z.lxor_spec, (lxor_swap (u32 (Z.shiftl x 1))). f_equal.
  by destruct (Z.testbit x 31), (Z.testbit y 31), p, q.
Qed.

Lemma lfsr_bits_lxor (ps qs : list bool) x y :
  length ps = length qs →
  fold_left lfsr (zip_with xorb ps qs) (Z.lxor x y) =
  Z.lxor (fold_left lfsr ps x) (fold_left lfsr qs y).
Proof.
  revert qs x y. induction ps as [| p ps IH]; intros [| q qs] x y; simpl; try done.
  intros [= E]. by rewrite lfsr_lxor, IH.
Qed.

(** Below bit 24 a register is only shifted by eight zero bits. *)
Lemma lfsr_zeros_low y n :
  0 ≤ y < 2 ^ 24 → (n ≤ 8)%nat →
  fold_left lfsr (replicate n false) y = y * 2 ^ Z.of_nat n.
Proof.
  intros Hy. induction n as [| n IH]; intros Hn; [simpl; lia |].
  rewrite replicate_S_end, fold_left_app, IH by lia. cbn [fold_left]. unfold lfsr.
  set (z := y * 2 ^ Z.of_nat n).
  assert (0 ≤ z < 2 ^ 31) as Hz.
  { unfold z. pose proof (Z.pow_pos_nonneg 2 (Z.of_nat n)).
    assert (2 ^ Z.of_nat n ≤ 2 ^ 7) by (apply Z.pow_le_mono_r; lia). nia. }
  assert (Z.testbit z 31 = false) as ->.
  { rewrite <- (Z.mod_small z (2 ^ 31)) by lia. apply Z.mod_pow2_bits_high. lia. }
  cbn [xorb]. rewrite Z.lxor_0_r, Z.shiftl_mul_pow2 by lia. unfold u32.
  rewrite Z.mod_small by lia.
  unfold z. rewrite Nat2Z.inj_succ, Z.pow_succ_r by lia. lia.
Qed.

(** The top byte: the two table readings below are computations over the 256
    bytes, and linearity combines them. *)
Definition zeros8 : list bool := replicate 8 false.

Lemma lfsr_table b :
  byte_ok b → fold_left lfsr zeros8 (Z.shiftl b 24) = crcTableAt b ∧
              fold_left lfsr (byteBits b) 0 = crcTableAt b.
Proof.
  intros Hb.
  assert (allBytes (λ b, (fold_left lfsr zeros8 (Z.shiftl b 24) =? crcTableAt b) &&
    (fold_left lfsr (byteBits b) 0 =? crcTableAt b)) = true) as H by by vm_compute.
  pose proof (allBytes_spec _ H b Hb) as E. cbv beta in E.
  apply andb_true_iff in E as [E1 E2]. apply Z.eqb_eq in E1, E2. split; assumption.
Qed.

Lemma zip_xorb_false ps : zip_with xorb ps (replicate (length ps) false) = ps.
Proof. induction ps as [| p ps IH]; simpl; [done |]. by rewrite xorb_false_r, IH. Qed.

Lemma lfsr_top h b :
  byte_ok h → byte_ok b →
  fold_left lfsr (byteBits b) (Z.shiftl h 24) = crcTableAt (Z.lxor h b).
Proof.
  intros Hh Hb. destruct (lfsr_table h Hh) as [Hh' _]. destruct (lfsr_table b Hb) as [Hb' Hb''].
  destruct (lfsr_table (Z.lxor h b)) as [<- _]; [by apply byte_lxor |].
  rewrite Z.shiftl_lxor. change zeros8 with (zip_with xorb zeros8 zeros8) at 1.
  rewrite lfsr_bits_lxor, Hh', Hb', <- Hb'', <- Hh' by done.
  rewrite <- (Z.lxor_0_l (Z.shiftl h 24)) at 1.
  rewrite <- (zip_xorb_false (byteBits b)) at 1.
  rewrite lfsr_bits_lxor by done. apply Z.lxor_comm.
Qed.

Lemma word32_lxor_split c :
  word32 c → c = Z.lxor (Z.shiftl (u8 (Z.shiftr c 24)) 24) (c mod 2 ^ 24).
Proof.
  intros Hc. apply Z.bits_inj'. intros k Hk.
  rewrite Z.lxor_spec, Z.shiftl_spec, u8_land, Z.land_spec by lia.
  destruct (Z.ltb_spec k 24).
  - by rewrite (Z.testbit_neg_r _ (k - 24)), Z.mod_pow2_bits_low by lia.
  - rewrite Z.mod_pow2_bits_high, xorb_false_r, Z.shiftr_spec by lia.
    replace (k - 24 + 24) with k by lia.
    destruct (Z.ltb_spec k 32);
      [by rewrite (Z.ones_spec_low 8), andb_true_r by lia |].
    replace c with (c mod 2 ^ 32) by (apply Z.mod_small; done).
    by rewrite Z.mod_pow2_bits_high by lia.
Qed.

Lemma crcStep_lfsr c b :
  word32 c → byte_ok b → crcStep c b = fold_left lfsr (byteBits b) c.
Proof.
  intros Hc Hb. rewrite (word32_lxor_split c Hc) at 2.
  rewrite <- (zip_xorb_false (byteBits b)), lfsr_bits_lxor by done.
  rewrite lfsr_top by (done || apply u8_ok). change (length (byteBits b)) with 8%nat.
  rewrite lfsr_zeros_low by (first [apply Z.mod_pos_bound | idtac]; lia).
  rewrite Z.lxor_comm. unfold crcStep. f_equal. unfold u32. rewrite Z.shiftl_mul_pow2 by lia.
  change (Z.of_nat 8) with 8. unfold word32 in Hc. Z.div_mod_to_equations. lia.
Qed.

Lemma crc_serial_from data c :
  bytes_ok data → word32 c →
  fold_left crcStep data c = fold_left lfsr (flat_map byteBits data) c.
Proof.
  intros Hd. revert c. induction Hd as [| b data Hb Hd IH]; intros c Hc; [done |].
  cbn [fold_left flat_map]. rewrite fold_left_app, <- crcStep_lfsr by done.
  apply IH. by apply crcStep_word.
Qed.

(** ** Bursts *)

Lemma shiftl_bound x n m :
  0 ≤ n → 0 ≤ m → 0 ≤ x < 2 ^ m → 0 ≤ Z.shiftl x n < 2 ^ (n + m).
Proof.
  intros. rewrite Z.shiftl_mul_pow2, Z.pow_add_r by lia.
  pose proof (Z.pow_pos_nonneg 2 n). nia.
Qed.

(** A step absorbs its byte into the top of the register. *)
Lemma crcStep_absorb c b :
  byte_ok b → crcStep c b = crcStep (Z.lxor c (Z.shiftl b 24)) 0.
Proof.
  intros Hb. unfold crcStep. rewrite u32_shiftl_lxor, Z.lxor_0_r.
  replace (u32 (Z.shiftl (Z.shiftl b 24) 8)) with 0.
  2:{ rewrite Z.shiftl_shiftl by lia. unfold u32. rewrite Z.shiftl_mul_pow2 by lia.
      change (24 + 8) with 32. by rewrite Z.mod_mul by lia. }
  rewrite Z.lxor_0_r. do 2 f_equal. rewrite Z.shiftr_lxor, u8_lxor, Z.shiftr_shiftl_r by lia.
  rewrite Z.sub_diag, Z.shiftr_0_r. f_equal. unfold u8. by rewrite Z.mod_small.
Qed.

Lemma crcStep_low24 c y :
  0 ≤ y < 2 ^ 24 → crcStep (Z.lxor c y) 0 = Z.lxor (crcStep c 0) (Z.shiftl y 8).
Proof.
  intros Hy. unfold crcStep. rewrite u32_shiftl_lxor, Z.shiftr_lxor, u8_lxor.
  replace (Z.shiftr y 24) with 0
    by (rewrite Z.shiftr_div_pow2, Z.div_small by lia; done).
  change (u8 0) with 0. rewrite !Z.lxor_0_r.
  replace (u32 (Z.shiftl y 8)) with (Z.shiftl y 8)
    by (unfold u32; rewrite Z.shiftl_mul_pow2, Z.mod_small by lia; done).
  rewrite !Z.lxor_assoc. f_equal. apply Z.lxor_comm.
Qed.

(** Four bytes are one word absorbed up front. *)
Definition pack4 (a b c d : Z) : Z :=
  Z.lxor (Z.shiftl a 24) (Z.lxor (Z.shiftl b 16) (Z.lxor (Z.shiftl c 8) d)).

Lemma crc_four s a b c d :
  byte_ok a → byte_ok b → byte_ok c → byte_ok d →
  fold_left crcStep [a; b; c; d] s =
  fold_left crcStep [0; 0; 0; 0] (Z.lxor s (pack4 a b c d)).
Proof.
  intros Ha Hb Hc Hd. cbn [fold_left]. unfold pack4.
  assert (0 ≤ Z.shiftl b 16 < 2 ^ 24) by (apply (shiftl_bound b 16 8); done || lia).
  assert (0 ≤ Z.shiftl c 8 < 2 ^ 16) by (apply (shiftl_bound c 8 8); done || lia).
  assert (0 ≤ Z.shiftl c 16 < 2 ^ 24) by (apply (shiftl_bound c 16 8); done || lia).
  assert (0 ≤ Z.shiftl d 8 < 2 ^ 16) by (apply (shiftl_bound d 8 8); done || lia).
  assert (0 ≤ Z.shiftl d 16 < 2 ^ 24) by (apply (shiftl_bound d 16 8); done || lia).
  unfold byte_ok in Hd.
  assert (0 ≤ Z.lxor (Z.shiftl c 8) d < 2 ^ 16) by (apply lxor_pow2_bound; lia).
  rewrite <- (Z.lxor_assoc s), crcStep_low24 by (apply lxor_pow2_bound; lia).
  rewrite <- (crcStep_absorb s) by done.
  rewrite !Z.shiftl_lxor, !Z.shiftl_shiftl, <- Z.lxor_assoc by lia.
  change (16 + 8) with 24. change (8 + 8) with 16.
  rewrite crcStep_low24 by (apply lxor_pow2_bound; lia).
  rewrite <- crcStep_absorb by done.
  rewrite Z.shiftl_lxor, !Z.shiftl_shiftl, <- Z.lxor_assoc by lia.
  change (16 + 8) with 24. change (8 + 8) with 16.
  rewrite crcStep_low24 by lia. rewrite <- crcStep_absorb by done.
  rewrite Z.shiftl_shiftl by lia. change (16 + 8) with 24. by apply crcStep_absorb.
Qed.

Lemma testbit_byte_high x k : byte_ok x → 8 ≤ k → Z.testbit x k = false.
Proof.
  intros Hx Hk. replace x with (x mod 2 ^ 8) by (apply Z.mod_small, Hx).
  by rewrite Z.mod_pow2_bits_high by lia.
Qed.

Lemma pack4_bit a b c d k :
  byte_ok a → byte_ok b → byte_ok c → byte_ok d → 0 ≤ k < 8 →
  Z.testbit (pack4 a b c d) (k + 24) = Z.testbit a k ∧
  Z.testbit (pack4 a b c d) (k + 16) = Z.testbit b k ∧
  Z.testbit (pack4 a b c d) (k + 8) = Z.testbit c k ∧
  Z.testbit (pack4 a b c d) k = Z.testbit d k.
Proof.
  intros Ha Hb Hc Hd Hk. unfold pack4. rewrite !Z.lxor_spec, !Z.shiftl_spec by lia.
  repeat match goal with
  | |- context [Z.testbit ?x ?e] =>
      first [ rewrite (testbit_byte_high x e) by (done || lia)
            | rewrite (Z.testbit_neg_r x e) by lia
            | progress replace e with k by lia ]
  end.
  rewrite ?xorb_false_r, ?xorb_false_l. done.
Qed.

Lemma byte_bits_inj x y :
  byte_ok x → byte_ok y → (∀ k, 0 ≤ k < 8 → Z.testbit x k = Z.testbit y k) → x = y.
Proof.
  intros Hx Hy E. apply Z.bits_inj'. intros k Hk. destruct (Z.ltb_spec k 8); [by apply E |].
  by rewrite !testbit_byte_high.
Qed.

Lemma pack4_inj a b c d a' b' c' d' :
  byte_ok a → byte_ok b → byte_ok c → byte_ok d →
  byte_ok a' → byte_ok b' → byte_ok c' → byte_ok d' →
  pack4 a b c d = pack4 a' b' c' d' → [a; b; c; d] = [a'; b'; c'; d'].
Proof.
  intros Ha Hb Hc Hd Ha' Hb' Hc' Hd' E.
  assert (∀ k, 0 ≤ k < 8 → Z.testbit a k = Z.testbit a' k ∧ Z.testbit b k = Z.testbit b' k ∧
    Z.testbit c k = Z.testbit c' k ∧ Z.testbit d k = Z.testbit d' k) as Hk.
  { intros k Hk. destruct (pack4_bit a b c d k) as (<- & <- & <- & <-); try done.
    destruct (pack4_bit a' b' c' d' k) as (<- & <- & <- & <-); try done. by rewrite E. }
  f_equal; [| f_equal; [| f_equal; [| f_equal]]]; apply byte_bits_inj; try done;
    intros k ?; by apply Hk.
Qed.

Lemma pack4_word a b c d :
  byte_ok a → byte_ok b → byte_ok c → byte_ok d → word32 (pack4 a b c d).
Proof.
  intros Ha Hb Hc Hd. unfold pack4.
  assert (0 ≤ Z.shiftl a 24 < 2 ^ 32) by (apply (shiftl_bound a 24 8); done || lia).
  assert (0 ≤ Z.shiftl b 16 < 2 ^ 24) by (apply (shiftl_bound b 16 8); done || lia).
  assert (0 ≤ Z.shiftl c 8 < 2 ^ 16) by (apply (shiftl_bound c 8 8); done || lia).
  unfold byte_ok in Hd. apply word32_lxor; [done |].
  apply word32_lxor; [unfold word32; lia |]. apply word32_lxor; unfold word32; lia.
Qed.

(** The register after two different four-byte windows differs, whatever it
    held before them. *)
Lemma crc_four_inj s w w' :
  word32 s → bytes_ok w → bytes_ok w' → length w = 4%nat → length w' = 4%nat →
  fold_left crcStep w s = fold_left crcStep w' s → w = w'.
Proof.
  intros Hs Hw Hw' L L' E.
  destruct w as [| a [| b [| c [| d []]]]]; try done.
  destruct w' as [| a' [| b' [| c' [| d' []]]]]; try done.
  repeat match goal with H : bytes_ok (_ :: _) |- _ => apply Forall_cons in H as [??] end.
  repeat match goal with H : Forall byte_ok (_ :: _) |- _ => apply Forall_cons in H as [??] end.
  rewrite (crc_four s a b c d), (crc_four s a' b' c' d') in E by assumption.
  apply crc_inj_from in E.
  - apply lxor_cancel_l in E. by apply pack4_inj.
  - repeat constructor; lia.
  - apply word32_lxor, pack4_word; done.
  - apply word32_lxor, pack4_word; done.
Qed.

(** ** Properties *)

(** C39. The table-driven loop of [crc32MPEG2] computes the bit-serial
    CRC-32/MPEG-2 register (polynomial 0x04c11db7, initial value all ones, most
    significant bit first) of every byte string. *)
Theorem crc32_table_matches_serial data :
  bytes_ok data → crc32MPEG2 data = crcSerial data.
Proof. intros Hd. apply crc_serial_from; [done | unfold word32; lia]. Qed.

Lemma crc32_table_matches_serial_witness :
  crc32MPEG2 [0x31; 0x32; 0x33; 0x34; 0x35; 0x36; 0x37; 0x38; 0x39] = 0x0376e6e7 ∧
  crc32MPEG2 [0; 0xb0; 0xff] = crcSerial [0; 0xb0; 0xff].
Proof.
  split; [by vm_compute |]. apply crc32_table_matches_serial.
  repeat constructor; unfold byte_ok; lia.
Defined.

(** Every corruption confined to four consecutive bytes changes the
    checksum: two messages that differ exactly in such a window cannot both have
    the same CRC, so a section that validated before the corruption does not
    validate after it. *)
Theorem crc32_detects_burst pre w w' post :
  bytes_ok (pre ++ w ++ post) → bytes_ok w' → length w = 4%nat → length w' = 4%nat →
  w ≠ w' → crc32MPEG2 (pre ++ w ++ post) ≠ crc32MPEG2 (pre ++ w' ++ post).
Proof.
  intros Hok Hw' L L' Hne E.
  apply Forall_app in Hok as [Hpre Hok]. apply Forall_app in Hok as [Hw Hpost].
  unfold crc32MPEG2 in E. rewrite !fold_left_app in E.
  assert (word32 (fold_left crcStep pre 0xffffffff))
    by (apply crc_word_from; [done | unfold word32; lia]).
  apply crc_inj_from in E; [| done | by apply crc_word_from ..].
  by apply crc_four_inj in E.
Qed.

Lemma crc32_detects_burst_witness :
  crc32MPEG2 ([0] ++ [1; 2; 3; 4] ++ [5]) ≠ crc32MPEG2 ([0] ++ [1; 0x82; 3; 4] ++ [5]).
Proof.
  apply crc32_detects_burst; [| | done | done | discriminate];
    repeat constructor; unfold byte_ok; lia.
Defined.
