(* ===== verification/Packet.v ===== *)
(** * Transport stream packets ([ts/packet.go], accessors)

    The header accessors of [ts.Packet], translated with checked indexing, and
    their total counterparts on a well-formed 188-byte packet. *)

From S2P Require Import Prelude.

Definition PacketSize : Z := 188.
Definition SyncByte : Z := 0x47.

Definition Packet : Type := list Z.

(** ** The code *)

Definition TransportErrorIndicator (p : Packet) : outcome bool :=
  b ← p![1]; Ret (bit b 0x80).

Definition PayloadUnitStartIndicator (p : Packet) : outcome bool :=
  b ← p![1]; Ret (bit b 0x40).

Definition Priority (p : Packet) : outcome bool :=
  b ← p![1]; Ret (bit b 0x20).

Definition PID (p : Packet) : outcome Z := get16m 0x1f p 1.

(** [(p[3]>>4)&0x03 >= 2] *)
Definition HasAdaptationField (p : Packet) : outcome bool :=
  b ← p![3]; Ret (2 <=? Z.land (Z.shiftr b 4) 3).

(** [(p[3]>>4)&0x03 == 1 || (p[3]>>4)&0x03 == 3] *)
Definition HasPayload (p : Packet) : outcome bool :=
  b ← p![3];
  Ret ((Z.land (Z.shiftr b 4) 3 =? 1) || (Z.land (Z.shiftr b 4) 3 =? 3)).

Definition ContinuityCounter (p : Packet) : outcome Z :=
  b ← p![3]; Ret (Z.land b 0x0f).

Definition AdaptationFieldLength (p : Packet) : outcome Z :=
  short ← Ret (len p <? PacketSize) ||? (negb <$> HasAdaptationField p);
  if short : bool then Ret 0 else p![4].

Definition DiscontinuityIndicator (p : Packet) : outcome bool :=
  Ret (PacketSize <=? len p) &&? HasAdaptationField p &&?
  (n ← AdaptationFieldLength p; Ret (1 <=? n)) &&?
  (b ← p![5]; Ret (bit b 0x80)).

Definition PayloadOffset (p : Packet) : outcome Z :=
  af ← HasAdaptationField p;
  if af : bool then n ← AdaptationFieldLength p; Ret (5 + n) else Ret 4.

Definition ValidPayloadOffset (p : Packet) : outcome bool :=
  if len p <? PacketSize then Ret false
  else
    bad ← HasAdaptationField p &&? (off ← PayloadOffset p; Ret (PacketSize <? off));
    Ret (negb bad).

(** [nil] and an empty payload are both the empty list: the callers only test
    the length. *)
Definition Payload (p : Packet) : outcome (list Z) :=
  no ← (negb <$> HasPayload p) ||? (negb <$> ValidPayloadOffset p);
  if no : bool then Ret []
  else off ← PayloadOffset p; p![off; len p].

Definition IsNull (p : Packet) : outcome bool :=
  pid ← PID p; Ret (pid =? 0x1fff).

(** The 33-bit base and 9-bit extension, [None] when [ok] is false. *)
Definition ProgramClockReference (p : Packet) : outcome (option (Z * Z)) :=
  no ← Ret (len p <? PacketSize) ||? (negb <$> HasAdaptationField p) ||?
       (n ← AdaptationFieldLength p; Ret (n <? 7)) ||?
       (b ← p![5]; Ret (negb (bit b 0x10)));
  if no : bool then Ret None
  else
    b6 ← p![6]; b7 ← p![7]; b8 ← p![8]; b9 ← p![9]; b10 ← p![10]; b11 ← p![11];
    Ret (Some (Z.lor (Z.shiftl b6 25) (Z.lor (Z.shiftl b7 17) (Z.lor (Z.shiftl b8 9)
                 (Z.lor (Z.shiftl b9 1) (Z.shiftr b10 7)))),
               Z.lor (Z.shiftl (Z.land b10 1) 8) b11)).

(** ** Total readings of a full packet *)

Definition packet_ok (p : Packet) : Prop := bytes_ok p ∧ len p = PacketSize.

Definition afc (p : Packet) : Z := Z.land (Z.shiftr (byteAt p 3) 4) 3.
Definition hasAF (p : Packet) : bool := 2 <=? afc p.
Definition hasPL (p : Packet) : bool := (afc p =? 1) || (afc p =? 3).
Definition plOff (p : Packet) : Z := if hasAF p then 5 + byteAt p 4 else 4.
Definition pidOf (p : Packet) : Z := be16 (Z.land (byteAt p 1) 0x1f) (byteAt p 2).

Section full_packet.
Context (p : Packet) (Hp : packet_ok p).

Lemma packet_byte i : 0 ≤ i < 188 → p![i] = Ret (byteAt p i).
Proof. destruct Hp as [_ Hl]. unfold PacketSize in Hl. intros. by apply idx_byteAt; rewrite Hl. Qed.

Lemma TransportErrorIndicator_full : TransportErrorIndicator p = Ret (bit (byteAt p 1) 0x80).
Proof. unfold TransportErrorIndicator. by rewrite packet_byte. Qed.
Lemma PayloadUnitStartIndicator_full :
  PayloadUnitStartIndicator p = Ret (bit (byteAt p 1) 0x40).
Proof. unfold PayloadUnitStartIndicator. by rewrite packet_byte. Qed.
Lemma PID_full : PID p = Ret (pidOf p).
Proof. unfold PID, get16m. by rewrite !packet_byte. Qed.
Lemma HasAdaptationField_full : HasAdaptationField p = Ret (hasAF p).
Proof. unfold HasAdaptationField. by rewrite packet_byte. Qed.
Lemma HasPayload_full : HasPayload p = Ret (hasPL p).
Proof. unfold HasPayload. by rewrite packet_byte. Qed.
Lemma ContinuityCounter_full : ContinuityCounter p = Ret (Z.land (byteAt p 3) 0x0f).
Proof. unfold ContinuityCounter. by rewrite packet_byte. Qed.
Lemma AdaptationFieldLength_full :
  AdaptationFieldLength p = Ret (if hasAF p then byteAt p 4 else 0).
Proof.
  unfold AdaptationFieldLength. destruct Hp as [_ ->]. simpl.
  rewrite HasAdaptationField_full. simpl. destruct (hasAF p); simpl; [| done].
  by rewrite packet_byte.
Qed.
Lemma PayloadOffset_full : PayloadOffset p = Ret (plOff p).
Proof.
  unfold PayloadOffset, plOff. rewrite HasAdaptationField_full, AdaptationFieldLength_full.
  simpl. by destruct (hasAF p).
Qed.
Lemma ValidPayloadOffset_full :
  ValidPayloadOffset p = Ret (negb (hasAF p && (188 <? plOff p))).
Proof.
  unfold ValidPayloadOffset. destruct Hp as [_ ->]. simpl.
  rewrite HasAdaptationField_full, PayloadOffset_full. simpl. by destruct (hasAF p).
Qed.
Lemma IsNull_full : IsNull p = Ret (pidOf p =? 0x1fff).
Proof. unfold IsNull. by rewrite PID_full. Qed.

Lemma pidOf_bound : 0 ≤ pidOf p < 0x2000.
Proof.
  unfold pidOf. destruct Hp as [Hb _].
  pose proof (be16m_ok (byteAt p 1) _ 0x1f ltac:(lia) (byteAt_ok p 2 Hb)). lia.
Qed.

Lemma plOff_bound : 4 ≤ plOff p.
Proof.
  unfold plOff. destruct (hasAF p); [| lia]. destruct Hp as [Hb _].
  pose proof (byteAt_ok p 4 Hb) as [? _]. lia.
Qed.

(** The payload a full packet carries: nothing without a payload flag or
    with an adaptation field that overruns the packet, the rest after the
    header and adaptation field otherwise. *)
Definition payloadOf : list Z :=
  if hasPL p && (plOff p <=? 188) then sub p (plOff p) 188 else [].

Lemma Payload_full : Payload p = Ret payloadOf.
Proof.
  unfold Payload, payloadOf. rewrite HasPayload_full, ValidPayloadOffset_full, PayloadOffset_full.
  simpl. destruct (hasPL p); simpl; [| done].
  pose proof plOff_bound as Hlo. destruct Hp as [_ Hl]. unfold PacketSize in Hl.
  destruct (Z.leb_spec (plOff p) 188), (Z.ltb_spec 188 (plOff p)); try lia;
    rewrite ?andb_false_r; simpl.
  - rewrite Hl, slice_sub by lia. done.
  - unfold plOff in *. destruct (hasAF p); [done | lia].
Qed.

Lemma payloadOf_ok : bytes_ok payloadOf.
Proof.
  unfold payloadOf. destruct (_ && _); [| constructor]. apply bytes_ok_sub, Hp.
Qed.

Lemma payloadOf_bound : len payloadOf ≤ 184.
Proof.
  unfold payloadOf. destruct (_ && _) eqn:E; [| rewrite len_nil; lia]. bools.
  pose proof plOff_bound. destruct Hp as [_ Hl]. unfold PacketSize in Hl.
  rewrite len_sub by lia. lia.
Qed.

Lemma ProgramClockReference_safe :
  returns (ProgramClockReference p) (λ r, match r with
    | Some (base, ext) => 0 ≤ base < 2 ^ 33 ∧ 0 ≤ ext < 2 ^ 9 | None => True end).
Proof.
  unfold ProgramClockReference. destruct Hp as [Hb Hl]. rewrite Hl.
  rewrite HasAdaptationField_full, AdaptationFieldLength_full. unfold PacketSize. simpl.
  assert (∀ i, 0 ≤ i < 188 → 0 ≤ i < len p) as R by (rewrite Hl; unfold PacketSize; lia).
  rewrite !(idx_byteAt p) by (apply R; lia). simpl.
  destruct (hasAF p); simpl; [| done].
  destruct (byteAt p 4 <? 7); simpl; [done |]. destruct (bit (byteAt p 5) 16); simpl; [| done].
  pose proof (byteAt_ok p 6 Hb). pose proof (byteAt_ok p 7 Hb). pose proof (byteAt_ok p 8 Hb).
  pose proof (byteAt_ok p 9 Hb) as H9. pose proof (byteAt_ok p 10 Hb) as H10.
  pose proof (byteAt_ok p 11 Hb) as H11. unfold byte_ok in *.
  assert (0 ≤ Z.shiftr (byteAt p 10) 7 < 2) by
    (rewrite Z.shiftr_div_pow2 by lia; Z.div_mod_to_equations; lia).
  pose proof (land_mask (byteAt p 10) 1).
  assert (0 ≤ Z.lor (Z.shiftl (byteAt p 9) 1) (Z.shiftr (byteAt p 10) 7) < 2 ^ 9)
    by (rewrite lor_shift by lia; lia).
  assert (0 ≤ Z.lor (Z.shiftl (byteAt p 8) 9)
    (Z.lor (Z.shiftl (byteAt p 9) 1) (Z.shiftr (byteAt p 10) 7)) < 2 ^ 17)
    by (rewrite (lor_shift (byteAt p 8)) by lia; lia).
  assert (0 ≤ Z.lor (Z.shiftl (byteAt p 7) 17) (Z.lor (Z.shiftl (byteAt p 8) 9)
    (Z.lor (Z.shiftl (byteAt p 9) 1) (Z.shiftr (byteAt p 10) 7))) < 2 ^ 25)
    by (rewrite (lor_shift (byteAt p 7)) by lia; lia).
  split; rewrite lor_shift by lia; lia.
Qed.
End full_packet.

Create Rewrite HintDb packet.
#[export] Hint Rewrite TransportErrorIndicator_full PayloadUnitStartIndicator_full PID_full
  HasAdaptationField_full HasPayload_full ContinuityCounter_full AdaptationFieldLength_full
  PayloadOffset_full ValidPayloadOffset_full IsNull_full Payload_full : packet.
