(* ===== verification/Section.v ===== *)
(** * PSI/SI sections and their reassembly ([ts/section.go])

    [ts.Section] with its header accessors and CRC test, and
    [ts.SectionAssembler], the per-PID state machine that rebuilds sections
    from the payloads of transport stream packets. *)

From S2P Require Import Prelude Crc32 Packet.

(** The Go type [ts.Section]; [Section] is a keyword of the vernacular. *)
Definition SectionBytes : Type := list Z.

(** ** The code: accessors *)

Definition TableID (s : SectionBytes) : outcome Z := s![0].

Definition SectionSyntaxIndicator (s : SectionBytes) : outcome bool :=
  b ← s![1]; Ret (bit b 0x80).

Definition SectionLength (s : SectionBytes) : outcome Z := get16m 0x0f s 1.

Definition TotalLength (s : SectionBytes) : outcome Z :=
  n ← SectionLength s; Ret (3 + n).

(** [s.TotalLength() > len(s)], the guard every parser repeats. *)
Definition overruns (s : SectionBytes) : outcome bool :=
  n ← TotalLength s; Ret (len s <? n).

Definition ValidateCRC (s : SectionBytes) : outcome bool :=
  bad ← Ret (len s <? 4) ||? overruns s;
  if bad : bool then Ret false
  else
    n ← TotalLength s; body ← s![0; n]; Ret (crc32MPEG2 body =? 0).

(** ** The code: the assembler *)

Record SectionAssembler : Type := MkAssembler {
  sa_pid : Z;
  sa_buffer : list Z;
  sa_lastCounter : Z;
  sa_expecting : bool;
  sa_pending : list SectionBytes
}.

Definition NewSectionAssembler (pid : Z) : SectionAssembler :=
  MkAssembler pid [] 0 false [].

Definition setBuffer (b : list Z) (sa : SectionAssembler) : SectionAssembler :=
  MkAssembler (sa_pid sa) b (sa_lastCounter sa) (sa_expecting sa) (sa_pending sa).
Definition setExpecting (e : bool) (sa : SectionAssembler) : SectionAssembler :=
  MkAssembler (sa_pid sa) (sa_buffer sa) (sa_lastCounter sa) e (sa_pending sa).
Definition setLastCounter (c : Z) (sa : SectionAssembler) : SectionAssembler :=
  MkAssembler (sa_pid sa) (sa_buffer sa) c (sa_expecting sa) (sa_pending sa).
Definition setPending (l : list SectionBytes) (sa : SectionAssembler) : SectionAssembler :=
  MkAssembler (sa_pid sa) (sa_buffer sa) (sa_lastCounter sa) (sa_expecting sa) l.

(** [sa.buffer = nil; sa.expecting = false] *)
Definition dropPartial (sa : SectionAssembler) : SectionAssembler :=
  setExpecting false (setBuffer [] sa).

Definition appendIf (ok : bool) (s : SectionBytes) (l : list SectionBytes) :=
  if ok then l ++ [s] else l.

(** One round of the loop of [consumePayload]. *)
Definition consumeBody (sa : SectionAssembler) (st : list Z * list SectionBytes)
    : outcome (list Z * list SectionBytes + SectionAssembler * list SectionBytes) :=
  let '(payload, sections) := st in
  go ← Ret (3 <=? len payload) &&? (b ← payload![0]; Ret (negb (b =? 0xff)));
  if go : bool then
    n ← get16m 0x0f payload 1;
    let total := 3 + n in
    if total <? 3 then break (sa, sections)
    else if len payload <? total then
      break (setExpecting true (setBuffer payload sa), sections)
    else
      section ← payload![0; total];
      ok ← ValidateCRC section;
      rest ← payload![total; len payload];
      continue (rest, appendIf ok section sections)
  else break (sa, sections).

Definition consumePayload (sa : SectionAssembler) (payload : list Z)
    : outcome (SectionAssembler * list SectionBytes) :=
  loop (S (length payload)) (consumeBody sa) (payload, []).

(** One round of the loop of [completeSections]; the flag records that the
    function returned from inside the loop. *)
Definition completeBody (keepRemainder : bool) (st : SectionAssembler * list SectionBytes)
    : outcome (SectionAssembler * list SectionBytes +
               SectionAssembler * list SectionBytes * bool) :=
  let '(sa, sections) := st in
  let buffer := sa_buffer sa in
  if 3 <=? len buffer then
    n ← get16m 0x0f buffer 1;
    let total := 3 + n in
    if len buffer <? total then break (setExpecting true sa, sections, true)
    else
      section ← buffer![0; total];
      ok ← ValidateCRC section;
      rest ← buffer![total; len buffer];
      let sections := appendIf ok section sections in
      if negb keepRemainder && (len rest =? 0)
      then break (setBuffer rest sa, sections, false)
      else continue (setBuffer rest sa, sections)
  else break (sa, sections, false).

Definition completeLoop (keepRemainder : bool) (sa : SectionAssembler)
    : outcome (SectionAssembler * list SectionBytes * bool) :=
  loop (S (length (sa_buffer sa))) (completeBody keepRemainder) (sa, []).

Definition completeSections (sa : SectionAssembler) (keepRemainder : bool)
    : outcome (SectionAssembler * list SectionBytes) :=
  '(sa, sections, returned) ← completeLoop keepRemainder sa;
  if returned : bool then Ret (sa, sections)
  else Ret (if len (sa_buffer sa) =? 0 then setExpecting false sa else sa, sections).

(** The continuity check: a partial section is dropped unless the counter
    follows the previous one. *)
Definition resync (counter : Z) (sa : SectionAssembler) : SectionAssembler :=
  setLastCounter counter
    (if sa_expecting sa && negb (counter =? Z.land (u8 (sa_lastCounter sa + 1)) 0x0f)
     then dropPartial sa else sa).
Arguments resync : simpl never.

Definition FeedAll (sa : SectionAssembler) (p : Packet)
    : outcome (SectionAssembler * list SectionBytes) :=
  skip ← (pid ← PID p; Ret (negb (pid =? sa_pid sa))) ||? TransportErrorIndicator p
         ||? (negb <$> HasPayload p);
  if skip : bool then Ret (sa, []) else
  payload ← Payload p;
  if len payload =? 0 then Ret (sa, []) else
  counter ← ContinuityCounter p;
  let sa := resync counter sa in
  start ← PayloadUnitStartIndicator p;
  if start : bool then
    pointer ← payload![0];
    payload ← payload![1; len payload];
    if len payload <? pointer then Ret (dropPartial sa, [])
    else
      '(sa, sections) ←
        (if (0 <? len (sa_buffer sa)) && (0 <? pointer) then
           head ← payload![0; pointer];
           completeSections (setBuffer (sa_buffer sa ++ head) sa) false
         else Ret (sa, []));
      tail ← payload![pointer; len payload];
      '(sa, more) ← consumePayload (dropPartial sa) tail;
      Ret (sa, sections ++ more)
  else if negb (sa_expecting sa) then Ret (sa, [])
  else completeSections (setBuffer (sa_buffer sa ++ payload) sa) false.

(** [Feed]: one section per call; the extra ones wait in [pending].  The nil
    section of the Go code is [None]. *)
Definition Feed (sa : SectionAssembler) (p : Packet)
    : outcome (SectionAssembler * option SectionBytes) :=
  match sa_pending sa with
  | section :: pending => Ret (setPending pending sa, Some section)
  | [] =>
      '(sa, sections) ← FeedAll sa p;
      match sections with
      | [] => Ret (sa, None)
      | section :: more => Ret (setPending (sa_pending sa ++ more) sa, Some section)
      end
  end.

(** Feeding a run of packets, collecting every section. *)
Fixpoint feedPackets (sa : SectionAssembler) (ps : list Packet)
    : outcome (SectionAssembler * list SectionBytes) :=
  match ps with
  | [] => Ret (sa, [])
  | p :: ps =>
      '(sa, out) ← FeedAll sa p;
      '(sa, more) ← feedPackets sa ps;
      Ret (sa, out ++ more)
  end.

(** ** Total readings *)

Definition totalOf (s : list Z) : Z :=
  3 + be16 (Z.land (byteAt s 1) 0x0f) (byteAt s 2).

Lemma totalOf_bound s : bytes_ok s → 3 ≤ totalOf s ≤ 4098.
Proof.
  intros Hs. unfold totalOf.
  pose proof (be16m_ok (byteAt s 1) _ 0x0f ltac:(lia) (byteAt_ok s 2 Hs)). lia.
Qed.

Lemma TotalLength_ret s : 3 ≤ len s → TotalLength s = Ret (totalOf s).
Proof. intros. unfold TotalLength, SectionLength. by rewrite get16m_ret by lia. Qed.

Lemma overruns_ret s : 3 ≤ len s → overruns s = Ret (len s <? totalOf s).
Proof. intros. unfold overruns. by rewrite TotalLength_ret. Qed.

Lemma ValidateCRC_ret s :
  ValidateCRC s = Ret ((4 <=? len s) && (totalOf s <=? len s) &&
                       (crc32MPEG2 (sub s 0 (totalOf s)) =? 0)) ∨ ¬ bytes_ok s.
Proof.
  destruct (decide (bytes_ok s)) as [Hs | Hs]; [left | by right].
  unfold ValidateCRC. destruct (Z.ltb_spec (len s) 4), (Z.leb_spec 4 (len s)); try lia;
    [done |]. simpl.
  rewrite overruns_ret by lia. simpl. pose proof (totalOf_bound s Hs).
  destruct (Z.ltb_spec (len s) (totalOf s)), (Z.leb_spec (totalOf s) (len s)); try lia;
    [done |].
  rewrite TotalLength_ret by lia. simpl. by rewrite slice_sub by lia.
Qed.

(** A complete section with a correct checksum: what the assembler promises
    about its output. *)
Record section_valid (s : SectionBytes) : Prop := {
  sv_bytes : bytes_ok s;
  sv_min : 4 ≤ len s;
  sv_total : totalOf s = len s;
  sv_crc : crc32MPEG2 s = 0
}.

Lemma section_valid_ValidateCRC s : section_valid s → ValidateCRC s = Ret true.
Proof.
  intros [Hb Hm Ht Hc]. destruct (ValidateCRC_ret s) as [-> | ?]; [| done].
  rewrite Ht, sub_full, Hc, Z.leb_refl. by destruct (Z.leb_spec 4 (len s)); [| lia].
Qed.

Lemma section_valid_max s : section_valid s → len s ≤ 4098.
Proof. intros [Hb _ <- _]. by apply totalOf_bound. Qed.

(** Cutting a complete section from the front of a buffer. *)
Lemma totalOf_sub s n : 3 ≤ n → n ≤ len s → totalOf (sub s 0 n) = totalOf s.
Proof.
  intros. unfold totalOf. by rewrite !byteAt_sub by lia.
Qed.

Lemma totalOf_app s r : 3 ≤ len s → totalOf (s ++ r) = totalOf s.
Proof. intros. unfold totalOf. by rewrite !byteAt_app_l by lia. Qed.

Lemma safe_ValidateCRC_cut b P :
  bytes_ok b → 3 ≤ len b → totalOf b ≤ len b →
  (∀ ok, (ok = true → section_valid (sub b 0 (totalOf b))) → P ok) →
  returns (ValidateCRC (sub b 0 (totalOf b))) P.
Proof.
  intros Hb Hl Ht HP. pose proof (totalOf_bound b Hb).
  assert (len (sub b 0 (totalOf b)) = totalOf b) as L by (rewrite len_sub by lia; lia).
  destruct (ValidateCRC_ret (sub b 0 (totalOf b))) as [-> | []]; [| by apply bytes_ok_sub].
  apply HP. rewrite L, totalOf_sub by lia. intros E. bools. split; [by apply bytes_ok_sub | | |].
  - rewrite L. done.
  - by rewrite L, totalOf_sub by lia.
  - replace (sub b 0 (totalOf b)) with (sub (sub b 0 (totalOf b)) 0 (totalOf b)); [done |].
    rewrite <- L at 2. apply sub_full.
Qed.

(** ** The assembler's invariant *)

Record asm_ok (sa : SectionAssembler) : Prop := {
  ao_bytes : bytes_ok (sa_buffer sa);
  ao_idle : sa_expecting sa = false → sa_buffer sa = [];
  ao_bound : len (sa_buffer sa) < 4098
}.

Lemma NewSectionAssembler_ok pid : asm_ok (NewSectionAssembler pid).
Proof. split; simpl; [constructor | done | rewrite len_nil; lia]. Qed.

Lemma dropPartial_ok sa : asm_ok (dropPartial sa).
Proof. split; simpl; [constructor | done | rewrite len_nil; lia]. Qed.

Lemma appendIf_valid ok s l :
  (ok = true → section_valid s) → Forall section_valid l → Forall section_valid (appendIf ok s l).
Proof.
  destruct ok; simpl; [| done]. intros Hs Hl. apply Forall_app; split; [done |].
  constructor; [by apply Hs | constructor].
Qed.

(** What both extraction loops guarantee. *)
Definition feed_post (pid : Z) (r : SectionAssembler * list SectionBytes) : Prop :=
  asm_ok r.1 ∧ Forall section_valid r.2 ∧ sa_pid r.1 = pid.

Lemma consumePayload_safe sa payload :
  sa_buffer sa = [] → sa_expecting sa = false → bytes_ok payload →
  returns (consumePayload sa payload) (feed_post (sa_pid sa)).
Proof.
  intros Hbuf Hexp Hp. unfold consumePayload.
  apply (safe_loop (λ '(pl, secs), bytes_ok pl ∧ Forall section_valid secs)
           (λ '(pl, _), length pl)); [| by split; [| constructor] | lia].
  assert (∀ secs, Forall section_valid secs → feed_post (sa_pid sa) (sa, secs)) as Hend.
  { intros secs Hs. split_and!; [| done | done].
    split; simpl; rewrite ?Hbuf; [constructor | done | rewrite len_nil; lia]. }
  intros [pl secs] [Hpl Hsecs]. unfold consumeBody. go.
  all: try (apply Hend; done).
  all: change (1 + 1) with 2 in *; fold (totalOf pl) in *.
  all: pose proof (totalOf_bound pl Hpl) as Ht.
  - split_and!; simpl; [| done | done]. split; simpl; [done | done | lia].
  - apply safe_ValidateCRC_cut; [done | lia | lia | intros ok Hok]. go.
    split; [split; [by apply bytes_ok_sub | by apply appendIf_valid] |].
    assert (len (sub pl (totalOf pl) (len pl)) < len pl) by lia. unfold len in *. lia.
Qed.

Lemma completeLoop_safe keep sa :
  bytes_ok (sa_buffer sa) → sa_expecting sa = true →
  returns (completeLoop keep sa) (λ r,
    bytes_ok (sa_buffer r.1.1) ∧ len (sa_buffer r.1.1) < 4098 ∧
    sa_expecting r.1.1 = true ∧ Forall section_valid r.1.2 ∧ sa_pid r.1.1 = sa_pid sa).
Proof.
  intros Hb He. unfold completeLoop.
  apply (safe_loop (λ '(sa', secs), bytes_ok (sa_buffer sa') ∧ sa_expecting sa' = true ∧
                      Forall section_valid secs ∧ sa_pid sa' = sa_pid sa)
           (λ '(sa', _), length (sa_buffer sa'))); [| by split_and! | lia].
  intros [sa' secs] (Hb' & He' & Hs' & Hp'). unfold completeBody. go; simpl.
  all: change (1 + 1) with 2 in *; fold (totalOf (sa_buffer sa')) in *.
  all: pose proof (totalOf_bound _ Hb') as Ht.
  - split_and!; simpl; (done || lia).
  - apply safe_ValidateCRC_cut; [done | lia | lia | intros ok Hok]. go; simpl.
    + split_and!; [by apply bytes_ok_sub | lia | done | by apply appendIf_valid | done].
    + split; [split_and!; [by apply bytes_ok_sub | done | by apply appendIf_valid | done] |].
      assert (len (sub (sa_buffer sa') (totalOf (sa_buffer sa')) (len (sa_buffer sa')))
              < len (sa_buffer sa')) by lia. unfold len in *. lia.
  - split_and!; (done || lia).
Qed.

Lemma completeSections_safe keep sa :
  bytes_ok (sa_buffer sa) → sa_expecting sa = true →
  returns (completeSections sa keep) (feed_post (sa_pid sa)).
Proof.
  intros Hb He. unfold completeSections. apply safe_bind.
  eapply safe_mono; [by apply completeLoop_safe |].
  intros [[sa' secs] ret] (Hb' & Hlen & He' & Hs & Hp); simpl in *.
  destruct ret; [split_and!; simpl; [split | |]; done || (rewrite He'; done) |].
  split_and!; simpl; [| done |].
  - destruct (Z.eqb_spec (len (sa_buffer sa')) 0) as [E | E]; [| split; [done | by rewrite He' | done]].
    split; simpl; [done | intros _; by apply len_zero_nil | done].
  - by destruct (len (sa_buffer sa') =? 0).
Qed.

Lemma asm_ok_expecting sa : asm_ok sa → sa_buffer sa ≠ [] → sa_expecting sa = true.
Proof. intros [_ Hi _] Hne. destruct (sa_expecting sa); [done |]. by rewrite Hi in Hne. Qed.

Lemma resync_ok c sa : asm_ok sa → asm_ok (resync c sa) ∧ sa_pid (resync c sa) = sa_pid sa.
Proof.
  intros Hsa. unfold resync. destruct (_ && _); (split; [| done]).
  - destruct (dropPartial_ok sa). by split.
  - destruct Hsa. by split.
Qed.

(** ** Properties *)

Lemma consumeTail_safe sa secs tail pid :
  Forall section_valid secs → bytes_ok tail → sa_pid sa = pid →
  returns (consumePayload (dropPartial sa) tail)
    (λ r, returns (let '(sa', more) := r in Ret (sa', secs ++ more)) (feed_post pid)).
Proof.
  intros Hs Ht Hp.
  eapply safe_mono; [by apply consumePayload_safe |].
  intros [sa3 more] (Hok3 & Hs3 & Hp3). simpl in *.
  split_and!; simpl; [done | by apply Forall_app | congruence].
Qed.

Lemma FeedAll_safe sa p :
  asm_ok sa → packet_ok p → returns (FeedAll sa p) (feed_post (sa_pid sa)).
Proof.
  intros Hsa Hp. unfold FeedAll. autorewrite with packet; [| done ..]. run.
  assert (feed_post (sa_pid sa) (sa, [])) as Hsame by by split_and!.
  destruct (negb (pidOf p =? sa_pid sa)); run; [done |].
  destruct (bit (byteAt p 1) 128); run; [done |].
  destruct (hasPL p) eqn:Hpl; run; [| done].
  pose proof (payloadOf_ok p Hp) as Hb. pose proof (payloadOf_bound p Hp) as Hl.
  destruct (Z.eqb_spec (len (payloadOf p)) 0) as [E | Hne]; run; [done |].
  pose proof (len_nonneg (payloadOf p)).
  destruct (resync_ok (Z.land (byteAt p 3) 15) sa Hsa) as [Hok1 <-].
  set (sa1 := resync _ _) in *. clearbody sa1. clear Hsame Hsa. destruct (bit (byteAt p 1) 64); run.
  - set (pl := sub (payloadOf p) 1 (len (payloadOf p))) in *.
    assert (bytes_ok pl) by by apply bytes_ok_sub. go.
    + by split_and!; [apply dropPartial_ok | |].
    + eapply safe_mono.
      * apply completeSections_safe; simpl.
        -- apply bytes_ok_app; [apply Hok1 | by apply bytes_ok_sub].
        -- apply asm_ok_expecting; [done |]. intros E. rewrite E in *. done.
      * intros [sa2 secs] (Hok2 & Hs2 & Hp2). go.
        apply consumeTail_safe; [done | by apply bytes_ok_sub | done].
    + apply (consumeTail_safe sa1 []); [done | by apply bytes_ok_sub | done].
  - destruct (sa_expecting sa1) eqn:He; simpl; [| by split_and!].
    eapply safe_mono; [apply completeSections_safe | done]; [| done]. apply bytes_ok_app; [apply Hok1 | done].
Qed.

(** C2. [FeedAll] on any reachable assembler state and any 188-byte packet
    neither panics nor loops; every section it emits is complete (its length is
    the length its header announces) and has a correct CRC, and the partial
    section it keeps stays below 4098 bytes, so a hostile stream cannot grow the
    buffer. *)
Theorem FeedAll_emits_valid_sections sa p :
  asm_ok sa → packet_ok p →
  returns (FeedAll sa p) (λ '(sa', sections),
    asm_ok sa' ∧ sa_pid sa' = sa_pid sa ∧ len (sa_buffer sa') < 4098 ∧
    Forall (λ s, TotalLength s = Ret (len s) ∧ ValidateCRC s = Ret true) sections).
Proof.
  intros Hsa Hp. eapply safe_mono; [by apply FeedAll_safe |].
  intros [sa' secs] (Hok & Hs & Hpid). simpl in *. split_and!; [done | done | apply Hok |].
  eapply Forall_impl; [exact Hs |]. intros s Hv. split; [| by apply section_valid_ValidateCRC].
  destruct Hv as [_ Hm Ht _]. by rewrite TotalLength_ret, Ht by lia.
Qed.

(** A null-stuffed packet used by witnesses: PID 0, payload only, no start. *)
Definition stuffing_packet : Packet := [0x47; 0; 0; 0x10] ++ replicate 184 0xff.

Lemma stuffing_packet_ok : packet_ok stuffing_packet.
Proof.
  split; [| done]. apply bytes_ok_app.
  - repeat constructor; unfold byte_ok; lia.
  - apply Forall_replicate. unfold byte_ok. lia.
Qed.

Lemma FeedAll_emits_valid_sections_witness :
  asm_ok (NewSectionAssembler 0) ∧ packet_ok stuffing_packet ∧
  returns (FeedAll (NewSectionAssembler 0) stuffing_packet) (λ '(sa', sections),
    asm_ok sa' ∧ sa_pid sa' = 0 ∧ len (sa_buffer sa') < 4098 ∧
    Forall (λ s, TotalLength s = Ret (len s) ∧ ValidateCRC s = Ret true) sections).
Proof.
  split; [apply NewSectionAssembler_ok |]. split; [apply stuffing_packet_ok |].
  apply FeedAll_emits_valid_sections; [apply NewSectionAssembler_ok | apply stuffing_packet_ok].
Defined.
