(* ===== verification/Packetize.v ===== *)
(** * Packetizing a section and reassembling it ([ts/demux.go] packetizeSection)

    [packetizeSection] cuts a section into transport stream packets; feeding
    those packets to a [SectionAssembler] gives the section back, from any
    state the assembler may be in. *)

From S2P Require Import Prelude Crc32 Packet Section.

(** ** The code *)

(** [copy(dst[off:], src)] on the list [dst]. *)
Definition copyAt (dst : list Z) (off : nat) (src : list Z) : list Z :=
  take off dst ++ take (length dst - off) src ++ drop (off + length src) dst.

(** The packet the loop body builds, and what [copy] leaves of the section. *)
Definition sectionPacket (pid counter : Z) (first : bool) (remaining : list Z)
    : Packet * list Z :=
  let packet := replicate 188 0xff in
  let packet := <[0%nat := SyncByte]> packet in
  let packet := <[1%nat := u8 (Z.shiftr pid 8)]> packet in
  let packet := if first then <[1%nat := Z.lor (u8 (Z.shiftr pid 8)) 0x40]> packet
                else packet in
  let packet := <[2%nat := u8 pid]> packet in
  let packet := <[3%nat := Z.lor 0x10 (Z.land counter 0x0f)]> packet in
  let packet := if first then <[4%nat := 0]> packet else packet in
  let offset := if first then 5%nat else 4%nat in
  (copyAt packet offset remaining, drop (188 - offset) remaining).

Definition packetizeBody (pid : Z) (st : list Z * bool * Z * list Packet)
    : outcome (list Z * bool * Z * list Packet + list Packet * Z) :=
  let '(remaining, first, counter, packets) := st in
  if (first : bool) || (0 <? len remaining) then
    let '(packet, remaining) := sectionPacket pid counter first remaining in
    continue (remaining, false, Z.land (u8 (counter + 1)) 0x0f, packets ++ [packet])
  else break (packets, counter).

Definition packetizeSection (pid : Z) (section : SectionBytes) (counter : Z)
    : outcome (list Packet * Z) :=
  loop (S (S (length section))) (packetizeBody pid) (section, true, counter, []).

(** ** The packets, in closed form *)

Definition startByte (pid : Z) (first : bool) : Z :=
  if first then Z.lor (u8 (Z.shiftr pid 8)) 0x40 else u8 (Z.shiftr pid 8).

Definition packetHeader (pid counter : Z) (first : bool) : list Z :=
  [SyncByte; startByte pid first; u8 pid; Z.lor 0x10 (Z.land counter 0x0f)] ++
  (if first then [0] else []).

Definition room (first : bool) : nat := if first then 183 else 184.

Lemma copyAt_app (hd tl src : list Z) :
  copyAt (hd ++ tl) (length hd) src =
  hd ++ take (length tl) src ++ drop (length src) tl.
Proof.
  unfold copyAt. rewrite take_app_length, length_app.
  replace (length hd + length tl - length hd)%nat with (length tl) by lia.
  by rewrite drop_app_add.
Qed.

Lemma sectionPacket_eq pid counter first rem :
  sectionPacket pid counter first rem =
  (packetHeader pid counter first ++ take (room first) rem ++
     replicate (room first - length rem) 0xff, drop (room first) rem).
Proof.
  unfold sectionPacket, packetHeader, startByte, room. destruct first.
  - change (replicate 188 255) with ([255; 255; 255; 255; 255] ++ replicate 183 255).
    cbn [insert list_insert app]. f_equal.
    change (?a :: ?b :: ?c :: ?d :: ?e :: replicate 183 255)
      with ([a; b; c; d; e] ++ replicate 183 255).
    rewrite (copyAt_app [_; _; _; _; _]), length_replicate, drop_replicate. done.
  - change (replicate 188 255) with ([255; 255; 255; 255] ++ replicate 184 255).
    cbn [insert list_insert app]. f_equal.
    change (?a :: ?b :: ?c :: ?d :: replicate 184 255)
      with ([a; b; c; d] ++ replicate 184 255).
    rewrite (copyAt_app [_; _; _; _]), length_replicate, drop_replicate. done.
Qed.

Fixpoint packetsFrom (n : nat) (pid counter : Z) (first : bool) (rem : list Z) : list Packet :=
  match n with
  | O => []
  | S n =>
      if first || (0 <? len rem) then
        let '(p, rem') := sectionPacket pid counter first rem in
        p :: packetsFrom n pid (Z.land (u8 (counter + 1)) 0x0f) false rem'
      else []
  end.

Lemma packetsFrom_S n pid counter first rem :
  packetsFrom (S n) pid counter first rem =
  if first || (0 <? len rem) then
    let '(p, rem') := sectionPacket pid counter first rem in
    p :: packetsFrom n pid (Z.land (u8 (counter + 1)) 0x0f) false rem'
  else [].
Proof. done. Qed.

Lemma len_drop_room first (rem : list Z) :
  first || (0 <? len rem) = true →
  (length (drop (room first) rem) + 0 < length rem + (if first then 1 else 0))%nat.
Proof.
  rewrite length_drop. intros H. destruct first; simpl in *; [lia |]. bools.
  unfold len in *. lia.
Qed.

Lemma packetize_loop fuel pid counter first rem packets :
  (length rem + (if (first : bool) then 1 else 0) < fuel)%nat →
  ∃ c', loop fuel (packetizeBody pid) (rem, first, counter, packets)
  = Ret (packets ++ packetsFrom fuel pid counter first rem, c').
Proof.
  revert counter first rem packets. induction fuel as [| fuel IH]; intros c first rem pk Hf; [lia |].
  rewrite loop_S. cbn [packetsFrom packetizeBody].
  destruct (first || (0 <? len rem)) eqn:E.
  - rewrite sectionPacket_eq. set (p := _ ++ _ ++ _).
    destruct (IH (Z.land (u8 (c + 1)) 15) false (drop (room first) rem) (pk ++ [p]))
      as [c' E']; [pose proof (len_drop_room _ _ E); lia |].
    exists c'. etrans; [exact E' |]. by rewrite <- app_assoc.
  - exists c. by rewrite app_nil_r.
Qed.

Lemma packetizeSection_eq pid s counter :
  ∃ c', packetizeSection pid s counter =
        Ret (packetsFrom (S (S (length s))) pid counter true s, c').
Proof. apply packetize_loop. lia. Qed.

(** ** Header fields of the packets *)

Lemma startByte_fields x (first : bool) :
  0 ≤ x < 32 →
  let b := if first then Z.lor x 0x40 else x in
  byte_ok b ∧ Z.land b 0x1f = x ∧ bit b 0x80 = false ∧ bit b 0x40 = first.
Proof.
  intros Hx. set (f := if first then 0x40 else 0).
  assert (allBytes (λ x, negb (x <? 32) ||
    ((Z.lor x f <? 256) && (0 <=? Z.lor x f) && (Z.land (Z.lor x f) 0x1f =? x) &&
     negb (bit (Z.lor x f) 0x80) && eqb (bit (Z.lor x f) 0x40) first)) = true) as H
    by (unfold f; destruct first; by vm_compute).
  pose proof (allBytes_spec _ H x ltac:(unfold byte_ok; lia)) as E. cbv beta in E.
  destruct (Z.ltb_spec x 32); [| lia]. cbn [negb orb] in E. bools.
  unfold f in *. destruct first; rewrite ?Z.lor_0_r in *.
  all: split_and!; [unfold byte_ok; lia | done | done | by apply eqb_prop].
Qed.

Lemma counterByte_fields c :
  let b := Z.lor 0x10 (Z.land c 0x0f) in
  byte_ok b ∧ Z.land (Z.shiftr b 4) 3 = 1 ∧ Z.land b 0x0f = Z.land c 0x0f.
Proof.
  pose proof (land_mask c 15 ltac:(lia)) as Hc. set (d := Z.land c 15) in *.
  assert (allBytes (λ d, negb (d <? 16) ||
    ((Z.lor 16 d <? 256) && (0 <=? Z.lor 16 d) && (Z.land (Z.shiftr (Z.lor 16 d) 4) 3 =? 1) &&
     (Z.land (Z.lor 16 d) 15 =? d))) = true) as H by by vm_compute.
  pose proof (allBytes_spec _ H d ltac:(unfold byte_ok; lia)) as E. cbv beta in E.
  destruct (Z.ltb_spec d 16); [| lia]. cbn [negb orb] in E. bools.
  split_and!; [unfold byte_ok; lia | done | done].
Qed.

Section built_packet.
Context (pid counter : Z) (first : bool) (rem : list Z).
Context (Hpid : 0 ≤ pid < 0x2000) (Hrem : bytes_ok rem).

Let pad : list Z := replicate (room first - length rem) 0xff.
Let p : Packet := packetHeader pid counter first ++ take (room first) rem ++ pad.

Lemma built_length : len p = 188.
Proof using.
  unfold p, pad, packetHeader, room. destruct first;
    autorewrite with golen; rewrite ?len_nil; unfold len; rewrite length_take; lia.
Qed.

Lemma pid_high : 0 ≤ Z.shiftr pid 8 < 32.
Proof using Hpid.
  rewrite Z.shiftr_div_pow2 by lia.
  split; [apply Z.div_pos | apply Z.div_lt_upper_bound]; lia.
Qed.

Lemma startByte_eq :
  startByte pid first = if first then Z.lor (Z.shiftr pid 8) 0x40 else Z.shiftr pid 8.
Proof using Hpid.
  unfold startByte. pose proof pid_high.
  replace (u8 (Z.shiftr pid 8)) with (Z.shiftr pid 8); [done |].
  unfold u8. by rewrite Z.mod_small by lia.
Qed.

Lemma built_ok : packet_ok p.
Proof using Hpid Hrem.
  split; [| exact built_length].
  destruct (startByte_fields _ first pid_high) as (Hs & _). rewrite <- startByte_eq in Hs.
  destruct (counterByte_fields counter) as (Hc & _).
  apply bytes_ok_app; [| apply bytes_ok_app].
  - unfold packetHeader. apply bytes_ok_app.
    + repeat apply Forall_cons_2;
        first [assumption | apply u8_ok | apply Forall_nil_2 | unfold byte_ok, SyncByte; lia].
    + destruct first; repeat constructor; unfold byte_ok; lia.
  - by apply bytes_ok_take.
  - apply Forall_replicate. unfold byte_ok. lia.
Qed.

Lemma built_fields :
  pidOf p = pid ∧ bit (byteAt p 1) 0x80 = false ∧ bit (byteAt p 1) 0x40 = first ∧
  hasPL p = true ∧ Z.land (byteAt p 3) 0x0f = Z.land counter 0x0f.
Proof using Hpid.
  destruct (startByte_fields _ first pid_high) as (_ & Hl & Hb8 & Hb4).
  destruct (counterByte_fields counter) as (_ & Hafc & Hcc).
  change (byteAt p 1) with (startByte pid first).
  change (byteAt p 3) with (Z.lor 0x10 (Z.land counter 0x0f)).
  split_and!; [| by rewrite startByte_eq | by rewrite startByte_eq | | done].
  - unfold pidOf. change (byteAt p 1) with (startByte pid first).
    change (byteAt p 2) with (u8 pid). rewrite startByte_eq, Hl.
    rewrite <- (be16_split pid) at 3 by lia. do 2 f_equal.
    pose proof pid_high. unfold u8. by rewrite Z.mod_small by lia.
  - unfold hasPL, afc. change (byteAt p 3) with (Z.lor 0x10 (Z.land counter 0x0f)).
    by rewrite Hafc.
Qed.

Lemma built_payload :
  payloadOf p = (if first then [0] else []) ++ take (room first) rem ++ pad.
Proof using Hpid.
  unfold payloadOf. destruct built_fields as (_ & _ & _ & -> & _).
  destruct (counterByte_fields counter) as (_ & Hafc & _).
  assert (plOff p = 4) as ->.
  { unfold plOff, hasAF, afc. change (byteAt p 3) with (Z.lor 0x10 (Z.land counter 0x0f)).
    by rewrite Hafc. }
  cbn [andb Z.leb Z.compare Pos.compare Pos.compare_cont].
  rewrite <- built_length. unfold p at 1, packetHeader. rewrite <- app_assoc.
  rewrite sub_app_r by done. change (len [_; _; _; _]) with 4.
  rewrite Z.sub_diag. replace (len p - 4) with
    (len ((if first then [0] else []) ++ take (room first) rem ++ pad)); [apply sub_full |].
  unfold p, packetHeader. rewrite <- !app_assoc, !len_app. change (len [_; _; _; _]) with 4. lia.
Qed.
End built_packet.

(** ** The assembler on complete and incomplete data *)

Definition padding (n : nat) : list Z := replicate n 0xff.

Lemma valid_min s : section_valid s → 4 ≤ len s.
Proof. by intros [??]. Qed.

Lemma get_total s : 3 ≤ len s → get16m 0x0f s 1 = Ret (totalOf s - 3).
Proof. intros. rewrite get16m_ret by lia. unfold totalOf. f_equal. change (1 + 1) with 2. lia. Qed.

(** Reading one complete section off the front of a buffer. *)
Section cut_front.
Context (s r : list Z) (Hs : section_valid s).

Lemma cut_header : get16m 0x0f (s ++ r) 1 = Ret (len s - 3).
Proof using Hs.
  pose proof (valid_min s Hs). pose proof (len_nonneg r).
  rewrite get_total, totalOf_app by (rewrite ?len_app; lia). by rewrite (sv_total s Hs).
Qed.
Lemma cut_body : (s ++ r)![0; len s] = Ret s.
Proof using Hs.
  pose proof (valid_min s Hs). pose proof (len_nonneg r).
  rewrite slice_sub by (rewrite ?len_app; lia). by rewrite sub_app_l, sub_full by lia.
Qed.
Lemma cut_rest : (s ++ r)![len s; len (s ++ r)] = Ret r.
Proof using Hs.
  pose proof (valid_min s Hs). pose proof (len_nonneg r).
  rewrite slice_sub by (rewrite ?len_app; lia). rewrite sub_app_r, len_app by lia.
  replace (len s - len s) with 0 by lia. replace (len s + len r - len s) with (len r) by lia.
  by rewrite sub_full.
Qed.
End cut_front.

Lemma padding_length n : len (padding n) = Z.of_nat n.
Proof. apply len_replicate. Qed.

Lemma consume_padding sa n fuel secs :
  loop (S fuel) (consumeBody sa) (padding n, secs) = Ret (sa, secs).
Proof.
  rewrite loop_S. unfold consumeBody at 2. cbn beta iota. rewrite padding_length.
  destruct (Z.leb_spec 3 (Z.of_nat n)) as [Hn | Hn]; [| done].
  destruct n as [| n]; [lia |]. done.
Qed.

Lemma consume_short sa s n :
  section_valid s → byteAt s 0 ≠ 0xff → consumePayload sa (s ++ padding n) = Ret (sa, [s]).
Proof.
  intros Hs H0. pose proof (valid_min s Hs) as Hm. unfold consumePayload.
  rewrite loop_S. unfold consumeBody at 2. cbn beta iota.
  rewrite len_app, padding_length. destruct (Z.leb_spec 3 (len s + Z.of_nat n)); [| lia]. run.
  rewrite idx_byteAt, byteAt_app_l by (rewrite ?len_app, ?padding_length; lia). run.
  destruct (Z.eqb_spec (byteAt s 0) 255); [done |]. run.
  rewrite cut_header by done. run.
  replace (3 + (len s - 3)) with (len s) by lia. destruct (Z.ltb_spec (len s) 3); [lia |].
  destruct (Z.ltb_spec (len s + Z.of_nat n) (len s)); [lia |].
  rewrite cut_body by done. run. rewrite section_valid_ValidateCRC by done. run.
  rewrite <- (padding_length n), <- len_app, cut_rest by done. run.
  cbn [appendIf app]. cbn [mbind outcome_bind continue].
  destruct (length (s ++ padding n)) as [| m] eqn:E; [| apply consume_padding].
  apply (f_equal Z.of_nat) in E. change (len (s ++ padding n) = 0) in E.
  rewrite len_app in E. pose proof (len_nonneg (padding n)). lia.
Qed.

Lemma consume_long sa pre :
  3 ≤ len pre < totalOf pre → byteAt pre 0 ≠ 0xff →
  consumePayload sa pre = Ret (setExpecting true (setBuffer pre sa), []).
Proof.
  intros Hp H0. unfold consumePayload. rewrite loop_S. unfold consumeBody at 2. cbn beta iota.
  destruct (Z.leb_spec 3 (len pre)); [| lia]. run. rewrite idx_byteAt by lia. run.
  destruct (Z.eqb_spec (byteAt pre 0) 255); [done |]. run. rewrite get_total by lia. run.
  replace (3 + (totalOf pre - 3)) with (totalOf pre) by lia.
  destruct (Z.ltb_spec (totalOf pre) 3); [lia |].
  by destruct (Z.ltb_spec (len pre) (totalOf pre)); [| lia].
Qed.

Lemma complete_short sa :
  3 ≤ len (sa_buffer sa) < totalOf (sa_buffer sa) →
  completeSections sa false = Ret (setExpecting true sa, []).
Proof.
  intros Hp. unfold completeSections, completeLoop. rewrite loop_S. unfold completeBody at 2. cbn beta iota.
  destruct (Z.leb_spec 3 (len (sa_buffer sa))); [| lia]. rewrite get_total by lia. run.
  replace (3 + (totalOf (sa_buffer sa) - 3)) with (totalOf (sa_buffer sa)) by lia.
  by destruct (Z.ltb_spec (len (sa_buffer sa)) (totalOf (sa_buffer sa))); [| lia].
Qed.

(** After the section only padding is left, which is too short to be one. *)
Lemma complete_padding keep sa n fuel secs :
  sa_buffer sa = padding n → (n < 4098)%nat →
  ∃ sa' b, loop (S fuel) (completeBody keep) (sa, secs) = Ret (sa', secs, b) ∧
           sa_pid sa' = sa_pid sa.
Proof.
  intros Hb Hn. rewrite loop_S. unfold completeBody at 2. cbn beta iota.
  rewrite Hb, padding_length.
  destruct (Z.leb_spec 3 (Z.of_nat n)); [| by eexists _, _].
  rewrite get_total by (rewrite padding_length; lia). run.
  assert (totalOf (padding n) = 4098) as ->
    by (destruct n as [| [| [| n]]]; try lia; done).
  change (3 + (4098 - 3)) with 4098.
  destruct (Z.ltb_spec (Z.of_nat n) 4098); [by eexists _, _ | lia].
Qed.

Lemma complete_done sa s n :
  section_valid s → sa_buffer sa = s ++ padding n → (n < 4098)%nat →
  ∃ sa', completeSections sa false = Ret (sa', [s]) ∧ sa_pid sa' = sa_pid sa.
Proof.
  intros Hs Hb Hn. pose proof (valid_min s Hs) as Hm. unfold completeSections, completeLoop.
  rewrite Hb, loop_S. unfold completeBody at 2. cbn beta iota.
  rewrite Hb, len_app, padding_length. destruct (Z.leb_spec 3 (len s + Z.of_nat n)); [| lia].
  rewrite cut_header by done. run. replace (3 + (len s - 3)) with (len s) by lia.
  destruct (Z.ltb_spec (len s + Z.of_nat n) (len s)); [lia |].
  rewrite cut_body by done. run. rewrite section_valid_ValidateCRC by done. run.
  rewrite <- (padding_length n), <- len_app, cut_rest by done. run.
  cbn [appendIf app negb andb]. destruct (len (padding n) =? 0).
  - run. eexists. split; [done |]. simpl. by case_match.
  - destruct (length (s ++ padding n)) as [| m] eqn:E.
    { apply (f_equal Z.of_nat) in E. change (len (s ++ padding n) = 0) in E.
      rewrite len_app in E. pose proof (len_nonneg (padding n)). lia. }
    destruct (complete_padding false (setBuffer (padding n) sa) n m [s]) as (sa' & b & E' & Hp);
      [done | done |].
    cbn [mbind outcome_bind continue]. rewrite E'. run.
    destruct b; [by eexists |]. eexists. split; [done |]. by case_match.
Qed.

(** ** Feeding built packets *)

Lemma counter_next c :
  Z.land (Z.land (u8 (c + 1)) 0x0f) 0x0f = Z.land (u8 (Z.land c 0x0f + 1)) 0x0f.
Proof.
  change 0x0f with (Z.ones 4). rewrite !Z.land_ones by lia. unfold u8.
  Z.div_mod_to_equations. lia.
Qed.

Definition built (pid c : Z) (first : bool) (rem : list Z) : Packet :=
  packetHeader pid c first ++ take (room first) rem ++ padding (room first - length rem).

Lemma built_facts pid c first rem :
  0 ≤ pid < 0x2000 → bytes_ok rem →
  let p := built pid c first rem in
  packet_ok p ∧ pidOf p = pid ∧ bit (byteAt p 1) 0x80 = false ∧
  bit (byteAt p 1) 0x40 = first ∧ hasPL p = true ∧
  Z.land (byteAt p 3) 0x0f = Z.land c 0x0f ∧
  payloadOf p = (if first then [0] else []) ++ take (room first) rem ++
                padding (room first - length rem).
Proof.
  intros Hpid Hrem p. pose proof (built_fields pid c first rem Hpid) as (?&?&?&?&?).
  split_and!; try done; [by apply built_ok | by apply built_payload].
Qed.

Section feeding.
Context (pid : Z) (Hpid : 0 ≤ pid < 0x2000).

Lemma feed_start sa c rem :
  sa_pid sa = pid → bytes_ok rem →
  FeedAll sa (built pid c true rem) =
  consumePayload (dropPartial (resync (Z.land c 0x0f) sa))
    (take 183 rem ++ padding (183 - length rem)).
Proof using Hpid.
  intros Hsa Hrem.
  destruct (built_facts pid c true rem Hpid Hrem) as (Hok & Fp & Fe & Fs & Fl & Fc & Fpl).
  cbn beta iota in *. unfold FeedAll. autorewrite with packet; [| done ..]. run.
  rewrite Fp, Fe, Fl, Hsa, Z.eqb_refl. cbn [negb]. run. rewrite Fpl, Fc, Fs. cbn [room app].
  set (body := take 183 rem ++ _). pose proof (len_nonneg body).
  rewrite len_cons. destruct (Z.eqb_spec (1 + len body) 0); [lia |].
  change (idx (0 :: body) 0) with (Ret 0). run.
  rewrite slice_sub by (rewrite ?len_cons; lia). run.
  replace (sub (0 :: body) 1 (1 + len body)) with body.
  2:{ change (0 :: body) with ([0] ++ body). rewrite sub_app_r by done.
      change (len [0]) with 1. replace (1 + len body - 1) with (len body) by lia.
      by rewrite sub_full. }
  destruct (Z.ltb_spec (len body) 0); [lia |]. change (0 <? 0) with false.
  rewrite andb_false_r. run. rewrite slice_sub, sub_full by lia. run.
  by destruct (consumePayload _ body) as [[]| | |].
Qed.

Lemma feed_next sa c rem :
  sa_pid sa = pid → bytes_ok rem → rem ≠ [] → sa_expecting sa = true →
  Z.land c 0x0f = Z.land (u8 (sa_lastCounter sa + 1)) 0x0f →
  FeedAll sa (built pid c false rem) =
  completeSections (setBuffer (sa_buffer sa ++ take 184 rem ++ padding (184 - length rem))
                      (setLastCounter (Z.land c 0x0f) sa)) false.
Proof using Hpid.
  intros Hsa Hrem Hne He Hc.
  destruct (built_facts pid c false rem Hpid Hrem) as (Hok & Fp & Fe & Fs & Fl & Fc & Fpl).
  cbn beta iota in *. unfold FeedAll. autorewrite with packet; [| done ..]. run.
  rewrite Fp, Fe, Fl, Hsa, Z.eqb_refl. cbn [negb]. run. rewrite Fpl, Fc, Fs. cbn [room app].
  set (body := take 184 rem ++ _).
  assert (len body ≠ 0) as Hb.
  { unfold body. rewrite len_app. destruct rem; [done |]. cbn [take]. rewrite len_cons.
    pose proof (len_nonneg (take 183 rem)).
    pose proof (len_nonneg (padding (184 - length (z :: rem)))). lia. }
  apply Z.eqb_neq in Hb. rewrite Hb. run.
  unfold resync. rewrite He, Hc, Z.eqb_refl. cbn [negb andb]. cbn [sa_expecting setLastCounter].
  by rewrite He.
Qed.

(** The continuation packets complete the section. *)
Lemma feed_conts n sa c pre rem :
  section_valid (pre ++ rem) → 3 ≤ len pre → rem ≠ [] →
  sa_pid sa = pid → sa_buffer sa = pre → sa_expecting sa = true →
  Z.land c 0x0f = Z.land (u8 (sa_lastCounter sa + 1)) 0x0f → (length rem < n)%nat →
  ∃ sa', feedPackets sa (packetsFrom n pid c false rem) = Ret (sa', [pre ++ rem]) ∧
         sa_pid sa' = pid.
Proof using Hpid.
  revert sa c pre rem. induction n as [| n IH]; intros sa c pre rem Hv Hp Hne Hsa Hb He Hc Hn;
    [lia |].
  assert (bytes_ok rem) as Hrem by (eapply Forall_app, sv_bytes, Hv).
  cbn [packetsFrom]. rewrite sectionPacket_eq.
  change (packetHeader pid c false ++ take (room false) rem ++ _) with (built pid c false rem).
  assert (0 < len rem) as Hl by (destruct rem; [done | rewrite len_cons; pose proof (len_nonneg rem); lia]).
  apply Z.ltb_lt in Hl as Hl'. rewrite Hl'. cbn [orb feedPackets]. rewrite feed_next by done.
  destruct (decide (length rem ≤ 184)%nat) as [Hs | Hs].
  - rewrite take_ge, app_assoc by done.
    destruct (complete_done (setBuffer ((sa_buffer sa ++ rem) ++ padding (184 - length rem))
      (setLastCounter (Z.land c 15) sa)) (pre ++ rem) (184 - length rem)) as (sa' & -> & Hp');
      [done | by rewrite <- Hb | lia |].
    run. cbn [room]. rewrite drop_ge by done. destruct n; [unfold len in Hl; lia |].
    exists sa'. by rewrite Hp'.
  - replace (184 - length rem)%nat with 0%nat by lia. change (padding 0) with (@nil Z).
    rewrite app_nil_r.
    set (sa1 := setBuffer _ _).
    assert (len pre + 184 < len (pre ++ rem)) as Hlt by (rewrite len_app; unfold len; lia).
    assert (len (take 184 rem) = 184) as Ht by (unfold len; rewrite length_take; lia).
    assert (totalOf (sa_buffer sa ++ take 184 rem) = len (pre ++ rem)) as Etot.
    { rewrite <- (sv_total _ Hv), Hb, !totalOf_app by done. done. }
    rewrite complete_short.
    2:{ subst sa1. cbn [sa_buffer setBuffer]. rewrite Etot, Hb, !len_app, Ht. rewrite len_app in Hlt. lia. }
    run. cbn [room].
    assert (pre ++ rem = (pre ++ take 184 rem) ++ drop 184 rem) as Esplit
      by (by rewrite <- app_assoc, take_drop).
    destruct (IH (setExpecting true sa1) (Z.land (u8 (c + 1)) 15)
                 (pre ++ take 184 rem) (drop 184 rem)) as (sa' & -> & Hp').
    + by rewrite <- Esplit.
    + rewrite len_app. lia.
    + intros E. apply (f_equal length) in E. rewrite length_drop in E. simpl in E. lia.
    + done.
    + subst sa1. simpl. by rewrite Hb.
    + done.
    + subst sa1. simpl. apply counter_next.
    + rewrite length_drop. lia.
    + exists sa'. run. by rewrite <- Esplit.
Qed.
End feeding.

(** ** Properties *)

(** C36. Packetizing a valid section and feeding the packets to an assembler of
    the same PID yields exactly that section, whatever partial section,
    continuity counter and history the assembler had before, for sections of
    every length and any starting counter.  (A table_id of 0xff is stuffing, not
    a section.) *)
Theorem packetize_reassemble sa pid s counter :
  0 ≤ pid < 0x2000 → sa_pid sa = pid → section_valid s → byteAt s 0 ≠ 0xff →
  returns (packetizeSection pid s counter) (λ '(packets, _),
    returns (feedPackets sa packets) (λ '(sa', sections),
      sections = [s] ∧ sa_pid sa' = pid)).
Proof.
  intros Hpid Hsa Hv H0. destruct (packetizeSection_eq pid s counter) as [c' ->].
  pose proof (sv_bytes s Hv) as Hb. unfold returns at 1.
  rewrite packetsFrom_S, sectionPacket_eq.
  change (packetHeader pid counter true ++ take (room true) s ++ _) with (built pid counter true s).
  cbn [orb feedPackets]. rewrite feed_start by done.
  set (sa1 := dropPartial _). assert (sa_pid sa1 = pid) by (subst sa1; unfold resync; simpl; by case_match).
  destruct (decide (length s ≤ 183)%nat) as [Hs | Hs].
  - rewrite take_ge, consume_short by done. run. cbn [room]. by rewrite drop_ge by done.
  - replace (183 - length s)%nat with 0%nat by lia. change (padding 0) with (@nil Z).
    rewrite app_nil_r.
    assert (len (take 183 s) = 183) as Ht by (unfold len; rewrite length_take; lia).
    assert (totalOf (take 183 s) = len s) as Etot.
    { transitivity (totalOf (take 183 s ++ drop 183 s)).
      - by rewrite totalOf_app by lia.
      - by rewrite take_drop, (sv_total s Hv). }
    rewrite consume_long.
    2:{ rewrite Etot, Ht. unfold len. lia. }
    2:{ rewrite <- (take_drop 183 s), byteAt_app_l in H0 by lia. done. }
    run. cbn [room].
    destruct (feed_conts pid Hpid (S (length s)) (setExpecting true (setBuffer (take 183 s) sa1))
      (Z.land (u8 (counter + 1)) 15) (take 183 s) (drop 183 s)) as (sa' & -> & Hp).
    + by rewrite take_drop.
    + lia.
    + intros E. apply (f_equal length) in E. rewrite length_drop in E. simpl in E. lia.
    + done.
    + done.
    + done.
    + subst sa1. simpl. apply counter_next.
    + rewrite length_drop. lia.
    + simpl. by rewrite take_drop.
Qed.

(** A single-program PAT section, as [BuildPATSection] lays it out. *)
Definition sample_pat : SectionBytes :=
  Eval vm_compute in
    let body := [0x00; 0xb0; 0x0d; 0x7f; 0xe1; 0xc3; 0; 0; 0x04; 0x18; 0xe1; 0xf0] in
    body ++ be32bytes (crc32MPEG2 body).

Lemma sample_pat_valid : section_valid sample_pat.
Proof. split; [| by vm_compute ..]. repeat constructor; unfold byte_ok; lia. Qed.

Lemma packetize_reassemble_witness :
  sa_pid (NewSectionAssembler 0x11) = 0x11 ∧ section_valid sample_pat ∧
  returns (packetizeSection 0x11 sample_pat 9) (λ '(packets, _),
    returns (feedPackets (NewSectionAssembler 0x11) packets) (λ '(sa', sections),
      sections = [sample_pat] ∧ sa_pid sa' = 0x11)).
Proof.
  split; [done |]. split; [apply sample_pat_valid |].
  apply packetize_reassemble; [lia | done | apply sample_pat_valid | by vm_compute].
Defined.
