(* ===== verification/PacketReader.v ===== *)
(** * The packet reader ([ts/packet.go], PacketReader)

    [PacketReader] finds 188-byte packets in a byte stream whose packets may
    be 188, 192 (timestamped) or 204 (parity) bytes apart.  The [io.Reader] it
    reads from is a script: the chunks successive [Read] calls return, each
    with the error that accompanies it, and the error every later call
    returns. *)

From S2P Require Import Prelude Packet.

Definition packetSizeWithTimestamp : Z := 192.
Definition packetSizeWithParity : Z := 204.
Definition minDetectBytes : Z := 4 * packetSizeWithParity.

(** ** The code *)

Definition chunk : Type := list Z * option error.

Record PacketReader : Type := MkReader {
  pr_chunks : list chunk;
  pr_final : error;
  pr_buf : list Z;
  pr_stride : Z;
  pr_eof : bool
}.

Definition NewPacketReader (chunks : list chunk) (final : error) : PacketReader :=
  MkReader chunks final [] 0 false.

Definition setBuf (b : list Z) (pr : PacketReader) : PacketReader :=
  MkReader (pr_chunks pr) (pr_final pr) b (pr_stride pr) (pr_eof pr).
Definition setStride (s : Z) (pr : PacketReader) : PacketReader :=
  MkReader (pr_chunks pr) (pr_final pr) (pr_buf pr) s (pr_eof pr).

Definition isEOF (e : error) : bool := bool_decide (e = ErrEOF).

(** The read loop of [fill], over the remaining script; it returns the script
    left, the buffer, the eof flag and the error to return at once. *)
Fixpoint fillLoop (chunks : list chunk) (final : error) (min : Z) (buf : list Z) (eof : bool)
    : list chunk * list Z * bool * option error :=
  if eof || (min <=? len buf) then (chunks, buf, eof, None)
  else match chunks with
  | [] => if isEOF final then ([], buf, true, None) else ([], buf, eof, Some final)
  | (data, err) :: chunks =>
      let buf := buf ++ data in
      match err with
      | Some e => if isEOF e then (chunks, buf, true, None) else (chunks, buf, eof, Some e)
      | None => if len data =? 0 then (chunks, buf, eof, None)
                else fillLoop chunks final min buf eof
      end
  end.

Definition fill (pr : PacketReader) (min : Z) : PacketReader * option error :=
  let '(chunks, buf, eof, err) :=
    fillLoop (pr_chunks pr) (pr_final pr) min (pr_buf pr) (pr_eof pr) in
  let pr := MkReader chunks (pr_final pr) buf (pr_stride pr) eof in
  match err with
  | Some e => (pr, Some e)
  | None => (pr, if (len buf =? 0) && eof then Some ErrEOF else None)
  end.

(** The loop over the following sync bytes: at most [n] more checks.  [None]
    when a byte in range is not a sync byte, else the number of checks. *)
Fixpoint syncChecks (n : nat) (buf : list Z) (next stride checks : Z) : option Z :=
  match n with
  | O => Some checks
  | S n =>
      if next <? len buf then
        if byteAt buf next =? SyncByte then syncChecks n buf (next + stride) stride (checks + 1)
        else None
      else Some checks
  end.

(** [if len(pr.buf)-pos < stride { if !pr.eof { _ = pr.fill(pos + stride) } ... }] *)
Definition refill (pr : PacketReader) (pos stride : Z) : PacketReader :=
  if (len (pr_buf pr) - pos <? stride) && negb (pr_eof pr)
  then fst (fill pr (pos + stride)) else pr.

Definition packetReadyAt (pr : PacketReader) (pos stride : Z) : PacketReader * bool :=
  let syncOffset := if stride =? packetSizeWithTimestamp then 4 else 0 in
  if (len (pr_buf pr) <=? pos + syncOffset) ||
     negb (byteAt (pr_buf pr) (pos + syncOffset) =? SyncByte)
  then (pr, false)
  else
    let pr := refill pr pos stride in
    if len (pr_buf pr) - pos <? stride then (pr, false)
    else
      match syncChecks 3 (pr_buf pr) (pos + stride + syncOffset) stride 0 with
      | None => (pr, false)
      | Some checks => (pr, (0 <? checks) || pr_eof pr)
      end.

Definition streamLen (chunks : list chunk) : nat := length (concat (map fst chunks)).

Definition detectBody (st : PacketReader * Z)
    : outcome (PacketReader * Z + PacketReader * option (Z * Z)) :=
  let '(pr, pos) := st in
  if pos <? len (pr_buf pr) then
    let '(pr, ok) := packetReadyAt pr pos PacketSize in
    if ok then break (pr, Some (pos, PacketSize)) else
    let '(pr, ok) := packetReadyAt pr pos packetSizeWithTimestamp in
    if ok then break (pr, Some (pos, packetSizeWithTimestamp)) else
    let '(pr, ok) := packetReadyAt pr pos packetSizeWithParity in
    if ok then break (pr, Some (pos, packetSizeWithParity)) else
    continue (pr, pos + 1)
  else break (pr, None).

(** The buffer can grow during the search, up to the whole script. *)
Definition detectPacket (pr : PacketReader) : outcome (PacketReader * option (Z * Z)) :=
  loop (S (length (pr_buf pr) + streamLen (pr_chunks pr))) detectBody (pr, 0).

(** [dst[:PacketSize]] receives [buf[start:end]]; the caller's [dst] is at
    least a packet long (the test at the head of [NextInto]). *)
Definition consumePacketInto (pr : PacketReader) (pos stride : Z)
    : outcome (PacketReader * Packet) :=
  let start := if stride =? packetSizeWithTimestamp then pos + 4 else pos in
  let stop := if stride =? packetSizeWithParity then pos + PacketSize else pos + stride in
  packet ← (pr_buf pr)![start; stop];
  remaining ← (pr_buf pr)![pos + stride; len (pr_buf pr)];
  Ret (setBuf remaining pr, take 188 packet).

(** [bytes.LastIndexByte(pr.buf, SyncByte)], -1 when absent. *)
Fixpoint lastIndexFrom (i : Z) (l : list Z) (b acc : Z) : Z :=
  match l with
  | [] => acc
  | x :: l => lastIndexFrom (i + 1) l b (if x =? b then i else acc)
  end.
Definition LastIndexByte (l : list Z) (b : Z) : Z := lastIndexFrom 0 l b (-1).

(** [if i := bytes.LastIndexByte(pr.buf, SyncByte); i > 0 { pr.buf = pr.buf[i:] }] *)
Definition skipGarbage (pr : PacketReader) : PacketReader :=
  let i := LastIndexByte (pr_buf pr) SyncByte in
  if 0 <? i then setBuf (drop (Z.to_nat i) (pr_buf pr)) pr else pr.

Definition isSome {A} (o : option A) : bool := match o with Some _ => true | None => false end.

(** The loop body of [NextInto]: a packet or an error leaves it. *)
Definition nextBody (pr : PacketReader)
    : outcome (PacketReader + PacketReader * (Packet + error)) :=
  let '(pr, err) := fill pr minDetectBytes in
  if isSome err && (len (pr_buf pr) =? 0) then break (pr, inr (default ErrEOF err)) else
  if len (pr_buf pr) =? 0 then break (pr, inr ErrEOF) else
  let '(pr, ready) := if negb (pr_stride pr =? 0) then packetReadyAt pr 0 (pr_stride pr)
                      else (pr, false) in
  if ready then
    '(pr, p) ← consumePacketInto pr 0 (pr_stride pr); break (pr, inl p)
  else
    let pr := setStride 0 pr in
    '(pr, found) ← detectPacket pr;
    match found with
    | None =>
        if pr_eof pr then break (pr, inr ErrEOF)
        else
          let pr := skipGarbage pr in
          let '(pr, err) := fill pr (len (pr_buf pr) + minDetectBytes) in
          if isSome err && (len (pr_buf pr) =? 0) then break (pr, inr (default ErrEOF err))
          else continue pr
    | Some (pos, stride) =>
        '(pr, p) ← consumePacketInto (setStride stride pr) pos stride; break (pr, inl p)
    end.

(** [NextInto] with a buffer of at least [PacketSize] bytes.  Each round that
    does not return reads at least once, so the script bounds the rounds. *)
Definition NextInto (pr : PacketReader) : outcome (PacketReader * (Packet + error)) :=
  loop (S (S (length (pr_chunks pr)))) nextBody pr.

(** Calling it until it fails, at most [n] times. *)
Fixpoint readAll (n : nat) (pr : PacketReader) : outcome (list Packet * option error) :=
  match n with
  | O => Ret ([], None)
  | S n =>
      '(pr, r) ← NextInto pr;
      match r with
      | inl p => '(ps, e) ← readAll n pr; Ret (p :: ps, e)
      | inr e => Ret ([], Some e)
      end
  end.

(** ** What [fill] does *)

Definition dataOf (chunks : list chunk) : list Z := concat (map fst chunks).

(** The reader moves along its script: nothing is lost, the stride and the
    final error stay, and the flag only rises. *)
Record advances (pr pr' : PacketReader) : Prop := {
  ad_data : pr_buf pr ++ dataOf (pr_chunks pr) = pr_buf pr' ++ dataOf (pr_chunks pr');
  ad_grow : ∃ k, pr_buf pr' = pr_buf pr ++ k;
  ad_chunks : (length (pr_chunks pr') ≤ length (pr_chunks pr))%nat;
  ad_final : pr_final pr' = pr_final pr;
  ad_stride : pr_stride pr' = pr_stride pr;
  ad_eof : pr_eof pr = true → pr_eof pr' = true
}.

#[export] Instance advances_refl : Reflexive advances.
Proof. intros pr. split; try done. exists []. by rewrite app_nil_r. Qed.

#[export] Instance advances_trans : Transitive advances.
Proof.
  intros a b c [D [k G] C F S E] [D' [k' G'] C' F' S' E']. split; try congruence; try lia; auto.
  exists (k ++ k'). by rewrite G', G, app_assoc.
Qed.

Lemma fillLoop_advances chunks final min buf eof stride :
  let '(chunks', buf', eof', _) := fillLoop chunks final min buf eof in
  advances (MkReader chunks final buf stride eof) (MkReader chunks' final buf' stride eof').
Proof.
  revert buf eof. induction chunks as [| [data err] chunks IH]; intros buf eof; simpl.
  - destruct (eof || _); [done |]. destruct (isEOF final); [| done].
    split; simpl; try done. exists []. by rewrite app_nil_r.
  - destruct (eof || _); [done |].
    assert (∀ eof', (eof = true → eof' = true) →
      advances (MkReader ((data, err) :: chunks) final buf stride eof)
               (MkReader chunks final (buf ++ data) stride eof')) as Hstep.
    { intros eof' He. split; simpl; try done; try lia; [| by exists data].
      unfold dataOf. simpl. by rewrite app_assoc. }
    destruct err as [e |]; [by destruct (isEOF e); apply Hstep |].
    destruct (len data =? 0); [by apply Hstep |].
    specialize (IH (buf ++ data) eof).
    destruct (fillLoop chunks final min (buf ++ data) eof) as [[[chunks' buf'] eof'] ?].
    etrans; [by apply (Hstep eof) | exact IH].
Qed.

Lemma fill_advances pr min : advances pr (fill pr min).1.
Proof.
  unfold fill.
  pose proof (fillLoop_advances (pr_chunks pr) (pr_final pr) min (pr_buf pr) (pr_eof pr) (pr_stride pr)) as H.
  destruct (fillLoop _ _ _ _ _) as [[[chunks buf] eof] err]. destruct pr; simpl in *.
  by destruct err.
Qed.

Lemma refill_advances pr pos stride : advances pr (refill pr pos stride).
Proof. unfold refill. case_match; [apply fill_advances | done]. Qed.

Lemma packetReadyAt_advances pr pos stride : advances pr (packetReadyAt pr pos stride).1.
Proof.
  unfold packetReadyAt. pose proof (refill_advances pr pos stride).
  destruct (_ || _); [done |]. cbv zeta.
  destruct (len (pr_buf (refill pr pos stride)) - pos <? stride); [done |].
  by destruct (syncChecks _ _ _ _ _).
Qed.

(** ** Detection and consumption *)

Definition syncOff (stride : Z) : Z := if stride =? packetSizeWithTimestamp then 4 else 0.

Definition known_stride (stride : Z) : Prop :=
  stride = PacketSize ∨ stride = packetSizeWithTimestamp ∨ stride = packetSizeWithParity.

(** A packet slot found in the buffer. *)
Definition slot (pr : PacketReader) (pos stride : Z) : Prop :=
  0 ≤ pos ∧ known_stride stride ∧ pos + stride ≤ len (pr_buf pr) ∧
  byteAt (pr_buf pr) (pos + syncOff stride) = SyncByte.

Lemma syncOff_bound stride : 0 ≤ syncOff stride ≤ 4.
Proof. unfold syncOff. destruct (_ =? _); lia. Qed.

Lemma packetReadyAt_slot pr pos stride :
  0 ≤ pos → known_stride stride →
  let '(pr', ok) := packetReadyAt pr pos stride in ok = true → slot pr' pos stride.
Proof.
  intros Hpos Hs. unfold packetReadyAt. fold (syncOff stride). pose proof (syncOff_bound stride).
  destruct (_ || _) eqn:E; [done |]. bools.
  destruct (refill_advances pr pos stride) as [_ [k Hk] _ _ _ _].
  cbv zeta. set (pr1 := refill pr pos stride) in *.
  destruct (len (pr_buf pr1) - pos <? stride) eqn:E'; [done |]. bools.
  assert (slot pr1 pos stride).
  { unfold slot. split_and!; [done | done | lia |]. by rewrite Hk, byteAt_app_l by lia. }
  by destruct (syncChecks _ _ _ _ _).
Qed.

Lemma advances_total pr pr' :
  advances pr pr' →
  (length (pr_buf pr') + streamLen (pr_chunks pr') =
   length (pr_buf pr) + streamLen (pr_chunks pr))%nat.
Proof.
  intros [D _ _ _ _ _]. apply (f_equal length) in D. rewrite !length_app in D.
  unfold streamLen. unfold dataOf in D. lia.
Qed.

Lemma detectPacket_safe pr :
  safe (detectPacket pr) (λ '(pr', found), advances pr pr' ∧
    match found with Some (pos, stride) => slot pr' pos stride | None => True end).
Proof.
  unfold detectPacket.
  apply (safe_loop (λ '(pr', pos), advances pr pr' ∧ 0 ≤ pos)
    (λ '(pr', pos), length (pr_buf pr) + streamLen (pr_chunks pr) - Z.to_nat pos)%nat);
    [| done | lia].
  intros [pr' pos] [Hadv Hpos]. unfold detectBody.
  destruct (Z.ltb_spec pos (len (pr_buf pr'))) as [Hlt | Hlt]; [| by go].
  assert (Z.to_nat pos < length (pr_buf pr) + streamLen (pr_chunks pr))%nat as Hμ.
  { rewrite <- (advances_total _ _ Hadv). unfold len in Hlt. lia. }
  assert (∀ p s, advances pr p → known_stride s →
    let '(p', ok) := packetReadyAt p pos s in
    advances pr p' ∧ (ok = true → slot p' pos s)) as Htry.
  { intros p s Hp Hs. pose proof (packetReadyAt_advances p pos s).
    pose proof (packetReadyAt_slot p pos s Hpos Hs).
    destruct (packetReadyAt p pos s) as [p' ok]; simpl in *. split; [by etrans | done]. }
  assert (known_stride PacketSize) as K1 by by left.
  assert (known_stride packetSizeWithTimestamp) as K2 by by right; left.
  assert (known_stride packetSizeWithParity) as K3 by by right; right.
  pose proof (Htry pr' _ Hadv K1) as T. destruct (packetReadyAt pr' pos _) as [p1 []], T as [A1 S1];
    [go; auto |].
  pose proof (Htry p1 _ A1 K2) as T. destruct (packetReadyAt p1 pos _) as [p2 []], T as [A2 S2];
    [go; auto |].
  pose proof (Htry p2 _ A2 K3) as T. destruct (packetReadyAt p2 pos _) as [p3 []], T as [A3 S3];
    [go; auto |].
  go. split; [split; [done | lia] | lia].
Qed.

(** The packet is cut out of the buffer; what is left of it follows the
    packet and, with parity, 16 more bytes. *)
Definition consumed (pr pr' : PacketReader) (p : Packet) : Prop :=
  len p = PacketSize ∧ byteAt p 0 = SyncByte ∧
  pr_chunks pr' = pr_chunks pr ∧ pr_final pr' = pr_final pr ∧ pr_stride pr' = pr_stride pr ∧
  ∃ skipped trailer, pr_buf pr = skipped ++ p ++ trailer ++ pr_buf pr' ∧
    (len trailer = 0 ∨ len trailer = 16).

Lemma consume_slot pr pos stride :
  slot pr pos stride →
  safe (consumePacketInto pr pos stride) (λ '(pr', p), consumed pr pr' p).
Proof.
  intros (Hpos & Hs & Hend & Hsync). unfold consumePacketInto, syncOff in *.
  set (start := if stride =? _ then pos + 4 else pos) in *.
  set (stop := if stride =? packetSizeWithParity then _ else _) in *.
  assert (0 ≤ start ∧ start + 188 = stop ∧ (stop = pos + stride ∨ stop + 16 = pos + stride) ∧
          byteAt (pr_buf pr) start = SyncByte) as (B1 & B2 & B3 & B4).
  { unfold start, stop, PacketSize.
    destruct Hs as [-> | [-> | ->]]; unfold PacketSize, packetSizeWithTimestamp, packetSizeWithParity in *;
      simpl in *; rewrite ?Z.add_0_r in Hsync; (split_and!; [lia | lia | lia | done]). }
  assert (0 < stride) by (destruct Hs as [-> | [-> | ->]]; done).
  go. assert (take 188 (sub (pr_buf pr) start stop) = sub (pr_buf pr) start stop) as ->.
  { apply take_ge. unfold len in *. lia. }
  unfold consumed. split_and!; try done; [unfold PacketSize; lia | |].
  - rewrite byteAt_sub by lia. by rewrite Z.add_0_r.
  - exists (sub (pr_buf pr) 0 start), (sub (pr_buf pr) stop (pos + stride)). simpl.
    split; [| rewrite len_sub; lia].
    rewrite <- sub_sub by lia. apply sub_split; lia.
Qed.

Lemma skipGarbage_fields pr :
  pr_chunks (skipGarbage pr) = pr_chunks pr ∧ pr_final (skipGarbage pr) = pr_final pr ∧
  pr_eof (skipGarbage pr) = pr_eof pr ∧ pr_stride (skipGarbage pr) = pr_stride pr.
Proof. unfold skipGarbage. by case_match. Qed.

(** A refill past the end of the buffer reads at least once. *)
Lemma fill_progress pr :
  pr_final pr = ErrEOF → pr_eof pr = false →
  let pr' := (fill pr (len (pr_buf pr) + minDetectBytes)).1 in
  (length (pr_chunks pr') < length (pr_chunks pr))%nat ∨ pr_eof pr' = true.
Proof.
  intros Hf He. unfold fill. destruct pr as [chunks final buf stride eof]; simpl in *. subst.
  destruct chunks as [| [data err] chunks]; simpl;
    (destruct (Z.leb_spec (len buf + minDetectBytes) (len buf)) as [Hc | _];
     [unfold minDetectBytes, packetSizeWithParity in Hc; lia |]); [by right |].
  destruct err as [e |]; [destruct (isEOF e); simpl; lia |].
  destruct (len data =? 0); [simpl; lia |]. left.
  pose proof (fillLoop_advances chunks ErrEOF (len buf + minDetectBytes) (buf ++ data) false stride) as A.
  destruct (fillLoop _ _ _ _ _) as [[[c b] e] err]. apply ad_chunks in A. simpl in A.
  destruct err; simpl; lia.
Qed.

(** ** Reading a packet *)

Definition dataLeft (pr : PacketReader) : list Z := pr_buf pr ++ dataOf (pr_chunks pr).

(** [pr'] is further along the same script, after skipping some bytes. *)
Definition behind (pr pr' : PacketReader) : Prop :=
  pr_final pr' = pr_final pr ∧ (length (pr_chunks pr') ≤ length (pr_chunks pr))%nat ∧
  (pr_eof pr = true → pr_eof pr' = true) ∧
  ∃ skipped, dataLeft pr = skipped ++ dataLeft pr'.

#[export] Instance behind_refl : Reflexive behind.
Proof. intros pr. unfold behind. split_and!; try done. by exists []. Qed.

#[export] Instance behind_trans : Transitive behind.
Proof.
  intros a b c (F & C & E & k & D) (F' & C' & E' & k' & D'). unfold behind.
  split_and!; try congruence; try lia; auto. exists (k ++ k'). by rewrite D, D', app_assoc.
Qed.

Lemma advances_behind pr pr' : advances pr pr' → behind pr pr'.
Proof. intros [D _ C F _ E]. unfold behind. split_and!; try done. by exists []. Qed.

Lemma setStride_behind s pr : behind pr (setStride s pr).
Proof. unfold behind. split_and!; try done. by exists []. Qed.

Lemma skipGarbage_behind pr : behind pr (skipGarbage pr).
Proof.
  destruct (skipGarbage_fields pr) as (C & F & E & _). unfold behind.
  rewrite C, F, E. split_and!; try done. unfold dataLeft. rewrite C. unfold skipGarbage.
  case_match; [| by exists []]. simpl.
  eexists (take _ (pr_buf pr)). by rewrite app_assoc, take_drop.
Qed.

(** What a successful read promises: a whole packet, cut out of the data in
    order. *)
Definition delivered (pr pr' : PacketReader) (p : Packet) : Prop :=
  len p = PacketSize ∧ byteAt p 0 = SyncByte ∧
  ∃ skipped trailer, dataLeft pr = skipped ++ p ++ trailer ++ dataLeft pr' ∧
    (len trailer = 0 ∨ len trailer = 16).

Lemma consumed_delivered pr0 pr pr' p :
  behind pr0 pr → consumed pr pr' p → delivered pr0 pr' p ∧ pr_final pr' = pr_final pr0.
Proof.
  intros (F & _ & _ & k & D) (L & B & C & F' & _ & k' & t & D' & T).
  split; [| congruence]. split_and!; [done | done |]. exists (k ++ k'), t. split; [| done].
  rewrite D. unfold dataLeft. rewrite D', C. by rewrite <- !app_assoc.
Qed.

(** The reader's own invariant: the stride is unset or one of the three. *)
Definition reader_ok (pr : PacketReader) : Prop :=
  pr_final pr = ErrEOF ∧ (pr_stride pr = 0 ∨ known_stride (pr_stride pr)).

Definition readMeasure (pr : PacketReader) : nat :=
  (length (pr_chunks pr) + if pr_eof pr then 0 else 1)%nat.

Lemma behind_measure pr pr' : behind pr pr' → (readMeasure pr' ≤ readMeasure pr)%nat.
Proof.
  intros (_ & C & E & _). unfold readMeasure. destruct (pr_eof pr); [rewrite E by done |].
  - lia.
  - destruct (pr_eof pr'); lia.
Qed.

Definition read_post (pr0 pr' : PacketReader) (r : Packet + error) : Prop :=
  match r with inl p => delivered pr0 pr' p ∧ reader_ok pr' | inr _ => True end.

Lemma consume_post pr0 pr pos stride :
  pr_final pr0 = ErrEOF → behind pr0 pr → slot pr pos stride →
  pr_stride pr = 0 ∨ known_stride (pr_stride pr) →
  safe (consumePacketInto pr pos stride) (λ '(pr', p), read_post pr0 pr' (inl p)).
Proof.
  intros Hf Hb Hs Hk. eapply safe_mono; [by apply consume_slot |].
  intros [pr' p] Hc. destruct (consumed_delivered _ _ _ _ Hb Hc). split; [done |].
  destruct Hc as (_ & _ & _ & _ & Hst & _). split; [congruence | by rewrite Hst].
Qed.

(** The stride found earlier, tried again. *)
Definition tryStride (pr : PacketReader) : PacketReader * bool :=
  if negb (pr_stride pr =? 0) then packetReadyAt pr 0 (pr_stride pr) else (pr, false).

Lemma tryStride_spec pr :
  pr_stride pr = 0 ∨ known_stride (pr_stride pr) →
  let '(pr', ready) := tryStride pr in
  advances pr pr' ∧ (ready = true → slot pr' 0 (pr_stride pr')).
Proof.
  intros Hk. unfold tryStride. destruct (Z.eqb_spec (pr_stride pr) 0) as [-> | Hnz]; [done |].
  destruct Hk as [? | Hk]; [done |]. simpl.
  pose proof (packetReadyAt_advances pr 0 (pr_stride pr)) as A.
  pose proof (packetReadyAt_slot pr 0 (pr_stride pr) (Z.le_refl 0) Hk) as S.
  destruct (packetReadyAt pr 0 (pr_stride pr)) as [pr' ok]. simpl in A.
  split; [done |]. intros ->. rewrite (ad_stride _ _ A). by apply S.
Qed.

Lemma nextBody_safe pr0 pr :
  pr_final pr0 = ErrEOF → behind pr0 pr → (pr_stride pr = 0 ∨ known_stride (pr_stride pr)) →
  safe (nextBody pr) (λ r, match r with
    | inl pr' => (behind pr0 pr' ∧ pr_stride pr' = 0) ∧ (readMeasure pr' < readMeasure pr)%nat
    | inr (pr', r) => read_post pr0 pr' r
    end).
Proof.
  intros Hf Hb Hk. unfold nextBody.
  pose proof (fill_advances pr minDetectBytes) as A1.
  destruct (fill pr minDetectBytes) as [pr1 err]. simpl in A1.
  destruct (isSome err && _); [by go |]. destruct (len (pr_buf pr1) =? 0); [by go |].
  fold (tryStride pr1). rewrite <- (ad_stride _ _ A1) in Hk.
  pose proof (tryStride_spec pr1 Hk) as T. destruct (tryStride pr1) as [pr2 ready].
  destruct T as [A2 S2]. apply advances_behind in A1.
  assert (behind pr pr2) as B2 by (etrans; [exact A1 | by apply advances_behind]).
  destruct ready.
  { apply safe_bind. eapply safe_mono; [apply (consume_post pr0); [done | by etrans | by apply S2 |] |].
    - by rewrite (ad_stride _ _ A2).
    - intros [pr' p] H. exact H. }
  apply safe_bind. eapply safe_mono; [apply detectPacket_safe |].
  intros [pr3 found] [A3 S3].
  assert (behind pr pr3) as B3.
  { etrans; [exact B2 |]. etrans; [apply (setStride_behind 0) | by apply advances_behind]. }
  destruct found as [[pos stride] |].
  - apply safe_bind. eapply safe_mono; [apply (consume_post pr0); [done | | exact S3 |] |].
    + etrans; [exact Hb |]. etrans; [exact B3 | apply setStride_behind].
    + right. apply S3.
    + intros [pr' p] H. exact H.
  - destruct (pr_eof pr3) eqn:E3; [by go |].
    destruct (skipGarbage_fields pr3) as (C4 & F4 & E4 & St4).
    pose proof (skipGarbage_behind pr3) as B4. set (pr4 := skipGarbage pr3) in *.
    assert (pr_final pr4 = ErrEOF) as F by (destruct Hb as [Hb _], B3 as [B3 _]; congruence).
    pose proof (fill_advances pr4 (len (pr_buf pr4) + minDetectBytes)) as A5.
    pose proof (fill_progress pr4 F (eq_trans E4 E3)) as P5. cbv zeta in P5.
    destruct (fill pr4 _) as [pr5 err5]. simpl in A5, P5.
    destruct (isSome err5 && _); [by go |]. go. split; [split |].
    + etrans; [exact Hb |]. etrans; [exact B3 |]. etrans; [exact B4 | by apply advances_behind].
    + rewrite (ad_stride _ _ A5), St4, (ad_stride _ _ A3). done.
    + pose proof (behind_measure _ _ B3). pose proof (ad_chunks _ _ A5).
      unfold readMeasure in *. rewrite E3, C4 in *.
      destruct P5 as [P5 | ->]; [destruct (pr_eof pr5) |]; lia.
Qed.

(** C38 (PacketReader.NextInto): over any script of reads that ends with EOF,
    whatever the chunk boundaries, the empty reads and the intermediate
    errors, a call ends without a panic, and a packet it returns is 188 bytes
    led by the sync byte, a contiguous piece of the data in reading order, of
    which at most 16 trailing bytes are dropped with it; the reader's
    invariant holds for the next call. *)
Theorem NextInto_delivers pr :
  reader_ok pr → safe (NextInto pr) (λ '(pr', r), read_post pr pr' r).
Proof.
  intros [Hf Hk].
  apply (safe_loop (λ p, behind pr p ∧ (pr_stride p = 0 ∨ known_stride (pr_stride p))) readMeasure).
  - intros p [Hb Hp]. eapply safe_mono; [by apply (nextBody_safe pr) |].
    intros [p' | [p' r]]; [| done]. intros [[? ?] ?]. auto.
  - done.
  - unfold readMeasure. destruct (pr_eof pr); lia.
Qed.

(** Garbage, then two packets, the second cut by a chunk boundary. *)
Definition sample_chunks : list chunk :=
  let p := SyncByte :: replicate 187 255 in
  [([1; 2; 3] ++ p ++ take 100 p, None); ([], Some (ErrIO 5)); (drop 100 p, None)].

Lemma NextInto_delivers_witness :
  safe (NextInto (NewPacketReader sample_chunks ErrEOF))
    (λ '(pr', r), read_post (NewPacketReader sample_chunks ErrEOF) pr' r) ∧
  readAll 3 (NewPacketReader sample_chunks ErrEOF) =
    Ret ([SyncByte :: replicate 187 255; SyncByte :: replicate 187 255], Some ErrEOF).
Proof.
  split; [apply NextInto_delivers; split; [done | by left] | by vm_compute].
Defined.

(** ** An aligned stream *)

(** A packet of a well-formed stream. *)
Definition aligned (p : Packet) : Prop := len p = PacketSize ∧ byteAt p 0 = SyncByte.

(** A reader that returns data or EOF, in chunks of any size. *)
Definition plain (chunks : list chunk) : Prop :=
  Forall (λ '(data, err), data ≠ [] ∧ err = None) chunks.

(** The reader stands at the boundary before the packets [ps]. *)
Definition at_packets (pr : PacketReader) (ps : list Packet) : Prop :=
  dataLeft pr = concat ps ∧ plain (pr_chunks pr) ∧ pr_final pr = ErrEOF ∧
  (pr_eof pr = true → pr_chunks pr = []) ∧
  (pr_stride pr = 0 ∨ pr_stride pr = PacketSize).

Lemma plain_dataOf_nil chunks : plain chunks → dataOf chunks = [] → chunks = [].
Proof.
  intros Hp. destruct Hp as [| [data err] chunks [Hd _] _]; [done |].
  unfold dataOf. simpl. intros H. by apply app_eq_nil in H as [? _].
Qed.

Lemma fillLoop_plain chunks min buf eof :
  plain chunks → (eof = true → chunks = []) →
  let '(chunks', buf', eof', err) := fillLoop chunks ErrEOF min buf eof in
  plain chunks' ∧ err = None ∧ (eof' = true → chunks' = []) ∧ (min ≤ len buf' ∨ eof' = true).
Proof.
  intros Hp. revert buf eof.
  induction Hp as [| [data err] chunks [Hd ->] Hp IH]; intros buf eof He; simpl.
  - pose proof (Forall_nil_2 _ : plain []).
    destruct eof; simpl; [by auto |]. destruct (Z.leb_spec min (len buf)); by auto.
  - destruct eof; [by specialize (He eq_refl) |]. simpl.
    destruct (Z.leb_spec min (len buf)); [split_and!; auto; by apply Forall_cons |].
    destruct (Z.eqb_spec (len data) 0) as [Hz |]; [by apply len_zero_nil in Hz |].
    by apply IH.
Qed.

Lemma fill_plain pr ps min :
  at_packets pr ps →
  let '(pr', err) := fill pr min in
  at_packets pr' ps ∧ (min ≤ len (pr_buf pr') ∨ pr_eof pr' = true) ∧
  err = (if (len (pr_buf pr') =? 0) && pr_eof pr' then Some ErrEOF else None).
Proof.
  intros (D & P & F & E & S). unfold fill. rewrite F.
  pose proof (fillLoop_advances (pr_chunks pr) ErrEOF min (pr_buf pr) (pr_eof pr) (pr_stride pr)) as A.
  pose proof (fillLoop_plain _ min (pr_buf pr) _ P E) as H.
  destruct (fillLoop _ _ _ _ _) as [[[c b] e] err]. destruct H as (P' & -> & E' & Hmin).
  split_and!; try done. unfold at_packets. split_and!; try done.
  unfold dataLeft. rewrite <- D. unfold dataLeft. symmetry. exact (ad_data _ _ A).
Qed.

Lemma concat_sync ps k :
  Forall aligned ps → (k < length ps)%nat → byteAt (concat ps) (PacketSize * Z.of_nat k) = SyncByte.
Proof.
  intros Hps. revert k. induction Hps as [| p ps [L B] Hps IH]; intros k Hk; simpl in *; [lia |].
  destruct k as [| k].
  - rewrite Z.mul_0_r. rewrite byteAt_app_l; [done |]. unfold PacketSize in L. lia.
  - unfold PacketSize in *. rewrite byteAt_app_r by lia.
    replace (188 * Z.of_nat (Datatypes.S k) - len p) with (188 * Z.of_nat k) by lia.
    apply IH. lia.
Qed.

Lemma concat_len ps : Forall aligned ps → len (concat ps) = PacketSize * Z.of_nat (length ps).
Proof.
  induction 1 as [| p ps [L _] _ IH]; [done |]. simpl. rewrite len_app, L, IH. unfold PacketSize. lia.
Qed.

(** Every in-range byte at a packet boundary passes the check, and the number
    of checks that pass is positive as soon as one byte is in range. *)
Lemma syncChecks_aligned n buf k checks :
  (∀ j, (k ≤ j)%nat → PacketSize * Z.of_nat j < len buf →
     byteAt buf (PacketSize * Z.of_nat j) = SyncByte) →
  0 ≤ checks →
  ∃ c, syncChecks n buf (PacketSize * Z.of_nat k) PacketSize checks = Some c ∧ checks ≤ c ∧
    (PacketSize * Z.of_nat k < len buf → (0 < n)%nat → 0 < c).
Proof.
  revert k checks. induction n as [| n IH]; intros k checks Hj Hc; simpl.
  - exists checks. split_and!; [done | lia | lia].
  - destruct (Z.ltb_spec (PacketSize * Z.of_nat k) (len buf)) as [Hlt | Hge];
      [| exists checks; split_and!; [done | lia | lia]].
    rewrite (Hj k) by (done || lia). simpl.
    replace (PacketSize * Z.of_nat k + PacketSize) with (PacketSize * Z.of_nat (Datatypes.S k))
      by (unfold PacketSize; lia).
    destruct (IH (Datatypes.S k) (checks + 1)) as (c & -> & ? & _); [intros; apply Hj; lia || done | lia |].
    exists c. split_and!; [done | lia | lia].
Qed.

Lemma packetReadyAt_aligned pr p ps :
  at_packets pr (p :: ps) → Forall aligned (p :: ps) →
  minDetectBytes ≤ len (pr_buf pr) ∨ pr_eof pr = true →
  packetReadyAt pr 0 PacketSize = (pr, true).
Proof.
  intros (D & P & _ & E & _) Hps Hfull.
  assert (len (concat (p :: ps)) = PacketSize * Z.of_nat (length (p :: ps))) as HL by by apply concat_len.
  assert (PacketSize ≤ len (pr_buf pr) ∧ (pr_eof pr = true ∨ PacketSize < len (pr_buf pr))) as [H1 H2].
  { unfold minDetectBytes, packetSizeWithParity, PacketSize in *. destruct Hfull as [Hfull | He]; [lia |].
    rewrite <- D in HL. unfold dataLeft in HL. rewrite (E He) in HL.
    change (dataOf []) with (@nil Z) in HL. rewrite app_nil_r in HL. simpl in HL.
    split; [lia | by left]. }
  assert (∀ j, PacketSize * Z.of_nat j < len (pr_buf pr) →
    byteAt (pr_buf pr) (PacketSize * Z.of_nat j) = SyncByte) as Hsync.
  { intros j Hj. rewrite <- (byteAt_app_l _ (dataOf (pr_chunks pr))) by (unfold PacketSize in *; lia).
    fold (dataLeft pr). rewrite D. apply concat_sync; [done |].
    apply (f_equal len) in D. unfold dataLeft in D. rewrite len_app, HL in D.
    pose proof (len_nonneg (dataOf (pr_chunks pr))). unfold PacketSize in *. lia. }
  pose proof (Hsync 0%nat ltac:(unfold PacketSize in *; lia)) as H0.
  unfold packetReadyAt, refill. change (PacketSize =? packetSizeWithTimestamp) with false. cbv zeta iota.
  change (PacketSize * Z.of_nat 0) with 0 in H0. change (0 + 0) with 0. rewrite H0.
  destruct (Z.leb_spec (len (pr_buf pr)) 0); [unfold PacketSize in *; lia |]. change (SyncByte =? SyncByte) with true. cbn [orb negb].
  destruct (Z.ltb_spec (len (pr_buf pr) - 0) PacketSize); [lia |]. cbn [andb]. cbv iota.
  destruct (Z.ltb_spec (len (pr_buf pr) - 0) PacketSize); [lia |].
  destruct (syncChecks_aligned 3 (pr_buf pr) 1 0) as (c & Hc & Hc0 & Hpos); [auto | lia |].
  change (PacketSize * Z.of_nat 1) with (0 + PacketSize + 0) in Hc. rewrite Hc. f_equal.
  destruct H2 as [-> | H2]; [apply orb_true_r |].
  destruct (Z.ltb_spec 0 c) as [|Hc']; [done |].
  specialize (Hpos ltac:(change (PacketSize * Z.of_nat 1) with PacketSize; lia) ltac:(lia)). lia.
Qed.

(** The packet is consumed whole, and the reader stands before the next. *)
Lemma consume_aligned pr p ps :
  at_packets pr (p :: ps) → Forall aligned (p :: ps) → pr_stride pr = PacketSize →
  PacketSize ≤ len (pr_buf pr) →
  ∃ pr', consumePacketInto pr 0 PacketSize = Ret (pr', p) ∧ at_packets pr' ps.
Proof.
  intros (D & P & F & E & S) Hps Hst Hl. apply Forall_cons in Hps as [[Lp _] Hps].
  unfold dataLeft in D. simpl in D.
  assert (∃ rest, pr_buf pr = p ++ rest) as [rest Hbuf].
  { exists (drop (length p) (pr_buf pr)).
    apply (f_equal (take (length p))) in D. unfold len, PacketSize in *.
    rewrite take_app_le in D by lia. rewrite take_app_length in D.
    rewrite <- D at 1. by rewrite take_drop. }
  unfold consumePacketInto. change (PacketSize =? packetSizeWithTimestamp) with false.
  change (PacketSize =? packetSizeWithParity) with false. cbv iota zeta.
  rewrite !slice_sub by (unfold PacketSize in *; lia). run.
  eexists. split.
  - f_equal. f_equal. rewrite Hbuf. change (0 + PacketSize) with PacketSize. rewrite <- Lp.
    rewrite sub_app_l by lia. rewrite sub_full. apply take_ge. unfold len, PacketSize in Lp. lia.
  - unfold at_packets, dataLeft. simpl. split_and!; try done.
    rewrite Hbuf in D |- *. rewrite <- app_assoc in D. apply app_inv_head in D. rewrite <- D. f_equal.
    change (0 + PacketSize) with PacketSize. rewrite <- Lp, sub_app_r by lia.
    rewrite Z.sub_diag, len_app. replace (len p + len rest - len p) with (len rest) by lia.
    apply sub_full.
Qed.

Lemma setStride_at pr ps s :
  at_packets pr ps → s = 0 ∨ s = PacketSize → at_packets (setStride s pr) ps.
Proof. intros (D & P & F & E & S) Hs. unfold at_packets. by split_and!. Qed.

Lemma detectPacket_aligned pr p ps :
  at_packets pr (p :: ps) → Forall aligned (p :: ps) → 0 < len (pr_buf pr) →
  minDetectBytes ≤ len (pr_buf pr) ∨ pr_eof pr = true →
  detectPacket pr = Ret (pr, Some (0, PacketSize)).
Proof.
  intros Hat Hps Hl Hfull. unfold detectPacket. rewrite loop_S. unfold detectBody.
  destruct (Z.ltb_spec 0 (len (pr_buf pr))); [| lia].
  by rewrite (packetReadyAt_aligned pr p ps).
Qed.

Lemma NextInto_aligned pr p ps :
  at_packets pr (p :: ps) → Forall aligned (p :: ps) →
  ∃ pr', NextInto pr = Ret (pr', inl p) ∧ at_packets pr' ps.
Proof.
  intros Hat Hps. unfold NextInto. rewrite loop_S. unfold nextBody at 2.
  pose proof (fill_plain pr _ minDetectBytes Hat) as Hfill.
  destruct (fill pr minDetectBytes) as [pr1 err]. destruct Hfill as (Hat1 & Hmin & _).
  assert (PacketSize ≤ len (pr_buf pr1)) as Hl.
  { unfold minDetectBytes, packetSizeWithParity, PacketSize in *. destruct Hmin as [|He]; [lia |].
    destruct Hat1 as (D & _ & _ & E & _). unfold dataLeft in D. rewrite (E He) in D.
    change (dataOf []) with (@nil Z) in D. rewrite app_nil_r in D. rewrite D.
    rewrite concat_len by done. unfold PacketSize. simpl. lia. }
  assert ((len (pr_buf pr1) =? 0) = false) as -> by (apply Z.eqb_neq; unfold PacketSize in *; lia).
  rewrite andb_false_r. cbv iota.
  pose proof (packetReadyAt_aligned pr1 p ps Hat1 Hps Hmin) as Hready.
  pose proof Hat1 as (_ & _ & _ & _ & [Hs | Hs]).
  - rewrite Hs. simpl (negb _). cbv iota.
    rewrite (detectPacket_aligned (setStride 0 pr1) p ps);
      [| by apply setStride_at; [| by left] | done | simpl; unfold PacketSize in *; lia | done].
    run. assert (at_packets (setStride PacketSize (setStride 0 pr1)) (p :: ps)) as Hat2
      by exact (setStride_at _ _ _ (setStride_at _ _ _ Hat1 (or_introl eq_refl)) (or_intror eq_refl)).
    destruct (consume_aligned _ p ps Hat2 Hps eq_refl Hl) as (pr' & Hc & Hat').
    exists pr'. rewrite Hc. split; [reflexivity | exact Hat'].
  - rewrite !Hs. simpl (negb _). cbv iota. rewrite Hready.
    destruct (consume_aligned pr1 p ps Hat1 Hps Hs Hl) as (pr' & Hc & Hat').
    exists pr'. rewrite Hs, Hc. split; [reflexivity | exact Hat'].
Qed.

Lemma NextInto_end pr : at_packets pr [] → ∃ pr', NextInto pr = Ret (pr', inr ErrEOF).
Proof.
  intros Hat. pose proof Hat as (D & P & _ & _). unfold dataLeft in D. simpl in D.
  apply app_eq_nil in D as [Hb Hd].
  unfold NextInto. rewrite loop_S. unfold nextBody at 2.
  pose proof (fill_plain pr _ minDetectBytes Hat) as Hfill.
  destruct (fill pr minDetectBytes) as [pr1 err]. destruct Hfill as ((D & _) & Hmin & ->).
  apply app_eq_nil in D as [Hb1 _]. rewrite Hb1 in *.
  destruct Hmin as [Hmin | ->]; [by compute in Hmin |]. eexists. reflexivity.
Qed.

(** Reading a stream of
    188-byte packets that each start with the sync byte returns exactly those
    packets, in order, the last one included, and then EOF, however the
    underlying reader cuts the stream into reads. *)
Theorem readAll_aligned chunks ps :
  plain chunks → dataOf chunks = concat ps → Forall aligned ps →
  readAll (S (length ps)) (NewPacketReader chunks ErrEOF) = Ret (ps, Some ErrEOF).
Proof.
  intros Hc Hd Hps.
  assert (∀ ps pr, Forall aligned ps → at_packets pr ps →
    readAll (S (length ps)) pr = Ret (ps, Some ErrEOF)) as Hmain.
  { clear. intros ps pr Hps. revert pr. induction Hps as [| p ps Hp Hps IH]; intros pr Hat.
    - destruct (NextInto_end pr Hat) as [pr' H]. simpl. by rewrite H.
    - destruct (NextInto_aligned pr p ps) as (pr' & H & Hat'); [done | by apply Forall_cons |].
      cbn [length]. specialize (IH _ Hat'). remember (S (length ps)) as n.
      cbn [readAll]. rewrite H. run. by rewrite IH. }
  apply Hmain; [done |]. unfold at_packets. by split_and!; [| | | | left].
Qed.

Definition sample_cut : list chunk :=
  let p := SyncByte :: replicate 187 255 in
  let s := p ++ p ++ p in
  [(take 1 s, None); (take 299 (drop 1 s), None); (drop 300 s, None)].

Lemma readAll_aligned_witness :
  readAll 4 (NewPacketReader sample_cut ErrEOF) =
    Ret (replicate 3 (SyncByte :: replicate 187 255), Some ErrEOF).
Proof.
  apply (readAll_aligned sample_cut (replicate 3 (SyncByte :: replicate 187 255))).
  - repeat (apply Forall_cons; split; [done |]). apply Forall_nil_2.
  - by vm_compute.
  - repeat (apply Forall_cons; split; [done |]). apply Forall_nil_2.
Defined.

(** ** A reader that keeps failing *)

Lemma packetReadyAt_nosync pr pos stride :
  SyncByte ∉ pr_buf pr → 0 ≤ pos → packetReadyAt pr pos stride = (pr, false).
Proof.
  intros Hno Hpos. unfold packetReadyAt. fold (syncOff stride). pose proof (syncOff_bound stride).
  destruct (Z.leb_spec (len (pr_buf pr)) (pos + syncOff stride)) as [| Hlt]; [done |].
  destruct (Z.eqb_spec (byteAt (pr_buf pr) (pos + syncOff stride)) SyncByte) as [He |]; [| done].
  exfalso. apply Hno. unfold byteAt, len in *.
  destruct (lookup_lt_is_Some_2 (pr_buf pr) (Z.to_nat (pos + syncOff stride))) as [b Hb]; [lia |].
  rewrite Hb in He. simpl in He. subst. by eapply list_elem_of_lookup_2.
Qed.

Lemma detectPacket_nosync pr : SyncByte ∉ pr_buf pr → detectPacket pr = Ret (pr, None).
Proof.
  intros Hno. unfold detectPacket.
  assert (∀ n pos, 0 ≤ pos → (length (pr_buf pr) - Z.to_nat pos < n)%nat →
    loop n detectBody (pr, pos) = Ret (pr, None)) as H; [| by apply H; lia].
  induction n as [| n IH]; intros pos Hpos Hn; [lia |].
  rewrite loop_S. unfold detectBody at 2.
  destruct (Z.ltb_spec pos (len (pr_buf pr))); [| done].
  rewrite !packetReadyAt_nosync by done. run. unfold len in *. apply IH; lia.
Qed.

(** A reader that has no more data but keeps
    answering with an error other than EOF makes the call spin: with bytes
    left in the buffer, none of them a sync byte, no number of rounds of its
    loop returns, so the error never reaches the caller. *)
Theorem NextInto_spins buf e fuel :
  buf ≠ [] → SyncByte ∉ buf → e ≠ ErrEOF →
  loop fuel nextBody (MkReader [] e buf 0 false) = Diverge.
Proof.
  intros Hb Hno He. induction fuel as [| fuel IH]; [done |].
  assert (isEOF e = false) as HE by by apply bool_decide_eq_false.
  assert (∀ min, ∃ err, fill (MkReader [] e buf 0 false) min = (MkReader [] e buf 0 false, err)) as Hfill.
  { intros min. unfold fill. simpl. destruct (min <=? len buf); [by eexists |].
    rewrite HE. by eexists. }
  assert ((len buf =? 0) = false) as Hl by (apply Z.eqb_neq; intros ?%len_zero_nil; done).
  rewrite loop_S. unfold nextBody at 2.
  destruct (Hfill minDetectBytes) as [err ->]. cbn [pr_buf pr_stride]. rewrite Hl, andb_false_r.
  simpl (negb _). cbv iota. change (setStride 0 ?pr) with pr.
  rewrite detectPacket_nosync by done. run. cbn [pr_eof].
  assert (skipGarbage (MkReader [] e buf 0 false) = MkReader [] e buf 0 false) as ->.
  { unfold skipGarbage, LastIndexByte. simpl.
    assert (∀ l i, SyncByte ∉ l → lastIndexFrom i l SyncByte (-1) = -1) as ->; [| done | done].
    clear. induction l as [| x l IH]; intros i H; [done |]. simpl.
    apply not_elem_of_cons in H as [Hx H]. destruct (Z.eqb_spec x SyncByte); [by subst |]. by apply IH. }
  cbn [pr_buf]. destruct (Hfill (len buf + minDetectBytes)) as [err' ->]. cbn [pr_buf].
  rewrite Hl, andb_false_r. exact IH.
Qed.

Lemma NextInto_spins_witness : loop 1000 nextBody (MkReader [] (ErrIO 5) [1; 2; 3] 0 false) = Diverge.
Proof. apply (NextInto_spins [1; 2; 3] (ErrIO 5)); [done | set_solver | done]. Defined.
