(* ===== verification/AribTables.v ===== *)
(** * The character tables of the ARIB string decoder ([ts/aribstr])

    The tables of [table719.go], [table721.go] and [table_x0213.go], value for
    value.  A Go string is the list of its runes. *)

From S2P Require Import Prelude.

(** ** [table719.go]: the additional symbols, rows 0x75 to 0x7e *)

Definition aribTable719Row75 : list Z :=
  [0x3402; 0x20158; 0x4efd; 0x4eff; 0x4f9a; 0x4fc9; 0x509c; 0x511e; 0x51bc; 0x351f; 0x5307;
   0x5361; 0x536c; 0x8a79; 0x20bb7; 0x544d; 0x5496; 0x549c; 0x54a9; 0x550e; 0x554a; 0x5672;
   0x56e4; 0x5733; 0x5734; 0xfa10; 0x5880; 0x59e4; 0x5a23; 0x5a55; 0x5bec; 0xfa11; 0x37e2;
   0x5eac; 0x5f34; 0x5f45; 0x5fb7; 0x6017; 0xfa6b; 0x6130; 0x6624; 0x66c8; 0x66d9; 0x66fa;
   0x66fb; 0x6852; 0x9fc4; 0x6911; 0x693b; 0x6a45; 0x6a91; 0x6adb; 0x233cc; 0x233fe; 0x235c4;
   0x6bf1; 0x6ce0; 0x6d2e; 0xfa45; 0x6dbf; 0x6dca; 0x6df8; 0xfa46; 0x6f5e; 0x6ff9; 0x7064;
   0xfa6c; 0x242ee; 0x7147; 0x71c1; 0x7200; 0x739f; 0x73a8; 0x73c9; 0x73d6; 0x741b; 0x7421;
   0xfa4a; 0x7426; 0x742a; 0x742c; 0x7439; 0x744b; 0x3eda; 0x7575; 0x7581; 0x7772; 0x4093;
   0x78c8; 0x78e0; 0x7947; 0x79ae; 0x9fc6; 0x4103].

Definition aribTable719Row76 : list Z :=
  [0x9fc5; 0x79da; 0x7a1e; 0x7b7f; 0x7c31; 0x4264; 0x7d8b; 0x7fa1; 0x8118; 0x813a; 0xfa6d;
   0x82ae; 0x845b; 0x84dc; 0x84ec; 0x8559; 0x85ce; 0x8755; 0x87ec; 0x880b; 0x88f5; 0x89d2;
   0x8af6; 0x8dce; 0x8fbb; 0x8ff6; 0x90dd; 0x9127; 0x912d; 0x91b2; 0x9233; 0x9288; 0x9321;
   0x9348; 0x9592; 0x96de; 0x9903; 0x9940; 0x9ad9; 0x9bd6; 0x9dd7; 0x9eb4; 0x9eb5; 0; 0; 0; 0; 0;
   0; 0; 0; 0; 0; 0; 0; 0; 0; 0; 0; 0; 0; 0; 0; 0; 0; 0; 0; 0; 0; 0; 0; 0; 0; 0; 0; 0; 0; 0; 0;
   0; 0; 0; 0; 0; 0; 0; 0; 0; 0; 0; 0; 0; 0; 0].

Definition aribTable719Row7a : list Z :=
  [0x26cc; 0x26cd; 0x2757; 0x26cf; 0x26d0; 0x26d1; 0; 0x26d2; 0x26d5; 0x26d3; 0x26d4; 0; 0; 0; 0;
   0x1f17f; 0x1f18a; 0; 0; 0x26d6; 0x26d7; 0x26d8; 0x26d9; 0x26da; 0x26db; 0x26dc; 0x26dd;
   0x26de; 0x26df; 0x26e0; 0x26e1; 0x2b55; 0x3248; 0x3249; 0x324a; 0x324b; 0x324c; 0x324d;
   0x324e; 0x324f; 0; 0; 0; 0; 0x2491; 0x2492; 0x2493; 0x1f14a; 0x1f14c; 0x1f13f; 0x1f146;
   0x1f14b; 0x1f210; 0x1f211; 0x1f212; 0x1f213; 0x1f142; 0x1f214; 0x1f215; 0x1f216; 0x1f14d;
   0x1f131; 0x1f13d; 0x2b1b; 0x2b24; 0x1f217; 0x1f218; 0x1f219; 0x1f21a; 0x1f21b; 0x26bf;
   0x1f21c; 0x1f21d; 0x1f21e; 0x1f21f; 0x1f220; 0x1f221; 0x1f222; 0x1f223; 0x1f224; 0x1f225;
   0x1f14e; 0x3299; 0x1f200; 0; 0; 0; 0; 0; 0; 0; 0; 0; 0].

Definition aribTable719Row7b : list Z :=
  [0x26e3; 0x2b56; 0x2b57; 0x2b58; 0x2b59; 0x2613; 0x328b; 0x3012; 0x26e8; 0x3246; 0x3245;
   0x26e9; 0xfd6; 0x26ea; 0x26eb; 0x26ec; 0x2668; 0x26ed; 0x26ee; 0x26ef; 0x2693; 0x2708; 0x26f0;
   0x26f1; 0x26f2; 0x26f3; 0x26f4; 0x26f5; 0x1f157; 0x24b9; 0x24c8; 0x26f6; 0x1f15f; 0x1f18b;
   0x1f18d; 0x1f18c; 0x1f179; 0x26f7; 0x26f8; 0x26f9; 0x26fa; 0x1f17b; 0x260e; 0x26fb; 0x26fc;
   0x26fd; 0x26fe; 0x1f17c; 0x26ff; 0; 0; 0; 0; 0; 0; 0; 0; 0; 0; 0; 0; 0; 0; 0; 0; 0; 0; 0; 0;
   0; 0; 0; 0; 0; 0; 0; 0; 0; 0; 0; 0; 0; 0; 0; 0; 0; 0; 0; 0; 0; 0; 0; 0; 0].

Definition aribTable719Row7c : list Z :=
  [0x27a1; 0x2b05; 0x2b06; 0x2b07; 0x2b2f; 0x2b2e; 0x5e74; 0x6708; 0x65e5; 0x5186; 0x33a1;
   0x33a5; 0x339d; 0x33a0; 0x33a4; 0x1f100; 0x2488; 0x2489; 0x248a; 0x248b; 0x248c; 0x248d;
   0x248e; 0x248f; 0x2490; 0x6c0f; 0x526f; 0x5143; 0x6545; 0x524d; 0x65b0; 0x1f101; 0x1f102;
   0x1f103; 0x1f104; 0x1f105; 0x1f106; 0x1f107; 0x1f108; 0x1f109; 0x1f10a; 0x3233; 0x3236;
   0x3232; 0x3231; 0x3239; 0x3244; 0x25b6; 0x25c0; 0x3016; 0x3017; 0x27d0; 0xb2; 0xb3; 0x1f12d;
   0xe2a5; 0xe2a6; 0xe2a7; 0xe2a8; 0xe2a9; 0xe2aa; 0xe2ab; 0xe2ac; 0xe2ad; 0xe2ae; 0xe2af;
   0xe2b0; 0xe2b1; 0xe2b2; 0xe2b3; 0xe2b4; 0xe2b5; 0xe2b6; 0xe2b7; 0xe2b8; 0xe2b9; 0xe2ba;
   0xe2bb; 0xe2bc; 0xe2bd; 0xe2be; 0xe2bf; 0xe2c0; 0xe2c1; 0xe2c2; 0x1f12c; 0x1f12b; 0x3247;
   0x1f190; 0x1f226; 0x213b; 0; 0; 0].

Definition aribTable719Row7d : list Z :=
  [0x322a; 0x322b; 0x322c; 0x322d; 0x322e; 0x322f; 0x3230; 0x3237; 0x337e; 0x337d; 0x337c;
   0x337b; 0x2116; 0x2121; 0x3036; 0x26be; 0x1f240; 0x1f241; 0x1f242; 0x1f243; 0x1f244; 0x1f245;
   0x1f246; 0x1f247; 0x1f248; 0x1f12a; 0x1f227; 0x1f228; 0x1f229; 0x1f214; 0x1f22a; 0x1f22b;
   0x1f22c; 0x1f22d; 0x1f22e; 0x1f22f; 0x1f230; 0x1f231; 0x2113; 0x338f; 0x3390; 0x33ca; 0x339e;
   0x33a2; 0x3371; 0; 0; 0xbd; 0x2189; 0x2153; 0x2154; 0xbc; 0xbe; 0x2155; 0x2156; 0x2157;
   0x2158; 0x2159; 0x215a; 0x2150; 0x215b; 0x2151; 0x2152; 0x2600; 0x2601; 0x2602; 0x26c4;
   0x2616; 0x2617; 0x26c9; 0x26ca; 0x2666; 0x2665; 0x2663; 0x2660; 0x26cb; 0x2a00; 0x203c;
   0x2049; 0x26c5; 0x2614; 0x26c6; 0x2603; 0x26c7; 0x26a1; 0x26c8; 0; 0x269e; 0x269f; 0x266c;
   0x260e; 0; 0; 0].

Definition aribTable719Row7e : list Z :=
  [0x2160; 0x2161; 0x2162; 0x2163; 0x2164; 0x2165; 0x2166; 0x2167; 0x2168; 0x2169; 0x216a;
   0x216b; 0x2470; 0x2471; 0x2472; 0x2473; 0x2474; 0x2475; 0x2476; 0x2477; 0x2478; 0x2479;
   0x247a; 0x247b; 0x247c; 0x247d; 0x247e; 0x247f; 0x3251; 0x3252; 0x3253; 0x3254; 0x1f110;
   0x1f111; 0x1f112; 0x1f113; 0x1f114; 0x1f115; 0x1f116; 0x1f117; 0x1f118; 0x1f119; 0x1f11a;
   0x1f11b; 0x1f11c; 0x1f11d; 0x1f11e; 0x1f11f; 0x1f120; 0x1f121; 0x1f122; 0x1f123; 0x1f124;
   0x1f125; 0x1f126; 0x1f127; 0x1f128; 0x1f129; 0x3255; 0x3256; 0x3257; 0x3258; 0x3259; 0x325a;
   0x2460; 0x2461; 0x2462; 0x2463; 0x2464; 0x2465; 0x2466; 0x2467; 0x2468; 0x2469; 0x246a;
   0x246b; 0x246c; 0x246d; 0x246e; 0x246f; 0x2776; 0x2777; 0x2778; 0x2779; 0x277a; 0x277b;
   0x277c; 0x277d; 0x277e; 0x277f; 0x24eb; 0x24ec; 0x325b; 0].

(** ** [table721.go]: kanji reassigned to the private use area *)

Definition aribTable721BMPKanjiPUA : list (Z * Z) :=
  [(0x012e22, 0xe760); (0x012f42, 0xe761); (0x012f4c, 0xe762); (0x012f60, 0xe763);
   (0x012f7b, 0xe764); (0x014f54, 0xe88e); (0x014f63, 0xe765); (0x014f6e, 0xe766);
   (0x01753a, 0xe767); (0x017572, 0xe08c); (0x017629, 0xe769); (0x017632, 0xe76a);
   (0x017660, 0xe76b); (0x01776c, 0xe76c); (0x01787e, 0xe76d); (0x017929, 0xe76e);
   (0x017947, 0xe76f); (0x017954, 0xe770); (0x01796e, 0xe771); (0x017a5d, 0xe772);
   (0x017b33, 0xe773); (0x017b49, 0xe774); (0x017b6c, 0xe775); (0x017c49, 0xe776);
   (0x017c51, 0xe777); (0x017e66, 0xe778); (0x022121, 0xe779); (0x02212b, 0xe77a);
   (0x02212e, 0xe77b); (0x022136, 0xe77c); (0x022146, 0xe77d); (0x022170, 0xe77e);
   (0x022177, 0xe77f); (0x022179, 0xe780); (0x022322, 0xe781); (0x022325, 0xe782);
   (0x022327, 0xe783); (0x022331, 0xe784); (0x022332, 0xe785); (0x022338, 0xe786);
   (0x02233f, 0xe787); (0x022341, 0xe788); (0x02234a, 0xe789); (0x022352, 0xe78a);
   (0x022353, 0xe78b); (0x022359, 0xe78c); (0x02235c, 0xe78d); (0x022377, 0xe78e);
   (0x02242a, 0xe78f); (0x022431, 0xe790); (0x022432, 0xe791); (0x02243a, 0xe792);
   (0x02243d, 0xe793); (0x022459, 0xe794); (0x02245c, 0xe795); (0x02245e, 0xe796);
   (0x022463, 0xe797); (0x02246a, 0xe798); (0x02246b, 0xe799); (0x022472, 0xe79a);
   (0x022474, 0xe79b); (0x022475, 0xe79c); (0x022525, 0xe79d); (0x022532, 0xe79e);
   (0x02253e, 0xe79f); (0x022544, 0xe7a0); (0x022547, 0xe7a1); (0x022555, 0xe7a2);
   (0x022556, 0xe7a3); (0x02257e, 0xe7a4); (0x022830, 0xe7a5); (0x022837, 0xe7a6);
   (0x022838, 0xe7a7); (0x02283a, 0xe7a8); (0x02283b, 0xe7a9); (0x02283f, 0xe7aa);
   (0x022840, 0xe7ab); (0x022845, 0xe7ac); (0x022848, 0xe7ad); (0x02284a, 0xe7ae);
   (0x02284b, 0xe7af); (0x02285b, 0xe7b0); (0x022866, 0xe7b1); (0x02286c, 0xe7b2);
   (0x022c22, 0xe7b3); (0x022c2b, 0xe7b4); (0x022c30, 0xe7b5); (0x022c50, 0xe7b6);
   (0x022c65, 0xe7b7); (0x022c6d, 0xe7b8); (0x022c72, 0xe7b9); (0x022d24, 0xe7ba);
   (0x022d29, 0xe7bb); (0x022d2a, 0xe7bc); (0x022d32, 0xe7bd); (0x022d34, 0xe7be);
   (0x022d35, 0xe7bf); (0x022d39, 0xe7c0); (0x022d56, 0xe7c1); (0x022d7d, 0xe7c2);
   (0x022e23, 0xe7c3); (0x022e24, 0xe7c4); (0x022e3a, 0xe7c5); (0x022e3c, 0xe7c6);
   (0x022e3d, 0xe7c7); (0x022e42, 0xe7c8); (0x022e43, 0xe7c9); (0x022e44, 0xe7ca);
   (0x022e47, 0xe7cb); (0x022e49, 0xe7cc); (0x022e55, 0xe7cd); (0x022e56, 0xe7ce);
   (0x022e57, 0xe7cf); (0x022e5b, 0xe7d0); (0x022e77, 0xe7d1); (0x022e78, 0xe7d2);
   (0x022f2a, 0xe7d3); (0x022f3f, 0xe7d4); (0x022f40, 0xe7d5); (0x022f42, 0xe7d6);
   (0x022f43, 0xe7d7); (0x022f4e, 0xe7d8); (0x022f59, 0xe7d9); (0x022f61, 0xe7da);
   (0x022f69, 0xe7db); (0x022f6a, 0xe7dc); (0x022f70, 0xe7dd); (0x022f75, 0xe7de);
   (0x026e23, 0xe7df); (0x026e34, 0xe7e0); (0x026e49, 0xe7e1); (0x026e5c, 0xe7e2);
   (0x026e5e, 0xe7e3); (0x026e5f, 0xe7e4); (0x026e60, 0xe7e5); (0x026f32, 0xe7e6);
   (0x026f47, 0xe7e7); (0x026f4d, 0xe7e8); (0x026f61, 0xe7e9); (0x026f64, 0xe7ea);
   (0x027022, 0xe7eb); (0x027033, 0xe7ec); (0x027039, 0xe7ed); (0x027053, 0xe7ee);
   (0x02707b, 0xe7ef); (0x02712e, 0xe7f0); (0x027130, 0xe7f1); (0x027135, 0xe7f2);
   (0x027144, 0xe7f3); (0x02715d, 0xe7f4); (0x027161, 0xe7f5); (0x027166, 0xe7f6);
   (0x027169, 0xe7f7); (0x027175, 0xe7f8); (0x027177, 0xe7f9); (0x02717a, 0xe7fa);
   (0x027221, 0xe7fb); (0x027223, 0xe7fc); (0x027224, 0xe7fd); (0x027228, 0xe7fe);
   (0x02722c, 0xe7ff); (0x02723d, 0xe800); (0x027248, 0xe801); (0x02725b, 0xe802);
   (0x027275, 0xe803); (0x027276, 0xe804); (0x027332, 0xe805); (0x02733d, 0xe806);
   (0x02733e, 0xe807); (0x027340, 0xe808); (0x027352, 0xe809); (0x02735d, 0xe80a);
   (0x02735e, 0xe80b); (0x027373, 0xe80c); (0x027374, 0xe80d); (0x027375, 0xe80e);
   (0x027377, 0xe80f); (0x02737b, 0xe810); (0x02737d, 0xe811); (0x027422, 0xe812);
   (0x027424, 0xe813); (0x027427, 0xe814); (0x02742e, 0xe815); (0x02742f, 0xe816);
   (0x027434, 0xe817); (0x027435, 0xe818); (0x02743d, 0xe819); (0x027442, 0xe81a);
   (0x02744f, 0xe81b); (0x027469, 0xe81c); (0x02746b, 0xe81d); (0x027472, 0xe81e);
   (0x027475, 0xe81f); (0x027479, 0xe820); (0x027535, 0xe821); (0x02753a, 0xe822);
   (0x027546, 0xe823); (0x027556, 0xe824); (0x027558, 0xe825); (0x02755a, 0xe826);
   (0x02755d, 0xe827); (0x02755f, 0xe828); (0x027563, 0xe829); (0x02756a, 0xe82a);
   (0x027570, 0xe82b); (0x027573, 0xe82c); (0x027644, 0xe82d); (0x02764e, 0xe82e);
   (0x02765d, 0xe82f); (0x027675, 0xe830); (0x02767e, 0xe831); (0x027721, 0xe832);
   (0x027722, 0xe833); (0x027733, 0xe834); (0x027736, 0xe835); (0x027764, 0xe836);
   (0x027765, 0xe837); (0x02776b, 0xe838); (0x02776e, 0xe839); (0x027773, 0xe83a);
   (0x027829, 0xe83b); (0x02782a, 0xe83c); (0x02782c, 0xe83d); (0x027834, 0xe83e);
   (0x02783c, 0xe83f); (0x02783e, 0xe840); (0x027842, 0xe841); (0x027856, 0xe842);
   (0x027863, 0xe843); (0x027877, 0xe844); (0x027879, 0xe845); (0x02787a, 0xe846);
   (0x027925, 0xe847); (0x02792f, 0xe848); (0x027932, 0xe849); (0x027939, 0xe84a);
   (0x027942, 0xe84b); (0x027948, 0xe84c); (0x027959, 0xe84d); (0x02795e, 0xe84e);
   (0x027966, 0xe84f); (0x02796b, 0xe850); (0x02797a, 0xe851); (0x02797e, 0xe852);
   (0x027a21, 0xe853); (0x027a2c, 0xe854); (0x027a2f, 0xe855); (0x027a4f, 0xe856);
   (0x027a50, 0xe857); (0x027a57, 0xe858); (0x027a65, 0xe859); (0x027a66, 0xe85a);
   (0x027a71, 0xe85b); (0x027a72, 0xe85c); (0x027a7e, 0xe85d); (0x027b21, 0xe85e);
   (0x027b2c, 0xe85f); (0x027b2d, 0xe860); (0x027b36, 0xe861); (0x027b37, 0xe862);
   (0x027b3d, 0xe863); (0x027b3e, 0xe864); (0x027b4e, 0xe865); (0x027b4f, 0xe866);
   (0x027b57, 0xe867); (0x027b5a, 0xe868); (0x027b5c, 0xe869); (0x027b5d, 0xe86a);
   (0x027b61, 0xe86b); (0x027b65, 0xe86c); (0x027b67, 0xe86d); (0x027b69, 0xe86e);
   (0x027b71, 0xe86f); (0x027c22, 0xe870); (0x027c23, 0xe871); (0x027c38, 0xe872);
   (0x027c42, 0xe873); (0x027c4c, 0xe874); (0x027c56, 0xe875); (0x027c59, 0xe876);
   (0x027c5d, 0xe877); (0x027c76, 0xe878); (0x027d2c, 0xe879); (0x027d4b, 0xe87a);
   (0x027d4c, 0xe87b); (0x027d59, 0xe87c); (0x027d5b, 0xe87d); (0x027d5d, 0xe87e);
   (0x027d67, 0xe87f); (0x027d6d, 0xe880); (0x027d70, 0xe881); (0x027e25, 0xe882);
   (0x027e29, 0xe883); (0x027e2b, 0xe884); (0x027e32, 0xe885); (0x027e35, 0xe886);
   (0x027e53, 0xe887); (0x027e58, 0xe888); (0x027e5a, 0xe889); (0x027e6e, 0xe88a);
   (0x027e70, 0xe88b); (0x027e72, 0xe88c); (0x027e76, 0xe88d)].

(** ** [table_x0213.go]: the cells of JIS X 0213 beyond JIS X 0208 *)

Definition jisX0213DeltaDecode : list (Z * list Z) :=
  [(0x012124, [0x2c]); (0x012125, [0x2e]); (0x012127, [0x3a]); (0x012128, [0x3b]);
   (0x012129, [0x3f]); (0x01212a, [0x21]); (0x01212e, [0x60]); (0x012130, [0x5e]);
   (0x012131, [0x203e]); (0x012132, [0x5f]); (0x01213d, [0x2014]); (0x01213f, [0x2f]);
   (0x012140, [0x5c]); (0x012141, [0x301c]); (0x012142, [0x2016]); (0x012143, [0x7c]);
   (0x01214a, [0x28]); (0x01214b, [0x29]); (0x01214e, [0x5b]); (0x01214f, [0x5d]);
   (0x012150, [0x7b]); (0x012151, [0x7d]); (0x01215c, [0x2b]); (0x01215d, [0x2212]);
   (0x012161, [0x3d]); (0x012163, [0x3c]); (0x012164, [0x3e]); (0x01216f, [0xa5]);
   (0x012170, [0x24]); (0x012171, [0xa2]); (0x012172, [0xa3]); (0x012173, [0x25]);
   (0x012174, [0x23]); (0x012175, [0x26]); (0x012176, [0x2a]); (0x012177, [0x40]);
   (0x01222f, [0x27]); (0x012230, [0x22]); (0x012231, [0x2d]); (0x012232, [0x7e]);
   (0x012233, [0x3033]); (0x012234, [0x3034]); (0x012235, [0x3035]); (0x012236, [0x303b]);
   (0x012237, [0x303c]); (0x012238, [0x30ff]); (0x012239, [0x309f]); (0x012242, [0x2284]);
   (0x012243, [0x2285]); (0x012244, [0x228a]); (0x012245, [0x228b]); (0x012246, [0x2209]);
   (0x012247, [0x2205]); (0x012248, [0x2305]); (0x012249, [0x2306]); (0x01224c, [0xac]);
   (0x012251, [0x2295]); (0x012252, [0x2296]); (0x012253, [0x2297]); (0x012254, [0x2225]);
   (0x012255, [0x2226]); (0x012256, [0xff5f]); (0x012257, [0xff60]); (0x012258, [0x3018]);
   (0x012259, [0x3019]); (0x01225a, [0x3016]); (0x01225b, [0x3017]); (0x01226b, [0x2262]);
   (0x01226c, [0x2243]); (0x01226d, [0x2245]); (0x01226e, [0x2248]); (0x01226f, [0x2276]);
   (0x012270, [0x2277]); (0x012271, [0x2194]); (0x01227a, [0x266e]); (0x01227b, [0x266b]);
   (0x01227c, [0x266c]); (0x01227d, [0x2669]); (0x012321, [0x25b7]); (0x012322, [0x25b6]);
   (0x012323, [0x25c1]); (0x012324, [0x25c0]); (0x012325, [0x2197]); (0x012326, [0x2198]);
   (0x012327, [0x2196]); (0x012328, [0x2199]); (0x012329, [0x21c4]); (0x01232a, [0x21e8]);
   (0x01232b, [0x21e6]); (0x01232c, [0x21e7]); (0x01232d, [0x21e9]); (0x01232e, [0x2934]);
   (0x01232f, [0x2935]); (0x012330, [0x30]); (0x012331, [0x31]); (0x012332, [0x32]);
   (0x012333, [0x33]); (0x012334, [0x34]); (0x012335, [0x35]); (0x012336, [0x36]);
   (0x012337, [0x37]); (0x012338, [0x38]); (0x012339, [0x39]); (0x01233a, [0x29bf]);
   (0x01233b, [0x25c9]); (0x01233c, [0x303d]); (0x01233d, [0xfe46]); (0x01233e, [0xfe45]);
   (0x01233f, [0x25e6]); (0x012340, [0x2022]); (0x012341, [0x41]); (0x012342, [0x42]);
   (0x012343, [0x43]); (0x012344, [0x44]); (0x012345, [0x45]); (0x012346, [0x46]);
   (0x012347, [0x47]); (0x012348, [0x48]); (0x012349, [0x49]); (0x01234a, [0x4a]);
   (0x01234b, [0x4b]); (0x01234c, [0x4c]); (0x01234d, [0x4d]); (0x01234e, [0x4e]);
   (0x01234f, [0x4f]); (0x012350, [0x50]); (0x012351, [0x51]); (0x012352, [0x52]);
   (0x012353, [0x53]); (0x012354, [0x54]); (0x012355, [0x55]); (0x012356, [0x56]);
   (0x012357, [0x57]); (0x012358, [0x58]); (0x012359, [0x59]); (0x01235a, [0x5a]);
   (0x01235b, [0x2213]); (0x01235c, [0x2135]); (0x01235d, [0x210f]); (0x01235e, [0x33cb]);
   (0x01235f, [0x2113]); (0x012360, [0x2127]); (0x012361, [0x61]); (0x012362, [0x62]);
   (0x012363, [0x63]); (0x012364, [0x64]); (0x012365, [0x65]); (0x012366, [0x66]);
   (0x012367, [0x67]); (0x012368, [0x68]); (0x012369, [0x69]); (0x01236a, [0x6a]);
   (0x01236b, [0x6b]); (0x01236c, [0x6c]); (0x01236d, [0x6d]); (0x01236e, [0x6e]);
   (0x01236f, [0x6f]); (0x012370, [0x70]); (0x012371, [0x71]); (0x012372, [0x72]);
   (0x012373, [0x73]); (0x012374, [0x74]); (0x012375, [0x75]); (0x012376, [0x76]);
   (0x012377, [0x77]); (0x012378, [0x78]); (0x012379, [0x79]); (0x01237a, [0x7a]);
   (0x01237b, [0x30a0]); (0x01237c, [0x2013]); (0x01237d, [0x29fa]); (0x01237e, [0x29fb]);
   (0x012474, [0x3094]); (0x012475, [0x3095]); (0x012476, [0x3096]);
   (0x012477, [0x304b; 0x309a]); (0x012478, [0x304d; 0x309a]); (0x012479, [0x304f; 0x309a]);
   (0x01247a, [0x3051; 0x309a]); (0x01247b, [0x3053; 0x309a]); (0x012577, [0x30ab; 0x309a]);
   (0x012578, [0x30ad; 0x309a]); (0x012579, [0x30af; 0x309a]); (0x01257a, [0x30b1; 0x309a]);
   (0x01257b, [0x30b3; 0x309a]); (0x01257c, [0x30bb; 0x309a]); (0x01257d, [0x30c4; 0x309a]);
   (0x01257e, [0x30c8; 0x309a]); (0x012639, [0x2664]); (0x01263a, [0x2660]);
   (0x01263b, [0x2662]); (0x01263c, [0x2666]); (0x01263d, [0x2661]); (0x01263e, [0x2665]);
   (0x01263f, [0x2667]); (0x012640, [0x2663]); (0x012659, [0x3c2]); (0x01265a, [0x24f5]);
   (0x01265b, [0x24f6]); (0x01265c, [0x24f7]); (0x01265d, [0x24f8]); (0x01265e, [0x24f9]);
   (0x01265f, [0x24fa]); (0x012660, [0x24fb]); (0x012661, [0x24fc]); (0x012662, [0x24fd]);
   (0x012663, [0x24fe]); (0x012664, [0x2616]); (0x012665, [0x2617]); (0x012666, [0x3020]);
   (0x012667, [0x260e]); (0x012668, [0x2600]); (0x012669, [0x2601]); (0x01266a, [0x2602]);
   (0x01266b, [0x2603]); (0x01266c, [0x2668]); (0x01266d, [0x25b1]); (0x01266e, [0x31f0]);
   (0x01266f, [0x31f1]); (0x012670, [0x31f2]); (0x012671, [0x31f3]); (0x012672, [0x31f4]);
   (0x012673, [0x31f5]); (0x012674, [0x31f6]); (0x012675, [0x31f7]); (0x012676, [0x31f8]);
   (0x012677, [0x31f9]); (0x012678, [0x31f7; 0x309a]); (0x012679, [0x31fa]);
   (0x01267a, [0x31fb]); (0x01267b, [0x31fc]); (0x01267c, [0x31fd]); (0x01267d, [0x31fe]);
   (0x01267e, [0x31ff]); (0x012742, [0x23be]); (0x012743, [0x23bf]); (0x012744, [0x23c0]);
   (0x012745, [0x23c1]); (0x012746, [0x23c2]); (0x012747, [0x23c3]); (0x012748, [0x23c4]);
   (0x012749, [0x23c5]); (0x01274a, [0x23c6]); (0x01274b, [0x23c7]); (0x01274c, [0x23c8]);
   (0x01274d, [0x23c9]); (0x01274e, [0x23ca]); (0x01274f, [0x23cb]); (0x012750, [0x23cc]);
   (0x012772, [0x30f7]); (0x012773, [0x30f8]); (0x012774, [0x30f9]); (0x012775, [0x30fa]);
   (0x012776, [0x22da]); (0x012777, [0x22db]); (0x012778, [0x2153]); (0x012779, [0x2154]);
   (0x01277a, [0x2155]); (0x01277b, [0x2713]); (0x01277c, [0x2318]); (0x01277d, [0x2423]);
   (0x01277e, [0x23ce]); (0x012841, [0x3251]); (0x012842, [0x3252]); (0x012843, [0x3253]);
   (0x012844, [0x3254]); (0x012845, [0x3255]); (0x012846, [0x3256]); (0x012847, [0x3257]);
   (0x012848, [0x3258]); (0x012849, [0x3259]); (0x01284a, [0x325a]); (0x01284b, [0x325b]);
   (0x01284c, [0x325c]); (0x01284d, [0x325d]); (0x01284e, [0x325e]); (0x01284f, [0x325f]);
   (0x012850, [0x32b1]); (0x012851, [0x32b2]); (0x012852, [0x32b3]); (0x012853, [0x32b4]);
   (0x012854, [0x32b5]); (0x012855, [0x32b6]); (0x012856, [0x32b7]); (0x012857, [0x32b8]);
   (0x012858, [0x32b9]); (0x012859, [0x32ba]); (0x01285a, [0x32bb]); (0x01285b, [0x32bc]);
   (0x01285c, [0x32bd]); (0x01285d, [0x32be]); (0x01285e, [0x32bf]); (0x012867, [0x25d0]);
   (0x012868, [0x25d1]); (0x012869, [0x25d2]); (0x01286a, [0x25d3]); (0x01286b, [0x203c]);
   (0x01286c, [0x2047]); (0x01286d, [0x2048]); (0x01286e, [0x2049]); (0x01286f, [0x1cd]);
   (0x012870, [0x1ce]); (0x012871, [0x1d0]); (0x012872, [0x1e3e]); (0x012873, [0x1e3f]);
   (0x012874, [0x1f8]); (0x012875, [0x1f9]); (0x012876, [0x1d1]); (0x012877, [0x1d2]);
   (0x012878, [0x1d4]); (0x012879, [0x1d6]); (0x01287a, [0x1d8]); (0x01287b, [0x1da]);
   (0x01287c, [0x1dc]); (0x012921, [0x20ac]); (0x012922, [0xa0]); (0x012923, [0xa1]);
   (0x012924, [0xa4]); (0x012925, [0xa6]); (0x012926, [0xa9]); (0x012927, [0xaa]);
   (0x012928, [0xab]); (0x012929, [0xad]); (0x01292a, [0xae]); (0x01292b, [0xaf]);
   (0x01292c, [0xb2]); (0x01292d, [0xb3]); (0x01292e, [0xb7]); (0x01292f, [0xb8]);
   (0x012930, [0xb9]); (0x012931, [0xba]); (0x012932, [0xbb]); (0x012933, [0xbc]);
   (0x012934, [0xbd]); (0x012935, [0xbe]); (0x012936, [0xbf]); (0x012937, [0xc0]);
   (0x012938, [0xc1]); (0x012939, [0xc2]); (0x01293a, [0xc3]); (0x01293b, [0xc4]);
   (0x01293c, [0xc5]); (0x01293d, [0xc6]); (0x01293e, [0xc7]); (0x01293f, [0xc8]);
   (0x012940, [0xc9]); (0x012941, [0xca]); (0x012942, [0xcb]); (0x012943, [0xcc]);
   (0x012944, [0xcd]); (0x012945, [0xce]); (0x012946, [0xcf]); (0x012947, [0xd0]);
   (0x012948, [0xd1]); (0x012949, [0xd2]); (0x01294a, [0xd3]); (0x01294b, [0xd4]);
   (0x01294c, [0xd5]); (0x01294d, [0xd6]); (0x01294e, [0xd8]); (0x01294f, [0xd9]);
   (0x012950, [0xda]); (0x012951, [0xdb]); (0x012952, [0xdc]); (0x012953, [0xdd]);
   (0x012954, [0xde]); (0x012955, [0xdf]); (0x012956, [0xe0]); (0x012957, [0xe1]);
   (0x012958, [0xe2]); (0x012959, [0xe3]); (0x01295a, [0xe4]); (0x01295b, [0xe5]);
   (0x01295c, [0xe6]); (0x01295d, [0xe7]); (0x01295e, [0xe8]); (0x01295f, [0xe9]);
   (0x012960, [0xea]); (0x012961, [0xeb]); (0x012962, [0xec]); (0x012963, [0xed]);
   (0x012964, [0xee]); (0x012965, [0xef]); (0x012966, [0xf0]); (0x012967, [0xf1]);
   (0x012968, [0xf2]); (0x012969, [0xf3]); (0x01296a, [0xf4]); (0x01296b, [0xf5]);
   (0x01296c, [0xf6]); (0x01296d, [0xf8]); (0x01296e, [0xf9]); (0x01296f, [0xfa]);
   (0x012970, [0xfb]); (0x012971, [0xfc]); (0x012972, [0xfd]); (0x012973, [0xfe]);
   (0x012974, [0xff]); (0x012975, [0x100]); (0x012976, [0x12a]); (0x012977, [0x16a]);
   (0x012978, [0x112]); (0x012979, [0x14c]); (0x01297a, [0x101]); (0x01297b, [0x12b]);
   (0x01297c, [0x16b]); (0x01297d, [0x113]); (0x01297e, [0x14d]); (0x012a21, [0x104]);
   (0x012a22, [0x2d8]); (0x012a23, [0x141]); (0x012a24, [0x13d]); (0x012a25, [0x15a]);
   (0x012a26, [0x160]); (0x012a27, [0x15e]); (0x012a28, [0x164]); (0x012a29, [0x179]);
   (0x012a2a, [0x17d]); (0x012a2b, [0x17b]); (0x012a2c, [0x105]); (0x012a2d, [0x2db]);
   (0x012a2e, [0x142]); (0x012a2f, [0x13e]); (0x012a30, [0x15b]); (0x012a31, [0x2c7]);
   (0x012a32, [0x161]); (0x012a33, [0x15f]); (0x012a34, [0x165]); (0x012a35, [0x17a]);
   (0x012a36, [0x2dd]); (0x012a37, [0x17e]); (0x012a38, [0x17c]); (0x012a39, [0x154]);
   (0x012a3a, [0x102]); (0x012a3b, [0x139]); (0x012a3c, [0x106]); (0x012a3d, [0x10c]);
   (0x012a3e, [0x118]); (0x012a3f, [0x11a]); (0x012a40, [0x10e]); (0x012a41, [0x143]);
   (0x012a42, [0x147]); (0x012a43, [0x150]); (0x012a44, [0x158]); (0x012a45, [0x16e]);
   (0x012a46, [0x170]); (0x012a47, [0x162]); (0x012a48, [0x155]); (0x012a49, [0x103]);
   (0x012a4a, [0x13a]); (0x012a4b, [0x107]); (0x012a4c, [0x10d]); (0x012a4d, [0x119]);
   (0x012a4e, [0x11b]); (0x012a4f, [0x10f]); (0x012a50, [0x111]); (0x012a51, [0x144]);
   (0x012a52, [0x148]); (0x012a53, [0x151]); (0x012a54, [0x159]); (0x012a55, [0x16f]);
   (0x012a56, [0x171]); (0x012a57, [0x163]); (0x012a58, [0x2d9]); (0x012a59, [0x108]);
   (0x012a5a, [0x11c]); (0x012a5b, [0x124]); (0x012a5c, [0x134]); (0x012a5d, [0x15c]);
   (0x012a5e, [0x16c]); (0x012a5f, [0x109]); (0x012a60, [0x11d]); (0x012a61, [0x125]);
   (0x012a62, [0x135]); (0x012a63, [0x15d]); (0x012a64, [0x16d]); (0x012a65, [0x271]);
   (0x012a66, [0x28b]); (0x012a67, [0x27e]); (0x012a68, [0x283]); (0x012a69, [0x292]);
   (0x012a6a, [0x26c]); (0x012a6b, [0x26e]); (0x012a6c, [0x279]); (0x012a6d, [0x288]);
   (0x012a6e, [0x256]); (0x012a6f, [0x273]); (0x012a70, [0x27d]); (0x012a71, [0x282]);
   (0x012a72, [0x290]); (0x012a73, [0x27b]); (0x012a74, [0x26d]); (0x012a75, [0x25f]);
   (0x012a76, [0x272]); (0x012a77, [0x29d]); (0x012a78, [0x28e]); (0x012a79, [0x261]);
   (0x012a7a, [0x14b]); (0x012a7b, [0x270]); (0x012a7c, [0x281]); (0x012a7d, [0x127]);
   (0x012a7e, [0x295]); (0x012b21, [0x294]); (0x012b22, [0x266]); (0x012b23, [0x298]);
   (0x012b24, [0x1c2]); (0x012b25, [0x253]); (0x012b26, [0x257]); (0x012b27, [0x284]);
   (0x012b28, [0x260]); (0x012b29, [0x193]); (0x012b2a, [0x153]); (0x012b2b, [0x152]);
   (0x012b2c, [0x268]); (0x012b2d, [0x289]); (0x012b2e, [0x258]); (0x012b2f, [0x275]);
   (0x012b30, [0x259]); (0x012b31, [0x25c]); (0x012b32, [0x25e]); (0x012b33, [0x250]);
   (0x012b34, [0x26f]); (0x012b35, [0x28a]); (0x012b36, [0x264]); (0x012b37, [0x28c]);
   (0x012b38, [0x254]); (0x012b39, [0x251]); (0x012b3a, [0x252]); (0x012b3b, [0x28d]);
   (0x012b3c, [0x265]); (0x012b3d, [0x2a2]); (0x012b3e, [0x2a1]); (0x012b3f, [0x255]);
   (0x012b40, [0x291]); (0x012b41, [0x27a]); (0x012b42, [0x267]); (0x012b43, [0x25a]);
   (0x012b44, [0xe6; 0x300]); (0x012b45, [0x1fd]); (0x012b46, [0x1f70]); (0x012b47, [0x1f71]);
   (0x012b48, [0x254; 0x300]); (0x012b49, [0x254; 0x301]); (0x012b4a, [0x28c; 0x300]);
   (0x012b4b, [0x28c; 0x301]); (0x012b4c, [0x259; 0x300]); (0x012b4d, [0x259; 0x301]);
   (0x012b4e, [0x25a; 0x300]); (0x012b4f, [0x25a; 0x301]); (0x012b50, [0x1f72]);
   (0x012b51, [0x1f73]); (0x012b52, [0x361]); (0x012b53, [0x2c8]); (0x012b54, [0x2cc]);
   (0x012b55, [0x2d0]); (0x012b56, [0x2d1]); (0x012b57, [0x306]); (0x012b58, [0x203f]);
   (0x012b59, [0x30b]); (0x012b5a, [0x301]); (0x012b5b, [0x304]); (0x012b5c, [0x300]);
   (0x012b5d, [0x30f]); (0x012b5e, [0x30c]); (0x012b5f, [0x302]); (0x012b60, [0x2e5]);
   (0x012b61, [0x2e6]); (0x012b62, [0x2e7]); (0x012b63, [0x2e8]); (0x012b64, [0x2e9]);
   (0x012b65, [0x2e9; 0x2e5]); (0x012b66, [0x2e5; 0x2e9]); (0x012b67, [0x325]);
   (0x012b68, [0x32c]); (0x012b69, [0x339]); (0x012b6a, [0x31c]); (0x012b6b, [0x31f]);
   (0x012b6c, [0x320]); (0x012b6d, [0x308]); (0x012b6e, [0x33d]); (0x012b6f, [0x329]);
   (0x012b70, [0x32f]); (0x012b71, [0x2de]); (0x012b72, [0x324]); (0x012b73, [0x330]);
   (0x012b74, [0x33c]); (0x012b75, [0x334]); (0x012b76, [0x31d]); (0x012b77, [0x31e]);
   (0x012b78, [0x318]); (0x012b79, [0x319]); (0x012b7a, [0x32a]); (0x012b7b, [0x33a]);
   (0x012b7c, [0x33b]); (0x012b7d, [0x303]); (0x012b7e, [0x31a]); (0x012c21, [0x2776]);
   (0x012c22, [0x2777]); (0x012c23, [0x2778]); (0x012c24, [0x2779]); (0x012c25, [0x277a]);
   (0x012c26, [0x277b]); (0x012c27, [0x277c]); (0x012c28, [0x277d]); (0x012c29, [0x277e]);
   (0x012c2a, [0x277f]); (0x012c2b, [0x24eb]); (0x012c2c, [0x24ec]); (0x012c2d, [0x24ed]);
   (0x012c2e, [0x24ee]); (0x012c2f, [0x24ef]); (0x012c30, [0x24f0]); (0x012c31, [0x24f1]);
   (0x012c32, [0x24f2]); (0x012c33, [0x24f3]); (0x012c34, [0x24f4]); (0x012c35, [0x2170]);
   (0x012c36, [0x2171]); (0x012c37, [0x2172]); (0x012c38, [0x2173]); (0x012c39, [0x2174]);
   (0x012c3a, [0x2175]); (0x012c3b, [0x2176]); (0x012c3c, [0x2177]); (0x012c3d, [0x2178]);
   (0x012c3e, [0x2179]); (0x012c3f, [0x217a]); (0x012c40, [0x217b]); (0x012c41, [0x24d0]);
   (0x012c42, [0x24d1]); (0x012c43, [0x24d2]); (0x012c44, [0x24d3]); (0x012c45, [0x24d4]);
   (0x012c46, [0x24d5]); (0x012c47, [0x24d6]); (0x012c48, [0x24d7]); (0x012c49, [0x24d8]);
   (0x012c4a, [0x24d9]); (0x012c4b, [0x24da]); (0x012c4c, [0x24db]); (0x012c4d, [0x24dc]);
   (0x012c4e, [0x24dd]); (0x012c4f, [0x24de]); (0x012c50, [0x24df]); (0x012c51, [0x24e0]);
   (0x012c52, [0x24e1]); (0x012c53, [0x24e2]); (0x012c54, [0x24e3]); (0x012c55, [0x24e4]);
   (0x012c56, [0x24e5]); (0x012c57, [0x24e6]); (0x012c58, [0x24e7]); (0x012c59, [0x24e8]);
   (0x012c5a, [0x24e9]); (0x012c5b, [0x32d0]); (0x012c5c, [0x32d1]); (0x012c5d, [0x32d2]);
   (0x012c5e, [0x32d3]); (0x012c5f, [0x32d4]); (0x012c60, [0x32d5]); (0x012c61, [0x32d6]);
   (0x012c62, [0x32d7]); (0x012c63, [0x32d8]); (0x012c64, [0x32d9]); (0x012c65, [0x32da]);
   (0x012c66, [0x32db]); (0x012c67, [0x32dc]); (0x012c68, [0x32dd]); (0x012c69, [0x32de]);
   (0x012c6a, [0x32df]); (0x012c6b, [0x32e0]); (0x012c6c, [0x32e1]); (0x012c6d, [0x32e2]);
   (0x012c6e, [0x32e3]); (0x012c6f, [0x32fa]); (0x012c70, [0x32e9]); (0x012c71, [0x32e5]);
   (0x012c72, [0x32ed]); (0x012c73, [0x32ec]); (0x012c7d, [0x2051]); (0x012c7e, [0x2042]);
   (0x012d3f, [0x216a]); (0x012d57, [0x216b]); (0x012d7d, [0x2756]); (0x012d7e, [0x261e]);
   (0x012e21, [0x4ff1]); (0x012e22, [0x2000b]); (0x012e23, [0x3402]); (0x012e24, [0x4e28]);
   (0x012e25, [0x4e2f]); (0x012e26, [0x4e30]); (0x012e27, [0x4e8d]); (0x012e28, [0x4ee1]);
   (0x012e29, [0x4efd]); (0x012e2a, [0x4eff]); (0x012e2b, [0x4f03]); (0x012e2c, [0x4f0b]);
   (0x012e2d, [0x4f60]); (0x012e2e, [0x4f48]); (0x012e2f, [0x4f49]); (0x012e30, [0x4f56]);
   (0x012e31, [0x4f5f]); (0x012e32, [0x4f6a]); (0x012e33, [0x4f6c]); (0x012e34, [0x4f7e]);
   (0x012e35, [0x4f8a]); (0x012e36, [0x4f94]); (0x012e37, [0x4f97]); (0x012e38, [0xfa30]);
   (0x012e39, [0x4fc9]); (0x012e3a, [0x4fe0]); (0x012e3b, [0x5001]); (0x012e3c, [0x5002]);
   (0x012e3d, [0x500e]); (0x012e3e, [0x5018]); (0x012e3f, [0x5027]); (0x012e40, [0x502e]);
   (0x012e41, [0x5040]); (0x012e42, [0x503b]); (0x012e43, [0x5041]); (0x012e44, [0x5094]);
   (0x012e45, [0x50cc]); (0x012e46, [0x50f2]); (0x012e47, [0x50d0]); (0x012e48, [0x50e6]);
   (0x012e49, [0xfa31]); (0x012e4a, [0x5106]); (0x012e4b, [0x5103]); (0x012e4c, [0x510b]);
   (0x012e4d, [0x511e]); (0x012e4e, [0x5135]); (0x012e4f, [0x514a]); (0x012e50, [0xfa32]);
   (0x012e51, [0x5155]); (0x012e52, [0x5157]); (0x012e53, [0x34b5]); (0x012e54, [0x519d]);
   (0x012e55, [0x51c3]); (0x012e56, [0x51ca]); (0x012e57, [0x51de]); (0x012e58, [0x51e2]);
   (0x012e59, [0x51ee]); (0x012e5a, [0x5201]); (0x012e5b, [0x34db]); (0x012e5c, [0x5213]);
   (0x012e5d, [0x5215]); (0x012e5e, [0x5249]); (0x012e5f, [0x5257]); (0x012e60, [0x5261]);
   (0x012e61, [0x5293]); (0x012e62, [0x52c8]); (0x012e63, [0xfa33]); (0x012e64, [0x52cc]);
   (0x012e65, [0x52d0]); (0x012e66, [0x52d6]); (0x012e67, [0x52db]); (0x012e68, [0xfa34]);
   (0x012e69, [0x52f0]); (0x012e6a, [0x52fb]); (0x012e6b, [0x5300]); (0x012e6c, [0x5307]);
   (0x012e6d, [0x531c]); (0x012e6e, [0xfa35]); (0x012e6f, [0x5361]); (0x012e70, [0x5363]);
   (0x012e71, [0x537d]); (0x012e72, [0x5393]); (0x012e73, [0x539d]); (0x012e74, [0x53b2]);
   (0x012e75, [0x5412]); (0x012e76, [0x5427]); (0x012e77, [0x544d]); (0x012e78, [0x549c]);
   (0x012e79, [0x546b]); (0x012e7a, [0x5474]); (0x012e7b, [0x547f]); (0x012e7c, [0x5488]);
   (0x012e7d, [0x5496]); (0x012e7e, [0x54a1]); (0x012f21, [0x54a9]); (0x012f22, [0x54c6]);
   (0x012f23, [0x54ff]); (0x012f24, [0x550e]); (0x012f25, [0x552b]); (0x012f26, [0x5535]);
   (0x012f27, [0x5550]); (0x012f28, [0x555e]); (0x012f29, [0x5581]); (0x012f2a, [0x5586]);
   (0x012f2b, [0x558e]); (0x012f2c, [0xfa36]); (0x012f2d, [0x55ad]); (0x012f2e, [0x55ce]);
   (0x012f2f, [0xfa37]); (0x012f30, [0x5608]); (0x012f31, [0x560e]); (0x012f32, [0x563b]);
   (0x012f33, [0x5649]); (0x012f34, [0x5676]); (0x012f35, [0x5666]); (0x012f36, [0xfa38]);
   (0x012f37, [0x566f]); (0x012f38, [0x5671]); (0x012f39, [0x5672]); (0x012f3a, [0x5699]);
   (0x012f3b, [0x569e]); (0x012f3c, [0x56a9]); (0x012f3d, [0x56ac]); (0x012f3e, [0x56b3]);
   (0x012f3f, [0x56c9]); (0x012f40, [0x56ca]); (0x012f41, [0x570a]); (0x012f42, [0x2123d]);
   (0x012f43, [0x5721]); (0x012f44, [0x572f]); (0x012f45, [0x5733]); (0x012f46, [0x5734]);
   (0x012f47, [0x5770]); (0x012f48, [0x5777]); (0x012f49, [0x577c]); (0x012f4a, [0x579c]);
   (0x012f4b, [0xfa0f]); (0x012f4c, [0x2131b]); (0x012f4d, [0x57b8]); (0x012f4e, [0x57c7]);
   (0x012f4f, [0x57c8]); (0x012f50, [0x57cf]); (0x012f51, [0x57e4]); (0x012f52, [0x57ed]);
   (0x012f53, [0x57f5]); (0x012f54, [0x57f6]); (0x012f55, [0x57ff]); (0x012f56, [0x5809]);
   (0x012f57, [0xfa10]); (0x012f58, [0x5861]); (0x012f59, [0x5864]); (0x012f5a, [0xfa39]);
   (0x012f5b, [0x587c]); (0x012f5c, [0x5889]); (0x012f5d, [0x589e]); (0x012f5e, [0xfa3a]);
   (0x012f5f, [0x58a9]); (0x012f60, [0x2146e]); (0x012f61, [0x58d2]); (0x012f62, [0x58ce]);
   (0x012f63, [0x58d4]); (0x012f64, [0x58da]); (0x012f65, [0x58e0]); (0x012f66, [0x58e9]);
   (0x012f67, [0x590c]); (0x012f68, [0x8641]); (0x012f69, [0x595d]); (0x012f6a, [0x596d]);
   (0x012f6b, [0x598b]); (0x012f6c, [0x5992]); (0x012f6d, [0x59a4]); (0x012f6e, [0x59c3]);
   (0x012f6f, [0x59d2]); (0x012f70, [0x59dd]); (0x012f71, [0x5a13]); (0x012f72, [0x5a23]);
   (0x012f73, [0x5a67]); (0x012f74, [0x5a6d]); (0x012f75, [0x5a77]); (0x012f76, [0x5a7e]);
   (0x012f77, [0x5a84]); (0x012f78, [0x5a9e]); (0x012f79, [0x5aa7]); (0x012f7a, [0x5ac4]);
   (0x012f7b, [0x218bd]); (0x012f7c, [0x5b19]); (0x012f7d, [0x5b25]); (0x012f7e, [0x525d]);
   (0x014f54, [0x20b9f]); (0x014f55, [0x5b41]); (0x014f56, [0x5b56]); (0x014f57, [0x5b7d]);
   (0x014f58, [0x5b93]); (0x014f59, [0x5bd8]); (0x014f5a, [0x5bec]); (0x014f5b, [0x5c12]);
   (0x014f5c, [0x5c1e]); (0x014f5d, [0x5c23]); (0x014f5e, [0x5c2b]); (0x014f5f, [0x378d]);
   (0x014f60, [0x5c62]); (0x014f61, [0xfa3b]); (0x014f62, [0xfa3c]); (0x014f63, [0x216b4]);
   (0x014f64, [0x5c7a]); (0x014f65, [0x5c8f]); (0x014f66, [0x5c9f]); (0x014f67, [0x5ca3]);
   (0x014f68, [0x5caa]); (0x014f69, [0x5cba]); (0x014f6a, [0x5ccb]); (0x014f6b, [0x5cd0]);
   (0x014f6c, [0x5cd2]); (0x014f6d, [0x5cf4]); (0x014f6e, [0x21e34]); (0x014f6f, [0x37e2]);
   (0x014f70, [0x5d0d]); (0x014f71, [0x5d27]); (0x014f72, [0xfa11]); (0x014f73, [0x5d46]);
   (0x014f74, [0x5d47]); (0x014f75, [0x5d53]); (0x014f76, [0x5d4a]); (0x014f77, [0x5d6d]);
   (0x014f78, [0x5d81]); (0x014f79, [0x5da0]); (0x014f7a, [0x5da4]); (0x014f7b, [0x5da7]);
   (0x014f7c, [0x5db8]); (0x014f7d, [0x5dcb]); (0x014f7e, [0x541e]); (0x017427, [0x5653]);
   (0x017428, [0x5de2]); (0x017429, [0x5e14]); (0x01742a, [0x5e18]); (0x01742b, [0x5e58]);
   (0x01742c, [0x5e5e]); (0x01742d, [0x5ebe]); (0x01742e, [0xf928]); (0x01742f, [0x5ecb]);
   (0x017430, [0x5ef9]); (0x017431, [0x5f00]); (0x017432, [0x5f02]); (0x017433, [0x5f07]);
   (0x017434, [0x5f1d]); (0x017435, [0x5f23]); (0x017436, [0x5f34]); (0x017437, [0x5f36]);
   (0x017438, [0x5f3d]); (0x017439, [0x5f40]); (0x01743a, [0x5f45]); (0x01743b, [0x5f54]);
   (0x01743c, [0x5f58]); (0x01743d, [0x5f64]); (0x01743e, [0x5f67]); (0x01743f, [0x5f7d]);
   (0x017440, [0x5f89]); (0x017441, [0x5f9c]); (0x017442, [0x5fa7]); (0x017443, [0x5faf]);
   (0x017444, [0x5fb5]); (0x017445, [0x5fb7]); (0x017446, [0x5fc9]); (0x017447, [0x5fde]);
   (0x017448, [0x5fe1]); (0x017449, [0x5fe9]); (0x01744a, [0x600d]); (0x01744b, [0x6014]);
   (0x01744c, [0x6018]); (0x01744d, [0x6033]); (0x01744e, [0x6035]); (0x01744f, [0x6047]);
   (0x017450, [0xfa3d]); (0x017451, [0x609d]); (0x017452, [0x609e]); (0x017453, [0x60cb]);
   (0x017454, [0x60d4]); (0x017455, [0x60d5]); (0x017456, [0x60dd]); (0x017457, [0x60f8]);
   (0x017458, [0x611c]); (0x017459, [0x612b]); (0x01745a, [0x6130]); (0x01745b, [0x6137]);
   (0x01745c, [0xfa3e]); (0x01745d, [0x618d]); (0x01745e, [0xfa3f]); (0x01745f, [0x61bc]);
   (0x017460, [0x61b9]); (0x017461, [0xfa40]); (0x017462, [0x6222]); (0x017463, [0x623e]);
   (0x017464, [0x6243]); (0x017465, [0x6256]); (0x017466, [0x625a]); (0x017467, [0x626f]);
   (0x017468, [0x6285]); (0x017469, [0x62c4]); (0x01746a, [0x62d6]); (0x01746b, [0x62fc]);
   (0x01746c, [0x630a]); (0x01746d, [0x6318]); (0x01746e, [0x6339]); (0x01746f, [0x6343]);
   (0x017470, [0x6365]); (0x017471, [0x637c]); (0x017472, [0x63e5]); (0x017473, [0x63ed]);
   (0x017474, [0x63f5]); (0x017475, [0x6410]); (0x017476, [0x6414]); (0x017477, [0x6422]);
   (0x017478, [0x6479]); (0x017479, [0x6451]); (0x01747a, [0x6460]); (0x01747b, [0x646d]);
   (0x01747c, [0x64ce]); (0x01747d, [0x64be]); (0x01747e, [0x64bf]); (0x017521, [0x64c4]);
   (0x017522, [0x64ca]); (0x017523, [0x64d0]); (0x017524, [0x64f7]); (0x017525, [0x64fb]);
   (0x017526, [0x6522]); (0x017527, [0x6529]); (0x017528, [0xfa41]); (0x017529, [0x6567]);
   (0x01752a, [0x659d]); (0x01752b, [0xfa42]); (0x01752c, [0x6600]); (0x01752d, [0x6609]);
   (0x01752e, [0x6615]); (0x01752f, [0x661e]); (0x017530, [0x663a]); (0x017531, [0x6622]);
   (0x017532, [0x6624]); (0x017533, [0x662b]); (0x017534, [0x6630]); (0x017535, [0x6631]);
   (0x017536, [0x6633]); (0x017537, [0x66fb]); (0x017538, [0x6648]); (0x017539, [0x664c]);
   (0x01753a, [0x231c4]); (0x01753b, [0x6659]); (0x01753c, [0x665a]); (0x01753d, [0x6661]);
   (0x01753e, [0x6665]); (0x01753f, [0x6673]); (0x017540, [0x6677]); (0x017541, [0x6678]);
   (0x017542, [0x668d]); (0x017543, [0xfa43]); (0x017544, [0x66a0]); (0x017545, [0x66b2]);
   (0x017546, [0x66bb]); (0x017547, [0x66c6]); (0x017548, [0x66c8]); (0x017549, [0x3b22]);
   (0x01754a, [0x66db]); (0x01754b, [0x66e8]); (0x01754c, [0x66fa]); (0x01754d, [0x6713]);
   (0x01754e, [0xf929]); (0x01754f, [0x6733]); (0x017550, [0x6766]); (0x017551, [0x6747]);
   (0x017552, [0x6748]); (0x017553, [0x677b]); (0x017554, [0x6781]); (0x017555, [0x6793]);
   (0x017556, [0x6798]); (0x017557, [0x679b]); (0x017558, [0x67bb]); (0x017559, [0x67f9]);
   (0x01755a, [0x67c0]); (0x01755b, [0x67d7]); (0x01755c, [0x67fc]); (0x01755d, [0x6801]);
   (0x01755e, [0x6852]); (0x01755f, [0x681d]); (0x017560, [0x682c]); (0x017561, [0x6831]);
   (0x017562, [0x685b]); (0x017563, [0x6872]); (0x017564, [0x6875]); (0x017565, [0xfa44]);
   (0x017566, [0x68a3]); (0x017567, [0x68a5]); (0x017568, [0x68b2]); (0x017569, [0x68c8]);
   (0x01756a, [0x68d0]); (0x01756b, [0x68e8]); (0x01756c, [0x68ed]); (0x01756d, [0x68f0]);
   (0x01756e, [0x68f1]); (0x01756f, [0x68fc]); (0x017570, [0x690a]); (0x017571, [0x6949]);
   (0x017572, [0x235c4]); (0x017573, [0x6935]); (0x017574, [0x6942]); (0x017575, [0x6957]);
   (0x017576, [0x6963]); (0x017577, [0x6964]); (0x017578, [0x6968]); (0x017579, [0x6980]);
   (0x01757a, [0xfa14]); (0x01757b, [0x69a5]); (0x01757c, [0x69ad]); (0x01757d, [0x69cf]);
   (0x01757e, [0x3bb6]); (0x017621, [0x3bc3]); (0x017622, [0x69e2]); (0x017623, [0x69e9]);
   (0x017624, [0x69ea]); (0x017625, [0x69f5]); (0x017626, [0x69f6]); (0x017627, [0x6a0f]);
   (0x017628, [0x6a15]); (0x017629, [0x2373f]); (0x01762a, [0x6a3b]); (0x01762b, [0x6a3e]);
   (0x01762c, [0x6a45]); (0x01762d, [0x6a50]); (0x01762e, [0x6a56]); (0x01762f, [0x6a5b]);
   (0x017630, [0x6a6b]); (0x017631, [0x6a73]); (0x017632, [0x23763]); (0x017633, [0x6a89]);
   (0x017634, [0x6a94]); (0x017635, [0x6a9d]); (0x017636, [0x6a9e]); (0x017637, [0x6aa5]);
   (0x017638, [0x6ae4]); (0x017639, [0x6ae7]); (0x01763a, [0x3c0f]); (0x01763b, [0xf91d]);
   (0x01763c, [0x6b1b]); (0x01763d, [0x6b1e]); (0x01763e, [0x6b2c]); (0x01763f, [0x6b35]);
   (0x017640, [0x6b46]); (0x017641, [0x6b56]); (0x017642, [0x6b60]); (0x017643, [0x6b65]);
   (0x017644, [0x6b67]); (0x017645, [0x6b77]); (0x017646, [0x6b82]); (0x017647, [0x6ba9]);
   (0x017648, [0x6bad]); (0x017649, [0xf970]); (0x01764a, [0x6bcf]); (0x01764b, [0x6bd6]);
   (0x01764c, [0x6bd7]); (0x01764d, [0x6bff]); (0x01764e, [0x6c05]); (0x01764f, [0x6c10]);
   (0x017650, [0x6c33]); (0x017651, [0x6c59]); (0x017652, [0x6c5c]); (0x017653, [0x6caa]);
   (0x017654, [0x6c74]); (0x017655, [0x6c76]); (0x017656, [0x6c85]); (0x017657, [0x6c86]);
   (0x017658, [0x6c98]); (0x017659, [0x6c9c]); (0x01765a, [0x6cfb]); (0x01765b, [0x6cc6]);
   (0x01765c, [0x6cd4]); (0x01765d, [0x6ce0]); (0x01765e, [0x6ceb]); (0x01765f, [0x6cee]);
   (0x017660, [0x23cfe]); (0x017661, [0x6d04]); (0x017662, [0x6d0e]); (0x017663, [0x6d2e]);
   (0x017664, [0x6d31]); (0x017665, [0x6d39]); (0x017666, [0x6d3f]); (0x017667, [0x6d58]);
   (0x017668, [0x6d65]); (0x017669, [0xfa45]); (0x01766a, [0x6d82]); (0x01766b, [0x6d87]);
   (0x01766c, [0x6d89]); (0x01766d, [0x6d94]); (0x01766e, [0x6daa]); (0x01766f, [0x6dac]);
   (0x017670, [0x6dbf]); (0x017671, [0x6dc4]); (0x017672, [0x6dd6]); (0x017673, [0x6dda]);
   (0x017674, [0x6ddb]); (0x017675, [0x6ddd]); (0x017676, [0x6dfc]); (0x017677, [0xfa46]);
   (0x017678, [0x6e34]); (0x017679, [0x6e44]); (0x01767a, [0x6e5c]); (0x01767b, [0x6e5e]);
   (0x01767c, [0x6eab]); (0x01767d, [0x6eb1]); (0x01767e, [0x6ec1]); (0x017721, [0x6ec7]);
   (0x017722, [0x6ece]); (0x017723, [0x6f10]); (0x017724, [0x6f1a]); (0x017725, [0xfa47]);
   (0x017726, [0x6f2a]); (0x017727, [0x6f2f]); (0x017728, [0x6f33]); (0x017729, [0x6f51]);
   (0x01772a, [0x6f59]); (0x01772b, [0x6f5e]); (0x01772c, [0x6f61]); (0x01772d, [0x6f62]);
   (0x01772e, [0x6f7e]); (0x01772f, [0x6f88]); (0x017730, [0x6f8c]); (0x017731, [0x6f8d]);
   (0x017732, [0x6f94]); (0x017733, [0x6fa0]); (0x017734, [0x6fa7]); (0x017735, [0x6fb6]);
   (0x017736, [0x6fbc]); (0x017737, [0x6fc7]); (0x017738, [0x6fca]); (0x017739, [0x6ff9]);
   (0x01773a, [0x6ff0]); (0x01773b, [0x6ff5]); (0x01773c, [0x7005]); (0x01773d, [0x7006]);
   (0x01773e, [0x7028]); (0x01773f, [0x704a]); (0x017740, [0x705d]); (0x017741, [0x705e]);
   (0x017742, [0x704e]); (0x017743, [0x7064]); (0x017744, [0x7075]); (0x017745, [0x7085]);
   (0x017746, [0x70a4]); (0x017747, [0x70ab]); (0x017748, [0x70b7]); (0x017749, [0x70d4]);
   (0x01774a, [0x70d8]); (0x01774b, [0x70e4]); (0x01774c, [0x710f]); (0x01774d, [0x712b]);
   (0x01774e, [0x711e]); (0x01774f, [0x7120]); (0x017750, [0x712e]); (0x017751, [0x7130]);
   (0x017752, [0x7146]); (0x017753, [0x7147]); (0x017754, [0x7151]); (0x017755, [0xfa48]);
   (0x017756, [0x7152]); (0x017757, [0x715c]); (0x017758, [0x7160]); (0x017759, [0x7168]);
   (0x01775a, [0xfa15]); (0x01775b, [0x7185]); (0x01775c, [0x7187]); (0x01775d, [0x7192]);
   (0x01775e, [0x71c1]); (0x01775f, [0x71ba]); (0x017760, [0x71c4]); (0x017761, [0x71fe]);
   (0x017762, [0x7200]); (0x017763, [0x7215]); (0x017764, [0x7255]); (0x017765, [0x7256]);
   (0x017766, [0x3e3f]); (0x017767, [0x728d]); (0x017768, [0x729b]); (0x017769, [0x72be]);
   (0x01776a, [0x72c0]); (0x01776b, [0x72fb]); (0x01776c, [0x247f1]); (0x01776d, [0x7327]);
   (0x01776e, [0x7328]); (0x01776f, [0xfa16]); (0x017770, [0x7350]); (0x017771, [0x7366]);
   (0x017772, [0x737c]); (0x017773, [0x7395]); (0x017774, [0x739f]); (0x017775, [0x73a0]);
   (0x017776, [0x73a2]); (0x017777, [0x73a6]); (0x017778, [0x73ab]); (0x017779, [0x73c9]);
   (0x01777a, [0x73cf]); (0x01777b, [0x73d6]); (0x01777c, [0x73d9]); (0x01777d, [0x73e3]);
   (0x01777e, [0x73e9]); (0x017821, [0x7407]); (0x017822, [0x740a]); (0x017823, [0x741a]);
   (0x017824, [0x741b]); (0x017825, [0xfa4a]); (0x017826, [0x7426]); (0x017827, [0x7428]);
   (0x017828, [0x742a]); (0x017829, [0x742b]); (0x01782a, [0x742c]); (0x01782b, [0x742e]);
   (0x01782c, [0x742f]); (0x01782d, [0x7430]); (0x01782e, [0x7444]); (0x01782f, [0x7446]);
   (0x017830, [0x7447]); (0x017831, [0x744b]); (0x017832, [0x7457]); (0x017833, [0x7462]);
   (0x017834, [0x746b]); (0x017835, [0x746d]); (0x017836, [0x7486]); (0x017837, [0x7487]);
   (0x017838, [0x7489]); (0x017839, [0x7498]); (0x01783a, [0x749c]); (0x01783b, [0x749f]);
   (0x01783c, [0x74a3]); (0x01783d, [0x7490]); (0x01783e, [0x74a6]); (0x01783f, [0x74a8]);
   (0x017840, [0x74a9]); (0x017841, [0x74b5]); (0x017842, [0x74bf]); (0x017843, [0x74c8]);
   (0x017844, [0x74c9]); (0x017845, [0x74da]); (0x017846, [0x74ff]); (0x017847, [0x7501]);
   (0x017848, [0x7517]); (0x017849, [0x752f]); (0x01784a, [0x756f]); (0x01784b, [0x7579]);
   (0x01784c, [0x7592]); (0x01784d, [0x3f72]); (0x01784e, [0x75ce]); (0x01784f, [0x75e4]);
   (0x017850, [0x7600]); (0x017851, [0x7602]); (0x017852, [0x7608]); (0x017853, [0x7615]);
   (0x017854, [0x7616]); (0x017855, [0x7619]); (0x017856, [0x761e]); (0x017857, [0x762d]);
   (0x017858, [0x7635]); (0x017859, [0x7643]); (0x01785a, [0x764b]); (0x01785b, [0x7664]);
   (0x01785c, [0x7665]); (0x01785d, [0x766d]); (0x01785e, [0x766f]); (0x01785f, [0x7671]);
   (0x017860, [0x7681]); (0x017861, [0x769b]); (0x017862, [0x769d]); (0x017863, [0x769e]);
   (0x017864, [0x76a6]); (0x017865, [0x76aa]); (0x017866, [0x76b6]); (0x017867, [0x76c5]);
   (0x017868, [0x76cc]); (0x017869, [0x76ce]); (0x01786a, [0x76d4]); (0x01786b, [0x76e6]);
   (0x01786c, [0x76f1]); (0x01786d, [0x76fc]); (0x01786e, [0x770a]); (0x01786f, [0x7719]);
   (0x017870, [0x7734]); (0x017871, [0x7736]); (0x017872, [0x7746]); (0x017873, [0x774d]);
   (0x017874, [0x774e]); (0x017875, [0x775c]); (0x017876, [0x775f]); (0x017877, [0x7762]);
   (0x017878, [0x777a]); (0x017879, [0x7780]); (0x01787a, [0x7794]); (0x01787b, [0x77aa]);
   (0x01787c, [0x77e0]); (0x01787d, [0x782d]); (0x01787e, [0x2548e]); (0x017921, [0x7843]);
   (0x017922, [0x784e]); (0x017923, [0x784f]); (0x017924, [0x7851]); (0x017925, [0x7868]);
   (0x017926, [0x786e]); (0x017927, [0xfa4b]); (0x017928, [0x78b0]); (0x017929, [0x2550e]);
   (0x01792a, [0x78ad]); (0x01792b, [0x78e4]); (0x01792c, [0x78f2]); (0x01792d, [0x7900]);
   (0x01792e, [0x78f7]); (0x01792f, [0x791c]); (0x017930, [0x792e]); (0x017931, [0x7931]);
   (0x017932, [0x7934]); (0x017933, [0xfa4c]); (0x017934, [0xfa4d]); (0x017935, [0x7945]);
   (0x017936, [0x7946]); (0x017937, [0xfa4e]); (0x017938, [0xfa4f]); (0x017939, [0xfa50]);
   (0x01793a, [0x795c]); (0x01793b, [0xfa51]); (0x01793c, [0xfa19]); (0x01793d, [0xfa1a]);
   (0x01793e, [0x7979]); (0x01793f, [0xfa52]); (0x017940, [0xfa53]); (0x017941, [0xfa1b]);
   (0x017942, [0x7998]); (0x017943, [0x79b1]); (0x017944, [0x79b8]); (0x017945, [0x79c8]);
   (0x017946, [0x79ca]); (0x017947, [0x25771]); (0x017948, [0x79d4]); (0x017949, [0x79de]);
   (0x01794a, [0x79eb]); (0x01794b, [0x79ed]); (0x01794c, [0x7a03]); (0x01794d, [0xfa54]);
   (0x01794e, [0x7a39]); (0x01794f, [0x7a5d]); (0x017950, [0x7a6d]); (0x017951, [0xfa55]);
   (0x017952, [0x7a85]); (0x017953, [0x7aa0]); (0x017954, [0x259c4]); (0x017955, [0x7ab3]);
   (0x017956, [0x7abb]); (0x017957, [0x7ace]); (0x017958, [0x7aeb]); (0x017959, [0x7afd]);
   (0x01795a, [0x7b12]); (0x01795b, [0x7b2d]); (0x01795c, [0x7b3b]); (0x01795d, [0x7b47]);
   (0x01795e, [0x7b4e]); (0x01795f, [0x7b60]); (0x017960, [0x7b6d]); (0x017961, [0x7b6f]);
   (0x017962, [0x7b72]); (0x017963, [0x7b9e]); (0x017964, [0xfa56]); (0x017965, [0x7bd7]);
   (0x017966, [0x7bd9]); (0x017967, [0x7c01]); (0x017968, [0x7c31]); (0x017969, [0x7c1e]);
   (0x01796a, [0x7c20]); (0x01796b, [0x7c33]); (0x01796c, [0x7c36]); (0x01796d, [0x4264]);
   (0x01796e, [0x25da1]); (0x01796f, [0x7c59]); (0x017970, [0x7c6d]); (0x017971, [0x7c79]);
   (0x017972, [0x7c8f]); (0x017973, [0x7c94]); (0x017974, [0x7ca0]); (0x017975, [0x7cbc]);
   (0x017976, [0x7cd5]); (0x017977, [0x7cd9]); (0x017978, [0x7cdd]); (0x017979, [0x7d07]);
   (0x01797a, [0x7d08]); (0x01797b, [0x7d13]); (0x01797c, [0x7d1d]); (0x01797d, [0x7d23]);
   (0x01797e, [0x7d31]); (0x017a21, [0x7d41]); (0x017a22, [0x7d48]); (0x017a23, [0x7d53]);
   (0x017a24, [0x7d5c]); (0x017a25, [0x7d7a]); (0x017a26, [0x7d83]); (0x017a27, [0x7d8b]);
   (0x017a28, [0x7da0]); (0x017a29, [0x7da6]); (0x017a2a, [0x7dc2]); (0x017a2b, [0x7dcc]);
   (0x017a2c, [0x7dd6]); (0x017a2d, [0x7de3]); (0x017a2e, [0xfa57]); (0x017a2f, [0x7e28]);
   (0x017a30, [0x7e08]); (0x017a31, [0x7e11]); (0x017a32, [0x7e15]); (0x017a33, [0xfa59]);
   (0x017a34, [0x7e47]); (0x017a35, [0x7e52]); (0x017a36, [0x7e61]); (0x017a37, [0x7e8a]);
   (0x017a38, [0x7e8d]); (0x017a39, [0x7f47]); (0x017a3a, [0xfa5a]); (0x017a3b, [0x7f91]);
   (0x017a3c, [0x7f97]); (0x017a3d, [0x7fbf]); (0x017a3e, [0x7fce]); (0x017a3f, [0x7fdb]);
   (0x017a40, [0x7fdf]); (0x017a41, [0x7fec]); (0x017a42, [0x7fee]); (0x017a43, [0x7ffa]);
   (0x017a44, [0xfa5b]); (0x017a45, [0x8014]); (0x017a46, [0x8026]); (0x017a47, [0x8035]);
   (0x017a48, [0x8037]); (0x017a49, [0x803c]); (0x017a4a, [0x80ca]); (0x017a4b, [0x80d7]);
   (0x017a4c, [0x80e0]); (0x017a4d, [0x80f3]); (0x017a4e, [0x8118]); (0x017a4f, [0x814a]);
   (0x017a50, [0x8160]); (0x017a51, [0x8167]); (0x017a52, [0x8168]); (0x017a53, [0x816d]);
   (0x017a54, [0x81bb]); (0x017a55, [0x81ca]); (0x017a56, [0x81cf]); (0x017a57, [0x81d7]);
   (0x017a58, [0xfa5c]); (0x017a59, [0x4453]); (0x017a5a, [0x445b]); (0x017a5b, [0x8260]);
   (0x017a5c, [0x8274]); (0x017a5d, [0x26aff]); (0x017a5e, [0x828e]); (0x017a5f, [0x82a1]);
   (0x017a60, [0x82a3]); (0x017a61, [0x82a4]); (0x017a62, [0x82a9]); (0x017a63, [0x82ae]);
   (0x017a64, [0x82b7]); (0x017a65, [0x82be]); (0x017a66, [0x82bf]); (0x017a67, [0x82c6]);
   (0x017a68, [0x82d5]); (0x017a69, [0x82fd]); (0x017a6a, [0x82fe]); (0x017a6b, [0x8300]);
   (0x017a6c, [0x8301]); (0x017a6d, [0x8362]); (0x017a6e, [0x8322]); (0x017a6f, [0x832d]);
   (0x017a70, [0x833a]); (0x017a71, [0x8343]); (0x017a72, [0x8347]); (0x017a73, [0x8351]);
   (0x017a74, [0x8355]); (0x017a75, [0x837d]); (0x017a76, [0x8386]); (0x017a77, [0x8392]);
   (0x017a78, [0x8398]); (0x017a79, [0x83a7]); (0x017a7a, [0x83a9]); (0x017a7b, [0x83bf]);
   (0x017a7c, [0x83c0]); (0x017a7d, [0x83c7]); (0x017a7e, [0x83cf]); (0x017b21, [0x83d1]);
   (0x017b22, [0x83e1]); (0x017b23, [0x83ea]); (0x017b24, [0x8401]); (0x017b25, [0x8406]);
   (0x017b26, [0x840a]); (0x017b27, [0xfa5f]); (0x017b28, [0x8448]); (0x017b29, [0x845f]);
   (0x017b2a, [0x8470]); (0x017b2b, [0x8473]); (0x017b2c, [0x8485]); (0x017b2d, [0x849e]);
   (0x017b2e, [0x84af]); (0x017b2f, [0x84b4]); (0x017b30, [0x84ba]); (0x017b31, [0x84c0]);
   (0x017b32, [0x84c2]); (0x017b33, [0x26e40]); (0x017b34, [0x8532]); (0x017b35, [0x851e]);
   (0x017b36, [0x8523]); (0x017b37, [0x852f]); (0x017b38, [0x8559]); (0x017b39, [0x8564]);
   (0x017b3a, [0xfa1f]); (0x017b3b, [0x85ad]); (0x017b3c, [0x857a]); (0x017b3d, [0x858c]);
   (0x017b3e, [0x858f]); (0x017b3f, [0x85a2]); (0x017b40, [0x85b0]); (0x017b41, [0x85cb]);
   (0x017b42, [0x85ce]); (0x017b43, [0x85ed]); (0x017b44, [0x8612]); (0x017b45, [0x85ff]);
   (0x017b46, [0x8604]); (0x017b47, [0x8605]); (0x017b48, [0x8610]); (0x017b49, [0x270f4]);
   (0x017b4a, [0x8618]); (0x017b4b, [0x8629]); (0x017b4c, [0x8638]); (0x017b4d, [0x8657]);
   (0x017b4e, [0x865b]); (0x017b4f, [0xf936]); (0x017b50, [0x8662]); (0x017b51, [0x459d]);
   (0x017b52, [0x866c]); (0x017b53, [0x8675]); (0x017b54, [0x8698]); (0x017b55, [0x86b8]);
   (0x017b56, [0x86fa]); (0x017b57, [0x86fc]); (0x017b58, [0x86fd]); (0x017b59, [0x870b]);
   (0x017b5a, [0x8771]); (0x017b5b, [0x8787]); (0x017b5c, [0x8788]); (0x017b5d, [0x87ac]);
   (0x017b5e, [0x87ad]); (0x017b5f, [0x87b5]); (0x017b60, [0x45ea]); (0x017b61, [0x87d6]);
   (0x017b62, [0x87ec]); (0x017b63, [0x8806]); (0x017b64, [0x880a]); (0x017b65, [0x8810]);
   (0x017b66, [0x8814]); (0x017b67, [0x881f]); (0x017b68, [0x8898]); (0x017b69, [0x88aa]);
   (0x017b6a, [0x88ca]); (0x017b6b, [0x88ce]); (0x017b6c, [0x27684]); (0x017b6d, [0x88f5]);
   (0x017b6e, [0x891c]); (0x017b6f, [0xfa60]); (0x017b70, [0x8918]); (0x017b71, [0x8919]);
   (0x017b72, [0x891a]); (0x017b73, [0x8927]); (0x017b74, [0x8930]); (0x017b75, [0x8932]);
   (0x017b76, [0x8939]); (0x017b77, [0x8940]); (0x017b78, [0x8994]); (0x017b79, [0xfa61]);
   (0x017b7a, [0x89d4]); (0x017b7b, [0x89e5]); (0x017b7c, [0x89f6]); (0x017b7d, [0x8a12]);
   (0x017b7e, [0x8a15]); (0x017c21, [0x8a22]); (0x017c22, [0x8a37]); (0x017c23, [0x8a47]);
   (0x017c24, [0x8a4e]); (0x017c25, [0x8a5d]); (0x017c26, [0x8a61]); (0x017c27, [0x8a75]);
   (0x017c28, [0x8a79]); (0x017c29, [0x8aa7]); (0x017c2a, [0x8ad0]); (0x017c2b, [0x8adf]);
   (0x017c2c, [0x8af4]); (0x017c2d, [0x8af6]); (0x017c2e, [0xfa22]); (0x017c2f, [0xfa62]);
   (0x017c30, [0xfa63]); (0x017c31, [0x8b46]); (0x017c32, [0x8b54]); (0x017c33, [0x8b59]);
   (0x017c34, [0x8b69]); (0x017c35, [0x8b9d]); (0x017c36, [0x8c49]); (0x017c37, [0x8c68]);
   (0x017c38, [0xfa64]); (0x017c39, [0x8ce1]); (0x017c3a, [0x8cf4]); (0x017c3b, [0x8cf8]);
   (0x017c3c, [0x8cfe]); (0x017c3d, [0xfa65]); (0x017c3e, [0x8d12]); (0x017c3f, [0x8d1b]);
   (0x017c40, [0x8daf]); (0x017c41, [0x8dce]); (0x017c42, [0x8dd1]); (0x017c43, [0x8dd7]);
   (0x017c44, [0x8e20]); (0x017c45, [0x8e23]); (0x017c46, [0x8e3d]); (0x017c47, [0x8e70]);
   (0x017c48, [0x8e7b]); (0x017c49, [0x28277]); (0x017c4a, [0x8ec0]); (0x017c4b, [0x4844]);
   (0x017c4c, [0x8efa]); (0x017c4d, [0x8f1e]); (0x017c4e, [0x8f2d]); (0x017c4f, [0x8f36]);
   (0x017c50, [0x8f54]); (0x017c51, [0x283cd]); (0x017c52, [0x8fa6]); (0x017c53, [0x8fb5]);
   (0x017c54, [0x8fe4]); (0x017c55, [0x8fe8]); (0x017c56, [0x8fee]); (0x017c57, [0x9008]);
   (0x017c58, [0x902d]); (0x017c59, [0xfa67]); (0x017c5a, [0x9088]); (0x017c5b, [0x9095]);
   (0x017c5c, [0x9097]); (0x017c5d, [0x9099]); (0x017c5e, [0x909b]); (0x017c5f, [0x90a2]);
   (0x017c60, [0x90b3]); (0x017c61, [0x90be]); (0x017c62, [0x90c4]); (0x017c63, [0x90c5]);
   (0x017c64, [0x90c7]); (0x017c65, [0x90d7]); (0x017c66, [0x90dd]); (0x017c67, [0x90de]);
   (0x017c68, [0x90ef]); (0x017c69, [0x90f4]); (0x017c6a, [0xfa26]); (0x017c6b, [0x9114]);
   (0x017c6c, [0x9115]); (0x017c6d, [0x9116]); (0x017c6e, [0x9122]); (0x017c6f, [0x9123]);
   (0x017c70, [0x9127]); (0x017c71, [0x912f]); (0x017c72, [0x9131]); (0x017c73, [0x9134]);
   (0x017c74, [0x913d]); (0x017c75, [0x9148]); (0x017c76, [0x915b]); (0x017c77, [0x9183]);
   (0x017c78, [0x919e]); (0x017c79, [0x91ac]); (0x017c7a, [0x91b1]); (0x017c7b, [0x91bc]);
   (0x017c7c, [0x91d7]); (0x017c7d, [0x91fb]); (0x017c7e, [0x91e4]); (0x017d21, [0x91e5]);
   (0x017d22, [0x91ed]); (0x017d23, [0x91f1]); (0x017d24, [0x9207]); (0x017d25, [0x9210]);
   (0x017d26, [0x9238]); (0x017d27, [0x9239]); (0x017d28, [0x923a]); (0x017d29, [0x923c]);
   (0x017d2a, [0x9240]); (0x017d2b, [0x9243]); (0x017d2c, [0x924f]); (0x017d2d, [0x9278]);
   (0x017d2e, [0x9288]); (0x017d2f, [0x92c2]); (0x017d30, [0x92cb]); (0x017d31, [0x92cc]);
   (0x017d32, [0x92d3]); (0x017d33, [0x92e0]); (0x017d34, [0x92ff]); (0x017d35, [0x9304]);
   (0x017d36, [0x931f]); (0x017d37, [0x9321]); (0x017d38, [0x9325]); (0x017d39, [0x9348]);
   (0x017d3a, [0x9349]); (0x017d3b, [0x934a]); (0x017d3c, [0x9364]); (0x017d3d, [0x9365]);
   (0x017d3e, [0x936a]); (0x017d3f, [0x9370]); (0x017d40, [0x939b]); (0x017d41, [0x93a3]);
   (0x017d42, [0x93ba]); (0x017d43, [0x93c6]); (0x017d44, [0x93de]); (0x017d45, [0x93df]);
   (0x017d46, [0x9404]); (0x017d47, [0x93fd]); (0x017d48, [0x9433]); (0x017d49, [0x944a]);
   (0x017d4a, [0x9463]); (0x017d4b, [0x946b]); (0x017d4c, [0x9471]); (0x017d4d, [0x9472]);
   (0x017d4e, [0x958e]); (0x017d4f, [0x959f]); (0x017d50, [0x95a6]); (0x017d51, [0x95a9]);
   (0x017d52, [0x95ac]); (0x017d53, [0x95b6]); (0x017d54, [0x95bd]); (0x017d55, [0x95cb]);
   (0x017d56, [0x95d0]); (0x017d57, [0x95d3]); (0x017d58, [0x49b0]); (0x017d59, [0x95da]);
   (0x017d5a, [0x95de]); (0x017d5b, [0x9658]); (0x017d5c, [0x9684]); (0x017d5d, [0xf9dc]);
   (0x017d5e, [0x969d]); (0x017d5f, [0x96a4]); (0x017d60, [0x96a5]); (0x017d61, [0x96d2]);
   (0x017d62, [0x96de]); (0x017d63, [0xfa68]); (0x017d64, [0x96e9]); (0x017d65, [0x96ef]);
   (0x017d66, [0x9733]); (0x017d67, [0x973b]); (0x017d68, [0x974d]); (0x017d69, [0x974e]);
   (0x017d6a, [0x974f]); (0x017d6b, [0x975a]); (0x017d6c, [0x976e]); (0x017d6d, [0x9773]);
   (0x017d6e, [0x9795]); (0x017d6f, [0x97ae]); (0x017d70, [0x97ba]); (0x017d71, [0x97c1]);
   (0x017d72, [0x97c9]); (0x017d73, [0x97de]); (0x017d74, [0x97db]); (0x017d75, [0x97f4]);
   (0x017d76, [0xfa69]); (0x017d77, [0x980a]); (0x017d78, [0x981e]); (0x017d79, [0x982b]);
   (0x017d7a, [0x9830]); (0x017d7b, [0xfa6a]); (0x017d7c, [0x9852]); (0x017d7d, [0x9853]);
   (0x017d7e, [0x9856]); (0x017e21, [0x9857]); (0x017e22, [0x9859]); (0x017e23, [0x985a]);
   (0x017e24, [0xf9d0]); (0x017e25, [0x9865]); (0x017e26, [0x986c]); (0x017e27, [0x98ba]);
   (0x017e28, [0x98c8]); (0x017e29, [0x98e7]); (0x017e2a, [0x9958]); (0x017e2b, [0x999e]);
   (0x017e2c, [0x9a02]); (0x017e2d, [0x9a03]); (0x017e2e, [0x9a24]); (0x017e2f, [0x9a2d]);
   (0x017e30, [0x9a2e]); (0x017e31, [0x9a38]); (0x017e32, [0x9a4a]); (0x017e33, [0x9a4e]);
   (0x017e34, [0x9a52]); (0x017e35, [0x9ab6]); (0x017e36, [0x9ac1]); (0x017e37, [0x9ac3]);
   (0x017e38, [0x9ace]); (0x017e39, [0x9ad6]); (0x017e3a, [0x9af9]); (0x017e3b, [0x9b02]);
   (0x017e3c, [0x9b08]); (0x017e3d, [0x9b20]); (0x017e3e, [0x4c17]); (0x017e3f, [0x9b2d]);
   (0x017e40, [0x9b5e]); (0x017e41, [0x9b79]); (0x017e42, [0x9b66]); (0x017e43, [0x9b72]);
   (0x017e44, [0x9b75]); (0x017e45, [0x9b84]); (0x017e46, [0x9b8a]); (0x017e47, [0x9b8f]);
   (0x017e48, [0x9b9e]); (0x017e49, [0x9ba7]); (0x017e4a, [0x9bc1]); (0x017e4b, [0x9bce]);
   (0x017e4c, [0x9be5]); (0x017e4d, [0x9bf8]); (0x017e4e, [0x9bfd]); (0x017e4f, [0x9c00]);
   (0x017e50, [0x9c23]); (0x017e51, [0x9c41]); (0x017e52, [0x9c4f]); (0x017e53, [0x9c50]);
   (0x017e54, [0x9c53]); (0x017e55, [0x9c63]); (0x017e56, [0x9c65]); (0x017e57, [0x9c77]);
   (0x017e58, [0x9d1d]); (0x017e59, [0x9d1e]); (0x017e5a, [0x9d43]); (0x017e5b, [0x9d47]);
   (0x017e5c, [0x9d52]); (0x017e5d, [0x9d63]); (0x017e5e, [0x9d70]); (0x017e5f, [0x9d7c]);
   (0x017e60, [0x9d8a]); (0x017e61, [0x9d96]); (0x017e62, [0x9dc0]); (0x017e63, [0x9dac]);
   (0x017e64, [0x9dbc]); (0x017e65, [0x9dd7]); (0x017e66, [0x2a190]); (0x017e67, [0x9de7]);
   (0x017e68, [0x9e07]); (0x017e69, [0x9e15]); (0x017e6a, [0x9e7c]); (0x017e6b, [0x9e9e]);
   (0x017e6c, [0x9ea4]); (0x017e6d, [0x9eac]); (0x017e6e, [0x9eaf]); (0x017e6f, [0x9eb4]);
   (0x017e70, [0x9eb5]); (0x017e71, [0x9ec3]); (0x017e72, [0x9ed1]); (0x017e73, [0x9f10]);
   (0x017e74, [0x9f39]); (0x017e75, [0x9f57]); (0x017e76, [0x9f90]); (0x017e77, [0x9f94]);
   (0x017e78, [0x9f97]); (0x017e79, [0x9fa2]); (0x017e7a, [0x59f8]); (0x017e7b, [0x5c5b]);
   (0x017e7c, [0x5e77]); (0x017e7d, [0x7626]); (0x017e7e, [0x7e6b]); (0x022121, [0x20089]);
   (0x022122, [0x4e02]); (0x022123, [0x4e0f]); (0x022124, [0x4e12]); (0x022125, [0x4e29]);
   (0x022126, [0x4e2b]); (0x022127, [0x4e2e]); (0x022128, [0x4e40]); (0x022129, [0x4e47]);
   (0x02212a, [0x4e48]); (0x02212b, [0x200a2]); (0x02212c, [0x4e51]); (0x02212d, [0x3406]);
   (0x02212e, [0x200a4]); (0x02212f, [0x4e5a]); (0x022130, [0x4e69]); (0x022131, [0x4e9d]);
   (0x022132, [0x342c]); (0x022133, [0x342e]); (0x022134, [0x4eb9]); (0x022135, [0x4ebb]);
   (0x022136, [0x201a2]); (0x022137, [0x4ebc]); (0x022138, [0x4ec3]); (0x022139, [0x4ec8]);
   (0x02213a, [0x4ed0]); (0x02213b, [0x4eeb]); (0x02213c, [0x4eda]); (0x02213d, [0x4ef1]);
   (0x02213e, [0x4ef5]); (0x02213f, [0x4f00]); (0x022140, [0x4f16]); (0x022141, [0x4f64]);
   (0x022142, [0x4f37]); (0x022143, [0x4f3e]); (0x022144, [0x4f54]); (0x022145, [0x4f58]);
   (0x022146, [0x20213]); (0x022147, [0x4f77]); (0x022148, [0x4f78]); (0x022149, [0x4f7a]);
   (0x02214a, [0x4f7d]); (0x02214b, [0x4f82]); (0x02214c, [0x4f85]); (0x02214d, [0x4f92]);
   (0x02214e, [0x4f9a]); (0x02214f, [0x4fe6]); (0x022150, [0x4fb2]); (0x022151, [0x4fbe]);
   (0x022152, [0x4fc5]); (0x022153, [0x4fcb]); (0x022154, [0x4fcf]); (0x022155, [0x4fd2]);
   (0x022156, [0x346a]); (0x022157, [0x4ff2]); (0x022158, [0x5000]); (0x022159, [0x5010]);
   (0x02215a, [0x5013]); (0x02215b, [0x501c]); (0x02215c, [0x501e]); (0x02215d, [0x5022]);
   (0x02215e, [0x3468]); (0x02215f, [0x5042]); (0x022160, [0x5046]); (0x022161, [0x504e]);
   (0x022162, [0x5053]); (0x022163, [0x5057]); (0x022164, [0x5063]); (0x022165, [0x5066]);
   (0x022166, [0x506a]); (0x022167, [0x5070]); (0x022168, [0x50a3]); (0x022169, [0x5088]);
   (0x02216a, [0x5092]); (0x02216b, [0x5093]); (0x02216c, [0x5095]); (0x02216d, [0x5096]);
   (0x02216e, [0x509c]); (0x02216f, [0x50aa]); (0x022170, [0x2032b]); (0x022171, [0x50b1]);
   (0x022172, [0x50ba]); (0x022173, [0x50bb]); (0x022174, [0x50c4]); (0x022175, [0x50c7]);
   (0x022176, [0x50f3]); (0x022177, [0x20381]); (0x022178, [0x50ce]); (0x022179, [0x20371]);
   (0x02217a, [0x50d4]); (0x02217b, [0x50d9]); (0x02217c, [0x50e1]); (0x02217d, [0x50e9]);
   (0x02217e, [0x3492]); (0x022321, [0x5108]); (0x022322, [0x203f9]); (0x022323, [0x5117]);
   (0x022324, [0x511b]); (0x022325, [0x2044a]); (0x022326, [0x5160]); (0x022327, [0x20509]);
   (0x022328, [0x5173]); (0x022329, [0x5183]); (0x02232a, [0x518b]); (0x02232b, [0x34bc]);
   (0x02232c, [0x5198]); (0x02232d, [0x51a3]); (0x02232e, [0x51ad]); (0x02232f, [0x34c7]);
   (0x022330, [0x51bc]); (0x022331, [0x205d6]); (0x022332, [0x20628]); (0x022333, [0x51f3]);
   (0x022334, [0x51f4]); (0x022335, [0x5202]); (0x022336, [0x5212]); (0x022337, [0x5216]);
   (0x022338, [0x2074f]); (0x022339, [0x5255]); (0x02233a, [0x525c]); (0x02233b, [0x526c]);
   (0x02233c, [0x5277]); (0x02233d, [0x5284]); (0x02233e, [0x5282]); (0x02233f, [0x20807]);
   (0x022340, [0x5298]); (0x022341, [0x2083a]); (0x022342, [0x52a4]); (0x022343, [0x52a6]);
   (0x022344, [0x52af]); (0x022345, [0x52ba]); (0x022346, [0x52bb]); (0x022347, [0x52ca]);
   (0x022348, [0x351f]); (0x022349, [0x52d1]); (0x02234a, [0x208b9]); (0x02234b, [0x52f7]);
   (0x02234c, [0x530a]); (0x02234d, [0x530b]); (0x02234e, [0x5324]); (0x02234f, [0x5335]);
   (0x022350, [0x533e]); (0x022351, [0x5342]); (0x022352, [0x2097c]); (0x022353, [0x2099d]);
   (0x022354, [0x5367]); (0x022355, [0x536c]); (0x022356, [0x537a]); (0x022357, [0x53a4]);
   (0x022358, [0x53b4]); (0x022359, [0x20ad3]); (0x02235a, [0x53b7]); (0x02235b, [0x53c0]);
   (0x02235c, [0x20b1d]); (0x02235d, [0x355d]); (0x02235e, [0x355e]); (0x02235f, [0x53d5]);
   (0x022360, [0x53da]); (0x022361, [0x3563]); (0x022362, [0x53f4]); (0x022363, [0x53f5]);
   (0x022364, [0x5455]); (0x022365, [0x5424]); (0x022366, [0x5428]); (0x022367, [0x356e]);
   (0x022368, [0x5443]); (0x022369, [0x5462]); (0x02236a, [0x5466]); (0x02236b, [0x546c]);
   (0x02236c, [0x548a]); (0x02236d, [0x548d]); (0x02236e, [0x5495]); (0x02236f, [0x54a0]);
   (0x022370, [0x54a6]); (0x022371, [0x54ad]); (0x022372, [0x54ae]); (0x022373, [0x54b7]);
   (0x022374, [0x54ba]); (0x022375, [0x54bf]); (0x022376, [0x54c3]); (0x022377, [0x20d45]);
   (0x022378, [0x54ec]); (0x022379, [0x54ef]); (0x02237a, [0x54f1]); (0x02237b, [0x54f3]);
   (0x02237c, [0x5500]); (0x02237d, [0x5501]); (0x02237e, [0x5509]); (0x022421, [0x553c]);
   (0x022422, [0x5541]); (0x022423, [0x35a6]); (0x022424, [0x5547]); (0x022425, [0x554a]);
   (0x022426, [0x35a8]); (0x022427, [0x5560]); (0x022428, [0x5561]); (0x022429, [0x5564]);
   (0x02242a, [0x20de1]); (0x02242b, [0x557d]); (0x02242c, [0x5582]); (0x02242d, [0x5588]);
   (0x02242e, [0x5591]); (0x02242f, [0x35c5]); (0x022430, [0x55d2]); (0x022431, [0x20e95]);
   (0x022432, [0x20e6d]); (0x022433, [0x55bf]); (0x022434, [0x55c9]); (0x022435, [0x55cc]);
   (0x022436, [0x55d1]); (0x022437, [0x55dd]); (0x022438, [0x35da]); (0x022439, [0x55e2]);
   (0x02243a, [0x20e64]); (0x02243b, [0x55e9]); (0x02243c, [0x5628]); (0x02243d, [0x20f5f]);
   (0x02243e, [0x5607]); (0x02243f, [0x5610]); (0x022440, [0x5630]); (0x022441, [0x5637]);
   (0x022442, [0x35f4]); (0x022443, [0x563d]); (0x022444, [0x563f]); (0x022445, [0x5640]);
   (0x022446, [0x5647]); (0x022447, [0x565e]); (0x022448, [0x5660]); (0x022449, [0x566d]);
   (0x02244a, [0x3605]); (0x02244b, [0x5688]); (0x02244c, [0x568c]); (0x02244d, [0x5695]);
   (0x02244e, [0x569a]); (0x02244f, [0x569d]); (0x022450, [0x56a8]); (0x022451, [0x56ad]);
   (0x022452, [0x56b2]); (0x022453, [0x56c5]); (0x022454, [0x56cd]); (0x022455, [0x56df]);
   (0x022456, [0x56e8]); (0x022457, [0x56f6]); (0x022458, [0x56f7]); (0x022459, [0x21201]);
   (0x02245a, [0x5715]); (0x02245b, [0x5723]); (0x02245c, [0x21255]); (0x02245d, [0x5729]);
   (0x02245e, [0x2127b]); (0x02245f, [0x5745]); (0x022460, [0x5746]); (0x022461, [0x574c]);
   (0x022462, [0x574d]); (0x022463, [0x21274]); (0x022464, [0x5768]); (0x022465, [0x576f]);
   (0x022466, [0x5773]); (0x022467, [0x5774]); (0x022468, [0x5775]); (0x022469, [0x577b]);
   (0x02246a, [0x212e4]); (0x02246b, [0x212d7]); (0x02246c, [0x57ac]); (0x02246d, [0x579a]);
   (0x02246e, [0x579d]); (0x02246f, [0x579e]); (0x022470, [0x57a8]); (0x022471, [0x57d7]);
   (0x022472, [0x212fd]); (0x022473, [0x57cc]); (0x022474, [0x21336]); (0x022475, [0x21344]);
   (0x022476, [0x57de]); (0x022477, [0x57e6]); (0x022478, [0x57f0]); (0x022479, [0x364a]);
   (0x02247a, [0x57f8]); (0x02247b, [0x57fb]); (0x02247c, [0x57fd]); (0x02247d, [0x5804]);
   (0x02247e, [0x581e]); (0x022521, [0x5820]); (0x022522, [0x5827]); (0x022523, [0x5832]);
   (0x022524, [0x5839]); (0x022525, [0x213c4]); (0x022526, [0x5849]); (0x022527, [0x584c]);
   (0x022528, [0x5867]); (0x022529, [0x588a]); (0x02252a, [0x588b]); (0x02252b, [0x588d]);
   (0x02252c, [0x588f]); (0x02252d, [0x5890]); (0x02252e, [0x5894]); (0x02252f, [0x589d]);
   (0x022530, [0x58aa]); (0x022531, [0x58b1]); (0x022532, [0x2146d]); (0x022533, [0x58c3]);
   (0x022534, [0x58cd]); (0x022535, [0x58e2]); (0x022536, [0x58f3]); (0x022537, [0x58f4]);
   (0x022538, [0x5905]); (0x022539, [0x5906]); (0x02253a, [0x590b]); (0x02253b, [0x590d]);
   (0x02253c, [0x5914]); (0x02253d, [0x5924]); (0x02253e, [0x215d7]); (0x02253f, [0x3691]);
   (0x022540, [0x593d]); (0x022541, [0x3699]); (0x022542, [0x5946]); (0x022543, [0x3696]);
   (0x022544, [0x26c29]); (0x022545, [0x595b]); (0x022546, [0x595f]); (0x022547, [0x21647]);
   (0x022548, [0x5975]); (0x022549, [0x5976]); (0x02254a, [0x597c]); (0x02254b, [0x599f]);
   (0x02254c, [0x59ae]); (0x02254d, [0x59bc]); (0x02254e, [0x59c8]); (0x02254f, [0x59cd]);
   (0x022550, [0x59de]); (0x022551, [0x59e3]); (0x022552, [0x59e4]); (0x022553, [0x59e7]);
   (0x022554, [0x59ee]); (0x022555, [0x21706]); (0x022556, [0x21742]); (0x022557, [0x36cf]);
   (0x022558, [0x5a0c]); (0x022559, [0x5a0d]); (0x02255a, [0x5a17]); (0x02255b, [0x5a27]);
   (0x02255c, [0x5a2d]); (0x02255d, [0x5a55]); (0x02255e, [0x5a65]); (0x02255f, [0x5a7a]);
   (0x022560, [0x5a8b]); (0x022561, [0x5a9c]); (0x022562, [0x5a9f]); (0x022563, [0x5aa0]);
   (0x022564, [0x5aa2]); (0x022565, [0x5ab1]); (0x022566, [0x5ab3]); (0x022567, [0x5ab5]);
   (0x022568, [0x5aba]); (0x022569, [0x5abf]); (0x02256a, [0x5ada]); (0x02256b, [0x5adc]);
   (0x02256c, [0x5ae0]); (0x02256d, [0x5ae5]); (0x02256e, [0x5af0]); (0x02256f, [0x5aee]);
   (0x022570, [0x5af5]); (0x022571, [0x5b00]); (0x022572, [0x5b08]); (0x022573, [0x5b17]);
   (0x022574, [0x5b34]); (0x022575, [0x5b2d]); (0x022576, [0x5b4c]); (0x022577, [0x5b52]);
   (0x022578, [0x5b68]); (0x022579, [0x5b6f]); (0x02257a, [0x5b7c]); (0x02257b, [0x5b7f]);
   (0x02257c, [0x5b81]); (0x02257d, [0x5b84]); (0x02257e, [0x219c3]); (0x022821, [0x5b96]);
   (0x022822, [0x5bac]); (0x022823, [0x3761]); (0x022824, [0x5bc0]); (0x022825, [0x3762]);
   (0x022826, [0x5bce]); (0x022827, [0x5bd6]); (0x022828, [0x376c]); (0x022829, [0x376b]);
   (0x02282a, [0x5bf1]); (0x02282b, [0x5bfd]); (0x02282c, [0x3775]); (0x02282d, [0x5c03]);
   (0x02282e, [0x5c29]); (0x02282f, [0x5c30]); (0x022830, [0x21c56]); (0x022831, [0x5c5f]);
   (0x022832, [0x5c63]); (0x022833, [0x5c67]); (0x022834, [0x5c68]); (0x022835, [0x5c69]);
   (0x022836, [0x5c70]); (0x022837, [0x21d2d]); (0x022838, [0x21d45]); (0x022839, [0x5c7c]);
   (0x02283a, [0x21d78]); (0x02283b, [0x21d62]); (0x02283c, [0x5c88]); (0x02283d, [0x5c8a]);
   (0x02283e, [0x37c1]); (0x02283f, [0x21da1]); (0x022840, [0x21d9c]); (0x022841, [0x5ca0]);
   (0x022842, [0x5ca2]); (0x022843, [0x5ca6]); (0x022844, [0x5ca7]); (0x022845, [0x21d92]);
   (0x022846, [0x5cad]); (0x022847, [0x5cb5]); (0x022848, [0x21db7]); (0x022849, [0x5cc9]);
   (0x02284a, [0x21de0]); (0x02284b, [0x21e33]); (0x02284c, [0x5d06]); (0x02284d, [0x5d10]);
   (0x02284e, [0x5d2b]); (0x02284f, [0x5d1d]); (0x022850, [0x5d20]); (0x022851, [0x5d24]);
   (0x022852, [0x5d26]); (0x022853, [0x5d31]); (0x022854, [0x5d39]); (0x022855, [0x5d42]);
   (0x022856, [0x37e8]); (0x022857, [0x5d61]); (0x022858, [0x5d6a]); (0x022859, [0x37f4]);
   (0x02285a, [0x5d70]); (0x02285b, [0x21f1e]); (0x02285c, [0x37fd]); (0x02285d, [0x5d88]);
   (0x02285e, [0x3800]); (0x02285f, [0x5d92]); (0x022860, [0x5d94]); (0x022861, [0x5d97]);
   (0x022862, [0x5d99]); (0x022863, [0x5db0]); (0x022864, [0x5db2]); (0x022865, [0x5db4]);
   (0x022866, [0x21f76]); (0x022867, [0x5db9]); (0x022868, [0x5dd1]); (0x022869, [0x5dd7]);
   (0x02286a, [0x5dd8]); (0x02286b, [0x5de0]); (0x02286c, [0x21ffa]); (0x02286d, [0x5de4]);
   (0x02286e, [0x5de9]); (0x02286f, [0x382f]); (0x022870, [0x5e00]); (0x022871, [0x3836]);
   (0x022872, [0x5e12]); (0x022873, [0x5e15]); (0x022874, [0x3840]); (0x022875, [0x5e1f]);
   (0x022876, [0x5e2e]); (0x022877, [0x5e3e]); (0x022878, [0x5e49]); (0x022879, [0x385c]);
   (0x02287a, [0x5e56]); (0x02287b, [0x3861]); (0x02287c, [0x5e6b]); (0x02287d, [0x5e6c]);
   (0x02287e, [0x5e6d]); (0x022c21, [0x5e6e]); (0x022c22, [0x2217b]); (0x022c23, [0x5ea5]);
   (0x022c24, [0x5eaa]); (0x022c25, [0x5eac]); (0x022c26, [0x5eb9]); (0x022c27, [0x5ebf]);
   (0x022c28, [0x5ec6]); (0x022c29, [0x5ed2]); (0x022c2a, [0x5ed9]); (0x022c2b, [0x2231e]);
   (0x022c2c, [0x5efd]); (0x022c2d, [0x5f08]); (0x022c2e, [0x5f0e]); (0x022c2f, [0x5f1c]);
   (0x022c30, [0x223ad]); (0x022c31, [0x5f1e]); (0x022c32, [0x5f47]); (0x022c33, [0x5f63]);
   (0x022c34, [0x5f72]); (0x022c35, [0x5f7e]); (0x022c36, [0x5f8f]); (0x022c37, [0x5fa2]);
   (0x022c38, [0x5fa4]); (0x022c39, [0x5fb8]); (0x022c3a, [0x5fc4]); (0x022c3b, [0x38fa]);
   (0x022c3c, [0x5fc7]); (0x022c3d, [0x5fcb]); (0x022c3e, [0x5fd2]); (0x022c3f, [0x5fd3]);
   (0x022c40, [0x5fd4]); (0x022c41, [0x5fe2]); (0x022c42, [0x5fee]); (0x022c43, [0x5fef]);
   (0x022c44, [0x5ff3]); (0x022c45, [0x5ffc]); (0x022c46, [0x3917]); (0x022c47, [0x6017]);
   (0x022c48, [0x6022]); (0x022c49, [0x6024]); (0x022c4a, [0x391a]); (0x022c4b, [0x604c]);
   (0x022c4c, [0x607f]); (0x022c4d, [0x608a]); (0x022c4e, [0x6095]); (0x022c4f, [0x60a8]);
   (0x022c50, [0x226f3]); (0x022c51, [0x60b0]); (0x022c52, [0x60b1]); (0x022c53, [0x60be]);
   (0x022c54, [0x60c8]); (0x022c55, [0x60d9]); (0x022c56, [0x60db]); (0x022c57, [0x60ee]);
   (0x022c58, [0x60f2]); (0x022c59, [0x60f5]); (0x022c5a, [0x6110]); (0x022c5b, [0x6112]);
   (0x022c5c, [0x6113]); (0x022c5d, [0x6119]); (0x022c5e, [0x611e]); (0x022c5f, [0x613a]);
   (0x022c60, [0x396f]); (0x022c61, [0x6141]); (0x022c62, [0x6146]); (0x022c63, [0x6160]);
   (0x022c64, [0x617c]); (0x022c65, [0x2285b]); (0x022c66, [0x6192]); (0x022c67, [0x6193]);
   (0x022c68, [0x6197]); (0x022c69, [0x6198]); (0x022c6a, [0x61a5]); (0x022c6b, [0x61a8]);
   (0x022c6c, [0x61ad]); (0x022c6d, [0x228ab]); (0x022c6e, [0x61d5]); (0x022c6f, [0x61dd]);
   (0x022c70, [0x61df]); (0x022c71, [0x61f5]); (0x022c72, [0x2298f]); (0x022c73, [0x6215]);
   (0x022c74, [0x6223]); (0x022c75, [0x6229]); (0x022c76, [0x6246]); (0x022c77, [0x624c]);
   (0x022c78, [0x6251]); (0x022c79, [0x6252]); (0x022c7a, [0x6261]); (0x022c7b, [0x6264]);
   (0x022c7c, [0x627b]); (0x022c7d, [0x626d]); (0x022c7e, [0x6273]); (0x022d21, [0x6299]);
   (0x022d22, [0x62a6]); (0x022d23, [0x62d5]); (0x022d24, [0x22ab8]); (0x022d25, [0x62fd]);
   (0x022d26, [0x6303]); (0x022d27, [0x630d]); (0x022d28, [0x6310]); (0x022d29, [0x22b4f]);
   (0x022d2a, [0x22b50]); (0x022d2b, [0x6332]); (0x022d2c, [0x6335]); (0x022d2d, [0x633b]);
   (0x022d2e, [0x633c]); (0x022d2f, [0x6341]); (0x022d30, [0x6344]); (0x022d31, [0x634e]);
   (0x022d32, [0x22b46]); (0x022d33, [0x6359]); (0x022d34, [0x22c1d]); (0x022d35, [0x22ba6]);
   (0x022d36, [0x636c]); (0x022d37, [0x6384]); (0x022d38, [0x6399]); (0x022d39, [0x22c24]);
   (0x022d3a, [0x6394]); (0x022d3b, [0x63bd]); (0x022d3c, [0x63f7]); (0x022d3d, [0x63d4]);
   (0x022d3e, [0x63d5]); (0x022d3f, [0x63dc]); (0x022d40, [0x63e0]); (0x022d41, [0x63eb]);
   (0x022d42, [0x63ec]); (0x022d43, [0x63f2]); (0x022d44, [0x6409]); (0x022d45, [0x641e]);
   (0x022d46, [0x6425]); (0x022d47, [0x6429]); (0x022d48, [0x642f]); (0x022d49, [0x645a]);
   (0x022d4a, [0x645b]); (0x022d4b, [0x645d]); (0x022d4c, [0x6473]); (0x022d4d, [0x647d]);
   (0x022d4e, [0x6487]); (0x022d4f, [0x6491]); (0x022d50, [0x649d]); (0x022d51, [0x649f]);
   (0x022d52, [0x64cb]); (0x022d53, [0x64cc]); (0x022d54, [0x64d5]); (0x022d55, [0x64d7]);
   (0x022d56, [0x22de1]); (0x022d57, [0x64e4]); (0x022d58, [0x64e5]); (0x022d59, [0x64ff]);
   (0x022d5a, [0x6504]); (0x022d5b, [0x3a6e]); (0x022d5c, [0x650f]); (0x022d5d, [0x6514]);
   (0x022d5e, [0x6516]); (0x022d5f, [0x3a73]); (0x022d60, [0x651e]); (0x022d61, [0x6532]);
   (0x022d62, [0x6544]); (0x022d63, [0x6554]); (0x022d64, [0x656b]); (0x022d65, [0x657a]);
   (0x022d66, [0x6581]); (0x022d67, [0x6584]); (0x022d68, [0x6585]); (0x022d69, [0x658a]);
   (0x022d6a, [0x65b2]); (0x022d6b, [0x65b5]); (0x022d6c, [0x65b8]); (0x022d6d, [0x65bf]);
   (0x022d6e, [0x65c2]); (0x022d6f, [0x65c9]); (0x022d70, [0x65d4]); (0x022d71, [0x3ad6]);
   (0x022d72, [0x65f2]); (0x022d73, [0x65f9]); (0x022d74, [0x65fc]); (0x022d75, [0x6604]);
   (0x022d76, [0x6608]); (0x022d77, [0x6621]); (0x022d78, [0x662a]); (0x022d79, [0x6645]);
   (0x022d7a, [0x6651]); (0x022d7b, [0x664e]); (0x022d7c, [0x3aea]); (0x022d7d, [0x231c3]);
   (0x022d7e, [0x6657]); (0x022e21, [0x665b]); (0x022e22, [0x6663]); (0x022e23, [0x231f5]);
   (0x022e24, [0x231b6]); (0x022e25, [0x666a]); (0x022e26, [0x666b]); (0x022e27, [0x666c]);
   (0x022e28, [0x666d]); (0x022e29, [0x667b]); (0x022e2a, [0x6680]); (0x022e2b, [0x6690]);
   (0x022e2c, [0x6692]); (0x022e2d, [0x6699]); (0x022e2e, [0x3b0e]); (0x022e2f, [0x66ad]);
   (0x022e30, [0x66b1]); (0x022e31, [0x66b5]); (0x022e32, [0x3b1a]); (0x022e33, [0x66bf]);
   (0x022e34, [0x3b1c]); (0x022e35, [0x66ec]); (0x022e36, [0x3ad7]); (0x022e37, [0x6701]);
   (0x022e38, [0x6705]); (0x022e39, [0x6712]); (0x022e3a, [0x23372]); (0x022e3b, [0x6719]);
   (0x022e3c, [0x233d3]); (0x022e3d, [0x233d2]); (0x022e3e, [0x674c]); (0x022e3f, [0x674d]);
   (0x022e40, [0x6754]); (0x022e41, [0x675d]); (0x022e42, [0x233d0]); (0x022e43, [0x233e4]);
   (0x022e44, [0x233d5]); (0x022e45, [0x6774]); (0x022e46, [0x6776]); (0x022e47, [0x233da]);
   (0x022e48, [0x6792]); (0x022e49, [0x233df]); (0x022e4a, [0x8363]); (0x022e4b, [0x6810]);
   (0x022e4c, [0x67b0]); (0x022e4d, [0x67b2]); (0x022e4e, [0x67c3]); (0x022e4f, [0x67c8]);
   (0x022e50, [0x67d2]); (0x022e51, [0x67d9]); (0x022e52, [0x67db]); (0x022e53, [0x67f0]);
   (0x022e54, [0x67f7]); (0x022e55, [0x2344a]); (0x022e56, [0x23451]); (0x022e57, [0x2344b]);
   (0x022e58, [0x6818]); (0x022e59, [0x681f]); (0x022e5a, [0x682d]); (0x022e5b, [0x23465]);
   (0x022e5c, [0x6833]); (0x022e5d, [0x683b]); (0x022e5e, [0x683e]); (0x022e5f, [0x6844]);
   (0x022e60, [0x6845]); (0x022e61, [0x6849]); (0x022e62, [0x684c]); (0x022e63, [0x6855]);
   (0x022e64, [0x6857]); (0x022e65, [0x3b77]); (0x022e66, [0x686b]); (0x022e67, [0x686e]);
   (0x022e68, [0x687a]); (0x022e69, [0x687c]); (0x022e6a, [0x6882]); (0x022e6b, [0x6890]);
   (0x022e6c, [0x6896]); (0x022e6d, [0x3b6d]); (0x022e6e, [0x6898]); (0x022e6f, [0x6899]);
   (0x022e70, [0x689a]); (0x022e71, [0x689c]); (0x022e72, [0x68aa]); (0x022e73, [0x68ab]);
   (0x022e74, [0x68b4]); (0x022e75, [0x68bb]); (0x022e76, [0x68fb]); (0x022e77, [0x234e4]);
   (0x022e78, [0x2355a]); (0x022e79, [0xfa13]); (0x022e7a, [0x68c3]); (0x022e7b, [0x68c5]);
   (0x022e7c, [0x68cc]); (0x022e7d, [0x68cf]); (0x022e7e, [0x68d6]); (0x022f21, [0x68d9]);
   (0x022f22, [0x68e4]); (0x022f23, [0x68e5]); (0x022f24, [0x68ec]); (0x022f25, [0x68f7]);
   (0x022f26, [0x6903]); (0x022f27, [0x6907]); (0x022f28, [0x3b87]); (0x022f29, [0x3b88]);
   (0x022f2a, [0x23594]); (0x022f2b, [0x693b]); (0x022f2c, [0x3b8d]); (0x022f2d, [0x6946]);
   (0x022f2e, [0x6969]); (0x022f2f, [0x696c]); (0x022f30, [0x6972]); (0x022f31, [0x697a]);
   (0x022f32, [0x697f]); (0x022f33, [0x6992]); (0x022f34, [0x3ba4]); (0x022f35, [0x6996]);
   (0x022f36, [0x6998]); (0x022f37, [0x69a6]); (0x022f38, [0x69b0]); (0x022f39, [0x69b7]);
   (0x022f3a, [0x69ba]); (0x022f3b, [0x69bc]); (0x022f3c, [0x69c0]); (0x022f3d, [0x69d1]);
   (0x022f3e, [0x69d6]); (0x022f3f, [0x23639]); (0x022f40, [0x23647]); (0x022f41, [0x6a30]);
   (0x022f42, [0x23638]); (0x022f43, [0x2363a]); (0x022f44, [0x69e3]); (0x022f45, [0x69ee]);
   (0x022f46, [0x69ef]); (0x022f47, [0x69f3]); (0x022f48, [0x3bcd]); (0x022f49, [0x69f4]);
   (0x022f4a, [0x69fe]); (0x022f4b, [0x6a11]); (0x022f4c, [0x6a1a]); (0x022f4d, [0x6a1d]);
   (0x022f4e, [0x2371c]); (0x022f4f, [0x6a32]); (0x022f50, [0x6a33]); (0x022f51, [0x6a34]);
   (0x022f52, [0x6a3f]); (0x022f53, [0x6a46]); (0x022f54, [0x6a49]); (0x022f55, [0x6a7a]);
   (0x022f56, [0x6a4e]); (0x022f57, [0x6a52]); (0x022f58, [0x6a64]); (0x022f59, [0x2370c]);
   (0x022f5a, [0x6a7e]); (0x022f5b, [0x6a83]); (0x022f5c, [0x6a8b]); (0x022f5d, [0x3bf0]);
   (0x022f5e, [0x6a91]); (0x022f5f, [0x6a9f]); (0x022f60, [0x6aa1]); (0x022f61, [0x23764]);
   (0x022f62, [0x6aab]); (0x022f63, [0x6abd]); (0x022f64, [0x6ac6]); (0x022f65, [0x6ad4]);
   (0x022f66, [0x6ad0]); (0x022f67, [0x6adc]); (0x022f68, [0x6add]); (0x022f69, [0x237ff]);
   (0x022f6a, [0x237e7]); (0x022f6b, [0x6aec]); (0x022f6c, [0x6af1]); (0x022f6d, [0x6af2]);
   (0x022f6e, [0x6af3]); (0x022f6f, [0x6afd]); (0x022f70, [0x23824]); (0x022f71, [0x6b0b]);
   (0x022f72, [0x6b0f]); (0x022f73, [0x6b10]); (0x022f74, [0x6b11]); (0x022f75, [0x2383d]);
   (0x022f76, [0x6b17]); (0x022f77, [0x3c26]); (0x022f78, [0x6b2f]); (0x022f79, [0x6b4a]);
   (0x022f7a, [0x6b58]); (0x022f7b, [0x6b6c]); (0x022f7c, [0x6b75]); (0x022f7d, [0x6b7a]);
   (0x022f7e, [0x6b81]); (0x026e21, [0x6b9b]); (0x026e22, [0x6bae]); (0x026e23, [0x23a98]);
   (0x026e24, [0x6bbd]); (0x026e25, [0x6bbe]); (0x026e26, [0x6bc7]); (0x026e27, [0x6bc8]);
   (0x026e28, [0x6bc9]); (0x026e29, [0x6bda]); (0x026e2a, [0x6be6]); (0x026e2b, [0x6be7]);
   (0x026e2c, [0x6bee]); (0x026e2d, [0x6bf1]); (0x026e2e, [0x6c02]); (0x026e2f, [0x6c0a]);
   (0x026e30, [0x6c0e]); (0x026e31, [0x6c35]); (0x026e32, [0x6c36]); (0x026e33, [0x6c3a]);
   (0x026e34, [0x23c7f]); (0x026e35, [0x6c3f]); (0x026e36, [0x6c4d]); (0x026e37, [0x6c5b]);
   (0x026e38, [0x6c6d]); (0x026e39, [0x6c84]); (0x026e3a, [0x6c89]); (0x026e3b, [0x3cc3]);
   (0x026e3c, [0x6c94]); (0x026e3d, [0x6c95]); (0x026e3e, [0x6c97]); (0x026e3f, [0x6cad]);
   (0x026e40, [0x6cc2]); (0x026e41, [0x6cd0]); (0x026e42, [0x3cd2]); (0x026e43, [0x6cd6]);
   (0x026e44, [0x6cda]); (0x026e45, [0x6cdc]); (0x026e46, [0x6ce9]); (0x026e47, [0x6cec]);
   (0x026e48, [0x6ced]); (0x026e49, [0x23d00]); (0x026e4a, [0x6d00]); (0x026e4b, [0x6d0a]);
   (0x026e4c, [0x6d24]); (0x026e4d, [0x6d26]); (0x026e4e, [0x6d27]); (0x026e4f, [0x6c67]);
   (0x026e50, [0x6d2f]); (0x026e51, [0x6d3c]); (0x026e52, [0x6d5b]); (0x026e53, [0x6d5e]);
   (0x026e54, [0x6d60]); (0x026e55, [0x6d70]); (0x026e56, [0x6d80]); (0x026e57, [0x6d81]);
   (0x026e58, [0x6d8a]); (0x026e59, [0x6d8d]); (0x026e5a, [0x6d91]); (0x026e5b, [0x6d98]);
   (0x026e5c, [0x23d40]); (0x026e5d, [0x6e17]); (0x026e5e, [0x23dfa]); (0x026e5f, [0x23df9]);
   (0x026e60, [0x23dd3]); (0x026e61, [0x6dab]); (0x026e62, [0x6dae]); (0x026e63, [0x6db4]);
   (0x026e64, [0x6dc2]); (0x026e65, [0x6d34]); (0x026e66, [0x6dc8]); (0x026e67, [0x6dce]);
   (0x026e68, [0x6dcf]); (0x026e69, [0x6dd0]); (0x026e6a, [0x6ddf]); (0x026e6b, [0x6de9]);
   (0x026e6c, [0x6df6]); (0x026e6d, [0x6e36]); (0x026e6e, [0x6e1e]); (0x026e6f, [0x6e22]);
   (0x026e70, [0x6e27]); (0x026e71, [0x3d11]); (0x026e72, [0x6e32]); (0x026e73, [0x6e3c]);
   (0x026e74, [0x6e48]); (0x026e75, [0x6e49]); (0x026e76, [0x6e4b]); (0x026e77, [0x6e4c]);
   (0x026e78, [0x6e4f]); (0x026e79, [0x6e51]); (0x026e7a, [0x6e53]); (0x026e7b, [0x6e54]);
   (0x026e7c, [0x6e57]); (0x026e7d, [0x6e63]); (0x026e7e, [0x3d1e]); (0x026f21, [0x6e93]);
   (0x026f22, [0x6ea7]); (0x026f23, [0x6eb4]); (0x026f24, [0x6ebf]); (0x026f25, [0x6ec3]);
   (0x026f26, [0x6eca]); (0x026f27, [0x6ed9]); (0x026f28, [0x6f35]); (0x026f29, [0x6eeb]);
   (0x026f2a, [0x6ef9]); (0x026f2b, [0x6efb]); (0x026f2c, [0x6f0a]); (0x026f2d, [0x6f0c]);
   (0x026f2e, [0x6f18]); (0x026f2f, [0x6f25]); (0x026f30, [0x6f36]); (0x026f31, [0x6f3c]);
   (0x026f32, [0x23f7e]); (0x026f33, [0x6f52]); (0x026f34, [0x6f57]); (0x026f35, [0x6f5a]);
   (0x026f36, [0x6f60]); (0x026f37, [0x6f68]); (0x026f38, [0x6f98]); (0x026f39, [0x6f7d]);
   (0x026f3a, [0x6f90]); (0x026f3b, [0x6f96]); (0x026f3c, [0x6fbe]); (0x026f3d, [0x6f9f]);
   (0x026f3e, [0x6fa5]); (0x026f3f, [0x6faf]); (0x026f40, [0x3d64]); (0x026f41, [0x6fb5]);
   (0x026f42, [0x6fc8]); (0x026f43, [0x6fc9]); (0x026f44, [0x6fda]); (0x026f45, [0x6fde]);
   (0x026f46, [0x6fe9]); (0x026f47, [0x24096]); (0x026f48, [0x6ffc]); (0x026f49, [0x7000]);
   (0x026f4a, [0x7007]); (0x026f4b, [0x700a]); (0x026f4c, [0x7023]); (0x026f4d, [0x24103]);
   (0x026f4e, [0x7039]); (0x026f4f, [0x703a]); (0x026f50, [0x703c]); (0x026f51, [0x7043]);
   (0x026f52, [0x7047]); (0x026f53, [0x704b]); (0x026f54, [0x3d9a]); (0x026f55, [0x7054]);
   (0x026f56, [0x7065]); (0x026f57, [0x7069]); (0x026f58, [0x706c]); (0x026f59, [0x706e]);
   (0x026f5a, [0x7076]); (0x026f5b, [0x707e]); (0x026f5c, [0x7081]); (0x026f5d, [0x7086]);
   (0x026f5e, [0x7095]); (0x026f5f, [0x7097]); (0x026f60, [0x70bb]); (0x026f61, [0x241c6]);
   (0x026f62, [0x709f]); (0x026f63, [0x70b1]); (0x026f64, [0x241fe]); (0x026f65, [0x70ec]);
   (0x026f66, [0x70ca]); (0x026f67, [0x70d1]); (0x026f68, [0x70d3]); (0x026f69, [0x70dc]);
   (0x026f6a, [0x7103]); (0x026f6b, [0x7104]); (0x026f6c, [0x7106]); (0x026f6d, [0x7107]);
   (0x026f6e, [0x7108]); (0x026f6f, [0x710c]); (0x026f70, [0x3dc0]); (0x026f71, [0x712f]);
   (0x026f72, [0x7131]); (0x026f73, [0x7150]); (0x026f74, [0x714a]); (0x026f75, [0x7153]);
   (0x026f76, [0x715e]); (0x026f77, [0x3dd4]); (0x026f78, [0x7196]); (0x026f79, [0x7180]);
   (0x026f7a, [0x719b]); (0x026f7b, [0x71a0]); (0x026f7c, [0x71a2]); (0x026f7d, [0x71ae]);
   (0x026f7e, [0x71af]); (0x027021, [0x71b3]); (0x027022, [0x243bc]); (0x027023, [0x71cb]);
   (0x027024, [0x71d3]); (0x027025, [0x71d9]); (0x027026, [0x71dc]); (0x027027, [0x7207]);
   (0x027028, [0x3e05]); (0x027029, [0xfa49]); (0x02702a, [0x722b]); (0x02702b, [0x7234]);
   (0x02702c, [0x7238]); (0x02702d, [0x7239]); (0x02702e, [0x4e2c]); (0x02702f, [0x7242]);
   (0x027030, [0x7253]); (0x027031, [0x7257]); (0x027032, [0x7263]); (0x027033, [0x24629]);
   (0x027034, [0x726e]); (0x027035, [0x726f]); (0x027036, [0x7278]); (0x027037, [0x727f]);
   (0x027038, [0x728e]); (0x027039, [0x246a5]); (0x02703a, [0x72ad]); (0x02703b, [0x72ae]);
   (0x02703c, [0x72b0]); (0x02703d, [0x72b1]); (0x02703e, [0x72c1]); (0x02703f, [0x3e60]);
   (0x027040, [0x72cc]); (0x027041, [0x3e66]); (0x027042, [0x3e68]); (0x027043, [0x72f3]);
   (0x027044, [0x72fa]); (0x027045, [0x7307]); (0x027046, [0x7312]); (0x027047, [0x7318]);
   (0x027048, [0x7319]); (0x027049, [0x3e83]); (0x02704a, [0x7339]); (0x02704b, [0x732c]);
   (0x02704c, [0x7331]); (0x02704d, [0x7333]); (0x02704e, [0x733d]); (0x02704f, [0x7352]);
   (0x027050, [0x3e94]); (0x027051, [0x736b]); (0x027052, [0x736c]); (0x027053, [0x24896]);
   (0x027054, [0x736e]); (0x027055, [0x736f]); (0x027056, [0x7371]); (0x027057, [0x7377]);
   (0x027058, [0x7381]); (0x027059, [0x7385]); (0x02705a, [0x738a]); (0x02705b, [0x7394]);
   (0x02705c, [0x7398]); (0x02705d, [0x739c]); (0x02705e, [0x739e]); (0x02705f, [0x73a5]);
   (0x027060, [0x73a8]); (0x027061, [0x73b5]); (0x027062, [0x73b7]); (0x027063, [0x73b9]);
   (0x027064, [0x73bc]); (0x027065, [0x73bf]); (0x027066, [0x73c5]); (0x027067, [0x73cb]);
   (0x027068, [0x73e1]); (0x027069, [0x73e7]); (0x02706a, [0x73f9]); (0x02706b, [0x7413]);
   (0x02706c, [0x73fa]); (0x02706d, [0x7401]); (0x02706e, [0x7424]); (0x02706f, [0x7431]);
   (0x027070, [0x7439]); (0x027071, [0x7453]); (0x027072, [0x7440]); (0x027073, [0x7443]);
   (0x027074, [0x744d]); (0x027075, [0x7452]); (0x027076, [0x745d]); (0x027077, [0x7471]);
   (0x027078, [0x7481]); (0x027079, [0x7485]); (0x02707a, [0x7488]); (0x02707b, [0x24a4d]);
   (0x02707c, [0x7492]); (0x02707d, [0x7497]); (0x02707e, [0x7499]); (0x027121, [0x74a0]);
   (0x027122, [0x74a1]); (0x027123, [0x74a5]); (0x027124, [0x74aa]); (0x027125, [0x74ab]);
   (0x027126, [0x74b9]); (0x027127, [0x74bb]); (0x027128, [0x74ba]); (0x027129, [0x74d6]);
   (0x02712a, [0x74d8]); (0x02712b, [0x74de]); (0x02712c, [0x74ef]); (0x02712d, [0x74eb]);
   (0x02712e, [0x24b56]); (0x02712f, [0x74fa]); (0x027130, [0x24b6f]); (0x027131, [0x7520]);
   (0x027132, [0x7524]); (0x027133, [0x752a]); (0x027134, [0x3f57]); (0x027135, [0x24c16]);
   (0x027136, [0x753d]); (0x027137, [0x753e]); (0x027138, [0x7540]); (0x027139, [0x7548]);
   (0x02713a, [0x754e]); (0x02713b, [0x7550]); (0x02713c, [0x7552]); (0x02713d, [0x756c]);
   (0x02713e, [0x7572]); (0x02713f, [0x7571]); (0x027140, [0x757a]); (0x027141, [0x757d]);
   (0x027142, [0x757e]); (0x027143, [0x7581]); (0x027144, [0x24d14]); (0x027145, [0x758c]);
   (0x027146, [0x3f75]); (0x027147, [0x75a2]); (0x027148, [0x3f77]); (0x027149, [0x75b0]);
   (0x02714a, [0x75b7]); (0x02714b, [0x75bf]); (0x02714c, [0x75c0]); (0x02714d, [0x75c6]);
   (0x02714e, [0x75cf]); (0x02714f, [0x75d3]); (0x027150, [0x75dd]); (0x027151, [0x75df]);
   (0x027152, [0x75e0]); (0x027153, [0x75e7]); (0x027154, [0x75ec]); (0x027155, [0x75ee]);
   (0x027156, [0x75f1]); (0x027157, [0x75f9]); (0x027158, [0x7603]); (0x027159, [0x7618]);
   (0x02715a, [0x7607]); (0x02715b, [0x760f]); (0x02715c, [0x3fae]); (0x02715d, [0x24e0e]);
   (0x02715e, [0x7613]); (0x02715f, [0x761b]); (0x027160, [0x761c]); (0x027161, [0x24e37]);
   (0x027162, [0x7625]); (0x027163, [0x7628]); (0x027164, [0x763c]); (0x027165, [0x7633]);
   (0x027166, [0x24e6a]); (0x027167, [0x3fc9]); (0x027168, [0x7641]); (0x027169, [0x24e8b]);
   (0x02716a, [0x7649]); (0x02716b, [0x7655]); (0x02716c, [0x3fd7]); (0x02716d, [0x766e]);
   (0x02716e, [0x7695]); (0x02716f, [0x769c]); (0x027170, [0x76a1]); (0x027171, [0x76a0]);
   (0x027172, [0x76a7]); (0x027173, [0x76a8]); (0x027174, [0x76af]); (0x027175, [0x2504a]);
   (0x027176, [0x76c9]); (0x027177, [0x25055]); (0x027178, [0x76e8]); (0x027179, [0x76ec]);
   (0x02717a, [0x25122]); (0x02717b, [0x7717]); (0x02717c, [0x771a]); (0x02717d, [0x772d]);
   (0x02717e, [0x7735]); (0x027221, [0x251a9]); (0x027222, [0x4039]); (0x027223, [0x251e5]);
   (0x027224, [0x251cd]); (0x027225, [0x7758]); (0x027226, [0x7760]); (0x027227, [0x776a]);
   (0x027228, [0x2521e]); (0x027229, [0x7772]); (0x02722a, [0x777c]); (0x02722b, [0x777d]);
   (0x02722c, [0x2524c]); (0x02722d, [0x4058]); (0x02722e, [0x779a]); (0x02722f, [0x779f]);
   (0x027230, [0x77a2]); (0x027231, [0x77a4]); (0x027232, [0x77a9]); (0x027233, [0x77de]);
   (0x027234, [0x77df]); (0x027235, [0x77e4]); (0x027236, [0x77e6]); (0x027237, [0x77ea]);
   (0x027238, [0x77ec]); (0x027239, [0x4093]); (0x02723a, [0x77f0]); (0x02723b, [0x77f4]);
   (0x02723c, [0x77fb]); (0x02723d, [0x2542e]); (0x02723e, [0x7805]); (0x02723f, [0x7806]);
   (0x027240, [0x7809]); (0x027241, [0x780d]); (0x027242, [0x7819]); (0x027243, [0x7821]);
   (0x027244, [0x782c]); (0x027245, [0x7847]); (0x027246, [0x7864]); (0x027247, [0x786a]);
   (0x027248, [0x254d9]); (0x027249, [0x788a]); (0x02724a, [0x7894]); (0x02724b, [0x78a4]);
   (0x02724c, [0x789d]); (0x02724d, [0x789e]); (0x02724e, [0x789f]); (0x02724f, [0x78bb]);
   (0x027250, [0x78c8]); (0x027251, [0x78cc]); (0x027252, [0x78ce]); (0x027253, [0x78d5]);
   (0x027254, [0x78e0]); (0x027255, [0x78e1]); (0x027256, [0x78e6]); (0x027257, [0x78f9]);
   (0x027258, [0x78fa]); (0x027259, [0x78fb]); (0x02725a, [0x78fe]); (0x02725b, [0x255a7]);
   (0x02725c, [0x7910]); (0x02725d, [0x791b]); (0x02725e, [0x7930]); (0x02725f, [0x7925]);
   (0x027260, [0x793b]); (0x027261, [0x794a]); (0x027262, [0x7958]); (0x027263, [0x795b]);
   (0x027264, [0x4105]); (0x027265, [0x7967]); (0x027266, [0x7972]); (0x027267, [0x7994]);
   (0x027268, [0x7995]); (0x027269, [0x7996]); (0x02726a, [0x799b]); (0x02726b, [0x79a1]);
   (0x02726c, [0x79a9]); (0x02726d, [0x79b4]); (0x02726e, [0x79bb]); (0x02726f, [0x79c2]);
   (0x027270, [0x79c7]); (0x027271, [0x79cc]); (0x027272, [0x79cd]); (0x027273, [0x79d6]);
   (0x027274, [0x4148]); (0x027275, [0x257a9]); (0x027276, [0x257b4]); (0x027277, [0x414f]);
   (0x027278, [0x7a0a]); (0x027279, [0x7a11]); (0x02727a, [0x7a15]); (0x02727b, [0x7a1b]);
   (0x02727c, [0x7a1e]); (0x02727d, [0x4163]); (0x02727e, [0x7a2d]); (0x027321, [0x7a38]);
   (0x027322, [0x7a47]); (0x027323, [0x7a4c]); (0x027324, [0x7a56]); (0x027325, [0x7a59]);
   (0x027326, [0x7a5c]); (0x027327, [0x7a5f]); (0x027328, [0x7a60]); (0x027329, [0x7a67]);
   (0x02732a, [0x7a6a]); (0x02732b, [0x7a75]); (0x02732c, [0x7a78]); (0x02732d, [0x7a82]);
   (0x02732e, [0x7a8a]); (0x02732f, [0x7a90]); (0x027330, [0x7aa3]); (0x027331, [0x7aac]);
   (0x027332, [0x259d4]); (0x027333, [0x41b4]); (0x027334, [0x7ab9]); (0x027335, [0x7abc]);
   (0x027336, [0x7abe]); (0x027337, [0x41bf]); (0x027338, [0x7acc]); (0x027339, [0x7ad1]);
   (0x02733a, [0x7ae7]); (0x02733b, [0x7ae8]); (0x02733c, [0x7af4]); (0x02733d, [0x25ae4]);
   (0x02733e, [0x25ae3]); (0x02733f, [0x7b07]); (0x027340, [0x25af1]); (0x027341, [0x7b3d]);
   (0x027342, [0x7b27]); (0x027343, [0x7b2a]); (0x027344, [0x7b2e]); (0x027345, [0x7b2f]);
   (0x027346, [0x7b31]); (0x027347, [0x41e6]); (0x027348, [0x41f3]); (0x027349, [0x7b7f]);
   (0x02734a, [0x7b41]); (0x02734b, [0x41ee]); (0x02734c, [0x7b55]); (0x02734d, [0x7b79]);
   (0x02734e, [0x7b64]); (0x02734f, [0x7b66]); (0x027350, [0x7b69]); (0x027351, [0x7b73]);
   (0x027352, [0x25bb2]); (0x027353, [0x4207]); (0x027354, [0x7b90]); (0x027355, [0x7b91]);
   (0x027356, [0x7b9b]); (0x027357, [0x420e]); (0x027358, [0x7baf]); (0x027359, [0x7bb5]);
   (0x02735a, [0x7bbc]); (0x02735b, [0x7bc5]); (0x02735c, [0x7bca]); (0x02735d, [0x25c4b]);
   (0x02735e, [0x25c64]); (0x02735f, [0x7bd4]); (0x027360, [0x7bd6]); (0x027361, [0x7bda]);
   (0x027362, [0x7bea]); (0x027363, [0x7bf0]); (0x027364, [0x7c03]); (0x027365, [0x7c0b]);
   (0x027366, [0x7c0e]); (0x027367, [0x7c0f]); (0x027368, [0x7c26]); (0x027369, [0x7c45]);
   (0x02736a, [0x7c4a]); (0x02736b, [0x7c51]); (0x02736c, [0x7c57]); (0x02736d, [0x7c5e]);
   (0x02736e, [0x7c61]); (0x02736f, [0x7c69]); (0x027370, [0x7c6e]); (0x027371, [0x7c6f]);
   (0x027372, [0x7c70]); (0x027373, [0x25e2e]); (0x027374, [0x25e56]); (0x027375, [0x25e65]);
   (0x027376, [0x7ca6]); (0x027377, [0x25e62]); (0x027378, [0x7cb6]); (0x027379, [0x7cb7]);
   (0x02737a, [0x7cbf]); (0x02737b, [0x25ed8]); (0x02737c, [0x7cc4]); (0x02737d, [0x25ec2]);
   (0x02737e, [0x7cc8]); (0x027421, [0x7ccd]); (0x027422, [0x25ee8]); (0x027423, [0x7cd7]);
   (0x027424, [0x25f23]); (0x027425, [0x7ce6]); (0x027426, [0x7ceb]); (0x027427, [0x25f5c]);
   (0x027428, [0x7cf5]); (0x027429, [0x7d03]); (0x02742a, [0x7d09]); (0x02742b, [0x42c6]);
   (0x02742c, [0x7d12]); (0x02742d, [0x7d1e]); (0x02742e, [0x25fe0]); (0x02742f, [0x25fd4]);
   (0x027430, [0x7d3d]); (0x027431, [0x7d3e]); (0x027432, [0x7d40]); (0x027433, [0x7d47]);
   (0x027434, [0x2600c]); (0x027435, [0x25ffb]); (0x027436, [0x42d6]); (0x027437, [0x7d59]);
   (0x027438, [0x7d5a]); (0x027439, [0x7d6a]); (0x02743a, [0x7d70]); (0x02743b, [0x42dd]);
   (0x02743c, [0x7d7f]); (0x02743d, [0x26017]); (0x02743e, [0x7d86]); (0x02743f, [0x7d88]);
   (0x027440, [0x7d8c]); (0x027441, [0x7d97]); (0x027442, [0x26060]); (0x027443, [0x7d9d]);
   (0x027444, [0x7da7]); (0x027445, [0x7daa]); (0x027446, [0x7db6]); (0x027447, [0x7db7]);
   (0x027448, [0x7dc0]); (0x027449, [0x7dd7]); (0x02744a, [0x7dd9]); (0x02744b, [0x7de6]);
   (0x02744c, [0x7df1]); (0x02744d, [0x7df9]); (0x02744e, [0x4302]); (0x02744f, [0x260ed]);
   (0x027450, [0xfa58]); (0x027451, [0x7e10]); (0x027452, [0x7e17]); (0x027453, [0x7e1d]);
   (0x027454, [0x7e20]); (0x027455, [0x7e27]); (0x027456, [0x7e2c]); (0x027457, [0x7e45]);
   (0x027458, [0x7e73]); (0x027459, [0x7e75]); (0x02745a, [0x7e7e]); (0x02745b, [0x7e86]);
   (0x02745c, [0x7e87]); (0x02745d, [0x432b]); (0x02745e, [0x7e91]); (0x02745f, [0x7e98]);
   (0x027460, [0x7e9a]); (0x027461, [0x4343]); (0x027462, [0x7f3c]); (0x027463, [0x7f3b]);
   (0x027464, [0x7f3e]); (0x027465, [0x7f43]); (0x027466, [0x7f44]); (0x027467, [0x7f4f]);
   (0x027468, [0x34c1]); (0x027469, [0x26270]); (0x02746a, [0x7f52]); (0x02746b, [0x26286]);
   (0x02746c, [0x7f61]); (0x02746d, [0x7f63]); (0x02746e, [0x7f64]); (0x02746f, [0x7f6d]);
   (0x027470, [0x7f7d]); (0x027471, [0x7f7e]); (0x027472, [0x2634c]); (0x027473, [0x7f90]);
   (0x027474, [0x517b]); (0x027475, [0x23d0e]); (0x027476, [0x7f96]); (0x027477, [0x7f9c]);
   (0x027478, [0x7fad]); (0x027479, [0x26402]); (0x02747a, [0x7fc3]); (0x02747b, [0x7fcf]);
   (0x02747c, [0x7fe3]); (0x02747d, [0x7fe5]); (0x02747e, [0x7fef]); (0x027521, [0x7ff2]);
   (0x027522, [0x8002]); (0x027523, [0x800a]); (0x027524, [0x8008]); (0x027525, [0x800e]);
   (0x027526, [0x8011]); (0x027527, [0x8016]); (0x027528, [0x8024]); (0x027529, [0x802c]);
   (0x02752a, [0x8030]); (0x02752b, [0x8043]); (0x02752c, [0x8066]); (0x02752d, [0x8071]);
   (0x02752e, [0x8075]); (0x02752f, [0x807b]); (0x027530, [0x8099]); (0x027531, [0x809c]);
   (0x027532, [0x80a4]); (0x027533, [0x80a7]); (0x027534, [0x80b8]); (0x027535, [0x2667e]);
   (0x027536, [0x80c5]); (0x027537, [0x80d5]); (0x027538, [0x80d8]); (0x027539, [0x80e6]);
   (0x02753a, [0x266b0]); (0x02753b, [0x810d]); (0x02753c, [0x80f5]); (0x02753d, [0x80fb]);
   (0x02753e, [0x43ee]); (0x02753f, [0x8135]); (0x027540, [0x8116]); (0x027541, [0x811e]);
   (0x027542, [0x43f0]); (0x027543, [0x8124]); (0x027544, [0x8127]); (0x027545, [0x812c]);
   (0x027546, [0x2671d]); (0x027547, [0x813d]); (0x027548, [0x4408]); (0x027549, [0x8169]);
   (0x02754a, [0x4417]); (0x02754b, [0x8181]); (0x02754c, [0x441c]); (0x02754d, [0x8184]);
   (0x02754e, [0x8185]); (0x02754f, [0x4422]); (0x027550, [0x8198]); (0x027551, [0x81b2]);
   (0x027552, [0x81c1]); (0x027553, [0x81c3]); (0x027554, [0x81d6]); (0x027555, [0x81db]);
   (0x027556, [0x268dd]); (0x027557, [0x81e4]); (0x027558, [0x268ea]); (0x027559, [0x81ec]);
   (0x02755a, [0x26951]); (0x02755b, [0x81fd]); (0x02755c, [0x81ff]); (0x02755d, [0x2696f]);
   (0x02755e, [0x8204]); (0x02755f, [0x269dd]); (0x027560, [0x8219]); (0x027561, [0x8221]);
   (0x027562, [0x8222]); (0x027563, [0x26a1e]); (0x027564, [0x8232]); (0x027565, [0x8234]);
   (0x027566, [0x823c]); (0x027567, [0x8246]); (0x027568, [0x8249]); (0x027569, [0x8245]);
   (0x02756a, [0x26a58]); (0x02756b, [0x824b]); (0x02756c, [0x4476]); (0x02756d, [0x824f]);
   (0x02756e, [0x447a]); (0x02756f, [0x8257]); (0x027570, [0x26a8c]); (0x027571, [0x825c]);
   (0x027572, [0x8263]); (0x027573, [0x26ab7]); (0x027574, [0xfa5d]); (0x027575, [0xfa5e]);
   (0x027576, [0x8279]); (0x027577, [0x4491]); (0x027578, [0x827d]); (0x027579, [0x827f]);
   (0x02757a, [0x8283]); (0x02757b, [0x828a]); (0x02757c, [0x8293]); (0x02757d, [0x82a7]);
   (0x02757e, [0x82a8]); (0x027621, [0x82b2]); (0x027622, [0x82b4]); (0x027623, [0x82ba]);
   (0x027624, [0x82bc]); (0x027625, [0x82e2]); (0x027626, [0x82e8]); (0x027627, [0x82f7]);
   (0x027628, [0x8307]); (0x027629, [0x8308]); (0x02762a, [0x830c]); (0x02762b, [0x8354]);
   (0x02762c, [0x831b]); (0x02762d, [0x831d]); (0x02762e, [0x8330]); (0x02762f, [0x833c]);
   (0x027630, [0x8344]); (0x027631, [0x8357]); (0x027632, [0x44be]); (0x027633, [0x837f]);
   (0x027634, [0x44d4]); (0x027635, [0x44b3]); (0x027636, [0x838d]); (0x027637, [0x8394]);
   (0x027638, [0x8395]); (0x027639, [0x839b]); (0x02763a, [0x839d]); (0x02763b, [0x83c9]);
   (0x02763c, [0x83d0]); (0x02763d, [0x83d4]); (0x02763e, [0x83dd]); (0x02763f, [0x83e5]);
   (0x027640, [0x83f9]); (0x027641, [0x840f]); (0x027642, [0x8411]); (0x027643, [0x8415]);
   (0x027644, [0x26c73]); (0x027645, [0x8417]); (0x027646, [0x8439]); (0x027647, [0x844a]);
   (0x027648, [0x844f]); (0x027649, [0x8451]); (0x02764a, [0x8452]); (0x02764b, [0x8459]);
   (0x02764c, [0x845a]); (0x02764d, [0x845c]); (0x02764e, [0x26cdd]); (0x02764f, [0x8465]);
   (0x027650, [0x8476]); (0x027651, [0x8478]); (0x027652, [0x847c]); (0x027653, [0x8481]);
   (0x027654, [0x450d]); (0x027655, [0x84dc]); (0x027656, [0x8497]); (0x027657, [0x84a6]);
   (0x027658, [0x84be]); (0x027659, [0x4508]); (0x02765a, [0x84ce]); (0x02765b, [0x84cf]);
   (0x02765c, [0x84d3]); (0x02765d, [0x26e65]); (0x02765e, [0x84e7]); (0x02765f, [0x84ea]);
   (0x027660, [0x84ef]); (0x027661, [0x84f0]); (0x027662, [0x84f1]); (0x027663, [0x84fa]);
   (0x027664, [0x84fd]); (0x027665, [0x850c]); (0x027666, [0x851b]); (0x027667, [0x8524]);
   (0x027668, [0x8525]); (0x027669, [0x852b]); (0x02766a, [0x8534]); (0x02766b, [0x854f]);
   (0x02766c, [0x856f]); (0x02766d, [0x4525]); (0x02766e, [0x4543]); (0x02766f, [0x853e]);
   (0x027670, [0x8551]); (0x027671, [0x8553]); (0x027672, [0x855e]); (0x027673, [0x8561]);
   (0x027674, [0x8562]); (0x027675, [0x26f94]); (0x027676, [0x857b]); (0x027677, [0x857d]);
   (0x027678, [0x857f]); (0x027679, [0x8581]); (0x02767a, [0x8586]); (0x02767b, [0x8593]);
   (0x02767c, [0x859d]); (0x02767d, [0x859f]); (0x02767e, [0x26ff8]); (0x027721, [0x26ff6]);
   (0x027722, [0x26ff7]); (0x027723, [0x85b7]); (0x027724, [0x85bc]); (0x027725, [0x85c7]);
   (0x027726, [0x85ca]); (0x027727, [0x85d8]); (0x027728, [0x85d9]); (0x027729, [0x85df]);
   (0x02772a, [0x85e1]); (0x02772b, [0x85e6]); (0x02772c, [0x85f6]); (0x02772d, [0x8600]);
   (0x02772e, [0x8611]); (0x02772f, [0x861e]); (0x027730, [0x8621]); (0x027731, [0x8624]);
   (0x027732, [0x8627]); (0x027733, [0x2710d]); (0x027734, [0x8639]); (0x027735, [0x863c]);
   (0x027736, [0x27139]); (0x027737, [0x8640]); (0x027738, [0xfa20]); (0x027739, [0x8653]);
   (0x02773a, [0x8656]); (0x02773b, [0x866f]); (0x02773c, [0x8677]); (0x02773d, [0x867a]);
   (0x02773e, [0x8687]); (0x02773f, [0x8689]); (0x027740, [0x868d]); (0x027741, [0x8691]);
   (0x027742, [0x869c]); (0x027743, [0x869d]); (0x027744, [0x86a8]); (0x027745, [0xfa21]);
   (0x027746, [0x86b1]); (0x027747, [0x86b3]); (0x027748, [0x86c1]); (0x027749, [0x86c3]);
   (0x02774a, [0x86d1]); (0x02774b, [0x86d5]); (0x02774c, [0x86d7]); (0x02774d, [0x86e3]);
   (0x02774e, [0x86e6]); (0x02774f, [0x45b8]); (0x027750, [0x8705]); (0x027751, [0x8707]);
   (0x027752, [0x870e]); (0x027753, [0x8710]); (0x027754, [0x8713]); (0x027755, [0x8719]);
   (0x027756, [0x871f]); (0x027757, [0x8721]); (0x027758, [0x8723]); (0x027759, [0x8731]);
   (0x02775a, [0x873a]); (0x02775b, [0x873e]); (0x02775c, [0x8740]); (0x02775d, [0x8743]);
   (0x02775e, [0x8751]); (0x02775f, [0x8758]); (0x027760, [0x8764]); (0x027761, [0x8765]);
   (0x027762, [0x8772]); (0x027763, [0x877c]); (0x027764, [0x273db]); (0x027765, [0x273da]);
   (0x027766, [0x87a7]); (0x027767, [0x8789]); (0x027768, [0x878b]); (0x027769, [0x8793]);
   (0x02776a, [0x87a0]); (0x02776b, [0x273fe]); (0x02776c, [0x45e5]); (0x02776d, [0x87be]);
   (0x02776e, [0x27410]); (0x02776f, [0x87c1]); (0x027770, [0x87ce]); (0x027771, [0x87f5]);
   (0x027772, [0x87df]); (0x027773, [0x27449]); (0x027774, [0x87e3]); (0x027775, [0x87e5]);
   (0x027776, [0x87e6]); (0x027777, [0x87ea]); (0x027778, [0x87eb]); (0x027779, [0x87ed]);
   (0x02777a, [0x8801]); (0x02777b, [0x8803]); (0x02777c, [0x880b]); (0x02777d, [0x8813]);
   (0x02777e, [0x8828]); (0x027821, [0x882e]); (0x027822, [0x8832]); (0x027823, [0x883c]);
   (0x027824, [0x460f]); (0x027825, [0x884a]); (0x027826, [0x8858]); (0x027827, [0x885f]);
   (0x027828, [0x8864]); (0x027829, [0x27615]); (0x02782a, [0x27614]); (0x02782b, [0x8869]);
   (0x02782c, [0x27631]); (0x02782d, [0x886f]); (0x02782e, [0x88a0]); (0x02782f, [0x88bc]);
   (0x027830, [0x88bd]); (0x027831, [0x88be]); (0x027832, [0x88c0]); (0x027833, [0x88d2]);
   (0x027834, [0x27693]); (0x027835, [0x88d1]); (0x027836, [0x88d3]); (0x027837, [0x88db]);
   (0x027838, [0x88f0]); (0x027839, [0x88f1]); (0x02783a, [0x4641]); (0x02783b, [0x8901]);
   (0x02783c, [0x2770e]); (0x02783d, [0x8937]); (0x02783e, [0x27723]); (0x02783f, [0x8942]);
   (0x027840, [0x8945]); (0x027841, [0x8949]); (0x027842, [0x27752]); (0x027843, [0x4665]);
   (0x027844, [0x8962]); (0x027845, [0x8980]); (0x027846, [0x8989]); (0x027847, [0x8990]);
   (0x027848, [0x899f]); (0x027849, [0x89b0]); (0x02784a, [0x89b7]); (0x02784b, [0x89d6]);
   (0x02784c, [0x89d8]); (0x02784d, [0x89eb]); (0x02784e, [0x46a1]); (0x02784f, [0x89f1]);
   (0x027850, [0x89f3]); (0x027851, [0x89fd]); (0x027852, [0x89ff]); (0x027853, [0x46af]);
   (0x027854, [0x8a11]); (0x027855, [0x8a14]); (0x027856, [0x27985]); (0x027857, [0x8a21]);
   (0x027858, [0x8a35]); (0x027859, [0x8a3e]); (0x02785a, [0x8a45]); (0x02785b, [0x8a4d]);
   (0x02785c, [0x8a58]); (0x02785d, [0x8aae]); (0x02785e, [0x8a90]); (0x02785f, [0x8ab7]);
   (0x027860, [0x8abe]); (0x027861, [0x8ad7]); (0x027862, [0x8afc]); (0x027863, [0x27a84]);
   (0x027864, [0x8b0a]); (0x027865, [0x8b05]); (0x027866, [0x8b0d]); (0x027867, [0x8b1c]);
   (0x027868, [0x8b1f]); (0x027869, [0x8b2d]); (0x02786a, [0x8b43]); (0x02786b, [0x470c]);
   (0x02786c, [0x8b51]); (0x02786d, [0x8b5e]); (0x02786e, [0x8b76]); (0x02786f, [0x8b7f]);
   (0x027870, [0x8b81]); (0x027871, [0x8b8b]); (0x027872, [0x8b94]); (0x027873, [0x8b95]);
   (0x027874, [0x8b9c]); (0x027875, [0x8b9e]); (0x027876, [0x8c39]); (0x027877, [0x27bb3]);
   (0x027878, [0x8c3d]); (0x027879, [0x27bbe]); (0x02787a, [0x27bc7]); (0x02787b, [0x8c45]);
   (0x02787c, [0x8c47]); (0x02787d, [0x8c4f]); (0x02787e, [0x8c54]); (0x027921, [0x8c57]);
   (0x027922, [0x8c69]); (0x027923, [0x8c6d]); (0x027924, [0x8c73]); (0x027925, [0x27cb8]);
   (0x027926, [0x8c93]); (0x027927, [0x8c92]); (0x027928, [0x8c99]); (0x027929, [0x4764]);
   (0x02792a, [0x8c9b]); (0x02792b, [0x8ca4]); (0x02792c, [0x8cd6]); (0x02792d, [0x8cd5]);
   (0x02792e, [0x8cd9]); (0x02792f, [0x27da0]); (0x027930, [0x8cf0]); (0x027931, [0x8cf1]);
   (0x027932, [0x27e10]); (0x027933, [0x8d09]); (0x027934, [0x8d0e]); (0x027935, [0x8d6c]);
   (0x027936, [0x8d84]); (0x027937, [0x8d95]); (0x027938, [0x8da6]); (0x027939, [0x27fb7]);
   (0x02793a, [0x8dc6]); (0x02793b, [0x8dc8]); (0x02793c, [0x8dd9]); (0x02793d, [0x8dec]);
   (0x02793e, [0x8e0c]); (0x02793f, [0x47fd]); (0x027940, [0x8dfd]); (0x027941, [0x8e06]);
   (0x027942, [0x2808a]); (0x027943, [0x8e14]); (0x027944, [0x8e16]); (0x027945, [0x8e21]);
   (0x027946, [0x8e22]); (0x027947, [0x8e27]); (0x027948, [0x280bb]); (0x027949, [0x4816]);
   (0x02794a, [0x8e36]); (0x02794b, [0x8e39]); (0x02794c, [0x8e4b]); (0x02794d, [0x8e54]);
   (0x02794e, [0x8e62]); (0x02794f, [0x8e6c]); (0x027950, [0x8e6d]); (0x027951, [0x8e6f]);
   (0x027952, [0x8e98]); (0x027953, [0x8e9e]); (0x027954, [0x8eae]); (0x027955, [0x8eb3]);
   (0x027956, [0x8eb5]); (0x027957, [0x8eb6]); (0x027958, [0x8ebb]); (0x027959, [0x28282]);
   (0x02795a, [0x8ed1]); (0x02795b, [0x8ed4]); (0x02795c, [0x484e]); (0x02795d, [0x8ef9]);
   (0x02795e, [0x282f3]); (0x02795f, [0x8f00]); (0x027960, [0x8f08]); (0x027961, [0x8f17]);
   (0x027962, [0x8f2b]); (0x027963, [0x8f40]); (0x027964, [0x8f4a]); (0x027965, [0x8f58]);
   (0x027966, [0x2840c]); (0x027967, [0x8fa4]); (0x027968, [0x8fb4]); (0x027969, [0xfa66]);
   (0x02796a, [0x8fb6]); (0x02796b, [0x28455]); (0x02796c, [0x8fc1]); (0x02796d, [0x8fc6]);
   (0x02796e, [0xfa24]); (0x02796f, [0x8fca]); (0x027970, [0x8fcd]); (0x027971, [0x8fd3]);
   (0x027972, [0x8fd5]); (0x027973, [0x8fe0]); (0x027974, [0x8ff1]); (0x027975, [0x8ff5]);
   (0x027976, [0x8ffb]); (0x027977, [0x9002]); (0x027978, [0x900c]); (0x027979, [0x9037]);
   (0x02797a, [0x2856b]); (0x02797b, [0x9043]); (0x02797c, [0x9044]); (0x02797d, [0x905d]);
   (0x02797e, [0x285c8]); (0x027a21, [0x285c9]); (0x027a22, [0x9085]); (0x027a23, [0x908c]);
   (0x027a24, [0x9090]); (0x027a25, [0x961d]); (0x027a26, [0x90a1]); (0x027a27, [0x48b5]);
   (0x027a28, [0x90b0]); (0x027a29, [0x90b6]); (0x027a2a, [0x90c3]); (0x027a2b, [0x90c8]);
   (0x027a2c, [0x286d7]); (0x027a2d, [0x90dc]); (0x027a2e, [0x90df]); (0x027a2f, [0x286fa]);
   (0x027a30, [0x90f6]); (0x027a31, [0x90f2]); (0x027a32, [0x9100]); (0x027a33, [0x90eb]);
   (0x027a34, [0x90fe]); (0x027a35, [0x90ff]); (0x027a36, [0x9104]); (0x027a37, [0x9106]);
   (0x027a38, [0x9118]); (0x027a39, [0x911c]); (0x027a3a, [0x911e]); (0x027a3b, [0x9137]);
   (0x027a3c, [0x9139]); (0x027a3d, [0x913a]); (0x027a3e, [0x9146]); (0x027a3f, [0x9147]);
   (0x027a40, [0x9157]); (0x027a41, [0x9159]); (0x027a42, [0x9161]); (0x027a43, [0x9164]);
   (0x027a44, [0x9174]); (0x027a45, [0x9179]); (0x027a46, [0x9185]); (0x027a47, [0x918e]);
   (0x027a48, [0x91a8]); (0x027a49, [0x91ae]); (0x027a4a, [0x91b3]); (0x027a4b, [0x91b6]);
   (0x027a4c, [0x91c3]); (0x027a4d, [0x91c4]); (0x027a4e, [0x91da]); (0x027a4f, [0x28949]);
   (0x027a50, [0x28946]); (0x027a51, [0x91ec]); (0x027a52, [0x91ee]); (0x027a53, [0x9201]);
   (0x027a54, [0x920a]); (0x027a55, [0x9216]); (0x027a56, [0x9217]); (0x027a57, [0x2896b]);
   (0x027a58, [0x9233]); (0x027a59, [0x9242]); (0x027a5a, [0x9247]); (0x027a5b, [0x924a]);
   (0x027a5c, [0x924e]); (0x027a5d, [0x9251]); (0x027a5e, [0x9256]); (0x027a5f, [0x9259]);
   (0x027a60, [0x9260]); (0x027a61, [0x9261]); (0x027a62, [0x9265]); (0x027a63, [0x9267]);
   (0x027a64, [0x9268]); (0x027a65, [0x28987]); (0x027a66, [0x28988]); (0x027a67, [0x927c]);
   (0x027a68, [0x927d]); (0x027a69, [0x927f]); (0x027a6a, [0x9289]); (0x027a6b, [0x928d]);
   (0x027a6c, [0x9297]); (0x027a6d, [0x9299]); (0x027a6e, [0x929f]); (0x027a6f, [0x92a7]);
   (0x027a70, [0x92ab]); (0x027a71, [0x289ba]); (0x027a72, [0x289bb]); (0x027a73, [0x92b2]);
   (0x027a74, [0x92bf]); (0x027a75, [0x92c0]); (0x027a76, [0x92c6]); (0x027a77, [0x92ce]);
   (0x027a78, [0x92d0]); (0x027a79, [0x92d7]); (0x027a7a, [0x92d9]); (0x027a7b, [0x92e5]);
   (0x027a7c, [0x92e7]); (0x027a7d, [0x9311]); (0x027a7e, [0x28a1e]); (0x027b21, [0x28a29]);
   (0x027b22, [0x92f7]); (0x027b23, [0x92f9]); (0x027b24, [0x92fb]); (0x027b25, [0x9302]);
   (0x027b26, [0x930d]); (0x027b27, [0x9315]); (0x027b28, [0x931d]); (0x027b29, [0x931e]);
   (0x027b2a, [0x9327]); (0x027b2b, [0x9329]); (0x027b2c, [0x28a71]); (0x027b2d, [0x28a43]);
   (0x027b2e, [0x9347]); (0x027b2f, [0x9351]); (0x027b30, [0x9357]); (0x027b31, [0x935a]);
   (0x027b32, [0x936b]); (0x027b33, [0x9371]); (0x027b34, [0x9373]); (0x027b35, [0x93a1]);
   (0x027b36, [0x28a99]); (0x027b37, [0x28acd]); (0x027b38, [0x9388]); (0x027b39, [0x938b]);
   (0x027b3a, [0x938f]); (0x027b3b, [0x939e]); (0x027b3c, [0x93f5]); (0x027b3d, [0x28ae4]);
   (0x027b3e, [0x28add]); (0x027b3f, [0x93f1]); (0x027b40, [0x93c1]); (0x027b41, [0x93c7]);
   (0x027b42, [0x93dc]); (0x027b43, [0x93e2]); (0x027b44, [0x93e7]); (0x027b45, [0x9409]);
   (0x027b46, [0x940f]); (0x027b47, [0x9416]); (0x027b48, [0x9417]); (0x027b49, [0x93fb]);
   (0x027b4a, [0x9432]); (0x027b4b, [0x9434]); (0x027b4c, [0x943b]); (0x027b4d, [0x9445]);
   (0x027b4e, [0x28bc1]); (0x027b4f, [0x28bef]); (0x027b50, [0x946d]); (0x027b51, [0x946f]);
   (0x027b52, [0x9578]); (0x027b53, [0x9579]); (0x027b54, [0x9586]); (0x027b55, [0x958c]);
   (0x027b56, [0x958d]); (0x027b57, [0x28d10]); (0x027b58, [0x95ab]); (0x027b59, [0x95b4]);
   (0x027b5a, [0x28d71]); (0x027b5b, [0x95c8]); (0x027b5c, [0x28dfb]); (0x027b5d, [0x28e1f]);
   (0x027b5e, [0x962c]); (0x027b5f, [0x9633]); (0x027b60, [0x9634]); (0x027b61, [0x28e36]);
   (0x027b62, [0x963c]); (0x027b63, [0x9641]); (0x027b64, [0x9661]); (0x027b65, [0x28e89]);
   (0x027b66, [0x9682]); (0x027b67, [0x28eeb]); (0x027b68, [0x969a]); (0x027b69, [0x28f32]);
   (0x027b6a, [0x49e7]); (0x027b6b, [0x96a9]); (0x027b6c, [0x96af]); (0x027b6d, [0x96b3]);
   (0x027b6e, [0x96ba]); (0x027b6f, [0x96bd]); (0x027b70, [0x49fa]); (0x027b71, [0x28ff8]);
   (0x027b72, [0x96d8]); (0x027b73, [0x96da]); (0x027b74, [0x96dd]); (0x027b75, [0x4a04]);
   (0x027b76, [0x9714]); (0x027b77, [0x9723]); (0x027b78, [0x4a29]); (0x027b79, [0x9736]);
   (0x027b7a, [0x9741]); (0x027b7b, [0x9747]); (0x027b7c, [0x9755]); (0x027b7d, [0x9757]);
   (0x027b7e, [0x975b]); (0x027c21, [0x976a]); (0x027c22, [0x292a0]); (0x027c23, [0x292b1]);
   (0x027c24, [0x9796]); (0x027c25, [0x979a]); (0x027c26, [0x979e]); (0x027c27, [0x97a2]);
   (0x027c28, [0x97b1]); (0x027c29, [0x97b2]); (0x027c2a, [0x97be]); (0x027c2b, [0x97cc]);
   (0x027c2c, [0x97d1]); (0x027c2d, [0x97d4]); (0x027c2e, [0x97d8]); (0x027c2f, [0x97d9]);
   (0x027c30, [0x97e1]); (0x027c31, [0x97f1]); (0x027c32, [0x9804]); (0x027c33, [0x980d]);
   (0x027c34, [0x980e]); (0x027c35, [0x9814]); (0x027c36, [0x9816]); (0x027c37, [0x4abc]);
   (0x027c38, [0x29490]); (0x027c39, [0x9823]); (0x027c3a, [0x9832]); (0x027c3b, [0x9833]);
   (0x027c3c, [0x9825]); (0x027c3d, [0x9847]); (0x027c3e, [0x9866]); (0x027c3f, [0x98ab]);
   (0x027c40, [0x98ad]); (0x027c41, [0x98b0]); (0x027c42, [0x295cf]); (0x027c43, [0x98b7]);
   (0x027c44, [0x98b8]); (0x027c45, [0x98bb]); (0x027c46, [0x98bc]); (0x027c47, [0x98bf]);
   (0x027c48, [0x98c2]); (0x027c49, [0x98c7]); (0x027c4a, [0x98cb]); (0x027c4b, [0x98e0]);
   (0x027c4c, [0x2967f]); (0x027c4d, [0x98e1]); (0x027c4e, [0x98e3]); (0x027c4f, [0x98e5]);
   (0x027c50, [0x98ea]); (0x027c51, [0x98f0]); (0x027c52, [0x98f1]); (0x027c53, [0x98f3]);
   (0x027c54, [0x9908]); (0x027c55, [0x4b3b]); (0x027c56, [0x296f0]); (0x027c57, [0x9916]);
   (0x027c58, [0x9917]); (0x027c59, [0x29719]); (0x027c5a, [0x991a]); (0x027c5b, [0x991b]);
   (0x027c5c, [0x991c]); (0x027c5d, [0x29750]); (0x027c5e, [0x9931]); (0x027c5f, [0x9932]);
   (0x027c60, [0x9933]); (0x027c61, [0x993a]); (0x027c62, [0x993b]); (0x027c63, [0x993c]);
   (0x027c64, [0x9940]); (0x027c65, [0x9941]); (0x027c66, [0x9946]); (0x027c67, [0x994d]);
   (0x027c68, [0x994e]); (0x027c69, [0x995c]); (0x027c6a, [0x995f]); (0x027c6b, [0x9960]);
   (0x027c6c, [0x99a3]); (0x027c6d, [0x99a6]); (0x027c6e, [0x99b9]); (0x027c6f, [0x99bd]);
   (0x027c70, [0x99bf]); (0x027c71, [0x99c3]); (0x027c72, [0x99c9]); (0x027c73, [0x99d4]);
   (0x027c74, [0x99d9]); (0x027c75, [0x99de]); (0x027c76, [0x298c6]); (0x027c77, [0x99f0]);
   (0x027c78, [0x99f9]); (0x027c79, [0x99fc]); (0x027c7a, [0x9a0a]); (0x027c7b, [0x9a11]);
   (0x027c7c, [0x9a16]); (0x027c7d, [0x9a1a]); (0x027c7e, [0x9a20]); (0x027d21, [0x9a31]);
   (0x027d22, [0x9a36]); (0x027d23, [0x9a44]); (0x027d24, [0x9a4c]); (0x027d25, [0x9a58]);
   (0x027d26, [0x4bc2]); (0x027d27, [0x9aaf]); (0x027d28, [0x4bca]); (0x027d29, [0x9ab7]);
   (0x027d2a, [0x4bd2]); (0x027d2b, [0x9ab9]); (0x027d2c, [0x29a72]); (0x027d2d, [0x9ac6]);
   (0x027d2e, [0x9ad0]); (0x027d2f, [0x9ad2]); (0x027d30, [0x9ad5]); (0x027d31, [0x4be8]);
   (0x027d32, [0x9adc]); (0x027d33, [0x9ae0]); (0x027d34, [0x9ae5]); (0x027d35, [0x9ae9]);
   (0x027d36, [0x9b03]); (0x027d37, [0x9b0c]); (0x027d38, [0x9b10]); (0x027d39, [0x9b12]);
   (0x027d3a, [0x9b16]); (0x027d3b, [0x9b1c]); (0x027d3c, [0x9b2b]); (0x027d3d, [0x9b33]);
   (0x027d3e, [0x9b3d]); (0x027d3f, [0x4c20]); (0x027d40, [0x9b4b]); (0x027d41, [0x9b63]);
   (0x027d42, [0x9b65]); (0x027d43, [0x9b6b]); (0x027d44, [0x9b6c]); (0x027d45, [0x9b73]);
   (0x027d46, [0x9b76]); (0x027d47, [0x9b77]); (0x027d48, [0x9ba6]); (0x027d49, [0x9bac]);
   (0x027d4a, [0x9bb1]); (0x027d4b, [0x29ddb]); (0x027d4c, [0x29e3d]); (0x027d4d, [0x9bb2]);
   (0x027d4e, [0x9bb8]); (0x027d4f, [0x9bbe]); (0x027d50, [0x9bc7]); (0x027d51, [0x9bf3]);
   (0x027d52, [0x9bd8]); (0x027d53, [0x9bdd]); (0x027d54, [0x9be7]); (0x027d55, [0x9bea]);
   (0x027d56, [0x9beb]); (0x027d57, [0x9bef]); (0x027d58, [0x9bee]); (0x027d59, [0x29e15]);
   (0x027d5a, [0x9bfa]); (0x027d5b, [0x29e8a]); (0x027d5c, [0x9bf7]); (0x027d5d, [0x29e49]);
   (0x027d5e, [0x9c16]); (0x027d5f, [0x9c18]); (0x027d60, [0x9c19]); (0x027d61, [0x9c1a]);
   (0x027d62, [0x9c1d]); (0x027d63, [0x9c22]); (0x027d64, [0x9c27]); (0x027d65, [0x9c29]);
   (0x027d66, [0x9c2a]); (0x027d67, [0x29ec4]); (0x027d68, [0x9c31]); (0x027d69, [0x9c36]);
   (0x027d6a, [0x9c37]); (0x027d6b, [0x9c45]); (0x027d6c, [0x9c5c]); (0x027d6d, [0x29ee9]);
   (0x027d6e, [0x9c49]); (0x027d6f, [0x9c4a]); (0x027d70, [0x29edb]); (0x027d71, [0x9c54]);
   (0x027d72, [0x9c58]); (0x027d73, [0x9c5b]); (0x027d74, [0x9c5d]); (0x027d75, [0x9c5f]);
   (0x027d76, [0x9c69]); (0x027d77, [0x9c6a]); (0x027d78, [0x9c6b]); (0x027d79, [0x9c6d]);
   (0x027d7a, [0x9c6e]); (0x027d7b, [0x9c70]); (0x027d7c, [0x9c72]); (0x027d7d, [0x9c75]);
   (0x027d7e, [0x9c7a]); (0x027e21, [0x9ce6]); (0x027e22, [0x9cf2]); (0x027e23, [0x9d0b]);
   (0x027e24, [0x9d02]); (0x027e25, [0x29fce]); (0x027e26, [0x9d11]); (0x027e27, [0x9d17]);
   (0x027e28, [0x9d18]); (0x027e29, [0x2a02f]); (0x027e2a, [0x4cc4]); (0x027e2b, [0x2a01a]);
   (0x027e2c, [0x9d32]); (0x027e2d, [0x4cd1]); (0x027e2e, [0x9d42]); (0x027e2f, [0x9d4a]);
   (0x027e30, [0x9d5f]); (0x027e31, [0x9d62]); (0x027e32, [0x2a0f9]); (0x027e33, [0x9d69]);
   (0x027e34, [0x9d6b]); (0x027e35, [0x2a082]); (0x027e36, [0x9d73]); (0x027e37, [0x9d76]);
   (0x027e38, [0x9d77]); (0x027e39, [0x9d7e]); (0x027e3a, [0x9d84]); (0x027e3b, [0x9d8d]);
   (0x027e3c, [0x9d99]); (0x027e3d, [0x9da1]); (0x027e3e, [0x9dbf]); (0x027e3f, [0x9db5]);
   (0x027e40, [0x9db9]); (0x027e41, [0x9dbd]); (0x027e42, [0x9dc3]); (0x027e43, [0x9dc7]);
   (0x027e44, [0x9dc9]); (0x027e45, [0x9dd6]); (0x027e46, [0x9dda]); (0x027e47, [0x9ddf]);
   (0x027e48, [0x9de0]); (0x027e49, [0x9de3]); (0x027e4a, [0x9df4]); (0x027e4b, [0x4d07]);
   (0x027e4c, [0x9e0a]); (0x027e4d, [0x9e02]); (0x027e4e, [0x9e0d]); (0x027e4f, [0x9e19]);
   (0x027e50, [0x9e1c]); (0x027e51, [0x9e1d]); (0x027e52, [0x9e7b]); (0x027e53, [0x22218]);
   (0x027e54, [0x9e80]); (0x027e55, [0x9e85]); (0x027e56, [0x9e9b]); (0x027e57, [0x9ea8]);
   (0x027e58, [0x2a38c]); (0x027e59, [0x9ebd]); (0x027e5a, [0x2a437]); (0x027e5b, [0x9edf]);
   (0x027e5c, [0x9ee7]); (0x027e5d, [0x9eee]); (0x027e5e, [0x9eff]); (0x027e5f, [0x9f02]);
   (0x027e60, [0x4d77]); (0x027e61, [0x9f03]); (0x027e62, [0x9f17]); (0x027e63, [0x9f19]);
   (0x027e64, [0x9f2f]); (0x027e65, [0x9f37]); (0x027e66, [0x9f3a]); (0x027e67, [0x9f3d]);
   (0x027e68, [0x9f41]); (0x027e69, [0x9f45]); (0x027e6a, [0x9f46]); (0x027e6b, [0x9f53]);
   (0x027e6c, [0x9f55]); (0x027e6d, [0x9f58]); (0x027e6e, [0x2a5f1]); (0x027e6f, [0x9f5d]);
   (0x027e70, [0x2a602]); (0x027e71, [0x9f69]); (0x027e72, [0x2a61a]); (0x027e73, [0x9f6d]);
   (0x027e74, [0x9f70]); (0x027e75, [0x9f75]); (0x027e76, [0x2a6b2])].

Definition jisX0213Plane1Undefined : list Z :=
  [0x247c; 0x247d; 0x247e; 0x285f; 0x2860; 0x2861; 0x2862; 0x2863; 0x2864; 0x2865; 0x2866;
   0x287d; 0x287e; 0x2c74; 0x2c75; 0x2c76; 0x2c77; 0x2c78; 0x2c79; 0x2c7a; 0x2c7b; 0x2c7c;
   0x2d58; 0x2d59; 0x2d5a; 0x2d5b; 0x2d5c; 0x2d5d; 0x2d5e; 0x2d70; 0x2d71; 0x2d72; 0x2d74;
   0x2d75; 0x2d76; 0x2d77; 0x2d7a; 0x2d7b; 0x2d7c].
