(* ===== verification/Aribstr.v ===== *)
(** * ARIB STD-B24 string decoding ([ts/aribstr/decode.go], table lookups)

    The 8-bit code extension decoder: the G-set designations and shifts that
    control codes change, the graphic sets, and the table lookups by binary
    search.  A Go string is the list of its runes.  The ISO-2022-JP decoder of
    golang.org/x/text is a parameter: [Transform] maps its eight input bytes
    to the runes it produced, or [None] for an error. *)

From S2P Require Import Prelude AribTables.

Definition RuneError : Z := 0xfffd.

(** ** Binary search ([sort.Search] of the Go standard library) *)

Fixpoint searchFrom (fuel : nat) (f : Z → bool) (i j : Z) : Z :=
  match fuel with
  | O => i
  | S fuel =>
      if i <? j then
        let h := Z.shiftr (i + j) 1 in
        if f h then searchFrom fuel f i h else searchFrom fuel f (h + 1) j
      else i
  end.
Definition sortSearch (n : Z) (f : Z → bool) : Z := searchFrom (Z.to_nat n + 1) f 0 n.

(** ** Keys ([table_key.go]) *)

Definition aribRowCellKey (first second : Z) : Z := u16 (Z.lor (Z.shiftl first 8) second).
Definition aribPlaneRowCellKey (plane first second : Z) : Z :=
  u32 (Z.lor (Z.lor (Z.shiftl plane 16) (Z.shiftl first 8)) second).
Definition aribValidRowCell (first second : Z) : bool :=
  (0x21 <=? first) && (first <=? 0x7e) && (0x21 <=? second) && (second <=? 0x7e).

(** ** Lookups *)

Definition keyAt {A} (table : list (Z * A)) (i : Z) : Z :=
  default 0 (fst <$> table !! Z.to_nat i).

(** The search, test and read shared by the two sorted tables. *)
Definition lookupSorted {A} (table : list (Z * A)) (key : Z) : outcome (option A) :=
  let i := sortSearch (len table) (λ i, key <=? keyAt table i) in
  if len table <=? i then Ret None
  else
    e ← table![i];
    if negb (fst e =? key) then Ret None else Ret (Some (snd e)).

Definition lookupARIBTable721BMPKanjiPUA (plane first second : Z) : outcome (option (list Z)) :=
  r ← lookupSorted aribTable721BMPKanjiPUA (aribPlaneRowCellKey plane first second);
  Ret (match r with Some r => Some [r] | None => None end).

Definition lookupJISX0213Delta (key : Z) : outcome (option (list Z)) :=
  lookupSorted jisX0213DeltaDecode key.

Definition jisX0213Plane1CellUndefined (key : Z) : outcome bool :=
  let table := jisX0213Plane1Undefined in
  let i := sortSearch (len table) (λ i, key <=? byteAt table i) in
  if i <? len table then x ← table![i]; Ret (x =? key) else Ret false.

Definition lookupARIBTable719AdditionalSymbol (first second : Z) : outcome (option (list Z)) :=
  if (second <? 0x21) || (0x7e <? second) then Ret None
  else
    let i := second - 0x21 in
    let row t := r ← t![i]; Ret (if r =? 0 then None else Some [r]) in
    if first =? 0x75 then row aribTable719Row75
    else if first =? 0x76 then row aribTable719Row76
    else if first =? 0x7a then row aribTable719Row7a
    else if first =? 0x7b then row aribTable719Row7b
    else if first =? 0x7c then row aribTable719Row7c
    else if first =? 0x7d then row aribTable719Row7d
    else if first =? 0x7e then row aribTable719Row7e
    else Ret None.

Definition aribHiraganaOverrides : gmap Z (list Z) := list_to_map
  [(0x77, [0x309d]); (0x78, [0x309e]); (0x79, [0x30fc]); (0x7a, [0x3002]);
   (0x7b, [0x300c]); (0x7c, [0x300d]); (0x7d, [0x3001]); (0x7e, [0x30fb])].
Definition aribKatakanaOverrides : gmap Z (list Z) := list_to_map
  [(0x77, [0x30fd]); (0x78, [0x30fe]); (0x79, [0x30fc]); (0x7a, [0x3002]);
   (0x7b, [0x300c]); (0x7c, [0x300d]); (0x7d, [0x3001]); (0x7e, [0x30fb])].
Definition aribJISX0208Overrides : gmap Z (list Z) := list_to_map
  [(0x213d, [0x2014]); (0x2141, [0x301c]); (0x215d, [0x2212])].

(** ** Graphic sets and decoder state *)

Inductive aribGraphicSet : Type :=
| aribSetKanji
| aribSetAlphanumeric
| aribSetHiragana
| aribSetKatakana
| aribSetJISX0201Katakana
| aribSetProportionalAlphanumeric
| aribSetProportionalHiragana
| aribSetProportionalKatakana
| aribSetJISCompatibleKanjiPlane1
| aribSetJISCompatibleKanjiPlane2
| aribSetAdditionalSymbols
| aribSetDRCS0
| aribSetDRCS1Byte
| aribSetMacro.

#[global] Instance aribGraphicSet_eq_dec : EqDecision aribGraphicSet.
Proof. solve_decision. Defined.

Record aribStringDecoder : Type := MkDecoder {
  d_g : list aribGraphicSet;
  d_gl : Z;
  d_gr : Z;
  d_narrowAlnum : bool
}.

Definition setG (i : Z) (s : aribGraphicSet) (d : aribStringDecoder) : aribStringDecoder :=
  MkDecoder (<[Z.to_nat i := s]> (d_g d)) (d_gl d) (d_gr d) (d_narrowAlnum d).
Definition setGL (gl : Z) (d : aribStringDecoder) : aribStringDecoder :=
  MkDecoder (d_g d) gl (d_gr d) (d_narrowAlnum d).
Definition setGR (gr : Z) (d : aribStringDecoder) : aribStringDecoder :=
  MkDecoder (d_g d) (d_gl d) gr (d_narrowAlnum d).
Definition setNarrow (b : bool) (d : aribStringDecoder) : aribStringDecoder :=
  MkDecoder (d_g d) (d_gl d) (d_gr d) b.

Definition newDecoder : aribStringDecoder :=
  MkDecoder [aribSetKanji; aribSetAlphanumeric; aribSetHiragana; aribSetKatakana] 0 2 false.

Definition isSet (a b : aribGraphicSet) : bool := bool_decide (a = b).

Definition designateGSet (final : Z) (multiByte : bool) : aribGraphicSet :=
  match final with
  | 0x42 => aribSetKanji
  | 0x4a => aribSetAlphanumeric
  | 0x30 => aribSetHiragana
  | 0x31 => aribSetKatakana
  | 0x36 => aribSetProportionalAlphanumeric
  | 0x37 => aribSetProportionalHiragana
  | 0x38 => aribSetProportionalKatakana
  | 0x39 => aribSetJISCompatibleKanjiPlane1
  | 0x3a => aribSetJISCompatibleKanjiPlane2
  | 0x49 => aribSetJISX0201Katakana
  | 0x3b => aribSetAdditionalSymbols
  | 0x40 => aribSetDRCS0
  | 0x70 => aribSetMacro
  | _ => if multiByte then aribSetKanji else aribSetAlphanumeric
  end.

Definition designateDRCS1Byte (final : Z) : aribGraphicSet :=
  if (0x41 <=? final) && (final <=? 0x4f) then aribSetDRCS1Byte else aribSetDRCS1Byte.

Definition normalizeGraphicByte (b : Z) (gr : bool) : Z :=
  if gr then Z.land b 0x7f else b.

(** ** Single-byte graphic sets *)

Definition decodeARIBAlnum (d : aribStringDecoder) (b : Z) : Z :=
  if b =? 0x20 then 0x3000
  else if d_narrowAlnum d && (0x21 <=? b) && (b <=? 0x7e) then b
  else if b =? 0x22 then 0x201d
  else if (0x30 <=? b) && (b <=? 0x39) then
    if d_narrowAlnum d then 0x30 + (b - 0x30) else 0xff10 + (b - 0x30)
  else if (0x41 <=? b) && (b <=? 0x5a) then 0xff21 + (b - 0x41)
  else if (0x61 <=? b) && (b <=? 0x7a) then 0xff41 + (b - 0x61)
  else if (0x21 <=? b) && (b <=? 0x7e) then 0xff01 + (b - 0x21)
  else RuneError.

Definition decodeJISX0201Katakana (b : Z) : Z :=
  if (0x21 <=? b) && (b <=? 0x5f) then 0xff61 + (b - 0x21) else RuneError.

Definition decodeARIBNarrowJISRoman (b : Z) : list Z :=
  if (0x21 <=? b) && (b <=? 0x7e) then [b] else [RuneError].

(** ** Designations and presentation controls *)

(** [decodeEscape]: the decoder after the escape sequence at [i], and the
    index that follows it. *)
Definition decodeEscape (d : aribStringDecoder) (b : list Z) (i : Z)
    : outcome (aribStringDecoder * Z) :=
  if len b <=? i + 1 then Ret (d, len b)
  else
    b1 ← b![i + 1];
    match b1 with
    | 0x6e => Ret (setGL 2 d, i + 2)
    | 0x6f => Ret (setGL 3 d, i + 2)
    | 0x7e => Ret (setGR 1 d, i + 2)
    | 0x7d => Ret (setGR 2 d, i + 2)
    | 0x7c => Ret (setGR 3 d, i + 2)
    | 0x28 | 0x29 | 0x2a | 0x2b =>
        let g := b1 - 0x28 in
        if len b <=? i + 2 then Ret (d, len b)
        else
          b2 ← b![i + 2];
          if b2 =? 0x20 then
            if len b <=? i + 3 then Ret (d, len b)
            else b3 ← b![i + 3]; Ret (setG g (designateDRCS1Byte b3) d, i + 4)
          else Ret (setG g (designateGSet b2 false) d, i + 3)
    | 0x24 =>
        if len b <=? i + 2 then Ret (d, len b)
        else
          b2 ← b![i + 2];
          if (0x28 <=? b2) && (b2 <=? 0x2b) then
            let g := b2 - 0x28 in
            if len b <=? i + 3 then Ret (d, len b)
            else b3 ← b![i + 3]; Ret (setG g (designateGSet b3 true) d, i + 4)
          else Ret (setG 0 (designateGSet b2 true) d, i + 3)
    | _ => Ret (d, i + 2)
    end.

(** The scan of a CSI sequence for its final byte: [j] is the next index. *)
Fixpoint skipCSI (n : nat) (b : list Z) (j : Z) : outcome Z :=
  match n with
  | O => Diverge
  | S n =>
      if j <? len b then
        x ← b![j];
        if (0x40 <=? x) && (x <=? 0x7e) then Ret (j + 1) else skipCSI n b (j + 1)
      else Ret (len b)
  end.

Definition skipC1Control (d : aribStringDecoder) (b : list Z) (i : Z)
    : outcome (aribStringDecoder * Z) :=
  c ← b![i];
  match c with
  | 0x89 => Ret (setNarrow true d, i + 1)
  | 0x8a => Ret (setNarrow false d, i + 1)
  | 0x90 | 0x91 | 0x92 | 0x97 | 0x98 => Ret (d, Z.min (i + 2) (len b))
  | 0x9b => j ← skipCSI (S (length b)) b (i + 1); Ret (d, j)
  | 0x9d => Ret (d, Z.min (i + 3) (len b))
  | _ => Ret (d, i + 1)
  end.

(** ** The two-byte sets and the decoder *)

(** [japanese.ISO2022JP.NewDecoder().Transform] on a complete input. *)
Class ISO2022JP : Type := Transform : list Z → option (list Z).

Section Decoder.
Context {jis : ISO2022JP}.

Definition decodeJISX0208Pair (first second : Z) : option (list Z) :=
  match Transform [0x1b; 0x24; 0x42; first; second; 0x1b; 0x28; 0x42] with
  | None => None
  | Some s => if bool_decide (RuneError ∈ s) then None else Some s
  end.

Definition lookupJISX0213 (plane first second : Z) : outcome (option (list Z)) :=
  if negb (aribValidRowCell first second) then Ret None
  else
    d ← lookupJISX0213Delta (aribPlaneRowCellKey plane first second);
    match d with
    | Some s => Ret (Some s)
    | None =>
        if plane =? 1 then
          u ← jisX0213Plane1CellUndefined (aribRowCellKey first second);
          if u : bool then Ret None
          else match decodeJISX0208Pair first second with
               | None => Ret None
               | Some s => if bool_decide (s = [RuneError]) then Ret None else Ret (Some s)
               end
        else Ret None
    end.

Definition decodeJISX0208Graphic (first second : Z) : outcome (list Z) :=
  if negb (aribValidRowCell first second) then Ret [RuneError]
  else
    a ← (if (first =? 0x75) || (first =? 0x76) || (0x7a <=? first)
         then lookupARIBTable719AdditionalSymbol first second else Ret None);
    match a with
    | Some s => Ret s
    | None =>
        match aribJISX0208Overrides !! aribRowCellKey first second with
        | Some s => Ret s
        | None =>
            match decodeJISX0208Pair first second with
            | None | Some [] => Ret [RuneError]
            | Some s => Ret s
            end
        end
    end.

Definition decodeARIBHiragana (b : Z) : outcome (list Z) :=
  match aribHiraganaOverrides !! b with
  | Some s => Ret s
  | None => decodeJISX0208Graphic 0x24 b
  end.

Definition decodeARIBKatakana (b : Z) : outcome (list Z) :=
  match aribKatakanaOverrides !! b with
  | Some s => Ret s
  | None => decodeJISX0208Graphic 0x25 b
  end.

Definition decodeARIBAdditionalSymbol (first second : Z) : outcome (list Z) :=
  a ← lookupARIBTable719AdditionalSymbol first second;
  match a with
  | Some s => Ret s
  | None =>
      s ← decodeJISX0208Graphic first second;
      if negb (bool_decide (s = [RuneError])) then Ret s else Ret [RuneError]
  end.

Definition decodeARIBDRCS0 (first second : Z) : outcome (list Z) :=
  a ← lookupARIBTable719AdditionalSymbol first second;
  Ret (default [RuneError] a).

Definition decodeARIBJISCompatibleKanji (plane first second : Z) : outcome (list Z) :=
  a ← lookupARIBTable721BMPKanjiPUA plane first second;
  match a with
  | Some s => Ret s
  | None => b ← lookupJISX0213 plane first second; Ret (default [RuneError] b)
  end.

Definition decodeGraphic (d : aribStringDecoder) (b : list Z) (i : Z) (set : aribGraphicSet)
    (gr : bool) : outcome (list Z * Z) :=
  b0 ← b![i];
  let first := normalizeGraphicByte b0 gr in
  match set with
  | aribSetKanji | aribSetJISCompatibleKanjiPlane1 | aribSetJISCompatibleKanjiPlane2
  | aribSetAdditionalSymbols | aribSetDRCS0 =>
      if len b <=? i + 1 then
        if isSet set aribSetAdditionalSymbols || isSet set aribSetDRCS0 then Ret ([], len b)
        else Ret ([RuneError], len b)
      else
        b1 ← b![i + 1];
        let second := normalizeGraphicByte b1 (0xa1 <=? b1) in
        if (isSet set aribSetAdditionalSymbols || isSet set aribSetDRCS0) &&
           ((second <? 0x21) || (0x7e <? second)) then Ret ([], i + 2)
        else if isSet set aribSetKanji && d_narrowAlnum d && (first =? 0x21) && (second =? 0x21)
        then Ret ([0x20], i + 2)
        else if isSet set aribSetKanji && d_narrowAlnum d && (first =? 0x23)
        then Ret (decodeARIBNarrowJISRoman second, i + 2)
        else
          s ← match set with
              | aribSetAdditionalSymbols => decodeARIBAdditionalSymbol first second
              | aribSetDRCS0 => decodeARIBDRCS0 first second
              | aribSetJISCompatibleKanjiPlane1 => decodeARIBJISCompatibleKanji 1 first second
              | aribSetJISCompatibleKanjiPlane2 => decodeARIBJISCompatibleKanji 2 first second
              | _ => decodeJISX0208Graphic first second
              end;
          Ret (s, i + 2)
  | aribSetAlphanumeric | aribSetProportionalAlphanumeric => Ret ([decodeARIBAlnum d first], i + 1)
  | aribSetHiragana | aribSetProportionalHiragana => s ← decodeARIBHiragana first; Ret (s, i + 1)
  | aribSetKatakana | aribSetProportionalKatakana => s ← decodeARIBKatakana first; Ret (s, i + 1)
  | aribSetJISX0201Katakana => Ret ([decodeJISX0201Katakana first], i + 1)
  | aribSetDRCS1Byte => Ret ([RuneError], i + 1)
  | aribSetMacro => Ret ([], i + 1)
  end.

(** The single shifts SS2 and SS3: one character of the designated set [n]. *)
Definition decodeSingleShift (d : aribStringDecoder) (b : list Z) (i n : Z)
    : outcome (aribStringDecoder * list Z * Z) :=
  if len b <=? i + 1 then Ret (d, [RuneError], len b)
  else
    g ← (d_g d)![n];
    b1 ← b![i + 1];
    '(s, next) ← decodeGraphic d b (i + 1) g (0xa1 <=? b1);
    Ret (d, s, next).

(** [decodeC0]: the decoder after the control, the runes it writes, and the
    next index. *)
Definition decodeC0 (d : aribStringDecoder) (b : list Z) (i : Z)
    : outcome (aribStringDecoder * list Z * Z) :=
  c ← b![i];
  match c with
  | 0x0d => Ret (d, [0x0a], i + 1)
  | 0x0e => Ret (setGL 1 d, [], i + 1)
  | 0x0f => Ret (setGL 0 d, [], i + 1)
  | 0x16 => Ret (d, [], Z.min (i + 2) (len b))
  | 0x19 => decodeSingleShift d b i 2
  | 0x1b => '(d, next) ← decodeEscape d b i; Ret (d, [], next)
  | 0x1c => Ret (d, [], Z.min (i + 3) (len b))
  | 0x1d => decodeSingleShift d b i 3
  | _ => Ret (d, [], i + 1)
  end.

Definition isAlnumSet (s : aribGraphicSet) : bool :=
  isSet s aribSetAlphanumeric || isSet s aribSetProportionalAlphanumeric.

(** One round of the loop of [Decode]. *)
Definition decodeBody (b : list Z) (st : aribStringDecoder * Z * list Z)
    : outcome (aribStringDecoder * Z * list Z + list Z) :=
  let '(d, i, out) := st in
  if i <? len b then
    c ← b![i];
    if (c =? 0x20) || (c =? 0xa0) then
      continue (d, i + 1, out ++ (if d_narrowAlnum d then [0x20] else [0x3000]))
    else if c <=? 0x1f then
      '(d, s, next) ← decodeC0 d b i;
      continue (d, if next <=? i then i + 1 else next, out ++ s)
    else if (0x80 <=? c) && (c <=? 0x9f) then
      '(d, next) ← skipC1Control d b i; continue (d, next, out)
    else
      alnum ← (Ret (c =? 0xfe) &&? (g ← (d_g d)![d_gl d]; Ret (isAlnumSet g)));
      if alnum : bool then continue (d, i + 1, out ++ [0x30fb])
      else if (0x21 <=? c) && (c <=? 0x7e) then
        g ← (d_g d)![d_gl d];
        '(s, next) ← decodeGraphic d b i g false; continue (d, next, out ++ s)
      else if (0xa1 <=? c) && (c <=? 0xfe) then
        g ← (d_g d)![d_gr d];
        '(s, next) ← decodeGraphic d b i g true; continue (d, next, out ++ s)
      else continue (d, i + 1, out ++ [RuneError])
  else break out.

Definition Decode (b : list Z) : outcome (list Z) :=
  loop (S (length b)) (decodeBody b) (newDecoder, 0, []).

(** [ts.DecodeARIBString] *)
Definition DecodeARIBString (b : list Z) : outcome (list Z) := Decode b.

End Decoder.

(** ** Binary search on a sorted table *)

Section Search.
Context (n : Z) (f : Z → bool).
Context (mono : ∀ k k', 0 ≤ k ≤ k' → k' < n → f k = true → f k' = true).

Lemma searchFrom_least fuel i j :
  0 ≤ i ≤ j → j ≤ n → j - i < Z.of_nat fuel →
  (∀ k, 0 ≤ k < i → f k = false) → (∀ k, j ≤ k < n → f k = true) →
  let r := searchFrom fuel f i j in
  i ≤ r ≤ j ∧ (∀ k, 0 ≤ k < r → f k = false) ∧ (∀ k, r ≤ k < n → f k = true).
Proof.
  revert i j. induction fuel as [| fuel IH]; intros i j Hij Hn Hfuel Hlo Hhi; [lia |]. simpl.
  destruct (Z.ltb_spec i j) as [Hlt |]; [| split_and!; [lia | lia | done | intros; apply Hhi; lia]].
  assert (i ≤ Z.shiftr (i + j) 1 < j) as Hh.
  { rewrite Z.shiftr_div_pow2 by lia. change (2 ^ 1) with 2.
    pose proof (Z.div_mod (i + j) 2). pose proof (Z.mod_pos_bound (i + j) 2). lia. }
  set (h := Z.shiftr (i + j) 1) in *. destruct (f h) eqn:E.
  - destruct (IH i h) as (? & ? & ?); [lia | lia | lia | done | | split_and!; done || lia].
    intros k Hk. apply (mono h); [lia | lia | done].
  - destruct (IH (h + 1) j) as (? & ? & ?); [lia | lia | lia | | done | split_and!; done || lia].
    intros k Hk. destruct (f k) eqn:E'; [| done]. rewrite <- E. symmetry.
    apply (mono k); [lia | lia | done].
Qed.

Lemma sortSearch_least :
  0 ≤ n →
  let r := sortSearch n f in
  0 ≤ r ≤ n ∧ (∀ k, 0 ≤ k < r → f k = false) ∧ (∀ k, r ≤ k < n → f k = true).
Proof. intros Hn. apply searchFrom_least; lia. Qed.

End Search.

(** Strictly increasing keys, as the tables' own tests check them. *)
Fixpoint increasing (keys : list Z) : bool :=
  match keys with
  | a :: (b :: _) as keys' => (a <? b) && increasing keys'
  | _ => true
  end.

Lemma increasing_lookup keys i j a b :
  increasing keys = true → keys !! i = Some a → keys !! j = Some b → (i < j)%nat → a < b.
Proof.
  revert i j a. induction keys as [| k keys IH]; intros i j a Hinc Hi Hj Hij; [done |].
  destruct j as [| j]; [lia |]. simpl in Hj.
  assert (increasing keys = true ∧ ∀ c, keys !! 0%nat = Some c → k < c) as [Hk Hhd].
  { destruct keys as [| c keys]; [done |]. cbn [increasing] in Hinc. bools. split; [done |].
    intros c' [= <-]. done. }
  destruct i as [| i]; simpl in Hi; [| by apply (IH i j a); [done | done | done | lia]].
  simplify_eq. destruct j as [| j]; [by apply Hhd |].
  destruct keys as [| c keys]; [done |].
  trans c; [by apply Hhd |]. apply (IH 0%nat (S j) c); [done | done | done | lia].
Qed.

(** On strictly increasing keys the search lands on the key if it is there. *)
Lemma search_key keys key i :
  increasing keys = true → keys !! i = Some key →
  sortSearch (len keys) (λ i, key <=? byteAt keys i) = Z.of_nat i.
Proof.
  intros Hinc Hi. set (f := λ i, key <=? byteAt keys i).
  pose proof (lookup_lt_Some _ _ _ Hi) as Hil.
  assert (∀ k, 0 ≤ k < len keys → keys !! Z.to_nat k = Some (byteAt keys k)) as Hat.
  { intros k Hk. unfold byteAt, len in *.
    by destruct (lookup_lt_is_Some_2 keys (Z.to_nat k)) as [e ->]; [lia |]. }
  assert (∀ k k', 0 ≤ k < k' → k' < len keys → byteAt keys k < byteAt keys k') as Hlt.
  { intros k k' ??. apply (increasing_lookup keys (Z.to_nat k) (Z.to_nat k'));
      [done | apply Hat | apply Hat |]; lia. }
  destruct (sortSearch_least (len keys) f) as (Hr & Hlo & Hhi).
  { intros k k' ??. unfold f. rewrite !Z.leb_le. destruct (decide (k = k')) as [-> |]; [done |].
    specialize (Hlt k k' ltac:(lia) ltac:(lia)). lia. }
  { apply len_nonneg. }
  set (r := sortSearch (len keys) f) in *.
  assert (byteAt keys (Z.of_nat i) = key) as Hkey by (unfold byteAt; by rewrite Nat2Z.id, Hi).
  unfold len in *. destruct (Z.lt_trichotomy r (Z.of_nat i)) as [Hc | [-> | Hc]]; [| done |].
  - pose proof (Hhi r ltac:(lia)) as H. unfold f in H. bools.
    specialize (Hlt r (Z.of_nat i) ltac:(lia) ltac:(lia)). lia.
  - pose proof (Hlo (Z.of_nat i) ltac:(lia)) as H. unfold f in H. bools. lia.
Qed.

Lemma search_nonneg n f : 0 ≤ n → 0 ≤ sortSearch n f.
Proof.
  intros Hn. unfold sortSearch. generalize (Z.to_nat n + 1)%nat as fuel.
  assert (∀ fuel i j, 0 ≤ i → 0 ≤ searchFrom fuel f i j) as H; [| by intros; apply H].
  induction fuel as [| fuel IH]; intros i j Hi; simpl; [done |].
  destruct (Z.ltb_spec i j); [| done].
  destruct (f _); apply IH; [done |]. pose proof (Z.shiftr_nonneg (i + j) 1). lia.
Qed.

Lemma keyAt_byteAt {A} (table : list (Z * A)) i : keyAt table i = byteAt (map fst table) i.
Proof. unfold keyAt, byteAt. by rewrite list_lookup_fmap. Qed.

Lemma lookupSorted_spec {A} (table : list (Z * A)) key :
  increasing (map fst table) = true →
  returns (lookupSorted table key) (λ r, ∀ v, r = Some v ↔ (key, v) ∈ table).
Proof.
  intros Hinc. unfold lookupSorted.
  set (r := sortSearch (len table) (λ i, key <=? keyAt table i)).
  assert (0 ≤ r) as Hr by apply search_nonneg, len_nonneg.
  assert (∀ v, (key, v) ∈ table → r < len table ∧ table !! Z.to_nat r = Some (key, v)) as Hin.
  { intros v [k Hk]%list_elem_of_lookup_1. pose proof (lookup_lt_Some _ _ _ Hk).
    assert (r = Z.of_nat k) as ->; [| rewrite Nat2Z.id; unfold len in *; split; [lia | done]].
    rewrite <- (search_key (map fst table) key k) by (done || by rewrite list_lookup_fmap, Hk).
    unfold r, len. rewrite length_map. unfold sortSearch. generalize (Z.to_nat (Z.of_nat (length table)) + 1)%nat.
    clear. intros n. generalize 0 (Z.of_nat (length table)).
    induction n as [| n IH]; intros i j; simpl; [done |]. by rewrite keyAt_byteAt, !IH. }
  destruct (Z.leb_spec (len table) r).
  { simpl. intros v. split; [done |]. intros Hv. apply Hin in Hv. lia. }
  destruct (lookup_lt_is_Some_2 table (Z.to_nat r)) as [e He]; [unfold len in *; lia |].
  rewrite (idx_lookup _ _ _ Hr He). run.
  destruct (Z.eqb_spec (fst e) key) as [Hk | Hk]; simpl; intros v; (split; [| intros Hv;
    destruct (Hin v Hv) as [_ Hv']; rewrite He in Hv'; injection Hv' as ->; simpl in *; congruence]);
    [| done].
  intros [= <-]. rewrite <- Hk. destruct e. by eapply list_elem_of_lookup_2.
Qed.

Lemma table721_increasing : increasing (map fst aribTable721BMPKanjiPUA) = true.
Proof. by vm_compute. Qed.
Lemma delta_increasing : increasing (map fst jisX0213DeltaDecode) = true.
Proof. by vm_compute. Qed.
Lemma undefined_increasing : increasing jisX0213Plane1Undefined = true.
Proof. by vm_compute. Qed.

Lemma jisX0213Plane1CellUndefined_spec key :
  returns (jisX0213Plane1CellUndefined key) (λ b, b = true ↔ key ∈ jisX0213Plane1Undefined).
Proof.
  unfold jisX0213Plane1CellUndefined.
  set (r := sortSearch _ _).
  assert (0 ≤ r) as Hr by apply search_nonneg, len_nonneg.
  assert (key ∈ jisX0213Plane1Undefined →
    r < len jisX0213Plane1Undefined ∧ jisX0213Plane1Undefined !! Z.to_nat r = Some key) as Hin.
  { intros [k Hk]%list_elem_of_lookup_1. pose proof (lookup_lt_Some _ _ _ Hk).
    unfold r. rewrite (search_key _ key k undefined_increasing Hk), Nat2Z.id. unfold len. split; [lia | done]. }
  destruct (Z.ltb_spec r (len jisX0213Plane1Undefined)); simpl;
    [| split; [done |]; intros Hk; apply Hin in Hk; lia].
  destruct (lookup_lt_is_Some_2 jisX0213Plane1Undefined (Z.to_nat r)) as [e He]; [unfold len in *; lia |].
  rewrite (idx_lookup _ _ _ Hr He). run. cbn. rewrite Z.eqb_eq. split.
  - intros <-. by eapply list_elem_of_lookup_2.
  - intros Hk. destruct (Hin Hk) as [_ Hk']. by simplify_eq.
Qed.

(** The three binary searches find exactly the
    entries of their tables: a key is answered with the value listed for it,
    a key that is not listed with nothing, and no index is out of range. *)
Theorem table_lookups_correct plane first second key :
  returns (lookupARIBTable721BMPKanjiPUA plane first second) (λ r, ∀ v,
    r = Some [v] ↔ (aribPlaneRowCellKey plane first second, v) ∈ aribTable721BMPKanjiPUA) ∧
  returns (lookupJISX0213Delta key) (λ r, ∀ v, r = Some v ↔ (key, v) ∈ jisX0213DeltaDecode) ∧
  returns (jisX0213Plane1CellUndefined key) (λ b, b = true ↔ key ∈ jisX0213Plane1Undefined).
Proof.
  split_and!.
  - unfold lookupARIBTable721BMPKanjiPUA. apply safe_bind.
    eapply safe_mono; [apply lookupSorted_spec, table721_increasing |].
    intros r Hr. simpl. intros v. specialize (Hr v). destruct r; naive_solver.
  - apply lookupSorted_spec, delta_increasing.
  - apply jisX0213Plane1CellUndefined_spec.
Qed.

(** ** Every input decodes *)

(** Unicode code points. *)
Definition rune_ok (r : Z) : Prop := 0 ≤ r ≤ 0x10ffff.
Definition rune_okb (r : Z) : bool := (0 <=? r) && (r <=? 0x10ffff).
Definition text_ok (s : list Z) : Prop := Forall rune_ok s.

Lemma rune_okb_spec r : rune_okb r = true → rune_ok r.
Proof. unfold rune_okb, rune_ok. intros. bools. lia. Qed.

Lemma runes_okb_spec s : forallb rune_okb s = true → text_ok s.
Proof.
  intros H. rewrite forallb_forall in H. apply Forall_forall. intros r Hr.
  apply rune_okb_spec, H. by apply list_elem_of_In.
Qed.

Lemma text_one r : rune_ok r → text_ok [r].
Proof. intros. by apply Forall_singleton. Qed.
Lemma text_error : text_ok [RuneError].
Proof. by apply runes_okb_spec. Qed.
Lemma text_space : text_ok [0x20].
Proof. by apply runes_okb_spec. Qed.
Lemma text_nil : text_ok [].
Proof. apply Forall_nil_2. Qed.
Lemma text_app s t : text_ok s → text_ok t → text_ok (s ++ t).
Proof. intros. by apply Forall_app. Qed.
#[export] Hint Resolve text_error text_space text_nil text_app text_one : go.

Lemma overrides_ok (m : gmap Z (list Z)) k s :
  forallb (λ e, forallb rune_okb (snd e)) (map_to_list m) = true → m !! k = Some s → text_ok s.
Proof.
  intros H Hk. rewrite forallb_forall in H. apply runes_okb_spec.
  apply (H (k, s)). by apply list_elem_of_In, elem_of_map_to_list.
Qed.

Lemma table_values_ok {A} (ok : A → bool) (table : list (Z * A)) k v :
  forallb (λ e, ok (snd e)) table = true → (k, v) ∈ table → ok v = true.
Proof.
  intros H Hk. rewrite forallb_forall in H. apply (H (k, v)). by apply list_elem_of_In.
Qed.

Lemma table721_ok plane first second :
  returns (lookupARIBTable721BMPKanjiPUA plane first second)
    (λ r, ∀ s, r = Some s → text_ok s).
Proof.
  unfold lookupARIBTable721BMPKanjiPUA. apply safe_bind.
  eapply safe_mono; [apply lookupSorted_spec, table721_increasing |].
  intros [r |] Hr; simpl; intros s Hs; [| done]. injection Hs as <-. apply text_one, rune_okb_spec.
  eapply table_values_ok; [| by apply Hr]. by vm_compute.
Qed.

Lemma delta_ok key :
  returns (lookupJISX0213Delta key) (λ r, ∀ s, r = Some s → text_ok s).
Proof.
  eapply safe_mono; [apply lookupSorted_spec, delta_increasing |].
  intros r Hr s Hs. apply runes_okb_spec.
  eapply (table_values_ok (forallb rune_okb)); [| by apply Hr]. by vm_compute.
Qed.

Lemma row719_ok t i :
  0 ≤ i < len t → text_ok t →
  returns (r ← t![i]; Ret (if r =? 0 then None else Some [r]))
    (λ r, ∀ s, r = Some s → text_ok s).
Proof.
  intros Hi Ht. apply safe_bind, safe_elem; [done |]. intros r Hr. simpl.
  destruct (r =? 0); intros s Hs; [done |]. injection Hs as <-.
  apply text_one. by eapply Forall_lookup_1.
Qed.

Lemma table719_ok first second :
  returns (lookupARIBTable719AdditionalSymbol first second) (λ r, ∀ s, r = Some s → text_ok s).
Proof.
  unfold lookupARIBTable719AdditionalSymbol.
  destruct ((second <? 0x21) || (0x7e <? second)) eqn:E; [done |]. bools.
  repeat match goal with
  | |- context [if ?b then _ else _] => destruct b eqn:?; [apply row719_ok |]
  end; try done; try (by apply runes_okb_spec; vm_compute);
    match goal with |- _ ≤ _ < len ?t => replace (len t) with 94 by (by vm_compute); lia end.
Qed.

(** The decoder's invariant: four designated sets, shifts that index them. *)
Record decoder_ok (d : aribStringDecoder) : Prop := {
  do_g : len (d_g d) = 4;
  do_gl : 0 ≤ d_gl d < 4;
  do_gr : 0 ≤ d_gr d < 4
}.

Lemma newDecoder_ok : decoder_ok newDecoder.
Proof. by split. Qed.
Lemma setG_ok i s d : decoder_ok d → decoder_ok (setG i s d).
Proof. intros [G L R]. split; simpl; [| done | done]. unfold len in *. by rewrite length_insert. Qed.
Lemma setGL_ok i d : 0 ≤ i < 4 → decoder_ok d → decoder_ok (setGL i d).
Proof. intros ? [G L R]. by split. Qed.
Lemma setGR_ok i d : 0 ≤ i < 4 → decoder_ok d → decoder_ok (setGR i d).
Proof. intros ? [G L R]. by split. Qed.
Lemma setNarrow_ok b d : decoder_ok d → decoder_ok (setNarrow b d).
Proof. intros [G L R]. by split. Qed.

(** What a control sequence at [i] leaves: a decoder, and a later index. *)
Definition moved (b : list Z) (i : Z) (d : aribStringDecoder) (next : Z) : Prop :=
  decoder_ok d ∧ i < next ≤ len b.

#[export] Hint Resolve newDecoder_ok setNarrow_ok setG_ok : go.

(** The branches of a match on a byte value, and their common ends. *)
Ltac byte_cases c := destruct c as [| c | c]; [| do 8 (try destruct c as [c | c |]) |].
Ltac moves := unfold moved; cbn beta iota; run;
  first [ split; [first [ assumption | apply setG_ok | apply setGL_ok; [lia |] | apply setGR_ok; [lia |]
                        | apply setNarrow_ok ]; assumption | lia ] ].

Lemma decodeEscape_ok d b i :
  bytes_ok b → decoder_ok d → 0 ≤ i < len b →
  returns (decodeEscape d b i) (λ '(d', next), moved b i d' next).
Proof.
  intros Hb Hd Hi. unfold decodeEscape.
  destruct (Z.leb_spec (len b) (i + 1)); [simpl; moves |].
  apply safe_bind, safe_byte; [done | lia |]. intros _. generalize (byteAt b (i + 1)) as c. intros c.
  assert (∀ g, returns (if len b <=? i + 2 then Ret (d, len b)
     else b2 ← b![i + 2];
       if b2 =? 0x20 then
         if len b <=? i + 3 then Ret (d, len b)
         else b3 ← b![i + 3]; Ret (setG g (designateDRCS1Byte b3) d, i + 4)
       else Ret (setG g (designateGSet b2 false) d, i + 3)) (λ '(d', next), moved b i d' next)) as Hg.
  { intros g. go; moves. }
  byte_cases c; try apply Hg; try (simpl; moves). go; moves.
Qed.

Lemma skipCSI_ok n b j :
  bytes_ok b → 0 ≤ j ≤ len b → len b - j < Z.of_nat n →
  returns (skipCSI n b j) (λ k, j ≤ k ≤ len b).
Proof.
  intros Hb. revert j. induction n as [| n IH]; intros j Hj Hn; [lia |]. simpl.
  destruct (Z.ltb_spec j (len b)); [| simpl; lia].
  go; [lia |]. eapply safe_mono; [apply IH; lia |]. simpl. lia.
Qed.

Lemma skipC1Control_ok d b i :
  bytes_ok b → decoder_ok d → 0 ≤ i < len b →
  returns (skipC1Control d b i) (λ '(d', next), moved b i d' next).
Proof.
  intros Hb Hd Hi. unfold skipC1Control.
  apply safe_bind, safe_byte; [done | lia |]. intros _. generalize (byteAt b i) as c. intros c.
  byte_cases c; try (simpl; moves).
  apply safe_bind. eapply safe_mono; [apply skipCSI_ok; unfold len in *; [done | lia | lia] |].
  intros j Hj. cbn beta in Hj. simpl. moves.
Qed.

Section DecodeOk.
Context {jis : ISO2022JP}.
Context (jis_text : ∀ l s, Transform l = Some s → text_ok s).

Lemma decodeJISX0208Pair_ok first second s : decodeJISX0208Pair first second = Some s → text_ok s.
Proof.
  unfold decodeJISX0208Pair. destruct (Transform _) as [t |] eqn:E; [| done].
  case_bool_decide; [done |]. intros [= <-]. by eapply jis_text.
Qed.

Lemma lookupJISX0213_ok plane first second :
  returns (lookupJISX0213 plane first second) (λ r, ∀ s, r = Some s → text_ok s).
Proof.
  unfold lookupJISX0213. destruct (negb _); [done |].
  apply safe_bind. eapply safe_mono; [apply delta_ok |]. intros [s |] Hs; [done |].
  destruct (plane =? 1); [| done].
  apply safe_bind. eapply safe_mono; [apply jisX0213Plane1CellUndefined_spec |]. intros [] _; [done |].
  destruct (decodeJISX0208Pair first second) as [s |] eqn:E; [| done].
  case_bool_decide; [done |]. simpl. intros t [= <-]. by eapply decodeJISX0208Pair_ok.
Qed.

Lemma decodeJISX0208Graphic_ok first second :
  returns (decodeJISX0208Graphic first second) text_ok.
Proof.
  unfold decodeJISX0208Graphic. destruct (negb _); [apply text_error |].
  apply safe_bind. destruct (_ || _) eqn:?;
    [eapply safe_mono; [apply table719_ok |]; intros [s |] Hs; [by apply Hs |] |].
  all: destruct (aribJISX0208Overrides !! _) as [s |] eqn:E;
    [simpl; eapply overrides_ok; [| exact E]; by vm_compute |].
  all: destruct (decodeJISX0208Pair first second) as [[| r s] |] eqn:E'; try apply text_error.
  all: by eapply decodeJISX0208Pair_ok.
Qed.

Lemma decodeARIBHiragana_ok c : returns (decodeARIBHiragana c) text_ok.
Proof.
  unfold decodeARIBHiragana. destruct (_ !! c) as [s |] eqn:E; [| apply decodeJISX0208Graphic_ok].
  eapply overrides_ok; [| exact E]. by vm_compute.
Qed.

Lemma decodeARIBKatakana_ok c : returns (decodeARIBKatakana c) text_ok.
Proof.
  unfold decodeARIBKatakana. destruct (_ !! c) as [s |] eqn:E; [| apply decodeJISX0208Graphic_ok].
  eapply overrides_ok; [| exact E]. by vm_compute.
Qed.

Lemma decodeARIBAdditionalSymbol_ok first second :
  returns (decodeARIBAdditionalSymbol first second) text_ok.
Proof.
  unfold decodeARIBAdditionalSymbol. apply safe_bind.
  eapply safe_mono; [apply table719_ok |]. intros [s |] Hs; [by apply Hs |].
  apply safe_bind. eapply safe_mono; [apply decodeJISX0208Graphic_ok |]. intros s' Hs'.
  destruct (negb _); [done | apply text_error].
Qed.

Lemma decodeARIBDRCS0_ok first second : returns (decodeARIBDRCS0 first second) text_ok.
Proof.
  unfold decodeARIBDRCS0. apply safe_bind.
  eapply safe_mono; [apply table719_ok |]. intros [s |] Hs; [by apply Hs | apply text_error].
Qed.

Lemma decodeARIBJISCompatibleKanji_ok plane first second :
  returns (decodeARIBJISCompatibleKanji plane first second) text_ok.
Proof.
  unfold decodeARIBJISCompatibleKanji. apply safe_bind.
  eapply safe_mono; [apply table721_ok |]. intros [s |] Hs; [by apply Hs |].
  apply safe_bind. eapply safe_mono; [apply lookupJISX0213_ok |].
  intros [s |] Ht; [by apply Ht | apply text_error].
Qed.

Lemma decodeARIBAlnum_ok d c : rune_ok (decodeARIBAlnum d c).
Proof.
  unfold decodeARIBAlnum, rune_ok, RuneError.
  repeat match goal with |- context [if ?b then _ else _] => destruct b eqn:?; bools end; lia.
Qed.

Lemma decodeJISX0201Katakana_ok c : rune_ok (decodeJISX0201Katakana c).
Proof. unfold decodeJISX0201Katakana, rune_ok, RuneError. destruct (_ && _) eqn:?; bools; lia. Qed.

Lemma decodeARIBNarrowJISRoman_ok c : text_ok (decodeARIBNarrowJISRoman c).
Proof.
  unfold decodeARIBNarrowJISRoman. destruct (_ && _) eqn:?; bools; [| apply text_error].
  apply text_one. unfold rune_ok. lia.
Qed.
#[local] Hint Resolve decodeARIBAlnum_ok decodeJISX0201Katakana_ok decodeARIBNarrowJISRoman_ok
  decodeARIBHiragana_ok decodeARIBKatakana_ok decodeARIBAdditionalSymbol_ok decodeARIBDRCS0_ok
  decodeARIBJISCompatibleKanji_ok decodeJISX0208Graphic_ok : go.

Definition wrote (b : list Z) (i : Z) (r : list Z * Z) : Prop := text_ok (fst r) ∧ i < snd r ≤ len b.

Lemma wrote_text b i m next :
  returns m text_ok → i < next ≤ len b → returns (s ← m; Ret (s, next)) (wrote b i).
Proof. intros Hm Hn. apply safe_bind. eapply safe_mono; [exact Hm |]. by split. Qed.

Lemma decodeGraphic_ok d b i set gr :
  bytes_ok b → 0 ≤ i < len b → returns (decodeGraphic d b i set gr) (wrote b i).
Proof.
  intros Hb Hi. unfold decodeGraphic.
  apply safe_bind, safe_byte; [done | lia |]. intros _. cbv zeta.
  assert (∀ s next, text_ok s → i < next ≤ len b → returns (Ret (s, next)) (wrote b i)) as Hret by by split.
  destruct set;
    try (first [apply Hret | apply wrote_text]; [solve [eauto with go] | lia]).
  all: destruct (Z.leb_spec (len b) (i + 1));
    [destruct (_ || _); (apply Hret; [solve [eauto with go] | lia]) |].
  all: apply safe_bind, safe_byte; [done | lia |]; intros _; cbv zeta.
  all: repeat match goal with |- context [if ?b then _ else _] => destruct b eqn:?; bools end.
  all: first [apply Hret | apply wrote_text]; [solve [eauto with go] | lia].
Qed.

Lemma decodeSingleShift_ok d b i n :
  bytes_ok b → decoder_ok d → 0 ≤ i < len b → 0 ≤ n < 4 →
  returns (decodeSingleShift d b i n) (λ '(d', s, next), text_ok s ∧ moved b i d' next).
Proof.
  intros Hb Hd Hi Hn. unfold decodeSingleShift.
  destruct (Z.leb_spec (len b) (i + 1)); [simpl; split; [eauto with go | moves] |].
  apply safe_bind, safe_elem; [by rewrite (do_g d Hd) |]. intros g _. go.
  eapply safe_mono; [apply decodeGraphic_ok; [done | lia] |].
  intros [s next] [Hs Hn']. simpl in *. split; [done | moves].
Qed.

Lemma decodeC0_ok d b i :
  bytes_ok b → decoder_ok d → 0 ≤ i < len b →
  returns (decodeC0 d b i) (λ '(d', s, next), text_ok s ∧ moved b i d' next).
Proof.
  intros Hb Hd Hi. unfold decodeC0.
  apply safe_bind, safe_byte; [done | lia |]. intros _. generalize (byteAt b i) as c. intros c.
  assert (∀ d' next, moved b i d' next →
    returns (Ret (d', @nil Z, next)) (λ '(d', s, next), text_ok s ∧ moved b i d' next)) as Hnil
    by (intros; split; [eauto with go | done]).
  byte_cases c; try (by apply decodeSingleShift_ok); try (apply Hnil; moves).
  - apply safe_bind. eapply safe_mono; [by apply decodeEscape_ok |]. intros [d' next] H. by apply Hnil.
  - simpl. split; [| moves]. apply text_one. by unfold rune_ok.
Qed.

End DecodeOk.

Lemma Decode_ok {jis : ISO2022JP} b :
  (∀ l s, Transform l = Some s → text_ok s) → bytes_ok b →
  returns (DecodeARIBString b) text_ok.
Proof.
  intros Hjis Hb. unfold DecodeARIBString, Decode.
  apply (safe_loop (λ '(d, i, out), decoder_ok d ∧ 0 ≤ i ≤ len b ∧ text_ok out)
           (λ '(_, i, _), Z.to_nat (len b - i)));
    [| split_and!; auto with go; unfold len; lia | unfold len; lia].
  intros [[d i] out] (Hd & Hi & Ho). unfold decodeBody.
  destruct (Z.ltb_spec i (len b)); [| by go].
  assert (∀ d' next s, moved b i d' next → text_ok s →
    returns (continue (R := list Z) (d', next, out ++ s)) (λ r, match r with
      | inl s' => (let '(d, i, out) := s' in decoder_ok d ∧ 0 ≤ i ≤ len b ∧ text_ok out) ∧
          ((let '(_, i, _) := s' in Z.to_nat (len b - i)) < Z.to_nat (len b - i))%nat
      | inr r => text_ok r end)) as Hnext.
  { intros d' next s [Hd' Hn] Hs. simpl. split; [split_and!; [done | lia | lia | by apply text_app] | lia]. }
  assert (∀ set gr, returns ('(s, next) ← decodeGraphic d b i set gr; continue (d, next, out ++ s))
    (λ r, match r with
      | inl s' => (let '(d, i, out) := s' in decoder_ok d ∧ 0 ≤ i ≤ len b ∧ text_ok out) ∧
          ((let '(_, i, _) := s' in Z.to_nat (len b - i)) < Z.to_nat (len b - i))%nat
      | inr r => text_ok r end)) as Hgraphic.
  { intros set gr. apply safe_bind. eapply safe_mono; [apply decodeGraphic_ok; [done | done | lia] |].
    intros [s next] [Hs Hn]. apply Hnext; [by split | done]. }
  apply safe_bind, safe_byte; [done | lia |]. intros _.
  destruct ((byteAt b i =? 32) || (byteAt b i =? 160));
    [apply Hnext; [split; [done | lia] | destruct (d_narrowAlnum d); by apply runes_okb_spec] |].
  destruct (byteAt b i <=? 31).
  { apply safe_bind. eapply safe_mono; [apply decodeC0_ok; [done | done | done | lia] |].
    intros [[d' s] next] [Hs [Hd' Hn]]. destruct (Z.leb_spec next i); [lia |].
    apply Hnext; [by split | done]. }
  destruct (_ && _).
  { apply safe_bind. eapply safe_mono; [apply skipC1Control_ok; [done | done | lia] |].
    intros [d' next] Hm. rewrite <- (app_nil_r out). apply Hnext; [done | apply text_nil]. }
  apply safe_bind, safe_andM. simpl.
  assert (∀ k, 0 ≤ k < 4 → ∃ g, (d_g d)![k] = Ret g) as Hg.
  { intros k Hk. pose proof (do_g d Hd). destruct (lookup_lt_is_Some_2 (d_g d) (Z.to_nat k)) as [g Hg];
      [unfold len in *; lia |]. exists g. apply idx_lookup; [lia | done]. }
  destruct (Hg (d_gl d)) as [gl ->]; [apply Hd |]. destruct (Hg (d_gr d)) as [gr ->]; [apply Hd |].
  run. destruct (byteAt b i =? 254); [cbn; destruct (isAlnumSet gl) |]; cbn beta iota;
    [apply Hnext; [split; [done | lia] | by apply runes_okb_spec] | |].
  all: destruct (_ && _); [apply Hgraphic |]; destruct (_ && _); [apply Hgraphic |].
  all: apply Hnext; [split; [done | lia] | apply text_error].
Qed.

(** Every byte string decodes: the
    decoder never indexes out of range, its loop ends, the error result is
    always nil, and the text is made of Unicode code points, given that the
    ISO-2022-JP library returns such text. *)
Theorem Decode_total {jis : ISO2022JP} b :
  (∀ l s, Transform l = Some s → text_ok s) → bytes_ok b →
  returns (DecodeARIBString b) text_ok.
Proof. apply Decode_ok. Qed.

(** A decoder for kana only, enough for the sample. *)
Definition sampleJIS : ISO2022JP := λ l,
  match l with [0x1b; 0x24; 0x42; 0x24; c; 0x1b; 0x28; 0x42] => Some [0x3041 + (c - 0x21)] | _ => None end.

Definition sample_text : list Z := [0x0e; 0x4e; 0x48; 0x4b; 0x1b; 0x7d; 0xa2; 0x1d; 0x21; 0x89; 0x41].

Lemma Decode_total_witness :
  returns (DecodeARIBString (jis := λ _, Some [0x3042]) sample_text) text_ok ∧
  DecodeARIBString (jis := sampleJIS) sample_text = Ret [0xff2e; 0xff28; 0xff2b; 0x3042; RuneError; 0x41].
Proof.
  split; [| by vm_compute].
  apply (Decode_total (jis := λ _, Some [0x3042])).
  - intros l s [= <-]. by apply runes_okb_spec.
  - by apply bytes_okb_spec.
Defined.

(** ** Plain text *)

(** The decoder after LS1 (alphanumeric set in GL) and MSZ (narrow). *)
Definition asciiDecoder : aribStringDecoder := setNarrow true (setGL 1 newDecoder).

Definition printable (c : Z) : Prop := 0x20 ≤ c ≤ 0x7e.

Section Ascii.
Context {jis : ISO2022JP}.

Lemma decodeBody_ascii b i out :
  0 ≤ i < len b → printable (byteAt b i) →
  decodeBody b (asciiDecoder, i, out) = continue (asciiDecoder, i + 1, out ++ [byteAt b i]).
Proof.
  intros Hi Hp. unfold printable in Hp. unfold decodeBody.
  destruct (Z.ltb_spec i (len b)); [| lia]. rewrite idx_byteAt by done. run.
  destruct (Z.eqb_spec (byteAt b i) 32) as [-> |]; [done |].
  destruct (Z.eqb_spec (byteAt b i) 160); [lia |]. cbn [orb].
  destruct (Z.leb_spec (byteAt b i) 31); [lia |].
  destruct (Z.leb_spec 128 (byteAt b i)); [lia |]. cbn [andb].
  destruct (Z.eqb_spec (byteAt b i) 254); [lia |]. run.
  destruct (Z.leb_spec 33 (byteAt b i)); [| lia].
  destruct (Z.leb_spec (byteAt b i) 126); [| lia]. cbn [andb].
  change ((d_g asciiDecoder)![d_gl asciiDecoder]) with (Ret aribSetAlphanumeric). run.
  unfold decodeGraphic. rewrite idx_byteAt by done. run.
  unfold normalizeGraphicByte, decodeARIBAlnum. cbn [d_narrowAlnum asciiDecoder setNarrow].
  destruct (Z.eqb_spec (byteAt b i) 32); [lia |].
  destruct (Z.leb_spec 33 (byteAt b i)); [| lia].
  destruct (Z.leb_spec (byteAt b i) 126); [| lia]. done.
Qed.

Lemma decodeLoop_ascii pre s out n :
  Forall printable s → (length s < n)%nat →
  loop n (decodeBody (pre ++ s)) (asciiDecoder, len pre, out) = Ret (out ++ s).
Proof.
  revert pre out n. induction s as [| c s IH]; intros pre out [| n] Hs Hn; simpl in Hn; try lia.
  - rewrite loop_S. unfold decodeBody at 2. rewrite !app_nil_r, Z.ltb_irrefl. done.
  - apply Forall_cons in Hs as [Hc Hs]. pose proof (len_nonneg pre). pose proof (len_nonneg s).
    assert (byteAt (pre ++ c :: s) (len pre) = c) as Hb.
    { rewrite byteAt_app_r by lia. by rewrite Z.sub_diag. }
    rewrite loop_S, decodeBody_ascii by (rewrite ?Hb, ?len_app, ?len_cons; done || lia).
    rewrite Hb. run. specialize (IH (pre ++ [c]) (out ++ [c]) n Hs ltac:(lia)).
    rewrite len_app, <- !app_assoc in IH. exact IH.
Qed.

(** Text of printable ASCII characters, introduced by a
    locking shift to the alphanumeric set and the middle-size control, decodes
    to itself. *)
Theorem Decode_ascii s : Forall printable s → Decode ([0x0e; 0x89] ++ s) = Ret s.
Proof.
  intros Hs. unfold Decode. cbn [app length]. rewrite loop_S.
  change (decodeBody (14 :: 137 :: s) (newDecoder, 0, [])) with
    (decodeBody ([14; 137] ++ s) (newDecoder, 0, [])).
  assert (∀ out, decodeBody ([14; 137] ++ s) (newDecoder, 0, out) =
    continue (setGL 1 newDecoder, 1, out)) as ->.
  { intros out. unfold decodeBody. pose proof (len_nonneg s). rewrite len_app. change (len [14; 137]) with 2.
    destruct (Z.ltb_spec 0 (2 + len s)); [| lia].
    trans (continue (R := list Z) (setGL 1 newDecoder, 1, out ++ [])); [reflexivity | by rewrite app_nil_r]. }
  unfold continue at 1. run. rewrite loop_S.
  assert (∀ out, decodeBody ([14; 137] ++ s) (setGL 1 newDecoder, 1, out) =
    continue (asciiDecoder, 2, out)) as Hstep.
  { intros out. unfold decodeBody. pose proof (len_nonneg s). rewrite len_app. change (len [14; 137]) with 2.
    destruct (Z.ltb_spec 1 (2 + len s)); [| lia]. done. }
  rewrite Hstep. run. apply (decodeLoop_ascii [14; 137] s []); [done | lia].
Qed.

End Ascii.

Lemma Decode_ascii_witness :
  Decode (jis := λ _, None) ([0x0e; 0x89] ++ [0x4e; 0x48; 0x4b; 0x20; 0x31]) =
    Ret [0x4e; 0x48; 0x4b; 0x20; 0x31].
Proof.
  apply (Decode_ascii (jis := λ _, None)).
  repeat (apply Forall_cons; split; [unfold printable; lia |]). apply Forall_nil_2.
Defined.
