(* ===== verification/Descriptors.v ===== *)
(** * Descriptors ([ts/descriptors.go], [nit.go] parseDescriptorsStrict)

    Splitting a descriptor loop into descriptors, leniently and strictly, and
    the descriptors whose contents the file parses.  The service descriptor of
    [sdt.go] is here too. *)

From S2P Require Import Prelude AribTables Aribstr.

Definition Descriptor : Type := list Z.

Definition Tag (d : Descriptor) : outcome Z := d![0].
Definition Length (d : Descriptor) : outcome Z := d![1].
Definition Data (d : Descriptor) : outcome (list Z) := n ← Length d; d![2; 2 + n].

(** [b[:2+length]] and [b = b[2+length:]] *)
Definition descriptorsBody (st : list Descriptor * list Z)
    : outcome (list Descriptor * list Z + list Descriptor) :=
  let '(descriptors, b) := st in
  if 2 <=? len b then
    length ← b![1];
    if len b <? 2 + length then break descriptors
    else
      d ← b![0; 2 + length];
      rest ← b![2 + length; len b];
      continue (descriptors ++ [d], rest)
  else break descriptors.

Definition ParseDescriptors (b : list Z) : outcome (list Descriptor) :=
  loop (S (length b)) descriptorsBody ([], b).

Definition descriptorsStrictBody (st : list Descriptor * list Z)
    : outcome (list Descriptor * list Z + list Descriptor) :=
  let '(descriptors, b) := st in
  if 0 <? len b then
    errorIf (len b <? 2) ErrInvalidSection;;
    length ← b![1];
    errorIf (len b <? 2 + length) ErrInvalidSection;;
    d ← b![0; 2 + length];
    rest ← b![2 + length; len b];
    continue (descriptors ++ [d], rest)
  else break descriptors.

Definition parseDescriptorsStrict (b : list Z) : outcome (list Descriptor) :=
  loop (S (length b)) descriptorsStrictBody ([], b).

Definition DescriptorTagCA : Z := 0x09.
Definition DescriptorTagService : Z := 0x48.
Definition DescriptorTagServiceList : Z := 0x41.
Definition DescriptorTagShortEvent : Z := 0x4D.
Definition DescriptorTagExtendedEvent : Z := 0x4E.
Definition DescriptorTagComponent : Z := 0x50.
Definition DescriptorTagContent : Z := 0x54.
Definition DescriptorTagAudioComponent : Z := 0xC4.
Definition DescriptorTagDataComponent : Z := 0xFD.
Definition DescriptorTagExtendedBroadcaster : Z := 0xCE.
Definition DescriptorTagBroadcasterName : Z := 0xD8.
Definition DescriptorTagDownloadContent : Z := 0xC9.
Definition DescriptorTagLogoTransmission : Z := 0xCF.
Definition DescriptorTagTSInformation : Z := 0xCD.
Definition DescriptorTagTerrestrialDeliverySystem : Z := 0xFA.
Definition DescriptorTagEventGroup : Z := 0xD6.
Definition DescriptorTagSeries : Z := 0xD5.

(** The checks every parser of a single descriptor starts with. *)
Definition checkComplete (d : Descriptor) : outcome unit :=
  short ← (Ret (len d <? 2) ||? (n ← Length d; Ret (len d <? 2 + n)));
  errorIf short ErrInvalidSection.
Definition checkTag (d : Descriptor) (tag : Z) : outcome unit :=
  t ← Tag d; errorIf (negb (t =? tag)) (ErrUnexpectedTag t).

(** ** Data component descriptor *)

Record DataComponentDescriptor : Type := MkDataComponent {
  DataComponentID : Z;
  AdditionalDataComponentInfo : list Z
}.

Definition ParseDataComponentDescriptor (d : Descriptor) : outcome DataComponentDescriptor :=
  checkComplete d;;
  bad ← ((t ← Tag d; Ret (negb (t =? DescriptorTagDataComponent))) ||?
         (data ← Data d; Ret (len data <? 2)));
  errorIf bad ErrInvalidSection;;
  data ← Data d;
  id ← get16 data 0;
  info ← data![2; len data];
  Ret (MkDataComponent id info).

Record AdditionalAribBXMLEntryPointInfo : Type := MkEntryPoint {
  AutoStartFlag : bool;
  DocumentResolution : Z;
  UseXML : bool;
  DefaultVersionFlag : bool;
  IndependentFlag : bool;
  StyleForTVFlag : bool;
  BMLMajorVersion : Z;
  BMLMinorVersion : Z;
  BXMLMajorVersion : option Z;
  BXMLMinorVersion : option Z
}.

Record AdditionalAribCarouselInfo : Type := MkCarouselInfo {
  DataEventID : Z;
  EventSectionFlag : bool;
  OnDemandRetrievalFlag : bool;
  FileStorableFlag : bool;
  StartPriority : Z
}.

Record AdditionalAribBXMLInfo : Type := MkBXML {
  TransmissionFormat : Z;
  EntryPointFlag : bool;
  EntryPointInfo : option AdditionalAribBXMLEntryPointInfo;
  CarouselInfo : option AdditionalAribCarouselInfo
}.

(** The entry point read at [off], and the offset after it. *)
Definition parseEntryPoint (data : list Z) (off : Z)
    : outcome (AdditionalAribBXMLEntryPointInfo * Z) :=
  errorIf (len data <? off + 1) ErrInvalidSection;;
  b0 ← data![0];
  b1 ← data![off];
  let entry := MkEntryPoint (bit b0 0x10) (Z.land b0 0x0f) (bit b1 0x80) (bit b1 0x40)
                 (bit b1 0x20) (bit b1 0x10) in
  let off := off + 1 in
  if negb (bit b1 0x40) then
    errorIf (len data <? off + 4) ErrInvalidSection;;
    major ← get16 data off;
    minor ← get16 data (off + 2);
    let off := off + 4 in
    if bit b1 0x80 then
      errorIf (len data <? off + 4) ErrInvalidSection;;
      xmajor ← get16 data off;
      xminor ← get16 data (off + 2);
      Ret (entry major minor (Some xmajor) (Some xminor), off + 4)
    else Ret (entry major minor None None, off)
  else Ret (entry 1 0 None None, off).

Definition ParseAdditionalAribBXMLInfo (data : list Z) : outcome AdditionalAribBXMLInfo :=
  errorIf (len data <? 3) ErrInvalidSection;;
  b0 ← data![0];
  let format := Z.land (Z.shiftr b0 6) 0x03 in
  '(entry, off) ← (if bit b0 0x20
                   then '(e, off) ← parseEntryPoint data 1; Ret (Some e, off)
                   else Ret (None, 1));
  carousel ← (if format =? 0 then
                errorIf (len data <? off + 2) ErrInvalidSection;;
                c0 ← data![off];
                c1 ← data![off + 1];
                Ret (Some (MkCarouselInfo (Z.shiftr c0 4) (bit c0 0x08) (bit c1 0x80) (bit c1 0x40)
                             (Z.land (Z.shiftr c1 5) 0x01)))
              else Ret None);
  Ret (MkBXML format (bit b0 0x20) entry carousel).

(** ** TS information, service list, terrestrial delivery, service *)

Record TSInformationTransmissionType : Type := MkTransmissionType {
  TransmissionTypeInfo : Z;
  ServiceIDs : list Z
}.

Record TSInformationDescriptor : Type := MkTSInformation {
  RemoteControlKeyID : Z;
  TSName : list Z;
  TransmissionTypes : list TSInformationTransmissionType
}.

(** [n] 16-bit words from [off] on. *)
Fixpoint readWords (n : nat) (data : list Z) (off : Z) : outcome (list Z) :=
  match n with
  | O => Ret []
  | S n => x ← get16 data off; xs ← readWords n data (off + 2); Ret (x :: xs)
  end.

Fixpoint readTransmissionTypes (n : nat) (data : list Z) (off : Z)
    : outcome (list TSInformationTransmissionType) :=
  match n with
  | O => Ret []
  | S n =>
      errorIf (len data <? off + 2) ErrInvalidSection;;
      info ← data![off];
      numServices ← data![off + 1];
      let off := off + 2 in
      errorIf (len data <? off + numServices * 2) ErrInvalidSection;;
      ids ← readWords (Z.to_nat numServices) data off;
      rest ← readTransmissionTypes n data (off + numServices * 2);
      Ret (MkTransmissionType info ids :: rest)
  end.

Record ServiceListEntry : Type := MkServiceListEntry {
  sle_ServiceID : Z;
  sle_ServiceType : Z
}.

Fixpoint readServiceList (n : nat) (data : list Z) (off : Z) : outcome (list ServiceListEntry) :=
  match n with
  | O => Diverge
  | S n =>
      if off <? len data then
        id ← get16 data off;
        ty ← data![off + 2];
        rest ← readServiceList n data (off + 3);
        Ret (MkServiceListEntry id ty :: rest)
      else Ret []
  end.

Definition ParseServiceListDescriptor (d : Descriptor) : outcome (list ServiceListEntry) :=
  checkComplete d;;
  checkTag d DescriptorTagServiceList;;
  data ← Data d;
  errorIf (negb (len data mod 3 =? 0)) ErrInvalidSection;;
  readServiceList (S (length data)) data 0.

Record TerrestrialDeliverySystemDescriptor : Type := MkTerrestrial {
  AreaCode : Z;
  GuardInterval : Z;
  TransmissionMode : Z;
  Frequencies : list Z
}.

Fixpoint readFrequencies (n : nat) (data : list Z) (off : Z) : outcome (list Z) :=
  match n with
  | O => Diverge
  | S n =>
      if off <? len data then
        x ← get16 data off; xs ← readFrequencies n data (off + 2); Ret (x :: xs)
      else Ret []
  end.

Definition ParseTerrestrialDeliverySystemDescriptor (d : Descriptor)
    : outcome TerrestrialDeliverySystemDescriptor :=
  checkComplete d;;
  checkTag d DescriptorTagTerrestrialDeliverySystem;;
  data ← Data d;
  bad ← (Ret (len data <? 2) ||?
         (tail ← data![2; len data]; Ret (negb (len tail mod 2 =? 0))));
  errorIf bad ErrInvalidSection;;
  d0 ← data![0];
  d1 ← data![1];
  fs ← readFrequencies (S (length data)) data 2;
  Ret (MkTerrestrial (Z.lor (Z.shiftl d0 4) (Z.shiftr d1 4)) (Z.land (Z.shiftr d1 2) 0x03)
         (Z.land d1 0x03) fs).

Record ServiceDescriptor : Type := MkServiceDescriptor {
  ServiceType : Z;
  ServiceProviderName : list Z;
  ServiceName : list Z
}.

Section Strings.
Context {jis : ISO2022JP}.

Definition ParseTSInformationDescriptor (d : Descriptor) : outcome TSInformationDescriptor :=
  checkComplete d;;
  checkTag d DescriptorTagTSInformation;;
  data ← Data d;
  errorIf (len data <? 2) ErrInvalidSection;;
  d1 ← data![1];
  let nameLen := Z.shiftr d1 2 in
  let transmissionTypeCount := Z.land d1 0x03 in
  let nameEnd := 2 + nameLen in
  errorIf (len data <? nameEnd) ErrInvalidSection;;
  nameBytes ← data![2; nameEnd];
  name ← DecodeARIBString nameBytes;
  key ← data![0];
  types ← readTransmissionTypes (Z.to_nat transmissionTypeCount) data nameEnd;
  Ret (MkTSInformation key name types).

Definition ParseServiceDescriptor (d : Descriptor) : outcome ServiceDescriptor :=
  checkTag d DescriptorTagService;;
  data ← Data d;
  errorIf (len data <? 3) ErrInvalidSection;;
  providerLen ← data![1];
  let providerStart := 2 in
  let providerEnd := providerStart + providerLen in
  errorIf (len data <=? providerEnd) ErrInvalidSection;;
  nameLen ← data![providerEnd];
  let nameStart := providerEnd + 1 in
  let nameEnd := nameStart + nameLen in
  errorIf (len data <? nameEnd) ErrInvalidSection;;
  providerBytes ← data![providerStart; providerEnd];
  provider ← DecodeARIBString providerBytes;
  nameBytes ← data![nameStart; nameEnd];
  name ← DecodeARIBString nameBytes;
  serviceType ← data![0];
  Ret (MkServiceDescriptor serviceType provider name).

End Strings.

(** ** The grammar of a descriptor loop *)

(** One whole descriptor: its tag, the length of its payload, its payload. *)
Definition desc_ok (d : Descriptor) : Prop :=
  ∃ tag payload, d = tag :: len payload :: payload.

Definition desc_okb (d : Descriptor) : bool :=
  match d with _ :: n :: payload => n =? len payload | _ => false end.

Lemma desc_okb_spec d : desc_okb d = true → desc_ok d.
Proof. destruct d as [| t [| n p]]; try done. simpl. intros ->%Z.eqb_eq. by exists t, p. Qed.

Lemma descs_okb_spec ds : forallb desc_okb ds = true → Forall desc_ok ds.
Proof.
  intros H. apply Forall_forall. intros d Hd. rewrite forallb_forall in H.
  by apply desc_okb_spec, H, list_elem_of_In.
Qed.

(** [b] is a sequence of whole descriptors [ds]. *)
Definition splits (b : list Z) (ds : list Descriptor) : Prop := b = concat ds ∧ Forall desc_ok ds.

Lemma desc_ok_prefix d d' k k' : desc_ok d → desc_ok d' → d ++ k = d' ++ k' → d = d' ∧ k = k'.
Proof.
  intros (t & p & ->) (t' & p' & ->). simpl. intros [= -> Hl Happ].
  assert (length p = length p') as Hp by (unfold len in Hl; lia).
  apply app_inj_1 in Happ as [-> ->]; done.
Qed.

Lemma desc_ok_len d : desc_ok d → 2 ≤ len d.
Proof. intros (t & p & ->). rewrite !len_cons. pose proof (len_nonneg p). lia. Qed.

(** Two splittings of the same bytes agree as far as both go. *)
Lemma splits_prefix ds ds' rest :
  Forall desc_ok ds → Forall desc_ok ds' → concat ds' = concat ds ++ rest →
  ∃ ds'', ds' = ds ++ ds'' ∧ rest = concat ds''.
Proof.
  intros Hds. revert ds'. induction Hds as [| d ds Hd Hds IH]; intros ds' Hds' Heq; simpl in *.
  - by exists ds'.
  - pose proof (desc_ok_len d Hd). destruct Hds' as [| d' ds' Hd' Hds'].
    { simpl in Heq. apply (f_equal len) in Heq. rewrite !len_app, len_nil in Heq.
      pose proof (len_nonneg (concat ds)). pose proof (len_nonneg rest). lia. }
    simpl in Heq. rewrite <- app_assoc in Heq. apply desc_ok_prefix in Heq as [-> Heq]; [| done | done].
    destruct (IH ds' Hds' Heq) as (ds'' & -> & ->). by exists ds''.
Qed.

(** The first descriptor of [b], when [b] holds a whole one. *)
Lemma cut_descriptor b :
  bytes_ok b → 2 ≤ len b → 2 + byteAt b 1 ≤ len b →
  desc_ok (sub b 0 (2 + byteAt b 1)) ∧
  b = sub b 0 (2 + byteAt b 1) ++ sub b (2 + byteAt b 1) (len b) ∧
  (length (sub b (2 + byteAt b 1) (len b)) < length b)%nat.
Proof.
  intros Hb H2 Hl. pose proof (byteAt_ok b 1 Hb) as Hn. unfold byte_ok in Hn.
  destruct b as [| t [| n p]]; try by (rewrite ?len_cons, ?len_nil in H2; lia).
  change (byteAt (t :: n :: p) 1) with n in *. rewrite !len_cons in Hl. split_and!.
  - exists t, (take (Z.to_nat n) p). unfold sub.
    replace (Z.to_nat (2 + n - 0)) with (2 + Z.to_nat n)%nat by lia.
    simpl. do 2 f_equal. unfold len in *. rewrite length_take. lia.
  - apply sub_cut. rewrite !len_cons. lia.
  - assert (len (sub (t :: n :: p) (2 + n) (len (t :: n :: p))) = len (t :: n :: p) - (2 + n)) as Hs
      by (apply len_sub; rewrite ?len_cons; lia).
    unfold len in *. cbn [length] in *. lia.
Qed.

Lemma first_descriptor b d k : b = d ++ k → desc_ok d → 2 ≤ len b ∧ 2 + byteAt b 1 ≤ len b.
Proof.
  intros -> (t & p & ->). simpl. rewrite !len_cons, len_app.
  change (byteAt (t :: len p :: p ++ k) 1) with (len p).
  pose proof (len_nonneg p). pose proof (len_nonneg k). lia.
Qed.

(** The descriptors read so far and the bytes left. *)
Definition parsed (b : list Z) (st : list Descriptor * list Z) : Prop :=
  Forall desc_ok (fst st) ∧ b = concat (fst st) ++ snd st ∧ bytes_ok (snd st).

Lemma parsed_step b ds d rest k :
  parsed b (ds, rest) → desc_ok d → rest = d ++ k → parsed b (ds ++ [d], k).
Proof.
  intros (Hds & -> & Hb) Hd ->. unfold parsed. simpl in *.
  split_and!; [by apply Forall_app; split; [| apply Forall_singleton] | |].
  - rewrite concat_app. simpl. by rewrite app_nil_r, <- app_assoc.
  - by apply Forall_app in Hb as [_ Hb].
Qed.

(** A descriptor loop that stopped where no whole descriptor follows. *)
Definition maximal (b : list Z) (ds : list Descriptor) : Prop :=
  Forall desc_ok ds ∧ ∃ rest, b = concat ds ++ rest ∧ ∀ d k, rest = d ++ k → ¬ desc_ok d.

Lemma maximal_bytes b ds : bytes_ok b → maximal b ds → Forall bytes_ok ds.
Proof.
  intros Hb [_ (rest & -> & _)]. apply Forall_app in Hb as [Hb _].
  induction ds as [| d ds IH]; [done |]. apply Forall_app in Hb as [Hd Hb]. constructor; [done | by apply IH].
Qed.

Lemma ParseDescriptors_spec b : bytes_ok b → returns (ParseDescriptors b) (maximal b).
Proof.
  intros Hb. apply (safe_loop (parsed b) (λ st, length (snd st))); [| done | simpl; lia].
  intros [ds rest] Hp. pose proof Hp as (Hds & Hbr & Hr). simpl in *.
  assert (∀ d k, rest = d ++ k → desc_ok d → 2 ≤ len rest ∧ 2 + byteAt rest 1 ≤ len rest) as Hfirst
    by (intros; by eapply first_descriptor).
  destruct (Z.leb_spec 2 (len rest)).
  - apply safe_bind, safe_byte; [done | lia |]. intros Hn. unfold byte_ok in Hn.
    destruct (Z.ltb_spec (len rest) (2 + byteAt rest 1)).
    + simpl. split; [done |]. exists rest. split; [done |]. intros d k Hk Hd.
      specialize (Hfirst d k Hk Hd). lia.
    + destruct (cut_descriptor rest) as (Hd & Hcut & Hlt); [done | lia | lia |].
      go. split; [by eapply parsed_step | done].
  - simpl. split; [done |]. exists rest. split; [done |]. intros d k Hk Hd.
    specialize (Hfirst d k Hk Hd). lia.
Qed.

Lemma parseDescriptorsStrict_spec b :
  bytes_ok b →
  ends (λ e, e = ErrInvalidSection ∧ ¬ ∃ ds, splits b ds) (parseDescriptorsStrict b) (splits b).
Proof.
  intros Hb. apply (safe_loop (parsed b) (λ st, length (snd st))); [| done | simpl; lia].
  intros [ds rest] Hp. pose proof Hp as (Hds & Hbr & Hr). simpl in *.
  destruct (Z.ltb_spec 0 (len rest)) as [Hpos | Hend].
  2: { simpl. rewrite (len_zero_nil rest), app_nil_r in Hbr by (pose proof (len_nonneg rest); lia).
       by split. }
  assert (¬ (2 ≤ len rest ∧ 2 + byteAt rest 1 ≤ len rest) →
    ErrInvalidSection = ErrInvalidSection ∧ ¬ ∃ ds', splits b ds') as Hbad.
  { intros Hno. split; [done |]. intros (ds' & Hb' & Hds'). rewrite Hbr in Hb'.
    destruct (splits_prefix ds ds' rest) as (ds'' & -> & Hrest); [done | done | done |].
    apply Forall_app in Hds' as [_ Hds'']. destruct Hds'' as [| d ds'' Hd _]; simpl in Hrest.
    - subst rest. by compute in Hpos.
    - by apply Hno, (first_descriptor rest d (concat ds'')). }
  apply safe_bind, safe_errorIf; intros Hlen; bools; [apply Hbad; lia |].
  apply safe_bind, safe_byte; [done | lia |]. intros Hn. unfold byte_ok in Hn.
  apply safe_bind, safe_errorIf; intros Hlen'; bools; [apply Hbad; lia |].
  destruct (cut_descriptor rest) as (Hd & Hcut & Hlt); [done | lia | lia |].
  go. split; [by eapply parsed_step | done].
Qed.

(** Both parsers read a sequence of whole descriptors back. *)
Lemma maximal_splits b ds ds' : maximal b ds → splits b ds' → ds = ds'.
Proof.
  intros (Hds & rest & Hrest & Hno) [Hb' Hds']. rewrite Hb' in Hrest.
  destruct (splits_prefix ds ds' rest) as (ds'' & -> & Hr); [done | done | done |].
  destruct ds'' as [| d ds'']; [by rewrite app_nil_r |].
  apply Forall_app in Hds' as [_ [Hd _]%Forall_cons]. by destruct (Hno d (concat ds'')).
Qed.

Lemma splits_unique b ds ds' : splits b ds → splits b ds' → ds = ds'.
Proof.
  intros [-> Hds] H. eapply maximal_splits; [| done]. split; [done |].
  exists []. split; [by rewrite app_nil_r |]. intros d k Hk Hd. apply desc_ok_len in Hd.
  symmetry in Hk. apply app_eq_nil in Hk as [-> _]. by rewrite len_nil in Hd.
Qed.

Lemma ParseDescriptors_concat ds :
  bytes_ok (concat ds) → Forall desc_ok ds → ParseDescriptors (concat ds) = Ret ds.
Proof.
  intros Hb Hds. pose proof (ParseDescriptors_spec _ Hb) as H.
  destruct (ParseDescriptors (concat ds)) as [ds' | | |]; try done. f_equal.
  by apply (maximal_splits (concat ds)).
Qed.

Lemma parseDescriptorsStrict_concat ds :
  bytes_ok (concat ds) → Forall desc_ok ds → parseDescriptorsStrict (concat ds) = Ret ds.
Proof.
  intros Hb Hds. pose proof (parseDescriptorsStrict_spec _ Hb) as H.
  destruct (parseDescriptorsStrict (concat ds)) as [ds' | e | |]; try done; simpl in H.
  - f_equal. by apply (splits_unique (concat ds)).
  - destruct H as [_ []]. by exists ds.
Qed.

(** The strict parser accepts exactly the byte
    strings that are sequences of whole descriptors, and returns that sequence;
    any other input is rejected with ErrInvalidSection. *)
Theorem parseDescriptorsStrict_exact b :
  bytes_ok b →
  (∀ ds, parseDescriptorsStrict b = Ret ds ↔ splits b ds) ∧
  (parseDescriptorsStrict b = Err ErrInvalidSection ↔ ¬ ∃ ds, splits b ds).
Proof.
  intros Hb. pose proof (parseDescriptorsStrict_spec b Hb) as H.
  destruct (parseDescriptorsStrict b) as [ds | e | |]; try done; simpl in H.
  - split; [| naive_solver]. intros ds'. split; [by intros [= <-] |].
    intros. f_equal. by apply (splits_unique b).
  - destruct H as [-> Hno]. split; [| naive_solver]. intros ds. split; [done |].
    intros. destruct Hno. by exists ds.
Qed.

Lemma parseDescriptorsStrict_exact_witness :
  parseDescriptorsStrict [0x41; 3; 1; 2; 1; 0x48; 0] = Ret [[0x41; 3; 1; 2; 1]; [0x48; 0]] ∧
  parseDescriptorsStrict [0x41; 3; 1; 2] = Err ErrInvalidSection.
Proof.
  split.
  - apply parseDescriptorsStrict_exact; [by apply bytes_okb_spec |].
    split; [done | by apply descs_okb_spec].
  - by vm_compute.
Defined.

(** The lenient parser never fails: it returns the
    whole descriptors at the front of the bytes, and stops only where no whole
    descriptor follows; on well-formed loops it agrees with the strict one. *)
Theorem ParseDescriptors_maximal b :
  bytes_ok b →
  returns (ParseDescriptors b) (λ ds, maximal b ds ∧
    ∀ ds', splits b ds' → ds = ds').
Proof.
  intros Hb. eapply safe_mono; [by apply ParseDescriptors_spec |].
  intros ds Hmax. split; [done |]. intros ds'. by apply maximal_splits.
Qed.

Lemma ParseDescriptors_maximal_witness :
  returns (ParseDescriptors [0x41; 1; 7; 0x48; 9]) (λ ds, maximal [0x41; 1; 7; 0x48; 9] ds ∧
    ∀ ds', splits [0x41; 1; 7; 0x48; 9] ds' → ds = ds') ∧
  ParseDescriptors [0x41; 1; 7; 0x48; 9] = Ret [[0x41; 1; 7]].
Proof.
  split; [| by vm_compute]. by apply ParseDescriptors_maximal, bytes_okb_spec.
Defined.

(** ** Parsing one descriptor *)

(** Where [d] is at least as long as its length byte says. *)
Definition complete (d : Descriptor) : Prop := 2 ≤ len d ∧ 2 + byteAt d 1 ≤ len d.

Lemma desc_ok_complete d : desc_ok d → complete d.
Proof. intros Hd. apply (first_descriptor d d []); [by rewrite app_nil_r | done]. Qed.

Lemma checkComplete_safe (E : error → Prop) d P :
  bytes_ok d → E ErrInvalidSection → (complete d → P tt) → ends E (checkComplete d) P.
Proof.
  intros Hd He HP. unfold checkComplete, Length. apply safe_bind, safe_orM, safe_ret.
  destruct (Z.ltb_spec (len d) 2); [exact He |].
  apply safe_bind, safe_byte; [done | lia |]. intros _. apply safe_ret.
  destruct (Z.ltb_spec (len d) (2 + byteAt d 1)); [exact He |]. by apply HP.
Qed.

Lemma Data_safe (E : error → Prop) d P :
  bytes_ok d → complete d →
  (bytes_ok (sub d 2 (2 + byteAt d 1)) → P (sub d 2 (2 + byteAt d 1))) → ends E (Data d) P.
Proof.
  intros Hd [H2 Hl] HP. pose proof (byteAt_ok d 1 Hd) as Hb. unfold byte_ok in Hb.
  unfold Data, Length. go. by apply HP, bytes_ok_sub.
Qed.

Lemma checkTag_safe d tag (P : unit → Prop) : bytes_ok d → complete d → P tt → safe (checkTag d tag) P.
Proof.
  intros Hd [H2 _] HP. unfold checkTag, Tag. apply safe_bind, safe_byte; [done | lia |].
  intros _. by apply safe_errorIf.
Qed.

Lemma readWords_safe n data off :
  bytes_ok data → 0 ≤ off → off + Z.of_nat n * 2 ≤ len data →
  returns (readWords n data off) (λ xs, length xs = n).
Proof.
  intros Hd. revert off. induction n as [| n IH]; intros off Ho Hl; [done |]. simpl.
  apply safe_bind, safe_get16; [done | lia | lia |]. intros _.
  apply safe_bind. eapply safe_mono; [apply IH; lia |]. simpl. by intros xs ->.
Qed.

Lemma readTransmissionTypes_safe n data off :
  bytes_ok data → 0 ≤ off → safe (readTransmissionTypes n data off) (λ ts, length ts = n).
Proof.
  intros Hd. revert off. induction n as [| n IH]; intros off Ho; [done |]. simpl.
  go. eapply returns_ends; [apply readWords_safe; [done | lia | unfold byte_ok in *; lia] |].
  intros ids _. go. eapply safe_mono; [apply IH; unfold byte_ok in *; lia |]. simpl. by intros ts ->.
Qed.

Lemma readServiceList_safe k n data off :
  bytes_ok data → 0 ≤ off → len data = off + 3 * Z.of_nat k → (k < n)%nat →
  returns (readServiceList n data off) (λ es, length es = k).
Proof.
  intros Hd. revert k off. induction n as [| n IH]; intros k off Ho Hm Hn; [lia |]. simpl.
  destruct (Z.ltb_spec off (len data)) as [Hlt |]; [| simpl; lia].
  destruct k as [| k]; [lia |].
  apply safe_bind, safe_get16; [done | lia | lia |]. intros _.
  apply safe_bind, safe_byte; [done | lia |]. intros _.
  apply safe_bind. eapply safe_mono; [apply (IH k); lia |]. simpl. by intros es ->.
Qed.

Lemma readFrequencies_safe k n data off :
  bytes_ok data → 0 ≤ off → len data = off + 2 * Z.of_nat k → (k < n)%nat →
  returns (readFrequencies n data off) (λ xs, length xs = k).
Proof.
  intros Hd. revert k off. induction n as [| n IH]; intros k off Ho Hm Hn; [lia |]. simpl.
  destruct (Z.ltb_spec off (len data)) as [Hlt |]; [| simpl; lia].
  destruct k as [| k]; [lia |].
  apply safe_bind, safe_get16; [done | lia | lia |]. intros _.
  apply safe_bind. eapply safe_mono; [apply (IH k); lia |]. simpl. by intros es ->.
Qed.

Lemma ParseServiceListDescriptor_safe d :
  bytes_ok d → safe (ParseServiceListDescriptor d) (λ es, 3 * len es = byteAt d 1).
Proof.
  intros Hd. unfold ParseServiceListDescriptor.
  apply safe_bind, checkComplete_safe; [done | done |]. intros Hc.
  apply safe_bind, checkTag_safe; [done | done |].
  apply safe_bind, Data_safe; [done | done |]. intros Hb. destruct Hc as [H2 Hl].
  pose proof (byteAt_ok d 1 Hd) as Hn. unfold byte_ok in Hn.
  assert (len (sub d 2 (2 + byteAt d 1)) = byteAt d 1) as HL by (rewrite len_sub; lia).
  set (data := sub d 2 (2 + byteAt d 1)) in *.
  go. pose proof (Z.div_mod (len data) 3 ltac:(lia)). pose proof (Z.div_pos (len data) 3).
  eapply returns_ends; [apply (readServiceList_safe (Z.to_nat (len data / 3))); [done | lia | lia |] |].
  - assert (len data / 3 ≤ len data) by lia. unfold len in *. lia.
  - intros es Hes. unfold len in *. lia.
Qed.

Lemma ParseTerrestrial_safe d :
  bytes_ok d → safe (ParseTerrestrialDeliverySystemDescriptor d)
    (λ r, byteAt d 1 = 2 + 2 * len (Frequencies r)).
Proof.
  intros Hd. unfold ParseTerrestrialDeliverySystemDescriptor.
  apply safe_bind, checkComplete_safe; [done | done |]. intros Hc.
  apply safe_bind, checkTag_safe; [done | done |].
  apply safe_bind, Data_safe; [done | done |]. intros Hb. destruct Hc as [H2 Hl].
  pose proof (byteAt_ok d 1 Hd) as Hn. unfold byte_ok in Hn.
  assert (len (sub d 2 (2 + byteAt d 1)) = byteAt d 1) as HL by (rewrite len_sub; lia).
  set (data := sub d 2 (2 + byteAt d 1)) in *.
  go. rename H0 into Hm. rewrite H in Hm.
  pose proof (Z.div_mod (len data - 2) 2 ltac:(lia)). pose proof (Z.div_pos (len data - 2) 2).
  eapply returns_ends; [apply (readFrequencies_safe (Z.to_nat ((len data - 2) / 2))); [done | lia | lia |] |].
  - assert ((len data - 2) / 2 ≤ len data) by lia. unfold len in *. lia.
  - intros es Hes. simpl. unfold len in *. lia.
Qed.

Lemma ParseDataComponent_safe d :
  bytes_ok d → safe (ParseDataComponentDescriptor d)
    (λ r, byteAt d 1 = 2 + len (AdditionalDataComponentInfo r)).
Proof.
  intros Hd. unfold ParseDataComponentDescriptor.
  apply safe_bind, checkComplete_safe; [done | done |]. intros Hc. pose proof Hc as [H2 Hl].
  pose proof (byteAt_ok d 1 Hd) as Hn. unfold byte_ok in Hn.
  assert (len (sub d 2 (2 + byteAt d 1)) = byteAt d 1) as HL by (rewrite len_sub; lia).
  unfold Tag. go. apply Data_safe; [done | done |]. intros Hb. go.
  apply Data_safe; [done | done |]. intros _. go. simpl. lia.
Qed.

Lemma ParseBXML_safe data :
  bytes_ok data → safe (ParseAdditionalAribBXMLInfo data) (λ r,
    EntryPointFlag r = bool_decide (is_Some (EntryPointInfo r)) ∧
    (TransmissionFormat r =? 0) = bool_decide (is_Some (CarouselInfo r))).
Proof.
  intros Hd. unfold ParseAdditionalAribBXMLInfo, parseEntryPoint. go; simpl; split;
    first [reflexivity | assumption | by apply Z.eqb_eq | by apply Z.eqb_neq].
Qed.

Lemma ParseTSInformation_safe {jis : ISO2022JP} d :
  (∀ b, bytes_ok b → returns (DecodeARIBString b) text_ok) → bytes_ok d →
  safe (ParseTSInformationDescriptor d) (λ r, text_ok (TSName r) ∧ len (TransmissionTypes r) ≤ 3).
Proof.
  intros Hdec Hd. unfold ParseTSInformationDescriptor.
  apply safe_bind, checkComplete_safe; [done | done |]. intros Hc. pose proof Hc as [H2 Hl].
  pose proof (byteAt_ok d 1 Hd) as Hn. unfold byte_ok in Hn.
  apply safe_bind, checkTag_safe; [done | done |].
  apply safe_bind, Data_safe; [done | done |]. intros Hb.
  assert (len (sub d 2 (2 + byteAt d 1)) = byteAt d 1) as HL by (rewrite len_sub; lia).
  set (data := sub d 2 (2 + byteAt d 1)) in *.
  apply safe_bind, safe_errorIf; [done |]. intros Hlen. bools.
  apply safe_bind, safe_byte; [done | lia |]. intros H1.
  pose proof (proj2 (Z.shiftr_nonneg (byteAt data 1) 2) ltac:(apply H1)).
  apply safe_bind, safe_errorIf; [done |]. intros Hlen'. bools.
  apply safe_bind, safe_slice; [lia | lia |]. intros _.
  apply safe_bind. eapply returns_ends; [by apply Hdec, bytes_ok_sub |]. intros name Hname.
  apply safe_bind, safe_byte; [done | lia |]. intros _.
  apply safe_bind. eapply safe_mono; [apply readTransmissionTypes_safe; [done | lia] |].
  intros ts Hts. cbn beta in Hts. simpl. split; [done |]. pose proof (land_mask (byteAt data 1) 3 ltac:(lia)). unfold len. lia.
Qed.

Lemma ParseService_safe {jis : ISO2022JP} d :
  (∀ b, bytes_ok b → returns (DecodeARIBString b) text_ok) → bytes_ok d → complete d →
  safe (ParseServiceDescriptor d) (λ r, text_ok (ServiceProviderName r) ∧ text_ok (ServiceName r)).
Proof.
  intros Hdec Hd Hc. pose proof Hc as [H2 Hl]. unfold ParseServiceDescriptor.
  pose proof (byteAt_ok d 1 Hd) as Hn. unfold byte_ok in Hn.
  apply safe_bind, checkTag_safe; [done | done |].
  apply safe_bind, Data_safe; [done | done |]. intros Hb.
  assert (len (sub d 2 (2 + byteAt d 1)) = byteAt d 1) as HL by (rewrite len_sub; lia).
  set (data := sub d 2 (2 + byteAt d 1)) in *. go.
  eapply returns_ends; [by apply Hdec, bytes_ok_sub |]. intros provider Hprovider. go.
  eapply returns_ends; [by apply Hdec, bytes_ok_sub |]. intros name Hname. go. by split.
Qed.

(** The parsers of descriptors.go and sdt.go: whatever the bytes of a
    descriptor, each parser returns a value or an error and never panics; the
    fields of the value have the sizes the descriptor's length byte dictates.
    ParseServiceDescriptor is given whole descriptors by its callers. *)
Theorem descriptor_parsers_total {jis : ISO2022JP} d :
  (∀ l s, Transform l = Some s → text_ok s) → bytes_ok d →
  safe (ParseServiceListDescriptor d) (λ es, 3 * len es = byteAt d 1) ∧
  safe (ParseTerrestrialDeliverySystemDescriptor d)
    (λ r, byteAt d 1 = 2 + 2 * len (Frequencies r)) ∧
  safe (ParseDataComponentDescriptor d)
    (λ r, byteAt d 1 = 2 + len (AdditionalDataComponentInfo r)) ∧
  safe (ParseAdditionalAribBXMLInfo d) (λ r,
    EntryPointFlag r = bool_decide (is_Some (EntryPointInfo r)) ∧
    (TransmissionFormat r =? 0) = bool_decide (is_Some (CarouselInfo r))) ∧
  safe (ParseTSInformationDescriptor d)
    (λ r, text_ok (TSName r) ∧ len (TransmissionTypes r) ≤ 3) ∧
  (desc_ok d → safe (ParseServiceDescriptor d)
    (λ r, text_ok (ServiceProviderName r) ∧ text_ok (ServiceName r))).
Proof.
  intros Hjis Hd.
  assert (∀ b, bytes_ok b → returns (DecodeARIBString b) text_ok) as Hdec by (intros; by apply Decode_ok).
  split_and!.
  - by apply ParseServiceListDescriptor_safe.
  - by apply ParseTerrestrial_safe.
  - by apply ParseDataComponent_safe.
  - by apply ParseBXML_safe.
  - by apply ParseTSInformation_safe.
  - intros Hok. by apply ParseService_safe, desc_ok_complete.
Qed.

(** The service list of a network: two services. *)
Definition sample_service_list : Descriptor := [0x41; 6; 4; 1; 1; 4; 2; 0xc0].

Lemma descriptor_parsers_total_witness :
  safe (ParseServiceListDescriptor sample_service_list)
    (λ es, 3 * len es = byteAt sample_service_list 1) ∧
  ParseServiceListDescriptor sample_service_list =
    Ret [MkServiceListEntry 0x401 1; MkServiceListEntry 0x402 0xc0].
Proof.
  split; [| by vm_compute].
  apply (descriptor_parsers_total (jis := λ _, None)); [done | by apply bytes_okb_spec].
Defined.

(** ** Round trips *)

Definition whole (tag : Z) (payload : list Z) : Descriptor := tag :: len payload :: payload.

Lemma Length_whole tag p : Length (whole tag p) = Ret (len p).
Proof. done. Qed.

Lemma Data_whole tag p : Data (whole tag p) = Ret p.
Proof.
  unfold Data. rewrite Length_whole. run.
  rewrite <- (app_nil_r (whole tag p)).
  apply (slice_app [tag; len p] p [] 2 (2 + len p)); [done | done].
Qed.

Lemma checkComplete_whole tag p : checkComplete (whole tag p) = Ret tt.
Proof.
  unfold checkComplete. rewrite Length_whole. unfold whole. rewrite !len_cons.
  pose proof (len_nonneg p). run. destruct (Z.ltb_spec (1 + (1 + len p)) 2); [lia |]. run.
  by destruct (Z.ltb_spec (1 + (1 + len p)) (2 + len p)); [lia |].
Qed.

Lemma checkTag_whole tag p : checkTag (whole tag p) tag = Ret tt.
Proof. unfold checkTag. change (Tag (whole tag p)) with (Ret tag). run. by rewrite Z.eqb_refl. Qed.

(** The service descriptor of a service with the given encoded names. *)
Definition serviceDescriptorBytes (ty : Z) (provider name : list Z) : Descriptor :=
  whole DescriptorTagService (ty :: len provider :: provider ++ len name :: name).

(** The service descriptor built from a type
    and two encoded names is parsed back to the type and the decoded names. *)
Theorem ParseServiceDescriptor_roundtrip {jis : ISO2022JP} ty provider name p n :
  DecodeARIBString provider = Ret p → DecodeARIBString name = Ret n →
  ParseServiceDescriptor (serviceDescriptorBytes ty provider name) = Ret (MkServiceDescriptor ty p n).
Proof.
  intros Hp Hn. unfold ParseServiceDescriptor, serviceDescriptorBytes.
  rewrite checkTag_whole, Data_whole. run.
  pose proof (len_nonneg provider). pose proof (len_nonneg name).
  set (data := ty :: len provider :: provider ++ len name :: name).
  assert (len data = 3 + len provider + len name) as HL
    by (unfold data; autorewrite with golen; lia).
  rewrite HL. destruct (Z.ltb_spec (3 + len provider + len name) 3); [lia |]. run.
  assert (data![1] = Ret (len provider)) as -> by done. run.
  destruct (Z.leb_spec (3 + len provider + len name) (2 + len provider)); [lia |]. run.
  assert (data![2 + len provider] = Ret (len name)) as ->.
  { apply (idx_app ([ty; len provider] ++ provider)). by rewrite len_app. }
  run. destruct (Z.ltb_spec (3 + len provider + len name) (2 + len provider + 1 + len name)); [lia |]. run.
  assert (data![2; 2 + len provider] = Ret provider) as -> by (by apply (slice_app [ty; len provider])).
  assert (data![2 + len provider + 1; 2 + len provider + 1 + len name] = Ret name) as ->.
  { replace data with (([ty; len provider] ++ provider ++ [len name]) ++ name ++ [])
      by (unfold data; rewrite app_nil_r; cbn; by rewrite <- app_assoc).
    apply slice_app; [autorewrite with golen; lia | done]. }
  run. by rewrite Hp, Hn.
Qed.

Lemma ParseServiceDescriptor_roundtrip_witness :
  ParseServiceDescriptor (jis := λ _, None)
    (serviceDescriptorBytes 1 [0x0e; 0x89; 0x4e] [0x0e; 0x89; 0x54; 0x56]) =
    Ret (MkServiceDescriptor 1 [0x4e] [0x54; 0x56]).
Proof. apply (ParseServiceDescriptor_roundtrip (jis := λ _, None)); by vm_compute. Defined.

(** One transmission type: its information byte and its services. *)
Definition transmissionBytes (t : TSInformationTransmissionType) : list Z :=
  TransmissionTypeInfo t :: len (ServiceIDs t) :: concat (map be16bytes (ServiceIDs t)).

Definition tsInformationBytes (key : Z) (name : list Z) (types : list TSInformationTransmissionType)
    : Descriptor :=
  whole DescriptorTagTSInformation
    ([key; len name * 4 + len types] ++ name ++ concat (map transmissionBytes types)).

Definition word16 (x : Z) : Prop := 0 ≤ x < 2 ^ 16.

Lemma to_nat_len {A} (l : list A) : Z.to_nat (len l) = length l.
Proof. unfold len. apply Nat2Z.id. Qed.

Lemma len_words ids : len (concat (map be16bytes ids)) = 2 * len ids.
Proof. induction ids as [| x ids IH]; [done |]. simpl. rewrite !len_cons, IH. lia. Qed.

Lemma readWords_app pre ids post off :
  Forall word16 ids → len pre = off →
  readWords (length ids) (pre ++ concat (map be16bytes ids) ++ post) off = Ret ids.
Proof.
  intros Hids. revert pre off. induction Hids as [| x ids Hx _ IH]; intros pre off Ho; [done |].
  cbn [length readWords map concat]. rewrite <- (app_assoc (be16bytes x)).
  rewrite get16_app by done. run.
  rewrite (app_assoc pre), IH; [done |]. rewrite len_app, len_be16bytes. lia.
Qed.

Lemma readTransmissionTypes_app pre types off :
  Forall (λ t, Forall word16 (ServiceIDs t)) types → len pre = off →
  readTransmissionTypes (length types) (pre ++ concat (map transmissionBytes types)) off = Ret types.
Proof.
  intros Ht. revert pre off. induction Ht as [| [info ids] types Hids _ IH]; intros pre off Ho; [done |].
  cbn [length readTransmissionTypes map concat]. simpl in Hids.
  pose proof (len_nonneg pre). pose proof (len_nonneg ids).
  pose proof (len_nonneg (concat (map transmissionBytes types))) as Hrest.
  set (rest := concat (map transmissionBytes types)) in *.
  set (data := pre ++ transmissionBytes (MkTransmissionType info ids) ++ rest).
  assert (data = (pre ++ [info; len ids]) ++ concat (map be16bytes ids) ++ rest) as Hdata
    by (unfold data, transmissionBytes; simpl; by rewrite <- app_assoc).
  assert (len data = off + 2 + 2 * len ids + len rest) as HL
    by (rewrite Hdata, !len_app, len_words, Ho; change (len [info; len ids]) with 2; lia).
  rewrite HL. destruct (Z.ltb_spec (off + 2 + 2 * len ids + len rest) (off + 2)); [lia |]. run.
  assert (data![off] = Ret info) as -> by (by apply idx_app).
  assert (data![off + 1] = Ret (len ids)) as ->.
  { replace data with ((pre ++ [info]) ++ len ids :: concat (map be16bytes ids) ++ rest)
      by (rewrite Hdata, <- !app_assoc; done).
    apply idx_app. rewrite len_app. by subst. }
  run. destruct (Z.ltb_spec (off + 2 + 2 * len ids + len rest) (off + 2 + len ids * 2)); [lia |]. run.
  rewrite to_nat_len. rewrite Hdata at 1.
  rewrite readWords_app by (done || by rewrite len_app; subst). run.
  rewrite Hdata, app_assoc. unfold rest. rewrite IH; [done |].
  rewrite !len_app, len_words. change (len [info; len ids]) with 2. lia.
Qed.

(** A TS information descriptor built
    from a remote control key, an encoded name and at most three transmission
    types is parsed back to them. *)
Theorem ParseTSInformation_roundtrip {jis : ISO2022JP} key name n types :
  DecodeARIBString name = Ret n → len types ≤ 3 →
  Forall (λ t, Forall word16 (ServiceIDs t)) types →
  ParseTSInformationDescriptor (tsInformationBytes key name types) = Ret (MkTSInformation key n types).
Proof.
  intros Hn H3 Ht. unfold ParseTSInformationDescriptor, tsInformationBytes.
  rewrite checkComplete_whole, checkTag_whole, Data_whole. run.
  pose proof (len_nonneg name). pose proof (len_nonneg types) as H0.
  set (d1 := len name * 4 + len types).
  pose proof (len_nonneg (concat (map transmissionBytes types))).
  set (rest := concat (map transmissionBytes types)) in *.
  assert (len ([key; d1] ++ name ++ rest) = 2 + len name + len rest) as HL
    by (rewrite !len_app; change (len [key; d1]) with 2; lia).
  rewrite HL. destruct (Z.ltb_spec (2 + len name + len rest) 2); [lia |]. run.
  change (([key; d1] ++ name ++ rest)![1]) with (Ret d1). run.
  assert (Z.shiftr d1 2 = len name) as ->.
  { unfold d1. rewrite Z.shiftr_div_pow2 by lia. change (2 ^ 2) with 4.
    rewrite Z.div_add_l by lia. rewrite Z.div_small by lia. lia. }
  assert (Z.land d1 3 = len types) as ->.
  { unfold d1. change 3 with (Z.ones 2). rewrite Z.land_ones by lia. change (2 ^ 2) with 4.
    rewrite Z.add_comm, Z.mod_add by lia. apply Z.mod_small. lia. }
  destruct (Z.ltb_spec (2 + len name + len rest) (2 + len name)); [lia |]. run.
  rewrite slice_app by done. run. rewrite Hn. run.
  change (([key; d1] ++ name ++ rest)![0]) with (Ret key). run.
  rewrite to_nat_len, app_assoc. unfold rest.
  rewrite readTransmissionTypes_app; [done | done |]. by rewrite len_app.
Qed.

Lemma ParseTSInformation_roundtrip_witness :
  ParseTSInformationDescriptor (jis := λ _, None)
    (tsInformationBytes 5 [0x0e; 0x89; 0x4e] [MkTransmissionType 0x0f [0x400; 0x401]; MkTransmissionType 0xaf [0x580]]) =
    Ret (MkTSInformation 5 [0x4e] [MkTransmissionType 0x0f [0x400; 0x401]; MkTransmissionType 0xaf [0x580]]).
Proof.
  apply (ParseTSInformation_roundtrip (jis := λ _, None)); [by vm_compute | done |].
  repeat (apply Forall_cons; split; [repeat (apply Forall_cons; split; [by unfold word16 |]); apply Forall_nil_2 |]).
  apply Forall_nil_2.
Defined.
