(* ===== verification/Psi.v ===== *)
(** * PSI and SI tables ([ts/psi.go], [pat.go], [pmt.go], [nit.go], [sdt.go])

    The common section header and the parsers of the PAT, PMT, NIT and SDT,
    with the PAT builder. *)

From S2P Require Import Prelude Crc32 Packet Section AribTables Aribstr Descriptors.

(** ** [psi.go] *)

Definition TableIDPAT : Z := 0x00.
Definition TableIDCAT : Z := 0x01.
Definition TableIDPMT : Z := 0x02.
Definition TableIDSDT0 : Z := 0x42.
Definition TableIDSDT1 : Z := 0x46.
Definition TableIDEITPF0 : Z := 0x4E.
Definition TableIDEITPF1 : Z := 0x4F.
Definition TableIDEITSStart : Z := 0x50.
Definition TableIDEITSEnd : Z := 0x5F.
Definition TableIDEITSOtherStart : Z := 0x60.
Definition TableIDEITSOtherEnd : Z := 0x6F.
Definition TableIDTOT : Z := 0x73.
Definition TableIDSDTT : Z := 0xC3.
Definition TableIDCDT : Z := 0xC8.
Definition TableIDBIT : Z := 0xC4.
Definition TableIDDSMCCDII : Z := 0x3B.
Definition TableIDDSMCCDDB : Z := 0x3C.
Definition TableIDDSMCCStream : Z := 0x3D.
Definition TableIDNIT0 : Z := 0x40.
Definition TableIDNIT1 : Z := 0x41.

Definition IsEITPF (tableID : Z) : bool := (tableID =? TableIDEITPF0) || (tableID =? TableIDEITPF1).
Definition IsEITS (tableID : Z) : bool :=
  ((TableIDEITSStart <=? tableID) && (tableID <=? TableIDEITSEnd)) ||
  ((TableIDEITSOtherStart <=? tableID) && (tableID <=? TableIDEITSOtherEnd)).

Record SectionHeader : Type := MkHeader {
  h_TableID : Z;
  h_SectionSyntaxIndicator : bool;
  h_SectionLength : Z;
  h_TransportStreamID : Z;
  h_OriginalNetworkID : Z;
  h_ServiceID : Z;
  h_VersionNumber : Z;
  h_CurrentNextIndicator : bool;
  h_SectionNumber : Z;
  h_LastSectionNumber : Z
}.

Definition ParseSectionHeader (s : SectionBytes) : outcome SectionHeader :=
  bad ← (Ret (len s <? 8) ||? overruns s);
  errorIf bad ErrInvalidSection;;
  t ← TableID s;
  ssi ← SectionSyntaxIndicator s;
  n ← SectionLength s;
  id ← get16 s 3;
  b5 ← s![5];
  b6 ← s![6];
  b7 ← s![7];
  Ret (MkHeader t ssi n id id id (Z.land (Z.shiftr b5 1) 0x1f) (bit b5 0x01) b6 b7).

(** The guard every table parser starts with:
    [len(s) < min || s.TableID() != ... || s.TotalLength() > len(s) || !s.ValidateCRC()]. *)
Definition rejects (min : Z) (isTable : Z → bool) (s : SectionBytes) : outcome bool :=
  Ret (len s <? min) ||? (t ← TableID s; Ret (negb (isTable t))) ||?
  overruns s ||? (ok ← ValidateCRC s; Ret (negb ok)).

(** ** [pat.go] *)

Record PAT : Type := MkPAT {
  pat_TransportStreamID : Z;
  pat_VersionNumber : Z;
  pat_NetworkPID : Z;
  pat_Programs : gmap Z Z
}.

Definition patBody (s : SectionBytes) (stop : Z) (st : PAT * Z) : outcome (PAT * Z + PAT) :=
  let '(pat, off) := st in
  if off + 4 <=? stop then
    program ← get16 s off;
    pid ← get16m 0x1f s (off + 2);
    if program =? 0
    then continue (MkPAT (pat_TransportStreamID pat) (pat_VersionNumber pat) pid (pat_Programs pat),
                   off + 4)
    else continue (MkPAT (pat_TransportStreamID pat) (pat_VersionNumber pat) (pat_NetworkPID pat)
                     (<[program := pid]> (pat_Programs pat)), off + 4)
  else break pat.

Definition ParsePAT (s : SectionBytes) : outcome PAT :=
  bad ← rejects 12 (λ t, t =? TableIDPAT) s;
  errorIf bad ErrInvalidSection;;
  header ← ParseSectionHeader s;
  n ← TotalLength s;
  let stop := n - 4 in
  loop (S (length s)) (patBody s stop)
    (MkPAT (h_TransportStreamID header) (h_VersionNumber header) 0 ∅, 8).

(** [make([]byte, n)] and its element assignments, then the checksum over all
    but the last four bytes. *)
Definition withCRC (body : list Z) : SectionBytes :=
  let crc := crc32MPEG2 body in
  body ++ [u8 (Z.shiftr crc 24); u8 (Z.shiftr crc 16); u8 (Z.shiftr crc 8); u8 crc].

Definition BuildPATSection (transportStreamID serviceID pmtPID version : Z) : outcome SectionBytes :=
  errorIf (0x1fff <? pmtPID) (ErrInvalidPMTPID pmtPID);;
  let sectionLength := 5 + 4 + 4 in
  Ret (withCRC
    [TableIDPAT;
     Z.lor 0xb0 (u8 (Z.shiftr sectionLength 8));
     u8 sectionLength;
     u8 (Z.shiftr transportStreamID 8);
     u8 transportStreamID;
     Z.lor 0xc1 (u8 (Z.shiftl (Z.land version 0x1f) 1));
     0;
     0;
     u8 (Z.shiftr serviceID 8);
     u8 serviceID;
     Z.lor 0xe0 (u8 (Z.shiftr pmtPID 8));
     u8 pmtPID]).

(** ** [pmt.go] *)

Record PMTElement : Type := MkElement {
  StreamType : Z;
  ElementaryPID : Z;
  ESInfo : list Z;
  el_Descriptors : list Descriptor
}.

Record PMT : Type := MkPMT {
  pmt_ProgramNumber : Z;
  pmt_VersionNumber : Z;
  pmt_PCRPID : Z;
  pmt_ProgramInfo : list Z;
  pmt_Descriptors : list Descriptor;
  pmt_Elements : list PMTElement
}.

Definition pmtBody (s : SectionBytes) (sectionEnd : Z) (st : list PMTElement * Z)
    : outcome (list PMTElement * Z + list PMTElement) :=
  let '(elements, off) := st in
  if off + 5 <=? sectionEnd then
    esInfoLen ← get16m 0x0f s (off + 3);
    let esInfoStart := off + 5 in
    let esInfoEnd := esInfoStart + esInfoLen in
    errorIf (sectionEnd <? esInfoEnd) ErrInvalidSection;;
    esInfo ← s![esInfoStart; esInfoEnd];
    streamType ← s![off];
    pid ← get16m 0x1f s (off + 1);
    descriptors ← ParseDescriptors esInfo;
    continue (elements ++ [MkElement streamType pid esInfo descriptors], esInfoEnd)
  else break elements.

Definition ParsePMT (s : SectionBytes) : outcome PMT :=
  bad ← rejects 16 (λ t, t =? TableIDPMT) s;
  errorIf bad ErrInvalidSection;;
  header ← ParseSectionHeader s;
  programInfoLen ← get16m 0x0f s 10;
  let infoStart := 12 in
  let infoEnd := infoStart + programInfoLen in
  n ← TotalLength s;
  let sectionEnd := n - 4 in
  errorIf (sectionEnd <? infoEnd) ErrInvalidSection;;
  pcr ← get16m 0x1f s 8;
  info ← s![infoStart; infoEnd];
  descriptors ← ParseDescriptors info;
  elements ← loop (S (length s)) (pmtBody s sectionEnd) ([], infoEnd);
  Ret (MkPMT (h_ServiceID header) (h_VersionNumber header) pcr info descriptors elements).

(** ** [nit.go] *)

Record NITTransportStream : Type := MkNITStream {
  nts_TransportStreamID : Z;
  nts_OriginalNetworkID : Z;
  nts_Descriptors : list Descriptor
}.

Record NIT : Type := MkNIT {
  nit_NetworkID : Z;
  nit_TableID : Z;
  nit_VersionNumber : Z;
  nit_SectionNumber : Z;
  nit_LastSectionNumber : Z;
  nit_NetworkDescriptors : list Descriptor;
  nit_TransportStreams : list NITTransportStream
}.

Definition nitBody (s : SectionBytes) (loopEnd : Z) (st : list NITTransportStream * Z)
    : outcome (list NITTransportStream * Z + list NITTransportStream * Z) :=
  let '(streams, off) := st in
  if off + 6 <=? loopEnd then
    descriptorsLen ← get16m 0x0f s (off + 4);
    let descStart := off + 6 in
    let descEnd := descStart + descriptorsLen in
    errorIf (loopEnd <? descEnd) ErrInvalidSection;;
    ds ← s![descStart; descEnd];
    descriptors ← parseDescriptorsStrict ds;
    tsid ← get16 s off;
    onid ← get16 s (off + 2);
    continue (streams ++ [MkNITStream tsid onid descriptors], descEnd)
  else break (streams, off).

Definition ParseNIT (s : SectionBytes) : outcome NIT :=
  bad ← rejects 16 (λ t, (t =? TableIDNIT0) || (t =? TableIDNIT1)) s;
  errorIf bad ErrInvalidSection;;
  header ← ParseSectionHeader s;
  n ← TotalLength s;
  let sectionEnd := n - 4 in
  networkDescriptorsLen ← get16m 0x0f s 8;
  let descStart := 10 in
  let descEnd := descStart + networkDescriptorsLen in
  errorIf (sectionEnd <? descEnd + 2) ErrInvalidSection;;
  ds ← s![descStart; descEnd];
  networkDescriptors ← parseDescriptorsStrict ds;
  transportStreamLoopLen ← get16m 0x0f s descEnd;
  let off := descEnd + 2 in
  let loopEnd := off + transportStreamLoopLen in
  errorIf (negb (loopEnd =? sectionEnd)) ErrInvalidSection;;
  id ← get16 s 3;
  '(streams, off) ← loop (S (length s)) (nitBody s loopEnd) ([], off);
  errorIf (negb (off =? loopEnd)) ErrInvalidSection;;
  Ret (MkNIT id (h_TableID header) (h_VersionNumber header) (h_SectionNumber header)
         (h_LastSectionNumber header) networkDescriptors streams).

(** ** [sdt.go] *)

Record SDTService : Type := MkSDTService {
  svc_ServiceID : Z;
  svc_EITScheduleFlag : bool;
  svc_EITPresentFollowing : bool;
  svc_RunningStatus : Z;
  svc_FreeCAMode : bool;
  svc_Descriptors : list Descriptor
}.

Record SDT : Type := MkSDT {
  sdt_TransportStreamID : Z;
  sdt_OriginalNetworkID : Z;
  sdt_VersionNumber : Z;
  sdt_Services : list SDTService
}.

Definition sdtBody (s : SectionBytes) (sectionEnd : Z) (st : list SDTService * Z)
    : outcome (list SDTService * Z + list SDTService) :=
  let '(services, off) := st in
  if off + 5 <=? sectionEnd then
    descriptorsLoopLen ← get16m 0x0f s (off + 3);
    let descStart := off + 5 in
    let descEnd := descStart + descriptorsLoopLen in
    errorIf (sectionEnd <? descEnd) ErrInvalidSection;;
    ds ← s![descStart; descEnd];
    id ← get16 s off;
    b2 ← s![off + 2];
    b3 ← s![off + 3];
    descriptors ← ParseDescriptors ds;
    continue (services ++ [MkSDTService id (bit b2 0x02) (bit b2 0x01)
                             (Z.land (Z.shiftr b3 5) 0x07) (bit b3 0x10) descriptors], descEnd)
  else break services.

Definition ParseSDT (s : SectionBytes) : outcome SDT :=
  bad ← rejects 15 (λ t, (t =? TableIDSDT0) || (t =? TableIDSDT1)) s;
  errorIf bad ErrInvalidSection;;
  header ← ParseSectionHeader s;
  n ← TotalLength s;
  let sectionEnd := n - 4 in
  onid ← get16 s 8;
  services ← loop (S (length s)) (sdtBody s sectionEnd) ([], 11);
  Ret (MkSDT (h_TransportStreamID header) onid (h_VersionNumber header) services).

(** ** Every parser is total *)

Lemma accept_safe {B} (E : error → Prop) min f s (k : outcome B) Q :
  bytes_ok s → 4 ≤ min → E ErrInvalidSection →
  (min ≤ len s → totalOf s ≤ len s → f (byteAt s 0) = true →
   crc32MPEG2 (sub s 0 (totalOf s)) = 0 → ends E k Q) →
  ends E (bad ← rejects min f s; errorIf bad ErrInvalidSection;; k) Q.
Proof.
  intros Hs Hmin He Hk. unfold rejects. apply safe_bind, safe_orM, safe_ret.
  destruct (Z.ltb_spec (len s) min); [exact He |].
  apply safe_orM, safe_bind. unfold TableID. apply safe_byte; [done | lia |]. intros _. apply safe_ret.
  destruct (f (byteAt s 0)) eqn:Ef; [| exact He]. cbn [negb].
  apply safe_orM. rewrite overruns_ret by lia. apply safe_ret.
  destruct (Z.ltb_spec (len s) (totalOf s)); [exact He |].
  apply safe_bind. destruct (ValidateCRC_ret s) as [-> |]; [| done]. apply safe_ret, safe_ret.
  destruct (_ && _) eqn:Ev; [| exact He]. bools. by apply Hk.
Qed.

Definition headerOf (s : SectionBytes) : SectionHeader :=
  let id := be16 (byteAt s 3) (byteAt s 4) in
  MkHeader (byteAt s 0) (bit (byteAt s 1) 0x80) (totalOf s - 3) id id id
    (Z.land (Z.shiftr (byteAt s 5) 1) 0x1f) (bit (byteAt s 5) 0x01) (byteAt s 6) (byteAt s 7).

Lemma ParseSectionHeader_ret s :
  8 ≤ len s → totalOf s ≤ len s → ParseSectionHeader s = Ret (headerOf s).
Proof.
  intros H8 Ht. unfold ParseSectionHeader, TableID, SectionSyntaxIndicator, SectionLength.
  rewrite overruns_ret by lia. destruct (Z.ltb_spec (len s) 8); [lia |].
  destruct (Z.ltb_spec (len s) (totalOf s)); [lia |]. run.
  rewrite get16m_ret, get16_ret, !idx_byteAt by lia. run.
  unfold headerOf, totalOf. do 2 f_equal. change (1 + 1) with 2. lia.
Qed.

Definition invalid (e : error) : Prop := e = ErrInvalidSection.

Lemma ParseDescriptors_ends E b (P : list Descriptor → Prop) :
  bytes_ok b → (∀ ds, maximal b ds → P ds) → ends E (ParseDescriptors b) P.
Proof. intros Hb HP. eapply returns_ends; [by apply ParseDescriptors_spec | done]. Qed.

Lemma parseDescriptorsStrict_ends b (P : list Descriptor → Prop) :
  bytes_ok b → (∀ ds, splits b ds → P ds) → ends invalid (parseDescriptorsStrict b) P.
Proof.
  intros Hb HP. apply (ends_weaken (λ e, e = ErrInvalidSection ∧ ¬ ∃ ds, splits b ds));
    [| by intros e [-> _]].
  eapply safe_mono; [by apply parseDescriptorsStrict_spec | done].
Qed.

Definition pat_ok (pat : PAT) : Prop :=
  word16 (pat_TransportStreamID pat) ∧ 0 ≤ pat_VersionNumber pat < 32 ∧
  0 ≤ pat_NetworkPID pat ≤ 0x1fff ∧ pat_Programs pat !! 0 = None ∧
  map_Forall (λ program pid, word16 program ∧ 0 ≤ pid ≤ 0x1fff) (pat_Programs pat).

Lemma headerOf_ok s : bytes_ok s → word16 (h_TransportStreamID (headerOf s)) ∧
  0 ≤ h_VersionNumber (headerOf s) < 32 ∧ byte_ok (h_SectionNumber (headerOf s)) ∧
  byte_ok (h_LastSectionNumber (headerOf s)).
Proof.
  intros Hs. split_and!; simpl; try by apply byteAt_ok.
  - apply be16_ok; by apply byteAt_ok.
  - apply land_mask. lia.
  - pose proof (land_mask (byteAt s 5 ≫ 1) 31 ltac:(lia)). lia.
Qed.

Lemma ParsePAT_safe s : bytes_ok s → ends invalid (ParsePAT s) pat_ok.
Proof.
  intros Hs. apply accept_safe; [done | lia | done |]. intros Hl Ht _ _.
  rewrite ParseSectionHeader_ret, TotalLength_ret by lia. run.
  destruct (headerOf_ok s Hs) as (Hid & Hv & _).
  set (stop := totalOf s - 4).
  apply (safe_loop (λ '(pat, off), 0 ≤ off ∧ pat_ok pat) (λ '(_, off), Z.to_nat (len s - off)));
    [| | unfold len; lia].
  - intros [pat off] (Hoff & H1 & H2 & Hnet & Hzero & Hpids). unfold patBody. go.
    + split; [split; [lia | split_and!; simpl; done || lia] | lia].
    + split; [split; [lia |] | lia].
      refine (conj H1 (conj H2 (conj Hnet (conj _ _)))); simpl.
      * by rewrite lookup_insert_ne.
      * apply map_Forall_insert_2; [| done]. unfold word16. lia.
    + done.
  - split; [lia |]. refine (conj Hid (conj Hv (conj _ (conj _ _)))); simpl; [lia | done | apply map_Forall_empty].
Qed.

(** The entries the loops of the PMT, NIT and SDT build. *)
Definition element_ok (e : PMTElement) : Prop :=
  byte_ok (StreamType e) ∧ 0 ≤ ElementaryPID e ≤ 0x1fff ∧ bytes_ok (ESInfo e) ∧
  maximal (ESInfo e) (el_Descriptors e).

Lemma Forall_snoc {A} (P : A → Prop) l x : Forall P l → P x → Forall P (l ++ [x]).
Proof. intros. apply Forall_app. by split; [| apply Forall_singleton]. Qed.

Lemma ParsePMT_safe s : bytes_ok s → ends invalid (ParsePMT s) (λ pmt,
  0 ≤ pmt_PCRPID pmt ≤ 0x1fff ∧ maximal (pmt_ProgramInfo pmt) (pmt_Descriptors pmt) ∧
  Forall element_ok (pmt_Elements pmt)).
Proof.
  intros Hs. apply accept_safe; [done | lia | done |]. intros Hl Ht _ _.
  rewrite ParseSectionHeader_ret, TotalLength_ret by lia. run.
  apply safe_bind, safe_get16m; [lia | done | lia | lia |]. intros Hinfo.
  apply safe_bind, safe_errorIf; [done |]. intros Hend. bools.
  apply safe_bind, safe_get16m; [lia | done | lia | lia |]. intros Hpcr.
  apply safe_bind, safe_slice; [lia | lia |]. intros _.
  apply safe_bind, ParseDescriptors_ends; [by apply bytes_ok_sub |]. intros ds Hds.
  apply safe_bind. eapply safe_mono; [| intros els Hels; simpl; split; [lia | by split; [| exact Hels]]].
  apply (safe_loop (λ '(els, off), 0 ≤ off ∧ Forall element_ok els) (λ '(_, off), Z.to_nat (len s - off)));
    [| by split; [lia |] | unfold len; lia].
  intros [els off] [Hoff Hels]. unfold pmtBody. go.
  - apply ParseDescriptors_ends; [by apply bytes_ok_sub |]. intros ds' Hds'. go.
    split; [split; [lia |] | lia]. apply Forall_snoc; [done |].
    unfold element_ok. simpl. split_and!; try done; try lia. by apply bytes_ok_sub.
  - done.
Qed.

(** Whole descriptors made of bytes. *)
Definition descriptors_ok (ds : list Descriptor) : Prop := Forall (λ d, bytes_ok d ∧ desc_ok d) ds.

Lemma concat_descriptors_ok ds rest : bytes_ok (concat ds ++ rest) → Forall desc_ok ds → descriptors_ok ds.
Proof.
  intros [Hb _]%Forall_app Hds. induction Hds as [| d ds Hd _ IH]; [apply Forall_nil_2 |].
  cbn [concat] in Hb. apply Forall_app in Hb as [??]. apply Forall_cons. split; [done | by apply IH].
Qed.

Lemma maximal_descriptors b ds : bytes_ok b → maximal b ds → descriptors_ok ds.
Proof.
  intros Hb Hm. pose proof (maximal_bytes b ds Hb Hm) as H. destruct Hm as [Hd _]. apply Forall_and. by split.
Qed.

Definition stream_ok (ts : NITTransportStream) : Prop :=
  word16 (nts_TransportStreamID ts) ∧ word16 (nts_OriginalNetworkID ts) ∧
  descriptors_ok (nts_Descriptors ts).

Lemma ParseNIT_safe s : bytes_ok s → ends invalid (ParseNIT s) (λ nit,
  Forall desc_ok (nit_NetworkDescriptors nit) ∧ Forall stream_ok (nit_TransportStreams nit)).
Proof.
  intros Hs. apply accept_safe; [done | lia | done |]. intros Hl Ht _ _.
  rewrite ParseSectionHeader_ret, TotalLength_ret by lia. run.
  apply safe_bind, safe_get16m; [lia | done | lia | lia |]. intros Hinfo.
  apply safe_bind, safe_errorIf; [done |]. intros Hend. bools.
  apply safe_bind, safe_slice; [lia | lia |]. intros _.
  apply safe_bind, parseDescriptorsStrict_ends; [by apply bytes_ok_sub |]. intros ds [_ Hds].
  apply safe_bind, safe_get16m; [lia | done | lia | lia |]. intros Hloop.
  apply safe_bind, safe_errorIf; [done |]. intros Hend'. bools.
  apply safe_bind, safe_get16; [done | lia | lia |]. intros _.
  apply safe_bind. eapply safe_mono.
  { apply (safe_loop (λ '(sts, off), 0 ≤ off ∧ Forall stream_ok sts)
      (λ '(_, off), Z.to_nat (len s - off)) (λ '(sts, off), Forall stream_ok sts));
      [| by split; [lia |] | unfold len; lia].
    intros [sts off] [Hoff Hsts]. unfold nitBody. go; [| done].
    apply parseDescriptorsStrict_ends; [by apply bytes_ok_sub |]. intros ds' [Heq Hds']. go.
    split; [split; [lia |] | lia]. apply Forall_snoc; [done |].
    split; [done | split; [done |]]. apply (concat_descriptors_ok _ []); [| done].
    rewrite app_nil_r. change (bytes_ok (concat ds')). rewrite <- Heq. by apply bytes_ok_sub. }
  intros [sts off] Hsts. go; done.
Qed.

Definition service_ok (svc : SDTService) : Prop :=
  word16 (svc_ServiceID svc) ∧ 0 ≤ svc_RunningStatus svc ≤ 7 ∧ descriptors_ok (svc_Descriptors svc).

Lemma ParseSDT_safe s : bytes_ok s → ends invalid (ParseSDT s) (λ sdt,
  Forall service_ok (sdt_Services sdt)).
Proof.
  intros Hs. apply accept_safe; [done | lia | done |]. intros Hl Ht _ _.
  rewrite ParseSectionHeader_ret, TotalLength_ret by lia. run.
  apply safe_bind, safe_get16; [done | lia | lia |]. intros _.
  apply safe_bind. eapply safe_mono; [| intros svcs Hsvcs; exact Hsvcs].
  apply (safe_loop (λ '(svcs, off), 0 ≤ off ∧ Forall service_ok svcs)
    (λ '(_, off), Z.to_nat (len s - off))); [| by split; [lia |] | unfold len; lia].
  intros [svcs off] [Hoff Hsvcs]. unfold sdtBody. go; [| done].
  apply ParseDescriptors_ends; [by apply bytes_ok_sub |]. intros ds' (Hds' & rest & Heq & _). go.
  split; [split; [lia |] | lia]. apply Forall_snoc; [done |].
  unfold service_ok. simpl. split_and!; try done; try lia; try (apply land_mask; lia).
  apply (concat_descriptors_ok _ rest); [| done]. rewrite <- Heq. by apply bytes_ok_sub.
Qed.

(** On any bytes each table
    parser ends without a panic, with a table or with ErrInvalidSection; the
    PIDs of a table are 13 bits wide, program 0 is never listed as a program,
    and its descriptors are whole. *)
Theorem table_parsers_total s :
  bytes_ok s →
  ends invalid (ParsePAT s) (λ pat,
    0 ≤ pat_NetworkPID pat ≤ 0x1fff ∧ pat_Programs pat !! 0 = None ∧
    ∀ program pid, pat_Programs pat !! program = Some pid → 0 ≤ pid ≤ 0x1fff) ∧
  ends invalid (ParsePMT s) (λ pmt,
    0 ≤ pmt_PCRPID pmt ≤ 0x1fff ∧ maximal (pmt_ProgramInfo pmt) (pmt_Descriptors pmt) ∧
    Forall element_ok (pmt_Elements pmt)) ∧
  ends invalid (ParseNIT s) (λ nit,
    Forall desc_ok (nit_NetworkDescriptors nit) ∧ Forall stream_ok (nit_TransportStreams nit)) ∧
  ends invalid (ParseSDT s) (λ sdt, Forall service_ok (sdt_Services sdt)).
Proof.
  intros Hs. split_and!; [| by apply ParsePMT_safe | by apply ParseNIT_safe
                         | by apply ParseSDT_safe].
  eapply safe_mono; [by apply ParsePAT_safe |]. intros pat (_ & _ & ? & ? & Hp).
  split; [done |]. split; [done |]. intros program pid Hpid. by apply Hp in Hpid as [_ ?].
Qed.

(** ** Building long sections *)

(** A field of 16 bits whose high bits [r] are outside the mask. *)
Definition field (r x : Z) : list Z := [Z.lor r (u8 (Z.shiftr x 8)); u8 x].

Lemma len_field r x : len (field r x) = 2.
Proof. done. Qed.

Lemma byte_lor a b : byte_ok a → byte_ok b → byte_ok (Z.lor a b).
Proof.
  unfold byte_ok. intros Ha Hb. assert (Z.land (Z.lor a b) 255 = Z.lor a b) as <-.
  { change 255 with (Z.ones 8). rewrite Z.land_lor_distr_l, !Z.land_ones, !Z.mod_small by lia. done. }
  pose proof (land_mask (Z.lor a b) 255). lia.
Qed.

Lemma field_ok r x : byte_ok r → bytes_ok (field r x).
Proof.
  intros Hr. repeat (apply Forall_cons; split); [by apply byte_lor, u8_ok | apply u8_ok | apply Forall_nil_2].
Qed.

Lemma high_byte x : 0 ≤ x < 2 ^ 16 → u8 (Z.shiftr x 8) = x / 256 ∧ 0 ≤ x / 256 < 256.
Proof.
  intros Hx. rewrite Z.shiftr_div_pow2 by lia. change (2 ^ 8) with 256.
  assert (0 ≤ x / 256 < 256) by (split; [apply Z.div_pos | apply Z.div_lt_upper_bound]; lia).
  split; [by apply Z.mod_small | done].
Qed.

(** Masking off the high bits of a field leaves its low part. *)
Lemma land_field k r h :
  0 ≤ k → Z.land r (Z.ones k) = 0 → 0 ≤ h < 2 ^ k → Z.land (Z.lor r h) (Z.ones k) = h.
Proof.
  intros Hk Hr Hh. rewrite Z.land_lor_distr_l, Hr, Z.lor_0_l, Z.land_ones by lia.
  by apply Z.mod_small.
Qed.

Lemma get16m_field k r pre x post i :
  0 ≤ k ≤ 8 → Z.land r (Z.ones k) = 0 → len pre = i → 0 ≤ x < 2 ^ (k + 8) →
  get16m (Z.ones k) (pre ++ field r x ++ post) i = Ret x.
Proof.
  intros Hk Hr Hi Hx. rewrite Z.pow_add_r in Hx by lia. change (2 ^ 8) with 256 in Hx.
  assert (2 ^ k ≤ 2 ^ 8) by (apply Z.pow_le_mono_r; lia). change (2 ^ 8) with 256 in *.
  destruct (high_byte x) as [Hh _]; [change (2 ^ 16) with (256 * 256); nia |].
  unfold get16m. cbn [app field]. rewrite (idx_app pre _ _ i Hi). run.
  change (pre ++ Z.lor r (u8 (x ≫ 8)) :: u8 x :: post)
    with (pre ++ [Z.lor r (u8 (x ≫ 8))] ++ u8 x :: post).
  rewrite app_assoc, idx_app by (rewrite len_app; subst; done). run.
  rewrite Hh, land_field by (done || lia || (split; [apply Z.div_pos | apply Z.div_lt_upper_bound]; lia)).
  rewrite be16_eq by apply u8_ok. f_equal. unfold u8. change (2 ^ 8) with 256.
  pose proof (Z.div_mod x 256). lia.
Qed.

Lemma get16m_12 r pre x post i :
  Z.land r 15 = 0 → len pre = i → 0 ≤ x < 4096 → get16m 15 (pre ++ field r x ++ post) i = Ret x.
Proof. intros. by apply (get16m_field 4). Qed.
Lemma get16m_13 r pre x post i :
  Z.land r 31 = 0 → len pre = i → 0 ≤ x < 8192 → get16m 31 (pre ++ field r x ++ post) i = Ret x.
Proof. intros. by apply (get16m_field 5). Qed.

(** The byte of version number and current/next indicator, as
    [BuildPATSection] writes it. *)
Definition versionByte (version : Z) : Z := Z.lor 0xc1 (u8 (Z.shiftl (Z.land version 0x1f) 1)).

Lemma versionByte_ok v : byte_ok (versionByte v).
Proof. apply byte_lor; [done | apply u8_ok]. Qed.

Lemma versionByte_version v : 0 ≤ v < 32 → Z.land (Z.shiftr (versionByte v) 1) 0x1f = v.
Proof.
  intros Hv.
  assert (forallb (λ n, let v := Z.of_nat n in Z.land (Z.shiftr (versionByte v) 1) 0x1f =? v) (seq 0 32) = true)
    as H by by vm_compute.
  rewrite forallb_forall in H. specialize (H (Z.to_nat v)). rewrite Z2Nat.id in H by lia.
  apply Z.eqb_eq, H, in_seq. lia.
Qed.

(** The header of a long section: table id, section length, id extension,
    version and section numbers. *)
Definition longHeader (tid ext version number last n : Z) : list Z :=
  [tid] ++ field 0xb0 n ++ be16bytes ext ++ [versionByte version; number; last].

Definition longSection (tid ext version number last : Z) (body : list Z) : SectionBytes :=
  withCRC (longHeader tid ext version number last (len body + 9) ++ body).

(** Its last four bytes. *)
Definition longCRC (tid ext version number last : Z) (body : list Z) : list Z :=
  be32bytes (crc32MPEG2 (longHeader tid ext version number last (len body + 9) ++ body)).

Lemma withCRC_eq body : withCRC body = body ++ be32bytes (crc32MPEG2 body).
Proof. done. Qed.

Section Long.
Context (tid ext version number last : Z) (body : list Z).
Context (Htid : byte_ok tid) (Hext : word16 ext) (Hver : 0 ≤ version < 32).
Context (Hnum : byte_ok number) (Hlast : byte_ok last) (Hbody : bytes_ok body).
Context (Hfit : len body + 9 < 4096).

Let s := longSection tid ext version number last body.

Lemma longHeader_ok n : bytes_ok (longHeader tid ext version number last n).
Proof.
  unfold longHeader. apply bytes_ok_app; [by apply Forall_singleton |].
  apply bytes_ok_app; [by apply field_ok |]. apply bytes_ok_app; [apply be16bytes_ok |].
  repeat (apply Forall_cons; split; [done || apply versionByte_ok |]). apply Forall_nil_2.
Qed.

Lemma long_split :
  s = longHeader tid ext version number last (len body + 9) ++ body ++
      longCRC tid ext version number last body.
Proof. unfold s, longSection. by rewrite withCRC_eq, <- app_assoc. Qed.

Lemma long_len : len s = len body + 12.
Proof. rewrite long_split, !len_app. change (len (longCRC _ _ _ _ _ _)) with 4. change (len (longHeader _ _ _ _ _ _)) with 8. lia. Qed.

Lemma long_total : totalOf s = len body + 12.
Proof.
  assert (get16m 15 s 1 = Ret (len body + 9)) as H.
  { rewrite long_split. unfold longHeader. rewrite <- app_assoc.
    pose proof (len_nonneg body). rewrite <- app_assoc. apply get16m_12; [done | done | lia]. }
  rewrite get16m_ret in H by (rewrite ?long_len; pose proof (len_nonneg body); lia).
  injection H as H. unfold totalOf. change (1 + 1) with 2 in H. rewrite H. lia.
Qed.

Lemma long_valid : section_valid s.
Proof.
  assert (bytes_ok (longHeader tid ext version number last (len body + 9) ++ body))
    by (apply bytes_ok_app; [apply longHeader_ok | done]).
  split.
  - unfold s, longSection. rewrite withCRC_eq. apply bytes_ok_app; [done | apply be32bytes_ok].
  - rewrite long_len. pose proof (len_nonneg body). lia.
  - by rewrite long_total, long_len.
  - unfold s, longSection. rewrite withCRC_eq. by apply crc_append.
Qed.

Lemma long_header : headerOf s =
  MkHeader tid true (len body + 9) ext ext ext version true number last.
Proof.
  pose proof (len_nonneg body).
  assert (get16 s 3 = Ret ext) as Hid.
  { rewrite long_split. unfold longHeader. rewrite <- !app_assoc, app_assoc. by apply get16_app. }
  rewrite get16_ret in Hid by (rewrite ?long_len; lia). injection Hid as Hid.
  unfold headerOf. change (3 + 1) with 4 in Hid. rewrite Hid, long_total.
  assert (byteAt s 0 = tid ∧ byteAt s 6 = number ∧ byteAt s 7 = last ∧
          byteAt s 5 = versionByte version ∧ byteAt s 1 = Z.lor 0xb0 (u8 (Z.shiftr (len body + 9) 8)))
    as (-> & -> & -> & -> & ->) by (rewrite long_split; done).
  rewrite versionByte_version by done.
  assert (bit (Z.lor 0xb0 (u8 (Z.shiftr (len body + 9) 8))) 0x80 = true) as ->.
  { unfold bit. apply negb_true_iff, Z.eqb_neq. intros Hz.
    apply (f_equal (λ x, Z.testbit x 7)) in Hz. by rewrite Z.land_spec, Z.lor_spec in Hz. }
  assert (bit (versionByte version) 1 = true) as ->.
  { unfold bit, versionByte. apply negb_true_iff, Z.eqb_neq. intros Hz.
    apply (f_equal (λ x, Z.testbit x 0)) in Hz. by rewrite Z.land_spec, Z.lor_spec in Hz. }
  f_equal. lia.
Qed.

Lemma long_rejects min f : min ≤ len body + 12 → f tid = true → rejects min f s = Ret false.
Proof.
  intros Hmin Hf. pose proof (len_nonneg body). unfold rejects. rewrite long_len.
  destruct (Z.ltb_spec (len body + 12) min); [lia |]. run.
  assert (TableID s = Ret tid) as -> by by rewrite long_split. run. rewrite Hf. run.
  rewrite overruns_ret by (rewrite long_len; lia). rewrite long_len, long_total, Z.ltb_irrefl. run.
  by rewrite section_valid_ValidateCRC by apply long_valid.
Qed.

Lemma long_ParseSectionHeader :
  ParseSectionHeader s = Ret (MkHeader tid true (len body + 9) ext ext ext version true number last).
Proof.
  pose proof (len_nonneg body).
  rewrite ParseSectionHeader_ret, long_header by (rewrite ?long_total, long_len; lia). done.
Qed.

Lemma long_TotalLength : TotalLength s = Ret (len body + 12).
Proof. pose proof (len_nonneg body). by rewrite TotalLength_ret, long_total by (rewrite long_len; lia). Qed.

End Long.

(** ** Round trips *)

Definition programBytes (e : Z * Z) : list Z := be16bytes (fst e) ++ field 0xe0 (snd e).
Definition patSection (tsid version number last : Z) (programs : list (Z * Z)) : SectionBytes :=
  longSection TableIDPAT tsid version number last (concat (map programBytes programs)).

(** What one entry adds to the table: the network PID, or a program. *)
Definition addProgram (pat : PAT) (e : Z * Z) : PAT :=
  if fst e =? 0
  then MkPAT (pat_TransportStreamID pat) (pat_VersionNumber pat) (snd e) (pat_Programs pat)
  else MkPAT (pat_TransportStreamID pat) (pat_VersionNumber pat) (pat_NetworkPID pat)
         (<[fst e := snd e]> (pat_Programs pat)).

Definition program_ok (e : Z * Z) : Prop := word16 (fst e) ∧ 0 ≤ snd e < 0x2000.

Lemma programs_ok programs : bytes_ok (concat (map programBytes programs)).
Proof.
  induction programs as [| e programs IH]; [apply Forall_nil_2 |]. cbn [map concat].
  apply bytes_ok_app; [| done]. apply bytes_ok_app; [apply be16bytes_ok | by apply field_ok].
Qed.

Lemma ParsePAT_patSection tsid version number last programs :
  word16 tsid → 0 ≤ version < 32 → byte_ok number → byte_ok last → Forall program_ok programs →
  len (concat (map programBytes programs)) + 9 < 4096 →
  ParsePAT (patSection tsid version number last programs) =
    Ret (fold_left addProgram programs (MkPAT tsid version 0 ∅)).
Proof.
  intros Ht Hv Hn Hl Hp Hfit. unfold ParsePAT, patSection. set (body := concat (map programBytes programs)) in *.
  pose proof (programs_ok programs) as Hb. pose proof (len_nonneg body).
  rewrite long_rejects, long_ParseSectionHeader, long_TotalLength by (done || unfold body in *; lia). run.
  cbn [h_TransportStreamID h_VersionNumber].
  pose proof (long_split TableIDPAT tsid version number last body) as Hs.
  pose proof (long_len TableIDPAT tsid version number last body) as HL.
  set (s := longSection TableIDPAT tsid version number last body) in *.
  change 8 with (len (longHeader TableIDPAT tsid version number last (len body + 9))).
  apply (loop_read programBytes addProgram (λ pat, pat) _ s _ _ (longCRC TableIDPAT tsid version number last body));
    [done | | | ].
  - intros pre e rest pat He Hse Hrest. rewrite Forall_forall in Hp. destruct (Hp e He) as [H1 H2].
    unfold patBody. change (len (programBytes e)) with 4.
    change (len (longCRC _ _ _ _ _ _)) with 4 in Hrest.
    assert (len s = len pre + 4 + len rest) as HL' by (rewrite Hse, !len_app; change (len (programBytes e)) with 4; lia).
    destruct (Z.leb_spec (len pre + 4) (len body + 12 - 4)); [| lia].
    unfold programBytes in Hse. rewrite <- app_assoc in Hse.
    assert (get16 s (len pre) = Ret (fst e)) as -> by (rewrite Hse; by apply get16_app). run.
    assert (get16m 31 s (len pre + 2) = Ret (snd e)) as ->.
    { rewrite Hse, app_assoc. apply get16m_13; [done | by rewrite len_app | lia]. }
    run. unfold addProgram. by destruct (fst e =? 0).
  - intros pat. unfold patBody. change (len (longCRC _ _ _ _ _ _)) with 4.
    destruct (Z.leb_spec (len s - 4 + 4) (len body + 12 - 4)); [lia | done].
  - assert (length programs ≤ length body)%nat by (by apply concat_length_ge).
    unfold len in *. lia.
Qed.

(** The section of one programme. *)
Lemma BuildPATSection_patSection tsid sid pid version :
  pid ≤ 0x1fff → BuildPATSection tsid sid pid version = Ret (patSection tsid version 0 0 [(sid, pid)]).
Proof.
  intros Hpid. unfold BuildPATSection. destruct (Z.ltb_spec 0x1fff pid) as [| _]; [lia |]. done.
Qed.

Lemma patSection_single tsid sid pid version (s := patSection tsid version 0 0 [(sid, pid)]) :
  word16 tsid → word16 sid → sid ≠ 0 → 0 ≤ pid ≤ 0x1fff → 0 ≤ version < 32 →
  section_valid s ∧ len s = 16 ∧ byteAt s 0 = TableIDPAT ∧
  ParsePAT s = Ret (MkPAT tsid version 0 {[sid := pid]}).
Proof.
  intros Ht Hs Hnz Hp Hv. assert (program_ok (sid, pid)) as Hok by (split; [done | simpl; lia]).
  split_and!; [| done | done |].
  - apply long_valid; try done. apply programs_ok.
  - unfold s. rewrite ParsePAT_patSection; try done; [| by apply Forall_singleton]. f_equal. simpl.
    unfold addProgram. cbn [fst snd pat_TransportStreamID pat_VersionNumber pat_NetworkPID pat_Programs].
    by rewrite (proj2 (Z.eqb_neq _ _) Hnz), insert_empty.
Qed.

(** The PAT built for a service is a
    valid section that parses back to a table with that service as its only
    program; a PMT PID beyond 13 bits is refused. *)
Theorem BuildPATSection_ParsePAT tsid sid pid version :
  word16 tsid → word16 sid → sid ≠ 0 → word16 pid → 0 ≤ version < 32 →
  match BuildPATSection tsid sid pid version with
  | Ret s => pid ≤ 0x1fff ∧ section_valid s ∧ ParsePAT s = Ret (MkPAT tsid version 0 {[sid := pid]})
  | Err e => 0x1fff < pid ∧ e = ErrInvalidPMTPID pid
  | _ => False
  end.
Proof.
  intros Ht Hs Hnz Hp Hv. destruct (Z.ltb_spec 0x1fff pid) as [Hpid | Hpid].
  - unfold BuildPATSection. rewrite (proj2 (Z.ltb_lt _ _) Hpid). by split.
  - rewrite BuildPATSection_patSection by done. split; [done |].
    unfold word16 in Hp. destruct (patSection_single tsid sid pid version) as (? & _ & _ & ?); (done || lia).
Qed.

Lemma BuildPATSection_ParsePAT_witness :
  match BuildPATSection 0x7fe1 0x418 0x1f0 3 with
  | Ret s => 0x1f0 ≤ 0x1fff ∧ section_valid s ∧ ParsePAT s = Ret (MkPAT 0x7fe1 3 0 {[0x418 := 0x1f0]})
  | Err e => 0x1fff < 0x1f0 ∧ e = ErrInvalidPMTPID 0x1f0
  | _ => False
  end.
Proof. apply BuildPATSection_ParsePAT; unfold word16; lia. Defined.

Lemma field_at r k pre x post i s :
  0 ≤ k ≤ 8 → Z.land r (Z.ones k) = 0 → s = pre ++ field r x ++ post → len pre = i →
  0 ≤ x < 2 ^ (k + 8) → get16m (Z.ones k) s i = Ret x.
Proof. intros ?? -> ??. by apply get16m_field. Qed.

Lemma bytes_ok_concat {A} (f : A → list Z) l :
  (∀ x, x ∈ l → bytes_ok (f x)) → bytes_ok (concat (map f l)).
Proof.
  induction l as [| x l IH]; intros Hf; [apply Forall_nil_2 |]. cbn [map concat].
  apply bytes_ok_app; [apply Hf; set_solver | apply IH; set_solver].
Qed.

Lemma fold_snoc {A} (l acc : list A) : fold_left (λ acc x, acc ++ [x]) l acc = acc ++ l.
Proof.
  revert acc. induction l as [| x l IH]; intros acc; simpl; [by rewrite app_nil_r |].
  by rewrite IH, <- app_assoc.
Qed.

(** *** The PMT *)

Definition elementBytes (e : PMTElement) : list Z :=
  [StreamType e] ++ field 0xe0 (ElementaryPID e) ++ field 0xf0 (len (ESInfo e)) ++ ESInfo e.

Definition pmtSection (version number last : Z) (pmt : PMT) : SectionBytes :=
  longSection TableIDPMT (pmt_ProgramNumber pmt) version number last
    (field 0xe0 (pmt_PCRPID pmt) ++ field 0xf0 (len (pmt_ProgramInfo pmt)) ++ pmt_ProgramInfo pmt ++
     concat (map elementBytes (pmt_Elements pmt))).

(** An information loop that holds exactly the descriptors. *)
Definition info_ok (info : list Z) (ds : list Descriptor) : Prop := splits info ds ∧ bytes_ok info.

Definition pmt_ok (pmt : PMT) : Prop :=
  word16 (pmt_ProgramNumber pmt) ∧ 0 ≤ pmt_VersionNumber pmt < 32 ∧ 0 ≤ pmt_PCRPID pmt < 0x2000 ∧
  info_ok (pmt_ProgramInfo pmt) (pmt_Descriptors pmt) ∧
  Forall (λ e, byte_ok (StreamType e) ∧ 0 ≤ ElementaryPID e < 0x2000 ∧
               info_ok (ESInfo e) (el_Descriptors e)) (pmt_Elements pmt).

Lemma ParseDescriptors_info info ds : info_ok info ds → ParseDescriptors info = Ret ds.
Proof. intros [[-> Hds] Hb]. by apply ParseDescriptors_concat. Qed.

Lemma parseDescriptorsStrict_info info ds : info_ok info ds → parseDescriptorsStrict info = Ret ds.
Proof. intros [[-> Hds] Hb]. by apply parseDescriptorsStrict_concat. Qed.

Lemma elementBytes_len e : len (elementBytes e) = 5 + len (ESInfo e).
Proof. unfold elementBytes. rewrite !len_app, !len_field. change (len [StreamType e]) with 1. lia. Qed.

Lemma elementBytes_ok e :
  byte_ok (StreamType e) → bytes_ok (ESInfo e) → bytes_ok (elementBytes e).
Proof.
  intros ??. unfold elementBytes. apply bytes_ok_app; [by apply Forall_singleton |].
  repeat (apply bytes_ok_app; [by apply field_ok |]). done.
Qed.

Lemma pmtBody_element s sectionEnd els pre e rest :
  s = pre ++ elementBytes e ++ rest → 0 ≤ ElementaryPID e < 0x2000 → info_ok (ESInfo e) (el_Descriptors e) →
  len pre + len (elementBytes e) ≤ sectionEnd → sectionEnd ≤ len s → len (ESInfo e) < 4096 →
  pmtBody s sectionEnd (els, len pre) = continue (els ++ [e], len pre + len (elementBytes e)).
Proof.
  intros Hs Hpid Hinfo Hend Hend' Hfit. rewrite elementBytes_len in *. unfold elementBytes in Hs.
  rewrite <- !app_assoc in Hs. pose proof (len_nonneg (ESInfo e)). pose proof (len_nonneg pre).
  unfold pmtBody. destruct (Z.leb_spec (len pre + 5) sectionEnd); [| lia].
  change 15 with (Z.ones 4). change 31 with (Z.ones 5).
  rewrite (field_at 0xf0 4 (pre ++ [StreamType e] ++ field 0xe0 (ElementaryPID e)) (len (ESInfo e))
             (ESInfo e ++ rest)) by (done || (by rewrite Hs, <- !app_assoc) || (rewrite !len_app; done)).
  run. destruct (Z.ltb_spec sectionEnd (len pre + 5 + len (ESInfo e))); [lia |]. run.
  assert (s![len pre + 5; len pre + 5 + len (ESInfo e)] = Ret (ESInfo e)) as ->.
  { rewrite Hs, !(app_assoc pre), !(app_assoc (pre ++ _)), !(app_assoc ((pre ++ _) ++ _)).
    apply slice_app; [rewrite !len_app; rewrite !len_field; change (len [StreamType e]) with 1; lia | done]. }
  run. assert (s![len pre] = Ret (StreamType e)) as -> by (rewrite Hs; by apply idx_app). run.
  rewrite (field_at 0xe0 5 (pre ++ [StreamType e]) (ElementaryPID e)
    (field 0xf0 (len (ESInfo e)) ++ ESInfo e ++ rest))
    by (done || (by rewrite Hs, <- !app_assoc) || (by rewrite len_app)).
  run. rewrite (ParseDescriptors_info _ _ Hinfo). run.
  rewrite Z.add_assoc. by destruct e.
Qed.

Lemma pmt_body_ok pmt :
  pmt_ok pmt →
  bytes_ok (field 0xe0 (pmt_PCRPID pmt) ++ field 0xf0 (len (pmt_ProgramInfo pmt)) ++ pmt_ProgramInfo pmt ++
     concat (map elementBytes (pmt_Elements pmt))).
Proof.
  intros (_ & _ & _ & [_ Hi] & He). repeat (apply bytes_ok_app; [by apply field_ok |]).
  apply bytes_ok_app; [done |]. apply bytes_ok_concat. intros e Hin. rewrite Forall_forall in He.
  destruct (He e Hin) as (? & _ & _ & ?). by apply elementBytes_ok.
Qed.

Lemma elements_fit es e :
  e ∈ es → len (ESInfo e) ≤ len (concat (map elementBytes es)).
Proof.
  induction es as [| e' es IH]; [by intros ?%elem_of_nil |]. intros [-> | Hin]%elem_of_cons;
    cbn [map concat]; rewrite len_app, elementBytes_len.
  - pose proof (len_nonneg (concat (map elementBytes es))). lia.
  - pose proof (len_nonneg (ESInfo e')). specialize (IH Hin). lia.
Qed.

Lemma ParsePMT_pmtSection version number last pmt :
  pmt_ok pmt → version = pmt_VersionNumber pmt → byte_ok number → byte_ok last →
  len (pmt_ProgramInfo pmt) + len (concat (map elementBytes (pmt_Elements pmt))) + 13 < 4096 →
  ParsePMT (pmtSection version number last pmt) = Ret pmt.
Proof.
  intros Hok Hver Hn Hl Hfit. pose proof (pmt_body_ok pmt Hok) as Hbody.
  destruct Hok as (Hpn & Hv & Hpcr & Hinfo & Hels). unfold ParsePMT, pmtSection.
  set (els := concat (map elementBytes (pmt_Elements pmt))) in *.
  set (info := pmt_ProgramInfo pmt) in *.
  set (body := field 0xe0 (pmt_PCRPID pmt) ++ field 0xf0 (len info) ++ info ++ els) in *.
  pose proof (len_nonneg info). pose proof (len_nonneg els).
  assert (len body = 4 + len info + len els) as HLb
    by (unfold body; rewrite !len_app, !len_field; lia).
  subst version. set (ver := pmt_VersionNumber pmt) in *. set (pn := pmt_ProgramNumber pmt) in *.
  rewrite long_rejects, long_ParseSectionHeader, long_TotalLength by (done || lia). run.
  pose proof (long_split TableIDPMT pn ver number last body) as Hs.
  pose proof (long_len TableIDPMT pn ver number last body) as HL.
  set (s := longSection TableIDPMT pn ver number last body) in *.
  set (crc := longCRC TableIDPMT pn ver number last body) in *.
  set (hdr := longHeader TableIDPMT pn ver number last (len body + 9)) in *.
  assert (len hdr = 8) as Hhdr by done.
  unfold body in Hs. rewrite <- !app_assoc in Hs.
  change 15 with (Z.ones 4). change 31 with (Z.ones 5).
  rewrite (field_at 0xf0 4 (hdr ++ field 0xe0 (pmt_PCRPID pmt)) (len info) (info ++ els ++ crc) 10)
    by (done || (by rewrite Hs, <- app_assoc) || lia). run.
  destruct (Z.ltb_spec (len body + 12 - 4) (12 + len info)); [lia |]. run.
  rewrite (field_at 0xe0 5 hdr (pmt_PCRPID pmt) (field 0xf0 (len info) ++ info ++ els ++ crc) 8)
    by (done || lia). run.
  assert (s![12; 12 + len info] = Ret info) as ->.
  { rewrite Hs, !(app_assoc hdr), !(app_assoc (hdr ++ _)). by apply slice_app. }
  run. rewrite (ParseDescriptors_info _ _ Hinfo). run.
  replace (12 + len info) with (len (hdr ++ field 0xe0 (pmt_PCRPID pmt) ++ field 0xf0 (len info) ++ info))
    by (rewrite !len_app, Hhdr, !len_field; lia).
  rewrite (loop_read elementBytes (λ els e, els ++ [e]) (λ els, els) _ s (pmt_Elements pmt) _ crc).
  - run. rewrite fold_snoc. by destruct pmt.
  - by rewrite Hs, <- !app_assoc.
  - intros pre e rest acc He Hse Hrest. rewrite Forall_forall in Hels.
    destruct (Hels e He) as (_ & Hpid & Hinfo'). change (len crc) with 4 in Hrest.
    pose proof (elements_fit _ _ He) as Hfits. fold els in Hfits.
    assert (len s = len pre + len (elementBytes e) + len rest) as HL' by (rewrite Hse, !len_app; lia).
    apply (pmtBody_element _ _ _ _ _ rest); try done; lia.
  - intros acc. unfold pmtBody. change (len crc) with 4.
    destruct (Z.leb_spec (len s - 4 + 5) (len body + 12 - 4)); [lia | done].
  - assert (length (pmt_Elements pmt) ≤ length els)%nat by (by apply concat_length_ge).
    unfold len in *. lia.
Qed.

(** *** The SDT *)

(** Running status and free CA mode share a byte with the length. *)
Definition statusBits (running : Z) (free : bool) : Z := running * 32 + (if free then 16 else 0).
Definition eitBits (schedule pf : bool) : Z :=
  Z.lor 0xfc ((if schedule then 2 else 0) + (if pf then 1 else 0)).

Definition serviceBytes (svc : SDTService) : list Z :=
  let ds := concat (svc_Descriptors svc) in
  be16bytes (svc_ServiceID svc) ++ [eitBits (svc_EITScheduleFlag svc) (svc_EITPresentFollowing svc)] ++
  field (statusBits (svc_RunningStatus svc) (svc_FreeCAMode svc)) (len ds) ++ ds.

Definition sdtSection (tid number last : Z) (sdt : SDT) : SectionBytes :=
  longSection tid (sdt_TransportStreamID sdt) (sdt_VersionNumber sdt) number last
    (be16bytes (sdt_OriginalNetworkID sdt) ++ [0xff] ++ concat (map serviceBytes (sdt_Services sdt))).

Definition descs_ok (ds : list Descriptor) : Prop := info_ok (concat ds) ds.

Definition sdt_ok (sdt : SDT) : Prop :=
  word16 (sdt_TransportStreamID sdt) ∧ word16 (sdt_OriginalNetworkID sdt) ∧
  0 ≤ sdt_VersionNumber sdt < 32 ∧
  Forall (λ svc, word16 (svc_ServiceID svc) ∧ 0 ≤ svc_RunningStatus svc < 8 ∧
                 descs_ok (svc_Descriptors svc)) (sdt_Services sdt).

Lemma statusBits_byte r f : 0 ≤ r < 8 → byte_ok (statusBits r f).
Proof. intros. unfold statusBits, byte_ok. destruct f; lia. Qed.

(** The status bits read back, whatever the length bits beside them. *)
Lemma statusBits_read r f h :
  0 ≤ r < 8 → 0 ≤ h < 16 →
  Z.land (statusBits r f) 15 = 0 ∧
  Z.land (Z.shiftr (Z.lor (statusBits r f) h) 5) 7 = r ∧ bit (Z.lor (statusBits r f) h) 16 = f.
Proof.
  intros Hr Hh.
  assert (forallb (λ n, forallb (λ m, forallb (λ f,
     let r := Z.of_nat n in let h := Z.of_nat m in
     (Z.land (statusBits r f) 15 =? 0) && (Z.land (Z.shiftr (Z.lor (statusBits r f) h) 5) 7 =? r) &&
     Bool.eqb (bit (Z.lor (statusBits r f) h) 16) f) [true; false]) (seq 0 16)) (seq 0 8) = true)
    as H by by vm_compute.
  rewrite forallb_forall in H. specialize (H (Z.to_nat r) ltac:(apply in_seq; lia)).
  rewrite forallb_forall in H. specialize (H (Z.to_nat h) ltac:(apply in_seq; lia)).
  rewrite forallb_forall in H. specialize (H f ltac:(destruct f; simpl; auto)).
  cbv zeta in H. rewrite !Z2Nat.id in H by lia. bools. by rewrite Bool.eqb_true_iff in *.
Qed.

Lemma serviceBytes_len svc : len (serviceBytes svc) = 5 + len (concat (svc_Descriptors svc)).
Proof. unfold serviceBytes. rewrite !len_app, len_field, len_be16bytes. change (len [_]) with 1. lia. Qed.

Lemma serviceBytes_ok svc :
  0 ≤ svc_RunningStatus svc < 8 → descs_ok (svc_Descriptors svc) → bytes_ok (serviceBytes svc).
Proof.
  intros Hr [_ Hd]. unfold serviceBytes. apply bytes_ok_app; [apply be16bytes_ok |].
  apply bytes_ok_app; [apply Forall_singleton; by destruct (svc_EITScheduleFlag svc), (svc_EITPresentFollowing svc) |].
  apply bytes_ok_app; [by apply field_ok, statusBits_byte | done].
Qed.

Lemma services_fit svcs svc :
  svc ∈ svcs → len (concat (svc_Descriptors svc)) ≤ len (concat (map serviceBytes svcs)).
Proof.
  induction svcs as [| svc' svcs IH]; [by intros ?%elem_of_nil |]. intros [-> | Hin]%elem_of_cons;
    cbn [map concat]; rewrite len_app, serviceBytes_len.
  - pose proof (len_nonneg (concat (map serviceBytes svcs))). lia.
  - pose proof (len_nonneg (concat (svc_Descriptors svc'))). specialize (IH Hin). lia.
Qed.

Lemma sdtBody_service s sectionEnd svcs pre svc rest :
  s = pre ++ serviceBytes svc ++ rest → word16 (svc_ServiceID svc) → 0 ≤ svc_RunningStatus svc < 8 →
  descs_ok (svc_Descriptors svc) → len pre + len (serviceBytes svc) ≤ sectionEnd →
  sectionEnd ≤ len s → len (concat (svc_Descriptors svc)) < 4096 →
  sdtBody s sectionEnd (svcs, len pre) = continue (svcs ++ [svc], len pre + len (serviceBytes svc)).
Proof.
  intros Hs Hid Hr Hds Hend Hend' Hfit. rewrite serviceBytes_len in *. unfold serviceBytes in Hs.
  set (ds := concat (svc_Descriptors svc)) in *.
  set (status := statusBits (svc_RunningStatus svc) (svc_FreeCAMode svc)) in *.
  set (eit := eitBits (svc_EITScheduleFlag svc) (svc_EITPresentFollowing svc)) in *.
  pose proof (len_nonneg ds). pose proof (len_nonneg pre).
  destruct (high_byte (len ds)) as [Hhigh Hhb]; [lia |].
  destruct (statusBits_read (svc_RunningStatus svc) (svc_FreeCAMode svc) (len ds / 256)) as (Hst & Hrun & Hfree);
    [done | split; [apply Z.div_pos | apply Z.div_lt_upper_bound]; lia |]. fold status in Hst, Hrun, Hfree.
  rewrite <- !app_assoc in Hs.
  unfold sdtBody. destruct (Z.leb_spec (len pre + 5) sectionEnd); [| lia].
  change 15 with (Z.ones 4).
  rewrite (field_at status 4 (pre ++ be16bytes (svc_ServiceID svc) ++ [eit]) (len ds) (ds ++ rest))
    by (done || (by rewrite Hs, <- !app_assoc) || (rewrite !len_app; done)).
  run. destruct (Z.ltb_spec sectionEnd (len pre + 5 + len ds)); [lia |]. run.
  assert (s![len pre + 5; len pre + 5 + len ds] = Ret ds) as ->.
  { rewrite Hs, !(app_assoc pre), !(app_assoc (pre ++ _)), !(app_assoc ((pre ++ _) ++ _)).
    apply slice_app; [rewrite !len_app, len_field, len_be16bytes; change (len [eit]) with 1; lia | done]. }
  run. assert (get16 s (len pre) = Ret (svc_ServiceID svc)) as -> by (rewrite Hs; by apply get16_app). run.
  assert (s![len pre + 2] = Ret eit) as ->.
  { rewrite Hs, app_assoc. apply idx_app. by rewrite len_app, len_be16bytes. }
  run. assert (s![len pre + 3] = Ret (Z.lor status (len ds / 256))) as ->.
  { rewrite Hs, app_assoc, (app_assoc (pre ++ _)). unfold field at 1. rewrite Hhigh. apply idx_app.
    rewrite !len_app, len_be16bytes. change (len [eit]) with 1. lia. }
  run. rewrite Hrun, Hfree. assert (ParseDescriptors ds = Ret (svc_Descriptors svc)) as -> by (apply ParseDescriptors_concat; apply Hds). run.
  rewrite Z.add_assoc. unfold eit. destruct svc as [? [] [] ? ? ?]; done.
Qed.

Lemma ParseSDT_sdtSection tid number last sdt :
  tid = TableIDSDT0 ∨ tid = TableIDSDT1 → sdt_ok sdt → byte_ok number → byte_ok last →
  len (concat (map serviceBytes (sdt_Services sdt))) + 12 < 4096 →
  ParseSDT (sdtSection tid number last sdt) = Ret sdt.
Proof.
  intros Htid (Hts & Hon & Hv & Hsvcs) Hn Hl Hfit. unfold ParseSDT, sdtSection.
  set (svcs := concat (map serviceBytes (sdt_Services sdt))) in *.
  set (body := be16bytes (sdt_OriginalNetworkID sdt) ++ [0xff] ++ svcs).
  pose proof (len_nonneg svcs).
  assert (len body = 3 + len svcs) as HLb by (unfold body; rewrite !len_app, len_be16bytes; change (len [0xff]) with 1; lia).
  assert (bytes_ok body) as Hbody.
  { apply bytes_ok_app; [apply be16bytes_ok |]. apply bytes_ok_app; [by apply Forall_singleton |].
    apply bytes_ok_concat. intros svc Hin. rewrite Forall_forall in Hsvcs.
    destruct (Hsvcs svc Hin) as (_ & ? & ?). by apply serviceBytes_ok. }
  assert (byte_ok tid) by (by destruct Htid as [-> | ->]).
  set (ver := sdt_VersionNumber sdt) in *. set (ts := sdt_TransportStreamID sdt) in *.
  rewrite long_rejects, long_ParseSectionHeader, long_TotalLength by
    (done || lia || by destruct Htid as [-> | ->]). run.
  pose proof (long_split tid ts ver number last body) as Hs.
  pose proof (long_len tid ts ver number last body) as HL.
  set (s := longSection tid ts ver number last body) in *.
  set (crc := longCRC tid ts ver number last body) in *.
  set (hdr := longHeader tid ts ver number last (len body + 9)) in *.
  assert (len hdr = 8) as Hhdr by done. unfold body in Hs. rewrite <- !app_assoc in Hs.
  assert (get16 s 8 = Ret (sdt_OriginalNetworkID sdt)) as -> by (rewrite Hs; by apply get16_app). run.
  change 11 with (len (hdr ++ be16bytes (sdt_OriginalNetworkID sdt) ++ [0xff])).
  rewrite (loop_read serviceBytes (λ svcs e, svcs ++ [e]) (λ svcs, svcs) _ s (sdt_Services sdt) _ crc).
  - run. rewrite fold_snoc. by destruct sdt.
  - by rewrite Hs, <- !app_assoc.
  - intros pre svc rest acc Hin Hse Hrest. rewrite Forall_forall in Hsvcs.
    destruct (Hsvcs svc Hin) as (? & ? & ?). change (len crc) with 4 in Hrest.
    pose proof (services_fit _ _ Hin) as Hfits. fold svcs in Hfits.
    assert (len s = len pre + len (serviceBytes svc) + len rest) by (rewrite Hse, !len_app; lia).
    apply (sdtBody_service _ _ _ _ _ rest); try done; lia.
  - intros acc. unfold sdtBody. change (len crc) with 4.
    destruct (Z.leb_spec (len s - 4 + 5) (len body + 12 - 4)); [lia | done].
  - assert (length (sdt_Services sdt) ≤ length svcs)%nat by (by apply concat_length_ge).
    unfold len in *. lia.
Qed.

(** *** The NIT *)

Definition streamBytes (ts : NITTransportStream) : list Z :=
  let ds := concat (nts_Descriptors ts) in
  be16bytes (nts_TransportStreamID ts) ++ be16bytes (nts_OriginalNetworkID ts) ++
  field 0xf0 (len ds) ++ ds.

Definition nitSection (nit : NIT) : SectionBytes :=
  let ds := concat (nit_NetworkDescriptors nit) in
  let streams := concat (map streamBytes (nit_TransportStreams nit)) in
  longSection (nit_TableID nit) (nit_NetworkID nit) (nit_VersionNumber nit)
    (nit_SectionNumber nit) (nit_LastSectionNumber nit)
    (field 0xf0 (len ds) ++ ds ++ field 0xf0 (len streams) ++ streams).

Definition nit_ok (nit : NIT) : Prop :=
  word16 (nit_NetworkID nit) ∧ (nit_TableID nit = TableIDNIT0 ∨ nit_TableID nit = TableIDNIT1) ∧
  0 ≤ nit_VersionNumber nit < 32 ∧ byte_ok (nit_SectionNumber nit) ∧
  byte_ok (nit_LastSectionNumber nit) ∧ descs_ok (nit_NetworkDescriptors nit) ∧
  Forall (λ ts, word16 (nts_TransportStreamID ts) ∧ word16 (nts_OriginalNetworkID ts) ∧
                descs_ok (nts_Descriptors ts)) (nit_TransportStreams nit).

Lemma streamBytes_len ts : len (streamBytes ts) = 6 + len (concat (nts_Descriptors ts)).
Proof. unfold streamBytes. rewrite !len_app, len_field, !len_be16bytes. lia. Qed.

Lemma streams_fit sts ts :
  ts ∈ sts → len (concat (nts_Descriptors ts)) ≤ len (concat (map streamBytes sts)).
Proof.
  induction sts as [| ts' sts IH]; [by intros ?%elem_of_nil |]. intros [-> | Hin]%elem_of_cons;
    cbn [map concat]; rewrite len_app, streamBytes_len.
  - pose proof (len_nonneg (concat (map streamBytes sts))). lia.
  - pose proof (len_nonneg (concat (nts_Descriptors ts'))). specialize (IH Hin). lia.
Qed.

Lemma nitBody_stream s loopEnd sts pre ts rest :
  s = pre ++ streamBytes ts ++ rest → word16 (nts_TransportStreamID ts) →
  word16 (nts_OriginalNetworkID ts) → descs_ok (nts_Descriptors ts) →
  len pre + len (streamBytes ts) ≤ loopEnd → loopEnd ≤ len s → len (concat (nts_Descriptors ts)) < 4096 →
  nitBody s loopEnd (sts, len pre) = continue (sts ++ [ts], len pre + len (streamBytes ts)).
Proof.
  intros Hs Ht Ho Hds Hend Hend' Hfit. rewrite streamBytes_len in *. unfold streamBytes in Hs.
  set (ds := concat (nts_Descriptors ts)) in *. pose proof (len_nonneg ds). pose proof (len_nonneg pre).
  rewrite <- !app_assoc in Hs.
  unfold nitBody. destruct (Z.leb_spec (len pre + 6) loopEnd); [| lia].
  change 15 with (Z.ones 4).
  rewrite (field_at 0xf0 4 (pre ++ be16bytes (nts_TransportStreamID ts) ++ be16bytes (nts_OriginalNetworkID ts))
             (len ds) (ds ++ rest)) by (done || (by rewrite Hs, <- !app_assoc) || (rewrite !len_app; done)).
  run. destruct (Z.ltb_spec loopEnd (len pre + 6 + len ds)); [lia |]. run.
  assert (s![len pre + 6; len pre + 6 + len ds] = Ret ds) as ->.
  { rewrite Hs, !(app_assoc pre), !(app_assoc (pre ++ _)), !(app_assoc ((pre ++ _) ++ _)).
    apply slice_app; [rewrite !len_app, len_field, !len_be16bytes; lia | done]. }
  run. assert (parseDescriptorsStrict ds = Ret (nts_Descriptors ts)) as ->
    by (apply parseDescriptorsStrict_concat; apply Hds). run.
  assert (get16 s (len pre) = Ret (nts_TransportStreamID ts)) as -> by (rewrite Hs; by apply get16_app). run.
  assert (get16 s (len pre + 2) = Ret (nts_OriginalNetworkID ts)) as ->.
  { rewrite Hs, app_assoc. apply get16_app; [by rewrite len_app, len_be16bytes | done]. }
  run. rewrite Z.add_assoc. by destruct ts.
Qed.

Lemma nit_body_ok nit :
  nit_ok nit →
  let ds := concat (nit_NetworkDescriptors nit) in
  let streams := concat (map streamBytes (nit_TransportStreams nit)) in
  bytes_ok (field 0xf0 (len ds) ++ ds ++ field 0xf0 (len streams) ++ streams).
Proof.
  intros (_ & _ & _ & _ & _ & [_ Hds] & Hsts). cbv zeta.
  apply bytes_ok_app; [by apply field_ok |]. apply bytes_ok_app; [done |].
  apply bytes_ok_app; [by apply field_ok |]. apply bytes_ok_concat. intros ts Hin.
  rewrite Forall_forall in Hsts. destruct (Hsts ts Hin) as (_ & _ & [_ Hd]). unfold streamBytes.
  apply bytes_ok_app; [apply be16bytes_ok |]. apply bytes_ok_app; [apply be16bytes_ok |].
  apply bytes_ok_app; [by apply field_ok | done].
Qed.

Lemma ParseNIT_nitSection nit :
  nit_ok nit →
  len (concat (nit_NetworkDescriptors nit)) +
    len (concat (map streamBytes (nit_TransportStreams nit))) + 13 < 4096 →
  ParseNIT (nitSection nit) = Ret nit.
Proof.
  intros Hok Hfit. pose proof (nit_body_ok nit Hok) as Hbody. cbv zeta in Hbody.
  destruct Hok as (Hid & Htid & Hv & Hn & Hl & Hds & Hsts). unfold ParseNIT, nitSection. cbv zeta.
  set (sts := concat (map streamBytes (nit_TransportStreams nit))) in *.
  set (ds := concat (nit_NetworkDescriptors nit)) in *.
  set (body := field 0xf0 (len ds) ++ ds ++ field 0xf0 (len sts) ++ sts) in *.
  pose proof (len_nonneg sts). pose proof (len_nonneg ds).
  assert (len body = 4 + len ds + len sts) as HLb by (unfold body; rewrite !len_app, !len_field; lia).
  assert (byte_ok (nit_TableID nit)) by (by destruct Htid as [-> | ->]).
  set (tid := nit_TableID nit) in *. set (id := nit_NetworkID nit) in *.
  set (ver := nit_VersionNumber nit) in *. set (num := nit_SectionNumber nit) in *.
  set (last := nit_LastSectionNumber nit) in *.
  rewrite long_rejects, long_ParseSectionHeader, long_TotalLength by
    (done || lia || by destruct Htid as [-> | ->]). run.
  pose proof (long_split tid id ver num last body) as Hs.
  pose proof (long_len tid id ver num last body) as HL.
  set (s := longSection tid id ver num last body) in *.
  set (crc := longCRC tid id ver num last body) in *.
  set (hdr := longHeader tid id ver num last (len body + 9)) in *.
  assert (len hdr = 8) as Hhdr by done. unfold body in Hs. rewrite <- !app_assoc in Hs.
  change 15 with (Z.ones 4).
  rewrite (field_at 0xf0 4 hdr (len ds) (ds ++ field 0xf0 (len sts) ++ sts ++ crc) 8) by (done || lia). run.
  destruct (Z.ltb_spec (len body + 12 - 4) (10 + len ds + 2)); [lia |]. run.
  assert (s![10; 10 + len ds] = Ret ds) as -> by (rewrite Hs, (app_assoc hdr); by apply slice_app). run.
  assert (parseDescriptorsStrict ds = Ret (nit_NetworkDescriptors nit)) as ->
    by (apply parseDescriptorsStrict_concat; apply Hds). run.
  rewrite (field_at 0xf0 4 (hdr ++ field 0xf0 (len ds) ++ ds) (len sts) (sts ++ crc) (10 + len ds))
    by (done || (by rewrite Hs, <- !app_assoc) || (rewrite !len_app, Hhdr, len_field; lia) || lia). run.
  rewrite (proj2 (Z.eqb_eq _ _)) by lia. run.
  assert (get16 s 3 = Ret id) as ->.
  { rewrite Hs. unfold hdr, longHeader. rewrite <- !app_assoc, (app_assoc [tid]). by apply get16_app. }
  run.
  replace (10 + len ds + 2) with (len (hdr ++ field 0xf0 (len ds) ++ ds ++ field 0xf0 (len sts)))
    by (rewrite !len_app, Hhdr, !len_field; lia).
  set (pre := hdr ++ field 0xf0 (len ds) ++ ds ++ field 0xf0 (len sts)).
  assert (len pre = 12 + len ds) as Hpre by (unfold pre; rewrite !len_app, Hhdr, !len_field; lia).
  rewrite (loop_read streamBytes (λ sts e, sts ++ [e]) (λ sts', (sts', len pre + len sts)) _ s
             (nit_TransportStreams nit) pre crc).
  - run. rewrite fold_snoc, Z.eqb_refl. by destruct nit.
  - unfold pre. by rewrite Hs, <- !app_assoc.
  - intros pre' ts rest acc Hin Hse Hrest. rewrite Forall_forall in Hsts.
    destruct (Hsts ts Hin) as (? & ? & ?). change (len crc) with 4 in Hrest.
    pose proof (streams_fit _ _ Hin) as Hfits. fold sts in Hfits.
    assert (len s = len pre' + len (streamBytes ts) + len rest) by (rewrite Hse, !len_app; lia).
    apply (nitBody_stream _ _ _ _ _ rest); try done; lia.
  - intros acc. unfold nitBody. change (len crc) with 4.
    destruct (Z.leb_spec (len s - 4 + 6) (len pre + len sts)); [lia |]. do 2 f_equal. lia.
  - assert (length (nit_TransportStreams nit) ≤ length sts)%nat by (by apply concat_length_ge).
    unfold len in *. lia.
Qed.

(** A PMT with any programme and elementary descriptors that
    fits a section parses back, field for field, from its section. *)
Theorem ParsePMT_roundtrip version number last pmt :
  pmt_ok pmt → version = pmt_VersionNumber pmt → byte_ok number → byte_ok last →
  len (pmt_ProgramInfo pmt) + len (concat (map elementBytes (pmt_Elements pmt))) + 13 < 4096 →
  section_valid (pmtSection version number last pmt) ∧
  ParsePMT (pmtSection version number last pmt) = Ret pmt.
Proof.
  intros Hok Hv Hn Hl Hfit. split; [| by apply ParsePMT_pmtSection].
  apply long_valid; try done; [by apply pmt_body_ok |]. rewrite !len_app, !len_field. lia.
Qed.

(** A video and an audio stream. *)
Definition sample_pmt : PMT :=
  MkPMT 0x418 3 0x100 [0x09; 4; 0; 5; 0xe9; 1] [[0x09; 4; 0; 5; 0xe9; 1]]
    [MkElement 0x02 0x111 [0x52; 1; 0] [[0x52; 1; 0]]; MkElement 0x0f 0x112 [] []].

Lemma info_okb info ds :
  bool_decide (info = concat ds) && forallb desc_okb ds && bytes_okb info = true → info_ok info ds.
Proof.
  intros H. bools. apply bool_decide_eq_true in H. split; [split |]; [done | by apply descs_okb_spec |].
  by apply bytes_okb_spec.
Qed.

Lemma ParsePMT_roundtrip_witness :
  section_valid (pmtSection 3 0 0 sample_pmt) ∧ ParsePMT (pmtSection 3 0 0 sample_pmt) = Ret sample_pmt.
Proof.
  apply ParsePMT_roundtrip; try done. unfold pmt_ok. split_and!; try done; [by apply info_okb |].
  repeat (apply Forall_cons; split; [split_and!; [done | done | done | by apply info_okb] |]).
  apply Forall_nil_2.
Defined.

(** An SDT and a NIT whose parts fit a section
    parse back, field for field, from their sections. *)
Theorem ParseSDT_ParseNIT_roundtrip tid number last sdt nit :
  (tid = TableIDSDT0 ∨ tid = TableIDSDT1) → sdt_ok sdt → byte_ok number → byte_ok last →
  len (concat (map serviceBytes (sdt_Services sdt))) + 12 < 4096 →
  nit_ok nit →
  len (concat (nit_NetworkDescriptors nit)) +
    len (concat (map streamBytes (nit_TransportStreams nit))) + 13 < 4096 →
  ParseSDT (sdtSection tid number last sdt) = Ret sdt ∧ ParseNIT (nitSection nit) = Ret nit.
Proof. intros. split; [by apply ParseSDT_sdtSection | by apply ParseNIT_nitSection]. Qed.

Definition sample_sdt : SDT :=
  MkSDT 0x7fe1 0x7fe1 5 [MkSDTService 0x418 true true 4 false [[0x48; 3; 1; 0; 0]];
                         MkSDTService 0x419 true false 0 true []].
Definition sample_nit : NIT :=
  MkNIT 0x7fe1 TableIDNIT0 1 0 0 [[0x40; 2; 0x4e; 0x48]]
    [MkNITStream 0x7fe1 0x7fe1 [[0x41; 3; 4; 0x18; 1]; [0xfa; 2; 0x5a; 0xf8]]].

Lemma ParseSDT_ParseNIT_roundtrip_witness :
  ParseSDT (sdtSection TableIDSDT0 0 1 sample_sdt) = Ret sample_sdt ∧
  ParseNIT (nitSection sample_nit) = Ret sample_nit.
Proof.
  apply ParseSDT_ParseNIT_roundtrip; try done; [by left | |].
  - unfold sdt_ok. split_and!; try done.
    repeat (apply Forall_cons; split; [split_and!; [done | done | done | by apply info_okb] |]).
    apply Forall_nil_2.
  - unfold nit_ok. split_and!; try done; [by left | by apply info_okb |].
    repeat (apply Forall_cons; split; [split_and!; [done | done | by apply info_okb] |]).
    apply Forall_nil_2.
Defined.

Lemma table_parsers_total_witness :
  ends invalid (ParsePAT [0; 0xb0; 5; 1; 2; 0xc1; 0; 0; 1; 2; 3; 4]) (λ pat,
    0 ≤ pat_NetworkPID pat ≤ 0x1fff ∧ pat_Programs pat !! 0 = None ∧
    ∀ program pid, pat_Programs pat !! program = Some pid → 0 ≤ pid ≤ 0x1fff).
Proof.
  exact (proj1 (table_parsers_total [0; 0xb0; 5; 1; 2; 0xc1; 0; 0; 1; 2; 3; 4]
                  (bytes_okb_spec [0; 0xb0; 5; 1; 2; 0xc1; 0; 0; 1; 2; 3; 4] eq_refl))).
Defined.
