(* ===== verification/Events.v ===== *)
(** * Event, broadcaster and time tables ([ts/eit.go], [ts/bit.go], [ts/tot.go])

    The event information table with its modified Julian dates and BCD
    durations, the broadcaster information table, and the time offset table.
    The calendar of [parseMJDTime] is computed in binary64 arithmetic, modelled
    with the standard library's executable specification of IEEE 754
    ([SpecFloat]).  A [time.Time] is its instant, in seconds since 1 January of
    year 1 UTC (the zero [time.Time] is 0); the location is left out. *)

From S2P Require Import Prelude Crc32 Packet Section AribTables Aribstr Descriptors Psi.
From Stdlib Require Import SpecFloat.

(** ** The code: time *)

Definition float64 : Type := spec_float.
(** [float64(n)] *)
Definition ofInt (n : Z) : float64 := binary_normalize 53 1024 n 0 false.
Definition fsub (x y : float64) : float64 := SFsub 53 1024 x y.
Definition fmul (x y : float64) : float64 := SFmul 53 1024 x y.
Definition fdiv (x y : float64) : float64 := SFdiv 53 1024 x y.
(** The constant [n/d]: the quotient of two exact values, rounded once. *)
Definition fconst (n d : Z) : float64 := fdiv (ofInt n) (ofInt d).
Definition f15078_2 : float64 := Eval vm_compute in fconst 150782 10.
Definition f14956_1 : float64 := Eval vm_compute in fconst 149561 10.
Definition f365_25 : float64 := Eval vm_compute in fconst 36525 100.
Definition f30_6001 : float64 := Eval vm_compute in fconst 306001 10000.
(** [int(x)] truncates towards zero. *)
Definition toInt (x : float64) : Z :=
  match x with
  | S754_finite s m e =>
      let n := if 0 <=? e then Z.shiftl (Zpos m) e else Z.shiftr (Zpos m) (- e) in
      if s then - n else n
  | _ => 0
  end.

Definition Time : Type := Z.
Definition Duration : Type := Z.
Definition Hour : Duration := 3600 * 10 ^ 9.
Definition Minute : Duration := 60 * 10 ^ 9.
Definition Second : Duration := 10 ^ 9.

(** [time.Date] in a zone [offset] seconds east of UTC: months out of range move
    the year, days out of range move the date. *)
Definition isLeap (year : Z) : bool :=
  (year mod 4 =? 0) && (negb (year mod 100 =? 0) || (year mod 400 =? 0)).
Definition daysBeforeYear (year : Z) : Z :=
  let y := year - 1 in 365 * y + y / 4 - y / 100 + y / 400.
Definition daysBeforeMonth (year month : Z) : Z :=
  nth (Z.to_nat (month - 1)) [0; 31; 59; 90; 120; 151; 181; 212; 243; 273; 304; 334] 0 +
  (if (2 <? month) && isLeap year then 1 else 0).
Definition date (year month day hour minute second offset : Z) : Time :=
  let year := year + (month - 1) / 12 in
  let month := (month - 1) mod 12 + 1 in
  (daysBeforeYear year + daysBeforeMonth year month + day - 1) * 86400 +
  hour * 3600 + minute * 60 + second - offset.

Definition jst : Z := 9 * 60 * 60.

Definition IsZero (t : Time) : bool := t =? 0.

Definition decodeBCDByte (b : Z) : option Z :=
  let high := Z.shiftr b 4 in
  let low := Z.land b 0x0f in
  if (9 <? high) || (9 <? low) then None else Some (high * 10 + low).

Definition allBytes (b : list Z) (want : Z) : bool := forallb (λ v, v =? want) b.

(** A BCD byte with an upper bound (at most 99 for any BCD byte). *)
Definition bcdField (b : list Z) (i : Z) (limit : Z) : outcome Z :=
  x ← b![i];
  match decodeBCDByte x with
  | Some n => if limit <? n then Err ErrInvalidSection else Ret n
  | None => Err ErrInvalidSection
  end.

(** The year, month and day of a modified Julian date. *)
Definition mjdDate (mjd : Z) : Z * Z * Z :=
  let yp := toInt (fdiv (fsub (ofInt mjd) f15078_2) f365_25) in
  let days := toInt (fmul (ofInt yp) f365_25) in
  let mp := toInt (fdiv (fsub (fsub (ofInt mjd) f14956_1) (ofInt days)) f30_6001) in
  let day := mjd - 14956 - days - toInt (fmul (ofInt mp) f30_6001) in
  let k := if (mp =? 14) || (mp =? 15) then 1 else 0 in
  (yp + k + 1900, mp - 1 - k * 12, day).

Definition mjdTime (mjd hour minute second : Z) : Time :=
  let '(year, month, day) := mjdDate mjd in date year month day hour minute second jst.

Definition parseMJDTime (b : list Z) : outcome Time :=
  if negb (len b =? 5) then Err ErrInvalidSection
  else if allBytes b 0xff then Ret 0
  else
    mjd ← get16 b 0;
    hour ← bcdField b 2 23;
    minute ← bcdField b 3 59;
    second ← bcdField b 4 59;
    Ret (mjdTime mjd hour minute second).

Definition parseBCDDuration (b : list Z) : outcome Duration :=
  if negb (len b =? 3) then Err ErrInvalidSection
  else if allBytes b 0xff then Ret 0
  else
    hour ← bcdField b 0 99;
    minute ← bcdField b 1 59;
    second ← bcdField b 2 59;
    Ret (hour * Hour + minute * Minute + second * Second).

(** ** The code: [eit.go] *)

Record EITEvent : Type := MkEvent {
  ev_EventID : Z;
  ev_StartTime : Time;
  ev_Duration : Duration;
  ev_RunningStatus : Z;
  ev_FreeCAMode : bool;
  ev_Descriptors : list Descriptor
}.

Record EIT : Type := MkEIT {
  eit_ServiceID : Z;
  eit_TransportStreamID : Z;
  eit_OriginalNetworkID : Z;
  eit_TableID : Z;
  eit_VersionNumber : Z;
  eit_SectionNumber : Z;
  eit_LastSectionNumber : Z;
  eit_SegmentLastSectionNumber : Z;
  eit_LastTableID : Z;
  eit_Events : list EITEvent
}.

Definition eitBody (s : SectionBytes) (sectionEnd : Z) (st : list EITEvent * Z)
    : outcome (list EITEvent * Z + list EITEvent * Z) :=
  let '(events, off) := st in
  if off + 12 <=? sectionEnd then
    startBytes ← s![off + 2; off + 7];
    start ← parseMJDTime startBytes;
    durationBytes ← s![off + 7; off + 10];
    duration ← parseBCDDuration durationBytes;
    descriptorsLoopLen ← get16m 0x0f s (off + 10);
    let descStart := off + 12 in
    let descEnd := descStart + descriptorsLoopLen in
    errorIf (sectionEnd <? descEnd) ErrInvalidSection;;
    descriptors ← s![descStart; descEnd];
    eventID ← get16 s off;
    b ← s![off + 10];
    descs ← ParseDescriptors descriptors;
    continue (events ++ [MkEvent eventID start duration (Z.land (Z.shiftr b 5) 0x07) (bit b 0x10) descs],
              descEnd)
  else break (events, off).

Definition ParseEIT (s : SectionBytes) : outcome EIT :=
  bad ← rejects 18 (λ t, IsEITPF t || IsEITS t) s;
  errorIf bad ErrInvalidSection;;
  header ← ParseSectionHeader s;
  n ← TotalLength s;
  let sectionEnd := n - 4 in
  tsid ← get16 s 8;
  onid ← get16 s 10;
  segmentLast ← s![12];
  lastTable ← s![13];
  '(events, off) ← loop (S (length s)) (eitBody s sectionEnd) ([], 14);
  errorIf (negb (off =? sectionEnd)) ErrInvalidSection;;
  Ret (MkEIT (h_ServiceID header) tsid onid (h_TableID header) (h_VersionNumber header)
         (h_SectionNumber header) (h_LastSectionNumber header) segmentLast lastTable events).

(** ** The code: [tot.go] *)

Record TOT : Type := MkTOT {
  tot_JSTTime : Time;
  tot_Descriptors : list Descriptor
}.

Definition ParseTOT (s : SectionBytes) : outcome TOT :=
  bad ← Ret (len s <? 14) ||? (t ← TableID s; Ret (negb (t =? TableIDTOT))) ||?
        SectionSyntaxIndicator s ||? overruns s ||? (negb <$> ValidateCRC s);
  errorIf bad ErrInvalidSection;;
  n ← TotalLength s;
  let sectionEnd := n - 4 in
  timeBytes ← s![3; 8];
  jstTime ← caught (parseMJDTime timeBytes);
  match jstTime with
  | None => Err ErrInvalidSection
  | Some jstTime =>
      errorIf (IsZero jstTime) ErrInvalidSection;;
      descriptorsLoopLen ← get16m 0x0f s 8;
      let descStart := 10 in
      let descEnd := descStart + descriptorsLoopLen in
      errorIf (negb (descEnd =? sectionEnd)) ErrInvalidSection;;
      descriptors ← s![descStart; descEnd];
      descs ← ParseDescriptors descriptors;
      Ret (MkTOT jstTime descs)
  end.

(** ** The code: [bit.go] *)

Record BITBroadcaster : Type := MkBroadcaster {
  bb_BroadcasterID : Z;
  bb_Descriptors : list Descriptor
}.

Record BIT : Type := MkBIT {
  bit_OriginalNetworkID : Z;
  bit_VersionNumber : Z;
  bit_CurrentNext : bool;
  bit_SectionNumber : Z;
  bit_LastSectionNumber : Z;
  bit_BroadcastViewPropriety : bool;
  bit_FirstDescriptors : list Descriptor;
  bit_Broadcasters : list BITBroadcaster
}.

Record AffiliatedBroadcaster : Type := MkAffiliated {
  af_OriginalNetworkID : Z;
  af_BroadcasterID : Z
}.

Record ExtendedBroadcasterDescriptor : Type := MkExtended {
  xb_BroadcasterType : Z;
  xb_TerrestrialBroadcasterID : Z;
  xb_AffiliationIDs : list Z;
  xb_Broadcasters : list AffiliatedBroadcaster;
  xb_PrivateData : list Z
}.

Definition descriptorsLength (descriptors : list Descriptor) : Z :=
  fold_left (λ n d, n + len d) descriptors 0.

Definition bitBody (s : SectionBytes) (stop : Z) (st : list BITBroadcaster * Z)
    : outcome (list BITBroadcaster * Z + list BITBroadcaster) :=
  let '(broadcasters, off) := st in
  if off <? stop then
    errorIf (stop <? off + 3) ErrInvalidSection;;
    length ← get16m 0x0f s (off + 1);
    let descEnd := off + 3 + length in
    errorIf (stop <? descEnd) ErrInvalidSection;;
    loop ← s![off + 3; descEnd];
    descriptors ← ParseDescriptors loop;
    errorIf (negb (descriptorsLength descriptors =? length)) ErrInvalidSection;;
    id ← s![off];
    continue (broadcasters ++ [MkBroadcaster id descriptors], descEnd)
  else break broadcasters.

Definition ParseBIT (s : SectionBytes) : outcome BIT :=
  bad ← Ret (len s <? 14) ||? (t ← TableID s; Ret (negb (t =? TableIDBIT))) ||?
        (negb <$> SectionSyntaxIndicator s) ||? overruns s ||? (negb <$> ValidateCRC s);
  errorIf bad ErrInvalidSection;;
  n ← TotalLength s;
  let stop := n - 4 in
  firstLen ← get16m 0x0f s 8;
  let firstEnd := 10 + firstLen in
  errorIf (stop <? firstEnd) ErrInvalidSection;;
  onid ← get16 s 3;
  b5 ← s![5];
  b6 ← s![6];
  b7 ← s![7];
  b8 ← s![8];
  first ← s![10; firstEnd];
  descriptors ← ParseDescriptors first;
  errorIf (negb (descriptorsLength descriptors =? firstLen)) ErrInvalidSection;;
  broadcasters ← loop (S (length s)) (bitBody s stop) ([], firstEnd);
  Ret (MkBIT onid (Z.land (Z.shiftr b5 1) 0x1f) (bit b5 1) b6 b7 (bit b8 0x10) descriptors broadcasters).

Fixpoint readAffiliated (n : nat) (data : list Z) (off : Z)
    : outcome (list AffiliatedBroadcaster * Z) :=
  match n with
  | O => Ret ([], off)
  | S n =>
      onid ← get16 data off;
      id ← data![off + 2];
      '(rest, last) ← readAffiliated n data (off + 3);
      Ret (MkAffiliated onid id :: rest, last)
  end.

Definition ParseExtendedBroadcasterDescriptor (d : Descriptor) : outcome ExtendedBroadcasterDescriptor :=
  bad ← Ret (len d <? 2) ||? (n ← Length d; Ret (len d <? 2 + n)) ||?
        (t ← Tag d; Ret (negb (t =? DescriptorTagExtendedBroadcaster)));
  errorIf bad ErrInvalidSection;;
  data ← Data d;
  errorIf (len data <? 1) ErrInvalidSection;;
  b0 ← data![0];
  let broadcasterType := Z.shiftr b0 4 in
  if negb (broadcasterType =? 1) && negb (broadcasterType =? 2) then
    private ← data![1; len data];
    Ret (MkExtended broadcasterType 0 [] [] private)
  else
    errorIf (len data <? 4) ErrInvalidSection;;
    id ← get16 data 1;
    b3 ← data![3];
    let affiliationCount := Z.shiftr b3 4 in
    let broadcasterCount := Z.land b3 0x0f in
    errorIf (len data <? 4 + affiliationCount + broadcasterCount * 3) ErrInvalidSection;;
    affiliations ← data![4; 4 + affiliationCount];
    '(broadcasters, off) ← readAffiliated (Z.to_nat broadcasterCount) data (4 + affiliationCount);
    private ← data![off; len data];
    Ret (MkExtended broadcasterType id affiliations broadcasters private).

Definition ParseBroadcasterNameDescriptor {jis : ISO2022JP} (d : Descriptor) : outcome (list Z) :=
  bad ← Ret (len d <? 2) ||? (n ← Length d; Ret (len d <? 2 + n)) ||?
        (t ← Tag d; Ret (negb (t =? DescriptorTagBroadcasterName)));
  errorIf bad ErrInvalidSection;;
  data ← Data d;
  DecodeARIBString data.

(** ** Every input is answered *)

Lemma bcd_bound b n : decodeBCDByte b = Some n → 0 ≤ b → 0 ≤ n ≤ 99.
Proof.
  unfold decodeBCDByte. intros H Hb. destruct (_ || _) eqn:E; [done |]. injection H as <-. bools.
  assert (0 ≤ Z.shiftr b 4) by (by apply Z.shiftr_nonneg).
  pose proof (land_mask b 0x0f ltac:(lia)). lia.
Qed.

Lemma bcdField_safe b i limit (P : Z → Prop) :
  bytes_ok b → 0 ≤ i < len b → (∀ n, 0 ≤ n ≤ limit → P n) → ends invalid (bcdField b i limit) P.
Proof.
  intros Hb Hi HP. unfold bcdField. apply safe_bind, safe_byte; [done | lia |]. intros Hx.
  destruct (decodeBCDByte (byteAt b i)) as [n |] eqn:E; [| done].
  apply bcd_bound in E; [| apply Hx]. destruct (Z.ltb_spec limit n); [done |]. apply HP. lia.
Qed.

Lemma parseMJDTime_safe b : bytes_ok b → ends invalid (parseMJDTime b) (λ _, True).
Proof.
  intros Hb. unfold parseMJDTime. destruct (Z.eqb_spec (len b) 5); cbn [negb]; [| done].
  destruct (allBytes b 0xff); [done |]. apply safe_bind, safe_get16; [done | lia | lia |]. intros _.
  do 3 (apply safe_bind, bcdField_safe; [done | lia |]; intros ? _). done.
Qed.

Lemma parseBCDDuration_safe b :
  bytes_ok b → ends invalid (parseBCDDuration b) (λ d, 0 ≤ d ≤ 99 * Hour + 59 * Minute + 59 * Second).
Proof.
  intros Hb. unfold parseBCDDuration. destruct (Z.eqb_spec (len b) 3); cbn [negb]; [| done].
  destruct (allBytes b 0xff); [cbn; unfold Hour, Minute, Second; lia |].
  do 3 (apply safe_bind, bcdField_safe; [done | lia |]; intros ? ?).
  apply safe_ret. unfold Hour, Minute, Second. lia.
Qed.

Definition event_ok (e : EITEvent) : Prop :=
  word16 (ev_EventID e) ∧ 0 ≤ ev_Duration e ≤ 99 * Hour + 59 * Minute + 59 * Second ∧
  0 ≤ ev_RunningStatus e ≤ 7 ∧ Forall desc_ok (ev_Descriptors e) ∧ Forall bytes_ok (ev_Descriptors e).

Lemma ParseEIT_safe s : bytes_ok s → ends invalid (ParseEIT s) (λ eit, Forall event_ok (eit_Events eit)).
Proof.
  intros Hs. apply accept_safe; [done | lia | done |]. intros Hl Ht _ _.
  rewrite ParseSectionHeader_ret, TotalLength_ret by lia. run. set (stop := totalOf s - 4).
  apply safe_bind, safe_get16; [done | lia | lia |]. intros _.
  apply safe_bind, safe_get16; [done | lia | lia |]. intros _.
  do 2 (apply safe_bind, safe_byte; [done | lia |]; intros _). apply safe_bind.
  eapply safe_mono; [apply (safe_loop (λ '(evs, off), 0 ≤ off ∧ Forall event_ok evs)
    (λ '(_, off), Z.to_nat (len s - off)) (λ '(evs, _), Forall event_ok evs))
    | intros [evs off] Hev; go; exact Hev]; [| by split | unfold len; lia].
  intros [evs off] [Hoff Hev]. unfold eitBody. destruct (Z.leb_spec (off + 12) stop); [| by apply safe_break].
  go. eapply safe_mono; [apply parseMJDTime_safe; by apply bytes_ok_sub |]. intros start _.
  go. eapply safe_mono; [apply parseBCDDuration_safe; by apply bytes_ok_sub |]. intros duration Hd.
  go. apply ParseDescriptors_ends; [by apply bytes_ok_sub |]. intros ds Hds.
  pose proof (maximal_bytes _ _ (bytes_ok_sub _ _ _ Hs) Hds) as Hdb. destruct Hds as [Hds _]. go.
  split; [split; [lia |] | lia]. apply Forall_snoc; [done |].
  refine (conj _ (conj Hd (conj _ (conj Hds Hdb)))); [done | apply land_mask; lia].
Qed.

Lemma ParseTOT_safe s :
  bytes_ok s → ends invalid (ParseTOT s) (λ tot, tot_JSTTime tot ≠ 0 ∧ Forall desc_ok (tot_Descriptors tot)).
Proof.
  intros Hs. unfold ParseTOT. apply safe_bind, safe_orM, safe_ret.
  destruct (Z.ltb_spec (len s) 14); [done |].
  apply safe_orM, safe_bind. unfold TableID. apply safe_byte; [done | lia |]. intros _. apply safe_ret.
  destruct (negb _); [done |]. apply safe_orM. unfold SectionSyntaxIndicator.
  apply safe_bind, safe_byte; [done | lia |]. intros _. apply safe_ret. destruct (bit _ _); [done |].
  apply safe_orM. rewrite overruns_ret by lia. apply safe_ret. destruct (Z.ltb_spec (len s) (totalOf s)); [done |].
  apply safe_fmap. destruct (ValidateCRC_ret s) as [-> |]; [| done]. apply safe_ret.
  apply safe_bind, safe_errorIf; [done |]. intros _.
  rewrite TotalLength_ret by lia. run. apply safe_bind, safe_slice; [lia | lia |]. intros _.
  apply safe_bind. pose proof (caught_returns _ _ _ (parseMJDTime_safe (sub s 3 8) (bytes_ok_sub _ _ _ Hs))) as Hc.
  eapply returns_ends; [exact Hc |]. intros [t |] _; [| done].
  apply safe_bind, safe_errorIf; [done |]. unfold IsZero. intros Hz. bools. go.
  apply ParseDescriptors_ends; [by apply bytes_ok_sub |]. intros ds [Hds _]. by split.
Qed.

(** [descriptorsLength] compares the descriptors with the bytes they came from. *)
Lemma descriptorsLength_concat ds : descriptorsLength ds = len (concat ds).
Proof.
  unfold descriptorsLength. cut (∀ n, fold_left (λ n d, n + len d) ds n = n + len (concat ds)).
  { intros H. rewrite H. lia. }
  induction ds as [| d ds IH]; intros n; cbn [fold_left concat]; [change (len []) with 0; lia |].
  rewrite IH, len_app. lia.
Qed.

Lemma maximal_whole b ds : maximal b ds → descriptorsLength ds = len b → splits b ds.
Proof.
  rewrite descriptorsLength_concat. intros (Hds & rest & -> & _) Hl. rewrite len_app in Hl.
  assert (rest = []) as -> by (apply len_zero_nil; lia). by rewrite app_nil_r in *.
Qed.

Definition broadcaster_ok (b : BITBroadcaster) : Prop :=
  byte_ok (bb_BroadcasterID b) ∧ descriptors_ok (bb_Descriptors b).

(** The whole section is accounted for by the descriptors. *)
Definition broadcasterLen (b : BITBroadcaster) : Z := 3 + descriptorsLength (bb_Descriptors b).

Lemma ParseBIT_safe s :
  bytes_ok s → ends invalid (ParseBIT s) (λ out,
    Forall desc_ok (bit_FirstDescriptors out) ∧ Forall broadcaster_ok (bit_Broadcasters out) ∧
    10 + descriptorsLength (bit_FirstDescriptors out) +
      fold_right (λ b n, broadcasterLen b + n) 0 (bit_Broadcasters out) = totalOf s - 4).
Proof.
  intros Hs. unfold ParseBIT. apply safe_bind, safe_orM, safe_ret.
  destruct (Z.ltb_spec (len s) 14); [done |].
  apply safe_orM, safe_bind. unfold TableID. apply safe_byte; [done | lia |]. intros _. apply safe_ret.
  destruct (negb _); [done |]. apply safe_orM. unfold SectionSyntaxIndicator.
  apply safe_fmap, safe_bind, safe_byte; [done | lia |]. intros _. apply safe_ret. destruct (negb _); [done |].
  apply safe_orM. rewrite overruns_ret by lia. apply safe_ret. destruct (Z.ltb_spec (len s) (totalOf s)); [done |].
  apply safe_fmap. destruct (ValidateCRC_ret s) as [-> |]; [| done]. apply safe_ret.
  apply safe_bind, safe_errorIf; [done |]. intros _.
  rewrite TotalLength_ret by lia. run. set (stop := totalOf s - 4).
  apply safe_bind, safe_get16m; [lia | done | lia | lia |]. intros Hf. set (firstLen := be16 _ _) in *.
  apply safe_bind, safe_errorIf; [done |]. intros Hfirst. bools. go.
  apply ParseDescriptors_ends; [by apply bytes_ok_sub |]. intros ds Hds.
  apply safe_bind, safe_errorIf; [done |]. intros Hlen. bools. apply safe_bind.
  eapply safe_mono; [apply (safe_loop (λ '(bs, off), Forall broadcaster_ok bs ∧
      off = 10 + firstLen + fold_right (λ b n, broadcasterLen b + n) 0 bs ∧ off ≤ stop ∧ 10 ≤ off)
    (λ '(_, off), Z.to_nat (stop - off)) (λ bs, Forall broadcaster_ok bs ∧
      10 + firstLen + fold_right (λ b n, broadcasterLen b + n) 0 bs = stop)) |].
  - intros [bs off] (Hbs & Hoff & Hle & H10). unfold bitBody. destruct (Z.ltb_spec off stop); cycle 1.
    { apply safe_break. split; [done | lia]. }
    go. apply ParseDescriptors_ends; [by apply bytes_ok_sub |]. intros ds' Hds'.
    apply maximal_descriptors in Hds'; [| by apply bytes_ok_sub].
    apply safe_bind, safe_errorIf; [done |]. intros Hlen'. bools. go.
    split; [| lia]. split; [by apply Forall_snoc; [| split] |]. split; [| lia].
    assert (∀ l b, fold_right (λ b n, broadcasterLen b + n) 0 (l ++ [b]) =
      fold_right (λ b n, broadcasterLen b + n) 0 l + broadcasterLen b) as Hsnoc.
    { intros l b. induction l as [| x l IHl]; cbn; lia. }
    rewrite Hsnoc. unfold broadcasterLen at 2. cbn [bb_Descriptors]. lia.
  - cbn. split_and!; [done | lia | lia | lia].
  - unfold len in *. lia.
  - intros bs [Hbs Hall]. go. split; [apply Hds |]. split; [done |]. cbn [bit_FirstDescriptors bit_Broadcasters]. lia.
Qed.

Lemma readAffiliated_safe n data off (P : list AffiliatedBroadcaster * Z → Prop) :
  bytes_ok data → 0 ≤ off → off + 3 * Z.of_nat n ≤ len data →
  (∀ bs, len bs = Z.of_nat n → P (bs, off + 3 * Z.of_nat n)) → ends invalid (readAffiliated n data off) P.
Proof.
  revert off P. induction n as [| n IH]; intros off P Hd Hoff Hl HP; cbn [readAffiliated].
  - apply safe_ret. replace off with (off + 3 * Z.of_nat 0) at 1 by lia. by apply HP.
  - apply safe_bind, safe_get16; [done | lia | lia |]. intros _.
    apply safe_bind, safe_byte; [done | lia |]. intros _. apply safe_bind, IH; [done | lia | lia |].
    intros bs Hbs. apply safe_ret. replace (off + 3 + 3 * Z.of_nat n) with (off + 3 * Z.of_nat (S n)) by lia.
    apply HP. rewrite len_cons. lia.
Qed.

Lemma ParseExtended_safe d :
  bytes_ok d → ends invalid (ParseExtendedBroadcasterDescriptor d) (λ x,
    (xb_BroadcasterType x = 1 ∨ xb_BroadcasterType x = 2 ∨ xb_Broadcasters x = []) ∧
    len (xb_AffiliationIDs x) ≤ 15 ∧ len (xb_Broadcasters x) ≤ 15).
Proof.
  intros Hd. unfold ParseExtendedBroadcasterDescriptor, Length, Tag.
  apply safe_bind, safe_orM, safe_ret. destruct (Z.ltb_spec (len d) 2); [done |].
  apply safe_orM, safe_bind, safe_byte; [done | lia |]. intros _. apply safe_ret.
  destruct (Z.ltb_spec (len d) (2 + byteAt d 1)); [done |].
  apply safe_bind, safe_byte; [done | lia |]. intros _. apply safe_ret.
  apply safe_bind, safe_errorIf; [done |]. intros _.
  apply safe_bind, Data_safe; [done | split; lia |]. intros Hdata. set (data := sub d 2 _) in *.
  apply safe_bind, safe_errorIf; [done |]. intros H1. bools.
  apply safe_bind, safe_byte; [done | lia |]. intros _.
  destruct (negb _ && negb _) eqn:Etype.
  - go. split; [by right; right | done].
  - apply safe_bind, safe_errorIf; [done |]. intros H4. bools. go.
    assert (0 ≤ Z.shiftr (byteAt data 3) 4 ≤ 15) as Ha.
    { unfold byte_ok in *. rewrite Z.shiftr_div_pow2 by lia. change (2 ^ 4) with 16.
      pose proof (Z.div_pos (byteAt data 3) 16). pose proof (Z.div_lt_upper_bound (byteAt data 3) 16 16). lia. }
    pose proof (land_mask (byteAt data 3) 15 ltac:(lia)) as Hb.
    apply safe_slice; [lia | lia |]. intros Hlen.
    apply safe_bind, readAffiliated_safe; [done | lia | lia |]. intros bs Hbs. go.
    split; [| cbn [xb_AffiliationIDs xb_Broadcasters]; lia]. apply andb_false_iff in Etype as [E | E]; apply negb_false_iff, Z.eqb_eq in E; tauto.
Qed.

(** ** Dates and durations *)

Definition bcd (n : Z) : Z := n / 10 * 16 + n mod 10.

Lemma bcd_facts n : 0 ≤ n ≤ 99 → decodeBCDByte (bcd n) = Some n ∧ 0 ≤ bcd n ≤ 0x99.
Proof.
  intros Hn.
  assert (forallb (λ k, let n := Z.of_nat k in
    bool_decide (decodeBCDByte (bcd n) = Some n) && (0 <=? bcd n) && (bcd n <=? 0x99)) (seq 0 100) = true)
    as H by by vm_compute.
  rewrite forallb_forall in H. specialize (H (Z.to_nat n) ltac:(apply in_seq; lia)).
  cbv zeta in H. rewrite Z2Nat.id in H by lia. bools. apply bool_decide_eq_true in H as ?. split; [done | lia].
Qed.

Lemma bcd_ok n : 0 ≤ n ≤ 99 → byte_ok (bcd n).
Proof. intros Hn. destruct (bcd_facts n Hn). unfold byte_ok. lia. Qed.

Lemma bcdField_bcd pre n post i limit :
  len pre = i → 0 ≤ n ≤ limit → limit ≤ 99 → bcdField (pre ++ bcd n :: post) i limit = Ret n.
Proof.
  intros Hi Hn Hl. unfold bcdField. rewrite idx_app by done. run.
  destruct (bcd_facts n) as [-> _]; [lia |]. destruct (Z.ltb_spec limit n); [lia | done].
Qed.

Definition time_ok (hour minute second : Z) : Prop := 0 ≤ hour ≤ 23 ∧ 0 ≤ minute ≤ 59 ∧ 0 ≤ second ≤ 59.

Definition timeBytes (mjd hour minute second : Z) : list Z :=
  be16bytes mjd ++ [bcd hour; bcd minute; bcd second].

Lemma parseMJDTime_timeBytes mjd hour minute second :
  word16 mjd → time_ok hour minute second →
  parseMJDTime (timeBytes mjd hour minute second) = Ret (mjdTime mjd hour minute second).
Proof.
  intros Hm (Hh & Hmin & Hs). unfold parseMJDTime. change (len (timeBytes mjd hour minute second)) with 5.
  cbn [Z.eqb Pos.eqb negb].
  assert (allBytes (timeBytes mjd hour minute second) 0xff = false) as ->.
  { unfold allBytes, timeBytes, be16bytes. cbn [app forallb].
    destruct (bcd_facts second) as [_ ?]; [lia |]. destruct (Z.eqb_spec (bcd second) 255); [lia |].
    rewrite !andb_false_r. done. }
  assert (get16 (timeBytes mjd hour minute second) 0 = Ret mjd) as -> by by apply (get16_app []).
  set (b := timeBytes mjd hour minute second).
  assert (bcdField b 2 23 = Ret hour) as -> by (apply (bcdField_bcd (be16bytes mjd)); done || lia).
  assert (bcdField b 3 59 = Ret minute) as ->
    by (apply (bcdField_bcd (be16bytes mjd ++ [bcd hour]) minute [bcd second]); done || lia).
  assert (bcdField b 4 59 = Ret second) as ->
    by (apply (bcdField_bcd (be16bytes mjd ++ [bcd hour; bcd minute]) second []); done || lia).
  done.
Qed.

Definition durationOf (hour minute second : Z) : Duration := hour * Hour + minute * Minute + second * Second.
Definition durationBytes (hour minute second : Z) : list Z := [bcd hour; bcd minute; bcd second].

Lemma parseBCDDuration_bytes hour minute second :
  0 ≤ hour ≤ 99 → 0 ≤ minute ≤ 59 → 0 ≤ second ≤ 59 →
  parseBCDDuration (durationBytes hour minute second) = Ret (durationOf hour minute second).
Proof.
  intros Hh Hm Hs. unfold parseBCDDuration. change (len (durationBytes hour minute second)) with 3.
  cbn [Z.eqb Pos.eqb negb].
  assert (allBytes (durationBytes hour minute second) 0xff = false) as ->.
  { unfold allBytes, durationBytes. cbn [forallb].
    destruct (bcd_facts second) as [_ ?]; [lia |]. destruct (Z.eqb_spec (bcd second) 255); [lia |].
    by rewrite !andb_false_r. }
  set (b := durationBytes hour minute second).
  assert (bcdField b 0 99 = Ret hour) as -> by (apply (bcdField_bcd [] hour); done || lia).
  assert (bcdField b 1 59 = Ret minute) as -> by (apply (bcdField_bcd [bcd hour] minute); done || lia).
  assert (bcdField b 2 59 = Ret second) as ->
    by (apply (bcdField_bcd [bcd hour; bcd minute] second); done || lia).
  done.
Qed.

(** The day the four years from 2026 to 2029 start with, and the number of
    their days. *)
Definition firstDay : Z := 61041.
Definition dayCount : nat := 1461.

(** Days since 1 January of year 1. *)
Definition dayNumber (mjd : Z) : Z := mjd + 678575.

Definition calendar_agrees (mjd : Z) : bool :=
  let '(year, month, day) := mjdDate mjd in
  (1 <=? month) && (month <=? 12) &&
  (daysBeforeYear year + daysBeforeMonth year month + day - 1 =? dayNumber mjd).

Lemma calendar_checked : forallb (λ k, calendar_agrees (firstDay + Z.of_nat k)) (seq 0 dayCount) = true.
Proof. by vm_compute. Qed.

(** For every day of the leap cycle 2026-2029 and every
    time of day, the floating-point calendar gives the instant the MJD names:
    that many days after 17 November 1858, in Japan Standard Time; bytes that are all 0xff
    give the zero time. *)
Theorem parseMJDTime_calendar mjd hour minute second :
  firstDay ≤ mjd < firstDay + Z.of_nat dayCount → time_ok hour minute second →
  parseMJDTime (timeBytes mjd hour minute second) =
    Ret (dayNumber mjd * 86400 + hour * 3600 + minute * 60 + second - 9 * 3600) ∧
  parseMJDTime (replicate 5 0xff) = Ret 0.
Proof.
  intros Hm Ht. split; [| done]. rewrite parseMJDTime_timeBytes by (done || (unfold word16, firstDay, dayCount in *; lia)).
  f_equal. pose proof calendar_checked as H. rewrite forallb_forall in H.
  specialize (H (Z.to_nat (mjd - firstDay)) ltac:(apply in_seq; lia)).
  replace (firstDay + Z.of_nat (Z.to_nat (mjd - firstDay))) with mjd in H by lia.
  unfold calendar_agrees, mjdTime in *. destruct (mjdDate mjd) as [[year month] day]. bools.
  unfold date. replace ((month - 1) / 12) with 0 by (symmetry; apply Z.div_small; lia).
  replace ((month - 1) mod 12) with (month - 1) by (symmetry; apply Z.mod_small; lia).
  replace (year + 0) with year by lia. replace (month - 1 + 1) with month by lia. unfold jst. lia.
Qed.

Lemma parseMJDTime_calendar_witness :
  parseMJDTime (timeBytes 61041 12 34 56) = Ret (739616 * 86400 + 45296 - 32400) ∧
  parseMJDTime (replicate 5 0xff) = Ret 0.
Proof. apply (parseMJDTime_calendar 61041 12 34 56); [split; done | unfold time_ok; lia]. Defined.

(** ParseEIT, ParseTOT, ParseBIT, ParseExtendedBroadcasterDescriptor: on
    any bytes the parsers end with a table or with ErrInvalidSection; durations
    are at most 99:59:59, a TOT always has a time, and the descriptors of a BIT
    fill its section to the last byte. *)
Theorem event_parsers_total s d :
  bytes_ok s → bytes_ok d →
  ends invalid (ParseEIT s) (λ eit, Forall event_ok (eit_Events eit)) ∧
  ends invalid (ParseTOT s) (λ tot, tot_JSTTime tot ≠ 0 ∧ Forall desc_ok (tot_Descriptors tot)) ∧
  ends invalid (ParseBIT s) (λ out,
    Forall desc_ok (bit_FirstDescriptors out) ∧ Forall broadcaster_ok (bit_Broadcasters out) ∧
    10 + descriptorsLength (bit_FirstDescriptors out) +
      fold_right (λ b n, broadcasterLen b + n) 0 (bit_Broadcasters out) = totalOf s - 4) ∧
  ends invalid (ParseExtendedBroadcasterDescriptor d) (λ x,
    (xb_BroadcasterType x = 1 ∨ xb_BroadcasterType x = 2 ∨ xb_Broadcasters x = []) ∧
    len (xb_AffiliationIDs x) ≤ 15 ∧ len (xb_Broadcasters x) ≤ 15).
Proof.
  intros Hs Hd. split; [by apply ParseEIT_safe |]. split; [by apply ParseTOT_safe |].
  split; [by apply ParseBIT_safe | by apply ParseExtended_safe].
Qed.

Definition sample_tot_body : list Z :=
  [0x73; 0x70; 0x0b] ++ timeBytes 61041 12 34 56 ++ [0xf0; 0].
Definition sample_tot : SectionBytes := withCRC sample_tot_body.

Lemma event_parsers_total_witness :
  ends invalid (ParseTOT sample_tot) (λ tot, tot_JSTTime tot ≠ 0 ∧ Forall desc_ok (tot_Descriptors tot)) ∧
  ParseTOT sample_tot = Ret (MkTOT (739616 * 86400 + 45296 - 32400) []).
Proof.
  split; [| by vm_compute].
  exact (proj1 (proj2 (event_parsers_total sample_tot [] (bytes_okb_spec sample_tot eq_refl) (Forall_nil_2 _)))).
Defined.

(** ** Round trip of an EIT *)

(** An event as the stream carries it. *)
Record eventSource : Type := MkEventSource {
  es_id : Z;
  es_mjd : Z;
  es_time : Z * Z * Z;
  es_duration : Z * Z * Z;
  es_running : Z;
  es_free : bool;
  es_descs : list Descriptor
}.

Definition sourceEvent (e : eventSource) : EITEvent :=
  let '(h, m, s) := es_time e in
  let '(dh, dm, ds) := es_duration e in
  MkEvent (es_id e) (mjdTime (es_mjd e) h m s) (durationOf dh dm ds) (es_running e) (es_free e) (es_descs e).

Definition source_ok (e : eventSource) : Prop :=
  word16 (es_id e) ∧ word16 (es_mjd e) ∧
  (let '(h, m, s) := es_time e in time_ok h m s) ∧
  (let '(h, m, s) := es_duration e in 0 ≤ h ≤ 99 ∧ 0 ≤ m ≤ 59 ∧ 0 ≤ s ≤ 59) ∧
  0 ≤ es_running e < 8 ∧ descs_ok (es_descs e).

Definition eventTime (e : eventSource) : list Z :=
  let '(h, m, s) := es_time e in timeBytes (es_mjd e) h m s.
Definition eventDuration (e : eventSource) : list Z :=
  let '(h, m, s) := es_duration e in durationBytes h m s.

Definition eventBytes (e : eventSource) : list Z :=
  let ds := concat (es_descs e) in
  be16bytes (es_id e) ++ eventTime e ++ eventDuration e ++
  field (statusBits (es_running e) (es_free e)) (len ds) ++ ds.

Lemma len_eventTime e : len (eventTime e) = 5.
Proof. unfold eventTime. by destruct (es_time e) as [[h m] s]. Qed.
Lemma len_eventDuration e : len (eventDuration e) = 3.
Proof. unfold eventDuration. by destruct (es_duration e) as [[h m] s]. Qed.

Lemma eventBytes_len e : len (eventBytes e) = 12 + len (concat (es_descs e)).
Proof.
  unfold eventBytes. rewrite !len_app, len_field, len_be16bytes, len_eventTime, len_eventDuration. lia.
Qed.

Lemma eventBytes_ok e : source_ok e → bytes_ok (eventBytes e).
Proof.
  intros (_ & _ & Ht & Hd & Hr & [_ Hds]). unfold eventBytes.
  apply bytes_ok_app; [apply be16bytes_ok |].
  apply bytes_ok_app; [| apply bytes_ok_app; [| apply bytes_ok_app; [by apply field_ok, statusBits_byte | done]]].
  - unfold eventTime. destruct (es_time e) as [[h m] s], Ht as (? & ? & ?).
    apply bytes_ok_app; [apply be16bytes_ok |]. repeat (apply Forall_cons; split; [apply bcd_ok; lia |]).
    apply Forall_nil_2.
  - unfold eventDuration. destruct (es_duration e) as [[h m] s].
    repeat (apply Forall_cons; split; [apply bcd_ok; lia |]). apply Forall_nil_2.
Qed.

Lemma parse_eventTime e : source_ok e →
  parseMJDTime (eventTime e) = Ret (ev_StartTime (sourceEvent e)) ∧
  parseBCDDuration (eventDuration e) = Ret (ev_Duration (sourceEvent e)).
Proof.
  intros (_ & Hm & Ht & Hd & _). unfold eventTime, eventDuration, sourceEvent.
  destruct (es_time e) as [[h m] s], (es_duration e) as [[dh dm] ds]. cbn [ev_StartTime ev_Duration].
  split; [by apply parseMJDTime_timeBytes | destruct Hd as (? & ? & ?); by apply parseBCDDuration_bytes].
Qed.

Lemma eitBody_event s sectionEnd evs pre e rest :
  s = pre ++ eventBytes e ++ rest → source_ok e → len pre + len (eventBytes e) ≤ sectionEnd →
  len (concat (es_descs e)) < 4096 →
  eitBody s sectionEnd (evs, len pre) = continue (evs ++ [sourceEvent e], len pre + len (eventBytes e)).
Proof.
  intros Hs He Hend Hfit. pose proof He as (Hid & _ & _ & _ & Hr & Hds). rewrite eventBytes_len in *.
  destruct (parse_eventTime e He) as [Htime Hdur]. unfold eventBytes in Hs.
  set (ds := concat (es_descs e)) in *. set (status := statusBits (es_running e) (es_free e)) in *.
  pose proof (len_nonneg ds). pose proof (len_nonneg pre).
  destruct (high_byte (len ds)) as [Hhigh Hhb]; [lia |].
  destruct (statusBits_read (es_running e) (es_free e) (len ds / 256)) as (Hst & Hrun & Hfree);
    [done | split; [apply Z.div_pos | apply Z.div_lt_upper_bound]; lia |]. fold status in Hst, Hrun, Hfree.
  rewrite <- !app_assoc in Hs.
  set (p1 := pre ++ be16bytes (es_id e)). assert (len p1 = len pre + 2) as L1 by (unfold p1; rewrite len_app, len_be16bytes; lia).
  set (p2 := p1 ++ eventTime e). assert (len p2 = len pre + 7) as L2 by (unfold p2; rewrite len_app, len_eventTime; lia).
  set (p3 := p2 ++ eventDuration e). assert (len p3 = len pre + 10) as L3 by (unfold p3; rewrite len_app, len_eventDuration; lia).
  assert (s = p2 ++ eventDuration e ++ field status (len ds) ++ ds ++ rest) as H2
    by (unfold p2, p1; by rewrite <- !app_assoc).
  assert (s = p3 ++ field status (len ds) ++ ds ++ rest) as H3 by (unfold p3; by rewrite <- app_assoc).
  unfold eitBody. destruct (Z.leb_spec (len pre + 12) sectionEnd); [| lia].
  assert (s![len pre + 2; len pre + 7] = Ret (eventTime e)) as ->.
  { rewrite Hs, app_assoc. fold p1. apply slice_app; [lia | rewrite len_eventTime; lia]. }
  run. rewrite Htime. run.
  assert (s![len pre + 7; len pre + 10] = Ret (eventDuration e)) as ->.
  { rewrite H2. apply slice_app; [lia | rewrite len_eventDuration; lia]. }
  run. rewrite Hdur. run. change 15 with (Z.ones 4).
  rewrite (field_at status 4 p3 (len ds) (ds ++ rest)) by (done || lia). run.
  destruct (Z.ltb_spec sectionEnd (len pre + 12 + len ds)); [lia |]. run.
  assert (s![len pre + 12; len pre + 12 + len ds] = Ret ds) as ->.
  { rewrite H3, app_assoc. apply slice_app; [rewrite len_app, len_field; lia | done]. }
  run. assert (get16 s (len pre) = Ret (es_id e)) as -> by (rewrite Hs; by apply get16_app). run.
  assert (s![len pre + 10] = Ret (Z.lor status (len ds / 256))) as ->.
  { rewrite H3. unfold field. rewrite Hhigh. by apply idx_app. }
  run. assert (ParseDescriptors ds = Ret (es_descs e)) as -> by (apply ParseDescriptors_concat; apply Hds). run.
  rewrite Hrun, Hfree, Z.add_assoc. unfold sourceEvent.
  by destruct (es_time e) as [[h m] s0], (es_duration e) as [[dh dm] ds0].
Qed.

Definition eitSection (tid version number last segmentLast lastTable sid tsid onid : Z)
    (events : list eventSource) : SectionBytes :=
  longSection tid sid version number last
    (be16bytes tsid ++ be16bytes onid ++ [segmentLast; lastTable] ++ concat (map eventBytes events)).

(** The fixed fields of an EIT section, and where its events are. *)
Lemma eit_fields tid version number last segmentLast lastTable sid tsid onid events
    (evs := concat (map eventBytes events)) (s := eitSection tid version number last segmentLast lastTable sid tsid onid events) :
  word16 tsid → word16 onid →
  get16 s 8 = Ret tsid ∧ get16 s 10 = Ret onid ∧ s![12] = Ret segmentLast ∧ s![13] = Ret lastTable ∧
  ∃ h crc, len h = 14 ∧ len crc = 4 ∧ s = h ++ evs ++ crc.
Proof.
  intros Hts Hon. unfold s, eitSection. fold evs.
  set (body := be16bytes tsid ++ be16bytes onid ++ [segmentLast; lastTable] ++ evs).
  pose proof (long_split tid sid version number last body) as Hs.
  set (l := longSection tid sid version number last body) in *.
  set (crc := longCRC tid sid version number last body) in *.
  set (hdr := longHeader tid sid version number last (len body + 9)) in *.
  assert (len hdr = 8) as Hhdr by done. unfold body in Hs. rewrite <- !app_assoc in Hs.
  set (h1 := hdr ++ be16bytes tsid). set (h2 := h1 ++ be16bytes onid).
  assert (l = h1 ++ be16bytes onid ++ ([segmentLast; lastTable] ++ evs) ++ crc) as Hs1
    by (rewrite Hs; unfold h1; by rewrite <- !app_assoc).
  assert (l = h2 ++ segmentLast :: lastTable :: evs ++ crc) as Hs2 by (rewrite Hs1; unfold h2; by rewrite <- app_assoc).
  assert (l = (h2 ++ [segmentLast]) ++ lastTable :: evs ++ crc) as Hs3 by (rewrite Hs2; by rewrite <- app_assoc).
  split; [rewrite Hs; by apply get16_app |]. split; [rewrite Hs1; by apply get16_app |].
  split; [rewrite Hs2; by apply idx_app |]. split; [rewrite Hs3; by apply idx_app |].
  exists (h2 ++ [segmentLast; lastTable]), crc. split; [done |]. split; [done |]. by rewrite Hs2, <- app_assoc.
Qed.

(** The loop over the events. *)
Lemma eit_events h events crc sectionEnd (evs := concat (map eventBytes events)) (s := h ++ evs ++ crc) :
  len crc = 4 → sectionEnd = len h + len evs → Forall source_ok events → len evs < 4096 →
  loop (S (length s)) (eitBody s sectionEnd) ([], len h) = Ret (map sourceEvent events, sectionEnd).
Proof.
  intros Hcrc Hend Hev Hfit.
  rewrite (loop_read eventBytes (λ evs e, evs ++ [sourceEvent e]) (λ evs, (evs, sectionEnd)) _ s events h crc).
  - cut (∀ acc, fold_left (λ evs e, evs ++ [sourceEvent e]) events acc = acc ++ map sourceEvent events).
    { intros Hfold. by rewrite Hfold. }
    clear. induction events as [| e events IH]; intros acc; cbn [fold_left map]; [by rewrite app_nil_r |].
    by rewrite IH, <- app_assoc.
  - done.
  - intros pre e rest acc Hin Hse Hrest. rewrite Forall_forall in Hev.
    pose proof (concat_fit eventBytes _ _ Hin) as Hfits. fold evs in Hfits. rewrite eventBytes_len in Hfits.
    assert (len s = len pre + len (eventBytes e) + len rest) by (rewrite Hse, !len_app; lia).
    assert (len s = len h + len evs + len crc) by (unfold s; rewrite !len_app; lia).
    apply (eitBody_event _ _ _ _ _ rest); [done | by apply Hev | lia | lia].
  - intros acc. unfold eitBody. assert (len s = len h + len evs + len crc) by (unfold s; rewrite !len_app; lia).
    destruct (Z.leb_spec (len s - len crc + 12) sectionEnd); [lia |]. unfold break. do 3 f_equal. lia.
  - assert (length events ≤ length evs)%nat by (apply concat_length_ge; intros e E;
      apply (f_equal len) in E; rewrite eventBytes_len in E; pose proof (len_nonneg (concat (es_descs e)));
      change (len []) with 0 in E; lia).
    unfold s. rewrite !length_app. lia.
Qed.

(** An EIT section of any present/following or schedule table
    built from event entries that fit parses back to its header fields and,
    entry by entry, to the events: identifier, start time, duration, running
    status, CA mode and descriptors. *)
Theorem ParseEIT_roundtrip tid version number last segmentLast lastTable sid tsid onid events :
  IsEITPF tid || IsEITS tid = true → byte_ok tid → word16 sid → 0 ≤ version < 32 → byte_ok number →
  byte_ok last → byte_ok segmentLast → byte_ok lastTable → word16 tsid → word16 onid →
  Forall source_ok events → len (concat (map eventBytes events)) + 15 < 4096 →
  ParseEIT (eitSection tid version number last segmentLast lastTable sid tsid onid events) =
    Ret (MkEIT sid tsid onid tid version number last segmentLast lastTable (map sourceEvent events)).
Proof.
  intros Htid Htb Hsid Hv Hn Hl Hsl Hlt Hts Hon Hev Hfit.
  destruct (eit_fields tid version number last segmentLast lastTable sid tsid onid events Hts Hon)
    as (F1 & F2 & F3 & F4 & h & crc & Hh & Hcrc & Hs).
  unfold ParseEIT. unfold eitSection in *. set (evs := concat (map eventBytes events)) in *.
  set (body := be16bytes tsid ++ be16bytes onid ++ [segmentLast; lastTable] ++ evs) in *.
  pose proof (len_nonneg evs).
  assert (len body = 6 + len evs) as HLb by
    (unfold body; rewrite !len_app, !len_be16bytes; change (len [segmentLast; lastTable]) with 2; lia).
  assert (bytes_ok body) as Hbody.
  { apply bytes_ok_app; [apply be16bytes_ok |]. apply bytes_ok_app; [apply be16bytes_ok |].
    apply bytes_ok_app; [by repeat (apply Forall_cons; split; [done |]) |].
    apply bytes_ok_concat. intros e Hin. rewrite Forall_forall in Hev. by apply eventBytes_ok, Hev. }
  rewrite long_rejects, long_ParseSectionHeader, long_TotalLength by (done || lia). run.
  rewrite F1. run. rewrite F2. run. rewrite F3. run. rewrite F4. run. rewrite Hs, <- Hh.
  rewrite (eit_events h events crc) by (fold evs; done || lia). run. by rewrite Z.eqb_refl.
Qed.

Definition sample_events : list eventSource :=
  [MkEventSource 0x1234 61041 (19, 0, 0) (0, 54, 0) 2 false [[0x4d; 5; 0x6a; 0x70; 0x6e; 0; 0]];
   MkEventSource 0x1235 61041 (19, 54, 0) (1, 6, 30) 1 true []].

Lemma ParseEIT_roundtrip_witness :
  ParseEIT (eitSection 0x4e 5 0 1 1 0x4e 0x418 0x7fe1 0x7fe1 sample_events) =
    Ret (MkEIT 0x418 0x7fe1 0x7fe1 0x4e 5 0 1 1 0x4e (map sourceEvent sample_events)).
Proof.
  apply ParseEIT_roundtrip; try done.
  repeat (apply Forall_cons; split; [unfold source_ok, descs_ok; split_and!; try done; by apply info_okb |]).
  apply Forall_nil_2.
Defined.
