(* ===== verification/TableSections.v ===== *)
(** * Collecting the sections of a table ([ts/scanner.go] tableSectionSet)

    A PSI table is spread over sections numbered from 0 to
    [last_section_number]; [tableSectionSet] keeps those of the version being
    received and tells when it is complete.  The demultiplexer and the service
    scan both build their tables on it. *)

From S2P Require Import Prelude Crc32 Packet Section Descriptors Psi.

(** ** The code *)

Record tableSectionSet : Type := MkSet {
  ts_initialized : bool;
  ts_extension : Z;
  ts_version : Z;
  ts_last : Z;
  ts_sections : gmap Z SectionBytes
}.

Definition emptySections : tableSectionSet := MkSet false 0 0 0 ∅.

(** [0, 1, ..., int(last)] *)
Definition numbers (last : Z) : list Z := seqZ 0 (last + 1).

(** The set holds no section, or those of another table or version. *)
Definition stale (s : tableSectionSet) (extension version last : Z) : bool :=
  negb (ts_initialized s) || negb (ts_extension s =? extension) ||
  negb (ts_version s =? version) || negb (ts_last s =? last).

(** The set, [reset] and [ready]. *)
Definition add (section : SectionBytes) (s : tableSectionSet)
    : outcome (tableSectionSet * bool * bool) :=
  header ← caught (ParseSectionHeader section);
  match header with
  | None => Ret (s, false, false)
  | Some header =>
      if negb (h_CurrentNextIndicator header) ||
         (h_LastSectionNumber header <? h_SectionNumber header)
      then Ret (s, false, false)
      else
        let reset := stale s (h_TransportStreamID header) (h_VersionNumber header)
                       (h_LastSectionNumber header) in
        let s := if reset then MkSet true (h_TransportStreamID header) (h_VersionNumber header)
                                 (h_LastSectionNumber header) ∅
                 else s in
        let s := MkSet (ts_initialized s) (ts_extension s) (ts_version s) (ts_last s)
                   (<[h_SectionNumber header := section]> (ts_sections s)) in
        if negb (Z.of_nat (size (ts_sections s)) =? ts_last s + 1) then Ret (s, reset, false)
        else if forallb (λ number, bool_decide (is_Some (ts_sections s !! number))) (numbers (ts_last s))
        then Ret (s, reset, true)
        else Ret (s, reset, false)
  end.

(** A missing section is the nil slice. *)
Definition ordered (s : tableSectionSet) : list SectionBytes :=
  map (λ number, default [] (ts_sections s !! number)) (numbers (ts_last s)).

(** ** What [add] keeps *)

Definition number (section : SectionBytes) : Z := byteAt section 6.

(** A section that belongs to the current version of a table. *)
Definition of_table (ext version last : Z) (section : SectionBytes) : Prop :=
  8 ≤ len section ∧ totalOf section ≤ len section ∧
  h_CurrentNextIndicator (headerOf section) = true ∧
  h_TransportStreamID (headerOf section) = ext ∧ h_VersionNumber (headerOf section) = version ∧
  h_LastSectionNumber (headerOf section) = last ∧ 0 ≤ number section ≤ last.

Lemma stale_inserted s ext version last :
  stale s ext version last = false → ts_last s = last.
Proof. unfold stale. intros H. bools. done. Qed.

Lemma elem_of_numbers n last : n ∈ numbers last ↔ 0 ≤ n ≤ last.
Proof. unfold numbers. rewrite elem_of_seqZ. lia. Qed.

(** The fixed-size test before the scan never rejects a complete set: when all
    keys are section numbers it is implied by the scan. *)
Lemma size_numbers (m : gmap Z SectionBytes) last :
  0 ≤ last → (∀ n x, m !! n = Some x → 0 ≤ n ≤ last) → (∀ n, 0 ≤ n ≤ last → is_Some (m !! n)) →
  Z.of_nat (size m) = last + 1.
Proof.
  intros Hl Hin Hall. rewrite <- size_dom.
  assert (dom m = list_to_set (C := gset Z) (numbers last)) as ->.
  { apply set_eq. intros n. rewrite elem_of_list_to_set, elem_of_numbers, elem_of_dom.
    split; [by intros [x Hx]; eapply Hin | apply Hall]. }
  rewrite size_list_to_set by apply NoDup_seqZ. unfold numbers. rewrite length_seqZ. lia.
Qed.

Definition inserted (section : SectionBytes) (s : tableSectionSet) : tableSectionSet :=
  MkSet (ts_initialized s) (ts_extension s) (ts_version s) (ts_last s)
    (<[number section := section]> (ts_sections s)).

Definition full (s : tableSectionSet) : Prop :=
  ∀ n, 0 ≤ n ≤ ts_last s → is_Some (ts_sections s !! n).

(** The state in which a section of a table is stored. *)
Definition renewed (ext version last : Z) (s : tableSectionSet) : tableSectionSet :=
  if stale s ext version last then MkSet true ext version last ∅ else s.

Definition in_range (s : tableSectionSet) : Prop :=
  ∀ n x, ts_sections s !! n = Some x → 0 ≤ n ≤ ts_last s.

Lemma renewed_last ext version last s : ts_last (renewed ext version last s) = last.
Proof. unfold renewed. destruct (stale _ _ _ _) eqn:E; [done |]. by eapply stale_inserted. Qed.

Lemma renewed_in_range ext version last s section :
  in_range s → 0 ≤ number section ≤ last → in_range (inserted section (renewed ext version last s)).
Proof.
  intros Hin Hn n x Hx. change (ts_last (inserted _ ?t)) with (ts_last t). rewrite renewed_last.
  unfold inserted in Hx. cbn [ts_sections] in Hx.
  apply lookup_insert_Some in Hx as [[<- _] | [_ Hx]]; [lia |].
  unfold renewed in Hx. destruct (stale _ _ _ _) eqn:E; cbn [ts_sections] in Hx; [by rewrite lookup_empty in Hx |].
  apply stale_inserted in E as <-. by eapply Hin.
Qed.

(** One call, on a section of the table being collected or of a new one. *)
Lemma add_of_table ext version last section s (s' := inserted section (renewed ext version last s)) :
  of_table ext version last section → in_range s →
  ∃ ready, add section s = Ret (s', stale s ext version last, ready) ∧ (ready = true ↔ full s').
Proof.
  intros (H8 & Ht & Hc & <- & <- & <- & Hn) Hin. unfold add.
  rewrite ParseSectionHeader_ret by done. run. rewrite Hc. cbn [negb orb].
  change (h_SectionNumber (headerOf section)) with (number section).
  destruct (Z.ltb_spec (h_LastSectionNumber (headerOf section)) (number section)); [lia |].
  pose proof (renewed_in_range _ (h_VersionNumber (headerOf section)) _ _ _ Hin Hn :
    in_range s') as Hkeys.
  set (t := renewed _ _ _ _) in *. change (MkSet _ _ _ _ _) with s'.
  assert (ts_last s' = h_LastSectionNumber (headerOf section)) as Hlast by apply renewed_last.
  assert (forallb (λ number, bool_decide (is_Some (ts_sections s' !! number))) (numbers (ts_last s')) = true
          ↔ full s') as Hfull.
  { rewrite forallb_forall. unfold full. setoid_rewrite <- list_elem_of_In.
    setoid_rewrite bool_decide_eq_true. setoid_rewrite elem_of_numbers. done. }
  destruct (Z.eqb_spec (Z.of_nat (size (ts_sections s'))) (ts_last s' + 1)) as [_ | Hsize]; cbn [negb].
  - destruct (forallb _ _); eexists; (split; [done |]); by rewrite <- Hfull.
  - exists false. split; [done |]. split; [done |]. intros Hf. destruct Hsize.
    apply size_numbers; [lia | done | done].
Qed.

(** What every section held satisfies. *)
Definition stored (P : SectionBytes → Prop) (s : tableSectionSet) : Prop :=
  in_range s ∧ map_Forall (λ _ section, P section) (ts_sections s).

Lemma stored_empty P : stored P emptySections.
Proof. split; [by intros n x Hx; cbn in Hx; rewrite lookup_empty in Hx | apply map_Forall_empty]. Qed.

(** Any section may be offered. *)
Lemma add_safe P section s :
  bytes_ok section → 3 ≤ len section → stored P s → P section →
  returns (add section s) (λ '(s', _, ready), stored P s' ∧ (ready = true → full s')).
Proof.
  intros Hb H3 Hst HP. pose proof Hst as [Hr Hs].
  assert (returns (Ret (s, false, false)) (λ '(s', _, ready), stored P s' ∧ (ready = true → full s')))
    as Hskip by (by split).
  destruct (decide (8 ≤ len section ∧ totalOf section ≤ len section)) as [[H8 Ht] | Hno].
  - destruct (h_CurrentNextIndicator (headerOf section)) eqn:Hc; cycle 1.
    { unfold add. rewrite ParseSectionHeader_ret by done. run. rewrite Hc. exact Hskip. }
    destruct (decide (number section ≤ h_LastSectionNumber (headerOf section))) as [Hn | Hn]; cycle 1.
    { unfold add. rewrite ParseSectionHeader_ret by done. run. rewrite Hc.
      change (h_SectionNumber (headerOf section)) with (number section).
      destruct (Z.ltb_spec (h_LastSectionNumber (headerOf section)) (number section)); [exact Hskip | lia]. }
    pose proof (byteAt_ok section 6 Hb) as Hn0. unfold byte_ok in Hn0. fold (number section) in Hn0.
    destruct (add_of_table (h_TransportStreamID (headerOf section)) (h_VersionNumber (headerOf section))
      (h_LastSectionNumber (headerOf section)) section s) as (ready & -> & Hready);
      [split_and!; done || lia | done |].
    split; [| by rewrite Hready]. split; [apply renewed_in_range; [done | lia] |].
    apply map_Forall_insert_2; [done |]. unfold renewed. by destruct (stale _ _ _ _).
  - assert (ParseSectionHeader section = Err ErrInvalidSection) as E.
    { unfold ParseSectionHeader. destruct (Z.ltb_spec (len section) 8); [done |]. run.
      rewrite overruns_ret by done. destruct (Z.ltb_spec (len section) (totalOf section)); [done | lia]. }
    unfold add. rewrite E. exact Hskip.
Qed.

Lemma ordered_stored P s : stored P s → full s → Forall P (ordered s).
Proof.
  intros [_ Hs] Hf. apply Forall_forall. intros x (n & -> & Hn%elem_of_numbers)%list_elem_of_fmap.
  destruct (Hf n Hn) as [y E]. unfold SectionBytes in *. rewrite E. by eapply (map_Forall_lookup_1 _ _ _ _ Hs).
Qed.

(** ** A whole table *)

Fixpoint addAll (sections : list SectionBytes) (s : tableSectionSet) : outcome tableSectionSet :=
  match sections with
  | [] => Ret s
  | section :: sections => '(s, _, _) ← add section s; addAll sections s
  end.

Lemma addAll_app k l s : addAll (k ++ l) s = (s ← addAll k s; addAll l s).
Proof.
  revert s. induction k as [| x k IH]; intros s; [done |]. cbn [addAll app].
  destruct (add x s) as [[[s' ?] ?] | | |]; run; [apply IH | done ..].
Qed.

(** The section received last under a number. *)
Definition latest (arrived : list SectionBytes) (n : Z) : option SectionBytes :=
  list.last (filter (λ s, number s = n) arrived).

Lemma latest_snoc arrived s n :
  latest (arrived ++ [s]) n = if decide (number s = n) then Some s else latest arrived n.
Proof.
  unfold latest. rewrite filter_app. cbn. case_decide; [by rewrite last_snoc | by rewrite app_nil_r].
Qed.

Lemma latest_some arrived n : is_Some (latest arrived n) ↔ ∃ x, x ∈ arrived ∧ number x = n.
Proof.
  induction arrived as [| s arrived IH] using rev_ind.
  - split; [by intros [? ?] | by intros (? & ?%elem_of_nil & _)].
  - rewrite latest_snoc. case_decide; [split; [intros _; exists s; set_solver | done] |].
    rewrite IH. set_solver.
Qed.

(** What the set holds after [arrived], in terms of the arrivals alone. *)
Definition holds (ext version last : Z) (arrived : list SectionBytes) (s : tableSectionSet) : Prop :=
  stale s ext version last = false ∧ ∀ n, ts_sections s !! n = latest arrived n.

Lemma stale_renewed ext version last section s :
  stale (inserted section (renewed ext version last s)) ext version last = false.
Proof.
  unfold renewed. destruct (stale s ext version last) eqn:E; [| exact E].
  unfold stale. cbn. by rewrite !Z.eqb_refl.
Qed.

Lemma holds_add ext version last arrived s section :
  holds ext version last arrived s →
  holds ext version last (arrived ++ [section]) (inserted section (renewed ext version last s)).
Proof.
  intros [Hs Hm]. split; [apply stale_renewed |]. unfold renewed. rewrite Hs.
  intros n. rewrite latest_snoc. unfold inserted. cbn [ts_sections].
  case_decide as E; [by rewrite E, lookup_insert_eq | by rewrite lookup_insert_ne].
Qed.

Lemma holds_first ext version last s section :
  stale s ext version last = true →
  holds ext version last [section] (inserted section (renewed ext version last s)).
Proof.
  intros Hs. split; [apply stale_renewed |]. unfold renewed. rewrite Hs. intros n.
  change [section] with ([] ++ [section]). rewrite latest_snoc. unfold inserted. cbn [ts_sections].
  case_decide as E; [by rewrite E, lookup_insert_eq | by rewrite lookup_insert_ne].
Qed.

Lemma holds_in_range ext version last arrived s :
  Forall (of_table ext version last) arrived → holds ext version last arrived s → in_range s.
Proof.
  intros Ha [Hs Hm] n x Hx. rewrite Hm in Hx. rewrite (stale_inserted _ _ _ _ Hs).
  destruct (proj1 (latest_some arrived n) (mk_is_Some _ _ Hx)) as (y & Hy & <-).
  rewrite Forall_forall in Ha. by destruct (Ha y Hy) as (_ & _ & _ & _ & _ & _ & ?).
Qed.

(** Adding the sections of one table, the first of which finds the set stale. *)
Lemma addAll_holds ext version last arrived s :
  Forall (of_table ext version last) arrived → arrived ≠ [] → stale s ext version last = true →
  in_range s → ∃ s', addAll arrived s = Ret s' ∧ holds ext version last arrived s'.
Proof.
  intros Ha Hne Hs Hr. induction arrived as [| x arrived IH] using rev_ind; [done |].
  apply Forall_app in Ha as [Ha [Hx _]%Forall_cons_1].
  destruct (decide (arrived = [])) as [-> | Hne'].
  - destruct (add_of_table ext version last x s Hx Hr) as (r & E & _). cbn [app addAll]. rewrite E. run.
    eexists. split; [done |]. by apply holds_first.
  - destruct (IH Ha Hne') as (s1 & E1 & H1). rewrite addAll_app, E1. run. cbn [addAll].
    destruct (add_of_table ext version last x s1 Hx (holds_in_range _ _ _ _ _ Ha H1)) as (r & -> & _). run.
    eexists. split; [done |]. by apply holds_add.
Qed.

(** While the sections of one version of a
    table arrive, in any order and with repetitions, after the set was empty or
    held another version, exactly the first one resets the set, the set is ready
    after a section if and only if every section number has been received, and
    it then lists the most recent section of each number, in order. *)
Theorem add_collects ext version last arrived section s :
  Forall (of_table ext version last) (arrived ++ [section]) →
  stale s ext version last = true → in_range s →
  returns (addAll arrived s) (λ s1, returns (add section s1) (λ '(s2, reset, ready),
    reset = bool_decide (arrived = []) ∧
    (ready = true ↔ ∀ n, 0 ≤ n ≤ last → ∃ x, x ∈ arrived ++ [section] ∧ number x = n) ∧
    (ready = true → map Some (ordered s2) = map (latest (arrived ++ [section])) (numbers last)))).
Proof.
  intros [Ha [Hx _]%Forall_cons_1]%Forall_app Hs Hr.
  assert (∃ s1, addAll arrived s = Ret s1 ∧ in_range s1 ∧ stale s1 ext version last = bool_decide (arrived = []) ∧
    holds ext version last (arrived ++ [section]) (inserted section (renewed ext version last s1)))
    as (s1 & -> & Hr1 & Hs1 & Hh).
  { destruct (decide (arrived = [])) as [-> | Hne].
    - exists s. split_and!; try done. by apply holds_first.
    - destruct (addAll_holds ext version last arrived s Ha Hne Hs Hr) as (s1 & E & H1).
      exists s1. split_and!; [done | by eapply holds_in_range | | by apply holds_add].
      rewrite bool_decide_eq_false_2 by done. apply H1. }
  destruct (add_of_table ext version last section s1 Hx Hr1) as (ready & E & Hready).
  unfold returns at 1. rewrite E. destruct Hh as [Hst Hm]. unfold full in Hready.
  apply stale_inserted in Hst. rewrite Hst in Hready. setoid_rewrite Hm in Hready.
  split; [done |]. split; [by setoid_rewrite <- latest_some |].
  intros Hall. unfold ordered. rewrite map_map, Hst. apply map_ext_in.
  intros n Hn%list_elem_of_In%elem_of_numbers. rewrite Hm.
  by destruct (proj1 Hready Hall n Hn) as [x ->].
Qed.

(** Two sections of a PAT, the second one first. *)
Definition sampleSection (n : Z) : SectionBytes := patSection 0x7fe1 3 n 1 [(0x418 + n, 0x1f0)].

Lemma add_collects_witness :
  returns (addAll [sampleSection 1] emptySections) (λ s1, returns (add (sampleSection 0) s1)
    (λ '(s2, reset, ready), reset = false ∧
      (ready = true ↔ ∀ n, 0 ≤ n ≤ 1 → ∃ x, x ∈ [sampleSection 1; sampleSection 0] ∧ number x = n) ∧
      (ready = true → map Some (ordered s2) = map (latest [sampleSection 1; sampleSection 0]) (numbers 1)))).
Proof.
  apply (add_collects 0x7fe1 3 1 [sampleSection 1] (sampleSection 0) emptySections).
  - repeat (apply Forall_cons; split; [split_and!; by vm_compute |]). apply Forall_nil_2.
  - done.
  - intros n x Hx. cbn [ts_sections emptySections] in Hx. by rewrite lookup_empty in Hx.
Defined.
