(* ===== verification/Demux.v ===== *)
(** * The transport stream demultiplexer ([ts/demux.go])

    [ts.Demuxer] assembles the sections of one stream, follows its PAT, CAT and
    PMTs, and answers for every service which packets belong to it; PAT packets
    are replaced by a single-programme PAT whose continuity counter belongs to
    the view ([ServiceDemux]) it is sent to.  Sets kept as [map[uint16]bool]
    (whose values are always true) are [gset]s. *)

From S2P Require Import Prelude Crc32 Packet Section Packetize AribTables Aribstr Descriptors Psi TableSections.

(** ** The code *)

Definition PIDPAT : Z := 0x0000.
Definition PIDCAT : Z := 0x0001.
Definition PIDNIT : Z := 0x0010.
Definition PIDSDT : Z := 0x0011.
Definition PIDEIT : Z := 0x0012.
Definition PIDRST : Z := 0x0013.
Definition PIDTOT : Z := 0x0014.
Definition PIDDIT : Z := 0x001e.
Definition PIDSIT : Z := 0x001f.
Definition PIDSDTT : Z := 0x0023.
Definition PIDBIT : Z := 0x0024.
Definition PIDCDT : Z := 0x0029.
Definition PIDNull : Z := 0x1fff.

(** From [logo_common.go]. *)
Definition StreamTypeDSMCCUNMessages : Z := 0x0B.
Definition StreamTypeDSMCCStreamDescriptors : Z := 0x0C.
Definition StreamTypeDSMCCDataCarousel : Z := 0x0D.

Record PIDSection : Type := MkPIDSection {
  ps_PID : Z;
  ps_Section : SectionBytes
}.

Record demuxProgram : Type := MkProgram {
  dp_pmtPID : Z;
  dp_pids : gset Z;
  dp_sectionPIDs : gset Z
}.

Record demuxServiceOutput : Type := MkOutput {
  out_generation : Z;
  out_patCounter : Z;
  out_patIndex : Z;
  out_patPackets : list Packet
}.

Definition newOutput : demuxServiceOutput := MkOutput 0 0 0 [].

Record Demuxer : Type := MkDemuxer {
  d_assemblers : gmap Z SectionAssembler;
  d_catEMM : gset Z;
  d_catSections : tableSectionSet;
  d_pat : option PAT;
  d_patGeneration : Z;
  d_patSections : tableSectionSet;
  d_pmtByPID : gmap Z Z;
  d_sectionPIDs : gset Z;
  d_programs : gmap Z demuxProgram;
  d_services : gmap Z demuxServiceOutput
}.

(** The output view of a service; the demultiplexer it points to is an argument
    of its operations. *)
Record ServiceDemux : Type := MkServiceDemux {
  sd_output : demuxServiceOutput;
  sd_serviceID : Z
}.

Definition NewDemuxer : Demuxer := MkDemuxer ∅ ∅ emptySections None 0 emptySections ∅ ∅ ∅ ∅.

Definition setAssemblers (x : gmap Z SectionAssembler) (d : Demuxer) : Demuxer :=
  MkDemuxer x (d_catEMM d) (d_catSections d) (d_pat d) (d_patGeneration d) (d_patSections d)
    (d_pmtByPID d) (d_sectionPIDs d) (d_programs d) (d_services d).
Definition setCatEMM (x : gset Z) (d : Demuxer) : Demuxer :=
  MkDemuxer (d_assemblers d) x (d_catSections d) (d_pat d) (d_patGeneration d) (d_patSections d)
    (d_pmtByPID d) (d_sectionPIDs d) (d_programs d) (d_services d).
Definition setCatSections (x : tableSectionSet) (d : Demuxer) : Demuxer :=
  MkDemuxer (d_assemblers d) (d_catEMM d) x (d_pat d) (d_patGeneration d) (d_patSections d)
    (d_pmtByPID d) (d_sectionPIDs d) (d_programs d) (d_services d).
Definition setPat (x : option PAT) (d : Demuxer) : Demuxer :=
  MkDemuxer (d_assemblers d) (d_catEMM d) (d_catSections d) x (d_patGeneration d) (d_patSections d)
    (d_pmtByPID d) (d_sectionPIDs d) (d_programs d) (d_services d).
Definition setPatGeneration (x : Z) (d : Demuxer) : Demuxer :=
  MkDemuxer (d_assemblers d) (d_catEMM d) (d_catSections d) (d_pat d) x (d_patSections d)
    (d_pmtByPID d) (d_sectionPIDs d) (d_programs d) (d_services d).
Definition setPatSections (x : tableSectionSet) (d : Demuxer) : Demuxer :=
  MkDemuxer (d_assemblers d) (d_catEMM d) (d_catSections d) (d_pat d) (d_patGeneration d) x
    (d_pmtByPID d) (d_sectionPIDs d) (d_programs d) (d_services d).
Definition setPmtByPID (x : gmap Z Z) (d : Demuxer) : Demuxer :=
  MkDemuxer (d_assemblers d) (d_catEMM d) (d_catSections d) (d_pat d) (d_patGeneration d)
    (d_patSections d) x (d_sectionPIDs d) (d_programs d) (d_services d).
Definition setSectionPIDs (x : gset Z) (d : Demuxer) : Demuxer :=
  MkDemuxer (d_assemblers d) (d_catEMM d) (d_catSections d) (d_pat d) (d_patGeneration d)
    (d_patSections d) (d_pmtByPID d) x (d_programs d) (d_services d).
Definition setPrograms (x : gmap Z demuxProgram) (d : Demuxer) : Demuxer :=
  MkDemuxer (d_assemblers d) (d_catEMM d) (d_catSections d) (d_pat d) (d_patGeneration d)
    (d_patSections d) (d_pmtByPID d) (d_sectionPIDs d) x (d_services d).
Definition setServices (x : gmap Z demuxServiceOutput) (d : Demuxer) : Demuxer :=
  MkDemuxer (d_assemblers d) (d_catEMM d) (d_catSections d) (d_pat d) (d_patGeneration d)
    (d_patSections d) (d_pmtByPID d) (d_sectionPIDs d) (d_programs d) x.

(** The guard of [FeedWithPID] and [servicePacket]. *)
Definition unusable (packet : Packet) : outcome bool :=
  Ret (negb (len packet =? PacketSize)) ||? TransportErrorIndicator packet ||? IsNull packet ||?
  (negb <$> ValidPayloadOffset packet).

Definition commonServicePID (pid : Z) : bool :=
  bool_decide (pid ∈ [PIDCAT; PIDNIT; PIDSDT; PIDEIT; PIDRST; PIDTOT; PIDDIT; PIDSIT; PIDSDTT;
                      PIDBIT; PIDCDT]).

Definition caPID (desc : Descriptor) : outcome (option Z) :=
  data ← Data desc;
  if len data <? 4 then Ret None else pid ← get16m 0x1f data 2; Ret (Some pid).

Definition shouldAssemble (d : Demuxer) (pid : Z) : bool :=
  bool_decide (pid ∈ [PIDPAT; PIDCAT; PIDNIT; PIDSDT; PIDEIT; PIDTOT; PIDSDTT; PIDBIT; PIDCDT]) ||
  bool_decide (is_Some (d_pmtByPID d !! pid)) || bool_decide (pid ∈ d_sectionPIDs d).

(** [b.Programs[serviceID] != pmtPID] reads a missing programme as 0. *)
Definition samePAT (a b : option PAT) : bool :=
  match a, b with
  | Some a, Some b =>
      (pat_TransportStreamID a =? pat_TransportStreamID b) &&
      (pat_VersionNumber a =? pat_VersionNumber b) && (pat_NetworkPID a =? pat_NetworkPID b) &&
      bool_decide (size (pat_Programs a) = size (pat_Programs b)) &&
      bool_decide (map_Forall (λ serviceID pmtPID,
        default 0 (pat_Programs b !! serviceID) = pmtPID) (pat_Programs a))
  | _, _ => false
  end.

Definition rebuildPATOutput (serviceID : Z) (d : Demuxer) (output : demuxServiceOutput)
    : outcome demuxServiceOutput :=
  match d_pat d with
  | None => Ret output
  | Some pat =>
      match pat_Programs pat !! serviceID with
      | None => Ret output
      | Some pmtPID =>
          section ← caught (BuildPATSection (pat_TransportStreamID pat) serviceID pmtPID
                              (pat_VersionNumber pat));
          match section with
          | None => Panic
          | Some section =>
              '(packets, _) ← packetizeSection PIDPAT section 0;
              Ret (MkOutput (d_patGeneration d) (out_patCounter output) 0 packets)
          end
      end
  end.

Definition rebuildPAT (serviceID : Z) (d : Demuxer) : outcome Demuxer :=
  match d_pat d with
  | None => Ret d
  | Some pat =>
      if bool_decide (pat_Programs pat !! serviceID = None) then Ret d
      else
        output ← rebuildPATOutput serviceID d (default newOutput (d_services d !! serviceID));
        Ret (setServices (<[serviceID := output]> (d_services d)) d)
  end.

Definition combine (combined pat : PAT) : PAT :=
  MkPAT (pat_TransportStreamID pat) (pat_VersionNumber pat) (pat_NetworkPID pat)
    (pat_Programs pat ∪ pat_Programs combined).

(** [for k := range keys { if cond(k) { delete(m, k) } }]; the deletions are
    independent of the order of the keys. *)
Definition deleteWhere {A} (cond : Z → bool) (m : gmap Z A) : gmap Z A :=
  filter (λ e, cond (fst e) = false) m.

Section Ranges.
Context {O : RangeOrder Z}.

(** The body of the loop over the programmes of the new PAT. *)
Definition installProgram (unchanged : bool) (st : Demuxer * gmap Z Z) (entry : Z * Z)
    : outcome (Demuxer * gmap Z Z) :=
  let '(d, newByPID) := st in
  let '(serviceID, pmtPID) := entry in
  let newByPID := <[pmtPID := serviceID]> newByPID in
  let kept := match d_programs d !! serviceID with
              | Some program => dp_pmtPID program =? pmtPID
              | None => false
              end in
  let d := if kept : bool then d
           else setPrograms (<[serviceID := MkProgram pmtPID ∅ ∅]> (d_programs d)) d in
  d ← (if unchanged : bool then Ret d else rebuildPAT serviceID d);
  Ret (d, newByPID).

(** The loops of [observePAT] that forget what the new PAT does not list. *)
Definition dropPrograms (combined : PAT) (newByPID : gmap Z Z) (d : Demuxer) : Demuxer :=
  let unlisted serviceID := bool_decide (pat_Programs combined !! serviceID = None) in
  let d := setServices (deleteWhere (λ serviceID,
             unlisted serviceID && bool_decide (is_Some (d_programs d !! serviceID))) (d_services d)) d in
  let d := setPrograms (deleteWhere unlisted (d_programs d)) d in
  let d := setAssemblers (deleteWhere (λ pid,
             bool_decide (is_Some (d_pmtByPID d !! pid)) &&
             bool_decide (newByPID !! pid = None)) (d_assemblers d)) d in
  setPmtByPID newByPID d.

(** The part of [observePAT] that follows the parsing of the whole table. *)
Definition installPAT (combined : PAT) (d : Demuxer) : outcome Demuxer :=
  let unchanged := samePAT (d_pat d) (Some combined) in
  let d := setPat (Some combined) d in
  let d := if unchanged : bool then d else setPatGeneration (u64 (d_patGeneration d + 1)) d in
  '(d, newByPID) ← foldM (installProgram unchanged) (range (pat_Programs combined)) (d, ∅);
  Ret (dropPrograms combined newByPID d).

Definition observePAT (section : SectionBytes) (d : Demuxer) : outcome Demuxer :=
  '(patSections, reset, ready) ← add section (d_patSections d);
  let d := setPatSections patSections d in
  let d := if reset : bool then setPat None d else d in
  if negb ready then Ret d
  else
    combined ← caught (foldM (λ combined current, pat ← ParsePAT current; Ret (combine combined pat))
                         (ordered patSections) (MkPAT 0 0 0 ∅));
    match combined with
    | None => Ret d
    | Some combined => installPAT combined d
    end.

(** The CA PIDs of a list of descriptors, added to a set. *)
Definition addCA (pids : gset Z) (desc : Descriptor) : outcome (gset Z) :=
  tag ← Tag desc;
  if tag =? DescriptorTagCA then
    pid ← caPID desc;
    Ret match pid with Some pid => {[pid]} ∪ pids | None => pids end
  else Ret pids.

Definition observeCAT (section : SectionBytes) (d : Demuxer) : outcome Demuxer :=
  bad ← Ret (len section <? 12) ||? overruns section ||? (negb <$> ValidateCRC section);
  if bad : bool then Ret d
  else
    '(catSections, _, ready) ← add section (d_catSections d);
    let d := setCatSections catSections d in
    if negb ready then Ret d
    else
      emm ← foldM (λ emm current,
              n ← TotalLength current;
              loop ← current![8; n - 4];
              descs ← ParseDescriptors loop;
              foldM addCA descs emm) (ordered catSections) ∅;
      Ret (setCatEMM emm d).

Definition rebuildSectionPIDs (d : Demuxer) : Demuxer :=
  let sectionPIDs := ⋃ (dp_sectionPIDs <$> (map_to_list (d_programs d)).*2) in
  setSectionPIDs sectionPIDs
    (setAssemblers (deleteWhere (λ pid, bool_decide (pid ∈ d_sectionPIDs d) &&
                                        bool_decide (pid ∉ sectionPIDs)) (d_assemblers d)) d).

Definition observeElement (st : gset Z * gset Z) (elem : PMTElement) : outcome (gset Z * gset Z) :=
  let '(pids, sectionPIDs) := st in
  let pids := {[ElementaryPID elem]} ∪ pids in
  let sectionPIDs :=
    if (StreamType elem =? StreamTypeDSMCCUNMessages) || (StreamType elem =? StreamTypeDSMCCDataCarousel) ||
       (StreamType elem =? StreamTypeDSMCCStreamDescriptors)
    then {[ElementaryPID elem]} ∪ sectionPIDs else sectionPIDs in
  pids ← foldM addCA (el_Descriptors elem) pids;
  Ret (pids, sectionPIDs).

Definition observePMT (serviceID : Z) (section : SectionBytes) (d : Demuxer) : outcome Demuxer :=
  pmt ← caught (ParsePMT section);
  match pmt with
  | None => Ret d
  | Some pmt =>
      if negb (pmt_ProgramNumber pmt =? serviceID) then Ret d
      else match d_programs d !! serviceID with
      | None => Ret d
      | Some program =>
          let pids := if pmt_PCRPID pmt =? PIDNull then ∅ else {[pmt_PCRPID pmt]} in
          pids ← foldM addCA (pmt_Descriptors pmt) pids;
          '(pids, sectionPIDs) ← foldM observeElement (pmt_Elements pmt) (pids, ∅);
          let program := MkProgram (dp_pmtPID program) pids sectionPIDs in
          Ret (rebuildSectionPIDs (setPrograms (<[serviceID := program]> (d_programs d)) d))
      end
  end.

(** The body of the loop of [FeedWithPID] over the completed sections. *)
Definition observeSection (pid : Z) (d : Demuxer) (section : SectionBytes) : outcome Demuxer :=
  t ← TableID section;
  if t =? TableIDPAT then if pid =? PIDPAT then observePAT section d else Ret d
  else if t =? TableIDCAT then if pid =? PIDCAT then observeCAT section d else Ret d
  else if t =? TableIDPMT then
    match d_pmtByPID d !! pid with
    | Some serviceID => observePMT serviceID section d
    | None => Ret d
    end
  else Ret d.

Definition FeedWithPID (packet : Packet) (d : Demuxer) : outcome (Demuxer * list PIDSection) :=
  skip ← unusable packet;
  if skip : bool then Ret (d, [])
  else
    pid ← PID packet;
    if negb (shouldAssemble d pid) then Ret (d, [])
    else
      let assembler := default (NewSectionAssembler pid) (d_assemblers d !! pid) in
      '(assembler, sections) ← FeedAll assembler packet;
      let d := setAssemblers (<[pid := assembler]> (d_assemblers d)) d in
      d ← foldM (observeSection pid) sections d;
      Ret (d, map (MkPIDSection pid) sections).

(** [Demuxer.Feed] *)
Definition FeedSections (packet : Packet) (d : Demuxer) : outcome (Demuxer * list SectionBytes) :=
  '(d, sections) ← FeedWithPID packet d;
  Ret (d, map ps_Section sections).

End Ranges.

(** The packet to emit, [None] for nil, and the output's new state. *)
Definition servicePacket (serviceID : Z) (d : Demuxer) (output : demuxServiceOutput) (packet : Packet)
    : outcome (demuxServiceOutput * option Packet) :=
  skip ← unusable packet;
  if skip : bool then Ret (output, None)
  else match d_programs d !! serviceID with
  | None => Ret (output, None)
  | Some program =>
      output ← (if out_generation output =? d_patGeneration d then Ret output
                else rebuildPATOutput serviceID d output);
      pid ← PID packet;
      if pid =? PIDPAT then
        if len (out_patPackets output) =? 0 then Ret (output, None)
        else
          result ← (out_patPackets output)![out_patIndex output];
          b ← result![3];
          let result := <[3%nat := Z.lor (Z.land b 0xf0) (Z.land (out_patCounter output) 0x0f)]> result in
          Ret (MkOutput (out_generation output) (Z.land (u8 (out_patCounter output + 1)) 0x0f)
                 (Z.rem (out_patIndex output + 1) (len (out_patPackets output))) (out_patPackets output),
               Some result)
      else if commonServicePID pid || (pid =? dp_pmtPID program) || bool_decide (pid ∈ dp_pids program) ||
              bool_decide (pid ∈ d_catEMM d)
      then Ret (output, Some packet)
      else Ret (output, None)
  end.

Definition serviceOutput (serviceID : Z) (d : Demuxer) : outcome (Demuxer * demuxServiceOutput) :=
  match d_services d !! serviceID with
  | Some output => Ret (d, output)
  | None =>
      d ← rebuildPAT serviceID (setServices (<[serviceID := newOutput]> (d_services d)) d);
      Ret (d, default newOutput (d_services d !! serviceID))
  end.

Definition ServicePacket (serviceID : Z) (packet : Packet) (d : Demuxer)
    : outcome (Demuxer * option Packet) :=
  '(d, output) ← serviceOutput serviceID d;
  '(output, result) ← servicePacket serviceID d output packet;
  Ret (setServices (<[serviceID := output]> (d_services d)) d, result).

Definition Service (serviceID : Z) : ServiceDemux := MkServiceDemux newOutput serviceID.

(** [ServiceDemux.Packet] *)
Definition ViewPacket (d : Demuxer) (packet : Packet) (s : ServiceDemux)
    : outcome (ServiceDemux * option Packet) :=
  '(output, result) ← servicePacket (sd_serviceID s) d (sd_output s) packet;
  Ret (MkServiceDemux output (sd_serviceID s), result).

Definition HasService (d : Demuxer) (serviceID : Z) : bool :=
  bool_decide (is_Some (d_programs d !! serviceID)).

Definition PATReady (d : Demuxer) : bool := bool_decide (is_Some (d_pat d)).

(** ** The PIDs a PMT lists *)

(** The CA PID of a whole descriptor. *)
Definition caSet (desc : Descriptor) : gset Z :=
  if (byteAt desc 0 =? DescriptorTagCA) && (6 <=? len desc)
  then {[be16 (Z.land (byteAt desc 4) 0x1f) (byteAt desc 5)]} else ∅.

Definition caSets (descs : list Descriptor) : gset Z := ⋃ (caSet <$> descs).

Lemma addCA_ret pids desc : desc_ok desc → addCA pids desc = Ret (caSet desc ∪ pids).
Proof.
  intros (tag & payload & ->). unfold addCA, caSet. change (byteAt (tag :: _) 0) with tag.
  change (Tag (tag :: len payload :: payload)) with (Ret tag). run. rewrite !len_cons.
  destruct (tag =? DescriptorTagCA); cbn [andb]; [| by rewrite union_empty_l_L].
  unfold caPID. change (tag :: len payload :: payload) with (whole tag payload). rewrite Data_whole. run.
  destruct (Z.ltb_spec (len payload) 4), (Z.leb_spec 6 (1 + (1 + len payload))); try lia.
  - run. by rewrite union_empty_l_L.
  - rewrite get16m_ret by lia. run. change (whole tag payload) with ([tag; len payload] ++ payload).
    by rewrite !byteAt_app_r by (change (len [tag; len payload]) with 2; lia).
Qed.

Lemma fold_addCA descs pids :
  Forall desc_ok descs → foldM addCA descs pids = Ret (caSets descs ∪ pids).
Proof.
  unfold caSets. intros Hd. revert pids. induction Hd as [| d descs Hd _ IH]; intros pids; cbn [foldM fmap list_fmap].
  - cbn. by rewrite union_empty_l_L.
  - rewrite addCA_ret by done. run. rewrite IH. cbn. f_equal. rewrite union_assoc_L. f_equal. apply union_comm_L.
Qed.

Definition isDSMCC (streamType : Z) : bool :=
  (streamType =? StreamTypeDSMCCUNMessages) || (streamType =? StreamTypeDSMCCDataCarousel) ||
  (streamType =? StreamTypeDSMCCStreamDescriptors).

(** What the demultiplexer forwards and assembles for a PMT. *)
Definition pmtPIDs (pmt : PMT) : gset Z :=
  (if pmt_PCRPID pmt =? PIDNull then ∅ else {[pmt_PCRPID pmt]}) ∪ caSets (pmt_Descriptors pmt) ∪
  ⋃ ((λ elem, {[ElementaryPID elem]} ∪ caSets (el_Descriptors elem)) <$> pmt_Elements pmt).

Definition pmtSectionPIDs (pmt : PMT) : gset Z :=
  list_to_set (ElementaryPID <$> filter (λ elem, isDSMCC (StreamType elem) = true) (pmt_Elements pmt)).

Lemma observeElement_ret pids sectionPIDs elem :
  Forall desc_ok (el_Descriptors elem) →
  observeElement (pids, sectionPIDs) elem =
    Ret (caSets (el_Descriptors elem) ∪ ({[ElementaryPID elem]} ∪ pids),
         if isDSMCC (StreamType elem) then {[ElementaryPID elem]} ∪ sectionPIDs else sectionPIDs).
Proof. intros He. unfold observeElement. by rewrite fold_addCA. Qed.

Lemma fold_elements elems pids sectionPIDs :
  Forall (λ elem, Forall desc_ok (el_Descriptors elem)) elems →
  foldM observeElement elems (pids, sectionPIDs) =
    Ret (⋃ ((λ elem, {[ElementaryPID elem]} ∪ caSets (el_Descriptors elem)) <$> elems) ∪ pids,
         list_to_set (ElementaryPID <$> filter (λ elem, isDSMCC (StreamType elem) = true) elems) ∪ sectionPIDs).
Proof.
  intros He. revert pids sectionPIDs.
  induction He as [| e elems He _ IH]; intros pids sectionPIDs; cbn [foldM fmap list_fmap].
  - cbn. by rewrite !union_empty_l_L.
  - rewrite observeElement_ret by done. run. rewrite IH, filter_cons.
    destruct (isDSMCC (StreamType e)); (destruct decide; try done); cbn; do 2 f_equal; set_solver.
Qed.

(** ** The packets of a programme *)

Definition patPacket (pat : PAT) (serviceID pmtPID : Z) : Packet :=
  built PIDPAT 0 true (patSection (pat_TransportStreamID pat) (pat_VersionNumber pat) 0 0 [(serviceID, pmtPID)]).

Lemma rebuildPATOutput_ret serviceID d output pat pmtPID :
  d_pat d = Some pat → pat_ok pat → pat_Programs pat !! serviceID = Some pmtPID →
  rebuildPATOutput serviceID d output =
    Ret (MkOutput (d_patGeneration d) (out_patCounter output) 0 [patPacket pat serviceID pmtPID]).
Proof.
  intros Hpat (Ht & Hv & _ & Hzero & Hp) Hsid. unfold rebuildPATOutput. rewrite Hpat, Hsid.
  destruct (Hp _ _ Hsid) as [Hs Hpid].
  rewrite BuildPATSection_patSection by lia. run.
  assert (serviceID ≠ 0) as Hnz by congruence.
  destruct (patSection_single (pat_TransportStreamID pat) serviceID pmtPID (pat_VersionNumber pat))
    as (_ & Hlen & _); [done | done | done | lia | done |].
  unfold patPacket. set (s := patSection _ _ _ _ _) in *.
  destruct (packetizeSection_eq PIDPAT s 0) as [c' ->]. run.
  rewrite packetsFrom_S, sectionPacket_eq. cbn [orb].
  rewrite packetsFrom_S. cbn [orb room].
  assert (drop 183 s = []) as -> by (apply drop_ge; unfold len in Hlen; lia). done.
Qed.

Lemma rebuildPATOutput_skip serviceID d output :
  (∀ pat, d_pat d = Some pat → pat_Programs pat !! serviceID = None) →
  rebuildPATOutput serviceID d output = Ret output.
Proof. unfold rebuildPATOutput. destruct (d_pat d); [| done]. intros H. by rewrite (H _ eq_refl). Qed.

(** The packet with the counter of a view. *)
Lemma built_counter s c :
  <[3%nat := Z.lor (Z.land (byteAt (built PIDPAT 0 true s) 3) 0xf0) (Z.land c 0x0f)]> (built PIDPAT 0 true s) =
  built PIDPAT c true s.
Proof. done. Qed.

(** ** The invariant *)

(** Either no PAT packet yet, or one packet that carries a short section. *)
Definition out_ok (output : demuxServiceOutput) : Prop :=
  out_patIndex output = 0 ∧
  (out_patPackets output = [] ∨
   ∃ s, out_patPackets output = [built PIDPAT 0 true s] ∧ section_valid s ∧ len s = 16).

(** [strict] adds that no PAT of the stream gives a programme the PMT PID 0,
    the value [samePAT] cannot tell from a missing programme. *)
Definition programs_nonzero (pat : PAT) : Prop := map_Forall (λ _ pid, pid ≠ 0) (pat_Programs pat).
Definition admissible (strict : bool) (s : SectionBytes) : Prop :=
  section_valid s ∧ (strict = true → ∀ pat, ParsePAT s = Ret pat → programs_nonzero pat).

Record demux_base (strict : bool) (d : Demuxer) : Prop := {
  dk_generation : 0 ≤ d_patGeneration d;
  dk_assemblers : map_Forall (λ pid sa, asm_ok sa ∧ sa_pid sa = pid) (d_assemblers d);
  dk_patSections : stored (admissible strict) (d_patSections d);
  dk_catSections : stored (λ s, section_valid s ∧ 12 ≤ len s) (d_catSections d);
  dk_pat : ∀ pat, d_pat d = Some pat → pat_ok pat ∧ (strict = true → programs_nonzero pat);
  dk_services : map_Forall (λ _ output, out_ok output) (d_services d)
}.

(** The programmes are those of the PAT, and a PMT PID leads to a programme that
    has it. *)
Definition programs_ok (d : Demuxer) : Prop :=
  (∀ pat, d_pat d = Some pat → ∀ sid, dp_pmtPID <$> d_programs d !! sid = pat_Programs pat !! sid) ∧
  (∀ pid sid, d_pmtByPID d !! pid = Some sid → dp_pmtPID <$> d_programs d !! sid = Some pid).

Definition demux_ok (strict : bool) (d : Demuxer) : Prop := demux_base strict d ∧ programs_ok d.

(** A view is in step when its PAT packets are those of the current PAT, or will
    be rebuilt before the next one is sent. *)
Definition synced (d : Demuxer) (sid : Z) (output : demuxServiceOutput) : Prop :=
  out_generation output ≤ d_patGeneration d ∧
  (out_generation output = d_patGeneration d → ∀ pat pmtPID,
     d_pat d = Some pat → pat_Programs pat !! sid = Some pmtPID →
     out_patPackets output = [patPacket pat sid pmtPID]).

Definition services_synced (d : Demuxer) : Prop := map_Forall (synced d) (d_services d).

(** What a step of the demultiplexer does to the PAT the views follow. *)
Definition advances (d d' : Demuxer) : Prop :=
  d_patGeneration d ≤ d_patGeneration d' ∧
  (d_patGeneration d' = d_patGeneration d → ∀ pat, d_pat d' = Some pat → d_pat d = Some pat).

Lemma advances_refl d : advances d d.
Proof. by split. Qed.

Lemma advances_trans a b c : advances a b → advances b c → advances a c.
Proof.
  intros [G1 P1] [G2 P2]. split; [lia |]. intros E pat Hpat. apply P1; [lia |]. apply P2; [lia | done].
Qed.

Lemma synced_advances d d' sid output : advances d d' → synced d sid output → synced d' sid output.
Proof.
  intros [G P] [Hg Hs]. split; [lia |]. intros E pat pmtPID Hpat. apply Hs; [lia |]. apply P; [lia | done].
Qed.

Lemma patPacket_out_ok pat sid pmtPID g c :
  pat_ok pat → pat_Programs pat !! sid = Some pmtPID →
  out_ok (MkOutput g c 0 [patPacket pat sid pmtPID]).
Proof.
  intros (Ht & Hv & _ & Hzero & Hp) Hsid. destruct (Hp _ _ Hsid) as [Hs Hpid].
  assert (sid ≠ 0) as Hnz by congruence.
  destruct (patSection_single (pat_TransportStreamID pat) sid pmtPID (pat_VersionNumber pat))
    as (Hval & Hlen & _); [done | done | done | lia | done |].
  split; [done |]. right. eexists. split; [done |]. by split.
Qed.

(** Rebuilding the PAT packets of an output. *)
Lemma rebuildPATOutput_ok strict sid d output :
  demux_base strict d → out_ok output →
  returns (rebuildPATOutput sid d output) (λ output',
    out_ok output' ∧ (out_generation output ≤ d_patGeneration d → synced d sid output → synced d sid output') ∧
    out_patCounter output' = out_patCounter output ∧
    ∀ pat pmtPID, d_pat d = Some pat → pat_Programs pat !! sid = Some pmtPID →
      output' = MkOutput (d_patGeneration d) (out_patCounter output) 0 [patPacket pat sid pmtPID]).
Proof.
  intros Hd Ho. destruct (d_pat d) as [pat |] eqn:Hpat; cycle 1.
  { rewrite rebuildPATOutput_skip by (intros pat' ?; congruence). by split_and!. }
  destruct (dk_pat _ _ Hd pat Hpat) as [Hpo _].
  destruct (pat_Programs pat !! sid) as [pmtPID |] eqn:Hsid; cycle 1.
  { rewrite rebuildPATOutput_skip by (intros pat' ?; congruence). split_and!; [done | done | done |].
    intros pat' pmtPID [= <-]. congruence. }
  rewrite (rebuildPATOutput_ret sid d output pat pmtPID) by done.
  split_and!; [by apply patPacket_out_ok | | done |].
  - intros _ _. split; [done |]. intros _ pat' pmt' Hpat'. rewrite Hpat in Hpat'. injection Hpat' as <-.
    rewrite Hsid. by intros [= <-].
  - intros pat' pmt' [= <-]. rewrite Hsid. by intros [= <-].
Qed.

(** Steps that only touch [services]. *)
Definition only_services (d d' : Demuxer) : Prop := d' = setServices (d_services d') d.

Lemma only_services_set d x : only_services d (setServices x d).
Proof. by destruct d. Qed.

Lemma demux_base_services strict d x :
  demux_base strict d → map_Forall (λ _ output, out_ok output) x → demux_base strict (setServices x d).
Proof. intros [? ? ? ? ? ?] Hx. by split. Qed.

Lemma newOutput_ok : out_ok newOutput.
Proof. split; [done | by left]. Qed.

(** An output rebuilt from the current PAT. *)
Definition rebuilt (d : Demuxer) (sid : Z) (output : demuxServiceOutput) : Prop :=
  ∃ pat pmtPID, d_pat d = Some pat ∧ pat_Programs pat !! sid = Some pmtPID ∧
    out_generation output = d_patGeneration d ∧ out_patPackets output = [patPacket pat sid pmtPID].

(** [rebuildPAT] leaves the other outputs alone and the service's in step. *)
Lemma rebuildPAT_ok strict sid d :
  demux_base strict d →
  returns (rebuildPAT sid d) (λ d', demux_base strict d' ∧ only_services d d' ∧
    (∀ i, i ≠ sid → d_services d' !! i = d_services d !! i) ∧
    ∀ output, d_services d' !! sid = Some output →
      d_services d !! sid = Some output ∨ rebuilt d sid output).
Proof.
  intros Hd. unfold rebuildPAT.
  assert (demux_base strict d ∧ only_services d d ∧ (∀ i, i ≠ sid → d_services d !! i = d_services d !! i) ∧
    ∀ output, d_services d !! sid = Some output → d_services d !! sid = Some output ∨ rebuilt d sid output)
    as Hsame.
  { split; [done |]. split; [by destruct d |]. split; [done |]. by left. }
  destruct (d_pat d) as [pat |] eqn:Hpat; [| exact Hsame].
  case_bool_decide as Hsid; [exact Hsame |]. clear Hsame.
  destruct (pat_Programs pat !! sid) as [pmtPID |] eqn:E; [clear Hsid | done].
  destruct (dk_pat _ _ Hd pat Hpat) as [Hpo _].
  rewrite (rebuildPATOutput_ret sid d _ pat pmtPID) by done. run.
  split; [| split; [apply only_services_set | split]].
  - apply demux_base_services; [done |]. apply map_Forall_insert_2; [by apply patPacket_out_ok |].
    apply (dk_services _ _ Hd).
  - intros i Hi. cbn. by rewrite lookup_insert_ne.
  - intros output. cbn. rewrite lookup_insert_eq. intros [= <-]. right. exists pat, pmtPID. exact (conj Hpat (conj E (conj eq_refl eq_refl))).
Qed.

(** ** Installing a PAT *)

Lemma combine_ok strict a b :
  pat_ok a → pat_ok b → (strict = true → programs_nonzero a) → (strict = true → programs_nonzero b) →
  pat_ok (combine a b) ∧ (strict = true → programs_nonzero (combine a b)).
Proof.
  intros (_ & _ & _ & Za & Pa) (Tb & Vb & Nb & Zb & Pb) Sa Sb. split.
  - refine (conj Tb (conj Vb (conj Nb (conj _ _)))); cbn.
    + by apply lookup_union_None.
    + by apply map_Forall_union_2.
  - intros Hs. apply map_Forall_union_2; [by apply Sb | by apply Sa].
Qed.

Lemma combined_safe strict sections :
  Forall (admissible strict) sections →
  ends invalid (foldM (λ combined current, pat ← ParsePAT current; Ret (combine combined pat)) sections (MkPAT 0 0 0 ∅))
    (λ pat, pat_ok pat ∧ (strict = true → programs_nonzero pat)).
Proof.
  intros Hs. apply safe_foldM.
  - split; [| intros _; apply map_Forall_empty].
    unfold pat_ok, word16. cbn. split_and!; (done || apply map_Forall_empty).
  - intros combined s [Hc Hn] Hin. rewrite Forall_forall in Hs. destruct (Hs s Hin) as [Hv Hq].
    pose proof (ParsePAT_safe s (sv_bytes s Hv)) as Hp. unfold ends in *.
    destruct (ParsePAT s) as [pat | e | |]; try done. run.
    apply combine_ok; try done. intros Hstrict. by apply Hq.
Qed.

(** The demultiplexer while the programmes [k] of a PAT have been installed. *)
Definition installing (strict unchanged : bool) (d0 : Demuxer) (k : list (Z * Z))
    (st : Demuxer * gmap Z Z) : Prop :=
  let '(d, newByPID) := st in
  demux_base strict d ∧ d = setPrograms (d_programs d) (setServices (d_services d) d0) ∧
  (∀ sid pmtPID, (sid, pmtPID) ∈ k → dp_pmtPID <$> d_programs d !! sid = Some pmtPID) ∧
  (∀ sid, sid ∉ k.*1 → d_programs d !! sid = d_programs d0 !! sid) ∧
  (∀ pid sid, newByPID !! pid = Some sid → (sid, pid) ∈ k) ∧
  (unchanged = true → d_services d = d_services d0) ∧
  (∀ sid output, d_services d !! sid = Some output → d_services d0 !! sid = Some output ∨ rebuilt d0 sid output).

Lemma rebuilt_ext d d0 sid output :
  d_pat d = d_pat d0 → d_patGeneration d = d_patGeneration d0 → rebuilt d sid output → rebuilt d0 sid output.
Proof. intros E1 E2 (pat & pmt & ? & ? & ? & ?). exists pat, pmt. split_and!; congruence. Qed.

Lemma demux_base_programs strict d x : demux_base strict d → demux_base strict (setPrograms x d).
Proof. intros []. by split. Qed.

Lemma installProgram_ok strict unchanged d0 k sid pmtPID st :
  installing strict unchanged d0 k st → sid ∉ k.*1 →
  returns (installProgram unchanged st (sid, pmtPID)) (installing strict unchanged d0 (k ++ [(sid, pmtPID)])).
Proof.
  destruct st as [d newByPID]. intros (Hb & Hd & Hk & Hrest & Hby & Hsame & Hserv) Hfresh.
  unfold installProgram.
  set (d1 := if match d_programs d !! sid with Some program => dp_pmtPID program =? pmtPID | None => false end
             then d else setPrograms (<[sid := MkProgram pmtPID ∅ ∅]> (d_programs d)) d).
  assert (demux_base strict d1 ∧ d1 = setPrograms (d_programs d1) d ∧
    dp_pmtPID <$> d_programs d1 !! sid = Some pmtPID ∧
    ∀ i, i ≠ sid → d_programs d1 !! i = d_programs d !! i) as (Hb1 & Hd1 & Hsid1 & Hrest1).
  { unfold d1. destruct (d_programs d !! sid) as [program |] eqn:E; [destruct (Z.eqb_spec (dp_pmtPID program) pmtPID) |].
    - split_and!; [done | by destruct d | by rewrite E; cbn; f_equal | done].
    - split_and!; [by apply demux_base_programs | by destruct d | cbn; by rewrite lookup_insert_eq |].
      intros i Hi. cbn. by rewrite lookup_insert_ne.
    - split_and!; [by apply demux_base_programs | by destruct d | cbn; by rewrite lookup_insert_eq |].
      intros i Hi. cbn. by rewrite lookup_insert_ne. }
  clearbody d1. run.
  assert (d_services d1 = d_services d ∧ d_pat d1 = d_pat d0 ∧ d_patGeneration d1 = d_patGeneration d0 ∧
    ∀ x, setServices x d1 = setPrograms (d_programs d1) (setServices x d0)) as (Hs1 & Hp1 & Hg1 & Hx1).
  { rewrite Hd1, Hd. by split_and!. }
  apply safe_bind. eapply (safe_mono _ (λ d2, demux_base strict d2 ∧ d2 = setServices (d_services d2) d1 ∧
    (unchanged = true → d_services d2 = d_services d0) ∧
    ∀ i output, d_services d2 !! i = Some output → d_services d1 !! i = Some output ∨ rebuilt d0 i output)).
  - destruct unchanged.
    + split_and!; [done | by destruct d1 | intros _; rewrite Hs1; by apply Hsame |]. by left.
    + eapply safe_mono; [by apply rebuildPAT_ok |]. intros d2 (Hb2 & Ho2 & Hne & Heq).
      split_and!; [done | done | done |]. intros i output Hi. destruct (decide (i = sid)) as [-> | Hi'].
      * destruct (Heq output Hi) as [? | Hr]; [by left | right]. by eapply rebuilt_ext.
      * rewrite Hne in Hi by done. by left.
  - intros d2 (Hb2 & Hd2 & Hun & Hserv2). unfold ends, installing.
    assert (d_programs d2 = d_programs d1) as Hp2 by by rewrite Hd2.
    split_and!; [done | rewrite Hp2, Hd2 at 1; cbn; apply Hx1 | | | | done |].
    + intros i p [Hi | [= -> ->]%list_elem_of_singleton]%elem_of_app; rewrite Hp2; [| done].
      rewrite Hrest1; [by apply Hk |]. intros ->. apply Hfresh. by apply (list_elem_of_fmap_2 fst) in Hi.
    + intros i Hi. rewrite fmap_app in Hi. apply not_elem_of_app in Hi as [Hi Hne]. cbn in Hne.
      rewrite Hp2, Hrest1 by set_solver. by apply Hrest.
    + intros pid i Hi. apply elem_of_app. apply lookup_insert_Some in Hi as [[<- <-] | [_ Hi]]; [right | left].
      * by apply list_elem_of_singleton.
      * by apply Hby.
    + intros i output Hi. destruct (Hserv2 i output Hi) as [Hi' | ?]; [| by right].
      rewrite Hs1 in Hi'. by apply Hserv.
Qed.

Lemma samePAT_eq a b : programs_nonzero a → samePAT (Some a) (Some b) = true → a = b.
Proof.
  intros Hnz H. unfold samePAT in H. bools. rewrite !bool_decide_eq_true in *.
  destruct a as [t v n p], b as [t' v' n' p']. cbn in *. subst.
  f_equal. apply map_subseteq_size_eq; [| lia]. apply map_subseteq_spec. intros i x Hi.
  match goal with H : map_Forall _ p |- _ => specialize (H i x Hi) as E end. cbn in E.
  destruct (p' !! i) as [y |]; cbn in E; [by subst | by destruct (Hnz i x Hi)].
Qed.

(** One section observed, seen from the views. *)
Definition observed (strict : bool) (d d' : Demuxer) : Prop :=
  demux_ok strict d' ∧ d_patGeneration d' ≤ d_patGeneration d + 1 ∧
  (strict = true → d_patGeneration d + 1 < 2 ^ 64 →
   advances d d' ∧ (services_synced d → services_synced d')).

Lemma observed_refl strict d : demux_ok strict d → observed strict d d.
Proof. intros. split; [done |]. split; [lia |]. intros _ _. split; [apply advances_refl | done]. Qed.

(** Steps that leave the PAT, the programmes' PMT PIDs and the outputs alone. *)
Lemma observed_same strict d d' :
  demux_ok strict d → demux_ok strict d' → d_patGeneration d' = d_patGeneration d →
  d_pat d' = d_pat d → d_services d' = d_services d → observed strict d d'.
Proof.
  intros Hd Hd' Hg Hp Hs. split; [done |]. split; [lia |]. intros _ _.
  assert (advances d d') as Ha by (split; [lia | intros _ pat; by rewrite Hp]).
  split; [done |]. unfold services_synced. rewrite Hs.
  intros H. eapply map_Forall_impl; [exact H |]. intros i x. by apply synced_advances.
Qed.

Lemma lookup_deleteWhere {A} cond (m : gmap Z A) i :
  deleteWhere cond m !! i = if cond i then None else m !! i.
Proof.
  unfold deleteWhere. destruct (cond i) eqn:E.
  - apply map_lookup_filter_None. right. intros x _. cbn. by rewrite E.
  - destruct (m !! i) as [x |] eqn:Ei.
    + by apply map_lookup_filter_Some.
    + apply map_lookup_filter_None. by left.
Qed.

Lemma map_Forall_deleteWhere {A} (P : Z → A → Prop) cond m :
  map_Forall P m → map_Forall P (deleteWhere cond m).
Proof.
  intros H i x Hi. rewrite lookup_deleteWhere in Hi. destruct (cond i); [done |]. by apply H.
Qed.

Section Observing.
Context {O : RangeOrder Z}.

(** The table that follows the installation of all programmes. *)
Lemma dropPrograms_ok strict unchanged d0 combined d newByPID :
  installing strict unchanged d0 (range (pat_Programs combined)) (d, newByPID) →
  d_pat d0 = Some combined → demux_ok strict (dropPrograms combined newByPID d).
Proof.
  intros (Hb & Hd & Hk & _ & Hby & _ & _) Hpat. destruct Hb as [G A P C Hp S].
  assert (d_pat d = Some combined) as Hpd by (rewrite Hd; exact Hpat).
  split; [split; try done; by apply map_Forall_deleteWhere |]. unfold programs_ok, dropPrograms. cbn. split.
  - intros pat Hpat' sid. rewrite Hpd in Hpat'. injection Hpat' as <-.
    rewrite lookup_deleteWhere. destruct (pat_Programs combined !! sid) as [pmt |] eqn:E.
    + rewrite bool_decide_eq_false_2 by done. apply Hk. by apply range_elem.
    + by rewrite bool_decide_eq_true_2.
  - intros pid sid Hpid. apply Hby in Hpid.
    rewrite lookup_deleteWhere, bool_decide_eq_false_2 by (apply range_elem in Hpid; congruence).
    by apply Hk.
Qed.

(** [synced] depends on the PAT and its generation only. *)
Lemma rebuilt_synced d d' sid output :
  d_pat d' = d_pat d → d_patGeneration d' = d_patGeneration d → rebuilt d sid output → synced d' sid output.
Proof.
  intros Ep Eg (pat & pmt & Hp & Hl & Hg & Hk). split; [lia |]. intros _ pat' pmt' Hp' Hl'.
  rewrite Ep, Hp in Hp'. injection Hp' as <-. rewrite Hl in Hl'. by injection Hl' as <-.
Qed.

Lemma u64_succ g : 0 ≤ g → 0 ≤ u64 (g + 1) ≤ g + 1.
Proof.
  intros. unfold u64. pose proof (Z.mod_pos_bound (g + 1) (2 ^ 64) ltac:(lia)).
  pose proof (Z.mod_le (g + 1) (2 ^ 64)). lia.
Qed.

Lemma u64_succ_small g : 0 ≤ g → g + 1 < 2 ^ 64 → u64 (g + 1) = g + 1.
Proof. intros. apply Z.mod_small. lia. Qed.

Lemma installPAT_ok strict combined d :
  demux_ok strict d → pat_ok combined → (strict = true → programs_nonzero combined) →
  returns (installPAT combined d) (observed strict d).
Proof.
  intros [[G1 A1 P1 C1 Hp1 S1] Hprog1] Hco Hcn. unfold installPAT.
  set (unchanged := samePAT (d_pat d) (Some combined)).
  set (d2 := if unchanged then _ else _).
  assert (d_pat d2 = Some combined ∧ d_services d2 = d_services d ∧
    d_patGeneration d2 = (if unchanged then d_patGeneration d else u64 (d_patGeneration d + 1)) ∧
    demux_base strict d2) as (Hpat2 & Hs2 & Hg2 & Hb2).
  { unfold d2. pose proof (u64_succ _ G1). destruct unchanged; (split_and!; try done); split; try done; cbn; try lia;
      intros pat [= <-]; by split. }
  clearbody d2. apply safe_bind. eapply safe_mono.
  { apply (safe_foldM_prefix (installing strict unchanged d2)).
    - cbn. split_and!; try done; [by destruct d2 | | by left].
      intros ? ? H. by apply elem_of_nil in H.
    - intros k [sid pmt] st Hk Hpre. apply installProgram_ok; [done |].
      by apply (range_fresh _ k (sid, pmt)) in Hpre. }
  intros [d3 newByPID] Hinst. pose proof (dropPrograms_ok _ _ _ _ _ _ Hinst Hpat2) as Hfinal.
  destruct Hinst as (_ & Hd3 & _ & _ & _ & _ & Hserv).
  set (d4 := dropPrograms combined newByPID d3) in *.
  assert (d_patGeneration d4 = d_patGeneration d2 ∧ d_pat d4 = Some combined) as [Hg4 Hpat4]
    by (unfold d4, dropPrograms; cbn; rewrite Hd3; by split).
  split; [exact Hfinal |]. split.
  { rewrite Hg4, Hg2. pose proof (u64_succ _ G1). destruct unchanged; lia. }
  intros Hstrict Hwrap.
  assert (advances d d4) as Ha.
  { unfold advances. rewrite Hg4, Hpat4, Hg2. pose proof (u64_succ_small (d_patGeneration d) G1).
    destruct unchanged eqn:E; [split; [lia |] | split; lia].
    intros _ pat [= <-]. unfold unchanged in E. destruct (d_pat d) as [old |] eqn:Eold; [| done].
    f_equal. apply samePAT_eq; [| done]. by apply (Hp1 old). }
  split; [done |]. intros Hsync sid output Hout.
  assert (d_services d3 !! sid = Some output) as H3.
  { unfold d4, dropPrograms in Hout. cbn in Hout. rewrite lookup_deleteWhere in Hout. by destruct (_ && _). }
  apply Hserv in H3 as [H3 | Hr].
  - rewrite Hs2 in H3. apply (synced_advances d); [done |]. by apply Hsync.
  - by apply (rebuilt_synced d2); [congruence | |].
Qed.

(** Steps in sequence, the first of which does not change the generation. *)
Lemma observed_trans strict a b c :
  d_patGeneration b = d_patGeneration a → observed strict a b → observed strict b c → observed strict a c.
Proof.
  intros Hg (_ & _ & Hab) (Hc & Hgc & Hbc). split; [done |]. split; [lia |]. intros Hs Hw.
  destruct (Hab Hs Hw) as [Ha1 Hs1], (Hbc Hs) as [Ha2 Hs2]; [lia |].
  split; [by eapply advances_trans | auto].
Qed.

Lemma observePAT_ok strict section d :
  demux_ok strict d → admissible strict section → returns (observePAT section d) (observed strict d).
Proof.
  intros [Hb Hprog] Hsec. pose proof Hb as [G A P C Hp S]. unfold observePAT. destruct Hsec as [Hv Hq].
  apply safe_bind. eapply safe_mono.
  { apply (add_safe (admissible strict)); [apply Hv | pose proof (sv_min _ Hv); lia | done | by split]. }
  intros [[sections reset] ready] [Hst Hfull].
  set (d1 := if reset : bool then setPat None (setPatSections sections d) else setPatSections sections d).
  assert (demux_ok strict d1 ∧ observed strict d d1 ∧ d_patGeneration d1 = d_patGeneration d) as (Hok1 & Hobs1 & Hg1).
  { assert (demux_ok strict (setPatSections sections d)) as H1 by (split; [by split | done]).
    unfold d1. destruct reset; [| by split; [| split; [apply observed_same |]]].
    assert (demux_ok strict (setPat None (setPatSections sections d))) as H2.
    { split; [by split |]. split; [done | apply Hprog]. }
    split; [done |]. split; [| done]. split; [done |]. split; [cbn; lia |]. intros _ _.
    assert (advances d (setPat None (setPatSections sections d))) as Ha by (split; [cbn; lia | done]).
    split; [done |]. intros H. eapply map_Forall_impl; [exact H |]. intros i x. by apply synced_advances. }
  destruct ready; cbn [negb]; [| exact Hobs1].
  pose proof (ordered_stored _ _ Hst (Hfull eq_refl)) as Hord.
  pose proof (caught_returns _ _ _ (combined_safe strict _ Hord)) as Hcomb.
  apply safe_bind. eapply safe_mono; [exact Hcomb |]. clear Hcomb. intros [combined |] Hcomb; [| exact Hobs1].
  destruct (Hcomb combined eq_refl) as [Hco Hcn].
  eapply safe_mono; [by apply installPAT_ok |]. intros d' Hd'. by apply (observed_trans _ _ d1).
Qed.

Lemma observeCAT_ok strict section d :
  demux_ok strict d → section_valid section → returns (observeCAT section d) (observed strict d).
Proof.
  intros Hd Hv. pose proof Hd as [[G A P C Hp S] Hprog]. unfold observeCAT.
  pose proof (sv_min _ Hv) as Hmin. pose proof (observed_refl strict d Hd) as Hrefl.
  destruct (Z.ltb_spec (len section) 12) as [| H12]; [exact Hrefl |]. run.
  rewrite overruns_ret, (sv_total _ Hv), Z.ltb_irrefl by lia. run.
  rewrite section_valid_ValidateCRC by done. run. apply safe_bind. eapply safe_mono.
  { apply (add_safe (λ s, section_valid s ∧ 12 ≤ len s)); [apply Hv | lia | done | by split]. }
  intros [[sections reset] ready] [Hst Hfull].
  assert (demux_ok strict (setCatSections sections d)) as H1 by (split; [by split | done]).
  destruct ready; cbn [negb]; [| by apply observed_same].
  pose proof (ordered_stored _ _ Hst (Hfull eq_refl)) as Hord.
  apply safe_bind. eapply (safe_mono _ (λ _, True)).
  - apply safe_foldM; [done |]. intros emm s _ Hin. rewrite Forall_forall in Hord.
    destruct (Hord s Hin) as [Hvs Hls]. rewrite TotalLength_ret, (sv_total _ Hvs) by lia. run.
    apply safe_bind, safe_slice; [lia | lia |]. intros _.
    apply safe_bind, ParseDescriptors_ends; [by apply bytes_ok_sub, Hvs |]. intros descs [Hdescs _].
    by rewrite fold_addCA.
  - intros emm _. by apply observed_same.
Qed.

(** ** PMTs *)

Lemma ParsePMT_descs s pmt :
  bytes_ok s → ParsePMT s = Ret pmt →
  Forall desc_ok (pmt_Descriptors pmt) ∧ Forall (λ elem, Forall desc_ok (el_Descriptors elem)) (pmt_Elements pmt).
Proof.
  intros Hs E. pose proof (ParsePMT_safe s Hs) as H. rewrite E in H. destruct H as (_ & [H1 _] & H2).
  split; [done |]. eapply Forall_impl; [exact H2 |]. by intros e (_ & _ & _ & [? _]).
Qed.

Lemma elem_of_program_sections (ps : gmap Z demuxProgram) pid :
  pid ∈ ⋃ (dp_sectionPIDs <$> (map_to_list ps).*2) ↔
  ∃ sid program, ps !! sid = Some program ∧ pid ∈ dp_sectionPIDs program.
Proof.
  rewrite elem_of_union_list. split.
  - intros (X & (program & -> & ([sid program'] & -> & Hin)%list_elem_of_fmap)%list_elem_of_fmap & Hpid).
    apply elem_of_map_to_list in Hin. by exists sid, program'.
  - intros (sid & program & Hl & Hpid). exists (dp_sectionPIDs program). split; [| done].
    apply (list_elem_of_fmap_2 dp_sectionPIDs), (list_elem_of_fmap_2 snd _ (sid, program)).
    by apply elem_of_map_to_list.
Qed.

(** A PMT of its programme gives it the PIDs it lists. *)
Lemma observePMT_ret serviceID section d pmt program :
  bytes_ok section → ParsePMT section = Ret pmt → pmt_ProgramNumber pmt = serviceID →
  d_programs d !! serviceID = Some program →
  observePMT serviceID section d =
    Ret (rebuildSectionPIDs (setPrograms (<[serviceID :=
           MkProgram (dp_pmtPID program) (pmtPIDs pmt) (pmtSectionPIDs pmt)]> (d_programs d)) d)).
Proof.
  intros Hs E <- Hp. destruct (ParsePMT_descs section pmt Hs E) as [H1 H2].
  unfold observePMT. rewrite E. run. rewrite Z.eqb_refl, Hp. cbn [negb].
  rewrite fold_addCA by done. run. rewrite fold_elements by done. run.
  assert (⋃ ((λ elem, {[ElementaryPID elem]} ∪ caSets (el_Descriptors elem)) <$> pmt_Elements pmt) ∪
    (caSets (pmt_Descriptors pmt) ∪ (if pmt_PCRPID pmt =? PIDNull then ∅ else {[pmt_PCRPID pmt]})) =
    pmtPIDs pmt) as ->.
  { unfold pmtPIDs. by rewrite (union_comm_L (caSets _)), (union_comm_L (⋃ _)). }
  by rewrite union_empty_r_L.
Qed.

Lemma rebuildSectionPIDs_ok strict d : demux_ok strict d → demux_ok strict (rebuildSectionPIDs d).
Proof. intros [[G A P C Hp S] Hprog]. split; [split; try done; by apply map_Forall_deleteWhere | done]. Qed.

Lemma observePMT_ok strict serviceID section d :
  demux_ok strict d → bytes_ok section → returns (observePMT serviceID section d) (observed strict d).
Proof.
  intros Hd Hs. pose proof (observed_refl strict d Hd) as Hrefl. pose proof (ParsePMT_safe section Hs) as Hsafe.
  destruct (ParsePMT section) as [pmt | e | |] eqn:E; try done; [| unfold observePMT; by rewrite E].
  destruct (Z.eqb_spec (pmt_ProgramNumber pmt) serviceID) as [Hn | Hn]; cycle 1.
  { unfold observePMT. rewrite E. run. by rewrite (proj2 (Z.eqb_neq _ _) Hn). }
  destruct (d_programs d !! serviceID) as [program |] eqn:Hp; cycle 1.
  { unfold observePMT. rewrite E. run. by rewrite Hn, Z.eqb_refl, Hp. }
  rewrite (observePMT_ret _ _ _ pmt program) by done. apply observed_same; try done.
  apply rebuildSectionPIDs_ok. pose proof Hd as [Hb [Hp1 Hp2]]. split; [by apply demux_base_programs |].
  assert (∀ sid, dp_pmtPID <$> <[serviceID := MkProgram (dp_pmtPID program) (pmtPIDs pmt) (pmtSectionPIDs pmt)]>
    (d_programs d) !! sid = dp_pmtPID <$> d_programs d !! sid) as Hsame.
  { intros sid. destruct (decide (sid = serviceID)) as [-> | ?];
      [by rewrite lookup_insert_eq, Hp | by rewrite lookup_insert_ne]. }
  split; cbn; [intros pat Hpat sid; rewrite Hsame; by apply Hp1 | intros pid sid Hpid; rewrite Hsame; by apply Hp2].
Qed.

(** ** Whole packets *)

Lemma observeSection_ok strict pid section d :
  demux_ok strict d → admissible strict section → returns (observeSection pid d section) (observed strict d).
Proof.
  intros Hd Hs. pose proof (observed_refl strict d Hd). pose proof (proj1 Hs) as Hv.
  unfold observeSection, TableID. rewrite idx_byteAt by (pose proof (sv_min _ Hv); lia). run.
  destruct (_ =? TableIDPAT); [destruct (_ =? _); [by apply observePAT_ok | done] |].
  destruct (_ =? TableIDCAT); [destruct (_ =? _); [by apply observeCAT_ok | done] |].
  destruct (_ =? TableIDPMT); [| done]. destruct (d_pmtByPID d !! pid); [| done].
  by apply observePMT_ok, Hv.
Qed.

Lemma unusable_ret packet : bytes_ok packet → ∃ b, unusable packet = Ret b ∧ (b = false → packet_ok packet).
Proof.
  intros Hb. unfold unusable. destruct (Z.eqb_spec (len packet) PacketSize) as [Hl | Hl]; cbn [negb]; run;
    [| by exists true].
  assert (packet_ok packet) as Hp by by split.
  autorewrite with packet; [| done ..]. run. destruct (bit _ _); run; [by exists true |].
  destruct (pidOf packet =? _); run; [by exists true |]. eauto.
Qed.

(** Observing the sections of one packet. *)
Lemma observeSections_ok strict pid sections d :
  demux_ok strict d → Forall (admissible strict) sections →
  returns (foldM (observeSection pid) sections d) (λ d', demux_ok strict d' ∧
    (strict = true → d_patGeneration d + len sections < 2 ^ 64 →
     advances d d' ∧ (services_synced d → services_synced d'))).
Proof.
  intros Hd Hs. eapply safe_mono.
  - apply (safe_foldM_prefix (λ k d', demux_ok strict d' ∧ d_patGeneration d' ≤ d_patGeneration d + len k ∧
      (strict = true → d_patGeneration d + len k < 2 ^ 64 →
       advances d d' ∧ (services_synced d → services_synced d')))).
    + split; [done |]. split; [change (len []) with 0; lia |]. intros _ _. split; [apply advances_refl | done].
    + intros k s d' (Hd' & Hg & Hk) [r Hr]. rewrite len_app. change (len [s]) with 1.
      assert (admissible strict s) as Hadm.
      { rewrite Forall_forall in Hs. apply Hs. rewrite Hr. set_solver. }
      eapply safe_mono; [by apply observeSection_ok |]. intros d'' (Hd'' & Hg' & Hstep).
      split; [done |]. split; [lia |]. intros Hstrict Hw. destruct (Hk Hstrict) as [Ha Hsy]; [lia |].
      destruct (Hstep Hstrict) as [Ha' Hsy']; [lia |]. split; [by eapply advances_trans | auto].
  - intros d' (Hd' & _ & Hk). by split.
Qed.

(** What a packet does: its assembler emits valid sections, which are observed. *)
Lemma FeedWithPID_shape strict packet d :
  demux_ok strict d → bytes_ok packet →
  ∃ d0 sections, demux_ok strict d0 ∧ d_pat d0 = d_pat d ∧ d_patGeneration d0 = d_patGeneration d ∧
    d_services d0 = d_services d ∧ Forall section_valid sections ∧
    FeedWithPID packet d = (d' ← foldM (observeSection (pidOf packet)) sections d0;
                            Ret (d', map (MkPIDSection (pidOf packet)) sections)).
Proof.
  intros Hd Hb. destruct (unusable_ret packet Hb) as (skip & E & Hp). unfold FeedWithPID. rewrite E. run.
  destruct skip; [by exists d, [] |]. specialize (Hp eq_refl). rewrite PID_full by done. run.
  destruct (shouldAssemble d (pidOf packet)); cbn [negb]; [| by exists d, []].
  set (sa := default _ _). pose proof Hd as [[G A P C Hpo S] Hprog].
  assert (asm_ok sa ∧ sa_pid sa = pidOf packet) as [Ha Hpid].
  { unfold sa. destruct (d_assemblers d !! pidOf packet) as [sa' |] eqn:Ea; cbn; [by apply (A _ _ Ea) |].
    split; [apply NewSectionAssembler_ok | done]. }
  pose proof (FeedAll_safe sa packet Ha Hp) as Hsafe.
  destruct (FeedAll sa packet) as [[sa' sections] | | |]; try done.
  destruct Hsafe as (Ha' & Hv & Hpid'). run. cbn in *.
  exists (setAssemblers (<[pidOf packet := sa']> (d_assemblers d)) d), sections.
  split_and!; try done. split; [split; try done | done].
  apply map_Forall_insert_2; [split; [done | congruence] | done].
Qed.

Lemma FeedWithPID_safe strict packet d :
  demux_ok strict d → bytes_ok packet → (strict = false) →
  returns (FeedWithPID packet d) (λ '(d', out), demux_ok strict d' ∧
    Forall (λ s, section_valid (ps_Section s) ∧ ps_PID s = pidOf packet) out).
Proof.
  intros Hd Hb ->. destruct (FeedWithPID_shape false packet d Hd Hb) as (d0 & sections & Hd0 & _ & _ & _ & Hv & ->).
  apply safe_bind. eapply safe_mono.
  - apply observeSections_ok; [done |]. eapply Forall_impl; [exact Hv | by intros s Hs; split].
  - intros d' [Hd' _]. split; [done |]. apply Forall_map. eapply Forall_impl; [exact Hv | done].
Qed.

Lemma FeedWithPID_step packet d d' out :
  demux_ok true d → bytes_ok packet → FeedWithPID packet d = Ret (d', out) →
  Forall (λ s, admissible true (ps_Section s)) out → d_patGeneration d + len out < 2 ^ 64 →
  demux_ok true d' ∧ advances d d' ∧ (services_synced d → services_synced d').
Proof.
  intros Hd Hb E Hadm Hw.
  destruct (FeedWithPID_shape true packet d Hd Hb) as (d0 & sections & Hd0 & Ep & Eg & Es & Hv & E').
  rewrite E' in E. apply bind_Ret_inv in E as (d1 & Ef & [= <- <-]).
  rewrite Forall_map in Hadm. unfold len in Hw. rewrite length_map in Hw. fold (len sections) in Hw.
  pose proof (observeSections_ok true (pidOf packet) sections d0 Hd0 Hadm) as H. rewrite Ef in H.
  destruct H as [Hd1 H]. destruct (H eq_refl) as [Ha Hs]; [lia |].
  split; [done |]. split.
  - apply (advances_trans _ d0); [| done]. split; [lia | intros _ pat; congruence].
  - intros Hsync. apply Hs. unfold services_synced. rewrite Es.
    eapply map_Forall_impl; [exact Hsync |]. intros i x [Hg Hx]. split; [lia |].
    rewrite Eg, Ep. exact Hx.
Qed.

(** ** The packets of a view *)

Definition forwards (d : Demuxer) (sid pid : Z) : bool :=
  match d_programs d !! sid with
  | None => false
  | Some program => commonServicePID pid || (pid =? dp_pmtPID program) ||
                    bool_decide (pid ∈ dp_pids program) || bool_decide (pid ∈ d_catEMM d)
  end.

Lemma rebuild_if_stale strict sid d output :
  demux_ok strict d → out_ok output → is_Some (d_programs d !! sid) →
  returns (if out_generation output =? d_patGeneration d then Ret output else rebuildPATOutput sid d output)
    (λ output', out_ok output' ∧ (synced d sid output → synced d sid output') ∧
       out_patCounter output' = out_patCounter output ∧
       (synced d sid output → ∀ pat pmtPID, d_pat d = Some pat → pat_Programs pat !! sid = Some pmtPID →
          out_patPackets output' = [patPacket pat sid pmtPID])).
Proof.
  intros Hd Ho Hprog. destruct (Z.eqb_spec (out_generation output) (d_patGeneration d)) as [E | E].
  - split_and!; try done. intros [_ Hs]. by apply Hs.
  - eapply safe_mono; [apply (rebuildPATOutput_ok strict); [apply Hd | done] |].
    intros output' (Ho' & Hsync & Hc & Hb). split_and!; try done.
    + intros Hs. apply Hsync; [apply Hs | done].
    + intros _ pat pmtPID Hp Hl. by rewrite (Hb pat pmtPID Hp Hl).
Qed.

(** Whatever the packet and the state of the view, it is answered with itself,
    with a PAT packet of the view, or with nothing. *)
Lemma servicePacket_ok strict sid d output packet :
  demux_ok strict d → out_ok output → bytes_ok packet →
  returns (servicePacket sid d output packet) (λ '(output', r),
    out_ok output' ∧ (synced d sid output → synced d sid output') ∧ (∀ q, r = Some q → packet_ok q) ∧
    (unusable packet = Ret false → pidOf packet ≠ PIDPAT →
     r = if forwards d sid (pidOf packet) then Some packet else None)).
Proof.
  intros Hd Ho Hb. destruct (unusable_ret packet Hb) as (skip & E & Hp). unfold servicePacket, forwards.
  rewrite E. run. destruct skip; [by split_and! |]. specialize (Hp eq_refl).
  destruct (d_programs d !! sid) as [program |] eqn:Eprog; [| by split_and!].
  apply safe_bind. eapply safe_mono; [apply (rebuild_if_stale strict); [done | done | by exists program] |].
  intros out1 (Ho1 & Hs1 & Hc1 & _). rewrite PID_full by done. run.
  destruct (Z.eqb_spec (pidOf packet) PIDPAT) as [Epat | Epat]; cycle 1.
  - destruct (_ || bool_decide (pidOf packet ∈ d_catEMM d)); split_and!; try done.
    by intros q [= <-].
  - destruct Ho1 as [Hi [Hnil | (s & Hone & Hv & Hl)]].
    { rewrite Hnil. split_and!; try done. split; [done | by left]. }
    rewrite Hi, Hone. change (len [built PIDPAT 0 true s]) with 1. cbn [Z.eqb Pos.eqb].
    change (idx [built PIDPAT 0 true s] 0) with (Ret (built PIDPAT 0 true s)). run.
    assert (∀ c, packet_ok (built PIDPAT c true s)) as Hok.
    { intros c. apply (built_facts PIDPAT c true s); [done | apply Hv]. }
    rewrite (idx_byteAt (built PIDPAT 0 true s) 3) by (rewrite (proj2 (Hok 0)); done). run.
    rewrite built_counter. split_and!; try done.
    + split; [done |]. right. by exists s.
    + intros Hs. destruct (Hs1 Hs) as [G K]. split; [exact G |].
      intros Eg pat' pmt' Hp' Hl'. etrans; [symmetry; exact Hone | exact (K Eg pat' pmt' Hp' Hl')].
    + by intros q [= <-].
Qed.

(** A PAT packet, when the PAT is complete. *)
Lemma servicePacket_pat sid d output packet pat program :
  demux_ok true d → out_ok output → synced d sid output → unusable packet = Ret false → packet_ok packet →
  pidOf packet = PIDPAT → d_pat d = Some pat → d_programs d !! sid = Some program →
  ∃ output', servicePacket sid d output packet = Ret (output', Some (
      built PIDPAT (out_patCounter output) true
        (patSection (pat_TransportStreamID pat) (pat_VersionNumber pat) 0 0 [(sid, dp_pmtPID program)]))) ∧
    out_patCounter output' = Z.land (u8 (out_patCounter output + 1)) 0x0f.
Proof.
  intros Hd Ho Hs E Hp Epat Hpat Hprog. unfold servicePacket. rewrite E, Hprog. run.
  pose proof (rebuild_if_stale true sid d output Hd Ho ltac:(by exists program)) as H.
  destruct (if out_generation output =? d_patGeneration d then Ret output else rebuildPATOutput sid d output) as [out1 | | |]; try done. destruct H as (Ho1 & _ & Hc1 & Hnew). run.
  rewrite PID_full by done. run. rewrite Epat. cbn [Z.eqb PIDPAT].
  pose proof (proj1 (proj2 Hd) pat Hpat sid) as Hl. rewrite Hprog in Hl. symmetry in Hl.
  specialize (Hnew Hs pat _ Hpat Hl). destruct Ho1 as [Hi _]. rewrite Hnew, Hi. unfold patPacket.
  set (s := patSection _ _ _ _ _). change (len [_]) with 1. cbn [Z.eqb Pos.eqb].
  change (idx [built PIDPAT 0 true s] 0) with (Ret (built PIDPAT 0 true s)). run.
  rewrite (idx_byteAt (built PIDPAT 0 true s) 3) by done. run.
  rewrite built_counter, Hc1. eexists. split; [done |]. done.
Qed.

(** ** Reachable states *)

(** A demultiplexer and the views created on it; with [strict] the stream obeys
    the conditions of [admissible] and the PAT generation does not wrap. *)
Inductive demux_reachable (strict : bool) : Demuxer → list ServiceDemux → Prop :=
| reach_NewDemuxer : demux_reachable strict NewDemuxer []
| reach_Feed d views packet d' out :
    demux_reachable strict d views → bytes_ok packet → FeedWithPID packet d = Ret (d', out) →
    (strict = true → Forall (λ s, admissible true (ps_Section s)) out ∧
                     d_patGeneration d + len out < 2 ^ 64) →
    demux_reachable strict d' views
| reach_Service d views sid : demux_reachable strict d views → demux_reachable strict d (views ++ [Service sid])
| reach_Packet d views i view packet view' r :
    demux_reachable strict d views → views !! i = Some view → bytes_ok packet →
    ViewPacket d packet view = Ret (view', r) → demux_reachable strict d (<[i := view']> views)
| reach_ServicePacket d views sid packet d' r :
    demux_reachable strict d views → bytes_ok packet → ServicePacket sid packet d = Ret (d', r) →
    demux_reachable strict d' views.

Definition view_ok (strict : bool) (d : Demuxer) (view : ServiceDemux) : Prop :=
  out_ok (sd_output view) ∧ (strict = true → synced d (sd_serviceID view) (sd_output view)).

(** A PAT has a generation. *)
Definition started (d : Demuxer) : Prop := d_pat d ≠ None → 0 < d_patGeneration d.

Definition world_ok (strict : bool) (d : Demuxer) (views : list ServiceDemux) : Prop :=
  demux_ok strict d ∧ Forall (view_ok strict d) views ∧
  (strict = true → services_synced d ∧ started d).

Lemma newOutput_synced d sid : demux_ok true d → started d → synced d sid newOutput.
Proof.
  intros [Hb _] Hs. pose proof (dk_generation _ _ Hb) as G. split; [exact G |]. cbn. intros E pat pmt Hpat.
  unfold started in Hs. rewrite Hpat in Hs. specialize (Hs ltac:(done)). lia.
Qed.

Lemma started_advances d d' : demux_ok true d → started d → advances d d' → started d'.
Proof.
  intros [Hb _] Hs [G P] Hpat. pose proof (dk_generation _ _ Hb) as G0.
  destruct (d_pat d') as [pat |] eqn:E; [| done].
  destruct (decide (d_patGeneration d' = d_patGeneration d)) as [Eg | Eg]; [| lia].
  rewrite Eg. apply Hs. by rewrite (P Eg pat eq_refl).
Qed.
Lemma view_advances strict d d' view :
  (strict = true → advances d d') → view_ok strict d view → view_ok strict d' view.
Proof. intros Ha [Ho Hs]. split; [done |]. intros H. apply (synced_advances d); auto. Qed.

Lemma serviceOutput_ok strict sid d :
  demux_ok strict d →
  returns (serviceOutput sid d) (λ '(d', output), demux_ok strict d' ∧ out_ok output ∧ only_services d d' ∧
    (strict = true → services_synced d ∧ started d → services_synced d' ∧ synced d' sid output)).
Proof.
  intros Hd. unfold serviceOutput. destruct (d_services d !! sid) as [output |] eqn:E.
  - pose proof (dk_services _ _ (proj1 Hd) _ _ E) as Ho. split_and!; [done | done | by destruct d |].
    intros _ [Hs _]. split; [done |]. by apply Hs.
  - set (d0 := setServices (<[sid := newOutput]> (d_services d)) d).
    assert (demux_ok strict d0) as Hd0.
    { split; [| exact (proj2 Hd)]. apply demux_base_services; [apply Hd |].
      apply map_Forall_insert_2; [apply newOutput_ok | apply Hd]. }
    apply safe_bind. eapply safe_mono; [apply rebuildPAT_ok; exact (proj1 Hd0) |].
    intros d1 (Hb1 & Ho1 & Hne & Heq).
    assert (demux_ok strict d1) as Hd1 by (split; [done |]; rewrite Ho1; exact (proj2 Hd)).
    split; [done |]. split; [| split].
    + destruct (d_services d1 !! sid) as [output |] eqn:E1; [| apply newOutput_ok].
      exact (dk_services _ _ Hb1 _ _ E1).
    + unfold only_services. rewrite Ho1. by destruct d.
    + intros Hstrict [Hsync Hstart]. rewrite Hstrict in *.
      assert (services_synced d0) as H0.
      { apply map_Forall_insert_2; [by apply newOutput_synced | exact Hsync]. }
      assert (services_synced d1) as H1.
      { intros i output Hi. rewrite Ho1. destruct (decide (i = sid)) as [-> | Hi'].
        - destruct (Heq output Hi) as [Hi0 | Hr]; [by apply (H0 sid) |]. by apply (rebuilt_synced d0).
        - rewrite Hne in Hi by done. by apply (H0 i). }
      split; [done |]. destruct (d_services d1 !! sid) as [output |] eqn:E1; [by apply H1 |].
      apply newOutput_synced; [done |]. rewrite Ho1. exact Hstart.
Qed.

Lemma ServicePacket_ok strict sid packet d :
  demux_ok strict d → bytes_ok packet → (strict = true → services_synced d ∧ started d) →
  returns (ServicePacket sid packet d) (λ '(d', r), demux_ok strict d' ∧ only_services d d' ∧
    (strict = true → services_synced d') ∧ ∀ q, r = Some q → packet_ok q).
Proof.
  intros Hd Hb Hs. unfold ServicePacket. apply safe_bind.
  eapply safe_mono; [by apply serviceOutput_ok |]. intros [d1 output] (Hd1 & Ho & Hsame & Hsync).
  apply safe_bind. eapply safe_mono; [by apply (servicePacket_ok strict) |].
  intros [output' r] (Ho' & Hs' & Hq & _). split; [| split; [| split]].
  - split; [| exact (proj2 Hd1)]. apply demux_base_services; [apply Hd1 |].
    apply map_Forall_insert_2; [done | apply Hd1].
  - unfold only_services. rewrite Hsame. by destruct d.
  - intros Hstrict. destruct (Hsync Hstrict (Hs Hstrict)) as [H1 H2].
    apply map_Forall_insert_2; [by apply Hs' | exact H1].
  - exact Hq.
Qed.

Lemma world_reachable strict d views : demux_reachable strict d views → world_ok strict d views.
Proof.
  induction 1 as [| d views packet d' out _ (Hd & Hv & Hs) Hb E Hstrict | d views sid _ (Hd & Hv & Hs)
    | d views i view packet view' r _ (Hd & Hv & Hs) Hi Hb E | d views sid packet d' r _ (Hd & Hv & Hs) Hb E].
  - split; [| split; [apply Forall_nil_2 | intros _; split; [apply map_Forall_empty | by intros []]]].
    split; [split; [apply Z.le_refl | apply map_Forall_empty | apply stored_empty | apply stored_empty | done
      | apply map_Forall_empty] | split].
    + done.
    + intros pid sid Hp. cbn in Hp. by rewrite lookup_empty in Hp.
  - destruct strict.
    + destruct (Hstrict eq_refl) as [Hadm Hw], (Hs eq_refl) as [Hsync Hstart].
      destruct (FeedWithPID_step packet d d' out Hd Hb E Hadm Hw) as (Hd' & Ha & Hss).
      split; [done |]. split; [| intros _; split; [by apply Hss | by apply (started_advances d)]].
      eapply Forall_impl; [exact Hv |]. intros v. by apply view_advances.
    + pose proof (FeedWithPID_safe false packet d Hd Hb eq_refl) as H. rewrite E in H. destruct H as [Hd' _].
      split; [done |]. split; [| done]. eapply Forall_impl; [exact Hv |]. intros v. by apply view_advances.
  - split; [done |]. split; [| done]. apply Forall_snoc; [done |]. split; [apply newOutput_ok |].
    intros ->. apply newOutput_synced; [done | by apply Hs].
  - split; [done |]. split; [| done]. apply Forall_insert; [done |].
    rewrite Forall_lookup in Hv. destruct (Hv i view Hi) as [Ho Hsy].
    pose proof (servicePacket_ok strict (sd_serviceID view) d (sd_output view) packet Hd Ho Hb) as H.
    unfold ViewPacket in E. destruct (servicePacket _ _ _ _) as [[output' r'] | | |]; try done.
    injection E as <- <-. destruct H as (Ho' & Hs' & _). split; [done |]. intros Hst. by apply Hs', Hsy.
  - pose proof (ServicePacket_ok strict sid packet d Hd Hb Hs) as H. rewrite E in H.
    destruct H as (Hd' & Ho' & Hs' & _). split; [done |].
    assert (advances d d') as Ha by (rewrite Ho'; by split). split.
    + eapply Forall_impl; [exact Hv |]. intros v. by apply view_advances.
    + intros Hst. split; [by apply Hs' |]. rewrite Ho'. exact (proj2 (Hs Hst)).
Qed.
(** ** Properties *)

(** C6 (Demuxer.FeedWithPID, ServicePacket, ServiceDemux.Packet): whatever bytes
    are fed and however the calls interleave, no operation panics or runs
    forever (the panic of rebuildPATOutput is unreachable); every section
    returned is complete, has a correct checksum and carries the PID of the
    packet; every packet emitted for a service has 188 bytes. *)
Theorem demux_total d views packet view sid :
  demux_reachable false d views → bytes_ok packet → view ∈ views →
  returns (FeedWithPID packet d) (λ '(d', sections), demux_reachable false d' views ∧
    Forall (λ s, section_valid (ps_Section s) ∧ ps_PID s = pidOf packet) sections) ∧
  returns (ServicePacket sid packet d) (λ '(_, r), ∀ q, r = Some q → packet_ok q) ∧
  returns (ViewPacket d packet view) (λ '(_, r), ∀ q, r = Some q → packet_ok q).
Proof.
  intros Hr Hb Hin. destruct (world_reachable _ _ _ Hr) as (Hd & Hv & _).
  rewrite Forall_forall in Hv. destruct (Hv view Hin) as [Ho _]. split_and!.
  - pose proof (FeedWithPID_safe false packet d Hd Hb eq_refl) as H.
    destruct (FeedWithPID packet d) as [[d' out] | | |] eqn:E; try done. destruct H as [_ H].
    split; [| exact H]. eapply reach_Feed; [exact Hr | done | exact E | done].
  - eapply safe_mono; [by apply (ServicePacket_ok false) |]. by intros [d' r] (_ & _ & _ & H).
  - unfold ViewPacket. apply safe_bind. eapply safe_mono; [by apply (servicePacket_ok false) |].
    by intros [output r] (_ & _ & H & _).
Qed.

(** C3 (ServiceDemux.Packet, Demuxer.servicePacket): of a stream whose PATs give no
    programme the PMT PID 0 - a PAT that does is taken for one that lacks the
    programme, see [samePAT_missing_is_zero] - and as long as the 64-bit generation of
    the PAT has not wrapped around: while a complete PAT is current, every PAT packet of the stream is replaced, for a view of a listed
    service, by one packet that an assembler in any state turns into the PAT
    whose only programme is that service with the PMT PID the view forwards;
    the continuity counters of a view's PAT packets follow each other modulo 16. *)
Theorem service_pat d views i view packet pat :
  demux_reachable true d views → views !! i = Some view → HasService d (sd_serviceID view) = true →
  d_pat d = Some pat → packet_ok packet → unusable packet = Ret false → pidOf packet = PIDPAT →
  ∃ view' q s program,
    ViewPacket d packet view = Ret (view', Some q) ∧
    d_programs d !! sd_serviceID view = Some program ∧
    ContinuityCounter q = Ret (Z.land (out_patCounter (sd_output view)) 0x0f) ∧
    out_patCounter (sd_output view') = Z.land (u8 (out_patCounter (sd_output view) + 1)) 0x0f ∧
    (∀ sa, sa_pid sa = PIDPAT → returns (FeedAll sa q) (λ '(_, sections), sections = [s])) ∧
    ParsePAT s = Ret (MkPAT (pat_TransportStreamID pat) (pat_VersionNumber pat) 0
                        {[sd_serviceID view := dp_pmtPID program]}).
Proof.
  intros Hr Hi Hhas Hpat Hp E Epat. destruct (world_reachable _ _ _ Hr) as (Hd & Hv & _).
  rewrite Forall_lookup in Hv. destruct (Hv i view Hi) as [Ho Hs]. specialize (Hs eq_refl).
  unfold HasService in Hhas. apply bool_decide_eq_true in Hhas as [program Hprog].
  destruct (servicePacket_pat _ d (sd_output view) packet pat program Hd Ho Hs E Hp Epat Hpat Hprog)
    as (output' & Ecall & Hc).
  destruct (dk_pat _ _ (proj1 Hd) pat Hpat) as [(Ht & Hver & _ & Hzero & Hpids) _].
  pose proof (proj1 (proj2 Hd) pat Hpat (sd_serviceID view)) as Hl. rewrite Hprog in Hl. symmetry in Hl.
  cbn in Hl. destruct (Hpids _ _ Hl) as [Hsid Hpid].
  assert (sd_serviceID view ≠ 0) as Hnz by congruence.
  destruct (patSection_single (pat_TransportStreamID pat) (sd_serviceID view) (dp_pmtPID program)
    (pat_VersionNumber pat)) as (Hval & Hlen & H0 & Hparse); try done.
  set (s := patSection _ _ _ _ _) in *. set (c := out_patCounter (sd_output view)) in *.
  destruct (built_facts PIDPAT c true s ltac:(done) (sv_bytes _ Hval)) as (Hok & _ & _ & _ & _ & Hcc & _).
  exists (MkServiceDemux output' (sd_serviceID view)), (built PIDPAT c true s), s, program.
  split_and!; [unfold ViewPacket; by rewrite Ecall | done | | done | | exact Hparse].
  - rewrite ContinuityCounter_full by done. by rewrite Hcc.
  - intros sa Hsa. rewrite feed_start by (done || apply Hval).
    assert (length s ≤ 183)%nat as Hshort by (unfold len in Hlen; lia).
    rewrite take_ge, consume_short by (done || lia || by rewrite H0). done.
Qed.

(** A packet that is not a PAT packet is forwarded
    unchanged exactly when its PID is one of the common tables, the service's
    PMT, a PID its PMT lists, or an EMM PID of the CAT. *)
Theorem service_filter d views view packet :
  demux_reachable false d views → view ∈ views → bytes_ok packet →
  unusable packet = Ret false → pidOf packet ≠ PIDPAT →
  returns (ViewPacket d packet view) (λ '(_, r),
    r = if forwards d (sd_serviceID view) (pidOf packet) then Some packet else None).
Proof.
  intros Hr Hin Hb E Hne. destruct (world_reachable _ _ _ Hr) as (Hd & Hv & _).
  rewrite Forall_forall in Hv. destruct (Hv view Hin) as [Ho _].
  unfold ViewPacket. apply safe_bind. eapply safe_mono; [by apply (servicePacket_ok false) |].
  intros [output r] (_ & _ & _ & H). by apply H.
Qed.

(** A PMT of a
    listed service makes the service's views forward exactly its PCR, CA and
    elementary PIDs (besides the common ones), leaves the other services
    alone, and the PIDs assembled into sections become those that some
    programme's PMT lists with a DSM-CC stream type. *)
Theorem observePMT_follows serviceID section d pmt program :
  bytes_ok section → ParsePMT section = Ret pmt → pmt_ProgramNumber pmt = serviceID →
  d_programs d !! serviceID = Some program →
  returns (observePMT serviceID section d) (λ d',
    (∀ pid, forwards d' serviceID pid = true ↔
       commonServicePID pid = true ∨ pid = dp_pmtPID program ∨ pid ∈ pmtPIDs pmt ∨ pid ∈ d_catEMM d) ∧
    (∀ sid pid, sid ≠ serviceID → forwards d' sid pid = forwards d sid pid) ∧
    (∀ pid, pid ∈ d_sectionPIDs d' ↔ pid ∈ pmtSectionPIDs pmt ∨
       ∃ sid other, sid ≠ serviceID ∧ d_programs d !! sid = Some other ∧ pid ∈ dp_sectionPIDs other) ∧
    (∀ pid, d_assemblers d' !! pid =
       if bool_decide (pid ∈ d_sectionPIDs d) && bool_decide (pid ∉ d_sectionPIDs d') then None
       else d_assemblers d !! pid)).
Proof.
  intros Hs E Hn Hp. rewrite (observePMT_ret _ _ _ _ _ Hs E Hn Hp). unfold returns, forwards.
  cbn [d_programs d_catEMM rebuildSectionPIDs setSectionPIDs setAssemblers setPrograms d_sectionPIDs d_assemblers].
  split_and!.
  - intros pid. rewrite lookup_insert_eq. cbn [dp_pmtPID dp_pids].
    rewrite !orb_true_iff, !bool_decide_eq_true, Z.eqb_eq. tauto.
  - intros sid pid Hne. by rewrite lookup_insert_ne.
  - intros pid. rewrite elem_of_program_sections. split.
    + intros (sid & other & [[<- <-] | [Hne Hl]]%lookup_insert_Some & Hpid); [by left | right].
      exists sid, other. split; [done |]. by split.
    + intros [Hpid | (sid & other & Hne & Hl & Hpid)].
      * eexists serviceID, _. split; [apply lookup_insert_eq | done].
      * exists sid, other. by rewrite lookup_insert_ne.
  - intros pid. by rewrite lookup_deleteWhere.
Qed.

End Observing.

(** ** A stream with one service *)

#[local] Instance sampleProgramOrder : RangeOrder Z := keyOrder.

Definition samplePAT : SectionBytes := patSection 0x7fe1 3 0 0 [(0x418, 0x1f0)].
Definition samplePATPacket : Packet := built PIDPAT 5 true samplePAT.

Definition sampleDemux : Demuxer :=
  match FeedWithPID samplePATPacket NewDemuxer with Ret (d, _) => d | _ => NewDemuxer end.

Lemma samplePAT_valid : section_valid samplePAT ∧
  ParsePAT samplePAT = Ret (MkPAT 0x7fe1 3 0 {[0x418 := 0x1f0]}).
Proof.
  destruct (patSection_single 0x7fe1 0x418 0x1f0 3) as (H1 & _ & _ & H2); unfold word16; try lia. by split.
Qed.

Lemma samplePATPacket_ok : packet_ok samplePATPacket.
Proof. split; [by apply bytes_okb_spec; vm_compute | done]. Qed.

Lemma sampleFeed : FeedWithPID samplePATPacket NewDemuxer = Ret (sampleDemux, [MkPIDSection 0 samplePAT]).
Proof. by vm_compute. Qed.

Lemma sampleDemux_reachable strict : demux_reachable strict sampleDemux [Service 0x418].
Proof.
  refine (reach_Service strict sampleDemux [] 0x418
    (reach_Feed strict NewDemuxer [] samplePATPacket sampleDemux [MkPIDSection 0 samplePAT]
       (reach_NewDemuxer strict) (proj1 samplePATPacket_ok) sampleFeed _)).
  - intros _. split; [| by vm_compute]. apply Forall_singleton. destruct samplePAT_valid as [Hv Hp].
    split; [exact Hv |]. intros _ pat E. cbn [ps_Section] in E. rewrite Hp in E. injection E as <-.
    by apply map_Forall_singleton.
Qed.

Lemma demux_total_witness :
  returns (ViewPacket sampleDemux samplePATPacket (Service 0x418)) (λ '(_, r), ∀ q, r = Some q → packet_ok q).
Proof.
  exact (proj2 (proj2 (demux_total sampleDemux [Service 0x418] samplePATPacket (Service 0x418) 0x418
    (sampleDemux_reachable false) (proj1 samplePATPacket_ok) (list_elem_of_here _ _)))).
Defined.

Lemma service_pat_witness :
  ∃ view' q s program,
    ViewPacket sampleDemux samplePATPacket (Service 0x418) = Ret (view', Some q) ∧
    d_programs sampleDemux !! 0x418 = Some program ∧
    ContinuityCounter q = Ret 0 ∧ out_patCounter (sd_output view') = 1 ∧
    (∀ sa, sa_pid sa = PIDPAT → returns (FeedAll sa q) (λ '(_, sections), sections = [s])) ∧
    ParsePAT s = Ret (MkPAT 0x7fe1 3 0 {[0x418 := dp_pmtPID program]}).
Proof.
  apply (service_pat sampleDemux [Service 0x418] 0 (Service 0x418) samplePATPacket
    (MkPAT 0x7fe1 3 0 {[0x418 := 0x1f0]})).
  - apply sampleDemux_reachable.
  - done.
  - by vm_compute.
  - by vm_compute.
  - apply samplePATPacket_ok.
  - by vm_compute.
  - by vm_compute.
Defined.

(** A packet of the PMT PID. *)
Definition samplePMTPacket : Packet := built 0x1f0 0 true (pmtSection 3 0 0 sample_pmt).

Lemma service_filter_witness :
  returns (ViewPacket sampleDemux samplePMTPacket (Service 0x418)) (λ '(_, r), r = Some samplePMTPacket).
Proof.
  apply (service_filter sampleDemux [Service 0x418] (Service 0x418) samplePMTPacket).
  - apply sampleDemux_reachable.
  - by left.
  - by apply bytes_okb_spec; vm_compute.
  - by vm_compute.
  - by vm_compute.
Defined.

Lemma observePMT_follows_witness :
  returns (observePMT 0x418 (pmtSection 3 0 0 sample_pmt) sampleDemux) (λ d',
    ∀ pid, forwards d' 0x418 pid = true ↔
      commonServicePID pid = true ∨ pid = 0x1f0 ∨ pid ∈ pmtPIDs sample_pmt ∨ pid ∈ d_catEMM sampleDemux).
Proof.
  eapply safe_mono.
  - apply (observePMT_follows 0x418 (pmtSection 3 0 0 sample_pmt) sampleDemux sample_pmt (MkProgram 0x1f0 ∅ ∅)).
    + by apply bytes_okb_spec; vm_compute.
    + by vm_compute.
    + done.
    + by vm_compute.
  - intros d' (H & _). exact H.
Defined.

(** [samePAT] takes a missing programme for one with PMT PID 0: these two
    different tables compare equal. *)
Lemma samePAT_missing_is_zero :
  samePAT (Some (MkPAT 0x7fe1 3 0 {[1 := 0]})) (Some (MkPAT 0x7fe1 3 0 {[2 := 0]})) = true.
Proof. by vm_compute. Qed.
