(* ===== verification/Dsmcc.v ===== *)
(** * DSM-CC messages ([ts/dsmcc_module_info.go], [dsmcc_stream.go],
      [logo_common.go])

    Download info indications (DII), download data blocks (DDB), the module
    information loop of a DII, and the stream descriptor sections. *)

From S2P Require Import Prelude Crc32 Packet Section AribTables Aribstr Descriptors Psi.

(** ** [logo_common.go]: DII and DDB *)

Record DSMCCModuleInfo : Type := MkModuleInfo {
  mi_ModuleID : Z;
  mi_ModuleSize : Z;
  mi_Version : Z;
  mi_Info : list Z
}.

Record DSMCCDII : Type := MkDII {
  dii_DownloadID : Z;
  dii_BlockSize : Z;
  dii_Modules : list DSMCCModuleInfo;
  dii_PrivateData : list Z
}.

Record DSMCCDDB : Type := MkDDB {
  ddb_DownloadID : Z;
  ddb_ModuleID : Z;
  ddb_ModuleVersion : Z;
  ddb_BlockNumber : Z;
  ddb_Data : list Z
}.

Definition dsmccMessageBody (s : SectionBytes) (messageID : Z) : outcome (list Z) :=
  n ← TotalLength s;
  let stop := n - 4 in
  errorIf (stop <? 20) ErrInvalidSection;;
  message ← s![8; stop];
  bad ← (Ret (len message <? 12) ||? (b ← message![0]; Ret (negb (b =? 0x11))) ||?
         (b ← message![1]; Ret (negb (b =? 0x03))) ||?
         (id ← get16 message 2; Ret (negb (id =? messageID))));
  errorIf bad ErrInvalidSection;;
  adaptationLen ← message![9];
  messageLen ← get16 message 10;
  let off := 12 + adaptationLen in
  errorIf ((len message <? off) || (len message <? off + messageLen)) ErrInvalidSection;;
  message![off; off + messageLen].

(** The module loop of a DII; it returns the modules and the offset after. *)
Fixpoint readModules (n : nat) (body : list Z) (off : Z) : outcome (list DSMCCModuleInfo * Z) :=
  match n with
  | O => Ret ([], off)
  | S n =>
      errorIf (len body <? off + 8) ErrInvalidSection;;
      id ← get16 body off;
      size ← get32 body (off + 2);
      version ← body![off + 6];
      infoLen ← body![off + 7];
      let off := off + 8 in
      errorIf (len body <? off + infoLen) ErrInvalidSection;;
      info ← body![off; off + infoLen];
      '(rest, last) ← readModules n body (off + infoLen);
      Ret (MkModuleInfo id size version info :: rest, last)
  end.

Definition ParseDSMCCDII (s : SectionBytes) : outcome DSMCCDII :=
  bad ← rejects 23 (λ t, t =? TableIDDSMCCDII) s;
  errorIf bad ErrInvalidSection;;
  body ← dsmccMessageBody s 0x1002;
  errorIf (len body <? 18) ErrInvalidSection;;
  downloadID ← get32 body 0;
  blockSize ← get16 body 4;
  compatLen ← get16 body 16;
  let off := 18 + compatLen in
  if off =? len body then Ret (MkDII downloadID blockSize [] [])
  else
    errorIf (len body <? off + 2) ErrInvalidSection;;
    moduleCount ← get16 body off;
    '(modules, off) ← readModules (Z.to_nat moduleCount) body (off + 2);
    if off =? len body then Ret (MkDII downloadID blockSize modules [])
    else if len body <? off + 2 then Ret (MkDII downloadID blockSize modules [])
    else
      privateLen ← get16 body off;
      let off := off + 2 in
      if len body <? off + privateLen then Ret (MkDII downloadID blockSize modules [])
      else
        private ← body![off; off + privateLen];
        Ret (MkDII downloadID blockSize modules private).

Definition ParseDSMCCDDB (s : SectionBytes) : outcome DSMCCDDB :=
  bad ← rejects 25 (λ t, t =? TableIDDSMCCDDB) s;
  errorIf bad ErrInvalidSection;;
  body ← dsmccMessageBody s 0x1003;
  errorIf (len body <? 6) ErrInvalidSection;;
  downloadID ← get32 s 12;
  moduleID ← get16 body 0;
  version ← body![2];
  blockNumber ← get16 body 4;
  data ← body![6; len body];
  Ret (MkDDB downloadID moduleID version blockNumber data).

(** ** [dsmcc_module_info.go] *)

Definition DSMCCModuleDescriptorType : Z := 0x01.
Definition DSMCCModuleDescriptorName : Z := 0x02.
Definition DSMCCModuleDescriptorCRC32 : Z := 0x05.
Definition DSMCCModuleDescriptorEstimatedDownloadTime : Z := 0x07.
Definition DSMCCModuleDescriptorCachingPriority : Z := 0x71.
Definition DSMCCModuleDescriptorExpire : Z := 0xc0.
Definition DSMCCModuleDescriptorActivationTime : Z := 0xc1.
Definition DSMCCModuleDescriptorCompressionType : Z := 0xc2.

Record DSMCCModuleMetadata : Type := MkMetadata {
  md_Type : list Z;
  md_Name : list Z;
  md_CRC32 : option Z;
  md_EstimatedDownloadSeconds : option Z;
  md_CachingPriority : option Z;
  md_ExpireMode : option Z;
  md_ExpireData : list Z;
  md_ActivationMode : option Z;
  md_ActivationData : list Z;
  md_CompressionType : option Z;
  md_OriginalSize : option Z
}.

Definition emptyMetadata : DSMCCModuleMetadata :=
  MkMetadata [] [] None None None None [] None [] None None.

(** The switch on the descriptor tag. *)
Definition applyModuleDescriptor (m : DSMCCModuleMetadata) (tag : Z) (data : list Z)
    : outcome DSMCCModuleMetadata :=
  let '(MkMetadata ty name crc secs prio emode edata amode adata comp size) := m in
  if tag =? DSMCCModuleDescriptorType then
    Ret (MkMetadata data name crc secs prio emode edata amode adata comp size)
  else if tag =? DSMCCModuleDescriptorName then
    Ret (MkMetadata ty data crc secs prio emode edata amode adata comp size)
  else if tag =? DSMCCModuleDescriptorCRC32 then
    if len data =? 4 then
      v ← get32 data 0;
      Ret (MkMetadata ty name (Some v) secs prio emode edata amode adata comp size)
    else Ret m
  else if tag =? DSMCCModuleDescriptorEstimatedDownloadTime then
    if len data =? 4 then
      v ← get32 data 0;
      Ret (MkMetadata ty name crc (Some v) prio emode edata amode adata comp size)
    else Ret m
  else if tag =? DSMCCModuleDescriptorCachingPriority then
    if 1 <=? len data then
      v ← data![0];
      Ret (MkMetadata ty name crc secs (Some v) emode edata amode adata comp size)
    else Ret m
  else if tag =? DSMCCModuleDescriptorExpire then
    if 1 <=? len data then
      v ← data![0]; d ← data![1; len data];
      Ret (MkMetadata ty name crc secs prio (Some v) d amode adata comp size)
    else Ret m
  else if tag =? DSMCCModuleDescriptorActivationTime then
    if 1 <=? len data then
      v ← data![0]; d ← data![1; len data];
      Ret (MkMetadata ty name crc secs prio emode edata (Some v) d comp size)
    else Ret m
  else if tag =? DSMCCModuleDescriptorCompressionType then
    if len data =? 5 then
      v ← data![0]; original ← get32 data 1;
      Ret (MkMetadata ty name crc secs prio emode edata amode adata (Some v) (Some original))
    else Ret m
  else Ret m.

(** [None] is the code's [DSMCCModuleMetadata{}, false]. *)
Definition metadataBody (info : list Z) (st : DSMCCModuleMetadata * Z)
    : outcome (DSMCCModuleMetadata * Z + option DSMCCModuleMetadata) :=
  let '(m, off) := st in
  if off <? len info then
    if len info <? off + 2 then break None
    else
      tag ← info![off];
      size ← info![off + 1];
      let off := off + 2 in
      if len info <? off + size then break None
      else
        data ← info![off; off + size];
        m ← applyModuleDescriptor m tag data;
        continue (m, off + size)
  else break (Some m).

Definition Metadata (m : DSMCCModuleInfo) : outcome (option DSMCCModuleMetadata) :=
  loop (S (length (mi_Info m))) (metadataBody (mi_Info m)) (emptyMetadata, 0).

(** ** [dsmcc_stream.go] *)

Definition StreamDescriptorTagNPTReference : Z := 0x17.
Definition StreamDescriptorTagGeneralEvent : Z := 0x40.

Record DSMCCStream : Type := MkStream {
  st_DataEventID : Z;
  st_EventMessageGroupID : Z;
  st_VersionNumber : Z;
  st_CurrentNext : bool;
  st_SectionNumber : Z;
  st_LastSectionNumber : Z;
  st_Descriptors : list Descriptor
}.

Record DSMCCGeneralEvent : Type := MkGeneralEvent {
  ge_EventMessageGroupID : Z;
  ge_TimeMode : Z;
  ge_TimeValue : list Z;
  ge_EventMessageType : Z;
  ge_EventMessageID : Z;
  ge_PrivateData : list Z
}.

Record DSMCCNPTReference : Type := MkNPTReference {
  npt_PostDiscontinuityIndicator : bool;
  npt_DSMContentID : Z;
  npt_STCReference : Z;
  npt_NPTReference : Z;
  npt_ScaleNumerator : Z;
  npt_ScaleDenominator : Z
}.

Definition streamBody (s : SectionBytes) (stop : Z) (st : list Descriptor * Z)
    : outcome (list Descriptor * Z + list Descriptor) :=
  let '(ds, off) := st in
  if off <? stop then
    bad ← (Ret (stop <? off + 2) ||? (n ← s![off + 1]; Ret (stop <? off + 2 + n)));
    errorIf bad ErrInvalidSection;;
    n ← s![off + 1];
    d ← s![off; off + 2 + n];
    continue (ds ++ [d], off + len d)
  else break ds.

Definition ParseDSMCCStream (s : SectionBytes) : outcome DSMCCStream :=
  bad ← (Ret (len s <? 12) ||? (t ← TableID s; Ret (negb (t =? TableIDDSMCCStream))) ||?
         (ssi ← SectionSyntaxIndicator s; Ret (negb ssi)) ||? (b ← s![1]; Ret (bit b 0x40)) ||?
         overruns s ||? (ok ← ValidateCRC s; Ret (negb ok)));
  errorIf bad ErrInvalidSection;;
  n ← TotalLength s;
  let stop := n - 4 in
  b3 ← s![3];
  group ← get16m 0x0f s 3;
  b5 ← s![5];
  b6 ← s![6];
  b7 ← s![7];
  ds ← loop (S (length s)) (streamBody s stop) ([], 8);
  Ret (MkStream (Z.shiftr b3 4) group (Z.land (Z.shiftr b5 1) 0x1f) (bit b5 1) b6 b7 ds).

(** The time modes whose event carries a five-byte time value. *)
Definition timedMode (mode : Z) : bool :=
  (mode =? 0x00) || (mode =? 0x01) || (mode =? 0x02) || (mode =? 0x03) || (mode =? 0x05).

Definition ParseDSMCCGeneralEvent (d : Descriptor) : outcome (option DSMCCGeneralEvent) :=
  data ← Data d;
  bad ← ((t ← Tag d; Ret (negb (t =? StreamDescriptorTagGeneralEvent))) ||? Ret (len data <? 6));
  if bad : bool then Ret None
  else
    d0 ← data![0];
    d1 ← data![1];
    mode ← data![2];
    let group := Z.lor (Z.shiftl d0 4) (Z.shiftr d1 4) in
    let finish time off :=
      ty ← data![off];
      id ← get16 data (off + 1);
      private ← data![off + 3; len data];
      Ret (Some (MkGeneralEvent group mode time ty id private)) in
    if timedMode mode then
      if len data <? 3 + 8 then Ret None
      else time ← data![3; 3 + 5]; finish time (3 + 5)
    else finish [] 3.

Definition ParseDSMCCNPTReference (d : Descriptor) : outcome (option DSMCCNPTReference) :=
  data ← Data d;
  bad ← ((t ← Tag d; Ret (negb (t =? StreamDescriptorTagNPTReference))) ||? Ret (len data <? 18));
  if bad : bool then Ret None
  else
    d0 ← data![0];
    d1 ← data![1];
    stc ← get32 data 2;
    d9 ← data![9];
    npt ← get32 data 10;
    num ← get16 data 14;
    den ← get16 data 16;
    Ret (Some (MkNPTReference (bit d0 0x80) (Z.land d0 0x7f)
      (Z.lor (Z.shiftl (Z.land d1 1) 32) stc) (Z.lor (Z.shiftl (Z.land d9 1) 32) npt)
      (i16 num) (i16 den))).

Definition EventMessageNPT (e : DSMCCGeneralEvent) : outcome (option Z) :=
  if negb (ge_TimeMode e =? 0x02) || negb (len (ge_TimeValue e) =? 5) then Ret None
  else
    t0 ← (ge_TimeValue e)![0];
    lo ← get32 (ge_TimeValue e) 1;
    Ret (Some (Z.lor (Z.shiftl (Z.land t0 1) 32) lo)).

(** ** Every message parser is total *)

Lemma dsmccMessageBody_safe s id P :
  bytes_ok s → 23 ≤ len s → totalOf s ≤ len s →
  (∀ body, bytes_ok body → len body ≤ len s → P body) →
  ends invalid (dsmccMessageBody s id) P.
Proof.
  intros Hs Hl Ht HP. unfold dsmccMessageBody. rewrite TotalLength_ret by lia. run.
  pose proof (totalOf_bound s Hs). go; try done;
    apply HP; repeat apply bytes_ok_sub; try done; unfold byte_ok in *; lia.
Qed.

Definition module_ok (m : DSMCCModuleInfo) : Prop :=
  word16 (mi_ModuleID m) ∧ 0 ≤ mi_ModuleSize m < 2 ^ 32 ∧ byte_ok (mi_Version m) ∧ bytes_ok (mi_Info m).

Lemma readModules_safe n body off :
  bytes_ok body → 0 ≤ off →
  ends invalid (readModules n body off) (λ '(ms, last), Forall module_ok ms ∧ length ms = n ∧
    off ≤ last ∧ (off ≤ len body → last ≤ len body)).
Proof.
  intros Hb. revert off. induction n as [| n IH]; intros off Ho; [by go; split_and!; auto using Forall_nil_2; lia |].
  cbn [readModules]. go. eapply safe_mono; [apply IH; unfold byte_ok in *; lia |].
  intros [ms last] (Hms & Hn & Hl & Hle). go. split_and!; [| simpl; lia | unfold byte_ok in *; lia |].
  - apply Forall_cons. split; [| done]. unfold module_ok. simpl. split_and!; try done; try lia.
    by apply bytes_ok_sub.
  - intros _. apply Hle. lia.
Qed.

Lemma ParseDSMCCDII_safe s : bytes_ok s → ends invalid (ParseDSMCCDII s) (λ dii,
  0 ≤ dii_DownloadID dii < 2 ^ 32 ∧ word16 (dii_BlockSize dii) ∧ Forall module_ok (dii_Modules dii) ∧ bytes_ok (dii_PrivateData dii)).
Proof.
  intros Hs. apply accept_safe; [done | lia | done |]. intros Hl Ht _ _.
  apply safe_bind, dsmccMessageBody_safe; [done | lia | lia |]. intros body Hb _.
  apply safe_bind, safe_errorIf; [done |]. intros Hlen. bools.
  apply safe_bind, safe_get32; [done | lia | lia |]. intros download Hd.
  apply safe_bind, safe_get16; [done | lia | lia |]. intros Hbs.
  apply safe_bind, safe_get16; [done | lia | lia |]. intros Hc.
  assert (∀ ms priv, Forall module_ok ms → bytes_ok priv → ends invalid
    (Ret (MkDII download (be16 (byteAt body 4) (byteAt body (4 + 1))) ms priv)) (λ dii,
    0 ≤ dii_DownloadID dii < 2 ^ 32 ∧ word16 (dii_BlockSize dii) ∧ Forall module_ok (dii_Modules dii) ∧ bytes_ok (dii_PrivateData dii)))
    as Hret by (intros; simpl; split_and!; try done; lia).
  cbv zeta. destruct (Z.eqb_spec (18 + be16 (byteAt body 16) (byteAt body (16 + 1))) (len body));
    [by apply Hret; apply Forall_nil_2 |]. go.
  eapply safe_mono; [apply readModules_safe; [done | lia] |]. intros [ms off] (Hms & _ & Hoff & Hle).
  specialize (Hle ltac:(lia)).
  destruct (Z.eqb_spec off (len body)); [by apply Hret; [| apply Forall_nil_2] |].
  destruct (Z.ltb_spec (len body) (off + 2)); [by apply Hret; [| apply Forall_nil_2] |].
  apply safe_bind, safe_get16; [done | lia | lia |]. intros Hp.
  destruct (Z.ltb_spec (len body) (off + 2 + be16 (byteAt body off) (byteAt body (off + 1)))); [by apply Hret; [| apply Forall_nil_2] |].
  apply safe_bind, safe_slice; [lia | lia |]. intros _. apply Hret; [done | by apply bytes_ok_sub].
Qed.

Definition ddb_ok (ddb : DSMCCDDB) : Prop :=
  0 ≤ ddb_DownloadID ddb < 2 ^ 32 ∧ word16 (ddb_ModuleID ddb) ∧ byte_ok (ddb_ModuleVersion ddb) ∧
  word16 (ddb_BlockNumber ddb) ∧ bytes_ok (ddb_Data ddb).

Lemma ParseDSMCCDDB_safe s : bytes_ok s → ends invalid (ParseDSMCCDDB s) (λ ddb,
  ddb_ok ddb ∧ len (ddb_Data ddb) ≤ len s).
Proof.
  intros Hs. apply accept_safe; [done | lia | done |]. intros Hl Ht _ _.
  apply safe_bind, dsmccMessageBody_safe; [done | lia | lia |]. intros body Hb Hlb. go.
  split; simpl; [| lia]. unfold ddb_ok, word16, byte_ok in *. simpl. split_and!; try lia. by apply bytes_ok_sub.
Qed.

Lemma applyModuleDescriptor_safe m tag data (P : DSMCCModuleMetadata → Prop) E :
  bytes_ok data → (∀ m, P m) → ends E (applyModuleDescriptor m tag data) P.
Proof. intros Hd HP. unfold applyModuleDescriptor. destruct m. go; apply HP. Qed.

Lemma Metadata_safe m : bytes_ok (mi_Info m) → returns (Metadata m) (λ _, True).
Proof.
  intros Hi. unfold Metadata. set (info := mi_Info m) in *.
  apply (safe_loop (λ '(_, off), 0 ≤ off) (λ '(_, off), Z.to_nat (len info - off)));
    [| lia | unfold len; lia].
  intros [md off] Hoff. unfold metadataBody. go; try exact I.
  apply applyModuleDescriptor_safe; [by apply bytes_ok_sub |]. intros md'. go. unfold byte_ok in *. lia.
Qed.

Lemma ParseDSMCCStream_safe s : bytes_ok s → ends invalid (ParseDSMCCStream s) (λ st,
  descriptors_ok (st_Descriptors st)).
Proof.
  intros Hs. unfold ParseDSMCCStream, TableID, SectionSyntaxIndicator.
  apply safe_bind, safe_orM, safe_ret. destruct (Z.ltb_spec (len s) 12); [exact eq_refl |].
  go. rewrite overruns_ret by lia. go. destruct (ValidateCRC_ret s) as [-> |]; [| done]. go.
  rewrite TotalLength_ret by lia. run. go.
  eapply safe_mono; [| intros ds Hds; exact Hds].
  apply (safe_loop (λ '(ds, off), 0 ≤ off ∧ descriptors_ok ds) (λ '(_, off), Z.to_nat (len s - off)));
    [| by split; [lia | apply Forall_nil_2] | unfold len; lia].
  intros [ds off] [Hoff Hds]. unfold streamBody. go; [| done].
  rename H7 into Hn. pose proof (byteAt_ok s (off + 1) Hs) as Hb. unfold byte_ok in Hb.
  assert (len (sub s off (off + 2 + byteAt s (off + 1))) = 2 + byteAt s (off + 1)) as Hlen by (rewrite len_sub; lia).
  split; [split; [lia |] | lia]. apply Forall_snoc; [done |]. split; [by apply bytes_ok_sub |].
  destruct (cut_descriptor (sub s off (off + 2 + byteAt s (off + 1)))) as [Hd _];
    [by apply bytes_ok_sub | lia | rewrite byteAt_sub by lia; lia |].
  rewrite byteAt_sub in Hd by lia. rewrite <- Hlen in Hd. by rewrite sub_full in Hd.
Qed.

Lemma ParseDSMCCGeneralEvent_safe d :
  bytes_ok d → complete d → returns (ParseDSMCCGeneralEvent d) (λ r, ∀ e, r = Some e →
    len (ge_TimeValue e) = if timedMode (ge_TimeMode e) then 5 else 0).
Proof.
  intros Hd Hc. pose proof Hc as [H2 Hl]. unfold ParseDSMCCGeneralEvent, Tag.
  apply safe_bind, Data_safe; [done | done |]. intros Hb. go; try (by intros e He);
    match goal with H : timedMode _ = _ |- _ => intros e [= <-]; simpl; rewrite H; lia || done end.
Qed.

Lemma ParseDSMCCNPTReference_safe d :
  bytes_ok d → complete d → returns (ParseDSMCCNPTReference d) (λ r, ∀ n, r = Some n →
    -(2 ^ 15) ≤ npt_ScaleNumerator n < 2 ^ 15 ∧ -(2 ^ 15) ≤ npt_ScaleDenominator n < 2 ^ 15).
Proof.
  intros Hd Hc. pose proof Hc as [H2 Hl]. unfold ParseDSMCCNPTReference, Tag.
  assert (∀ x, -(2 ^ 15) ≤ i16 x < 2 ^ 15) as Hi.
  { intros x. unfold i16. cbv zeta. pose proof (u16_ok x).
    destruct (Z.ltb_spec (u16 x) (2 ^ 15)); lia. }
  apply safe_bind, Data_safe; [done | done |]. intros Hb. go; intros n [= <-]. by split; apply Hi.
Qed.

(** ** Round trips *)

Lemma be32bytes_split x : 0 ≤ x < 2 ^ 32 →
  be32bytes x = be16bytes (Z.shiftr x 16) ++ be16bytes (x mod 2 ^ 16).
Proof.
  intros Hx. unfold be32bytes, be16bytes. cbn [app].
  rewrite !Z.shiftr_shiftr by lia. change (16 + 8) with 24.
  assert (u8 (Z.shiftr x 8) = u8 (Z.shiftr (x mod 2 ^ 16) 8)) as ->.
  { unfold u8. rewrite !Z.shiftr_div_pow2 by lia. change (2 ^ 16) with (2 ^ 8 * 2 ^ 8).
    apply Z.bits_inj'. intros k Hk.
    destruct (Z.ltb_spec k 8).
    - rewrite !Z.mod_pow2_bits_low by lia. rewrite <- !Z.shiftr_div_pow2, !Z.shiftr_spec by lia.
      change (2 ^ 8 * 2 ^ 8) with (2 ^ 16). by rewrite Z.mod_pow2_bits_low by lia.
    - by rewrite !Z.mod_pow2_bits_high by lia. }
  assert (u8 x = u8 (x mod 2 ^ 16)) as ->; [| done].
  unfold u8. change (2 ^ 16) with (2 ^ 8 * 2 ^ 8). rewrite Z.rem_mul_r by lia.
  rewrite Z.mul_comm, Z.mod_add, Z.mod_mod by lia. done.
Qed.

Lemma get32_app pre x post i :
  len pre = i → 0 ≤ x < 2 ^ 32 → get32 (pre ++ be32bytes x ++ post) i = Ret x.
Proof.
  intros Hi Hx. rewrite be32bytes_split by done. unfold get32.
  assert (0 ≤ Z.shiftr x 16 < 2 ^ 16).
  { rewrite Z.shiftr_div_pow2 by lia. split; [apply Z.div_pos | apply Z.div_lt_upper_bound]; lia. }
  rewrite <- app_assoc, (get16_app pre _ _ i Hi) by lia. run. rewrite app_assoc.
  rewrite get16_app by (try apply Z.mod_pos_bound; rewrite ?len_app, ?len_be16bytes; lia). run.
  rewrite lor_shift by (try apply Z.mod_pos_bound; lia). f_equal.
  rewrite Z.shiftr_div_pow2 by lia. pose proof (Z.div_mod x (2 ^ 16)). lia.
Qed.

(** A DSM-CC download message: protocol, message id, download (transaction)
    id, adaptation header and body, in a long section. *)
Definition dsmccMessage (id download : Z) (adaptation body : list Z) : list Z :=
  [0x11; 0x03] ++ be16bytes id ++ be32bytes download ++ [0xff; len adaptation] ++
  be16bytes (len body) ++ adaptation ++ body.

Definition dsmccSection (tid ext version number last id download : Z) (adaptation body : list Z)
    : SectionBytes :=
  longSection tid ext version number last (dsmccMessage id download adaptation body).

Lemma dsmccMessage_len id download adaptation body :
  len (dsmccMessage id download adaptation body) = 12 + len adaptation + len body.
Proof.
  unfold dsmccMessage. rewrite !len_app, !len_be16bytes. change (len (be32bytes _)) with 4.
  change (len [0x11; 0x03]) with 2. change (len [0xff; len adaptation]) with 2. lia.
Qed.

Lemma dsmccMessage_ok id download adaptation body :
  byte_ok (len adaptation) → bytes_ok adaptation → bytes_ok body →
  bytes_ok (dsmccMessage id download adaptation body).
Proof.
  intros. unfold dsmccMessage. apply bytes_ok_app; [by apply bytes_okb_spec |].
  apply bytes_ok_app; [apply be16bytes_ok |]. apply bytes_ok_app; [apply be32bytes_ok |].
  apply bytes_ok_app; [by repeat (apply Forall_cons; split; [done |]); apply Forall_nil_2 |].
  apply bytes_ok_app; [apply be16bytes_ok |]. by apply bytes_ok_app.
Qed.

Section Message.
Context (tid ext version number last id download : Z) (adaptation body : list Z).
Context (Htid : byte_ok tid) (Hext : word16 ext) (Hver : 0 ≤ version < 32).
Context (Hnum : byte_ok number) (Hlast : byte_ok last) (Hid : word16 id).
Context (Hdl : 0 ≤ download < 2 ^ 32) (Hadap : bytes_ok adaptation) (Hbody : bytes_ok body).
Context (Ha : len adaptation < 256) (Hfit : len adaptation + len body + 21 < 4096).

Let m := dsmccMessage id download adaptation body.
Let s := dsmccSection tid ext version number last id download adaptation body.

Lemma message_bytes_ok : bytes_ok m.
Proof. pose proof (len_nonneg adaptation). apply dsmccMessage_ok; [by unfold byte_ok | done | done]. Qed.

Lemma message_len : len m = 12 + len adaptation + len body.
Proof. apply dsmccMessage_len. Qed.

Lemma dsmccMessageBody_message : dsmccMessageBody s id = Ret body.
Proof.
  pose proof (len_nonneg adaptation). pose proof (len_nonneg body). pose proof message_len as HL.
  unfold dsmccMessageBody. unfold s, dsmccSection. fold m.
  rewrite long_TotalLength by (done || apply message_bytes_ok || lia). run.
  destruct (Z.ltb_spec (len m + 12 - 4) 20); [lia |]. run.
  rewrite long_split. rewrite slice_app by (done || (change (len (longHeader _ _ _ _ _ _)) with 8; lia)). run.
  destruct (Z.ltb_spec (len m) 12); [lia |]. run.
  change (m![0]) with (Ret 0x11). change (m![1]) with (Ret 0x03). run.
  assert (get16 m 2 = Ret id) as -> by (by apply (get16_app [0x11; 0x03])). run.
  rewrite !Z.eqb_refl. cbn [negb]. run.
  assert (m![9] = Ret (len adaptation)) as -> by done. run.
  assert (get16 m 10 = Ret (len body)) as ->.
  { replace m with (([0x11; 0x03] ++ be16bytes id ++ be32bytes download ++ [0xff; len adaptation]) ++
      be16bytes (len body) ++ adaptation ++ body) by (unfold m, dsmccMessage; by rewrite <- !app_assoc).
    apply get16_app; [done | lia]. }
  run. destruct (Z.ltb_spec (len m) (12 + len adaptation)); [lia |].
  destruct (Z.ltb_spec (len m) (12 + len adaptation + len body)); [lia |]. cbn [orb]. run.
  replace m with (([0x11; 0x03] ++ be16bytes id ++ be32bytes download ++ [0xff; len adaptation] ++
      be16bytes (len body) ++ adaptation) ++ body ++ [])
    by (unfold m, dsmccMessage; by rewrite app_nil_r, <- !app_assoc).
  apply slice_app; [| done]. rewrite !len_app, !len_be16bytes. change (len (be32bytes _)) with 4.
  change (len [0x11; 0x03]) with 2. change (len [0xff; len adaptation]) with 2. lia.
Qed.

Lemma message_rejects min f : min ≤ len adaptation + len body + 24 → f tid = true → rejects min f s = Ret false.
Proof.
  intros. apply long_rejects; try done; [apply message_bytes_ok | |]; rewrite dsmccMessage_len; lia.
Qed.

Lemma message_download : get32 s 12 = Ret download.
Proof.
  unfold s, dsmccSection. rewrite long_split. fold m. unfold m at 2, dsmccMessage.
  rewrite <- !app_assoc. set (hdr := longHeader _ _ _ _ _ _).
  rewrite (app_assoc hdr), (app_assoc (hdr ++ _)). by apply get32_app.
Qed.

End Message.

Definition ddbBody (ddb : DSMCCDDB) : list Z :=
  be16bytes (ddb_ModuleID ddb) ++ [ddb_ModuleVersion ddb; 0xff] ++ be16bytes (ddb_BlockNumber ddb) ++
  ddb_Data ddb.
Definition ddbSection (version number last : Z) (ddb : DSMCCDDB) : SectionBytes :=
  dsmccSection TableIDDSMCCDDB (ddb_ModuleID ddb) version number last 0x1003 (ddb_DownloadID ddb) []
    (ddbBody ddb).

Lemma ParseDSMCCDDB_ddbSection version number last ddb :
  ddb_ok ddb → 0 ≤ version < 32 → byte_ok number → byte_ok last → len (ddb_Data ddb) + 27 < 4096 →
  ParseDSMCCDDB (ddbSection version number last ddb) = Ret ddb.
Proof.
  intros (Hd & Hm & Hv & Hn & Hb) Hver Hnum Hlast Hfit. unfold ParseDSMCCDDB, ddbSection.
  pose proof (len_nonneg (ddb_Data ddb)).
  assert (len (ddbBody ddb) = 6 + len (ddb_Data ddb)) as HL
    by (unfold ddbBody; rewrite !len_app, !len_be16bytes; change (len [_; _]) with 2; lia).
  assert (bytes_ok (ddbBody ddb)).
  { unfold ddbBody. apply bytes_ok_app; [apply be16bytes_ok |].
    apply bytes_ok_app; [by repeat (apply Forall_cons; split; [done |]); apply Forall_nil_2 |].
    apply bytes_ok_app; [apply be16bytes_ok | done]. }
  pose proof (Forall_nil_2 _ : bytes_ok []).
  rewrite message_rejects by (done || (rewrite ?HL, ?len_nil; lia)). run.
  rewrite dsmccMessageBody_message by (done || (rewrite ?HL, ?len_nil; lia)). run.
  rewrite HL. destruct (Z.ltb_spec (6 + len (ddb_Data ddb)) 6); [lia |]. run.
  rewrite message_download by done. run.
  assert (get16 (ddbBody ddb) 0 = Ret (ddb_ModuleID ddb)) as -> by (by apply (get16_app [])). run.
  change ((ddbBody ddb)![2]) with (Ret (ddb_ModuleVersion ddb)). run.
  assert (get16 (ddbBody ddb) 4 = Ret (ddb_BlockNumber ddb)) as ->
    by (by apply (get16_app (be16bytes (ddb_ModuleID ddb) ++ [ddb_ModuleVersion ddb; 0xff]))). run.
  assert ((ddbBody ddb)![6; 6 + len (ddb_Data ddb)] = Ret (ddb_Data ddb)) as ->.
  { rewrite <- (app_nil_r (ddbBody ddb)).
    by apply (slice_app (be16bytes (ddb_ModuleID ddb) ++ [ddb_ModuleVersion ddb; 0xff] ++
      be16bytes (ddb_BlockNumber ddb))). }
  run. by destruct ddb.
Qed.

Definition moduleBytes (m : DSMCCModuleInfo) : list Z :=
  be16bytes (mi_ModuleID m) ++ be32bytes (mi_ModuleSize m) ++ [mi_Version m; len (mi_Info m)] ++ mi_Info m.

Definition diiBody (dii : DSMCCDII) (filler compat : list Z) : list Z :=
  be32bytes (dii_DownloadID dii) ++ be16bytes (dii_BlockSize dii) ++ filler ++ be16bytes (len compat) ++
  compat ++ be16bytes (len (dii_Modules dii)) ++ concat (map moduleBytes (dii_Modules dii)) ++
  be16bytes (len (dii_PrivateData dii)) ++ dii_PrivateData dii.

Lemma readModules_app pre ms post off :
  Forall (λ m, module_ok m ∧ len (mi_Info m) < 256) ms → len pre = off →
  readModules (length ms) (pre ++ concat (map moduleBytes ms) ++ post) off =
    Ret (ms, off + len (concat (map moduleBytes ms))).
Proof.
  intros Hms. revert pre off. induction Hms as [| m ms [(Hid & Hsize & Hv & Hi) Hinfo] _ IH]; intros pre off Ho.
  { cbn. by rewrite Z.add_0_r. }
  cbn [length readModules map concat]. pose proof (len_nonneg (mi_Info m)).
  pose proof (len_nonneg (concat (map moduleBytes ms))). pose proof (len_nonneg post). pose proof (len_nonneg pre).
  assert (len (moduleBytes m) = 8 + len (mi_Info m)) as HLm.
  { unfold moduleBytes. rewrite !len_app, len_be16bytes. change (len (be32bytes _)) with 4.
    change (len [_; _]) with 2. lia. }
  set (rest := concat (map moduleBytes ms)) in *. rewrite <- (app_assoc (moduleBytes m)).
  set (data := pre ++ moduleBytes m ++ rest ++ post).
  assert (data = pre ++ be16bytes (mi_ModuleID m) ++ be32bytes (mi_ModuleSize m) ++
    [mi_Version m; len (mi_Info m)] ++ mi_Info m ++ rest ++ post) as Hdata
    by (unfold data, moduleBytes; by rewrite <- !app_assoc).
  assert (len data = off + 8 + len (mi_Info m) + len rest + len post) as HL
    by (unfold data; rewrite !len_app, HLm; lia).
  rewrite HL. destruct (Z.ltb_spec (off + 8 + len (mi_Info m) + len rest + len post) (off + 8)); [lia |]. run.
  assert (get16 data off = Ret (mi_ModuleID m)) as -> by (rewrite Hdata; by apply get16_app). run.
  assert (get32 data (off + 2) = Ret (mi_ModuleSize m)) as ->
    by (rewrite Hdata, app_assoc; apply get32_app; [by rewrite len_app, Ho | done]). run.
  assert (data![off + 6] = Ret (mi_Version m)) as ->.
  { rewrite Hdata, app_assoc, (app_assoc (pre ++ _)). apply (idx_app _ _ ([len (mi_Info m)] ++ _)).
    rewrite !len_app, len_be16bytes. change (len (be32bytes _)) with 4. lia. }
  run. assert (data![off + 7] = Ret (len (mi_Info m))) as ->.
  { rewrite Hdata, app_assoc, (app_assoc (pre ++ _)). change [mi_Version m; len (mi_Info m)] with
      ([mi_Version m] ++ [len (mi_Info m)]). rewrite <- (app_assoc [mi_Version m]), (app_assoc (_ ++ be32bytes _)).
    apply idx_app. rewrite !len_app, len_be16bytes. change (len (be32bytes _)) with 4. change (len [_]) with 1. lia. }
  run. destruct (Z.ltb_spec (off + 8 + len (mi_Info m) + len rest + len post) (off + 8 + len (mi_Info m))); [lia |]. run.
  assert (data![off + 8; off + 8 + len (mi_Info m)] = Ret (mi_Info m)) as ->.
  { rewrite Hdata, app_assoc, (app_assoc (pre ++ _)), (app_assoc ((pre ++ _) ++ _)). apply slice_app; [| done].
    rewrite !len_app, len_be16bytes. change (len (be32bytes _)) with 4. change (len [_; _]) with 2. lia. }
  run. unfold data. rewrite app_assoc. unfold rest. rewrite IH by (rewrite len_app, HLm; lia). run.
  fold rest. rewrite len_app, HLm. destruct m. simpl. do 2 f_equal. lia.
Qed.

Definition diiSection (ext version number last : Z) (filler compat : list Z) (dii : DSMCCDII) : SectionBytes :=
  dsmccSection TableIDDSMCCDII ext version number last 0x1002 (dii_DownloadID dii) []
    (diiBody dii filler compat).

Definition dii_ok (dii : DSMCCDII) : Prop :=
  0 ≤ dii_DownloadID dii < 2 ^ 32 ∧ word16 (dii_BlockSize dii) ∧
  Forall (λ m, module_ok m ∧ len (mi_Info m) < 256) (dii_Modules dii) ∧ bytes_ok (dii_PrivateData dii).

Lemma moduleBytes_ok m : module_ok m → len (mi_Info m) < 256 → bytes_ok (moduleBytes m).
Proof.
  intros (_ & _ & Hv & Hi) Hl. pose proof (len_nonneg (mi_Info m)). unfold moduleBytes.
  apply bytes_ok_app; [apply be16bytes_ok |]. apply bytes_ok_app; [apply be32bytes_ok |].
  apply bytes_ok_app; [repeat (apply Forall_cons; split; [done |]); apply Forall_nil_2 | done].
Qed.

Lemma diiBody_ok dii filler compat :
  dii_ok dii → bytes_ok filler → bytes_ok compat → bytes_ok (diiBody dii filler compat).
Proof.
  intros (_ & _ & Hm & Hp) Hf Hc. unfold diiBody.
  apply bytes_ok_app; [apply be32bytes_ok |]. apply bytes_ok_app; [apply be16bytes_ok |].
  apply bytes_ok_app; [done |]. apply bytes_ok_app; [apply be16bytes_ok |].
  apply bytes_ok_app; [done |]. apply bytes_ok_app; [apply be16bytes_ok |].
  apply bytes_ok_app; [| by apply bytes_ok_app; [apply be16bytes_ok |]].
  apply bytes_ok_concat. intros m Hin. rewrite Forall_forall in Hm.
  destruct (Hm m Hin). by apply moduleBytes_ok.
Qed.

Lemma ParseDSMCCDII_diiSection ext version number last filler compat dii :
  dii_ok dii → word16 ext → 0 ≤ version < 32 → byte_ok number → byte_ok last →
  bytes_ok filler → len filler = 10 → bytes_ok compat → len (diiBody dii filler compat) + 21 < 4096 →
  ParseDSMCCDII (diiSection ext version number last filler compat dii) = Ret dii.
Proof.
  intros Hdii Hext Hver Hnum Hlast Hf Hfl Hc Hfit. pose proof (diiBody_ok _ _ _ Hdii Hf Hc) as Hbody.
  destruct Hdii as (Hd & Hbs & Hms & Hp). unfold ParseDSMCCDII, diiSection.
  set (body := diiBody dii filler compat) in *. set (ms := concat (map moduleBytes (dii_Modules dii))).
  set (priv := dii_PrivateData dii). pose proof (Forall_nil_2 _ : bytes_ok []).
  pose proof (len_nonneg compat). pose proof (len_nonneg ms). pose proof (len_nonneg priv).
  assert (len body = 22 + len compat + len ms + len priv) as HL.
  { unfold body, diiBody. rewrite !len_app, !len_be16bytes. change (len (be32bytes _)) with 4. fold ms priv. lia. }
  assert (length (dii_Modules dii) ≤ length ms)%nat as Hcount by (by apply concat_length_ge).
  assert (len (dii_Modules dii) ≤ len ms) by (unfold len; lia). pose proof (len_nonneg (dii_Modules dii)).
  rewrite message_rejects by (done || (rewrite ?HL, ?len_nil; lia)). run.
  rewrite dsmccMessageBody_message by (done || (rewrite ?HL, ?len_nil; lia)). run.
  assert (body = (be32bytes (dii_DownloadID dii) ++ be16bytes (dii_BlockSize dii) ++ filler) ++
    be16bytes (len compat) ++ compat ++ be16bytes (len (dii_Modules dii)) ++ ms ++ be16bytes (len priv) ++ priv)
    as Hb by (unfold body, diiBody; by rewrite <- !app_assoc).
  set (fixed := be32bytes (dii_DownloadID dii) ++ be16bytes (dii_BlockSize dii) ++ filler) in Hb.
  assert (len fixed = 16) as HF
    by (unfold fixed; rewrite !len_app, len_be16bytes, Hfl; change (len (be32bytes _)) with 4; lia).
  destruct (Z.ltb_spec (len body) 18); [lia |]. run.
  assert (get32 body 0 = Ret (dii_DownloadID dii)) as -> by (by apply (get32_app [])). run.
  assert (get16 body 4 = Ret (dii_BlockSize dii)) as ->
    by (by apply (get16_app (be32bytes (dii_DownloadID dii)))). run.
  assert (get16 body 16 = Ret (len compat)) as -> by (rewrite Hb; apply get16_app; [done | lia]). run.
  destruct (Z.eqb_spec (18 + len compat) (len body)); [lia |].
  destruct (Z.ltb_spec (len body) (18 + len compat + 2)); [lia |]. run.
  assert (get16 body (18 + len compat) = Ret (len (dii_Modules dii))) as ->.
  { rewrite Hb, (app_assoc fixed), (app_assoc (fixed ++ _)). apply get16_app; [| lia].
    rewrite !len_app, HF, len_be16bytes. lia. }
  run. rewrite to_nat_len.
  assert (readModules (length (dii_Modules dii)) body (18 + len compat + 2) =
    Ret (dii_Modules dii, 18 + len compat + 2 + len ms)) as ->.
  { rewrite Hb, (app_assoc fixed), (app_assoc (fixed ++ _)), (app_assoc ((fixed ++ _) ++ _)).
    apply readModules_app; [done |]. rewrite !len_app, HF, !len_be16bytes. lia. }
  run. destruct (Z.eqb_spec (18 + len compat + 2 + len ms) (len body)); [lia |].
  destruct (Z.ltb_spec (len body) (18 + len compat + 2 + len ms + 2)); [lia |].
  assert (get16 body (18 + len compat + 2 + len ms) = Ret (len priv)) as ->.
  { rewrite Hb, (app_assoc fixed), (app_assoc (fixed ++ _)), (app_assoc ((fixed ++ _) ++ _)),
      (app_assoc (((fixed ++ _) ++ _) ++ _)). apply get16_app; [| lia].
    rewrite !len_app, HF, !len_be16bytes. lia. }
  run. destruct (Z.ltb_spec (len body) (18 + len compat + 2 + len ms + 2 + len priv)); [lia |].
  assert (body![18 + len compat + 2 + len ms + 2; 18 + len compat + 2 + len ms + 2 + len priv] = Ret priv) as ->.
  { rewrite Hb, (app_assoc fixed), (app_assoc (fixed ++ _)), (app_assoc ((fixed ++ _) ++ _)),
      (app_assoc (((fixed ++ _) ++ _) ++ _)), (app_assoc ((((fixed ++ _) ++ _) ++ _) ++ _)).
    rewrite <- (app_nil_r priv) at 2. apply slice_app; [| done].
    rewrite !len_app, HF, !len_be16bytes. lia. }
  run. unfold priv. by destruct dii.
Qed.

(** The download messages of a carousel
    parse back, field for field, from their sections: an indication with its
    modules, compatibility descriptor and private data, and a data block. *)
Theorem dsmcc_messages_roundtrip ext version number last filler compat dii ddb :
  word16 ext → 0 ≤ version < 32 → byte_ok number → byte_ok last →
  dii_ok dii → bytes_ok filler → len filler = 10 → bytes_ok compat →
  len (diiBody dii filler compat) + 21 < 4096 →
  ddb_ok ddb → len (ddb_Data ddb) + 27 < 4096 →
  ParseDSMCCDII (diiSection ext version number last filler compat dii) = Ret dii ∧
  ParseDSMCCDDB (ddbSection version number last ddb) = Ret ddb.
Proof.
  intros. split; [by apply ParseDSMCCDII_diiSection | by apply ParseDSMCCDDB_ddbSection].
Qed.

Definition sample_dii : DSMCCDII :=
  MkDII 0x12345678 4066 [MkModuleInfo 0 5000 1 [0x02; 2; 0x41; 0x42]; MkModuleInfo 7 10 2 []] [1; 2; 3].
Definition sample_ddb : DSMCCDDB := MkDDB 0x12345678 7 2 0 [9; 8; 7; 6].

Lemma dsmcc_messages_roundtrip_witness :
  ParseDSMCCDII (diiSection 1 3 0 0 (replicate 10 0) [] sample_dii) = Ret sample_dii ∧
  ParseDSMCCDDB (ddbSection 3 0 0 sample_ddb) = Ret sample_ddb.
Proof.
  apply dsmcc_messages_roundtrip; try done; try (by apply bytes_okb_spec);
    [unfold dii_ok | unfold ddb_ok]; split_and!; try done; try (by apply bytes_okb_spec).
  repeat (apply Forall_cons; split; [split; [unfold module_ok; split_and!; try done; by apply bytes_okb_spec | done] |]).
  apply Forall_nil_2.
Defined.

(** The DSM-CC parsers: on any bytes the parsers of DII, DDB and stream
    sections end with a message or ErrInvalidSection, the parsers of module
    metadata, general events and NPT references with a value or its absence,
    and none panics. *)
Theorem dsmcc_parsers_total s m d :
  bytes_ok s → bytes_ok (mi_Info m) → bytes_ok d → desc_ok d →
  ends invalid (ParseDSMCCDII s) (λ dii,
    0 ≤ dii_DownloadID dii < 2 ^ 32 ∧ word16 (dii_BlockSize dii) ∧ Forall module_ok (dii_Modules dii) ∧ bytes_ok (dii_PrivateData dii)) ∧
  ends invalid (ParseDSMCCDDB s) (λ ddb,
    ddb_ok ddb ∧ len (ddb_Data ddb) ≤ len s) ∧
  ends invalid (ParseDSMCCStream s) (λ st, descriptors_ok (st_Descriptors st)) ∧
  returns (Metadata m) (λ _, True) ∧
  returns (ParseDSMCCGeneralEvent d) (λ r, ∀ e, r = Some e →
    len (ge_TimeValue e) = if timedMode (ge_TimeMode e) then 5 else 0) ∧
  returns (ParseDSMCCNPTReference d) (λ r, ∀ n, r = Some n →
    -(2 ^ 15) ≤ npt_ScaleNumerator n < 2 ^ 15 ∧ -(2 ^ 15) ≤ npt_ScaleDenominator n < 2 ^ 15).
Proof.
  intros Hs Hm Hd Hok. apply desc_ok_complete in Hok.
  split_and!; [by apply ParseDSMCCDII_safe | by apply ParseDSMCCDDB_safe | by apply ParseDSMCCStream_safe
    | by apply Metadata_safe | by apply ParseDSMCCGeneralEvent_safe | by apply ParseDSMCCNPTReference_safe].
Qed.

Lemma dsmcc_parsers_total_witness :
  returns (Metadata (MkModuleInfo 1 2 3 [0x02; 1; 0x41; 0x71; 1; 5])) (λ _, True) ∧
  Metadata (MkModuleInfo 1 2 3 [0x02; 1; 0x41; 0x71; 1; 5]) =
    Ret (Some (MkMetadata [] [0x41] None None (Some 5) None [] None [] None None)).
Proof.
  split; [| by vm_compute].
  pose proof (dsmcc_parsers_total [] (MkModuleInfo 1 2 3 [0x02; 1; 0x41; 0x71; 1; 5]) [0x40; 0]
    (Forall_nil_2 _) (bytes_okb_spec [0x02; 1; 0x41; 0x71; 1; 5] eq_refl) (bytes_okb_spec [0x40; 0] eq_refl)
    (desc_okb_spec [0x40; 0] eq_refl)) as (_ & _ & _ & H & _). exact H.
Defined.
