(* ===== verification/Carousel.v ===== *)
(** * The DSM-CC object carousel ([ts/dsmcc_carousel.go])

    [DSMCCCarousel] assembles the modules a DII announces from the blocks of
    DDB messages, within two byte budgets: it evicts the oldest in-flight
    module to make room for a new one, and the oldest completed modules when
    their payloads exceed the limit.  Go iterates over a map in an unspecified
    order; every function that ranges over [modules] takes that order from an
    instance of [RangeOrder]. *)

From S2P Require Import Prelude Crc32 Packet Section AribTables Aribstr Descriptors Psi Dsmcc.

Definition DefaultDSMCCMaxModuleSize : Z := 1040896.
Definition DefaultDSMCCMaxCompletedBytesPerService : Z := 64 * 1024 * 1024.
Definition DefaultDSMCCMaxInFlightBytesPerService : Z := 16 * 1024 * 1024.

Record DSMCCCarouselLimits : Type := MkLimits {
  MaxModuleSize : Z;
  MaxCompletedBytes : Z;
  MaxInFlightBytes : Z
}.

Definition withDefaults (l : DSMCCCarouselLimits) : DSMCCCarouselLimits :=
  MkLimits
    (if MaxModuleSize l =? 0 then DefaultDSMCCMaxModuleSize else MaxModuleSize l)
    (if MaxCompletedBytes l =? 0 then DefaultDSMCCMaxCompletedBytesPerService else MaxCompletedBytes l)
    (if MaxInFlightBytes l =? 0 then DefaultDSMCCMaxInFlightBytesPerService else MaxInFlightBytes l).

Record DSMCCModule : Type := MkModule {
  m_DownloadID : Z;
  m_ModuleID : Z;
  m_Version : Z;
  m_Size : Z;
  m_Info : list Z;
  m_Data : list Z;
  m_Generation : Z
}.

Inductive DSMCCDDBResult : Type :=
| DSMCCDDBIgnored
| DSMCCDDBBlock
| DSMCCDDBDuplicate
| DSMCCDDBCompleted.

(** The reasons of [reject]. *)
Inductive rejection : Type :=
| moduleSizeZero
| blockSizeZero
| moduleSizeLimitExceeded
| inFlightBudgetExceeded.

Record DSMCCModuleRejection : Type := MkRejection {
  rj_Module : DSMCCModuleInfo;
  rj_Reason : rejection
}.

Record dsmccModuleState : Type := MkState {
  ms_info : DSMCCModuleInfo;
  ms_downloadID : Z;
  ms_blockSize : Z;
  ms_data : list Z;
  ms_received : list bool;
  ms_count : Z;
  ms_completed : bool;
  ms_generation : Z
}.

Record DSMCCModuleAnnouncement : Type := MkAnnouncement {
  an_Module : DSMCCModule;
  an_Complete : bool;
  an_ReceivedBlocks : Z;
  an_TotalBlocks : Z
}.

Record DSMCCCarousel : Type := MkCarousel {
  c_limits : DSMCCCarouselLimits;
  c_modules : gmap Z dsmccModuleState;
  c_completedBytes : Z;
  c_inFlightBytes : Z;
  c_generation : Z;
  c_rejected : gmap Z DSMCCModuleRejection
}.

Definition NewDSMCCCarousel (limits : DSMCCCarouselLimits) : DSMCCCarousel :=
  MkCarousel (withDefaults limits) ∅ 0 0 0 ∅.

Definition setModules (ms : gmap Z dsmccModuleState) (c : DSMCCCarousel) : DSMCCCarousel :=
  MkCarousel (c_limits c) ms (c_completedBytes c) (c_inFlightBytes c) (c_generation c) (c_rejected c).
Definition setCompletedBytes (n : Z) (c : DSMCCCarousel) : DSMCCCarousel :=
  MkCarousel (c_limits c) (c_modules c) n (c_inFlightBytes c) (c_generation c) (c_rejected c).
Definition setInFlightBytes (n : Z) (c : DSMCCCarousel) : DSMCCCarousel :=
  MkCarousel (c_limits c) (c_modules c) (c_completedBytes c) n (c_generation c) (c_rejected c).
Definition setGeneration (n : Z) (c : DSMCCCarousel) : DSMCCCarousel :=
  MkCarousel (c_limits c) (c_modules c) (c_completedBytes c) (c_inFlightBytes c) n (c_rejected c).
Definition setRejected (r : gmap Z DSMCCModuleRejection) (c : DSMCCCarousel) : DSMCCCarousel :=
  MkCarousel (c_limits c) (c_modules c) (c_completedBytes c) (c_inFlightBytes c) (c_generation c) r.

Definition module (s : dsmccModuleState) : DSMCCModule :=
  MkModule (ms_downloadID s) (mi_ModuleID (ms_info s)) (mi_Version (ms_info s))
    (mi_ModuleSize (ms_info s)) (mi_Info (ms_info s)) (ms_data s) (ms_generation s).

Definition reject (m : DSMCCModuleInfo) (reason : rejection) (c : DSMCCCarousel) : DSMCCCarousel :=
  setRejected (<[mi_ModuleID m := MkRejection m reason]> (c_rejected c)) c.

Definition remove (moduleID : Z) (c : DSMCCCarousel) : DSMCCCarousel :=
  match c_modules c !! moduleID with
  | None => c
  | Some state =>
      let c := if ms_completed state
               then setCompletedBytes (u64 (c_completedBytes c - u64 (len (ms_data state)))) c
               else setInFlightBytes (u64 (c_inFlightBytes c - mi_ModuleSize (ms_info state))) c in
      setModules (delete moduleID (c_modules c)) c
  end.

(** [int((size + uint32(blockSize) - 1) / uint32(blockSize))] *)
Definition blockCount (size blockSize : Z) : Z := u32 (u32 (size + blockSize) - 1) / blockSize.

Section Range.
Context {O : RangeOrder dsmccModuleState}.

(** The scan for the oldest module that is not skipped. *)
Definition oldestOf (skip : Z → dsmccModuleState → bool) (l : list (Z * dsmccModuleState))
    : option (Z * dsmccModuleState) :=
  fold_left (λ oldest e,
    if skip (fst e) (snd e) then oldest
    else match oldest with
         | None => Some e
         | Some o => if ms_generation (snd e) <? ms_generation (snd o) then Some e else oldest
         end) l None.

Definition evictOldestInFlight (c : DSMCCCarousel) : DSMCCCarousel * bool :=
  match oldestOf (λ _ state, ms_completed state) (range (c_modules c)) with
  | None => (c, false)
  | Some (oldestID, _) => (remove oldestID c, true)
  end.

Definition evictOldestCompletedExcept (except : Z) (c : DSMCCCarousel) : DSMCCCarousel * bool :=
  match oldestOf (λ moduleID state, negb (ms_completed state) || (len (ms_data state) =? 0) ||
                                    (moduleID =? except)) (range (c_modules c)) with
  | None => (c, false)
  | Some (oldestID, _) => (remove oldestID c, true)
  end.

(** [for cond && evict() {}]; each round that continues removed a module. *)
Definition evictWhile (cond : DSMCCCarousel → bool) (evict : DSMCCCarousel → DSMCCCarousel * bool)
    (c : DSMCCCarousel) : outcome DSMCCCarousel :=
  loop (S (S (size (c_modules c)))) (λ c,
    if cond c then let '(c, ok) := evict c in if ok : bool then continue c else break c
    else break c) c.

(** The body of the loop of [ObserveDII] over the announced modules. *)
Definition observeModule (dii : DSMCCDII) (st : DSMCCCarousel * list DSMCCModuleInfo)
    (m : DSMCCModuleInfo) : outcome (DSMCCCarousel * list DSMCCModuleInfo) :=
  let '(c, accepted) := st in
  let id := mi_ModuleID m in
  if mi_ModuleSize m =? 0 then Ret (reject m moduleSizeZero (remove id c), accepted)
  else if dii_BlockSize dii =? 0 then Ret (reject m blockSizeZero (remove id c), accepted)
  else if MaxModuleSize (c_limits c) <? mi_ModuleSize m
  then Ret (reject m moduleSizeLimitExceeded (remove id c), accepted)
  else
    let c := setRejected (delete id (c_rejected c)) c in
    let same := match c_modules c !! id with
                | None => false
                | Some current =>
                    (ms_downloadID current =? dii_DownloadID dii) &&
                    (mi_Version (ms_info current) =? mi_Version m) &&
                    (mi_ModuleSize (ms_info current) =? mi_ModuleSize m) &&
                    (ms_blockSize current =? dii_BlockSize dii)
                end in
    if same : bool then Ret (c, accepted ++ [m])
    else
      let c := remove id c in
      if MaxInFlightBytes (c_limits c) <? mi_ModuleSize m
      then Ret (reject m inFlightBudgetExceeded c, accepted)
      else
        let full c := MaxInFlightBytes (c_limits c) <? u64 (c_inFlightBytes c + mi_ModuleSize m) in
        c ← evictWhile full evictOldestInFlight c;
        if full c then Ret (reject m inFlightBudgetExceeded c, accepted)
        else
          let blocks := blockCount (mi_ModuleSize m) (dii_BlockSize dii) in
          let c := setGeneration (u64 (c_generation c + 1)) c in
          let c := setModules (<[id := MkState m (dii_DownloadID dii) (dii_BlockSize dii)
                                  (replicate (Z.to_nat (mi_ModuleSize m)) 0)
                                  (replicate (Z.to_nat blocks) false) 0 false (c_generation c)]>
                                (c_modules c)) c in
          let c := setInFlightBytes (u64 (c_inFlightBytes c + mi_ModuleSize m)) c in
          Ret (c, accepted ++ [m]).

Definition ObserveDII (dii : DSMCCDII) (c : DSMCCCarousel)
    : outcome (DSMCCCarousel * list DSMCCModuleInfo) :=
  '(c, accepted) ← foldM (observeModule dii) (dii_Modules dii) (c, []);
  let seen : gset Z := list_to_set (map mi_ModuleID (dii_Modules dii)) in
  let c := fold_left (λ c e, if bool_decide (fst e ∈ seen) then c else remove (fst e) c)
             (range (c_modules c)) c in
  let c := setRejected (filter (λ e, fst e ∈ seen) (c_rejected c)) c in
  Ret (c, accepted).

Record DDBOutcome : Type := MkDDBOutcome {
  do_module : option DSMCCModule;
  do_complete : bool;
  do_result : DSMCCDDBResult;
  do_err : option error
}.

(** The end of [ObserveDDBWithResult] and of [Restore]: the module's bytes move
    from the in-flight to the completed account, which is then trimmed. *)
Definition completeModule (moduleID : Z) (state : dsmccModuleState) (c : DSMCCCarousel)
    : outcome (DSMCCCarousel * bool) :=
  let size := mi_ModuleSize (ms_info state) in
  let c := setModules (<[moduleID := state]> (c_modules c)) c in
  let c := setInFlightBytes (u64 (c_inFlightBytes c - size)) c in
  let c := setCompletedBytes (u64 (c_completedBytes c + size)) c in
  let over c := MaxCompletedBytes (c_limits c) <? c_completedBytes c in
  c ← evictWhile over (evictOldestCompletedExcept moduleID) c;
  if over c then Ret (remove moduleID c, false) else Ret (c, true).

Definition ObserveDDBWithResult (ddb : DSMCCDDB) (c : DSMCCCarousel)
    : outcome (DSMCCCarousel * DDBOutcome) :=
  let ignored := MkDDBOutcome None false DSMCCDDBIgnored None in
  match c_modules c !! ddb_ModuleID ddb with
  | None => Ret (c, ignored)
  | Some state =>
      if ms_completed state || negb (ms_downloadID state =? ddb_DownloadID ddb) ||
         negb (mi_Version (ms_info state) =? ddb_ModuleVersion ddb) || (ms_blockSize state =? 0)
      then Ret (c, ignored)
      else
        let blockNumber := ddb_BlockNumber ddb in
        if len (ms_received state) <=? blockNumber then Ret (c, ignored)
        else
          let off := blockNumber * ms_blockSize state in
          if len (ms_data state) <=? off then Ret (c, ignored)
          else
            let stop := if len (ms_data state) <? off + len (ddb_Data ddb)
                        then len (ms_data state) else off + len (ddb_Data ddb) in
            duplicate ← (ms_received state)![blockNumber];
            let received := if duplicate : bool then ms_received state
                            else <[Z.to_nat blockNumber := true]> (ms_received state) in
            let count := if duplicate : bool then ms_count state else ms_count state + 1 in
            src ← (ddb_Data ddb)![0; stop - off];
            let data := list_inserts (Z.to_nat off) src (ms_data state) in
            let keep := MkState (ms_info state) (ms_downloadID state) (ms_blockSize state) data in
            if count <? len received then
              let c := setModules (<[ddb_ModuleID ddb :=
                         keep received count false (ms_generation state)]> (c_modules c)) c in
              Ret (c, MkDDBOutcome None false
                     (if duplicate : bool then DSMCCDDBDuplicate else DSMCCDDBBlock) None)
            else
              let state := keep [] count true (ms_generation state) in
              '(c, kept) ← completeModule (ddb_ModuleID ddb) state c;
              if kept : bool
              then Ret (c, MkDDBOutcome (Some (module state)) true DSMCCDDBCompleted None)
              else Ret (c, MkDDBOutcome None false DSMCCDDBIgnored
                             (Some ErrDSMCCCarouselBudgetExceeded))
  end.

Definition Restore (m : DSMCCModule) (c : DSMCCCarousel) : outcome (DSMCCCarousel * bool) :=
  match c_modules c !! m_ModuleID m with
  | None => Ret (c, false)
  | Some state =>
      if ms_completed state || negb (ms_downloadID state =? m_DownloadID m) ||
         negb (mi_Version (ms_info state) =? m_Version m) ||
         negb (mi_ModuleSize (ms_info state) =? m_Size m) || negb (u32 (len (m_Data m)) =? m_Size m)
      then Ret (c, false)
      else
        completeModule (m_ModuleID m)
          (MkState (ms_info state) (ms_downloadID state) (ms_blockSize state) (m_Data m) []
             (blockCount (mi_ModuleSize (ms_info state)) (ms_blockSize state)) true
             (ms_generation state)) c
  end.

(** The tables returned to callers, sorted by module id. *)
Definition announcement (state : dsmccModuleState) : DSMCCModuleAnnouncement :=
  MkAnnouncement
    (MkModule (ms_downloadID state) (mi_ModuleID (ms_info state)) (mi_Version (ms_info state))
       (mi_ModuleSize (ms_info state)) (mi_Info (ms_info state))
       (if ms_completed state then ms_data state else []) 0)
    (ms_completed state) (ms_count state)
    (if ms_completed state then ms_count state else len (ms_received state)).

Definition byModuleID (a b : Z * dsmccModuleState) : Prop :=
  mi_ModuleID (ms_info (snd a)) ≤ mi_ModuleID (ms_info (snd b)).

#[global] Instance byModuleID_dec : RelDecision byModuleID.
Proof. intros a b. unfold byModuleID. apply _. Defined.

Definition Announcements (c : DSMCCCarousel) : list DSMCCModuleAnnouncement :=
  map (λ e, announcement (snd e)) (merge_sort byModuleID (range (c_modules c))).

(** The rejections, in an unspecified order of the map. *)
Definition byRejectedID (a b : DSMCCModuleRejection) : Prop :=
  mi_ModuleID (rj_Module a) ≤ mi_ModuleID (rj_Module b).

#[global] Instance byRejectedID_dec : RelDecision byRejectedID.
Proof. intros a b. unfold byRejectedID. apply _. Defined.

Definition RejectedAnnouncements {OR : RangeOrder DSMCCModuleRejection} (c : DSMCCCarousel)
    : list DSMCCModuleRejection :=
  merge_sort byRejectedID (map snd (range (c_rejected c))).

Definition ObserveDDB (ddb : DSMCCDDB) (c : DSMCCCarousel)
    : outcome (DSMCCCarousel * (option DSMCCModule * bool * option error)) :=
  '(c, r) ← ObserveDDBWithResult ddb c;
  Ret (c, (do_module r, do_complete r, do_err r)).

Definition Modules (c : DSMCCCarousel) : list DSMCCModule :=
  map (λ e, module (snd e))
    (merge_sort byModuleID (filter (λ e, ms_completed (snd e) = true) (range (c_modules c)))).

End Range.

Definition Module_ (moduleID : Z) (c : DSMCCCarousel) : option DSMCCModule :=
  match c_modules c !! moduleID with
  | None => None
  | Some state =>
      if negb (ms_completed state) || negb (u32 (len (ms_data state)) =? mi_ModuleSize (ms_info state))
      then None else Some (module state)
  end.

Definition ReleaseCompletedPayload (moduleID : Z) (c : DSMCCCarousel) : DSMCCCarousel * bool :=
  match c_modules c !! moduleID with
  | None => (c, false)
  | Some s =>
      if negb (ms_completed s) || negb (u32 (len (ms_data s)) =? mi_ModuleSize (ms_info s))
      then (c, false)
      else
        let c := setCompletedBytes (u64 (c_completedBytes c - u64 (len (ms_data s)))) c in
        (setModules (<[moduleID := MkState (ms_info s) (ms_downloadID s) (ms_blockSize s) []
                         (ms_received s) (ms_count s) (ms_completed s) (ms_generation s)]>
                       (c_modules c)) c, true)
  end.

Definition ModuleInfo (moduleID : Z) (c : DSMCCCarousel) : option DSMCCModuleInfo :=
  ms_info <$> c_modules c !! moduleID.
Definition CompletedBytes (c : DSMCCCarousel) : Z := c_completedBytes c.
Definition InFlightBytes (c : DSMCCCarousel) : Z := c_inFlightBytes c.

(** ** Byte accounting *)

Definition inFlightOf (s : dsmccModuleState) : Z :=
  if ms_completed s then 0 else mi_ModuleSize (ms_info s).
Definition completedOf (s : dsmccModuleState) : Z :=
  if ms_completed s then len (ms_data s) else 0.

Definition total (f : dsmccModuleState → Z) (ms : gmap Z dsmccModuleState) : Z :=
  map_fold (λ _ s acc, f s + acc) 0 ms.

Section Total.
Context (f : dsmccModuleState → Z).

Lemma total_empty : total f ∅ = 0.
Proof. apply map_fold_empty. Qed.

Lemma total_insert i s ms : ms !! i = None → total f (<[i := s]> ms) = f s + total f ms.
Proof.
  intros Hi. apply (map_fold_insert_L (λ _ s acc, f s + acc) 0 i s ms); [| done]. intros. lia.
Qed.

Lemma total_delete i s ms : ms !! i = Some s → total f ms = f s + total f (delete i ms).
Proof.
  intros Hi. rewrite <- (insert_delete_id ms i s) at 1 by done.
  apply total_insert. apply lookup_delete_eq.
Qed.

Lemma total_replace i s s' ms :
  ms !! i = Some s → total f (<[i := s']> ms) = total f ms - f s + f s'.
Proof.
  intros Hi. rewrite <- insert_delete_eq, total_insert by apply lookup_delete_eq.
  rewrite (total_delete i s ms Hi). lia.
Qed.

Lemma total_nonneg ms : (∀ i s, ms !! i = Some s → 0 ≤ f s) → 0 ≤ total f ms.
Proof.
  induction ms as [| i s ms Hi IH] using map_ind; intros Hf; [by rewrite total_empty |].
  rewrite total_insert by done. pose proof (Hf i s (lookup_insert_eq _ _ _)).
  assert (0 ≤ total f ms); [| lia]. apply IH. intros j t Hj. apply (Hf j).
  rewrite lookup_insert_ne; [done |]. by intros ->; rewrite Hi in Hj.
Qed.

End Total.

(** Block bookkeeping of one module. *)
Definition received_count (l : list bool) : Z := len (filter (λ b, b = true) l).

Record state_ok (limits : DSMCCCarouselLimits) (id : Z) (s : dsmccModuleState) : Prop := {
  so_id : mi_ModuleID (ms_info s) = id;
  so_size : 0 < mi_ModuleSize (ms_info s) ≤ MaxModuleSize limits;
  so_block : 0 < ms_blockSize s < 2 ^ 16;
  so_flight : ms_completed s = false →
    len (ms_data s) = mi_ModuleSize (ms_info s) ∧
    len (ms_received s) = blockCount (mi_ModuleSize (ms_info s)) (ms_blockSize s) ∧
    ms_count s = received_count (ms_received s) ∧ ms_count s < len (ms_received s);
  so_done : ms_completed s = true →
    ms_received s = [] ∧ (len (ms_data s) = mi_ModuleSize (ms_info s) ∨ ms_data s = [])
}.

(** Limits whose sums stay below 2^64 and block counts below 2^32. *)
Definition limits_ok (l : DSMCCCarouselLimits) : Prop :=
  0 < MaxModuleSize l < 2 ^ 32 - 2 ^ 16 ∧ 0 < MaxCompletedBytes l < 2 ^ 63 ∧
  0 < MaxInFlightBytes l < 2 ^ 63.

(** The accounts are exact, and every entry is well formed. *)
Record accounts_ok (c : DSMCCCarousel) : Prop := {
  ac_limits : limits_ok (c_limits c);
  ac_states : map_Forall (state_ok (c_limits c)) (c_modules c);
  ac_flight : c_inFlightBytes c = total inFlightOf (c_modules c);
  ac_done : c_completedBytes c = total completedOf (c_modules c);
  ac_max : c_inFlightBytes c ≤ MaxInFlightBytes (c_limits c);
  ac_sum : c_completedBytes c < 2 ^ 64
}.

(** Between operations the completed account is within its limit too, and no
    module is both held and rejected. *)
Definition carousel_ok (c : DSMCCCarousel) : Prop :=
  accounts_ok c ∧ c_completedBytes c ≤ MaxCompletedBytes (c_limits c) ∧
  ∀ id, is_Some (c_rejected c !! id) → c_modules c !! id = None.

Lemma inFlightOf_nonneg l id s : state_ok l id s → 0 ≤ inFlightOf s.
Proof. intros [_ H _ _ _]. unfold inFlightOf. destruct (ms_completed s); lia. Qed.
Lemma completedOf_nonneg s : 0 ≤ completedOf s.
Proof. unfold completedOf. destruct (ms_completed s); [apply len_nonneg | lia]. Qed.

Lemma u64_small x : 0 ≤ x < 2 ^ 64 → u64 x = x.
Proof. apply Z.mod_small. Qed.

Lemma states_delete c id :
  map_Forall (state_ok (c_limits c)) (c_modules c) →
  map_Forall (state_ok (c_limits c)) (delete id (c_modules c)).
Proof. intros. by apply map_Forall_delete. Qed.

(** The subtractions of [remove] never wrap, and leave exact accounts. *)
Lemma remove_spec id c :
  accounts_ok c →
  accounts_ok (remove id c) ∧ c_modules (remove id c) = delete id (c_modules c) ∧
  c_limits (remove id c) = c_limits c ∧ c_rejected (remove id c) = c_rejected c ∧
  c_completedBytes (remove id c) ≤ c_completedBytes c ∧ c_inFlightBytes (remove id c) ≤ c_inFlightBytes c.
Proof.
  intros Hc. pose proof Hc as [Hl Hs Hf Hd Hm H64]. unfold remove.
  destruct (c_modules c !! id) as [s |] eqn:E; [| by rewrite delete_id].
  pose proof (Hs id s E) as Hok. pose proof (inFlightOf_nonneg _ _ _ Hok) as Hi. pose proof (completedOf_nonneg s) as Hcn.
  assert (0 ≤ total inFlightOf (delete id (c_modules c))).
  { apply total_nonneg. intros j t Ht. eapply inFlightOf_nonneg. by apply (states_delete _ id Hs). }
  assert (0 ≤ total completedOf (delete id (c_modules c))) by (apply total_nonneg; intros; apply completedOf_nonneg).
  pose proof (total_delete inFlightOf id s _ E). pose proof (total_delete completedOf id s _ E).
  pose proof Hl as (L1 & L2 & L3). pose proof (states_delete _ id Hs).
  assert (inFlightOf s = if ms_completed s then 0 else mi_ModuleSize (ms_info s)) as E1 by done.
  assert (completedOf s = if ms_completed s then len (ms_data s) else 0) as E2 by done.
  destruct (ms_completed s) eqn:Ec; cbn;
    rewrite ?(u64_small (len (ms_data s))), u64_small by lia;
    (split_and!; [split; cbn; [exact Hl | done | lia | lia | lia | lia] | done | done | done | lia | lia]).
Qed.

Lemma total_zero f ms : (∀ i s, ms !! i = Some s → f s = 0) → total f ms = 0.
Proof.
  induction ms as [| i s ms Hi IH] using map_ind; intros Hf; [by rewrite total_empty |].
  rewrite total_insert by done. rewrite (Hf i s) by apply lookup_insert_eq. rewrite IH; [done |].
  intros j t Hj. apply (Hf j). rewrite lookup_insert_ne; [done |]. by intros ->; rewrite Hi in Hj.
Qed.

(** *** The scan for the oldest *)

Lemma oldestOf_spec skip l :
  match oldestOf skip l with
  | None => ∀ e, e ∈ l → skip (fst e) (snd e) = true
  | Some o => o ∈ l ∧ skip (fst o) (snd o) = false ∧
      ∀ e, e ∈ l → skip (fst e) (snd e) = false → ms_generation (snd o) ≤ ms_generation (snd e)
  end.
Proof.
  unfold oldestOf. set (step := λ oldest e, if _ : bool then oldest else _).
  induction l as [| e l IH] using rev_ind; [by intros e ?%elem_of_nil |].
  rewrite fold_left_app. cbn [fold_left]. destruct (fold_left step l None) as [o |].
  - destruct IH as (Ho & Hs & Hmin). unfold step. destruct (skip (fst e) (snd e)) eqn:E.
    + split_and!; [set_solver | done |]. intros e' [He' | ->%list_elem_of_singleton]%elem_of_app; [by apply Hmin |].
      by rewrite E.
    + destruct (Z.ltb_spec (ms_generation (snd e)) (ms_generation (snd o))).
      * split_and!; [set_solver | done |]. intros e' [He' | ->%list_elem_of_singleton]%elem_of_app Hs'; [| lia].
        specialize (Hmin e' He' Hs'). lia.
      * split_and!; [set_solver | done |]. intros e' [He' | ->%list_elem_of_singleton]%elem_of_app Hs';
          [by apply Hmin | lia].
  - unfold step. destruct (skip (fst e) (snd e)) eqn:E.
    + intros e' [He' | ->%list_elem_of_singleton]%elem_of_app; [by apply IH | done].
    + split_and!; [set_solver | done |]. intros e' [He' | ->%list_elem_of_singleton]%elem_of_app Hs'; [| lia].
      by rewrite IH in Hs'.
Qed.

(** *** Eviction *)

(** [c'] is [c] with some modules removed and its accounts adjusted. *)
Record shrinks (c c' : DSMCCCarousel) : Prop := {
  sh_ok : accounts_ok c';
  sh_limits : c_limits c' = c_limits c;
  sh_rejected : c_rejected c' = c_rejected c;
  sh_modules : c_modules c' ⊆ c_modules c;
  sh_done : c_completedBytes c' ≤ c_completedBytes c;
  sh_flight : c_inFlightBytes c' ≤ c_inFlightBytes c
}.

Lemma shrinks_refl c : accounts_ok c → shrinks c c.
Proof. by split. Qed.

Lemma shrinks_trans a b c : shrinks a b → shrinks b c → shrinks a c.
Proof. intros [? ? ? ? ? ?] [? ? ? ? ? ?]. split; try congruence; try lia; by etrans. Qed.

Lemma remove_shrinks id c : accounts_ok c → shrinks c (remove id c).
Proof.
  intros Hc. destruct (remove_spec id c Hc) as (? & Hm & ? & ? & ? & ?). split; try done.
  rewrite Hm. apply delete_subseteq.
Qed.

Section Orders.
Context {O : RangeOrder dsmccModuleState}.

Lemma remove_size id c s :
  accounts_ok c → c_modules c !! id = Some s →
  (size (c_modules (remove id c)) < size (c_modules c))%nat.
Proof.
  intros Hc E. destruct (remove_spec id c Hc) as (_ & -> & _).
  rewrite map_size_delete, E. assert (size (c_modules c) ≠ 0)%nat; [| lia].
  rewrite map_size_ne_0_lookup. by exists id, s.
Qed.

(** What an eviction does: it removes one module, never the excepted one, or
    reports that there is nothing to remove. *)
Definition evicts (keep : Z → Prop) (none : DSMCCCarousel → Prop)
    (evict : DSMCCCarousel → DSMCCCarousel * bool) : Prop :=
  ∀ c, accounts_ok c →
    let '(c', ok) := evict c in
    if ok : bool then ∃ id s, c' = remove id c ∧ c_modules c !! id = Some s ∧ ¬ keep id
    else c' = c ∧ none c.

Lemma evictOldestInFlight_evicts :
  evicts (λ _, False) (λ c, ∀ i s, c_modules c !! i = Some s → ms_completed s = true)
    (evictOldestInFlight).
Proof.
  intros c Hc. unfold evictOldestInFlight.
  pose proof (oldestOf_spec (λ _ s, ms_completed s) (range (c_modules c))) as H.
  destruct (oldestOf _ _) as [[id s] |].
  - destruct H as [Hin _]. exists id, s. rewrite range_elem in Hin. auto.
  - split; [done |]. intros i s Hi. apply (H (i, s)). by rewrite range_elem.
Qed.

Lemma evictOldestCompletedExcept_evicts except :
  evicts (λ id, id = except)
    (λ c, ∀ i s, c_modules c !! i = Some s → i ≠ except → completedOf s = 0)
    (evictOldestCompletedExcept except).
Proof.
  intros c Hc. unfold evictOldestCompletedExcept.
  pose proof (oldestOf_spec (λ id s, negb (ms_completed s) || (len (ms_data s) =? 0) || (id =? except))
    (range (c_modules c))) as H.
  destruct (oldestOf _ _) as [[id s] |].
  - destruct H as (Hin & Hs & _). exists id, s. rewrite range_elem in Hin. split_and!; try done.
    simpl in Hs. bools. done.
  - split; [done |]. intros i s Hi Hne. specialize (H (i, s) (proj2 (range_elem _ i s) Hi)).
    simpl in H. unfold completedOf. destruct (ms_completed s); [| done].
    destruct (Z.eqb_spec (len (ms_data s)) 0); [done |]. by destruct (Z.eqb_spec i except).
Qed.

Lemma evictWhile_spec keep none cond evict c (E : error → Prop) P :
  evicts keep none evict → accounts_ok c →
  (∀ c', shrinks c c' → (∀ id, keep id → c_modules c' !! id = c_modules c !! id) →
     cond c' = false ∨ none c' → P c') →
  ends E (evictWhile cond evict c) P.
Proof.
  intros Hev Hc HP. unfold evictWhile.
  apply (safe_loop (λ c', shrinks c c' ∧ ∀ id, keep id → c_modules c' !! id = c_modules c !! id)
    (λ c', size (c_modules c'))); [| by split; [apply shrinks_refl |] | lia].
  intros c' [Hsh Hkeep]. destruct (cond c') eqn:Econd; [| by go; apply HP; auto].
  pose proof (Hev c' (sh_ok _ _ Hsh)) as H. destruct (evict c') as [c'' [|]].
  - destruct H as (id & s & -> & Hs & Hnk). go. split; [split |].
    + eapply shrinks_trans; [done |]. apply remove_shrinks, Hsh.
    + intros id' Hk. rewrite <- Hkeep by done.
      destruct (remove_spec id c' (sh_ok _ _ Hsh)) as (_ & -> & _).
      apply lookup_delete_ne. intros ->. done.
    + eapply remove_size; [apply Hsh | done].
  - destruct H as [-> Hnone]. go. apply HP; auto.
Qed.

(** *** The operations keep the invariant *)

Lemma blockCount_spec size bs :
  0 < size < 2 ^ 32 - 2 ^ 16 → 0 < bs < 2 ^ 16 →
  0 < blockCount size bs ∧ (blockCount size bs - 1) * bs < size ≤ blockCount size bs * bs.
Proof.
  intros Hs Hb. unfold blockCount, u32. rewrite (Z.mod_small (size + bs)), Z.mod_small by lia.
  pose proof (Z.div_mod (size + bs - 1) bs ltac:(lia)). pose proof (Z.mod_pos_bound (size + bs - 1) bs ltac:(lia)).
  assert (0 < (size + bs - 1) / bs) by (apply Z.div_str_pos; lia). nia.
Qed.

Lemma shrinks_carousel c c' : carousel_ok c → shrinks c c' → carousel_ok c'.
Proof.
  intros (Hc & Hd & Hr) [Hok Hl Hrej Hm Hd' Hf]. split; [done |]. rewrite Hl, Hrej. split; [lia |].
  intros id Hid. specialize (Hr id Hid). destruct (c_modules c' !! id) eqn:E; [| done].
  by rewrite (lookup_weaken _ _ _ _ E Hm) in Hr.
Qed.

Lemma accounts_setRejected r c : accounts_ok c → accounts_ok (setRejected r c).
Proof. by intros []. Qed.

Lemma reject_ok m reason c :
  carousel_ok c → c_modules c !! mi_ModuleID m = None → carousel_ok (reject m reason c).
Proof.
  intros (Hc & Hd & Hr) Hnone. split; [by apply accounts_setRejected |]. split; [done |].
  intros id. unfold reject. cbn. rewrite lookup_insert_is_Some. intros [<- | [_ Hid]]; [done | by apply Hr].
Qed.

Lemma accept_ok id c : carousel_ok c → carousel_ok (setRejected (delete id (c_rejected c)) c).
Proof.
  intros (Hc & Hd & Hr). split; [by apply accounts_setRejected |]. split; [done |].
  intros i. cbn. rewrite lookup_delete_is_Some. intros [_ Hi]. by apply Hr.
Qed.

Lemma received_count_false n : received_count (replicate n false) = 0.
Proof. induction n; [done |]. unfold received_count in *. by rewrite replicate_S, filter_cons_False. Qed.

(** A fresh in-flight module within the budget. *)
Lemma admit_ok m download bs c :
  carousel_ok c → module_ok m → 0 < mi_ModuleSize m ≤ MaxModuleSize (c_limits c) → 0 < bs < 2 ^ 16 →
  c_modules c !! mi_ModuleID m = None → c_rejected c !! mi_ModuleID m = None →
  c_inFlightBytes c + mi_ModuleSize m ≤ MaxInFlightBytes (c_limits c) →
  let c1 := setGeneration (u64 (c_generation c + 1)) c in
  let c2 := setModules (<[mi_ModuleID m := MkState m download bs
              (replicate (Z.to_nat (mi_ModuleSize m)) 0)
              (replicate (Z.to_nat (blockCount (mi_ModuleSize m) bs)) false) 0 false (c_generation c1)]>
              (c_modules c1)) c1 in
  carousel_ok (setInFlightBytes (u64 (c_inFlightBytes c2 + mi_ModuleSize m)) c2).
Proof.
  intros ([Hl Hs Hf Hd Hm H64] & Hdone & Hr) Hok Hsize Hbs Hnone Hrej Hfit. cbv zeta. cbn.
  pose proof Hl as (L1 & L2 & L3).
  assert (0 ≤ total inFlightOf (c_modules c))
    by (apply total_nonneg; intros i t Ht; eapply inFlightOf_nonneg; by apply (Hs i)).
  destruct (blockCount_spec (mi_ModuleSize m) bs) as [Hbc _]; [lia | done |].
  rewrite u64_small by lia. split; [| split; cbn; [done |]].
  - split; cbn; [done | | | | lia | done].
    + apply map_Forall_insert_2; [| done]. split; simpl; try done.
      intros _. rewrite !len_replicate, received_count_false, !Z2Nat.id by lia. split_and!; lia.
    + rewrite total_insert by done. unfold inFlightOf at 1. simpl. lia.
    + rewrite total_insert by done. unfold completedOf at 1. simpl. lia.
  - intros id Hid. rewrite lookup_insert_ne; [by apply Hr |]. intros <-. rewrite Hrej in Hid. by destruct Hid.
Qed.

Definition same_limits (c c' : DSMCCCarousel) : Prop := c_limits c' = c_limits c.

Lemma observeModule_ok dii c acc m :
  carousel_ok c → module_ok m → word16 (dii_BlockSize dii) →
  returns (observeModule dii (c, acc) m) (λ '(c', _), carousel_ok c' ∧ same_limits c c').
Proof.
  intros Hc Hm Hbs. pose proof Hm as (_ & Hsize & _ & _). set (id := mi_ModuleID m).
  assert (∀ c, carousel_ok c → carousel_ok (remove id c) ∧ c_modules (remove id c) !! id = None ∧
    same_limits c (remove id c) ∧ c_rejected (remove id c) = c_rejected c) as Hrem.
  { intros c0 H0. destruct (remove_spec id c0 (proj1 H0)) as (_ & Hmod & Hlim & Hrj & _).
    split_and!; try done; [| by rewrite Hmod, lookup_delete_eq].
    eapply shrinks_carousel; [done | apply remove_shrinks, H0]. }
  assert (∀ c r, carousel_ok c → returns (Ret (reject m r (remove id c), acc))
    (λ '(c', _), carousel_ok c' ∧ same_limits c c')) as Hreject.
  { intros c0 r H0. destruct (Hrem c0 H0) as (? & ? & ? & _). by split; [apply reject_ok |]. }
  unfold observeModule. fold id.
  destruct (Z.eqb_spec (mi_ModuleSize m) 0); [by apply Hreject |].
  destruct (Z.eqb_spec (dii_BlockSize dii) 0); [by apply Hreject |].
  destruct (Z.ltb_spec (MaxModuleSize (c_limits c)) (mi_ModuleSize m)); [by apply Hreject |].
  set (c1 := setRejected _ c). assert (carousel_ok c1) as H1 by by apply accept_ok.
  assert (c_rejected c1 !! id = None) as Hrj by apply lookup_delete_eq. cbv zeta.
  destruct (match c_modules c1 !! id with Some _ => _ | None => _ end); [by split |].
  destruct (Hrem c1 H1) as (H2 & Hnone & Hlim & Hrj2). set (c2 := remove id c1) in *.
  destruct (Z.ltb_spec (MaxInFlightBytes (c_limits c2)) (mi_ModuleSize m)).
  { split; [by apply reject_ok | done]. }
  apply safe_bind.
  eapply (evictWhile_spec _ _ _ _ _ _ _ evictOldestInFlight_evicts (proj1 H2)).
  intros c3 Hsh _ _. pose proof (shrinks_carousel _ _ H2 Hsh) as H3. destruct Hsh as [_ Hl3 Hr3 Hm3 _ _].
  assert (c_modules c3 !! id = None) as Hnone3.
  { destruct (c_modules c3 !! id) eqn:E; [| done]. by rewrite (lookup_weaken _ _ _ _ E Hm3) in Hnone. }
  assert (same_limits c c3) by (unfold same_limits in *; by rewrite Hl3, Hlim).
  pose proof H3 as ([Hlok Hs3 Hf3 _ Hmax3 _] & _ & _). pose proof Hlok as (L1 & L2 & L3).
  assert (0 ≤ c_inFlightBytes c3).
  { rewrite Hf3. apply total_nonneg. intros i t Ht. eapply inFlightOf_nonneg. by apply (Hs3 i). }
  rewrite u64_small by lia.
  destruct (Z.ltb_spec (MaxInFlightBytes (c_limits c3)) (c_inFlightBytes c3 + mi_ModuleSize m)).
  { split; [by apply reject_ok | done]. }
  split; [| done]. apply admit_ok; try done; unfold word16 in Hbs; try lia.
  - replace (c_limits c3) with (c_limits c) by done. lia.
  - by rewrite Hr3, Hrj2.
Qed.

Lemma removeUnseen_spec (seen : gset Z) (l : list (Z * dsmccModuleState)) c :
  carousel_ok c →
  let c' := fold_left (λ c e, if bool_decide (fst e ∈ seen) then c else remove (fst e) c) l c in
  carousel_ok c' ∧ same_limits c c' ∧ c_modules c' ⊆ c_modules c ∧
  ∀ id s, c_modules c' !! id = Some s → (∃ s, (id, s) ∈ l) → id ∈ seen.
Proof.
  revert c. induction l as [| [id s] l IH]; intros c Hc; cbn [fold_left].
  { split_and!; try done. intros id s _ [t Ht]. by apply elem_of_nil in Ht. }
  set (c1 := if bool_decide _ then c else _).
  assert (carousel_ok c1 ∧ same_limits c c1 ∧ c_modules c1 ⊆ c_modules c ∧
          (id ∈ seen ∨ c_modules c1 !! id = None)) as (H1 & Hl1 & Hm1 & Hid).
  { unfold c1. cbn [fst]. case_bool_decide; [split_and!; auto; done |].
    destruct (remove_spec id c (proj1 Hc)) as (_ & Hmod & Hlim & _).
    split_and!; [eapply shrinks_carousel; [done | apply remove_shrinks, Hc] | done | |].
    - rewrite Hmod. apply delete_subseteq.
    - right. by rewrite Hmod, lookup_delete_eq. }
  destruct (IH c1 H1) as (H2 & Hl2 & Hm2 & Hseen). cbv zeta in *.
  split_and!; [done | unfold same_limits in *; congruence | by etrans |].
  intros id' s' Hs' [t [Ht | Ht]%elem_of_cons]; [| by eapply Hseen; eauto].
  injection Ht as -> _. destruct Hid as [Hid | Hid]; [done |].
  by rewrite (lookup_weaken _ _ _ _ Hs' Hm2) in Hid.
Qed.

Lemma ObserveDII_ok dii c :
  carousel_ok c → Forall module_ok (dii_Modules dii) → word16 (dii_BlockSize dii) →
  returns (ObserveDII dii c) (λ '(c', _), carousel_ok c' ∧ same_limits c c' ∧
    (∀ id, is_Some (c_modules c' !! id) ∨ is_Some (c_rejected c' !! id) →
       id ∈ map mi_ModuleID (dii_Modules dii))).
Proof.
  intros Hc Hms Hbs. unfold ObserveDII. apply safe_bind.
  eapply safe_mono; [apply (safe_foldM (λ '(c', _), carousel_ok c' ∧ same_limits c c')) |].
  - by split.
  - intros [c' acc] m [Hc' Hl] Hin. rewrite Forall_forall in Hms.
    eapply safe_mono; [apply observeModule_ok; [done | by apply Hms | done] |].
    intros [c'' acc'] [Hc'' Hl']. split; [done |]. unfold same_limits in *. congruence.
  - intros [c' acc] [Hc' Hl']. cbv zeta. set (seen := list_to_set _).
    destruct (removeUnseen_spec seen (range (c_modules c')) c' Hc') as (H1 & Hl1 & Hm1 & Hseen).
    cbv zeta in *. set (c1 := fold_left _ _ c') in *. split_and!.
    + destruct H1 as (Hac & Hd & Hr). split; [by apply accounts_setRejected |]. split; [done |].
      intros id [r Hid]. cbn in Hid. apply map_lookup_filter_Some in Hid as [Hid _]. apply Hr. by exists r.
    + unfold same_limits in *. cbn. congruence.
    + intros id [[s Hid] | [r Hid]]; cbn in Hid; apply (elem_of_list_to_set (C := gset Z)); fold seen.
      * eapply Hseen; [exact Hid |]. exists s. rewrite range_elem. by eapply lookup_weaken.
      * by apply map_lookup_filter_Some in Hid as [_ Hid].
Qed.

(** Completing an in-flight module: its bytes change account once. *)
Lemma completeModule_ok id s0 s c :
  carousel_ok c → c_modules c !! id = Some s0 → ms_completed s0 = false →
  ms_info s = ms_info s0 → ms_blockSize s = ms_blockSize s0 → ms_completed s = true →
  ms_received s = [] → len (ms_data s) = mi_ModuleSize (ms_info s) →
  returns (completeModule id s c) (λ '(c', kept), carousel_ok c' ∧ same_limits c c' ∧
    c_modules c' !! id = (if kept : bool then Some s else None) ∧
    (mi_ModuleSize (ms_info s) ≤ MaxCompletedBytes (c_limits c) → kept = true)).
Proof.
  intros ([Hl Hs Hf Hd Hm H64] & Hdone & Hr) E Ec Hi Hbs Hcomp Hrec Hdata. unfold completeModule. cbv zeta.
  pose proof (Hs id s0 E) as [S1 S2 S3 S4 S5]. pose proof Hl as (L1 & L2 & L3).
  pose proof (total_replace inFlightOf id s0 s _ E) as T1. pose proof (total_replace completedOf id s0 s _ E) as T2.
  assert (inFlightOf s0 = mi_ModuleSize (ms_info s0)) as W1 by (unfold inFlightOf; by rewrite Ec).
  assert (completedOf s0 = 0) as W2 by (unfold completedOf; by rewrite Ec).
  assert (inFlightOf s = 0) as W3 by (unfold inFlightOf; by rewrite Hcomp).
  assert (completedOf s = mi_ModuleSize (ms_info s)) as W4 by (unfold completedOf; by rewrite Hcomp).
  pose proof (total_delete inFlightOf id s0 _ E) as T3.
  assert (0 ≤ total inFlightOf (delete id (c_modules c))).
  { apply total_nonneg. intros j t Ht. eapply inFlightOf_nonneg. by apply (states_delete _ id Hs). }
  assert (0 ≤ total completedOf (c_modules c)) by (apply total_nonneg; intros; apply completedOf_nonneg).
  rewrite Hi in *. set (sz := mi_ModuleSize (ms_info s0)) in *.
  cbn [c_completedBytes c_inFlightBytes c_limits setModules setInFlightBytes setCompletedBytes].
  rewrite !u64_small by lia. set (c1 := setCompletedBytes _ _).
  assert (accounts_ok c1) as H1.
  { split; cbn; [done | | lia | lia | lia | lia]. apply map_Forall_insert_2; [| done].
    split; rewrite ?Hi, ?Hbs; try done; [by rewrite Hcomp | intros _; split; [done | by left]]. }
  assert (∀ j, is_Some (c_rejected c1 !! j) → c_modules c1 !! j = None) as Hr1.
  { intros j Hj. cbn. destruct (decide (j = id)) as [-> |]; [by rewrite (Hr id Hj) in E |].
    rewrite lookup_insert_ne by done. by apply Hr. }
  apply safe_bind. eapply (evictWhile_spec _ _ _ _ _ _ _ (evictOldestCompletedExcept_evicts id) H1).
  intros c2 [H2 Hl2 Hr2 Hm2 Hd2 _] Hkeep Hend. specialize (Hkeep id eq_refl).
  assert (c_modules c2 !! id = Some s) as E2 by (rewrite Hkeep; cbn; apply lookup_insert_eq).
  assert (same_limits c c2) by (unfold same_limits; by rewrite Hl2).
  assert (∀ j, is_Some (c_rejected c2 !! j) → c_modules c2 !! j = None) as Hr2'.
  { intros j Hj. rewrite Hr2 in Hj. specialize (Hr1 j Hj). destruct (c_modules c2 !! j) eqn:E'; [| done].
    by rewrite (lookup_weaken _ _ _ _ E' Hm2) in Hr1. }
  assert ((∀ i t, c_modules c2 !! i = Some t → i ≠ id → completedOf t = 0) →
    total completedOf (delete id (c_modules c2)) = 0) as Hzero.
  { intros Hn. apply total_zero. intros i t [? Ht]%lookup_delete_Some. by eapply Hn. }
  pose proof (total_delete completedOf id s _ E2) as T4. pose proof (ac_done _ H2) as Hd3.
  destruct (Z.ltb_spec (MaxCompletedBytes (c_limits c2)) (c_completedBytes c2)) as [Hover | Hfit].
  - destruct Hend as [Hend | Hnone]; [done |]. specialize (Hzero Hnone).
    destruct (remove_spec id c2 H2) as (Hac3 & Hm3 & Hl3 & Hr3 & _). split_and!.
    + split; [done |]. split; [| intros j Hj; rewrite Hm3, Hr3 in *; rewrite lookup_delete_None; auto].
      rewrite (ac_done _ Hac3), Hm3, Hzero, Hl3. destruct (ac_limits _ H2). lia.
    + unfold same_limits in *. congruence.
    + by rewrite Hm3, lookup_delete_eq.
    + intros Hle. exfalso. replace (c_limits c2) with (c_limits c) in Hover by done. lia.
  - split_and!; try done.
Qed.

Lemma received_count_app l k : received_count (l ++ k) = received_count l + received_count k.
Proof. unfold received_count. by rewrite filter_app, len_app. Qed.

Lemma received_count_insert l i :
  l !! i = Some false → received_count (<[i := true]> l) = received_count l + 1.
Proof.
  intros Hi. rewrite <- (take_drop_middle l i false Hi) at 2.
  rewrite insert_take_drop by (by eapply lookup_lt_Some).
  rewrite !received_count_app. change (true :: ?r) with ([true] ++ r). change (false :: ?r) with ([false] ++ r).
  rewrite !received_count_app. change (received_count [true]) with 1. change (received_count [false]) with 0. lia.
Qed.

(** Some block is still missing while the count is short. *)
Lemma received_count_all l : (∀ i, (i < length l)%nat → l !! i = Some true) → received_count l = len l.
Proof.
  induction l as [| b l IH]; intros H; [done |]. change (b :: l) with ([b] ++ l).
  rewrite received_count_app, len_app. rewrite IH by (intros i Hi; apply (H (S i)); simpl; lia).
  specialize (H 0%nat ltac:(simpl; lia)). injection H as ->. done.
Qed.

Lemma received_count_le l : received_count l ≤ len l.
Proof. unfold received_count, len. pose proof (length_filter (λ b, b = true) l). lia. Qed.

Lemma received_count_full l i : received_count l = len l → (i < length l)%nat → l !! i = Some true.
Proof.
  intros Hc Hi. destruct (lookup_lt_is_Some_2 l i Hi) as [[|] Hb]; [done |].
  rewrite <- (take_drop_middle l i false Hb) in Hc. rewrite received_count_app, len_app in Hc.
  change (false :: drop (S i) l) with ([false] ++ drop (S i) l) in Hc.
  rewrite received_count_app, len_app in Hc. change (received_count [false]) with 0 in Hc.
  change (len [false]) with 1 in Hc.
  pose proof (received_count_le (take i l)). pose proof (received_count_le (drop (S i) l)). lia.
Qed.

(** The state a data block leaves in an in-flight module. *)
Definition marked (s : dsmccModuleState) (data : list Z) (received : list bool) : dsmccModuleState :=
  MkState (ms_info s) (ms_downloadID s) (ms_blockSize s) data received
    (received_count received) false (ms_generation s).

Definition accepts (s : dsmccModuleState) (ddb : DSMCCDDB) : Prop :=
  ms_completed s = false ∧ ms_downloadID s = ddb_DownloadID ddb ∧
  mi_Version (ms_info s) = ddb_ModuleVersion ddb ∧ 0 ≤ ddb_BlockNumber ddb < len (ms_received s).

(** The bytes a block writes, clipped at the end of the module. *)
Definition written (s : dsmccModuleState) (ddb : DSMCCDDB) : list Z :=
  let off := ddb_BlockNumber ddb * ms_blockSize s in
  list_inserts (Z.to_nat off)
    (sub (ddb_Data ddb) 0 (Z.min (len (ms_data s)) (off + len (ddb_Data ddb)) - off)) (ms_data s).

Lemma block_in_range limits id s n :
  state_ok limits id s → limits_ok limits → ms_completed s = false → 0 ≤ n < len (ms_received s) →
  0 ≤ n * ms_blockSize s < mi_ModuleSize (ms_info s).
Proof.
  intros [_ Hs Hb Hf _] (L1 & _) Hc Hn. destruct (Hf Hc) as (_ & Hr & _).
  destruct (blockCount_spec (mi_ModuleSize (ms_info s)) (ms_blockSize s)) as (B1 & B2 & B3); [lia | done |].
  rewrite Hr in Hn. nia.
Qed.

(** Every branch of [ObserveDDBWithResult]. *)
Definition ddb_post (c : DSMCCCarousel) (ddb : DSMCCDDB) (c' : DSMCCCarousel) (r : DDBOutcome) : Prop :=
  let id := ddb_ModuleID ddb in
  match c_modules c !! id with
  | Some s =>
      (¬ accepts s ddb ∧ c' = c ∧ r = MkDDBOutcome None false DSMCCDDBIgnored None) ∨
      (accepts s ddb ∧
       let n := Z.to_nat (ddb_BlockNumber ddb) in
       let received := <[n := true]> (ms_received s) in
       if received_count received <? len received then
         c' = setModules (<[id := marked s (written s ddb) received]> (c_modules c)) c ∧
         r = MkDDBOutcome None false
               (if default false (ms_received s !! n) then DSMCCDDBDuplicate else DSMCCDDBBlock) None
       else
         let s' := MkState (ms_info s) (ms_downloadID s) (ms_blockSize s) (written s ddb) []
                     (received_count received) true (ms_generation s) in
         (c_modules c' !! id = Some s' ∧ r = MkDDBOutcome (Some (module s')) true DSMCCDDBCompleted None) ∨
         (MaxCompletedBytes (c_limits c) < mi_ModuleSize (ms_info s) ∧ c_modules c' !! id = None ∧
          r = MkDDBOutcome None false DSMCCDDBIgnored (Some ErrDSMCCCarouselBudgetExceeded)))
  | None => c' = c ∧ r = MkDDBOutcome None false DSMCCDDBIgnored None
  end.

Lemma marked_ok limits id s data received :
  state_ok limits id s → ms_completed s = false → len data = len (ms_data s) →
  len received = len (ms_received s) → received_count received < len received →
  state_ok limits id (marked s data received).
Proof.
  intros [S1 S2 S3 S4 S5] Hc Hd Hr Hlt. destruct (S4 Hc) as (D & R & _ & _).
  split; simpl; try done. intros _. split_and!; congruence || lia.
Qed.

Lemma setModules_marked_ok id s data received c :
  carousel_ok c → c_modules c !! id = Some s → ms_completed s = false →
  len data = len (ms_data s) → len received = len (ms_received s) → received_count received < len received →
  carousel_ok (setModules (<[id := marked s data received]> (c_modules c)) c).
Proof.
  intros ([Hl Hs Hf Hd Hm H64] & Hdone & Hr) E Hc HL HR Hlt. split; [| split; cbn; [done |]].
  - split; cbn; try done; [| |].
    + apply map_Forall_insert_2; [| done]. apply marked_ok; [by apply (Hs id) | done ..].
    + rewrite (total_replace _ id s) by done.
      assert (inFlightOf (marked s data received) = inFlightOf s) as -> by (unfold inFlightOf; by rewrite Hc). lia.
    + rewrite (total_replace _ id s) by done.
      assert (completedOf (marked s data received) = completedOf s) as -> by (unfold completedOf; by rewrite Hc). lia.
  - intros j Hj. destruct (decide (j = id)) as [-> |]; [by rewrite (Hr id Hj) in E |].
    rewrite lookup_insert_ne by done. by apply Hr.
Qed.

Lemma accepts_guard s ddb :
  0 < ms_blockSize s → 0 ≤ ddb_BlockNumber ddb →
  (ms_completed s || negb (ms_downloadID s =? ddb_DownloadID ddb) ||
   negb (mi_Version (ms_info s) =? ddb_ModuleVersion ddb) || (ms_blockSize s =? 0)) = false →
  ddb_BlockNumber ddb < len (ms_received s) → accepts s ddb.
Proof. intros Hb Hn Hg Hl. bools. unfold accepts. auto. Qed.

Lemma ObserveDDB_spec ddb c :
  carousel_ok c → ddb_ok ddb →
  returns (ObserveDDBWithResult ddb c) (λ '(c', r),
    carousel_ok c' ∧ same_limits c c' ∧ ddb_post c ddb c' r).
Proof.
  intros Hc (_ & _ & _ & Hbn & _). unfold ObserveDDBWithResult, ddb_post. set (id := ddb_ModuleID ddb).
  destruct (c_modules c !! id) as [s |] eqn:E; [| by split_and!].
  pose proof (map_Forall_lookup_1 _ _ _ _ (ac_states _ (proj1 Hc)) E) as Hs. pose proof Hs as [S1 S2 S3 S4 S5].
  assert (∀ P, ¬ accepts s ddb → returns (Ret (c, MkDDBOutcome None false DSMCCDDBIgnored None)) (λ '(c', r),
    carousel_ok c' ∧ same_limits c c' ∧ ((¬ accepts s ddb ∧ c' = c ∧ r = MkDDBOutcome None false DSMCCDDBIgnored None) ∨ P c' r)))
    as Hignored by (intros P Hna; split_and!; try done; by left).
  destruct (ms_completed s || _ || _ || _) eqn:Eg.
  { apply Hignored. intros (A1 & A2 & A3 & _). rewrite A1, A2, A3, !Z.eqb_refl in Eg.
    destruct (Z.eqb_spec (ms_blockSize s) 0); [lia | done]. }
  destruct (Z.leb_spec (len (ms_received s)) (ddb_BlockNumber ddb)).
  { apply Hignored. intros (_ & _ & _ & A4). lia. }
  unfold word16 in Hbn. pose proof (accepts_guard s ddb ltac:(lia) ltac:(lia) Eg ltac:(lia)) as Hacc.
  pose proof Hacc as (Hcomp & _ & _ & Hn). pose proof (ac_limits _ (proj1 Hc)) as Hlim.
  pose proof (block_in_range _ _ _ _ Hs Hlim Hcomp Hn) as Hoff. destruct (S4 Hcomp) as (HD & HR & HC & Hlt).
  cbv zeta. rewrite HD. set (off := ddb_BlockNumber ddb * ms_blockSize s) in *.
  destruct (Z.leb_spec (mi_ModuleSize (ms_info s)) off); [lia |].
  pose proof (len_nonneg (ddb_Data ddb)).
  set (stop := if mi_ModuleSize (ms_info s) <? _ then _ else _).
  assert (stop = Z.min (mi_ModuleSize (ms_info s)) (off + len (ddb_Data ddb))) as Hstop
    by (unfold stop; destruct (Z.ltb_spec (mi_ModuleSize (ms_info s)) (off + len (ddb_Data ddb))); lia).
  rewrite Hstop, <- HD. set (n := Z.to_nat (ddb_BlockNumber ddb)).
  destruct (lookup_lt_is_Some_2 (ms_received s) n) as [b Hb]; [unfold n, len in *; lia |].
  rewrite (idx_lookup (ms_received s) (ddb_BlockNumber ddb) b) by (done || lia). run. rewrite slice_sub by lia. run.
  assert ((if b then ms_received s else <[n := true]> (ms_received s)) = <[n := true]> (ms_received s)) as ->
    by (destruct b; [by rewrite list_insert_id | done]).
  set (received := <[n := true]> (ms_received s)).
  assert (len received = len (ms_received s)) as Hlr by (unfold received, len; by rewrite length_insert).
  assert ((if b then ms_count s else ms_count s + 1) = received_count received) as ->.
  { unfold received. rewrite HC. destruct b; [by rewrite list_insert_id | by rewrite received_count_insert]. }
  change (list_inserts (Z.to_nat off) _ (ms_data s)) with (written s ddb).
  assert (len (written s ddb) = len (ms_data s)) as Hlw
    by (unfold written, len; by rewrite length_inserts).
  destruct (Z.ltb_spec (received_count received) (len received)).
  - split_and!; [by apply setModules_marked_ok | done |]. right. split; [done |]. split; [done |].
    rewrite Hb. by destruct b.
  - apply safe_bind. eapply safe_mono; [apply (completeModule_ok id s); try done; cbn; by rewrite Hlw |].
    intros [c' kept] (Hc' & Hl' & Hm' & Hk). simpl in Hk. destruct kept; (split_and!; [done | done |]);
      right; (split; [done |]); [left; by split | right].
    split; [| by split].
    rewrite HD. apply Z.nle_gt. intros Hle. by specialize (Hk Hle).
Qed.

Lemma Restore_ok m c :
  carousel_ok c → len (m_Data m) < 2 ^ 32 →
  returns (Restore m c) (λ '(c', ok), carousel_ok c' ∧ same_limits c c' ∧
    (ok = true → ∃ s, c_modules c' !! m_ModuleID m = Some s ∧ ms_completed s = true ∧ ms_data s = m_Data m)).
Proof.
  intros Hc Hlen. unfold Restore. set (id := m_ModuleID m).
  destruct (c_modules c !! id) as [s |] eqn:E; [| by split_and!].
  destruct (_ || _) eqn:Eg; [by split_and! |]. bools.
  unfold u32 in *. rewrite Z.mod_small in * by (pose proof (len_nonneg (m_Data m)); lia).
  eapply safe_mono; [apply (completeModule_ok id s); try done; simpl; congruence |].
  intros [c' kept] (Hc' & Hl' & Hm' & _). split_and!; [done | done |].
  intros ->. by eexists.
Qed.

Lemma ReleaseCompletedPayload_ok id c :
  carousel_ok c →
  let c' := (ReleaseCompletedPayload id c).1 in carousel_ok c' ∧ same_limits c c'.
Proof.
  intros Hc. pose proof Hc as ([Hl Hs Hf Hd Hm H64] & Hdone & Hr). unfold ReleaseCompletedPayload.
  destruct (c_modules c !! id) as [s |] eqn:E; [| done].
  destruct (_ || _) eqn:Eg; [done |]. bools. pose proof (Hs id s E) as [S1 S2 S3 S4 S5].
  destruct (S5 ltac:(done)) as [S6 S7]. pose proof Hl as (L1 & L2 & L3).
  set (s' := MkState (ms_info s) (ms_downloadID s) (ms_blockSize s) [] (ms_received s) (ms_count s) (ms_completed s) (ms_generation s)).
  pose proof (total_replace inFlightOf id s s' _ E) as T1. pose proof (total_replace completedOf id s s' _ E) as T2.
  pose proof (total_delete completedOf id s _ E) as T3. pose proof (len_nonneg (ms_data s)).
  assert (0 ≤ total completedOf (delete id (c_modules c))) by (apply total_nonneg; intros; apply completedOf_nonneg).
  assert (inFlightOf s' = inFlightOf s) as W1 by done.
  assert (completedOf s = len (ms_data s)) as W2 by (unfold completedOf; by destruct (ms_completed s)).
  assert (completedOf s' = 0) as W3 by (unfold completedOf; cbn; by destruct (ms_completed s)).
  cbn. rewrite (u64_small (len (ms_data s))), u64_small by lia. split; [| done].
  split; [| split; cbn; [lia |]].
  - split; cbn; [done | | lia | lia | lia | lia]. apply map_Forall_insert_2; [| done].
    split; cbn; try done; [congruence |]. intros _. split; [done | by right].
  - intros j Hj. destruct (decide (j = id)) as [-> |]; [by rewrite (Hr id Hj) in E |].
    rewrite lookup_insert_ne by done. by apply Hr.
Qed.

(** The states a carousel goes through under its callers' operations. *)
Inductive reachable (limits : DSMCCCarouselLimits) : DSMCCCarousel → Prop :=
| reach_new : reachable limits (NewDSMCCCarousel limits)
| reach_dii c dii c' accepted :
    reachable limits c → Forall module_ok (dii_Modules dii) → word16 (dii_BlockSize dii) →
    ObserveDII dii c = Ret (c', accepted) → reachable limits c'
| reach_ddb c ddb c' r :
    reachable limits c → ddb_ok ddb → ObserveDDBWithResult ddb c = Ret (c', r) → reachable limits c'
| reach_restore c m c' ok :
    reachable limits c → len (m_Data m) < 2 ^ 32 → Restore m c = Ret (c', ok) → reachable limits c'
| reach_release c id : reachable limits c → reachable limits (ReleaseCompletedPayload id c).1
| reach_remove c id : reachable limits c → reachable limits (remove id c).

Lemma NewDSMCCCarousel_ok limits : limits_ok (withDefaults limits) → carousel_ok (NewDSMCCCarousel limits).
Proof.
  intros Hl. pose proof Hl as (L1 & L2 & L3). split;
    [| split; [cbn [c_completedBytes c_limits NewDSMCCCarousel]; lia | by intros id [r Hid]]].
  split; cbn [c_completedBytes c_inFlightBytes c_modules c_limits NewDSMCCCarousel]; rewrite ?total_empty;
    first [done | lia | apply map_Forall_empty].
Qed.

Lemma reachable_ok limits c :
  limits_ok (withDefaults limits) → reachable limits c → carousel_ok c ∧ c_limits c = withDefaults limits.
Proof.
  intros Hl. induction 1 as [| c dii c' acc _ [IH IHl] Hm Hb E | c ddb c' r _ [IH IHl] Hd E
    | c m c' ok _ [IH IHl] Hd E | c id _ [IH IHl] | c id _ [IH IHl]].
  - split; [by apply NewDSMCCCarousel_ok | done].
  - pose proof (ObserveDII_ok dii c IH Hm Hb) as H. rewrite E in H. destruct H as (? & Hs & _).
    split; [done | by rewrite Hs].
  - pose proof (ObserveDDB_spec ddb c IH Hd) as H. rewrite E in H. destruct H as (? & Hs & _).
    split; [done | by rewrite Hs].
  - pose proof (Restore_ok m c IH Hd) as H. rewrite E in H. destruct H as (? & Hs & _).
    split; [done | by rewrite Hs].
  - destruct (ReleaseCompletedPayload_ok id c IH) as [? Hs]. by rewrite Hs.
  - destruct (remove_spec id c (proj1 IH)) as (_ & _ & Hs & _).
    split; [eapply shrinks_carousel; [done | apply remove_shrinks, IH] | by rewrite Hs].
Qed.

(** C4 (DSMCCCarousel: ObserveDII, ObserveDDB, Restore,
    ReleaseCompletedPayload): whatever the operations and whatever the order
    in which Go ranges over the modules, the two byte accounts stay exact, so
    that their unsigned subtractions never wrap, and within the budgets; the
    buffers have the announced sizes; no module is both held and rejected. *)
Theorem carousel_accounts limits c :
  limits_ok (withDefaults limits) → reachable limits c →
  CompletedBytes c = total completedOf (c_modules c) ∧
  InFlightBytes c = total inFlightOf (c_modules c) ∧
  0 ≤ CompletedBytes c ≤ MaxCompletedBytes (c_limits c) ∧
  0 ≤ InFlightBytes c ≤ MaxInFlightBytes (c_limits c) ∧
  map_Forall (state_ok (c_limits c)) (c_modules c) ∧
  ∀ id, is_Some (c_rejected c !! id) → c_modules c !! id = None.
Proof.
  intros Hl Hr. destruct (reachable_ok limits c Hl Hr) as [([_ Hs Hf Hd Hm _] & Hdone & Hrej) _].
  unfold CompletedBytes, InFlightBytes. split_and!; try done; [rewrite Hd | rewrite Hf];
    (apply total_nonneg; intros i t Ht); [apply completedOf_nonneg |].
  eapply inFlightOf_nonneg. by apply (Hs i).
Qed.

(** ** Reassembly *)

Definition blockOf (s : dsmccModuleState) (k : nat) : nat := (k / Z.to_nat (ms_blockSize s))%nat.

(** The bytes of every received block are those of the content. *)
Definition assembled (content : list Z) (s : dsmccModuleState) : Prop :=
  length content = length (ms_data s) ∧
  ∀ k, (k < length content)%nat → ms_received s !! blockOf s k = Some true →
    ms_data s !! k = content !! k.

(** A block of this module that carries its part of the content. *)
Definition honest (content : list Z) (s : dsmccModuleState) (ddb : DSMCCDDB) : Prop :=
  ddb_ok ddb ∧ ddb_ModuleID ddb = mi_ModuleID (ms_info s) ∧ ddb_DownloadID ddb = ms_downloadID s ∧
  ddb_ModuleVersion ddb = mi_Version (ms_info s) ∧
  0 ≤ ddb_BlockNumber ddb < blockCount (mi_ModuleSize (ms_info s)) (ms_blockSize s) ∧
  let off := ddb_BlockNumber ddb * ms_blockSize s in
  ddb_Data ddb = sub content off (Z.min (off + ms_blockSize s) (len content)).

Lemma sub_lookup {A} (l : list A) a b k :
  0 ≤ a → (k < Z.to_nat (b - a))%nat → sub l a b !! k = l !! (Z.to_nat a + k)%nat.
Proof. intros. unfold sub. rewrite lookup_take by done. case_decide; [| lia]. apply lookup_drop. Qed.

Lemma written_assembled content s ddb :
  assembled content s → honest content s ddb → 0 < ms_blockSize s →
  0 ≤ ddb_BlockNumber ddb * ms_blockSize s < len content →
  assembled content (marked s (written s ddb) (<[Z.to_nat (ddb_BlockNumber ddb) := true]> (ms_received s))).
Proof.
  intros [HL Hd] (_ & _ & _ & _ & Hn & Hdata) Hb Hoff. cbv zeta in Hdata.
  set (off := ddb_BlockNumber ddb * ms_blockSize s) in *.
  assert (len content = len (ms_data s)) as HLz by (unfold len; lia).
  assert (len (ddb_Data ddb) = Z.min (off + ms_blockSize s) (len content) - off) as HLd
    by (rewrite Hdata; apply len_sub; lia).
  assert (sub (ddb_Data ddb) 0 (Z.min (len (ms_data s)) (off + len (ddb_Data ddb)) - off) = ddb_Data ddb) as Hsrc.
  { replace (Z.min _ _ - off) with (len (ddb_Data ddb)) by lia. apply sub_full. }
  unfold assembled, marked, written. cbn [ms_data ms_received]. fold off. rewrite Hsrc.
  split; [by rewrite length_inserts |]. unfold blockOf. cbn [ms_blockSize].
  set (B := Z.to_nat (ms_blockSize s)). set (n := Z.to_nat (ddb_BlockNumber ddb)).
  assert (Z.to_nat off = n * B)%nat as Hob by (unfold off, n, B; rewrite Z2Nat.inj_mul by lia; done).
  assert (0 < B)%nat as HB by (unfold B; lia).
  intros k Hk Hrec. rewrite Hob.
  assert (length (ddb_Data ddb) = Nat.min (n * B + B) (length content) - n * B)%nat as HLn
    by (unfold len in *; unfold B in *; lia).
  destruct (decide (k / B = n)%nat) as [Hkn | Hkn].
  - pose proof (Nat.div_mod k B ltac:(lia)). pose proof (Nat.mod_upper_bound k B ltac:(lia)).
    rewrite list_lookup_inserts by lia. rewrite Hdata. rewrite sub_lookup by (unfold len, B in *; lia).
    f_equal. lia.
  - rewrite list_lookup_insert_ne in Hrec by done. specialize (Hd k Hk Hrec).
    destruct (decide (k < n * B)%nat) as [Hlt |].
    + by rewrite list_lookup_inserts_lt by done.
    + rewrite list_lookup_inserts_ge; [done |].
      assert (n * B + B ≤ k)%nat; [| lia].
      assert (n < k / B)%nat; [| pose proof (Nat.mul_div_le k B ltac:(lia)); nia].
      assert (n ≤ k / B)%nat; [| lia]. apply Nat.div_le_lower_bound; lia.
Qed.

(** When every block is in, the buffer is the content. *)
Lemma assembled_complete content s :
  assembled content s → 0 < ms_blockSize s →
  len content ≤ len (ms_received s) * ms_blockSize s →
  received_count (ms_received s) = len (ms_received s) → ms_data s = content.
Proof.
  intros [HL Hd] Hb Hcover Hall. apply list_eq. intros k.
  destruct (decide (k < length content)%nat) as [Hk |];
    [| by rewrite !lookup_ge_None_2 by lia].
  apply Hd; [done |]. apply received_count_full; [done |]. unfold blockOf.
  apply Nat.div_lt_upper_bound; [lia |]. unfold len in *. nia.
Qed.

Fixpoint observeAll (ddbs : list DSMCCDDB) (c : DSMCCCarousel) : outcome (DSMCCCarousel * list DSMCCModule) :=
  match ddbs with
  | [] => Ret (c, [])
  | ddb :: ddbs =>
      '(c, r) ← ObserveDDBWithResult ddb c;
      '(c, out) ← observeAll ddbs c;
      Ret (c, match do_module r with Some m => m :: out | None => out end)
  end.

Lemma observeAll_done id s ddbs c :
  carousel_ok c → c_modules c !! id = Some s → ms_completed s = true →
  Forall (λ ddb, ddb_ok ddb ∧ ddb_ModuleID ddb = id) ddbs → observeAll ddbs c = Ret (c, []).
Proof.
  intros Hc E Hs. induction 1 as [| ddb ddbs [Hd Hid] _ IH]; [done |]. cbn [observeAll].
  pose proof (ObserveDDB_spec ddb c Hc Hd) as H.
  destruct (ObserveDDBWithResult ddb c) as [[c' r] | | |]; try done.
  destruct H as (_ & _ & Hp). unfold ddb_post in Hp. rewrite Hid, E in Hp.
  destruct Hp as [(_ & -> & ->) | [(Hc' & _) _]]; [| congruence]. run. by rewrite IH.
Qed.

Lemma observeAll_assembles content id ddbs : ∀ s c,
  carousel_ok c → c_modules c !! id = Some s → ms_completed s = false →
  assembled content s → Forall (honest content s) ddbs →
  mi_ModuleSize (ms_info s) ≤ MaxCompletedBytes (c_limits c) →
  (∀ n, (n < length (ms_received s))%nat → ms_received s !! n = Some true ∨
     ∃ ddb, ddb ∈ ddbs ∧ Z.to_nat (ddb_BlockNumber ddb) = n) →
  returns (observeAll ddbs c) (λ '(c', out), ∃ s', out = [module s'] ∧ ms_data s' = content ∧
    c_modules c' !! id = Some s' ∧ ms_completed s' = true ∧ ms_info s' = ms_info s).
Proof.
  induction ddbs as [| ddb ddbs IH]; intros s c Hc E Hf Ha Hh Hfit Hcov;
    pose proof (map_Forall_lookup_1 _ _ _ _ (ac_states _ (proj1 Hc)) E) as Hs;
    pose proof Hs as [S1 S2 S3 S4 _]; destruct (S4 Hf) as (HD & HR & HC & Hlt).
  - exfalso. rewrite (received_count_all (ms_received s)) in HC; [lia |].
    intros i Hi. destruct (Hcov i Hi) as [? | (d & Hd & _)]; [done | by apply elem_of_nil in Hd].
  - apply Forall_cons in Hh as [Hh Hhs]. pose proof Hh as (Hok & Hid & Hdl & Hver & Hbn & _).
    cbn [observeAll]. pose proof (ObserveDDB_spec ddb c Hc Hok) as H.
    assert (ddb_ModuleID ddb = id) as Hid' by congruence.
    assert (accepts s ddb) as Hacc by (unfold accepts; rewrite HR; auto).
    pose proof (block_in_range _ _ _ (ddb_BlockNumber ddb) Hs (ac_limits _ (proj1 Hc)) Hf ltac:(rewrite HR; done)) as Hoff.
    destruct (ObserveDDBWithResult ddb c) as [[c1 r] | | |]; try done.
    destruct H as (Hc1 & Hl1 & Hp). unfold ddb_post in Hp. rewrite Hid', E in Hp.
    destruct Hp as [[? _] | [_ Hp]]; [done |]. cbv zeta in Hp. run.
    set (received := <[Z.to_nat (ddb_BlockNumber ddb) := true]> (ms_received s)) in *.
    assert (len received = len (ms_received s)) as Hlr by (unfold received, len; by rewrite length_insert).
    assert (len content = len (ms_data s)) as HLc by (destruct Ha as [Hl _]; unfold len; lia).
    pose proof (written_assembled content s ddb Ha Hh ltac:(lia) ltac:(lia)) as Ha1. fold received in Ha1.
    destruct (Z.ltb_spec (received_count received) (len received)) as [Hmore | Hfull].
    + destruct Hp as [-> ->]. cbn [do_module].
      apply safe_bind. eapply safe_mono.
      * apply (IH (marked s (written s ddb) received)); cbn; try done; [apply lookup_insert_eq |].
        intros n Hn. destruct (decide (n = Z.to_nat (ddb_BlockNumber ddb))) as [-> | Hne].
        { left. unfold received in *. rewrite length_insert in Hn. by apply list_lookup_insert_eq. }
        unfold received in Hn |- *. rewrite length_insert in Hn. rewrite list_lookup_insert_ne by done.
        destruct (Hcov n Hn) as [? | (d & [-> | Hd]%elem_of_cons & Hdn)]; [by left | by subst | right; eauto].
      * intros [c' out] (s' & H'). exact (ex_intro _ s' H').
    + destruct Hp as [[E1 ->] | [Hbig _]]; [| lia]. cbn [do_module].
      set (s' := MkState _ _ _ _ [] _ true _) in *.
      rewrite (observeAll_done id s' ddbs c1); try done.
      * run. exists s'. split_and!; try done. cbn.
        change (written s ddb) with (ms_data (marked s (written s ddb) received)).
        destruct (blockCount_spec (mi_ModuleSize (ms_info s)) (ms_blockSize s)) as (_ & _ & Hup);
          [destruct (ac_limits _ (proj1 Hc)) as (? & _); lia | done |].
        pose proof (received_count_le received).
        apply assembled_complete; [done | cbn; lia | cbn; rewrite Hlr, HR; lia | cbn; lia].
      * eapply Forall_impl; [exact Hhs |]. intros d (? & ? & _). split; [done | congruence].
Qed.

(** C32 (DSMCCCarousel.ObserveDDBWithResult): the blocks of an announced module,
    received in any order and with any repetitions, assemble exactly its
    content: one module is returned over the whole run, and it is what the
    carousel serves afterwards. *)
Theorem carousel_assembles limits c id s content ddbs :
  limits_ok (withDefaults limits) → reachable limits c →
  c_modules c !! id = Some s → ms_completed s = false → ms_count s = 0 →
  len content = mi_ModuleSize (ms_info s) → Forall (honest content s) ddbs →
  mi_ModuleSize (ms_info s) ≤ MaxCompletedBytes (c_limits c) →
  (∀ n, 0 ≤ n < blockCount (mi_ModuleSize (ms_info s)) (ms_blockSize s) →
     ∃ ddb, ddb ∈ ddbs ∧ ddb_BlockNumber ddb = n) →
  returns (observeAll ddbs c) (λ '(c', out), ∃ m, out = [m] ∧ m_Data m = content ∧
    m_ModuleID m = id ∧ Module_ id c' = Some m).
Proof.
  intros Hl Hr E Hf Hz Hlen Hh Hfit Hcov. destruct (reachable_ok limits c Hl Hr) as [Hc _].
  destruct (ac_states _ (proj1 Hc) id s E) as [S1 S2 S3 S4 _]. destruct (S4 Hf) as (HD & HR & HC & Hlt).
  assert (∀ i, ms_received s !! i ≠ Some true) as Hnone.
  { intros i Hi. pose proof (lookup_lt_Some _ _ _ Hi). rewrite Hz in HC. symmetry in HC.
    unfold received_count, len in HC. assert (true ∈ filter (λ b, b = true) (ms_received s)) as Hin
      by (apply list_elem_of_filter; split; [done | by eapply list_elem_of_lookup_2]).
    destruct (filter _ _); [by apply elem_of_nil in Hin | done]. }
  eapply safe_mono; [apply (observeAll_assembles content id ddbs s c); try done |].
  - split; [unfold len in *; lia |]. intros k _ Hk. by apply Hnone in Hk.
  - intros n Hn. right. destruct (Hcov (Z.of_nat n)) as (d & Hd & Hdn); [unfold len in HR; lia |].
    exists d. split; [done | lia].
  - intros [c' out] (s' & -> & Hd & E' & Hc' & Hi). exists (module s'). split_and!; try done.
    + cbn. congruence.
    + unfold Module_. rewrite E', Hc', Hd, Hi. unfold u32. destruct (ac_limits _ (proj1 Hc)) as (L1 & _).
      rewrite Z.mod_small by lia. rewrite Hlen, Z.eqb_refl. done.
Qed.

End Orders.

(** ** A small carousel *)

Definition sampleLimits : DSMCCCarouselLimits := MkLimits 0 0 0.
Definition sampleDII : DSMCCDII := MkDII 7 2 [MkModuleInfo 1 5 3 []; MkModuleInfo 2 0 1 []] [].
#[local] Instance sampleOrder : RangeOrder dsmccModuleState := keyOrder.
Definition sampleContent : list Z := [10; 20; 30; 40; 50].
Definition sampleState : dsmccModuleState :=
  MkState (MkModuleInfo 1 5 3 []) 7 2 (replicate 5 0) (replicate 3 false) 0 false 1.
Definition sampleCarousel : DSMCCCarousel :=
  MkCarousel (withDefaults sampleLimits) {[1 := sampleState]} 0 5 1
    {[2 := MkRejection (MkModuleInfo 2 0 1 []) moduleSizeZero]}.
(** The blocks 2, 0, 0 and 1. *)
Definition sampleBlocks : list DSMCCDDB :=
  [MkDDB 7 1 3 2 [50]; MkDDB 7 1 3 0 [10; 20]; MkDDB 7 1 3 0 [10; 20]; MkDDB 7 1 3 1 [30; 40]].

Lemma sampleLimits_ok : limits_ok (withDefaults sampleLimits).
Proof. repeat split; vm_compute; done. Defined.

Lemma sampleCarousel_reachable : reachable sampleLimits sampleCarousel.
Proof.
  eapply (reach_dii _ (NewDSMCCCarousel sampleLimits) sampleDII sampleCarousel [MkModuleInfo 1 5 3 []]).
  - apply reach_new.
  - repeat constructor; vm_compute; done.
  - vm_compute; done.
  - vm_compute. done.
Defined.

Lemma carousel_accounts_witness :
  CompletedBytes sampleCarousel = 0 ∧ InFlightBytes sampleCarousel = total inFlightOf (c_modules sampleCarousel).
Proof.
  split; [done |].
  exact (proj1 (proj2 (carousel_accounts sampleLimits sampleCarousel
    sampleLimits_ok sampleCarousel_reachable))).
Defined.

Lemma carousel_assembles_witness :
  returns (observeAll sampleBlocks sampleCarousel) (λ '(c', out),
    ∃ m, out = [m] ∧ m_Data m = sampleContent ∧ m_ModuleID m = 1 ∧ Module_ 1 c' = Some m).
Proof.
  apply (carousel_assembles sampleLimits sampleCarousel 1 sampleState
    sampleContent sampleBlocks); try done.

  - exact sampleCarousel_reachable.
  - repeat constructor; vm_compute; done.
  - intros n Hn. change (0 ≤ n < 3) in Hn.
    assert (n = 0 ∨ n = 1 ∨ n = 2) as [-> | [-> | ->]] by lia;
      [exists (MkDDB 7 1 3 0 [10; 20]) | exists (MkDDB 7 1 3 1 [30; 40]) | exists (MkDDB 7 1 3 2 [50])];
      (split; [set_solver | done]).
Defined.
