(* ===== verification/Logo.v ===== *)
(** * Service logos ([ts/logo.go], [ts/logo_common.go])

    The logo transmission descriptor, the common data table (CDT), the logo data
    modules of the common data carousel with [DSMCCLogoCarousel], which
    assembles them, and the download announcements of the SDTT. *)

From S2P Require Import Prelude Crc32 Packet Section AribTables Aribstr Descriptors Psi Dsmcc Carousel.

(** ** The code: [logo.go] *)

Definition LogoTransmissionTypeCDTDirect : Z := 0x01.
Definition LogoTransmissionTypeCDTIndirect : Z := 0x02.

Definition pngSignature : list Z := [0x89; 0x50; 0x4e; 0x47; 0x0d; 0x0a; 0x1a; 0x0a].

(** [bytes.HasPrefix] *)
Definition hasPrefix (l prefix : list Z) : bool := bool_decide (take (length prefix) l = prefix).

Record LogoDescriptor : Type := MkLogoDescriptor {
  ld_TransmissionType : Z;
  ld_LogoID : Z;
  ld_LogoVersion : Z;
  ld_DownloadDataID : Z
}.

Definition ParseLogoTransmissionDescriptor (d : Descriptor) : outcome LogoDescriptor :=
  t ← Tag d;
  errorIf (negb (t =? DescriptorTagLogoTransmission)) (ErrUnexpectedTag t);;
  data ← Data d;
  errorIf (len data <? 1) ErrInvalidSection;;
  ty ← data![0];
  if ty =? LogoTransmissionTypeCDTDirect then
    errorIf (len data <? 7) ErrInvalidSection;;
    id ← get16m 0x01 data 1;
    version ← get16m 0x0f data 3;
    download ← get16 data 5;
    Ret (MkLogoDescriptor ty id version download)
  else if ty =? LogoTransmissionTypeCDTIndirect then
    errorIf (len data <? 3) ErrInvalidSection;;
    id ← get16m 0x01 data 1;
    Ret (MkLogoDescriptor ty id 0 0)
  else Err ErrInvalidSection.

Fixpoint LogoDescriptorFromDescriptors (descriptors : list Descriptor) : outcome (option LogoDescriptor) :=
  match descriptors with
  | [] => Ret None
  | desc :: descriptors =>
      t ← Tag desc;
      if negb (t =? DescriptorTagLogoTransmission) then LogoDescriptorFromDescriptors descriptors
      else
        logo ← caught (ParseLogoTransmissionDescriptor desc);
        match logo with
        | Some logo => Ret (Some logo)
        | None => LogoDescriptorFromDescriptors descriptors
        end
  end.

Record CDT : Type := MkCDT {
  cdt_DownloadDataID : Z;
  cdt_VersionNumber : Z;
  cdt_SectionNumber : Z;
  cdt_LastSectionNumber : Z;
  cdt_OriginalNetworkID : Z;
  cdt_DataType : Z;
  cdt_Descriptors : list Descriptor;
  cdt_DataModule : list Z
}.

Definition ParseCDT (s : SectionBytes) : outcome CDT :=
  bad ← rejects 17 (λ t, t =? TableIDCDT) s;
  errorIf bad ErrInvalidSection;;
  n ← TotalLength s;
  let sectionEnd := n - 4 in
  descriptorsLoopLen ← get16m 0x0f s 11;
  let descStart := 13 in
  let descEnd := descStart + descriptorsLoopLen in
  errorIf (sectionEnd <? descEnd) ErrInvalidSection;;
  download ← get16 s 3;
  b5 ← s![5];
  b6 ← s![6];
  b7 ← s![7];
  onid ← get16 s 8;
  ty ← s![10];
  loop ← s![descStart; descEnd];
  descriptors ← ParseDescriptors loop;
  data ← s![descEnd; sectionEnd];
  Ret (MkCDT download (Z.land (Z.shiftr b5 1) 0x1f) b6 b7 onid ty descriptors data).

Record LogoImage : Type := MkLogoImage {
  li_OriginalNetworkID : Z;
  li_LogoID : Z;
  li_LogoVersion : Z;
  li_DownloadDataID : Z;
  li_LogoType : Z;
  li_Data : list Z;
  li_IsDeleted : bool
}.

Definition ParseCDTLogoImage (cdt : CDT) : outcome LogoImage :=
  let data := cdt_DataModule cdt in
  errorIf (len data <? 7) ErrInvalidSection;;
  size ← get16 data 5;
  errorIf (len data <? 7 + size) ErrInvalidSection;;
  image ← data![7; 7 + size];
  errorIf ((0 <? size) && negb (hasPrefix image pngSignature)) ErrInvalidSection;;
  id ← get16m 0x01 data 1;
  version ← get16m 0x0f data 3;
  ty ← data![0];
  Ret (MkLogoImage (cdt_OriginalNetworkID cdt) id version (cdt_DownloadDataID cdt) ty image (size =? 0)).

(** ** The code: [logo_common.go] *)

Definition DefaultCommonLogoOriginalNetworkID : Z := 0x0004.
Definition DefaultCommonLogoTransportStreamID : Z := 0x40f1.
Definition DefaultCommonLogoServiceID : Z := 929.
Definition NetworkLogoTransportStreamWildcard : Z := 0xffff.
Definition NetworkLogoServiceWildcard : Z := 0xffff.

Record CommonLogoService : Type := MkLogoService {
  ls_OriginalNetworkID : Z;
  ls_TransportStreamID : Z;
  ls_ServiceID : Z
}.

Record CommonLogoImage : Type := MkCommonLogo {
  cl_LogoID : Z;
  cl_LogoType : Z;
  cl_LogoVersion : Z;
  cl_DownloadID : Z;
  cl_Services : list CommonLogoService;
  cl_Data : list Z;
  cl_IsDeleted : bool;
  cl_IsNetwork : bool;
  cl_SourceLabel : list Z
}.

Definition isNetworkLogo (service : CommonLogoService) : bool :=
  (ls_TransportStreamID service =? NetworkLogoTransportStreamWildcard) &&
  (ls_ServiceID service =? NetworkLogoServiceWildcard).

Fixpoint readLogoServices (n : nat) (module : list Z) (off : Z)
    : outcome (list CommonLogoService * Z) :=
  match n with
  | O => Ret ([], off)
  | S n =>
      errorIf (len module <? off + 6) ErrInvalidSection;;
      onid ← get16 module off;
      tsid ← get16 module (off + 2);
      sid ← get16 module (off + 4);
      '(services, off) ← readLogoServices n module (off + 6);
      Ret (MkLogoService onid tsid sid :: services, off)
  end.

Fixpoint readLogos (n : nat) (logoType : Z) (module : list Z) (off : Z)
    : outcome (list CommonLogoImage * Z) :=
  match n with
  | O => Ret ([], off)
  | S n =>
      errorIf (len module <? off + 3) ErrInvalidSection;;
      id ← get16 module off;
      let logoID := Z.land id 0x01ff in
      serviceCount ← module![off + 2];
      '(services, off) ← readLogoServices (Z.to_nat serviceCount) module (off + 3);
      errorIf (len module <? off + 2) ErrInvalidSection;;
      size ← get16 module off;
      let off := off + 2 in
      errorIf (len module <? off + size) ErrInvalidSection;;
      data ← module![off; off + size];
      let off := off + size in
      errorIf ((0 <? size) && negb (hasPrefix data pngSignature)) ErrInvalidSection;;
      '(images, off) ← readLogos n logoType module off;
      Ret (MkCommonLogo logoID logoType 0 0 services data (size =? 0) (existsb isNetworkLogo services) []
             :: images, off)
  end.

Definition ParseLogoDataModule (module : list Z) : outcome (list CommonLogoImage) :=
  errorIf (len module <? 3) ErrInvalidSection;;
  logoType ← module![0];
  loops ← get16 module 1;
  '(result, off) ← readLogos (Z.to_nat loops) logoType module 3;
  errorIf (negb (off =? len module)) ErrInvalidSection;;
  Ret result.

(** [bytes.Index]: the first position of [sub] in [l]. *)
Fixpoint bytesIndex (l needle : list Z) : option Z :=
  if hasPrefix l needle then Some 0
  else match l with
       | [] => None
       | _ :: l => Z.succ <$> bytesIndex l needle
       end.

(** ["LOGO-0"] *)
Definition logoName : list Z := [0x4c; 0x4f; 0x47; 0x4f; 0x2d; 0x30].

Definition IsLogoModule (m : DSMCCModuleInfo) : bool := bool_decide (is_Some (bytesIndex (mi_Info m) logoName)).

Definition LogoType (m : DSMCCModuleInfo) : outcome (option Z) :=
  match bytesIndex (mi_Info m) logoName with
  | None => Ret None
  | Some idx =>
      if len (mi_Info m) <? idx + 7 then Ret None
      else
        n ← (mi_Info m)![idx + 6];
        if (n <? 0x30) || (0x35 <? n) then Ret None else Ret (Some (n - 0x30))
  end.

Record CommonDataAnnouncement : Type := MkCommonData {
  ca_OriginalNetworkID : Z;
  ca_TransportStreamID : Z;
  ca_ServiceID : Z;
  ca_DownloadID : Z;
  ca_VersionID : Z
}.

Record dsmccLogoModuleState : Type := MkLogoState {
  lm_info : DSMCCModuleInfo;
  lm_downloadID : Z;
  lm_blockSize : Z;
  lm_blocks : gmap Z (list Z);
  lm_emitted : bool
}.

(** The modules of a [DSMCCLogoCarousel]; its mutex makes every operation one step. *)
Definition DSMCCLogoCarousel : Type := gmap Z dsmccLogoModuleState.

Definition NewDSMCCLogoCarousel : DSMCCLogoCarousel := ∅.

Definition observeLogoModule (dii : DSMCCDII) (st : DSMCCLogoCarousel * bool) (module : DSMCCModuleInfo)
    : DSMCCLogoCarousel * bool :=
  let '(c, accepted) := st in
  if negb (IsLogoModule module) then (c, accepted)
  else
    let current := match c !! mi_ModuleID module with
                   | None => false
                   | Some current =>
                       (lm_downloadID current =? dii_DownloadID dii) &&
                       (mi_Version (lm_info current) =? mi_Version module) &&
                       (mi_ModuleSize (lm_info current) =? mi_ModuleSize module)
                   end in
    (if current : bool then c
     else <[mi_ModuleID module := MkLogoState module (dii_DownloadID dii) (dii_BlockSize dii) ∅ false]> c, true).

(** [observeDII] *)
Definition observeLogoDII (dii : DSMCCDII) (c : DSMCCLogoCarousel) : DSMCCLogoCarousel * bool :=
  fold_left (observeLogoModule dii) (dii_Modules dii) (c, false).

(** [ObserveDII] *)
Definition ObserveLogoDII (dii : DSMCCDII) (c : DSMCCLogoCarousel) : DSMCCLogoCarousel :=
  fst (observeLogoDII dii c).

Definition AcceptsSection (section : SectionBytes) (c : DSMCCLogoCarousel)
    : outcome (DSMCCLogoCarousel * bool) :=
  t ← TableID section;
  if t =? TableIDDSMCCDII then
    dii ← caught (ParseDSMCCDII section);
    Ret match dii with Some dii => observeLogoDII dii c | None => (c, false) end
  else if t =? TableIDDSMCCDDB then
    ddb ← caught (ParseDSMCCDDB section);
    Ret (c, match ddb with
            | Some ddb =>
                match c !! ddb_ModuleID ddb with
                | Some module => (lm_downloadID module =? ddb_DownloadID ddb) &&
                                 (mi_Version (lm_info module) =? ddb_ModuleVersion ddb)
                | None => false
                end
            | None => false
            end)
  else Ret (c, false).

(** The blocks in order, [None] when one is missing. *)
Fixpoint joinBlocks (n : nat) (i : Z) (blocks : gmap Z (list Z)) : option (list Z) :=
  match n with
  | O => Some []
  | S n => block ← blocks !! u16 i; rest ← joinBlocks n (i + 1) blocks; Some (block ++ rest)
  end.

Definition assemble (m : dsmccLogoModuleState) : outcome (option (list Z)) :=
  if lm_blockSize m =? 0 then Ret None
  else
    let blockCount := blockCount (mi_ModuleSize (lm_info m)) (lm_blockSize m) in
    if Z.of_nat (size (lm_blocks m)) <? blockCount then Ret None
    else
      match joinBlocks (Z.to_nat blockCount) 0 (lm_blocks m) with
      | None => Ret None
      | Some data =>
          if u32 (len data) <? mi_ModuleSize (lm_info m) then Ret None
          else Some <$> data![0; mi_ModuleSize (lm_info m)]
      end.

Definition labelImage (m : dsmccLogoModuleState) (logoType : Z) (image : CommonLogoImage) : CommonLogoImage :=
  MkCommonLogo (cl_LogoID image) logoType (u16 (mi_Version (lm_info m))) (u16 (lm_downloadID m))
    (cl_Services image) (cl_Data image) (cl_IsDeleted image) (cl_IsNetwork image) (mi_Info (lm_info m)).

(** The carousel, the images (nil is the empty list) and the error. *)
Definition ObserveLogoDDB (ddb : DSMCCDDB) (c : DSMCCLogoCarousel)
    : outcome (DSMCCLogoCarousel * (list CommonLogoImage * option error)) :=
  match c !! ddb_ModuleID ddb with
  | None => Ret (c, ([], None))
  | Some module =>
      if lm_emitted module || negb (lm_downloadID module =? ddb_DownloadID ddb) ||
         negb (mi_Version (lm_info module) =? ddb_ModuleVersion ddb)
      then Ret (c, ([], None))
      else
        let stored emitted := <[ddb_ModuleID ddb := MkLogoState (lm_info module) (lm_downloadID module)
               (lm_blockSize module) (<[ddb_BlockNumber ddb := ddb_Data ddb]> (lm_blocks module)) emitted]> c in
        data ← assemble (MkLogoState (lm_info module) (lm_downloadID module) (lm_blockSize module)
                  (<[ddb_BlockNumber ddb := ddb_Data ddb]> (lm_blocks module)) false);
        match data with
        | None => Ret (stored false, ([], None))
        | Some data =>
            match ParseLogoDataModule data with
            | Ret images =>
                logoType ← LogoType (lm_info module);
                Ret (stored true,
                  (match logoType with
                   | Some logoType => map (labelImage module logoType) images
                   | None => images
                   end, None))
            | Err e => Ret (stored false, ([], Some e))
            | Panic => Panic
            | Diverge => Diverge
            end
        end
  end.

(** *** Download announcements of the SDTT *)

Definition isSatelliteCommonDataTableIDExt (tableIDExt : Z) : bool :=
  (tableIDExt =? 0xfffe) || (tableIDExt =? 0xfffc).

Definition IsSatelliteOriginalNetworkID (onid : Z) : bool :=
  (onid =? 0x0004) || (onid =? 0x0006) || (onid =? 0x0007).

Definition DefaultCommonDataAnnouncement : CommonDataAnnouncement :=
  MkCommonData DefaultCommonLogoOriginalNetworkID DefaultCommonLogoTransportStreamID
    DefaultCommonLogoServiceID 0 0.

(** The module entries of a download content descriptor; the position after them. *)
Fixpoint skipModules (n : nat) (data : list Z) (pos : Z) : outcome Z :=
  match n with
  | O => Ret pos
  | S n =>
      errorIf (len data <? pos + 7) ErrInvalidSection;;
      infoLen ← data![pos + 6];
      let pos := pos + (7 + infoLen) in
      errorIf (len data <? pos) ErrInvalidSection;;
      skipModules n data pos
  end.

(** One download content descriptor: its download id. *)
Definition downloadContent (data : list Z) : outcome Z :=
  errorIf (len data <? 18) ErrInvalidSection;;
  flags ← data![0];
  downloadID ← get32 data 5;
  pos ← (if bit flags 0x20 then
           errorIf (len data <? 18 + 2) ErrInvalidSection;;
           length ← get16 data 18;
           let pos := 18 + (2 + length) in
           errorIf (len data <? pos) ErrInvalidSection;;
           Ret pos
         else Ret 18);
  pos ← (if bit flags 0x10 then
           errorIf (len data <? pos + 1) ErrInvalidSection;;
           count ← data![pos];
           skipModules (Z.to_nat count) data (pos + 1)
         else Ret pos);
  errorIf (len data <? pos + 1) ErrInvalidSection;;
  privateLen ← data![pos];
  let pos := pos + (1 + privateLen) in
  errorIf (len data <? pos) ErrInvalidSection;;
  _ ← (if bit flags 0x08 then
         errorIf (len data <? pos + 4) ErrInvalidSection;;
         textLen ← data![pos + 3];
         let pos := pos + (4 + textLen) in
         errorIf (len data <? pos) ErrInvalidSection
       else Ret tt);
  Ret downloadID.

Definition downloadBody (descriptors : list Z) (off : Z) : outcome (Z + option Z) :=
  if len descriptors <=? off then break None
  else
    errorIf (len descriptors <? off + 2) ErrInvalidSection;;
    tag ← descriptors![off];
    length ← descriptors![off + 1];
    let off := off + 2 in
    errorIf (len descriptors <? off + length) ErrInvalidSection;;
    data ← descriptors![off; off + length];
    if negb (tag =? DescriptorTagDownloadContent) then continue (off + length)
    else
      downloadID ← downloadContent data;
      break (Some downloadID).

Definition sdttDownloadContentID (descriptors : list Z) : outcome (option Z) :=
  loop (S (length descriptors)) (downloadBody descriptors) 0.

(** The content loop. *)
Fixpoint readContents (n : nat) (s : SectionBytes) (stop onid tsid sid off : Z)
    : outcome (list CommonDataAnnouncement) :=
  match n with
  | O => Ret []
  | S n =>
      errorIf (stop <? off + 8) ErrInvalidSection;;
      b2 ← s![off + 2];
      b3 ← s![off + 3];
      let versionID := Z.lor (Z.shiftl b2 4) (Z.shiftr b3 4) in
      b4 ← s![off + 4];
      b5 ← s![off + 5];
      let contentDescriptionLength := Z.lor (Z.shiftl b4 4) (Z.shiftr b5 4) in
      b6 ← s![off + 6];
      b7 ← s![off + 7];
      let scheduleDescriptionLength := Z.lor (Z.shiftl b6 4) (Z.shiftr b7 4) in
      let descriptorOff := off + 8 + scheduleDescriptionLength in
      let contentEnd := off + 8 + contentDescriptionLength in
      errorIf (stop <? contentEnd) ErrInvalidSection;;
      errorIf (contentEnd <? descriptorOff) ErrInvalidSection;;
      descriptors ← s![descriptorOff; contentEnd];
      download ← sdttDownloadContentID descriptors;
      rest ← readContents n s stop onid tsid sid contentEnd;
      Ret match download with
          | Some downloadID =>
              if (scheduleDescriptionLength =? 0) && negb (sid =? 0) && negb (sid =? 0xffff)
              then MkCommonData onid tsid sid downloadID versionID :: rest
              else rest
          | None => rest
          end
  end.

Definition ParseSDTTCommonDataAnnouncements (s : SectionBytes) : outcome (list CommonDataAnnouncement) :=
  bad ← rejects 12 (λ t, t =? TableIDSDTT) s;
  errorIf bad ErrInvalidSection;;
  header ← ParseSectionHeader s;
  if negb (h_CurrentNextIndicator header) || negb (h_SectionNumber header =? 0) ||
     negb (h_TableID header =? TableIDSDTT) then Ret []
  else
    tableIDExt ← get16 s 3;
    if negb (isSatelliteCommonDataTableIDExt tableIDExt) then Ret []
    else
      n ← TotalLength s;
      let stop := n - 4 in
      errorIf (stop <? 17) ErrInvalidSection;;
      tsid ← get16 s 8;
      onid ← get16 s 10;
      sid ← get16 s 12;
      if negb (IsSatelliteOriginalNetworkID onid) then Ret []
      else
        contentCount ← s![14];
        readContents (Z.to_nat contentCount) s stop onid tsid sid 15.

(** ** Totality *)

Definition logo_image_ok (image : CommonLogoImage) : Prop :=
  0 ≤ cl_LogoID image ≤ 0x1ff ∧ cl_IsDeleted image = (len (cl_Data image) =? 0) ∧
  (cl_Data image = [] ∨ hasPrefix (cl_Data image) pngSignature = true) ∧
  cl_IsNetwork image = existsb isNetworkLogo (cl_Services image).

Lemma ParseLogoTransmissionDescriptor_safe d :
  bytes_ok d → desc_ok d → safe (ParseLogoTransmissionDescriptor d) (λ l,
    0 ≤ ld_LogoID l ≤ 0x1ff ∧ 0 ≤ ld_LogoVersion l ≤ 0xfff ∧ word16 (ld_DownloadDataID l)).
Proof.
  intros Hd Hok. pose proof (desc_ok_len d Hok). unfold ParseLogoTransmissionDescriptor, Tag. go.
  apply Data_safe; [done | by apply desc_ok_complete |]. intros Hs. unfold word16. go; simpl; lia.
Qed.

Lemma LogoDescriptorFromDescriptors_safe ds :
  Forall (λ d, bytes_ok d ∧ desc_ok d) ds → returns (LogoDescriptorFromDescriptors ds) (λ r, ∀ l, r = Some l →
    0 ≤ ld_LogoID l ≤ 0x1ff ∧ 0 ≤ ld_LogoVersion l ≤ 0xfff ∧ word16 (ld_DownloadDataID l)).
Proof.
  induction 1 as [| d ds [Hd Hok] _ IH]; [done |]. cbn [LogoDescriptorFromDescriptors].
  pose proof (desc_ok_len d Hok). unfold Tag at 1. go; [exact IH |].
  eapply safe_mono; [eapply caught_returns, ParseLogoTransmissionDescriptor_safe; done |].
  intros [l |] Hl; [| exact IH]. simpl. intros ? [= <-]. by apply Hl.
Qed.

Lemma ParseCDT_safe s : bytes_ok s → ends invalid (ParseCDT s) (λ cdt,
  word16 (cdt_DownloadDataID cdt) ∧ word16 (cdt_OriginalNetworkID cdt) ∧
  Forall desc_ok (cdt_Descriptors cdt) ∧ bytes_ok (cdt_DataModule cdt)).
Proof.
  intros Hs. apply accept_safe; [done | lia | done |]. intros Hl Ht _ _.
  pose proof (totalOf_bound s Hs). rewrite TotalLength_ret by lia. run. go.
  apply ParseDescriptors_ends; [by apply bytes_ok_sub |]. intros ds [Hds _]. go. simpl. unfold word16.
  split_and!; try lia; [done | by apply bytes_ok_sub].
Qed.

Lemma ParseCDTLogoImage_safe cdt : bytes_ok (cdt_DataModule cdt) → ends invalid (ParseCDTLogoImage cdt) (λ i,
  0 ≤ li_LogoID i ≤ 0x1ff ∧ li_IsDeleted i = (len (li_Data i) =? 0) ∧
  (li_Data i = [] ∨ hasPrefix (li_Data i) pngSignature = true)).
Proof.
  intros Hb. unfold ParseCDTLogoImage. go. cbn [li_LogoID li_IsDeleted li_Data].
  set (n := be16 (byteAt (cdt_DataModule cdt) 5) (byteAt (cdt_DataModule cdt) (5 + 1))) in *.
  assert (len (sub (cdt_DataModule cdt) 7 (7 + n)) = n) as -> by (rewrite len_sub; lia).
  split_and!; [lia | lia | done |]. destruct (Z.ltb_spec 0 n).
  - right. by destruct (hasPrefix _ _).
  - left. apply len_zero_nil. rewrite len_sub; lia.
Qed.

Lemma readLogoServices_safe n module off :
  bytes_ok module → 0 ≤ off → ends invalid (readLogoServices n module off) (λ '(services, off'),
    off ≤ off' ∧ length services = n).
Proof.
  intros Hm. revert off. induction n as [| n IH]; intros off Ho; cbn [readLogoServices]; [by go |].
  go. eapply safe_mono; [apply IH; lia |]. intros [services off'] [??]. go. simpl. lia.
Qed.

Lemma readLogos_safe n logoType module off :
  bytes_ok module → 0 ≤ off → ends invalid (readLogos n logoType module off) (λ '(images, off'),
    off ≤ off' ∧ length images = n ∧ Forall logo_image_ok images ∧
    Forall (λ i, cl_LogoType i = logoType) images).
Proof.
  intros Hm. revert off. induction n as [| n IH]; intros off Ho; cbn [readLogos];
    [by go; split_and!; [| | apply Forall_nil_2 | apply Forall_nil_2] |].
  go. eapply safe_mono; [apply readLogoServices_safe; [done | lia] |]. intros [services off'] [Hoff _]. go.
  set (size := be16 (byteAt module off') (byteAt module (off' + 1))) in *.
  eapply safe_mono; [apply IH; lia |]. intros [images last] (? & ? & Hi & Ht). go. simpl.
  assert (len (sub module (off' + 2) (off' + 2 + size)) = size) as Hsz by (rewrite len_sub; lia).
  split_and!; [lia | lia | | by apply Forall_cons].
  apply Forall_cons. split; [| done]. unfold logo_image_ok. simpl. rewrite Hsz. split_and!; try done.
  - apply Z.land_nonneg. lia.
  - by apply land_mask.
  - destruct (Z.ltb_spec 0 size); [right; by destruct (hasPrefix _ _) | left; apply len_zero_nil; lia].
Qed.

Lemma ParseLogoDataModule_safe module : bytes_ok module → ends invalid (ParseLogoDataModule module) (λ images,
  Forall logo_image_ok images ∧ Forall (λ i, cl_LogoType i = byteAt module 0) images ∧
  length images = Z.to_nat (be16 (byteAt module 1) (byteAt module 2))).
Proof.
  intros Hm. unfold ParseLogoDataModule. go.
  eapply safe_mono; [apply readLogos_safe; [done | lia] |]. intros [images off] (? & ? & ? & ?). by go.
Qed.

Lemma skipModules_safe n data pos : bytes_ok data → 0 ≤ pos → ends invalid (skipModules n data pos) (λ p, pos ≤ p).
Proof.
  intros Hd. revert pos. induction n as [| n IH]; intros pos Hp; cbn [skipModules]; go; [done |].
  eapply safe_mono; [apply IH; unfold byte_ok in *; lia |]. intros p ?. unfold byte_ok in *. simpl. lia.
Qed.

Lemma downloadContent_safe data : bytes_ok data → ends invalid (downloadContent data) (λ d, 0 ≤ d < 2 ^ 32).
Proof.
  intros Hd. unfold downloadContent. apply safe_bind, safe_errorIf; [done |]. intros Hl. bools.
  apply safe_bind, safe_byte; [done | lia |]. intros _.
  apply safe_bind, safe_get32; [done | lia | lia |]. intros download Hdl.
  apply safe_bind, (safe_mono _ (λ p, 18 ≤ p)); [go; unfold byte_ok in *; lia |]. intros p Hp.
  apply safe_bind, (safe_mono _ (λ q, p ≤ q)).
  { destruct (bit _ _); [| by go]. go. eapply safe_mono; [by apply skipModules_safe; [| lia] |].
    intros q ?. simpl in *. lia. }
  intros q Hq. go; exact Hdl.
Qed.

Lemma sdttDownloadContentID_safe data : bytes_ok data →
  ends invalid (sdttDownloadContentID data) (λ r, ∀ d, r = Some d → 0 ≤ d < 2 ^ 32).
Proof.
  intros Hd. unfold sdttDownloadContentID.
  apply (safe_loop (λ off, 0 ≤ off) (λ off, Z.to_nat (len data - off))); [| lia | unfold len; lia].
  intros off Ho. unfold downloadBody. go; [done | |].
  - unfold byte_ok in *. simpl. lia.
  - eapply safe_mono; [by apply downloadContent_safe, bytes_ok_sub |].
    intros d Hdl. go. by intros ? [= <-].
Qed.

Definition announcement_ok (a : CommonDataAnnouncement) : Prop :=
  IsSatelliteOriginalNetworkID (ca_OriginalNetworkID a) = true ∧ ca_ServiceID a ≠ 0 ∧
  0 ≤ ca_DownloadID a < 2 ^ 32 ∧ 0 ≤ ca_VersionID a < 2 ^ 12.

Lemma twelve_bits hi lo : byte_ok hi → byte_ok lo → 0 ≤ Z.lor (Z.shiftl hi 4) (Z.shiftr lo 4) < 2 ^ 12.
Proof.
  unfold byte_ok. intros Hh Hl. rewrite (Z.shiftr_div_pow2 lo) by lia. change (2 ^ 4) with 16.
  pose proof (Z.div_pos lo 16). assert (lo / 16 < 16) by (apply Z.div_lt_upper_bound; lia).
  rewrite lor_shift by lia. lia.
Qed.

Lemma readContents_safe n s stop onid tsid sid off :
  bytes_ok s → 0 ≤ off → stop ≤ len s → IsSatelliteOriginalNetworkID onid = true →
  ends invalid (readContents n s stop onid tsid sid off) (Forall announcement_ok).
Proof.
  intros Hs Ho Hl Hsat. revert off Ho. induction n as [| n IH]; intros off Ho; cbn [readContents];
    [by go; apply Forall_nil_2 |].
  go. pose proof (twelve_bits (byteAt s (off + 2)) (byteAt s (off + 3)) ltac:(done) ltac:(done)) as Hv.
  pose proof (twelve_bits (byteAt s (off + 4)) (byteAt s (off + 5)) ltac:(done) ltac:(done)).
  pose proof (twelve_bits (byteAt s (off + 6)) (byteAt s (off + 7)) ltac:(done) ltac:(done)).
  apply safe_slice; [lia | lia |]. intros _.
  apply safe_bind. eapply safe_mono; [by apply sdttDownloadContentID_safe, bytes_ok_sub |]. intros download Hd.
  apply safe_bind. eapply safe_mono; [apply IH; lia |]. intros rest Hrest. simpl.
  destruct download as [download |]; [| done]. specialize (Hd download eq_refl).
  destruct (_ && _) eqn:Hc; [| done]. bools. apply Forall_cons. by split.
Qed.

Lemma ParseSDTT_safe s : bytes_ok s → ends invalid (ParseSDTTCommonDataAnnouncements s) (Forall announcement_ok).
Proof.
  intros Hs. apply accept_safe; [done | lia | done |]. intros Hl Ht _ _.
  pose proof (totalOf_bound s Hs). rewrite ParseSectionHeader_ret, TotalLength_ret by lia. run.
  destruct (_ || _); [apply Forall_nil_2 |].
  apply safe_bind, safe_get16; [done | lia | lia |]. intros _.
  destruct (negb (isSatelliteCommonDataTableIDExt _)); [apply Forall_nil_2 |].
  apply safe_bind, safe_errorIf; [done |]. intros Hstop. bools.
  do 3 (apply safe_bind, safe_get16; [done | lia | lia |]; intros _).
  destruct (IsSatelliteOriginalNetworkID _) eqn:Hsat; [| apply Forall_nil_2]. cbn [negb].
  apply safe_bind, safe_byte; [done | lia |]. intros _. apply readContents_safe; [done | lia | lia | done].
Qed.

(** On any bytes the CDT, logo module and SDTT parsers
    end with a value or with ErrInvalidSection, never with a panic: the images
    are deletions or start with the PNG signature, and the announcements name a
    satellite network and a service. *)
Theorem logo_parsers_total s cdt module ds :
  bytes_ok s → bytes_ok (cdt_DataModule cdt) → bytes_ok module → Forall (λ d, bytes_ok d ∧ desc_ok d) ds →
  ends invalid (ParseCDT s) (λ cdt,
    word16 (cdt_DownloadDataID cdt) ∧ word16 (cdt_OriginalNetworkID cdt) ∧
    Forall desc_ok (cdt_Descriptors cdt) ∧ bytes_ok (cdt_DataModule cdt)) ∧
  ends invalid (ParseCDTLogoImage cdt) (λ i,
    0 ≤ li_LogoID i ≤ 0x1ff ∧ li_IsDeleted i = (len (li_Data i) =? 0) ∧
    (li_Data i = [] ∨ hasPrefix (li_Data i) pngSignature = true)) ∧
  ends invalid (ParseLogoDataModule module) (λ images,
    Forall logo_image_ok images ∧ Forall (λ i, cl_LogoType i = byteAt module 0) images ∧
    length images = Z.to_nat (be16 (byteAt module 1) (byteAt module 2))) ∧
  ends invalid (ParseSDTTCommonDataAnnouncements s) (Forall announcement_ok) ∧
  returns (LogoDescriptorFromDescriptors ds) (λ r, ∀ l, r = Some l →
    0 ≤ ld_LogoID l ≤ 0x1ff ∧ 0 ≤ ld_LogoVersion l ≤ 0xfff ∧ word16 (ld_DownloadDataID l)).
Proof.
  intros. split_and!; [by apply ParseCDT_safe | by apply ParseCDTLogoImage_safe
    | by apply ParseLogoDataModule_safe | by apply ParseSDTT_safe | by apply LogoDescriptorFromDescriptors_safe].
Qed.

(** ** Round trips *)

Definition logoServiceBytes (service : CommonLogoService) : list Z :=
  be16bytes (ls_OriginalNetworkID service) ++ be16bytes (ls_TransportStreamID service) ++
  be16bytes (ls_ServiceID service).

Definition logoBytes (image : CommonLogoImage) : list Z :=
  be16bytes (cl_LogoID image) ++ [len (cl_Services image)] ++
  concat (map logoServiceBytes (cl_Services image)) ++
  be16bytes (len (cl_Data image)) ++ cl_Data image.

Definition logoModule (logoType : Z) (images : list CommonLogoImage) : list Z :=
  [logoType] ++ be16bytes (len images) ++ concat (map logoBytes images).

Definition logo_service_ok (service : CommonLogoService) : Prop :=
  word16 (ls_OriginalNetworkID service) ∧ word16 (ls_TransportStreamID service) ∧ word16 (ls_ServiceID service).

Definition png_or_empty (data : list Z) : Prop := data = [] ∨ hasPrefix data pngSignature = true.

(** An image as the parser builds it, small enough for the format's lengths. *)
Definition plain_logo (logoType : Z) (image : CommonLogoImage) : Prop :=
  0 ≤ cl_LogoID image ≤ 0x1ff ∧ Forall logo_service_ok (cl_Services image) ∧
  len (cl_Data image) < 2 ^ 16 ∧ png_or_empty (cl_Data image) ∧
  image = MkCommonLogo (cl_LogoID image) logoType 0 0 (cl_Services image) (cl_Data image)
            (len (cl_Data image) =? 0) (existsb isNetworkLogo (cl_Services image)) [].

Lemma png_check data : png_or_empty data → (0 <? len data) && negb (hasPrefix data pngSignature) = false.
Proof. intros [-> | ->]; [done | apply andb_false_r]. Qed.

Lemma logo_id_mask x : 0 ≤ x ≤ 0x1ff → Z.land x 0x1ff = x.
Proof. intros. change 0x1ff with (Z.ones 9). rewrite Z.land_ones by lia. apply Z.mod_small. lia. Qed.

Lemma logoServiceBytes_len service : len (logoServiceBytes service) = 6.
Proof. done. Qed.

Lemma logoBytes_len image : len (logoBytes image) =
  5 + len (concat (map logoServiceBytes (cl_Services image))) + len (cl_Data image).
Proof. unfold logoBytes. rewrite !len_app, !len_be16bytes. change (len [_]) with 1. lia. Qed.

Lemma readLogoServices_app pre services post off :
  Forall logo_service_ok services → len pre = off →
  readLogoServices (length services) (pre ++ concat (map logoServiceBytes services) ++ post) off =
    Ret (services, off + len (concat (map logoServiceBytes services))).
Proof.
  intros Hs. revert pre off. induction Hs as [| service services (Hn & Ht & Hi) _ IH]; intros pre off Ho.
  { cbn. by rewrite Z.add_0_r. }
  cbn [length readLogoServices map concat].
  set (rest := concat (map logoServiceBytes services)) in *.
  pose proof (len_nonneg rest). pose proof (len_nonneg post).
  rewrite <- (app_assoc (logoServiceBytes service)).
  set (module := pre ++ logoServiceBytes service ++ rest ++ post).
  assert (len module = off + 6 + len rest + len post) as HL
    by (unfold module; rewrite !len_app, logoServiceBytes_len; lia).
  destruct (Z.ltb_spec (len module) (off + 6)); [lia |]. run.
  assert (module = pre ++ be16bytes (ls_OriginalNetworkID service) ++
    be16bytes (ls_TransportStreamID service) ++ be16bytes (ls_ServiceID service) ++ rest ++ post) as Hm
    by (unfold module, logoServiceBytes; by rewrite <- !app_assoc).
  assert (get16 module off = Ret (ls_OriginalNetworkID service)) as -> by (rewrite Hm; by apply get16_app). run.
  assert (get16 module (off + 2) = Ret (ls_TransportStreamID service)) as ->
    by (rewrite Hm, app_assoc; apply get16_app; [by rewrite len_app, Ho | done]). run.
  assert (get16 module (off + 4) = Ret (ls_ServiceID service)) as ->.
  { rewrite Hm, app_assoc, (app_assoc (pre ++ _)).
    apply get16_app; [rewrite !len_app, Ho, !len_be16bytes; lia | done]. }
  run. unfold module. rewrite app_assoc. rewrite IH by (rewrite len_app, logoServiceBytes_len; lia). run.
  rewrite len_app, logoServiceBytes_len. destruct service. simpl. do 2 f_equal. lia.
Qed.

Lemma readLogos_app logoType pre images post off :
  Forall (plain_logo logoType) images → Forall (λ i, len (cl_Services i) < 256) images → len pre = off →
  readLogos (length images) logoType (pre ++ concat (map logoBytes images) ++ post) off =
    Ret (images, off + len (concat (map logoBytes images))).
Proof.
  intros Hi Hc. revert pre off. induction Hi as [| image images (Hid & Hs & Hd & Hp & He) _ IH]; intros pre off Ho.
  { cbn. by rewrite Z.add_0_r. }
  apply Forall_cons in Hc as [Hn Hc]. cbn [length readLogos map concat].
  set (rest := concat (map logoBytes images)) in *.
  pose proof (len_nonneg rest). pose proof (len_nonneg post). pose proof (len_nonneg (cl_Services image)).
  pose proof (len_nonneg (cl_Data image)). pose proof (len_nonneg pre).
  rewrite <- (app_assoc (logoBytes image)). set (module := pre ++ logoBytes image ++ rest ++ post).
  set (svcs := concat (map logoServiceBytes (cl_Services image))) in *. pose proof (len_nonneg svcs).
  assert (len (logoBytes image) = 5 + len svcs + len (cl_Data image)) as HB by apply logoBytes_len.
  assert (len module = off + 5 + len svcs + len (cl_Data image) + len rest + len post) as HL
    by (unfold module; rewrite !len_app, HB; lia).
  assert (module = pre ++ be16bytes (cl_LogoID image) ++ [len (cl_Services image)] ++ svcs ++
    be16bytes (len (cl_Data image)) ++ cl_Data image ++ rest ++ post) as Hm
    by (unfold module, logoBytes; by rewrite <- !app_assoc).
  destruct (Z.ltb_spec (len module) (off + 3)); [lia |]. run.
  assert (get16 module off = Ret (cl_LogoID image)) as -> by (rewrite Hm; apply get16_app; [done | lia]). run.
  assert (module![off + 2] = Ret (len (cl_Services image))) as ->
    by (rewrite Hm, app_assoc; apply idx_app; rewrite len_app, len_be16bytes; lia). run.
  rewrite to_nat_len.
  assert (readLogoServices (length (cl_Services image)) module (off + 3) =
    Ret (cl_Services image, off + 3 + len svcs)) as ->.
  { rewrite Hm, app_assoc, (app_assoc (pre ++ _)). apply readLogoServices_app; [done |].
    rewrite !len_app, len_be16bytes. change (len [_]) with 1. lia. }
  run. destruct (Z.ltb_spec (len module) (off + 3 + len svcs + 2)); [lia |]. run.
  assert (get16 module (off + 3 + len svcs) = Ret (len (cl_Data image))) as ->.
  { rewrite Hm, app_assoc, (app_assoc (pre ++ _)), (app_assoc ((pre ++ _) ++ _)). apply get16_app; [| lia].
    rewrite !len_app, len_be16bytes. change (len [_]) with 1. lia. }
  run. destruct (Z.ltb_spec (len module) (off + 3 + len svcs + 2 + len (cl_Data image))); [lia |]. run.
  assert (module![off + 3 + len svcs + 2; off + 3 + len svcs + 2 + len (cl_Data image)] = Ret (cl_Data image)) as ->.
  { rewrite Hm, app_assoc, (app_assoc (pre ++ _)), (app_assoc ((pre ++ _) ++ _)),
      (app_assoc (((pre ++ _) ++ _) ++ _)). apply slice_app; [| done].
    rewrite !len_app, !len_be16bytes. change (len [_]) with 1. lia. }
  run. rewrite png_check by done. run. unfold module. rewrite app_assoc.
  rewrite IH by (done || (rewrite len_app, HB; lia)). run. fold rest.
  rewrite logo_id_mask by done. rewrite <- He. rewrite len_app, HB. do 2 f_equal. lia.
Qed.

Lemma ParseLogoDataModule_logoModule logoType images :
  Forall (plain_logo logoType) images → Forall (λ i, len (cl_Services i) < 256) images →
  len images < 2 ^ 16 → ParseLogoDataModule (logoModule logoType images) = Ret images.
Proof.
  intros Hi Hc Hn. unfold ParseLogoDataModule. set (module := logoModule logoType images).
  set (rest := concat (map logoBytes images)). pose proof (len_nonneg rest). pose proof (len_nonneg images).
  assert (len module = 3 + len rest) as HL
    by (unfold module, logoModule; rewrite !len_app, len_be16bytes; change (len [_]) with 1; fold rest; lia).
  rewrite HL. destruct (Z.ltb_spec (3 + len rest) 3); [lia |]. run.
  change (module![0]) with (Ret logoType). run.
  assert (get16 module 1 = Ret (len images)) as -> by (apply (get16_app [logoType]); [done | lia]). run.
  rewrite to_nat_len. assert (readLogos (length images) logoType module 3 = Ret (images, 3 + len rest)) as ->.
  { pose proof (readLogos_app logoType ([logoType] ++ be16bytes (len images)) images [] 3 Hi Hc eq_refl) as Hr.
    by rewrite app_nil_r, <- app_assoc in Hr. }
  run. by rewrite Z.eqb_refl.
Qed.

Definition cdtBody (cdt : CDT) : list Z :=
  be16bytes (cdt_OriginalNetworkID cdt) ++ [cdt_DataType cdt] ++
  field 0xf0 (len (concat (cdt_Descriptors cdt))) ++ concat (cdt_Descriptors cdt) ++ cdt_DataModule cdt.

Definition cdtSection (cdt : CDT) : SectionBytes :=
  longSection TableIDCDT (cdt_DownloadDataID cdt) (cdt_VersionNumber cdt) (cdt_SectionNumber cdt)
    (cdt_LastSectionNumber cdt) (cdtBody cdt).

(** The data module of an image. *)
Definition cdtImage (image : LogoImage) : list Z :=
  [li_LogoType image] ++ field 0xfe (li_LogoID image) ++ field 0xf0 (li_LogoVersion image) ++
  be16bytes (len (li_Data image)) ++ li_Data image.

Definition cdt_ok (cdt : CDT) : Prop :=
  word16 (cdt_DownloadDataID cdt) ∧ 0 ≤ cdt_VersionNumber cdt < 32 ∧ byte_ok (cdt_SectionNumber cdt) ∧
  byte_ok (cdt_LastSectionNumber cdt) ∧ word16 (cdt_OriginalNetworkID cdt) ∧ byte_ok (cdt_DataType cdt) ∧
  descs_ok (cdt_Descriptors cdt) ∧ bytes_ok (cdt_DataModule cdt) ∧
  len (concat (cdt_Descriptors cdt)) + len (cdt_DataModule cdt) + 14 < 4096.

Lemma ParseCDT_cdtSection cdt : cdt_ok cdt → ParseCDT (cdtSection cdt) = Ret cdt.
Proof.
  intros (Hdl & Hver & Hnum & Hlast & Hon & Hty & Hds & Hdata & Hfit).
  set (ds := concat (cdt_Descriptors cdt)) in *. set (data := cdt_DataModule cdt) in *.
  pose proof (len_nonneg ds). pose proof (len_nonneg data).
  assert (len (cdtBody cdt) = 5 + len ds + len data) as HB.
  { unfold cdtBody. rewrite !len_app, len_be16bytes, len_field. change (len [_]) with 1. fold ds data. lia. }
  assert (bytes_ok (cdtBody cdt)) as Hok.
  { unfold cdtBody. apply bytes_ok_app; [apply be16bytes_ok |].
    apply bytes_ok_app; [by apply Forall_singleton |]. apply bytes_ok_app; [by apply field_ok |].
    apply bytes_ok_app; [apply Hds | done]. }
  unfold ParseCDT. set (s := cdtSection cdt).
  assert (rejects 17 (λ t, t =? TableIDCDT) s = Ret false) as -> by (apply long_rejects; try done; lia). run.
  assert (TotalLength s = Ret (17 + len ds + len data)) as ->
    by (unfold s, cdtSection; rewrite long_TotalLength by (done || lia); f_equal; lia). run.
  assert (∃ hdr crc, s = hdr ++ be16bytes (cdt_OriginalNetworkID cdt) ++ [cdt_DataType cdt] ++
    field 0xf0 (len ds) ++ ds ++ data ++ crc ∧ len hdr = 8 ∧
    hdr = [TableIDCDT] ++ field 0xb0 (len (cdtBody cdt) + 9) ++ be16bytes (cdt_DownloadDataID cdt) ++
      [versionByte (cdt_VersionNumber cdt); cdt_SectionNumber cdt; cdt_LastSectionNumber cdt])
    as (hdr & crc & Hs & Hh & Hhdr).
  { unfold s, cdtSection. rewrite long_split. unfold cdtBody at 2. rewrite <- !app_assoc. eexists _, _.
    split; [reflexivity |]. done. }
  assert (get16m 15 s 11 = Ret (len ds)) as ->
    by (rewrite Hs, app_assoc, (app_assoc (hdr ++ _)); apply get16m_12; [done | | lia];
        rewrite !len_app, Hh; done). run.
  destruct (Z.ltb_spec (17 + len ds + len data - 4) (13 + len ds)); [lia |]. run.
  assert (get16 s 3 = Ret (cdt_DownloadDataID cdt)) as ->
    by (rewrite Hs, Hhdr, <- !app_assoc, app_assoc; by apply get16_app). run.
  assert (s![5] = Ret (versionByte (cdt_VersionNumber cdt)) ∧ s![6] = Ret (cdt_SectionNumber cdt) ∧
    s![7] = Ret (cdt_LastSectionNumber cdt)) as (-> & -> & ->) by (rewrite Hs, Hhdr; done). run.
  assert (get16 s 8 = Ret (cdt_OriginalNetworkID cdt)) as -> by (rewrite Hs; by apply get16_app). run.
  assert (s![10] = Ret (cdt_DataType cdt)) as ->
    by (rewrite Hs, app_assoc; apply idx_app; by rewrite len_app, Hh). run.
  assert (s![13; 13 + len ds] = Ret ds) as ->.
  { rewrite Hs, app_assoc, (app_assoc (hdr ++ _)), (app_assoc ((hdr ++ _) ++ _)). apply slice_app; [| done].
    rewrite !len_app, Hh. done. }
  run. rewrite ParseDescriptors_info with (ds := cdt_Descriptors cdt) by done. run.
  assert (s![13 + len ds; 17 + len ds + len data - 4] = Ret data) as ->.
  { rewrite Hs, app_assoc, (app_assoc (hdr ++ _)), (app_assoc ((hdr ++ _) ++ _)), (app_assoc (((hdr ++ _) ++ _) ++ _)).
    apply slice_app; [| lia]. rewrite !len_app, Hh, len_be16bytes, len_field. change (len [_]) with 1. lia. }
  run. rewrite versionByte_version by done. by destruct cdt.
Qed.

Lemma ParseCDTLogoImage_cdtImage cdt image :
  0 ≤ li_LogoID image ≤ 0x1ff → 0 ≤ li_LogoVersion image ≤ 0xfff → len (li_Data image) < 2 ^ 16 →
  png_or_empty (li_Data image) → li_IsDeleted image = (len (li_Data image) =? 0) →
  li_OriginalNetworkID image = cdt_OriginalNetworkID cdt →
  li_DownloadDataID image = cdt_DownloadDataID cdt →
  cdt_DataModule cdt = cdtImage image → ParseCDTLogoImage cdt = Ret image.
Proof.
  intros Hid Hv Hn Hp Hdel Hon Hdl Hm. unfold ParseCDTLogoImage. rewrite Hm. set (data := cdtImage image).
  pose proof (len_nonneg (li_Data image)).
  assert (len data = 7 + len (li_Data image)) as HL
    by (unfold data, cdtImage; rewrite !len_app, !len_field, len_be16bytes; change (len [_]) with 1; lia).
  rewrite HL. destruct (Z.ltb_spec (7 + len (li_Data image)) 7); [lia |]. run.
  assert (get16 data 5 = Ret (len (li_Data image))) as ->
    by (apply (get16_app ([li_LogoType image] ++ field 0xfe (li_LogoID image) ++
          field 0xf0 (li_LogoVersion image))); [done | lia]). run.
  rewrite Z.ltb_irrefl. run.
  assert (data![7; 7 + len (li_Data image)] = Ret (li_Data image)) as ->.
  { rewrite <- (app_nil_r data).
    apply (slice_app ([li_LogoType image] ++ field 0xfe (li_LogoID image) ++
      field 0xf0 (li_LogoVersion image) ++ be16bytes (len (li_Data image)))); done. }
  run. rewrite png_check by done. run.
  assert (get16m 0x01 data 1 = Ret (li_LogoID image)) as ->
    by (apply (get16m_field 1 0xfe [li_LogoType image]); [lia | done | done | change (2 ^ (1 + 8)) with 512; lia]). run.
  assert (get16m 0x0f data 3 = Ret (li_LogoVersion image)) as ->
    by (apply (get16m_12 0xf0 ([li_LogoType image] ++ field 0xfe (li_LogoID image))); [done | done | lia]). run.
  change (data![0]) with (Ret (li_LogoType image)). run. rewrite <- Hdel, <- Hon, <- Hdl. by destruct image.
Qed.

Definition logo_fits (cdt : CDT) (image : LogoImage) : Prop :=
  0 ≤ li_LogoID image ≤ 0x1ff ∧ 0 ≤ li_LogoVersion image ≤ 0xfff ∧ len (li_Data image) < 2 ^ 16 ∧
  png_or_empty (li_Data image) ∧ li_IsDeleted image = (len (li_Data image) =? 0) ∧
  li_OriginalNetworkID image = cdt_OriginalNetworkID cdt ∧
  li_DownloadDataID image = cdt_DownloadDataID cdt ∧ cdt_DataModule cdt = cdtImage image.

(** A CDT that fits a
    section parses back field for field and its data module parses back to the
    image it was built from; a logo data module parses back to its images with
    their services, deletions and network logos included. *)
Theorem logo_roundtrip cdt image logoType images :
  cdt_ok cdt → logo_fits cdt image →
  Forall (plain_logo logoType) images → Forall (λ i, len (cl_Services i) < 256) images → len images < 2 ^ 16 →
  ParseCDT (cdtSection cdt) = Ret cdt ∧ ParseCDTLogoImage cdt = Ret image ∧
  ParseLogoDataModule (logoModule logoType images) = Ret images.
Proof.
  intros Hc (? & ? & ? & ? & ? & ? & ? & ?) Hi Hs Hn. split_and!;
    [by apply ParseCDT_cdtSection | by apply ParseCDTLogoImage_cdtImage | by apply ParseLogoDataModule_logoModule].
Qed.

Definition sample_image : LogoImage := MkLogoImage 4 0x123 0x456 7 5 (pngSignature ++ [1; 2; 3]) false.
Definition sample_cdt : CDT := MkCDT 7 3 0 1 4 1 [[0xCF; 1; 2]] (cdtImage sample_image).
Definition sample_logos : list CommonLogoImage :=
  [MkCommonLogo 3 5 0 0 [MkLogoService 4 0x40f1 101; MkLogoService 4 0xffff 0xffff] (pngSignature ++ [9]) false true [];
   MkCommonLogo 4 5 0 0 [] [] true false []].

Lemma logo_roundtrip_witness :
  ParseCDT (cdtSection sample_cdt) = Ret sample_cdt ∧ ParseCDTLogoImage sample_cdt = Ret sample_image ∧
  ParseLogoDataModule (logoModule 5 sample_logos) = Ret sample_logos.
Proof.
  apply logo_roundtrip; [| | | by repeat constructor | done].
  - unfold cdt_ok, word16. split_and!; try done; try (by apply bytes_okb_spec).
    split; [split; [done | by apply descs_okb_spec] | by apply bytes_okb_spec].
  - unfold logo_fits. split_and!; try done. by right.
  - apply Forall_cons. split; [| apply Forall_singleton]; unfold plain_logo; split_and!; try done.
    + by repeat constructor.
    + by right.
    + by left.
Defined.

Lemma logo_parsers_total_witness :
  ends invalid (ParseCDT (cdtSection sample_cdt)) (λ cdt,
    word16 (cdt_DownloadDataID cdt) ∧ word16 (cdt_OriginalNetworkID cdt) ∧
    Forall desc_ok (cdt_Descriptors cdt) ∧ bytes_ok (cdt_DataModule cdt)) ∧
  ParseSDTTCommonDataAnnouncements (cdtSection sample_cdt) = Err ErrInvalidSection.
Proof.
  split; [| done].
  refine (proj1 (logo_parsers_total (cdtSection sample_cdt) sample_cdt [1; 2; 3] [[0xCF; 0]] _ _ _ _));
    try (by apply bytes_okb_spec).
  apply Forall_singleton. split; [by apply bytes_okb_spec | by apply desc_okb_spec].
Defined.

(** ** The carousel emits every announced logo module once *)

Section Emission.
Context (dii : DSMCCDII) (info : DSMCCModuleInfo) (content : list Z).

Let id := mi_ModuleID info.
Let bs := dii_BlockSize dii.
Let count := blockCount (mi_ModuleSize info) bs.

(** Block [k] of the module. *)
Definition logoBlock (k : Z) : list Z := sub content (k * bs) ((k + 1) * bs).

(** What the carousel is shown: the announcement again, or a block. *)
Inductive showing : Type := Announce | Block (k : Z).

#[local] Instance showing_eq_dec : EqDecision showing.
Proof. solve_decision. Defined.

Definition logoStep (c : DSMCCLogoCarousel) (step : showing) : outcome (DSMCCLogoCarousel * list CommonLogoImage) :=
  match step with
  | Announce => Ret (ObserveLogoDII dii c, [])
  | Block k =>
      '(c, (images, _)) ← ObserveLogoDDB (MkDDB (dii_DownloadID dii) id (mi_Version info) k (logoBlock k)) c;
      Ret (c, images)
  end.

(** All the images returned while the steps are taken. *)
Fixpoint logoSteps (steps : list showing) (c : DSMCCLogoCarousel)
    : outcome (DSMCCLogoCarousel * list CommonLogoImage) :=
  match steps with
  | [] => Ret (c, [])
  | step :: steps =>
      '(c, images) ← logoStep c step;
      '(c, rest) ← logoSteps steps c;
      Ret (c, images ++ rest)
  end.

(** Whether every block of the module is among the steps. *)
Definition covers (steps : list showing) : bool :=
  forallb (λ k, bool_decide (Block k ∈ steps)) (seqZ 0 count).

Lemma covers_spec steps : covers steps = true ↔ ∀ k, 0 ≤ k < count → Block k ∈ steps.
Proof.
  unfold covers. rewrite forallb_forall. split.
  - intros H k Hk. specialize (H k). rewrite <- list_elem_of_In, elem_of_seqZ in H.
    by apply bool_decide_eq_true in H; [| lia].
  - intros H k Hk%list_elem_of_In%elem_of_seqZ. apply bool_decide_eq_true, H. lia.
Qed.

Context (Hin : info ∈ dii_Modules dii) (Hnodup : NoDup (map mi_ModuleID (dii_Modules dii))).
Context (Hlogo : IsLogoModule info = true).
Context (Hsize : 0 < mi_ModuleSize info < 2 ^ 32 - 2 ^ 16) (Hbs : 0 < bs < 2 ^ 16).
Context (Hcount : count ≤ 2 ^ 16) (Hlen : len content = mi_ModuleSize info).

(** The module's state after the blocks of [seen]. *)
Definition logoState (seen : list showing) (blocks : gmap Z (list Z)) : dsmccLogoModuleState :=
  MkLogoState info (dii_DownloadID dii) bs blocks (covers seen).

Definition tracks (seen : list showing) (blocks : gmap Z (list Z)) : Prop :=
  ∀ k, blocks !! k = if decide (Block k ∈ seen) then Some (logoBlock k) else None.

Lemma joinBlocks_all blocks n : ∀ i, 0 ≤ i → i + Z.of_nat n ≤ count →
  (∀ k, i ≤ k < i + Z.of_nat n → blocks !! k = Some (logoBlock k)) →
  joinBlocks n i blocks = Some (sub content (i * bs) ((i + Z.of_nat n) * bs)).
Proof.
  induction n as [| n IH]; intros i Hi Hn Hb; cbn [joinBlocks].
  - rewrite Z.add_0_r. unfold sub. by rewrite Z.sub_diag.
  - unfold u16 at 1. rewrite Z.mod_small by lia. rewrite (Hb i) by lia. cbn [mbind option_bind].
    rewrite IH by (lia || (intros; apply Hb; lia)). cbn. unfold logoBlock. f_equal.
    rewrite <- sub_sub by nia. do 2 f_equal. lia.
Qed.

Lemma joinBlocks_missing blocks n k : ∀ i, 0 ≤ i → i + Z.of_nat n ≤ count →
  i ≤ k < i + Z.of_nat n → blocks !! k = None → joinBlocks n i blocks = None.
Proof.
  induction n as [| n IH]; intros i Hi Hn Hk Hb; cbn [joinBlocks]; [lia |].
  unfold u16 at 1. rewrite Z.mod_small by lia. destruct (decide (k = i)) as [-> | Hne]; [by rewrite Hb |].
  destruct (blocks !! i); [| done]. cbn [mbind option_bind]. by rewrite IH by (done || lia).
Qed.

(** A module assembles when all its blocks are there, and only then. *)
Lemma assemble_covers seen blocks e : tracks seen blocks →
  assemble (MkLogoState info (dii_DownloadID dii) bs blocks e) = Ret (if covers seen then Some content else None).
Proof.
  intros Ht. unfold assemble. cbn [lm_blockSize lm_info lm_blocks].
  destruct (Z.eqb_spec bs 0); [lia |]. fold count.
  destruct (blockCount_spec (mi_ModuleSize info) bs Hsize Hbs) as (Hpos & Hlow & Hup). fold count in Hpos, Hlow, Hup.
  destruct (covers seen) eqn:Hc.
  - rewrite covers_spec in Hc.
    assert (∀ k, 0 ≤ k < count → blocks !! k = Some (logoBlock k)) as Hall
      by (intros k Hk; rewrite Ht, decide_True; [done | by apply Hc]).
    assert (count ≤ Z.of_nat (size blocks)) as Hsz.
    { rewrite <- size_dom. transitivity (Z.of_nat (size (list_to_set (seqZ 0 count) : gset Z))).
      - rewrite size_list_to_set by apply NoDup_seqZ. rewrite length_seqZ. lia.
      - apply inj_le, subseteq_size. intros k. rewrite elem_of_list_to_set, elem_of_seqZ, elem_of_dom.
        intros Hk. by rewrite (Hall k) by lia. }
    destruct (Z.ltb_spec (Z.of_nat (size blocks)) count); [lia |].
    rewrite joinBlocks_all by (lia || (intros; apply Hall; lia)).
    assert (sub content (0 * bs) ((0 + Z.of_nat (Z.to_nat count)) * bs) = content) as ->.
    { rewrite Z.mul_0_l, Z.add_0_l, Z2Nat.id by lia. unfold sub. rewrite drop_0, take_ge; [done |].
      unfold len in Hlen. nia. }
    unfold u32. rewrite Hlen, Z.mod_small, Z.ltb_irrefl, <- Hlen by lia.
    by rewrite slice_sub, sub_full by (pose proof (len_nonneg content); lia).
  - assert (∃ k, 0 ≤ k < count ∧ blocks !! k = None) as (k & Hk & Hnone).
    { destruct (decide (Forall (λ k, Block k ∈ seen) (seqZ 0 count))) as [Hall | Hnot].
      - assert (covers seen = true); [| congruence]. apply covers_spec. intros k Hk.
        rewrite Forall_forall in Hall. apply Hall, elem_of_seqZ. lia.
      - apply not_Forall_Exists in Hnot; [| apply _]. apply Exists_exists in Hnot as (k & Hk%elem_of_seqZ & Hk').
        exists k. split; [lia |]. rewrite Ht. by rewrite decide_False. }
    destruct (_ <? _); [done |]. by rewrite (joinBlocks_missing _ _ k) by (done || lia).
Qed.

Lemma observeLogoModule_other st m k : mi_ModuleID m ≠ k → fst (observeLogoModule dii st m) !! k = fst st !! k.
Proof.
  intros Hne. destruct st as [c acc]. unfold observeLogoModule. destruct (negb _); [done |]. cbn [fst].
  repeat case_match; solve [done | by apply lookup_insert_ne].
Qed.

Lemma observeLogoModules_other modules st k : k ∉ map mi_ModuleID modules →
  fst (fold_left (observeLogoModule dii) modules st) !! k = fst st !! k.
Proof.
  revert st. induction modules as [| m modules IH]; intros st Hk; [done |]. cbn [fold_left map] in *.
  apply not_elem_of_cons in Hk as [Hne Hk]. rewrite IH by done. by apply observeLogoModule_other.
Qed.

(** The announcement installs the module once and then leaves it alone. *)
Lemma observeLogoDII_at c r :
  (c !! id = None ∧ r = logoState [] ∅ ∧ covers [] = false) ∨
  (∃ seen blocks, c !! id = Some (logoState seen blocks) ∧ r = logoState seen blocks) →
  ObserveLogoDII dii c !! id = Some r.
Proof.
  intros Hr. unfold ObserveLogoDII, observeLogoDII.
  assert (∃ l1 l2, dii_Modules dii = l1 ++ info :: l2) as (l1 & l2 & Hl) by by apply list_elem_of_split.
  rewrite Hl in *. rewrite map_app, NoDup_app in Hnodup. cbn [map] in Hnodup.
  destruct Hnodup as (_ & Hdis & (Hl2 & _)%NoDup_cons).
  rewrite fold_left_app. cbn [fold_left]. rewrite observeLogoModules_other by done.
  pose proof (observeLogoModules_other l1 (c, false) id) as H1. cbn [fst] in H1.
  specialize (H1 (λ H, Hdis _ H (list_elem_of_here _ _))).
  destruct (fold_left _ l1 _) as [c1 acc]. cbn [fst] in H1. unfold observeLogoModule.
  rewrite Hlogo. cbn [negb fst]. fold id. rewrite H1.
  destruct Hr as [(-> & -> & Hc) | (seen & blocks & Hs & ->)].
  - cbn beta iota zeta. unfold logoState. rewrite Hc. apply lookup_insert_eq.
  - rewrite Hs. cbn beta iota zeta. cbn [lm_downloadID lm_info logoState]. by rewrite !Z.eqb_refl, <- Hs.
Qed.

Context (images : list CommonLogoImage) (Himages : ParseLogoDataModule content = Ret images).
Context (logoType : option Z) (Htype : LogoType info = Ret logoType).

Definition labelled : list CommonLogoImage :=
  match logoType with
  | Some logoType => map (labelImage (MkLogoState info (dii_DownloadID dii) bs ∅ true) logoType) images
  | None => images
  end.

Lemma covers_app seen steps : covers seen = true → covers (seen ++ steps) = true.
Proof. rewrite !covers_spec. set_solver. Qed.

Lemma tracks_insert seen blocks k : tracks seen blocks →
  tracks (seen ++ [Block k]) (<[k := logoBlock k]> blocks).
Proof.
  intros Ht k'. destruct (decide (k' = k)) as [-> | Hne].
  - rewrite lookup_insert_eq, decide_True; [done | set_solver].
  - rewrite lookup_insert_ne, Ht by done. apply decide_ext. rewrite elem_of_app, list_elem_of_singleton.
    split; [by left | by intros [? | [= ?]]].
Qed.

(** Emitted or not, the blocks kept are the blocks seen until then. *)
Definition follows (seen : list showing) (c : DSMCCLogoCarousel) : Prop :=
  ∃ blocks, c !! id = Some (logoState seen blocks) ∧ (covers seen = false → tracks seen blocks).

Definition emission (seen steps : list showing) : list CommonLogoImage :=
  if covers seen then [] else if covers (seen ++ steps) then labelled else [].

Lemma covers_announce seen : covers (seen ++ [Announce]) = covers seen.
Proof. apply eq_true_iff_eq. rewrite !covers_spec. set_solver. Qed.

Lemma logoStep_spec seen c step : follows seen c →
  ∃ c', logoStep c step = Ret (c', emission seen [step]) ∧ follows (seen ++ [step]) c'.
Proof.
  intros (blocks & Hc & Ht). unfold emission. destruct step as [| k]; cbn [logoStep].
  - rewrite covers_announce. exists (ObserveLogoDII dii c). split; [by destruct (covers seen) |].
    exists blocks. unfold logoState. rewrite covers_announce. split.
    + apply observeLogoDII_at. right. by exists seen, blocks.
    + intros Hcov. specialize (Ht Hcov). intros k. rewrite Ht. apply decide_ext. set_solver.
  - unfold ObserveLogoDDB. cbn [ddb_ModuleID ddb_DownloadID ddb_ModuleVersion ddb_BlockNumber ddb_Data].
    rewrite Hc. cbn [lm_emitted lm_downloadID lm_info lm_blockSize lm_blocks logoState].
    rewrite !Z.eqb_refl, !orb_false_r. destruct (covers seen) eqn:Hcov.
    + cbn [orb negb]. run. exists c. split; [done |]. exists blocks. unfold logoState.
      rewrite covers_app by done. split; [by rewrite Hc; unfold logoState; rewrite Hcov | done].
    + specialize (Ht eq_refl). apply (tracks_insert _ _ k) in Ht. cbn [orb negb].
      rewrite (assemble_covers _ _ _ Ht). run. destruct (covers (seen ++ [Block k])) eqn:Hk.
      * rewrite Himages, Htype. run. eexists. split; [reflexivity |].
        eexists. unfold logoState. rewrite Hk. split; [apply lookup_insert_eq | done].
      * run. eexists. split; [reflexivity |]. eexists. unfold logoState. rewrite Hk.
        split; [apply lookup_insert_eq | done].
Qed.

Lemma emission_app seen step steps : emission seen (step :: steps) = emission seen [step] ++ emission (seen ++ [step]) steps.
Proof.
  unfold emission. rewrite <- app_assoc. cbn [app]. destruct (covers seen) eqn:Hc.
  - by rewrite covers_app.
  - destruct (covers (seen ++ [step])) eqn:Hk; [| done].
    change (seen ++ step :: steps) with (seen ++ [step] ++ steps). rewrite app_assoc, covers_app by done.
    by rewrite app_nil_r.
Qed.

Lemma logoSteps_spec steps : ∀ seen c, follows seen c →
  ∃ c', logoSteps steps c = Ret (c', emission seen steps) ∧ follows (seen ++ steps) c'.
Proof.
  induction steps as [| step steps IH]; intros seen c Hf; cbn [logoSteps].
  - exists c. rewrite app_nil_r. split; [| done]. unfold emission. rewrite app_nil_r. by destruct (covers seen).
  - destruct (logoStep_spec seen c step Hf) as (c1 & -> & H1). run.
    destruct (IH _ _ H1) as (c2 & -> & H2). run. exists c2. rewrite <- app_assoc in H2.
    by rewrite <- emission_app.
Qed.

(** Once a DII announces a logo module, its blocks in
    any order, with repetitions, strays and repeated announcements, yield the
    images of the module, labelled with its type, version and download id, the
    moment the last missing block arrives, and nothing before or after. *)
Theorem logo_carousel_emits c steps :
  c !! id = None →
  ∃ c', logoSteps steps (ObserveLogoDII dii c) = Ret (c', if covers steps then labelled else []) ∧
    ∃ m, c' !! id = Some m ∧ lm_emitted m = covers steps.
Proof.
  intros Hnone. assert (covers [] = false) as Hcov.
  { destruct (blockCount_spec (mi_ModuleSize info) bs Hsize Hbs) as (Hpos & _). fold count in Hpos.
    destruct (covers []) eqn:Hc; [| done]. rewrite covers_spec in Hc. by specialize (Hc 0 ltac:(lia)) as ?%elem_of_nil. }
  destruct (logoSteps_spec steps [] (ObserveLogoDII dii c)) as (c' & Hs & blocks & Hc' & _).
  - exists ∅. split; [apply observeLogoDII_at; by left |]. intros _ k. by rewrite lookup_empty.
  - exists c'. rewrite Hs. unfold emission. rewrite Hcov. split; [done |]. by eexists.
Qed.

End Emission.

Definition sampleLogoContent : list Z := logoModule 5 sample_logos.
Definition sampleLogoInfo : DSMCCModuleInfo :=
  MkModuleInfo 3 (len sampleLogoContent) 2 (logoName ++ [0x33]).
Definition sampleLogoDII : DSMCCDII := MkDII 9 20 [MkModuleInfo 1 100 0 []; sampleLogoInfo] [].

Lemma logo_carousel_emits_witness :
  ∃ c', logoSteps sampleLogoDII sampleLogoInfo sampleLogoContent [Block 1; Announce; Block 1; Block 0; Block 2]
          (ObserveLogoDII sampleLogoDII NewDSMCCLogoCarousel) =
        Ret (c', labelled sampleLogoDII sampleLogoInfo sample_logos (Some 3)) ∧
    ∃ m, c' !! 3 = Some m ∧ lm_emitted m = true.
Proof.
  apply (logo_carousel_emits sampleLogoDII sampleLogoInfo sampleLogoContent) with (images := sample_logos)
    (logoType := Some 3); try (by vm_compute).
  - set_solver.
  - apply (bool_decide_unpack _). by vm_compute.
Defined.
