(* ===== verification/LogoPng.v ===== *)
(** * PNG logos with the receiver's common palette ([ts/logo_png.go])

    [NormalizeARIBLogoPNG] gives a palette PNG without a PLTE chunk the common
    fixed colours of the receiver.  The checksum of [hash/crc32] (IEEE) is
    modelled bit by bit. *)

From S2P Require Import Prelude Crc32 Packet Section AribTables Aribstr Descriptors Psi Dsmcc Carousel Logo.

(** ** The code *)

Definition pngChunkIHDR : list Z := [0x49; 0x48; 0x44; 0x52].
Definition pngChunkPLTE : list Z := [0x50; 0x4c; 0x54; 0x45].
Definition pngChunktRNS : list Z := [0x74; 0x52; 0x4e; 0x53].
Definition pngChunkIEND : list Z := [0x49; 0x45; 0x4e; 0x44].

(** [crc32.NewIEEE]: the reflected polynomial, bit by bit. *)
Definition ieeeBit (crc : Z) : Z :=
  if Z.testbit crc 0 then Z.lxor (Z.shiftr crc 1) 0xedb88320 else Z.shiftr crc 1.
Definition ieeeByte (crc b : Z) : Z := Nat.iter 8 ieeeBit (Z.lxor crc b).
Definition crc32IEEE (data : list Z) : Z := Z.lxor (fold_left ieeeByte data 0xffffffff) 0xffffffff.

Definition appendPNGChunk (dst chunkType chunkData : list Z) : list Z :=
  dst ++ be32bytes (u32 (len chunkData)) ++ chunkType ++ chunkData ++
  be32bytes (crc32IEEE (chunkType ++ chunkData)).

Record color : Type := MkColor { co_r : Z; co_g : Z; co_b : Z; co_a : Z }.

Definition compat : list color :=
  [MkColor 0 0 0 255; MkColor 255 0 0 255; MkColor 0 255 0 255; MkColor 255 255 0 255;
   MkColor 0 0 255 255; MkColor 255 0 255 255; MkColor 0 255 255 255; MkColor 255 255 255 255;
   MkColor 170 0 0 255; MkColor 0 170 0 255; MkColor 170 170 0 255; MkColor 0 0 170 255;
   MkColor 170 0 170 255; MkColor 0 170 170 255; MkColor 170 170 170 255].

Definition rgb (c : color) : Z * Z * Z := (co_r c, co_g c, co_b c).
Definition compatRGB : gset (Z * Z * Z) := list_to_set (map rgb compat).
Definition levels : list Z := [0; 85; 170; 255].

(** The three nested loops over the levels, in order, with the given alpha,
    skipping the colours in [skip]. *)
Definition levelColors (alpha : Z) (skip : gset (Z * Z * Z)) : list color :=
  r ← levels; g ← levels; b ← levels;
  if decide ((r, g, b) ∈ skip) then [] else [MkColor r g b alpha].

Definition aribColors : list color :=
  take 8 compat ++ [MkColor 0 0 0 0] ++ drop 8 compat ++
  levelColors 255 compatRGB ++
  map (λ c, MkColor (co_r c) (co_g c) (co_b c) 128) compat ++
  levelColors 128 (compatRGB ∪ {[(255, 255, 170)]}).

Definition buildARIBCommonFixedColorChunks : list Z * list Z :=
  (concat (map (λ c, [co_r c; co_g c; co_b c]) aribColors), map co_a aribColors).

Definition aribCommonFixedColorPLTE : list Z := fst buildARIBCommonFixedColorChunks.
Definition aribCommonFixedColortRNS : list Z := snd buildARIBCommonFixedColorChunks.

(** The scan's position, [ihdrEnd], [colorType] and [hasPLTE]. *)
Record scanState : Type := MkScan {
  sc_pos : Z;
  sc_ihdrEnd : Z;
  sc_colorType : Z;
  sc_hasPLTE : bool
}.

Definition scanBody (data : list Z) (st : scanState) : outcome (scanState + scanState) :=
  let pos := sc_pos st in
  errorIf (len data <? pos + 12) ErrInvalidSection;;
  chunkLen ← get32 data pos;
  let chunkDataStart := pos + 8 in
  let chunkDataEnd := chunkDataStart + chunkLen in
  let chunkEnd := chunkDataEnd + 4 in
  errorIf ((chunkLen <? 0) || (chunkDataEnd <? chunkDataStart) || (len data <? chunkEnd)) ErrInvalidSection;;
  chunkType ← data![pos + 4; chunkDataStart];
  if decide (chunkType = pngChunkIHDR) then
    errorIf (negb (chunkLen =? 13) || negb (sc_ihdrEnd st =? -1)) ErrInvalidSection;;
    colorType ← data![chunkDataStart + 9];
    continue (MkScan chunkEnd chunkEnd colorType (sc_hasPLTE st))
  else if decide (chunkType = pngChunkPLTE) then
    continue (MkScan chunkEnd (sc_ihdrEnd st) (sc_colorType st) true)
  else if decide (chunkType = pngChunkIEND) then
    errorIf (negb (chunkEnd =? len data)) ErrInvalidSection;;
    break (MkScan chunkEnd (sc_ihdrEnd st) (sc_colorType st) (sc_hasPLTE st))
  else continue (MkScan chunkEnd (sc_ihdrEnd st) (sc_colorType st) (sc_hasPLTE st)).

Definition NormalizeARIBLogoPNG (data : list Z) : outcome (list Z) :=
  errorIf (negb (hasPrefix data pngSignature)) ErrInvalidSection;;
  st ← loop (S (length data)) (scanBody data) (MkScan (len pngSignature) (-1) 0xff false);
  let ihdrEnd := sc_ihdrEnd st in
  errorIf (ihdrEnd =? -1) ErrInvalidSection;;
  if negb (sc_colorType st =? 3) || sc_hasPLTE st then Ret data
  else
    head ← data![0; ihdrEnd];
    tail ← data![ihdrEnd; len data];
    let out := appendPNGChunk head pngChunkPLTE aribCommonFixedColorPLTE in
    let out := appendPNGChunk out pngChunktRNS aribCommonFixedColortRNS in
    Ret (out ++ tail).

(** ** Files as sequences of chunks *)

Record pngChunk : Type := MkPngChunk { ch_type : list Z; ch_data : list Z; ch_crc : list Z }.

Definition chunkBytes (c : pngChunk) : list Z :=
  be32bytes (len (ch_data c)) ++ ch_type c ++ ch_data c ++ ch_crc c.

Definition pngFile (chunks : list pngChunk) : list Z := pngSignature ++ concat (map chunkBytes chunks).

Definition isType (ty : list Z) (c : pngChunk) : bool := bool_decide (ch_type c = ty).

Definition chunk_ok (c : pngChunk) : Prop :=
  len (ch_type c) = 4 ∧ len (ch_crc c) = 4 ∧ len (ch_data c) < 2 ^ 32 ∧
  (isType pngChunkIHDR c = true → len (ch_data c) = 13).

Definition has (ty : list Z) (chunks : list pngChunk) : bool := existsb (isType ty) chunks.

(** Whole chunks, one IHDR among them, closed by the only IEND. *)
Record png_ok (chunks : list pngChunk) : Prop := {
  png_chunks : Forall chunk_ok chunks;
  png_ihdr : ∃ a c b, chunks = a ++ c :: b ∧ isType pngChunkIHDR c = true ∧
             has pngChunkIHDR a = false ∧ has pngChunkIHDR b = false;
  png_iend : ∃ body final, chunks = body ++ [final] ∧ isType pngChunkIEND final = true ∧
             has pngChunkIEND body = false
}.

(** The chunk [appendPNGChunk] writes. *)
Definition newChunk (ty data : list Z) : pngChunk := MkPngChunk ty data (be32bytes (crc32IEEE (ty ++ data))).

Definition paletteChunks : list pngChunk :=
  [newChunk pngChunkPLTE aribCommonFixedColorPLTE; newChunk pngChunktRNS aribCommonFixedColortRNS].

Fixpoint insertPalette (chunks : list pngChunk) : list pngChunk :=
  match chunks with
  | [] => []
  | c :: chunks => if isType pngChunkIHDR c then c :: paletteChunks ++ chunks else c :: insertPalette chunks
  end.

Fixpoint colorTypeOf (chunks : list pngChunk) : Z :=
  match chunks with
  | [] => 0xff
  | c :: chunks => if isType pngChunkIHDR c then byteAt (ch_data c) 9 else colorTypeOf chunks
  end.

(** What the normalisation is meant to do. *)
Definition withPalette (chunks : list pngChunk) : list pngChunk :=
  if (colorTypeOf chunks =? 3) && negb (has pngChunkPLTE chunks) then insertPalette chunks
  else chunks.

Lemma aribColors_count : length aribColors = 128%nat.
Proof. vm_compute. reflexivity. Qed.
Lemma palette_len : len aribCommonFixedColorPLTE = 384 ∧ len aribCommonFixedColortRNS = 128.
Proof. vm_compute. done. Qed.

#[global] Opaque aribCommonFixedColorPLTE aribCommonFixedColortRNS crc32IEEE.

Lemma appendPNGChunk_eq dst ty data :
  len data < 2 ^ 32 → appendPNGChunk dst ty data = dst ++ chunkBytes (newChunk ty data).
Proof.
  intros Hl. unfold appendPNGChunk, chunkBytes, newChunk. cbn [ch_type ch_data ch_crc].
  unfold u32. pose proof (len_nonneg data). by rewrite Z.mod_small by lia.
Qed.

Lemma has_app ty a b : has ty (a ++ b) = has ty a || has ty b.
Proof. apply existsb_app. Qed.

(** A chunk has one type. *)
Lemma isType_ne ty ty' c : isType ty c = true → ty ≠ ty' → isType ty' c = false.
Proof. unfold isType. rewrite bool_decide_eq_true, bool_decide_eq_false. congruence. Qed.

Lemma chunkBytes_len c : len (ch_type c) = 4 → len (ch_crc c) = 4 →
  len (chunkBytes c) = 12 + len (ch_data c).
Proof.
  intros Ht Hc. unfold chunkBytes. rewrite !len_app, Ht, Hc. change (len (be32bytes _)) with 4. lia.
Qed.

Lemma pngFile_snoc chunks c : pngFile (chunks ++ [c]) = pngFile chunks ++ chunkBytes c.
Proof. unfold pngFile. by rewrite map_app, concat_app, app_assoc; cbn; rewrite app_nil_r. Qed.

(** Four bytes are the encoding of the word they spell. *)
Lemma be32bytes_read a b c d : byte_ok a → byte_ok b → byte_ok c → byte_ok d →
  be32bytes (Z.lor (Z.shiftl (be16 a b) 16) (be16 c d)) = [a; b; c; d].
Proof.
  intros Ha Hb Hc Hd. pose proof (be16_ok c d Hc Hd). rewrite lor_shift by lia.
  rewrite !be16_eq by done. unfold byte_ok in *. unfold be32bytes, u8. rewrite !Z.shiftr_div_pow2 by lia.
  set (x := (a * 256 + b) * 2 ^ 16 + (c * 256 + d)).
  assert (x / 2 ^ 24 = a) as -> by (symmetry; apply (Z.div_unique_pos x _ a ((b * 256 + c) * 256 + d)); lia).
  assert (x / 2 ^ 16 = a * 256 + b) as -> by (symmetry; apply (Z.div_unique_pos x _ _ (c * 256 + d)); lia).
  assert (x / 2 ^ 8 = (a * 256 + b) * 256 + c) as -> by (symmetry; apply (Z.div_unique_pos x _ _ d); lia).
  change (2 ^ 8) with 256.
  rewrite <- (Z.mod_unique_pos a 256 0 a), <- (Z.mod_unique_pos (a * 256 + b) 256 a b),
    <- (Z.mod_unique_pos ((a * 256 + b) * 256 + c) 256 (a * 256 + b) c),
    <- (Z.mod_unique_pos x 256 ((a * 256 + b) * 256 + c) d); [done | lia..].
Qed.

Lemma sub_one l i : 0 ≤ i < len l → sub l i (i + 1) = [byteAt l i].
Proof.
  intros Hi. unfold sub, byteAt. replace (Z.to_nat (i + 1 - i)) with 1%nat by lia.
  unfold len in Hi. destruct (lookup_lt_is_Some_2 l (Z.to_nat i)) as [b Hb]; [lia |].
  by rewrite (drop_S _ _ _ Hb), Hb.
Qed.

(** The next chunk of the data, when there is room for it. *)
Lemma cut_chunk data pos :
  bytes_ok data → 0 ≤ pos → pos + 12 ≤ len data →
  ∃ v, get32 data pos = Ret v ∧ 0 ≤ v < 2 ^ 32 ∧ (pos + 8 + v + 4 ≤ len data →
    ∃ c rest, data = sub data 0 pos ++ chunkBytes c ++ rest ∧
      len (ch_type c) = 4 ∧ len (ch_crc c) = 4 ∧ len (ch_data c) = v).
Proof.
  intros Hd Hp Hl. unfold get32. rewrite !get16_ret by lia. run.
  set (b := byteAt data). eexists. split; [reflexivity |].
  assert (∀ i, byte_ok (b i)) as Hb by (intros; by apply byteAt_ok).
  set (v := Z.lor _ _). assert (0 ≤ v < 2 ^ 32) as Hv.
  { unfold v. pose proof (be16_ok _ _ (Hb pos) (Hb (pos + 1))).
    pose proof (be16_ok _ _ (Hb (pos + 2)) (Hb (pos + 2 + 1))). rewrite lor_shift by lia. lia. }
  split; [done |]. intros Hfit.
  exists (MkPngChunk (sub data (pos + 4) (pos + 8)) (sub data (pos + 8) (pos + 8 + v))
    (sub data (pos + 8 + v) (pos + 8 + v + 4))), (sub data (pos + 8 + v + 4) (len data)).
  unfold chunkBytes. cbn [ch_type ch_data ch_crc]. rewrite !len_sub by lia.
  split_and!; [| lia..]. replace (pos + 8 + v - (pos + 8)) with v by lia.
  assert (be32bytes v = sub data pos (pos + 4)) as ->.
  { unfold v. rewrite be32bytes_read by done.
    rewrite (sub_sub data pos (pos + 1)), (sub_sub data (pos + 1) (pos + 1 + 1)),
      (sub_sub data (pos + 1 + 1) (pos + 1 + 1 + 1)) by lia.
    replace (pos + 4) with (pos + 1 + 1 + 1 + 1) by lia. rewrite !sub_one by lia.
    replace (pos + 2 + 1) with (pos + 1 + 1 + 1) by lia. by replace (pos + 2) with (pos + 1 + 1) by lia. }
  rewrite <- !app_assoc, <- !sub_sub by lia. by rewrite sub_full.
Qed.

(** ** The scan *)

(** The state after the chunks [done], none of which is IEND. *)
Record scanned (chunks : list pngChunk) (st : scanState) : Prop := {
  sd_ok : Forall chunk_ok chunks;
  sd_iend : has pngChunkIEND chunks = false;
  sd_pos : sc_pos st = len (pngFile chunks);
  sd_plte : sc_hasPLTE st = has pngChunkPLTE chunks;
  sd_ihdr : (has pngChunkIHDR chunks = false ∧ sc_ihdrEnd st = -1) ∨
    ∃ a c b, chunks = a ++ c :: b ∧ isType pngChunkIHDR c = true ∧ has pngChunkIHDR a = false ∧
      has pngChunkIHDR b = false ∧ sc_ihdrEnd st = len (pngFile (a ++ [c])) ∧
      sc_colorType st = byteAt (ch_data c) 9
}.

Definition sizes_ok (c : pngChunk) : Prop :=
  len (ch_type c) = 4 ∧ len (ch_crc c) = 4 ∧ len (ch_data c) < 2 ^ 32.

(** What the scan does with a chunk. *)
Definition scanChunk (c : pngChunk) (final : bool) (st : scanState) : outcome (scanState + scanState) :=
  let stop := sc_pos st + 12 + len (ch_data c) in
  if isType pngChunkIHDR c then
    errorIf (negb (len (ch_data c) =? 13) || negb (sc_ihdrEnd st =? -1)) ErrInvalidSection;;
    continue (MkScan stop stop (byteAt (ch_data c) 9) (sc_hasPLTE st))
  else if isType pngChunkIEND c then
    errorIf (negb final) ErrInvalidSection;;
    break (MkScan stop (sc_ihdrEnd st) (sc_colorType st) (sc_hasPLTE st))
  else continue (MkScan stop (sc_ihdrEnd st) (sc_colorType st) (sc_hasPLTE st || isType pngChunkPLTE c)).

Lemma scanBody_chunk pre c rest st :
  sizes_ok c → sc_pos st = len pre →
  scanBody (pre ++ chunkBytes c ++ rest) st = scanChunk c (len rest =? 0) st.
Proof.
  intros (Ht & Hc & Hl) Hp. unfold scanBody, scanChunk. rewrite Hp.
  pose proof (len_nonneg pre). pose proof (len_nonneg rest). pose proof (len_nonneg (ch_data c)).
  set (data := pre ++ chunkBytes c ++ rest).
  assert (len data = len pre + 12 + len (ch_data c) + len rest) as HL
    by (unfold data; rewrite !len_app, chunkBytes_len by done; lia).
  rewrite HL. destruct (Z.ltb_spec (len pre + 12 + len (ch_data c) + len rest) (len pre + 12)); [lia |]. run.
  assert (data = pre ++ be32bytes (len (ch_data c)) ++ ch_type c ++ ch_data c ++ ch_crc c ++ rest) as Hd
    by (unfold data, chunkBytes; by rewrite <- !app_assoc).
  assert (get32 data (len pre) = Ret (len (ch_data c))) as -> by (rewrite Hd; by apply get32_app). run.
  destruct (Z.ltb_spec (len (ch_data c)) 0); [lia |].
  destruct (Z.ltb_spec (len pre + 8 + len (ch_data c)) (len pre + 8)); [lia |].
  destruct (Z.ltb_spec (len pre + 12 + len (ch_data c) + len rest) (len pre + 8 + len (ch_data c) + 4)); [lia |].
  cbn [orb]. run.
  assert (data![len pre + 4; len pre + 8] = Ret (ch_type c)) as ->.
  { rewrite Hd, app_assoc. apply slice_app; [rewrite len_app; done | lia]. }
  run. replace (len pre + 8 + len (ch_data c) + 4) with (len pre + 12 + len (ch_data c)) by lia. unfold isType.
  destruct (decide (ch_type c = pngChunkIHDR)) as [E | E]; [rewrite bool_decide_true by done |
    rewrite (bool_decide_false (ch_type c = pngChunkIHDR)) by done].
  - destruct (Z.eqb_spec (len (ch_data c)) 13) as [E13 |]; [| done]. cbn [negb orb].
    destruct (_ =? -1); [| done]. run.
    assert (data![len pre + 8 + 9] = Ret (byteAt (ch_data c) 9)) as ->; [| done].
    rewrite idx_byteAt by lia. f_equal. rewrite Hd, app_assoc, app_assoc.
    rewrite byteAt_app_r by (rewrite !len_app, Ht; change (len (be32bytes _)) with 4; lia).
    rewrite byteAt_app_l; rewrite !len_app, Ht; change (len (be32bytes _)) with 4; [f_equal |]; lia.
  - destruct (decide (ch_type c = pngChunkPLTE)) as [E' | E'].
    + rewrite (bool_decide_false (_ = pngChunkIEND)) by (rewrite E'; done).
      by rewrite (bool_decide_true (_ = pngChunkPLTE)), orb_true_r by done.
    + destruct (decide (ch_type c = pngChunkIEND)) as [E'' | E''].
      * rewrite (bool_decide_true (_ = pngChunkIEND)) by done. do 2 f_equal.
        destruct (Z.eqb_spec (len pre + 12 + len (ch_data c)) (len pre + 12 + len (ch_data c) + len rest)),
          (Z.eqb_spec (len rest) 0); done || lia.
      * rewrite (bool_decide_false (_ = pngChunkIEND)) by done.
        by rewrite (bool_decide_false (_ = pngChunkPLTE)), orb_false_r by done.
Qed.

(** Going on past a chunk that is neither IEND nor a second or misshapen IHDR. *)
Lemma scanned_snoc chunks c st st' final :
  scanned chunks st → sizes_ok c → isType pngChunkIEND c = false →
  scanChunk c final st = Ret (inl st') → scanned (chunks ++ [c]) st'.
Proof.
  intros [S1 S2 S3 S4 S5] (Ht & Hc & Hl) Hend. unfold scanChunk. rewrite Hend.
  assert (len (pngFile (chunks ++ [c])) = sc_pos st + 12 + len (ch_data c)) as HP
    by (rewrite pngFile_snoc, len_app, chunkBytes_len by done; lia).
  destruct (isType pngChunkIHDR c) eqn:Hi.
  - destruct (_ || _) eqn:E; [done |]. run. intros [= <-]. bools.
    destruct S5 as [[S5 _] | (a & c' & b & -> & _ & _ & _ & Hend' & _)].
    + split; cbn [sc_pos sc_ihdrEnd sc_colorType sc_hasPLTE].
      * apply Forall_app. split; [done |]. by apply Forall_singleton.
      * rewrite has_app, S2. cbn. by rewrite Hend.
      * done.
      * rewrite has_app, S4. cbn. by rewrite (isType_ne _ pngChunkPLTE _ Hi), !orb_false_r.
      * right. by exists chunks, c, [].
    + rewrite Hend' in *. pose proof (len_nonneg (pngFile (a ++ [c']))). lia.
  - intros [= <-]. split; cbn [sc_pos sc_ihdrEnd sc_colorType sc_hasPLTE].
    + apply Forall_app. split; [done |]. apply Forall_singleton. unfold chunk_ok. by rewrite Hi.
    + rewrite has_app, S2. cbn. by rewrite Hend.
    + done.
    + rewrite has_app, S4. cbn. by rewrite orb_false_r.
    + rewrite has_app. destruct S5 as [[S5 E] | (a & c' & b & -> & Hc' & Ha & Hb & E & Hcol)].
      * left. rewrite S5. cbn. by rewrite Hi.
      * right. exists a, c', (b ++ [c]). rewrite <- app_assoc. split_and!; try done.
        rewrite has_app, Hb. cbn. by rewrite Hi.
Qed.

(** How a successful scan ends: with the fields of a state after all the chunks
    but the last, an IEND that closes the data. *)
Definition scan_result (data : list Z) (st : scanState) : Prop :=
  ∃ body final st', data = pngFile (body ++ [final]) ∧ scanned body st' ∧ sizes_ok final ∧
    isType pngChunkIEND final = true ∧ sc_ihdrEnd st = sc_ihdrEnd st' ∧
    sc_colorType st = sc_colorType st' ∧ sc_hasPLTE st = sc_hasPLTE st'.

Definition scanStart : scanState := MkScan (len pngSignature) (-1) 0xff false.

Lemma scanStart_scanned : scanned [] scanStart.
Proof. split; [apply Forall_nil_2 | done | done | done | by left]. Qed.

Lemma sizes_ok_chunk c : chunk_ok c → sizes_ok c.
Proof. by intros (? & ? & ? & ?). Qed.

Lemma scan_step data chunks c rest st :
  data = pngFile chunks ++ chunkBytes c ++ rest → scanned chunks st →
  sizes_ok c → ends invalid (scanBody data st) (λ r, match r with
    | inl st' => scanned (chunks ++ [c]) st'
    | inr st' => scan_result data st'
    end).
Proof.
  intros -> Hs Hc. rewrite scanBody_chunk by (done || apply Hs). unfold scanChunk at 1.
  pose proof (scanned_snoc chunks c st) as Hsnoc. unfold scanChunk in Hsnoc.
  destruct (isType pngChunkIEND c) eqn:Hend.
  - rewrite (isType_ne _ pngChunkIHDR _ Hend) by done.
    destruct (Z.eqb_spec (len rest) 0) as [->%len_zero_nil |]; [| done]. run.
    exists chunks, c, st. rewrite pngFile_snoc, app_nil_r. by split_and!.
  - destruct (isType pngChunkIHDR c).
    + destruct (_ || _); [done |]. apply (Hsnoc _ true); done.
    + apply (Hsnoc _ true); done.
Qed.

Lemma scan_total data : bytes_ok data → hasPrefix data pngSignature = true →
  ends invalid (loop (S (length data)) (scanBody data) scanStart) (scan_result data).
Proof.
  intros Hd Hsig. unfold hasPrefix in Hsig. apply bool_decide_eq_true in Hsig.
  apply (safe_loop (λ st, ∃ chunks rest, data = pngFile chunks ++ rest ∧ scanned chunks st)
    (λ st, Z.to_nat (len data - sc_pos st))).
  - intros st (chunks & rest & Hdata & Hs). pose proof (sd_pos _ _ Hs) as Hp.
    pose proof (len_nonneg (pngFile chunks)).
    destruct (Z.ltb_spec (len data) (sc_pos st + 12)) as [Hlt |].
    { unfold scanBody. destruct (Z.ltb_spec (len data) (sc_pos st + 12)); [done | lia]. }
    destruct (cut_chunk data (sc_pos st)) as (v & Hv & Hrange & Hcut); [done | lia | lia |].
    destruct (Z.ltb_spec (len data) (sc_pos st + 8 + v + 4)) as [Hlt |].
    { unfold scanBody. destruct (Z.ltb_spec (len data) (sc_pos st + 12)); [done |]. run. rewrite Hv. run.
      destruct (Z.ltb_spec (len data) (sc_pos st + 8 + v + 4)); [| lia]. by rewrite !orb_true_r. }
    destruct Hcut as (c & rest' & Hdata' & Ht & Hc & Hl); [lia |].
    assert (sub data 0 (sc_pos st) = pngFile chunks) as Hpre.
    { rewrite Hdata, sub_app_l by lia. rewrite Hp. apply sub_full. }
    rewrite Hpre in Hdata'.
    eapply safe_mono; [apply (scan_step data chunks c rest' st); [done | done | split_and!; lia] |].
    intros [st' |] Hst'; [| done]. split.
    + exists (chunks ++ [c]), rest'. rewrite pngFile_snoc, <- app_assoc. done.
    + rewrite (sd_pos _ _ Hst'), pngFile_snoc, len_app, chunkBytes_len, Hp, Hl by done. lia.
  - exists [], (drop 8 data). split; [| apply scanStart_scanned].
    change (length pngSignature) with 8%nat in Hsig. unfold pngFile. cbn [map concat].
    by rewrite app_nil_r, <- Hsig, take_drop.
  - unfold scanStart. cbn [sc_pos]. unfold len. lia.
Qed.

(** The number of IHDR chunks. *)
Definition ihdrs (chunks : list pngChunk) : nat := length (filter (λ c, isType pngChunkIHDR c = true) chunks).

Lemma ihdrs_app a b : ihdrs (a ++ b) = (ihdrs a + ihdrs b)%nat.
Proof. unfold ihdrs. by rewrite filter_app, length_app. Qed.
Lemma ihdrs_cons c b : isType pngChunkIHDR c = true → ihdrs (c :: b) = S (ihdrs b).
Proof. intros Hc. unfold ihdrs. by rewrite filter_cons_True. Qed.
Lemma ihdrs_none a : has pngChunkIHDR a = false → ihdrs a = 0%nat.
Proof.
  unfold ihdrs, has. induction a as [| c a IH]; [done |]. cbn [existsb]. intros [Hc Ha]%orb_false_iff.
  rewrite filter_cons_False by congruence. by apply IH.
Qed.

Lemma png_ok_ihdrs chunks : png_ok chunks → ihdrs chunks = 1%nat.
Proof.
  intros [_ (a & c & b & -> & Hc & Ha & Hb) _]. by rewrite ihdrs_app, ihdrs_cons, !ihdrs_none.
Qed.

(** A well-formed file is scanned to its end. *)
Lemma scan_runs data chunks body final : png_ok (chunks ++ body ++ [final]) →
  data = pngFile (chunks ++ body ++ [final]) → isType pngChunkIEND final = true →
  ∀ n st, scanned chunks st → (length body < n)%nat →
  ∃ st', loop n (scanBody data) st = Ret st' ∧ ∃ st'', scanned (chunks ++ body) st'' ∧
    sc_ihdrEnd st' = sc_ihdrEnd st'' ∧ sc_colorType st' = sc_colorType st'' ∧ sc_hasPLTE st' = sc_hasPLTE st''.
Proof.
  intros Hok -> Hfinal. pose proof (png_chunks _ Hok) as Hall.
  revert chunks Hok Hall. induction body as [| c body IH]; intros chunks Hok Hall n st Hs Hn;
    destruct n as [| n]; try (simpl in Hn; lia); rewrite loop_S.
  - cbn [app]. apply Forall_app in Hall as [_ Hall]. apply Forall_cons_1 in Hall as [Hall _].
    assert (pngFile (chunks ++ [final]) = pngFile chunks ++ chunkBytes final ++ []) as ->
      by by rewrite pngFile_snoc, app_nil_r.
    rewrite scanBody_chunk by solve [by apply sizes_ok_chunk | apply Hs]. unfold scanChunk.
    rewrite (isType_ne _ pngChunkIHDR _ Hfinal), Hfinal by done. run.
    eexists. split; [reflexivity |]. exists st. by rewrite app_nil_r.
  - assert (chunk_ok c) as Hc by (apply Forall_app in Hall as [_ Hall]; by apply Forall_cons in Hall as [? _]).
    assert (isType pngChunkIEND c = false) as Hend.
    { destruct (png_iend _ Hok) as (b & f & Heq & Hf & Hb).
      cbn [app] in Heq. rewrite app_comm_cons, app_assoc in Heq. apply app_inj_2 in Heq as [<- _]; [| done].
      rewrite has_app in Hb. apply orb_false_iff in Hb as [_ Hb]. cbn in Hb. by apply orb_false_iff in Hb as [? _]. }
    assert (∃ st', scanChunk c false st = Ret (inl st')) as [st' Hstep].
    { unfold scanChunk. destruct (isType pngChunkIHDR c) eqn:Hi; [| rewrite Hend; by eexists].
      destruct Hc as (_ & _ & _ & Hlen). rewrite (Hlen Hi). cbn [Z.eqb negb orb].
      assert (sc_ihdrEnd st = -1) as ->; [| by eexists].
      destruct (sd_ihdr _ _ Hs) as [[_ E] | (a & c' & b & Heq & Hc' & _)]; [done | exfalso].
      pose proof (png_ok_ihdrs _ Hok) as H1. subst chunks. cbn [app] in H1.
      rewrite !ihdrs_app, !ihdrs_cons in H1 by done. lia. }
    destruct (IH (chunks ++ [c])) with (n := n) (st := st') as (st1 & Hl & st2 & H2).
    + by rewrite <- app_assoc.
    + by rewrite <- app_assoc.
    + eapply scanned_snoc; [exact Hs | by apply sizes_ok_chunk | done | exact Hstep].
    + simpl in Hn. lia.
    + assert (scanBody (pngFile (chunks ++ (c :: body) ++ [final])) st = continue st') as ->.
      { assert (pngFile (chunks ++ (c :: body) ++ [final]) =
          pngFile chunks ++ chunkBytes c ++ concat (map chunkBytes (body ++ [final]))) as ->
          by (unfold pngFile; rewrite !map_app, !concat_app; cbn; by rewrite <- !app_assoc).
        rewrite scanBody_chunk by solve [by apply sizes_ok_chunk | apply Hs].
        unfold scanChunk in *. destruct (isType pngChunkIHDR c); [exact Hstep |].
        by rewrite Hend in *. }
      run. exists st1. rewrite <- !app_assoc in Hl, H2. split; [exact Hl | by exists st2].
Qed.

(** ** The normalisation *)

Lemma split_ihdr a c b : isType pngChunkIHDR c = true → has pngChunkIHDR a = false →
  insertPalette (a ++ c :: b) = a ++ c :: paletteChunks ++ b ∧ colorTypeOf (a ++ c :: b) = byteAt (ch_data c) 9.
Proof.
  intros Hc. unfold has. induction a as [| d a IH]; cbn [app insertPalette colorTypeOf existsb].
  - by rewrite Hc.
  - intros [-> Ha]%orb_false_iff. destruct (IH Ha) as [-> ->]. done.
Qed.

Lemma pngFile_app a b : pngFile (a ++ b) = pngFile a ++ concat (map chunkBytes b).
Proof. unfold pngFile. by rewrite map_app, concat_app, app_assoc. Qed.

(** What follows the scan. *)
Definition finish (data : list Z) (st : scanState) : outcome (list Z) :=
  let ihdrEnd := sc_ihdrEnd st in
  errorIf (ihdrEnd =? -1) ErrInvalidSection;;
  if negb (sc_colorType st =? 3) || sc_hasPLTE st then Ret data
  else
    head ← data![0; ihdrEnd];
    tail ← data![ihdrEnd; len data];
    let out := appendPNGChunk head pngChunkPLTE aribCommonFixedColorPLTE in
    let out := appendPNGChunk out pngChunktRNS aribCommonFixedColortRNS in
    Ret (out ++ tail).

Lemma finish_spec body final st st' (chunks := body ++ [final]) :
  scanned body st' → isType pngChunkIEND final = true → sc_ihdrEnd st = sc_ihdrEnd st' →
  sc_colorType st = sc_colorType st' → sc_hasPLTE st = sc_hasPLTE st' →
  finish (pngFile chunks) st =
    if has pngChunkIHDR body then Ret (pngFile (withPalette chunks)) else Err ErrInvalidSection.
Proof.
  intros Hs Hf Hi Hc Hp. unfold finish. rewrite Hi, Hc, Hp, (sd_plte _ _ Hs).
  destruct (sd_ihdr _ _ Hs) as [[-> ->] | (a & c & b & Hbody & Hc' & Ha & Hb & -> & ->)]; [done |].
  assert (has pngChunkIHDR body = true) as -> by (rewrite Hbody, has_app; cbn; by rewrite Hc', orb_true_r).
  pose proof (len_nonneg (pngFile (a ++ [c]))). destruct (Z.eqb_spec (len (pngFile (a ++ [c]))) (-1)); [lia |]. run.
  assert (chunks = a ++ c :: b ++ [final]) as Hch by (unfold chunks; rewrite Hbody, <- app_assoc; done).
  destruct (split_ihdr a c (b ++ [final]) Hc' Ha) as [Hins Hcol].
  assert (has pngChunkPLTE chunks = has pngChunkPLTE body) as HP.
  { unfold chunks. rewrite has_app. cbn. by rewrite (isType_ne _ pngChunkPLTE _ Hf), !orb_false_r. }
  unfold withPalette. rewrite HP, Hch, Hcol. destruct (_ =? 3); [| done].
  destruct (has pngChunkPLTE body); [done |]. cbn [negb andb orb]. rewrite Hins.
  assert (a ++ c :: b ++ [final] = (a ++ [c]) ++ b ++ [final]) as -> by by rewrite <- app_assoc.
  rewrite pngFile_app. set (head := pngFile (a ++ [c])). set (tail := concat _).
  assert ((head ++ tail)![0; len head] = Ret head) as ->.
  { pose proof (len_nonneg tail). rewrite slice_sub, sub_app_l, sub_full; rewrite ?len_app; done || lia. }
  assert ((head ++ tail)![len head; len (head ++ tail)] = Ret tail) as ->.
  { pose proof (slice_app head tail [] (len head) (len (head ++ tail)) eq_refl) as Hsl.
    rewrite app_nil_r in Hsl. apply Hsl, len_app. }
  run. destruct palette_len as [L1 L2]. rewrite !appendPNGChunk_eq by (rewrite ?L1, ?L2; lia).
  assert (a ++ c :: paletteChunks ++ b ++ [final] = ((a ++ [c]) ++ paletteChunks) ++ b ++ [final]) as ->
    by (rewrite <- !app_assoc; done).
  rewrite (pngFile_app (_ ++ _)), (pngFile_app (a ++ [c])). fold head tail.
  unfold paletteChunks. cbn [map concat]. rewrite app_nil_r, <- !app_assoc. reflexivity.
Qed.

Lemma newChunk_ok ty data :
  len ty = 4 → len data < 2 ^ 32 → bool_decide (ty = pngChunkIHDR) = false → chunk_ok (newChunk ty data).
Proof. intros Ht Hd Hi. unfold chunk_ok, newChunk, isType. cbn [ch_type ch_data ch_crc]. by rewrite Hi. Qed.

Lemma palette_ok : Forall chunk_ok paletteChunks ∧ has pngChunkIHDR paletteChunks = false ∧
  has pngChunkIEND paletteChunks = false ∧ has pngChunkPLTE paletteChunks = true.
Proof.
  destruct palette_len as [L1 L2]. split; [| split_and!; reflexivity].
  apply Forall_cons. split; [apply newChunk_ok; [done | lia | done] |].
  apply Forall_cons. split; [apply newChunk_ok; [done | lia | done] | apply Forall_nil_2].
Qed.

Lemma withPalette_ok chunks : png_ok chunks →
  png_ok (withPalette chunks) ∧ withPalette (withPalette chunks) = withPalette chunks.
Proof.
  intros Hok. unfold withPalette at 1 3 4. destruct (_ && _) eqn:E.
  2: { split; [done |]. unfold withPalette. by rewrite E. }
  destruct Hok as [Hall (a & c & b & -> & Hc & Ha & Hb) (body & final & Heq & Hf & Hbody)].
  destruct (split_ihdr a c b Hc Ha) as [-> _]. destruct palette_ok as (P1 & P2 & P3 & P4).
  destruct (split_ihdr a c (paletteChunks ++ b) Hc Ha) as [_ Hcol].
  assert (∃ b', b = b' ++ [final] ∧ body = a ++ c :: b') as (b' & -> & ->).
  { destruct (exists_last (l := c :: b)) as (b' & x & Hx); [done |]. rewrite Hx, app_assoc in Heq.
    apply app_inj_2 in Heq as [<- [= ->]]; [| done]. destruct b' as [| d b'].
    - injection Hx as -> _. by rewrite (isType_ne _ pngChunkIHDR _ Hf) in Hc.
    - injection Hx as <- ->. by exists b'. }
  split.
  - apply Forall_app in Hall as [H1 H2]. apply Forall_cons in H2 as [H2 H3]. split.
    + apply Forall_app. split; [done |]. apply Forall_cons. split; [done |]. by apply Forall_app.
    + exists a, c, (paletteChunks ++ b' ++ [final]). by rewrite has_app, P2.
    + exists (a ++ c :: paletteChunks ++ b'), final. split_and!; [| done |].
      * rewrite <- app_assoc. cbn [app]. by rewrite <- app_assoc.
      * rewrite has_app in *. unfold has in *. cbn [existsb] in *. rewrite existsb_app in *.
        rewrite P3. by rewrite orb_false_l.
  - unfold withPalette. rewrite Hcol, has_app. unfold has at 2. cbn [existsb]. rewrite existsb_app.
    fold (has pngChunkPLTE paletteChunks). rewrite P4. cbn [orb]. by rewrite !orb_true_r, andb_false_r.
Qed.

(** The files accepted are exactly the PNG
    signature followed by whole chunks with one IHDR and a single, final IEND;
    anything else is ErrInvalidSection.  A palette image without a PLTE chunk
    gets the 128 common fixed colours and their transparency right after its
    IHDR, every other file is returned as it is, and normalising twice changes
    nothing more. *)
Theorem NormalizeARIBLogoPNG_exact data : bytes_ok data →
  (∀ chunks, png_ok chunks → data = pngFile chunks →
     NormalizeARIBLogoPNG data = Ret (pngFile (withPalette chunks)) ∧
     NormalizeARIBLogoPNG (pngFile (withPalette chunks)) = Ret (pngFile (withPalette chunks))) ∧
  ((∀ chunks, png_ok chunks → data ≠ pngFile chunks) → NormalizeARIBLogoPNG data = Err ErrInvalidSection).
Proof.
  intros Hd. assert (∀ chunks, png_ok chunks →
    NormalizeARIBLogoPNG (pngFile chunks) = Ret (pngFile (withPalette chunks))) as Hfwd.
  { intros chunks Hok. destruct (png_iend _ Hok) as (body & final & -> & Hf & Hend).
    unfold NormalizeARIBLogoPNG. assert (hasPrefix (pngFile (body ++ [final])) pngSignature = true) as -> by done. run.
    destruct (scan_runs _ [] body final Hok eq_refl Hf (S (length (pngFile (body ++ [final])))) scanStart scanStart_scanned)
      as (st & Hloop & st' & Hs & H1 & H2 & H3).
    { unfold pngFile. rewrite map_app, concat_app, !length_app.
      pose proof (concat_length_ge chunkBytes body) as Hge. specialize (Hge ltac:(intros []; done)). lia. }
    fold scanStart. cbn [app] in Hloop, Hs. rewrite Hloop. run. fold (finish (pngFile (body ++ [final])) st).
    rewrite (finish_spec body final st st') by done.
    pose proof (png_ok_ihdrs _ Hok) as Hn.
    destruct (has pngChunkIHDR body) eqn:Hb; [done |].
    rewrite ihdrs_app, !ihdrs_none in Hn; [lia | | done].
    cbn. by rewrite (isType_ne _ pngChunkIHDR _ Hf). }
  split.
  - intros chunks Hok ->. split; [by apply Hfwd |]. destruct (withPalette_ok _ Hok) as [Hok' Hid].
    by rewrite (Hfwd _ Hok'), Hid.
  - intros Hnone. unfold NormalizeARIBLogoPNG. destruct (hasPrefix data pngSignature) eqn:Hsig; [| done]. run.
    fold scanStart. pose proof (scan_total data Hd Hsig) as Hscan.
    destruct (loop _ _ _) as [st | e | |] eqn:Hl; try done; [| by rewrite Hscan]. run.
    destruct Hscan as (body & final & st' & -> & Hs & Hsz & Hf & H1 & H2 & H3).
    fold (finish (pngFile (body ++ [final])) st). rewrite (finish_spec body final st st') by done.
    destruct (sd_ihdr _ _ Hs) as [[-> _] | (a & c & b & -> & Hc & Ha & Hb & _)]; [done |].
    destruct (Hnone ((a ++ c :: b) ++ [final])); [| done].
    split.
    + apply Forall_app. split; [apply Hs |]. apply Forall_cons. split; [| apply Forall_nil_2].
      destruct Hsz as (? & ? & ?). unfold chunk_ok. by rewrite (isType_ne _ pngChunkIHDR _ Hf).
    + exists a, c, (b ++ [final]). rewrite <- app_assoc. split_and!; try done.
      rewrite has_app, Hb. cbn. by rewrite (isType_ne _ pngChunkIHDR _ Hf).
    + exists (a ++ c :: b), final. split_and!; [done | done | apply Hs].
Qed.

Definition samplePng : list pngChunk :=
  [newChunk pngChunkIHDR [0; 0; 0; 64; 0; 0; 0; 36; 8; 3; 0; 0; 0]; newChunk pngChunkIEND []].

Lemma NormalizeARIBLogoPNG_exact_witness :
  NormalizeARIBLogoPNG (pngFile samplePng) = Ret (pngFile (withPalette samplePng)).
Proof.
  refine (proj1 (proj1 (NormalizeARIBLogoPNG_exact (pngFile samplePng) _) samplePng _ eq_refl)).
  - apply bytes_okb_spec. by vm_compute.
  - split.
    + apply Forall_cons. split; [split_and!; done |].
      apply Forall_cons. split; [split_and!; done | apply Forall_nil_2].
    + exists [], (newChunk pngChunkIHDR [0; 0; 0; 64; 0; 0; 0; 36; 8; 3; 0; 0; 0]), [newChunk pngChunkIEND []].
      by split_and!.
    + exists [newChunk pngChunkIHDR [0; 0; 0; 64; 0; 0; 0; 36; 8; 3; 0; 0; 0]], (newChunk pngChunkIEND []).
      by split_and!.
Defined.
