(* ===== verification/Scanner.v ===== *)
(** * The service scan ([ts/scanner.go])

    [serviceScanState] collects the PAT, SDT and NIT of a stream section by
    section, joins them into service descriptions with their remote control
    keys, and lists the services of the PAT in the order of their ids. *)

From S2P Require Import Prelude Crc32 Packet Section AribTables Aribstr Descriptors Psi TableSections Dsmcc Carousel Logo.

(** ** The code *)

Record ServiceInfo : Type := MkServiceInfo {
  si_Nid : Z;
  si_Tsid : Z;
  si_Sid : Z;
  si_Name : list Z;
  si_Type : Z;
  si_EITScheduleFlag : bool;
  si_EITPresentFollowing : bool;
  si_LogoId : Z;
  si_LogoVersion : option Z;
  si_LogoDownloadDataId : option Z;
  si_RemoteControlKeyId : option Z
}.

Definition zeroInfo : ServiceInfo := MkServiceInfo 0 0 0 [] 0 false false 0 None None None.

Definition setLogo (version download : Z) (i : ServiceInfo) : ServiceInfo :=
  MkServiceInfo (si_Nid i) (si_Tsid i) (si_Sid i) (si_Name i) (si_Type i) (si_EITScheduleFlag i)
    (si_EITPresentFollowing i) (si_LogoId i) (Some version) (Some download) (si_RemoteControlKeyId i).
Definition setRemoteKey (key : option Z) (i : ServiceInfo) : ServiceInfo :=
  MkServiceInfo (si_Nid i) (si_Tsid i) (si_Sid i) (si_Name i) (si_Type i) (si_EITScheduleFlag i)
    (si_EITPresentFollowing i) (si_LogoId i) (si_LogoVersion i) (si_LogoDownloadDataId i) key.

Record serviceScanState : Type := MkScanState {
  sn_pat : option PAT;
  sn_patSections : tableSectionSet;
  sn_nitReady : bool;
  sn_nitSections : tableSectionSet;
  sn_sdtReady : bool;
  sn_sdtSections : tableSectionSet;
  sn_services : gmap Z ServiceInfo;
  sn_remoteKeys : gmap Z Z
}.

Definition newServiceScanState : serviceScanState :=
  MkScanState None emptySections false emptySections false emptySections ∅ ∅.

Definition setScanPat (pat : option PAT) (patSections : tableSectionSet) (s : serviceScanState) : serviceScanState :=
  MkScanState pat patSections (sn_nitReady s) (sn_nitSections s) (sn_sdtReady s)
    (sn_sdtSections s) (sn_services s) (sn_remoteKeys s).
Definition setScanNit (ready : bool) (nitSections : tableSectionSet) (keys : gmap Z Z) (s : serviceScanState)
    : serviceScanState :=
  MkScanState (sn_pat s) (sn_patSections s) ready nitSections (sn_sdtReady s)
    (sn_sdtSections s) (sn_services s) keys.
Definition setScanSdt (ready : bool) (sdtSections : tableSectionSet) (services : gmap Z ServiceInfo)
    (s : serviceScanState) : serviceScanState :=
  MkScanState (sn_pat s) (sn_patSections s) (sn_nitReady s) (sn_nitSections s) ready
    sdtSections services (sn_remoteKeys s).

Section Scan.
Context {jis : ISO2022JP}.
Context {programOrder : RangeOrder Z} {infoOrder : RangeOrder ServiceInfo}.

(** The loop of [handlePAT]; an error ends it. *)
Definition combinePAT (combined : option PAT) (section : SectionBytes) : outcome (option PAT) :=
  pat ← ParsePAT section;
  Ret (Some match combined with
            | None => pat
            | Some combined =>
                MkPAT (pat_TransportStreamID combined) (pat_VersionNumber combined) (pat_NetworkPID combined)
                  (fold_left (λ programs e, <[fst e := snd e]> programs) (range (pat_Programs pat))
                     (pat_Programs combined))
            end).

Definition handlePAT (s : serviceScanState) : outcome serviceScanState :=
  combined ← caught (foldM combinePAT (ordered (sn_patSections s)) None);
  Ret match combined with
      | None => s
      | Some combined => setScanPat combined (sn_patSections s) s
      end.

Fixpoint serviceDescriptorFromDescriptors (descriptors : list Descriptor) : outcome (option ServiceDescriptor) :=
  match descriptors with
  | [] => Ret None
  | desc :: descriptors =>
      t ← Tag desc;
      if negb (t =? DescriptorTagService) then serviceDescriptorFromDescriptors descriptors
      else
        service ← caught (ParseServiceDescriptor desc);
        match service with
        | Some service => Ret (Some service)
        | None => serviceDescriptorFromDescriptors descriptors
        end
  end.

(** [services], [directLogos] and [indirectServices] of [handleSDT]. *)
Record sdtWork : Type := MkSdtWork {
  sw_services : gmap Z ServiceInfo;
  sw_directLogos : gmap Z (Z * Z);
  sw_indirectServices : gmap Z Z
}.

Definition observeService (sdt : SDT) (w : sdtWork) (svc : SDTService) : outcome sdtWork :=
  desc ← serviceDescriptorFromDescriptors (svc_Descriptors svc);
  match desc with
  | None => Ret w
  | Some desc =>
      logo ← LogoDescriptorFromDescriptors (svc_Descriptors svc);
      let id := svc_ServiceID svc in
      let info := MkServiceInfo (sdt_OriginalNetworkID sdt) (sdt_TransportStreamID sdt) id (ServiceName desc)
        (ServiceType desc) (svc_EITScheduleFlag svc) (svc_EITPresentFollowing svc)
        match logo with Some logo => ld_LogoID logo | None => -1 end None None None in
      Ret match logo with
          | None => MkSdtWork (<[id := info]> (sw_services w)) (sw_directLogos w) (sw_indirectServices w)
          | Some logo =>
              if ld_TransmissionType logo =? LogoTransmissionTypeCDTDirect then
                MkSdtWork (<[id := setLogo (ld_LogoVersion logo) (ld_DownloadDataID logo) info]> (sw_services w))
                  (<[ld_LogoID logo := (ld_LogoVersion logo, ld_DownloadDataID logo)]> (sw_directLogos w))
                  (sw_indirectServices w)
              else if ld_TransmissionType logo =? LogoTransmissionTypeCDTIndirect then
                MkSdtWork (<[id := info]> (sw_services w)) (sw_directLogos w)
                  (<[id := ld_LogoID logo]> (sw_indirectServices w))
              else MkSdtWork (<[id := info]> (sw_services w)) (sw_directLogos w) (sw_indirectServices w)
          end
  end.

Definition observeSDT (w : sdtWork) (section : SectionBytes) : outcome sdtWork :=
  sdt ← ParseSDT section;
  foldM (observeService sdt) (sdt_Services sdt) w.

(** The services that refer to a logo another service transmits. *)
Definition resolveLogo (directLogos : gmap Z (Z * Z)) (services : gmap Z ServiceInfo) (e : Z * Z)
    : gmap Z ServiceInfo :=
  let '(serviceID, logoID) := e in
  match directLogos !! logoID with
  | None => services
  | Some (version, download) =>
      <[serviceID := setLogo version download (default zeroInfo (services !! serviceID))]> services
  end.

Definition applyRemoteKeys (s : serviceScanState) : serviceScanState :=
  setScanSdt (sn_sdtReady s) (sn_sdtSections s)
    (fold_left (λ services e,
       <[fst e := setRemoteKey (sn_remoteKeys s !! si_Tsid (snd e)) (snd e)]> services)
       (range (sn_services s)) (sn_services s)) s.

Definition handleSDT (s : serviceScanState) : outcome serviceScanState :=
  work ← caught (foldM observeSDT (ordered (sn_sdtSections s)) (MkSdtWork ∅ ∅ ∅));
  Ret match work with
      | None => s
      | Some w =>
          applyRemoteKeys (setScanSdt true (sn_sdtSections s)
            (fold_left (resolveLogo (sw_directLogos w)) (range (sw_indirectServices w)) (sw_services w)) s)
      end.

Definition remoteKeyDescriptor (tsid : Z) (keys : gmap Z Z) (desc : Descriptor) : outcome (gmap Z Z) :=
  t ← Tag desc;
  if t =? DescriptorTagTSInformation then
    info ← caught (ParseTSInformationDescriptor desc);
    Ret match info with
        | Some info => <[tsid := RemoteControlKeyID info]> keys
        | None => keys
        end
  else Ret keys.

Definition remoteKeysFromNIT (section : SectionBytes) : outcome (gmap Z Z) :=
  nit ← caught (ParseNIT section);
  match nit with
  | None => Ret ∅
  | Some nit =>
      if negb (nit_TableID nit =? TableIDNIT0) then Ret ∅
      else foldM (λ keys stream,
        foldM (remoteKeyDescriptor (nts_TransportStreamID stream)) (nts_Descriptors stream) keys)
        (nit_TransportStreams nit) ∅
  end.

Definition observeNIT (keys : gmap Z Z) (section : SectionBytes) : outcome (gmap Z Z) :=
  found ← remoteKeysFromNIT section;
  Ret (fold_left (λ keys e, <[fst e := snd e]> keys) (range found) keys).

Definition handleNIT (s : serviceScanState) : outcome serviceScanState :=
  keys ← foldM observeNIT (ordered (sn_nitSections s)) ∅;
  Ret (applyRemoteKeys (setScanNit true (sn_nitSections s) keys s)).

Definition observeScanSection (section : SectionBytes) (s : serviceScanState) : outcome serviceScanState :=
  t ← TableID section;
  if t =? TableIDPAT then
    '(sections, reset, ready) ← add section (sn_patSections s);
    let s := setScanPat (if reset : bool then None else sn_pat s) sections s in
    if ready : bool then handlePAT s else Ret s
  else if t =? TableIDSDT0 then
    '(sections, reset, ready) ← add section (sn_sdtSections s);
    let s := setScanSdt (if reset : bool then false else sn_sdtReady s) sections
               (if reset : bool then ∅ else sn_services s) s in
    if ready : bool then handleSDT s else Ret s
  else if t =? TableIDNIT0 then
    '(sections, reset, ready) ← add section (sn_nitSections s);
    let s := setScanNit (if reset : bool then false else sn_nitReady s) sections
               (if reset : bool then ∅ else sn_remoteKeys s) s in
    let s := if reset : bool then applyRemoteKeys s else s in
    if ready : bool then handleNIT s else Ret s
  else Ret s.

(** [complete] *)
Definition scanComplete (s : serviceScanState) : bool :=
  bool_decide (is_Some (sn_pat s)) && sn_nitReady s && sn_sdtReady s.

(** [sort.Ints] *)
Definition sortInts : list Z → list Z := merge_sort Z.le.

Definition serviceList (s : serviceScanState) : list ServiceInfo :=
  let serviceIDs :=
    match sn_pat s with
    | Some pat => filter (λ id, is_Some (sn_services s !! id)) (map fst (range (pat_Programs pat)))
    | None => map fst (range (sn_services s))
    end in
  map (λ id, default zeroInfo (sn_services s !! id)) (sortInts serviceIDs).

End Scan.

(** ** The tables, without their sections' order of arrival *)

Section Tables.
Context {jis : ISO2022JP}.

(** The PAT of a list of sections: the first one's header, all their programs. *)
Definition joinPAT (combined : option PAT) (section : SectionBytes) : outcome (option PAT) :=
  pat ← ParsePAT section;
  Ret (Some match combined with
            | None => pat
            | Some combined =>
                MkPAT (pat_TransportStreamID combined) (pat_VersionNumber combined) (pat_NetworkPID combined)
                  (pat_Programs pat ∪ pat_Programs combined)
            end).

Definition readPAT (sections : list SectionBytes) : outcome (option PAT) := foldM joinPAT sections None.

(** A service with its own logo, or the one the service it refers to transmits. *)
Definition resolved (w : sdtWork) : gmap Z ServiceInfo :=
  map_imap (λ id info, Some
    match sw_indirectServices w !! id ≫= (λ logoID, sw_directLogos w !! logoID) with
    | Some (version, download) => setLogo version download info
    | None => info
    end) (sw_services w).

Definition readSDT (sections : list SectionBytes) : outcome (gmap Z ServiceInfo) :=
  w ← foldM observeSDT sections (MkSdtWork ∅ ∅ ∅);
  Ret (resolved w).

Definition readNIT (sections : list SectionBytes) : outcome (gmap Z Z) :=
  foldM (λ keys section, found ← remoteKeysFromNIT section; Ret (found ∪ keys)) sections ∅.

(** The services with the remote control key of their transport stream. *)
Definition keyed (keys : gmap Z Z) (services : gmap Z ServiceInfo) : gmap Z ServiceInfo :=
  (λ info, setRemoteKey (keys !! si_Tsid info) info) <$> services.

(** The services of the PAT, or all while there is none, in the order of their ids. *)
Definition listed (pat : option PAT) (services : gmap Z ServiceInfo) : list ServiceInfo :=
  map (λ id, default zeroInfo (services !! id))
    (sortInts (elements (match pat with
                         | Some pat => dom (pat_Programs pat) ∩ dom services
                         | None => dom services
                         end))).

Lemma keyed_keyed k1 k2 services : keyed k2 (keyed k1 services) = keyed k2 services.
Proof. unfold keyed. rewrite <- map_fmap_compose. apply map_fmap_ext. by intros _ [] _. Qed.

Lemma keyed_empty keys : keyed keys ∅ = ∅.
Proof. apply fmap_empty. Qed.

End Tables.

(** ** The operations, without the order of map iteration *)

Section Order.
Context {jis : ISO2022JP}.
Context {programOrder : RangeOrder Z} {infoOrder : RangeOrder ServiceInfo}.

Lemma foldM_ext {A S} (f g : S → A → outcome S) l s : (∀ s x, f s x = g s x) → foldM f l s = foldM g l s.
Proof.
  intros Hfg. revert s. induction l as [| x l IH]; intros s; [done |]. cbn [foldM].
  rewrite Hfg. destruct (g s x); run; [apply IH | done ..].
Qed.

Lemma foldM_combinePAT sections : foldM combinePAT sections None = readPAT sections.
Proof.
  apply foldM_ext. intros combined section. unfold combinePAT, joinPAT. destruct (ParsePAT section); run; [| done ..].
  destruct combined; [| done]. by rewrite fold_range_inserts.
Qed.

Lemma foldM_observeNIT sections : foldM observeNIT sections ∅ = readNIT sections.
Proof.
  apply foldM_ext. intros keys section. unfold observeNIT. destruct (remoteKeysFromNIT section); run; [| done ..].
  by rewrite fold_range_inserts.
Qed.

Lemma applyRemoteKeys_eq s :
  applyRemoteKeys s = setScanSdt (sn_sdtReady s) (sn_sdtSections s) (keyed (sn_remoteKeys s) (sn_services s)) s.
Proof.
  unfold applyRemoteKeys, keyed. f_equal.
  apply (fold_range_fmap (λ info, setRemoteKey (sn_remoteKeys s !! si_Tsid info) info)).
Qed.

(** A service that refers to a logo is a service. *)
Definition referring_ok (w : sdtWork) : Prop := dom (sw_indirectServices w) ⊆ dom (sw_services w).

Lemma resolve_resolved w : referring_ok w →
  fold_left (resolveLogo (sw_directLogos w)) (range (sw_indirectServices w)) (sw_services w) = resolved w.
Proof.
  intros Hw. apply map_eq. intros k.
  rewrite (fold_range_own _ (λ _ logoID info, match sw_directLogos w !! logoID with
    | None => info
    | Some (version, download) => Some (setLogo version download (default zeroInfo info))
    end)).
  - unfold resolved. rewrite map_lookup_imap.
    destruct (sw_indirectServices w !! k) as [logoID |] eqn:E; [| by destruct (sw_services w !! k)].
    assert (is_Some (sw_services w !! k)) as [info ->] by (apply elem_of_dom, Hw, elem_of_dom; by eexists).
    cbn. by destruct (sw_directLogos w !! logoID) as [[]|].
  - intros n [j logoID] k' Hk. cbn in *. destruct (_ !! logoID) as [[]|]; [by rewrite lookup_insert_ne | done].
  - intros n j logoID. cbn. destruct (_ !! logoID) as [[]|]; [by rewrite lookup_insert_eq | done].
Qed.

Lemma sort_perm l k : l ≡ₚ k → sortInts l = sortInts k.
Proof.
  intros Hp. apply (Sorted_unique Z.le); [apply Sorted_merge_sort; apply _ .. |].
  unfold sortInts. by rewrite !merge_sort_Permutation.
Qed.

Lemma range_dom {A} {O : RangeOrder A} (m : gmap Z A) : map fst (range m) ≡ₚ elements (dom m).
Proof.
  apply NoDup_Permutation; [| apply NoDup_elements |].
  - change (NoDup (range m).*1). rewrite range_perm. apply NoDup_fst_map_to_list.
  - intros k. rewrite elem_of_elements, elem_of_dom, list_elem_of_fmap. split.
    + intros ([j a] & -> & H%range_elem). by eexists.
    + intros [a Ha]. exists (k, a). by rewrite range_elem.
Qed.

Lemma serviceList_listed s : serviceList s = listed (sn_pat s) (sn_services s).
Proof.
  unfold serviceList, listed. f_equal. apply sort_perm. destruct (sn_pat s) as [pat |]; [| apply range_dom].
  rewrite range_dom. apply NoDup_Permutation; [apply NoDup_filter, NoDup_elements | apply NoDup_elements |].
  intros k. rewrite list_elem_of_filter, !elem_of_elements, elem_of_intersection. rewrite <- elem_of_dom. tauto.
Qed.

(** ** What a handler computes *)

Lemma handlePAT_read s combined :
  readPAT (ordered (sn_patSections s)) = Ret (Some combined) →
  handlePAT s = Ret (setScanPat (Some combined) (sn_patSections s) s).
Proof. intros H. unfold handlePAT. by rewrite foldM_combinePAT, H. Qed.

Lemma observeService_referring sdt w svc w' :
  referring_ok w → observeService sdt w svc = Ret w' → referring_ok w'.
Proof.
  unfold observeService, referring_ok. intros Hw.
  destruct (serviceDescriptorFromDescriptors _) as [[desc |] | | |]; run; try done; [| by intros [= <-]].
  destruct (LogoDescriptorFromDescriptors _) as [logo | | |]; run; try done. intros [= <-].
  destruct logo as [logo |]; [case_match; [| case_match] |]; cbn [sw_services sw_indirectServices];
    rewrite ?dom_insert_L; set_solver.
Qed.

Lemma foldM_invariant {A S} (f : S → A → outcome S) (P : S → Prop) l s s' :
  (∀ s x s', P s → f s x = Ret s' → P s') → P s → foldM f l s = Ret s' → P s'.
Proof.
  intros Hf. revert s. induction l as [| x l IH]; intros s Hs; cbn [foldM]; [by intros [= <-] |].
  destruct (f s x) as [s1 | | |] eqn:E; run; try done. apply IH. by eapply Hf.
Qed.

Lemma handleSDT_read s services :
  readSDT (ordered (sn_sdtSections s)) = Ret services →
  handleSDT s = Ret (setScanSdt true (sn_sdtSections s) (keyed (sn_remoteKeys s) services) s).
Proof.
  unfold readSDT, handleSDT. destruct (foldM observeSDT _ _) as [w | | |] eqn:E; run; try done. intros [= <-].
  rewrite applyRemoteKeys_eq. f_equal. unfold setScanSdt. cbn [sn_services sn_remoteKeys sn_pat sn_patSections
    sn_nitReady sn_nitSections sn_sdtReady sn_sdtSections]. rewrite resolve_resolved; [done |].
  apply (foldM_invariant _ referring_ok _ _ _) in E; [done | | done].
  intros w1 section w2 Hw. unfold observeSDT. destruct (ParseSDT section) as [sdt | | |]; run; try done.
  apply foldM_invariant; [| done]. intros w3 svc w4. apply observeService_referring.
Qed.

Lemma handleNIT_read s keys :
  readNIT (ordered (sn_nitSections s)) = Ret keys →
  handleNIT s = Ret (setScanSdt (sn_sdtReady s) (sn_sdtSections s) (keyed keys (sn_services s))
    (setScanNit true (sn_nitSections s) keys s)).
Proof. intros H. unfold handleNIT. rewrite foldM_observeNIT, H. run. by rewrite applyRemoteKeys_eq. Qed.

(** ** Tables arriving section by section *)

(** One version of a table. *)
Record table : Type := MkTable {
  tb_ext : Z;
  tb_version : Z;
  tb_last : Z;
  tb_section : Z → SectionBytes
}.

Definition table_ok (tid : Z) (T : table) : Prop :=
  0 ≤ tb_last T ∧ ∀ n, 0 ≤ n ≤ tb_last T → TableID (tb_section T n) = Ret tid ∧
    of_table (tb_ext T) (tb_version T) (tb_last T) (tb_section T n) ∧ number (tb_section T n) = n.

Definition tableSections (T : table) : list SectionBytes := map (tb_section T) (numbers (tb_last T)).

(** All the section numbers of the table are among [arr]. *)
Definition arrivedAll (T : table) (arr : list Z) : bool :=
  forallb (λ n, bool_decide (n ∈ arr)) (numbers (tb_last T)).

(** The set after the sections numbered [arr]. *)
Definition tracked (T : table) (arr : list Z) (set : tableSectionSet) : Prop :=
  Forall (λ n, 0 ≤ n ≤ tb_last T) arr ∧
  (arr = [] ∧ set = emptySections ∨
   arr ≠ [] ∧ holds (tb_ext T) (tb_version T) (tb_last T) (map (tb_section T) arr) set).

Lemma arrivedAll_spec T arr : arrivedAll T arr = true ↔ ∀ n, 0 ≤ n ≤ tb_last T → n ∈ arr.
Proof.
  unfold arrivedAll. rewrite forallb_forall. setoid_rewrite <- list_elem_of_In.
  setoid_rewrite elem_of_numbers. by setoid_rewrite bool_decide_eq_true.
Qed.

Lemma arrivedAll_nil tid T : table_ok tid T → arrivedAll T [] = false.
Proof.
  intros [Hl _]. destruct (arrivedAll T []) eqn:E; [| done]. rewrite arrivedAll_spec in E.
  by specialize (E 0 ltac:(lia)) as ?%elem_of_nil.
Qed.

Lemma latest_table tid T arr n : table_ok tid T → Forall (λ n, 0 ≤ n ≤ tb_last T) arr →
  latest (map (tb_section T) arr) n = if decide (n ∈ arr) then Some (tb_section T n) else None.
Proof.
  intros [_ HT]. induction arr as [| m arr IH] using rev_ind; intros Ha; [done |].
  apply Forall_app in Ha as [Ha [Hm _]%Forall_cons_1]. rewrite map_app. cbn [map].
  rewrite latest_snoc, (proj2 (proj2 (HT m Hm))), IH by done.
  destruct (decide (m = n)) as [-> | Hne]; [by rewrite decide_True by set_solver |].
  destruct (decide (n ∈ arr)); [by rewrite decide_True by set_solver | by rewrite decide_False by set_solver].
Qed.

Lemma track_add tid T arr n set : table_ok tid T → tracked T arr set → 0 ≤ n ≤ tb_last T →
  ∃ set', add (tb_section T n) set = Ret (set', bool_decide (arr = []), arrivedAll T (arr ++ [n])) ∧
    tracked T (arr ++ [n]) set' ∧ (arrivedAll T (arr ++ [n]) = true → ordered set' = tableSections T).
Proof.
  intros HT [Ha Hset] Hn. pose proof HT as [Hl Hsec]. destruct (Hsec n Hn) as (_ & Hof & _).
  set (section := tb_section T n) in *.
  set (set' := inserted section (renewed (tb_ext T) (tb_version T) (tb_last T) set)).
  assert (in_range set ∧ stale set (tb_ext T) (tb_version T) (tb_last T) = bool_decide (arr = []) ∧
    holds (tb_ext T) (tb_version T) (tb_last T) (map (tb_section T) (arr ++ [n])) set') as (Hr & Hst & Hh).
  { rewrite map_app. destruct Hset as [[-> ->] | [Hne Hh]].
    - split_and!; [by intros k x Hx; cbn in Hx; rewrite lookup_empty in Hx | done | by apply holds_first].
    - split_and!; [| by rewrite bool_decide_eq_false_2; [apply Hh |] | by apply holds_add].
      apply (holds_in_range _ _ _ _ _) in Hh; [done |]. apply Forall_map. eapply Forall_impl; [exact Ha |].
      intros k Hk. cbn. by apply Hsec. }
  destruct (add_of_table _ _ _ section set Hof Hr) as (ready & -> & Hready). fold set' in Hready |- *.
  assert (Forall (λ n, 0 ≤ n ≤ tb_last T) (arr ++ [n])) as Ha' by (apply Forall_app; split; [done | by apply Forall_singleton]).
  destruct Hh as [Hs' Hm]. pose proof (stale_inserted _ _ _ _ Hs') as Hlast.
  assert (∀ k, ts_sections set' !! k = if decide (k ∈ arr ++ [n]) then Some (tb_section T k) else None) as Hm'
    by (intros k; rewrite Hm; by apply (latest_table tid)).
  assert (ready = arrivedAll T (arr ++ [n])) as ->.
  { apply eq_true_iff_eq. rewrite Hready, arrivedAll_spec. unfold full. rewrite Hlast.
    split; intros H k Hk; specialize (H k Hk).
    - rewrite Hm' in H. by case_decide; [| destruct H].
    - rewrite Hm', decide_True by done. by eexists. }
  exists set'. rewrite Hst. split; [done |]. split.
  - split; [done |]. right. split; [by destruct arr |]. by split.
  - rewrite arrivedAll_spec. intros Hall. unfold ordered, tableSections. rewrite Hlast. apply map_ext_in.
    intros k Hk%list_elem_of_In%elem_of_numbers. by rewrite Hm', decide_True by (by apply Hall).
Qed.

(** ** The scan of a PAT, an SDT and a NIT *)

Inductive kind : Type := KPAT | KSDT | KNIT.

#[local] Instance kind_eq_dec : EqDecision kind.
Proof. solve_decision. Defined.

Section Collect.
Context (T : kind → table) (pat : PAT) (services : gmap Z ServiceInfo) (keys : gmap Z Z).
Context (HP : table_ok TableIDPAT (T KPAT)) (HS : table_ok TableIDSDT0 (T KSDT)) (HN : table_ok TableIDNIT0 (T KNIT)).
Context (Hpat : readPAT (tableSections (T KPAT)) = Ret (Some pat)).
Context (Hsdt : readSDT (tableSections (T KSDT)) = Ret services).
Context (Hnit : readNIT (tableSections (T KNIT)) = Ret keys).

Definition arrival : Type := kind * Z.
Definition sectionAt (a : arrival) : SectionBytes := tb_section (T (fst a)) (snd a).
Definition arrival_ok (a : arrival) : Prop := 0 ≤ snd a ≤ tb_last (T (fst a)).

(** The section numbers of a table among the arrivals. *)
Definition ofKind (k : kind) (arr : list arrival) : list Z := map snd (filter (λ a, fst a = k) arr).
Definition arrivedTable (k : kind) (arr : list arrival) : bool := arrivedAll (T k) (ofKind k arr).

Definition patThen (arr : list arrival) : option PAT := if arrivedTable KPAT arr then Some pat else None.
Definition keysThen (arr : list arrival) : gmap Z Z := if arrivedTable KNIT arr then keys else ∅.
Definition servicesThen (arr : list arrival) : gmap Z ServiceInfo :=
  if arrivedTable KSDT arr then keyed (keysThen arr) services else ∅.

Record follows_scan (arr : list arrival) (s : serviceScanState) : Prop := {
  fs_pat : tracked (T KPAT) (ofKind KPAT arr) (sn_patSections s);
  fs_sdt : tracked (T KSDT) (ofKind KSDT arr) (sn_sdtSections s);
  fs_nit : tracked (T KNIT) (ofKind KNIT arr) (sn_nitSections s);
  fs_state : sn_pat s = patThen arr ∧ sn_nitReady s = arrivedTable KNIT arr ∧
             sn_sdtReady s = arrivedTable KSDT arr ∧ sn_services s = servicesThen arr ∧
             sn_remoteKeys s = keysThen arr
}.

Lemma ofKind_snoc k arr a :
  ofKind k (arr ++ [a]) = if decide (fst a = k) then ofKind k arr ++ [snd a] else ofKind k arr.
Proof. unfold ofKind. rewrite filter_app, map_app. cbn. case_decide; [done | by rewrite app_nil_r]. Qed.

Lemma arrivedTable_other k arr a : fst a ≠ k → arrivedTable k (arr ++ [a]) = arrivedTable k arr.
Proof. intros Hk. unfold arrivedTable. by rewrite ofKind_snoc, decide_False. Qed.

Lemma arrivedTable_grows k arr a : arrivedTable k (arr ++ [a]) = false → arrivedTable k arr = false.
Proof.
  unfold arrivedTable. rewrite ofKind_snoc. case_decide; [| done].
  destruct (arrivedAll (T k) (ofKind k arr)) eqn:E; [| done]. rewrite arrivedAll_spec in E.
  intros H'. exfalso. apply not_true_iff_false in H'. apply H'. rewrite arrivedAll_spec.
  intros n Hn. apply elem_of_app. left. by apply E.
Qed.

Lemma tables_ok k : ∃ tid, table_ok tid (T k).
Proof. destruct k; by eexists. Qed.

Lemma arrivedTable_first k arr : bool_decide (ofKind k arr = []) = true → arrivedTable k arr = false.
Proof.
  intros Hk%bool_decide_eq_true. unfold arrivedTable. rewrite Hk. destruct (tables_ok k) as [tid Hok].
  by eapply arrivedAll_nil.
Qed.

(** The collecting step every kind of section starts with. *)
Lemma arrival_add k n arr set : tracked (T k) (ofKind k arr) set → 0 ≤ n ≤ tb_last (T k) →
  ∃ set', add (tb_section (T k) n) set =
      Ret (set', bool_decide (ofKind k arr = []), arrivedTable k (arr ++ [(k, n)])) ∧
    tracked (T k) (ofKind k (arr ++ [(k, n)])) set' ∧
    (arrivedTable k (arr ++ [(k, n)]) = true → ordered set' = tableSections (T k)).
Proof.
  intros Ht Hn. destruct (tables_ok k) as [tid Hok]. unfold arrivedTable. rewrite ofKind_snoc, decide_True by done.
  by apply (track_add tid).
Qed.

Lemma follows_other k arr a set : tracked (T k) (ofKind k arr) set → fst a ≠ k →
  tracked (T k) (ofKind k (arr ++ [a])) set.
Proof. intros Ht Hk. by rewrite ofKind_snoc, decide_False. Qed.

Ltac scan_fields :=
  cbn [sn_pat sn_patSections sn_nitReady sn_nitSections sn_sdtReady sn_sdtSections sn_services sn_remoteKeys
       setScanPat setScanNit setScanSdt].

Lemma scan_pat n arr s : follows_scan arr s → arrival_ok (KPAT, n) →
  ∃ s', observeScanSection (sectionAt (KPAT, n)) s = Ret s' ∧ follows_scan (arr ++ [(KPAT, n)]) s'.
Proof.
  intros [F1 F2 F3 (P1 & P2 & P3 & P4 & P5)] Hn. unfold arrival_ok in Hn. cbn [fst snd] in Hn.
  unfold observeScanSection, sectionAt. cbn [fst snd]. rewrite (proj1 (proj2 HP n Hn)). run. rewrite Z.eqb_refl.
  destruct (arrival_add KPAT n arr _ F1 Hn) as (set' & -> & Ht & Ho). run.
  assert (servicesThen (arr ++ [(KPAT, n)]) = servicesThen arr ∧ keysThen (arr ++ [(KPAT, n)]) = keysThen arr ∧
    arrivedTable KNIT (arr ++ [(KPAT, n)]) = arrivedTable KNIT arr ∧
    arrivedTable KSDT (arr ++ [(KPAT, n)]) = arrivedTable KSDT arr) as (E1 & E2 & E3 & E4)
    by (unfold servicesThen, keysThen; by rewrite !arrivedTable_other by done).
  assert (∀ p, p = patThen (arr ++ [(KPAT, n)]) → follows_scan (arr ++ [(KPAT, n)]) (setScanPat p set' s)) as Hfin.
  { intros p ->. split; cbn; [done | by apply follows_other | by apply follows_other |].
    rewrite E1, E2, E3, E4. by split_and!. }
  unfold patThen in Hfin. destruct (arrivedTable KPAT (arr ++ [(KPAT, n)])) eqn:Hready.
  - rewrite (handlePAT_read _ pat) by (cbn; by rewrite Ho). eexists. split; [reflexivity | by apply Hfin].
  - eexists. split; [reflexivity |]. apply Hfin. case_match; [done |].
    rewrite P1. unfold patThen. by rewrite (arrivedTable_grows _ _ _ Hready).
Qed.

Lemma scan_sdt n arr s : follows_scan arr s → arrival_ok (KSDT, n) →
  ∃ s', observeScanSection (sectionAt (KSDT, n)) s = Ret s' ∧ follows_scan (arr ++ [(KSDT, n)]) s'.
Proof.
  intros [F1 F2 F3 (P1 & P2 & P3 & P4 & P5)] Hn. unfold arrival_ok in Hn. cbn [fst snd] in Hn.
  unfold observeScanSection, sectionAt. cbn [fst snd]. rewrite (proj1 (proj2 HS n Hn)). run.
  change (TableIDSDT0 =? TableIDPAT) with false. rewrite Z.eqb_refl. cbn iota.
  destruct (arrival_add KSDT n arr _ F2 Hn) as (set' & -> & Ht & Ho). run.
  assert (patThen (arr ++ [(KSDT, n)]) = patThen arr ∧ keysThen (arr ++ [(KSDT, n)]) = keysThen arr ∧
    arrivedTable KNIT (arr ++ [(KSDT, n)]) = arrivedTable KNIT arr) as (E1 & E2 & E3)
    by (unfold patThen, keysThen; by rewrite !arrivedTable_other by done).
  assert (∀ r v, r = arrivedTable KSDT (arr ++ [(KSDT, n)]) → v = servicesThen (arr ++ [(KSDT, n)]) →
    follows_scan (arr ++ [(KSDT, n)]) (setScanSdt r set' v s)) as Hfin.
  { intros r v -> ->. split; cbn; [by apply follows_other | done | by apply follows_other |].
    rewrite E1, E2, E3. by split_and!. }
  unfold servicesThen in Hfin. rewrite E2 in Hfin. destruct (arrivedTable KSDT (arr ++ [(KSDT, n)])) eqn:Hready.
  - rewrite (handleSDT_read _ services) by (cbn; by rewrite Ho). eexists. split; [reflexivity |]. cbn.
    apply Hfin; [done |]. by rewrite P5.
  - eexists. split; [reflexivity |]. apply arrivedTable_grows in Hready.
    apply Hfin; case_match; try done; [by rewrite P3 |]. rewrite P4. unfold servicesThen. by rewrite Hready.
Qed.

Lemma scan_nit n arr s : follows_scan arr s → arrival_ok (KNIT, n) →
  ∃ s', observeScanSection (sectionAt (KNIT, n)) s = Ret s' ∧ follows_scan (arr ++ [(KNIT, n)]) s'.
Proof.
  intros [F1 F2 F3 (P1 & P2 & P3 & P4 & P5)] Hn. unfold arrival_ok in Hn. cbn [fst snd] in Hn.
  unfold observeScanSection, sectionAt. cbn [fst snd]. rewrite (proj1 (proj2 HN n Hn)). run.
  change (TableIDNIT0 =? TableIDPAT) with false. change (TableIDNIT0 =? TableIDSDT0) with false.
  rewrite Z.eqb_refl. cbn iota.
  destruct (arrival_add KNIT n arr _ F3 Hn) as (set' & -> & Ht & Ho). run.
  assert (patThen (arr ++ [(KNIT, n)]) = patThen arr ∧
    arrivedTable KSDT (arr ++ [(KNIT, n)]) = arrivedTable KSDT arr) as (E1 & E2)
    by (unfold patThen; by rewrite !arrivedTable_other by done).
  set (arr' := arr ++ [(KNIT, n)]) in *.
  assert (∀ s1, sn_pat s1 = sn_pat s → sn_patSections s1 = sn_patSections s → sn_sdtReady s1 = sn_sdtReady s →
    sn_sdtSections s1 = sn_sdtSections s → sn_nitSections s1 = set' → sn_nitReady s1 = arrivedTable KNIT arr' →
    sn_remoteKeys s1 = keysThen arr' → sn_services s1 = servicesThen arr' → follows_scan arr' s1) as Hfin.
  { intros s1 Q1 Q2 Q3 Q4 Q5 Q6 Q7 Q8. split; rewrite ?Q2, ?Q4, ?Q5;
      [by apply follows_other | by apply follows_other | done |].
    rewrite Q1, Q3, E1, E2. by split_and!. }
  (* whatever keys the services carried, applying keys replaces them *)
  assert (∀ k, keyed k (sn_services s) = if arrivedTable KSDT arr then keyed k services else ∅) as Hkeyed.
  { intros k. rewrite P4. unfold servicesThen. case_match; [apply keyed_keyed | apply keyed_empty]. }
  unfold keysThen, servicesThen in Hfin. rewrite E2 in Hfin.
  destruct (arrivedTable KNIT arr') eqn:Hready.
  - destruct (bool_decide (ofKind KNIT arr = [])).
    + rewrite applyRemoteKeys_eq, (handleNIT_read _ keys) by (scan_fields; by rewrite Ho).
      eexists. split; [reflexivity |]. apply Hfin; try done. scan_fields.
      rewrite keyed_keyed, Hkeyed. unfold keysThen. by rewrite Hready.
    + rewrite (handleNIT_read _ keys) by (scan_fields; by rewrite Ho).
      eexists. split; [reflexivity |]. apply Hfin; try done. scan_fields. rewrite Hkeyed. unfold keysThen. by rewrite Hready.
  - apply arrivedTable_grows in Hready as Hbefore. unfold keysThen in *. rewrite Hbefore in *.
    destruct (bool_decide (ofKind KNIT arr = [])).
    + rewrite applyRemoteKeys_eq. eexists. split; [reflexivity |]. apply Hfin; try done. scan_fields.
      rewrite Hkeyed. unfold keysThen. by rewrite Hready.
    + eexists. split; [reflexivity |]. apply Hfin; try done. scan_fields.
      rewrite P4. unfold servicesThen, keysThen. by rewrite Hready, Hbefore.
Qed.

Lemma follows_new : follows_scan [] newServiceScanState.
Proof.
  assert (∀ k, tracked (T k) (ofKind k []) emptySections) as Ht
    by (intros k; unfold tracked; split; [apply Forall_nil_2 | by left]).
  assert (∀ k, arrivedTable k [] = false) as Hf by (intros k; by apply arrivedTable_first).
  split; try apply Ht. unfold patThen, servicesThen, keysThen. by rewrite !Hf.
Qed.

Fixpoint observeScan (sections : list SectionBytes) (s : serviceScanState) : outcome serviceScanState :=
  match sections with
  | [] => Ret s
  | section :: sections => s ← observeScanSection section s; observeScan sections s
  end.

Lemma scan_follows arr seen s : follows_scan seen s → Forall arrival_ok arr →
  ∃ s', observeScan (map sectionAt arr) s = Ret s' ∧ follows_scan (seen ++ arr) s'.
Proof.
  intros Hs Ha. revert seen s Hs. induction Ha as [| [k n] arr Hn _ IH]; intros seen s Hs.
  { exists s. by rewrite app_nil_r. }
  cbn [map observeScan].
  assert (∃ s1, observeScanSection (sectionAt (k, n)) s = Ret s1 ∧ follows_scan (seen ++ [(k, n)]) s1) as (s1 & -> & H1)
    by (destruct k; [by apply scan_pat | by apply scan_sdt | by apply scan_nit]).
  run. destruct (IH _ _ H1) as (s2 & -> & H2). rewrite <- app_assoc in H2. by exists s2.
Qed.

(** C31 (ts.ServiceScan): fed the sections of one version of a PAT, an SDT and a
    NIT, in any order, interleaved and repeated, a new scan is complete exactly
    when every section of the three tables has arrived; at any moment the
    services it lists are those of the SDT (none until it is whole), restricted
    to the PAT once that is whole, in the order of their ids, each with its own
    or its referenced logo and the remote control key the NIT gives to its
    transport stream; neither the order of arrival nor that of map iteration
    shows in the result. *)
Theorem scan_collects arr : Forall arrival_ok arr →
  ∃ s, observeScan (map sectionAt arr) newServiceScanState = Ret s ∧
    scanComplete s = arrivedTable KPAT arr && arrivedTable KNIT arr && arrivedTable KSDT arr ∧
    serviceList s = listed (patThen arr) (servicesThen arr).
Proof.
  intros Ha. destruct (scan_follows arr [] newServiceScanState follows_new Ha) as (s & Hs & [_ _ _ P]).
  destruct P as (P1 & P2 & P3 & P4 & P5). exists s. split; [done |]. split.
  - unfold scanComplete. rewrite P1, P2, P3. unfold patThen. cbn [app]. by destruct (arrivedTable KPAT arr).
  - by rewrite serviceList_listed, P1, P4.
Qed.

End Collect.
End Order.

(** Two services on one transport stream, the second referring to the logo of the first. *)
Definition scanJis : ISO2022JP := λ _, None.
Definition scanService (sid : Z) (logo : list Z) : SDTService :=
  MkSDTService sid true true 4 false [serviceDescriptorBytes 1 [] []; whole DescriptorTagLogoTransmission logo].
Definition scanSdt (n : Z) : SDT :=
  MkSDT 0x7fe1 4 3 [if n =? 0 then scanService 1025 [1; 0; 5; 0; 2; 0; 9] else scanService 1024 [2; 0; 5]].
Definition scanNit : NIT :=
  MkNIT 4 TableIDNIT0 1 0 0 [] [MkNITStream 0x7fe1 4 [tsInformationBytes 6 [] []]].

Definition scanTables (k : kind) : table :=
  match k with
  | KPAT => MkTable 0x7fe1 3 1 (λ n, patSection 0x7fe1 3 n 1 [(1024 + n, 0x1f0 + n)])
  | KSDT => MkTable 0x7fe1 3 1 (λ n, sdtSection TableIDSDT0 n 1 (scanSdt n))
  | KNIT => MkTable 4 1 0 (λ _, nitSection scanNit)
  end.

Definition scanArrivals : list arrival :=
  [(KSDT, 1); (KPAT, 1); (KSDT, 1); (KNIT, 0); (KSDT, 0); (KPAT, 0)].

Definition ok_or {A} (a : A) (m : outcome A) : A := match m with Ret x => x | _ => a end.
Definition scanPAT : PAT :=
  default (MkPAT 0 0 0 ∅) (ok_or None (readPAT (tableSections (scanTables KPAT)))).
Definition scanServices : gmap Z ServiceInfo := ok_or ∅ (readSDT (jis := scanJis) (tableSections (scanTables KSDT))).
Definition scanKeys : gmap Z Z := ok_or ∅ (readNIT (jis := scanJis) (tableSections (scanTables KNIT))).

Lemma scanTables_ok k : table_ok match k with KPAT => TableIDPAT | KSDT => TableIDSDT0 | KNIT => TableIDNIT0 end
  (scanTables k).
Proof.
  split; [by destruct k |]. intros n Hn.
  assert (n = 0 ∨ n = 1 ∧ k ≠ KNIT) as [-> | [-> Hk]].
  { destruct k; change (tb_last _) with 1 in Hn || change (tb_last _) with 0 in Hn;
      (destruct (decide (n = 0)); [by left | right; split; [lia | done || lia]]). }
  - unfold of_table. destruct k; split_and!; by vm_compute.
  - unfold of_table. destruct k; [| | done]; split_and!; by vm_compute.
Qed.

Lemma scan_collects_witness :
  ∃ s, observeScan (jis := scanJis) (programOrder := keyOrder) (infoOrder := keyOrder)
         (map (sectionAt scanTables) scanArrivals) newServiceScanState = Ret s ∧
       scanComplete s = true ∧
       map (λ i, (si_Sid i, si_LogoVersion i, si_RemoteControlKeyId i))
         (serviceList (programOrder := keyOrder) (infoOrder := keyOrder) s) =
         [(1024, Some 2, Some 6); (1025, Some 2, Some 6)].
Proof.
  destruct (scan_collects (jis := scanJis) (programOrder := keyOrder) (infoOrder := keyOrder)
    scanTables scanPAT scanServices scanKeys (scanTables_ok KPAT) (scanTables_ok KSDT) (scanTables_ok KNIT)
    ltac:(by vm_compute) ltac:(by vm_compute) ltac:(by vm_compute) scanArrivals) as (s & Hs & Hc & Hl).
  - unfold arrival_ok, scanArrivals. repeat (apply Forall_cons; split; [cbn; lia |]). apply Forall_nil_2.
  - exists s. split; [exact Hs |]. split; [rewrite Hc; by vm_compute |]. rewrite Hl. by vm_compute.
Defined.
