(* ===== verification/Jobs.v ===== *)
(** * The job manager ([internal/job/manager.go], [job.go])

    Jobs are queued by key, dispatched up to a concurrency limit when the keys
    they depend on are idle and their exclusive keys are free, retried after a
    delay while they fail, aborted, and kept in a bounded history.

    A [*Job] is an id in the store [m_jobs]; the ids come from the caller, which
    stands for [uuid.New].  The fields that are goroutines and contexts in Go
    are explicit: [m_active] holds the running handlers, [m_timers] the retry
    goroutines, [m_cancelled] the handlers whose context was cancelled one by
    one, [m_shutdown] the cancellation of the manager's own context and [m_wg]
    the wait group's counter.  [time.Now] returns the successive values of the
    parameter [timeAt].  Every method is one critical section under the
    manager's mutex, hence one step.  The result a handler reports
    ([SetJobResult]) is not modelled. *)

From S2P Require Import Prelude.

(** ** The code *)

Record HandlerError : Type := MkHandlerError {
  he_canceled : bool;
  he_text : string
}.

Record JobDefinition : Type := MkDefinition {
  d_Key : string;
  d_Name : string;
  d_Handler : bool;
  d_DependsOn : list string;
  d_ExclusiveKeys : list string;
  d_IsRerunnable : bool;
  d_RetryDelays : list Z;
  d_RetryIf : option (HandlerError → bool)
}.

Inductive JobStatus : Type := StatusQueued | StatusStandby | StatusRunning | StatusFinished.

#[global] Instance JobStatus_eq_dec : EqDecision JobStatus.
Proof. solve_decision. Defined.

Record Job : Type := MkJob {
  j_ID : string;
  j_Key : string;
  j_Name : string;
  j_Status : JobStatus;
  j_RetryCount : Z;
  j_IsAborting : bool;
  j_HasAborted : bool;
  j_HasSkipped : bool;
  j_HasFailed : bool;
  j_Error : string;
  j_CreatedAt : Z;
  j_UpdatedAt : Z;
  j_StartedAt : option Z;
  j_FinishedAt : option Z;
  j_NextRunAt : option Z;
  j_definition : JobDefinition;
  j_done : bool
}.

Inductive JobError : Type :=
| ErrDefinitionNotFound
| ErrInvalidDefinition
| ErrManagerShutdown
| ErrJobNotFound
| ErrJobNotRunning
| ErrJobNotRerunnable
| ErrJobAlreadyRunning.

Record Config : Type := MkConfig {
  MaxHistory : Z;
  MaxConcurrentJobs : Z;
  HasEvents : bool
}.

Record JobManager : Type := MkManager {
  m_definitions : gmap string JobDefinition;
  m_jobs : gmap string Job;
  m_history : list string;
  m_queue : list string;
  m_active : gset string;
  m_cancelled : gset string;
  m_activeKeys : gset string;
  m_activeExclusiveKeys : gset string;
  m_running : Z;
  m_config : Config;
  m_wg : Z;
  m_timers : list string;
  m_shutdown : bool;
  m_changes : Z;
  m_events : list (string * Job);
  m_ticks : Z
}.

Definition setDefinitions (x : gmap string JobDefinition) (m : JobManager) : JobManager :=
  MkManager x (m_jobs m) (m_history m) (m_queue m) (m_active m) (m_cancelled m) (m_activeKeys m)
    (m_activeExclusiveKeys m) (m_running m) (m_config m) (m_wg m) (m_timers m) (m_shutdown m) (m_changes m)
    (m_events m) (m_ticks m).
Definition setJobs (x : gmap string Job) (m : JobManager) : JobManager :=
  MkManager (m_definitions m) x (m_history m) (m_queue m) (m_active m) (m_cancelled m) (m_activeKeys m)
    (m_activeExclusiveKeys m) (m_running m) (m_config m) (m_wg m) (m_timers m) (m_shutdown m) (m_changes m)
    (m_events m) (m_ticks m).
Definition setHistory (x : list string) (m : JobManager) : JobManager :=
  MkManager (m_definitions m) (m_jobs m) x (m_queue m) (m_active m) (m_cancelled m) (m_activeKeys m)
    (m_activeExclusiveKeys m) (m_running m) (m_config m) (m_wg m) (m_timers m) (m_shutdown m) (m_changes m)
    (m_events m) (m_ticks m).
Definition setQueue (x : list string) (m : JobManager) : JobManager :=
  MkManager (m_definitions m) (m_jobs m) (m_history m) x (m_active m) (m_cancelled m) (m_activeKeys m)
    (m_activeExclusiveKeys m) (m_running m) (m_config m) (m_wg m) (m_timers m) (m_shutdown m) (m_changes m)
    (m_events m) (m_ticks m).
Definition setActive (x : gset string) (m : JobManager) : JobManager :=
  MkManager (m_definitions m) (m_jobs m) (m_history m) (m_queue m) x (m_cancelled m) (m_activeKeys m)
    (m_activeExclusiveKeys m) (m_running m) (m_config m) (m_wg m) (m_timers m) (m_shutdown m) (m_changes m)
    (m_events m) (m_ticks m).
Definition setCancelled (x : gset string) (m : JobManager) : JobManager :=
  MkManager (m_definitions m) (m_jobs m) (m_history m) (m_queue m) (m_active m) x (m_activeKeys m)
    (m_activeExclusiveKeys m) (m_running m) (m_config m) (m_wg m) (m_timers m) (m_shutdown m) (m_changes m)
    (m_events m) (m_ticks m).
Definition setActiveKeys (x : gset string) (m : JobManager) : JobManager :=
  MkManager (m_definitions m) (m_jobs m) (m_history m) (m_queue m) (m_active m) (m_cancelled m) x
    (m_activeExclusiveKeys m) (m_running m) (m_config m) (m_wg m) (m_timers m) (m_shutdown m) (m_changes m)
    (m_events m) (m_ticks m).
Definition setActiveExclusiveKeys (x : gset string) (m : JobManager) : JobManager :=
  MkManager (m_definitions m) (m_jobs m) (m_history m) (m_queue m) (m_active m) (m_cancelled m)
    (m_activeKeys m) x (m_running m) (m_config m) (m_wg m) (m_timers m) (m_shutdown m) (m_changes m)
    (m_events m) (m_ticks m).
Definition setRunning (x : Z) (m : JobManager) : JobManager :=
  MkManager (m_definitions m) (m_jobs m) (m_history m) (m_queue m) (m_active m) (m_cancelled m)
    (m_activeKeys m) (m_activeExclusiveKeys m) x (m_config m) (m_wg m) (m_timers m) (m_shutdown m)
    (m_changes m) (m_events m) (m_ticks m).
Definition setWg (x : Z) (m : JobManager) : JobManager :=
  MkManager (m_definitions m) (m_jobs m) (m_history m) (m_queue m) (m_active m) (m_cancelled m)
    (m_activeKeys m) (m_activeExclusiveKeys m) (m_running m) (m_config m) x (m_timers m) (m_shutdown m)
    (m_changes m) (m_events m) (m_ticks m).
Definition setTimers (x : list string) (m : JobManager) : JobManager :=
  MkManager (m_definitions m) (m_jobs m) (m_history m) (m_queue m) (m_active m) (m_cancelled m)
    (m_activeKeys m) (m_activeExclusiveKeys m) (m_running m) (m_config m) (m_wg m) x (m_shutdown m)
    (m_changes m) (m_events m) (m_ticks m).
Definition setShutdown (x : bool) (m : JobManager) : JobManager :=
  MkManager (m_definitions m) (m_jobs m) (m_history m) (m_queue m) (m_active m) (m_cancelled m)
    (m_activeKeys m) (m_activeExclusiveKeys m) (m_running m) (m_config m) (m_wg m) (m_timers m) x
    (m_changes m) (m_events m) (m_ticks m).
Definition setChanges (x : Z) (m : JobManager) : JobManager :=
  MkManager (m_definitions m) (m_jobs m) (m_history m) (m_queue m) (m_active m) (m_cancelled m)
    (m_activeKeys m) (m_activeExclusiveKeys m) (m_running m) (m_config m) (m_wg m) (m_timers m)
    (m_shutdown m) x (m_events m) (m_ticks m).
Definition setEvents (x : list (string * Job)) (m : JobManager) : JobManager :=
  MkManager (m_definitions m) (m_jobs m) (m_history m) (m_queue m) (m_active m) (m_cancelled m)
    (m_activeKeys m) (m_activeExclusiveKeys m) (m_running m) (m_config m) (m_wg m) (m_timers m)
    (m_shutdown m) (m_changes m) x (m_ticks m).
Definition setTicks (x : Z) (m : JobManager) : JobManager :=
  MkManager (m_definitions m) (m_jobs m) (m_history m) (m_queue m) (m_active m) (m_cancelled m)
    (m_activeKeys m) (m_activeExclusiveKeys m) (m_running m) (m_config m) (m_wg m) (m_timers m)
    (m_shutdown m) (m_changes m) (m_events m) x.

Definition NewManager (cfg : Config) : JobManager :=
  let history := if MaxHistory cfg <=? 0 then 100 else MaxHistory cfg in
  let concurrent := if MaxConcurrentJobs cfg <=? 0 then 1 else MaxConcurrentJobs cfg in
  MkManager ∅ ∅ [] [] ∅ ∅ ∅ ∅ 0 (MkConfig history concurrent (HasEvents cfg)) 0 [] false 0 [] 0.

Definition maxHistory (m : JobManager) : Z := MaxHistory (m_config m).
Definition maxConcurrent (m : JobManager) : Z := MaxConcurrentJobs (m_config m).

Section Manager.
Context (timeAt : Z → Z).

Definition now (m : JobManager) : Z := timeAt (m_ticks m).
Definition tick (m : JobManager) : JobManager := setTicks (m_ticks m + 1) m.

(** Following a job's pointer. *)
Definition jobAt (id : string) (m : JobManager) : outcome Job :=
  match m_jobs m !! id with Some item => Ret item | None => Panic end.
Definition putJob (item : Job) (m : JobManager) : JobManager := setJobs (<[j_ID item := item]> (m_jobs m)) m.

(** Is the job at [id] in this state? *)
Definition hasStatus (st : JobStatus) (id : string) (m : JobManager) : bool :=
  match m_jobs m !! id with Some item => bool_decide (j_Status item = st) | None => false end.

Definition publishJobChangeLocked (typ : string) (item : Job) (m : JobManager) : JobManager :=
  let m := setChanges (m_changes m + 1) m in
  if HasEvents (m_config m) then setEvents (m_events m ++ [(typ, item)]) m else m.

(** The index of the first finished job of the history. *)
Definition firstFinished (m : JobManager) (history : list string) : option nat :=
  fst <$> list_find (λ id, hasStatus StatusFinished id m = true) history.

Fixpoint trimLoop (fuel : nat) (m : JobManager) (history : list string) : list string :=
  match fuel with
  | O => history
  | S fuel =>
      if len history <=? maxHistory m then history
      else match firstFinished m history with
           | None => history
           | Some i => trimLoop fuel m (delete i history)
           end
  end.

Definition trimHistory (m : JobManager) : JobManager :=
  setHistory (trimLoop (length (m_history m)) m (m_history m)) m.

Definition addHistoryLocked (id : string) (m : JobManager) : JobManager :=
  trimHistory (setHistory (m_history m ++ [id]) m).

Definition enqueueItemLocked (id : string) (m : JobManager) : JobManager :=
  setQueue (m_queue m ++ [id]) m.

Definition dependenciesSatisfiedLocked (dependencies exclusiveKeys : list string) (m : JobManager) : bool :=
  negb (existsb (λ key, bool_decide (key ∈ m_activeKeys m)) dependencies) &&
  negb (existsb (λ key, bool_decide (key ∈ m_activeExclusiveKeys m)) exclusiveKeys).

Definition runnable (m : JobManager) (id : string) : bool :=
  match m_jobs m !! id with
  | Some item => dependenciesSatisfiedLocked (d_DependsOn (j_definition item)) (d_ExclusiveKeys (j_definition item)) m
  | None => false
  end.

Definition popRunnableQueueLocked (m : JobManager) : option (string * JobManager) :=
  '(i, id) ← list_find (λ id, runnable m id = true) (m_queue m);
  Some (id, setQueue (delete i (m_queue m)) m).

Definition startJobLocked (id : string) (m : JobManager) : outcome JobManager :=
  item ← jobAt id m;
  let t := now m in
  let item := MkJob (j_ID item) (j_Key item) (j_Name item) StatusRunning (j_RetryCount item) (j_IsAborting item)
    (j_HasAborted item) (j_HasSkipped item) (j_HasFailed item) (j_Error item) (j_CreatedAt item) t (Some t)
    (j_FinishedAt item) (j_NextRunAt item) (j_definition item) (j_done item) in
  let m := putJob item (tick m) in
  let m := setActive ({[id]} ∪ m_active m) m in
  let m := setActiveExclusiveKeys
             (list_to_set (d_ExclusiveKeys (j_definition item)) ∪ m_activeExclusiveKeys m) m in
  let m := setRunning (m_running m + 1) m in
  let m := publishJobChangeLocked "update" item m in
  Ret (setWg (m_wg m + 1) m).

(** Every round takes a job off the queue. *)
Fixpoint dispatchLoop (fuel : nat) (m : JobManager) : outcome JobManager :=
  match fuel with
  | O => Diverge
  | S fuel =>
      if (m_running m <? maxConcurrent m) && (0 <? len (m_queue m)) && negb (m_shutdown m) then
        match popRunnableQueueLocked m with
        | None => Ret m
        | Some (id, m) => m ← startJobLocked id m; dispatchLoop fuel m
        end
      else Ret m
  end.

Definition dispatchLocked (m : JobManager) : outcome JobManager := dispatchLoop (S (length (m_queue m))) m.

Definition finishLocked (id : string) (err : option HandlerError) (aborted : bool) (m : JobManager)
    : outcome JobManager :=
  item ← jobAt id m;
  if bool_decide (j_Status item = StatusFinished) then Ret m
  else
    let t := now m in
    let hasAborted := j_HasAborted item || aborted in
    let failed := match err with Some e => negb hasAborted && negb (he_canceled e) | None => false end in
    (* close of a closed channel *)
    if j_done item then Panic
    else
      let item := MkJob (j_ID item) (j_Key item) (j_Name item) StatusFinished (j_RetryCount item)
        (j_IsAborting item) hasAborted (j_HasSkipped item) (if failed then true else j_HasFailed item)
        (if failed then match err with Some e => he_text e | None => j_Error item end else j_Error item)
        (j_CreatedAt item) t (j_StartedAt item) (Some t) None (j_definition item) true in
      let m := putJob item (tick m) in
      let m := setActiveKeys (m_activeKeys m ∖ {[j_Key item]}) m in
      let m := publishJobChangeLocked "update" item m in
      Ret (trimHistory m).

Definition enqueueLocked (def : JobDefinition) (id : string) (m : JobManager)
    : outcome (JobManager * (string + JobError)) :=
  if m_shutdown m then Ret (m, inr ErrManagerShutdown)
  else if bool_decide (d_Key def = "") || negb (d_Handler def) then Ret (m, inr ErrInvalidDefinition)
  else if bool_decide (d_Key def ∈ m_activeKeys m) then Ret (m, inr ErrJobAlreadyRunning)
  else
    let t := now m in
    let item := MkJob id (d_Key def) (d_Name def) StatusQueued 0 false false false false "" t t None None None
      def false in
    let m := putJob item (tick m) in
    let m := addHistoryLocked id m in
    let m := enqueueItemLocked id m in
    let m := setActiveKeys ({[d_Key def]} ∪ m_activeKeys m) m in
    let m := publishJobChangeLocked "create" item m in
    m ← dispatchLocked m;
    Ret (m, inl id).

Definition EnqueueDefinition : JobDefinition → string → JobManager → outcome (JobManager * (string + JobError)) :=
  enqueueLocked.

Definition Register (definition : JobDefinition) (m : JobManager) : JobManager :=
  setDefinitions (<[d_Key definition := definition]> (m_definitions m)) m.

Definition Enqueue (key id : string) (m : JobManager) : outcome (JobManager * (string + JobError)) :=
  match m_definitions m !! key with
  | None => Ret (m, inr ErrDefinitionNotFound)
  | Some def => enqueueLocked def id m
  end.

(** [wrapHandler]: a scheduled run of a job that is still active is no error. *)
Definition wrapHandler (def : JobDefinition) (id : string) (m : JobManager)
    : outcome (JobManager * option JobError) :=
  '(m, r) ← Enqueue (d_Key def) id m;
  Ret (m, match r with
          | inl _ => None
          | inr ErrJobAlreadyRunning => None
          | inr err => Some err
          end).

Definition shouldRetryLocked (item : Job) (err : option HandlerError) (m : JobManager) : bool :=
  match err with
  | None => false
  | Some e =>
      if he_canceled e || (len (d_RetryDelays (j_definition item)) <=? j_RetryCount item) || m_shutdown m
      then false
      else match d_RetryIf (j_definition item) with None => true | Some retryIf => retryIf e end
  end.

Definition standbyLocked (id : string) (err : option HandlerError) (m : JobManager) : outcome JobManager :=
  item ← jobAt id m;
  delay ← (d_RetryDelays (j_definition item))![j_RetryCount item];
  let next := now m + delay in
  let m := tick m in
  let t := now m in
  text ← match err with Some e => Ret (he_text e) | None => Panic end;
  let item := MkJob (j_ID item) (j_Key item) (j_Name item) StatusStandby (j_RetryCount item + 1)
    (j_IsAborting item) (j_HasAborted item) (j_HasSkipped item) (j_HasFailed item) text (j_CreatedAt item) t
    (j_StartedAt item) (j_FinishedAt item) (Some next) (j_definition item) (j_done item) in
  let m := putJob item (tick m) in
  let m := publishJobChangeLocked "update" item m in
  Ret (setTimers (m_timers m ++ [id]) (setWg (m_wg m + 1) m)).

Definition completeActiveLocked (item : Job) (m : JobManager) : JobManager :=
  let m := setActive (m_active m ∖ {[j_ID item]}) m in
  let m := setActiveExclusiveKeys
             (m_activeExclusiveKeys m ∖ list_to_set (d_ExclusiveKeys (j_definition item))) m in
  setRunning (m_running m - 1) m.

(** The end of the goroutine [run], once the handler has returned [err]. *)
Definition runEnd (id : string) (err : option HandlerError) (m : JobManager) : outcome JobManager :=
  item ← jobAt id m;
  let m := completeActiveLocked item m in
  m ← (if negb (j_HasAborted item) && shouldRetryLocked item err m then standbyLocked id err m
       else finishLocked id err (j_HasAborted item) m);
  m ← dispatchLocked m;
  Ret (setWg (m_wg m - 1) m).

Definition retryToQueueLocked (id : string) (m : JobManager) : outcome JobManager :=
  item ← jobAt id m;
  let t := now m in
  let item := MkJob (j_ID item) (j_Key item) (j_Name item) StatusQueued (j_RetryCount item) (j_IsAborting item)
    (j_HasAborted item) (j_HasSkipped item) (j_HasFailed item) (j_Error item) (j_CreatedAt item) t
    (j_StartedAt item) (j_FinishedAt item) None (j_definition item) (j_done item) in
  let m := putJob item (tick m) in
  let m := enqueueItemLocked id m in
  Ret (publishJobChangeLocked "update" item m).

(** Removing one occurrence. *)
Definition removeFirst (id : string) (l : list string) : list string :=
  match list_find (λ x, x = id) l with Some (i, _) => delete i l | None => l end.

(** The goroutine [standbyLocked] starts, when its timer fires. *)
Definition timerFires (id : string) (m : JobManager) : outcome JobManager :=
  item ← jobAt id m;
  let m := setTimers (removeFirst id (m_timers m)) m in
  m ← (if negb (bool_decide (j_Status item = StatusStandby)) || j_HasAborted item || m_shutdown m then Ret m
       else m ← retryToQueueLocked id m; dispatchLocked m);
  Ret (setWg (m_wg m - 1) m).

(** The same goroutine, when it sees the manager's context cancelled. *)
Definition timerStops (id : string) (m : JobManager) : JobManager :=
  setTimers (removeFirst id (m_timers m)) (setWg (m_wg m - 1) m).

Definition setAborting (hasAborted : bool) (updatedAt : Z) (item : Job) : Job :=
  MkJob (j_ID item) (j_Key item) (j_Name item) (j_Status item) (j_RetryCount item) true hasAborted
    (j_HasSkipped item) (j_HasFailed item) (j_Error item) (j_CreatedAt item) updatedAt (j_StartedAt item)
    (j_FinishedAt item) (j_NextRunAt item) (j_definition item) (j_done item).

Definition setHasAborted (item : Job) : Job :=
  MkJob (j_ID item) (j_Key item) (j_Name item) (j_Status item) (j_RetryCount item) (j_IsAborting item) true
    (j_HasSkipped item) (j_HasFailed item) (j_Error item) (j_CreatedAt item) (j_UpdatedAt item) (j_StartedAt item)
    (j_FinishedAt item) (j_NextRunAt item) (j_definition item) (j_done item).

(** [context.Canceled] *)
Definition Canceled : HandlerError := MkHandlerError true "context canceled".

Definition abortPendingLocked (id : string) (m : JobManager) : outcome JobManager :=
  item ← jobAt id m;
  let m := putJob (setAborting (j_HasAborted item) (j_UpdatedAt item) item) m in
  finishLocked id (Some Canceled) true m.

(** [findJob]: the history only. *)
Definition findJob (id : string) (m : JobManager) : option Job :=
  if bool_decide (id ∈ m_history m) then m_jobs m !! id else None.

Definition abortActiveLocked (id : string) (m : JobManager) : JobManager * bool :=
  if bool_decide (id ∈ m_active m) then
    let m := match findJob id m with
             | Some item =>
                 let item := setAborting true (now m) item in
                 publishJobChangeLocked "update" item (putJob item (tick m))
             | None => m
             end in
    (setCancelled ({[id]} ∪ m_cancelled m) m, true)
  else (m, false).

Definition abortQueuedLocked (id : string) (m : JobManager) : outcome (JobManager * bool) :=
  match list_find (λ x, x = id) (m_queue m) with
  | None => Ret (m, false)
  | Some (i, _) =>
      m ← abortPendingLocked id (setQueue (delete i (m_queue m)) m);
      Ret (m, true)
  end.

Definition abortStandbyLocked (id : string) (m : JobManager) : outcome (JobManager * bool) :=
  match findJob id m with
  | None => Ret (m, false)
  | Some item =>
      if negb (bool_decide (j_Status item = StatusStandby)) then Ret (m, false)
      else
        m ← abortPendingLocked id (putJob (setHasAborted item) m);
        Ret (m, true)
  end.

Definition Abort (id : string) (m : JobManager) : outcome (JobManager * option JobError) :=
  let '(m, active) := abortActiveLocked id m in
  if active : bool then Ret (m, None)
  else
    '(m, queued) ← abortQueuedLocked id m;
    if queued : bool then Ret (m, None)
    else
      '(m, standby) ← abortStandbyLocked id m;
      Ret (m, if standby : bool then None else Some ErrJobNotRunning).

(** The loop over [m.history]: it reads the array the history had when the loop
    started, [arr], which the removals of [trimHistory] shift in place. *)
Fixpoint abortStandbyLoop (n i : nat) (arr : list string) (m : JobManager) : outcome JobManager :=
  match n with
  | O => Ret m
  | S n =>
      match arr !! i with
      | None => Ret m
      | Some id =>
          if hasStatus StatusStandby id m then
            m ← abortPendingLocked id m;
            abortStandbyLoop n (S i) (m_history m ++ drop (length (m_history m)) arr) m
          else abortStandbyLoop n (S i) arr m
      end
  end.

Definition abortQueuedAndStandbyLocked (m : JobManager) : outcome JobManager :=
  let queued := m_queue m in
  m ← foldM (λ m id, abortPendingLocked id m) queued (setQueue [] m);
  abortStandbyLoop (length (m_history m)) 0 (m_history m) m.

(** [Shutdown]: first the context, without the mutex, then the critical section. *)
Definition shutdownCancel (m : JobManager) : JobManager := setShutdown true m.
Definition shutdownLocked (m : JobManager) : outcome JobManager :=
  m ← abortQueuedAndStandbyLocked m;
  Ret (setCancelled (m_active m ∪ m_cancelled m) m).

Definition Rerun (id newID : string) (m : JobManager) : outcome (JobManager * option JobError) :=
  match findJob id m with
  | None => Ret (m, Some ErrJobNotFound)
  | Some item =>
      if negb (d_IsRerunnable (j_definition item)) then Ret (m, Some ErrJobNotRerunnable)
      else
        '(m, r) ← EnqueueDefinition (j_definition item) newID m;
        Ret (m, match r with inl _ => None | inr err => Some err end)
  end.

Definition GetActiveJobKeysByPrefix (pre : string) (m : JobManager) : outcome (list string) :=
  '(_, result) ← foldM (λ (st : gset string * list string) id,
    item ← jobAt id m;
    let '(seen, result) := st in
    Ret (if bool_decide (j_Status item = StatusFinished) then (seen, result)
         else if negb (String.prefix pre (j_Key item)) then (seen, result)
         else if bool_decide (j_Key item ∈ seen) then (seen, result)
         else ({[j_Key item]} ∪ seen, result ++ [j_Key item]))) (m_history m) (∅, []);
  Ret result.

Definition GetJobs (m : JobManager) : outcome (list Job) :=
  foldM (λ result id, item ← jobAt id m; Ret (result ++ [item])) (m_history m) [].

End Manager.

(** ** Reading the fields of an updated manager *)

Ltac mgr :=
  cbn [m_definitions m_jobs m_history m_queue m_active m_cancelled m_activeKeys m_activeExclusiveKeys m_running
       m_config m_wg m_timers m_shutdown m_changes m_events m_ticks
       setDefinitions setJobs setHistory setQueue setActive setCancelled setActiveKeys setActiveExclusiveKeys
       setRunning setWg setTimers setShutdown setChanges setEvents setTicks putJob tick maxHistory maxConcurrent].

Lemma publish_eq typ item m : ∃ events changes,
  publishJobChangeLocked typ item m = setEvents events (setChanges changes m).
Proof.
  unfold publishJobChangeLocked. mgr. destruct (HasEvents (m_config m)).
  - by eexists _, _.
  - by exists (m_events m), (m_changes m + 1).
Qed.

(** Name the log and the counter a publication leaves behind. *)
Ltac publish :=
  match goal with |- context [publishJobChangeLocked ?t ?i ?m] =>
    let ev := fresh "ev" in let ch := fresh "ch" in
    destruct (publish_eq t i m) as (ev & ch & ->)
  end.

(** ** The invariant *)

Section Invariant.

Definition unfinished (j : Job) : Prop := j_Status j ≠ StatusFinished.

(** The job at [id] is in the state [st]. *)
Definition isIn (jobs : gmap string Job) (id : string) (st : JobStatus) : Prop :=
  ∃ j, jobs !! id = Some j ∧ j_Status j = st.

Definition exclusiveKeys (j : Job) : list string := d_ExclusiveKeys (j_definition j).

(** A job by itself: its key is its definition's, [done] is closed when it is
    finished, it is retried at most as often as it has delays, its end and its
    next run are set exactly in the states that have them, and a job that waits
    for a retry has not been aborted. *)
Definition job_ok (j : Job) : Prop :=
  d_Key (j_definition j) = j_Key j ∧ j_done j = bool_decide (j_Status j = StatusFinished) ∧
  0 ≤ j_RetryCount j ≤ len (d_RetryDelays (j_definition j)) ∧
  (is_Some (j_FinishedAt j) ↔ (j_Status j = StatusFinished)) ∧
  (is_Some (j_NextRunAt j) ↔ (j_Status j = StatusStandby)) ∧
  (j_Status j = StatusStandby → j_HasAborted j = false).

(** The job table: no key has two unfinished jobs. *)
Record jobs_ok (jobs : gmap string Job) : Prop := {
  jo_job : ∀ id j, jobs !! id = Some j → j_ID j = id ∧ job_ok j;
  jo_unique : ∀ id1 id2 j1 j2, jobs !! id1 = Some j1 → jobs !! id2 = Some j2 →
    unfinished j1 → unfinished j2 → j_Key j1 = j_Key j2 → id1 = id2
}.

(** The keys taken are those of the unfinished jobs. *)
Definition keys_ok (jobs : gmap string Job) (keys : gset string) : Prop :=
  ∀ k, k ∈ keys ↔ (∃ id j, jobs !! id = Some j ∧ unfinished j ∧ j_Key j = k).

(** The exclusive keys taken are those of the active jobs, each of one only. *)
Record excl_ok (jobs : gmap string Job) (active keys : gset string) : Prop := {
  ex_keys : ∀ k, k ∈ keys ↔ (∃ id j, id ∈ active ∧ jobs !! id = Some j ∧ k ∈ exclusiveKeys j);
  ex_disjoint : ∀ id1 id2 j1 j2 k, id1 ∈ active → id2 ∈ active →
    jobs !! id1 = Some j1 → jobs !! id2 = Some j2 →
    k ∈ exclusiveKeys j1 → k ∈ exclusiveKeys j2 → id1 = id2
}.

(** The history has every unfinished job. *)
Record history_ok (jobs : gmap string Job) (history : list string) : Prop := {
  hi_nodup : NoDup history;
  hi_known : ∀ id, id ∈ history → is_Some (jobs !! id);
  hi_kept : ∀ id j, jobs !! id = Some j → unfinished j → id ∈ history
}.

(** Where each job is: a queued one in the queue, a running one among the active,
    unless the current operation has it in [hand]; a standby one has a timer,
    unless shutdown took it. *)
Record placed (hand : gset string) (m : JobManager) : Prop := {
  pl_hand : ∀ id, id ∈ hand → isIn (m_jobs m) id StatusQueued ∨ isIn (m_jobs m) id StatusRunning;
  pl_nodup : NoDup (m_queue m);
  pl_queue : ∀ id, id ∈ m_queue m ↔ id ∉ hand ∧ isIn (m_jobs m) id StatusQueued;
  pl_active : ∀ id, id ∈ m_active m ↔ id ∉ hand ∧ isIn (m_jobs m) id StatusRunning;
  pl_timers_nodup : NoDup (m_timers m);
  pl_timers : ∀ id, id ∈ m_timers m → isIn (m_jobs m) id StatusStandby ∨ isIn (m_jobs m) id StatusFinished;
  pl_standby : ∀ id, isIn (m_jobs m) id StatusStandby → id ∈ m_timers m ∨ m_shutdown m = true
}.

(** The manager with the jobs [hand] in the hands of the current operation and
    [w] goroutines about to end. *)
Record inv (hand : gset string) (w : Z) (m : JobManager) : Prop := {
  iv_jobs : jobs_ok (m_jobs m);
  iv_placed : placed hand m;
  iv_keys : keys_ok (m_jobs m) (m_activeKeys m);
  iv_excl : excl_ok (m_jobs m) (m_active m) (m_activeExclusiveKeys m);
  iv_history : history_ok (m_jobs m) (m_history m);
  iv_running : m_running m = Z.of_nat (size (m_active m));
  iv_limit : m_running m ≤ maxConcurrent m;
  iv_wg : m_wg m = Z.of_nat (size (m_active m)) + len (m_timers m) + w;
  iv_settings : 0 < maxHistory m ∧ 0 < maxConcurrent m
}.

(** The history is within its bound, but for unfinished jobs. *)
Definition bounded (m : JobManager) : Prop :=
  len (m_history m) ≤ maxHistory m ∨ ∀ id, id ∈ m_history m → ¬ isIn (m_jobs m) id StatusFinished.

(** *** Changing one job *)

(** What an operation may do to a job: anything but its identity. *)
Definition sameJob (j j' : Job) : Prop :=
  j_ID j' = j_ID j ∧ j_Key j' = j_Key j ∧ j_definition j' = j_definition j.

Lemma jobs_ok_update jobs id j j' :
  jobs_ok jobs → jobs !! id = Some j → sameJob j j' → job_ok j' → (unfinished j' → unfinished j) →
  jobs_ok (<[id := j']> jobs).
Proof.
  intros [H1 H2] Hj (Hid & Hkey & Hdef) Hok Hun. split.
  - intros x y [[<- <-] | [_ Hy]]%lookup_insert_Some; [| by apply H1]. split; [| done]. rewrite Hid. by apply H1.
  - intros x1 x2 y1 y2 E1 E2 U1 U2 Hk.
    apply lookup_insert_Some in E1 as [[<- <-] | [N1 E1]], E2 as [[<- <-] | [N2 E2]]; [done | | |].
    + apply (H2 id x2 j y2); try done; [by apply Hun | congruence].
    + apply (H2 x1 id y1 j); try done; [by apply Hun | congruence].
    + by apply (H2 x1 x2 y1 y2).
Qed.

Lemma isIn_update jobs id j' x st :
  isIn (<[id := j']> jobs) x st ↔ (x = id ∧ j_Status j' = st) ∨ (x ≠ id ∧ isIn jobs x st).
Proof.
  unfold isIn. setoid_rewrite lookup_insert_Some. destruct (decide (x = id)) as [-> | Hne]; naive_solver.
Qed.

Lemma isIn_fun jobs id st st' : isIn jobs id st → isIn jobs id st' → st = st'.
Proof. intros (j & E & <-) (j' & E' & <-). congruence. Qed.

Lemma isIn_job jobs id j : jobs !! id = Some j → isIn jobs id (j_Status j).
Proof. intros. by exists j. Qed.

Lemma keys_ok_update jobs keys id j j' :
  keys_ok jobs keys → jobs !! id = Some j → sameJob j j' → (unfinished j' ↔ unfinished j) →
  keys_ok (<[id := j']> jobs) keys.
Proof.
  intros Hk Hj (_ & Hkey & _) Hun k. rewrite (Hk k). split.
  - intros (x & y & Hy & Hu & <-). destruct (decide (x = id)) as [-> | Hne].
    + exists id, j'. rewrite lookup_insert_eq. replace y with j in * by congruence.
      split_and!; [done | by apply Hun | done].
    + exists x, y. by rewrite lookup_insert_ne.
  - intros (x & y & [[<- <-] | [_ Hy]]%lookup_insert_Some & Hu & <-).
    + exists id, j. split_and!; [done | by apply Hun | done].
    + by exists x, y.
Qed.

(** Its key becomes free when a job is finished. *)
Lemma keys_ok_finish jobs keys id j j' :
  jobs_ok jobs → keys_ok jobs keys → jobs !! id = Some j → sameJob j j' → unfinished j → ¬ unfinished j' →
  keys_ok (<[id := j']> jobs) (keys ∖ {[j_Key j]}).
Proof.
  intros Hok Hk Hj Hs Hu Hf k. rewrite elem_of_difference, elem_of_singleton, (Hk k). split.
  - intros [(x & y & Hy & Hu' & Hkey) Hne]. exists x, y. split_and!; try done.
    rewrite lookup_insert_ne; [done |]. intros <-. congruence.
  - intros (x & y & [[<- <-] | [Hne Hy]]%lookup_insert_Some & Hu' & <-); [done |]. split; [by exists x, y |].
    intros Hkey. destruct Hne. symmetry. by apply (jo_unique _ Hok x id y j).
Qed.

Lemma excl_ok_update jobs active keys id j j' :
  excl_ok jobs active keys → jobs !! id = Some j → sameJob j j' → excl_ok (<[id := j']> jobs) active keys.
Proof.
  intros [H1 H2] Hj (_ & _ & Hdef).
  assert (∀ x y', <[id := j']> jobs !! x = Some y' → ∃ y, jobs !! x = Some y ∧ exclusiveKeys y' = exclusiveKeys y) as Hold.
  { intros x y' [[<- <-] | [_ Hy]]%lookup_insert_Some; [| by exists y'].
    exists j. split; [done |]. unfold exclusiveKeys. by rewrite Hdef. }
  split.
  - intros k. rewrite H1. split.
    + intros (x & y & Ha & Hy & Hk). destruct (decide (x = id)) as [-> | Hne].
      * exists id, j'. rewrite lookup_insert_eq. split_and!; try done.
        replace y with j in * by congruence. unfold exclusiveKeys in *. by rewrite Hdef.
      * exists x, y. by rewrite lookup_insert_ne.
    + intros (x & y' & Ha & (y & Hy & E)%Hold & Hk). exists x, y. by rewrite <- E.
  - intros x1 x2 y1' y2' k A1 A2 (y1 & Hy1 & E1)%Hold (y2 & Hy2 & E2)%Hold. rewrite E1, E2.
    by apply (H2 x1 x2 y1 y2 k).
Qed.

(** A job starts only when its exclusive keys are free. *)
Lemma excl_ok_start jobs active keys id j :
  excl_ok jobs active keys → jobs !! id = Some j → id ∉ active → (∀ k, k ∈ exclusiveKeys j → k ∉ keys) →
  excl_ok jobs ({[id]} ∪ active) (list_to_set (exclusiveKeys j) ∪ keys).
Proof.
  intros [H1 H2] Hj Hnew Hfree. split.
  - intros k. rewrite elem_of_union, elem_of_list_to_set, H1. setoid_rewrite elem_of_union.
    setoid_rewrite elem_of_singleton. split.
    + intros [Hk | (x & y & Ha & Hy & Hk)]; [exists id, j; split_and!; auto | exists x, y; split_and!; auto].
    + intros (x & y & [-> | Ha] & Hy & Hk); [left; congruence | right; by exists x, y].
  - assert (∀ x y k, x ∈ active → jobs !! x = Some y → k ∈ exclusiveKeys y → k ∈ exclusiveKeys j → False) as Hno
      by (intros x y k Ha Hy Hk Hk'; apply (Hfree k Hk'), H1; by exists x, y).
    intros x1 x2 y1 y2 k [->%elem_of_singleton | A1]%elem_of_union [->%elem_of_singleton | A2]%elem_of_union E1 E2 K1 K2.
    + done.
    + replace y1 with j in * by congruence. by destruct (Hno x2 y2 k).
    + replace y2 with j in * by congruence. by destruct (Hno x1 y1 k).
    + by apply (H2 x1 x2 y1 y2 k).
Qed.

Lemma excl_ok_complete jobs active keys id j :
  excl_ok jobs active keys → jobs !! id = Some j → id ∈ active →
  excl_ok jobs (active ∖ {[id]}) (keys ∖ list_to_set (exclusiveKeys j)).
Proof.
  intros [H1 H2] Hj Hin. split.
  - intros k. rewrite elem_of_difference, elem_of_list_to_set, H1. setoid_rewrite elem_of_difference.
    setoid_rewrite elem_of_singleton. split.
    + intros [(x & y & Ha & Hy & Hk) Hno]. exists x, y. split_and!; try done. intros ->. congruence.
    + intros (x & y & [Ha Hne] & Hy & Hk). split; [by exists x, y |]. intros Hk'.
      by destruct Hne; apply (H2 x id y j k).
  - intros x1 x2 y1 y2 k [A1 _]%elem_of_difference [A2 _]%elem_of_difference. by apply H2.
Qed.

Lemma history_ok_update jobs history id j j' :
  history_ok jobs history → jobs !! id = Some j → (unfinished j' → unfinished j) →
  history_ok (<[id := j']> jobs) history.
Proof.
  intros [H1 H2 H3] Hj Hun. split; [done | |].
  - intros x Hx. apply lookup_insert_is_Some'. right. by apply H2.
  - intros x y [[<- <-] | [_ Hy]]%lookup_insert_Some Hu; [apply (H3 id j); [done | by apply Hun] | by eapply H3].
Qed.

(** Moving one job: everything about the others stays. *)
Lemma placed_update hand hand' m m' id j' :
  placed hand m → m_jobs m' = <[id := j']> (m_jobs m) →
  NoDup (m_queue m') → NoDup (m_timers m') → m_shutdown m' = m_shutdown m →
  (∀ x, x ≠ id → (x ∈ hand' ↔ x ∈ hand) ∧ (x ∈ m_queue m' ↔ x ∈ m_queue m) ∧
    (x ∈ m_active m' ↔ x ∈ m_active m) ∧ (x ∈ m_timers m' ↔ x ∈ m_timers m)) →
  (id ∈ hand' → j_Status j' = StatusQueued ∨ j_Status j' = StatusRunning) →
  (id ∈ m_queue m' ↔ id ∉ hand' ∧ j_Status j' = StatusQueued) →
  (id ∈ m_active m' ↔ id ∉ hand' ∧ j_Status j' = StatusRunning) →
  (id ∈ m_timers m' → j_Status j' = StatusStandby ∨ j_Status j' = StatusFinished) →
  (j_Status j' = StatusStandby → id ∈ m_timers m' ∨ m_shutdown m' = true) →
  placed hand' m'.
Proof.
  intros [P1 P2 P3 P4 P5 P6 P7] Hjobs Hq Ht Hsd Hother H1 H2 H3 H4 H5.
  split; try done; rewrite Hjobs; intros x; rewrite !isIn_update;
    (destruct (decide (x = id)) as [-> | Hne]; [| destruct (Hother x Hne) as (O1 & O2 & O3 & O4)]).
  - intros Hin. destruct (H1 Hin); auto.
  - rewrite O1. intros Hin. destruct (P1 x Hin); auto.
  - rewrite H2. split; [intros [? ?]; auto | intros [? [[_ ?] | [? _]]]; done].
  - rewrite O1, O2, P3. split; [intros [? ?]; auto | intros [? [[? _] | [_ ?]]]; done].
  - rewrite H3. split; [intros [? ?]; auto | intros [? [[_ ?] | [? _]]]; done].
  - rewrite O1, O3, P4. split; [intros [? ?]; auto | intros [? [[? _] | [_ ?]]]; done].
  - intros Hin. destruct (H4 Hin); auto.
  - rewrite O4. intros Hin. destruct (P6 x Hin); auto.
  - intros [[_ Hs] | [? _]]; [by apply H5 | done].
  - rewrite O4, Hsd. intros [[? _] | [_ Hs]]; [done | by apply P7].
Qed.

(** What an operation leaves alone. *)
Record kept_setting (m m' : JobManager) : Prop := {
  ks_config : m_config m' = m_config m;
  ks_shutdown : m_shutdown m' = m_shutdown m
}.

(** *** The history *)

Lemma firstFinished_spec m history :
  match firstFinished m history with
  | Some i => ∃ id, history !! i = Some id ∧ isIn (m_jobs m) id StatusFinished
  | None => ∀ id, id ∈ history → ¬ isIn (m_jobs m) id StatusFinished
  end.
Proof.
  assert (∀ id, hasStatus StatusFinished id m = true ↔ isIn (m_jobs m) id StatusFinished) as Hst.
  { intros id. unfold hasStatus, isIn. destruct (m_jobs m !! id) as [item |] eqn:E.
    - rewrite bool_decide_eq_true. split; [by exists item | by intros (? & [= ->] & ?)].
    - split; [done | by intros (? & ? & _)]. }
  unfold firstFinished. destruct (list_find _ _) as [[i id] |] eqn:E; cbn.
  - apply list_find_Some in E as (E & Hid & _). exists id. by rewrite <- Hst.
  - apply list_find_None in E. rewrite Forall_forall in E. intros id Hid. rewrite <- Hst. by apply E.
Qed.

Lemma elem_of_delete_nodup {A} (l : list A) i x y :
  NoDup l → l !! i = Some x → y ∈ delete i l ↔ y ∈ l ∧ y ≠ x.
Proof.
  intros Hnd Hi. rewrite <- (take_drop_middle l i x Hi) at 2. rewrite delete_take_drop.
  rewrite <- (take_drop_middle l i x Hi) in Hnd. apply NoDup_app in Hnd as (N1 & N2 & N3).
  apply NoDup_cons in N3 as [N3 N4]. rewrite !elem_of_app, elem_of_cons. split.
  - intros [Hy | Hy]; (split; [tauto |]); intros ->; [by apply (N2 _ Hy); left | done].
  - intros [[? | [-> | ?]] Hne]; tauto.
Qed.

Lemma NoDup_delete {A} (l : list A) i : NoDup l → NoDup (delete i l).
Proof. intros. eapply sublist_NoDup; [done | apply sublist_delete]. Qed.

(** Trimming drops finished jobs only, until the bound or none is left. *)
Lemma trimLoop_spec m fuel : ∀ history, (length history ≤ fuel)%nat → 0 ≤ maxHistory m →
  history_ok (m_jobs m) history →
  let history' := trimLoop fuel m history in
  history_ok (m_jobs m) history' ∧
  (len history' ≤ maxHistory m ∨ ∀ id, id ∈ history' → ¬ isIn (m_jobs m) id StatusFinished).
Proof.
  induction fuel as [| fuel IH]; intros history Hf Hm Hok; cbn [trimLoop].
  { split; [done |]. left. unfold len. lia. }
  destruct (Z.leb_spec (len history) (maxHistory m)); [by split; [| left] |].
  pose proof (firstFinished_spec m history) as Hfin. destruct (firstFinished m history) as [i |]; [| by split; [| right]].
  destruct Hfin as (id & Hi & Hid). pose proof (lookup_lt_Some _ _ _ Hi).
  apply IH; [rewrite length_delete by done; lia | done |].
  destruct Hok as [H1 H2 H3]. split; [by apply NoDup_delete | |].
  - intros x (Hx & _)%(elem_of_delete_nodup _ _ _ _ H1 Hi). by apply H2.
  - intros x j Hj Hu. apply (elem_of_delete_nodup _ _ _ _ H1 Hi). split; [by eapply H3 |]. intros ->.
    apply Hu. by apply (isIn_fun (m_jobs m) id); [apply isIn_job |].
Qed.

End Invariant.

(** ** The operations keep the invariant *)

Section Operations.
Context (timeAt : Z → Z).

Lemma inv_job hand w m id j : inv hand w m → m_jobs m !! id = Some j → j_ID j = id ∧ job_ok j.
Proof. intros Hinv. apply (jo_job _ (iv_jobs _ _ _ Hinv)). Qed.

Lemma job_ok_pending j : job_ok j → unfinished j →
  j_done j = false ∧ j_FinishedAt j = None ∧ (j_Status j ≠ StatusStandby → j_NextRunAt j = None).
Proof.
  intros (_ & -> & _ & K4 & K5 & _) Hu. rewrite bool_decide_eq_false_2 by done. split_and!; [done | |].
  - destruct (j_FinishedAt j); [| done]. destruct Hu. apply K4. by eexists.
  - intros Hs. destruct (j_NextRunAt j); [| done]. destruct Hs. apply K5. by eexists.
Qed.

Ltac solve_job_ok :=
  unfold job_ok; cbn; split_and!; try done; try lia;
  solve [intros _; by eexists | intros ?; done | let H := fresh in intros H; by destruct H].

(** What changed besides the job at [id], and how that job changed. *)
Record changed_job (id : string) (j j' : Job) (m m' : JobManager) : Prop := {
  cj_jobs : m_jobs m' = <[id := j']> (m_jobs m);
  cj_same : sameJob j j';
  cj_config : m_config m' = m_config m;
  cj_shutdown : m_shutdown m' = m_shutdown m
}.

Lemma size_remove (X : gset string) id : id ∈ X → Z.of_nat (size (X ∖ {[id]})) = Z.of_nat (size X) - 1.
Proof.
  intros Hid. rewrite size_difference by set_solver. rewrite size_singleton.
  assert (size X ≠ 0%nat) by (intros ?%size_empty_inv; set_solver). lia.
Qed.

(** [j] is [j0] with its abort flags set. *)
Definition flagged (j0 j : Job) : Prop :=
  sameJob j0 j ∧ j_Status j = j_Status j0 ∧ j_done j = j_done j0 ∧ j_RetryCount j = j_RetryCount j0.

(** Finishing a job whose flags have just been set. *)
Lemma finishLocked_ok hand w id err aborted m0 j0 j (m := setJobs (<[id := j]> (m_jobs m0)) m0) :
  inv hand w m0 → m_jobs m0 !! id = Some j0 → flagged j0 j → unfinished j0 →
  id ∈ hand ∨ j_Status j0 = StatusStandby →
  returns (finishLocked timeAt id err aborted m) (λ m', inv (hand ∖ {[id]}) w m' ∧ bounded m' ∧
    m_queue m' = m_queue m0 ∧ m_active m' = m_active m0 ∧ m_timers m' = m_timers m0 ∧ kept_setting m0 m' ∧
    (len (m_history m0) ≤ maxHistory m0 → m_history m' = m_history m0) ∧
    ∃ j', m_jobs m' = <[id := j']> (m_jobs m0) ∧ sameJob j0 j' ∧ j_Status j' = StatusFinished ∧
      j_HasAborted j' = j_HasAborted j || aborted).
Proof.
  intros Hinv Hj0 (Hsame & Hst & Hdone & Hretry) Hu Hplace.
  destruct (inv_job _ _ _ _ _ Hinv Hj0) as [Hid (K1 & K2 & K3 & _)].
  assert (j_ID j = id) as Hidj by (destruct Hsame as (-> & _); done).
  unfold finishLocked, jobAt. change (m_jobs m) with (<[id := j]> (m_jobs m0)). rewrite lookup_insert_eq. run.
  rewrite bool_decide_eq_false_2 by (rewrite Hst; done).
  rewrite Hdone, K2, bool_decide_eq_false_2 by done. cbv zeta.
  set (j' := MkJob _ _ _ StatusFinished _ _ _ _ _ _ _ _ _ _ _ _ _).
  assert (putJob j' (tick m) = setJobs (<[id := j']> (m_jobs m0)) (tick m0)) as ->.
  { unfold putJob. change (j_ID j') with (j_ID j). rewrite Hidj. unfold m. mgr. by rewrite insert_insert_eq. }
  change (m_activeKeys (setJobs _ _)) with (m_activeKeys m0). publish. unfold trimHistory. mgr. unfold ends.
  assert (sameJob j0 j') as Hsame' by done.
  assert (job_ok j') as Hok'.
  { destruct Hsame as (_ & E1 & E2). unfold job_ok. cbn. rewrite E1, E2, Hretry. split_and!; try done; try lia; by eexists. }
  assert (¬ unfinished j') as Hf by (intros H; by apply H).
  pose proof (iv_placed _ _ _ Hinv) as [P1 P2 P3 P4 P5 P6 P7].
  assert (id ∉ m_queue m0 ∧ id ∉ m_active m0) as [Hq Ha].
  { rewrite P3, P4. destruct Hplace as [Hh | Hs]; [tauto |].
    split; intros [_ Hi]; pose proof (isIn_fun _ _ _ _ Hi (isIn_job _ _ _ Hj0)); congruence. }
  destruct Hinv as [I1 I2 I3 I4 I5 I6 I7 I8 I9].
  match goal with |- context [trimLoop ?f ?m1 ?h] => destruct (trimLoop_spec m1 f h) as [Hh Hb] end.
  { done. } { unfold maxHistory in *. mgr. lia. } { mgr. by apply (history_ok_update _ _ _ j0 j'). }
  cbn zeta in Hh, Hb.
  split; [| split; [exact Hb | split_and!; try done]].
  - split; mgr; try done.
    + by eapply jobs_ok_update.
    + apply (placed_update hand _ m0 _ id j'); mgr; try done.
      * intros x Hx. set_solver.
      * set_solver.
      * split; [intros Hin; by destruct Hq | by intros [_ ?]].
      * split; [intros Hin; by destruct Ha | by intros [_ ?]].
      * intros _. by right.
    + change (j_Key j') with (j_Key j). rewrite (proj1 (proj2 Hsame)). by apply (keys_ok_finish _ _ _ j0 j').
    + by apply (excl_ok_update _ _ _ _ j0 j').
  - intros Hlen. mgr. destruct (length (m_history m0)); [done |]. cbn [trimLoop].
    unfold maxHistory in *. mgr. by destruct (Z.leb_spec (len (m_history m0)) (MaxHistory (m_config m0))); [| lia].
  - by exists j'.
Qed.

Lemma bounded_update m m' id j' :
  bounded m → m_history m' = m_history m → m_config m' = m_config m →
  m_jobs m' = <[id := j']> (m_jobs m) → j_Status j' ≠ StatusFinished → bounded m'.
Proof.
  unfold bounded, maxHistory. intros [Hb | Hb] -> -> -> Hs; [by left | right].
  intros x Hx. rewrite isIn_update. intros [[_ ?] | [_ ?]]; [done | by apply (Hb x)].
Qed.

(** Nothing the bound depends on changed. *)
Lemma bounded_same m m' :
  bounded m → m_history m' = m_history m → m_config m' = m_config m → m_jobs m' = m_jobs m → bounded m'.
Proof. unfold bounded, maxHistory. by intros ? -> -> ->. Qed.

(** Jobs were started, and nothing else. *)
Definition started (m m' : JobManager) : Prop :=
  m_timers m' = m_timers m ∧ m_activeKeys m' = m_activeKeys m ∧ m_history m' = m_history m ∧
  ∀ id j, m_jobs m !! id = Some j → ∃ j', m_jobs m' !! id = Some j' ∧ sameJob j j' ∧
    (j' = j ∨ (j_Status j = StatusQueued ∧ j_Status j' = StatusRunning)).

Lemma started_refl m : started m m.
Proof. split_and!; try done. intros id j Hj. exists j. split_and!; [done | done | by left]. Qed.

Lemma started_trans m1 m2 m3 : started m1 m2 → started m2 m3 → started m1 m3.
Proof.
  intros (T1 & K1 & H1 & S1) (T2 & K2 & H2 & S2). split_and!; try congruence. intros id j Hj.
  destruct (S1 id j Hj) as (j' & Hj' & (A1 & A2 & A3) & C). destruct (S2 id j' Hj') as (j'' & Hj'' & (B1 & B2 & B3) & D).
  exists j''. split_and!; [done | by split_and!; congruence |].
  destruct C as [-> | [C1 C2]], D as [-> | [D1 D2]]; auto; congruence.
Qed.

Lemma startJobLocked_ok hand w id m j :
  inv hand w m → bounded m → m_jobs m !! id = Some j → id ∈ hand → j_Status j = StatusQueued →
  (∀ k, k ∈ exclusiveKeys j → k ∉ m_activeExclusiveKeys m) → m_running m < maxConcurrent m →
  returns (startJobLocked timeAt id m) (λ m', inv (hand ∖ {[id]}) w m' ∧ bounded m' ∧
    m_queue m' = m_queue m ∧ started m m' ∧ kept_setting m m').
Proof.
  intros Hinv Hb Hj Hh Hq Hfree Hlim.
  destruct (inv_job _ _ _ _ _ Hinv Hj) as [<- (K1 & K2 & K3 & K4 & K5 & K6)].
  unfold startJobLocked, jobAt. rewrite Hj. run. set (j' := MkJob _ _ _ StatusRunning _ _ _ _ _ _ _ _ _ _ _ _ _).
  cbv zeta. publish. unfold ends. mgr.
  assert (sameJob j j') as Hsame by done.
  assert (job_ok j') as Hok'.
  { destruct (job_ok_pending j) as (D & F & N); [done | unfold unfinished; by rewrite Hq |].
    specialize (N ltac:(by rewrite Hq)). unfold job_ok. cbn. rewrite D, F, N. solve_job_ok. }
  assert (unfinished j' ↔ unfinished j) as Hun by (unfold unfinished; rewrite Hq; split; intros _; discriminate).
  destruct Hinv as [I1 I2 I3 I4 I5 I6 I7 I8 I9]. pose proof I2 as [P1 P2 P3 P4 P5 P6 P7].
  assert (j_ID j ∉ m_active m) as Ha by (rewrite P4; tauto).
  assert (j_ID j ∉ m_queue m) as Hnq by (rewrite P3; tauto).
  assert (j_ID j ∉ m_timers m) as Hnt.
  { intros [Hi | Hi]%P6; pose proof (isIn_fun _ _ _ _ Hi (isIn_job _ _ _ Hj)); congruence. }
  split; [| split; [eapply (bounded_update m _ (j_ID j) j'); done | split; [done | split; [| done]]]].
  - split; mgr; try done.
    + by apply (jobs_ok_update _ _ j j'); try done; apply Hun.
    + apply (placed_update hand _ m _ (j_ID j) j'); mgr; try done.
      * intros x Hx. set_solver.
      * set_solver.
      * split; [done | by intros [_ ?]].
      * split; [set_solver | set_solver].
    + by apply (keys_ok_update _ _ _ j j').
    + apply (excl_ok_update _ _ _ _ j j'); [| done | done]. by apply (excl_ok_start _ _ _ _ j).
    + by apply (history_ok_update _ _ _ j j'); try done; apply Hun.
    + rewrite I6, size_union, size_singleton by set_solver. lia.
    + unfold maxConcurrent in *. mgr. lia.
    + rewrite I8, size_union, size_singleton by set_solver. lia.
  - split_and!; mgr; try done. intros x y Hy. destruct (decide (x = j_ID j)) as [-> | Hne].
    + exists j'. rewrite lookup_insert_eq. replace y with j by congruence. split_and!; try done. by right.
    + exists y. rewrite lookup_insert_ne by done. split_and!; [done | done | by left].
Qed.

Lemma runnable_spec m id j : m_jobs m !! id = Some j → runnable m id = true ↔
  (∀ k, k ∈ d_DependsOn (j_definition j) → k ∉ m_activeKeys m) ∧
  (∀ k, k ∈ exclusiveKeys j → k ∉ m_activeExclusiveKeys m).
Proof.
  assert (∀ (l : list string) (X : gset string),
    negb (existsb (λ key, bool_decide (key ∈ X)) l) = true ↔ ∀ k, k ∈ l → k ∉ X) as Hno.
  { intros l X. rewrite negb_true_iff, <- not_true_iff_false, existsb_exists.
    setoid_rewrite <- list_elem_of_In. setoid_rewrite bool_decide_eq_true. naive_solver. }
  intros Hj. unfold runnable, dependenciesSatisfiedLocked. by rewrite Hj, andb_true_iff, !Hno.
Qed.

Lemma pop_ok hand w m : inv hand w m →
  match popRunnableQueueLocked m with
  | None => ∀ id, id ∈ m_queue m → runnable m id = false
  | Some (id, m') => inv ({[id]} ∪ hand) w m' ∧ (∃ i, m_queue m !! i = Some id ∧ m' = setQueue (delete i (m_queue m)) m) ∧
      runnable m id = true ∧ ∃ j, m_jobs m !! id = Some j ∧ j_Status j = StatusQueued
  end.
Proof.
  intros Hinv. unfold popRunnableQueueLocked. destruct (list_find _ _) as [[i id] |] eqn:E; cbn.
  - apply list_find_Some in E as (Hi & Hr & _). destruct Hinv as [I1 I2 I3 I4 I5 I6 I7 I8 I9].
    destruct I2 as [P1 P2 P3 P4 P5 P6 P7].
    assert (id ∈ m_queue m) as Hin by by eapply list_elem_of_lookup_2.
    apply P3 in Hin as [Hnh Hst].
    split; [| split; [by exists i | split; [done |]]].
    + split; mgr; try done. split; mgr; try done.
      * intros x [->%elem_of_singleton | Hx]%elem_of_union; [by left | by apply P1].
      * by apply NoDup_delete.
      * intros x. rewrite (elem_of_delete_nodup _ _ _ _ P2 Hi), P3. set_solver.
      * intros x. rewrite P4. rewrite not_elem_of_union, not_elem_of_singleton.
        split; [intros [? Hr'] | tauto]. split_and!; try done. intros ->.
        by pose proof (isIn_fun _ _ _ _ Hst Hr').
    + destruct Hst as (j & ? & ?). by exists j.
  - apply list_find_None in E. rewrite Forall_forall in E. intros id Hid.
    apply not_true_iff_false. by apply E.
Qed.

(** No job that could run is left waiting. *)
Definition conserving (m : JobManager) : Prop :=
  m_shutdown m = false → m_running m < maxConcurrent m → ∀ id, id ∈ m_queue m → runnable m id = false.

Lemma dispatchLoop_ok w fuel m :
  inv ∅ w m → bounded m → (length (m_queue m) < fuel)%nat →
  returns (dispatchLoop timeAt fuel m) (λ m', inv ∅ w m' ∧ bounded m' ∧ conserving m' ∧ kept_setting m m' ∧
    started m m').
Proof.
  revert m. induction fuel as [| fuel IH]; intros m Hinv Hb Hf; [lia |]. cbn [dispatchLoop].
  destruct (Z.ltb_spec (m_running m) (maxConcurrent m)) as [Hlim | Hlim]; cbn [andb];
    [| split; [done | split; [done | split; [intros ??; lia | split; [done | apply started_refl]]]]].
  destruct (Z.ltb_spec 0 (len (m_queue m))) as [Hlen | Hlen]; cbn [andb].
  2: { split; [done | split; [done | split; [| split; [done | apply started_refl]]]]. intros _ _ id Hid. destruct (m_queue m); [by apply elem_of_nil in Hid |].
       rewrite len_cons in Hlen. pose proof (len_nonneg l). lia. }
  destruct (m_shutdown m) eqn:Hsd; cbn [negb];
    [split; [done | split; [done | split; [by intros ?; congruence | split; [done | apply started_refl]]]] |].
  pose proof (pop_ok ∅ w m Hinv) as Hpop. destruct (popRunnableQueueLocked m) as [[id m1] |];
    [| split; [done | split; [done | split; [by intros _ _ | split; [done | apply started_refl]]]]].
  destruct Hpop as (Hinv1 & (i & Hi & ->) & Hrun & j & Hj & Hst).
  rewrite (runnable_spec m id j Hj) in Hrun. destruct Hrun as [_ Hfree].
  apply safe_bind. eapply safe_mono.
  { apply (startJobLocked_ok ({[id]} ∪ ∅) w id _ j); mgr; try done. set_solver. }
  intros m2 (Hinv2 & Hb2 & Hq2 & Hst2 & [Kc2 Ks2]).
  replace (({[id]} ∪ ∅) ∖ {[id]}) with (∅ : gset string) in Hinv2 by set_solver.
  eapply safe_mono; [apply (IH m2); try done |].
  - rewrite Hq2. mgr. rewrite length_delete by (by eexists). apply lookup_lt_Some in Hi. lia.
  - intros m3 (? & ? & ? & [Kc Ks] & Hst3). split; [done | split; [done | split; [done | split]]].
    + split; [by rewrite Kc, Kc2 | by rewrite Ks, Ks2].
    + eapply started_trans; [| exact Hst3]. exact Hst2.
Qed.

Lemma dispatchLocked_ok w m : inv ∅ w m → bounded m →
  returns (dispatchLocked timeAt m) (λ m', inv ∅ w m' ∧ bounded m' ∧ conserving m' ∧ kept_setting m m' ∧
    started m m').
Proof. intros. apply dispatchLoop_ok; [done | done | lia]. Qed.

(** *** New jobs *)

Definition newJob (def : JobDefinition) (id : string) (t : Z) : Job :=
  MkJob id (d_Key def) (d_Name def) StatusQueued 0 false false false false "" t t None None None def false.

Lemma newJob_ok def id t : job_ok (newJob def id t).
Proof. pose proof (len_nonneg (d_RetryDelays def)). unfold newJob. solve_job_ok. Qed.

Lemma isIn_fresh (jobs : gmap string Job) id j' x st : jobs !! id = None →
  isIn (<[id := j']> jobs) x st ↔ (x = id ∧ j_Status j' = st) ∨ isIn jobs x st.
Proof.
  intros Hn. rewrite isIn_update. destruct (decide (x = id)) as [-> | Hne]; [| tauto].
  split; [intros [? | [? _]]; tauto |]. intros [? | (j & E & _)]; [tauto | congruence].
Qed.

(** The job and the queue with a new job in it. *)
Lemma enqueue_inv def id m t :
  inv ∅ 0 m → m_jobs m !! id = None → d_Key def ∉ m_activeKeys m → ∀ history,
  let m' := setActiveKeys ({[d_Key def]} ∪ m_activeKeys m)
    (setQueue (m_queue m ++ [id]) (setHistory history (setJobs (<[id := newJob def id t]> (m_jobs m)) m))) in
  history_ok (m_jobs m') history → inv ∅ 0 m'.
Proof.
  intros [I1 I2 I3 I4 I5 I6 I7 I8 I9] Hn Hk history m' Hh. destruct I2 as [P1 P2 P3 P4 P5 P6 P7].
  assert (∀ st, ¬ isIn (m_jobs m) id st) as Hno by (intros st (j & E & _); congruence).
  unfold m'. set (j' := newJob def id t) in *. split; mgr; try done.
  - destruct I1 as [J1 J2]. split.
    + intros x y [[<- <-] | [_ Hy]]%lookup_insert_Some; [split; [done | apply newJob_ok] | by apply J1].
    + intros x1 x2 y1 y2 E1 E2 U1 U2 Hkey.
      apply lookup_insert_Some in E1 as [[<- <-] | [N1 E1]], E2 as [[<- <-] | [N2 E2]]; [done | | |].
      * destruct Hk. apply I3. by exists x2, y2.
      * destruct Hk. apply I3. by exists x1, y1.
      * by apply (J2 x1 x2 y1 y2).
  - split; mgr; try done.
    + apply NoDup_app. split; [done |]. split; [| apply NoDup_singleton].
      intros x Hx ->%list_elem_of_singleton. apply P3 in Hx as [_ Hx]. by apply (Hno StatusQueued).
    + intros x. rewrite elem_of_app, list_elem_of_singleton, P3, (isIn_fresh _ _ _ _ _ Hn). cbn. set_solver.
    + intros x. rewrite P4, (isIn_fresh _ _ _ _ _ Hn). cbn. split; [set_solver | intros [? [[_ ?] | ?]]; done].
    + intros x Hx. rewrite !(isIn_fresh _ _ _ _ _ Hn). destruct (P6 x Hx); auto.
    + intros x. rewrite (isIn_fresh _ _ _ _ _ Hn). intros [[_ ?] | Hs]; [done | by apply P7].
  - intros k. rewrite elem_of_union, elem_of_singleton, (I3 k). split.
    + intros [-> | (x & y & Hy & Hu & Hkey)].
      * exists id, j'. by rewrite lookup_insert_eq.
      * exists x, y. rewrite lookup_insert_ne; [done | congruence].
    + intros (x & y & [[<- <-] | [_ Hy]]%lookup_insert_Some & Hu & Hkey); [by left | right; by exists x, y].
  - assert (id ∉ m_active m) as Hna by (rewrite P4; intros [_ ?]; by apply (Hno StatusRunning)).
    assert (∀ x y, x ∈ m_active m → <[id:=j']> (m_jobs m) !! x = Some y ↔ m_jobs m !! x = Some y) as Hx
      by (intros x y Hx; rewrite lookup_insert_ne; [done | congruence]).
    destruct I4 as [E1 E2]. split.
    + intros k. rewrite E1. split; intros (x & y & Ha & Hy & Hex); exists x, y; (split_and!; [done | by apply Hx | done]).
    + intros x1 x2 y1 y2 k A1 A2 Y1%Hx Y2%Hx; [by apply (E2 x1 x2 y1 y2 k) | done ..].
Qed.

(** [EnqueueDefinition] under a fresh id. *)
Lemma enqueueLocked_ok def id m :
  inv ∅ 0 m → bounded m → m_jobs m !! id = None →
  returns (enqueueLocked timeAt def id m) (λ '(m', r), inv ∅ 0 m' ∧ bounded m' ∧ kept_setting m m' ∧
    match r with
    | inl new => new = id ∧ conserving m' ∧
        ∃ j, m_jobs m' !! id = Some j ∧ j_Key j = d_Key def ∧
             (j_Status j = StatusQueued ∨ j_Status j = StatusRunning)
    | inr e => m' = m ∧ (e = ErrManagerShutdown ∧ m_shutdown m = true ∨
        e = ErrInvalidDefinition ∧ (d_Key def = "" ∨ d_Handler def = false) ∨
        e = ErrJobAlreadyRunning ∧ d_Key def ∈ m_activeKeys m)
    end).
Proof.
  intros Hinv Hb Hn. unfold enqueueLocked.
  destruct (m_shutdown m) eqn:Hsd; [split_and!; auto; by split |].
  destruct (bool_decide (d_Key def = "") || negb (d_Handler def)) eqn:Hdef.
  { split_and!; auto; [by split |]. right. left. split; [done |].
    apply orb_true_iff in Hdef as [?%bool_decide_eq_true | ?%negb_true_iff]; auto. }
  destruct (bool_decide (d_Key def ∈ m_activeKeys m)) eqn:Hk.
  { apply bool_decide_eq_true in Hk. split_and!; auto; by split. }
  apply bool_decide_eq_false in Hk. cbv zeta. fold (newJob def id (now timeAt m)). set (j' := newJob def id _).
  publish. unfold addHistoryLocked, trimHistory, enqueueItemLocked.
  match goal with |- context [trimLoop ?f ?m0 ?h] => destruct (trimLoop_spec m0 f h) as [Hh Hbd] end.
  { done. } { pose proof (iv_settings _ _ _ Hinv). unfold maxHistory in *. mgr. lia. }
  { mgr. pose proof (iv_history _ _ _ Hinv) as [H1 H2 H3]. split.
    - apply NoDup_app. split; [done |]. split; [| apply NoDup_singleton].
      intros x [y Hy]%H2 ->%list_elem_of_singleton. congruence.
    - intros x [Hx | ->%list_elem_of_singleton]%elem_of_app;
        [apply lookup_insert_is_Some'; right; by apply H2 | rewrite lookup_insert_eq; by eexists].
    - intros x y [[<- <-] | [_ Hy]]%lookup_insert_Some Hu; apply elem_of_app.
      + right. by apply list_elem_of_singleton.
      + left. by eapply H3. }
  cbn zeta in Hh, Hbd. mgr. set (history := trimLoop _ _ _) in *. change (j_ID j') with id in *.
  pose proof (enqueue_inv def id m (now timeAt m) Hinv Hn Hk history Hh) as Hinv'. fold j' in Hinv'.
  apply safe_bind. eapply safe_mono; [apply (dispatchLocked_ok 0); [| exact Hbd] |].
  - destruct Hinv' as [I1 I2 I3 I4 I5 I6 I7 I8 I9]. split; try done. destruct I2. by split.
  - intros m' (Hinv'' & Hb'' & Hc & [Kc Ks] & (_ & _ & _ & Hst)). split_and!; try done.
    destruct (Hst id j') as (j & Hj & (_ & Hkey & _) & Hstat); [apply lookup_insert_eq |].
    exists j. split_and!; [done | done |]. destruct Hstat as [-> | [_ ?]]; [by left | by right].
Qed.

(** *** The end of a run *)

Lemma completeActiveLocked_ok id m j :
  inv ∅ 0 m → m_jobs m !! id = Some j → id ∈ m_active m → inv {[id]} 1 (completeActiveLocked j m).
Proof.
  intros Hinv Hj Ha. destruct (inv_job _ _ _ _ _ Hinv Hj) as [<- _].
  destruct Hinv as [I1 I2 I3 I4 I5 I6 I7 I8 I9]. destruct I2 as [P1 P2 P3 P4 P5 P6 P7].
  unfold completeActiveLocked. apply P4 in Ha as Hrun. destruct Hrun as [_ Hrun].
  split; mgr; try done.
  - split; mgr; try done.
    + intros x ->%elem_of_singleton. by right.
    + intros x. rewrite P3. split; intros [_ Hs]; (split; [| done]); [| set_solver].
      intros ->%elem_of_singleton. by pose proof (isIn_fun _ _ _ _ Hrun Hs).
    + intros x. rewrite elem_of_difference, P4. set_solver.
  - by apply excl_ok_complete.
  - rewrite I6, size_remove by done. done.
  - unfold maxConcurrent in *. mgr. lia.
  - rewrite I8, size_remove by done. lia.
Qed.

Lemma standbyLocked_ok hand w id m j e :
  inv hand w m → bounded m → m_jobs m !! id = Some j → id ∈ hand → j_Status j = StatusRunning →
  j_HasAborted j = false → j_RetryCount j < len (d_RetryDelays (j_definition j)) →
  returns (standbyLocked timeAt id (Some e) m) (λ m', inv (hand ∖ {[id]}) w m' ∧ bounded m' ∧
    kept_setting m m' ∧ ∃ j', m_jobs m' = <[id := j']> (m_jobs m) ∧ sameJob j j' ∧
      j_Status j' = StatusStandby ∧ j_RetryCount j' = j_RetryCount j + 1 ∧
      ∃ delay, d_RetryDelays (j_definition j) !! Z.to_nat (j_RetryCount j) = Some delay ∧
        j_NextRunAt j' = Some (now timeAt m + delay)).
Proof.
  intros Hinv Hb Hj Hh Hr Hna Hlen.
  destruct (inv_job _ _ _ _ _ Hinv Hj) as [<- (K1 & K2 & K3 & K4 & K5 & K6)].
  unfold standbyLocked, jobAt. rewrite Hj. run.
  destruct (lookup_lt_is_Some_2 (d_RetryDelays (j_definition j)) (Z.to_nat (j_RetryCount j))) as [delay Hd];
    [unfold len in *; lia |].
  rewrite (idx_lookup _ _ delay) by (done || lia). run. cbv zeta.
  set (j' := MkJob _ _ _ StatusStandby _ _ _ _ _ _ _ _ _ _ _ _ _). publish. unfold ends.
  assert (sameJob j j') as Hsame by done.
  assert (job_ok j') as Hok'.
  { destruct (job_ok_pending j) as (D & F & N); [done | unfold unfinished; by rewrite Hr |].
    unfold job_ok. cbn. rewrite D, F. split_and!; try done; try lia; solve [by eexists | by intros [? ?]]. }
  assert (unfinished j' ↔ unfinished j) as Hun by (unfold unfinished; rewrite Hr; split; intros _; discriminate).
  destruct Hinv as [I1 I2 I3 I4 I5 I6 I7 I8 I9]. pose proof I2 as [P1 P2 P3 P4 P5 P6 P7].
  assert (j_ID j ∉ m_active m) as Ha by (rewrite P4; tauto).
  assert (j_ID j ∉ m_queue m) as Hnq by (rewrite P3; tauto).
  assert (j_ID j ∉ m_timers m) as Hnt.
  { intros [Hi | Hi]%P6; pose proof (isIn_fun _ _ _ _ Hi (isIn_job _ _ _ Hj)); congruence. }
  split; [| split; [eapply (bounded_update m _ (j_ID j) j'); done | split; [by split |]]].
  - split; mgr; try done.
    + by apply (jobs_ok_update _ _ j j'); try done; apply Hun.
    + apply (placed_update hand _ m _ (j_ID j) j'); mgr; try done.
      * apply NoDup_app. split; [done |]. split; [| apply NoDup_singleton]. intros x Hx ->%list_elem_of_singleton. done.
      * intros x Hx. set_solver.
      * set_solver.
      * split; [done | by intros [_ ?]].
      * split; [done | by intros [_ ?]].
      * intros _. by left.
      * intros _. left. set_solver.
    + by apply (keys_ok_update _ _ _ j j').
    + by apply (excl_ok_update _ _ _ _ j j').
    + by apply (history_ok_update _ _ _ j j'); try done; apply Hun.
    + rewrite I8, len_app. change (len [j_ID j]) with 1. lia.
  - exists j'. split_and!; try done. by exists delay.
Qed.

(** The goroutine of a run ends: its job waits for a retry or is finished, and
    whatever its end made runnable is running. *)
Lemma runEnd_ok id err m j :
  inv ∅ 0 m → bounded m → m_jobs m !! id = Some j → id ∈ m_active m →
  returns (runEnd timeAt id err m) (λ m', inv ∅ 0 m' ∧ bounded m' ∧ conserving m' ∧ kept_setting m m' ∧
    ∃ j', m_jobs m' !! id = Some j' ∧ j_Key j' = j_Key j ∧
      j_Status j' = if negb (j_HasAborted j) && shouldRetryLocked j err m then StatusStandby else StatusFinished).
Proof.
  intros Hinv Hb Hj Ha. pose proof (completeActiveLocked_ok id m j Hinv Hj Ha) as H1.
  assert (j_Status j = StatusRunning) as Hr.
  { apply (pl_active _ _ (iv_placed _ _ _ Hinv)) in Ha as [_ Hi]. by apply (isIn_fun _ _ _ _ (isIn_job _ _ _ Hj)). }
  destruct (inv_job _ _ _ _ _ Hinv Hj) as [Hid (K1 & K2 & K3 & _)].
  unfold runEnd, jobAt. rewrite Hj. run. set (m1 := completeActiveLocked j m) in *.
  assert (shouldRetryLocked j err m1 = shouldRetryLocked j err m) as -> by done.
  assert (bounded m1) as Hb1 by by apply (bounded_same m).
  assert (m_jobs m1 !! id = Some j) as Hj1 by done.
  set (retry := negb (j_HasAborted j) && shouldRetryLocked j err m).
  apply safe_bind, (safe_mono _ (λ m2, inv ∅ 1 m2 ∧ bounded m2 ∧ kept_setting m m2 ∧
    ∃ j', m_jobs m2 = <[id := j']> (m_jobs m) ∧ sameJob j j' ∧
      j_Status j' = if retry then StatusStandby else StatusFinished)).
  - assert (({[id]} : gset string) ∖ {[id]} = ∅) as Hset by set_solver. destruct retry eqn:Hretry.
    + unfold retry in Hretry. apply andb_true_iff in Hretry as [Hna%negb_true_iff Hs].
      unfold shouldRetryLocked in Hs. destruct err as [e |]; [| done].
      destruct (_ || _ || _) eqn:Hor; [done |]. bools.
      eapply safe_mono; [apply (standbyLocked_ok {[id]} 1 id m1 j e); done || set_solver |].
      rewrite Hset. intros m2 (? & ? & [? ?] & j' & ? & ? & ? & _). split_and!; try done. by exists j'.
    + assert (m1 = setJobs (<[id := j]> (m_jobs m1)) m1) as Heq by (rewrite insert_id by done; by destruct m).
      rewrite Heq. eapply safe_mono.
      { apply (finishLocked_ok {[id]} 1 id err (j_HasAborted j) m1 j j); try done; [unfold unfinished; by rewrite Hr | set_solver]. }
      rewrite Hset. intros m2 (? & ? & _ & _ & _ & [? ?] & _ & j' & ? & ? & ? & _). split_and!; try done. by exists j'.
  - intros m2 (Hinv2 & Hb2 & [Kc2 Ks2] & j' & Hm2 & (_ & Hkey & _) & Hst).
    apply safe_bind. eapply safe_mono; [by apply (dispatchLocked_ok 1) |].
    intros m3 (Hinv3 & Hb3 & Hc3 & [Kc3 Ks3] & _ & _ & _ & Hstart). unfold ends. split_and!.
    + destruct Hinv3 as [I1 I2 I3 I4 I5 I6 I7 I8 I9]. split; mgr; try done; [by destruct I2; split |]. lia.
    + by apply (bounded_same m3).
    + exact Hc3.
    + split; mgr; congruence.
    + destruct (Hstart id j') as (j'' & Hj'' & (_ & Hkey' & _) & Hs); [by rewrite Hm2, lookup_insert_eq |].
      exists j''. mgr. split_and!; [done | congruence |]. destruct Hs as [-> | [Hq _]]; [done |].
      rewrite Hst in Hq. by destruct retry.
Qed.

(** *** Retries *)

Lemma removeFirst_spec id l : NoDup l → id ∈ l →
  NoDup (removeFirst id l) ∧ (∀ x, x ∈ removeFirst id l ↔ x ∈ l ∧ x ≠ id) ∧ len (removeFirst id l) = len l - 1.
Proof.
  intros Hnd Hin. unfold removeFirst.
  destruct (list_find (λ x, x = id) l) as [[i y] |] eqn:E.
  - apply list_find_Some in E as (Hi & -> & _). split_and!.
    + by apply NoDup_delete.
    + intros x. by apply elem_of_delete_nodup.
    + unfold len. rewrite length_delete by (by eexists). apply lookup_lt_Some in Hi. lia.
  - apply list_find_None in E. rewrite Forall_forall in E. by destruct (E id Hin).
Qed.

(** A retry goroutine is over: its job no longer waits, or shutdown has begun. *)
Lemma timer_gone id m : inv ∅ 0 m → id ∈ m_timers m →
  (isIn (m_jobs m) id StatusStandby → m_shutdown m = true) →
  inv ∅ 1 (setTimers (removeFirst id (m_timers m)) m).
Proof.
  intros [I1 I2 I3 I4 I5 I6 I7 I8 I9] Hin Hst. destruct I2 as [P1 P2 P3 P4 P5 P6 P7].
  destruct (removeFirst_spec id (m_timers m) P5 Hin) as (R1 & R2 & R3). split; mgr; try done.
  - split; mgr; try done.
    + intros x [Hx _]%R2. by apply P6.
    + intros x Hx. rewrite R2. destruct (decide (x = id)) as [-> | Hne]; [right; by apply Hst |].
      destruct (P7 x Hx); auto.
  - lia.
Qed.

Lemma inv_wg w m : inv ∅ (w + 1) m → inv ∅ w (setWg (m_wg m - 1) m).
Proof.
  intros [I1 I2 I3 I4 I5 I6 I7 I8 I9]. split; mgr; try done; [by destruct I2; split |]. lia.
Qed.

Lemma retryToQueueLocked_ok id m j (m1 := setTimers (removeFirst id (m_timers m)) m) :
  inv ∅ 0 m → bounded m → m_jobs m !! id = Some j → id ∈ m_timers m → j_Status j = StatusStandby →
  returns (retryToQueueLocked timeAt id m1) (λ m', inv ∅ 1 m' ∧ bounded m' ∧ kept_setting m m' ∧
    ∃ j', m_jobs m' = <[id := j']> (m_jobs m) ∧ sameJob j j' ∧ j_Status j' = StatusQueued).
Proof.
  intros Hinv Hb Hj Ht Hr.
  destruct (inv_job _ _ _ _ _ Hinv Hj) as [<- (K1 & K2 & K3 & K4 & K5 & K6)].
  unfold retryToQueueLocked, jobAt. change (m_jobs m1) with (m_jobs m). rewrite Hj. run. cbv zeta.
  set (j' := MkJob _ _ _ StatusQueued _ _ _ _ _ _ _ _ _ _ _ _ _). unfold m1. publish. unfold enqueueItemLocked, ends.
  assert (sameJob j j') as Hsame by done.
  assert (job_ok j') as Hok'.
  { destruct (job_ok_pending j) as (D & F & _); [done | unfold unfinished; by rewrite Hr |].
    unfold job_ok. cbn. rewrite D, F. split_and!; try done; try lia; by intros [? ?]. }
  assert (unfinished j' ↔ unfinished j) as Hun by (unfold unfinished; rewrite Hr; split; intros _; discriminate).
  destruct Hinv as [I1 I2 I3 I4 I5 I6 I7 I8 I9]. pose proof I2 as [P1 P2 P3 P4 P5 P6 P7].
  destruct (removeFirst_spec _ _ P5 Ht) as (R1 & R2 & R3).
  assert (∀ st, isIn (m_jobs m) (j_ID j) st → st = StatusStandby) as Hst
    by (intros st Hi; rewrite <- Hr; by apply (isIn_fun _ _ _ _ Hi), isIn_job).
  assert (j_ID j ∉ m_active m) as Ha by (rewrite P4; intros [_ Hi]; by apply Hst in Hi).
  assert (j_ID j ∉ m_queue m) as Hnq by (rewrite P3; intros [_ Hi]; by apply Hst in Hi).
  split; [| split; [eapply (bounded_update m _ (j_ID j) j'); done | split; [by split |]]].
  - split; mgr; try done.
    + by apply (jobs_ok_update _ _ j j'); try done; apply Hun.
    + apply (placed_update ∅ _ m _ (j_ID j) j'); mgr; try done.
      * apply NoDup_app. split; [done |]. split; [| apply NoDup_singleton]. intros x Hx ->%list_elem_of_singleton. done.
      * intros x Hx. rewrite elem_of_app, list_elem_of_singleton, R2. set_solver.
      * split; [intros _; by split; [set_solver |] | set_solver].
      * split; [done | by intros [_ ?]].
      * intros [_ ?]%R2. done.
    + by apply (keys_ok_update _ _ _ j j').
    + by apply (excl_ok_update _ _ _ _ j j').
    + by apply (history_ok_update _ _ _ j j'); try done; apply Hun.
    + lia.
  - by exists j'.
Qed.

(** A retry timer fires: unless it was aborted or shutdown has begun, the job is
    in the queue again or already running. *)
Lemma timerFires_ok id m j :
  inv ∅ 0 m → bounded m → m_jobs m !! id = Some j → id ∈ m_timers m →
  returns (timerFires timeAt id m) (λ m', inv ∅ 0 m' ∧ bounded m' ∧ kept_setting m m' ∧
    ∃ j', m_jobs m' !! id = Some j' ∧ j_Key j' = j_Key j ∧
      if bool_decide (j_Status j = StatusStandby) && negb (m_shutdown m)
      then conserving m' ∧ (j_Status j' = StatusQueued ∨ j_Status j' = StatusRunning)
      else j' = j ∧ m' = timerStops id m).
Proof.
  intros Hinv Hb Hj Ht. destruct (inv_job _ _ _ _ _ Hinv Hj) as [_ (_ & _ & _ & _ & _ & K6)].
  unfold timerFires, jobAt. rewrite Hj. run. set (m1 := setTimers _ m).
  change (m_shutdown m1) with (m_shutdown m).
  destruct (negb (bool_decide (j_Status j = StatusStandby)) || j_HasAborted j || m_shutdown m) eqn:Hskip.
  - run. assert (bool_decide (j_Status j = StatusStandby) && negb (m_shutdown m) = false) as ->.
    { destruct (bool_decide_reflect (j_Status j = StatusStandby)) as [Hs | Hs]; [| done].
      rewrite (K6 Hs) in Hskip. cbn in Hskip. by rewrite Hskip. }
    split_and!; try done; [| by exists j]. apply (inv_wg 0 m1). apply timer_gone; [done | done |].
    intros Hi. pose proof (isIn_fun _ _ _ _ Hi (isIn_job _ _ _ Hj)) as Hs. symmetry in Hs.
    rewrite bool_decide_eq_true_2, (K6 Hs) in Hskip by done. exact Hskip.
  - bools. apply bool_decide_eq_true in H. rewrite bool_decide_eq_true_2 by done.
    destruct (m_shutdown m) eqn:Hsd; [done |]. cbn [andb negb].
    apply safe_bind, safe_bind. eapply safe_mono; [by apply (retryToQueueLocked_ok id m j) |].
    intros m2 (Hinv2 & Hb2 & [Kc2 Ks2] & j' & Hm2 & (_ & Hkey & _) & Hst).
    eapply safe_mono; [by apply (dispatchLocked_ok 1) |].
    intros m3 (Hinv3 & Hb3 & Hc3 & [Kc3 Ks3] & _ & _ & _ & Hstart). unfold ends.
    destruct (Hstart id j') as (j'' & Hj'' & (_ & Hkey' & _) & Hs); [by rewrite Hm2, lookup_insert_eq |].
    split; [by apply (inv_wg 0 m3) | split; [by apply (bounded_same m3) | split; [split; mgr; congruence |]]].
    exists j''. split_and!; [done | congruence | exact Hc3 |]. destruct Hs as [-> | [_ ?]]; auto.
Qed.

Lemma timerStops_ok id m : inv ∅ 0 m → bounded m → id ∈ m_timers m → m_shutdown m = true →
  inv ∅ 0 (timerStops id m) ∧ bounded (timerStops id m).
Proof.
  intros Hinv Hb Ht Hs. split; [| by apply (bounded_same m)].
  apply (inv_wg 0 (setTimers (removeFirst id (m_timers m)) m)). by apply timer_gone.
Qed.

(** *** Aborting *)

Lemma abortPendingLocked_ok hand w id m0 j0 j (m := setJobs (<[id := j]> (m_jobs m0)) m0) :
  inv hand w m0 → m_jobs m0 !! id = Some j0 → flagged j0 j → unfinished j0 →
  id ∈ hand ∨ j_Status j0 = StatusStandby →
  returns (abortPendingLocked timeAt id m) (λ m', inv (hand ∖ {[id]}) w m' ∧ bounded m' ∧
    m_queue m' = m_queue m0 ∧ m_active m' = m_active m0 ∧ m_timers m' = m_timers m0 ∧ kept_setting m0 m' ∧
    (len (m_history m0) ≤ maxHistory m0 → m_history m' = m_history m0) ∧
    ∃ j', m_jobs m' = <[id := j']> (m_jobs m0) ∧ sameJob j0 j' ∧ j_Status j' = StatusFinished ∧
      j_HasAborted j' = true).
Proof.
  intros Hinv Hj0 ((S1 & S2 & S3) & F2 & F3 & F4) Hu Hplace.
  destruct (inv_job _ _ _ _ _ Hinv Hj0) as [Hid _].
  unfold abortPendingLocked, jobAt. change (m_jobs m) with (<[id := j]> (m_jobs m0)). rewrite lookup_insert_eq. run.
  cbv zeta. set (j1 := setAborting _ _ j).
  assert (putJob j1 m = setJobs (<[id := j1]> (m_jobs m0)) m0) as ->.
  { unfold putJob. change (j_ID j1) with (j_ID j). rewrite S1, Hid. unfold m. mgr. by rewrite insert_insert_eq. }
  eapply safe_mono; [apply (finishLocked_ok hand w id (Some Canceled) true m0 j0 j1); done |].
  intros m' (? & ? & ? & ? & ? & ? & ? & j' & ? & ? & ? & Ha). split_and!; try done.
  exists j'. split_and!; try done. rewrite Ha. apply orb_true_r.
Qed.

Lemma setJobs_id m id j : m_jobs m !! id = Some j → setJobs (<[id := j]> (m_jobs m)) m = m.
Proof. intros Hj. rewrite insert_id by done. by destruct m. Qed.

Lemma flagged_refl j : flagged j j.
Proof. done. Qed.

Lemma abortActiveLocked_ok id m j :
  inv ∅ 0 m → bounded m → m_jobs m !! id = Some j → id ∈ m_active m →
  let '(m', aborted) := abortActiveLocked timeAt id m in aborted = true ∧
    inv ∅ 0 m' ∧ bounded m' ∧ kept_setting m m' ∧ id ∈ m_cancelled m' ∧
    ∃ j', m_jobs m' = <[id := j']> (m_jobs m) ∧ sameJob j j' ∧ j_Status j' = StatusRunning ∧ j_HasAborted j' = true.
Proof.
  intros Hinv Hb Hj Ha. destruct (inv_job _ _ _ _ _ Hinv Hj) as [<- (K1 & K2 & K3 & K4 & K5 & K6)].
  unfold abortActiveLocked. rewrite bool_decide_eq_true_2 by done. split; [done |].
  destruct Hinv as [I1 I2 I3 I4 I5 I6 I7 I8 I9]. pose proof I2 as [P1 P2 P3 P4 P5 P6 P7].
  assert (j_Status j = StatusRunning) as Hr
    by (apply P4 in Ha as [_ Hi]; by apply (isIn_fun _ _ _ _ (isIn_job _ _ _ Hj))).
  assert (findJob (j_ID j) m = Some j) as ->.
  { unfold findJob. rewrite bool_decide_eq_true_2; [done |]. apply (hi_kept _ _ I5 _ j); [done |].
    unfold unfinished. by rewrite Hr. }
  cbv zeta. set (j' := setAborting _ _ j). publish.
  assert (sameJob j j') as Hsame by done.
  assert (job_ok j') as Hok'.
  { split; [done | split; [done | split; [done | split; [done | split; [done |]]]]].
    change (j_Status j') with (j_Status j). by rewrite Hr. }
  assert (unfinished j' ↔ unfinished j) as Hun by done.
  assert (j_ID j ∉ m_queue m) as Hnq by (rewrite P3; intros [_ Hi]; by pose proof (isIn_fun _ _ _ _ Hi (isIn_job _ _ _ Hj)); congruence).
  assert (j_ID j ∉ m_timers m) as Hnt.
  { intros [Hi | Hi]%P6; pose proof (isIn_fun _ _ _ _ Hi (isIn_job _ _ _ Hj)); congruence. }
  split; [| split; [eapply (bounded_update m _ (j_ID j) j'); try done; cbn; by rewrite Hr | split; [by split | split]]].
  - split; mgr; try done.
    + by apply (jobs_ok_update _ _ j j'); try done; apply Hun.
    + apply (placed_update ∅ _ m _ (j_ID j) j'); mgr; try done; cbn; rewrite Hr; try done.
      * split; [done | by intros [_ ?]].
    + by apply (keys_ok_update _ _ _ j j').
    + by apply (excl_ok_update _ _ _ _ j j').
    + by apply (history_ok_update _ _ _ j j'); try done; apply Hun.
  - mgr. set_solver.
  - exists j'. by split_and!.
Qed.

(** What [Abort] does to a job, by its state. *)
Definition aborts (id : string) (j : Job) (m m' : JobManager) (r : option JobError) : Prop :=
  match j_Status j with
  | StatusFinished => m' = m ∧ r = Some ErrJobNotRunning
  | StatusRunning => r = None ∧ id ∈ m_cancelled m' ∧ ∃ j', m_jobs m' = <[id := j']> (m_jobs m) ∧
      sameJob j j' ∧ j_Status j' = StatusRunning ∧ j_HasAborted j' = true
  | StatusQueued | StatusStandby => r = None ∧ ∃ j', m_jobs m' = <[id := j']> (m_jobs m) ∧
      sameJob j j' ∧ j_Status j' = StatusFinished ∧ j_HasAborted j' = true
  end.

Lemma Abort_ok id m : inv ∅ 0 m → bounded m →
  returns (Abort timeAt id m) (λ '(m', r), inv ∅ 0 m' ∧ bounded m' ∧ kept_setting m m' ∧
    match m_jobs m !! id with
    | Some j => aborts id j m m' r
    | None => m' = m ∧ r = Some ErrJobNotRunning
    end).
Proof.
  intros Hinv Hb. pose proof (iv_placed _ _ _ Hinv) as [P1 P2 P3 P4 P5 P6 P7].
  pose proof (iv_history _ _ _ Hinv) as [Q1 Q2 Q3].
  assert (∀ j, m_jobs m !! id = Some j → (id ∈ m_active m ↔ j_Status j = StatusRunning) ∧
    (id ∈ m_queue m ↔ j_Status j = StatusQueued)) as Hwhere.
  { intros j Hj. rewrite P3, P4. split; (split; [intros [_ Hi]; by apply (isIn_fun _ _ _ _ (isIn_job _ _ _ Hj)) |]);
      intros <-; (split; [set_solver | by apply isIn_job]). }
  unfold Abort. destruct (decide (id ∈ m_active m)) as [Ha | Ha].
  { destruct (proj1 (P4 id) Ha) as (_ & j & Hj & _).
    pose proof (abortActiveLocked_ok id m j Hinv Hb Hj Ha) as Habort.
    destruct (abortActiveLocked timeAt id m) as [m' aborted]. destruct Habort as (-> & ? & ? & ? & ? & ?).
    rewrite Hj. unfold ends, aborts. rewrite (proj1 (proj1 (Hwhere j Hj)) Ha). by split_and!. }
  unfold abortActiveLocked. rewrite bool_decide_eq_false_2 by done.
  unfold abortQueuedLocked. destruct (list_find (λ x, x = id) (m_queue m)) as [[i y] |] eqn:E.
  { apply list_find_Some in E as (Hi & -> & _).
    assert (id ∈ m_queue m) as Hq by by eapply list_elem_of_lookup_2.
    destruct (proj1 (P3 id) Hq) as (_ & j & Hj & Hst). rewrite Hj.
    set (m1 := setQueue (delete i (m_queue m)) m).
    assert (inv {[id]} 0 m1) as Hinv1.
    { destruct Hinv as [I1 I2 I3 I4 I5 I6 I7 I8 I9]. split; mgr; try done. split; unfold m1; mgr; try done.
      - intros x ->%elem_of_singleton. left. by exists j.
      - by apply NoDup_delete.
      - intros x. rewrite (elem_of_delete_nodup _ _ _ _ P2 Hi), P3. set_solver.
      - intros x. rewrite P4, not_elem_of_singleton. split; [intros [? Hr] | intros [_ ?]; by split; [set_solver |]].
        split; [| done]. intros ->. pose proof (isIn_fun _ _ _ _ Hr (isIn_job _ _ _ Hj)). congruence. }
    pose proof (abortPendingLocked_ok {[id]} 0 id m1 j j Hinv1 Hj (flagged_refl j)) as Habort.
    rewrite (setJobs_id m1 id j Hj) in Habort.
    apply safe_bind, safe_bind. eapply safe_mono.
    { apply Habort; [unfold unfinished; by rewrite Hst | left; set_solver]. }
    replace (({[id]} : gset string) ∖ {[id]}) with (∅ : gset string) by set_solver.
    intros m' (? & ? & _ & _ & _ & [? ?] & _ & ?). unfold ends, aborts. rewrite Hst. by split_and!. }
  apply list_find_None in E. rewrite Forall_forall in E.
  assert (id ∉ m_queue m) as Hq by (intros Hq; by apply (E id)).
  run. unfold abortStandbyLocked, findJob. destruct (bool_decide (id ∈ m_history m)) eqn:Hh.
  2: { run. split_and!; try done. destruct (m_jobs m !! id) as [j |] eqn:Hj; [| done]. unfold aborts.
       apply bool_decide_eq_false in Hh.
       destruct (decide (j_Status j = StatusFinished)) as [-> | Hu]; [done |]. by destruct Hh; eapply Q3. }
  destruct (m_jobs m !! id) as [j |] eqn:Hj; [| by run]. destruct (Hwhere j eq_refl) as [H1 H2].
  destruct (bool_decide_reflect (j_Status j = StatusStandby)) as [Hst | Hst]; cbn [negb].
  2: { run. unfold aborts. split_and!; try done. destruct (j_Status j); try done; [by destruct Hq; apply H2 | by destruct Ha; apply H1]. }
  destruct (inv_job _ _ _ _ _ Hinv Hj) as [Hid _].
  pose proof (abortPendingLocked_ok ∅ 0 id m j (setHasAborted j) Hinv Hj) as Habort.
  unfold putJob. change (j_ID (setHasAborted j)) with (j_ID j). rewrite Hid.
  apply safe_bind, safe_bind. eapply safe_mono.
  { apply Habort; [done | unfold unfinished; by rewrite Hst | by right]. }
  replace ((∅ : gset string) ∖ {[id]}) with (∅ : gset string) by set_solver.
  intros m' (? & ? & _ & _ & _ & [? ?] & _ & ?). unfold ends, aborts. rewrite Hst. by split_and!.
Qed.

(** *** Shutdown *)

(** Aborting the jobs in hand, one after the other. *)
Lemma abortAll_ok l : ∀ m, NoDup l → inv (list_to_set l) 0 m → bounded m →
  (∀ id, id ∈ l → isIn (m_jobs m) id StatusQueued) →
  returns (foldM (λ m id, abortPendingLocked timeAt id m) l m) (λ m', inv ∅ 0 m' ∧ bounded m' ∧
    m_queue m' = m_queue m ∧ m_active m' = m_active m ∧ kept_setting m m' ∧
    (len (m_history m) ≤ maxHistory m → m_history m' = m_history m)).
Proof.
  induction l as [| id l IH]; intros m Hnd Hinv Hb Hq; cbn [foldM].
  - by split_and!.
  - apply NoDup_cons in Hnd as [Hid Hnd]. destruct (Hq id) as (j & Hj & Hst); [by left |].
    pose proof (abortPendingLocked_ok _ 0 id m j j Hinv Hj (flagged_refl j)) as Habort.
    rewrite (setJobs_id m id j Hj) in Habort. apply safe_bind. eapply safe_mono.
    { apply Habort; [unfold unfinished; by rewrite Hst | left; set_solver]. }
    intros m1 (Hinv1 & Hb1 & Hq1 & Ha1 & _ & [Kc Ks] & Hh1 & j' & Hm1 & _).
    replace (list_to_set (id :: l) ∖ {[id]}) with (list_to_set l : gset string) in Hinv1 by set_solver.
    eapply safe_mono; [apply IH; try done |].
    + intros x Hx. rewrite Hm1, isIn_update. right. split; [congruence | apply Hq; by right].
    + intros m2 (? & ? & Hq2 & Ha2 & [Kc2 Ks2] & Hh2). split_and!; try done; try congruence.
      * split; congruence.
      * intros Hlen. rewrite Hh2, Hh1; [done | done |]. rewrite Hh1 by done. unfold maxHistory in *. by rewrite Kc.
Qed.

Lemma hasStatus_spec st id m : hasStatus st id m = true ↔ isIn (m_jobs m) id st.
Proof.
  unfold hasStatus, isIn. destruct (m_jobs m !! id) as [j |].
  - rewrite bool_decide_eq_true. split; [by exists j | by intros (? & [= ->] & ?)].
  - split; [done | by intros (? & ? & _)].
Qed.

Lemma abortStandbyLoop_ok n : ∀ i arr m, inv ∅ 0 m → bounded m →
  returns (abortStandbyLoop timeAt n i arr m) (λ m', inv ∅ 0 m' ∧ bounded m' ∧
    m_queue m' = m_queue m ∧ m_active m' = m_active m ∧ kept_setting m m').
Proof.
  induction n as [| n IH]; intros i arr m Hinv Hb; cbn [abortStandbyLoop]; [by split_and! |].
  destruct (arr !! i) as [id |]; [| by split_and!].
  destruct (hasStatus StatusStandby id m) eqn:Hst; [| by apply IH].
  apply hasStatus_spec in Hst as (j & Hj & Hst).
  pose proof (abortPendingLocked_ok _ 0 id m j j Hinv Hj (flagged_refl j)) as Habort.
  rewrite (setJobs_id m id j Hj) in Habort. apply safe_bind. eapply safe_mono.
  { apply Habort; [unfold unfinished; by rewrite Hst | by right]. }
  replace ((∅ : gset string) ∖ {[id]}) with (∅ : gset string) by set_solver.
  intros m1 (Hinv1 & Hb1 & Hq1 & Ha1 & _ & [Kc Ks] & _).
  eapply safe_mono; [by apply IH |]. intros m2 (? & ? & Hq2 & Ha2 & [Kc2 Ks2]).
  split_and!; try done; try congruence. split; congruence.
Qed.

(** While the history stays as it is, the loop reaches every job. *)
Lemma abortStandbyLoop_all n : ∀ i m, inv ∅ 0 m → bounded m → len (m_history m) ≤ maxHistory m →
  (i + n = length (m_history m))%nat →
  (∀ k id, (k < i)%nat → m_history m !! k = Some id → ¬ isIn (m_jobs m) id StatusStandby) →
  returns (abortStandbyLoop timeAt n i (m_history m) m) (λ m', ∀ id, ¬ isIn (m_jobs m') id StatusStandby).
Proof.
  induction n as [| n IH]; intros i m Hinv Hb Hlen Hin Hdone; cbn [abortStandbyLoop].
  - intros id (j & Hj & Hst).
    assert (id ∈ m_history m) as Hh by (eapply (hi_kept _ _ (iv_history _ _ _ Hinv)); [done | unfold unfinished; by rewrite Hst]).
    apply list_elem_of_lookup_1 in Hh as [k Hk]. apply (Hdone k id); [apply lookup_lt_Some in Hk; lia | done | by exists j].
  - destruct (lookup_lt_is_Some_2 (m_history m) i) as [id Hi]; [lia |]. rewrite Hi.
    destruct (hasStatus StatusStandby id m) eqn:Hst.
    + apply hasStatus_spec in Hst as (j & Hj & Hst).
      pose proof (abortPendingLocked_ok _ 0 id m j j Hinv Hj (flagged_refl j)) as Habort.
      rewrite (setJobs_id m id j Hj) in Habort. apply safe_bind. eapply safe_mono.
      { apply Habort; [unfold unfinished; by rewrite Hst | by right]. }
      replace ((∅ : gset string) ∖ {[id]}) with (∅ : gset string) by set_solver.
      intros m1 (Hinv1 & Hb1 & _ & _ & _ & [Kc _] & Hh1 & j' & Hm1 & _ & Hst' & _). specialize (Hh1 Hlen).
      rewrite Hh1, drop_all, app_nil_r. rewrite <- Hh1.
      apply IH; [done | done | unfold maxHistory in *; by rewrite Hh1, Kc | rewrite Hh1; lia |].
      intros k x Hk. rewrite Hh1, Hm1, isIn_update. intros Hx [[_ Hs] | [Hne Hs]]; [by rewrite Hst' in Hs |].
      destruct (decide (k = i)) as [-> | Hki]; [congruence |]. apply (Hdone k x); [lia | done | done].
    + apply IH; try done; [lia |]. intros k x Hk Hx Hs.
      destruct (decide (k = i)) as [-> | Hki].
      * replace x with id in Hs by congruence. apply hasStatus_spec in Hs. congruence.
      * apply (Hdone k x); [lia | done | done].
Qed.

Lemma shutdownLocked_ok m : inv ∅ 0 m → bounded m →
  returns (shutdownLocked timeAt m) (λ m', inv ∅ 0 m' ∧ bounded m' ∧ m_queue m' = [] ∧
    m_active m' = m_active m ∧ m_active m ⊆ m_cancelled m' ∧ kept_setting m m' ∧
    (len (m_history m) ≤ maxHistory m → ∀ id, ¬ isIn (m_jobs m') id StatusStandby)).
Proof.
  intros Hinv Hb. unfold shutdownLocked, abortQueuedAndStandbyLocked.
  apply safe_bind, safe_bind. eapply safe_mono.
  { apply (abortAll_ok (m_queue m) (setQueue [] m)).
    - apply Hinv.
    - destruct Hinv as [I1 I2 I3 I4 I5 I6 I7 I8 I9]. destruct I2 as [P1 P2 P3 P4 P5 P6 P7].
      split; mgr; try done. split; mgr; try done.
      + intros x [_ Hx]%elem_of_list_to_set%P3. by left.
      + apply NoDup_nil_2.
      + intros x. rewrite elem_of_list_to_set, P3. set_solver.
      + intros x. rewrite P4, elem_of_list_to_set, P3. split; [| set_solver]. intros [? Hr]. split; [| done].
        intros [_ Hq]. by pose proof (isIn_fun _ _ _ _ Hr Hq).
    - by apply (bounded_same m).
    - intros x Hx. by apply (pl_queue _ _ (iv_placed _ _ _ Hinv)). }
  intros m1 (Hinv1 & Hb1 & Hq1 & Ha1 & [Kc Ks] & Hh1).
  pose proof (abortStandbyLoop_ok (length (m_history m1)) 0 (m_history m1) m1 Hinv1 Hb1) as Hloop.
  pose proof (abortStandbyLoop_all (length (m_history m1)) 0 m1 Hinv1 Hb1) as Hall.
  destruct (abortStandbyLoop _ _ _ _ m1) as [m2 | | |]; try done.
  destruct Hloop as (Hinv2 & Hb2 & Hq2 & Ha2 & [Kc2 Ks2]). unfold ends. split_and!.
  - destruct Hinv2 as [I1 I2 I3 I4 I5 I6 I7 I8 I9]. split; mgr; try done. by destruct I2; split.
  - by apply (bounded_same m2).
  - mgr. by rewrite Hq2, Hq1.
  - mgr. by rewrite Ha2, Ha1.
  - mgr. rewrite Ha2, Ha1. mgr. set_solver.
  - split; mgr; [by rewrite Kc2, Kc | by rewrite Ks2, Ks].
  - intros Hlen. mgr. unfold maxHistory in *. revert Hh1. mgr. intros Hh1. specialize (Hh1 Hlen).
    apply Hall; [by rewrite Hh1, Kc | lia | intros; lia].
Qed.

(** *** The other entry points *)

Lemma NewManager_ok cfg : inv ∅ 0 (NewManager cfg) ∧ bounded (NewManager cfg).
Proof.
  assert (0 < maxHistory (NewManager cfg) ∧ 0 < maxConcurrent (NewManager cfg)) as [Hh Hc].
  { unfold maxHistory, maxConcurrent, NewManager. cbn.
    destruct (Z.leb_spec (MaxHistory cfg) 0), (Z.leb_spec (MaxConcurrentJobs cfg) 0); lia. }
  split; [| left; unfold len; cbn [m_history NewManager length]; lia].
  assert (∀ id st, ¬ isIn (∅ : gmap string Job) id st) as Hno by (intros id st (j & E & _); by rewrite lookup_empty in E).
  split; [by split | | | | | | | |]; unfold NewManager; mgr; try done.
  - split; mgr; try set_solver; try apply NoDup_nil_2; naive_solver set_solver.
  - intros k. split; [set_solver | intros (id & j & E & _); by rewrite lookup_empty in E].
  - split; [intros k; split; [set_solver | intros (id & j & E & _); set_solver] | set_solver].
  - split; [apply NoDup_nil_2 | set_solver | intros id j E; by rewrite lookup_empty in E].
  - exact (Z.lt_le_incl _ _ Hc).
Qed.

Lemma Register_ok def m : inv ∅ 0 m → bounded m → inv ∅ 0 (Register def m) ∧ bounded (Register def m).
Proof.
  intros [I1 I2 I3 I4 I5 I6 I7 I8 I9] Hb. split; [| by apply (bounded_same m)].
  unfold Register. split; mgr; try done. by destruct I2; split.
Qed.

Lemma shutdownCancel_ok m : inv ∅ 0 m → bounded m → inv ∅ 0 (shutdownCancel m) ∧ bounded (shutdownCancel m).
Proof.
  intros [I1 I2 I3 I4 I5 I6 I7 I8 I9] Hb. split; [| by apply (bounded_same m)].
  unfold shutdownCancel. split; mgr; try done. destruct I2. split; mgr; try done. by right.
Qed.

(** What every entry point that may enqueue does: an accepted job leaves the
    manager without idle capacity, a rejected one leaves it alone. *)
Definition enqueues (m m' : JobManager) (ok : bool) : Prop :=
  inv ∅ 0 m' ∧ bounded m' ∧ if ok then conserving m' else m' = m.

Lemma enqueueLocked_enqueues def id m :
  inv ∅ 0 m → bounded m → m_jobs m !! id = None →
  returns (enqueueLocked timeAt def id m) (λ '(m', r), enqueues m m' (match r with inl _ => true | inr _ => false end)).
Proof.
  intros. eapply safe_mono; [by apply enqueueLocked_ok |].
  intros [m' [new | e]] (I & B & _ & H'); (split; [done | split; [done |]]); apply H'.
Qed.

Lemma Enqueue_enqueues key id m :
  inv ∅ 0 m → bounded m → m_jobs m !! id = None →
  returns (Enqueue timeAt key id m) (λ '(m', r), enqueues m m' (match r with inl _ => true | inr _ => false end)).
Proof.
  intros. unfold Enqueue. destruct (m_definitions m !! key); [by apply enqueueLocked_enqueues | by split].
Qed.

Lemma wrapHandler_enqueues def id m :
  inv ∅ 0 m → bounded m → m_jobs m !! id = None →
  returns (wrapHandler timeAt def id m) (λ '(m', _), enqueues m m' true ∨ enqueues m m' false).
Proof.
  intros. unfold wrapHandler. apply safe_bind. eapply safe_mono; [by apply Enqueue_enqueues |].
  intros [m' [new | e]] H'; [by left | by right].
Qed.

Lemma Rerun_enqueues id new m :
  inv ∅ 0 m → bounded m → m_jobs m !! new = None →
  returns (Rerun timeAt id new m) (λ '(m', r), enqueues m m' (match r with None => true | Some _ => false end)).
Proof.
  intros. unfold Rerun. destruct (findJob id m) as [item |]; [| by split].
  destruct (d_IsRerunnable _); cbn [negb]; [| by split]. apply safe_bind.
  eapply safe_mono; [by apply enqueueLocked_enqueues |]. by intros [m' [n | e]] H'.
Qed.

(** Without a job started or a key freed, a conserving manager stays so. *)
Lemma conserving_same m m' :
  conserving m → m_queue m' = m_queue m → m_running m' = m_running m → m_activeKeys m' = m_activeKeys m →
  m_activeExclusiveKeys m' = m_activeExclusiveKeys m → m_config m' = m_config m → m_shutdown m' = m_shutdown m →
  (∀ id, j_definition <$> m_jobs m' !! id = j_definition <$> m_jobs m !! id) → conserving m'.
Proof.
  unfold conserving, maxConcurrent, runnable, dependenciesSatisfiedLocked. intros H -> -> -> -> -> -> Hj Hs Hr id Hid.
  specialize (H Hs Hr id Hid). specialize (Hj id).
  destruct (m_jobs m' !! id), (m_jobs m !! id); cbn in Hj; try done. injection Hj as ->. done.
Qed.

Lemma abortActiveLocked_conserving id m : inv ∅ 0 m → conserving m → conserving (abortActiveLocked timeAt id m).1.
Proof.
  intros Hinv Hc. unfold abortActiveLocked, findJob. case_bool_decide; [cbn [fst] | done].
  case_bool_decide as Hh; [| by apply (conserving_same m)].
  destruct (m_jobs m !! id) as [j |] eqn:Hj; [| by apply (conserving_same m)].
  destruct (inv_job _ _ _ _ _ Hinv Hj) as [<- _]. publish. apply (conserving_same m); mgr; try done.
  intros x. destruct (decide (x = j_ID j)) as [-> | Hne]; [by rewrite lookup_insert_eq, Hj | by rewrite lookup_insert_ne].
Qed.

Lemma Abort_conserving id m : inv ∅ 0 m → bounded m → conserving m →
  hasStatus StatusQueued id m = false → hasStatus StatusStandby id m = false →
  returns (Abort timeAt id m) (λ '(m', _), conserving m').
Proof.
  intros Hinv Hb Hc Hq Hs. pose proof (Abort_ok id m Hinv Hb) as Hok.
  destruct (decide (id ∈ m_active m)) as [Ha | Ha].
  - pose proof (abortActiveLocked_conserving id m Hinv Hc) as Hc'. unfold Abort.
    destruct (abortActiveLocked timeAt id m) as [m' r] eqn:E. unfold abortActiveLocked in E.
    rewrite bool_decide_eq_true_2 in E by done. injection E as _ <-. done.
  - eapply safe_mono; [exact Hok |]. intros [m' r] (_ & _ & _ & H). unfold hasStatus in *.
    destruct (m_jobs m !! id) as [j |] eqn:Hj; [| by destruct H as [-> _]].
    apply bool_decide_eq_false in Hq, Hs. unfold aborts in H. destruct (j_Status j) eqn:Hst; try done.
    + destruct Ha. apply (pl_active _ _ (iv_placed _ _ _ Hinv)). split; [set_solver | by exists j].
    + by destruct H as [-> _].
Qed.

Lemma timerStops_conserving id m : conserving m → conserving (timerStops id m).
Proof. intros. by apply (conserving_same m). Qed.

End Operations.

(** ** The manager as a transition system *)

(** What can happen to a manager: the calls of its API with the fresh id
    [uuid.New] gives each job, the end of a running handler, and the goroutines
    that wait for a retry. *)
Inductive action : Type :=
| DoRegister (def : JobDefinition)
| DoEnqueue (key id : string)
| DoEnqueueDefinition (def : JobDefinition) (id : string)
| DoSchedule (def : JobDefinition) (id : string)
| DoRerun (id new : string)
| DoAbort (id : string)
| HandlerReturns (id : string) (err : option HandlerError)
| TimerFires (id : string)
| TimerStops (id : string)
| DoShutdownCancel
| DoShutdown.

(** When it can happen. *)
Definition enabled (a : action) (m : JobManager) : bool :=
  match a with
  | DoRegister _ | DoAbort _ | DoShutdownCancel => true
  | DoEnqueue _ id | DoEnqueueDefinition _ id | DoSchedule _ id | DoRerun _ id => bool_decide (m_jobs m !! id = None)
  | HandlerReturns id _ => bool_decide (id ∈ m_active m)
  | TimerFires id => bool_decide (id ∈ m_timers m)
  | TimerStops id => bool_decide (id ∈ m_timers m) && m_shutdown m
  | DoShutdown => m_shutdown m
  end.

Definition perform (timeAt : Z → Z) (a : action) (m : JobManager) : outcome JobManager :=
  match a with
  | DoRegister def => Ret (Register def m)
  | DoEnqueue key id => fst <$> Enqueue timeAt key id m
  | DoEnqueueDefinition def id => fst <$> EnqueueDefinition timeAt def id m
  | DoSchedule def id => fst <$> wrapHandler timeAt def id m
  | DoRerun id new => fst <$> Rerun timeAt id new m
  | DoAbort id => fst <$> Abort timeAt id m
  | HandlerReturns id err => runEnd timeAt id err m
  | TimerFires id => timerFires timeAt id m
  | TimerStops id => Ret (timerStops id m)
  | DoShutdownCancel => Ret (shutdownCancel m)
  | DoShutdown => shutdownLocked timeAt m
  end.

(** An action that is not the abort of a job that waits. *)
Definition undisturbed (a : action) (m : JobManager) : bool :=
  match a with
  | DoAbort id => negb (hasStatus StatusQueued id m) && negb (hasStatus StatusStandby id m)
  | _ => true
  end.

(** The states a manager reaches by the [allowed] actions. *)
Inductive reachable (timeAt : Z → Z) (cfg : Config) (allowed : action → JobManager → bool) : JobManager → Prop :=
| reachable_new : reachable timeAt cfg allowed (NewManager cfg)
| reachable_step m a m' : reachable timeAt cfg allowed m → enabled a m = true → allowed a m = true →
    perform timeAt a m = Ret m' → reachable timeAt cfg allowed m'.

(** Any action. *)
Definition anything (a : action) (m : JobManager) : bool := true.

(** A sequence of actions, each where it is enabled and allowed. *)
Definition performAll (timeAt : Z → Z) (allowed : action → JobManager → bool) (l : list action) (m : JobManager)
    : outcome JobManager :=
  foldM (λ m a, if enabled a m && allowed a m then perform timeAt a m else Panic) l m.

Section System.
Context (timeAt : Z → Z) (cfg : Config) (allowed : action → JobManager → bool).

Lemma performAll_reachable l : ∀ m m',
  reachable timeAt cfg allowed m → performAll timeAt allowed l m = Ret m' → reachable timeAt cfg allowed m'.
Proof.
  unfold performAll. induction l as [| a l IH]; intros m m' Hm; cbn [foldM].
  - by intros [= <-].
  - destruct (enabled a m) eqn:He; [| done]. destruct (allowed a m) eqn:Ha; [| done]. cbn [andb].
    destruct (perform timeAt a m) as [m1 | | |] eqn:E; try done. apply IH. by eapply reachable_step.
Qed.

(** One step: it returns, and keeps the invariant; without the abort of a job
    that waits it keeps the manager conserving. *)
Lemma perform_ok a m : inv ∅ 0 m → bounded m → enabled a m = true →
  returns (perform timeAt a m) (λ m', inv ∅ 0 m' ∧ bounded m' ∧
    (conserving m → undisturbed a m = true → conserving m')).
Proof.
  intros Hinv Hb He.
  assert (∀ m', (∃ ok, enqueues m m' ok) → inv ∅ 0 m' ∧ bounded m' ∧
    (conserving m → undisturbed a m = true → conserving m')) as Henq
    by (intros m' [[] (? & ? & H)]; subst; by split_and!).
  destruct a; cbn [perform enabled] in *; try apply bool_decide_eq_true in He.
  - destruct (Register_ok def m Hinv Hb). by split_and!.
  - apply safe_fmap. eapply safe_mono; [by apply Enqueue_enqueues |]. intros [] ?. apply Henq. by eexists.
  - apply safe_fmap. eapply safe_mono; [by apply enqueueLocked_enqueues |]. intros [] ?. apply Henq. by eexists.
  - apply safe_fmap. eapply safe_mono; [by apply wrapHandler_enqueues |]. intros [] [? | ?]; apply Henq; by eexists.
  - apply safe_fmap. eapply safe_mono; [by apply Rerun_enqueues |]. intros [] ?. apply Henq. by eexists.
  - apply safe_fmap. pose proof (Abort_ok timeAt id m Hinv Hb) as Hok.
    pose proof (λ Hc, Abort_conserving timeAt id m Hinv Hb Hc) as Hcons. cbn [undisturbed].
    destruct (Abort timeAt id m) as [[m' r] | | |]; try done. cbn in *. destruct Hok as (I & B & _). split; [done | split; [done |]].
    intros Hc [Hq Hs]%andb_true_iff. by apply Hcons; [| apply negb_true_iff | apply negb_true_iff].
  - apply (pl_active _ _ (iv_placed _ _ _ Hinv)) in He as Hi. destruct Hi as [_ (j & Hj & _)].
    eapply safe_mono; [by eapply runEnd_ok |]. intros m' (? & ? & ? & _). by split_and!.
  - apply (pl_timers _ _ (iv_placed _ _ _ Hinv)) in He as Hi. destruct Hi as [(j & Hj & _) | (j & Hj & _)].
    all: eapply safe_mono; [by eapply timerFires_ok |]; intros m' (? & ? & _ & j' & _ & _ & H); split_and!; try done.
    all: intros Hc _; destruct (_ && _); [by destruct H | destruct H as [_ ->]; by apply timerStops_conserving].
  - apply andb_true_iff in He as [He%bool_decide_eq_true Hs].
    destruct (timerStops_ok id m Hinv Hb He Hs). by split_and!.
  - destruct (shutdownCancel_ok m Hinv Hb). by split_and!.
  - eapply safe_mono; [by apply shutdownLocked_ok |]. intros m' (? & ? & _ & _ & _ & [_ Ks] & _). split_and!; try done.
    intros _ _ Hs. congruence.
Qed.

Lemma reachable_inv m : reachable timeAt cfg allowed m → inv ∅ 0 m ∧ bounded m.
Proof.
  induction 1 as [| m a m' _ [I B] He _ Hp]; [apply NewManager_ok |].
  pose proof (perform_ok a m I B He) as H. rewrite Hp in H. by destruct H as (? & ? & _).
Qed.

End System.

Lemma reachable_conserving timeAt cfg m : reachable timeAt cfg undisturbed m → conserving m.
Proof.
  induction 1 as [| m a m' Hr Hc He Ha Hp].
  - intros _ _ id Hid. by apply elem_of_nil in Hid.
  - destruct (reachable_inv _ _ _ _ Hr) as [I B]. pose proof (perform_ok timeAt a m I B He) as H.
    rewrite Hp in H. destruct H as (_ & _ & H). auto.
Qed.

(** *** Progress *)

(** Every queued job is behind one that runs or waits for its retry, when no
    job depends on itself. *)
Lemma waiting_behind m n (rank : string → nat) : inv ∅ 0 m → conserving m → m_shutdown m = false →
  (∀ id j k, m_jobs m !! id = Some j → unfinished j → k ∈ d_DependsOn (j_definition j) →
     (rank k < rank (j_Key j))%nat) →
  ∀ id j, id ∈ m_queue m → m_jobs m !! id = Some j → (rank (j_Key j) < n)%nat →
  ∃ id', id' ∈ m_active m ∨ id' ∈ m_timers m ∧ isIn (m_jobs m) id' StatusStandby.
Proof.
  intros Hinv Hc Hs Hrank. destruct (set_choose_or_empty (m_active m)) as [[x Hx] | Hempty]; [by exists x; left |].
  assert (m_active m = ∅) as Ha by (by apply leibniz_equiv).
  pose proof (iv_running _ _ _ Hinv) as Hrun. rewrite Ha, size_empty in Hrun.
  pose proof (iv_settings _ _ _ Hinv) as [_ Hset].
  induction n as [| n IH]; intros id j Hq Hj Hn; [lia |].
  assert (unfinished j) as Hu.
  { apply (pl_queue _ _ (iv_placed _ _ _ Hinv)) in Hq as [_ Hi].
    unfold unfinished. by rewrite (isIn_fun _ _ _ _ (isIn_job _ _ _ Hj) Hi). }
  specialize (Hc Hs ltac:(lia) id Hq).
  assert (∃ k, k ∈ d_DependsOn (j_definition j) ∧ k ∈ m_activeKeys m) as (k & Hk & Hak).
  { destruct (decide (Exists (λ k, k ∈ m_activeKeys m) (d_DependsOn (j_definition j)))) as [He | Hne];
      [by apply Exists_exists in He |]. apply not_Exists_Forall in Hne; [| intros ?; apply _].
    rewrite Forall_forall in Hne. assert (runnable m id = true); [| congruence].
    apply (runnable_spec _ _ _ Hj). split; [done |]. intros x _ Hex.
    apply (ex_keys _ _ _ (iv_excl _ _ _ Hinv)) in Hex as (y & _ & Hy & _). set_solver. }
  apply (iv_keys _ _ _ Hinv) in Hak as (id2 & j2 & Hj2 & Hu2 & <-).
  destruct (j_Status j2) eqn:Hst.
  - apply (IH id2 j2); [| done | specialize (Hrank _ _ _ Hj Hu Hk); lia].
    apply (pl_queue _ _ (iv_placed _ _ _ Hinv)). split; [set_solver | by exists j2].
  - exists id2. right. assert (isIn (m_jobs m) id2 StatusStandby) as Hi by (by exists j2). split; [| done].
    destruct (pl_standby _ _ (iv_placed _ _ _ Hinv) id2 Hi); [done | congruence].
  - exists id2. left. apply (pl_active _ _ (iv_placed _ _ _ Hinv)). split; [set_solver | by exists j2].
  - by destruct Hu2.
Qed.

(** *** The end of the goroutines *)

Section Goroutines.
Context (timeAt : Z → Z).

Lemma finishLocked_wg id err aborted m :
  returns (finishLocked timeAt id err aborted m) (λ m', m_wg m' = m_wg m ∧ m_shutdown m' = m_shutdown m) ∨
  finishLocked timeAt id err aborted m = Panic.
Proof.
  unfold finishLocked, jobAt. destruct (m_jobs m !! id) as [j |]; [| by right]. cbn.
  case_bool_decide; [by left |]. destruct (j_done j); [by right | left].
  cbv zeta. by publish.
Qed.

Lemma dispatchLocked_shutdown m : m_shutdown m = true → dispatchLocked timeAt m = Ret m.
Proof. intros Hs. unfold dispatchLocked. cbn [dispatchLoop]. by rewrite Hs, andb_false_r. Qed.

(** The goroutine an action ends, if it does. *)
Definition ends_goroutine (a : action) : bool :=
  match a with HandlerReturns _ _ | TimerFires _ | TimerStops _ => true | _ => false end.

Lemma goroutine_ends a m : inv ∅ 0 m → bounded m → m_shutdown m = true → enabled a m = true →
  ends_goroutine a = true →
  returns (perform timeAt a m) (λ m', m_wg m' = m_wg m - 1 ∧ m_shutdown m' = true).
Proof.
  intros Hinv Hb Hs He Ha. pose proof (perform_ok timeAt a m Hinv Hb He) as Hok.
  destruct a; try done; cbn [perform enabled] in *.
  - unfold runEnd in *. destruct (jobAt id m) as [j | | |]; try done. cbn [mbind outcome_bind] in *.
    assert (shouldRetryLocked j err (completeActiveLocked j m) = false) as E.
    { unfold shouldRetryLocked. destruct err as [e |]; [| done].
      change (m_shutdown (completeActiveLocked j m)) with (m_shutdown m). by rewrite Hs, orb_true_r. }
    rewrite E, andb_false_r in *. destruct (finishLocked_wg id err (j_HasAborted j) (completeActiveLocked j m)) as [H | H].
    + destruct (finishLocked timeAt _ _ _ _) as [m1 | | |]; try done. cbn [mbind outcome_bind] in *. destruct H as [Hw Hs1].
      change (m_shutdown (completeActiveLocked j m)) with (m_shutdown m) in Hs1. rewrite dispatchLocked_shutdown by congruence.
      cbn. by rewrite Hw, Hs1.
    + rewrite H in Hok. done.
  - unfold timerFires in *. destruct (jobAt id m) as [j | | |]; try done. cbn [mbind outcome_bind] in *.
    change (m_shutdown (setTimers (removeFirst id (m_timers m)) m)) with (m_shutdown m). by rewrite Hs, orb_true_r.
Qed.

Lemma goroutine_left m : inv ∅ 0 m → m_shutdown m = true → 0 < m_wg m →
  ∃ a, enabled a m = true ∧ ends_goroutine a = true.
Proof.
  intros Hinv Hs Hw. rewrite (iv_wg _ _ _ Hinv) in Hw.
  destruct (set_choose_or_empty (m_active m)) as [[x Hx] | Hempty].
  - exists (HandlerReturns x None). cbn. by rewrite bool_decide_eq_true_2.
  - destruct (m_timers m) as [| t l] eqn:E.
    + apply leibniz_equiv in Hempty. rewrite Hempty, size_empty in Hw. unfold len in Hw. cbn in Hw. lia.
    + exists (TimerStops t). cbn. rewrite E, Hs, bool_decide_eq_true_2 by left. done.
Qed.

End Goroutines.

(** ** Theorems *)

(** C5 (invariant): whatever is called and however the handlers and the retry
    timers end, the manager keeps its invariant - a key has at most one
    unfinished job, exactly the running jobs count against the limit and hold
    their exclusive keys, each job of a state is where that state has it, the
    wait group counts the goroutines, the history has every unfinished job and
    is within its bound but for those - and no enabled operation panics (closes
    [done] twice, indexes the delays out of range) or loops. *)
Theorem manager_invariant timeAt cfg m : reachable timeAt cfg anything m →
  inv ∅ 0 m ∧ bounded m ∧ ∀ a, enabled a m = true → ∃ m', perform timeAt a m = Ret m' ∧ inv ∅ 0 m'.
Proof.
  intros Hm. destruct (reachable_inv _ _ _ _ Hm) as [I B]. split_and!; [done | done |]. intros a He.
  pose proof (perform_ok timeAt a m I B He) as H. destruct (perform timeAt a m) as [m' | | |]; try done.
  exists m'. by destruct H.
Qed.

(** C33 (liveness): as long as no job that waits is aborted, a manager that is
    not shut down never leaves a runnable job waiting while it has capacity; and
    when the jobs' dependencies have no cycle, a queued job always has a running
    job, or one with a retry timer, ahead of it. *)
Theorem manager_progress timeAt cfg m (rank : string → nat) :
  reachable timeAt cfg undisturbed m → m_shutdown m = false →
  (m_running m < maxConcurrent m → ∀ id, id ∈ m_queue m → runnable m id = false) ∧
  ((∀ id j k, m_jobs m !! id = Some j → unfinished j → k ∈ d_DependsOn (j_definition j) →
      (rank k < rank (j_Key j))%nat) →
   m_queue m ≠ [] → ∃ id, id ∈ m_active m ∨ id ∈ m_timers m ∧ isIn (m_jobs m) id StatusStandby).
Proof.
  intros Hm Hs. destruct (reachable_inv _ _ _ _ Hm) as [I B]. pose proof (reachable_conserving _ _ _ Hm) as Hc.
  split; [by apply Hc |]. intros Hrank Hq. destruct (m_queue m) as [| id q] eqn:E; [done |].
  assert (id ∈ m_queue m) as Hid by (rewrite E; left).
  apply (pl_queue _ _ (iv_placed _ _ _ I)) in Hid as Hi. destruct Hi as [_ (j & Hj & _)].
  eapply (waiting_behind m (S (rank (j_Key j))) rank I Hc Hs Hrank id j); [done | done | lia].
Qed.

(** Aborting a running job cancels its context and marks it;
    aborting one that is queued or waits for a retry finishes it as aborted; an
    unknown or finished one is left alone with [ErrJobNotRunning].  No other job
    changes, and the invariant holds after. *)
Theorem Abort_spec timeAt cfg m id : reachable timeAt cfg anything m →
  returns (Abort timeAt id m) (λ '(m', r), inv ∅ 0 m' ∧
    match m_jobs m !! id with Some j => aborts id j m m' r | None => m' = m ∧ r = Some ErrJobNotRunning end).
Proof.
  intros Hm. destruct (reachable_inv _ _ _ _ Hm) as [I B]. eapply safe_mono; [by apply Abort_ok |].
  by intros [m' r] (? & _ & _ & ?).
Qed.

(** Shutting down empties the queue, cancels every running
    handler and, when the history is within its bound, leaves no job waiting for
    a retry; from then on every goroutine that ends lowers the wait group's
    counter by one and starts no other, and while the counter is positive there
    is one left to end: [Shutdown] waits for as many ends as there are
    goroutines. *)
Theorem Shutdown_ends timeAt cfg m : reachable timeAt cfg anything m → m_shutdown m = true →
  returns (shutdownLocked timeAt m) (λ m', m_queue m' = [] ∧ m_active m ⊆ m_cancelled m' ∧ m_shutdown m' = true ∧
    (len (m_history m) ≤ maxHistory m → ∀ id, ¬ isIn (m_jobs m') id StatusStandby)) ∧
  (∀ a, enabled a m = true → ends_goroutine a = true →
    returns (perform timeAt a m) (λ m', m_wg m' = m_wg m - 1 ∧ m_shutdown m' = true)) ∧
  (0 < m_wg m → ∃ a, enabled a m = true ∧ ends_goroutine a = true).
Proof.
  intros Hm Hs. destruct (reachable_inv _ _ _ _ Hm) as [I B]. split_and!.
  - eapply safe_mono; [by apply shutdownLocked_ok |]. intros m' (_ & _ & ? & _ & ? & [_ Ks] & ?). split_and!; try done. congruence.
  - intros. by apply goroutine_ends.
  - intros. by apply goroutine_left.
Qed.

(** ** Examples *)

(** "build" fails twice before it gives up; "deploy" waits for it. *)
Definition sampleConfig : Config := MkConfig 2 3 true.
Definition sampleJob (key : string) (dependsOn : list string) : JobDefinition :=
  MkDefinition key key true dependsOn [key] true [5; 10] None.
Definition sampleError : HandlerError := MkHandlerError false "exit status 1".
Definition sampleActions : list action :=
  [DoRegister (sampleJob "build" []); DoEnqueue "build" "1";
   DoEnqueueDefinition (sampleJob "deploy" ["build"]) "2"; HandlerReturns "1" (Some sampleError)].
(** The state a sequence of actions that returns leads to. *)
Definition after (cfg : Config) (allowed : action → JobManager → bool) (l : list action) : JobManager :=
  match performAll id allowed l (NewManager cfg) with Ret m => m | _ => NewManager cfg end.
Definition possible (cfg : Config) (allowed : action → JobManager → bool) (l : list action) : bool :=
  match performAll id allowed l (NewManager cfg) with Ret _ => true | _ => false end.
Definition sampleManager : JobManager := after sampleConfig undisturbed sampleActions.

Lemma after_reachable cfg allowed l : possible cfg allowed l = true → reachable id cfg allowed (after cfg allowed l).
Proof.
  unfold possible, after. destruct (performAll _ _ _ _) as [m | | |] eqn:E; try done. intros _.
  eapply performAll_reachable; [apply reachable_new | done].
Qed.

Lemma sampleManager_reachable : reachable id sampleConfig undisturbed sampleManager.
Proof. apply after_reachable. vm_compute. reflexivity. Qed.

Lemma reachable_anything timeAt cfg allowed m :
  reachable timeAt cfg allowed m → reachable timeAt cfg anything m.
Proof. induction 1 as [| m a m' _ IH He _ Hp]; [apply reachable_new | by eapply reachable_step]. Qed.

Definition sampleRank (key : string) : nat := if bool_decide (key = "deploy") then 1 else 0.

Lemma sampleRank_ok id j k : m_jobs sampleManager !! id = Some j → unfinished j →
  k ∈ d_DependsOn (j_definition j) → (sampleRank k < sampleRank (j_Key j))%nat.
Proof.
  assert (map_Forall (λ _ j, Forall (λ k, (sampleRank k < sampleRank (j_Key j))%nat) (d_DependsOn (j_definition j)))
    (m_jobs sampleManager)) as H.
  { refine (bool_decide_unpack _ _). vm_compute. exact I. }
  intros Hj _ Hk. specialize (H id j Hj). rewrite Forall_forall in H. by apply H.
Qed.

Lemma manager_invariant_witness :
  inv ∅ 0 sampleManager ∧ ∃ m', perform id (DoAbort "1") sampleManager = Ret m' ∧ inv ∅ 0 m'.
Proof.
  split.
  - exact (proj1 (manager_invariant id sampleConfig sampleManager (reachable_anything _ _ _ _ sampleManager_reachable))).
  - exact (proj2 (proj2 (manager_invariant id sampleConfig sampleManager
      (reachable_anything _ _ _ _ sampleManager_reachable))) (DoAbort "1") eq_refl).
Defined.

Lemma manager_progress_witness :
  m_queue sampleManager = ["2"] ∧
  ∃ id, id ∈ m_active sampleManager ∨ id ∈ m_timers sampleManager ∧ isIn (m_jobs sampleManager) id StatusStandby.
Proof.
  split; [by vm_compute |].
  apply (proj2 (manager_progress id sampleConfig sampleManager sampleRank sampleManager_reachable eq_refl) sampleRank_ok).
  by vm_compute.
Defined.

Lemma Abort_spec_witness :
  returns (Abort id "2" sampleManager) (λ '(m', r), inv ∅ 0 m' ∧
    match m_jobs sampleManager !! "2" with
    | Some j => aborts "2" j sampleManager m' r
    | None => m' = sampleManager ∧ r = Some ErrJobNotRunning
    end) ∧ hasStatus StatusQueued "2" sampleManager = true.
Proof.
  split; [| by vm_compute].
  exact (Abort_spec id sampleConfig sampleManager "2" (reachable_anything _ _ _ _ sampleManager_reachable)).
Defined.

(** A manager that was shut down while one job waits for its retry. *)
Definition sampleShutdown : JobManager := shutdownCancel sampleManager.

Lemma sampleShutdown_reachable : reachable id sampleConfig anything sampleShutdown.
Proof.
  apply (reachable_step _ _ _ sampleManager DoShutdownCancel); try done.
  exact (reachable_anything _ _ _ _ sampleManager_reachable).
Qed.

Lemma Shutdown_ends_witness :
  m_wg sampleShutdown = 1 ∧
  (returns (shutdownLocked id sampleShutdown) (λ m', m_queue m' = [] ∧ m_active sampleShutdown ⊆ m_cancelled m' ∧
     m_shutdown m' = true ∧ (len (m_history sampleShutdown) ≤ maxHistory sampleShutdown →
       ∀ id, ¬ isIn (m_jobs m') id StatusStandby))).
Proof.
  split; [by vm_compute |].
  exact (proj1 (Shutdown_ends id sampleConfig sampleShutdown sampleShutdown_reachable eq_refl)).
Defined.

(** Aborting a job that waits frees its key without a dispatch: "deploy" stays
    in the queue though it is runnable and nothing runs, and the timer of the
    aborted job starts nothing either. *)
Lemma Abort_stalls :
  match performAll id anything (sampleActions ++ [DoAbort "1"; TimerFires "1"]) (NewManager sampleConfig) with
  | Ret m => (m_queue m, runnable m "2", m_running m, m_wg m, m_shutdown m) = (["2"], true, 0, 0, false)
  | _ => False
  end.
Proof. by vm_compute. Qed.

(** [Shutdown] with three jobs waiting for their retries and a history of two:
    the loop over [m.history] skips the second one, which is never finished. *)
Lemma Shutdown_skips :
  match performAll id anything
          [DoEnqueueDefinition (sampleJob "a" []) "1"; DoEnqueueDefinition (sampleJob "b" []) "2";
           DoEnqueueDefinition (sampleJob "c" []) "3"; HandlerReturns "1" (Some sampleError);
           HandlerReturns "2" (Some sampleError); HandlerReturns "3" (Some sampleError);
           DoShutdownCancel; DoShutdown] (NewManager sampleConfig) with
  | Ret m => map (λ id, hasStatus StatusStandby id m) ["1"; "2"; "3"] = [false; true; false] ∧ m_history m = ["2"; "3"]
  | _ => False
  end.
Proof. by vm_compute. Qed.
