(* ===== verification/Tuners.v ===== *)
(** * Tuner allocation ([internal/tuner/manager.go], [status.go], [tuner.go])

    [TunerManager] hands the tuners of a machine to those who need a channel:
    a free tuner of the right type in round-robin order, or, when none is free,
    the one whose users have the lowest priority, if that is lower than the
    request's: its device is stopped and the request tries again.

    A [*Tuner] is its index in [tuners]; a [*managedDevice] is an id in the
    store [tm_devices], which keeps its tuner and whether its [once] has run.
    The process behind a device is not modelled: what its [Start], [Stop] and
    [ProcessStatus] return are arguments.  Every method is one critical section
    under the manager's mutex; those made of several are defined as the sequence
    of their sections.  [changed], the channel that is closed and replaced when a
    tuner is released, is the number of the current channel: the channel [c] is
    closed when [c < tm_changed].  What a method publishes is a component of its
    result. *)

From S2P Require Import Prelude.

(** ** The code: [tuner.go] *)

(** Of a channel's and a tuner's configuration, what the manager reads; the
    rest is for the command line of the device. *)
Record ChannelConfig : Type := MkChannel {
  ch_Name : string;
  ch_Type : string;
  ch_Channel : string
}.

Inductive SourceKind : Type := SourceKindUnsupported | SourceKindCommand | SourceKindDVB.

#[global] Instance SourceKind_eq_dec : EqDecision SourceKind.
Proof. solve_decision. Defined.

Record Tuner : Type := MkTuner {
  t_Name : string;
  t_Types : list string;
  t_Command : string;
  t_DvbDevicePath : string;
  t_Decoder : string;
  t_IsDisabled : bool
}.

Definition stringLe (a b : string) : Prop := String.leb a b = true.
#[global] Instance stringLe_dec : RelDecision stringLe.
Proof. intros a b. unfold stringLe. apply _. Defined.

(** [sort.Strings] *)
Definition sortStrings (l : list string) : list string := merge_sort stringLe l.

Definition Groups (t : Tuner) : list string := sortStrings (elements (list_to_set (t_Types t) : gset string)).

Definition Kind (t : Tuner) : SourceKind :=
  if negb (bool_decide (t_DvbDevicePath t = "")) then SourceKindDVB
  else if negb (bool_decide (t_Command t = "")) then SourceKindCommand
  else SourceKindUnsupported.

Definition Usable (t : Tuner) : bool :=
  match Kind t with SourceKindCommand | SourceKindDVB => true | SourceKindUnsupported => false end.

(** Is the tuner of this type, and not disabled? *)
Definition serves (channelType : string) (t : Tuner) : bool :=
  negb (t_IsDisabled t) && bool_decide (channelType ∈ Groups t).

(** ** The code: [status.go] *)

Record StreamInfo : Type := MkStreamInfo { si_Packet : Z; si_Drop : Z }.

Record StreamSetting : Type := MkStreamSetting {
  st_Channel : option ChannelConfig;
  st_NetworkID : option Z;
  st_ServiceID : option Z;
  st_EventID : option Z;
  st_NoProvide : option bool;
  st_ParseNIT : option bool;
  st_ParseSDT : option bool;
  st_ParseEIT : option bool
}.

Record User : Type := MkUser {
  u_ID : string;
  u_Priority : Z;
  u_Agent : string;
  u_URL : string;
  u_DisableDecoder : bool;
  u_StreamSetting : StreamSetting;
  u_StreamInfo : option (gmap string StreamInfo)
}.

Definition setStreamInfo (x : option (gmap string StreamInfo)) (u : User) : User :=
  MkUser (u_ID u) (u_Priority u) (u_Agent u) (u_URL u) (u_DisableDecoder u) (u_StreamSetting u) x.

(** The clone and the original are the same value. *)
Definition cloneUser (u : User) : User := u.

Record trackedUser : Type := MkTracked { tu_user : User; tu_refs : Z }.

Record tunerRuntime : Type := MkRuntime {
  rt_inUse : bool;
  rt_running : bool;
  rt_stopped : bool;
  rt_fault : bool;
  rt_reservationPriority : Z;
  rt_device : option nat;
  rt_requested : option ChannelConfig;
  rt_tuned : option ChannelConfig;
  rt_users : gmap string trackedUser
}.

Definition setUsers (x : gmap string trackedUser) (r : tunerRuntime) : tunerRuntime :=
  MkRuntime (rt_inUse r) (rt_running r) (rt_stopped r) (rt_fault r) (rt_reservationPriority r) (rt_device r)
    (rt_requested r) (rt_tuned r) x.

Definition setRun (running stopped fault : bool) (r : tunerRuntime) : tunerRuntime :=
  MkRuntime (rt_inUse r) running stopped fault (rt_reservationPriority r) (rt_device r) (rt_requested r)
    (rt_tuned r) (rt_users r).

(** The order in which a loop over a map of users visits them. *)
Class UserOrder := {
  usersOf : gmap string trackedUser → list (string * trackedUser);
  usersOf_perm m : usersOf m ≡ₚ map_to_list m
}.

Definition effectivePriority {O : UserOrder} (r : tunerRuntime) : Z :=
  fold_left (λ priority e, if priority <? u_Priority (tu_user (snd e)) then u_Priority (tu_user (snd e)) else priority)
    (usersOf (rt_users r)) (rt_reservationPriority r).

Definition idleRuntime : tunerRuntime := MkRuntime false false false false 0 None None None ∅.

(** [resetReservation], and whether the tuner was at fault. *)
Definition resetReservation (r : tunerRuntime) : tunerRuntime * bool := (idleRuntime, rt_fault r).

Record ProcessInfo : Type := MkProcess { pi_Command : string; pi_PID : Z }.

Record Status : Type := MkStatus {
  s_Index : Z;
  s_Name : string;
  s_Types : list string;
  s_Command : string;
  s_PID : Z;
  s_Users : list User;
  s_IsAvailable : bool;
  s_IsFree : bool;
  s_IsUsing : bool;
  s_IsFault : bool;
  s_CurrentChannelType : string;
  s_CurrentChannel : string;
  s_TunedChannelType : string;
  s_TunedChannel : string
}.

(** ** The code: [manager.go] *)

Record managedDevice : Type := MkDevice { md_tuner : nat; md_released : bool }.

Record TunerManager : Type := MkManager {
  tm_tuners : list Tuner;
  tm_inUse : gset nat;
  tm_runtime : gmap nat tunerRuntime;
  tm_nextByType : gmap string nat;
  tm_changed : Z;
  tm_devices : gmap nat managedDevice;
  tm_allocated : nat
}.

Definition setInUse (x : gset nat) (tm : TunerManager) : TunerManager :=
  MkManager (tm_tuners tm) x (tm_runtime tm) (tm_nextByType tm) (tm_changed tm) (tm_devices tm) (tm_allocated tm).
Definition setRuntime (x : gmap nat tunerRuntime) (tm : TunerManager) : TunerManager :=
  MkManager (tm_tuners tm) (tm_inUse tm) x (tm_nextByType tm) (tm_changed tm) (tm_devices tm) (tm_allocated tm).
Definition setNextByType (x : gmap string nat) (tm : TunerManager) : TunerManager :=
  MkManager (tm_tuners tm) (tm_inUse tm) (tm_runtime tm) x (tm_changed tm) (tm_devices tm) (tm_allocated tm).
Definition setChanged (x : Z) (tm : TunerManager) : TunerManager :=
  MkManager (tm_tuners tm) (tm_inUse tm) (tm_runtime tm) (tm_nextByType tm) x (tm_devices tm) (tm_allocated tm).
Definition setDevices (x : gmap nat managedDevice) (n : nat) (tm : TunerManager) : TunerManager :=
  MkManager (tm_tuners tm) (tm_inUse tm) (tm_runtime tm) (tm_nextByType tm) (tm_changed tm) x n.

Definition NewTunerManager (tuners : list Tuner) : TunerManager :=
  MkManager tuners ∅ (list_to_map (imap (λ i _, (i, idleRuntime)) tuners)) ∅ 0 ∅ 0.

(** [GetTuner], [GetTunerByType]: an index. *)
Definition GetTuner (name : string) (tm : TunerManager) : option nat :=
  fst <$> list_find (λ t, t_Name t = name) (tm_tuners tm).
Definition GetTunerByType (channelType : string) (tm : TunerManager) : option nat :=
  fst <$> list_find (λ t, serves channelType t = true) (tm_tuners tm).
Definition DecoderCommandByType (channelType : string) (tm : TunerManager) : string :=
  match list_find (λ t, serves channelType t = true) (tm_tuners tm) with Some (_, t) => t_Decoder t | None => "" end.

(** [tm.tuners[i]] and [tm.runtime[item]], which is then dereferenced. *)
Definition tunerAt (i : nat) (tm : TunerManager) : outcome Tuner :=
  match tm_tuners tm !! i with Some t => Ret t | None => Panic end.
Definition runtimeAt (i : nat) (tm : TunerManager) : outcome tunerRuntime :=
  match tm_runtime tm !! i with Some r => Ret r | None => Panic end.
Definition putRuntime (i : nat) (r : tunerRuntime) (tm : TunerManager) : TunerManager :=
  setRuntime (<[i := r]> (tm_runtime tm)) tm.

Inductive TunerError : Type := ErrTunerNotFound | ErrUnsupportedTuner | ErrTunerUnavailable.

Section Manager.
Context {O : UserOrder} (processStatus : nat → ProcessInfo).

(** The statuses; [index] is that of [item] in [tm.tuners]. *)
Definition statusLockedByTuner (item : nat) (tm : TunerManager) : outcome Status :=
  t ← tunerAt item tm;
  r ← runtimeAt item tm;
  let available := negb (t_IsDisabled t) && Usable t && negb (rt_fault r) && negb (rt_stopped r) in
  let info := match rt_device r with Some d => processStatus d | None => MkProcess "" 0 end in
  let ids := sortStrings (fst <$> usersOf (rt_users r)) in
  users ← foldM (λ users id, match rt_users r !! id with
                             | Some tracked => Ret (users ++ [cloneUser (tu_user tracked)])
                             | None => Panic end) ids [];
  Ret (MkStatus (Z.of_nat item) (t_Name t) (Groups t) (pi_Command info) (pi_PID info) users available
    (available && negb (rt_inUse r) && (len users =? 0))
    (available && rt_running r && negb (len users =? 0)) (rt_fault r)
    (match rt_requested r with Some c => ch_Type c | None => "" end)
    (match rt_requested r with Some c => ch_Channel c | None => "" end)
    (match rt_tuned r with Some c => ch_Type c | None => "" end)
    (match rt_tuned r with Some c => ch_Channel c | None => "" end)).

Definition Statuses (tm : TunerManager) : outcome (list Status) :=
  foldM (λ l i, s ← statusLockedByTuner i tm; Ret (l ++ [s])) (seq 0 (length (tm_tuners tm))) [].

Record grabCandidate : Type := MkGrab {
  g_device : option nat;
  g_tunerName : string;
  g_priority : Z
}.

(** The status of an attempt that acquired nothing is not published. *)
Record acquireAttempt : Type := MkAttempt {
  a_device : option nat;
  a_decoder : string;
  a_found : bool;
  a_usable : bool;
  a_grab : grabCandidate;
  a_changed : Z;
  a_status : option Status
}.

Definition betterGrabCandidate (current : grabCandidate) (item : Tuner) (r : tunerRuntime) (requestPriority : Z)
    : grabCandidate :=
  match rt_device r with
  | None => current
  | Some d =>
      let priority := effectivePriority r in
      if requestPriority <=? priority then current
      else if match g_device current with Some _ => g_priority current <=? priority | None => false end then current
      else MkGrab (Some d) (t_Name item) priority
  end.

(** [reserveLocked]: [NewDevice] returns nil for a tuner that is not usable. *)
Definition reserveLocked (i : nat) (item : Tuner) (priority : Z) (requested tuned : option ChannelConfig)
    (tm : TunerManager) : outcome (TunerManager * option (nat * string)) :=
  if negb (Usable item) then Ret (tm, None)
  else
    r ← runtimeAt i tm;
    let d := tm_allocated tm in
    let tm := setInUse ({[i]} ∪ tm_inUse tm) tm in
    let tm := putRuntime i (MkRuntime true false false (rt_fault r) priority (Some d) requested tuned (rt_users r)) tm in
    let tm := setDevices (<[d := MkDevice i false]> (tm_devices tm)) (S d) tm in
    Ret (tm, Some (d, t_Decoder item)).

Fixpoint acquireLoop (channelType : string) (requestPriority : Z) (requested tuned : option ChannelConfig)
    (start : nat) (offsets : list nat) (result : acquireAttempt) (tm : TunerManager)
    : outcome (TunerManager * acquireAttempt) :=
  match offsets with
  | [] => Ret (tm, result)
  | offset :: offsets =>
      let index := ((start + offset) mod length (tm_tuners tm))%nat in
      item ← tunerAt index tm;
      if negb (serves channelType item) then
        acquireLoop channelType requestPriority requested tuned start offsets result tm
      else
        let result := MkAttempt (a_device result) (a_decoder result) true (a_usable result) (a_grab result)
                        (a_changed result) (a_status result) in
        if negb (Usable item) then
          acquireLoop channelType requestPriority requested tuned start offsets result tm
        else
          let result := MkAttempt (a_device result) (a_decoder result) true true (a_grab result)
                          (a_changed result) (a_status result) in
          runtime ← runtimeAt index tm;
          if rt_fault runtime then
            acquireLoop channelType requestPriority requested tuned start offsets result tm
          else if bool_decide (index ∈ tm_inUse tm) then
            acquireLoop channelType requestPriority requested tuned start offsets
              (MkAttempt (a_device result) (a_decoder result) true true
                 (betterGrabCandidate (a_grab result) item runtime requestPriority)
                 (a_changed result) (a_status result)) tm
          else
            '(tm, reserved) ← reserveLocked index item requestPriority requested tuned tm;
            match reserved with
            | None => acquireLoop channelType requestPriority requested tuned start offsets result tm
            | Some (managed, decoder) =>
                let tm := setNextByType
                  (<[channelType := ((index + 1) mod length (tm_tuners tm))%nat]> (tm_nextByType tm)) tm in
                status ← statusLockedByTuner index tm;
                Ret (tm, MkAttempt (Some managed) decoder true true (a_grab result) (a_changed result) (Some status))
            end
  end.

Definition noGrab : grabCandidate := MkGrab None "" 0.

Definition tryAcquireLocked (channelType : string) (requestPriority : Z) (requested tuned : option ChannelConfig)
    (tm : TunerManager) : outcome (TunerManager * acquireAttempt) :=
  let start := default 0%nat (tm_nextByType tm !! channelType) in
  acquireLoop channelType requestPriority requested tuned start (seq 0 (length (tm_tuners tm)))
    (MkAttempt None "" false false noGrab (tm_changed tm) None) tm.

(** What a round of the loop of [AcquireDevice] does after its attempt: return
    a device and publish its status, return an error, stop the device to grab
    and wait for its attempt's channel, or wait for it at once. *)
Inductive acquireNext : Type :=
| Acquired (device : nat) (decoder : string) (status : option Status)
| Refused (err : TunerError)
| GrabAndWait (device : nat) (changed : Z)
| Wait (changed : Z).

Definition acquireRound (channelType : string) (requestPriority : Z) (requested tuned : option ChannelConfig)
    (wait : bool) (tm : TunerManager) : outcome (TunerManager * acquireNext) :=
  '(tm, attempt) ← tryAcquireLocked channelType requestPriority requested tuned tm;
  Ret (tm, match a_device attempt with
           | Some d => Acquired d (a_decoder attempt) (a_status attempt)
           | None =>
               if negb (a_found attempt) then Refused ErrTunerNotFound
               else if negb (a_usable attempt) then Refused ErrUnsupportedTuner
               else match g_device (a_grab attempt) with
                    | Some victim => GrabAndWait victim (a_changed attempt)
                    | None => if negb wait then Refused ErrTunerUnavailable else Wait (a_changed attempt)
                    end
           end).

Definition statusUpdateLocked (item : nat) (tm : TunerManager) : outcome (option Status) :=
  Some <$> statusLockedByTuner item tm.

Definition notifyChangedLocked (tm : TunerManager) : TunerManager := setChanged (tm_changed tm + 1) tm.

Definition release (item : nat) (tm : TunerManager) : outcome (TunerManager * option Status) :=
  if bool_decide (item ∈ tm_inUse tm) then
    let tm := setInUse (tm_inUse tm ∖ {[item]}) tm in
    r ← runtimeAt item tm;
    let tm := putRuntime item (fst (resetReservation r)) tm in
    let tm := notifyChangedLocked tm in
    update ← statusUpdateLocked item tm;
    Ret (tm, update)
  else Ret (tm, None).

(** [d.once.Do]: only the first call releases the tuner. *)
Definition releaseOnce (d : nat) (tm : TunerManager) : outcome (TunerManager * option Status) :=
  match tm_devices tm !! d with
  | None => Panic
  | Some device =>
      if md_released device then Ret (tm, None)
      else release (md_tuner device)
             (setDevices (<[d := MkDevice (md_tuner device) true]> (tm_devices tm)) (tm_allocated tm) tm)
  end.

(** [updateRuntimeStatusLocked]; the function it is given returns nil instead
    of false. *)
Definition updateRuntimeStatusLocked (item : nat) (update : tunerRuntime → option tunerRuntime) (tm : TunerManager)
    : outcome (TunerManager * option Status) :=
  match tm_runtime tm !! item with
  | None => Ret (tm, None)
  | Some r =>
      match update r with
      | None => Ret (tm, None)
      | Some r => let tm := putRuntime item r tm in
                  status ← statusUpdateLocked item tm; Ret (tm, status)
      end
  end.

(** Is this the device the tuner is reserved for? *)
Definition holdsTuner (d : nat) (r : tunerRuntime) : bool := rt_inUse r && bool_decide (rt_device r = Some d).

Definition onDevice (d : nat) (update : tunerRuntime → tunerRuntime) (tm : TunerManager)
    : outcome (TunerManager * option Status) :=
  match tm_devices tm !! d with
  | None => Panic
  | Some device =>
      updateRuntimeStatusLocked (md_tuner device) (λ r, if holdsTuner d r then Some (update r) else None) tm
  end.

Definition markRunning (d : nat) : TunerManager → outcome (TunerManager * option Status) :=
  onDevice d (λ r, setRun true false (rt_fault r) r).
Definition markStopped (d : nat) : TunerManager → outcome (TunerManager * option Status) :=
  onDevice d (λ r, setRun false true (rt_fault r) r).
Definition markFault (d : nat) : TunerManager → outcome (TunerManager * option Status) :=
  onDevice d (λ r, setRun false (rt_stopped r) true r).

(** [managedDevice.Start], given whether the device failed to start. *)
Definition Start (d : nat) (failed : bool) (tm : TunerManager) : outcome TunerManager :=
  if failed then
    '(tm, _) ← markFault d tm;
    '(tm, _) ← releaseOnce d tm;
    Ret tm
  else '(tm, _) ← markRunning d tm; Ret tm.

(** The goroutine of [Start], once the device is done. *)
Definition deviceDone (d : nat) (failed : bool) (tm : TunerManager) : outcome TunerManager :=
  '(tm, _) ← (if failed then markFault d tm else markStopped d tm); Ret tm.

(** [managedDevice.Stop]: the tuner is released whether or not the device could
    be stopped. *)
Definition Stop (d : nat) (tm : TunerManager) : outcome TunerManager :=
  '(tm, _) ← releaseOnce d tm; Ret tm.

(** [KillProcess]: the device to stop, if there is one. *)
Definition KillProcess (index : Z) (tm : TunerManager) : outcome (option nat + TunerError) :=
  if (index <? 0) || (len (tm_tuners tm) <=? index) then Ret (inr ErrTunerNotFound)
  else r ← runtimeAt (Z.to_nat index) tm; Ret (inl (rt_device r)).

(** [addUser], [removeUser] and [updateUserStreamInfo], called through a device
    for its tuner. *)
Definition addUser (item : nat) (user : User) (tm : TunerManager) : outcome (TunerManager * option Status) :=
  if bool_decide (u_ID user = "") then Ret (tm, None)
  else
    r ← runtimeAt item tm;
    let tracked := match rt_users r !! u_ID user with
      | Some tracked =>
          let user := match u_StreamInfo user with
                      | None => setStreamInfo (u_StreamInfo (tu_user tracked)) user
                      | Some _ => user end in
          MkTracked (cloneUser user) (tu_refs tracked + 1)
      | None => MkTracked (cloneUser user) 1
      end in
    let tm := putRuntime item (setUsers (<[u_ID user := tracked]> (rt_users r)) r) tm in
    update ← statusUpdateLocked item tm;
    Ret (tm, update).

Definition updateUserStreamInfo (item : nat) (userID key : string) (info : StreamInfo) (tm : TunerManager)
    : outcome TunerManager :=
  r ← runtimeAt item tm;
  Ret match rt_users r !! userID with
      | None => tm
      | Some tracked =>
          let m := default ∅ (u_StreamInfo (tu_user tracked)) in
          putRuntime item (setUsers (<[userID := MkTracked (setStreamInfo (Some (<[key := info]> m)) (tu_user tracked))
                                       (tu_refs tracked)]> (rt_users r)) r) tm
      end.

Definition removeUser (item : nat) (id : string) (tm : TunerManager) : outcome (TunerManager * option Status) :=
  r ← runtimeAt item tm;
  match rt_users r !! id with
  | None => Ret (tm, None)
  | Some tracked =>
      let refs := tu_refs tracked - 1 in
      let users := if refs =? 0 then delete id (rt_users r)
                   else <[id := MkTracked (tu_user tracked) refs]> (rt_users r) in
      let tm := putRuntime item (setUsers users r) tm in
      update ← statusUpdateLocked item tm;
      Ret (tm, update)
  end.

End Manager.

(** ** Reading the fields of an updated manager *)

Ltac tmgr :=
  cbn [tm_tuners tm_inUse tm_runtime tm_nextByType tm_changed tm_devices tm_allocated
       setInUse setRuntime setNextByType setChanged setDevices putRuntime
       rt_inUse rt_running rt_stopped rt_fault rt_reservationPriority rt_device rt_requested rt_tuned rt_users
       setUsers setRun md_tuner md_released].

(** ** The priority of a tuner's users *)

(** The least bound of the reservation's priority and the users'. *)
Lemma effectivePriority_spec {O : UserOrder} r :
  (effectivePriority r = rt_reservationPriority r ∨
     ∃ id u, rt_users r !! id = Some u ∧ u_Priority (tu_user u) = effectivePriority r) ∧
  rt_reservationPriority r ≤ effectivePriority r ∧
  ∀ id u, rt_users r !! id = Some u → u_Priority (tu_user u) ≤ effectivePriority r.
Proof.
  assert (∀ l p, let q := fold_left (λ p e, if p <? u_Priority (tu_user (snd e)) then u_Priority (tu_user (snd e)) else p) l p in
    (q = p ∨ ∃ e, e ∈ l ∧ u_Priority (tu_user (snd e)) = q) ∧ p ≤ q ∧
    ∀ e : string * trackedUser, e ∈ l → u_Priority (tu_user (snd e)) ≤ q) as Hfold.
  { induction l as [| e l IH]; intros p; cbn [fold_left].
    - split; [by left |]. split; [lia | by intros ? ?%elem_of_nil].
    - destruct (IH (if p <? u_Priority (tu_user (snd e)) then u_Priority (tu_user (snd e)) else p)) as (H1 & H2 & H3).
      set (q := fold_left _ _ _) in *. split_and!.
      + destruct H1 as [H1 | (x & Hx & H1)]; [| right; exists x; by split; [right |]].
        destruct (Z.ltb_spec p (u_Priority (tu_user (snd e)))); [right; exists e; by split; [left |] | by left].
      + destruct (Z.ltb_spec p (u_Priority (tu_user (snd e)))); lia.
      + intros x [-> | Hx]%elem_of_cons; [| by apply H3].
        destruct (Z.ltb_spec p (u_Priority (tu_user (snd e)))); lia. }
  assert (∀ id u, (id, u) ∈ usersOf (rt_users r) ↔ rt_users r !! id = Some u) as Hu
    by (intros; by rewrite usersOf_perm, elem_of_map_to_list).
  destruct (Hfold (usersOf (rt_users r)) (rt_reservationPriority r)) as (H1 & H2 & H3). split_and!; [| done |].
  - destruct H1 as [H1 | ([id u] & Hin & H1)]; [by left | right; exists id, u; split; [by apply Hu | done]].
  - intros id u Hin%Hu. apply (H3 (id, u) Hin).
Qed.

(** ** The invariant *)

(** A runtime that is not reserved is idle, but for users that came late. *)
Definition runtime_ok (r : tunerRuntime) : Prop :=
  (rt_inUse r = true ↔ is_Some (rt_device r)) ∧
  (rt_inUse r = false → setUsers ∅ r = idleRuntime) ∧
  ∀ id u, rt_users r !! id = Some u → u_ID (tu_user u) = id ∧ id ≠ "" ∧ 0 < tu_refs u.

Record inv (tm : TunerManager) : Prop := {
  iv_runtime : ∀ i, is_Some (tm_runtime tm !! i) ↔ (i < length (tm_tuners tm))%nat;
  iv_ok : ∀ i r, tm_runtime tm !! i = Some r → runtime_ok r ∧ (i ∈ tm_inUse tm ↔ rt_inUse r = true);
  iv_inUse : ∀ i, i ∈ tm_inUse tm → (i < length (tm_tuners tm))%nat;
  iv_held : ∀ d i, tm_devices tm !! d = Some (MkDevice i false) ↔
    ∃ r, tm_runtime tm !! i = Some r ∧ rt_device r = Some d;
  iv_devices : ∀ d x, tm_devices tm !! d = Some x →
    (d < tm_allocated tm)%nat ∧ (md_tuner x < length (tm_tuners tm))%nat;
  iv_next : ∀ ty i, tm_nextByType tm !! ty = Some i → (i < length (tm_tuners tm))%nat
}.

Lemma idle_ok : runtime_ok idleRuntime.
Proof. split_and!; [split; [done | by intros [? ?]] | done | intros id u; cbn; by rewrite lookup_empty]. Qed.

Lemma NewTunerManager_runtime tuners i :
  tm_runtime (NewTunerManager tuners) !! i = (λ _, idleRuntime) <$> tuners !! i.
Proof.
  cbn. destruct (tuners !! i) as [t |] eqn:E; cbn.
  - apply elem_of_list_to_map_1.
    + rewrite fmap_imap. apply NoDup_alt. intros a b x. rewrite !list_lookup_imap.
      destruct (tuners !! a), (tuners !! b); cbn; congruence.
    + apply elem_of_lookup_imap. by exists i, t.
  - apply not_elem_of_list_to_map_1. rewrite fmap_imap. intros (j & t & Hj & Ht)%elem_of_lookup_imap.
    cbn in Hj. congruence.
Qed.

Lemma NewTunerManager_ok tuners : inv (NewTunerManager tuners).
Proof.
  split.
  - intros i. rewrite NewTunerManager_runtime, fmap_is_Some. apply lookup_lt_is_Some.
  - intros i r. rewrite NewTunerManager_runtime. intros (t & _ & ->)%fmap_Some. split; [apply idle_ok |].
    cbn. split; [set_solver | done].
  - intros i. cbn. set_solver.
  - intros d i. rewrite NewTunerManager_runtime. cbn. rewrite lookup_empty.
    split; [done |]. intros (r & (t & _ & ->)%fmap_Some & ?). done.
  - intros d x. cbn. by rewrite lookup_empty.
  - intros ty i. cbn. by rewrite lookup_empty.
Qed.

Lemma inv_runtime tm i : inv tm → (i < length (tm_tuners tm))%nat →
  ∃ t r, tm_tuners tm !! i = Some t ∧ tm_runtime tm !! i = Some r.
Proof.
  intros Hinv Hi. destruct (proj2 (lookup_lt_is_Some (tm_tuners tm) i) Hi) as [t Ht].
  destruct (proj2 (iv_runtime _ Hinv i) Hi) as [r Hr]. by exists t, r.
Qed.

(** Changing a runtime but for its reservation. *)
Lemma inv_putRuntime tm i r r' : inv tm → tm_runtime tm !! i = Some r → runtime_ok r' →
  rt_inUse r' = rt_inUse r → rt_device r' = rt_device r → inv (putRuntime i r' tm).
Proof.
  intros [I1 I2 I3 I4 I5 I6] Hr Hok Hu Hd. split; tmgr; try done.
  - intros j. rewrite <- I1. destruct (decide (i = j)) as [-> | Hne].
    + rewrite lookup_insert_eq, Hr. by split; eexists.
    + by rewrite lookup_insert_ne.
  - intros j x. destruct (decide (i = j)) as [-> | Hne].
    + rewrite lookup_insert_eq. intros [= <-]. split; [done |]. rewrite Hu. by apply I2.
    + rewrite lookup_insert_ne by done. apply I2.
  - intros d j. rewrite I4. destruct (decide (i = j)) as [-> | Hne].
    + rewrite lookup_insert_eq, Hr. split; intros (x & [= <-] & Hx); eexists; (split; [done | congruence]).
    + by rewrite lookup_insert_ne.
Qed.

Section Operations.
Context {O : UserOrder} (processStatus : nat → ProcessInfo).

Lemma statusLockedByTuner_total tm i : inv tm → (i < length (tm_tuners tm))%nat →
  returns (statusLockedByTuner processStatus i tm) (λ s, s_Index s = Z.of_nat i).
Proof.
  intros Hinv Hi. destruct (inv_runtime tm i Hinv Hi) as (t & r & Ht & Hr).
  unfold statusLockedByTuner, tunerAt, runtimeAt. rewrite Ht, Hr. run. apply safe_bind.
  eapply safe_mono; [| intros l _; by cbn].
  apply (safe_foldM_prefix (λ _ _, True)); [done |]. intros pre id users _ [suf Hpre].
  assert (id ∈ fst <$> usersOf (rt_users r)) as Hid.
  { rewrite <- (merge_sort_Permutation stringLe). unfold sortStrings in Hpre. rewrite Hpre. set_solver. }
  apply list_elem_of_fmap in Hid as ([id' u] & -> & Hin). rewrite usersOf_perm in Hin.
  apply elem_of_map_to_list in Hin. cbn. by rewrite Hin.
Qed.

(** *** Reserving and releasing *)

(** A tuner an attempt for this type can reserve. *)
Definition free (channelType : string) (tm : TunerManager) (i : nat) : Prop :=
  ∃ t r, tm_tuners tm !! i = Some t ∧ tm_runtime tm !! i = Some r ∧ serves channelType t = true ∧
    Usable t = true ∧ rt_fault r = false ∧ i ∉ tm_inUse tm.

(** [tm'] is [tm] with the tuner [i] reserved for the new device [d]. *)
Definition reserves (priority : Z) (requested tuned : option ChannelConfig) (i d : nat) (tm tm' : TunerManager) : Prop :=
  tm_devices tm !! d = None ∧ tm_devices tm' = <[d := MkDevice i false]> (tm_devices tm) ∧
  tm_inUse tm' = {[i]} ∪ tm_inUse tm ∧ tm_changed tm' = tm_changed tm ∧ tm_tuners tm' = tm_tuners tm ∧
  ∃ r, tm_runtime tm !! i = Some r ∧
    tm_runtime tm' = <[i := MkRuntime true false false (rt_fault r) priority (Some d) requested tuned (rt_users r)]>
      (tm_runtime tm).

Lemma reserveLocked_ok tm i t priority requested tuned : inv tm → tm_tuners tm !! i = Some t → Usable t = true →
  i ∉ tm_inUse tm →
  returns (reserveLocked i t priority requested tuned tm) (λ '(tm', res), inv tm' ∧
    tm_nextByType tm' = tm_nextByType tm ∧
    ∃ d, res = Some (d, t_Decoder t) ∧ reserves priority requested tuned i d tm tm').
Proof.
  intros Hinv Ht Hus Hfree. pose proof (lookup_lt_Some _ _ _ Ht) as Hi.
  destruct (inv_runtime tm i Hinv Hi) as (_ & r & _ & Hr).
  unfold reserveLocked, runtimeAt. rewrite Hus, Hr. run.
  destruct Hinv as [I1 I2 I3 I4 I5 I6]. destruct (I2 i r Hr) as ((R1 & R2 & R3) & R4).
  assert (rt_inUse r = false) as Hr0 by (apply not_true_is_false; tauto).
  assert (rt_device r = None) as Hd0.
  { destruct (rt_device r) as [d |] eqn:E; [| done]. destruct R1 as [_ R1]. rewrite R1 in Hr0 by (by eexists). done. }
  assert (tm_devices tm !! tm_allocated tm = None) as Hnew.
  { destruct (tm_devices tm !! tm_allocated tm) as [x |] eqn:E; [apply I5 in E; lia | done]. }
  unfold ends. split; [| split; [done |]].
  - split; tmgr; try done.
    + intros j. rewrite <- I1. destruct (decide (i = j)) as [-> | Hne].
      * rewrite lookup_insert_eq, Hr. by split; eexists.
      * by rewrite lookup_insert_ne.
    + intros j x. destruct (decide (i = j)) as [-> | Hne].
      * rewrite lookup_insert_eq. intros [= <-]. split; [| set_solver].
        split_and!; tmgr; [split; [by eexists | done] | done | done].
      * rewrite lookup_insert_ne by done. intros Hx. destruct (I2 j x Hx) as [? <-]. split; [done | set_solver].
    + intros j [->%elem_of_singleton | ?]%elem_of_union; [done | by apply I3].
    + intros d j. destruct (decide (d = tm_allocated tm)) as [-> | Hne].
      * rewrite lookup_insert_eq. split.
        -- intros [= <-]. rewrite lookup_insert_eq. by eexists.
        -- intros (x & Hx & Hd). destruct (decide (i = j)) as [-> | Hij]; [done |].
           rewrite lookup_insert_ne in Hx by done. exfalso.
           assert (tm_devices tm !! tm_allocated tm = Some (MkDevice j false)) as E by (apply I4; by exists x). congruence.
      * rewrite lookup_insert_ne by done. rewrite I4. destruct (decide (i = j)) as [-> | Hij].
        -- rewrite lookup_insert_eq, Hr. split; intros (x & [= <-] & Hd); [congruence | cbn in Hd; congruence].
        -- by rewrite lookup_insert_ne.
    + intros d x. destruct (decide (d = tm_allocated tm)) as [-> | Hne].
      * rewrite lookup_insert_eq. intros [= <-]. split; [lia | done].
      * rewrite lookup_insert_ne by done. intros Hx%I5. split; [lia | apply Hx].
  - exists (tm_allocated tm). split; [done |]. split_and!; try done. by exists r.
Qed.

(** Releasing the tuner of a device that holds it. *)
Lemma releaseOnce_ok tm d i : inv tm → tm_devices tm !! d = Some (MkDevice i false) →
  returns (releaseOnce processStatus d tm) (λ '(tm', _), inv tm' ∧ tm_changed tm' = tm_changed tm + 1 ∧
    tm_inUse tm' = tm_inUse tm ∖ {[i]} ∧ tm_runtime tm' = <[i := idleRuntime]> (tm_runtime tm) ∧
    tm_tuners tm' = tm_tuners tm ∧ tm_devices tm' = <[d := MkDevice i true]> (tm_devices tm)).
Proof.
  intros Hinv Hd. unfold releaseOnce. rewrite Hd. cbn [md_released md_tuner].
  pose proof Hinv as [I1 I2 I3 I4 I5 I6]. pose proof (proj1 (I4 d i) Hd) as (r & Hr & Hrd).
  destruct (I2 i r Hr) as ((R1 & R2 & R3) & R4).
  assert (i ∈ tm_inUse tm) as Hin by (apply R4, R1; by eexists).
  unfold release. tmgr. rewrite bool_decide_eq_true_2 by done. unfold runtimeAt. tmgr. rewrite Hr. run.
  set (tm' := notifyChangedLocked _).
  assert (inv tm') as Hinv'.
  { unfold tm', notifyChangedLocked. split; tmgr; try done.
    - intros j. rewrite <- I1. destruct (decide (i = j)) as [-> | Hne].
      + rewrite lookup_insert_eq, Hr. by split; eexists.
      + by rewrite lookup_insert_ne.
    - intros j x. destruct (decide (i = j)) as [-> | Hne].
      + rewrite lookup_insert_eq. intros [= <-]. split; [apply idle_ok | cbn; set_solver].
      + rewrite lookup_insert_ne by done. intros Hx. destruct (I2 j x Hx) as [? <-]. split; [done | set_solver].
    - intros j Hj. apply I3. set_solver.
    - intros e j. destruct (decide (e = d)) as [-> | Hne].
      + rewrite lookup_insert_eq. split; [done |]. intros (x & Hx & Hxd).
        destruct (decide (i = j)) as [-> | Hij]; [rewrite lookup_insert_eq in Hx; by injection Hx as <- |].
        rewrite lookup_insert_ne in Hx by done.
        assert (tm_devices tm !! d = Some (MkDevice j false)) as E by (apply I4; by exists x). congruence.
      + rewrite lookup_insert_ne by done. rewrite I4. destruct (decide (i = j)) as [-> | Hij].
        * rewrite lookup_insert_eq, Hr. split; intros (x & [= <-] & Hxd); [congruence | done].
        * by rewrite lookup_insert_ne.
    - intros e x. destruct (decide (e = d)) as [-> | Hne].
      + rewrite lookup_insert_eq. intros [= <-]. by apply (I5 d (MkDevice i false)).
      + rewrite lookup_insert_ne by done. apply I5. }
  unfold statusUpdateLocked. apply safe_bind, safe_fmap.
  eapply safe_mono; [apply (statusLockedByTuner_total tm' i Hinv'); by apply I3 |]. intros s _. by split_and!.
Qed.

(** *** Marks and users *)

Lemma update_ok tm i r r' : inv tm → tm_runtime tm !! i = Some r → runtime_ok r' →
  rt_inUse r' = rt_inUse r → rt_device r' = rt_device r →
  returns (update ← statusUpdateLocked processStatus i (putRuntime i r' tm); Ret (putRuntime i r' tm, update))
    (λ '(tm', _), inv tm' ∧ tm_runtime tm' = <[i := r']> (tm_runtime tm) ∧ tm_changed tm' = tm_changed tm).
Proof.
  intros Hinv Hr Hok Hu Hd. pose proof (inv_putRuntime tm i r r' Hinv Hr Hok Hu Hd) as Hinv'.
  unfold statusUpdateLocked. apply safe_bind, safe_fmap. eapply safe_mono.
  { apply (statusLockedByTuner_total _ i Hinv'). apply (iv_runtime _ Hinv). by eexists. }
  intros s _. by split_and!.
Qed.

(** A mark changes the tuner that is reserved for the device, and no other. *)
Lemma onDevice_ok d update tm x : inv tm → tm_devices tm !! d = Some x →
  (∀ r, rt_inUse r = true → runtime_ok r → runtime_ok (update r)) →
  (∀ r, rt_inUse (update r) = rt_inUse r ∧ rt_device (update r) = rt_device r) →
  returns (onDevice processStatus d update tm) (λ '(tm', _), inv tm' ∧ tm_changed tm' = tm_changed tm ∧
    (md_released x = true → tm' = tm) ∧
    ∃ r, tm_runtime tm !! md_tuner x = Some r ∧
      tm_runtime tm' = if holdsTuner d r then <[md_tuner x := update r]> (tm_runtime tm) else tm_runtime tm).
Proof.
  intros Hinv Hd Hok Hsame. unfold onDevice, updateRuntimeStatusLocked. rewrite Hd.
  destruct (inv_runtime tm (md_tuner x) Hinv) as (_ & r & _ & Hr); [by apply (iv_devices _ Hinv d x) |].
  rewrite Hr. destruct (holdsTuner d r) eqn:Hh.
  - unfold holdsTuner in Hh. apply andb_true_iff in Hh as [Hu Hdev%bool_decide_eq_true].
    destruct (iv_ok _ Hinv _ _ Hr) as [Hrok _].
    eapply safe_mono; [apply (update_ok tm (md_tuner x) r (update r)); try done; [by apply Hok | apply Hsame | apply Hsame] |].
    intros [tm' s] (I & E & C). split_and!; try done.
    + intros Hrel. exfalso. assert (tm_devices tm !! d = Some (MkDevice (md_tuner x) false)) as E2.
      { apply (iv_held _ Hinv). by exists r. }
      rewrite Hd in E2. destruct x as [i b]. cbn in *. congruence.
    + exists r. split; [done |]. unfold holdsTuner. by rewrite Hu, bool_decide_eq_true_2.
  - split_and!; try done. exists r. by rewrite Hh.
Qed.

Lemma setRun_ok running stopped fault r : rt_inUse r = true → runtime_ok r → runtime_ok (setRun running stopped fault r).
Proof. intros Hu (R1 & _ & R3). split_and!; [done | by tmgr; rewrite Hu | done]. Qed.

Lemma users_ok r users : runtime_ok r →
  (∀ id u, users !! id = Some u → u_ID (tu_user u) = id ∧ id ≠ "" ∧ 0 < tu_refs u) → runtime_ok (setUsers users r).
Proof. intros (R1 & R2 & _) Hu. by split_and!. Qed.

Lemma addUser_ok i user tm : inv tm → (i < length (tm_tuners tm))%nat →
  returns (addUser processStatus i user tm) (λ '(tm', _), inv tm').
Proof.
  intros Hinv Hi. unfold addUser. case_bool_decide as Hid; [done |].
  destruct (inv_runtime tm i Hinv Hi) as (_ & r & _ & Hr). unfold runtimeAt. rewrite Hr. run.
  destruct (iv_ok _ Hinv _ _ Hr) as [Hok _]. pose proof Hok as (_ & _ & R3).
  eapply safe_mono; [apply (update_ok tm i r); try done | by intros [tm' s] (? & _)].
  apply users_ok; [done |]. intros id u. destruct (decide (id = u_ID user)) as [-> | Hne].
  - rewrite lookup_insert_eq. intros [= <-]. destruct (rt_users r !! u_ID user) as [tracked |] eqn:E; cbn.
    + destruct (R3 _ _ E) as (_ & _ & ?). split_and!; [by destruct (u_StreamInfo user) | done | lia].
    + split_and!; [done | done | lia].
  - rewrite lookup_insert_ne by done. apply R3.
Qed.

Lemma updateUserStreamInfo_ok i id key info tm : inv tm → (i < length (tm_tuners tm))%nat →
  returns (updateUserStreamInfo i id key info tm) inv.
Proof.
  intros Hinv Hi. unfold updateUserStreamInfo.
  destruct (inv_runtime tm i Hinv Hi) as (_ & r & _ & Hr). unfold runtimeAt. rewrite Hr. run. unfold ends.
  destruct (rt_users r !! id) as [tracked |] eqn:E; [| done].
  destruct (iv_ok _ Hinv _ _ Hr) as [Hok _]. pose proof Hok as (_ & _ & R3).
  apply (inv_putRuntime tm i r); try done. apply users_ok; [done |]. intros x u.
  destruct (decide (id = x)) as [-> | Hne].
  - rewrite lookup_insert_eq. intros [= <-]. by apply (R3 _ _ E).
  - rewrite lookup_insert_ne by done. apply R3.
Qed.

Lemma removeUser_ok i id tm : inv tm → (i < length (tm_tuners tm))%nat →
  returns (removeUser processStatus i id tm) (λ '(tm', _), inv tm').
Proof.
  intros Hinv Hi. unfold removeUser.
  destruct (inv_runtime tm i Hinv Hi) as (_ & r & _ & Hr). unfold runtimeAt. rewrite Hr. run.
  destruct (rt_users r !! id) as [tracked |] eqn:E; [| done].
  destruct (iv_ok _ Hinv _ _ Hr) as [Hok _]. pose proof Hok as (_ & _ & R3). destruct (R3 _ _ E) as (U1 & U2 & U3).
  eapply safe_mono; [apply (update_ok tm i r); try done | by intros [tm' s] (? & _)].
  apply users_ok; [done |]. intros x u. destruct (Z.eqb_spec (tu_refs tracked - 1) 0) as [H0 | H0].
  - intros [_ Hx]%lookup_delete_Some. by apply R3.
  - destruct (decide (id = x)) as [-> | Hne].
    + rewrite lookup_insert_eq. intros [= <-]. cbn. split_and!; [done | done | lia].
    + rewrite lookup_insert_ne by done. apply R3.
Qed.

(** *** An attempt to acquire a tuner *)

(** A tuner whose device could be stopped for a request, and the priority of
    those it serves. *)
Definition victim (channelType : string) (tm : TunerManager) (i d : nat) (q : Z) : Prop :=
  ∃ t r, tm_tuners tm !! i = Some t ∧ tm_runtime tm !! i = Some r ∧ serves channelType t = true ∧
    Usable t = true ∧ rt_fault r = false ∧ i ∈ tm_inUse tm ∧ rt_device r = Some d ∧ effectivePriority r = q.

(** Among the tuners [seen] the candidate [g] has the lowest priority, which is
    lower than the request's. *)
Definition bestOf (channelType : string) (priority : Z) (tm : TunerManager) (seen : list nat) (g : grabCandidate) : Prop :=
  match g_device g with
  | None => ∀ i d q, i ∈ seen → victim channelType tm i d q → priority ≤ q
  | Some d => g_priority g < priority ∧ (∃ i, i ∈ seen ∧ victim channelType tm i d (g_priority g)) ∧
      ∀ i' d' q', i' ∈ seen → victim channelType tm i' d' q' → g_priority g ≤ q'
  end.

Lemma bestOf_skip ty p tm seen g i : bestOf ty p tm seen g → (∀ d q, ¬ victim ty tm i d q) → bestOf ty p tm (seen ++ [i]) g.
Proof.
  unfold bestOf. intros Hg Hi. destruct (g_device g).
  - destruct Hg as (G1 & (j & Hj & G2) & G3). split_and!; [done | exists j; split; [set_solver | done] |].
    intros i' d' q' [? | ->%list_elem_of_singleton]%elem_of_app Hv; [by eapply G3 | by destruct (Hi d' q')].
  - intros i' d' q' [? | ->%list_elem_of_singleton]%elem_of_app Hv; [by eapply Hg | by destruct (Hi d' q')].
Qed.

Lemma victim_fun ty tm i d d' q q' : victim ty tm i d q → victim ty tm i d' q' → d = d' ∧ q = q'.
Proof. intros (t & r & _ & H1 & _ & _ & _ & _ & H2 & H3) (t' & r' & _ & H1' & _ & _ & _ & _ & H2' & H3'). split; congruence. Qed.

Lemma bestOf_grab ty p tm seen g i t r d : bestOf ty p tm seen g → tm_runtime tm !! i = Some r →
  rt_device r = Some d → victim ty tm i d (effectivePriority r) →
  bestOf ty p tm (seen ++ [i]) (betterGrabCandidate g t r p).
Proof.
  intros Hg Hr Hd Hv. unfold betterGrabCandidate. rewrite Hd.
  assert (∀ i' d' q', i' ∈ seen ++ [i] → victim ty tm i' d' q' → i' ∈ seen ∧ victim ty tm i' d' q' ∨ q' = effectivePriority r) as Hcase.
  { intros i' d' q' [? | ->%list_elem_of_singleton]%elem_of_app Hv'; [by left | right]. by destruct (victim_fun _ _ _ _ _ _ _ Hv Hv'). }
  unfold bestOf in *. destruct (Z.leb_spec p (effectivePriority r)) as [Hle | Hlt].
  - destruct (g_device g) as [e |].
    + destruct Hg as (G1 & (j & Hj & G2) & G3). split_and!; [done | exists j; split; [set_solver | done] |].
      intros i' d' q' Hi' Hv'. destruct (Hcase i' d' q' Hi' Hv') as [[? ?] | ->]; [by eapply G3 | lia].
    + intros i' d' q' Hi' Hv'. destruct (Hcase i' d' q' Hi' Hv') as [[? ?] | ->]; [by eapply Hg | lia].
  - assert (∃ j, j ∈ seen ++ [i] ∧ victim ty tm j d (effectivePriority r)) as Hnew by (exists i; split; [set_solver | done]).
    destruct (g_device g) as [e |] eqn:E.
    + destruct Hg as (G1 & (j & Hj & G2) & G3). destruct (Z.leb_spec (g_priority g) (effectivePriority r)).
      * rewrite E. split_and!; [done | exists j; split; [set_solver | done] |].
        intros i' d' q' Hi' Hv'. destruct (Hcase i' d' q' Hi' Hv') as [[? ?] | ->]; [by eapply G3 | lia].
      * cbn. split_and!; [done | done |].
        intros i' d' q' Hi' Hv'. destruct (Hcase i' d' q' Hi' Hv') as [[? Hv''] | ->]; [| lia]. specialize (G3 i' d' q' H0 Hv''). lia.
    + cbn. split_and!; [done | done |].
      intros i' d' q' Hi' Hv'. destruct (Hcase i' d' q' Hi' Hv') as [[? Hv''] | ->]; [| lia]. specialize (Hg i' d' q' H Hv''). lia.
Qed.

(** What an attempt that reserved nothing knows about the tuners [seen]. *)
Record surveyed (channelType : string) (priority : Z) (tm : TunerManager) (seen : list nat) (a : acquireAttempt) : Prop := {
  su_device : a_device a = None;
  su_found : a_found a = true ↔ ∃ i t, i ∈ seen ∧ tm_tuners tm !! i = Some t ∧ serves channelType t = true;
  su_usable : a_usable a = true ↔
    ∃ i t, i ∈ seen ∧ tm_tuners tm !! i = Some t ∧ serves channelType t = true ∧ Usable t = true;
  su_grab : bestOf channelType priority tm seen (a_grab a);
  su_changed : a_changed a = tm_changed tm;
  su_free : ∀ i, i ∈ seen → ¬ free channelType tm i
}.

(** The [k]-th tuner an attempt looks at. *)
Definition turn (start k : nat) (tm : TunerManager) : nat := ((start + k) mod length (tm_tuners tm))%nat.

(** What a loop that found nothing, or the first free tuner, returns. *)
Definition attempted (ty : string) (p : Z) (requested tuned : option ChannelConfig) (start : nat)
    (seen offsets : list nat) (tm tm' : TunerManager) (a : acquireAttempt) : Prop :=
  match a_device a with
  | None => tm' = tm ∧ surveyed ty p tm (seen ++ map (λ k, turn start k tm) offsets) a
  | Some d => ∃ pre k post t, offsets = pre ++ k :: post ∧ (∀ k', k' ∈ pre → ¬ free ty tm (turn start k' tm)) ∧
      free ty tm (turn start k tm) ∧ reserves p requested tuned (turn start k tm) d tm tm' ∧
      tm_tuners tm !! turn start k tm = Some t ∧ a_decoder a = t_Decoder t ∧
      tm_nextByType tm' = <[ty := turn (turn start k tm) 1 tm]> (tm_nextByType tm)
  end.

Lemma attempted_next ty p req tun start seen offset offsets tm tm' a :
  ¬ free ty tm (turn start offset tm) →
  attempted ty p req tun start (seen ++ [turn start offset tm]) offsets tm tm' a →
  attempted ty p req tun start seen (offset :: offsets) tm tm' a.
Proof.
  unfold attempted. intros Hno. destruct (a_device a) as [d |].
  - intros (pre & k & post & t & -> & Hpre & H). exists (offset :: pre), k, post, t. split; [done |]. split; [| done].
    intros k' [-> | ?]%elem_of_cons; [done | by apply Hpre].
  - by rewrite <- app_assoc.
Qed.

Lemma surveyed_next ty p tm seen i t a a' : surveyed ty p tm seen a → tm_tuners tm !! i = Some t →
  ¬ free ty tm i → a_device a' = None → a_changed a' = a_changed a →
  a_found a' = a_found a || serves ty t → a_usable a' = a_usable a || (serves ty t && Usable t) →
  bestOf ty p tm (seen ++ [i]) (a_grab a') → surveyed ty p tm (seen ++ [i]) a'.
Proof.
  intros [A1 A2 A3 A4 A5 A6] Ht Hno Hd Hc Hf Hu Hg.
  assert (∀ P : Tuner → Prop, (∃ j x, j ∈ seen ++ [i] ∧ tm_tuners tm !! j = Some x ∧ P x) ↔
    (∃ j x, j ∈ seen ∧ tm_tuners tm !! j = Some x ∧ P x) ∨ P t) as Hsplit.
  { intros P. split.
    - intros (j & x & [? | ->%list_elem_of_singleton]%elem_of_app & Hx & ?); [left; by exists j, x | right; congruence].
    - intros [(j & x & ? & ? & ?) | ?]; [exists j, x | exists i, t]; split_and!; try done; set_solver. }
  split; try done.
  - by rewrite Hf, orb_true_iff, A2, Hsplit.
  - rewrite Hu, orb_true_iff, A3, andb_true_iff. by rewrite (Hsplit (λ x, serves ty x = true ∧ Usable x = true)).
  - congruence.
  - intros j [? | ->%list_elem_of_singleton]%elem_of_app; [by apply A6 | done].
Qed.

Lemma acquireLoop_ok ty p req tun start offsets : ∀ seen a tm, inv tm → tm_tuners tm ≠ [] →
  surveyed ty p tm seen a →
  returns (acquireLoop processStatus ty p req tun start offsets a tm)
    (λ '(tm', a'), inv tm' ∧ attempted ty p req tun start seen offsets tm tm' a').
Proof.
  induction offsets as [| offset offsets IH]; intros seen a tm Hinv Hne Ha; cbn [acquireLoop].
  { split; [done |]. unfold attempted. rewrite (su_device _ _ _ _ _ Ha). cbn. by rewrite app_nil_r. }
  fold (turn start offset tm). set (i := turn start offset tm).
  assert (i < length (tm_tuners tm))%nat as Hi by (apply Nat.mod_upper_bound; by destruct (tm_tuners tm)).
  destruct (inv_runtime tm i Hinv Hi) as (t & r & Ht & Hr).
  destruct (iv_ok _ Hinv i r Hr) as ((R1 & R2 & R3) & R4).
  unfold tunerAt. rewrite Ht. run. pose proof Ha as [A1 A2 A3 A4 A5 A6].
  assert (∀ a', ¬ free ty tm i → surveyed ty p tm (seen ++ [i]) a' →
    returns (acquireLoop processStatus ty p req tun start offsets a' tm)
      (λ '(tm', a'), inv tm' ∧ attempted ty p req tun start seen (offset :: offsets) tm tm' a')) as Hgo.
  { intros a' Hno Ha'. eapply safe_mono; [by apply (IH (seen ++ [i])) |].
    intros [tm' a2] [? ?]. split; [done | by apply attempted_next]. }
  destruct (serves ty t) eqn:Hserves; cbn [negb].
  2: { assert (¬ free ty tm i) as Hno by (intros (t' & r' & ? & _ & ? & _); congruence).
       apply Hgo; [done |]. eapply surveyed_next; try done; rewrite ?Hserves, ?orb_false_r; try done.
       apply bestOf_skip; [done |]. intros d q (t' & r' & ? & _ & ? & _). congruence. }
  destruct (Usable t) eqn:Husable; cbn [negb].
  2: { assert (¬ free ty tm i) as Hno by (intros (t' & r' & ? & _ & _ & ? & _); congruence).
       apply Hgo; [done |]. eapply surveyed_next; try done; cbn; rewrite ?Hserves, ?Husable, ?orb_false_r, ?orb_true_r; try done.
       apply bestOf_skip; [done |]. intros d q (t' & r' & ? & _ & _ & ? & _). congruence. }
  unfold runtimeAt. rewrite Hr. run.
  destruct (rt_fault r) eqn:Hfault.
  { assert (¬ free ty tm i) as Hno by (intros (t' & r' & _ & ? & _ & _ & ? & _); congruence).
    apply Hgo; [done |]. eapply surveyed_next; try done; cbn; rewrite ?Hserves, ?Husable, ?orb_true_r; try done.
    apply bestOf_skip; [done |]. intros d q (t' & r' & _ & ? & _ & _ & ? & _). congruence. }
  case_bool_decide as Hin.
  { assert (¬ free ty tm i) as Hno by (by intros (t' & r' & _ & _ & _ & _ & _ & ?)).
    apply Hgo; [done |]. eapply surveyed_next; try done; cbn; rewrite ?Hserves, ?Husable, ?orb_true_r; try done.
    destruct (proj1 R1 (proj1 R4 Hin)) as [d Hd]. eapply bestOf_grab; try done. by exists t, r. }
  apply safe_bind. eapply safe_mono; [by apply (reserveLocked_ok tm i t) |].
  intros [tm' res] (Hinv' & Hnext & d & -> & Hres). run. pose proof Hres as (Hnew & Hdev & _ & _ & Htun & _).
  set (tm2 := setNextByType _ tm').
  assert (inv tm2) as Hinv2.
  { destruct Hinv' as [I1 I2 I3 I4 I5 I6]. split; try done. unfold tm2. tmgr. intros ty' j.
    destruct (decide (ty = ty')) as [-> | Hty]; [| rewrite lookup_insert_ne by done; apply I6].
    rewrite lookup_insert_eq. intros [= <-]. apply Nat.mod_upper_bound. rewrite Htun. by destruct (tm_tuners tm). }
  apply safe_bind. eapply safe_mono; [apply (statusLockedByTuner_total tm2 i Hinv2); unfold tm2; tmgr; by rewrite Htun |].
  intros s _. split; [done |]. unfold attempted. cbn [a_device a_decoder].
  exists [], offset, offsets, t. split; [done |]. split; [by intros ? ?%elem_of_nil |].
  split; [by exists t, r |]. split; [by destruct Hres as (? & ? & ? & ? & ? & ?) |].
  split; [done |]. split; [done |]. unfold tm2. tmgr. rewrite Hnext. unfold turn. by rewrite Htun.
Qed.

Lemma turn_onto start tm i : (start < length (tm_tuners tm))%nat → (i < length (tm_tuners tm))%nat →
  ∃ k, (k < length (tm_tuners tm))%nat ∧ turn start k tm = i.
Proof.
  intros Hs Hi. unfold turn. destruct (decide (start ≤ i)%nat).
  - exists (i - start)%nat. split; [lia |]. replace (start + (i - start))%nat with i by lia. by apply Nat.mod_small.
  - exists (i + length (tm_tuners tm) - start)%nat. split; [lia |].
    replace (start + (i + length (tm_tuners tm) - start))%nat with (i + 1 * length (tm_tuners tm))%nat by lia.
    rewrite Nat.Div0.mod_add. by apply Nat.mod_small.
Qed.

Lemma surveyed_equiv ty p tm l l' a : (∀ i, i ∈ l ↔ i ∈ l') → surveyed ty p tm l a → surveyed ty p tm l' a.
Proof.
  intros Hl [A1 A2 A3 A4 A5 A6]. split; try done.
  - rewrite A2. by setoid_rewrite Hl.
  - rewrite A3. by setoid_rewrite Hl.
  - revert A4. unfold bestOf. destruct (g_device _); by setoid_rewrite Hl.
  - intros i Hi. by apply A6, Hl.
Qed.

(** Where the round-robin order of this type starts. *)
Definition first (ty : string) (tm : TunerManager) : nat := default 0%nat (tm_nextByType tm !! ty).

Lemma tryAcquireLocked_ok ty p req tun tm : inv tm →
  returns (tryAcquireLocked processStatus ty p req tun tm) (λ '(tm', a), inv tm' ∧
    match a_device a with
    | None => tm' = tm ∧ surveyed ty p tm (seq 0 (length (tm_tuners tm))) a
    | Some d => ∃ k t, (k < length (tm_tuners tm))%nat ∧ free ty tm (turn (first ty tm) k tm) ∧
        (∀ k', (k' < k)%nat → ¬ free ty tm (turn (first ty tm) k' tm)) ∧
        reserves p req tun (turn (first ty tm) k tm) d tm tm' ∧
        tm_tuners tm !! turn (first ty tm) k tm = Some t ∧ a_decoder a = t_Decoder t ∧
        tm_nextByType tm' = <[ty := turn (turn (first ty tm) k tm) 1 tm]> (tm_nextByType tm)
    end).
Proof.
  intros Hinv. unfold tryAcquireLocked. fold (first ty tm).
  assert (surveyed ty p tm [] (MkAttempt None "" false false noGrab (tm_changed tm) None)) as H0.
  { split; try done; cbn.
    - split; [done | by intros (i & t & ?%elem_of_nil & _)].
    - split; [done | by intros (i & t & ?%elem_of_nil & _)].
    - by intros i d q ?%elem_of_nil.
    - by intros i ?%elem_of_nil. }
  destruct (decide (tm_tuners tm = [])) as [Hnil | Hne].
  { rewrite Hnil. split; [done |]. cbn. by split. }
  assert (first ty tm < length (tm_tuners tm))%nat as Hfirst.
  { unfold first. destruct (tm_nextByType tm !! ty) eqn:E; [by apply (iv_next _ Hinv ty) |].
    cbn. destruct (tm_tuners tm); [done | cbn; lia]. }
  eapply safe_mono; [by apply (acquireLoop_ok ty p req tun (first ty tm) _ [] _ tm) |].
  intros [tm' a] [Hinv' Ha]. split; [done |]. unfold attempted in Ha. destruct (a_device a) as [d |].
  - destruct Ha as (pre & k & post & t & Hseq & Hpre & H).
    assert (length pre = k) as Hk.
    { assert (seq 0 (length (tm_tuners tm)) !! length pre = Some k) as E by (by rewrite Hseq, list_lookup_middle).
      apply lookup_seq in E. lia. }
    exists k, t. split; [| split; [apply H | split; [| apply H]]].
    + apply (f_equal length) in Hseq. rewrite length_seq, length_app in Hseq. cbn in Hseq. lia.
    + intros k' Hk'. apply Hpre. apply list_elem_of_lookup. exists k'.
      rewrite <- (lookup_app_l pre (k :: post)) by lia. rewrite <- Hseq. apply lookup_seq.
      apply (f_equal length) in Hseq. rewrite length_seq, length_app in Hseq. cbn in Hseq. lia.
  - destruct Ha as [-> Ha]. split; [done |]. eapply surveyed_equiv; [| done]. intros i. cbn [app].
    rewrite list_elem_of_fmap, elem_of_seq. setoid_rewrite elem_of_seq. split.
    + intros (k & -> & _). split; [lia |]. apply Nat.mod_upper_bound. lia.
    + intros [_ Hi]. destruct (turn_onto (first ty tm) tm i) as (k & ? & ?); [done | lia |]. exists k. split; [done | lia].
Qed.

(** Stopping the device an attempt chose closes the attempt's channel and frees
    its tuner. *)
Lemma Stop_victim ty tm i d q : inv tm → victim ty tm i d q →
  returns (Stop processStatus d tm) (λ tm', inv tm' ∧ tm_changed tm' = tm_changed tm + 1 ∧ tm_tuners tm' = tm_tuners tm ∧
    ∀ j, free ty tm' j ↔ free ty tm j ∨ j = i).
Proof.
  intros Hinv (t & r & Ht & Hr & V1 & V2 & V3 & V4 & V5 & V6). unfold Stop. apply safe_bind.
  eapply safe_mono; [apply (releaseOnce_ok tm d i); [done |]; apply (iv_held _ Hinv); by exists r |].
  intros [tm' s] (Hinv' & Hc & Hu & Hrt & Htun & _). split_and!; try done. intros j. unfold free. rewrite Hu, Hrt, Htun.
  destruct (decide (i = j)) as [-> | Hne].
  - rewrite lookup_insert_eq. split; [by right |]. intros _. exists t, idleRuntime. split_and!; try done. set_solver.
  - rewrite lookup_insert_ne by done. split; [| intros [H | ->]; [| done]].
    + intros (t' & r' & H). left. exists t', r'. set_solver.
    + destruct H as (t' & r' & H). exists t', r'. set_solver.
Qed.

End Operations.

(** ** The manager as a transition system *)

(** The critical sections, in any order: an attempt to acquire, and what the
    holders of devices do with them - also with one whose tuner has been taken
    away. *)
Inductive action : Type :=
| TryAcquire (channelType : string) (priority : Z) (requested tuned : option ChannelConfig)
| ReleaseOnce (d : nat)
| MarkRunning (d : nat)
| MarkStopped (d : nat)
| MarkFault (d : nat)
| AddUser (d : nat) (user : User)
| UpdateUserStreamInfo (d : nat) (userID key : string) (info : StreamInfo)
| RemoveUser (d : nat) (id : string).

(** A device can be used once it was handed out. *)
Definition deviceOf (a : action) : option nat :=
  match a with
  | TryAcquire _ _ _ _ => None
  | ReleaseOnce d | MarkRunning d | MarkStopped d | MarkFault d | AddUser d _ | UpdateUserStreamInfo d _ _ _
  | RemoveUser d _ => Some d
  end.

Definition enabled (a : action) (tm : TunerManager) : bool :=
  match deviceOf a with None => true | Some d => bool_decide (is_Some (tm_devices tm !! d)) end.

Definition tunerOf (d : nat) (tm : TunerManager) : outcome nat :=
  match tm_devices tm !! d with Some x => Ret (md_tuner x) | None => Panic end.

Section System.
Context {O : UserOrder} (processStatus : nat → ProcessInfo).

Definition perform (a : action) (tm : TunerManager) : outcome TunerManager :=
  match a with
  | TryAcquire ty p req tun => fst <$> tryAcquireLocked processStatus ty p req tun tm
  | ReleaseOnce d => fst <$> releaseOnce processStatus d tm
  | MarkRunning d => fst <$> markRunning processStatus d tm
  | MarkStopped d => fst <$> markStopped processStatus d tm
  | MarkFault d => fst <$> markFault processStatus d tm
  | AddUser d user => i ← tunerOf d tm; fst <$> addUser processStatus i user tm
  | UpdateUserStreamInfo d id key info => i ← tunerOf d tm; updateUserStreamInfo i id key info tm
  | RemoveUser d id => i ← tunerOf d tm; fst <$> removeUser processStatus i id tm
  end.

Inductive reachable (tuners : list Tuner) : TunerManager → Prop :=
| reachable_new : reachable tuners (NewTunerManager tuners)
| reachable_step tm a tm' : reachable tuners tm → enabled a tm = true → perform a tm = Ret tm' → reachable tuners tm'.

Lemma tuner_perform_ok a tm : inv tm → enabled a tm = true → returns (perform a tm) inv.
Proof.
  intros Hinv He.
  assert (∀ d, tm_devices tm !! d ≠ None → ∃ x, tm_devices tm !! d = Some x ∧ (md_tuner x < length (tm_tuners tm))%nat) as Hdev.
  { intros d Hd. destruct (tm_devices tm !! d) as [x |] eqn:E; [| done]. exists x. split; [done |]. by apply (iv_devices _ Hinv d). }
  unfold enabled in He. destruct a; cbn [perform deviceOf] in *.
  { apply safe_fmap. eapply safe_mono; [by apply tryAcquireLocked_ok |]. by intros [tm' a] [? _]. }
  all: apply bool_decide_eq_true in He; destruct (Hdev d) as (x & Hx & Hlt); [by rewrite <- not_eq_None_Some in He |].
  2-4: apply safe_fmap; eapply safe_mono; [eapply onDevice_ok; [done | done | intros; by apply setRun_ok | done] | by intros [? ?] [? _]].
  2-4: unfold tunerOf; rewrite Hx; run.
  - apply safe_fmap. destruct x as [i []].
    + unfold releaseOnce. by rewrite Hx.
    + eapply safe_mono; [by apply (releaseOnce_ok processStatus tm d i) | by intros [? ?] [? _]].
  - apply safe_fmap. eapply safe_mono; [by apply addUser_ok | by intros [? ?] ?].
  - by apply updateUserStreamInfo_ok.
  - apply safe_fmap. eapply safe_mono; [by apply removeUser_ok | by intros [? ?] ?].
Qed.

Lemma tuners_reachable_inv tuners tm : reachable tuners tm → inv tm.
Proof.
  induction 1 as [| tm a tm' _ Hinv He Hp]; [apply NewTunerManager_ok |].
  pose proof (tuner_perform_ok a tm Hinv He) as H. by rewrite Hp in H.
Qed.

(** A sequence of actions, each where it is enabled. *)
Definition performAll (l : list action) (tm : TunerManager) : outcome TunerManager :=
  foldM (λ tm a, if enabled a tm then perform a tm else Panic) l tm.

Lemma tuner_performAll_reachable tuners l : ∀ tm tm', reachable tuners tm → performAll l tm = Ret tm' → reachable tuners tm'.
Proof.
  unfold performAll. induction l as [| a l IH]; intros tm tm' Hm; cbn [foldM]; [by intros [= <-] |].
  destruct (enabled a tm) eqn:He; [| done]. destruct (perform a tm) as [m1 | | |] eqn:E; try done.
  apply IH. by eapply reachable_step.
Qed.

End System.

(** ** Theorems *)

(** C7 (invariant): in every reachable state a tuner is reserved for at most one
    device that has not released it, exactly the reserved tuners are in use and
    the others are idle, the users of a tuner have positive counts, and no
    critical section panics - whatever the order in which they come, and also
    when a device is used after its tuner was taken away. *)
Theorem tuner_manager_invariant {O : UserOrder} processStatus tuners tm : reachable processStatus tuners tm →
  inv tm ∧ (∀ d1 d2 i, tm_devices tm !! d1 = Some (MkDevice i false) → tm_devices tm !! d2 = Some (MkDevice i false) →
    d1 = d2) ∧
  ∀ a, enabled a tm = true → ∃ tm', perform processStatus a tm = Ret tm' ∧ inv tm'.
Proof.
  intros Hm. pose proof (tuners_reachable_inv _ _ _ Hm) as Hinv. split; [done |]. split.
  - intros d1 d2 i (r & Hr & H1)%(iv_held _ Hinv) (r2 & Hr2 & H2)%(iv_held _ Hinv). congruence.
  - intros a He. pose proof (tuner_perform_ok processStatus a tm Hinv He) as H.
    destruct (perform processStatus a tm) as [tm' | | |]; try done. by exists tm'.
Qed.

(** An attempt reserves the first tuner in round-robin order
    that is enabled, of the type, usable, without a fault and not in use, for a
    new device, and the next attempt for the type starts behind it.  When there
    is none nothing changes, and the attempt tells whether a tuner of the type
    exists, whether one is usable, and which of those in use serves the lowest
    priority, provided that is lower than the request's. *)
Theorem tryAcquire_spec {O : UserOrder} processStatus tuners ty p requested tuned tm :
  reachable processStatus tuners tm →
  returns (tryAcquireLocked processStatus ty p requested tuned tm) (λ '(tm', a),
    match a_device a with
    | None => tm' = tm ∧ surveyed ty p tm (seq 0 (length (tm_tuners tm))) a
    | Some d => ∃ k t, (k < length (tm_tuners tm))%nat ∧ free ty tm (turn (first ty tm) k tm) ∧
        (∀ k', (k' < k)%nat → ¬ free ty tm (turn (first ty tm) k' tm)) ∧
        reserves p requested tuned (turn (first ty tm) k tm) d tm tm' ∧
        tm_tuners tm !! turn (first ty tm) k tm = Some t ∧ a_decoder a = t_Decoder t ∧
        tm_nextByType tm' = <[ty := turn (turn (first ty tm) k tm) 1 tm]> (tm_nextByType tm)
    end).
Proof.
  intros Hm%tuners_reachable_inv. eapply safe_mono; [by apply tryAcquireLocked_ok |]. by intros [tm' a] [_ H].
Qed.

(** C34 (liveness): when a request chooses a device to grab, all the users of its
    tuner have a lower priority, stopping it closes the channel the request
    waits for, and the request's next attempt, if no other comes first, acquires
    that tuner. *)
Theorem grab_succeeds {O : UserOrder} processStatus tuners ty p requested tuned wait tm tm1 d c :
  reachable processStatus tuners tm →
  acquireRound processStatus ty p requested tuned wait tm = Ret (tm1, GrabAndWait d c) →
  tm1 = tm ∧ ∃ i r, tm_devices tm !! d = Some (MkDevice i false) ∧ tm_runtime tm !! i = Some r ∧
    rt_reservationPriority r < p ∧ (∀ id u, rt_users r !! id = Some u → u_Priority (tu_user u) < p) ∧
    returns (Stop processStatus d tm) (λ tm2, c < tm_changed tm2 ∧
      returns (acquireRound processStatus ty p requested tuned wait tm2) (λ '(tm3, next),
        ∃ d' decoder status, next = Acquired d' decoder status ∧ tm_devices tm3 !! d' = Some (MkDevice i false))).
Proof.
  intros Hm%tuners_reachable_inv Hround. pose proof (tryAcquireLocked_ok processStatus ty p requested tuned tm Hm) as Htry.
  unfold acquireRound in Hround. destruct (tryAcquireLocked _ _ _ _ _ tm) as [[tm' a] | | |]; try done.
  destruct Htry as [_ Htry]. cbn in Hround. injection Hround as -> Hnext.
  destruct (a_device a) as [e |] eqn:Ea; [done |]. destruct Htry as [-> Hs]. destruct Hs as [_ S2 S3 S4 S5 S6].
  destruct (a_found a); [| done]. destruct (a_usable a); [| done]. cbn in Hnext.
  unfold bestOf in S4. destruct (g_device (a_grab a)) as [d' |] eqn:Eg; [| by destruct wait].
  injection Hnext as -> <-. destruct S4 as (Hlt & (i & Hi & Hv) & _). split; [done |].
  pose proof Hv as (t & r & Ht & Hr & _ & _ & _ & _ & Hd & Hq). exists i, r.
  destruct (effectivePriority_spec r) as (_ & Hres & Hus). rewrite <- Hq in Hlt.
  split_and!; [apply (iv_held _ Hm); by exists r | done | lia | intros id u Hu%Hus; lia |].
  eapply safe_mono; [by apply (Stop_victim processStatus ty tm i d (g_priority (a_grab a))) |].
  intros tm2 (Hm2 & Hc & Htun & Hfree). split; [lia |]. unfold acquireRound. apply safe_bind.
  eapply safe_mono; [by apply tryAcquireLocked_ok |]. intros [tm3 a3] [_ H3].
  assert (i < length (tm_tuners tm))%nat as Hlen by (by apply lookup_lt_Some in Ht).
  assert (∀ j, free ty tm2 j → j = i) as Honly.
  { intros j [Hj | ->]%Hfree; [| done]. exfalso. apply (S6 j); [| done].
    destruct Hj as (t' & _ & Hj%lookup_lt_Some & _). apply elem_of_seq. lia. }
  destruct (a_device a3) as [d3 |].
  - destruct H3 as (k & t3 & _ & Hk%Honly & _ & (_ & Hdev & _) & _).
    exists d3, (a_decoder a3), (a_status a3). split; [done |]. cbn [fst]. rewrite Hdev, Hk. apply lookup_insert_eq.
  - destruct H3 as [_ [_ _ _ _ _ H6]]. exfalso. apply (H6 i); [apply elem_of_seq; rewrite Htun; lia | apply Hfree; by right].
Qed.

(** ** Examples *)

#[global] Instance sampleUserOrder : UserOrder := {| usersOf := map_to_list; usersOf_perm m := reflexivity _ |}.

Definition sampleProcess (d : nat) : ProcessInfo := MkProcess "recpt1" (100 + Z.of_nat d).
Definition sampleTuners : list Tuner :=
  [MkTuner "PT3-S0" ["BS"; "CS"] "recpt1" "" "" false; MkTuner "PT3-T0" ["GR"] "recpt1" "" "arib-b25" false;
   MkTuner "PT3-T1" ["GR"] "recpt1" "" "" true; MkTuner "PX-T2" ["GR"; "GR"] "recpt1" "" "" false].
Definition sampleChannel : option ChannelConfig := Some (MkChannel "NHK" "GR" "27").
Definition sampleUser (id : string) (priority : Z) : User :=
  MkUser id priority "EPGStation" "" false (MkStreamSetting sampleChannel None None None None None None None) None.

(** Two terrestrial tuners are in use, one by a user of priority 3. *)
Definition sampleActions : list action :=
  [TryAcquire "GR" 0 sampleChannel sampleChannel; MarkRunning 0; AddUser 0 (sampleUser "a" 3);
   TryAcquire "GR" 1 sampleChannel sampleChannel; MarkRunning 1].
Definition after (l : list action) : TunerManager :=
  match performAll sampleProcess l (NewTunerManager sampleTuners) with Ret tm => tm | _ => NewTunerManager sampleTuners end.
Definition possible (l : list action) : bool :=
  match performAll sampleProcess l (NewTunerManager sampleTuners) with Ret _ => true | _ => false end.
Definition sampleManager : TunerManager := after sampleActions.

Lemma tuner_after_reachable l : possible l = true → reachable sampleProcess sampleTuners (after l).
Proof.
  unfold possible, after. destruct (performAll _ _ _) as [tm | | |] eqn:E; try done. intros _.
  eapply tuner_performAll_reachable; [apply reachable_new | done].
Qed.

Lemma tuner_sampleManager_reachable : reachable sampleProcess sampleTuners sampleManager.
Proof. apply tuner_after_reachable. vm_compute. reflexivity. Qed.

Lemma tuner_manager_invariant_witness :
  elements (tm_inUse sampleManager) = [3; 1]%nat ∧ inv sampleManager.
Proof.
  split; [vm_compute; reflexivity |].
  exact (proj1 (tuner_manager_invariant sampleProcess sampleTuners sampleManager tuner_sampleManager_reachable)).
Defined.

Lemma tryAcquire_spec_witness :
  returns (tryAcquireLocked sampleProcess "BS" 0 None None sampleManager) (λ '(tm', a),
    match a_device a with
    | None => tm' = sampleManager ∧ surveyed "BS" 0 sampleManager (seq 0 (length (tm_tuners sampleManager))) a
    | Some d => ∃ k t, (k < length (tm_tuners sampleManager))%nat ∧ free "BS" sampleManager (turn (first "BS" sampleManager) k sampleManager) ∧
        (∀ k', (k' < k)%nat → ¬ free "BS" sampleManager (turn (first "BS" sampleManager) k' sampleManager)) ∧
        reserves 0 None None (turn (first "BS" sampleManager) k sampleManager) d sampleManager tm' ∧
        tm_tuners sampleManager !! turn (first "BS" sampleManager) k sampleManager = Some t ∧ a_decoder a = t_Decoder t ∧
        tm_nextByType tm' = <["BS" := turn (turn (first "BS" sampleManager) k sampleManager) 1 sampleManager]>
          (tm_nextByType sampleManager)
    end).
Proof.
  exact (tryAcquire_spec sampleProcess sampleTuners "BS" 0 None None sampleManager tuner_sampleManager_reachable).
Defined.

(** A request of priority 2 grabs the device of priority 1, not that whose user
    has priority 3. *)
Lemma grab_succeeds_witness : ∃ i r, tm_devices sampleManager !! 1%nat = Some (MkDevice i false) ∧
  tm_runtime sampleManager !! i = Some r ∧ rt_reservationPriority r < 2.
Proof.
  pose proof (grab_succeeds sampleProcess sampleTuners "GR" 2 sampleChannel sampleChannel false sampleManager
    sampleManager 1 0 tuner_sampleManager_reachable) as H.
  destruct (H ltac:(vm_compute; reflexivity)) as (_ & i & r & H1 & H2 & H3 & _).
  exists i, r. exact (conj H1 (conj H2 H3)).
Defined.

(** [AddUser] and [RemoveUser] do not look whether their device still holds the
    tuner, unlike the marks: a device whose tuner was grabbed gives the tuner's
    new holder a user, whose priority counts as its own, and takes away one of
    the same id. *)
Lemma stale_user :
  let grabbed := sampleActions ++ [ReleaseOnce 1; TryAcquire "GR" 2 sampleChannel sampleChannel] in
  match performAll sampleProcess (grabbed ++ [AddUser 1 (sampleUser "late" 9)]) (NewTunerManager sampleTuners),
        performAll sampleProcess (grabbed ++ [AddUser 2 (sampleUser "b" 9); RemoveUser 1 "b"]) (NewTunerManager sampleTuners) with
  | Ret tm1, Ret tm2 =>
      (rt_device <$> tm_runtime tm1 !! 3%nat, effectivePriority <$> tm_runtime tm1 !! 3%nat) = (Some (Some 2%nat), Some 9) ∧
      (rt_device <$> tm_runtime tm2 !! 3%nat, effectivePriority <$> tm_runtime tm2 !! 3%nat) = (Some (Some 2%nat), Some 2)
  | _, _ => False
  end.
Proof. vm_compute. by split. Qed.
