(* ===== verification/Schedule.v ===== *)
(** * Completeness of an EPG schedule ([internal/epg/snapshot.go])

    The schedule of a service comes as EIT sections of up to eight tables per
    group, each of up to 32 segments of eight sections.  [snapshotReadyGroup]
    keeps, per table, one bit for every section that arrived and one for every
    section that is not expected; the schedule is ready when every bit is set in
    one of the two.  [observeReady] and the questions asked of the bits are
    modelled; the programs of the sections are not. *)

From S2P Require Import Prelude Crc32.

(** ** The code *)

(** The header of an [EITSection]. *)
Record EITSection : Type := MkEITSection {
  OriginalNetworkID : Z;
  TransportStreamID : Z;
  ServiceID : Z;
  TableID : Z;
  LastTableID : Z;
  SectionNumber : Z;
  LastSectionNumber : Z;
  SegmentLastSectionNumber : Z;
  VersionNumber : Z
}.

Record snapshotReadyFlag : Type := MkReadyFlag {
  rf_observed : bool;
  rf_version : Z;
  rf_flag : list Z;
  rf_ignore : list Z
}.

Record snapshotReadyGroup : Type := MkReadyGroup {
  rg_base : Z;
  rg_lastFlagsID : Z;
  rg_flags : list snapshotReadyFlag
}.

Definition newReadyGroup (base : Z) : snapshotReadyGroup :=
  MkReadyGroup base (-1) (replicate 8 (MkReadyFlag false 0 (replicate 32 0) (replicate 32 0xff))).

Definition reset (lastFlagsID : Z) (g : snapshotReadyGroup) : snapshotReadyGroup :=
  MkReadyGroup (rg_base g) (rg_lastFlagsID g)
    (imap (λ i f, MkReadyFlag false 0 (map (λ _, 0) (rf_flag f))
                    (map (λ _, if Z.of_nat i <=? lastFlagsID then 0 else 0xff) (rf_ignore f))) (rg_flags g)).

Definition isCurrentScheduleBase (base : Z) : bool :=
  (base =? 0x50) || (base =? 0x58) || (base =? 0x60) || (base =? 0x68).
Definition isScheduleBasic (tableID : Z) : bool :=
  ((0x50 <=? tableID) && (tableID <=? 0x57)) || ((0x60 <=? tableID) && (tableID <=? 0x67)).
Definition isScheduleExtended (tableID : Z) : bool :=
  ((0x58 <=? tableID) && (tableID <=? 0x5f)) || ((0x68 <=? tableID) && (tableID <=? 0x6f)).

(** The time is [now.UnixMilli()]. *)
Definition currentJSTSegment (now : Z) : Z :=
  let segmentDurationMillis := 10800000 in
  let jstOffsetMillis := 32400000 in
  Z.land (Z.quot (now + jstOffsetMillis) segmentDurationMillis) 0x07.

(** [for i := a; i < b; i++ { if ignore[i] != 0xff { ignore[i] = 0xff; changed = true } }] *)
Definition ignoreSegments (a b : Z) (st : list Z * bool) : outcome (list Z * bool) :=
  foldM (λ '(ignore, changed) i,
    x ← ignore![i];
    Ret (if negb (x =? 0xff) then (<[Z.to_nat i := 0xff]> ignore, true) else (ignore, changed))) (seqZ a (b - a)) st.

(** Setting the bit [mask] of the byte [i], if it is not set. *)
Definition setBit (i bit : Z) (st : list Z * bool) : outcome (list Z * bool) :=
  let '(bytes, changed) := st in
  let mask := u8 (Z.shiftl 1 bit) in
  x ← bytes![i];
  Ret (if Z.land x mask =? 0 then (<[Z.to_nat i := Z.lor x mask]> bytes, true) else (bytes, changed)).

Definition observeGroup (section : EITSection) (now : Z) (group : snapshotReadyGroup)
    : outcome (snapshotReadyGroup * bool) :=
  let flagsID := Z.land (TableID section) 0x07 in
  let lastFlagsID := Z.land (LastTableID section) 0x07 in
  target ← (rg_flags group)![flagsID];
  let stale := negb (rg_lastFlagsID group =? lastFlagsID) ||
               (rf_observed target && negb (rf_version target =? VersionNumber section)) in
  let group := if stale then reset lastFlagsID group else group in
  let group := MkReadyGroup (rg_base group) lastFlagsID (rg_flags group) in
  target ← (rg_flags group)![flagsID];
  let fresh := negb (rf_observed target) || negb (rf_version target =? VersionNumber section) in
  let changed := stale || fresh in
  let st := (rf_ignore target, changed) in
  st ← (if (flagsID =? 0) && isCurrentScheduleBase (rg_base group)
        then ignoreSegments 0 (currentJSTSegment now) st else Ret st);
  let lastSegment := Z.shiftr (LastSectionNumber section) 3 in
  st ← ignoreSegments (lastSegment + 1) (len (rf_ignore target)) st;
  let segmentNumber := Z.shiftr (SectionNumber section) 3 in
  let sectionNumber := Z.land (SectionNumber section) 0x07 in
  let segmentLastSection := Z.land (SegmentLastSectionNumber section) 0x07 in
  '(ignore, changed) ← foldM (λ st i, setBit segmentNumber i st)
     (seqZ (segmentLastSection + 1) (8 - (segmentLastSection + 1))) st;
  '(flag, changed) ← setBit segmentNumber sectionNumber (rf_flag target, changed);
  let target := MkReadyFlag true (VersionNumber section) flag ignore in
  Ret (MkReadyGroup (rg_base group) (rg_lastFlagsID group) (<[Z.to_nat flagsID := target]> (rg_flags group)), changed).

(** The groups of a service, [readyGroups]. *)
Definition observeReady (section : EITSection) (now : Z) (groups : gmap Z snapshotReadyGroup)
    : outcome (gmap Z snapshotReadyGroup * bool) :=
  let base := Z.land (TableID section) 0xf8 in
  let group := default (newReadyGroup base) (groups !! base) in
  '(group, changed) ← observeGroup section now group;
  Ret (<[base := group]> groups, changed).

Definition readyFlag (f : snapshotReadyFlag) : outcome bool :=
  foldM (λ ok j, if ok : bool then
                   a ← (rf_flag f)![j]; b ← (rf_ignore f)![j]; Ret (Z.lor a b =? 0xff)
                 else Ret false) (seqZ 0 (len (rf_flag f))) true.

Definition ready (g : snapshotReadyGroup) : outcome bool :=
  foldM (λ ok f, if ok : bool then readyFlag f else Ret false) (rg_flags g) true.

(** The loop over the groups, which visits them in any order. *)
Definition ServiceReady {O : RangeOrder snapshotReadyGroup} (groups : gmap Z snapshotReadyGroup) : outcome bool :=
  '(hasBasic, ok) ← foldM (λ st e,
    let '(hasBasic, ok) := st in
    if negb ok then Ret st
    else if negb (isScheduleBasic (rg_base (snd e))) then Ret st
    else r ← ready (snd e); Ret (true, r)) (range groups) (false, true);
  Ret (hasBasic && ok).

Definition readyTableComplete (group : option snapshotReadyGroup) (tableID : Z) : outcome bool :=
  match group with
  | None => Ret false
  | Some g => f ← (rg_flags g)![Z.land tableID 0x07]; readyFlag f
  end.

Definition readyMissingSections (group : option snapshotReadyGroup) (tableID : Z) : outcome (list Z) :=
  match group with
  | None => Ret []
  | Some g =>
      f ← (rg_flags g)![Z.land tableID 0x07];
      foldM (λ missing segment,
        a ← (rf_flag f)![segment]; b ← (rf_ignore f)![segment];
        let needed := u8 (Z.lnot (Z.lor a b)) in
        Ret (missing ++ map (λ section, segment * 8 + section)
               (base.filter (λ section, Z.land needed (Z.shiftl 1 section) ≠ 0) (seqZ 0 8))))
        (seqZ 0 (len (rf_flag f))) []
  end.

(** ** Bitmaps *)

(** Bit [b] of byte [j]: section [8 * j + b]. *)
Definition bit (l : list Z) (j b : Z) : bool := Z.testbit (byteAt l j) b.

Definition bitmap_ok (l : list Z) : Prop := length l = 32%nat ∧ bytes_ok l.

Lemma byteAt_insert l i x j : 0 ≤ i < len l → 0 ≤ j → byteAt (<[Z.to_nat i := x]> l) j = if j =? i then x else byteAt l j.
Proof.
  unfold byteAt, len. intros Hi Hj. destruct (Z.eqb_spec j i) as [-> | Hne].
  - by rewrite list_lookup_insert_eq by lia.
  - by rewrite list_lookup_insert_ne by lia.
Qed.

Lemma bitmap_insert l i x : bitmap_ok l → byte_ok x → bitmap_ok (<[i := x]> l).
Proof. intros [Hl Hb] Hx. split; [by rewrite length_insert |]. by apply Forall_insert. Qed.

Lemma full_byte b : 0 ≤ b < 8 → Z.testbit 0xff b = true.
Proof. intros Hb. assert (b = 0 ∨ b = 1 ∨ b = 2 ∨ b = 3 ∨ b = 4 ∨ b = 5 ∨ b = 6 ∨ b = 7) as Hc by lia. by intuition subst. Qed.

Lemma full_bits x : byte_ok x → x = 0xff ↔ ∀ b, 0 ≤ b < 8 → Z.testbit x b = true.
Proof.
  intros Hx. split; [intros ->; apply full_byte |]. intros H. apply byte_bits_inj; [done | by unfold byte_ok |].
  intros k Hk. by rewrite H, full_byte.
Qed.

Lemma mask_bit b : 0 ≤ b < 8 → u8 (Z.shiftl 1 b) = 2 ^ b ∧ byte_ok (2 ^ b).
Proof.
  intros Hb. assert (b = 0 ∨ b = 1 ∨ b = 2 ∨ b = 3 ∨ b = 4 ∨ b = 5 ∨ b = 6 ∨ b = 7) as Hc by lia.
  unfold byte_ok. intuition subst; done.
Qed.

Lemma mask_clear x b : 0 ≤ b → (Z.land x (2 ^ b) =? 0) = negb (Z.testbit x b).
Proof.
  intros Hb. destruct (Z.testbit x b) eqn:E.
  - apply Z.eqb_neq. intros H. apply (f_equal (λ y, Z.testbit y b)) in H.
    rewrite Z.land_spec, Z.pow2_bits_true, E, Z.bits_0 in H by done. done.
  - apply Z.eqb_eq. apply Z.bits_inj'. intros k Hk. rewrite Z.land_spec, Z.bits_0, Z.pow2_bits_eqb by done.
    destruct (Z.eqb_spec b k) as [<- |]; [by rewrite E | apply andb_false_r].
Qed.

Lemma lor_byte x y : byte_ok x → byte_ok y → byte_ok (Z.lor x y).
Proof.
  unfold byte_ok. intros Hx Hy. split; [apply Z.lor_nonneg; lia |].
  destruct (Z.eq_dec (Z.lor x y) 0) as [-> | Hne]; [lia |].
  assert (0 ≤ Z.lor x y) by (apply Z.lor_nonneg; lia).
  apply (Z.log2_lt_pow2 _ 8); [lia |]. rewrite Z.log2_lor by lia.
  assert (∀ z, 0 ≤ z < 256 → Z.log2 z < 8) as Hlog.
  { intros z Hz. destruct (Z.eq_dec z 0) as [-> | ?]; [done |]. apply Z.log2_lt_pow2; lia. }
  apply Z.max_lub_lt; by apply Hlog.
Qed.

(** One bit set. *)
Lemma setBit_ok i b l c : bitmap_ok l → 0 ≤ i < 32 → 0 ≤ b < 8 →
  returns (setBit i b (l, c)) (λ '(l', c'), bitmap_ok l' ∧ (c' = false → l' = l ∧ c = false) ∧
    ∀ j k, 0 ≤ j → 0 ≤ k → bit l' j k = bit l j k || ((j =? i) && (k =? b))).
Proof.
  intros Hl Hi Hb. pose proof Hl as [Hlen Hok]. unfold setBit. destruct (mask_bit b Hb) as [-> Hmask].
  rewrite idx_byteAt by (unfold len; lia). run. unfold ends. rewrite mask_clear by lia.
  destruct (Z.testbit (byteAt l i) b) eqn:E; cbn [negb].
  - split; [done | split; [done |]]. intros j k Hj Hk. unfold bit.
    destruct (Z.eqb_spec j i) as [-> |], (Z.eqb_spec k b) as [-> |]; cbn; by rewrite ?E, ?orb_false_r.
  - split; [| split; [done |]].
    + apply bitmap_insert; [done |]. apply lor_byte; [by apply byteAt_ok | done].
    + intros j k Hj Hk. unfold bit. rewrite byteAt_insert by (unfold len; lia).
      destruct (Z.eqb_spec j i) as [-> |]; [| by rewrite orb_false_r].
      rewrite Z.lor_spec, Z.pow2_bits_eqb by lia. by rewrite (Z.eqb_sym b k).
Qed.

(** The bits [a], ..., 7 of a byte set. *)
Lemma setBits_ok i a l c : bitmap_ok l → 0 ≤ i < 32 → 0 ≤ a →
  returns (foldM (λ st b, setBit i b st) (seqZ a (8 - a)) (l, c)) (λ '(l', c'),
    bitmap_ok l' ∧ (c' = false → l' = l ∧ c = false) ∧
    ∀ j k, 0 ≤ j → 0 ≤ k < 8 → bit l' j k = bit l j k || ((j =? i) && (a <=? k))).
Proof.
  intros Hl Hi Ha.
  assert (∀ n a l c, bitmap_ok l → 0 ≤ a → a + Z.of_nat n ≤ 8 →
    returns (foldM (λ st b, setBit i b st) (seqZ a (Z.of_nat n)) (l, c)) (λ '(l', c'),
      bitmap_ok l' ∧ (c' = false → l' = l ∧ c = false) ∧
      ∀ j k, 0 ≤ j → 0 ≤ k < 8 → bit l' j k = bit l j k || ((j =? i) && (a <=? k) && (k <? a + Z.of_nat n)))) as Hn.
  { clear a l c Hl Ha. induction n as [| n IH]; intros a l c Hl Ha Hlt.
    - cbn. split; [done | split; [done |]]. intros j k _ Hk.
      destruct (Z.leb_spec a k), (Z.ltb_spec k (a + Z.of_nat 0)); try lia; by destruct (bit l j k), (j =? i).
    - rewrite seqZ_cons by lia. cbn [foldM]. apply safe_bind. eapply safe_mono; [apply setBit_ok; [done | lia | lia] |].
      intros [l1 c1] (H1 & H2 & H3). replace (Z.pred (Z.of_nat (S n))) with (Z.of_nat n) by lia.
      eapply safe_mono; [apply IH; [done | lia | lia] |]. intros [l2 c2] (G1 & G2 & G3). split; [done |]. split.
      + intros H. destruct (G2 H) as [-> ?]. by apply H2.
      + intros j k Hj Hk. rewrite G3, H3 by lia. rewrite <- orb_assoc. f_equal.
        destruct (Z.eqb_spec j i), (Z.eqb_spec k a), (Z.leb_spec (Z.succ a) k), (Z.leb_spec a k),
          (Z.ltb_spec k (Z.succ a + Z.of_nat n)), (Z.ltb_spec k (a + Z.of_nat (S n))); done || lia. }
  destruct (Z.leb_spec a 8).
  - replace (8 - a) with (Z.of_nat (Z.to_nat (8 - a))) by lia. eapply safe_mono; [apply Hn; [done | done | lia] |].
    intros [l' c'] (H1 & H2 & H3). split; [done | split; [done |]]. intros j k Hj Hk. rewrite H3 by done. f_equal.
    destruct (Z.ltb_spec k (a + Z.of_nat (Z.to_nat (8 - a)))); [by rewrite andb_true_r | lia].
  - rewrite seqZ_nil by lia. cbn. split; [done | split; [done |]]. intros j k Hj Hk.
    destruct (Z.leb_spec a k); [lia |]. by rewrite andb_false_r, orb_false_r.
Qed.

(** The bytes [a], ..., [b - 1] filled. *)
Lemma ignoreSegments_ok a b l c : bitmap_ok l → 0 ≤ a → b ≤ 32 →
  returns (ignoreSegments a b (l, c)) (λ '(l', c'),
    bitmap_ok l' ∧ (c' = false → l' = l ∧ c = false) ∧
    ∀ j k, 0 ≤ j → 0 ≤ k < 8 → bit l' j k = bit l j k || ((a <=? j) && (j <? b))).
Proof.
  intros Hl Ha Hb.
  assert (∀ n a l c, bitmap_ok l → 0 ≤ a → a + Z.of_nat n ≤ 32 →
    returns (ignoreSegments a (a + Z.of_nat n) (l, c)) (λ '(l', c'),
      bitmap_ok l' ∧ (c' = false → l' = l ∧ c = false) ∧
      ∀ j k, 0 ≤ j → 0 ≤ k < 8 → bit l' j k = bit l j k || ((a <=? j) && (j <? a + Z.of_nat n)))) as Hn.
  { clear a b l c Hl Ha Hb. unfold ignoreSegments. induction n as [| n IH]; intros a l c Hl Ha Hlt.
    - rewrite seqZ_nil by lia. cbn. split; [done | split; [done |]]. intros j k _ Hk.
      destruct (Z.leb_spec a j), (Z.ltb_spec j (a + Z.of_nat 0)); try lia; by destruct (bit l j k).
    - rewrite seqZ_cons by lia. cbn [foldM]. pose proof Hl as [Hlen Hok].
      rewrite idx_byteAt by (unfold len; lia). run.
      replace (Z.pred (a + Z.of_nat (S n) - a)) with (Z.succ a + Z.of_nat n - Z.succ a) by lia.
      assert (∀ l1 c1, bitmap_ok l1 → (c1 = false → l1 = l ∧ c = false) →
        (∀ j k, 0 ≤ j → 0 ≤ k < 8 → bit l1 j k = bit l j k || (j =? a)) →
        returns (foldM (λ '(ignore, changed) i, x ← ignore![i];
            Ret (if negb (x =? 0xff) then (<[Z.to_nat i := 0xff]> ignore, true) else (ignore, changed)))
          (seqZ (Z.succ a) (Z.succ a + Z.of_nat n - Z.succ a)) (l1, c1)) (λ '(l', c'),
          bitmap_ok l' ∧ (c' = false → l' = l ∧ c = false) ∧
          ∀ j k, 0 ≤ j → 0 ≤ k < 8 → bit l' j k = bit l j k || ((a <=? j) && (j <? a + Z.of_nat (S n))))) as Hgo.
      { intros l1 c1 H1 H2 H3. eapply safe_mono; [apply (IH (Z.succ a) l1 c1); [done | lia | lia] |].
        intros [l2 c2] (G1 & G2 & G3). split; [done |]. split.
        + intros H. destruct (G2 H) as [-> ?]. by apply H2.
        + intros j k Hj Hk. rewrite G3, H3 by lia. rewrite <- orb_assoc. f_equal.
          destruct (Z.eqb_spec j a), (Z.leb_spec (Z.succ a) j), (Z.leb_spec a j),
            (Z.ltb_spec j (Z.succ a + Z.of_nat n)), (Z.ltb_spec j (a + Z.of_nat (S n))); done || lia. }
      destruct (Z.eqb_spec (byteAt l a) 0xff) as [Hx | Hx]; cbn [negb]; apply Hgo; try done.
      + intros j k Hj Hk. unfold bit. destruct (Z.eqb_spec j a) as [-> |]; [| by rewrite orb_false_r].
        by rewrite Hx, full_byte.
      + by apply bitmap_insert.
      + intros j k Hj Hk. unfold bit. rewrite byteAt_insert by (unfold len; lia).
        destruct (Z.eqb_spec j a) as [-> |]; [by rewrite full_byte, orb_true_r | by rewrite orb_false_r]. }
  destruct (Z.leb_spec a b).
  - replace b with (a + Z.of_nat (Z.to_nat (b - a))) by lia. apply Hn; [done | done | lia].
  - unfold ignoreSegments. rewrite seqZ_nil by lia. cbn. split; [done | split; [done |]]. intros j k Hj Hk.
    destruct (Z.leb_spec a j), (Z.ltb_spec j b); try lia; by destruct (bit l j k).
Qed.

(** ** What the bits stand for *)

(** The fields of a section are bytes. *)
Definition section_ok (s : EITSection) : Prop :=
  byte_ok (TableID s) ∧ byte_ok (LastTableID s) ∧ byte_ok (SectionNumber s) ∧ byte_ok (LastSectionNumber s) ∧
  byte_ok (SegmentLastSectionNumber s).

Definition table (s : EITSection) : Z := Z.land (TableID s) 7.
Definition lastTable (s : EITSection) : Z := Z.land (LastTableID s) 7.
Definition segment (s : EITSection) : Z := Z.shiftr (SectionNumber s) 3.
Definition place (s : EITSection) : Z := Z.land (SectionNumber s) 7.
Definition groupOf (s : EITSection) : Z := Z.land (TableID s) 0xf8.

(** The section at the place [b] of the segment [j] of the table [i] arrived. *)
Definition received (seen : list (EITSection * Z)) (i j b : Z) : Prop :=
  ∃ s t, (s, t) ∈ seen ∧ table s = i ∧ segment s = j ∧ place s = b.

(** It is not expected: the group has no such table, or a section of the table
    says that the table has no such segment, or that the segment has no such
    section, or it belongs to a part of the day that is over. *)
Definition excused (base : Z) (seen : list (EITSection * Z)) (i j b : Z) : Prop :=
  (∀ s t, (s, t) ∈ seen → lastTable s < i) ∨
  ∃ s t, (s, t) ∈ seen ∧ table s = i ∧
    (Z.shiftr (LastSectionNumber s) 3 < j ∨
     segment s = j ∧ Z.land (SegmentLastSectionNumber s) 7 < b ∨
     i = 0 ∧ isCurrentScheduleBase base = true ∧ j < currentJSTSegment t).

(** Does the section belong to another version of the schedule than those seen? *)
Definition supersedes (s : EITSection) (seen : list (EITSection * Z)) : bool :=
  match seen with
  | [] => true
  | (s0, _) :: _ =>
      negb (lastTable s0 =? lastTable s) ||
      existsb (λ e, (table (fst e) =? table s) && negb (VersionNumber (fst e) =? VersionNumber s)) seen
  end.

(** The sections of the current version of the schedule, of those that came. *)
Definition track (seen : list (EITSection * Z)) (e : EITSection * Z) : list (EITSection * Z) :=
  if supersedes (fst e) seen then [e] else seen ++ [e].
Definition current (secs : list (EITSection * Z)) : list (EITSection * Z) := fold_left track secs [].

(** The bits of a table are those of the sections seen. *)
Record flagged (base : Z) (seen : list (EITSection * Z)) (i : Z) (f : snapshotReadyFlag) : Prop := {
  fl_flag : bitmap_ok (rf_flag f);
  fl_ignore : bitmap_ok (rf_ignore f);
  fl_observed : rf_observed f = true ↔ ∃ s t, (s, t) ∈ seen ∧ table s = i;
  fl_version : ∀ s t, (s, t) ∈ seen → table s = i → rf_version f = VersionNumber s;
  fl_received : ∀ j b, 0 ≤ j < 32 → 0 ≤ b < 8 → bit (rf_flag f) j b = true ↔ received seen i j b;
  fl_excused : ∀ j b, 0 ≤ j < 32 → 0 ≤ b < 8 → bit (rf_ignore f) j b = true ↔ excused base seen i j b
}.

Record represents (base : Z) (seen : list (EITSection * Z)) (g : snapshotReadyGroup) : Prop := {
  rp_base : rg_base g = base;
  rp_last : match seen with [] => rg_lastFlagsID g = -1 | _ => ∀ s t, (s, t) ∈ seen → rg_lastFlagsID g = lastTable s end;
  rp_length : length (rg_flags g) = 8%nat;
  rp_flags : ∀ i f, rg_flags g !! i = Some f → flagged base seen (Z.of_nat i) f
}.

Lemma low_bits x : 0 ≤ Z.land x 7 < 8.
Proof. change 7 with (Z.ones 3). rewrite Z.land_ones by lia. apply Z.mod_pos_bound. lia. Qed.

Lemma high_bits x : byte_ok x → 0 ≤ Z.shiftr x 3 < 32.
Proof. unfold byte_ok. intros Hx. rewrite Z.shiftr_div_pow2 by lia. change (2 ^ 3) with 8. split; [apply Z.div_pos; lia | apply Z.div_lt_upper_bound; lia]. Qed.

Lemma current_segment now : 0 ≤ currentJSTSegment now < 8.
Proof. apply low_bits. Qed.

Lemma byteAt_constant n x j : 0 ≤ j < Z.of_nat n → byteAt (replicate n x) j = x.
Proof. intros Hj. unfold byteAt. by rewrite lookup_replicate_2 by lia. Qed.

Lemma bitmap_constant x : byte_ok x → bitmap_ok (replicate 32 x).
Proof. intros Hx. split; [by rewrite length_replicate |]. by apply Forall_replicate. Qed.

Lemma map_constant {A B} (x : B) (l : list A) : map (λ _, x) l = replicate (length l) x.
Proof. by induction l as [| a l IH]; cbn; [| rewrite IH]. Qed.

Lemma newReadyGroup_represents base : represents base [] (newReadyGroup base).
Proof.
  split; try done. intros i f Hf. unfold newReadyGroup in Hf. cbn [rg_flags] in Hf. apply lookup_replicate in Hf as [-> _].
  split; cbn [rf_flag rf_ignore rf_observed rf_version]; try by (apply bitmap_constant; unfold byte_ok; lia).
  - split; [done | by intros (s & t & ?%elem_of_nil & _)].
  - by intros s t ?%elem_of_nil.
  - intros j b Hj Hb. unfold bit. rewrite byteAt_constant, Z.bits_0 by lia.
    split; [done | by intros (s & t & ?%elem_of_nil & _)].
  - intros j b Hj Hb. unfold bit. rewrite byteAt_constant, full_byte by lia.
    split; [intros _; left; by intros s t ?%elem_of_nil | done].
Qed.

(** The bits of a table before the first section of a new version. *)
Lemma reset_flags last g i f : rg_flags (reset last g) !! i = Some f → length (rg_flags g) = 8%nat →
  (∀ i f, rg_flags g !! i = Some f → bitmap_ok (rf_flag f) ∧ bitmap_ok (rf_ignore f)) →
  f = MkReadyFlag false 0 (replicate 32 0) (replicate 32 (if Z.of_nat i <=? last then 0 else 0xff)).
Proof.
  unfold reset. cbn. rewrite list_lookup_imap. intros (f0 & Hf & ->)%fmap_Some Hlen Hok.
  destruct (Hok i f0 Hf) as [[H1 _] [H2 _]]. rewrite !map_constant. by rewrite H1, H2.
Qed.

(** What the section itself says of the section [j], [b] of the table [i]. *)
Definition waives (base : Z) (s : EITSection) (t i j b : Z) : Prop :=
  table s = i ∧
    (Z.shiftr (LastSectionNumber s) 3 < j ∨
     segment s = j ∧ Z.land (SegmentLastSectionNumber s) 7 < b ∨
     i = 0 ∧ isCurrentScheduleBase base = true ∧ j < currentJSTSegment t).

Lemma received_snoc seen s t i j b : received (seen ++ [(s, t)]) i j b ↔
  received seen i j b ∨ table s = i ∧ segment s = j ∧ place s = b.
Proof.
  unfold received. setoid_rewrite elem_of_app. setoid_rewrite list_elem_of_singleton. split.
  - intros (s' & t' & [Hin | [= -> ->]] & Hs); [left; by exists s', t' | by right].
  - intros [(s' & t' & Hin & Hs) | Hs]; [exists s', t' | exists s, t]; auto.
Qed.

Lemma excused_snoc base seen s t i j b : (∀ s' t', (s', t') ∈ seen → lastTable s' = lastTable s) →
  excused base (seen ++ [(s, t)]) i j b ↔
  lastTable s < i ∨ (seen ≠ [] ∧ excused base seen i j b) ∨ waives base s t i j b.
Proof.
  intros Hlast. unfold excused, waives. setoid_rewrite elem_of_app. setoid_rewrite list_elem_of_singleton. split.
  - intros [Hs | (s' & t' & [Hin | [= -> ->]] & Hs)].
    + left. apply (Hs s t). by right.
    + right; left. split; [by intros ->; apply elem_of_nil in Hin |]. right. by exists s', t'.
    + by do 2 right.
  - intros [Hs | [[Hne [Hs | (s' & t' & Hin & Hs)]] | Hs]].
    + left. by intros s' t' [->%Hlast | [= -> ->]].
    + left. intros s' t' [Hin | [= -> ->]]; [by eapply Hs |]. destruct seen as [| [s0 t0] seen]; [done |].
      rewrite <- (Hlast s0 t0) by left. apply (Hs s0 t0). by left.
    + right. exists s', t'. auto.
    + right. exists s, t. auto.
Qed.

(** The sections seen and the next one, if it does not supersede them. *)
Definition kept (s : EITSection) (seen : list (EITSection * Z)) : list (EITSection * Z) :=
  if supersedes s seen then [] else seen.

Lemma track_kept seen s t : track seen (s, t) = kept s seen ++ [(s, t)].
Proof. unfold track, kept. cbn [fst]. by destruct (supersedes s seen). Qed.

Lemma kept_same s seen : (∀ s' t' s'' t'', (s', t') ∈ seen → (s'', t'') ∈ seen → lastTable s' = lastTable s'') →
  ∀ s' t', (s', t') ∈ kept s seen →
    lastTable s' = lastTable s ∧ (table s' = table s → VersionNumber s' = VersionNumber s).
Proof.
  intros Hall s' t'. unfold kept, supersedes. destruct seen as [| [s0 t0] seen]; [by intros ?%elem_of_nil |].
  destruct (Z.eqb_spec (lastTable s0) (lastTable s)) as [H0 |]; cbn [negb orb]; [| by intros ?%elem_of_nil].
  destruct (existsb _ _) eqn:E; [by intros ?%elem_of_nil |]. intros Hin. split.
  - rewrite <- H0. by apply (Hall s' t' s0 t0 Hin); left.
  - intros Ht. apply not_true_iff_false in E. rewrite existsb_exists in E.
    destruct (decide (VersionNumber s' = VersionNumber s)) as [| Hv]; [done |]. destruct E. exists (s', t').
    split; [by apply list_elem_of_In |]. cbn. by rewrite (proj2 (Z.eqb_eq _ _) Ht), (proj2 (Z.eqb_neq _ _) Hv).
Qed.

Lemma represents_last base seen g : represents base seen g →
  ∀ s' t' s'' t'', (s', t') ∈ seen → (s'', t'') ∈ seen → lastTable s' = lastTable s''.
Proof.
  intros [_ H _ _] s' t' s'' t'' H1 H2. destruct seen as [| e seen]; [by apply elem_of_nil in H1 |].
  by rewrite <- (H s' t' H1), (H s'' t'' H2).
Qed.

(** The code's test for a new version of the schedule. *)
Lemma stale_supersedes base seen g s f : represents base seen g → rg_flags g !! Z.to_nat (table s) = Some f →
  negb (rg_lastFlagsID g =? lastTable s) || (rf_observed f && negb (rf_version f =? VersionNumber s)) = supersedes s seen.
Proof.
  intros [_ Hlast _ Hf] Hi. apply Hf in Hi. rewrite Z2Nat.id in Hi by apply low_bits. destruct Hi as [_ _ Hobs Hver _ _].
  unfold supersedes. destruct seen as [| [s0 t0] seen].
  - rewrite Hlast. pose proof (low_bits (LastTableID s)). unfold lastTable.
    by destruct (Z.eqb_spec (-1) (Z.land (LastTableID s) 7)); [lia |].
  - rewrite (Hlast s0 t0) by left. f_equal. apply eq_true_iff_eq. rewrite andb_true_iff, existsb_exists, Hobs. split.
    + intros [(s' & t' & Hin & Ht) Hv]. exists (s', t'). split; [by apply list_elem_of_In |]. cbn.
      by rewrite (proj2 (Z.eqb_eq _ _) Ht), <- (Hver s' t' Hin Ht).
    + intros ([s' t'] & Hin%list_elem_of_In & [Ht%Z.eqb_eq Hv]%andb_true_iff). cbn in *.
      split; [by exists s', t' |]. by rewrite (Hver s' t' Hin Ht).
Qed.

(** The tables before the bits of the new section are set. *)
Lemma prepared base seen g s i f (g1 := if supersedes s seen then reset (lastTable s) g else g) :
  represents base seen g → rg_flags g1 !! i = Some f →
  bitmap_ok (rf_flag f) ∧ bitmap_ok (rf_ignore f) ∧
  (rf_observed f = true ↔ ∃ s' t', (s', t') ∈ kept s seen ∧ table s' = Z.of_nat i) ∧
  (∀ s' t', (s', t') ∈ kept s seen → table s' = Z.of_nat i → rf_version f = VersionNumber s') ∧
  ∀ j b, 0 ≤ j < 32 → 0 ≤ b < 8 →
    (bit (rf_flag f) j b = true ↔ received (kept s seen) (Z.of_nat i) j b) ∧
    (bit (rf_ignore f) j b = true ↔ lastTable s < Z.of_nat i ∨ kept s seen ≠ [] ∧ excused base (kept s seen) (Z.of_nat i) j b).
Proof.
  intros Hrep Hf. pose proof (represents_last _ _ _ Hrep) as Hall. pose proof (kept_same s seen Hall) as Hsame.
  unfold g1, kept in *. destruct (supersedes s seen) eqn:Hsup.
  - apply reset_flags in Hf as ->; [| apply Hrep | intros i' f' Hf'; apply (rp_flags _ _ _ Hrep) in Hf'; by destruct Hf'].
    cbn [rf_flag rf_ignore rf_observed rf_version].
    split; [by apply bitmap_constant | split; [apply bitmap_constant; unfold byte_ok; case_match; lia |]].
    split; [split; [done | by intros (s' & t' & ?%elem_of_nil & _)] | split; [by intros s' t' ?%elem_of_nil |]].
    intros j b Hj Hb. unfold bit. rewrite !byteAt_constant by lia. split.
    + rewrite Z.bits_0. split; [done | by intros (s' & t' & ?%elem_of_nil & _)].
    + destruct (Z.leb_spec (Z.of_nat i) (lastTable s)); [rewrite Z.bits_0 | rewrite full_byte by done].
      * split; [done | intros [? | [? _]]; [lia | done]].
      * split; [by left | done].
  - apply (rp_flags _ _ _ Hrep) in Hf as [F1 F2 F3 F4 F5 F6].
    split; [done | split; [done | split; [done | split; [done |]]]]. intros j b Hj Hb. split; [by apply F5 |].
    rewrite F6 by done. destruct seen as [| [s0 t0] seen]; [done |]. split; [right; by split |].
    intros [Hlt | [_ H]]; [| done]. left. intros s' t' Hin. by rewrite (proj1 (Hsame s' t' Hin)).
Qed.

Lemma flags_at g i : length (rg_flags g) = 8%nat → 0 ≤ i < 8 →
  ∃ f, rg_flags g !! Z.to_nat i = Some f ∧ (rg_flags g)![i] = Ret f.
Proof.
  intros Hlen Hi. destruct (lookup_lt_is_Some_2 (rg_flags g) (Z.to_nat i)) as [f Hf]; [lia |].
  exists f. split; [done |]. apply idx_lookup; [lia | done].
Qed.

Lemma reset_length last g : length (rg_flags (reset last g)) = length (rg_flags g).
Proof. unfold reset. cbn. by rewrite length_imap. Qed.

(** The bits of a table once those of a section of it are set. *)
Record marked (base : Z) (s : EITSection) (now : Z) (f f' : snapshotReadyFlag) : Prop := {
  mk_observed : rf_observed f' = true;
  mk_version : rf_version f' = VersionNumber s;
  mk_flag_ok : bitmap_ok (rf_flag f');
  mk_ignore_ok : bitmap_ok (rf_ignore f');
  mk_flag : ∀ j b, 0 ≤ j < 32 → 0 ≤ b < 8 →
    bit (rf_flag f') j b = true ↔ bit (rf_flag f) j b = true ∨ (segment s = j ∧ place s = b);
  mk_ignore : ∀ j b, 0 ≤ j < 32 → 0 ≤ b < 8 →
    bit (rf_ignore f') j b = true ↔ bit (rf_ignore f) j b = true ∨ waives base s now (table s) j b
}.

(** The code, after its test for a new version. *)
Lemma observeGroup_marks base seen g s now (g1 := if supersedes s seen then reset (lastTable s) g else g) :
  represents base seen g → section_ok s →
  returns (observeGroup s now g) (λ '(g', changed), ∃ f f',
    rg_flags g1 !! Z.to_nat (table s) = Some f ∧ marked base s now f f' ∧
    g' = MkReadyGroup base (lastTable s) (<[Z.to_nat (table s) := f']> (rg_flags g1)) ∧
    (changed = false → supersedes s seen = false ∧ f' = f)).
Proof.
  intros Hrep (B1 & B2 & B3 & B4 & B5). pose proof (rp_length _ _ _ Hrep) as Hlen.
  unfold observeGroup. fold (table s) (lastTable s) (segment s) (place s).
  destruct (flags_at g (table s) Hlen (low_bits _)) as (f0 & Hf0 & ->). run.
  rewrite (stale_supersedes base seen g s f0 Hrep Hf0). fold g1. cbn [rg_base rg_lastFlagsID rg_flags].
  assert (length (rg_flags g1) = 8%nat) as Hlen1 by (unfold g1; destruct (supersedes s seen); [by rewrite reset_length |]; done).
  assert (rg_base g1 = base) as -> by (unfold g1; destruct (supersedes s seen); apply Hrep).
  destruct (flags_at g1 (table s) Hlen1 (low_bits _)) as (f & Hf & ->). run.
  destruct (prepared base seen g s _ f Hrep Hf) as (P1 & P2 & _). set (c0 := supersedes s seen || _).
  pose proof (high_bits _ B4) as Hseg4. pose proof (high_bits _ B3) as Hseg3. fold (segment s) in Hseg3.
  pose proof (low_bits (SegmentLastSectionNumber s)) as Hlast. pose proof (low_bits (SectionNumber s)) as Hplace. fold (place s) in Hplace.
  pose proof (current_segment now) as Hcur.
  assert (returns (if (table s =? 0) && isCurrentScheduleBase base
    then ignoreSegments 0 (currentJSTSegment now) (rf_ignore f, c0) else Ret (rf_ignore f, c0)) (λ '(l, c),
    bitmap_ok l ∧ (c = false → l = rf_ignore f ∧ c0 = false) ∧ ∀ j k, 0 ≤ j → 0 ≤ k < 8 →
      bit l j k = bit (rf_ignore f) j k ||
        ((table s =? 0) && isCurrentScheduleBase base && ((0 <=? j) && (j <? currentJSTSegment now))))) as Hstep.
  { destruct ((table s =? 0) && isCurrentScheduleBase base); [apply ignoreSegments_ok; [done | lia | lia] |].
    split; [done | split; [done |]]. intros. by rewrite orb_false_r. }
  apply safe_bind. eapply safe_mono; [exact Hstep |]. clear Hstep. intros [l1 c1] (L1 & C1 & D1).
  replace (len (rf_ignore f)) with 32 by (destruct P2 as [P2 _]; unfold len; lia).
  apply safe_bind. eapply safe_mono; [apply ignoreSegments_ok; [done | lia | lia] |]. intros [l2 c2] (L2 & C2 & D2).
  apply safe_bind. eapply safe_mono; [apply setBits_ok; [done | done | lia] |]. intros [l3 c3] (L3 & C3 & D3).
  apply safe_bind. eapply safe_mono; [apply setBit_ok; [exact P1 | done | done] |]. intros [l4 c4] (L4 & C4 & D4).
  eexists f, _. split; [done |]. split; [| split; [reflexivity |]].
  - split; cbn [rf_flag rf_ignore rf_observed rf_version]; try done; intros j b Hj Hb.
    + rewrite D4, orb_true_iff, andb_true_iff, !Z.eqb_eq by lia. naive_solver.
    + rewrite D3, D2, D1 by lia. unfold waives. rewrite !orb_true_iff, !andb_true_iff, !Z.eqb_eq, !Z.leb_le, !Z.ltb_lt.
      split.
      * intros [[[H | H] | H] | H]; [by left | | |]; right; (split; [done |]); [do 2 right | left | right; left]; try tauto; lia.
      * intros [H | [_ [H | [[H H'] | H]]]]; [by do 3 left | left; right | right | do 2 left; right]; try tauto; lia.
  - intros ->. destruct (C4 eq_refl) as [-> ->]. destruct (C3 eq_refl) as [-> ->]. destruct (C2 eq_refl) as [-> ->].
    destruct (C1 eq_refl) as [-> Hc0]. unfold c0 in Hc0. apply orb_false_iff in Hc0 as [Hsup [Hobs Hver]%orb_false_iff].
    split; [done |]. apply negb_false_iff in Hobs, Hver. apply Z.eqb_eq in Hver. destruct f. cbn in *. by subst.
Qed.

(** The flags of the tables then stand for the sections tracked. *)
Lemma marked_flagged base seen g s now f f' (g1 := if supersedes s seen then reset (lastTable s) g else g) :
  represents base seen g → rg_flags g1 !! Z.to_nat (table s) = Some f → marked base s now f f' →
  ∀ i x, <[Z.to_nat (table s) := f']> (rg_flags g1) !! i = Some x → flagged base (track seen (s, now)) (Z.of_nat i) x.
Proof.
  intros Hrep Hf [M1 M2 M3 M4 M5 M6] i x Hi. rewrite track_kept.
  pose proof (kept_same s seen (represents_last _ _ _ Hrep)) as Hsame.
  assert (∀ s' t', (s', t') ∈ kept s seen → lastTable s' = lastTable s) as Hls by (intros; by eapply Hsame).
  pose proof (low_bits (TableID s)) as Htab. fold (table s) in Htab.
  assert (∀ P : EITSection → Prop, (∃ s' t', (s', t') ∈ kept s seen ++ [(s, now)] ∧ P s') ↔
    (∃ s' t', (s', t') ∈ kept s seen ∧ P s') ∨ P s) as Hsplit.
  { intros P. setoid_rewrite elem_of_app. setoid_rewrite list_elem_of_singleton. split.
    - intros (s' & t' & [Hin | [= -> ->]] & Hs); [left; by exists s', t' | by right].
    - intros [(s' & t' & Hin & Hs) | Hs]; [exists s', t' | exists s, now]; auto. }
  destruct (decide (Z.to_nat (table s) = i)) as [<- | Hne].
  - rewrite list_lookup_insert_eq in Hi by (by eapply lookup_lt_Some). injection Hi as <-.
    destruct (prepared base seen g s _ f Hrep Hf) as (_ & _ & _ & _ & P5). rewrite Z2Nat.id in * by lia. split; try done.
    + rewrite Hsplit. rewrite M1. split; [by right | done].
    + intros s' t'. rewrite elem_of_app, list_elem_of_singleton, M2.
      intros [Hin | [= -> ->]] Ht; [symmetry; by apply (proj2 (Hsame s' t' Hin)) | done].
    + intros j b Hj Hb. rewrite M5, received_snoc, (proj1 (P5 j b Hj Hb)) by done. tauto.
    + intros j b Hj Hb. rewrite M6, excused_snoc, (proj2 (P5 j b Hj Hb)) by done. tauto.
  - rewrite list_lookup_insert_ne in Hi by done. destruct (prepared base seen g s i x Hrep Hi) as (Q1 & Q2 & Q3 & Q4 & Q5).
    assert (table s ≠ Z.of_nat i) as Hti by lia. split; try done.
    + rewrite Q3, Hsplit. tauto.
    + intros s' t'. rewrite elem_of_app, list_elem_of_singleton. intros [Hin | [= -> ->]] Ht; [by eapply Q4 | done].
    + intros j b Hj Hb. rewrite received_snoc, (proj1 (Q5 j b Hj Hb)). tauto.
    + intros j b Hj Hb. rewrite excused_snoc by done. rewrite (proj2 (Q5 j b Hj Hb)). unfold waives. tauto.
Qed.

(** One section: the group then stands for the sections tracked, and if nothing
    is reported to have changed, nothing has. *)
Lemma observeGroup_ok base seen g s now : represents base seen g → section_ok s →
  returns (observeGroup s now g) (λ '(g', changed), represents base (track seen (s, now)) g' ∧
    (changed = false → g' = g)).
Proof.
  intros Hrep Hs. eapply safe_mono; [by apply (observeGroup_marks base seen) |].
  intros [g' changed] (f & f' & Hf & Hm & -> & Hc). split.
  - split; cbn [rg_base rg_lastFlagsID rg_flags].
    + done.
    + rewrite track_kept. destruct (kept s seen ++ [(s, now)]) as [| e l] eqn:E; [by destruct (kept s seen) |]. rewrite <- E.
      intros s' t'. rewrite elem_of_app, list_elem_of_singleton. intros [Hin | [= -> ->]]; [| done].
      by rewrite (proj1 (kept_same s seen (represents_last _ _ _ Hrep) s' t' Hin)).
    + rewrite length_insert. destruct (supersedes s seen); [rewrite reset_length |]; apply Hrep.
    + by eapply marked_flagged.
  - intros Hfalse. destruct (Hc Hfalse) as [Hsup ->]. rewrite Hsup in *. rewrite list_insert_id by done.
    destruct g as [gb gl gf]. cbn in *. f_equal; [by rewrite <- (rp_base _ _ _ Hrep) |].
    unfold supersedes in Hsup. destruct seen as [| [s0 t0] seen]; [done |].
    apply orb_false_iff in Hsup as [H%negb_false_iff%Z.eqb_eq _]. rewrite <- H.
    symmetry. apply (rp_last _ _ _ Hrep s0 t0). by left.
Qed.

(** ** The questions asked of the bits *)

Lemma byte_full x y : byte_ok x → byte_ok y →
  Z.lor x y = 0xff ↔ ∀ b, 0 ≤ b < 8 → Z.testbit x b = true ∨ Z.testbit y b = true.
Proof.
  intros Hx Hy. rewrite full_bits by (by apply lor_byte). setoid_rewrite Z.lor_spec. by setoid_rewrite orb_true_iff.
Qed.

(** A fold that stops at the first [false]. *)
Lemma foldM_all {A} (P : A → Prop) (test : A → outcome bool) l :
  (∀ x, x ∈ l → returns (test x) (λ b, b = true ↔ P x)) →
  returns (foldM (λ ok x, if ok : bool then test x else Ret false) l true) (λ b, b = true ↔ ∀ x, x ∈ l → P x).
Proof.
  intros Htest. eapply (safe_foldM_prefix (λ k b, b = true ↔ ∀ x, x ∈ k → P x)).
  - split; [by intros _ x ?%elem_of_nil | done].
  - intros k x b Hk [r Hpre]. assert (∀ b', (b' = true ↔ b = true ∧ P x) → (b' = true ↔ ∀ y, y ∈ k ++ [x] → P y)) as Hgo.
    { intros b' ->. rewrite Hk. setoid_rewrite elem_of_app. setoid_rewrite list_elem_of_singleton. naive_solver. }
    destruct b.
    + eapply safe_mono; [apply Htest; rewrite Hpre; set_solver |]. intros b' Hb'. apply Hgo. rewrite Hb'. by split; [| intros [_ ?]].
    + apply Hgo. split; [done | by intros [? _]].
Qed.

Lemma readyFlag_ok base seen i f : flagged base seen i f →
  returns (readyFlag f) (λ ok, ok = true ↔ ∀ j b, 0 ≤ j < 32 → 0 ≤ b < 8 → received seen i j b ∨ excused base seen i j b).
Proof.
  intros [[L1 B1] [L2 B2] _ _ F5 F6]. unfold readyFlag. replace (len (rf_flag f)) with 32 by (unfold len; lia).
  eapply safe_mono.
  - apply (foldM_all (λ j, ∀ b, 0 ≤ b < 8 → received seen i j b ∨ excused base seen i j b)
      (λ j, a ← (rf_flag f)![j]; b ← (rf_ignore f)![j]; Ret (Z.lor a b =? 0xff))).
    intros j Hj%elem_of_seqZ. rewrite !idx_byteAt by (unfold len; lia). run. unfold ends.
    rewrite Z.eqb_eq, byte_full by (by apply byteAt_ok). split; intros H b Hb.
    + rewrite <- F5, <- F6 by lia. by apply H.
    + specialize (H b Hb). rewrite <- F5, <- F6 in H by lia. done.
  - cbn. intros ok ->. setoid_rewrite elem_of_seqZ. split; [intros H j b Hj; apply H; lia | intros H j Hj b; apply H; lia].
Qed.

(** Every section of the group arrived or is not expected. *)
Definition complete (base : Z) (seen : list (EITSection * Z)) : Prop :=
  ∀ i j b, 0 ≤ i < 8 → 0 ≤ j < 32 → 0 ≤ b < 8 → received seen i j b ∨ excused base seen i j b.

Lemma ready_ok base seen g : represents base seen g → returns (ready g) (λ ok, ok = true ↔ complete base seen).
Proof.
  intros [_ _ Hlen Hf]. unfold ready. eapply safe_mono.
  - apply (foldM_all (λ f, ∀ i, rg_flags g !! i = Some f → ∀ j b, 0 ≤ j < 32 → 0 ≤ b < 8 →
      received seen (Z.of_nat i) j b ∨ excused base seen (Z.of_nat i) j b)).
    intros f [i Hi]%list_elem_of_lookup. eapply safe_mono; [by apply (readyFlag_ok base seen), Hf |].
    cbn. intros ok ->. split; [| intros H; by apply H]. intros H i' Hi' j b Hj Hb.
    pose proof (fl_received _ _ _ _ (Hf i' f Hi') j b Hj Hb) as H1. pose proof (fl_excused _ _ _ _ (Hf i' f Hi') j b Hj Hb) as H2.
    rewrite <- H1, <- H2. rewrite (fl_received _ _ _ _ (Hf i f Hi) j b Hj Hb), (fl_excused _ _ _ _ (Hf i f Hi) j b Hj Hb).
    by apply H.
  - cbn. intros ok ->. unfold complete. split.
    + intros H i j b Hi Hj Hb. destruct (lookup_lt_is_Some_2 (rg_flags g) (Z.to_nat i)) as [f Hx]; [lia |].
      rewrite <- (Z2Nat.id i) by lia. apply (H f); [by eapply list_elem_of_lookup_2 | done | done | done].
    + intros H f _ i Hi%lookup_lt_Some j b Hj Hb. apply H; [lia | done | done].
Qed.

Lemma needed_bit x b : byte_ok x → 0 ≤ b < 8 → Z.land (u8 (Z.lnot x)) (Z.shiftl 1 b) ≠ 0 ↔ Z.testbit x b = false.
Proof.
  intros Hx Hb. rewrite Z.shiftl_1_l. pose proof (mask_clear (u8 (Z.lnot x)) b (proj1 Hb)) as H.
  assert (Z.testbit (u8 (Z.lnot x)) b = negb (Z.testbit x b)) as E.
  { rewrite u8_land, Z.land_spec, full_byte, andb_true_r by done. by rewrite Z.lnot_spec by lia. }
  rewrite E, negb_involutive in H. rewrite <- Z.eqb_neq, H. done.
Qed.

(** The sections still missing from a table. *)
Lemma readyMissingSections_ok base seen g tableID : represents base seen g →
  returns (readyMissingSections (Some g) tableID) (λ l, ∀ n, n ∈ l ↔ ∃ j b, 0 ≤ j < 32 ∧ 0 ≤ b < 8 ∧ n = 8 * j + b ∧
    ¬ (received seen (Z.land tableID 7) j b ∨ excused base seen (Z.land tableID 7) j b)).
Proof.
  intros [_ _ Hlen Hf]. unfold readyMissingSections.
  destruct (flags_at g (Z.land tableID 7) Hlen (low_bits _)) as (f & Hi & ->). run.
  pose proof (low_bits tableID) as Hlow. apply Hf in Hi. rewrite Z2Nat.id in Hi by lia.
  destruct Hi as [[L1 B1] [L2 B2] _ _ F5 F6]. set (i := Z.land tableID 7) in *. replace (len (rf_flag f)) with 32 by (unfold len; lia).
  eapply safe_mono.
  - apply (safe_foldM_prefix (λ k missing, ∀ n, n ∈ missing ↔ ∃ j b, j ∈ k ∧ 0 ≤ b < 8 ∧ n = 8 * j + b ∧
      ¬ (received seen i j b ∨ excused base seen i j b))).
    + intros n. split; [by intros ?%elem_of_nil | by intros (j & b & ?%elem_of_nil & _)].
    + intros k j missing Hk [r Hpre]. assert (j ∈ seqZ 0 32) as Hj%elem_of_seqZ by (rewrite Hpre; set_solver).
      rewrite !idx_byteAt by (unfold len; lia). run. unfold ends. intros n.
      assert (byte_ok (Z.lor (byteAt (rf_flag f) j) (byteAt (rf_ignore f) j))) as Hbyte by (apply lor_byte; by apply byteAt_ok).
      rewrite elem_of_app, Hk, list_elem_of_fmap. setoid_rewrite list_elem_of_filter. setoid_rewrite elem_of_seqZ.
      setoid_rewrite elem_of_app. setoid_rewrite list_elem_of_singleton.
      assert (∀ b, 0 ≤ b < 8 → (Z.land (u8 (Z.lnot (Z.lor (byteAt (rf_flag f) j) (byteAt (rf_ignore f) j)))) (Z.shiftl 1 b) ≠ 0 ↔
        ¬ (received seen i j b ∨ excused base seen i j b))) as Hbit.
      { intros b Hb. rewrite needed_bit, Z.lor_spec by done. rewrite <- F5, <- F6 by lia. unfold bit.
        destruct (Z.testbit (byteAt (rf_flag f) j) b), (Z.testbit (byteAt (rf_ignore f) j) b); naive_solver. }
      split.
      * intros [(j' & b & ? & ?) | (b & -> & Hb1 & Hb2)]; [exists j', b; tauto |].
        exists j, b. split; [by right |]. split; [lia |]. split; [lia |]. apply Hbit; [lia | done].
      * intros (j' & b & [Hj' | ->] & Hb & -> & Hno); [left; by exists j', b |].
        right. exists b. split; [lia |]. split; [by apply Hbit | lia].
  - cbn. intros l Hl n. rewrite Hl. setoid_rewrite elem_of_seqZ. split.
    + intros (j & b & ? & ? & ? & ?). exists j, b. split_and!; (done || lia).
    + intros (j & b & ? & ? & ? & ?). exists j, b. split_and!; (done || lia).
Qed.

(** ** A whole schedule *)

(** The sections of a service, one after the other, each with its time. *)
Definition observeAll (secs : list (EITSection * Z)) (groups : gmap Z snapshotReadyGroup)
    : outcome (gmap Z snapshotReadyGroup) :=
  foldM (λ groups e, fst <$> observeReady (fst e) (snd e) groups) secs groups.

Definition ofGroup (base : Z) (secs : list (EITSection * Z)) : list (EITSection * Z) :=
  base.filter (λ e, groupOf (fst e) = base) secs.

(** The groups stand for the sections that came. *)
Definition follows (secs : list (EITSection * Z)) (groups : gmap Z snapshotReadyGroup) : Prop :=
  ∀ base, match groups !! base with
          | None => ofGroup base secs = []
          | Some g => ofGroup base secs ≠ [] ∧ represents base (current (ofGroup base secs)) g
          end.

Lemma ofGroup_snoc base secs e :
  ofGroup base (secs ++ [e]) = if decide (groupOf (fst e) = base) then ofGroup base secs ++ [e] else ofGroup base secs.
Proof.
  unfold ofGroup. rewrite filter_app. case_decide as H.
  - by rewrite filter_cons_True, filter_nil.
  - by rewrite filter_cons_False, filter_nil, app_nil_r.
Qed.

Lemma observeAll_follows secs : Forall (λ e, section_ok (fst e)) secs → returns (observeAll secs ∅) (follows secs).
Proof.
  intros Hok. unfold observeAll. apply (safe_foldM_prefix (λ k groups, follows k groups)).
  { intros base. by rewrite lookup_empty. }
  intros k [s now] groups Hk [r Hpre]. cbn [fst snd].
  assert (section_ok s) as Hs.
  { rewrite Forall_forall in Hok. apply (Hok (s, now)). rewrite Hpre. set_solver. }
  unfold observeReady. fold (groupOf s). set (seen := current (ofGroup (groupOf s) k)).
  assert (represents (groupOf s) seen (default (newReadyGroup (groupOf s)) (groups !! groupOf s))) as Hrep.
  { specialize (Hk (groupOf s)). unfold seen. destruct (groups !! groupOf s) as [g |]; [apply Hk |].
    rewrite Hk. apply newReadyGroup_represents. }
  apply safe_fmap, safe_bind. eapply safe_mono; [by apply (observeGroup_ok (groupOf s) seen) |].
  intros [g' changed] [Hg' _]. cbn [fst]. intros base. rewrite ofGroup_snoc. cbn [fst].
  destruct (decide (groupOf s = base)) as [<- | Hne].
  - rewrite lookup_insert_eq. split; [by destruct (ofGroup (groupOf s) k) |].
    unfold current. rewrite fold_left_app. exact Hg'.
  - rewrite lookup_insert_ne by done. apply Hk.
Qed.

Lemma ServiceReady_ok {O : RangeOrder snapshotReadyGroup} secs groups : follows secs groups →
  returns (ServiceReady groups) (λ ok, ok = true ↔
    (∃ base, isScheduleBasic base = true ∧ ofGroup base secs ≠ []) ∧
    ∀ base, isScheduleBasic base = true → ofGroup base secs ≠ [] → complete base (current (ofGroup base secs))).
Proof.
  intros Hf. unfold ServiceReady.
  set (basic := λ e : Z * snapshotReadyGroup, isScheduleBasic (rg_base (snd e)) = true).
  set (full := λ e : Z * snapshotReadyGroup, complete (fst e) (current (ofGroup (fst e) secs))).
  assert (∀ e, e ∈ range groups ↔ groups !! fst e = Some (snd e)) as Hin by (intros []; apply range_elem).
  assert (∀ e, e ∈ range groups → ofGroup (fst e) secs ≠ [] ∧ represents (fst e) (current (ofGroup (fst e) secs)) (snd e)) as Hrep.
  { intros [base g] He%Hin. specialize (Hf base). cbn in *. by rewrite He in Hf. }
  apply safe_bind. eapply safe_mono.
  - apply (safe_foldM_prefix (λ k st, (snd st = true ↔ ∀ e, e ∈ k → basic e → full e) ∧
      (snd st = true → (fst st = true ↔ ∃ e, e ∈ k ∧ basic e)))).
    + split; [split; [by intros _ e ?%elem_of_nil | done] |]. intros _. split; [done | by intros (e & ?%elem_of_nil & _)].
    + intros k e [hasBasic ok] [H1 H2] [r Hpre]. cbn [fst snd] in *.
      assert (e ∈ range groups) as He by (rewrite Hpre; set_solver). destruct (Hrep e He) as [_ Hr].
      assert (∀ P : Z * snapshotReadyGroup → Prop, (∀ y, y ∈ k ++ [e] → P y) ↔ (∀ y, y ∈ k → P y) ∧ P e) as Hall.
      { intros P. setoid_rewrite elem_of_app. setoid_rewrite list_elem_of_singleton. naive_solver. }
      destruct ok; cbn [negb]; [| unfold ends; cbn [fst snd]; rewrite Hall; split; [split; [done | intros [H _]; by apply H1] | done]].
      destruct (isScheduleBasic (rg_base (snd e))) eqn:Eb; cbn [negb].
      * apply safe_bind. eapply safe_mono; [by apply (ready_ok (fst e) (current (ofGroup (fst e) secs))) |].
        intros ok Hready. unfold ends. cbn [fst snd]. rewrite Hall. split.
        -- rewrite <- H1. cbn [fst snd]. rewrite Hready. unfold full, basic. naive_solver.
        -- intros _. split; [intros _; exists e; split; [set_solver | done] | done].
      * unfold ends. cbn [fst snd]. rewrite Hall. split.
        -- rewrite <- H1. split; [split; [done |] | done]. unfold basic. congruence.
        -- intros _. rewrite (H2 eq_refl). split; intros (y & Hy & Hb); exists y; (split; [| done]); [set_solver |].
           apply elem_of_app in Hy as [? | ->%list_elem_of_singleton]; [done | unfold basic in Hb; congruence].
  - intros [hasBasic ok] [H1 H2]. cbn [fst snd] in *. unfold ends. rewrite andb_true_iff.
    assert (∀ base, ofGroup base secs ≠ [] ↔ ∃ g, (base, g) ∈ range groups ∧ rg_base g = base) as Hbase.
    { intros base. split.
      - intros Hne. specialize (Hf base). destruct (groups !! base) as [g |] eqn:Eg; [| done].
        exists g. split; [by apply Hin | apply Hf].
      - intros (g & Hg & _). by apply (Hrep (base, g)). }
    split.
    + intros [-> ->]. destruct (proj1 (H2 eq_refl) eq_refl) as ([base g] & Hg & Hb). destruct (Hrep _ Hg) as [Hne Hr]. split.
      * exists base. split; [| done]. unfold basic in Hb. cbn in *. by rewrite (rp_base _ _ _ Hr) in Hb.
      * intros base' Hb' (g' & Hg' & Hgb)%Hbase. apply (proj1 H1 eq_refl (base', g') Hg'). unfold basic. cbn. by rewrite Hgb.
    + intros [(base & Hb & Hne) Hfull]. assert (ok = true) as ->.
      { apply H1. intros [base' g'] Hg' Hb'. destruct (Hrep _ Hg') as [Hne' Hr']. apply Hfull; [| done].
        unfold basic in Hb'. cbn in *. by rewrite (rp_base _ _ _ Hr') in Hb'. }
      split; [| done]. apply (H2 eq_refl). apply Hbase in Hne as (g & Hg & Hgb). exists (base, g). split; [done |].
      unfold basic. cbn. by rewrite Hgb.
Qed.

(** Sections that agree on the last table and, table by table, on the version. *)
Definition consistent (secs : list (EITSection * Z)) : Prop :=
  ∀ s t s' t', (s, t) ∈ secs → (s', t') ∈ secs → lastTable s = lastTable s' ∧
    (table s = table s' → VersionNumber s = VersionNumber s').

Lemma current_consistent secs : consistent secs → current secs = secs.
Proof.
  induction secs as [| [s t] secs IH] using rev_ind; intros Hc; [done |].
  assert (consistent secs) as Hc'.
  { intros s1 t1 s2 t2 H1 H2. apply (Hc s1 t1 s2 t2); set_solver. }
  unfold current in *. rewrite fold_left_app. cbn [fold_left]. rewrite IH by done. unfold track. cbn [fst].
  assert ((s, t) ∈ secs ++ [(s, t)]) as Hin by set_solver. unfold supersedes. destruct secs as [| [s0 t0] secs]; [done |].
  assert (lastTable s0 = lastTable s) as -> by (apply (Hc s0 t0 s t); [set_solver | done]). rewrite Z.eqb_refl. cbn [negb orb].
  destruct (existsb _ _) eqn:E; [| done]. exfalso. apply existsb_exists in E as ([s' t'] & Hs'%list_elem_of_In & [Ht%Z.eqb_eq Hv%negb_true_iff]%andb_true_iff).
  apply Z.eqb_neq in Hv. apply Hv. apply (Hc s' t' s t); [set_solver | done | done].
Qed.

(** ** Theorems *)

(** After any sequence of schedule sections the service is
    ready exactly when it has a basic group and, in every basic group, each
    section of each table up to the last one has arrived in the current version
    or is excused by one that has - being beyond its table's last segment, its
    segment's last section, or in the part of the first day that is over.  The
    bitmaps never go out of range, and sections that agree on their versions are
    all of the current version. *)
Theorem schedule_ready {O : RangeOrder snapshotReadyGroup} secs : Forall (λ e, section_ok (fst e)) secs →
  returns (observeAll secs ∅) (λ groups, returns (ServiceReady groups) (λ ok, ok = true ↔
    (∃ base, isScheduleBasic base = true ∧ ofGroup base secs ≠ []) ∧
    ∀ base, isScheduleBasic base = true → ofGroup base secs ≠ [] → complete base (current (ofGroup base secs)))) ∧
  (∀ base, consistent (ofGroup base secs) → current (ofGroup base secs) = ofGroup base secs).
Proof.
  intros Hok. split; [| intros base; apply current_consistent].
  eapply safe_mono; [by apply observeAll_follows |]. intros groups Hf. by apply ServiceReady_ok.
Qed.

(** The missing sections reported of a table are exactly those
    that have neither arrived in the current version nor are excused, and a
    section whose observation reports no change has changed nothing. *)
Theorem missing_sections_exact secs : Forall (λ e, section_ok (fst e)) secs →
  returns (observeAll secs ∅) (λ groups, ∀ base tableID g, groups !! base = Some g →
    returns (readyMissingSections (Some g) tableID) (λ l, ∀ n, n ∈ l ↔ ∃ j b, 0 ≤ j < 32 ∧ 0 ≤ b < 8 ∧ n = 8 * j + b ∧
      ¬ (received (current (ofGroup base secs)) (Z.land tableID 7) j b ∨
         excused base (current (ofGroup base secs)) (Z.land tableID 7) j b)) ∧
    ∀ s now, section_ok s → returns (observeGroup s now g) (λ '(g', changed), changed = false → g' = g)).
Proof.
  intros Hok. eapply safe_mono; [by apply observeAll_follows |]. intros groups Hf base tableID g Hg.
  specialize (Hf base). rewrite Hg in Hf. destruct Hf as [_ Hrep]. split.
  - by apply readyMissingSections_ok.
  - intros s now Hs. eapply safe_mono; [by apply (observeGroup_ok base (current (ofGroup base secs))) |]. by intros [g' c] [_ ?].
Qed.

(** ** Examples *)

(** At nine o'clock JST the segments 0, 1 and 2 of the first day are over; the
    fourth has two sections. *)
Definition sampleSection (number : Z) : EITSection * Z :=
  (MkEITSection 4 16625 101 0x50 0x50 number 25 25 3, 0).
Definition sampleSchedule : list (EITSection * Z) := [sampleSection 24; sampleSection 25].

Lemma sampleSection_ok number : byte_ok number → section_ok (fst (sampleSection number)).
Proof. unfold section_ok, byte_ok. cbn. lia. Qed.

Lemma sampleSchedule_ok : Forall (λ e, section_ok (fst e)) sampleSchedule.
Proof. repeat constructor; apply sampleSection_ok; unfold byte_ok; lia. Qed.

Lemma schedule_ready_witness :
  (groups ← observeAll sampleSchedule ∅; ServiceReady (O := keyOrder) groups) = Ret true ∧
  (groups ← observeAll (take 1 sampleSchedule) ∅; ServiceReady (O := keyOrder) groups) = Ret false ∧
  returns (observeAll sampleSchedule ∅) (λ groups, returns (ServiceReady (O := keyOrder) groups) (λ ok, ok = true ↔
    (∃ base, isScheduleBasic base = true ∧ ofGroup base sampleSchedule ≠ []) ∧
    ∀ base, isScheduleBasic base = true → ofGroup base sampleSchedule ≠ [] →
      complete base (current (ofGroup base sampleSchedule)))).
Proof.
  split; [vm_compute; reflexivity |]. split; [vm_compute; reflexivity |].
  exact (proj1 (schedule_ready (O := keyOrder) sampleSchedule sampleSchedule_ok)).
Defined.

Lemma missing_sections_exact_witness :
  (groups ← observeAll (take 1 sampleSchedule) ∅; readyMissingSections (groups !! 0x50) 0x50) = Ret [25] ∧
  returns (observeAll sampleSchedule ∅) (λ groups, ∀ base tableID g, groups !! base = Some g →
    returns (readyMissingSections (Some g) tableID) (λ l, ∀ n, n ∈ l ↔ ∃ j b, 0 ≤ j < 32 ∧ 0 ≤ b < 8 ∧ n = 8 * j + b ∧
      ¬ (received (current (ofGroup base sampleSchedule)) (Z.land tableID 7) j b ∨
         excused base (current (ofGroup base sampleSchedule)) (Z.land tableID 7) j b)) ∧
    ∀ s now, section_ok s → returns (observeGroup s now g) (λ '(g', changed), changed = false → g' = g)).
Proof.
  split; [vm_compute; reflexivity |].
  exact (missing_sections_exact sampleSchedule sampleSchedule_ok).
Defined.
