(* ===== verification/Sessions.v ===== *)
(** * Stream sessions ([internal/stream/session_registry.go], [manager.go] getOrCreate)

    All viewers of a channel share one session.  [sessionRegistry] keeps the live
    sessions and, per channel, the creation in flight, which concurrent requests
    join instead of starting their own; [getOrCreate] is the loop of a request,
    and [Shutdown] what ends them.

    A [*sessionCreate] is an id in the store [r_store], a session a number.
    Every method of the registry is one critical section; a request is a
    [caller] that moves from section to section.  Whether a session is alive,
    what [createSession] returns and [time.Now] are arguments of the steps. *)

From S2P Require Import Prelude.

(** ** The code: the registry *)

(** The channel and its type. *)
Definition sessionKey : Type := string * string.

Record SessionError : Type := MkSessionError {
  se_text : string;
  se_broadcastStopped : bool
}.

Record sessionEntry : Type := MkEntry {
  e_session : nat;
  e_routeType : string;
  e_source : string;
  e_startedAt : Z
}.

Record sessionCreate : Type := MkCreate {
  c_done : bool;
  c_err : option SessionError;
  c_session : option nat
}.

Record sessionRegistry : Type := MkRegistry {
  r_sessions : gmap sessionKey sessionEntry;
  r_creates : gmap sessionKey nat;
  r_shuttingDown : bool;
  r_store : gmap nat sessionCreate;
  r_allocated : nat
}.

Definition newSessionRegistry : sessionRegistry := MkRegistry ∅ ∅ false ∅ 0.

Definition setSessions (x : gmap sessionKey sessionEntry) (r : sessionRegistry) : sessionRegistry :=
  MkRegistry x (r_creates r) (r_shuttingDown r) (r_store r) (r_allocated r).

(** The four outcomes [acquireResult] encodes. *)
Inductive acquireResult : Type :=
| HasEntry (entry : sessionEntry)
| ShuttingDown
| Pending (create : nat)
| Create (create : nat).

Definition acquire (key : sessionKey) (r : sessionRegistry) : sessionRegistry * acquireResult :=
  match r_sessions r !! key with
  | Some entry => (r, HasEntry entry)
  | None =>
      if r_shuttingDown r then (r, ShuttingDown)
      else match r_creates r !! key with
           | Some create => (r, Pending create)
           | None =>
               let create := r_allocated r in
               (MkRegistry (r_sessions r) (<[key := create]> (r_creates r)) (r_shuttingDown r)
                  (<[create := MkCreate false None None]> (r_store r)) (S create), Create create)
           end
  end.

Definition addLocked (key : sessionKey) (session : nat) (routeType source : string) (now : Z) (r : sessionRegistry)
    : sessionRegistry :=
  setSessions (<[key := MkEntry session routeType source now]> (r_sessions r)) r.

(** The result of [createSession] is a session or an error. *)
Definition completeCreate (key : sessionKey) (create : nat) (result : nat + SessionError) (routeType source : string)
    (now : Z) (r : sessionRegistry) : outcome sessionRegistry :=
  let r := match result with inl session => addLocked key session routeType source now r | inr _ => r end in
  match r_store r !! create with
  | None => Panic
  | Some c =>
      (* close of a closed channel *)
      if c_done c then Panic
      else
        let c := match result with
                 | inl session => MkCreate true None (Some session)
                 | inr err => MkCreate true (Some err) None end in
        Ret (MkRegistry (r_sessions r) (delete key (r_creates r)) (r_shuttingDown r)
               (<[create := c]> (r_store r)) (r_allocated r))
  end.

Definition has (key : sessionKey) (r : sessionRegistry) : bool := bool_decide (is_Some (r_sessions r !! key)).
Definition get (key : sessionKey) (r : sessionRegistry) : option nat := e_session <$> r_sessions r !! key.
Definition count (r : sessionRegistry) : Z := Z.of_nat (size (r_sessions r)).

Definition removeLocked (key : sessionKey) (r : sessionRegistry) : sessionRegistry :=
  match r_sessions r !! key with
  | None => r
  | Some _ => setSessions (delete key (r_sessions r)) r
  end.

Definition removeSession : sessionKey → sessionRegistry → sessionRegistry := removeLocked.

Definition removeIfSame (key : sessionKey) (session : nat) (r : sessionRegistry) : sessionRegistry :=
  match r_sessions r !! key with
  | Some entry => if bool_decide (e_session entry = session) then removeLocked key r else r
  | None => r
  end.

Definition beginShutdown (r : sessionRegistry) : sessionRegistry * list nat :=
  (MkRegistry (r_sessions r) (r_creates r) true (r_store r) (r_allocated r), snd <$> map_to_list (r_creates r)).

Definition activeSessions (r : sessionRegistry) : list nat := (λ e, e_session (snd e)) <$> map_to_list (r_sessions r).

Definition clear (r : sessionRegistry) : sessionRegistry :=
  fold_left (λ r key, removeLocked key r) (fst <$> map_to_list (r_sessions r)) r.

(** ** The code: [getOrCreate] *)

Inductive GetError : Type :=
| ErrStreamManagerShutdown
| ErrSessionAcquireFailed
| ErrContext
| ErrCreate (err : SessionError).

(** Where a request is: before an attempt, before the eviction of a session it
    found dead, creating, waiting for a creation, or done. *)
Inductive caller : Type :=
| Calling (attempt : nat)
| Evicting (attempt : nat) (session : nat)
| Creating (attempt : nat) (create : nat)
| Waiting (create : nat)
| Returned (result : option nat + GetError).

Definition maxAttempts : nat := 3.

(** The start of an attempt; [alive] tells of the session found. *)
Definition callAcquire (key : sessionKey) (attempt : nat) (alive : bool) (r : sessionRegistry) : sessionRegistry * caller :=
  if (maxAttempts <=? attempt)%nat then (r, Returned (inr ErrSessionAcquireFailed))
  else
    let '(r, res) := acquire key r in
    (r, match res with
        | HasEntry entry => if alive then Returned (inl (Some (e_session entry))) else Evicting attempt (e_session entry)
        | ShuttingDown => Returned (inr ErrStreamManagerShutdown)
        | Pending create => Waiting create
        | Create create => Creating attempt create
        end).

Definition callEvict (key : sessionKey) (attempt session : nat) (r : sessionRegistry) : sessionRegistry * caller :=
  (removeIfSame key session r, Calling (S attempt)).

Definition callCreated (key : sessionKey) (attempt create : nat) (result : nat + SessionError)
    (routeType source : string) (now : Z) (r : sessionRegistry) : outcome (sessionRegistry * caller) :=
  r ← completeCreate key create result routeType source now r;
  Ret (r, match result with
          | inl session => Returned (inl (Some session))
          | inr err =>
              if se_broadcastStopped err && (attempt <? maxAttempts - 1)%nat then Calling (S attempt)
              else Returned (inr (ErrCreate err))
          end).

(** Once the creation waited for is done. *)
Definition callJoined (c : sessionCreate) : caller :=
  match c_err c with
  | Some err => Returned (inr (ErrCreate err))
  | None => Returned (inl (c_session c))
  end.

(** ** Requests and the registry *)

Record world : Type := MkWorld {
  w_registry : sessionRegistry;
  w_callers : gmap nat (sessionKey * caller)
}.

(** A step of a request, or of what else uses the registry: the sessions' own
    callbacks and [Shutdown]. *)
Inductive action : Type :=
| Call (p : nat) (key : sessionKey)
| Attempt (p : nat) (alive : bool)
| Evict (p : nat)
| Created (p : nat) (result : nat + SessionError) (routeType source : string) (now : Z)
| Join (p : nat)
| Cancel (p : nat)
| RemoveSession (key : sessionKey)
| BeginShutdown
| Clear.

Definition move (p : nat) (key : sessionKey) (res : sessionRegistry * caller) (w : world) : world :=
  MkWorld (fst res) (<[p := (key, snd res)]> (w_callers w)).

(** [None] where the step cannot be taken. *)
Definition perform (a : action) (w : world) : outcome (option world) :=
  let r := w_registry w in
  match a with
  | Call p key => Ret match w_callers w !! p with
                      | None => Some (MkWorld r (<[p := (key, Calling 0)]> (w_callers w)))
                      | Some _ => None end
  | Attempt p alive => Ret match w_callers w !! p with
                           | Some (key, Calling attempt) => Some (move p key (callAcquire key attempt alive r) w)
                           | _ => None end
  | Evict p => Ret match w_callers w !! p with
                   | Some (key, Evicting attempt session) => Some (move p key (callEvict key attempt session r) w)
                   | _ => None end
  | Created p result routeType source now =>
      match w_callers w !! p with
      | Some (key, Creating attempt create) =>
          res ← callCreated key attempt create result routeType source now r; Ret (Some (move p key res w))
      | _ => Ret None
      end
  | Join p =>
      match w_callers w !! p with
      | Some (key, Waiting create) =>
          match r_store r !! create with
          | None => Panic
          | Some c => Ret (if c_done c then Some (move p key (r, callJoined c) w) else None)
          end
      | _ => Ret None
      end
  | Cancel p => Ret match w_callers w !! p with
                    | Some (key, Waiting _) => Some (move p key (r, Returned (inr ErrContext)) w)
                    | _ => None end
  | RemoveSession key => Ret (Some (MkWorld (removeSession key r) (w_callers w)))
  | BeginShutdown => Ret (Some (MkWorld (fst (beginShutdown r)) (w_callers w)))
  | Clear => Ret (Some (MkWorld (clear r) (w_callers w)))
  end.

Definition start : world := MkWorld newSessionRegistry ∅.

Inductive reachable : world → Prop :=
| reachable_start : reachable start
| reachable_step w a w' : reachable w → perform a w = Ret (Some w') → reachable w'.

(** ** The invariant *)

Record inv (w : world) : Prop := {
  iv_open : ∀ key c, r_creates (w_registry w) !! key = Some c → r_store (w_registry w) !! c = Some (MkCreate false None None);
  iv_key : ∀ k1 k2 c, r_creates (w_registry w) !! k1 = Some c → r_creates (w_registry w) !! k2 = Some c → k1 = k2;
  iv_creating : ∀ p key n c, w_callers w !! p = Some (key, Creating n c) → r_creates (w_registry w) !! key = Some c;
  iv_creator : ∀ key c, r_creates (w_registry w) !! key = Some c → ∃ p n, w_callers w !! p = Some (key, Creating n c);
  iv_one : ∀ p1 p2 k1 k2 n1 n2 c, w_callers w !! p1 = Some (k1, Creating n1 c) →
    w_callers w !! p2 = Some (k2, Creating n2 c) → p1 = p2;
  iv_waiting : ∀ p key c, w_callers w !! p = Some (key, Waiting c) → ∃ x, r_store (w_registry w) !! c = Some x ∧
    (c_done x = false → r_creates (w_registry w) !! key = Some c);
  iv_disjoint : ∀ key, is_Some (r_creates (w_registry w) !! key) → r_sessions (w_registry w) !! key = None;
  iv_store : ∀ c x, r_store (w_registry w) !! c = Some x → (c < r_allocated (w_registry w))%nat ∧
    (c_done x = true → is_Some (c_err x) ∨ is_Some (c_session x));
  iv_attempt : ∀ p key x, w_callers w !! p = Some (key, x) →
    match x with Calling n => (n ≤ maxAttempts)%nat | Creating n _ | Evicting n _ => (n < maxAttempts)%nat | _ => True end
}.

Lemma start_ok : inv start.
Proof. by split; cbn; intros *; rewrite ?lookup_empty; try done; intros [? ?]. Qed.

(** The registry lost sessions, at most. *)
Record shrunk (r r' : sessionRegistry) : Prop := {
  sh_creates : r_creates r' = r_creates r;
  sh_store : r_store r' = r_store r;
  sh_allocated : r_allocated r' = r_allocated r;
  sh_sessions : ∀ key, r_sessions r !! key = None → r_sessions r' !! key = None
}.

Lemma shrunk_refl r : shrunk r r.
Proof. done. Qed.

Lemma shrunk_trans r1 r2 r3 : shrunk r1 r2 → shrunk r2 r3 → shrunk r1 r3.
Proof. intros [A1 A2 A3 A4] [B1 B2 B3 B4]. split; try congruence. intros key H. by apply B4, A4. Qed.

Lemma removeLocked_shrunk key r : shrunk r (removeLocked key r) ∧ r_shuttingDown (removeLocked key r) = r_shuttingDown r ∧
  ∀ k, r_sessions (removeLocked key r) !! k = if decide (k = key) then None else r_sessions r !! k.
Proof.
  unfold removeLocked. destruct (r_sessions r !! key) as [e |] eqn:E.
  - split; [split; try done |split; [done |]]; cbn.
    + intros k H. apply lookup_delete_None. by right.
    + intros k. destruct (decide (k = key)) as [-> | Hne]; [apply lookup_delete_eq | by apply lookup_delete_ne].
  - split; [apply shrunk_refl | split; [done |]]. intros k. by destruct (decide (k = key)) as [-> |].
Qed.

Lemma clear_ok r : shrunk r (clear r) ∧ r_shuttingDown (clear r) = r_shuttingDown r ∧ r_sessions (clear r) = ∅.
Proof.
  unfold clear.
  assert (∀ l r, let r' := fold_left (λ r key, removeLocked key r) l r in shrunk r r' ∧
    r_shuttingDown r' = r_shuttingDown r ∧ ∀ k, k ∈ l → r_sessions r' !! k = None) as H.
  { induction l as [| key l IH]; intros r0; cbn [fold_left]; [split; [apply shrunk_refl | split; [done | by intros k ?%elem_of_nil]] |].
    destruct (removeLocked_shrunk key r0) as (H1 & H2 & H3). destruct (IH (removeLocked key r0)) as (G1 & G2 & G3).
    split; [by eapply (shrunk_trans r0) | split; [congruence |]]. intros k [-> | Hk]%elem_of_cons; [| by apply G3].
    apply (sh_sessions _ _ G1). rewrite H3. by rewrite decide_True. }
  destruct (H (fst <$> map_to_list (r_sessions r)) r) as (H1 & H2 & H3). split; [done | split; [done |]].
  apply map_empty. intros k. destruct (r_sessions r !! k) as [e |] eqn:E; [| by apply (sh_sessions _ _ H1)].
  apply H3, list_elem_of_fmap. exists (k, e). split; [done | by apply elem_of_map_to_list].
Qed.

Lemma removeIfSame_shrunk key session r : shrunk r (removeIfSame key session r).
Proof.
  unfold removeIfSame. destruct (r_sessions r !! key); [| done]. case_bool_decide; [| done]. apply (proj1 (removeLocked_shrunk key r)).
Qed.

(** What a request may become without touching a creation. *)
Definition settled (r : sessionRegistry) (key : sessionKey) (x : caller) : Prop :=
  match x with
  | Calling n => (n ≤ maxAttempts)%nat
  | Evicting n _ => (n < maxAttempts)%nat
  | Creating _ _ => False
  | Waiting c => r_creates r !! key = Some c
  | Returned _ => True
  end.

Definition isCreating (x : option (sessionKey * caller)) : Prop :=
  match x with Some (_, Creating _ _) => True | _ => False end.

(** The request at [p] creates nothing, as [H] shows. *)
Ltac idle H := cbn [w_callers]; rewrite H; exact (λ h, h).

Lemma inv_shrunk w r' : inv w → shrunk (w_registry w) r' → inv (MkWorld r' (w_callers w)).
Proof.
  intros [I1 I2 I3 I4 I5 I6 I7 I8 I9] [E1 E2 E3 E4]. split; cbn; rewrite ?E1, ?E2, ?E3; try done.
  intros key H. by apply E4, I7.
Qed.

Lemma inv_caller w p key x : inv w → ¬ isCreating (w_callers w !! p) → settled (w_registry w) key x →
  inv (MkWorld (w_registry w) (<[p := (key, x)]> (w_callers w))).
Proof.
  intros [I1 I2 I3 I4 I5 I6 I7 I8 I9] Hp Hx.
  assert (∀ q k n c, <[p := (key, x)]> (w_callers w) !! q = Some (k, Creating n c) ↔ w_callers w !! q = Some (k, Creating n c)) as Hq.
  { intros q k n c. destruct (decide (p = q)) as [<- | Hne]; [| by rewrite lookup_insert_ne].
    rewrite lookup_insert_eq. split; [intros [= -> ->]; done | intros H; by rewrite H in Hp]. }
  split; cbn; try done.
  - intros q k n c. rewrite Hq. apply I3.
  - intros k c Hc. destruct (I4 k c Hc) as (q & n & H). exists q, n. by rewrite Hq.
  - intros p1 p2 k1 k2 n1 n2 c. rewrite !Hq. apply I5.
  - intros q k c. destruct (decide (p = q)) as [<- | Hne]; [| rewrite lookup_insert_ne by done; apply I6].
    rewrite lookup_insert_eq. intros [= <- ->]. cbn in Hx. eexists. split; [by eapply I1 | done].
  - intros q k y. destruct (decide (p = q)) as [<- | Hne]; [| rewrite lookup_insert_ne by done; apply I9].
    rewrite lookup_insert_eq. intros [= <- <-]. by destruct x.
Qed.

(** A request that starts a creation. *)
Lemma inv_create w p key n : inv w → ¬ isCreating (w_callers w !! p) → (n < maxAttempts)%nat →
  r_sessions (w_registry w) !! key = None → r_creates (w_registry w) !! key = None →
  let r := w_registry w in
  inv (MkWorld (MkRegistry (r_sessions r) (<[key := r_allocated r]> (r_creates r)) (r_shuttingDown r)
    (<[r_allocated r := MkCreate false None None]> (r_store r)) (S (r_allocated r)))
    (<[p := (key, Creating n (r_allocated r))]> (w_callers w))).
Proof.
  intros [I1 I2 I3 I4 I5 I6 I7 I8 I9] Hp Hn Hs Hc. set (r := w_registry w) in *. cbn. set (c := r_allocated r) in *.
  assert (∀ x, r_store r !! c ≠ Some x) as Hnew by (intros x Hx; destruct (I8 c x Hx); lia).
  assert (∀ k, r_creates r !! k ≠ Some c) as Hnewk by (intros k Hk; by apply (Hnew _ (I1 k c Hk))).
  split; cbn.
  - intros k d. destruct (decide (key = k)) as [<- | Hne].
    + rewrite lookup_insert_eq. intros [= <-]. apply lookup_insert_eq.
    + rewrite lookup_insert_ne by done. intros Hk. rewrite lookup_insert_ne; [by apply (I1 k) | intros <-; by apply (Hnewk k)].
  - intros k1 k2 d. destruct (decide (key = k1)) as [<- | H1], (decide (key = k2)) as [<- | H2];
      rewrite ?lookup_insert_eq, ?lookup_insert_ne by done; [done | | | apply I2].
    + intros [= <-] Hk. by destruct (Hnewk k2).
    + intros Hk [= <-]. by destruct (Hnewk k1).
  - intros q k m d. destruct (decide (p = q)) as [<- | Hne].
    + rewrite lookup_insert_eq. intros [= <- <- <-]. apply lookup_insert_eq.
    + rewrite lookup_insert_ne by done. intros Hq%I3. rewrite lookup_insert_ne; [done | intros <-; congruence].
  - intros k d. destruct (decide (key = k)) as [<- | Hne].
    + rewrite lookup_insert_eq. intros [= <-]. exists p, n. apply lookup_insert_eq.
    + rewrite lookup_insert_ne by done. intros (q & m & Hq)%I4. exists q, m.
      rewrite lookup_insert_ne; [done | intros <-; by rewrite Hq in Hp].
  - intros p1 p2 k1 k2 n1 n2 d. destruct (decide (p = p1)) as [<- | H1], (decide (p = p2)) as [<- | H2];
      rewrite ?lookup_insert_eq, ?lookup_insert_ne by done; [done | | | apply I5].
    + intros [= <- <- <-] Hq%I3. by destruct (Hnewk k2).
    + intros Hq%I3 [= <- <- <-]. by destruct (Hnewk k1).
  - intros q k d. destruct (decide (p = q)) as [<- | Hne]; [by rewrite lookup_insert_eq |].
    rewrite lookup_insert_ne by done. intros (x & Hx & Hopen)%I6. exists x.
    split; [rewrite lookup_insert_ne; [done | intros <-; by apply (Hnew x)] |].
    intros H%Hopen. rewrite lookup_insert_ne; [done | intros <-; congruence].
  - intros k. destruct (decide (key = k)) as [<- | Hne]; [done |]. rewrite lookup_insert_ne by done. apply I7.
  - intros d x. destruct (decide (c = d)) as [<- | Hne].
    + rewrite lookup_insert_eq. intros [= <-]. split; [lia | done].
    + rewrite lookup_insert_ne by done. intros [? ?]%I8. split; [lia | done].
  - intros q k y. destruct (decide (p = q)) as [<- | Hne]; [| rewrite lookup_insert_ne by done; apply I9].
    rewrite lookup_insert_eq. by intros [= <- <-].
Qed.

(** The end of a creation. *)
Lemma inv_created w p key n c c' sessions x : inv w → w_callers w !! p = Some (key, Creating n c) →
  c_done c' = true → is_Some (c_err c') ∨ is_Some (c_session c') →
  (∀ k, k ≠ key → sessions !! k = r_sessions (w_registry w) !! k) →
  match x with Calling m => (m ≤ maxAttempts)%nat | Returned _ => True | _ => False end →
  let r := w_registry w in
  inv (MkWorld (MkRegistry sessions (delete key (r_creates r)) (r_shuttingDown r) (<[c := c']> (r_store r)) (r_allocated r))
    (<[p := (key, x)]> (w_callers w))).
Proof.
  intros [I1 I2 I3 I4 I5 I6 I7 I8 I9] Hp Hd Hres Hs Hx. set (r := w_registry w) in *. cbn.
  pose proof (I3 _ _ _ _ Hp) as Hkey.
  assert (∀ q k m d, <[p := (key, x)]> (w_callers w) !! q = Some (k, Creating m d) ↔
    q ≠ p ∧ w_callers w !! q = Some (k, Creating m d)) as Hq.
  { intros q k m d. destruct (decide (p = q)) as [<- | Hne].
    - rewrite lookup_insert_eq. split; [intros [= <- ->]; done | by intros [? _]].
    - rewrite lookup_insert_ne by done. split; [by split | by intros [_ ?]]. }
  assert (∀ q k m d, q ≠ p → w_callers w !! q = Some (k, Creating m d) → k ≠ key ∧ d ≠ c) as Hother.
  { intros q k m d Hne H. pose proof (I3 _ _ _ _ H) as Hk. assert (d ≠ c) as Hdc.
    { intros ->. apply Hne. by eapply I5. }
    split; [intros ->; rewrite Hkey in Hk; by injection Hk as -> | done]. }
  split; cbn.
  - intros k d [Hne Hk]%lookup_delete_Some. rewrite lookup_insert_ne; [by apply (I1 k) |].
    intros <-. by apply Hne, (I2 key k c).
  - intros k1 k2 d [_ H1]%lookup_delete_Some [_ H2]%lookup_delete_Some. by apply (I2 k1 k2 d).
  - intros q k m d [Hne H]%Hq. destruct (Hother q k m d Hne H) as [Hk _]. rewrite lookup_delete_ne by done. by apply (I3 q k m).
  - intros k d [Hne Hk]%lookup_delete_Some. destruct (I4 k d Hk) as (q & m & H). exists q, m. apply Hq. split; [| done].
    intros ->. rewrite Hp in H. by injection H as ->.
  - intros p1 p2 k1 k2 n1 n2 d [_ H1]%Hq [_ H2]%Hq. by eapply I5.
  - intros q k d. destruct (decide (p = q)) as [<- | Hne]; [rewrite lookup_insert_eq; intros [= <- ->]; done |].
    rewrite lookup_insert_ne by done. intros (y & Hy & Hopen)%I6. destruct (decide (c = d)) as [<- | Hcd].
    + exists c'. rewrite lookup_insert_eq. split; [done | congruence].
    + exists y. rewrite lookup_insert_ne by done. split; [done |]. intros H%Hopen.
      rewrite lookup_delete_ne; [done |]. intros <-. congruence.
  - intros k [Hne Hk]%lookup_delete_is_Some. rewrite Hs by done. by apply I7.
  - intros d y. destruct (decide (c = d)) as [<- | Hcd].
    + rewrite lookup_insert_eq. intros [= <-]. split; [| done]. destruct (I8 c _ (I1 _ _ Hkey)). lia.
    + rewrite lookup_insert_ne by done. apply I8.
  - intros q k y. destruct (decide (p = q)) as [<- | Hne]; [| rewrite lookup_insert_ne by done; apply I9].
    rewrite lookup_insert_eq. intros [= <- <-]. by destruct x.
Qed.

Lemma callAcquire_ok w p key n alive : inv w → w_callers w !! p = Some (key, Calling n) →
  inv (move p key (callAcquire key n alive (w_registry w)) w).
Proof.
  intros Hinv Hp. assert (¬ isCreating (w_callers w !! p)) as Hnc by idle Hp.
  assert (∀ x, settled (w_registry w) key x → inv (move p key (w_registry w, x) w)) as Hmove by (intros x; by apply inv_caller).
  unfold callAcquire. destruct (Nat.leb_spec maxAttempts n) as [Hn | Hn]; [by apply Hmove |].
  unfold acquire. destruct (r_sessions (w_registry w) !! key) as [e |] eqn:Es.
  - destruct alive; by apply Hmove.
  - destruct (r_shuttingDown (w_registry w)) eqn:Ed; [by apply Hmove |].
    destruct (r_creates (w_registry w) !! key) as [c |] eqn:Ec; [by apply Hmove |].
    pose proof (inv_create w p key n Hinv Hnc Hn Es Ec) as H. cbn in H. by rewrite Ed in H.
Qed.

Lemma callCreated_ok w p key n c result routeType source now : inv w → w_callers w !! p = Some (key, Creating n c) →
  returns (callCreated key n c result routeType source now (w_registry w)) (λ res, inv (move p key res w) ∧
    r_shuttingDown (fst res) = r_shuttingDown (w_registry w) ∧
    r_store (fst res) !! c = Some (match result with inl s => MkCreate true None (Some s) | inr e => MkCreate true (Some e) None end)).
Proof.
  intros Hinv Hp. pose proof (iv_creating _ Hinv _ _ _ _ Hp) as Hkey. pose proof (iv_open _ Hinv _ _ Hkey) as Hopen.
  assert (n < maxAttempts)%nat as Hn by apply (iv_attempt _ Hinv _ _ _ Hp).
  unfold callCreated, completeCreate, move. destruct result as [session | err]; cbn [addLocked setSessions r_store r_creates
    r_shuttingDown r_allocated r_sessions]; rewrite Hopen; run; unfold ends; cbn [fst snd].
  - split; [| split; [done | apply lookup_insert_eq]]. eapply inv_created; try done; [by right; eexists |].
    intros k Hk. by apply lookup_insert_ne.
  - split; [| split; [done | apply lookup_insert_eq]]. eapply inv_created; try done; [by left; eexists |].
    destruct (_ && _); cbn [snd]; [exact Hn | done].
Qed.

Lemma session_perform_ok a w : inv w → returns (perform a w) (λ res, ∀ w', res = Some w' → inv w').
Proof.
  intros Hinv. destruct a; cbn [perform].
  - intros w'. destruct (w_callers w !! p) eqn:E; [done |]. intros [= <-]. apply inv_caller; [done | idle E | cbn; lia].
  - intros w'. destruct (w_callers w !! p) as [[key []] |] eqn:E; try done. intros [= <-]. by apply callAcquire_ok.
  - intros w'. destruct (w_callers w !! p) as [[key []] |] eqn:E; try done. intros [= <-]. unfold move, callEvict. cbn [fst snd].
    pose proof (removeIfSame_shrunk key session (w_registry w)) as Hsh.
    apply (inv_caller (MkWorld _ (w_callers w))); [by apply inv_shrunk | idle E |].
    pose proof (iv_attempt _ Hinv _ _ _ E) as Ha. cbn in *. lia.
  - destruct (w_callers w !! p) as [[key []] |] eqn:E; try done. apply safe_bind.
    eapply safe_mono; [by apply callCreated_ok |]. by intros res (H & _) w' [= <-].
  - destruct (w_callers w !! p) as [[key []] |] eqn:E; try done.
    destruct (iv_waiting _ Hinv _ _ _ E) as (x & Hx & _). rewrite Hx. intros w'. destruct (c_done x); [| done].
    intros [= <-]. apply inv_caller; [done | idle E |]. unfold callJoined. by destruct (c_err x).
  - intros w'. destruct (w_callers w !! p) as [[key []] |] eqn:E; try done. intros [= <-].
    apply inv_caller; [done | idle E | done].
  - intros w' [= <-]. apply inv_shrunk; [done |]. apply removeLocked_shrunk.
  - intros w' [= <-]. by apply inv_shrunk.
  - intros w' [= <-]. apply inv_shrunk; [done |]. apply clear_ok.
Qed.

Lemma session_reachable_inv w : reachable w → inv w.
Proof.
  induction 1 as [| w a w' _ IH Hp]; [apply start_ok |]. pose proof (session_perform_ok a w IH) as H.
  rewrite Hp in H. by apply H.
Qed.

(** How much of its attempts a request has left. *)
Definition remaining (x : caller) : nat :=
  match x with
  | Calling n => 3 * (maxAttempts - n) + 1
  | Evicting n _ | Creating n _ => 3 * (maxAttempts - n)
  | Waiting _ => 1
  | Returned _ => 0
  end.

(** The caller whose step an action is. *)
Definition stepOf (a : action) : option nat :=
  match a with Attempt p _ | Evict p | Created p _ _ _ _ | Join p | Cancel p => Some p | _ => None end.

Lemma step_remaining a w w' p key x : inv w → stepOf a = Some p → w_callers w !! p = Some (key, x) →
  perform a w = Ret (Some w') → ∃ y, w_callers w' !! p = Some (key, y) ∧ (remaining y < remaining x)%nat.
Proof.
  intros Hinv Ha Hp. pose proof (iv_attempt _ Hinv _ _ _ Hp) as Hn.
  destruct a; try done; cbn in Ha; injection Ha as ->; cbn [perform]; rewrite Hp; destruct x; try done.
  - intros [= <-]. cbn [move w_callers]. rewrite lookup_insert_eq. eexists. split; [done |].
    unfold callAcquire. destruct (Nat.leb_spec maxAttempts attempt) as [H | H]; [cbn; lia |]. destruct (acquire key _) as [r []]; cbn [snd];
      try destruct alive; cbn [remaining]; lia.
  - intros [= <-]. cbn [move w_callers]. rewrite lookup_insert_eq. eexists. split; [done |]. cbn [callEvict snd remaining]. lia.
  - unfold callCreated. destruct (completeCreate _ _ _ _ _ _ _) as [r | | |]; try done. cbn.
    intros [= <-]. cbn [move w_callers]. rewrite lookup_insert_eq. eexists. split; [done |]. cbn [snd].
    destruct result as [? | err]; [| destruct (_ && _)]; cbn [remaining];
      unfold maxAttempts in *; lia.
  - destruct (r_store (w_registry w) !! create) as [c |]; [| done]. destruct (c_done c); [| done]. intros [= <-]. cbn [move w_callers].
    rewrite lookup_insert_eq. eexists. split; [done |]. cbn [snd]. unfold callJoined. destruct (c_err c); cbn; lia.
  - intros [= <-]. cbn [move w_callers]. rewrite lookup_insert_eq. eexists. split; [done |]. cbn. lia.
Qed.

(** ** Theorems *)

(** C35 (invariant): however the requests interleave, no step panics - a
    creation's channel is closed once - at most one request creates a channel's
    session at a time, only while there is none, and every creation in flight
    has its request. *)
Theorem sessions_single_flight w : reachable w → inv w ∧
  (∀ p1 p2 key n1 n2 c1 c2, w_callers w !! p1 = Some (key, Creating n1 c1) → w_callers w !! p2 = Some (key, Creating n2 c2) →
     p1 = p2 ∧ r_sessions (w_registry w) !! key = None) ∧
  ∀ a, ∃ res, perform a w = Ret res.
Proof.
  intros Hw%session_reachable_inv. split; [done |]. split.
  - intros p1 p2 key n1 n2 c1 c2 H1 H2. pose proof (iv_creating _ Hw _ _ _ _ H1) as E1.
    pose proof (iv_creating _ Hw _ _ _ _ H2) as E2. assert (c1 = c2) as -> by congruence.
    split; [by eapply (iv_one _ Hw) | by apply (iv_disjoint _ Hw); eexists].
  - intros a. pose proof (session_perform_ok a w Hw) as H. destruct (perform a w) as [res | | |]; try done. by exists res.
Qed.

(** A request is never stuck.  One that is not done can take a
    step at once or waits for a creation that another request is about to
    complete; the completion gives all that wait the same result; and each of
    its steps uses up some of its attempts, so it ends after at most ten. *)
Theorem requests_end w p key x : reachable w → w_callers w !! p = Some (key, x) →
  (remaining x ≤ 10)%nat ∧
  (∀ a w', stepOf a = Some p → perform a w = Ret (Some w') →
     ∃ y, w_callers w' !! p = Some (key, y) ∧ (remaining y < remaining x)%nat) ∧
  match x with
  | Returned _ => True
  | Calling _ => ∃ w', perform (Attempt p true) w = Ret (Some w')
  | Evicting _ _ => ∃ w', perform (Evict p) w = Ret (Some w')
  | Creating _ _ => ∀ result routeType source now, ∃ w', perform (Created p result routeType source now) w = Ret (Some w')
  | Waiting c =>
      (∃ w', perform (Join p) w = Ret (Some w')) ∨
      ∃ q n, w_callers w !! q = Some (key, Creating n c) ∧ ∀ result routeType source now,
        ∃ w', perform (Created q result routeType source now) w = Ret (Some w') ∧
          ∃ w2, perform (Join p) w' = Ret (Some w2) ∧ w_callers w2 !! p = Some (key,
            Returned (match result with inl s => inl (Some s) | inr e => inr (ErrCreate e) end))
  end.
Proof.
  intros Hw%session_reachable_inv Hp. pose proof (iv_attempt _ Hw _ _ _ Hp) as Hn. split; [| split].
  - destruct x; cbn in *; lia.
  - intros a w' Ha. by apply step_remaining.
  - destruct x as [n | n s | n c | c |]; cbn [perform]; rewrite ?Hp; try done; try by eexists.
    + intros result routeType source now. pose proof (callCreated_ok w p key n c result routeType source now Hw Hp) as H.
      destruct (callCreated _ _ _ _ _ _ _ _) as [res | | |]; try done. by eexists.
    + destruct (iv_waiting _ Hw _ _ _ Hp) as (y & Hy & Hopen). rewrite Hy. destruct (c_done y) eqn:Hd; [by left; eexists |].
      right. destruct (iv_creator _ Hw key c (Hopen eq_refl)) as (q & n & Hq). exists q, n. split; [done |].
      intros result routeType source now. rewrite Hq. pose proof (callCreated_ok w q key n c result routeType source now Hw Hq) as H.
      destruct (callCreated _ _ _ _ _ _ _ _) as [res | | |]; try done. destruct H as (_ & _ & Hst). eexists. split; [done |].
      assert (q ≠ p) as Hqp by (intros ->; congruence). cbn [move w_callers w_registry].
      rewrite lookup_insert_ne, Hp, Hst by done. destruct result; cbn [c_done]; eexists; (split; [done |]); apply lookup_insert_eq.
Qed.

(** From the moment a shutdown has begun no creation starts; once
    those in flight are done and the sessions cleared, the registry stays
    empty. *)
Theorem shutdown_final w a w' : reachable w → r_shuttingDown (w_registry w) = true → perform a w = Ret (Some w') →
  r_shuttingDown (w_registry w') = true ∧ r_creates (w_registry w') ⊆ r_creates (w_registry w) ∧
  (r_creates (w_registry w) = ∅ → (r_sessions (w_registry w) = ∅ ∨ a = Clear) → r_sessions (w_registry w') = ∅).
Proof.
  intros Hw%session_reachable_inv Hs. 
  assert (∀ r', shrunk (w_registry w) r' → r_creates r' ⊆ r_creates (w_registry w) ∧
    (r_sessions (w_registry w) = ∅ → r_sessions r' = ∅)) as Hsh.
  { intros r' [E1 _ _ E4]. rewrite E1. split; [done |]. intros E. apply map_empty. intros k. apply E4. by rewrite E. }
  destruct a; cbn [perform].
  - destruct (w_callers w !! p); [done |]. intros [= <-]. cbn. split_and!; try done. intros _ [? | ?]; done.
  - destruct (w_callers w !! p) as [[key []] |]; try done. intros [= <-]. unfold move, callAcquire.
    destruct (maxAttempts <=? attempt)%nat; cbn; [split_and!; try done; by intros _ [? | ?] |]. unfold acquire. rewrite Hs.
    destruct (r_sessions (w_registry w) !! key); cbn; (split_and!; try done; by intros _ [? | ?]).
  - destruct (w_callers w !! p) as [[key []] |]; try done. intros [= <-]. cbn.
    destruct (Hsh _ (removeIfSame_shrunk key session (w_registry w))) as [H1 H2]. split_and!; [| done | intros _ [? | ?]; [by apply H2 | done]].
    unfold removeIfSame. destruct (r_sessions (w_registry w) !! key); [| done]. case_bool_decide; [| done].
    by rewrite (proj1 (proj2 (removeLocked_shrunk key (w_registry w)))).
  - destruct (w_callers w !! p) as [[key []] |] eqn:Hp; try done. pose proof (iv_creating _ Hw _ _ _ _ Hp) as Hkey.
    unfold callCreated, completeCreate. destruct result; cbn; rewrite (iv_open _ Hw _ _ Hkey); cbn; intros [= <-]; cbn;
      (split_and!; [done | apply delete_subseteq | intros E; by rewrite E in Hkey]).
  - destruct (w_callers w !! p) as [[key []] |]; try done. destruct (r_store _ !! _) as [c |]; [| done].
    destruct (c_done c); [| done]. intros [= <-]. cbn. split_and!; try done. by intros _ [? | ?].
  - destruct (w_callers w !! p) as [[key []] |]; try done. intros [= <-]. cbn. split_and!; try done. by intros _ [? | ?].
  - intros [= <-]. unfold removeSession. cbn [w_registry]. destruct (removeLocked_shrunk key (w_registry w)) as (H1 & H2 & _). destruct (Hsh _ H1) as [H3 H4].
    split_and!; [congruence | done | intros _ [? | ?]; [by apply H4 | done]].
  - intros [= <-]. cbn. split_and!; try done. by intros _ [? | ?].
  - intros [= <-]. cbn [w_registry]. destruct (clear_ok (w_registry w)) as (H1 & H2 & H3). destruct (Hsh _ H1) as [H4 _].
    split_and!; [congruence | done | done].
Qed.


(** ** Witnesses *)

Fixpoint performAll (l : list action) (w : world) : outcome (option world) :=
  match l with
  | [] => Ret (Some w)
  | a :: l => w ← perform a w; match w with Some w => performAll l w | None => Ret None end
  end.

(** The world after the steps [l], if they can be taken. *)
Definition after (l : list action) : world :=
  match performAll l start with Ret (Some w) => w | _ => start end.

Lemma session_performAll_reachable l w w' : reachable w → performAll l w = Ret (Some w') → reachable w'.
Proof.
  revert w. induction l as [| a l IH]; intros w Hw; cbn; [by intros [= <-] |].
  destruct (perform a w) as [[w1 |] | | |] eqn:E; try done. cbn. apply IH. by apply (reachable_step w a).
Qed.

Lemma session_after_reachable l : reachable (after l).
Proof.
  unfold after. destruct (performAll l start) as [[w |] | | |] eqn:E; try apply reachable_start.
  apply (session_performAll_reachable l start); [apply reachable_start | exact E].
Qed.

(** Two viewers of a channel: the first creates the session, the second waits;
    a third finds it. *)
Definition sampleKey : sessionKey := ("27", "GR").
Definition twoViewers : list action := [Call 0 sampleKey; Call 1 sampleKey; Attempt 0 true; Attempt 1 true].
Definition thirdViewer : list action :=
  twoViewers ++ [Created 0 (inl 7%nat) "local" "tuner" 0; Join 1; Call 2 sampleKey; Attempt 2 true].

Example viewers_share : (λ p, snd <$> w_callers (after thirdViewer) !! p) <$> [0; 1; 2]%nat =
  replicate 3 (Some (Returned (inl (Some 7%nat)))).
Proof. vm_compute. reflexivity. Qed.

Lemma sessions_single_flight_witness :
  w_callers (after twoViewers) !! 0%nat = Some (sampleKey, Creating 0 0) ∧ inv (after twoViewers).
Proof.
  split; [vm_compute; reflexivity |]. exact (proj1 (sessions_single_flight _ (session_after_reachable twoViewers))).
Defined.

Lemma requests_end_witness :
  w_callers (after twoViewers) !! 1%nat = Some (sampleKey, Waiting 0) ∧ (remaining (Waiting 0) ≤ 10)%nat.
Proof.
  assert (w_callers (after twoViewers) !! 1%nat = Some (sampleKey, Waiting 0)) as H by (vm_compute; reflexivity).
  split; [exact H |]. exact (proj1 (requests_end _ _ _ _ (session_after_reachable twoViewers) H)).
Defined.

(** The shutdown begins while the first viewer's creation is in flight. *)
Lemma shutdown_final_witness :
  let w := after (twoViewers ++ [BeginShutdown]) in
  ∃ w', perform (Created 0 (inl 7%nat) "local" "tuner" 0) w = Ret (Some w') ∧ r_shuttingDown (w_registry w') = true ∧
    r_creates (w_registry w') ⊆ r_creates (w_registry w).
Proof.
  intros w. destruct (perform (Created 0 (inl 7%nat) "local" "tuner" 0) w) as [[w' |] | | |] eqn:E; [| vm_compute in E; discriminate..].
  exists w'. split; [reflexivity |].
  assert (r_shuttingDown (w_registry w) = true) as Hs by (vm_compute; reflexivity).
  destruct (shutdown_final w _ w' (session_after_reachable _) Hs E) as (H1 & H2 & _). split; [exact H1 | exact H2].
Defined.
