(* ===== verification/EventDescriptors.v ===== *)
(** * The contents of an event ([internal/epg/convert.go], the data of [eit.go])

    [EITSectionFromTS] turns a parsed EIT into the EPG's own sections: every
    event descriptor is parsed, and the extended event descriptors, which cut
    one long text into numbered parts, are put together again per language.

    A decoded text is the list of its code points (as in [Aribstr]), a language
    code the list of its bytes.  A [false] second result is [None]. *)

From S2P Require Import Prelude Crc32 AribTables Aribstr Descriptors Psi Events Schedule.

(** ** The code: the data *)

Record RelatedEvent : Type := MkRelated {
  re_OriginalNetworkID : option Z;
  re_TransportStreamID : option Z;
  re_ServiceID : Z;
  re_EventID : Z
}.

Record EITDescriptor : Type := MkEITDescriptor {
  ed_Type : string;
  ed_EventName : list Z;
  ed_Text : list Z;
  ed_StreamContent : option Z;
  ed_ComponentType : option Z;
  ed_ComponentTag : option Z;
  ed_MainComponent : option bool;
  ed_SamplingRate : option Z;
  ed_Lang : list Z;
  ed_Lang2 : list Z;
  ed_Nibbles : list (list Z);
  ed_Items : list (list (list Z));
  ed_GroupType : option Z;
  ed_Events : list RelatedEvent;
  ed_SeriesID : option Z;
  ed_RepeatLabel : option Z;
  ed_ProgramPattern : option Z;
  ed_ExpireDate : option Z;
  ed_EpisodeNumber : option Z;
  ed_LastEpisodeNumber : option Z;
  ed_SeriesName : list Z
}.

#[global] Instance RelatedEvent_eq_dec : EqDecision RelatedEvent.
Proof. solve_decision. Defined.
#[global] Instance EITDescriptor_eq_dec : EqDecision EITDescriptor.
Proof. solve_decision. Defined.

(** The fields each kind of descriptor sets; the others are zero. *)
Definition emptyDescriptor : EITDescriptor :=
  MkEITDescriptor "" [] [] None None None None None [] [] [] [] None [] None None None None None None [].
Definition shortEvent (lang name text : list Z) : EITDescriptor :=
  MkEITDescriptor "ShortEvent" name text None None None None None lang [] [] [] None [] None None None None None None [].
Definition extendedEvent (lang text : list Z) (items : list (list (list Z))) : EITDescriptor :=
  MkEITDescriptor "ExtendedEvent" [] text None None None None None lang [] [] items None [] None None None None None None [].
Definition content (nibbles : list (list Z)) : EITDescriptor :=
  MkEITDescriptor "Content" [] [] None None None None None [] [] nibbles [] None [] None None None None None None [].
Definition component (streamContent componentType componentTag : Z) (lang text : list Z) : EITDescriptor :=
  MkEITDescriptor "Component" [] text (Some streamContent) (Some componentType) (Some componentTag) None None
    lang [] [] [] None [] None None None None None None [].
Definition audioComponent (streamContent componentType componentTag : Z) (main : bool) (samplingRate : Z)
    (lang lang2 text : list Z) : EITDescriptor :=
  MkEITDescriptor "AudioComponent" [] text (Some streamContent) (Some componentType) (Some componentTag)
    (Some main) (Some samplingRate) lang lang2 [] [] None [] None None None None None None [].
Definition seriesDescriptor (id repeatLabel pattern : Z) (expire : option Z) (episode lastEpisode : Z)
    (name : list Z) : EITDescriptor :=
  MkEITDescriptor "Series" [] [] None None None None None [] [] [] [] None []
    (Some id) (Some repeatLabel) (Some pattern) expire (Some episode) (Some lastEpisode) name.
Definition eventGroup (groupType : Z) (events : list RelatedEvent) : EITDescriptor :=
  MkEITDescriptor "EventGroup" [] [] None None None None None [] [] [] [] (Some groupType) events
    None None None None None None [].

(** An event of the EPG. *)
Record EITEvent : Type := MkEITEvent {
  ee_EventID : Z;
  ee_StartTime : Z;
  ee_Duration : Z;
  ee_Scrambled : bool;
  ee_Descriptors : list EITDescriptor
}.

(** ** The code: the descriptors *)

(** [time.Time.UnixMilli] of a time in seconds from the year 1. *)
Definition UnixMilli (t : Time) : Z := (t - 719162 * 86400) * 1000.
Definition unixMilli (t : Time) : Z := if IsZero t then 0 else UnixMilli t.

Definition parseMJDDate (b : list Z) : outcome (option Time) :=
  if negb (len b =? 2) then Ret None
  else mjd ← get16 b 0; Ret (Some (mjdTime mjd 0 0 0)).

(** An item of an extended event: its description and its text, undecoded. *)
Abbreviation extendedEventItemPart := (list Z * list Z)%type.

Section Decode.
Context {jis : ISO2022JP}.

Definition parseShortEventDescriptor (desc : Descriptor) : outcome (option EITDescriptor) :=
  data ← Data desc;
  if len data <? 5 then Ret None
  else
    lang ← data![0; 3];
    nameLen ← data![3];
    let nameStart := 4 in
    let nameEnd := nameStart + nameLen in
    if len data <=? nameEnd then Ret None
    else
      textLen ← data![nameEnd];
      let textStart := nameEnd + 1 in
      let textEnd := textStart + textLen in
      if len data <? textEnd then Ret None
      else
        raw ← data![nameStart; nameEnd];
        name ← caught (DecodeARIBString raw);
        match name with
        | None => Ret None
        | Some name =>
            raw ← data![textStart; textEnd];
            text ← caught (DecodeARIBString raw);
            Ret (match text with None => None | Some text => Some (shortEvent lang name text) end)
        end.

Record extendedEventDescriptorPart : Type := MkPart {
  ep_descriptorNumber : Z;
  ep_lastDescriptorNumber : Z;
  ep_lang : list Z;
  ep_textRaw : list Z;
  ep_items : list extendedEventItemPart;
  ep_order : Z
}.

Definition setOrder (order : Z) (p : extendedEventDescriptorPart) : extendedEventDescriptorPart :=
  MkPart (ep_descriptorNumber p) (ep_lastDescriptorNumber p) (ep_lang p) (ep_textRaw p) (ep_items p) order.

(** An iteration of the loop over the items; the result is [None] for the
    returns in it, else the items and the offset. *)
Definition extendedItemBody (data : list Z) (itemsEnd : Z) (st : list extendedEventItemPart * Z)
    : outcome (list extendedEventItemPart * Z + option (list extendedEventItemPart * Z)) :=
  let '(items, off) := st in
  if off <? itemsEnd then
    descLen ← data![off];
    let off := off + 1 in
    if itemsEnd <? off + descLen then break None
    else
      itemDescription ← data![off; off + descLen];
      let off := off + descLen in
      if itemsEnd <=? off then break None
      else
        itemLen ← data![off];
        let off := off + 1 in
        if itemsEnd <? off + itemLen then break None
        else
          itemText ← data![off; off + itemLen];
          continue (items ++ [(itemDescription, itemText)], off + itemLen)
  else break (Some (items, off)).

Definition parseExtendedEventDescriptorPart (desc : Descriptor) : outcome (option extendedEventDescriptorPart) :=
  data ← Data desc;
  if len data <? 6 then Ret None
  else
    b0 ← data![0];
    lang ← data![1; 4];
    itemsLen ← data![4];
    let itemsEnd := 5 + itemsLen in
    if len data <? itemsEnd then Ret None
    else
      res ← loop (S (length data)) (extendedItemBody data itemsEnd) ([], 5);
      match res with
      | None => Ret None
      | Some (items, off) =>
          if len data <=? off then Ret None
          else
            textLen ← data![off];
            let off := off + 1 in
            if len data <? off + textLen then Ret None
            else
              text ← data![off; off + textLen];
              Ret (Some (MkPart (Z.shiftr b0 4) (Z.land b0 0x0f) lang text items 0))
      end.

(** The order of [sort.SliceStable]; no two parts of a group have the same
    [order], so that the sorted list is unique. *)
Definition partLe (p q : extendedEventDescriptorPart) : Prop :=
  ep_descriptorNumber p < ep_descriptorNumber q ∨
  (ep_descriptorNumber p = ep_descriptorNumber q ∧ ep_order p ≤ ep_order q).
#[global] Instance partLe_dec p q : Decision (partLe p q).
Proof. unfold partLe. apply _. Defined.

(** [v, err := DecodeARIBString(b); if err != nil { v = "" }] *)
Definition decodeOrEmpty (b : list Z) : outcome (list Z) :=
  text ← caught (DecodeARIBString b); Ret (default [] text).

(** An item without a description continues the last one. *)
Definition appendItem (rawItems : list extendedEventItemPart) (item : extendedEventItemPart)
    : list extendedEventItemPart :=
  if (len (fst item) =? 0) && (0 <? len rawItems) then
    alter (λ last, (fst last, snd last ++ snd item)) (pred (length rawItems)) rawItems
  else rawItems ++ [item].

Definition mergeExtendedEventParts (parts : list extendedEventDescriptorPart) : outcome EITDescriptor :=
  let parts := merge_sort partLe parts in
  let lang := match parts with part :: _ => ep_lang part | [] => [] end in
  let textRaw := concat (map ep_textRaw parts) in
  let rawItems := fold_left appendItem (concat (map ep_items parts)) [] in
  text ← decodeOrEmpty textRaw;
  items ← foldM (λ items item,
    description ← decodeOrEmpty (fst item);
    itemText ← decodeOrEmpty (snd item);
    Ret (items ++ [[description; itemText]])) rawItems [];
  let items := if negb (len text =? 0) && (len items =? 0) then [[[]; text]] else items in
  Ret (extendedEvent lang text items).

Definition parseExtendedEventDescriptor (desc : Descriptor) : outcome (option EITDescriptor) :=
  part ← parseExtendedEventDescriptorPart desc;
  match part with
  | None => Ret None
  | Some part => Some <$> mergeExtendedEventParts [part]
  end.

Definition contentBody (data : list Z) (st : list (list Z) * Z) : outcome (list (list Z) * Z + list (list Z)) :=
  let '(nibbles, i) := st in
  if i + 1 <? len data then
    a ← data![i];
    b ← data![i + 1];
    continue (nibbles ++ [[Z.shiftr a 4; Z.land a 0x0f; Z.shiftr b 4; Z.land b 0x0f]], i + 2)
  else break nibbles.

Definition parseContentDescriptor (desc : Descriptor) : outcome (option EITDescriptor) :=
  data ← Data desc;
  if negb (Z.rem (len data) 2 =? 0) then Ret None
  else
    nibbles ← loop (S (length data)) (contentBody data) ([], 0);
    Ret (Some (content nibbles)).

Definition parseComponentDescriptor (desc : Descriptor) : outcome (option EITDescriptor) :=
  data ← Data desc;
  if len data <? 6 then Ret None
  else
    raw ← data![6; len data];
    text ← caught (DecodeARIBString raw);
    match text with
    | None => Ret None
    | Some text =>
        b0 ← data![0];
        b1 ← data![1];
        b2 ← data![2];
        lang ← data![3; 6];
        Ret (Some (component (Z.land b0 0x0f) b1 b2 lang text))
    end.

Definition parseAudioComponentDescriptor (desc : Descriptor) : outcome (option EITDescriptor) :=
  data ← Data desc;
  if len data <? 9 then Ret None
  else
    b5 ← data![5];
    let multilingual := Prelude.bit b5 0x80 in
    let main := Prelude.bit b5 0x40 in
    b0 ← data![0];
    b1 ← data![1];
    b2 ← data![2];
    lang ← data![6; 9];
    let item := audioComponent (Z.land b0 0x0f) b1 b2 main (Z.land (Z.shiftr b5 1) 0x07) lang in
    let rest lang2 off :=
      raw ← data![off; len data];
      text ← caught (DecodeARIBString raw);
      Ret (match text with None => None | Some text => Some (item lang2 text) end) in
    if multilingual then
      if len data <? 12 then Ret None else lang2 ← data![9; 12]; rest lang2 12
    else rest [] 9.

Definition parseSeriesDescriptor (desc : Descriptor) : outcome (option EITDescriptor) :=
  data ← Data desc;
  if len data <? 8 then Ret None
  else
    b2 ← data![2];
    let expireValid := Prelude.bit b2 0x01 in
    b5 ← data![5];
    b6 ← data![6];
    b7 ← data![7];
    let episode := Z.lor (u16 (Z.shiftl b5 4)) (Z.shiftr b6 4) in
    let lastEpisode := be16 (Z.land b6 0x0f) b7 in
    raw ← data![8; len data];
    seriesName ← caught (DecodeARIBString raw);
    match seriesName with
    | None => Ret None
    | Some seriesName =>
        id ← get16 data 0;
        let item expire := seriesDescriptor id (Z.shiftr b2 4) (Z.land (Z.shiftr b2 1) 0x07) expire episode
                             lastEpisode seriesName in
        if expireValid then
          raw ← data![3; 5];
          t ← parseMJDDate raw;
          Ret (match t with None => None | Some t => Some (item (Some (UnixMilli t))) end)
        else Ret (Some (item None))
    end.

(** The events of the group: [Some] of them with the next offset, or the return
    in the loop. *)
Definition groupEventBody (data : list Z) (eventCount : Z) (st : Z * list RelatedEvent * Z)
    : outcome (Z * list RelatedEvent * Z + option (list RelatedEvent * Z)) :=
  let '(i, events, off) := st in
  if i <? eventCount then
    if len data <? off + 4 then break None
    else
      sid ← get16 data off;
      eid ← get16 data (off + 2);
      continue (i + 1, events ++ [MkRelated None None sid eid], off + 4)
  else break (Some (events, off)).

(** The events of other networks that follow. *)
Definition otherNetworkBody (data : list Z) (st : list RelatedEvent * Z)
    : outcome (list RelatedEvent * Z + list RelatedEvent * Z) :=
  let '(events, off) := st in
  if off + 8 <=? len data then
    onid ← get16 data off;
    tsid ← get16 data (off + 2);
    sid ← get16 data (off + 4);
    eid ← get16 data (off + 6);
    continue (events ++ [MkRelated (Some onid) (Some tsid) sid eid], off + 8)
  else break (events, off).

Definition parseEventGroupDescriptor (desc : Descriptor) : outcome (option EITDescriptor) :=
  data ← Data desc;
  if len data <? 1 then Ret None
  else
    b0 ← data![0];
    let groupType := Z.shiftr b0 4 in
    let eventCount := Z.land b0 0x0f in
    res ← loop 17 (groupEventBody data eventCount) (0, [], 1);
    match res with
    | None => Ret None
    | Some (events, off) =>
        if (groupType =? 4) || (groupType =? 5) then
          '(events, off) ← loop (S (length data)) (otherNetworkBody data) (events, off);
          Ret (if negb (off =? len data) then None else Some (eventGroup groupType events))
        else Ret (Some (eventGroup groupType events))
    end.

Definition descriptorFromTS (desc : Descriptor) : outcome (option EITDescriptor) :=
  tag ← Tag desc;
  if tag =? DescriptorTagShortEvent then parseShortEventDescriptor desc
  else if tag =? DescriptorTagExtendedEvent then parseExtendedEventDescriptor desc
  else if tag =? DescriptorTagComponent then parseComponentDescriptor desc
  else if tag =? DescriptorTagContent then parseContentDescriptor desc
  else if tag =? DescriptorTagAudioComponent then parseAudioComponentDescriptor desc
  else if tag =? DescriptorTagSeries then parseSeriesDescriptor desc
  else if tag =? DescriptorTagEventGroup then parseEventGroupDescriptor desc
  else Ret None.

Record extendedEventGroup : Type := MkGroup {
  eg_index : Z;
  eg_parts : list extendedEventDescriptorPart
}.

(** An iteration of the loop over the descriptors. *)
Definition descriptorStep (st : list EITDescriptor * gmap (list Z) extendedEventGroup) (desc : Descriptor)
    : outcome (list EITDescriptor * gmap (list Z) extendedEventGroup) :=
  let '(out, extended) := st in
  tag ← Tag desc;
  if tag =? DescriptorTagExtendedEvent then
    part ← parseExtendedEventDescriptorPart desc;
    Ret match part with
        | None => (out, extended)
        | Some part =>
            let '(out, group) := match extended !! ep_lang part with
                                 | Some group => (out, group)
                                 | None => let out := out ++ [emptyDescriptor] in (out, MkGroup (len out - 1) [])
                                 end in
            let part := setOrder (len (eg_parts group)) part in
            (out, <[ep_lang part := MkGroup (eg_index group) (eg_parts group ++ [part])]> extended)
        end
  else
    item ← descriptorFromTS desc;
    Ret (match item with Some item => out ++ [item] | None => out end, extended).

(** [out[index] = v] *)
Definition store {A} (out : list A) (index : Z) (v : A) : outcome (list A) :=
  _ ← out![index]; Ret (<[Z.to_nat index := v]> out).

Definition descriptorsFromTS {O : RangeOrderOf (list Z) extendedEventGroup} (descriptors : list Descriptor)
    : outcome (list EITDescriptor) :=
  '(out, extended) ← foldM descriptorStep descriptors ([], ∅);
  foldM (λ out e,
    merged ← mergeExtendedEventParts (eg_parts (snd e));
    store out (eg_index (snd e)) merged) (rangeOf extended) out.

Definition EITSectionFromTS {O : RangeOrderOf (list Z) extendedEventGroup} (eit : option EIT)
    : outcome (option (EITSection * list EITEvent)) :=
  match eit with
  | None => Ret None
  | Some eit =>
      events ← foldM (λ events (event : Events.EITEvent),
        descriptors ← descriptorsFromTS (ev_Descriptors event);
        Ret (events ++ [MkEITEvent (ev_EventID event) (unixMilli (ev_StartTime event))
                          (Z.quot (ev_Duration event) 1000000) (ev_FreeCAMode event) descriptors]))
        (eit_Events eit) [];
      Ret (Some (MkEITSection (eit_OriginalNetworkID eit) (eit_TransportStreamID eit) (eit_ServiceID eit)
                   (eit_TableID eit) (eit_LastTableID eit) (eit_SectionNumber eit) (eit_LastSectionNumber eit)
                   (eit_SegmentLastSectionNumber eit) (eit_VersionNumber eit), events))
  end.

End Decode.

(** ** Every descriptor is answered *)

Definition lang_ok (lang : list Z) : Prop := bytes_ok lang ∧ len lang = 3.
Definition nibble_ok (n : Z) : Prop := 0 ≤ n ≤ 15.

Inductive related_ok : RelatedEvent → Prop :=
| related_here sid eid : word16 sid → word16 eid → related_ok (MkRelated None None sid eid)
| related_other onid tsid sid eid : word16 onid → word16 tsid → word16 sid → word16 eid →
    related_ok (MkRelated (Some onid) (Some tsid) sid eid).

(** What the parsers make: one of seven kinds, its fields in range. *)
Inductive descriptor_ok : EITDescriptor → Prop :=
| short_ok lang name text : lang_ok lang → text_ok name → text_ok text → descriptor_ok (shortEvent lang name text)
| extended_ok lang text items : lang_ok lang → text_ok text →
    Forall (λ item, ∃ d t, item = [d; t] ∧ text_ok d ∧ text_ok t) items → descriptor_ok (extendedEvent lang text items)
| content_ok nibbles :
    Forall (λ n, ∃ a b c d, n = [a; b; c; d] ∧ Forall nibble_ok [a; b; c; d]) nibbles → descriptor_ok (content nibbles)
| component_ok sc ct tag lang text : nibble_ok sc → byte_ok ct → byte_ok tag → lang_ok lang → text_ok text →
    descriptor_ok (component sc ct tag lang text)
| audio_ok sc ct tag main rate lang lang2 text : nibble_ok sc → byte_ok ct → byte_ok tag → 0 ≤ rate ≤ 7 → lang_ok lang →
    lang2 = [] ∨ lang_ok lang2 → text_ok text → descriptor_ok (audioComponent sc ct tag main rate lang lang2 text)
| series_ok id label pattern expire episode lastEpisode name : word16 id → nibble_ok label → 0 ≤ pattern ≤ 7 →
    0 ≤ episode < 4096 → 0 ≤ lastEpisode < 4096 → text_ok name →
    descriptor_ok (seriesDescriptor id label pattern expire episode lastEpisode name)
| group_ok ty events : nibble_ok ty → Forall related_ok events → descriptor_ok (eventGroup ty events).

Lemma high_nibble b : byte_ok b → nibble_ok (Z.shiftr b 4).
Proof.
  unfold byte_ok, nibble_ok. rewrite Z.shiftr_div_pow2 by lia. change (2 ^ 4) with 16. intros Hb.
  split; [apply Z.div_pos; lia |]. assert (b / 16 < 16); [apply Z.div_lt_upper_bound; lia | lia].
Qed.
Lemma low_nibble b : nibble_ok (Z.land b 0x0f).
Proof. apply land_mask. lia. Qed.
#[local] Hint Resolve high_nibble low_nibble : go.

(** A descriptor as the splitter gives it. *)
Definition descriptor_bytes (d : Descriptor) : Prop := desc_ok d ∧ bytes_ok d.

Lemma Data_bytes (E : error → Prop) d P : descriptor_bytes d →
  (∀ data, bytes_ok data → len data ≤ 255 → P data) → ends E (Data d) P.
Proof.
  intros [Hok Hb] HP. pose proof (desc_ok_complete d Hok) as Hc. apply Data_safe; [done | done |]. intros Hs.
  apply HP; [done |]. pose proof (byteAt_ok d 1 Hb) as H1. destruct Hc. rewrite len_sub by (unfold byte_ok in H1; lia).
  unfold byte_ok in H1. lia.
Qed.

Lemma Tag_bytes (E : error → Prop) d P : descriptor_bytes d → P (byteAt d 0) → ends E (Tag d) P.
Proof. intros [(t & p & ->) Hb] HP. done. Qed.

Section Total.
Context {jis : ISO2022JP}.
Context (jis_text : ∀ l s, Transform l = Some s → text_ok s).

Lemma decoded b : bytes_ok b → ∃ text, DecodeARIBString b = Ret text ∧ text_ok text.
Proof.
  intros Hb. pose proof (Decode_ok b jis_text Hb) as H. destruct (DecodeARIBString b) as [t | | |]; try done. by exists t.
Qed.

Lemma safe_decode (E : error → Prop) b P : bytes_ok b → (∀ text, text_ok text → P (Some text)) →
  ends E (caught (DecodeARIBString b)) P.
Proof. intros Hb HP. destruct (decoded b Hb) as (t & -> & Ht). by apply HP. Qed.

Lemma decodeOrEmpty_safe (E : error → Prop) b P : bytes_ok b → (∀ text, text_ok text → P text) →
  ends E (decodeOrEmpty b) P.
Proof. intros Hb HP. apply safe_bind, safe_decode; [done |]. intros t Ht. by apply HP. Qed.

(** What a parser of one descriptor does. *)
Definition parses (ty : string) (m : outcome (option EITDescriptor)) : Prop :=
  returns m (λ r, ∀ d, r = Some d → descriptor_ok d ∧ ed_Type d = ty).

Lemma sub_lang data a b : bytes_ok data → 0 ≤ a → b = a + 3 → b ≤ len data → lang_ok (sub data a b).
Proof. intros Hd Ha -> Hb. split; [by apply bytes_ok_sub | rewrite len_sub; lia]. Qed.

Lemma parseShortEventDescriptor_ok d : descriptor_bytes d → parses "ShortEvent" (parseShortEventDescriptor d).
Proof.
  intros Hd. unfold parses, parseShortEventDescriptor. apply safe_bind, Data_bytes; [done |]. intros data Hb Hl.
  destruct (Z.ltb_spec (len data) 5); [done |].
  apply safe_bind, safe_slice; [lia | lia |]. intros _. go; try done.
  apply safe_decode; [by apply bytes_ok_sub |]. intros name Hname. cbn beta iota.
  go. apply safe_decode; [by apply bytes_ok_sub |]. intros text Htext. go.
  intros ? [= <-]. split; [| done]. constructor; [apply sub_lang; done || lia | done | done].
Qed.

Lemma parseComponentDescriptor_ok d : descriptor_bytes d → parses "Component" (parseComponentDescriptor d).
Proof.
  intros Hd. unfold parses, parseComponentDescriptor. apply safe_bind, Data_bytes; [done |]. intros data Hb Hl.
  destruct (Z.ltb_spec (len data) 6); [done |]. go. apply safe_decode; [by apply bytes_ok_sub |].
  intros text Htext. cbn beta iota. go. intros ? [= <-]. split; [| done]. constructor; eauto with go. apply sub_lang; done || lia.
Qed.

Lemma parseAudioComponentDescriptor_ok d : descriptor_bytes d → parses "AudioComponent" (parseAudioComponentDescriptor d).
Proof.
  intros Hd. unfold parses, parseAudioComponentDescriptor. apply safe_bind, Data_bytes; [done |]. intros data Hb Hl.
  destruct (Z.ltb_spec (len data) 9); [done |]. go; [done | |].
  all: apply safe_decode; [by apply bytes_ok_sub |]; intros text Htext; go; intros ? [= <-]; (split; [| done]).
  all: constructor; eauto with go; try (apply land_mask; lia); try (apply sub_lang; done || lia).
  right. apply sub_lang; done || lia.
Qed.

Lemma episode_eq b5 b6 : byte_ok b5 → byte_ok b6 → Z.lor (u16 (Z.shiftl b5 4)) (Z.shiftr b6 4) = b5 * 16 + b6 / 16.
Proof.
  unfold byte_ok. intros H5 H6. assert (0 ≤ b6 / 16 < 16) as Hq by (split; [apply Z.div_pos | apply Z.div_lt_upper_bound]; lia).
  assert (Z.shiftl b5 4 = b5 * 16) as He by (rewrite Z.shiftl_mul_pow2; lia).
  assert (u16 (Z.shiftl b5 4) = Z.shiftl b5 4) as -> by (rewrite He; apply Z.mod_small; lia).
  rewrite Z.shiftr_div_pow2, lor_shift by (change (2 ^ 4) with 16; lia). by change (2 ^ 4) with 16.
Qed.

Lemma series_item_ok data expire name : bytes_ok data → 8 ≤ len data → text_ok name →
  descriptor_ok (seriesDescriptor (be16 (byteAt data 0) (byteAt data (0 + 1))) (Z.shiftr (byteAt data 2) 4)
    (Z.land (Z.shiftr (byteAt data 2) 1) 0x07) expire
    (Z.lor (u16 (Z.shiftl (byteAt data 5) 4)) (Z.shiftr (byteAt data 6) 4))
    (be16 (Z.land (byteAt data 6) 0x0f) (byteAt data 7)) name).
Proof.
  intros Hb Hl Hn. pose proof (byteAt_ok data 5 Hb) as H5. pose proof (byteAt_ok data 6 Hb) as H6.
  rewrite episode_eq by done. unfold byte_ok in *.
  assert (0 ≤ byteAt data 6 / 16 < 16) as Hq by (split; [apply Z.div_pos | apply Z.div_lt_upper_bound]; lia).
  constructor; try done; [| by apply high_nibble, byteAt_ok | apply land_mask; lia | lia |].
  - unfold word16. by apply be16_ok; apply byteAt_ok.
  - pose proof (be16m_ok (byteAt data 6) (byteAt data 7) 0x0f ltac:(lia) (byteAt_ok _ _ Hb)). lia.
Qed.

Lemma parseSeriesDescriptor_ok d : descriptor_bytes d → parses "Series" (parseSeriesDescriptor d).
Proof.
  intros Hd. unfold parses, parseSeriesDescriptor. apply safe_bind, Data_bytes; [done |]. intros data Hb Hl.
  destruct (Z.ltb_spec (len data) 8) as [? | H8]; [done |]. go. apply safe_decode; [by apply bytes_ok_sub |].
  intros name Hname. cbn beta iota. go; [| by intros ? [= <-]; split; [apply series_item_ok |]].
  unfold parseMJDDate. destruct (negb _); [done |]. go. intros ? [= <-]. by split; [apply series_item_ok |].
Qed.

Lemma parseContentDescriptor_ok d : descriptor_bytes d → parses "Content" (parseContentDescriptor d).
Proof.
  intros Hd. unfold parses, parseContentDescriptor. apply safe_bind, Data_bytes; [done |]. intros data Hb Hl.
  destruct (negb _); [done |]. apply safe_bind.
  set (ok := Forall (λ n : list Z, ∃ a b c d, n = [a; b; c; d] ∧ Forall nibble_ok [a; b; c; d])).
  apply (safe_loop (λ '(nibbles, i), 0 ≤ i ∧ ok nibbles) (λ '(_, i), Z.to_nat (len data - i)));
    [| by split; [lia | constructor] | unfold len; lia].
  intros [nibbles i] [Hi Hok]. unfold contentBody. destruct (Z.ltb_spec (i + 1) (len data)).
  - go. split; [split; [lia |] | lia]. apply Forall_snoc; [done |]. do 4 eexists. split; [done |].
    repeat (apply Forall_cons; split); try apply Forall_nil_2; first [by apply high_nibble | apply low_nibble].
  - go. intros ? [= <-]. split; [by constructor | done].
Qed.

Lemma groupEvents_ok data eventCount : bytes_ok data → 1 ≤ len data → eventCount ≤ 15 →
  returns (loop 17 (groupEventBody data eventCount) (0, [], 1))
    (λ res, ∀ events off, res = Some (events, off) → 1 ≤ off ≤ len data ∧ Forall related_ok events).
Proof.
  intros Hb Hl Hc.
  apply (safe_loop (λ '(i, events, off), 0 ≤ i ∧ 1 ≤ off ≤ len data ∧ Forall related_ok events)
    (λ '(i, _, _), Z.to_nat (eventCount - i))); [| split_and!; [lia | lia | lia | constructor] | lia].
  intros [[i events] off] (Hi & Ho & Hev). unfold groupEventBody. destruct (Z.ltb_spec i eventCount).
  - destruct (Z.ltb_spec (len data) (off + 4)); [done |]. go. split; [| lia]. split_and!; [lia.. |].
    apply Forall_snoc; [done |]. by constructor.
  - go. intros ? ? [= <- <-]. by split.
Qed.

Lemma otherNetwork_ok data events off : bytes_ok data → 0 ≤ off ≤ len data → Forall related_ok events →
  returns (loop (S (length data)) (otherNetworkBody data) (events, off)) (λ '(events, _), Forall related_ok events).
Proof.
  intros Hb Ho Hev.
  apply (safe_loop (λ '(events, off), 0 ≤ off ∧ Forall related_ok events) (λ '(_, off), Z.to_nat (len data - off)));
    [| split; [lia | done] | unfold len; lia].
  clear -Hb. intros [events off] [Ho Hev]. unfold otherNetworkBody. destruct (Z.leb_spec (off + 8) (len data)); [| by apply safe_break].
  go. split; [split; [lia |] | lia]. apply Forall_snoc; [done |]. by constructor.
Qed.

Lemma parseEventGroupDescriptor_ok d : descriptor_bytes d → parses "EventGroup" (parseEventGroupDescriptor d).
Proof.
  intros Hd. unfold parses, parseEventGroupDescriptor. apply safe_bind, Data_bytes; [done |]. intros data Hb Hl.
  destruct (Z.ltb_spec (len data) 1); [done |]. go.
  pose proof (land_mask (byteAt data 0) 0x0f ltac:(lia)) as Hc.
  eapply safe_mono; [apply groupEvents_ok; [done | lia | lia] |]. intros [[events off] |] Hr; [| done].
  destruct (Hr _ _ eq_refl) as [Ho Hev]. destruct (_ || _).
  - apply safe_bind. eapply safe_mono; [apply (otherNetwork_ok data events off); [done | lia | done] |].
    intros [evs off'] Hevs. apply safe_ret. destruct (negb _); [done |]. intros ? [= <-].
    split; [| done]. constructor; [by apply high_nibble, byteAt_ok | done].
  - apply safe_ret. intros ? [= <-]. split; [| done]. constructor; [by apply high_nibble, byteAt_ok | done].
Qed.

(** A part of an extended event as parsed, and when it stands in a group. *)
Definition part_ok (p : extendedEventDescriptorPart) : Prop :=
  nibble_ok (ep_descriptorNumber p) ∧ lang_ok (ep_lang p) ∧ bytes_ok (ep_textRaw p) ∧
  Forall (λ item, bytes_ok (fst item) ∧ bytes_ok (snd item)) (ep_items p).

Lemma extendedItems_ok data itemsEnd : bytes_ok data → 5 ≤ itemsEnd ≤ len data →
  returns (loop (S (length data)) (extendedItemBody data itemsEnd) ([], 5))
    (λ res, ∀ items off, res = Some (items, off) → off = itemsEnd ∧
      Forall (λ item, bytes_ok (fst item) ∧ bytes_ok (snd item)) items).
Proof.
  intros Hb He. set (ok := Forall (λ item : list Z * list Z, bytes_ok (fst item) ∧ bytes_ok (snd item))).
  apply (safe_loop (λ '(items, off), 5 ≤ off ≤ itemsEnd ∧ ok items) (λ '(_, off), Z.to_nat (itemsEnd - off)));
    [| split; [lia | constructor] | unfold len in *; lia].
  intros [items off] [Ho Hok]. unfold extendedItemBody. destruct (Z.ltb_spec off itemsEnd).
  - go; try done. split; [split; [unfold byte_ok in *; lia |] | unfold byte_ok in *; lia].
    apply Forall_snoc; [done |]. cbn. split; by apply bytes_ok_sub.
  - go. intros ? ? [= <- <-]. split; [lia | done].
Qed.

Lemma parsePart_ok d : descriptor_bytes d →
  returns (parseExtendedEventDescriptorPart d) (λ r, ∀ p, r = Some p → part_ok p).
Proof.
  intros Hd. unfold parseExtendedEventDescriptorPart. apply safe_bind, Data_bytes; [done |]. intros data Hb Hl.
  destruct (Z.ltb_spec (len data) 6); [done |]. go; [done |].
  eapply safe_mono; [apply extendedItems_ok; [done | unfold byte_ok in *; lia] |].
  intros [[items off] |] Hr; [| done]. destruct (Hr _ _ eq_refl) as [-> Hitems].
  destruct (Z.leb_spec (len data) (5 + byteAt data 4)); [done |]. go; [done |].
  intros ? [= <-]. split_and!; cbn; [by apply high_nibble | apply sub_lang; done || lia | by apply bytes_ok_sub | done].
Qed.

Lemma appendItem_ok items item : Forall (λ item, bytes_ok (fst item) ∧ bytes_ok (snd item)) items →
  bytes_ok (fst item) ∧ bytes_ok (snd item) →
  Forall (λ item, bytes_ok (fst item) ∧ bytes_ok (snd item)) (appendItem items item).
Proof.
  intros Hs [H1 H2]. unfold appendItem. destruct (_ && _); [| by apply Forall_snoc].
  apply Forall_alter; [done |]. intros [d t] _ [Hd Ht]. cbn in *. split; [done | by apply bytes_ok_app].
Qed.

Lemma mergeParts_ok parts : parts ≠ [] → Forall part_ok parts →
  returns (mergeExtendedEventParts parts) descriptor_ok.
Proof.
  intros Hne Hok. unfold mergeExtendedEventParts. set (sorted := merge_sort partLe parts).
  assert (Forall part_ok sorted) as Hs by (unfold sorted; by rewrite merge_sort_Permutation).
  assert (sorted ≠ []) as Hne'.
  { intros H. apply Hne, Permutation_nil_r. rewrite <- H. symmetry. apply merge_sort_Permutation. }
  clearbody sorted. clear Hne Hok.
  assert (bytes_ok (concat (map ep_textRaw sorted))) as Ht.
  { clear Hne'. induction Hs as [| p ps (_ & _ & Hp & _) Hps IH]; [apply Forall_nil_2 | by apply bytes_ok_app]. }
  set (item_ok := λ item : extendedEventItemPart, bytes_ok (fst item) ∧ bytes_ok (snd item)).
  assert (∀ acc, Forall item_ok acc → Forall item_ok (fold_left appendItem (concat (map ep_items sorted)) acc)) as Hi.
  { assert (Forall item_ok (concat (map ep_items sorted))) as Hall.
    { clear Hne' Ht. induction Hs as [| p ps (_ & _ & _ & Hp) Hps IH]; [apply Forall_nil_2 | apply Forall_app; split; [exact Hp | exact IH]]. }
    induction Hall as [| item items Hit Hits IH]; [done |]. intros acc Hacc. apply IH. by apply appendItem_ok. }
  specialize (Hi [] (Forall_nil_2 _)). revert Hi. generalize (fold_left appendItem (concat (map ep_items sorted)) []).
  intros raw Hraw. apply safe_bind, decodeOrEmpty_safe; [done |]. intros text Htext.
  set (texts := Forall (λ item : list (list Z), ∃ d t, item = [d; t] ∧ text_ok d ∧ text_ok t)).
  apply safe_bind. eapply safe_mono; [apply (safe_foldM texts); [constructor |] |].
  - intros items item Hitems Hin. rewrite Forall_forall in Hraw. destruct (Hraw item Hin) as [H1 H2].
    apply safe_bind, decodeOrEmpty_safe; [done |]. intros d Hd.
    apply safe_bind, decodeOrEmpty_safe; [done |]. intros t Htx. apply safe_ret, Forall_snoc; [done |]. eauto.
  - intros items Hitems. apply safe_ret. destruct sorted as [| p ps]; [done |].
    apply Forall_cons in Hs as [(_ & Hlang & _) _].
    constructor; [done | done |]. destruct (_ && _); [| done]. apply Forall_singleton. exists [], text.
    split_and!; [done | constructor | done].
Qed.

Lemma descriptorFromTS_ok d : descriptor_bytes d →
  returns (descriptorFromTS d) (λ r, ∀ item, r = Some item → descriptor_ok item ∧
    (byteAt d 0 ≠ DescriptorTagExtendedEvent → ed_Type item ≠ "ExtendedEvent"%string)).
Proof.
  intros Hd. unfold descriptorFromTS. apply safe_bind, Tag_bytes; [done |].
  assert (∀ ty m, parses ty m → ty ≠ "ExtendedEvent"%string → returns m (λ r, ∀ item, r = Some item → descriptor_ok item ∧
    (byteAt d 0 ≠ DescriptorTagExtendedEvent → ed_Type item ≠ "ExtendedEvent"%string))) as Hother.
  { intros ty m Hm Hty. eapply safe_mono; [exact Hm |]. intros r Hr item Hitem. destruct (Hr item Hitem) as [H1 ->]. done. }
  destruct (_ =? _); [eapply Hother; [by apply parseShortEventDescriptor_ok | done] |].
  destruct (Z.eqb_spec (byteAt d 0) DescriptorTagExtendedEvent).
  { unfold parseExtendedEventDescriptor. apply safe_bind. eapply safe_mono; [by apply parsePart_ok |].
    intros [p |] Hp; [| done]. apply safe_fmap. eapply safe_mono; [apply mergeParts_ok; [done |] |].
    - apply Forall_singleton. by apply Hp.
    - by intros x Hx ? [= <-]. }
  destruct (_ =? _); [eapply Hother; [by apply parseComponentDescriptor_ok | done] |].
  destruct (_ =? _); [eapply Hother; [by apply parseContentDescriptor_ok | done] |].
  destruct (_ =? _); [eapply Hother; [by apply parseAudioComponentDescriptor_ok | done] |].
  destruct (_ =? _); [eapply Hother; [by apply parseSeriesDescriptor_ok | done] |].
  destruct (_ =? _); [eapply Hother; [by apply parseEventGroupDescriptor_ok | done] | done].
Qed.

(** ** One slot per language *)

(** What a single descriptor means. *)
Definition itemOf (d : Descriptor) : option EITDescriptor :=
  match descriptorFromTS d with Ret item => item | _ => None end.
Definition partOf (d : Descriptor) : option extendedEventDescriptorPart :=
  if byteAt d 0 =? DescriptorTagExtendedEvent then
    match parseExtendedEventDescriptorPart d with Ret part => part | _ => None end
  else None.

(** The parts of a language among the descriptors, numbered as they came. *)
Definition partsOf (lang : list Z) (ds : list Descriptor) : list extendedEventDescriptorPart :=
  imap (λ i p, setOrder (Z.of_nat i) p) (filter (λ p, ep_lang p = lang) (omap partOf ds)).

(** The places of the result: the first part of a language makes a place for all
    its parts, any other descriptor its own. *)
Abbreviation place := (list Z + EITDescriptor)%type.
Definition addPlace (places : list place) (d : Descriptor) : list place :=
  if byteAt d 0 =? DescriptorTagExtendedEvent then
    match partOf d with
    | None => places
    | Some p => if bool_decide (inl (ep_lang p) ∈ places) then places else places ++ [inl (ep_lang p)]
    end
  else match itemOf d with Some item => places ++ [inr item] | None => places end.
Definition placesOf (ds : list Descriptor) : list place := fold_left addPlace ds [].

Definition mergedOf (parts : list extendedEventDescriptorPart) : EITDescriptor :=
  match mergeExtendedEventParts parts with Ret item => item | _ => emptyDescriptor end.
Definition eventDescriptors (ds : list Descriptor) : list EITDescriptor :=
  map (λ pl, match pl with inl lang => mergedOf (partsOf lang ds) | inr item => item end) (placesOf ds).

Lemma itemOf_ret d : descriptor_bytes d → descriptorFromTS d = Ret (itemOf d) ∧
  ∀ item, itemOf d = Some item → descriptor_ok item ∧
    (byteAt d 0 ≠ DescriptorTagExtendedEvent → ed_Type item ≠ "ExtendedEvent"%string).
Proof.
  intros Hd. pose proof (descriptorFromTS_ok d Hd) as H. unfold itemOf.
  destruct (descriptorFromTS d) as [r | | |]; [split; [done | exact H] | done..].
Qed.

Lemma partOf_ret d : descriptor_bytes d → byteAt d 0 = DescriptorTagExtendedEvent →
  parseExtendedEventDescriptorPart d = Ret (partOf d).
Proof.
  intros Hd Ht. pose proof (parsePart_ok d Hd) as H. unfold partOf. rewrite Ht, Z.eqb_refl.
  by destruct (parseExtendedEventDescriptorPart d) as [r | | |].
Qed.

Lemma partOf_part d p : descriptor_bytes d → partOf d = Some p → part_ok p.
Proof.
  intros Hd. pose proof (parsePart_ok d Hd) as H. unfold partOf. destruct (_ =? _); [| done].
  destruct (parseExtendedEventDescriptorPart d) as [r | | |]; try done. apply H.
Qed.

Lemma mergedOf_ret parts : parts ≠ [] → Forall part_ok parts →
  mergeExtendedEventParts parts = Ret (mergedOf parts) ∧ descriptor_ok (mergedOf parts).
Proof.
  intros Hne Hok. pose proof (mergeParts_ok parts Hne Hok) as H. unfold mergedOf.
  destruct (mergeExtendedEventParts parts) as [r | | |]; [split; [done | exact H] | done..].
Qed.

Lemma partsOf_snoc lang ds d : partsOf lang (ds ++ [d]) = partsOf lang ds ++
  match partOf d with
  | Some p => if decide (ep_lang p = lang) then [setOrder (len (partsOf lang ds)) p] else []
  | None => []
  end.
Proof.
  unfold partsOf. rewrite omap_app. cbn [omap list_omap]. destruct (partOf d) as [p |]; [| by rewrite !app_nil_r].
  rewrite filter_app, imap_app. f_equal. rewrite filter_cons, filter_nil. destruct (decide (ep_lang p = lang)); [| done].
  cbn. unfold len. by rewrite length_imap, Nat.add_0_r.
Qed.

Lemma partsOf_ok lang ds : Forall descriptor_bytes ds → Forall part_ok (partsOf lang ds).
Proof.
  intros Hds. induction ds as [| d ds IH] using rev_ind; [apply Forall_nil_2 |].
  apply Forall_app in Hds as [Hds Hd]. apply Forall_inv in Hd. rewrite partsOf_snoc. apply Forall_app. split; [by apply IH |].
  destruct (partOf d) as [p |] eqn:Hp; [| apply Forall_nil_2]. destruct (decide _); [| apply Forall_nil_2].
  apply Forall_singleton. exact (partOf_part d p Hd Hp).
Qed.

(** The state of the loop over the descriptors. *)
Record grouped (ds : list Descriptor) (out : list EITDescriptor) (extended : gmap (list Z) extendedEventGroup) : Prop := {
  gr_out : out = map (λ pl, match pl with inl _ => emptyDescriptor | inr item => item end) (placesOf ds);
  gr_group : ∀ lang g, extended !! lang = Some g ↔
    ∃ i, placesOf ds !! i = Some (inl lang) ∧ g = MkGroup (Z.of_nat i) (partsOf lang ds);
  gr_one : ∀ i j lang, placesOf ds !! i = Some (inl lang) → placesOf ds !! j = Some (inl lang) → i = j;
  gr_parts : ∀ lang, inl lang ∈ placesOf ds ↔ partsOf lang ds ≠ [];
  gr_items : ∀ item, inr item ∈ placesOf ds → descriptor_ok item ∧ ed_Type item ≠ "ExtendedEvent"%string
}.

Lemma placesOf_snoc ds d : placesOf (ds ++ [d]) = addPlace (placesOf ds) d.
Proof. unfold placesOf. by rewrite fold_left_app. Qed.

Lemma grouped_nil : grouped [] [] ∅.
Proof.
  split; try done.
  - intros lang g. rewrite lookup_empty. split; [done |]. intros (i & Hi & _). change (placesOf []) with (@nil place) in Hi. by rewrite lookup_nil in Hi.
  - intros lang. split; [by intros ?%elem_of_nil | done].
  - by intros item ?%elem_of_nil.
Qed.

Definition placeholder (pl : place) : EITDescriptor := match pl with inl _ => emptyDescriptor | inr item => item end.

(** A descriptor that is no part of an extended event. *)
Lemma grouped_other ds out extended d item : grouped ds out extended → partOf d = None →
  placesOf (ds ++ [d]) = placesOf ds ++ option_list (inr <$> item) → (∀ x, item = Some x → descriptor_ok x ∧ ed_Type x ≠ "ExtendedEvent"%string) →
  grouped (ds ++ [d]) (out ++ option_list item) extended.
Proof.
  intros [G1 G2 G3 G4 G5] Hp Hpl Hok.
  assert (∀ lang, partsOf lang (ds ++ [d]) = partsOf lang ds) as Hparts by (intros lang; by rewrite partsOf_snoc, Hp, app_nil_r).
  assert (∀ i lang, placesOf (ds ++ [d]) !! i = Some (inl lang) ↔ placesOf ds !! i = Some (inl lang)) as Hlook.
  { intros i lang. rewrite Hpl. destruct item as [x |]; cbn; [| by rewrite app_nil_r].
    rewrite lookup_snoc_Some. split; [intros [[_ H] | [_ H]]; done |]. intros H. left. split; [by apply lookup_lt_Some in H | done]. }
  assert (∀ lang, inl lang ∈ placesOf (ds ++ [d]) ↔ inl lang ∈ placesOf ds) as Hin.
  { intros lang. rewrite !list_elem_of_lookup. by setoid_rewrite Hlook. }
  split.
  - rewrite Hpl, map_app, G1. by destruct item.
  - intros lang g. setoid_rewrite Hlook. rewrite Hparts. apply G2.
  - intros i j lang. rewrite !Hlook. apply G3.
  - intros lang. rewrite Hin, Hparts. apply G4.
  - intros x. rewrite Hpl, elem_of_app. intros [Hx | Hx]; [by apply G5 |]. destruct item as [y |]; [| by apply elem_of_nil in Hx].
    cbn in Hx. apply list_elem_of_singleton in Hx as [= ->]. by apply Hok.
Qed.

(** A part of a language that has its place. *)
Lemma grouped_more ds out extended d p g : grouped ds out extended → partOf d = Some p →
  extended !! ep_lang p = Some g → placesOf (ds ++ [d]) = placesOf ds →
  grouped (ds ++ [d]) out
    (<[ep_lang p := MkGroup (eg_index g) (eg_parts g ++ [setOrder (len (eg_parts g)) p])]> extended).
Proof.
  intros [G1 G2 G3 G4 G5] Hp Hg Hpl. apply G2 in Hg as (i & Hi & ->). cbn [eg_index eg_parts].
  assert (∀ lang, lang ≠ ep_lang p → partsOf lang (ds ++ [d]) = partsOf lang ds) as Hparts.
  { intros lang Hne. by rewrite partsOf_snoc, Hp, decide_False, app_nil_r by congruence. }
  assert (partsOf (ep_lang p) (ds ++ [d]) = partsOf (ep_lang p) ds ++ [setOrder (len (partsOf (ep_lang p) ds)) p]) as Hmore
    by (by rewrite partsOf_snoc, Hp, decide_True).
  split; rewrite ?Hpl; try done.
  - intros lang g. rewrite <- Hmore. destruct (decide (ep_lang p = lang)) as [<- | Hne].
    + rewrite lookup_insert_eq. split; [intros [= <-]; by exists i |]. intros (j & Hj & ->).
      by rewrite (G3 i j (ep_lang p)).
    + rewrite lookup_insert_ne, Hparts by done. apply G2.
  - intros lang. rewrite G4. destruct (decide (lang = ep_lang p)) as [-> | Hne]; [| by rewrite Hparts].
    rewrite Hmore. split; [intros _; by destruct (partsOf (ep_lang p) ds) |]. intros _. apply G4. apply list_elem_of_lookup. by exists i.
Qed.

(** The first part of a language. *)
Lemma grouped_first ds out extended d p : grouped ds out extended → partOf d = Some p →
  extended !! ep_lang p = None → placesOf (ds ++ [d]) = placesOf ds ++ [inl (ep_lang p)] →
  grouped (ds ++ [d]) (out ++ [emptyDescriptor])
    (<[ep_lang p := MkGroup (len (out ++ [emptyDescriptor]) - 1) [setOrder 0 p]]> extended).
Proof.
  intros [G1 G2 G3 G4 G5] Hp Hg Hpl.
  assert (inl (ep_lang p) ∉ placesOf ds) as Hnew.
  { intros (i & Hi)%list_elem_of_lookup. assert (extended !! ep_lang p = Some (MkGroup (Z.of_nat i) (partsOf (ep_lang p) ds))) as H
      by (apply G2; by exists i). congruence. }
  assert (partsOf (ep_lang p) ds = []) as Hnil.
  { destruct (partsOf (ep_lang p) ds) eqn:E; [done |]. exfalso. apply Hnew, G4. by rewrite E. }
  assert (∀ lang, lang ≠ ep_lang p → partsOf lang (ds ++ [d]) = partsOf lang ds) as Hparts.
  { intros lang Hne. by rewrite partsOf_snoc, Hp, decide_False, app_nil_r by congruence. }
  assert (partsOf (ep_lang p) (ds ++ [d]) = [setOrder 0 p]) as Hmore by (by rewrite partsOf_snoc, Hp, decide_True, Hnil).
  assert (len (out ++ [emptyDescriptor]) - 1 = Z.of_nat (length (placesOf ds))) as Hlen.
  { rewrite len_app, G1. unfold len. rewrite length_map. apply Z.add_simpl_r. }
  split; rewrite ?Hpl.
  - by rewrite map_app, G1.
  - intros lang g. rewrite Hlen. setoid_rewrite lookup_snoc_Some. destruct (decide (ep_lang p = lang)) as [<- | Hne].
    + rewrite lookup_insert_eq, Hmore. split.
      * intros [= <-]. eexists. split; [by right | done].
      * intros (j & [[_ Hj] | [-> _]] & ->); [| done]. exfalso. apply Hnew, list_elem_of_lookup. by exists j.
    + rewrite lookup_insert_ne, Hparts, G2 by done. split.
      * intros (j & Hj & ->). exists j. split; [left; split; [by apply lookup_lt_Some in Hj | done] | done].
      * intros (j & [[_ Hj] | [_ [= ?]]] & ->); [by exists j | done].
  - intros i j lang. rewrite !lookup_snoc_Some. intros [[_ Hi] | [-> [= <-]]] [[_ Hj] | [-> Hj]].
    + by apply (G3 i j lang).
    + injection Hj as <-. exfalso. apply Hnew, list_elem_of_lookup. by exists i.
    + exfalso. apply Hnew, list_elem_of_lookup. by exists j.
    + done.
  - intros lang. rewrite elem_of_app, list_elem_of_singleton. destruct (decide (lang = ep_lang p)) as [-> | Hne].
    + rewrite Hmore. split; [done |]. intros _. by right.
    + rewrite Hparts by done. rewrite <- G4. split; [intros [? | [= ?]]; done | by left].
  - intros item. rewrite elem_of_app, list_elem_of_singleton. intros [? | ?]; [by apply G5 | done].
Qed.

Lemma descriptorStep_ok ds out extended d : grouped ds out extended → descriptor_bytes d →
  returns (descriptorStep (out, extended) d) (λ '(out, extended), grouped (ds ++ [d]) out extended).
Proof.
  intros Hg Hd. unfold descriptorStep. apply safe_bind, Tag_bytes; [done |].
  destruct (Z.eqb_spec (byteAt d 0) DescriptorTagExtendedEvent) as [Ht | Ht].
  - rewrite partOf_ret by done. run.
    assert (placesOf (ds ++ [d]) = addPlace (placesOf ds) d) as Hpl by apply placesOf_snoc.
    unfold addPlace in Hpl. rewrite Ht, Z.eqb_refl in Hpl. destruct (partOf d) as [p |] eqn:Hp.
    + destruct (extended !! ep_lang p) as [g |] eqn:He; cbn beta iota zeta.
      * apply safe_ret. apply (grouped_more ds out extended d p g); try done. rewrite Hpl, bool_decide_eq_true_2; [done |].
        apply list_elem_of_lookup. apply Hg in He as (i & Hi & _). by exists i.
      * apply safe_ret. cbn [eg_parts eg_index app]. change (len []) with 0. apply (grouped_first ds out extended d p); try done.
        rewrite Hpl, bool_decide_eq_false_2; [done |]. intros (i & Hi)%list_elem_of_lookup.
        assert (extended !! ep_lang p = Some (MkGroup (Z.of_nat i) (partsOf (ep_lang p) ds))) as H
          by (apply (gr_group _ _ _ Hg); by exists i). congruence.
    + apply safe_ret. rewrite <- (app_nil_r out). apply (grouped_other ds out extended d None); try done.
      by rewrite Hpl, app_nil_r.
  - destruct (itemOf_ret d Hd) as [Hret Hok]. rewrite Hret. run.
    assert (partOf d = None) as Hp by (unfold partOf; by destruct (Z.eqb_spec (byteAt d 0) DescriptorTagExtendedEvent)).
    assert (placesOf (ds ++ [d]) = placesOf ds ++ option_list (inr <$> itemOf d)) as Hpl.
    { rewrite placesOf_snoc. unfold addPlace. destruct (Z.eqb_spec (byteAt d 0) DescriptorTagExtendedEvent); [done |].
      destruct (itemOf d); [done | by rewrite app_nil_r]. }
    pose proof (grouped_other ds out extended d (itemOf d) Hg Hp Hpl) as H.
    ospecialize (H _); [intros x Hx; destruct (Hok x Hx); auto |]. apply safe_ret.
    destruct (itemOf d); [done |]. by rewrite app_nil_r in H.
Qed.

Lemma descriptorSteps_ok ds : Forall descriptor_bytes ds →
  returns (foldM descriptorStep ds ([], ∅)) (λ '(out, extended), grouped ds out extended).
Proof.
  intros Hds.
  apply (safe_foldM_prefix (λ k '(out, extended), grouped k out extended)); [apply grouped_nil |].
  intros k d [out extended] Hg [r Hr]. apply descriptorStep_ok; [done |].
  rewrite Hr, !Forall_app in Hds. by apply (Forall_inv (proj2 (proj1 Hds))).
Qed.

(** The places filled so far. *)
Definition fillPlace (ds : list Descriptor) (done : list (list Z)) (pl : place) : EITDescriptor :=
  match pl with
  | inl lang => if decide (lang ∈ done) then mergedOf (partsOf lang ds) else emptyDescriptor
  | inr item => item
  end.

Lemma fillPlaces_ok {O : RangeOrderOf (list Z) extendedEventGroup} ds out extended :
  Forall descriptor_bytes ds → grouped ds out extended →
  returns (foldM (λ out e, merged ← mergeExtendedEventParts (eg_parts (snd e)); store out (eg_index (snd e)) merged)
    (rangeOf extended) out) (λ out', out' = eventDescriptors ds).
Proof.
  intros Hds [G1 G2 G3 G4 G5].
  eapply safe_mono.
  - apply (safe_foldM_prefix (λ k out', out' = map (fillPlace ds k.*1) (placesOf ds))).
    { rewrite G1. apply map_ext. by intros [lang | item]. }
    intros k [lang g] out' -> [r Hr]. cbn [snd].
    assert ((lang, g) ∈ rangeOf extended) as Hin by (rewrite Hr; set_solver).
    rewrite rangeOf_perm, elem_of_map_to_list, G2 in Hin. destruct Hin as (i & Hi & ->). cbn [eg_parts eg_index].
    destruct (mergedOf_ret (partsOf lang ds)) as [-> _]; [apply G4, list_elem_of_lookup; by exists i | by apply partsOf_ok |].
    run. unfold store. rewrite (idx_lookup _ (Z.of_nat i) (fillPlace ds k.*1 (inl lang)));
      [| lia | rewrite Nat2Z.id; by rewrite list_lookup_fmap, Hi]. run. rewrite Nat2Z.id.
    apply safe_ret, list_eq. intros j. destruct (decide (i = j)) as [<- | Hne].
    + rewrite list_lookup_insert_eq by (rewrite length_fmap; by apply lookup_lt_Some in Hi).
      rewrite list_lookup_fmap, Hi. cbn. rewrite decide_True; [done |]. rewrite fmap_app. set_solver.
    + rewrite list_lookup_insert_ne, !list_lookup_fmap by done. destruct (placesOf ds !! j) as [[lang' | item] |] eqn:Hj; [| done..].
      cbn. f_equal. assert (lang' ≠ lang) as Hl by (intros ->; by apply Hne, (G3 i j lang)).
      apply decide_ext. rewrite fmap_app. set_solver.
  - intros out' ->. apply map_ext_in. intros [lang | item] Hpl; [| done]. cbn.
    rewrite decide_True; [done |]. apply list_elem_of_In, list_elem_of_lookup in Hpl as (i & Hi).
    apply list_elem_of_fmap. exists (lang, MkGroup (Z.of_nat i) (partsOf lang ds)). split; [done |].
    rewrite rangeOf_perm, elem_of_map_to_list, G2. by exists i.
Qed.

Lemma descriptorsFromTS_spec {O : RangeOrderOf (list Z) extendedEventGroup} ds : Forall descriptor_bytes ds →
  descriptorsFromTS ds = Ret (eventDescriptors ds) ∧ Forall descriptor_ok (eventDescriptors ds).
Proof.
  intros Hds. pose proof (descriptorSteps_ok ds Hds) as H. unfold descriptorsFromTS.
  destruct (foldM descriptorStep ds ([], ∅)) as [[out extended] | | |] eqn:E; try done. run.
  pose proof (fillPlaces_ok ds out extended Hds H) as Hfill. split.
  - destruct (foldM _ (rangeOf extended) out) as [x | | |]; try done. cbn in Hfill. by rewrite Hfill.
  - destruct H as [_ _ _ G4 G5]. apply Forall_forall. intros x. unfold eventDescriptors.
    rewrite list_elem_of_fmap. intros ([lang | item] & -> & Hpl); [| by apply G5].
    apply mergedOf_ret; [by apply G4 | by apply partsOf_ok].
Qed.

(** ** The parts of an extended event *)

(** Reading back the two nibbles of a byte. *)
Lemma high_of a b : nibble_ok b → Z.shiftr (a * 16 + b) 4 = a.
Proof. unfold nibble_ok. intros. rewrite Z.shiftr_div_pow2 by lia. change (2 ^ 4) with 16. rewrite Z.div_add_l, Z.div_small; lia. Qed.
Lemma low_of a b : nibble_ok b → Z.land (a * 16 + b) 0x0f = b.
Proof.
  unfold nibble_ok. intros. change 0x0f with (Z.ones 4). rewrite Z.land_ones by lia. change (2 ^ 4) with 16.
  rewrite Z.add_comm, Z.mod_add by lia. apply Z.mod_small. lia.
Qed.

(** A part before it is cut out of a descriptor. *)
Record partSource : Type := MkPartSource {
  ps_items : list (list Z * list Z);
  ps_text : list Z
}.

Definition itemBytes (item : list Z * list Z) : list Z :=
  len (fst item) :: fst item ++ len (snd item) :: snd item.

Definition partBytes (number last : Z) (lang : list Z) (src : partSource) : Descriptor :=
  let items := concat (map itemBytes (ps_items src)) in
  whole DescriptorTagExtendedEvent
    ((number * 16 + last) :: lang ++ len items :: items ++ len (ps_text src) :: ps_text src).

(** A descriptor holds at most 255 bytes after its length. *)
Definition partSource_ok (src : partSource) : Prop :=
  Forall (λ item, bytes_ok (fst item) ∧ bytes_ok (snd item)) (ps_items src) ∧ bytes_ok (ps_text src) ∧
  len (concat (map itemBytes (ps_items src))) + len (ps_text src) ≤ 249.

Lemma slice_end {A} (pre k : list A) a b : len pre = a → b = a + len k → (pre ++ k)![a; b] = Ret k.
Proof. intros Ha Hb. rewrite <- (app_nil_r k) at 1. by apply slice_app. Qed.

Lemma slice_start {A} (k post : list A) b : b = len k → (k ++ post)![0; b] = Ret k.
Proof. intros ->. by apply (slice_app [] k post). Qed.

Lemma len_itemBytes item : len (itemBytes item) = 2 + len (fst item) + len (snd item).
Proof. unfold itemBytes. rewrite len_cons, len_app, len_cons. lia. Qed.

Lemma fold_left_snoc {A} (l acc : list A) : fold_left (λ acc x, acc ++ [x]) l acc = acc ++ l.
Proof. revert acc. induction l as [| x l IH]; intros acc; cbn; [by rewrite app_nil_r | by rewrite IH, <- app_assoc]. Qed.

(** One iteration reads one item. *)
Lemma extendedItemBody_item pre item rest stop acc : len pre + len (itemBytes item) ≤ stop →
  extendedItemBody (pre ++ itemBytes item ++ rest) stop (acc, len pre) =
  continue (acc ++ [item], len pre + len (itemBytes item)).
Proof.
  destruct item as [d t]. rewrite len_itemBytes. cbn [fst snd]. intros Hstop.
  pose proof (len_nonneg d). pose proof (len_nonneg t). unfold extendedItemBody, itemBytes. cbn [fst snd].
  rewrite (proj2 (Z.ltb_lt _ _)) by lia. cbn [app]. rewrite idx_app by done. run.
  rewrite (proj2 (Z.ltb_ge _ _)) by lia. rewrite <- app_assoc. cbn [app].
  change (pre ++ len d :: d ++ len t :: t ++ rest) with (pre ++ [len d] ++ d ++ len t :: t ++ rest).
  rewrite app_assoc. rewrite slice_app by (rewrite ?len_app, ?len_cons, ?len_nil; lia). run.
  rewrite (proj2 (Z.leb_gt _ _)) by lia. rewrite (app_assoc _ d).
  rewrite idx_app by (rewrite !len_app, len_cons, len_nil; lia). run.
  rewrite (proj2 (Z.ltb_ge _ _)) by lia.
  change (((pre ++ [len d]) ++ d) ++ len t :: t ++ rest) with (((pre ++ [len d]) ++ d) ++ [len t] ++ t ++ rest).
  rewrite app_assoc. rewrite slice_app by (rewrite ?len_app, ?len_cons, ?len_nil; lia). run.
  unfold continue. do 3 f_equal. lia.
Qed.

Lemma extendedItems_read pre items post (data := pre ++ concat (map itemBytes items) ++ post)
    (stop := len pre + len (concat (map itemBytes items))) :
  loop (S (length data)) (extendedItemBody data stop) ([], len pre) = Ret (Some (items, stop)).
Proof.
  rewrite (loop_read itemBytes (λ acc item, acc ++ [item]) (λ acc, Some (acc, stop))
    (extendedItemBody data stop) data items pre post).
  - by rewrite fold_left_snoc.
  - done.
  - intros pre' item rest acc Hin Hs Hl. rewrite Hs. apply extendedItemBody_item.
    assert (len data = stop + len post) as Hd by (unfold data, stop; rewrite !len_app; lia).
    rewrite Hs, !len_app in Hd. lia.
  - intros acc. unfold extendedItemBody. assert (len data - len post = stop) as -> by (unfold data, stop; rewrite !len_app; lia).
    rewrite (proj2 (Z.ltb_ge _ _)) by lia. done.
  - unfold data. rewrite !length_app.
    pose proof (concat_length_ge itemBytes items ltac:(done)). lia.
Qed.

Lemma parsePart_partBytes number last lang src : nibble_ok number → nibble_ok last → lang_ok lang → partSource_ok src →
  parseExtendedEventDescriptorPart (partBytes number last lang src) =
  Ret (Some (MkPart number last lang (ps_text src) (ps_items src) 0)).
Proof.
  intros Hn Hl [_ Hlang] (_ & _ & Hlen). unfold parseExtendedEventDescriptorPart, partBytes.
  set (items := concat (map itemBytes (ps_items src))) in *. set (text := ps_text src) in *.
  rewrite Data_whole. run. pose proof (len_nonneg items). pose proof (len_nonneg text).
  set (b0 := number * 16 + last).
  rewrite (proj2 (Z.ltb_ge _ _)) by (rewrite len_cons, len_app, len_cons, len_app, len_cons; lia).
  rewrite (idx_app [] b0 (lang ++ len items :: items ++ len text :: text) 0 eq_refl : (b0 :: _)![0] = _). run.
  change (b0 :: lang ++ len items :: items ++ len text :: text) with ([b0] ++ lang ++ len items :: items ++ len text :: text).
  rewrite slice_app by (rewrite ?len_cons, ?len_nil; lia). run. rewrite app_assoc.
  rewrite idx_app by (rewrite len_app, len_cons, len_nil; lia). run.
  rewrite (proj2 (Z.ltb_ge _ _)) by (rewrite !len_app, !len_cons, len_nil, len_app, len_cons; lia).
  change (([b0] ++ lang) ++ len items :: items ++ len text :: text) with
    (([b0] ++ lang) ++ [len items] ++ items ++ len text :: text). rewrite app_assoc.
  assert (len (([b0] ++ lang) ++ [len items]) = 5) as H5 by (rewrite !len_app, !len_cons, !len_nil; lia).
  pose proof (extendedItems_read (([b0] ++ lang) ++ [len items]) (ps_items src) (len text :: text)) as Hloop.
  cbv zeta in Hloop. fold items in Hloop. rewrite H5 in Hloop. rewrite Hloop. run.
  rewrite (proj2 (Z.leb_gt _ _)) by (rewrite len_app, H5, len_app, len_cons; lia).
  rewrite app_assoc. rewrite idx_app by (rewrite len_app; lia). run.
  rewrite (proj2 (Z.ltb_ge _ _)) by (rewrite !len_app, !len_cons, !len_nil; lia).
  change ((((([b0] ++ lang) ++ [len items]) ++ items) ++ len text :: text)) with
    (((([b0] ++ lang) ++ [len items]) ++ items) ++ [len text] ++ text). rewrite app_assoc.
  rewrite slice_end by (rewrite ?len_app, ?H5, ?len_cons, ?len_nil; lia). run.
  subst b0. by rewrite high_of, low_of.
Qed.

(** The language a descriptor that is a part names. *)
Definition isPart (lang : list Z) (d : Descriptor) : Prop := byteAt d 0 = DescriptorTagExtendedEvent ∧ sub d 3 6 = lang.
#[local] Instance isPart_dec lang d : Decision (isPart lang d).
Proof. unfold isPart. apply _. Defined.

Lemma partOf_lang d p : desc_ok d → partOf d = Some p → byteAt d 0 = DescriptorTagExtendedEvent ∧ ep_lang p = sub d 3 6.
Proof.
  intros (t & data & ->). unfold partOf. destruct (Z.eqb_spec (byteAt (t :: len data :: data) 0) DescriptorTagExtendedEvent) as [Ht |]; [| done].
  destruct (parseExtendedEventDescriptorPart (t :: len data :: data)) as [r | | |] eqn:E; try done. intros ->. split; [done |].
  unfold parseExtendedEventDescriptorPart in E. change (t :: len data :: data) with (whole t data) in E. rewrite Data_whole in E.
  cbn [mbind outcome_bind] in E. destruct (len data <? 6); [done |].
  apply bind_Ret_inv in E as (b0 & _ & E). apply bind_Ret_inv in E as (lang & Hlang & E). apply bind_Ret_inv in E as (n & _ & E).
  destruct (len data <? 5 + n); [done |]. apply bind_Ret_inv in E as ([[items off] |] & _ & E); [| done].
  destruct (len data <=? off); [done |]. apply bind_Ret_inv in E as (m & _ & E). destruct (len data <? off + 1 + m); [done |].
  apply bind_Ret_inv in E as (text & _ & E). injection E as <-. cbn [ep_lang]. by apply slice_inv in Hlang as [-> _].
Qed.

Lemma partsOf_filter lang ds : Forall desc_ok ds →
  filter (λ p, ep_lang p = lang) (omap partOf ds) = omap partOf (filter (isPart lang) ds).
Proof.
  intros Hds. induction Hds as [| d ds Hd Hds IH]; [done |]. rewrite filter_cons. cbn [omap list_omap].
  destruct (partOf d) as [p |] eqn:Hp.
  - destruct (partOf_lang d p Hd Hp) as [Ht Hl]. rewrite filter_cons, IH. destruct (decide (ep_lang p = lang)) as [He | Hne].
    + rewrite decide_True by (split; congruence). cbn [omap list_omap]. by rewrite Hp.
    + rewrite decide_False; [done |]. intros [_ H]. congruence.
  - rewrite IH. destruct (decide (isPart lang d)); [| done]. cbn [omap list_omap]. by rewrite Hp.
Qed.

(** The order of arrival apart. *)
Definition forget : extendedEventDescriptorPart → extendedEventDescriptorPart := setOrder 0.

Lemma forget_partsOf lang ds : map forget (partsOf lang ds) = map forget (filter (λ p, ep_lang p = lang) (omap partOf ds)).
Proof.
  unfold partsOf. generalize (filter (λ p, ep_lang p = lang) (omap partOf ds)) as l. intros l. apply list_eq. intros i.
  rewrite !list_lookup_fmap, list_lookup_imap. by destruct (l !! i).
Qed.

#[local] Instance partLe_total : Total partLe.
Proof. intros p q. unfold partLe. lia. Qed.
#[local] Instance partLe_trans : Transitive partLe.
Proof. intros p q r. unfold partLe. lia. Qed.

(** The parts in the order of their numbers. *)
Definition numbered (last : Z) (lang : list Z) (sources : list partSource) : list extendedEventDescriptorPart :=
  imap (λ i src, MkPart (Z.of_nat i) last lang (ps_text src) (ps_items src) 0) sources.

Lemma numbers_numbered last lang sources :
  map ep_descriptorNumber (numbered last lang sources) = seqZ 0 (len sources).
Proof.
  apply list_eq. intros i. unfold numbered. rewrite list_lookup_fmap, list_lookup_imap.
  destruct (sources !! i) as [src |] eqn:E; cbn.
  - symmetry. apply lookup_seqZ. apply lookup_lt_Some in E. unfold len. lia.
  - symmetry. apply lookup_seqZ_ge. apply lookup_ge_None in E. unfold len. lia.
Qed.

Lemma Sorted_seqZ m (n : nat) : Sorted Z.le (seqZ m (Z.of_nat n)).
Proof.
  revert m. induction n as [| n IH]; intros m; [done |]. rewrite seqZ_cons by lia.
  replace (Z.pred (Z.of_nat (S n))) with (Z.of_nat n) by lia. constructor; [apply IH |].
  destruct n; [done |]. rewrite seqZ_cons by lia. constructor. lia.
Qed.

Lemma sorted_numbers parts last lang sources : map forget parts ≡ₚ numbered last lang sources →
  map forget (merge_sort partLe parts) = numbered last lang sources.
Proof.
  intros Hp. set (sorted := merge_sort partLe parts).
  assert (sorted ≡ₚ parts) as Hs by apply merge_sort_Permutation.
  assert (map ep_descriptorNumber sorted = seqZ 0 (len sources)) as Hn.
  { apply (Sorted_unique Z.le).
    - assert (Sorted partLe sorted) as Hsorted by apply Sorted_merge_sort, _. clearbody sorted. clear -Hsorted.
      induction Hsorted as [| p ps Hps IH Hhd]; [constructor |]. constructor; [done |].
      destruct Hhd as [| q qs Hq]; constructor. unfold partLe in Hq. lia.
    - apply Sorted_seqZ.
    - rewrite <- (numbers_numbered last lang), <- Hp, Hs. rewrite map_map. done. }
  assert (∀ p, p ∈ sorted → ∃ i, numbered last lang sources !! i = Some (forget p) ∧ ep_descriptorNumber p = Z.of_nat i) as Hin.
  { intros p H. assert (forget p ∈ numbered last lang sources) as Hf by (rewrite <- Hp, <- Hs; by apply list_elem_of_fmap_2).
    apply list_elem_of_lookup in Hf as (i & Hi). exists i. split; [done |]. unfold numbered in Hi. rewrite list_lookup_imap in Hi.
    destruct (sources !! i); [| done]. cbn in Hi. by injection Hi as Hi _ _ _ _. }
  apply list_eq. intros i. rewrite list_lookup_fmap. pose proof (f_equal (λ l, l !! i) Hn) as Hi. cbn in Hi.
  rewrite list_lookup_fmap in Hi. destruct (sorted !! i) as [p |] eqn:E; cbn in *.
  - destruct (Hin p) as (j & Hj & Hpj); [by apply list_elem_of_lookup; exists i |].
    symmetry in Hi. apply lookup_seqZ in Hi as [Hi _]. assert (i = j) as -> by lia. done.
  - symmetry in Hi. symmetry. apply lookup_ge_None. unfold numbered. rewrite length_imap.
    destruct (decide (length sources ≤ i)%nat); [done |]. exfalso.
    assert (seqZ 0 (len sources) !! i = Some (0 + Z.of_nat i)) as H by (apply lookup_seqZ; unfold len; lia). congruence.
Qed.

(** The fragments of an item: a continuation has no description. *)
Definition fragments (item : list Z * list (list Z)) : list extendedEventItemPart :=
  match snd item with [] => [] | t :: ts => (fst item, t) :: map (λ t, ([], t)) ts end.

Definition item_whole (item : list Z * list (list Z)) : Prop := fst item ≠ [] ∧ snd item ≠ [].

Lemma appendItem_more acc d t t' : appendItem (acc ++ [(d, t)]) ([], t') = acc ++ [(d, t ++ t')].
Proof.
  unfold appendItem. cbn [fst snd].
  assert (0 < len (acc ++ [(d, t)])) as Hl by (unfold len; rewrite length_app; change (length [(d, t)]) with 1%nat; lia).
  rewrite (proj2 (Z.ltb_lt _ _) Hl). cbn [andb Z.eqb]. rewrite length_app. replace (pred (length acc + length [(d, t)])) with (length acc + 0)%nat by (change (length [(d, t)]) with 1%nat; lia).
  by rewrite alter_app_r.
Qed.

Lemma appendItem_new acc d t : d ≠ [] → appendItem acc (d, t) = acc ++ [(d, t)].
Proof.
  intros Hd. unfold appendItem. cbn [fst]. destruct d; [done |]. rewrite len_cons. pose proof (len_nonneg d).
  by rewrite (proj2 (Z.eqb_neq _ _)) by lia.
Qed.

Lemma join_fragments items : Forall item_whole items →
  fold_left appendItem (concat (map fragments items)) [] = map (λ item, (fst item, concat (snd item))) items.
Proof.
  intros Hi. cut (∀ acc, fold_left appendItem (concat (map fragments items)) acc =
    acc ++ map (λ item, (fst item, concat (snd item))) items); [intros H; apply (H []) |].
  induction Hi as [| [d ts] items [Hd Ht] Hi IH]; intros acc; [cbn; by rewrite app_nil_r |].
  cbn [map concat]. rewrite fold_left_app. destruct ts as [| t ts]; [done |]. cbn [fragments fst snd fold_left].
  rewrite appendItem_new by done.
  assert (∀ t, fold_left appendItem (map (λ t, ([], t)) ts) (acc ++ [(d, t)]) = acc ++ [(d, t ++ concat ts)]) as ->.
  { clear. induction ts as [| t' ts IH]; intros t; cbn [map fold_left concat]; [by rewrite app_nil_r |].
    by rewrite appendItem_more, IH, app_assoc. }
  rewrite IH, <- app_assoc. done.
Qed.

(** The decoded text. *)
Definition textOf (b : list Z) : list Z := match DecodeARIBString b with Ret text => text | _ => [] end.

Lemma textOf_ret b : bytes_ok b → DecodeARIBString b = Ret (textOf b).
Proof. intros Hb. unfold textOf. by destruct (decoded b Hb) as (t & -> & _). Qed.

Lemma decodeOrEmpty_ret b : bytes_ok b → decodeOrEmpty b = Ret (textOf b).
Proof. intros Hb. unfold decodeOrEmpty. by rewrite textOf_ret. Qed.

Lemma decodeItems_ret items acc : Forall (λ item, bytes_ok (fst item) ∧ bytes_ok (snd item)) items →
  foldM (λ items item,
    description ← decodeOrEmpty (fst item);
    itemText ← decodeOrEmpty (snd item);
    Ret (items ++ [[description; itemText]])) items acc =
  Ret (acc ++ map (λ item, [textOf (fst item); textOf (snd item)]) items).
Proof.
  intros Hi. revert acc. induction Hi as [| item items [H1 H2] Hi IH]; intros acc; cbn [foldM map]; [by rewrite app_nil_r |].
  rewrite !decodeOrEmpty_ret by done. run. by rewrite IH, <- app_assoc.
Qed.

(** The event text put together again. *)
Definition wholeText (items : list (list Z * list (list Z))) (text : list Z) : list (list (list Z)) :=
  let items := map (λ item, [textOf (fst item); textOf (concat (snd item))]) items in
  if negb (len text =? 0) && (len items =? 0) then [[[]; text]] else items.

Lemma merge_numbered parts last lang sources items :
  sources ≠ [] → Forall partSource_ok sources → map forget parts ≡ₚ numbered last lang sources →
  concat (map ps_items sources) = concat (map fragments items) → Forall item_whole items →
  mergedOf parts = extendedEvent lang (textOf (concat (map ps_text sources)))
    (wholeText items (textOf (concat (map ps_text sources)))).
Proof.
  intros Hne Hok Hp Hitems Hwhole. pose proof (sorted_numbers parts last lang sources Hp) as Hs.
  unfold mergedOf, mergeExtendedEventParts. set (sorted := merge_sort partLe parts) in *. clearbody sorted.
  assert (∀ B (f : extendedEventDescriptorPart → B), (∀ p, f (forget p) = f p) →
    map f sorted = map f (numbered last lang sources)) as Hmap.
  { intros B f Hf. rewrite <- Hs, map_map. apply map_ext. by intros p. }
  assert (map ep_textRaw sorted = map ps_text sources) as ->.
  { rewrite Hmap by done. apply list_eq. intros i. unfold numbered.
    rewrite !list_lookup_fmap, list_lookup_imap. by destruct (sources !! i). }
  assert (map ep_items sorted = map ps_items sources) as ->.
  { rewrite Hmap by done. apply list_eq. intros i. unfold numbered.
    rewrite !list_lookup_fmap, list_lookup_imap. by destruct (sources !! i). }
  assert (match sorted with part :: _ => ep_lang part | [] => [] end = lang) as ->.
  { destruct sources as [| src sources]; [done |]. destruct sorted as [| p sorted]; [done |]. injection Hs as _ _ H _. done. }
  rewrite Hitems, join_fragments by done.
  assert (bytes_ok (concat (map ps_text sources))) as Ht.
  { clear -Hok. induction Hok as [| src sources (_ & Ht & _) Hok IH]; [apply Forall_nil_2 | by apply bytes_ok_app]. }
  assert (Forall (λ item, bytes_ok (fst item) ∧ bytes_ok (snd item))
    (map (λ item : list Z * list (list Z), (fst item, concat (snd item))) items)) as Hraw.
  { rewrite <- join_fragments, <- Hitems by done. clear -Hok.
    assert (Forall (λ item, bytes_ok (fst item) ∧ bytes_ok (snd item)) (concat (map ps_items sources))) as H.
    { induction Hok as [| src sources (Hi & _) Hok IH]; [apply Forall_nil_2 | by apply Forall_app]. }
    assert (∀ l acc, Forall (λ item : list Z * list Z, bytes_ok (fst item) ∧ bytes_ok (snd item)) l →
      Forall (λ item, bytes_ok (fst item) ∧ bytes_ok (snd item)) acc →
      Forall (λ item, bytes_ok (fst item) ∧ bytes_ok (snd item)) (fold_left appendItem l acc)) as Hfold.
    { intros l acc Hl. revert acc. induction Hl as [| x l Hx Hl IH]; intros acc Hacc; [done |]. apply IH. by apply appendItem_ok. }
    apply Hfold; [done | apply Forall_nil_2]. }
  rewrite decodeOrEmpty_ret by done. run. rewrite decodeItems_ret by done. run. rewrite app_nil_l, map_map.
  unfold wholeText. done.
Qed.

Lemma mergedOf_extended parts : parts ≠ [] → Forall part_ok parts →
  ∃ text items, mergedOf parts = extendedEvent (match merge_sort partLe parts with part :: _ => ep_lang part | [] => [] end) text items.
Proof.
  intros Hne Hok. destruct (mergedOf_ret parts Hne Hok) as [H _]. unfold mergeExtendedEventParts in H.
  apply bind_Ret_inv in H as (text & _ & H). apply bind_Ret_inv in H as (items & _ & H). injection H as <-. eauto.
Qed.

Lemma mergedOf_lang lang ds : Forall descriptor_bytes ds → partsOf lang ds ≠ [] → ed_Lang (mergedOf (partsOf lang ds)) = lang.
Proof.
  intros Hds Hne. destruct (mergedOf_extended _ Hne (partsOf_ok lang ds Hds)) as (text & items & ->). cbn [ed_Lang extendedEvent].
  assert (∀ p, p ∈ partsOf lang ds → ep_lang p = lang) as Hl.
  { intros p (i & Hi)%list_elem_of_lookup. unfold partsOf in Hi. rewrite list_lookup_imap in Hi.
    apply fmap_Some in Hi as (q & Hq & ->). cbn. apply list_elem_of_lookup_2 in Hq. by apply list_elem_of_filter in Hq as [? _]. }
  pose proof (merge_sort_Permutation partLe (partsOf lang ds)) as Hp. destruct (merge_sort partLe (partsOf lang ds)) as [| p ps].
  - by apply Permutation_nil_l in Hp.
  - apply Hl. rewrite <- Hp. by left.
Qed.

Lemma omap_imap {A B C} (f : nat → A → B) (g : nat → A → C) (h : B → option C) l :
  (∀ i x, l !! i = Some x → h (f i x) = Some (g i x)) → omap h (imap f l) = imap g l.
Proof.
  revert f g. induction l as [| x l IH]; intros f g H; [done |]. rewrite !imap_cons. cbn [omap list_omap].
  rewrite (H 0%nat x eq_refl). f_equal. apply IH. intros i y. apply (H (S i) y).
Qed.

Lemma omap_partBytes last lang sources : lang_ok lang → nibble_ok last → len sources ≤ 16 → Forall partSource_ok sources →
  omap partOf (imap (λ i, partBytes (Z.of_nat i) last lang) sources) = numbered last lang sources.
Proof.
  intros Hlang Hlast Hlen Hok. unfold numbered. apply omap_imap. intros i src Hi.
  assert (byteAt (partBytes (Z.of_nat i) last lang src) 0 = DescriptorTagExtendedEvent) as H0 by done.
  unfold partOf. rewrite H0, Z.eqb_refl, parsePart_partBytes; [done | | done | done |].
  - apply lookup_lt_Some in Hi. unfold len, nibble_ok in *. lia.
  - by eapply Forall_lookup_1.
Qed.

(** The events of an EIT. *)
Definition eventOf (event : Events.EITEvent) : EITEvent :=
  MkEITEvent (ev_EventID event) (unixMilli (ev_StartTime event)) (Z.quot (ev_Duration event) 1000000)
    (ev_FreeCAMode event) (eventDescriptors (ev_Descriptors event)).
Definition headerOf (eit : EIT) : EITSection :=
  MkEITSection (eit_OriginalNetworkID eit) (eit_TransportStreamID eit) (eit_ServiceID eit)
    (eit_TableID eit) (eit_LastTableID eit) (eit_SectionNumber eit) (eit_LastSectionNumber eit)
    (eit_SegmentLastSectionNumber eit) (eit_VersionNumber eit).

Lemma EITSectionFromTS_spec {O : RangeOrderOf (list Z) extendedEventGroup} eit :
  Forall (λ e, Forall descriptor_bytes (ev_Descriptors e)) (eit_Events eit) →
  EITSectionFromTS (Some eit) = Ret (Some (headerOf eit, map eventOf (eit_Events eit))).
Proof.
  intros He. unfold EITSectionFromTS.
  assert (∀ acc, foldM (λ events (event : Events.EITEvent), descriptors ← descriptorsFromTS (ev_Descriptors event);
    Ret (events ++ [MkEITEvent (ev_EventID event) (unixMilli (ev_StartTime event))
                      (Z.quot (ev_Duration event) 1000000) (ev_FreeCAMode event) descriptors])) (eit_Events eit) acc =
    Ret (acc ++ map eventOf (eit_Events eit))) as ->; [| done].
  induction He as [| e events He Hevents IH]; intros acc; cbn [foldM map]; [by rewrite app_nil_r |].
  destruct (descriptorsFromTS_spec (ev_Descriptors e) He) as [-> _]. run. by rewrite IH, <- app_assoc.
Qed.

End Total.

Lemma event_bytes e : event_ok e → Forall descriptor_bytes (ev_Descriptors e).
Proof. intros (_ & _ & _ & H1 & H2). apply Forall_and. by split. Qed.

(** ** Theorems *)

(** Whatever the bytes of an EIT section, the
    parser of its events and of their descriptors never indexes out of range and
    its loops end; every descriptor it makes is one of the seven kinds, with four
    nibbles per genre, two texts per item and every field in its range. *)
Theorem event_section_total {jis : ISO2022JP} {O : RangeOrderOf (list Z) extendedEventGroup} s :
  (∀ l s, Transform l = Some s → text_ok s) → bytes_ok s →
  ends invalid (eit ← ParseEIT s; EITSectionFromTS (Some eit)) (λ r, ∃ section events, r = Some (section, events) ∧
    Forall (λ e, word16 (ee_EventID e) ∧ Forall descriptor_ok (ee_Descriptors e)) events).
Proof.
  intros Hjis Hs. apply safe_bind. eapply safe_mono; [by apply ParseEIT_safe |]. intros eit Heit.
  rewrite EITSectionFromTS_spec; [| done | by eapply Forall_impl; [exact Heit | apply event_bytes]].
  exists (headerOf eit), (map eventOf (eit_Events eit)). split; [done |]. apply Forall_map.
  eapply Forall_impl; [exact Heit |]. intros e He. split; [apply He |].
  cbn. apply (descriptorsFromTS_spec (O := keyOrderOf) Hjis). by apply event_bytes.
Qed.

(** Its result is the reference [eventDescriptors]: the
    descriptors in order, without those that do not parse, where the first part of
    a language stands for the text of all its parts; the order in which the
    groups are visited does not matter. *)
Theorem descriptorsFromTS_reference {jis : ISO2022JP} {O : RangeOrderOf (list Z) extendedEventGroup} ds :
  (∀ l s, Transform l = Some s → text_ok s) → Forall descriptor_bytes ds →
  descriptorsFromTS ds = Ret (eventDescriptors ds).
Proof. intros Hjis Hds. by apply descriptorsFromTS_spec. Qed.

(** C37 (parseExtendedEventDescriptorPart, mergeExtendedEventParts,
    descriptorsFromTS): a text and items cut into numbered parts, wherever the
    cuts and in whatever order the parts arrive among other descriptors, come out
    as one extended event with the decoded text and items, the only one of its
    language. *)
Theorem extended_event_reassembles {jis : ISO2022JP} {O : RangeOrderOf (list Z) extendedEventGroup} lang sources items ds :
  (∀ l s, Transform l = Some s → text_ok s) → lang_ok lang → Forall partSource_ok sources → 1 ≤ len sources ≤ 16 →
  concat (map ps_items sources) = concat (map fragments items) → Forall item_whole items →
  Forall descriptor_bytes ds →
  filter (isPart lang) ds ≡ₚ imap (λ i, partBytes (Z.of_nat i) (len sources - 1) lang) sources →
  let text := textOf (concat (map ps_text sources)) in
  let event := extendedEvent lang text (wholeText items text) in
  returns (descriptorsFromTS ds) (λ out, event ∈ out ∧
    ∀ x, x ∈ out → ed_Type x = "ExtendedEvent"%string → ed_Lang x = lang → x = event).
Proof.
  intros Hjis Hlang Hok Hlen Hitems Hwhole Hds Hp text event. set (last := len sources - 1) in *.
  destruct (descriptorsFromTS_spec Hjis ds Hds) as [-> _]. cbn.
  assert (map forget (partsOf lang ds) ≡ₚ numbered last lang sources) as Hparts.
  { rewrite forget_partsOf, partsOf_filter by (eapply Forall_impl; [exact Hds | by intros ? []]).
    assert (nibble_ok last) as Hlast by (unfold nibble_ok, last; lia).
    rewrite Hp, omap_partBytes by (done || lia). unfold numbered. by rewrite fmap_imap. }
  assert (partsOf lang ds ≠ []) as Hne.
  { intros Hnil. rewrite Hnil in Hparts. apply Permutation_nil_l in Hparts. apply (f_equal length) in Hparts.
    unfold numbered in Hparts. rewrite length_imap in Hparts. unfold len in Hlen. cbn in Hparts. lia. }
  assert (mergedOf (partsOf lang ds) = event) as Hm.
  { apply (merge_numbered Hjis _ last lang sources items); try done. intros ->. rewrite len_nil in Hlen. lia. }
  pose proof (descriptorSteps_ok Hjis ds Hds) as Hsteps.
  destruct (foldM descriptorStep ds ([], ∅)) as [[out extended] | | |]; try done. destruct Hsteps as [_ _ _ G4 G5].
  split.
  - unfold eventDescriptors. apply list_elem_of_fmap. exists (inl lang). by rewrite Hm, G4.
  - intros x Hx Hty Hl. unfold eventDescriptors in Hx. apply list_elem_of_fmap in Hx as ([lang' | item] & -> & Hpl).
    + apply G4 in Hpl. rewrite (mergedOf_lang Hjis) in Hl by done. by rewrite Hl, Hm.
    + by apply G5 in Hpl as [_ Hno].
Qed.

(** ** The other descriptors *)

(** What a descriptor is made of, by kind; [rest] are bits the parsers skip. *)
Inductive descriptorSource : Type :=
| ShortSource (lang name text : list Z)
| ComponentSource (rest streamContent componentType componentTag : Z) (lang text : list Z)
| ContentSource (genres : list (Z * Z * (Z * Z)))
| AudioSource (rest streamContent componentType componentTag rest3 rest4 : Z) (main : bool) (quality rate rest5 : Z)
    (lang : list Z) (lang2 : option (list Z)) (text : list Z)
| SeriesSource (id label pattern : Z) (valid : bool) (mjd episode lastEpisode : Z) (name : list Z)
| GroupSource (ty : Z) (events : list (Z * Z)) (others : list (Z * Z * (Z * Z))).

Definition audioFlags (multilingual main : bool) (quality rate rest : Z) : Z :=
  (if multilingual then 128 else 0) + (if main then 64 else 0) + quality * 16 + rate * 2 + rest.

Definition genreBytes (g : Z * Z * (Z * Z)) : list Z :=
  let '((a, b), (c, d)) := g in [a * 16 + b; c * 16 + d].
Definition pairBytes (e : Z * Z) : list Z := be16bytes (fst e) ++ be16bytes (snd e).
Definition otherBytes (e : Z * Z * (Z * Z)) : list Z := pairBytes (fst e) ++ pairBytes (snd e).

Definition encodeDescriptor (s : descriptorSource) : Descriptor :=
  match s with
  | ShortSource lang name text =>
      whole DescriptorTagShortEvent (lang ++ len name :: name ++ len text :: text)
  | ComponentSource rest sc ct tag lang text =>
      whole DescriptorTagComponent ((rest * 16 + sc) :: ct :: tag :: lang ++ text)
  | ContentSource genres => whole DescriptorTagContent (concat (map genreBytes genres))
  | AudioSource rest sc ct tag rest3 rest4 main quality rate rest5 lang lang2 text =>
      whole DescriptorTagAudioComponent ((rest * 16 + sc) :: ct :: tag :: rest3 :: rest4 ::
        audioFlags (bool_decide (is_Some lang2)) main quality rate rest5 :: lang ++ default [] lang2 ++ text)
  | SeriesSource id label pattern valid mjd episode lastEpisode name =>
      whole DescriptorTagSeries (be16bytes id ++ (label * 16 + pattern * 2 + (if valid then 1 else 0)) :: be16bytes mjd ++
        episode / 16 :: (episode mod 16 * 16 + lastEpisode / 256) :: lastEpisode mod 256 :: name)
  | GroupSource ty events others =>
      whole DescriptorTagEventGroup ((ty * 16 + len events) :: concat (map pairBytes events) ++ concat (map otherBytes others))
  end.

Definition meaning {jis : ISO2022JP} (s : descriptorSource) : EITDescriptor :=
  match s with
  | ShortSource lang name text => shortEvent lang (textOf name) (textOf text)
  | ComponentSource _ sc ct tag lang text => component sc ct tag lang (textOf text)
  | ContentSource genres => content (map (λ '((a, b), (c, d)), [a; b; c; d]) genres)
  | AudioSource _ sc ct tag _ _ main _ rate _ lang lang2 text =>
      audioComponent sc ct tag main rate lang (default [] lang2) (textOf text)
  | SeriesSource id label pattern valid mjd episode lastEpisode name =>
      seriesDescriptor id label pattern (if valid then Some (UnixMilli (mjdTime mjd 0 0 0)) else None)
        episode lastEpisode (textOf name)
  | GroupSource ty events others =>
      eventGroup ty (map (λ '(sid, eid), MkRelated None None sid eid) events ++
        map (λ '((onid, tsid), (sid, eid)), MkRelated (Some onid) (Some tsid) sid eid) others)
  end.

Definition source_fits (s : descriptorSource) : Prop :=
  match s with
  | ShortSource lang name text => lang_ok lang ∧ bytes_ok name ∧ bytes_ok text
  | ComponentSource rest sc ct tag lang text => nibble_ok sc ∧ lang_ok lang ∧ bytes_ok text
  | ContentSource genres => Forall (λ '((a, b), (c, d)), Forall nibble_ok [a; b; c; d]) genres
  | AudioSource rest sc ct tag _ _ _ quality rate rest5 lang lang2 text =>
      nibble_ok sc ∧ 0 ≤ quality ≤ 3 ∧ 0 ≤ rate ≤ 7 ∧ 0 ≤ rest5 ≤ 1 ∧ lang_ok lang ∧ from_option lang_ok True lang2 ∧ bytes_ok text
  | SeriesSource id label pattern valid mjd episode lastEpisode name =>
      word16 id ∧ nibble_ok label ∧ 0 ≤ pattern ≤ 7 ∧ word16 mjd ∧ 0 ≤ episode < 4096 ∧ 0 ≤ lastEpisode < 4096 ∧ bytes_ok name
  | GroupSource ty events others =>
      nibble_ok ty ∧ len events ≤ 15 ∧ Forall (λ e, word16 (fst e) ∧ word16 (snd e)) events ∧
      Forall (λ e, (word16 (fst (fst e)) ∧ word16 (snd (fst e))) ∧ word16 (fst (snd e)) ∧ word16 (snd (snd e))) others ∧
      (ty ≠ 4 → ty ≠ 5 → others = [])
  end.

Section RoundTrip.
Context {jis : ISO2022JP}.
Context (jis_text : ∀ l s, Transform l = Some s → text_ok s).

Lemma caught_text b : bytes_ok b → caught (DecodeARIBString b) = Ret (Some (textOf b)).
Proof. intros Hb. by rewrite (textOf_ret jis_text). Qed.

Lemma parseShort_roundtrip lang name text : lang_ok lang → bytes_ok name → bytes_ok text →
  parseShortEventDescriptor (whole DescriptorTagShortEvent (lang ++ len name :: name ++ len text :: text)) =
  Ret (Some (shortEvent lang (textOf name) (textOf text))).
Proof.
  intros [_ Hlang] Hn Ht. pose proof (len_nonneg name). pose proof (len_nonneg text).
  unfold parseShortEventDescriptor. rewrite Data_whole. run.
  rewrite (proj2 (Z.ltb_ge _ _)) by (rewrite len_app, len_cons, len_app, len_cons; lia).
  rewrite slice_start by done. run. rewrite idx_app by done. run.
  rewrite (proj2 (Z.leb_gt _ _)) by (rewrite len_app, len_cons, len_app, len_cons; lia).
  change (lang ++ len name :: name ++ len text :: text) with (lang ++ [len name] ++ name ++ len text :: text).
  rewrite app_assoc. assert (len (lang ++ [len name]) = 4) as H4 by (rewrite len_app, len_cons, len_nil; lia).
  rewrite app_assoc, idx_app by (rewrite len_app; lia). run.
  rewrite (proj2 (Z.ltb_ge _ _)) by (rewrite !len_app, !len_cons, len_nil; lia).
  rewrite <- app_assoc. rewrite (slice_app (lang ++ [len name]) name (len text :: text) 4 (4 + len name) H4 eq_refl). run. rewrite caught_text by done. run.
  rewrite app_assoc. change (((lang ++ [len name]) ++ name) ++ len text :: text) with
    (((lang ++ [len name]) ++ name) ++ [len text] ++ text).
  rewrite app_assoc, slice_end by (rewrite ?len_app, ?len_cons, ?len_nil in *; lia). run. by rewrite caught_text.
Qed.

Lemma parseComponent_roundtrip rest sc ct tag lang text : nibble_ok sc → lang_ok lang → bytes_ok text →
  parseComponentDescriptor (whole DescriptorTagComponent ((rest * 16 + sc) :: ct :: tag :: lang ++ text)) =
  Ret (Some (component sc ct tag lang (textOf text))).
Proof.
  intros Hsc [_ Hlang] Ht. pose proof (len_nonneg text). unfold parseComponentDescriptor. rewrite Data_whole. run.
  set (b0 := rest * 16 + sc). set (data := b0 :: ct :: tag :: lang ++ text).
  assert (len data = 6 + len text) as Hl by (unfold data; rewrite !len_cons, len_app; lia).
  assert (data![3; 6] = Ret lang) as H36 by (apply (slice_app [b0; ct; tag]); [done | lia]).
  assert (data![6; len data] = Ret text) as H6
    by (apply (slice_end ([b0; ct; tag] ++ lang)); [rewrite len_app, Hlang; done | lia]).
  rewrite H6, H36, (proj2 (Z.ltb_ge _ _)) by lia. run. rewrite caught_text by done. run.
  change (data![0]) with (Ret b0 : outcome Z). change (data![1]) with (Ret ct : outcome Z).
  change (data![2]) with (Ret tag : outcome Z). run. unfold b0. by rewrite low_of.
Qed.

Lemma parseContent_roundtrip genres : Forall (λ '((a, b), (c, d)), Forall nibble_ok [a; b; c; d]) genres →
  parseContentDescriptor (whole DescriptorTagContent (concat (map genreBytes genres))) =
  Ret (Some (content (map (λ '((a, b), (c, d)), [a; b; c; d]) genres))).
Proof.
  intros Hg. unfold parseContentDescriptor. rewrite Data_whole. run. set (data := concat (map genreBytes genres)).
  assert (len data = 2 * len genres) as Hlen.
  { unfold data. clear. induction genres as [| [[a b] [c d]] genres IH]; [done |].
    cbn [map concat]. rewrite len_app, IH, len_cons. change (len (genreBytes (a, b, (c, d)))) with 2. lia. }
  rewrite Hlen, Z.mul_comm, Z.rem_mul by done. run.
  assert (data = [] ++ data ++ []) as Hd by (by rewrite app_nil_r).
  pose proof (loop_read genreBytes (λ acc g, acc ++ [(λ '((a, b), (c, d)), [a; b; c; d]) g]) id (contentBody data) data genres [] []
    [] (S (length data)) Hd) as Hloop. change (len (@nil Z)) with 0 in Hloop. rewrite Hloop; clear Hloop.
  - run. assert (∀ acc, fold_left (λ acc g, acc ++ [(λ '((a, b), (c, d)), [a; b; c; d]) g]) genres acc =
      acc ++ map (λ '((a, b), (c, d)), [a; b; c; d]) genres) as ->; [| done].
    clear. induction genres as [| g genres IH]; intros acc; cbn; [by rewrite app_nil_r | by rewrite IH, <- app_assoc].
  - intros pre [[a b] [c d]] rest acc Hin Hs _. rewrite Forall_forall in Hg. specialize (Hg _ Hin). cbn in Hg.
    rewrite !Forall_cons in Hg. destruct Hg as (Ha & Hb & Hc & Hdd & _).
    unfold contentBody. rewrite Hs. cbn [genreBytes app]. rewrite len_app, !len_cons. pose proof (len_nonneg rest).
    rewrite (proj2 (Z.ltb_lt _ _)) by lia. rewrite (idx_app pre (a * 16 + b) _ (len pre) eq_refl). run.
    change (pre ++ (a * 16 + b) :: (c * 16 + d) :: rest) with (pre ++ [a * 16 + b] ++ (c * 16 + d) :: rest).
    rewrite app_assoc, idx_app by (rewrite len_app, len_cons, len_nil; lia). run. rewrite !high_of, !low_of by done. done.
  - intros acc. unfold contentBody. rewrite (proj2 (Z.ltb_ge _ _)) by lia. done.
  - unfold len in Hlen. lia.
Qed.

(** A property of all numbers below a bound, by computation. *)
Lemma all_below (n : Z) (p : Z → bool) : forallb p (seqZ 0 n) = true → ∀ x, 0 ≤ x < n → p x = true.
Proof. intros H x Hx. rewrite forallb_forall in H. apply H, list_elem_of_In, elem_of_seqZ. lia. Qed.

Definition flagsRead (multilingual main : bool) (quality rate rest : Z) : bool :=
  let b5 := audioFlags multilingual main quality rate rest in
  eqb (Prelude.bit b5 0x80) multilingual && eqb (Prelude.bit b5 0x40) main && (Z.land (Z.shiftr b5 1) 0x07 =? rate).

Lemma flagsRead_all : forallb (λ multilingual, forallb (λ main, forallb (λ quality, forallb (λ rate,
  forallb (λ rest, flagsRead multilingual main quality rate rest) (seqZ 0 2)) (seqZ 0 8)) (seqZ 0 4)) [false; true]) [false; true] = true.
Proof. vm_compute. reflexivity. Qed.

Lemma audioFlags_read multilingual main quality rate rest : 0 ≤ quality ≤ 3 → 0 ≤ rate ≤ 7 → 0 ≤ rest ≤ 1 →
  let b5 := audioFlags multilingual main quality rate rest in
  Prelude.bit b5 0x80 = multilingual ∧ Prelude.bit b5 0x40 = main ∧ Z.land (Z.shiftr b5 1) 0x07 = rate.
Proof.
  intros Hq Hr Hx b5. assert (flagsRead multilingual main quality rate rest = true) as H.
  { pose proof flagsRead_all as H. rewrite forallb_forall in H. specialize (H multilingual).
    rewrite forallb_forall in H. specialize (H ltac:(destruct multilingual; cbn; auto) main ltac:(destruct main; cbn; auto)).
    pose proof (all_below 4 _ H quality ltac:(lia)) as H1. pose proof (all_below 8 _ H1 rate ltac:(lia)) as H2.
    exact (all_below 2 _ H2 rest ltac:(lia)). }
  apply andb_true_iff in H as [[H1%eqb_prop H2%eqb_prop]%andb_true_iff H3%Z.eqb_eq]. done.
Qed.

Lemma parseAudio_roundtrip rest sc ct tag rest3 rest4 main quality rate rest5 lang lang2 text :
  nibble_ok sc → 0 ≤ quality ≤ 3 → 0 ≤ rate ≤ 7 → 0 ≤ rest5 ≤ 1 → lang_ok lang → from_option lang_ok True lang2 → bytes_ok text →
  parseAudioComponentDescriptor (encodeDescriptor
    (AudioSource rest sc ct tag rest3 rest4 main quality rate rest5 lang lang2 text)) =
  Ret (Some (audioComponent sc ct tag main rate lang (default [] lang2) (textOf text))).
Proof.
  intros Hsc Hq Hr Hx [_ Hlang] Hlang2 Ht. pose proof (len_nonneg text). unfold encodeDescriptor, parseAudioComponentDescriptor.
  rewrite Data_whole. run. set (b0 := rest * 16 + sc). set (b5 := audioFlags (bool_decide (is_Some lang2)) main quality rate rest5).
  destruct (audioFlags_read (bool_decide (is_Some lang2)) main quality rate rest5 Hq Hr Hx) as (Hml & Hmain & Hrate). fold b5 in Hml, Hmain, Hrate.
  set (data := b0 :: ct :: tag :: rest3 :: rest4 :: b5 :: lang ++ default [] lang2 ++ text).
  assert (len data = 9 + len (default [] lang2) + len text) as Hl by (unfold data; rewrite !len_cons, !len_app; lia).
  pose proof (len_nonneg (default [] lang2)).
  change (data![0]) with (Ret b0 : outcome Z). change (data![1]) with (Ret ct : outcome Z).
  change (data![2]) with (Ret tag : outcome Z). change (data![5]) with (Ret b5 : outcome Z).
  assert (data![6; 9] = Ret lang) as H69 by
    (apply (slice_app [b0; ct; tag; rest3; rest4; b5] lang (default [] lang2 ++ text) 6 9 eq_refl); by rewrite Hlang).
  rewrite H69, (proj2 (Z.ltb_ge _ _)) by lia. run. rewrite Hml, Hmain, Hrate.
  assert (b0 = rest * 16 + sc) as Hb0 by done. clearbody b0 b5.
  destruct lang2 as [lang2 |]; cbn [from_option id] in *.
  - destruct Hlang2 as [_ Hlang2]. rewrite bool_decide_eq_true_2, (proj2 (Z.ltb_ge _ _)) by (done || lia).
    assert (data![9; 12] = Ret lang2) as H912.
    { unfold data. change (b0 :: ct :: tag :: rest3 :: rest4 :: b5 :: lang ++ lang2 ++ text) with
        ([b0; ct; tag; rest3; rest4; b5] ++ lang ++ lang2 ++ text).
      rewrite app_assoc. apply slice_app; [rewrite len_app, Hlang; done | lia]. }
    assert (data![12; len data] = Ret text) as H12.
    { rewrite Hl. unfold data. change (b0 :: ct :: tag :: rest3 :: rest4 :: b5 :: lang ++ lang2 ++ text) with
        ([b0; ct; tag; rest3; rest4; b5] ++ lang ++ lang2 ++ text).
      rewrite !app_assoc. apply slice_end; [rewrite !len_app, Hlang, Hlang2; done | lia]. }
    rewrite H912. run. rewrite H12. run. rewrite caught_text by done. run. rewrite Hb0. by rewrite low_of.
  - rewrite bool_decide_eq_false_2 by (by intros [? ?]).
    assert (data![9; len data] = Ret text) as H9.
    { rewrite Hl. apply (slice_end ([b0; ct; tag; rest3; rest4; b5] ++ lang)); [rewrite len_app, Hlang; done | rewrite len_nil; lia]. }
    rewrite H9. run. rewrite caught_text by done. run. rewrite Hb0. by rewrite low_of.
Qed.

Lemma flags2_all : forallb (λ label, forallb (λ pattern, forallb (λ valid : bool,
  let b := label * 16 + pattern * 2 + (if valid then 1 else 0) in
  eqb (Prelude.bit b 0x01) valid && (Z.shiftr b 4 =? label) && (Z.land (Z.shiftr b 1) 0x07 =? pattern)) [false; true])
  (seqZ 0 8)) (seqZ 0 16) = true.
Proof. vm_compute. reflexivity. Qed.

Lemma seriesFlags_read label pattern (valid : bool) : nibble_ok label → 0 ≤ pattern ≤ 7 →
  let b := label * 16 + pattern * 2 + (if valid then 1 else 0) in
  Prelude.bit b 0x01 = valid ∧ Z.shiftr b 4 = label ∧ Z.land (Z.shiftr b 1) 0x07 = pattern.
Proof.
  intros Hl Hp b. unfold nibble_ok in Hl. pose proof (all_below 8 _ (all_below 16 _ flags2_all label ltac:(lia)) pattern ltac:(lia)) as H.
  cbn beta in H. rewrite forallb_forall in H. specialize (H valid ltac:(destruct valid; cbn; auto)).
  apply andb_true_iff in H as [[H1%eqb_prop H2%Z.eqb_eq]%andb_true_iff H3%Z.eqb_eq]. done.
Qed.

Lemma parseSeries_roundtrip id label pattern valid mjd episode lastEpisode name :
  word16 id → nibble_ok label → 0 ≤ pattern ≤ 7 → word16 mjd → 0 ≤ episode < 4096 → 0 ≤ lastEpisode < 4096 → bytes_ok name →
  parseSeriesDescriptor (encodeDescriptor (SeriesSource id label pattern valid mjd episode lastEpisode name)) =
  Ret (Some (meaning (SeriesSource id label pattern valid mjd episode lastEpisode name))).
Proof.
  intros Hid Hlabel Hpat Hmjd Hep Hlast Hname. pose proof (len_nonneg name). unfold encodeDescriptor, meaning, parseSeriesDescriptor.
  rewrite Data_whole. run. set (b2 := label * 16 + pattern * 2 + (if valid then 1 else 0)).
  destruct (seriesFlags_read label pattern valid Hlabel Hpat) as (Hv & Hlb & Hpt). fold b2 in Hv, Hlb, Hpt.
  set (b5 := episode / 16). set (b6 := episode mod 16 * 16 + lastEpisode / 256). set (b7 := lastEpisode mod 256).
  set (data := be16bytes id ++ b2 :: be16bytes mjd ++ b5 :: b6 :: b7 :: name).
  assert (len data = 8 + len name) as Hl by (unfold data; rewrite !len_app, !len_cons, !len_app, !len_cons, !len_be16bytes; lia).
  change (data![2]) with (Ret b2 : outcome Z). change (data![5]) with (Ret b5 : outcome Z).
  change (data![6]) with (Ret b6 : outcome Z). change (data![7]) with (Ret b7 : outcome Z).
  assert (data![8; len data] = Ret name) as H8 by (apply (slice_end (be16bytes id ++ b2 :: be16bytes mjd ++ [b5; b6; b7])); [done | lia]).
  assert (data![3; 5] = Ret (be16bytes mjd)) as H35 by (apply (slice_app (be16bytes id ++ [b2]) (be16bytes mjd)); done).
  assert (get16 data 0 = Ret id) as H0 by (apply (get16_app [] id); done).
  rewrite (proj2 (Z.ltb_ge _ _)), H8 by lia. run. rewrite caught_text by done. run. rewrite H0. run.
  rewrite Hv, Hlb, Hpt.
  assert (byte_ok b5) as Hb5 by (unfold byte_ok, b5; split; [apply Z.div_pos | apply Z.div_lt_upper_bound]; lia).
  assert (0 ≤ lastEpisode / 256 < 16) as Hq by (split; [apply Z.div_pos | apply Z.div_lt_upper_bound]; lia).
  pose proof (Z.mod_pos_bound episode 16 ltac:(lia)) as Hm.
  assert (byte_ok b6) as Hb6 by (unfold byte_ok, b6; lia).
  assert (byte_ok b7) as Hb7 by (unfold byte_ok, b7; apply Z.mod_pos_bound; lia).
  rewrite episode_eq by done.
  assert (b5 * 16 + b6 / 16 = episode) as ->.
  { unfold b5, b6. rewrite Z.div_add_l, (Z.div_small (lastEpisode / 256)) by lia. pose proof (Z.div_mod episode 16). lia. }
  assert (be16 (Z.land b6 0x0f) b7 = lastEpisode) as ->.
  { rewrite be16_eq by done. unfold b6. rewrite low_of by (unfold nibble_ok; lia). pose proof (Z.div_mod lastEpisode 256). unfold b7. lia. }
  clearbody b2 b5 b6 b7. destruct valid; [| done]. rewrite H35. run. unfold parseMJDDate. rewrite len_be16bytes. run.
  pose proof (get16_app [] mjd [] 0 eq_refl Hmjd) as Hg. cbn [app] in Hg. rewrite app_nil_r in Hg. by rewrite Hg.
Qed.

Lemma groupEventBody_next count pre sid eid post i acc : word16 sid → word16 eid → i < count →
  groupEventBody (pre ++ pairBytes (sid, eid) ++ post) count (i, acc, len pre) =
  continue (i + 1, acc ++ [MkRelated None None sid eid], len (pre ++ pairBytes (sid, eid))).
Proof.
  intros H1 H2 Hi. unfold groupEventBody, pairBytes. cbn [fst snd]. rewrite (proj2 (Z.ltb_lt _ _) Hi), <- app_assoc.
  rewrite (proj2 (Z.ltb_ge _ _)) by (rewrite !len_app, !len_be16bytes; pose proof (len_nonneg post); lia).
  rewrite (get16_app pre sid _ _ eq_refl H1). run.
  rewrite (app_assoc pre), (get16_app (pre ++ be16bytes sid) eid post (len pre + 2)) by (done || by rewrite len_app). run.
  unfold continue. do 3 f_equal. rewrite !len_app, !len_be16bytes. lia.
Qed.

Lemma groupEvents_read count pre events post n acc i :
  Forall (λ e, word16 (fst e) ∧ word16 (snd e)) events → count = i + len events → (length events < n)%nat → 0 ≤ i →
  loop n (groupEventBody (pre ++ concat (map pairBytes events) ++ post) count) (i, acc, len pre) =
  Ret (Some (acc ++ map (λ '(sid, eid), MkRelated None None sid eid) events, len (pre ++ concat (map pairBytes events)))).
Proof.
  intros He. revert pre n acc i. induction He as [| [sid eid] events [H1 H2] He IH]; intros pre n acc i Hc Hn Hi;
    (destruct n as [| n]; [cbn in Hn; lia |]); rewrite loop_S.
  - rewrite len_nil in Hc. unfold groupEventBody. rewrite (proj2 (Z.ltb_ge i count)) by lia. cbn. by rewrite !app_nil_r.
  - rewrite len_cons in Hc. pose proof (len_nonneg events). cbn [map concat fst snd] in *. rewrite <- app_assoc.
    rewrite groupEventBody_next by (done || lia). unfold continue. run.
    rewrite app_assoc, IH by (lia || (cbn in Hn; lia)). by rewrite <- !app_assoc.
Qed.

Lemma otherNetwork_read pre others (data := pre ++ concat (map otherBytes others)) acc :
  Forall (λ e, (word16 (fst (fst e)) ∧ word16 (snd (fst e))) ∧ word16 (fst (snd e)) ∧ word16 (snd (snd e))) others →
  loop (S (length data)) (otherNetworkBody data) (acc, len pre) =
  Ret (acc ++ map (λ '((onid, tsid), (sid, eid)), MkRelated (Some onid) (Some tsid) sid eid) others, len data).
Proof.
  intros Ho. assert (data = pre ++ concat (map otherBytes others) ++ []) as Hd by (by rewrite app_nil_r).
  rewrite (loop_read otherBytes (λ acc e, acc ++ [(λ '((onid, tsid), (sid, eid)), MkRelated (Some onid) (Some tsid) sid eid) e])
    (λ acc, (acc, len data)) (otherNetworkBody data) data others pre [] acc _ Hd).
  - do 2 f_equal. clear. revert acc. induction others as [| e others IH]; intros acc; cbn; [by rewrite app_nil_r | by rewrite IH, <- app_assoc].
  - intros pre' [[onid tsid] [sid eid]] rest acc' Hin Hs _. rewrite Forall_forall in Ho. destruct (Ho _ Hin) as ((H1 & H2) & H3 & H4).
    cbn [fst snd] in *. rewrite Hs. unfold otherBytes, pairBytes, otherNetworkBody. cbn [fst snd]. rewrite <- !app_assoc.
    rewrite (proj2 (Z.leb_le _ _)) by (rewrite !len_app, !len_be16bytes; pose proof (len_nonneg rest); lia).
    rewrite (get16_app pre' onid _ _ eq_refl H1). run.
    rewrite (app_assoc pre'), (get16_app (pre' ++ _) tsid _ (len pre' + 2)) by (done || by rewrite len_app). run.
    rewrite (app_assoc (pre' ++ _)), (get16_app ((pre' ++ _) ++ _) sid _ (len pre' + 4))
      by (done || (rewrite !len_app, !len_be16bytes; lia)). run.
    rewrite (app_assoc ((pre' ++ _) ++ _)), (get16_app (((pre' ++ _) ++ _) ++ _) eid _ (len pre' + 6))
      by (done || (rewrite !len_app, !len_be16bytes; lia)). run.
    done.
  - intros acc'. unfold otherNetworkBody. rewrite len_nil, (proj2 (Z.leb_gt _ _)) by lia. unfold break. do 3 f_equal. lia.
  - unfold data. rewrite !length_app. pose proof (concat_length_ge otherBytes others ltac:(done)). lia.
Qed.

Lemma parseEventGroup_roundtrip ty events others : nibble_ok ty → len events ≤ 15 →
  Forall (λ e, word16 (fst e) ∧ word16 (snd e)) events →
  Forall (λ e, (word16 (fst (fst e)) ∧ word16 (snd (fst e))) ∧ word16 (fst (snd e)) ∧ word16 (snd (snd e))) others →
  (ty ≠ 4 → ty ≠ 5 → others = []) →
  parseEventGroupDescriptor (encodeDescriptor (GroupSource ty events others)) = Ret (Some (meaning (GroupSource ty events others))).
Proof.
  intros Hty Hlen He Ho Hnone. pose proof (len_nonneg events) as Hpos. unfold encodeDescriptor, meaning, parseEventGroupDescriptor.
  rewrite Data_whole. run. set (b0 := ty * 16 + len events).
  set (tail := concat (map otherBytes others)).
  rewrite (proj2 (Z.ltb_ge _ _)) by (rewrite len_cons, len_app; pose proof (len_nonneg (concat (map pairBytes events)));
    pose proof (len_nonneg tail); lia).
  change ((b0 :: concat (map pairBytes events) ++ tail)![0]) with (Ret b0 : outcome Z). run.
  assert (Z.shiftr b0 4 = ty ∧ Z.land b0 0x0f = len events) as [-> ->]
    by (unfold b0; rewrite high_of, low_of by (unfold nibble_ok; lia); done).
  change (b0 :: concat (map pairBytes events) ++ tail) with ([b0] ++ concat (map pairBytes events) ++ tail).
  pose proof (groupEvents_read (len events) [b0] events tail 17 [] 0 He ltac:(lia) ltac:(unfold len in *; lia) ltac:(lia)) as Hloop.
  change (len [b0]) with 1 in Hloop. rewrite Hloop. run. destruct ((ty =? 4) || (ty =? 5)) eqn:E.
  - rewrite app_assoc. unfold tail. rewrite otherNetwork_read by done. run. by rewrite Z.eqb_refl.
  - bools. rewrite Hnone by done. by rewrite app_nil_r.
Qed.

End RoundTrip.

(** A short event, component, content, audio component,
    series or event group descriptor laid out as the standard has it is read back
    field by field, whatever the reserved bits hold. *)
Theorem event_descriptor_roundtrip {jis : ISO2022JP} s :
  (∀ l s, Transform l = Some s → text_ok s) → source_fits s →
  descriptorFromTS (encodeDescriptor s) = Ret (Some (meaning s)).
Proof.
  intros Hjis Hs. destruct s; cbn in Hs; destruct_and?; unfold descriptorFromTS;
    cbn [encodeDescriptor]; unfold Tag; cbn [idx]; run.
  - by apply (parseShort_roundtrip Hjis).
  - by apply (parseComponent_roundtrip Hjis).
  - by apply parseContent_roundtrip.
  - by apply (parseAudio_roundtrip Hjis).
  - by apply (parseSeries_roundtrip Hjis).
  - by apply parseEventGroup_roundtrip.
Qed.

(** ** Witnesses *)

Definition anyText : ISO2022JP := λ _, Some [0x3042].

Lemma anyText_ok : ∀ l s, @Transform anyText l = Some s → text_ok s.
Proof. intros l s [= <-]. by apply runes_okb_spec. Qed.

(** A text in three parts, which arrive out of order among others. *)
Definition sampleLang : list Z := [0x6a; 0x70; 0x6e].
Definition latin (s : list Z) : list Z := [0x0e; 0x89] ++ s.
Definition sampleParts : list partSource :=
  [MkPartSource [(latin [0x41], latin [0x61; 0x62])] []; MkPartSource [([], [0x63])] (latin [0x58]); MkPartSource [(latin [0x42], latin [0x64])] [0x59]].
Definition sampleItems : list (list Z * list (list Z)) :=
  [(latin [0x41], [latin [0x61; 0x62]; [0x63]]); (latin [0x42], [latin [0x64]])].
Definition samplePart (i : Z) : Descriptor :=
  partBytes i 2 sampleLang (default (MkPartSource [] []) (sampleParts !! Z.to_nat i)).
Definition sampleContent : descriptorSource := ContentSource [((1, 2), (3, 4))].
Definition sampleDescriptors : list Descriptor :=
  [samplePart 2; encodeDescriptor sampleContent; samplePart 0; samplePart 1].

Definition descriptor_bytesb (d : Descriptor) : bool := desc_okb d && bytes_okb d.
Lemma descriptors_bytesb_spec ds : forallb descriptor_bytesb ds = true → Forall descriptor_bytes ds.
Proof.
  intros H. apply Forall_forall. intros d Hd. rewrite forallb_forall in H. apply list_elem_of_In in Hd.
  apply H in Hd. apply andb_true_iff in Hd as [H1 H2]. split; [by apply desc_okb_spec | by apply bytes_okb_spec].
Qed.

Lemma sampleDescriptors_bytes : Forall descriptor_bytes sampleDescriptors.
Proof. apply descriptors_bytesb_spec. vm_compute. reflexivity. Qed.

Lemma event_descriptor_roundtrip_witness :
  source_fits sampleContent ∧
  descriptorFromTS (jis := anyText) (encodeDescriptor sampleContent) = Ret (Some (content [[1; 2; 3; 4]])).
Proof.
  assert (source_fits sampleContent) as H by (cbn; repeat constructor; done).
  split; [exact H |]. exact (event_descriptor_roundtrip (jis := anyText) sampleContent anyText_ok H).
Defined.

Lemma descriptorsFromTS_reference_witness :
  descriptorsFromTS (jis := anyText) (O := keyOrderOf) sampleDescriptors = Ret (eventDescriptors (jis := anyText) sampleDescriptors) ∧
  eventDescriptors (jis := anyText) sampleDescriptors =
    [extendedEvent sampleLang [0x58; 0x59] [[[0x41]; [0x61; 0x62; 0x63]]; [[0x42]; [0x64]]]; content [[1; 2; 3; 4]]].
Proof.
  split; [exact (descriptorsFromTS_reference (jis := anyText) (O := keyOrderOf) _ anyText_ok sampleDescriptors_bytes) |].
  vm_compute. reflexivity.
Defined.

Lemma extended_event_reassembles_witness :
  returns (descriptorsFromTS (jis := anyText) (O := keyOrderOf) sampleDescriptors)
    (λ out, extendedEvent sampleLang [0x58; 0x59] [[[0x41]; [0x61; 0x62; 0x63]]; [[0x42]; [0x64]]] ∈ out).
Proof.
  eapply safe_mono.
  - apply (extended_event_reassembles (jis := anyText) (O := keyOrderOf) sampleLang sampleParts sampleItems sampleDescriptors anyText_ok).
    + split; [apply bytes_okb_spec; vm_compute; reflexivity | reflexivity].
    + repeat constructor; try (by apply bytes_okb_spec); vm_compute; done.
    + vm_compute. by split.
    + reflexivity.
    + repeat constructor; done.
    + exact sampleDescriptors_bytes.
    + assert (filter (isPart sampleLang) sampleDescriptors = [samplePart 2; samplePart 0; samplePart 1]) as ->
        by (vm_compute; reflexivity).
      change (imap (λ i, partBytes (Z.of_nat i) (len sampleParts - 1) sampleLang) sampleParts) with
        [samplePart 0; samplePart 1; samplePart 2].
      apply (Permutation_cons_append [samplePart 0; samplePart 1] (samplePart 2)).
  - intros out [H _]. vm_compute in H |- *. exact H.
Defined.

Lemma event_section_total_witness :
  let s := eitSection 0x50 5 0 1 1 0x50 0x418 0x7fe1 0x7fe1 sample_events in
  ends invalid (eit ← ParseEIT s; EITSectionFromTS (jis := anyText) (O := keyOrderOf) (Some eit)) (λ r, ∃ section events,
    r = Some (section, events) ∧ Forall (λ e, word16 (ee_EventID e) ∧ Forall descriptor_ok (ee_Descriptors e)) events).
Proof.
  intros s. apply (event_section_total (jis := anyText) (O := keyOrderOf) s anyText_ok).
  apply bytes_okb_spec. vm_compute. reflexivity.
Defined.
