(* ===== verification/Programs.v ===== *)
(** * The programs of an EPG snapshot ([internal/epg/eit.go], [snapshot.go],
      [snapshot_program_build.go], the data of [internal/program/program.go])

    [Observe] stores the programs of every schedule section under its table and
    number and rebuilds the programs of the service from all of them: the basic
    tables give the programs, the extended tables add to them.

    The programs are built and merged as values; only their [Extended] maps are
    shared between copies, so these live in a store and a program holds an
    address ([None] for a nil map).  [Program] is parametric in what stands for
    the map, so that the same record describes a program with its map. *)

From S2P Require Import Prelude Crc32 AribTables Aribstr Descriptors Psi Events Schedule EventDescriptors.

(** ** The code: [internal/program/program.go] *)

Record Genre : Type := MkGenre {
  Lv1 : Z;
  Lv2 : Z;
  Un1 : Z;
  Un2 : Z
}.

Record Video : Type := MkVideo {
  v_StreamContent : Z;
  v_ComponentType : Z
}.

Record Audio : Type := MkAudio {
  a_ComponentType : Z;
  a_ComponentTag : option Z;
  a_IsMain : option bool;
  a_SamplingRate : option Z;
  a_Langs : list (list Z)
}.

Definition RelatedItemType : Type := string.
Definition RelatedItemTypeShared : RelatedItemType := "shared".
Definition RelatedItemTypeRelay : RelatedItemType := "relay".
Definition RelatedItemTypeMovement : RelatedItemType := "movement".

Record RelatedItem : Type := MkRelatedItem {
  ri_Type : RelatedItemType;
  ri_NetworkID : option Z;
  ri_TransportStreamID : option Z;
  ri_ServiceID : Z;
  ri_EventID : Z
}.

Record Series : Type := MkSeries {
  s_ID : Z;
  s_Repeat : Z;
  s_Pattern : Z;
  s_ExpiresAt : option Z;
  s_Episode : Z;
  s_LastEpisode : Z;
  s_Name : list Z
}.

Record Program {M : Type} : Type := MkProgram {
  p_ID : Z;
  p_EventID : Z;
  p_ServiceID : Z;
  p_NetworkID : Z;
  p_StartAt : Z;
  p_Duration : Z;
  p_IsFree : bool;
  p_Name : list Z;
  p_Description : list Z;
  p_Genres : list Genre;
  p_Video : option Video;
  p_Audios : list Audio;
  p_Extended : M;
  p_RelatedItems : list RelatedItem;
  p_Series : option Series
}.
Arguments Program : clear implicits.

(** [int64(networkID)*10000000000 + int64(serviceID)*100000 + int64(eventID)] *)
Definition ProgramID (networkID serviceID eventID : Z) : Z :=
  networkID * 10000000000 + serviceID * 100000 + eventID.

(** ** The store of maps *)

(** A [map[string]string]. *)
Abbreviation textMap := (gmap (list Z) (list Z)).

Record store : Type := MkStore {
  st_maps : gmap nat textMap;
  st_next : nat
}.

Definition emptyStore : store := MkStore ∅ 0.

(** The contents of a map that may be nil. *)
Definition contents (h : store) (m : option nat) : textMap :=
  match m with Some a => default ∅ (st_maps h !! a) | None => ∅ end.

(** [make(map[string]string)] with the entries of [m]. *)
Definition alloc (m : textMap) (h : store) : nat * store :=
  (st_next h, MkStore (<[st_next h := m]> (st_maps h)) (S (st_next h))).

(** [m[key] = value] for a map that is not nil. *)
Definition setKey (a : nat) (key value : list Z) (h : store) : store :=
  MkStore (alter (λ m, <[key := value]> m) a (st_maps h)) (st_next h).

Section Fields.
Context {M : Type}.

Definition setNames (name description : list Z) (p : Program M) : Program M :=
  MkProgram M (p_ID p) (p_EventID p) (p_ServiceID p) (p_NetworkID p) (p_StartAt p) (p_Duration p) (p_IsFree p)
    name description (p_Genres p) (p_Video p) (p_Audios p) (p_Extended p) (p_RelatedItems p) (p_Series p).
Definition setGenres (genres : list Genre) (p : Program M) : Program M :=
  MkProgram M (p_ID p) (p_EventID p) (p_ServiceID p) (p_NetworkID p) (p_StartAt p) (p_Duration p) (p_IsFree p)
    (p_Name p) (p_Description p) genres (p_Video p) (p_Audios p) (p_Extended p) (p_RelatedItems p) (p_Series p).
Definition setVideo (video : option Video) (p : Program M) : Program M :=
  MkProgram M (p_ID p) (p_EventID p) (p_ServiceID p) (p_NetworkID p) (p_StartAt p) (p_Duration p) (p_IsFree p)
    (p_Name p) (p_Description p) (p_Genres p) video (p_Audios p) (p_Extended p) (p_RelatedItems p) (p_Series p).
Definition setAudios (audios : list Audio) (p : Program M) : Program M :=
  MkProgram M (p_ID p) (p_EventID p) (p_ServiceID p) (p_NetworkID p) (p_StartAt p) (p_Duration p) (p_IsFree p)
    (p_Name p) (p_Description p) (p_Genres p) (p_Video p) audios (p_Extended p) (p_RelatedItems p) (p_Series p).
Definition setRelatedItems (items : list RelatedItem) (p : Program M) : Program M :=
  MkProgram M (p_ID p) (p_EventID p) (p_ServiceID p) (p_NetworkID p) (p_StartAt p) (p_Duration p) (p_IsFree p)
    (p_Name p) (p_Description p) (p_Genres p) (p_Video p) (p_Audios p) (p_Extended p) items (p_Series p).
Definition setSeries (series : option Series) (p : Program M) : Program M :=
  MkProgram M (p_ID p) (p_EventID p) (p_ServiceID p) (p_NetworkID p) (p_StartAt p) (p_Duration p) (p_IsFree p)
    (p_Name p) (p_Description p) (p_Genres p) (p_Video p) (p_Audios p) (p_Extended p) (p_RelatedItems p) series.

(** [p] with another map, of another kind. *)
Definition withExtended {N} (m : N) (p : Program M) : Program N :=
  MkProgram N (p_ID p) (p_EventID p) (p_ServiceID p) (p_NetworkID p) (p_StartAt p) (p_Duration p) (p_IsFree p)
    (p_Name p) (p_Description p) (p_Genres p) (p_Video p) (p_Audios p) m (p_RelatedItems p) (p_Series p).

End Fields.

(** ** The code: [eit.go] *)

Definition samplingRate (code : Z) : Z :=
  if code =? 1 then 16000 else if code =? 2 then 22050 else if code =? 3 then 24000
  else if code =? 5 then 32000 else if code =? 6 then 44100 else if code =? 7 then 48000 else code.

Definition descriptorLangs (descriptor : EITDescriptor) : list (list Z) :=
  (if bool_decide (ed_Lang descriptor = []) then [] else [ed_Lang descriptor]) ++
  (if bool_decide (ed_Lang2 descriptor = []) then [] else [ed_Lang2 descriptor]).

(** The genres of the nibbles; a list shorter than four is skipped. *)
Definition genresOf (nibbles : list (list Z)) : list Genre :=
  omap (λ nibble, match nibble with lv1 :: lv2 :: un1 :: un2 :: _ => Some (MkGenre lv1 lv2 un1 un2) | _ => None end) nibbles.

Definition groupTypeOf (code : option Z) : RelatedItemType :=
  match code with
  | Some 1 => RelatedItemTypeShared
  | Some 2 => RelatedItemTypeRelay
  | Some 3 => RelatedItemTypeMovement
  | _ => ""
  end.

Definition applyOther {M} (item : Program M) (descriptor : EITDescriptor) : Program M :=
  let ty := ed_Type descriptor in
  if String.eqb ty "ShortEvent" then setNames (ed_EventName descriptor) (ed_Text descriptor) item
  else if String.eqb ty "Content" then setGenres (p_Genres item ++ genresOf (ed_Nibbles descriptor)) item
  else if String.eqb ty "Component" then
    setVideo (Some (MkVideo (default 0 (ed_StreamContent descriptor)) (default 0 (ed_ComponentType descriptor)))) item
  else if String.eqb ty "AudioComponent" then
    let audio := MkAudio (default 0 (ed_ComponentType descriptor)) (ed_ComponentTag descriptor)
                   (ed_MainComponent descriptor) (samplingRate <$> ed_SamplingRate descriptor) (descriptorLangs descriptor) in
    setAudios (p_Audios item ++ [audio]) item
  else if String.eqb ty "EventGroup" then
    let groupType := groupTypeOf (ed_GroupType descriptor) in
    setRelatedItems (p_RelatedItems item ++
      map (λ event, MkRelatedItem groupType (re_OriginalNetworkID event) (re_TransportStreamID event)
                      (re_ServiceID event) (re_EventID event)) (ed_Events descriptor)) item
  else if String.eqb ty "Series" then
    setSeries (Some (MkSeries (default 0 (ed_SeriesID descriptor)) (default 0 (ed_RepeatLabel descriptor))
      (default 0 (ed_ProgramPattern descriptor)) (ed_ExpireDate descriptor) (default 0 (ed_EpisodeNumber descriptor))
      (default 0 (ed_LastEpisodeNumber descriptor)) (ed_SeriesName descriptor))) item
  else item.

(** [item.Extended[field[0]] = field[1]] for the fields of two texts. *)
Definition setFields (a : nat) (items : list (list (list Z))) (h : store) : store :=
  fold_left (λ h field, match field with key :: value :: _ => setKey a key value h | _ => h end) items h.

Definition applyDescriptor (item : Program (option nat)) (descriptor : EITDescriptor) (h : store)
    : Program (option nat) * store :=
  if String.eqb (ed_Type descriptor) "ExtendedEvent" then
    let '(a, h) := match p_Extended item with Some a => (a, h) | None => alloc ∅ h end in
    (withExtended (Some a) item, setFields a (ed_Items descriptor) h)
  else (applyOther item descriptor, h).

(** An iteration of the loop of [Programs]. *)
Definition eventProgram (s : EITSection) (event : EITEvent) (h : store) : Program (option nat) * store :=
  let item := MkProgram _ (ProgramID (OriginalNetworkID s) (ServiceID s) (ee_EventID event)) (ee_EventID event)
                (ServiceID s) (OriginalNetworkID s) (ee_StartTime event) (ee_Duration event)
                (negb (ee_Scrambled event)) [] [] [] None [] None [] None in
  fold_left (λ '(item, h) descriptor, applyDescriptor item descriptor h) (ee_Descriptors event) (item, h).

(** [EITSection.Programs] *)
Definition sectionPrograms (s : EITSection) (events : list EITEvent) (h : store) : list (Program (option nat)) * store :=
  fold_left (λ '(programs, h) event, let '(item, h) := eventProgram s event h in (programs ++ [item], h)) events ([], h).

(** ** The code: [snapshot_program_build.go] *)

(** An empty map that is not nil is not copied: the copy shares it. *)
Definition cloneProgram (src : Program (option nat)) (h : store) : Program (option nat) * store :=
  let m := contents h (p_Extended src) in
  if bool_decide (m = ∅) then (src, h) else let '(a, h) := alloc m h in (withExtended (Some a) src, h).

(** [if empty(dst) && !empty(src) { dst = src }], for texts and slices and for
    pointers. *)
Definition orList {A} (dst src : list A) : list A := match dst with [] => src | _ => dst end.
Definition orOption {A} (dst src : option A) : option A := match dst with None => src | _ => dst end.

Definition mergeOther {M N} (dst : Program M) (src : Program N) (updateTiming : bool) : Program M :=
  MkProgram M (p_ID dst) (p_EventID dst) (p_ServiceID dst) (p_NetworkID dst)
    (if updateTiming && negb (p_StartAt src =? 0) then p_StartAt src else p_StartAt dst)
    (if updateTiming && negb (p_Duration src =? 0) then p_Duration src else p_Duration dst)
    (p_IsFree src) (orList (p_Name dst) (p_Name src)) (orList (p_Description dst) (p_Description src))
    (orList (p_Genres dst) (p_Genres src)) (orOption (p_Video dst) (p_Video src)) (orList (p_Audios dst) (p_Audios src))
    (p_Extended dst) (orList (p_RelatedItems dst) (p_RelatedItems src)) (orOption (p_Series dst) (p_Series src)).

(** The loop over the entries of [src.Extended]. *)
Definition fillKey (a : nat) (h : store) (e : list Z * list Z) : store :=
  let '(key, value) := e in
  if bool_decide (default [] (contents h (Some a) !! key) = []) && negb (bool_decide (value = [])) then setKey a key value h else h.

Section Merge.
Context {O : RangeOrderOf (list Z) (list Z)}.

Definition mergeProgram (dst src : Program (option nat)) (updateTiming : bool) (h : store)
    : Program (option nat) * store :=
  let dst := mergeOther dst src updateTiming in
  let m := contents h (p_Extended src) in
  if bool_decide (m = ∅) then (dst, h)
  else
    let '(a, h) := match p_Extended dst with Some a => (a, h) | None => alloc ∅ h end in
    (withExtended (Some a) dst, fold_left (fillKey a) (rangeOf m) h).

Definition sortInts : list Z → list Z := merge_sort Z.le.
(** The keys of a map, sorted. *)
Definition sortedKeys {A} (m : gmap Z A) : list Z := sortInts (map fst (map_to_list m)).

Record snapshotTable : Type := MkTable {
  tb_version : Z;
  tb_hasVersion : bool;
  tb_lastSection : Z;
  tb_segmentLast : gmap Z Z;
  tb_sections : gset Z;
  tb_sectionPrograms : gmap Z (list (Program (option nat)));
  tb_sectionVersions : gmap Z Z
}.

(** The programs being built, the extended items to merge and the store. *)
Definition building : Type := gmap Z (Program (option nat)) * gmap Z (list (Program (option nat))) * store.

Definition buildItem (tableID : Z) (st : building) (item : Program (option nat)) : building :=
  let '(programs, extended, h) := st in
  let id := p_ID item in
  if isScheduleBasic tableID then
    match programs !! id with
    | None => let '(p, h) := cloneProgram item h in (<[id := p]> programs, extended, h)
    | Some dst => let '(p, h) := mergeProgram dst item true h in (<[id := p]> programs, extended, h)
    end
  else if isScheduleExtended tableID then
    (programs, <[id := default [] (extended !! id) ++ [item]]> extended, h)
  else let '(p, h) := cloneProgram item h in (<[id := p]> programs, extended, h).

(** The items of all sections of all tables, in the order they are visited. *)
Definition tableItems (tables : gmap Z snapshotTable) : list (Z * Program (option nat)) :=
  flat_map (λ tableID, match tables !! tableID with
    | None => []
    | Some table => flat_map (λ n, map (pair tableID) (default [] (tb_sectionPrograms table !! n)))
                      (sortedKeys (tb_sectionPrograms table))
    end) (sortedKeys tables).

Definition mergeExtended (extended : gmap Z (list (Program (option nat))))
    (st : gmap Z (Program (option nat)) * store) (id : Z) : gmap Z (Program (option nat)) * store :=
  fold_left (λ '(programs, h) item,
    match programs !! id with
    | Some dst => let '(p, h) := mergeProgram dst item false h in (<[id := p]> programs, h)
    | None => (programs, h)
    end) (default [] (extended !! id)) st.

(** The new [service.programs]. *)
Definition rebuildServicePrograms (tables : gmap Z snapshotTable) (h : store) : gmap Z (Program (option nat)) * store :=
  let '(programs, extended, h) :=
    fold_left (λ st e, buildItem (fst e) st (snd e)) (tableItems tables) (∅, ∅, h) in
  fold_left (mergeExtended extended) (sortedKeys programs) (programs, h).

(** ** The code: [snapshot.go] *)

(** The network, service and transport stream. *)
Definition ServiceKey : Type := Z * Z * Z.

Record snapshotService : Type := MkService {
  sv_tables : gmap Z snapshotTable;
  sv_programs : gmap Z (Program (option nat));
  sv_lastTableID : gmap Z Z;
  sv_readyGroups : gmap Z snapshotReadyGroup
}.

Record Snapshot : Type := MkSnapshot {
  sn_services : gmap ServiceKey snapshotService;
  sn_lastProgress : option Z
}.

Definition NewSnapshot : Snapshot := MkSnapshot ∅ None.

Definition newService : snapshotService := MkService ∅ ∅ ∅ ∅.
Definition newTable : snapshotTable := MkTable 0 false 0 ∅ ∅ ∅ ∅.

Definition keyOf (s : EITSection) : ServiceKey := (OriginalNetworkID s, ServiceID s, TransportStreamID s).

(** A section is given with its events; [now] is [now.UnixMilli()]. *)
Definition Observe (s : Snapshot) (section : EITSection) (events : list EITEvent) (now : Z) (h : store)
    : outcome (Snapshot * bool * store) :=
  if (TableID section <? 0x50) || (0x6f <? TableID section) then Ret (s, false, h)
  else
    let key := keyOf section in
    let service := default newService (sn_services s !! key) in
    let table := default newTable (sv_tables service !! TableID section) in
    let previousVersion := tb_sectionVersions table !! SectionNumber section in
    let changed := negb (bool_decide (previousVersion = Some (VersionNumber section))) in
    let '(programs, h) := sectionPrograms section events h in
    let number := SectionNumber section in
    let table := MkTable (VersionNumber section) true (LastSectionNumber section)
                   (<[Z.quot number 8 := SegmentLastSectionNumber section]> (tb_segmentLast table))
                   ({[number]} ∪ tb_sections table)
                   (<[number := programs]> (tb_sectionPrograms table))
                   (<[number := VersionNumber section]> (tb_sectionVersions table)) in
    let tables := <[TableID section := table]> (sv_tables service) in
    let '(programs, h) := rebuildServicePrograms tables h in
    let lastTableID := <[Z.land (TableID section) 0xf8 := LastTableID section]> (sv_lastTableID service) in
    '(groups, readyChanged) ← observeReady section now (sv_readyGroups service);
    let service := MkService tables programs lastTableID groups in
    let progress := changed || readyChanged in
    Ret (MkSnapshot (<[key := service]> (sn_services s)) (if progress then Some now else sn_lastProgress s), progress, h).

End Merge.

(** [Snapshot.Programs] *)
Definition Programs (s : Snapshot) (key : ServiceKey) : list (Program (option nat)) :=
  match sn_services s !! key with
  | None => []
  | Some service => omap (λ id, sv_programs service !! id) (sortedKeys (sv_programs service))
  end.

Definition Observed (s : Snapshot) (key : ServiceKey) : bool :=
  match sn_services s !! key with
  | None => false
  | Some service => existsb (λ e, isScheduleBasic (fst e)) (map_to_list (sv_tables service))
  end.

(** [duration] in milliseconds. *)
Definition StableFor (s : Snapshot) (now duration : Z) : bool :=
  match sn_lastProgress s with None => false | Some t => duration <=? now - t end.

(** ** Programs with their maps *)

Definition view (h : store) (p : Program (option nat)) : Program textMap := withExtended (contents h (p_Extended p)) p.

(** The addresses below [st_next] are those of maps. *)
Definition store_ok (h : store) : Prop := ∀ a, is_Some (st_maps h !! a) ↔ (a < st_next h)%nat.
Definition ptr_ok (h : store) (m : option nat) : Prop := match m with Some a => (a < st_next h)%nat | None => True end.

(** The map of a program is nil or has an entry. *)
Definition clean (h : store) (p : Program (option nat)) : Prop :=
  match p_Extended p with Some a => contents h (Some a) ≠ ∅ | None => True end.

(** Nothing changed but the maps in [A] and new ones. *)
Record keeps (A : nat → Prop) (h h' : store) : Prop := {
  kp_ok : store_ok h';
  kp_next : (st_next h ≤ st_next h')%nat;
  kp_maps : ∀ a, (a < st_next h)%nat → ¬ A a → st_maps h' !! a = st_maps h !! a
}.

Lemma keeps_refl A h : store_ok h → keeps A h h.
Proof. done. Qed.

Lemma keeps_trans A h1 h2 h3 : keeps A h1 h2 → keeps A h2 h3 → keeps A h1 h3.
Proof.
  intros [A1 A2 A3] [B1 B2 B3]. split; [done | lia |]. intros a Ha HA. rewrite B3, A3; (done || lia).
Qed.

Lemma keeps_mono (A B : nat → Prop) h h' : keeps A h h' → (∀ a, (a < st_next h)%nat → A a → B a) → keeps B h h'.
Proof. intros [H1 H2 H3] HAB. split; [done | done |]. intros a Ha HB. apply H3; [done |]. intros HA. by apply HB, HAB. Qed.

Lemma keeps_contents A h h' m : keeps A h h' → ptr_ok h m → (∀ a, m = Some a → ¬ A a) → contents h' m = contents h m.
Proof. intros [_ _ H] Hm HA. destruct m as [a |]; [| done]. cbn in *. by rewrite H by auto. Qed.

Lemma alloc_keeps A m h : store_ok h → keeps A h (snd (alloc m h)).
Proof.
  intros Hok. split; cbn [alloc snd st_next st_maps].
  - intros a. cbn [st_next st_maps]. destruct (decide (st_next h = a)) as [<- | Hne].
    + rewrite lookup_insert_eq. split; [lia | done].
    + rewrite lookup_insert_ne, (Hok a) by done. lia.
  - lia.
  - intros a Ha _. apply lookup_insert_ne. lia.
Qed.

Lemma alloc_contents m h : contents (snd (alloc m h)) (Some (st_next h)) = m.
Proof. cbn. by rewrite lookup_insert_eq. Qed.

Lemma setKey_keeps a key value h : store_ok h → keeps (eq a) h (setKey a key value h).
Proof.
  intros Hok. split; [| done |].
  - intros b. cbn. rewrite <- (Hok b). rewrite lookup_alter. destruct (decide (a = b)) as [-> |]; [| done]. by rewrite fmap_is_Some.
  - intros b _ Hb. cbn. by rewrite lookup_alter_ne.
Qed.

Lemma setKey_contents a key value h : store_ok h → (a < st_next h)%nat →
  contents (setKey a key value h) (Some a) = <[key := value]> (contents h (Some a)).
Proof. intros Hok [m Hm]%Hok. cbn. by rewrite lookup_alter_eq, Hm. Qed.

(** [m1] with the texts of [m2] where it has none. *)
Definition fillMap (m1 m2 : textMap) : textMap :=
  merge (λ x y, match y with Some v => if bool_decide (default [] x = []) && negb (bool_decide (v = [])) then Some v else x
                | None => x end) m1 m2.

Lemma fillMap_lookup m1 m2 k :
  default [] (fillMap m1 m2 !! k) = orList (default [] (m1 !! k)) (default [] (m2 !! k)).
Proof.
  unfold fillMap. rewrite lookup_merge. destruct (m1 !! k) as [x |], (m2 !! k) as [y |]; cbn; try done.
  - destruct x; cbn; [| done]. by destruct y.
  - by destruct x.
  - by destruct y.
Qed.

Lemma fillMap_empty m : fillMap m ∅ = m.
Proof. apply map_eq. intros k. unfold fillMap. rewrite lookup_merge, lookup_empty. by destruct (m !! k). Qed.

Section MergeSpec.
Context {O : RangeOrderOf (list Z) (list Z)}.

Lemma fillKeys_ok l a h : store_ok h → (a < st_next h)%nat → NoDup l.*1 →
  let h' := fold_left (fillKey a) l h in
  keeps (eq a) h h' ∧ contents h' (Some a) = fillMap (contents h (Some a)) (list_to_map l).
Proof.
  intros Hok Ha Hnd. revert h Hok Ha. induction l as [| [k v] l IH]; intros h Hok Ha; cbn [fold_left].
  - split; [by apply keeps_refl | by rewrite fillMap_empty].
  - cbn [fmap list_fmap fst] in Hnd. apply NoDup_cons in Hnd as [Hk Hnd].
    assert (keeps (eq a) h (fillKey a h (k, v)) ∧
      contents (fillKey a h (k, v)) (Some a) = fillMap (contents h (Some a)) {[k := v]}) as [Hkeep Hc].
    { cbn [fillKey]. assert (∀ m, fillMap m {[k := v]} =
        if bool_decide (default [] (m !! k) = []) && negb (bool_decide (v = [])) then <[k := v]> m else m) as ->.
      { intros m. apply map_eq. intros j. unfold fillMap. rewrite lookup_merge. destruct (decide (k = j)) as [<- | Hne].
        - rewrite lookup_singleton_eq. destruct (m !! k) as [x |] eqn:E; cbn; repeat case_bool_decide; cbn;
            rewrite ?lookup_insert_eq, ?E; done.
        - rewrite lookup_singleton_ne by done. destruct (_ && _); rewrite ?lookup_insert_ne by done; by destruct (m !! j). }
      destruct (_ && _); [split; [by apply setKey_keeps | by apply setKey_contents] | by split; [apply keeps_refl |]]. }
    destruct (IH Hnd (fillKey a h (k, v))) as [H1 H2]; [apply Hkeep | pose proof (kp_next _ _ _ Hkeep); lia |].
    split; [by eapply keeps_trans |]. rewrite H2, Hc. apply map_eq. intros j. unfold fillMap. rewrite !lookup_merge.
    cbn [list_to_map foldr]. destruct (decide (k = j)) as [<- | Hne].
    + rewrite lookup_singleton_eq, (not_elem_of_list_to_map_1 l k Hk), lookup_insert_eq.
      destruct (contents h (Some a) !! k); cbn; repeat case_bool_decide; done.
    + rewrite lookup_singleton_ne, lookup_insert_ne by done. by destruct (contents h (Some a) !! j), (list_to_map l !! j).
Qed.

(** Merging programs that own their maps. *)
Definition mergeWhole (updateTiming : bool) (dst src : Program textMap) : Program textMap :=
  withExtended (fillMap (p_Extended dst) (p_Extended src)) (mergeOther dst src updateTiming).

(** The map of a result: one there was or a new one. *)
Definition newer (h h' : store) (old m : option nat) : Prop :=
  m = old ∨ ∃ a, m = Some a ∧ (st_next h ≤ a < st_next h')%nat.

Lemma mergeProgram_ok dst src b h : store_ok h → ptr_ok h (p_Extended dst) →
  let '(p, h') := mergeProgram dst src b h in
  keeps (λ a, p_Extended dst = Some a) h h' ∧ view h' p = mergeWhole b (view h dst) (view h src) ∧ p_ID p = p_ID dst ∧
  newer h h' (p_Extended dst) (p_Extended p).
Proof.
  intros Hok Hd. unfold mergeProgram, mergeWhole, view. cbn [p_Extended withExtended mergeOther].
  case_bool_decide as Hm.
  - split_and!; [by apply keeps_refl | | done | by left]. rewrite Hm, fillMap_empty. done.
  - set (m := contents h (p_Extended src)) in *.
    assert (∀ a h1, store_ok h1 → (a < st_next h1)%nat →
      let h' := fold_left (fillKey a) (rangeOf m) h1 in
      keeps (eq a) h1 h' ∧ contents h' (Some a) = fillMap (contents h1 (Some a)) m) as Hfill.
    { intros a h1 H1 Ha. destruct (fillKeys_ok (rangeOf m) a h1 H1 Ha) as [K C].
      - rewrite rangeOf_perm. apply NoDup_fst_map_to_list.
      - split; [exact K |]. rewrite C. f_equal.
        rewrite (list_to_map_proper _ (map_to_list m)), list_to_map_to_list; [done | | apply rangeOf_perm].
        rewrite rangeOf_perm. apply NoDup_fst_map_to_list. }
    destruct (p_Extended dst) as [a |] eqn:E; cbn [alloc p_Extended withExtended mergeOther].
    + destruct (Hfill a h Hok Hd) as [K C]. split_and!; [| by rewrite C | done | by left].
      eapply keeps_mono; [exact K | by intros ? _ ->].
    + pose proof (alloc_keeps (eq (st_next h)) ∅ h Hok) as K1.
      destruct (Hfill (st_next h) (snd (alloc ∅ h))) as [K C]; [apply K1 | cbn; lia |].
      rewrite alloc_contents in C. split_and!; [| | done |].
      * eapply keeps_mono; [by eapply keeps_trans |]. intros a Ha <-. lia.
      * change (MkStore (<[st_next h := ∅]> (st_maps h)) (S (st_next h))) with (snd (alloc ∅ h)). by rewrite C.
      * right. exists (st_next h). split; [done |]. pose proof (kp_next _ _ _ K). cbn in *. lia.
Qed.

Lemma cloneProgram_ok p h : store_ok h → clean h p →
  let '(p', h') := cloneProgram p h in
  keeps (λ _, False) h h' ∧ view h' p' = view h p ∧ p_ID p' = p_ID p ∧ newer h h' None (p_Extended p').
Proof.
  intros Hok Hc. unfold cloneProgram, clean in *. case_bool_decide as Hm.
  - split_and!; [by apply keeps_refl | done | done |]. left. destruct (p_Extended p); [| done]. by destruct Hc.
  - cbn [alloc]. split_and!; [by apply (alloc_keeps (λ _, False)) | | done |].
    + unfold view. cbn [p_Extended withExtended]. pose proof (alloc_contents (contents h (p_Extended p)) h) as H. cbn [alloc snd] in H.
      by rewrite H.
    + right. exists (st_next h). split; [done | cbn; lia].
Qed.

(** ** The programs of a service *)

(** The items of the basic tables that are the program [id], and those of the
    extended tables. *)
Definition isBasicOf (id : Z) (e : Z * Program (option nat)) : Prop := isScheduleBasic (fst e) = true ∧ p_ID (snd e) = id.
Definition isExtendedOf (id : Z) (e : Z * Program (option nat)) : Prop := isScheduleExtended (fst e) = true ∧ p_ID (snd e) = id.
#[local] Instance isBasicOf_dec id e : Decision (isBasicOf id e).
Proof. unfold isBasicOf. apply _. Defined.
#[local] Instance isExtendedOf_dec id e : Decision (isExtendedOf id e).
Proof. unfold isExtendedOf. apply _. Defined.

Definition basicsOf (id : Z) (items : list (Z * Program (option nat))) : list (Program (option nat)) :=
  map snd (filter (isBasicOf id) items).
Definition extendedsOf (id : Z) (items : list (Z * Program (option nat))) : list (Program (option nat)) :=
  map snd (filter (isExtendedOf id) items).

(** A program from its items. *)
Definition built (basics extendeds : list (Program textMap)) : option (Program textMap) :=
  match basics with
  | [] => None
  | b :: bs => Some (fold_left (mergeWhole false) extendeds (fold_left (mergeWhole true) bs b))
  end.

Definition table_id (e : Z * Program (option nat)) : Prop := 0x50 ≤ fst e ≤ 0x6f.

(** An item that is in the store before the build. *)
Definition item_ok (h : store) (e : Z * Program (option nat)) : Prop :=
  table_id e ∧ ptr_ok h (p_Extended (snd e)) ∧ clean h (snd e).

(** The programs own maps made since [h0], and have the given contents. *)
Record owned (h0 : store) (programs : gmap Z (Program (option nat))) (h : store) (spec : Z → option (Program textMap)) : Prop := {
  ow_keeps : keeps (λ _, False) h0 h;
  ow_new : ∀ id p a, programs !! id = Some p → p_Extended p = Some a → (st_next h0 ≤ a < st_next h)%nat;
  ow_own : ∀ id1 id2 p1 p2 a, programs !! id1 = Some p1 → programs !! id2 = Some p2 →
    p_Extended p1 = Some a → p_Extended p2 = Some a → id1 = id2;
  ow_view : ∀ id, view h <$> programs !! id = spec id
}.

(** A program replaced by one that changes no other's map. *)
Lemma owned_insert h0 programs h spec id p h' old : owned h0 programs h spec →
  keeps (λ a, old = Some a) h h' → newer h h' old (p_Extended p) → (p_Extended <$> programs !! id = Some old ∨ old = None) →
  owned h0 (<[id := p]> programs) h' (λ i, if decide (i = id) then Some (view h' p) else spec i).
Proof.
  intros [W1 W2 W3 W4] K Hnew Hold.
  assert (∀ a, old = Some a → (st_next h0 ≤ a < st_next h)%nat ∧
    ∀ i q, programs !! i = Some q → p_Extended q = Some a → i = id) as Ha.
  { intros a ->. destruct Hold as [Hold | ?]; [| done]. apply fmap_Some in Hold as (q & Hq & Ha). symmetry in Ha.
    split; [by apply (W2 id q a) |]. intros i q' Hi Hq'. by apply (W3 i id q' q a). }
  pose proof (kp_next _ _ _ W1). pose proof (kp_next _ _ _ K).
  split.
  - split; [apply K | lia |]. intros a Hlt _. rewrite (kp_maps _ _ _ K), (kp_maps _ _ _ W1); [done | done | by intros [] | lia |].
    intros Hoa. destruct (Ha a Hoa) as [? _]. lia.
  - intros i q a. destruct (decide (i = id)) as [-> | Hne].
    + rewrite lookup_insert_eq. intros [= <-] Hp. destruct Hnew as [Hn | (b & Hb & Hlt)].
      * rewrite Hp in Hn. destruct (Ha a) as [? _]; [done | lia].
      * rewrite Hp in Hb. injection Hb as ->. lia.
    + rewrite lookup_insert_ne by done. intros Hi Hq. specialize (W2 i q a Hi Hq). lia.
  - assert (∀ i q a, i ≠ id → programs !! i = Some q → p_Extended q = Some a → p_Extended p ≠ Some a) as Hother.
    { intros i q a Hne Hi Hq Hp. destruct Hnew as [Hn | (b & Hb & Hlt)].
      - rewrite Hp in Hn. apply Hne. by eapply (proj2 (Ha a (eq_sym Hn))).
      - rewrite Hp in Hb. injection Hb as ->. specialize (W2 i q b Hi Hq). lia. }
    intros i j q1 q2 a. destruct (decide (i = id)) as [-> | Hi], (decide (j = id)) as [-> | Hj];
      rewrite ?lookup_insert_eq, ?lookup_insert_ne by done; [done | | | apply W3].
    + intros [= <-] Hj2 Hp Hq. by destruct (Hother j q2 a).
    + intros Hi2 [= <-] Hq Hp. by destruct (Hother i q1 a).
  - intros i. destruct (decide (i = id)) as [-> | Hne]; [by rewrite lookup_insert_eq |]. rewrite lookup_insert_ne by done.
    rewrite <- W4. destruct (programs !! i) as [q |] eqn:Hi; [| done]. cbn. f_equal. unfold view. f_equal.
    apply (keeps_contents _ _ _ _ K).
    + destruct (p_Extended q) as [a |] eqn:Hq; [| done]. apply (W2 i q a Hi Hq).
    + intros a Hq Hoa. apply Hne. by apply (proj2 (Ha a Hoa) i q).
Qed.

Lemma owned_ext h0 programs h spec spec' : owned h0 programs h spec → (∀ id, spec id = spec' id) → owned h0 programs h spec'.
Proof. intros [W1 W2 W3 W4] H. split; try done. intros id. by rewrite W4, H. Qed.

Lemma old_view h0 programs h spec p : owned h0 programs h spec → ptr_ok h0 (p_Extended p) → view h p = view h0 p.
Proof. intros W Hp. unfold view. f_equal. apply (keeps_contents _ _ _ _ (ow_keeps _ _ _ _ W)); [done | by intros ? ? []]. Qed.

(** Merging an item into the program [id]. *)
Lemma owned_merge h0 programs h spec id dst item b : owned h0 programs h spec → programs !! id = Some dst →
  ptr_ok h0 (p_Extended item) →
  let '(p, h') := mergeProgram dst item b h in
  owned h0 (<[id := p]> programs) h'
    (λ i, if decide (i = id) then (λ d, mergeWhole b d (view h0 item)) <$> spec id else spec i).
Proof.
  intros W Hd Hp. assert (store_ok h) as Hok by apply (ow_keeps _ _ _ _ W).
  assert (ptr_ok h (p_Extended dst)) as Hdp.
  { destruct (p_Extended dst) as [a |] eqn:E; [| done]. apply (ow_new _ _ _ _ W id dst a Hd E). }
  pose proof (mergeProgram_ok dst item b h Hok Hdp) as H. destruct (mergeProgram dst item b h) as [p h'].
  destruct H as (K & Hview & _ & Hnew).
  eapply owned_ext; [eapply (owned_insert h0 programs h spec id p h' (p_Extended dst)); try done; left; by rewrite Hd |].
  intros i. cbn. destruct (decide (i = id)) as [-> |]; [| done].
  rewrite <- (ow_view _ _ _ _ W id), Hd, Hview. cbn. by rewrite (old_view h0 programs h spec item).
Qed.

Lemma built_snoc_basic bs item : bs ≠ [] → built (bs ++ [item]) [] = (λ d, mergeWhole true d item) <$> built bs [].
Proof. intros Hne. destruct bs as [| b bs]; [done |]. cbn. by rewrite fold_left_app. Qed.

Lemma built_snoc_extended bs es item : built bs (es ++ [item]) = (λ d, mergeWhole false d item) <$> built bs es.
Proof. destruct bs as [| b bs]; [done |]. cbn. by rewrite fold_left_app. Qed.

Lemma built_none bs es : built bs es = None ↔ bs = [].
Proof. by destruct bs. Qed.

(** The state of the build after the items [k]. *)
Definition building_ok (h0 : store) (k : list (Z * Program (option nat))) (st : building) : Prop :=
  let '(programs, extended, h) := st in
  owned h0 programs h (λ id, built (map (view h0) (basicsOf id k)) []) ∧
  ∀ id, default [] (extended !! id) = extendedsOf id k.

Lemma basicsOf_snoc id k e : basicsOf id (k ++ [e]) = basicsOf id k ++ (if decide (isBasicOf id e) then [snd e] else []).
Proof. unfold basicsOf. rewrite filter_app, map_app, filter_cons, filter_nil. by case_decide. Qed.
Lemma extendedsOf_snoc id k e : extendedsOf id (k ++ [e]) = extendedsOf id k ++ (if decide (isExtendedOf id e) then [snd e] else []).
Proof. unfold extendedsOf. rewrite filter_app, map_app, filter_cons, filter_nil. by case_decide. Qed.

Lemma basic_not_extended t : isScheduleBasic t = true → isScheduleExtended t = false.
Proof.
  unfold isScheduleBasic, isScheduleExtended. rewrite orb_true_iff, orb_false_iff, !andb_true_iff, !andb_false_iff, !Z.leb_le, !Z.leb_gt.
  lia.
Qed.

Lemma basic_or_extended t : 0x50 ≤ t ≤ 0x6f → isScheduleBasic t = true ∨ isScheduleExtended t = true.
Proof.
  intros Ht. unfold isScheduleBasic, isScheduleExtended.
  destruct (Z.le_gt_cases t 0x57); [left | destruct (Z.le_gt_cases t 0x5f); [right | destruct (Z.le_gt_cases t 0x67); [left | right]]];
    apply orb_true_iff; rewrite !andb_true_iff, !Z.leb_le; lia.
Qed.

Lemma buildItem_ok h0 k st e : building_ok h0 k st → item_ok h0 e → building_ok h0 (k ++ [e]) (buildItem (fst e) st (snd e)).
Proof.
  destruct st as [[programs extended] h], e as [t item]. intros [W Hext] (Ht & Hptr & Hc). cbn [fst snd] in *.
  unfold buildItem. destruct (isScheduleBasic t) eqn:Hb.
  - assert (∀ id, extendedsOf id (k ++ [(t, item)]) = extendedsOf id k) as Hext'.
    { intros id. rewrite extendedsOf_snoc, decide_False, app_nil_r; [done |]. intros [H _]. cbn in H. by rewrite basic_not_extended in H. }
    assert (∀ id, basicsOf id (k ++ [(t, item)]) = basicsOf id k ++ if decide (id = p_ID item) then [item] else []) as Hbas.
    { intros id. rewrite basicsOf_snoc. f_equal. destruct (decide (id = p_ID item)) as [-> | Hne]; [by rewrite decide_True |].
      rewrite decide_False; [done |]. intros [_ H]. by apply Hne. }
    destruct (programs !! p_ID item) as [dst |] eqn:Hd.
    + pose proof (owned_merge h0 programs h _ (p_ID item) dst item true W Hd Hptr) as H.
      destruct (mergeProgram dst item true h) as [p h']. split; [| by intros id; rewrite Hext'].
      eapply owned_ext; [exact H |]. intros id. rewrite Hbas. cbn beta. destruct (decide (id = p_ID item)) as [-> | Hne].
      * rewrite map_app. cbn [map]. rewrite built_snoc_basic; [done |]. intros Hnil.
        pose proof (ow_view _ _ _ _ W (p_ID item)) as Hv. rewrite Hd in Hv. cbn in Hv.
        apply map_eq_nil in Hnil. by rewrite Hnil in Hv.
      * by rewrite app_nil_r.
    + assert (store_ok h) as Hok by apply (ow_keeps _ _ _ _ W).
      assert (clean h item) as Hclean.
      { unfold clean in *. destruct (p_Extended item) as [a |] eqn:E; [| done].
        rewrite (keeps_contents _ _ _ (Some a) (ow_keeps _ _ _ _ W)); [done | done | by intros ? ? []]. }
      pose proof (cloneProgram_ok item h Hok Hclean) as H. destruct (cloneProgram item h) as [p h'].
      destruct H as (K & Hview & _ & Hnew). split; [| by intros id; rewrite Hext'].
      eapply owned_ext; [apply (owned_insert h0 programs h _ (p_ID item) p h' None W); [| done | by right] |].
      { eapply keeps_mono; [exact K | done]. }
      intros id. rewrite Hbas. cbn beta. destruct (decide (id = p_ID item)) as [-> | Hne]; [| by rewrite app_nil_r].
      pose proof (ow_view _ _ _ _ W (p_ID item)) as Hv. rewrite Hd in Hv. cbn in Hv. symmetry in Hv. apply built_none, map_eq_nil in Hv.
      rewrite Hv, Hview. cbn. by rewrite (old_view h0 programs h _ item W Hptr).
  - destruct (basic_or_extended t Ht) as [? | He]; [congruence |]. rewrite He. split.
    + eapply owned_ext; [exact W |]. intros id. rewrite basicsOf_snoc, decide_False, app_nil_r; [done |].
      intros [H _]. cbn in H. congruence.
    + intros id. rewrite extendedsOf_snoc. destruct (decide (p_ID item = id)) as [<- | Hne].
      * rewrite lookup_insert_eq, decide_True by done. cbn. by rewrite Hext.
      * rewrite lookup_insert_ne, decide_False, app_nil_r by (done || by intros [_ ?]). apply Hext.
Qed.

Lemma buildItems_ok h0 items : store_ok h0 → Forall (item_ok h0) items →
  building_ok h0 items (fold_left (λ st e, buildItem (fst e) st (snd e)) items (∅, ∅, h0)).
Proof.
  intros Hok. induction items as [| e items IH] using rev_ind; intros Hi.
  - cbn. split; [| by intros id; rewrite lookup_empty]. split; [by apply keeps_refl | | |].
    + intros id p a H. by rewrite lookup_empty in H.
    + intros id1 id2 p1 p2 a H. by rewrite lookup_empty in H.
    + intros id. by rewrite lookup_empty.
  - apply Forall_app in Hi as [Hi He]. rewrite fold_left_app. cbn. apply buildItem_ok; [by apply IH | by apply Forall_inv in He].
Qed.

(** The extended items of one program. *)
Lemma mergeExtendedItems_ok h0 id bs items : ∀ programs h spec es,
  owned h0 programs h spec → spec id = built bs es → Forall (λ item, ptr_ok h0 (p_Extended item)) items →
  let '(programs', h') := fold_left (λ '(programs, h) item,
    match programs !! id with
    | Some dst => let '(p, h') := mergeProgram dst item false h in (<[id := p]> programs, h')
    | None => (programs, h)
    end) items (programs, h) in
  owned h0 programs' h' (λ i, if decide (i = id) then built bs (es ++ map (view h0) items) else spec i).
Proof.
  induction items as [| item items IH]; intros programs h spec es W Hs Hi; cbn [fold_left].
  - eapply owned_ext; [exact W |]. intros i. cbn. destruct (decide (i = id)) as [-> |]; [by rewrite app_nil_r | done].
  - apply Forall_cons in Hi as [Hp Hi]. destruct (programs !! id) as [dst |] eqn:Hd.
    + pose proof (owned_merge h0 programs h spec id dst item false W Hd Hp) as H.
      destruct (mergeProgram dst item false h) as [p h']. specialize (IH _ _ _ (es ++ [view h0 item]) H).
      ospecialize (IH _ Hi); [by rewrite decide_True, Hs, built_snoc_extended |].
      destruct (fold_left _ items _) as [programs' h'']. eapply owned_ext; [exact IH |]. intros i. cbn beta.
      destruct (decide (i = id)); [by rewrite <- app_assoc | done].
    + pose proof (ow_view _ _ _ _ W id) as Hv. rewrite Hd, Hs in Hv. cbn in Hv. symmetry in Hv. apply built_none in Hv as ->.
      specialize (IH programs h spec es W). ospecialize (IH Hs Hi). destruct (fold_left _ items _) as [programs' h''].
      eapply owned_ext; [exact IH |]. intros i. cbn. by destruct (decide (i = id)).
Qed.

Lemma extendedsOf_ptr h0 id items : Forall (item_ok h0) items → Forall (λ item, ptr_ok h0 (p_Extended item)) (extendedsOf id items).
Proof.
  intros Hi. apply Forall_forall. intros p. unfold extendedsOf. rewrite list_elem_of_fmap. intros (e & -> & He).
  apply list_elem_of_filter in He as [_ He]. rewrite Forall_forall in Hi. apply (Hi e He).
Qed.

(** What the program [id] is to be. *)
Definition programOf (h0 : store) (items : list (Z * Program (option nat))) (id : Z) : option (Program textMap) :=
  built (map (view h0) (basicsOf id items)) (map (view h0) (extendedsOf id items)).

Lemma mergeAll_ok h0 extended items ids : Forall (item_ok h0) items → (∀ id, default [] (extended !! id) = extendedsOf id items) →
  NoDup ids → ∀ programs h spec, owned h0 programs h spec →
  (∀ id, id ∈ ids → spec id = built (map (view h0) (basicsOf id items)) []) →
  let '(programs', h') := fold_left (mergeExtended extended) ids (programs, h) in
  owned h0 programs' h' (λ id, if decide (id ∈ ids) then programOf h0 items id else spec id).
Proof.
  intros Hi Hext Hnd. induction Hnd as [| id ids Hid Hnd IH]; intros programs h spec W Hs; cbn [fold_left].
  - eapply owned_ext; [exact W |]. intros i. cbn beta. rewrite decide_False; [done | apply not_elem_of_nil].
  - pose proof (mergeExtendedItems_ok h0 id (map (view h0) (basicsOf id items)) (default [] (extended !! id)) programs h spec [] W) as H.
    unfold mergeExtended at 2. rewrite Hext in *.
    ospecialize (H _ _); [apply Hs; apply list_elem_of_here | by apply extendedsOf_ptr |].
    destruct (fold_left _ (extendedsOf id items) (programs, h)) as [programs1 h1].
    specialize (IH programs1 h1 _ H). ospecialize (IH _).
    { intros i Hin. cbn. rewrite decide_False by (by intros ->). apply Hs. by right. }
    destruct (fold_left (mergeExtended extended) ids (programs1, h1)) as [programs' h'].
    eapply owned_ext; [exact IH |]. intros i. cbn beta. destruct (decide (i ∈ ids)) as [Hin | Hin].
    + by rewrite decide_True by (by right).
    + destruct (decide (i = id)) as [-> | Hne]; [by rewrite decide_True by (by left) |].
      rewrite decide_False; [done |]. by intros [? | ?]%elem_of_cons.
Qed.

Lemma NoDup_sortedKeys {A} (m : gmap Z A) : NoDup (sortedKeys m).
Proof. unfold sortedKeys, sortInts. rewrite merge_sort_Permutation. apply NoDup_fst_map_to_list. Qed.

Lemma elem_sortedKeys {A} (m : gmap Z A) k : k ∈ sortedKeys m ↔ is_Some (m !! k).
Proof.
  unfold sortedKeys, sortInts. rewrite merge_sort_Permutation, list_elem_of_fmap. split.
  - intros ([k' x] & -> & Hx). apply elem_of_map_to_list in Hx. by exists x.
  - intros [x Hx]. exists (k, x). split; [done |]. by apply elem_of_map_to_list.
Qed.

Lemma rebuild_ok tables h : store_ok h → Forall (item_ok h) (tableItems tables) →
  let '(programs, h') := rebuildServicePrograms tables h in
  owned h programs h' (programOf h (tableItems tables)).
Proof.
  intros Hok Hi. unfold rebuildServicePrograms. pose proof (buildItems_ok h (tableItems tables) Hok Hi) as H.
  destruct (fold_left _ (tableItems tables) _) as [[programs extended] h1]. destruct H as [W Hext].
  pose proof (mergeAll_ok h extended (tableItems tables) (sortedKeys programs) Hi Hext (NoDup_sortedKeys programs) programs h1 _ W) as H.
  ospecialize (H _); [done |]. destruct (fold_left (mergeExtended extended) _ _) as [programs' h'].
  eapply owned_ext; [exact H |]. intros id. cbn beta. destruct (decide (id ∈ sortedKeys programs)) as [| Hin]; [done |].
  rewrite elem_sortedKeys, <- eq_None_not_Some in Hin.
  pose proof (ow_view _ _ _ _ W id) as Hv. rewrite Hin in Hv. cbn in Hv. symmetry in Hv.
  apply built_none in Hv. unfold programOf. by rewrite Hv.
Qed.

End MergeSpec.

(** ** What a built program holds *)

Fixpoint firstNonEmpty {A} (l : list (list A)) : list A :=
  match l with [] => [] | x :: l => orList x (firstNonEmpty l) end.
Fixpoint firstSome {A} (l : list (option A)) : option A :=
  match l with [] => None | x :: l => orOption x (firstSome l) end.
(** The last that is not 0, or else the first. *)
Definition lastTiming (x : Z) (l : list Z) : Z := fold_left (λ a b, if b =? 0 then a else b) l x.

(** The program of the items: every text, list or pointer comes from the first
    item that has one, the times from the last basic item that has them, and
    whether it is free from the last item of all. *)
Record gathers (b : Program textMap) (bs es : list (Program textMap)) (p : Program textMap) : Prop := {
  ga_ID : p_ID p = p_ID b ∧ p_EventID p = p_EventID b ∧ p_ServiceID p = p_ServiceID b ∧ p_NetworkID p = p_NetworkID b;
  ga_StartAt : p_StartAt p = lastTiming (p_StartAt b) (map p_StartAt bs);
  ga_Duration : p_Duration p = lastTiming (p_Duration b) (map p_Duration bs);
  ga_IsFree : p_IsFree p = List.last (map p_IsFree (bs ++ es)) (p_IsFree b);
  ga_Name : p_Name p = firstNonEmpty (map p_Name (b :: bs ++ es));
  ga_Description : p_Description p = firstNonEmpty (map p_Description (b :: bs ++ es));
  ga_Genres : p_Genres p = firstNonEmpty (map p_Genres (b :: bs ++ es));
  ga_Video : p_Video p = firstSome (map p_Video (b :: bs ++ es));
  ga_Audios : p_Audios p = firstNonEmpty (map p_Audios (b :: bs ++ es));
  ga_Extended : ∀ k, default [] (p_Extended p !! k) = firstNonEmpty (map (λ q, default [] (p_Extended q !! k)) (b :: bs ++ es));
  ga_RelatedItems : p_RelatedItems p = firstNonEmpty (map p_RelatedItems (b :: bs ++ es));
  ga_Series : p_Series p = firstSome (map p_Series (b :: bs ++ es))
}.

Lemma firstNonEmpty_snoc {A} (l : list (list A)) x : firstNonEmpty (l ++ [x]) = orList (firstNonEmpty l) x.
Proof. induction l as [| y l IH]; cbn; [by destruct x |]. rewrite IH. by destruct y. Qed.
Lemma firstSome_snoc {A} (l : list (option A)) x : firstSome (l ++ [x]) = orOption (firstSome l) x.
Proof. induction l as [| y l IH]; cbn; [by destruct x |]. rewrite IH. by destruct y. Qed.

Lemma gathers_one b : gathers b [] [] b.
Proof.
  split; try done; cbn; intros; try (by destruct (p_Name b)); try (by destruct (p_Description b));
    try (by destruct (p_Genres b)); try (by destruct (p_Video b)); try (by destruct (p_Audios b));
    try (by destruct (p_RelatedItems b)); try (by destruct (p_Series b)).
  by destruct (default [] _).
Qed.

Lemma gathers_merge b bs es p q (timing : bool) : gathers b bs es p → (timing = true → es = []) →
  gathers b (if timing then bs ++ [q] else bs) (if timing then es else es ++ [q]) (mergeWhole timing p q).
Proof.
  intros [[H1 (H2 & H3 & H4)] Hst Hdu Hfr Hna Hde Hge Hvi Hau Hex Hre Hse] Htm.
  assert ((if timing then bs ++ [q] else bs) ++ (if timing then es else es ++ [q]) = (bs ++ es) ++ [q]) as Happ.
  { destruct timing; [rewrite Htm by done; by rewrite !app_nil_r | by rewrite app_assoc]. }
  assert (∀ B (f : Program textMap → B), map f (b :: (if timing then bs ++ [q] else bs) ++ (if timing then es else es ++ [q])) =
    map f (b :: bs ++ es) ++ [f q]) as Hmap by (intros B f; by rewrite Happ, app_comm_cons, map_app).
  unfold mergeWhole. split; cbn [withExtended mergeOther p_ID p_EventID p_ServiceID p_NetworkID p_StartAt p_Duration p_IsFree
    p_Name p_Description p_Genres p_Video p_Audios p_Extended p_RelatedItems p_Series]; intros;
    rewrite ?Hmap, ?firstNonEmpty_snoc, ?firstSome_snoc, ?fillMap_lookup; try congruence.
  - done.
  - rewrite Hst. destruct timing; [| done]. rewrite map_app. unfold lastTiming. rewrite fold_left_app. cbn. by destruct (p_StartAt q =? 0).
  - rewrite Hdu. destruct timing; [| done]. rewrite map_app. unfold lastTiming. rewrite fold_left_app. cbn. by destruct (p_Duration q =? 0).
  - rewrite Happ, map_app. cbn [map]. by rewrite List.last_last.
  - by rewrite Hex.
Qed.

Lemma built_gathers b bs es : ∃ p, built (b :: bs) es = Some p ∧ gathers b bs es p.
Proof.
  cbn. eexists. split; [done |]. induction es as [| e es IH] using rev_ind.
  - cbn. induction bs as [| q bs IH] using rev_ind; [apply gathers_one |]. rewrite fold_left_app. cbn.
    by apply (gathers_merge b bs [] _ q true).
  - rewrite fold_left_app. cbn. by apply (gathers_merge b bs es _ e false).
Qed.

(** ** The programs of a section *)

(** A descriptor applied to a program with its map. *)
Definition describe (item : Program textMap) (d : EITDescriptor) : Program textMap :=
  if String.eqb (ed_Type d) "ExtendedEvent" then
    withExtended (fold_left (λ m field, match field with key :: value :: _ => <[key := value]> m | _ => m end)
      (ed_Items d) (p_Extended item)) item
  else applyOther item d.

(** The program of an event. *)
Definition eventWhole (s : EITSection) (event : EITEvent) : Program textMap :=
  fold_left describe (ee_Descriptors event)
    (MkProgram _ (ProgramID (OriginalNetworkID s) (ServiceID s) (ee_EventID event)) (ee_EventID event)
       (ServiceID s) (OriginalNetworkID s) (ee_StartTime event) (ee_Duration event)
       (negb (ee_Scrambled event)) [] [] [] None [] ∅ [] None).

(** Every extended event has an item. *)
Definition event_clean (event : EITEvent) : Prop :=
  Forall (λ d, ed_Type d = "ExtendedEvent"%string → Exists (λ field, ∃ key value rest, field = key :: value :: rest) (ed_Items d))
    (ee_Descriptors event).

Lemma setFields_ok a items h : store_ok h → (a < st_next h)%nat →
  keeps (eq a) h (setFields a items h) ∧
  contents (setFields a items h) (Some a) =
    fold_left (λ m field, match field with key :: value :: _ => <[key := value]> m | _ => m end) items (contents h (Some a)).
Proof.
  unfold setFields. revert h. induction items as [| field items IH]; intros h Hok Ha; cbn [fold_left];
    [split; [by apply keeps_refl | done] |].
  destruct field as [| key [| value rest]]; try by apply IH.
  pose proof (setKey_keeps a key value h Hok) as K. pose proof (setKey_contents a key value h Hok Ha) as C.
  destruct (IH (setKey a key value h)) as [K' C']; [apply K | done |]. split; [by eapply keeps_trans |]. by rewrite C', C.
Qed.

Lemma view_other {M} (p : Program M) (d : EITDescriptor) (m : textMap) : withExtended m (applyOther p d) = applyOther (withExtended m p) d.
Proof. unfold applyOther. repeat case_match; done. Qed.

Lemma p_Extended_other {M} (p : Program M) d : p_Extended (applyOther p d) = p_Extended p.
Proof. unfold applyOther. repeat case_match; done. Qed.

Lemma applyDescriptor_ok item d h : store_ok h → ptr_ok h (p_Extended item) →
  let '(item', h') := applyDescriptor item d h in
  keeps (λ a, p_Extended item = Some a) h h' ∧ view h' item' = describe (view h item) d ∧
  newer h h' (p_Extended item) (p_Extended item').
Proof.
  intros Hok Hp. unfold applyDescriptor, describe, view. destruct (String.eqb (ed_Type d) "ExtendedEvent").
  - destruct (p_Extended item) as [a |] eqn:E; cbn [alloc p_Extended withExtended].
    + destruct (setFields_ok a (ed_Items d) h Hok Hp) as [K C]. split_and!; [| by rewrite C | by left].
      eapply keeps_mono; [exact K | by intros ? _ ->].
    + pose proof (alloc_keeps (eq (st_next h)) ∅ h Hok) as K1.
      destruct (setFields_ok (st_next h) (ed_Items d) (snd (alloc ∅ h))) as [K C]; [apply K1 | cbn; lia |].
      rewrite alloc_contents in C. cbn [alloc snd] in *. split_and!; [| by rewrite C |].
      * eapply keeps_mono; [by eapply keeps_trans |]. intros a Ha <-. lia.
      * right. exists (st_next h). split; [done |]. pose proof (kp_next _ _ _ K). cbn in *. lia.
  - split_and!; [by apply keeps_refl | by rewrite p_Extended_other, view_other | left; apply p_Extended_other].
Qed.

(** A program whose map was made since [h0]. *)
Definition made (h0 h : store) (p : Program (option nat)) : Prop :=
  match p_Extended p with Some a => (st_next h0 ≤ a < st_next h)%nat | None => True end.

Lemma applyDescriptors_ok h0 ds : ∀ item h, keeps (λ _, False) h0 h → made h0 h item →
  let '(item', h') := fold_left (λ '(item, h) descriptor, applyDescriptor item descriptor h) ds (item, h) in
  keeps (λ _, False) h0 h' ∧ made h0 h' item' ∧ view h' item' = fold_left describe ds (view h item).
Proof.
  induction ds as [| d ds IH]; intros item h K Hm; cbn [fold_left]; [done |].
  assert (ptr_ok h (p_Extended item)) as Hp by (unfold made in Hm; destruct (p_Extended item); cbn; [lia | done]).
  pose proof (applyDescriptor_ok item d h (kp_ok _ _ _ K) Hp) as H. destruct (applyDescriptor item d h) as [item' h'].
  destruct H as (K' & Hv & Hn). rewrite <- Hv. pose proof (kp_next _ _ _ K). pose proof (kp_next _ _ _ K').
  apply IH.
  - split; [apply K' | lia |]. intros a Ha _. rewrite (kp_maps _ _ _ K'), (kp_maps _ _ _ K); [done | done | by intros [] | lia |].
    intros E. unfold made in Hm. rewrite E in Hm. lia.
  - unfold made in *. destruct Hn as [-> | (a & -> & Ha)]; [| lia]. destruct (p_Extended item); [lia | done].
Qed.

Lemma describe_extended p d : p_Extended p ≠ ∅ → p_Extended (describe p d) ≠ ∅.
Proof.
  unfold describe. destruct (String.eqb _ _); [| by rewrite p_Extended_other]. cbn. generalize (p_Extended p) as m.
  induction (ed_Items d) as [| field items IH]; intros m Hm; [done |]. cbn [fold_left].
  destruct field as [| k [| v r]]; apply IH; [done | done | apply insert_non_empty].
Qed.

Lemma describe_clean p d : ed_Type d = "ExtendedEvent"%string →
  Exists (λ field, ∃ key value rest, field = key :: value :: rest) (ed_Items d) → p_Extended (describe p d) ≠ ∅.
Proof.
  intros Ht He. unfold describe. rewrite Ht. cbn. generalize (p_Extended p) as m.
  assert (∀ items (m : textMap), m ≠ ∅ →
    fold_left (λ m field, match field with key :: value :: _ => <[key := value]> m | _ => m end) items m ≠ ∅) as Hne.
  { induction items as [| field items IH]; intros m Hm; [done |]. cbn [fold_left].
    destruct field as [| k [| v r]]; apply IH; [done | done | apply insert_non_empty]. }
  induction He as [field items (k & v & r & ->) | field items He IH]; intros m; cbn; [apply Hne, insert_non_empty | apply IH].
Qed.

(** An [Extended] that is not nil has an entry. *)
Lemma applyDescriptors_clean ds : Forall (λ d, ed_Type d = "ExtendedEvent"%string →
    Exists (λ field, ∃ key value rest, field = key :: value :: rest) (ed_Items d)) ds → ∀ item h,
  p_Extended item = None ∨ p_Extended (view h item) ≠ ∅ → store_ok h → ptr_ok h (p_Extended item) →
  let '(item', h') := fold_left (λ '(item, h) descriptor, applyDescriptor item descriptor h) ds (item, h) in
  p_Extended item' = None ∨ p_Extended (view h' item') ≠ ∅.
Proof.
  induction 1 as [| d ds Hd Hds IH]; intros item h Hitem Hok Hp; cbn [fold_left]; [done |].
  pose proof (applyDescriptor_ok item d h Hok Hp) as H. destruct (applyDescriptor item d h) as [item' h'] eqn:E.
  destruct H as (K & Hv & Hn). apply IH.
  - unfold applyDescriptor in E. destruct (String.eqb_spec (ed_Type d) "ExtendedEvent") as [Ht | Ht].
    + right. rewrite Hv. apply describe_clean; [done | by apply Hd].
    + injection E as <- <-. rewrite p_Extended_other. destruct Hitem as [-> | Hne]; [by left |]. right.
      rewrite Hv. by apply describe_extended.
  - apply K.
  - pose proof (kp_next _ _ _ K). unfold ptr_ok in *. destruct Hn as [-> | (a & -> & Ha)]; [destruct (p_Extended item); [lia | done] | lia].
Qed.

Lemma eventProgram_ok s event h : store_ok h → event_clean event →
  let '(p, h') := eventProgram s event h in
  keeps (λ _, False) h h' ∧ view h' p = eventWhole s event ∧ ptr_ok h' (p_Extended p) ∧ clean h' p.
Proof.
  intros Hok Hc. unfold eventProgram, eventWhole. set (item := MkProgram (option nat) _ _ _ _ _ _ _ _ _ _ _ _ _ _ _).
  pose proof (applyDescriptors_ok h (ee_Descriptors event) item h (keeps_refl _ _ Hok) I) as H1.
  pose proof (applyDescriptors_clean (ee_Descriptors event) Hc item h (or_introl eq_refl) Hok I) as H2.
  destruct (fold_left _ (ee_Descriptors event) (item, h)) as [p h']. destruct H1 as (K & Hm & Hv). split_and!; [done | done | |].
  - unfold made in Hm. destruct (p_Extended p); [cbn; lia | done].
  - unfold clean. destruct (p_Extended p) as [a |] eqn:E; [| done]. destruct H2 as [? | Hne]; [congruence |].
    unfold view in Hne. cbn in Hne. by rewrite E in Hne.
Qed.

Lemma sectionPrograms_ok s events h : store_ok h → Forall event_clean events →
  let '(ps, h') := sectionPrograms s events h in
  keeps (λ _, False) h h' ∧ map (view h') ps = map (eventWhole s) events ∧ Forall (λ p, ptr_ok h' (p_Extended p) ∧ clean h' p) ps.
Proof.
  intros Hok. unfold sectionPrograms. induction events as [| e events IH] using rev_ind; intros Hc; [by split_and!; [apply keeps_refl | |]|].
  apply Forall_app in Hc as [Hc He]. apply Forall_inv in He. rewrite fold_left_app. specialize (IH Hc). cbn [fold_left].
  destruct (fold_left _ events ([], h)) as [ps h1]. destruct IH as (K & Hv & Hps).
  pose proof (eventProgram_ok s e h1 (kp_ok _ _ _ K) He) as H. destruct (eventProgram s e h1) as [p h2]. destruct H as (K2 & Hv2 & Hp2 & Hc2).
  assert (∀ q, ptr_ok h1 (p_Extended q) → contents h2 (p_Extended q) = contents h1 (p_Extended q)) as Hsame.
  { intros q Hq. apply (keeps_contents _ _ _ _ K2); [done | by intros ? ? []]. }
  split_and!; [by eapply keeps_trans | |].
  - rewrite !map_app. cbn [map]. rewrite Hv2, <- Hv. f_equal. apply map_ext_in. intros q Hq%list_elem_of_In.
    rewrite Forall_forall in Hps. unfold view. f_equal. by apply Hsame, Hps.
  - apply Forall_snoc; [| done]. eapply Forall_impl; [exact Hps |]. intros q [Hq Hqc]. split.
    + pose proof (kp_next _ _ _ K2). unfold ptr_ok in *. destruct (p_Extended q); [lia | done].
    + unfold clean in *. destruct (p_Extended q) as [a |] eqn:E; [| done]. specialize (Hsame q). rewrite E in Hsame. by rewrite Hsame.
Qed.

(** ** The items of all tables *)

Lemma StronglySorted_filter_keys {A} (R : A → A → Prop) (P : A → Prop) `{∀ x, Decision (P x)} l :
  StronglySorted R l → StronglySorted R (filter P l).
Proof.
  induction 1 as [| x l Hl IH Hx]; [constructor |]. rewrite filter_cons. destruct (decide (P x)); [| done].
  constructor; [done |]. rewrite Forall_forall in Hx |- *. intros y [_ Hy]%list_elem_of_filter. by apply Hx.
Qed.

Lemma StronglySorted_seqZ a n : StronglySorted Z.le (seqZ a n).
Proof.
  apply Sorted_StronglySorted; [apply _ |]. destruct (Z.le_gt_cases 0 n).
  - rewrite <- (Z2Nat.id n) by done. apply Sorted_seqZ.
  - rewrite seqZ_nil by lia. constructor.
Qed.

Lemma sortedKeys_range {A} (m : gmap Z A) a n : (∀ k, is_Some (m !! k) → a ≤ k < a + n) →
  sortedKeys m = filter (λ k, is_Some (m !! k)) (seqZ a n).
Proof.
  intros Hk. apply (Sorted_unique Z.le).
  - unfold sortedKeys, sortInts. apply Sorted_merge_sort, _.
  - apply StronglySorted_Sorted. apply StronglySorted_filter_keys, StronglySorted_seqZ.
  - apply NoDup_Permutation; [apply NoDup_sortedKeys | apply NoDup_filter, NoDup_seqZ |]. intros k.
    rewrite elem_sortedKeys, list_elem_of_filter, elem_of_seqZ. split; [intros H; split; [done | by apply Hk] | by intros [? _]].
Qed.

Lemma flat_map_keys {A B} (m : gmap Z A) (g : Z → list B) a n : (∀ k, is_Some (m !! k) → a ≤ k < a + n) →
  (∀ k, m !! k = None → g k = []) → flat_map g (sortedKeys m) = flat_map g (seqZ a n).
Proof.
  intros Hk Hg. rewrite (sortedKeys_range m a n Hk). generalize (seqZ a n) as l. induction l as [| k l IH]; [done |].
  rewrite filter_cons. destruct (decide (is_Some (m !! k))) as [Hs | Hs]; cbn [flat_map]; rewrite IH; [done |].
  by rewrite Hg by (by apply eq_None_not_Some).
Qed.

(** The programs of a section of a table. *)
Definition itemsAt (tables : gmap Z snapshotTable) (t n : Z) : list (Program (option nat)) :=
  match tables !! t with None => [] | Some tb => default [] (tb_sectionPrograms tb !! n) end.

(** All tables and sections there can be, in their order. *)
Definition everywhere {A} (f : Z → Z → list A) : list (Z * A) :=
  flat_map (λ t, flat_map (λ n, map (pair t) (f t n)) (seqZ 0 256)) (seqZ 0x50 32).

Definition tables_ok (tables : gmap Z snapshotTable) : Prop :=
  ∀ t tb, tables !! t = Some tb → 0x50 ≤ t ≤ 0x6f ∧ ∀ n, is_Some (tb_sectionPrograms tb !! n) → byte_ok n.

Lemma tableItems_everywhere tables : tables_ok tables → tableItems tables = everywhere (itemsAt tables).
Proof.
  intros Hok. unfold tableItems, everywhere. rewrite (flat_map_keys tables _ 0x50 32).
  - apply flat_map_ext. intros t. unfold itemsAt. destruct (tables !! t) as [tb |] eqn:E.
    + apply flat_map_keys; [| by intros k ->]. intros k Hk. apply (Hok t tb E) in Hk. unfold byte_ok in Hk. lia.
    + generalize (seqZ 0 256) as l. by induction l.
  - intros t [tb Htb]. destruct (Hok t tb Htb). lia.
  - by intros t ->.
Qed.

Lemma map_everywhere {A B} (f : A → B) (g : Z → Z → list A) :
  map (λ e, (fst e, f (snd e))) (everywhere g) = everywhere (λ t n, map f (g t n)).
Proof.
  unfold everywhere. generalize (seqZ 0x50 32) as ts. generalize (seqZ 0 256) as ns. intros ns ts.
  induction ts as [| t ts IH]; [done |]. cbn [flat_map]. rewrite map_app, IH. f_equal. clear IH.
  induction ns as [| n ns IH]; [done |]. cbn [flat_map]. by rewrite map_app, IH, !map_map.
Qed.

Lemma everywhere_ext {A} (f g : Z → Z → list A) : (∀ t n, f t n = g t n) → everywhere f = everywhere g.
Proof. intros H. unfold everywhere. apply flat_map_ext. intros t. apply flat_map_ext. intros n. by rewrite H. Qed.

Lemma elem_everywhere {A} (f : Z → Z → list A) t x : (t, x) ∈ everywhere f → 0x50 ≤ t ≤ 0x6f ∧ ∃ n, x ∈ f t n.
Proof.
  unfold everywhere. rewrite list_elem_of_In, in_flat_map. intros (t' & Ht & Hx). apply in_flat_map in Hx as (n & Hn & Hx).
  apply in_map_iff in Hx as (y & [= -> ->] & Hx). apply list_elem_of_In, elem_of_seqZ in Ht. split; [lia |]. exists n. by apply list_elem_of_In.
Qed.

(** What a program is to be, from all items with their maps. *)
Definition wholeProgram (items : list (Z * Program textMap)) (id : Z) : option (Program textMap) :=
  built (map snd (filter (λ e, isScheduleBasic (fst e) = true ∧ p_ID (snd e) = id) items))
        (map snd (filter (λ e, isScheduleExtended (fst e) = true ∧ p_ID (snd e) = id) items)).

Lemma programOf_whole h items id :
  programOf h items id = wholeProgram (map (λ e, (fst e, view h (snd e))) items) id.
Proof.
  assert (∀ (P : Z * Program (option nat) → Prop) (Q : Z * Program textMap → Prop) `{∀ e, Decision (P e)} `{∀ e, Decision (Q e)},
    (∀ e, P e ↔ Q (fst e, view h (snd e))) →
    map (view h) (map snd (filter P items)) = map snd (filter Q (map (λ e, (fst e, view h (snd e))) items))) as H.
  { intros P Q HP HQ Heq. induction items as [| e items IH]; [done |]. cbn [map]. rewrite !filter_cons.
    destruct (decide (P e)) as [Hp | Hp].
    - rewrite decide_True by (by apply Heq). cbn [map]. by rewrite IH.
    - by rewrite decide_False by (by rewrite <- Heq). }
  unfold programOf, wholeProgram, basicsOf, extendedsOf. f_equal; by apply H.
Qed.

(** ** Sequences of sections *)

Definition observation : Type := EITSection * list EITEvent * Z.
Definition ob_section (o : observation) : EITSection := fst (fst o).
Definition ob_events (o : observation) : list EITEvent := snd (fst o).

Definition ObserveAll {O : RangeOrderOf (list Z) (list Z)} (obs : list observation) (st : Snapshot * store)
    : outcome (Snapshot * store) :=
  foldM (λ st o, '(s, _, h) ← Observe (fst st) (ob_section o) (ob_events o) (snd o) (snd st); Ret (s, h)) obs st.

(** The sections of a service, those of a section of a table, and its events as
    last seen. *)
Definition supported (o : observation) : Prop := 0x50 ≤ TableID (ob_section o) ≤ 0x6f.
Definition ofKey (key : ServiceKey) (obs : list observation) : list observation :=
  filter (λ o, keyOf (ob_section o) = key ∧ supported o) obs.
Definition latest (obs : list observation) (t n : Z) : list (Program textMap) :=
  fold_left (λ l o, if (TableID (ob_section o) =? t) && (SectionNumber (ob_section o) =? n)
                    then map (eventWhole (ob_section o)) (ob_events o) else l) obs [].

(** What an observation must be: bytes in the header, no empty extended event. *)
Definition observation_ok (o : observation) : Prop :=
  section_ok (ob_section o) ∧ Forall event_clean (ob_events o).

(** The state of a service after its sections [obs]. *)
Record service_ok (obs : list observation) (h : store) (sv : snapshotService) : Prop := {
  so_tables : tables_ok (sv_tables sv);
  so_seen : ∀ t, is_Some (sv_tables sv !! t) ↔ ∃ o, o ∈ obs ∧ TableID (ob_section o) = t;
  so_items : ∀ t n, map (view h) (itemsAt (sv_tables sv) t n) = latest obs t n;
  so_clean : ∀ t n p, p ∈ itemsAt (sv_tables sv) t n → ptr_ok h (p_Extended p) ∧ clean h p;
  so_programs : ∀ id, view h <$> sv_programs sv !! id = wholeProgram (everywhere (latest obs)) id;
  so_maps : ∀ id p, sv_programs sv !! id = Some p → ptr_ok h (p_Extended p);
  so_groups : observeAll (map (λ o, (ob_section o, snd o)) obs) ∅ = Ret (sv_readyGroups sv)
}.

Lemma view_keeps h h' p : keeps (λ _, False) h h' → ptr_ok h (p_Extended p) → view h' p = view h p.
Proof. intros K Hp. unfold view. f_equal. apply (keeps_contents _ _ _ _ K); [done | by intros ? ? []]. Qed.

Lemma ptr_keeps A h h' m : keeps A h h' → ptr_ok h m → ptr_ok h' m.
Proof. intros [_ K _] Hp. unfold ptr_ok in *. destruct m; [lia | done]. Qed.

Lemma clean_keeps h h' p : keeps (λ _, False) h h' → ptr_ok h (p_Extended p) → clean h p → clean h' p.
Proof.
  intros K Hp Hc. unfold clean in *. destruct (p_Extended p) as [a |] eqn:E; [| done].
  rewrite (keeps_contents _ _ _ (Some a) K); [done | done | by intros ? ? []].
Qed.

Lemma service_keeps obs h h' sv : keeps (λ _, False) h h' → service_ok obs h sv → service_ok obs h' sv.
Proof.
  intros K [S1 S0 S2 S3 S4 S5 S6]. split; try done.
  - intros t n. rewrite <- S2. apply map_ext_in. intros p Hp%list_elem_of_In. apply view_keeps; [done | by eapply S3].
  - intros t n p Hp. destruct (S3 t n p Hp). split; [by eapply ptr_keeps | by eapply clean_keeps].
  - intros id. rewrite <- S4. destruct (sv_programs sv !! id) as [p |] eqn:E; [| done]. cbn. f_equal.
    apply view_keeps; [done | by eapply S5].
  - intros id p Hp. eapply ptr_keeps; [exact K | by eapply S5].
Qed.

Section Observing.
Context {O : RangeOrderOf (list Z) (list Z)}.

Lemma latest_after obs o t n : latest (obs ++ [o]) t n =
  if (TableID (ob_section o) =? t) && (SectionNumber (ob_section o) =? n)
  then map (eventWhole (ob_section o)) (ob_events o) else latest obs t n.
Proof. unfold latest. by rewrite fold_left_app. Qed.

Lemma newService_ok h : service_ok [] h newService.
Proof.
  split; try done.
  - intros t. split; [by intros [? ?] | by intros (o & ?%elem_of_nil & _)].
  - intros t n p Hp. by apply elem_of_nil in Hp.
Qed.

(** The tables with a section replaced. *)
Lemma itemsAt_insert tables t n ps tb' t' n' :
  tb_sectionPrograms tb' = <[n := ps]> (tb_sectionPrograms (default newTable (tables !! t))) →
  itemsAt (<[t := tb']> tables) t' n' = if (t =? t') && (n =? n') then ps else itemsAt tables t' n'.
Proof.
  intros Htb. unfold itemsAt. destruct (Z.eqb_spec t t') as [<- | Hne]; cbn [andb].
  - rewrite lookup_insert_eq, Htb. destruct (Z.eqb_spec n n') as [<- | Hn]; [by rewrite lookup_insert_eq |].
    rewrite lookup_insert_ne by done. destruct (tables !! t); [done |]. cbn. by rewrite lookup_empty.
  - by rewrite lookup_insert_ne by done.
Qed.

(** A service that observes a section. *)
Lemma service_observe obs h sv o : store_ok h → service_ok obs h sv → observation_ok o → supported o →
  Forall (λ o, section_ok (ob_section o)) obs →
  let '(ps, h1) := sectionPrograms (ob_section o) (ob_events o) h in
  ∀ tb', tb_sectionPrograms tb' =
    <[SectionNumber (ob_section o) := ps]> (tb_sectionPrograms (default newTable (sv_tables sv !! TableID (ob_section o)))) →
  let tables := <[TableID (ob_section o) := tb']> (sv_tables sv) in
  let '(programs, h2) := rebuildServicePrograms tables h1 in
  keeps (λ _, False) h h2 ∧
  returns (observeReady (ob_section o) (snd o) (sv_readyGroups sv)) (λ '(groups, _), ∀ last,
    service_ok (obs ++ [o]) h2 (MkService tables programs last groups)).
Proof.
  intros Hok [S1 S0 S2 S3 S4 S5 S6] [Hsec Hcl] Hsup Hobs.
  pose proof (sectionPrograms_ok (ob_section o) (ob_events o) h Hok Hcl) as H.
  destruct (sectionPrograms (ob_section o) (ob_events o) h) as [ps h1]. destruct H as (K1 & Hview & Hps). intros tb' Htb tables.
  set (t := TableID (ob_section o)) in *. set (n := SectionNumber (ob_section o)) in *.
  assert (∀ t' n', itemsAt tables t' n' = if (t =? t') && (n =? n') then ps else itemsAt (sv_tables sv) t' n') as Hat
    by (intros t' n'; by apply itemsAt_insert).
  assert (tables_ok tables) as Htok.
  { intros t' tb. unfold tables. destruct (decide (t = t')) as [<- | Hne].
    - rewrite lookup_insert_eq. intros [= <-]. split; [exact Hsup |]. intros k. rewrite Htb.
      destruct (decide (n = k)) as [<- | Hnk]; [intros _; apply Hsec |]. rewrite lookup_insert_ne by done.
      destruct (sv_tables sv !! t) as [tb0 |] eqn:E; cbn; [apply (S1 t tb0 E) | rewrite lookup_empty; by intros []].
    - rewrite lookup_insert_ne by done. apply S1. }
  assert (∀ t' n' p, p ∈ itemsAt tables t' n' → ptr_ok h1 (p_Extended p) ∧ clean h1 p) as Hclean.
  { intros t' n' p. rewrite Hat. destruct (_ && _).
    - intros Hp. rewrite Forall_forall in Hps. by apply Hps.
    - intros Hp. destruct (S3 t' n' p Hp). split; [by eapply ptr_keeps | by eapply clean_keeps]. }
  assert (∀ t' n', map (view h1) (itemsAt tables t' n') = latest (obs ++ [o]) t' n') as Hlat.
  { intros t' n'. rewrite Hat, latest_after. fold t n. destruct (_ && _); [done |]. rewrite <- S2. apply map_ext_in.
    intros p Hp%list_elem_of_In. apply view_keeps; [done | by eapply S3]. }
  assert (Forall (item_ok h1) (tableItems tables)) as Hitems.
  { rewrite tableItems_everywhere by done. apply Forall_forall. intros [t' p] Hp. apply elem_everywhere in Hp as [Ht' (n' & Hp)].
    split; [exact Ht' | by eapply Hclean]. }
  pose proof (rebuild_ok tables h1 (kp_ok _ _ _ K1) Hitems) as W. destruct (rebuildServicePrograms tables h1) as [programs h2].
  assert (keeps (λ _, False) h1 h2) as K2 by apply (ow_keeps _ _ _ _ W).
  split; [by eapply keeps_trans |].
  assert (Forall (λ e, section_ok (fst e)) (map (λ o, (ob_section o, snd o)) (obs ++ [o]))) as Hall.
  { apply Forall_map, Forall_app. split; [done | by apply Forall_singleton]. }
  pose proof (observeAll_follows _ Hall) as Hfol. unfold observeAll in Hfol, S6. rewrite map_app in Hfol.
  rewrite foldM_app, S6 in Hfol. cbn in Hfol.
  destruct (observeReady (ob_section o) (snd o) (sv_readyGroups sv)) as [[groups changed] | | |] eqn:Hg; try done.
  intros last. split; cbn [sv_tables sv_programs sv_readyGroups].
  - done.
  - intros t'. unfold tables. setoid_rewrite elem_of_app. destruct (decide (t = t')) as [<- | Hne].
    + rewrite lookup_insert_eq. split; [intros _; exists o; split; [right; by left | done] | done].
    + rewrite lookup_insert_ne, S0 by done. split; [intros (o' & ? & ?); exists o'; auto |].
      intros (o' & [Ho' | Ho'%list_elem_of_singleton] & Ht); [by exists o' | subst o'; by destruct Hne].
  - intros t' n'. rewrite <- Hlat. apply map_ext_in. intros p Hp%list_elem_of_In. apply view_keeps; [done | by eapply Hclean].
  - intros t' n' p Hp. destruct (Hclean t' n' p Hp). split; [by eapply ptr_keeps | by eapply clean_keeps].
  - intros id. rewrite (ow_view _ _ _ _ W), programOf_whole, tableItems_everywhere, map_everywhere by done.
    f_equal. by apply everywhere_ext.
  - intros id p Hp. unfold ptr_ok. destruct (p_Extended p) as [a |] eqn:E; [| done]. apply (ow_new _ _ _ _ W id p a Hp E).
  - unfold observeAll. rewrite map_app, foldM_app, S6. cbn. by rewrite Hg.
Qed.

(** The state of all services. *)
Definition snapshot_ok (obs : list observation) (st : Snapshot * store) : Prop :=
  store_ok (snd st) ∧ ∀ key,
    match sn_services (fst st) !! key with
    | None => ofKey key obs = []
    | Some sv => service_ok (ofKey key obs) (snd st) sv
    end.

Lemma ofKey_snoc key obs o : ofKey key (obs ++ [o]) =
  ofKey key obs ++ if decide (keyOf (ob_section o) = key ∧ supported o) then [o] else [].
Proof. unfold ofKey. rewrite filter_app, filter_cons, filter_nil. by case_decide. Qed.

Lemma Observe_ok obs s h o : snapshot_ok obs (s, h) → Forall observation_ok obs → observation_ok o →
  returns (Observe s (ob_section o) (ob_events o) (snd o) h) (λ '(s', _, h'), snapshot_ok (obs ++ [o]) (s', h')).
Proof.
  intros [Hok Hsv] Hobs Ho. cbn [fst snd] in *. unfold Observe. set (sec := ob_section o) in *.
  destruct ((TableID sec <? 0x50) || (0x6f <? TableID sec)) eqn:Hun.
  - split; [done |]. intros key. cbn [fst snd]. rewrite ofKey_snoc, decide_False, app_nil_r; [apply Hsv |].
    intros [_ Hsup]. unfold supported in Hsup. fold sec in Hsup. apply orb_true_iff in Hun as [?%Z.ltb_lt | ?%Z.ltb_lt]; lia.
  - assert (supported o) as Hsup by (bools; unfold supported; fold sec; lia).
    set (sv := default newService (sn_services s !! keyOf sec)).
    assert (service_ok (ofKey (keyOf sec) obs) h sv) as Hs.
    { specialize (Hsv (keyOf sec)). unfold sv. destruct (sn_services s !! keyOf sec); [exact Hsv |]. rewrite Hsv. apply newService_ok. }
    pose proof (service_observe _ h sv o Hok Hs Ho Hsup) as H. ospecialize (H _).
    { apply Forall_forall. intros o' [_ Ho']%list_elem_of_filter. rewrite Forall_forall in Hobs. by apply Hobs. }
    fold sec in H. destruct (sectionPrograms sec (ob_events o) h) as [ps h1].
    match goal with |- context [<[TableID sec := ?tb]>] => specialize (H tb eq_refl) end. cbv zeta in H.
    destruct (rebuildServicePrograms _ h1) as [programs h2]. destruct H as [K H].
    apply safe_bind. eapply safe_mono; [exact H |]. intros [groups readyChanged] Hnew. apply safe_ret.
    split; [apply K |]. intros key. cbn [fst snd sn_services]. rewrite ofKey_snoc. destruct (decide (keyOf sec = key)) as [<- | Hne].
    + rewrite lookup_insert_eq, decide_True by done. apply Hnew.
    + rewrite lookup_insert_ne, decide_False, app_nil_r by (done || by intros [? _]). specialize (Hsv key).
      destruct (sn_services s !! key); [| done]. by eapply service_keeps.
Qed.

Lemma ObserveAll_ok obs : Forall observation_ok obs →
  returns (ObserveAll obs (NewSnapshot, emptyStore)) (snapshot_ok obs).
Proof.
  intros Hobs. unfold ObserveAll. apply (safe_foldM_prefix snapshot_ok).
  - split; [| intros key; cbn; by rewrite lookup_empty]. intros a. cbn. rewrite lookup_empty. split; [by intros [] | lia].
  - intros k o [s h] Hk [r Hr]. rewrite Hr, !Forall_app in Hobs. destruct Hobs as [[Hk' Ho] _]. apply Forall_inv in Ho.
    cbn [fst snd]. apply safe_bind. eapply safe_mono; [by apply (Observe_ok k) |]. by intros [[s' b] h'] H.
Qed.

End Observing.

(** ** The programs of a snapshot *)

(** The programs that the sections of a service make. *)
Definition itemsOf (key : ServiceKey) (obs : list observation) : list (Z * Program textMap) := everywhere (latest (ofKey key obs)).
Definition basicItems (id : Z) (items : list (Z * Program textMap)) : list (Program textMap) :=
  map snd (filter (λ e, isScheduleBasic (fst e) = true ∧ p_ID (snd e) = id) items).
Definition extendedItems (id : Z) (items : list (Z * Program textMap)) : list (Program textMap) :=
  map snd (filter (λ e, isScheduleExtended (fst e) = true ∧ p_ID (snd e) = id) items).

Lemma basicItems_ID id items p : p ∈ basicItems id items → p_ID p = id.
Proof. unfold basicItems. rewrite list_elem_of_fmap. by intros (e & -> & [[_ H] _]%list_elem_of_filter). Qed.

(** The items of a program and what they make. *)
Lemma wholeProgram_some items id p : wholeProgram items id = Some p →
  p_ID p = id ∧ ∃ b bs, basicItems id items = b :: bs ∧ gathers b bs (extendedItems id items) p.
Proof.
  intros H. unfold wholeProgram in H. fold (basicItems id items) (extendedItems id items) in H.
  destruct (basicItems id items) as [| b bs] eqn:E; [done |].
  destruct (built_gathers b bs (extendedItems id items)) as (p' & Hp' & Hg). rewrite H in Hp'. injection Hp' as <-.
  assert (p_ID b = id) as Hb by (apply (basicItems_ID id items); rewrite E; left).
  split; [by rewrite (proj1 (ga_ID _ _ _ _ Hg)) | by exists b, bs].
Qed.

Lemma wholeProgram_none items id : wholeProgram items id = None ↔ basicItems id items = [].
Proof. unfold wholeProgram. fold (basicItems id items). by rewrite built_none. Qed.

Lemma StronglySorted_sortedKeys {A} (m : gmap Z A) : StronglySorted Z.lt (sortedKeys m).
Proof.
  assert (Sorted Z.le (sortedKeys m)) as Hs by apply (Sorted_merge_sort Z.le).
  apply Sorted_StronglySorted in Hs; [| apply _]. pose proof (NoDup_sortedKeys m) as Hnd. revert Hnd.
  induction Hs as [| k ks Hs IH Hk]; intros Hnd; [constructor |]. apply NoDup_cons in Hnd as [Hn Hnd].
  constructor; [by apply IH |]. rewrite Forall_forall in Hk |- *. intros j Hj. specialize (Hk j Hj).
  assert (k ≠ j) by (by intros ->). lia.
Qed.

Lemma map_ID_programs (m : gmap Z (Program (option nat))) : (∀ id p, m !! id = Some p → p_ID p = id) →
  map p_ID (omap (λ id, m !! id) (sortedKeys m)) = sortedKeys m.
Proof.
  intros Hid. assert (∀ k, k ∈ sortedKeys m → is_Some (m !! k)) as Hin by (intros k; apply elem_sortedKeys).
  induction (sortedKeys m) as [| k ks IH]; [done |]. destruct (Hin k) as [p Hp]; [by left |]. cbn. rewrite Hp. cbn.
  rewrite (Hid k p Hp), IH; [done |]. intros j Hj. apply Hin. by right.
Qed.

(** C29 (refinement): after any sequence of schedule sections in which no extended
    event is empty, the programs of a service are, in the order of their
    identifiers, those for which a basic table has an item, and every program
    gathers the items of the sections as last received, table by table and
    section by section: each text, genre list, series and so on comes from the
    first item that has one, basic before extended, the times from the last
    basic item.  The service counts as observed once a basic section came.  In
    particular no program shows the text of a section that was replaced.  An empty
    extended event, which the theorem excludes, leaves a map that programs and their
    copies share and whose texts do go stale, see [shared_map_goes_stale]. *)
Theorem snapshot_programs {O : RangeOrderOf (list Z) (list Z)} obs : Forall observation_ok obs →
  returns (ObserveAll obs (NewSnapshot, emptyStore)) (λ '(s, h), ∀ key,
    StronglySorted Z.lt (map p_ID (Programs s key)) ∧
    (∀ p, p ∈ Programs s key → ∃ b bs, basicItems (p_ID p) (itemsOf key obs) = b :: bs ∧
       gathers b bs (extendedItems (p_ID p) (itemsOf key obs)) (view h p)) ∧
    (∀ id, basicItems id (itemsOf key obs) ≠ [] → id ∈ map p_ID (Programs s key)) ∧
    (Observed s key = true ↔ ∃ o, o ∈ ofKey key obs ∧ isScheduleBasic (TableID (ob_section o)) = true)).
Proof.
  intros Hobs. eapply safe_mono; [by apply ObserveAll_ok |]. intros [s h] [_ Hs] key. specialize (Hs key). cbn [fst snd] in Hs.
  unfold Programs, Observed, itemsOf. destruct (sn_services s !! key) as [sv |].
  - destruct Hs as [_ S0 _ _ S4 _ _]. set (items := everywhere (latest (ofKey key obs))) in *.
    assert (∀ id p, sv_programs sv !! id = Some p → p_ID p = id ∧
      ∃ b bs, basicItems id items = b :: bs ∧ gathers b bs (extendedItems id items) (view h p)) as Hsome.
    { intros id p Hp. apply (wholeProgram_some items id (view h p)). by rewrite <- S4, Hp. }
    rewrite map_ID_programs by (intros id p Hp; by apply Hsome). split_and!.
    + apply StronglySorted_sortedKeys.
    + intros p (id & Hid & Hp)%list_elem_of_omap. destruct (Hsome id p Hp) as [-> H]. exact H.
    + intros id Hne. apply elem_sortedKeys. destruct (sv_programs sv !! id) eqn:E; [done |].
      exfalso. apply Hne, wholeProgram_none. by rewrite <- S4, E.
    + rewrite existsb_exists. split.
      * intros ([t tb] & Ht%list_elem_of_In%elem_of_map_to_list & Hb). destruct (proj1 (S0 t)) as (o & Ho & <-); [by exists tb |]. by exists o.
      * intros (o & Ho & Hb). destruct (proj2 (S0 (TableID (ob_section o)))) as [tb Htb]; [by exists o |].
        exists (TableID (ob_section o), tb). split; [by apply list_elem_of_In, elem_of_map_to_list | done].
  - rewrite Hs. assert (everywhere (latest []) = []) as ->.
    { unfold everywhere, latest. cbn [fold_left map]. generalize (seqZ 0 256) as ns, (seqZ 0x50 32) as ts. intros ns ts.
      assert (∀ t : Z, flat_map (λ _ : Z, []) ns = @nil (Z * Program textMap)) as H by (intros _; by induction ns).
      induction ts as [| t ts IH]; [done |]. cbn [flat_map]. by rewrite IH, (H t). }
    split_and!; [constructor | by intros p ?%elem_of_nil | done |]. split; [done | by intros (o & ?%elem_of_nil & _)].
Qed.

(** The identifier of a program packs the network, the service and
    the event: two programs with the same identifier are the same event, and the
    identifier of three 16-bit numbers fits an [int64]. *)
Theorem ProgramID_packs n s e n' s' e' :
  Forall word16 [n; s; e; n'; s'; e'] →
  0 ≤ ProgramID n s e < 2 ^ 63 ∧ (ProgramID n s e = ProgramID n' s' e' → n = n' ∧ s = s' ∧ e = e') ∧
  (ProgramID n s e < ProgramID n' s' e' ↔ n < n' ∨ n = n' ∧ (s < s' ∨ s = s' ∧ e < e')).
Proof. unfold ProgramID. rewrite !Forall_cons. unfold word16. intros (? & ? & ? & ? & ? & ? & _). lia. Qed.

(** ** Examples *)

(** One event, in a basic table with a name, in an extended table with a text. *)
Definition nameText : list Z := [65].
Definition itemKey : list Z := [75].
Definition oldText : list Z := [49].
Definition newText : list Z := [50].
Definition sampleBasic (version : Z) (ds : list EITDescriptor) : observation :=
  (MkEITSection 4 16625 101 0x50 0x50 0 0 0 version, [MkEITEvent 7 1000 60000 false ds], 0).
Definition sampleExtended (version : Z) (text : list Z) : observation :=
  (MkEITSection 4 16625 101 0x58 0x58 0 0 0 version,
   [MkEITEvent 7 1000 60000 false [extendedEvent [] [] [[itemKey; text]]]], 0).
Definition sampleObservations : list observation :=
  [sampleBasic 1 [shortEvent [] nameText []]; sampleExtended 1 oldText; sampleExtended 2 newText].
Definition sampleKey : ServiceKey := (4, 101, 16625).

(** The names and the extended texts of the programs after [obs]. *)
Definition shown (obs : list observation) : outcome (list (list Z * list (list Z * list Z))) :=
  '(s, h) ← ObserveAll (O := keyOrderOf) obs (NewSnapshot, emptyStore);
  Ret (map (λ p, (p_Name p, map_to_list (contents h (p_Extended p)))) (Programs s sampleKey)).

Lemma sample_observations_ok : Forall observation_ok sampleObservations.
Proof.
  assert (∀ v, byte_ok v → observation_ok (sampleBasic v [shortEvent [] nameText []])) as Hb.
  { intros v Hv. split; [unfold section_ok, byte_ok; cbn; lia |]. constructor; [| constructor]. constructor; [done | constructor]. }
  assert (∀ v text, byte_ok v → observation_ok (sampleExtended v text)) as He.
  { intros v text Hv. split; [unfold section_ok, byte_ok; cbn; lia |]. constructor; [| constructor]. constructor; [| constructor].
    intros _. constructor. by exists itemKey, text, []. }
  constructor; [apply Hb; unfold byte_ok; lia |]. constructor; [apply He; unfold byte_ok; lia |].
  constructor; [apply He; unfold byte_ok; lia | constructor].
Qed.

Lemma snapshot_programs_witness :
  shown sampleObservations = Ret [(nameText, [(itemKey, newText)])] ∧
  returns (ObserveAll (O := keyOrderOf) sampleObservations (NewSnapshot, emptyStore)) (λ '(s, h), ∀ key,
    StronglySorted Z.lt (map p_ID (Programs s key)) ∧
    (∀ p, p ∈ Programs s key → ∃ b bs, basicItems (p_ID p) (itemsOf key sampleObservations) = b :: bs ∧
       gathers b bs (extendedItems (p_ID p) (itemsOf key sampleObservations)) (view h p)) ∧
    (∀ id, basicItems id (itemsOf key sampleObservations) ≠ [] → id ∈ map p_ID (Programs s key)) ∧
    (Observed s key = true ↔ ∃ o, o ∈ ofKey key sampleObservations ∧ isScheduleBasic (TableID (ob_section o)) = true)).
Proof.
  split; [vm_compute; reflexivity |].
  exact (snapshot_programs (O := keyOrderOf) sampleObservations sample_observations_ok).
Defined.

Lemma ProgramID_packs_witness :
  ProgramID 4 101 7 = 40010100007 ∧
  0 ≤ ProgramID 65535 65535 65535 < 2 ^ 63 ∧
  (ProgramID 65535 65535 65535 = ProgramID 4 101 7 → 65535 = 4 ∧ 65535 = 101 ∧ 65535 = 7) ∧
  (ProgramID 65535 65535 65535 < ProgramID 4 101 7 ↔ 65535 < 4 ∨ 65535 = 4 ∧ (65535 < 101 ∨ 65535 = 101 ∧ 65535 < 7)).
Proof.
  split; [reflexivity |]. apply (ProgramID_packs 65535 65535 65535 4 101 7).
  repeat constructor; unfold word16; lia.
Defined.

(** An extended event without an item gives its program a map that is empty but
    not nil, which [cloneProgram] does not copy: [mergeProgram] then writes the
    texts of the extended tables into the map of the stored program of the basic
    table, where they come before those of later versions.  The same sections
    without that descriptor show the new text. *)
Lemma shared_map_goes_stale :
  shown [sampleBasic 1 [shortEvent [] nameText []; extendedEvent [] [] []]; sampleExtended 1 oldText; sampleExtended 2 newText] =
    Ret [(nameText, [(itemKey, oldText)])] ∧
  shown sampleObservations = Ret [(nameText, [(itemKey, newText)])].
Proof. vm_compute. done. Qed.
