(* ===== verification/Completion.v ===== *)
(** * When a snapshot of the EPG is complete ([internal/epg/snapshot.go])

    The collection of a transport stream ends when every expected service is
    ready and no extended table that was seen is incomplete; what is missing is
    reported.  The answers are stated for the sections observed, through the
    state that [Programs] describes and the bitmaps of [Schedule]. *)

From S2P Require Import Prelude Crc32 AribTables Aribstr Descriptors Psi Events Schedule EventDescriptors Programs.

(** ** The code *)

Record SnapshotTableReport : Type := MkTableReport {
  tr_TableID : Z;
  tr_Version : Z;
  tr_LastSection : Z;
  tr_ObservedSections : Z;
  tr_MissingSections : list Z;
  tr_Complete : bool
}.

Record SnapshotReport : Type := MkReport {
  sr_ObservedTables : Z;
  sr_MissingTableIDs : list Z;
  sr_Tables : list SnapshotTableReport
}.

Section Code.
Context {OG : RangeOrder snapshotReadyGroup} {OU : RangeOrder unit}.

(** [Snapshot.ServiceReady] *)
Definition snapshotServiceReady (s : Snapshot) (key : ServiceKey) : outcome bool :=
  match sn_services s !! key with
  | None => Ret false
  | Some service => ServiceReady (sv_readyGroups service)
  end.

Definition AllReady (s : Snapshot) (expected : list ServiceKey) : outcome bool :=
  if bool_decide (expected = []) then Ret false
  else foldM (λ ok key, if ok : bool then snapshotServiceReady s key else Ret false) expected true.

(** The loop over the groups of a service. *)
Definition extendedReady (service : snapshotService) : outcome bool :=
  foldM (λ ok e, if ok : bool then
    if negb (isScheduleExtended (rg_base (snd e))) then Ret true else ready (snd e) else Ret false)
    (range (sv_readyGroups service)) true.

Definition ObservedExtendedReady (s : Snapshot) (expected : list ServiceKey) : outcome bool :=
  foldM (λ ok key, if ok : bool then
    match sn_services s !! key with None => Ret true | Some service => extendedReady service end
    else Ret false) expected true.

Definition tableReport (service : snapshotService) (tableID : Z) (table : snapshotTable) : outcome SnapshotTableReport :=
  let base := Z.land tableID 0xf8 in
  complete ← readyTableComplete (sv_readyGroups service !! base) tableID;
  missing ← readyMissingSections (sv_readyGroups service !! base) tableID;
  Ret (MkTableReport tableID (tb_version table) (tb_lastSection table) (Z.of_nat (size (tb_sections table))) missing complete).

(** The loop over the groups of the tables. *)
Definition missingTables (service : snapshotService) (readyGroups : gmap Z unit) : list Z :=
  flat_map (λ e, match sv_readyGroups service !! fst e with
    | None => []
    | Some group =>
        filter (λ tableID, sv_tables service !! tableID = None)
          (map (λ i, u8 (fst e + u8 i)) (seqZ 0 (rg_lastFlagsID group + 1)))
    end) (range readyGroups).

Definition CompletionReport (s : Snapshot) (key : ServiceKey) : outcome SnapshotReport :=
  match sn_services s !! key with
  | None => Ret (MkReport 0 [] [])
  | Some service =>
      let tableIDs := sortedKeys (sv_tables service) in
      '(tables, readyGroups) ← foldM (λ st id,
        let '(tables, readyGroups) := st in
        match sv_tables service !! id with
        | None => Panic
        | Some table =>
            report ← tableReport service id table;
            Ret (tables ++ [report], <[Z.land id 0xf8 := tt]> readyGroups)
        end) tableIDs ([], ∅);
      Ret (MkReport (len tableIDs) (sortInts (missingTables service readyGroups)) tables)
  end.

End Code.

(** ** Properties *)

(** The sections of a service, with their times. *)
Definition timed (key : ServiceKey) (obs : list observation) : list (EITSection * Z) :=
  map (λ o, (ob_section o, snd o)) (ofKey key obs).

(** The group [base] of the service has been seen, and is complete. *)
Definition seen (key : ServiceKey) (obs : list observation) (base : Z) : Prop := ofGroup base (timed key obs) ≠ [].
Definition wholeGroup (key : ServiceKey) (obs : list observation) (base : Z) : Prop :=
  complete base (current (ofGroup base (timed key obs))).

Definition service_ready (key : ServiceKey) (obs : list observation) : Prop :=
  (∃ base, isScheduleBasic base = true ∧ seen key obs base) ∧
  ∀ base, isScheduleBasic base = true → seen key obs base → wholeGroup key obs base.

(** The section at the place [b] of the segment [j] of the table [t] arrived in
    the current version or is not expected. *)
Definition settled (key : ServiceKey) (obs : list observation) (t j b : Z) : Prop :=
  let secs := current (ofGroup (Z.land t 0xf8) (timed key obs)) in
  received secs (Z.land t 7) j b ∨ excused (Z.land t 0xf8) secs (Z.land t 7) j b.

(** What is reported of a table. *)
Record report_ok (key : ServiceKey) (obs : list observation) (r : SnapshotTableReport) : Prop := {
  re_Complete : tr_Complete r = true ↔ ∀ j b, 0 ≤ j < 32 → 0 ≤ b < 8 → settled key obs (tr_TableID r) j b;
  re_MissingSections : ∀ n, n ∈ tr_MissingSections r ↔
    ∃ j b, 0 ≤ j < 32 ∧ 0 ≤ b < 8 ∧ n = 8 * j + b ∧ ¬ settled key obs (tr_TableID r) j b
}.

(** A table up to the last of its group that was not seen. *)
Definition tableMissing (key : ServiceKey) (obs : list observation) (t : Z) : Prop :=
  (∃ base s now, (s, now) ∈ current (ofGroup base (timed key obs)) ∧ base ≤ t ≤ base + lastTable s) ∧
  ¬ ∃ o, o ∈ ofKey key obs ∧ TableID (ob_section o) = t.

Section Proofs.
Context {OM : RangeOrderOf (list Z) (list Z)} {OG : RangeOrder snapshotReadyGroup} {OU : RangeOrder unit}.

(** The groups of a service follow its sections. *)
Lemma groups_follow obs st key sv : Forall observation_ok obs → snapshot_ok obs st → sn_services (fst st) !! key = Some sv →
  follows (timed key obs) (sv_readyGroups sv).
Proof.
  intros Hobs [_ Hs] Hsv. specialize (Hs key). rewrite Hsv in Hs.
  pose proof (observeAll_follows (timed key obs)) as H. ospecialize (H _).
  { apply Forall_map, Forall_forall. intros o [_ Ho]%list_elem_of_filter. rewrite Forall_forall in Hobs. by apply Hobs. }
  unfold timed in *. by rewrite (so_groups _ _ _ Hs) in H.
Qed.

Lemma snapshotServiceReady_ok obs st key : Forall observation_ok obs → snapshot_ok obs st →
  returns (snapshotServiceReady (fst st) key) (λ ok, ok = true ↔ service_ready key obs).
Proof.
  intros Hobs Hs. unfold snapshotServiceReady, service_ready. destruct (sn_services (fst st) !! key) as [sv |] eqn:E.
  - by apply (ServiceReady_ok (timed key obs)), (groups_follow obs st key).
  - destruct Hs as [_ Hs]. specialize (Hs key). rewrite E in Hs. cbn. unfold seen, timed. rewrite Hs.
    split; [done |]. by intros [(base & _ & []) _].
Qed.

Lemma AllReady_ok obs st expected : Forall observation_ok obs → snapshot_ok obs st →
  returns (AllReady (fst st) expected) (λ ok, ok = true ↔ expected ≠ [] ∧ ∀ key, key ∈ expected → service_ready key obs).
Proof.
  intros Hobs Hs. unfold AllReady. case_bool_decide as E; [by cbn; split; [| intros [[] _]] |].
  eapply safe_mono; [apply (foldM_all (λ key, service_ready key obs)) | cbn; tauto].
  intros key _. by apply snapshotServiceReady_ok.
Qed.

(** The groups of a service that are of a kind. *)
Lemma groups_seen key obs groups (kind : Z → bool) : follows (timed key obs) groups →
  returns (foldM (λ ok e, if ok : bool then if negb (kind (rg_base (snd e))) then Ret true else ready (snd e) else Ret false)
             (range groups) true)
    (λ ok, ok = true ↔ ∀ base, kind base = true → seen key obs base → wholeGroup key obs base).
Proof.
  intros Hf. eapply safe_mono.
  - apply (foldM_all (λ e, kind (fst e) = true → wholeGroup key obs (fst e))
      (λ e, if negb (kind (rg_base (snd e))) then Ret true else ready (snd e))).
    intros [base g] Hg%range_elem. specialize (Hf base). rewrite Hg in Hf. destruct Hf as [_ Hr]. cbn [fst snd].
    rewrite (rp_base _ _ _ Hr). destruct (kind base); cbn [negb].
    + eapply safe_mono; [by apply ready_ok |]. cbn. unfold wholeGroup. tauto.
    + by cbn.
  - cbn. intros ok ->. split.
    + intros H base Hk Hs. specialize (Hf base). unfold seen in Hs. destruct (groups !! base) as [g |] eqn:Eg; [| done].
      by apply (H (base, g)); [apply range_elem |].
    + intros H [base g] Hg%range_elem Hk. apply H; [done |]. specialize (Hf base). rewrite Hg in Hf. apply Hf.
Qed.

Lemma ObservedExtendedReady_ok obs st expected : Forall observation_ok obs → snapshot_ok obs st →
  returns (ObservedExtendedReady (fst st) expected) (λ ok, ok = true ↔
    ∀ key base, key ∈ expected → isScheduleExtended base = true → seen key obs base → wholeGroup key obs base).
Proof.
  intros Hobs Hs. unfold ObservedExtendedReady. eapply safe_mono.
  - apply (foldM_all (λ key, ∀ base, isScheduleExtended base = true → seen key obs base → wholeGroup key obs base)
      (λ key, match sn_services (fst st) !! key with None => Ret true | Some service => extendedReady service end)).
    intros key _. destruct (sn_services (fst st) !! key) as [sv |] eqn:E.
    + apply groups_seen. by apply (groups_follow obs st).
    + destruct Hs as [_ Hs]. specialize (Hs key). rewrite E in Hs. cbn. split; [| done]. intros _ base _ Hseen.
      unfold seen, timed in Hseen. by rewrite Hs in Hseen.
  - cbn. intros ok ->. naive_solver.
Qed.

(** The tables of a service by number. *)
Lemma tables_seen obs st key sv t : snapshot_ok obs st → sn_services (fst st) !! key = Some sv →
  is_Some (sv_tables sv !! t) ↔ ∃ o, o ∈ ofKey key obs ∧ TableID (ob_section o) = t.
Proof. intros [_ Hs] E. specialize (Hs key). rewrite E in Hs. apply Hs. Qed.

Lemma current_nonempty secs : secs ≠ [] → current secs ≠ [].
Proof.
  destruct secs as [| e secs _] using rev_ind; [done |]. intros _. unfold current. rewrite fold_left_app. cbn. unfold track.
  destruct (supersedes _ _); [done |]. by intros [_ ?]%app_eq_nil.
Qed.

(** The group of a table that was seen. *)
Lemma table_group obs st key sv t : Forall observation_ok obs → snapshot_ok obs st → sn_services (fst st) !! key = Some sv →
  is_Some (sv_tables sv !! t) → ∃ g, sv_readyGroups sv !! Z.land t 0xf8 = Some g ∧
    represents (Z.land t 0xf8) (current (ofGroup (Z.land t 0xf8) (timed key obs))) g.
Proof.
  intros Hobs Hs E Ht. pose proof (groups_follow obs st key sv Hobs Hs E (Z.land t 0xf8)) as Hf.
  apply (tables_seen obs st key sv t Hs E) in Ht as (o & Ho & <-).
  destruct (sv_readyGroups sv !! Z.land (TableID (ob_section o)) 0xf8) as [g |] eqn:Eg; [exists g; by split; [| apply Hf] |].
  exfalso. assert ((ob_section o, snd o) ∈ ofGroup (Z.land (TableID (ob_section o)) 0xf8) (timed key obs)) as Hin.
  { unfold ofGroup, timed. apply list_elem_of_filter. split; [done |]. apply list_elem_of_fmap. by exists o. }
  rewrite Hf in Hin. by apply elem_of_nil in Hin.
Qed.

Lemma tableReport_ok obs st key sv t tb : Forall observation_ok obs → snapshot_ok obs st →
  sn_services (fst st) !! key = Some sv → sv_tables sv !! t = Some tb →
  returns (tableReport sv t tb) (λ r, tr_TableID r = t ∧ report_ok key obs r).
Proof.
  intros Hobs Hs E Ht. destruct (table_group obs st key sv t Hobs Hs E ltac:(by exists tb)) as (g & Hg & Hr).
  unfold tableReport. rewrite Hg. pose proof (low_bits t). apply safe_bind. eapply safe_mono.
  { instantiate (1 := λ ok, ok = true ↔ ∀ j b, 0 ≤ j < 32 → 0 ≤ b < 8 → settled key obs t j b).
    cbn [readyTableComplete]. destruct (flags_at g (Z.land t 7) (rp_length _ _ _ Hr) (low_bits _)) as (f & Hi & ->). run.
    apply (rp_flags _ _ _ Hr) in Hi. rewrite Z2Nat.id in Hi by lia. by apply (readyFlag_ok (Z.land t 0xf8)). }
  intros ok Hc. apply safe_bind. eapply safe_mono; [by apply (readyMissingSections_ok (Z.land t 0xf8)) |].
  intros missing Hm. apply safe_ret. by split.
Qed.

Lemma missingTables_ok obs st key sv readyGroups t : Forall observation_ok obs → snapshot_ok obs st →
  sn_services (fst st) !! key = Some sv →
  (∀ base, is_Some (readyGroups !! base) ↔ ∃ i, is_Some (sv_tables sv !! i) ∧ base = Z.land i 0xf8) →
  t ∈ missingTables sv readyGroups ↔ tableMissing key obs t.
Proof.
  intros Hobs Hs E Hbases. pose proof (groups_follow obs st key sv Hobs Hs E) as Hf.
  unfold missingTables, tableMissing. rewrite <- (tables_seen obs st key sv t Hs E), <- eq_None_not_Some.
  rewrite list_elem_of_In, in_flat_map. setoid_rewrite <- list_elem_of_In.
  assert (∀ base, is_Some (readyGroups !! base) ↔ ofGroup base (timed key obs) ≠ []) as Hseen.
  { intros base. rewrite Hbases. split.
    - intros (i & Hi & ->). destruct (table_group obs st key sv i Hobs Hs E Hi) as (g & Hg & _). specialize (Hf (Z.land i 0xf8)).
      rewrite Hg in Hf. apply Hf.
    - intros Hne. destruct (ofGroup base (timed key obs)) as [| [s now] l] eqn:El; [done |].
      assert ((s, now) ∈ ofGroup base (timed key obs)) as [Hb Hin]%list_elem_of_filter by (rewrite El; left).
      apply list_elem_of_fmap in Hin as (o & [= -> ->] & Ho). exists (TableID (ob_section o)).
      split; [| by rewrite <- Hb]. apply (tables_seen obs st key sv _ Hs E). by exists o. }
  assert (∀ base s now, (s, now) ∈ current (ofGroup base (timed key obs)) → ∃ g, sv_readyGroups sv !! base = Some g ∧
    rg_lastFlagsID g = lastTable s ∧ is_Some (readyGroups !! base)) as Hlast.
  { intros base s now Hin. specialize (Hf base). destruct (sv_readyGroups sv !! base) as [g |]; [| by rewrite Hf in Hin; apply elem_of_nil in Hin].
    exists g. destruct Hf as [Hne Hr]. split_and!; [done | | by apply Hseen]. pose proof (rp_last _ _ _ Hr) as Hl.
    destruct (current (ofGroup base (timed key obs))); [by apply elem_of_nil in Hin | by apply (Hl s now)]. }
  assert (∀ base i, is_Some (readyGroups !! base) → 0 ≤ i < 8 → u8 (base + u8 i) = base + i) as Hu8.
  { intros base i (o & Ho & ->)%Hbases Hi. rewrite (tables_seen obs st key sv o Hs E) in Ho. destruct Ho as (x & [[_ Hx] _]%list_elem_of_filter & <-).
    pose proof (land_mask (TableID (ob_section x)) 0xf8 ltac:(lia)). unfold u8. rewrite (Z.mod_small i) by lia. apply Z.mod_small. lia. }
  split.
  - intros ([base []] & Hin%range_elem & Ht). cbn [fst] in Ht. assert (is_Some (readyGroups !! base)) as Hb by (by exists tt).
    pose proof Hb as Hne%Hseen. specialize (Hf base). destruct (sv_readyGroups sv !! base) as [g |] eqn:Eg; [| by apply elem_of_nil in Ht].
    apply list_elem_of_filter in Ht as [Hnone (i & -> & Hi%elem_of_seqZ)%list_elem_of_fmap]. split; [| done].
    destruct Hf as [_ Hr]. destruct (current (ofGroup base (timed key obs))) as [| [s now] l] eqn:Ec; [by apply current_nonempty in Hne |].
    exists base, s, now. assert ((s, now) ∈ current (ofGroup base (timed key obs))) as Hs0 by (rewrite Ec; left).
    split; [exact Hs0 |]. destruct (Hlast base s now Hs0) as (g' & Hg' & Hl & _). rewrite Eg in Hg'. injection Hg' as <-.
    pose proof (low_bits (LastTableID s)). unfold lastTable in Hl. rewrite Hu8 by (done || lia). unfold lastTable. lia.
  - intros [(base & s & now & Hin & Ht) Hnone]. destruct (Hlast base s now Hin) as (g & Hg & Hl & Hb).
    exists (base, tt). split; [apply range_elem; by destruct Hb as [[] ?] |]. cbn [fst]. rewrite Hg. apply list_elem_of_filter. split; [done |].
    apply list_elem_of_fmap. pose proof (low_bits (LastTableID s)). unfold lastTable in *. exists (t - base).
    split; [rewrite Hu8 by (done || lia); lia | apply elem_of_seqZ; lia].
Qed.

(** What the report of a service is to hold. *)
Record snapshotReport_ok (key : ServiceKey) (obs : list observation) (r : SnapshotReport) : Prop := {
  rs_sorted : StronglySorted Z.lt (map tr_TableID (sr_Tables r));
  rs_tables : ∀ t, t ∈ map tr_TableID (sr_Tables r) ↔ ∃ o, o ∈ ofKey key obs ∧ TableID (ob_section o) = t;
  rs_ObservedTables : sr_ObservedTables r = len (sr_Tables r);
  rs_reports : Forall (report_ok key obs) (sr_Tables r);
  rs_missing_sorted : Sorted Z.le (sr_MissingTableIDs r);
  rs_missing : ∀ t, t ∈ sr_MissingTableIDs r ↔ tableMissing key obs t
}.

Lemma CompletionReport_ok obs st key : Forall observation_ok obs → snapshot_ok obs st →
  returns (CompletionReport (fst st) key) (snapshotReport_ok key obs).
Proof.
  intros Hobs Hs. unfold CompletionReport. destruct (sn_services (fst st) !! key) as [sv |] eqn:E.
  - apply safe_bind. eapply safe_mono.
    + apply (safe_foldM_prefix (λ k st, map tr_TableID (fst st) = k ∧ Forall (report_ok key obs) (fst st) ∧
        ∀ base, is_Some (snd st !! base) ↔ ∃ i, i ∈ k ∧ base = Z.land i 0xf8)).
      * split_and!; [done | constructor |]. intros base. cbn. rewrite lookup_empty. split; [by intros [] | by intros (i & ?%elem_of_nil & _)].
      * intros k t [tables groups] (H1 & H2 & H3) [rest Hpre]. cbn [fst snd] in *.
        assert (is_Some (sv_tables sv !! t)) as [tb Ht] by (apply elem_sortedKeys; rewrite Hpre; set_solver). rewrite Ht.
        apply safe_bind. eapply safe_mono; [by apply (tableReport_ok obs st key sv t tb) |]. intros r [Hr1 Hr2]. apply safe_ret. cbn [fst snd].
        split_and!; [rewrite map_app; cbn [map]; by rewrite H1, Hr1 | by apply Forall_snoc |].
        intros base. setoid_rewrite elem_of_app. setoid_rewrite list_elem_of_singleton.
        destruct (decide (Z.land t 0xf8 = base)) as [<- | Hne].
        -- rewrite lookup_insert_eq. split; [intros _; exists t; auto | done].
        -- rewrite lookup_insert_ne, H3 by done. naive_solver.
    + intros [tables groups] (H1 & H2 & H3). cbn [fst snd] in *. apply safe_ret. split; cbn [sr_Tables sr_ObservedTables sr_MissingTableIDs].
      * rewrite H1. apply StronglySorted_sortedKeys.
      * intros t. rewrite H1, elem_sortedKeys. by apply (tables_seen obs st).
      * unfold len. by rewrite <- H1, length_map.
      * done.
      * apply (Sorted_merge_sort Z.le).
      * intros t. unfold sortInts. rewrite merge_sort_Permutation. apply (missingTables_ok obs st); try done.
        intros base. rewrite H3. setoid_rewrite elem_sortedKeys. done.
  - pose proof Hs as [_ Hkey]. specialize (Hkey key). rewrite E in Hkey. apply safe_ret. split; cbn.
    + constructor.
    + intros t. rewrite Hkey. split; [by intros ?%elem_of_nil | by intros (o & ?%elem_of_nil & _)].
    + done.
    + constructor.
    + constructor.
    + intros t. unfold tableMissing, timed. rewrite Hkey. split; [by intros ?%elem_of_nil |]. by intros [(base & s & now & ?%elem_of_nil & _) _].
Qed.

(** After any sequence of schedule sections, all expected
    services are ready exactly when there are any and each has a basic group and
    no incomplete one; the extended tables count as complete exactly when no
    extended group that was seen is incomplete; and the report of a service lists
    the tables seen in order, with exactly the sections of each that neither
    arrived in the current version nor are excused, and exactly the tables of its
    groups that were not seen. *)
Theorem snapshot_completion obs : Forall observation_ok obs →
  returns (ObserveAll obs (NewSnapshot, emptyStore)) (λ '(s, _),
    (∀ expected, returns (AllReady s expected) (λ ok,
       ok = true ↔ expected ≠ [] ∧ ∀ key, key ∈ expected → service_ready key obs)) ∧
    (∀ expected, returns (ObservedExtendedReady s expected) (λ ok, ok = true ↔
       ∀ key base, key ∈ expected → isScheduleExtended base = true → seen key obs base → wholeGroup key obs base)) ∧
    ∀ key, returns (CompletionReport s key) (snapshotReport_ok key obs)).
Proof.
  intros Hobs. eapply safe_mono; [by apply ObserveAll_ok |]. intros [s h] Hs.
  split_and!; [intros expected; by apply (AllReady_ok obs (s, h)) | intros expected; by apply (ObservedExtendedReady_ok obs (s, h)) |
    intros key; by apply (CompletionReport_ok obs (s, h))].
Qed.

End Proofs.

(** ** Example *)

(** The sample's basic table is complete, its group lacks no table; with a last
    table that did not come, the service is not ready and the table is missing. *)
Definition laterTable : observation :=
  (MkEITSection 4 16625 101 0x50 0x51 0 0 0 1, [], 0).

Lemma laterTable_ok : Forall observation_ok [laterTable].
Proof. constructor; [| constructor]. split; [unfold section_ok, byte_ok; cbn; lia | constructor]. Qed.

Lemma snapshot_completion_witness :
  ('(s, _) ← ObserveAll (O := keyOrderOf) sampleObservations (NewSnapshot, emptyStore);
   AllReady (OG := keyOrder) s [sampleKey]) = Ret true ∧
  ('(s, _) ← ObserveAll (O := keyOrderOf) [laterTable] (NewSnapshot, emptyStore);
   CompletionReport (OU := keyOrder) s sampleKey) =
    Ret (MkReport 1 [0x51] [MkTableReport 0x50 1 0 1 [] true]) ∧
  returns (ObserveAll (O := keyOrderOf) [laterTable] (NewSnapshot, emptyStore)) (λ '(s, _),
    (∀ expected, returns (AllReady (OG := keyOrder) s expected) (λ ok,
       ok = true ↔ expected ≠ [] ∧ ∀ key, key ∈ expected → service_ready key [laterTable])) ∧
    (∀ expected, returns (ObservedExtendedReady (OG := keyOrder) s expected) (λ ok, ok = true ↔
       ∀ key base, key ∈ expected → isScheduleExtended base = true → seen key [laterTable] base → wholeGroup key [laterTable] base)) ∧
    ∀ key, returns (CompletionReport (OU := keyOrder) s key) (snapshotReport_ok key [laterTable])).
Proof.
  split; [vm_compute; reflexivity |]. split; [vm_compute; reflexivity |].
  exact (snapshot_completion (OM := keyOrderOf) (OG := keyOrder) (OU := keyOrder) [laterTable] laterTable_ok).
Defined.
