(* ===== verification/Peers.v ===== *)
(** * Programs that share an event ([internal/epg/program_merge.go])

    Services that broadcast the same event name each other in their event
    groups.  [fillProgramsFromSharedPeers] groups the programs by these links, with
    a union-find forest in a map, and fills what a program lacks from the others of
    its group.

    The programs are shared objects, named by addresses of any countable type;
    the forest is a map from a key to its parent.  [find] follows the map and has
    a fuel that is the size of the map and one. *)

From stdpp Require Import relations pretty.
From S2P Require Import Prelude Crc32 AribTables Aribstr Descriptors Psi Events Schedule EventDescriptors Programs Completion.

(** ** The code: the forest *)

Section Forest.
Context {K : Type} `{Countable K}.

(** [find], which lets every key on the way point to the root. *)
Fixpoint findFuel (fuel : nat) (parent : gmap K K) (key : K) : outcome (K * gmap K K) :=
  match fuel with
  | O => Diverge
  | S fuel =>
      match parent !! key with
      | None => Ret (key, <[key := key]> parent)
      | Some current =>
          if decide (current = key) then Ret (key, parent)
          else '(root, parent) ← findFuel fuel parent current; Ret (root, <[key := root]> parent)
      end
  end.
Definition find (parent : gmap K K) (key : K) : outcome (K * gmap K K) := findFuel (S (size parent)) parent key.

Definition union (a b : K) (parent : gmap K K) : outcome (gmap K K) :=
  '(rootA, parent) ← find parent a;
  '(rootB, parent) ← find parent b;
  Ret (if decide (rootA = rootB) then parent else <[rootB := rootA]> parent).

(** ** The forest *)

(** From [k] it is [n] steps to the root [r]. *)
Inductive leads (parent : gmap K K) : K → K → nat → Prop :=
| leads_root k : parent !! k = Some k → leads parent k k 0
| leads_step k c r n : parent !! k = Some c → c ≠ k → leads parent c r n → leads parent k r (S n).

(** The forest stands for the function [ρ] to the roots. *)
Definition roots (parent : gmap K K) (ρ : K → K) : Prop :=
  ∀ k, match parent !! k with None => ρ k = k | Some _ => ∃ n, leads parent k (ρ k) n end.

Lemma leads_unique parent k r n r' n' : leads parent k r n → leads parent k r' n' → r = r' ∧ n = n'.
Proof.
  intros Hl. revert r' n'. induction Hl as [k Hk | k c r n Hk Hne Hl IH]; intros r' n' Hl';
    destruct Hl' as [k Hk' | k c' r' n' Hk' Hne' Hl']; rewrite Hk in Hk'; simplify_eq; try done.
  destruct (IH _ _ Hl') as [-> ->]. done.
Qed.

Lemma leads_inv parent k c r n : leads parent k r n → parent !! k = Some c → c ≠ k → ∃ m, n = S m ∧ leads parent c r m.
Proof. intros [k' Hk | k' c' r' m Hk Hne Hl] Hc Hck; rewrite Hk in Hc; injection Hc as ->; [done | by exists m]. Qed.

Lemma leads_in parent k r n : leads parent k r n → is_Some (parent !! k).
Proof. destruct 1; by eexists. Qed.

Lemma leads_end parent k r n : leads parent k r n → parent !! r = Some r.
Proof. by induction 1. Qed.

(** The keys on the way to the root are different ones. *)
Lemma leads_path parent k r n : leads parent k r n →
  ∃ path, length path = S n ∧ NoDup path ∧ ∀ x, x ∈ path → ∃ m, (m ≤ n)%nat ∧ leads parent x r m.
Proof.
  induction 1 as [k Hk | k c r n Hk Hne Hl (path & Hlen & Hnd & Hpath)].
  - exists [k]. split_and!; [done | apply NoDup_singleton |]. intros x ->%list_elem_of_singleton. exists 0%nat. by split; [| constructor].
  - exists (k :: path). split_and!; [by cbn; rewrite Hlen | |].
    + apply NoDup_cons. split; [| done]. intros (m & Hm & Hlm)%Hpath.
      destruct (leads_unique parent k r (S n) r m) as [_ <-]; [by apply (leads_step _ _ c) | done | lia].
    + intros x [-> | (m & Hm & Hlm)%Hpath]%elem_of_cons; [exists (S n); split; [lia | by apply (leads_step _ _ c)] | exists m; split; [lia | done]].
Qed.

Lemma leads_short parent k r n : leads parent k r n → (n < size parent)%nat.
Proof.
  intros (path & Hlen & Hnd & Hpath)%leads_path.
  assert (list_to_set path ⊆ dom parent) as Hsub.
  { intros x (m & _ & Hm)%elem_of_list_to_set%Hpath. by apply elem_of_dom, (leads_in _ _ _ _ Hm). }
  apply subseteq_size in Hsub. rewrite size_list_to_set, size_dom in Hsub by done. lia.
Qed.

(** Pointing a key at its root changes no root. *)
Lemma leads_compress parent k r n x rx m : leads parent k r n → leads parent x rx m → ∃ m', leads (<[k := r]> parent) x rx m'.
Proof.
  intros Hk Hx. induction Hx as [x Hx | x c rx m Hx Hne Hl [m' IH]].
  - exists 0%nat. constructor. destruct (decide (k = x)) as [-> | Hkx]; [| by rewrite lookup_insert_ne].
    rewrite lookup_insert_eq. f_equal. apply (leads_unique parent x r n x 0); [done | by constructor].
  - destruct (decide (k = x)) as [-> | Hkx].
    + assert (r = rx) as -> by (eapply (leads_unique parent x r n rx (S m)); [done | by apply (leads_step _ _ c)]).
      pose proof (leads_end _ _ _ _ Hk) as Hend. destruct (decide (x = rx)) as [-> | Hxr].
      * exists 0%nat. constructor. apply lookup_insert_eq.
      * exists 1%nat. apply (leads_step _ _ rx); [apply lookup_insert_eq | done |]. constructor. by rewrite lookup_insert_ne.
    + exists (S m'). apply (leads_step _ _ c); [by rewrite lookup_insert_ne | done | done].
Qed.

Lemma roots_compress parent ρ k : roots parent ρ → is_Some (parent !! k) → roots (<[k := ρ k]> parent) ρ.
Proof.
  intros Hr [c Hc] x. pose proof (Hr k) as Hk. rewrite Hc in Hk. destruct Hk as [n Hk].
  specialize (Hr x). destruct (decide (k = x)) as [<- | Hne].
  - rewrite lookup_insert_eq. rewrite Hc in Hr. destruct Hr as [m Hm]. by eapply leads_compress.
  - rewrite lookup_insert_ne by done. destruct (parent !! x); [| done]. destruct Hr as [m Hm]. by eapply leads_compress.
Qed.

(** A key that was not there becomes a root. *)
Lemma roots_new parent ρ k : roots parent ρ → parent !! k = None → ρ k = k ∧ roots (<[k := k]> parent) ρ.
Proof.
  intros Hr Hk. pose proof (Hr k) as Hρ. rewrite Hk in Hρ. split; [done |]. intros x. specialize (Hr x).
  destruct (decide (k = x)) as [<- | Hne].
  - rewrite lookup_insert_eq, Hρ. exists 0%nat. constructor. apply lookup_insert_eq.
  - rewrite lookup_insert_ne by done. destruct (parent !! x) eqn:Ex; [| done]. destruct Hr as [n Hn]. exists n.
    clear -Hn Hk. induction Hn as [x Hx | x c r n Hx Hne Hl IH].
    + constructor. by rewrite lookup_insert_ne by congruence.
    + apply (leads_step _ _ c); [by rewrite lookup_insert_ne by congruence | done | done].
Qed.

Lemma findFuel_ok fuel : ∀ parent ρ k, roots parent ρ →
  (∀ n, leads parent k (ρ k) n → (n < fuel)%nat) → (0 < fuel)%nat →
  returns (findFuel fuel parent k) (λ '(r, parent'), r = ρ k ∧ roots parent' ρ ∧ is_Some (parent' !! k) ∧
    ∀ x, is_Some (parent !! x) → is_Some (parent' !! x)).
Proof.
  induction fuel as [| fuel IH]; intros parent ρ k Hr Hfuel Hpos; [lia |]. cbn [findFuel].
  pose proof (Hr k) as Hk. destruct (parent !! k) as [c |] eqn:Ek.
  - destruct Hk as [n Hn]. destruct (decide (c = k)) as [-> | Hne].
    + cbn. assert (k = ρ k) by (eapply (leads_unique parent k k 0 (ρ k) n); [by constructor | done]). by rewrite Ek.
    + destruct (leads_inv _ _ _ _ _ Hn Ek Hne) as (m & -> & Hl).
      assert (ρ c = ρ k) as Hck.
      { specialize (Hr c). destruct (leads_in _ _ _ _ Hl) as [d Hd]. rewrite Hd in Hr. destruct Hr as [i Hi]. by eapply leads_unique. }
      apply safe_bind. eapply safe_mono.
      { apply (IH parent ρ c Hr); [| specialize (Hfuel _ Hn); lia]. intros i Hi. rewrite Hck in Hi.
        destruct (leads_unique parent c (ρ k) m (ρ k) i Hl Hi) as [_ <-]. specialize (Hfuel _ Hn). lia. }
      intros [r parent'] (-> & Hr' & _ & Hdom). apply safe_ret. rewrite Hck. split_and!; [done | | |].
      * apply roots_compress; [done | apply Hdom; by exists c].
      * rewrite lookup_insert_eq. by eexists.
      * intros x Hx. apply lookup_insert_is_Some'. right. by apply Hdom.
  - cbn. destruct (roots_new parent ρ k Hr Ek) as [Hρ Hr']. split_and!; [done | done | rewrite lookup_insert_eq; by eexists |].
    intros x Hx. apply lookup_insert_is_Some'. by right.
Qed.

Lemma find_ok parent ρ k : roots parent ρ →
  returns (find parent k) (λ '(r, parent'), r = ρ k ∧ roots parent' ρ ∧ is_Some (parent' !! k) ∧
    ∀ x, is_Some (parent !! x) → is_Some (parent' !! x)).
Proof. intros Hr. apply findFuel_ok; [done | | lia]. intros n Hn%leads_short. lia. Qed.

(** Two roots joined. *)
Lemma roots_join parent ρ a b : roots parent ρ → is_Some (parent !! a) → is_Some (parent !! b) → ρ a ≠ ρ b →
  roots (<[ρ b := ρ a]> parent) (λ k, if decide (ρ k = ρ b) then ρ a else ρ k).
Proof.
  intros Hr [ca Ha] [cb Hb] Hne k. pose proof (Hr a) as Hla. rewrite Ha in Hla. destruct Hla as [na Hla].
  pose proof (Hr b) as Hlb. rewrite Hb in Hlb. destruct Hlb as [nb Hlb].
  pose proof (leads_end _ _ _ _ Hla) as Hea. pose proof (leads_end _ _ _ _ Hlb) as Heb.
  assert (∀ x r m, leads parent x r m → ∃ m', leads (<[ρ b := ρ a]> parent) x (if decide (r = ρ b) then ρ a else r) m') as Hgo.
  { induction 1 as [x Hx | x c r m Hx Hxne Hl [m' IH]].
    - destruct (decide (x = ρ b)) as [-> | Hxb].
      + exists 1%nat. apply (leads_step _ _ (ρ a)); [apply lookup_insert_eq | done |]. constructor. by rewrite lookup_insert_ne.
      + exists 0%nat. constructor. by rewrite lookup_insert_ne.
    - exists (S m'). apply (leads_step _ _ c); [| done | done]. rewrite lookup_insert_ne; [done |]. intros <-. congruence. }
  destruct (decide (ρ b = k)) as [Hk | Hk].
  - rewrite <- Hk, lookup_insert_eq. specialize (Hr (ρ b)). rewrite Heb in Hr. destruct Hr as [m Hm]. by apply (Hgo _ _ _ Hm).
  - rewrite lookup_insert_ne by done. specialize (Hr k). destruct (parent !! k).
    + destruct Hr as [m Hm]. by apply (Hgo _ _ _ Hm).
    + rewrite Hr, decide_False by congruence. done.
Qed.

(** The function stands for the links of [R]: keys have the same root when they
    are connected. *)
Definition connects (R : K → K → Prop) (parent : gmap K K) : Prop :=
  ∃ ρ, roots parent ρ ∧ ∀ x y, ρ x = ρ y ↔ rtsc R x y.

Lemma connects_ext R R' parent : (∀ x y, R x y ↔ R' x y) → connects R parent → connects R' parent.
Proof.
  intros HR (ρ & Hr & Hρ). exists ρ. split; [done |]. intros x y. rewrite Hρ.
  split; intros Hxy; apply (rtsc_congruence id) with (2 := Hxy); intros ? ?; apply HR.
Qed.

Lemma union_ok R a b parent : connects R parent →
  returns (union a b parent) (connects (λ x y, R x y ∨ x = a ∧ y = b)).
Proof.
  intros (ρ & Hr & Hρ). unfold union. apply safe_bind. eapply safe_mono; [by apply find_ok |].
  intros [ra parent1] (-> & Hr1 & Ha & _). apply safe_bind. eapply safe_mono; [by apply find_ok |].
  intros [rb parent2] (-> & Hr2 & Hb & Hdom). apply safe_ret.
  exists (λ k, if decide (ρ k = ρ b) then ρ a else ρ k). split.
  - destruct (decide (ρ a = ρ b)) as [E | E]; [| apply roots_join; auto].
    intros k. specialize (Hr2 k). destruct (parent2 !! k); destruct (decide (ρ k = ρ b)) as [Eb |]; try done; [| congruence].
    by rewrite E, <- Eb.
  - set (R' := λ x y, R x y ∨ x = a ∧ y = b).
    assert (∀ x y, rtsc R x y → rtsc R' x y) as Hmono.
    { intros x y Hxy. apply (rtsc_congruence id) with (2 := Hxy). intros ? ? ?. by left. }
    assert (rtsc R' a b) as Hab by (apply rtsc_lr; by right).
    intros x y. split.
    + destruct (decide (ρ x = ρ b)) as [Hx | Hx], (decide (ρ y = ρ b)) as [Hy | Hy]; intros E.
      * apply Hmono, Hρ. congruence.
      * etrans; [apply Hmono, Hρ, Hx |]. etrans; [symmetry; exact Hab |]. by apply Hmono, Hρ.
      * etrans; [apply Hmono, Hρ, E |]. etrans; [exact Hab |]. by apply Hmono, Hρ.
      * by apply Hmono, Hρ.
    + intros Hxy. induction Hxy as [x | x y z Hxy Hyz IH]; [done |]. rewrite <- IH.
      assert (∀ u v, R' u v → (if decide (ρ u = ρ b) then ρ a else ρ u) = (if decide (ρ v = ρ b) then ρ a else ρ v)) as Hstep.
      { intros u v [Huv | [-> ->]]; [| by destruct (decide (ρ a = ρ b)), (decide (ρ b = ρ b))].
        assert (ρ u = ρ v) as -> by (apply Hρ; by apply rtsc_lr). done. }
      destruct Hxy as [Hxy | Hxy]; [by apply Hstep | symmetry; by apply Hstep].
Qed.

Lemma connects_empty : connects (λ _ _, False) ∅.
Proof.
  exists (λ k, k). split; [intros k; by rewrite lookup_empty |]. intros x y. split; [intros ->; reflexivity |].
  intros Hxy. by induction Hxy as [x | x y z [[] | []] _ _].
Qed.

End Forest.

(** ** The code: the groups *)

Abbreviation programPeerKey := (Z * Z * Z)%type.

Definition programKey {M} (item : Program M) : programPeerKey := (p_NetworkID item, p_ServiceID item, p_EventID item).

(** The key that a related item names, when it is a shared event. *)
Definition sharedPeer {M} (item : Program M) (related : RelatedItem) : option programPeerKey :=
  if negb (String.eqb (ri_Type related) RelatedItemTypeShared) || (ri_ServiceID related =? 0) || (ri_EventID related =? 0) then None
  else Some (default (p_NetworkID item) (ri_NetworkID related), ri_ServiceID related, ri_EventID related).

(** An iteration of the first loop. *)
Definition linkItem {M} (item : Program M) (parent : gmap programPeerKey programPeerKey)
    : outcome (gmap programPeerKey programPeerKey) :=
  '(_, parent) ← find parent (programKey item);
  foldM (λ parent related, match sharedPeer item related with
    | None => Ret parent
    | Some key => union (programKey item) key parent
    end) (p_RelatedItems item) parent.

Definition orMap (dst src : textMap) : textMap := if bool_decide (dst = ∅) then src else dst.

(** What [item] lacks, from [peer]. *)
Definition fillFrom (item peer : Program textMap) : Program textMap :=
  MkProgram _ (p_ID item) (p_EventID item) (p_ServiceID item) (p_NetworkID item) (p_StartAt item) (p_Duration item) (p_IsFree item)
    (orList (p_Name item) (p_Name peer)) (orList (p_Description item) (p_Description peer))
    (orList (p_Genres item) (p_Genres peer)) (orOption (p_Video item) (p_Video peer)) (orList (p_Audios item) (p_Audios peer))
    (orMap (p_Extended item) (p_Extended peer)) (p_RelatedItems item) (orOption (p_Series item) (p_Series peer)).

(** ** The first that is not empty *)

(** An operation that keeps its first argument unless that is empty. *)
Section First.
Context {T : Type} (e : T) (or : T → T → T).
Hypothesis or_empty : ∀ y, or e y = y.
Hypothesis or_keeps : ∀ x, x = e ∨ ∀ y, or x y = x.

Lemma or_right x : or x e = x.
Proof. destruct (or_keeps x) as [-> | Hx]; [apply or_empty | apply Hx]. Qed.

Lemma or_assoc x y z : or (or x y) z = or x (or y z).
Proof. destruct (or_keeps x) as [-> | Hx]; [by rewrite !or_empty | by rewrite !Hx]. Qed.

Lemma or_again x y : or (or x y) x = or x y.
Proof. destruct (or_keeps x) as [-> | Hx]; [by rewrite or_right | by rewrite !Hx]. Qed.

Lemma or_twice x y : or (or x y) y = or x y.
Proof. rewrite or_assoc. destruct (or_keeps y) as [-> | Hy]; [by rewrite or_empty | by rewrite Hy]. Qed.

(** Filling some of a list with its first does not change the first. *)
Lemma first_settled l l' : Forall2 (λ y y', y' = y ∨ y' = or y (foldr or e l)) l l' → foldr or e l' = foldr or e l.
Proof.
  intros Hall. assert (∀ g k k', Forall2 (λ y y', y' = y ∨ y' = or y g) k k' → foldr or e k = g → foldr or e k' = g) as Hgen.
  { intros g k k' Hk. induction Hk as [| y y' k k' Hy Hk IH]; [done |]. cbn. intros Hg.
    destruct (or_keeps y) as [-> | Hkeep].
    - rewrite or_empty in Hg. rewrite (IH Hg). destruct Hy as [-> | ->]; rewrite !or_empty; [done |].
      destruct (or_keeps g) as [-> | Hg']; [by rewrite or_empty | apply Hg'].
    - rewrite Hkeep in Hg. destruct Hy as [-> | ->]; by rewrite !Hkeep. }
  by apply Hgen with (1 := Hall).
Qed.

Lemma or_settled x x' l l' : x' = x ∨ x' = or x (foldr or e l) →
  Forall2 (λ y y', y' = y ∨ y' = or y (foldr or e l)) l l' → or x' (foldr or e l') = or x (foldr or e l).
Proof. intros Hx Hl. rewrite (first_settled l l' Hl). destruct Hx as [-> | ->]; [done | apply or_twice]. Qed.

End First.

Lemma orList_empty {B} (y : list B) : orList [] y = y.
Proof. done. Qed.
Lemma orList_keeps {B} (x : list B) : x = [] ∨ ∀ y, orList x y = x.
Proof. destruct x; [by left | by right]. Qed.
Lemma orOption_empty {B} (y : option B) : orOption None y = y.
Proof. done. Qed.
Lemma orOption_keeps {B} (x : option B) : x = None ∨ ∀ y, orOption x y = x.
Proof. destruct x; [by right | by left]. Qed.
Lemma orMap_empty y : orMap ∅ y = y.
Proof. done. Qed.
Lemma orMap_keeps x : x = ∅ ∨ ∀ y, orMap x y = x.
Proof. unfold orMap. case_bool_decide; [by left | by right]. Qed.

(** The program with what it lacks taken from the first of [group] that has it. *)
Definition fillAll (p : Program textMap) (group : list (Program textMap)) : Program textMap :=
  MkProgram _ (p_ID p) (p_EventID p) (p_ServiceID p) (p_NetworkID p) (p_StartAt p) (p_Duration p) (p_IsFree p)
    (orList (p_Name p) (foldr orList [] (map p_Name group))) (orList (p_Description p) (foldr orList [] (map p_Description group)))
    (orList (p_Genres p) (foldr orList [] (map p_Genres group))) (orOption (p_Video p) (foldr orOption None (map p_Video group)))
    (orList (p_Audios p) (foldr orList [] (map p_Audios group))) (orMap (p_Extended p) (foldr orMap ∅ (map p_Extended group)))
    (p_RelatedItems p) (orOption (p_Series p) (foldr orOption None (map p_Series group))).

Lemma fillAll_nil p : fillAll p [] = p.
Proof.
  destruct p as [x1 x2 x3 x4 x5 x6 x7 x8 x9 x10 x11 x12 x13 x14 x15]. unfold fillAll. cbn. f_equal; first [apply (or_right _ _ orList_empty orList_keeps) |
    apply (or_right _ _ orOption_empty orOption_keeps) | apply (or_right _ _ orMap_empty orMap_keeps)].
Qed.

Lemma fillAll_cons p q group : fillAll p (q :: group) = fillAll (fillFrom p q) group.
Proof.
  destruct p as [x1 x2 x3 x4 x5 x6 x7 x8 x9 x10 x11 x12 x13 x14 x15]. unfold fillAll, fillFrom. cbn [map foldr p_ID p_EventID p_ServiceID p_NetworkID p_StartAt p_Duration p_IsFree
    p_Name p_Description p_Genres p_Video p_Audios p_Extended p_RelatedItems p_Series].
  f_equal; symmetry; first [apply (or_assoc _ _ orList_empty orList_keeps) |
    apply (or_assoc _ _ orOption_empty orOption_keeps) | apply (or_assoc _ _ orMap_empty orMap_keeps)].
Qed.

Lemma fillAll_snoc p q group : fillAll p (group ++ [q]) = fillFrom (fillAll p group) q.
Proof.
  revert p. induction group as [| r group IH]; intros p; cbn [app].
  - by rewrite fillAll_cons, !fillAll_nil.
  - by rewrite !fillAll_cons, IH.
Qed.

(** What a program takes from itself is nothing. *)
Lemma fillFrom_self p group : fillFrom (fillAll p group) p = fillAll p group.
Proof.
  destruct p as [x1 x2 x3 x4 x5 x6 x7 x8 x9 x10 x11 x12 x13 x14 x15]. unfold fillFrom. cbn [fillAll p_ID p_EventID p_ServiceID p_NetworkID p_StartAt p_Duration p_IsFree
    p_Name p_Description p_Genres p_Video p_Audios p_Extended p_RelatedItems p_Series]. unfold fillAll. cbn [p_ID p_EventID p_ServiceID p_NetworkID p_StartAt p_Duration p_IsFree
    p_Name p_Description p_Genres p_Video p_Audios p_Extended p_RelatedItems p_Series].
  f_equal; first [apply (or_again _ _ orList_empty orList_keeps) |
    apply (or_again _ _ orOption_empty orOption_keeps) | apply (or_again _ _ orMap_empty orMap_keeps)].
Qed.

(** It does not matter which of the group are filled already. *)
Lemma fillAll_settled p p' group group' : p' = p ∨ p' = fillAll p group →
  Forall2 (λ q q', q' = q ∨ q' = fillAll q group) group group' → fillAll p' group' = fillAll p group.
Proof.
  intros Hp Hg. assert (∀ B (f : Program textMap → B) (or : B → B → B) e, (∀ q, f (fillAll q group) = or (f q) (foldr or e (map f group))) →
    (∀ y, or e y = y) → (∀ x, x = e ∨ ∀ y, or x y = x) → or (f p') (foldr or e (map f group')) = or (f p) (foldr or e (map f group))) as Hf.
  { intros B f or e Hf H1 H2. apply or_settled; [done | done | destruct Hp as [-> | ->]; auto |].
    apply Forall2_fmap. eapply Forall2_impl; [exact Hg |]. intros q q' [-> | ->]; auto. }
  unfold fillAll at 1. unfold fillAll at 1.
  f_equal; try (by destruct Hp as [-> | ->]); first [apply (Hf _ _ orList []) | apply (Hf _ _ orOption None) | apply (Hf _ _ orMap ∅)];
    auto using orList_keeps, orOption_keeps, orMap_keeps.
Qed.

Section Peers.
Context {A : Type} `{Countable A} {O : RangeOrderOf programPeerKey (list A)}.

Abbreviation heap := (gmap A (Program textMap)).

Definition deref (h : heap) (a : A) : outcome (Program textMap) := match h !! a with Some p => Ret p | None => Panic end.

Definition fillProgramFromPeers (item : A) (peers : list A) (h : heap) : outcome heap :=
  foldM (λ h peer, if decide (peer = item) then Ret h
    else p ← deref h item; q ← deref h peer; Ret (<[item := fillFrom p q]> h)) peers h.

(** The first loop. *)
Definition linkPrograms (programs : list (option A)) (h : heap) : outcome (gmap programPeerKey programPeerKey) :=
  foldM (λ parent item, match item with
    | None => Ret parent
    | Some a => p ← deref h a; linkItem p parent
    end) programs ∅.

(** The second. *)
Definition groupPeers (programs : list (option A)) (h : heap) (parent : gmap programPeerKey programPeerKey)
    : outcome (gmap programPeerKey programPeerKey * gmap programPeerKey (list A)) :=
  foldM (λ '(parent, peers) item, match item with
    | None => Ret (parent, peers)
    | Some a =>
        p ← deref h a;
        '(root, parent) ← find parent (programKey p);
        Ret (parent, <[root := default [] (peers !! root) ++ [a]]> peers)
    end) programs (parent, ∅).

Definition fillProgramsFromSharedPeers (programs : list (option A)) (h : heap) : outcome heap :=
  parent ← linkPrograms programs h;
  '(_, peers) ← groupPeers programs h parent;
  foldM (λ h e, foldM (λ h item, fillProgramFromPeers item (snd e) h) (snd e) h) (rangeOf peers) h.

(** The programs without a name, and all. *)
Definition programTitleCounts (programs : list (option A)) (h : heap) : outcome (Z * Z) :=
  foldM (λ '(missingTitle, total) item, match item with
    | None => Ret (missingTitle, total)
    | Some a => p ← deref h a; Ret (if bool_decide (p_Name p = []) then missingTitle + 1 else missingTitle, total + 1)
    end) programs (0, 0).

Definition lowQualityMinimumPrograms : Z := 10.
Definition lowQualityMissingTitlePercent : Z := 80.

Definition lowQualityProgramWarning (programs : list (option A)) (h : heap) : outcome string :=
  '(missingTitle, total) ← programTitleCounts programs h;
  Ret (if (total <? lowQualityMinimumPrograms) || (missingTitle * 100 <? total * lowQualityMissingTitlePercent) then ""%string
       else ("low quality EITS: " +:+ pretty missingTitle +:+ "/" +:+ pretty total +:+ " programs missing titles")%string).

(** ** The links and what they fill *)

(** A program of the list names another event. *)
Definition names (programs : list (option A)) (h : heap) (x y : programPeerKey) : Prop :=
  ∃ a p related, Some a ∈ programs ∧ h !! a = Some p ∧ related ∈ p_RelatedItems p ∧ x = programKey p ∧ sharedPeer p related = Some y.

Definition loaded (programs : list (option A)) (h : heap) : Prop := ∀ a, Some a ∈ programs → is_Some (h !! a).

(** The addresses in the list, and their programs. *)
Definition addresses (programs : list (option A)) : list A := omap id programs.

Lemma elem_addresses programs a : a ∈ addresses programs ↔ Some a ∈ programs.
Proof. unfold addresses. rewrite list_elem_of_omap. split; [by intros (x & Hx & [= ->]) | by exists (Some a)]. Qed.

Lemma linkItem_ok {M} (p : Program M) parent R : connects R parent →
  returns (linkItem p parent)
    (connects (λ x y, R x y ∨ ∃ related, related ∈ p_RelatedItems p ∧ x = programKey p ∧ sharedPeer p related = Some y)).
Proof.
  intros (ρ & Hr & Hρ). unfold linkItem. apply safe_bind. eapply safe_mono; [by apply find_ok |].
  intros [r parent1] (_ & Hr1 & _). cbn beta iota.
  apply (safe_foldM_prefix (λ k, connects (λ x y, R x y ∨ ∃ related, related ∈ k ∧ x = programKey p ∧ sharedPeer p related = Some y))).
  - eapply connects_ext; [| by exists ρ]. intros x y. split; [by left | by intros [? | (? & ?%elem_of_nil & _)]].
  - intros k related parent' Hc _. destruct (sharedPeer p related) as [key |] eqn:E.
    + eapply safe_mono; [by apply union_ok |]. intros parent2. apply connects_ext. intros x y.
      setoid_rewrite elem_of_app. setoid_rewrite list_elem_of_singleton. naive_solver.
    + eapply connects_ext; [| exact Hc]. intros x y. setoid_rewrite elem_of_app. setoid_rewrite list_elem_of_singleton. naive_solver.
Qed.

Lemma linkPrograms_ok programs h : loaded programs h → returns (linkPrograms programs h) (connects (names programs h)).
Proof.
  intros Hl. unfold linkPrograms. apply (safe_foldM_prefix (λ k, connects (names k h))).
  - eapply connects_ext; [| apply connects_empty]. intros x y. split; [done |]. by intros (? & ? & ? & ?%elem_of_nil & _).
  - intros k item parent Hc [rest Hpre]. destruct item as [a |].
    + destruct (Hl a) as [p Hp]; [rewrite Hpre; set_solver |]. unfold deref. rewrite Hp. cbn.
      eapply safe_mono; [by apply linkItem_ok |]. intros parent'. apply connects_ext. intros x y. unfold names.
      setoid_rewrite elem_of_app. setoid_rewrite list_elem_of_singleton. split.
      * intros [(b & q & r & ? & ? & ? & ? & ?) | (r & ? & ? & ?)]; [by exists b, q, r; auto 10 | by exists a, p, r; auto 10].
      * intros (b & q & r & [? | [= ->]] & Hq & ? & ? & ?); [left; by exists b, q, r | right]. simplify_eq. by exists r.
    + eapply connects_ext; [| exact Hc]. intros x y. unfold names. setoid_rewrite elem_of_app. setoid_rewrite list_elem_of_singleton. naive_solver.
Qed.

(** The addresses whose program has the root [r]. *)
Definition rootedAt (ρ : programPeerKey → programPeerKey) (h : heap) (r : programPeerKey) (l : list A) : list A :=
  filter (λ a, (λ p, ρ (programKey p)) <$> h !! a = Some r) l.

Lemma groupPeers_ok programs h parent ρ : loaded programs h → roots parent ρ →
  returns (groupPeers programs h parent) (λ '(_, peers), ∀ r,
    match peers !! r with
    | None => rootedAt ρ h r (addresses programs) = []
    | Some group => group = rootedAt ρ h r (addresses programs)
    end).
Proof.
  intros Hl Hr. unfold groupPeers. eapply safe_mono.
  - apply (safe_foldM_prefix (λ k '(parent, peers), roots parent ρ ∧ ∀ r, default [] (peers !! r) = rootedAt ρ h r (addresses k))).
    + split; [done |]. intros r. by rewrite lookup_empty.
    + intros k item [parent' peers] [Hr' Hp] [rest Hpre]. destruct item as [a |].
      * destruct (Hl a) as [p Ha]; [rewrite Hpre; set_solver |]. unfold deref. rewrite Ha. cbn [mbind outcome_bind].
        apply safe_bind. eapply safe_mono; [by apply find_ok |]. intros [root parent2] (-> & Hr2 & _). apply safe_ret.
        split; [done |]. intros r. unfold addresses, rootedAt. rewrite omap_app, filter_app. cbn [omap list_omap id].
        rewrite filter_cons, filter_nil, Ha. cbn [fmap option_fmap option_map]. destruct (decide (ρ (programKey p) = r)) as [<- | Hne].
        -- rewrite lookup_insert_eq, decide_True by done. cbn. by rewrite Hp.
        -- rewrite lookup_insert_ne, decide_False, app_nil_r by (done || congruence). apply Hp.
      * split; [done |]. intros r. rewrite Hp. unfold addresses. by rewrite omap_app, app_nil_r.
  - intros [parent' peers] [_ Hp] r. specialize (Hp r). destruct (peers !! r); by rewrite <- Hp.
Qed.

(** The programs at addresses. *)
Definition programsAt (h : heap) (l : list A) : list (Program textMap) := omap (λ a, h !! a) l.

Lemma programsAt_Forall2 (P : Program textMap → Program textMap → Prop) h h' l :
  (∀ a, a ∈ l → ∃ p p', h !! a = Some p ∧ h' !! a = Some p' ∧ P p p') → Forall2 P (programsAt h l) (programsAt h' l).
Proof.
  unfold programsAt. induction l as [| a l IH]; intros Hl; [constructor |]. cbn.
  destruct (Hl a) as (p & p' & -> & -> & HP); [by left |]. constructor; [done |]. apply IH. intros b Hb. apply Hl. by right.
Qed.

Lemma programsAt_ext (h h' : heap) l : (∀ a, a ∈ l → h !! a = h' !! a) → programsAt h l = programsAt h' l.
Proof.
  unfold programsAt. induction l as [| a l IH]; intros Hl; [done |]. cbn. rewrite (Hl a) by (by left).
  rewrite IH; [done |]. intros b Hb. apply Hl. by right.
Qed.

Lemma fillProgramFromPeers_ok item peers h p : h !! item = Some p → (∀ a, a ∈ peers → is_Some (h !! a)) →
  returns (fillProgramFromPeers item peers h) (eq (<[item := fillAll p (programsAt h peers)]> h)).
Proof.
  intros Hp Hl. unfold fillProgramFromPeers. eapply safe_mono.
  - apply (safe_foldM_prefix (λ k h', h' = <[item := fillAll p (programsAt h k)]> h)).
    + cbn. by rewrite fillAll_nil, insert_id.
    + intros k peer h' -> [rest Hpre]. destruct (Hl peer) as [q Hq]; [rewrite Hpre; set_solver |].
      assert (programsAt h (k ++ [peer]) = programsAt h k ++ [q]) as ->.
      { unfold programsAt. rewrite omap_app. cbn. by rewrite Hq. }
      rewrite fillAll_snoc. destruct (decide (peer = item)) as [-> | Hne].
      * rewrite Hp in Hq. injection Hq as <-. cbn. by rewrite fillFrom_self.
      * unfold deref. rewrite lookup_insert_eq, lookup_insert_ne, Hq by done. cbn. by rewrite insert_insert_eq.
  - by intros h' ->.
Qed.

(** All programs of a group. *)
Lemma fillGroup_ok group h : (∀ a, a ∈ group → is_Some (h !! a)) →
  returns (foldM (λ h item, fillProgramFromPeers item group h) group h) (λ h', ∀ a, h' !! a =
    if decide (a ∈ group) then (λ p, fillAll p (programsAt h group)) <$> h !! a else h !! a).
Proof.
  intros Hl. eapply safe_mono; [apply (safe_foldM_prefix (λ k h', ∀ a, h' !! a =
    if decide (a ∈ k) then (λ p, fillAll p (programsAt h group)) <$> h !! a else h !! a)) | done].
  - intros a. rewrite decide_False; [done | apply not_elem_of_nil].
  - intros k item h' Hk [rest Hpre]. assert (item ∈ group) as Hitem by (rewrite Hpre; set_solver).
    assert (∀ a p, h !! a = Some p → ∃ p', h' !! a = Some p' ∧ (p' = p ∨ p' = fillAll p (programsAt h group))) as Hold.
    { intros a p Ha. rewrite Hk, Ha. case_decide; cbn; eauto. }
    destruct (Hl item Hitem) as [p Hp]. destruct (Hold item p Hp) as (p' & Hp' & Hp'').
    eapply safe_mono; [apply (fillProgramFromPeers_ok item group h' p' Hp') |].
    + intros a [q Hq]%Hl. destruct (Hold a q Hq) as (q' & -> & _). by exists q'.
    + intros h'' <- a. rewrite (fillAll_settled p p' (programsAt h group)); [| done |].
      * destruct (decide (item = a)) as [<- | Hne].
        -- by rewrite lookup_insert_eq, decide_True, Hp by set_solver.
        -- rewrite lookup_insert_ne, Hk by done. rewrite (decide_ext _ (a ∈ k ++ [item])); [done |]. set_solver.
      * apply programsAt_Forall2. intros b [q Hq]%Hl. destruct (Hold b q Hq) as (q' & Hq' & Hor). by exists q, q'.
Qed.

(** The members of the group of a program, as they were. *)
Definition peersOf (ρ : programPeerKey → programPeerKey) (h : heap) (addrs : list A) (p : Program textMap) : list (Program textMap) :=
  filter (λ q, ρ (programKey q) = ρ (programKey p)) (programsAt h addrs).

Lemma programsAt_rooted (ρ : programPeerKey → programPeerKey) (h : heap) (addrs : list A) p : programsAt h (rootedAt ρ h (ρ (programKey p)) addrs) = peersOf ρ h addrs p.
Proof.
  unfold programsAt, rootedAt, peersOf, programsAt. induction addrs as [| a addrs IH]; [done |].
  rewrite filter_cons. cbn [omap list_omap]. destruct (h !! a) as [q |] eqn:Ha; cbn [fmap option_fmap option_map].
  - rewrite filter_cons. destruct (decide (ρ (programKey q) = ρ (programKey p))) as [E | E].
    + rewrite decide_True by congruence. cbn [omap list_omap]. by rewrite Ha, <- IH.
    + rewrite decide_False by congruence. exact IH.
  - rewrite decide_False by done. exact IH.
Qed.

Lemma fillGroups_ok (ρ : programPeerKey → programPeerKey) (h : heap) (addrs : list A) (peers : gmap programPeerKey (list A)) :
  (∀ r, match peers !! r with None => rootedAt ρ h r addrs = [] | Some group => group = rootedAt ρ h r addrs end) →
  returns (foldM (λ h e, foldM (λ h item, fillProgramFromPeers item (snd e) h) (snd e) h) (rangeOf peers) h) (λ h', ∀ a,
    h' !! a = (λ p, if decide (a ∈ addrs) then fillAll p (peersOf ρ h addrs p) else p) <$> h !! a).
Proof.
  intros Hpeers. set (target := λ (a : A) p, if decide (a ∈ addrs) then fillAll p (peersOf ρ h addrs p) else p).
  assert (NoDup (rangeOf peers).*1) as Hnd by (rewrite rangeOf_perm; apply NoDup_fst_map_to_list).
  assert (∀ e, e ∈ rangeOf peers ↔ peers !! fst e = Some (snd e)) as Hin by (intros []; by rewrite rangeOf_perm, elem_of_map_to_list).
  eapply safe_mono.
  - apply (safe_foldM_prefix (λ k h', ∀ a, h' !! a =
      (λ p, if decide (ρ (programKey p) ∈ k.*1) then target a p else p) <$> h !! a)).
    + intros a. cbn. destruct (h !! a) as [p |]; [| done]. cbn. rewrite decide_False; [done | apply not_elem_of_nil].
    + intros k [r group] h' Hk [rest Hpre]. cbn [fst snd].
      assert (r ∉ k.*1) as Hr.
      { rewrite Hpre, !fmap_app, <- app_assoc in Hnd. apply NoDup_app in Hnd as (_ & Hnd & _). intros Hr. apply (Hnd r Hr). set_solver. }
      assert (group = rootedAt ρ h r addrs) as Hgroup.
      { specialize (Hpeers r). assert ((r, group) ∈ rangeOf peers) as Hg%Hin by (rewrite Hpre; set_solver). cbn in Hg. by rewrite Hg in Hpeers. }
      assert (∀ a, a ∈ group ↔ a ∈ addrs ∧ ∃ p, h !! a = Some p ∧ ρ (programKey p) = r) as Hmem.
      { intros a. rewrite Hgroup. unfold rootedAt. rewrite list_elem_of_filter, fmap_Some. naive_solver. }
      assert (∀ a, a ∈ group → h' !! a = h !! a) as Hsame.
      { intros a (_ & p & Hp & <-)%Hmem. rewrite Hk, Hp. cbn. by rewrite decide_False. }
      eapply safe_mono; [apply (fillGroup_ok group h') |].
      * intros a Ha. rewrite (Hsame a Ha). apply Hmem in Ha as (_ & p & -> & _). by exists p.
      * intros h'' Hfin a. rewrite Hfin, fmap_app. clear Hfin h''. destruct (decide (a ∈ group)) as [Ha | Ha].
        -- rewrite (Hsame a Ha). pose proof (proj1 (Hmem a) Ha) as (Haddr & p & Hp & Hρ). rewrite Hp. cbn. f_equal.
           rewrite decide_True by (rewrite Hρ; set_solver). unfold target. rewrite decide_True by done. f_equal.
           rewrite <- programsAt_rooted, Hρ, <- Hgroup. apply programsAt_ext. intros b Hb. by apply Hsame.
        -- rewrite Hk. destruct (h !! a) as [p |] eqn:Hp; [| done]. cbn. f_equal.
           destruct (decide (ρ (programKey p) = r)) as [Hρ | Hρ].
           ++ rewrite decide_False by congruence. rewrite decide_True by (rewrite Hρ; set_solver).
              unfold target. rewrite decide_False; [done |]. intros Haddr. apply Ha, Hmem. eauto.
           ++ rewrite (decide_ext _ (ρ (programKey p) ∈ k.*1 ++ [r])); [done |]. set_solver.
  - intros h' Hh' a. rewrite Hh'. destruct (h !! a) as [p |] eqn:Hp; [| done]. cbn. f_equal.
    destruct (decide (a ∈ addrs)) as [Ha | Ha]; unfold target; [| rewrite (decide_False (P := a ∈ addrs)) by done; by case_decide].
    rewrite (decide_True (P := a ∈ addrs)) by done. rewrite decide_True; [done |].
    specialize (Hpeers (ρ (programKey p))). destruct (peers !! ρ (programKey p)) as [group |] eqn:Eg.
    + apply list_elem_of_fmap. exists (ρ (programKey p), group). split; [done | by apply Hin].
    + exfalso. assert (a ∈ rootedAt ρ h (ρ (programKey p)) addrs) as Hc; [| rewrite Hpeers in Hc; by apply elem_of_nil in Hc].
      unfold rootedAt. apply list_elem_of_filter. by rewrite Hp.
Qed.

Lemma fillProgramsFromSharedPeers_ok programs h : loaded programs h →
  returns (fillProgramsFromSharedPeers programs h) (λ h', ∃ ρ, (∀ x y, ρ x = ρ y ↔ rtsc (names programs h) x y) ∧
    ∀ a, h' !! a = (λ p, if decide (a ∈ addresses programs) then fillAll p (peersOf ρ h (addresses programs) p) else p) <$> h !! a).
Proof.
  intros Hl. unfold fillProgramsFromSharedPeers. apply safe_bind. eapply safe_mono; [by apply linkPrograms_ok |].
  intros parent (ρ & Hr & Hρ). apply safe_bind. eapply safe_mono; [by apply (groupPeers_ok programs h parent ρ) |].
  intros [parent' peers] Hpeers. eapply safe_mono; [by apply (fillGroups_ok ρ h (addresses programs)) |].
  intros h' Hh'. by exists ρ.
Qed.

(** The same with a test for the groups. *)
Definition grouping (programs : list (option A)) (h : heap) (same : programPeerKey → programPeerKey → bool) : Prop :=
  ∀ x y, same x y = true ↔ rtsc (names programs h) x y.

Lemma groups_filled programs h : loaded programs h →
  returns (fillProgramsFromSharedPeers programs h) (λ h', ∃ same, grouping programs h same ∧
    ∀ a, h' !! a = (λ p, if decide (a ∈ addresses programs)
      then fillAll p (filter (λ q, same (programKey q) (programKey p) = true) (programsAt h (addresses programs))) else p) <$> h !! a).
Proof.
  intros Hl. eapply safe_mono; [by apply fillProgramsFromSharedPeers_ok |]. intros h' (ρ & Hρ & Hh').
  exists (λ x y, bool_decide (ρ x = ρ y)). split; [intros x y; by rewrite bool_decide_eq_true, Hρ |].
  intros a. rewrite Hh'. destruct (h !! a) as [p |]; [| done]. cbn. f_equal. case_decide; [| done]. f_equal. unfold peersOf.
  apply list_filter_iff. intros q. by rewrite bool_decide_eq_true.
Qed.

(** C30 (refinement): the programs are filled group by group, where a group are the
    programs connected by naming each other as shared events, in one direction or
    the other and over any number of links: each program keeps what it has and
    takes its name, description, genres, video, audios, extended texts and series
    from the first program of its group, in the order of the list, that has one.
    The forest never sends [find] into a circle, programs that are not in the
    list stay as they are, and the order in which the groups are visited does not
    matter. *)
Theorem shared_peers_fill programs h : loaded programs h →
  returns (fillProgramsFromSharedPeers programs h) (λ h', ∃ same, grouping programs h same ∧
    ∀ a, h' !! a = (λ p, if decide (a ∈ addresses programs)
      then fillAll p (filter (λ q, same (programKey q) (programKey p) = true) (programsAt h (addresses programs))) else p) <$> h !! a).
Proof. apply groups_filled. Qed.

Lemma programTitleCounts_ok programs h : loaded programs h →
  returns (programTitleCounts programs h) (eq (len (filter (λ p, p_Name p = []) (programsAt h (addresses programs))),
    len (programsAt h (addresses programs)))).
Proof.
  intros Hl. unfold programTitleCounts. eapply safe_mono.
  - apply (safe_foldM_prefix (λ k st, st = (len (filter (λ p, p_Name p = []) (programsAt h (addresses k))), len (programsAt h (addresses k))))).
    + done.
    + intros k item [missing total] [= -> ->] [rest Hpre]. unfold addresses, programsAt. rewrite !omap_app. destruct item as [a |].
      * destruct (Hl a) as [p Hp]; [rewrite Hpre; set_solver |]. unfold deref. rewrite Hp. cbn. rewrite Hp. cbn.
        rewrite filter_app, filter_cons, filter_nil. unfold len. rewrite !length_app. cbn.
        destruct (decide (p_Name p = [])); [rewrite bool_decide_true by done | rewrite bool_decide_false by done]; cbn; f_equal; lia.
      * cbn. by rewrite !app_nil_r.
  - by intros [? ?] ->.
Qed.

Lemma lowQuality_ok programs h : loaded programs h →
  returns (lowQualityProgramWarning programs h) (λ warning, warning = ""%string ↔
    len (programsAt h (addresses programs)) < 10 ∨
    len (filter (λ p, p_Name p = []) (programsAt h (addresses programs))) * 100 < len (programsAt h (addresses programs)) * 80).
Proof.
  intros Hl. unfold lowQualityProgramWarning. apply safe_bind. eapply safe_mono; [by apply programTitleCounts_ok |].
  intros [missing total] [= <- <-]. apply safe_ret. unfold lowQualityMinimumPrograms, lowQualityMissingTitlePercent.
  rewrite <- !Z.ltb_lt, <- orb_true_iff. by destruct (_ || _).
Qed.

End Peers.

(** ** The end of a collection ([collect.go]) *)

(** A program of the snapshot is named by its service and its identifier. *)
Abbreviation programAddress := (ServiceKey * Z)%type.

Section Stop.
Context {OM : RangeOrderOf (list Z) (list Z)} {OG : RangeOrder snapshotReadyGroup} {OU : RangeOrder unit}
  {OP : RangeOrderOf programPeerKey (list programAddress)}.

(** The programs of all services, and the pointers [Programs] returns. *)
Definition snapshotHeap (s : Snapshot) (h : store) : gmap programAddress (Program textMap) :=
  view h <$> map_uncurry (sv_programs <$> sn_services s).
Definition programPointers (s : Snapshot) (key : ServiceKey) : list (option programAddress) :=
  match sn_services s !! key with
  | None => []
  | Some service => map (λ id, Some (key, id)) (sortedKeys (sv_programs service))
  end.

(** The verdict, and the programs as the call leaves them. *)
Definition shouldStopEITSCollection (s : Snapshot) (h : store) (expected : list ServiceKey)
    : outcome (bool * gmap programAddress (Program textMap)) :=
  all ← AllReady s expected;
  if negb all then Ret (false, snapshotHeap s h)
  else
    extended ← ObservedExtendedReady s expected;
    if negb extended then Ret (false, snapshotHeap s h)
    else
      let programs := flat_map (programPointers s) expected in
      heap ← fillProgramsFromSharedPeers programs (snapshotHeap s h);
      warning ← lowQualityProgramWarning programs heap;
      Ret (bool_decide (warning = ""%string), heap).

Lemma snapshotHeap_lookup s h key id :
  snapshotHeap s h !! (key, id) = view h <$> (sn_services s !! key ≫= λ sv, sv_programs sv !! id).
Proof.
  unfold snapshotHeap. rewrite lookup_fmap, lookup_map_uncurry, lookup_fmap. by destruct (sn_services s !! key).
Qed.

Lemma pointers_loaded s h expected : loaded (flat_map (programPointers s) expected) (snapshotHeap s h).
Proof.
  intros [key id] Hin. apply list_elem_of_In, in_flat_map in Hin as (k & _ & Hin). unfold programPointers in Hin.
  destruct (sn_services s !! k) as [sv |] eqn:E; [| done]. apply in_map_iff in Hin as (i & [= <- <-] & Hi%list_elem_of_In).
  rewrite snapshotHeap_lookup, E. cbn. apply fmap_is_Some. by apply elem_sortedKeys.
Qed.

(** The programs of the services, service by service. *)
Lemma pointers_programs s h expected :
  programsAt (snapshotHeap s h) (addresses (flat_map (programPointers s) expected)) =
  flat_map (λ key, map (view h) (Programs s key)) expected.
Proof.
  unfold addresses, programsAt. induction expected as [| key expected IH]; [done |]. cbn [flat_map]. rewrite !omap_app, IH. f_equal.
  unfold programPointers, Programs. destruct (sn_services s !! key) as [sv |] eqn:E; [| done].
  induction (sortedKeys (sv_programs sv)) as [| id ids IHids]; [done |]. cbn. rewrite snapshotHeap_lookup, E. cbn.
  destruct (sv_programs sv !! id); cbn; by rewrite IHids.
Qed.

(** Programs none of whose group has a name. *)
Definition nameless (same : programPeerKey → programPeerKey → bool) (programs : list (Program textMap)) : list (Program textMap) :=
  filter (λ p, Forall (λ q, same (programKey q) (programKey p) = true → p_Name q = []) programs) programs.

Lemma foldr_orList_nil {B} (l : list (list B)) : foldr orList [] l = [] ↔ Forall (eq []) l.
Proof.
  induction l as [| x l IH]; [by split |]. cbn. rewrite Forall_cons, <- IH. destruct x; cbn; [tauto | by split; [| intros [? _]]].
Qed.

Lemma fillAll_nameless same programs p : p ∈ programs → (∀ k, same k k = true) →
  p_Name (fillAll p (filter (λ q, same (programKey q) (programKey p) = true) programs)) = [] ↔
  Forall (λ q, same (programKey q) (programKey p) = true → p_Name q = []) programs.
Proof.
  intros Hp Hrefl. cbn [fillAll p_Name].
  assert (∀ x y : list Z, orList x y = [] ↔ x = [] ∧ y = []) as Hor by (intros [] y; cbn; [tauto | by split; [| intros [? _]]]).
  rewrite Hor, foldr_orList_nil, !Forall_forall. split.
  - intros [_ H] q Hq Hs. symmetry. apply H. apply list_elem_of_fmap. exists q. split; [done |]. by apply list_elem_of_filter.
  - intros H. split; [by apply H |]. intros x (q & -> & [Hs Hq]%list_elem_of_filter)%list_elem_of_fmap. symmetry. by apply H.
Qed.

(** The names after the filling. *)
Lemma filled_nameless {A} `{Countable A} (h h' : gmap A (Program textMap)) (addrs : list A) same :
  (∀ k, same k k = true) → (∀ a, a ∈ addrs → is_Some (h !! a)) →
  (∀ a, h' !! a = (λ p, if decide (a ∈ addrs)
      then fillAll p (filter (λ q, same (programKey q) (programKey p) = true) (programsAt h addrs)) else p) <$> h !! a) →
  len (programsAt h' addrs) = len (programsAt h addrs) ∧
  len (filter (λ p, p_Name p = []) (programsAt h' addrs)) = len (nameless same (programsAt h addrs)).
Proof.
  intros Hrefl Hl Hh'. unfold nameless. set (all := programsAt h addrs) in *.
  assert (∀ l, (∀ a, a ∈ l → a ∈ addrs) →
    length (programsAt h' l) = length (programsAt h l) ∧
    length (filter (λ p, p_Name p = []) (programsAt h' l)) =
    length (filter (λ p, Forall (λ q, same (programKey q) (programKey p) = true → p_Name q = []) all) (programsAt h l))) as Hgen.
  { unfold programsAt. induction l as [| a l IH]; intros Hsub; [done |]. destruct IH as [IH1 IH2]; [intros b Hb; apply Hsub; by right |].
    assert (a ∈ addrs) as Ha by (apply Hsub; by left). destruct (Hl a Ha) as [p Hp].
    assert (p ∈ all) as Hall by (apply list_elem_of_omap; eauto).
    cbn [omap list_omap]. rewrite Hh', Hp. cbn [fmap option_fmap option_map]. rewrite decide_True by done. cbn [length]. split; [by rewrite IH1 |].
    rewrite !filter_cons. pose proof (fillAll_nameless same all p Hall Hrefl) as Hn.
    destruct (decide (p_Name (fillAll p _) = [])) as [E | E].
    - rewrite decide_True by (by apply Hn). cbn [length]. by rewrite IH2.
    - rewrite decide_False by (by rewrite <- Hn). done. }
  destruct (Hgen addrs (λ _ H, H)) as [E1 E2]. unfold len. split; f_equal; [exact E1 | exact E2].
Qed.

(** A collection stops early exactly when there are expected
    services, every one is ready, no extended group that was seen is incomplete,
    and the programs are few or less than four in five of them are without a name
    - where a program has a name as soon as any program of its group of shared
    events has one. *)
Theorem collection_stops obs expected : Forall observation_ok obs →
  returns (ObserveAll obs (NewSnapshot, emptyStore)) (λ '(s, h),
    let programs := flat_map (λ key, map (view h) (Programs s key)) expected in
    returns (shouldStopEITSCollection s h expected) (λ '(stop, _),
      ∃ same, grouping (flat_map (programPointers s) expected) (snapshotHeap s h) same ∧
        (stop = true ↔ expected ≠ [] ∧ (∀ key, key ∈ expected → service_ready key obs) ∧
           (∀ key base, key ∈ expected → isScheduleExtended base = true → seen key obs base → wholeGroup key obs base) ∧
           (len programs < 10 ∨ len (nameless same programs) * 100 < len programs * 80)))).
Proof.
  intros Hobs. eapply safe_mono; [by apply ObserveAll_ok |]. intros [s h] Hs. cbv zeta.
  set (pointers := flat_map (programPointers s) expected). set (heap := snapshotHeap s h).
  assert (loaded pointers heap) as Hload by apply pointers_loaded.
  pose proof (groups_filled pointers heap Hload) as Hf. unfold shouldStopEITSCollection. fold pointers heap.
  destruct (fillProgramsFromSharedPeers pointers heap) as [filled | | |]; try done.
  destruct Hf as (same & Hsame & Hfilled).
  assert (∀ k, same k k = true) as Hrefl by (intros k; by apply Hsame).
  pose proof (pointers_programs s h expected) as Hprograms. fold pointers heap in Hprograms.
  destruct (filled_nameless heap filled (addresses pointers) same Hrefl) as [Hlen Hnames];
    [intros a Ha; apply Hload; by apply elem_addresses | exact Hfilled |].
  rewrite Hprograms in Hlen, Hnames. set (programs := flat_map _ expected) in *.
  apply safe_bind. eapply safe_mono; [by apply (AllReady_ok obs (s, h)) |]. intros all Hall.
  destruct all; cbn [negb]; [| apply safe_ret; exists same; split; [done |]; split; [done |]; intros (H1 & H2 & _); by apply Hall].
  apply safe_bind. eapply safe_mono; [by apply (ObservedExtendedReady_ok obs (s, h)) |].
  intros extended Hext.
  destruct extended; cbn [negb]; [| apply safe_ret; exists same; split; [done |]; split; [done |]; intros (_ & _ & H3 & _); by apply Hext].
  cbn [mbind outcome_bind].
  apply safe_bind. eapply safe_mono; [apply lowQuality_ok |].
  - intros a Ha. destruct (Hload a Ha) as [p Hp]. rewrite Hfilled, Hp. by eexists.
  - intros warning Hw. apply safe_ret. exists same. split; [done |]. rewrite bool_decide_eq_true, Hw, Hlen, Hnames.
    destruct (proj1 Hall eq_refl) as [H1 H2]. pose proof (proj1 Hext eq_refl). tauto.
Qed.

End Stop.

(** ** Examples *)

(** Three services with one event: the first names the second, the third names
    the second too, and only the third has a name. *)
Definition sampleProgram (service event : Z) (name : list Z) (links : list (Z * Z)) : Program textMap :=
  MkProgram _ (ProgramID 4 service event) event service 4 1000 60000 true name [] [] None [] ∅
    (map (λ l, MkRelatedItem RelatedItemTypeShared None None (fst l) (snd l)) links) None.
Definition sampleHeap : gmap nat (Program textMap) :=
  {[ 0%nat := sampleProgram 101 7 [] [(102, 8)]; 1%nat := sampleProgram 102 8 [] []; 2%nat := sampleProgram 103 9 nameText [(102, 8)] ]}.
Definition samplePointers : list (option nat) := [Some 0%nat; None; Some 1%nat; Some 2%nat].

Lemma sample_loaded : loaded samplePointers sampleHeap.
Proof.
  intros a Ha. unfold samplePointers in Ha. rewrite !elem_of_cons in Ha.
  destruct Ha as [[= ->] | [? | [[= ->] | [[= ->] | ?%elem_of_nil]]]]; first [done | by eexists].
Qed.

Lemma shared_peers_fill_witness :
  (h ← fillProgramsFromSharedPeers (O := keyOrderOf) samplePointers sampleHeap;
   Ret (map (λ e, p_Name (snd e)) (map_to_list h))) = Ret [nameText; nameText; nameText] ∧
  returns (fillProgramsFromSharedPeers (O := keyOrderOf) samplePointers sampleHeap) (λ h', ∃ same, grouping samplePointers sampleHeap same ∧
    ∀ a, h' !! a = (λ p, if decide (a ∈ addresses samplePointers)
      then fillAll p (filter (λ q, same (programKey q) (programKey p) = true) (programsAt sampleHeap (addresses samplePointers))) else p)
      <$> sampleHeap !! a).
Proof.
  split; [vm_compute; reflexivity |]. exact (shared_peers_fill (O := keyOrderOf) samplePointers sampleHeap sample_loaded).
Defined.

Lemma collection_stops_witness :
  ('(s, h) ← ObserveAll (O := keyOrderOf) sampleObservations (NewSnapshot, emptyStore);
   fst <$> shouldStopEITSCollection (OG := keyOrder) (OP := keyOrderOf) s h [sampleKey]) = Ret true ∧
  returns (ObserveAll (O := keyOrderOf) sampleObservations (NewSnapshot, emptyStore)) (λ '(s, h),
    let programs := flat_map (λ key, map (view h) (Programs s key)) [sampleKey] in
    returns (shouldStopEITSCollection (OG := keyOrder) (OP := keyOrderOf) s h [sampleKey]) (λ '(stop, _),
      ∃ same, grouping (flat_map (programPointers s) [sampleKey]) (snapshotHeap s h) same ∧
        (stop = true ↔ [sampleKey] ≠ [] ∧ (∀ key, key ∈ [sampleKey] → service_ready key sampleObservations) ∧
           (∀ key base, key ∈ [sampleKey] → isScheduleExtended base = true → seen key sampleObservations base →
              wholeGroup key sampleObservations base) ∧
           (len programs < 10 ∨ len (nameless same programs) * 100 < len programs * 80)))).
Proof.
  split; [vm_compute; reflexivity |].
  exact (collection_stops (OM := keyOrderOf) (OG := keyOrder) (OP := keyOrderOf) sampleObservations [sampleKey] sample_observations_ok).
Defined.
