(* ===== verification/Distribution.v ===== *)
(** * Stream distribution ([internal/stream/demux])

    One [Demuxer] reads the stream of a channel and hands its packets and sections
    to any number of subscribers, each with a queue and a goroutine that writes
    it out.  It starts with the first subscriber, ends a subscriber whose queue
    overflows instead of losing packets, and stops for good when the last one has
    left.

    Packets and sections have subscribers of the same shape, so both are a
    [subscribers] here, of different types.  A channel is the list of what it
    holds and whether it is closed; a subscription also keeps what its writer has
    taken from the queue.  Every critical section is one step, as is every turn of
    the reading loop, of a writer and of the goroutines that [cancelIfEmptyLocked]
    starts; [perform] takes them in any order.  An [accept] that is [nil] is one
    that accepts everything.  The ids are unbounded here; the hooks, the metrics
    and the log, with the monitor of the reading loop that only feeds them, are not
    modelled, nor is the waiting of the callers. *)

From S2P Require Import Prelude Crc32 Packet Section Packetize PacketReader AribTables Aribstr Descriptors Psi TableSections Demux.

(** ** The code: the continuity monitor ([demuxer.go]) *)

Record continuityDrop : Type := MkDrop {
  cd_PID : Z;
  cd_ExpectedCounter : Z;
  cd_ActualCounter : Z
}.

(** The arrays over the PIDs: the set where they are [true], and the counters. *)
Record continuityMonitor : Type := MkMonitor {
  cm_seen : gset Z;
  cm_last : gmap Z Z;
  cm_duplicateSeen : gset Z;
  cm_lastPacket : gmap Z Packet
}.
Definition newMonitor : continuityMonitor := MkMonitor ∅ ∅ ∅ ∅.

Definition setElem (b : bool) (x : Z) (s : gset Z) : gset Z := if b then {[x]} ∪ s else s ∖ {[x]}.

Definition sameAsLast (pid : Z) (packet : Packet) (m : continuityMonitor) : bool :=
  match cm_lastPacket m !! pid with
  | Some previous => (len previous =? PacketSize) && bool_decide (previous = packet)
  | None => false
  end.

Definition remember (pid : Z) (packet : Packet) (m : continuityMonitor) : continuityMonitor :=
  MkMonitor (cm_seen m) (cm_last m) (cm_duplicateSeen m) (<[pid := packet]> (cm_lastPacket m)).

(** The packets the monitor does not look at. *)
Definition unmonitored (packet : Packet) : outcome bool :=
  Ret (negb (len packet =? PacketSize)) ||? (b ← packet![0]; Ret (negb (b =? SyncByte))) ||?
  TransportErrorIndicator packet ||? IsNull packet ||? (negb <$> ValidPayloadOffset packet).

Definition observe (packet : Packet) (m : continuityMonitor) : outcome (continuityMonitor * option continuityDrop) :=
  skip ← unmonitored packet;
  if skip : bool then Ret (m, None)
  else
    pid ← PID packet;
    if PIDNull <? pid then Panic
    else
      discontinuity ← DiscontinuityIndicator packet;
      let m := if discontinuity : bool
               then MkMonitor (setElem false pid (cm_seen m)) (cm_last m) (setElem false pid (cm_duplicateSeen m)) (delete pid (cm_lastPacket m))
               else m in
      payload ← HasPayload packet;
      if negb payload then Ret (m, None)
      else
        counter ← ContinuityCounter packet;
        let last := default 0 (cm_last m !! pid) in
        let ok := bool_decide (pid ∈ cm_seen m) in
        let m := MkMonitor (setElem true pid (cm_seen m)) (<[pid := counter]> (cm_last m)) (cm_duplicateSeen m) (cm_lastPacket m) in
        if ok && (counter =? last) && negb (bool_decide (pid ∈ cm_duplicateSeen m)) && sameAsLast pid packet m
        then Ret (MkMonitor (cm_seen m) (cm_last m) (setElem true pid (cm_duplicateSeen m)) (cm_lastPacket m), None)
        else
          let m := remember pid packet (MkMonitor (cm_seen m) (cm_last m) (setElem false pid (cm_duplicateSeen m)) (cm_lastPacket m)) in
          let expected := Z.land (u8 (last + 1)) 0x0f in
          Ret (m, if ok && negb (counter =? expected) then Some (MkDrop pid expected counter) else None).

(** ** The code: subscriptions ([subscription.go]) *)

Inductive streamError : Type := ErrSubscriberOverflow | ErrServiceNotFound | OtherError (n : nat).

(** [V] is what the dispatcher keeps of a subscription, [W] what its writer
    counts. *)
Record subscription {T V W : Type} : Type := MkSubscription {
  su_view : V;
  su_queue : list T;
  su_closed : bool;
  su_done : bool;
  su_finished : bool;
  su_err : option streamError;
  su_writer : W;
  su_writerDone : bool;
  su_taken : list T
}.
Arguments subscription : clear implicits.

(** [StreamInfo]: the packets and the drops. *)
Record packetWriter : Type := MkWriter {
  pw_continuity : continuityMonitor;
  pw_Packet : Z;
  pw_Drop : Z
}.
Definition packetSubscription : Type := subscription Packet (option ServiceDemux) packetWriter.
Definition sectionSubscription : Type := subscription SectionBytes (SectionBytes → bool) unit.

Definition newSubscription {T V W} (view : V) (writer : W) : subscription T V W :=
  MkSubscription T V W view [] false false false None writer false [].

(** The subscriptions by id: all there were, the keys of the map and the list. *)
Record subscribers {T V W : Type} : Type := MkSubscribers {
  sb_all : gmap nat (subscription T V W);
  sb_map : gset nat;
  sb_list : list nat
}.
Arguments subscribers : clear implicits.

(** The rest of the [Demuxer]; [dc_running] tells whether [run] is under way,
    [dc_closers] counts the goroutines and calls about to run [close], and
    [dc_empties] the calls of [onEmpty]. *)
Record demuxerCore : Type := MkCore {
  dc_demux : Demuxer;
  dc_nextID : nat;
  dc_err : option streamError;
  dc_started : bool;
  dc_stopped : bool;
  dc_stopOnce : bool;
  dc_done : bool;
  dc_cancelled : bool;
  dc_running : bool;
  dc_closers : nat;
  dc_empties : nat
}.

Record streamDemuxer : Type := MkStreamDemuxer {
  sd_packets : subscribers Packet (option ServiceDemux) packetWriter;
  sd_sections : subscribers SectionBytes (SectionBytes → bool) unit;
  sd_core : demuxerCore
}.

Definition newStreamDemuxer : streamDemuxer :=
  MkStreamDemuxer (MkSubscribers _ _ _ ∅ ∅ []) (MkSubscribers _ _ _ ∅ ∅ [])
    (MkCore NewDemuxer 0 None false false false false false false 0 0).

Definition packetSubscriberBuffer : Z := 16384.
Definition sectionSubscriberBuffer : Z := 512.

Section Fields.
Context {T V W : Type}.
Definition setQueue (x : list T) (s : subscription T V W) : subscription T V W :=
  MkSubscription T V W (su_view s) x (su_closed s) (su_done s) (su_finished s) (su_err s) (su_writer s) (su_writerDone s) (su_taken s).
Definition setView (x : V) (s : subscription T V W) : subscription T V W :=
  MkSubscription T V W x (su_queue s) (su_closed s) (su_done s) (su_finished s) (su_err s) (su_writer s) (su_writerDone s) (su_taken s).
Definition setWriter (x : W) (s : subscription T V W) : subscription T V W :=
  MkSubscription T V W (su_view s) (su_queue s) (su_closed s) (su_done s) (su_finished s) (su_err s) x (su_writerDone s) (su_taken s).
Definition setWriterDone (s : subscription T V W) : subscription T V W :=
  MkSubscription T V W (su_view s) (su_queue s) (su_closed s) (su_done s) (su_finished s) (su_err s) (su_writer s) true (su_taken s).
(** The writer receives the first [k] of the queue. *)
Definition takeQueue (k : nat) (s : subscription T V W) : subscription T V W :=
  MkSubscription T V W (su_view s) (drop k (su_queue s)) (su_closed s) (su_done s) (su_finished s) (su_err s) (su_writer s) (su_writerDone s)
    (su_taken s ++ take k (su_queue s)).

Definition setSub (id : nat) (sub : subscription T V W) (s : subscribers T V W) : subscribers T V W :=
  MkSubscribers T V W (<[id := sub]> (sb_all s)) (sb_map s) (sb_list s).

(** [sub.finished = true; sub.err = err; close(sub.queue); close(sub.done)] *)
Definition finishSub (err : option streamError) (s : subscription T V W) : outcome (subscription T V W) :=
  if su_closed s || su_done s then Panic
  else Ret (MkSubscription T V W (su_view s) (su_queue s) true true true err (su_writer s) (su_writerDone s) (su_taken s)).

(** [empty] tells whether both maps are. *)
Definition cancelIfEmptyLocked (empty : bool) (c : demuxerCore) : demuxerCore :=
  if negb empty then c
  else MkCore (dc_demux c) (dc_nextID c) (dc_err c) (dc_started c) true (dc_stopOnce c) (dc_done c)
         (if dc_started c then true else dc_cancelled c) (dc_running c)
         (if dc_started c then dc_closers c else S (dc_closers c)) (dc_empties c).

(** [finishPacketLocked] and [finishSectionLocked]; [others] tells whether the
    other map is empty. *)
Definition finishLocked (others : bool) (id : nat) (err : option streamError) (st : subscribers T V W * demuxerCore)
    : outcome (subscribers T V W * demuxerCore) :=
  let '(s, c) := st in
  if negb (bool_decide (id ∈ sb_map s)) then Ret st
  else match sb_all s !! id with
  | None => Ret st
  | Some sub =>
      if su_finished sub then Ret st
      else
        sub ← finishSub err sub;
        let s := MkSubscribers T V W (<[id := sub]> (sb_all s)) (sb_map s ∖ {[id]}) (filter (λ i, i ≠ id) (sb_list s)) in
        Ret (s, cancelIfEmptyLocked (bool_decide (sb_map s = ∅) && others) c)
  end.

(** What the dispatcher has for a subscription. *)
Inductive offer : Type := Refuse (err : streamError) | Skip | Send (x : T).

(** [select { case sub.queue <- x: default: }] *)
Definition trySend (capacity : Z) (x : T) (s : subscription T V W) : outcome (option (subscription T V W)) :=
  if su_closed s then Panic
  else Ret (if len (su_queue s) <? capacity then Some (setQueue (su_queue s ++ [x]) s) else None).

(** An iteration of the loops of [dispatch]. *)
Definition dispatchBody (capacity : Z) (others : bool) (choose : V → outcome (V * offer)) (st : nat * (subscribers T V W * demuxerCore))
    : outcome (nat * (subscribers T V W * demuxerCore) + subscribers T V W * demuxerCore) :=
  let '(i, (s, c)) := st in
  match sb_list s !! i with
  | None => break (s, c)
  | Some id =>
      match sb_all s !! id with
      | None => Panic
      | Some sub =>
          '(view, o) ← choose (su_view sub);
          let sub := setView view sub in
          let s := setSub id sub s in
          match o with
          | Refuse err => st ← finishLocked others id (Some err) (s, c); continue (i, st)
          | Skip => continue (S i, (s, c))
          | Send x =>
              sent ← trySend capacity x sub;
              match sent with
              | Some sub => continue (S i, (setSub id sub s, c))
              | None => st ← finishLocked others id (Some ErrSubscriberOverflow) (s, c); continue (i, st)
              end
          end
      end
  end.

Definition dispatchTo (capacity : Z) (others : bool) (choose : V → outcome (V * offer)) (st : subscribers T V W * demuxerCore)
    : outcome (subscribers T V W * demuxerCore) :=
  loop (S (length (sb_list (fst st)))) (dispatchBody capacity others choose) (O, st).

(** The loops of [close]. *)
Definition finishAll (others : bool) (err : option streamError) (st : subscribers T V W * demuxerCore)
    : outcome (subscribers T V W * demuxerCore) :=
  loop (S (length (sb_list (fst st)))) (λ st, match sb_list (fst st) with
    | [] => break st
    | id :: _ => st ← finishLocked others id err st; continue st
    end) st.

(** The entry of a new subscription. *)
Definition attach (id : nat) (sub : subscription T V W) (s : subscribers T V W) : subscribers T V W :=
  MkSubscribers T V W (<[id := sub]> (sb_all s)) ({[id]} ∪ sb_map s) (sb_list s ++ [id]).

End Fields.
Arguments offer : clear implicits.

(** ** The code: the demuxer ([demuxer.go]) *)

Section Code.
Context {O : RangeOrder Z}.

Definition isEmpty {T V W} (s : subscribers T V W) : bool := bool_decide (sb_map s = ∅).

(** The two branches of the loop over the packet subscriptions. *)
Definition packetOffer (d : Demuxer) (packet : Packet) (view : option ServiceDemux) : outcome (option ServiceDemux * offer Packet) :=
  match view with
  | None => Ret (None, Send packet)
  | Some service =>
      if PATReady d && negb (HasService d (sd_serviceID service)) then Ret (view, Refuse ErrServiceNotFound)
      else
        '(service, out) ← ViewPacket d packet service;
        Ret (Some service, match out with None => Skip | Some out => Send out end)
  end.

Definition sectionOffer (section : SectionBytes) (accept : SectionBytes → bool) : outcome ((SectionBytes → bool) * offer SectionBytes) :=
  Ret (accept, if accept section then Send section else Skip).

Definition dispatch (packet : Packet) (sections : list PIDSection) (e : streamDemuxer) : outcome streamDemuxer :=
  '(packets, c) ← dispatchTo packetSubscriberBuffer (isEmpty (sd_sections e)) (packetOffer (dc_demux (sd_core e)) packet)
                    (sd_packets e, sd_core e);
  '(sections, c) ← foldM (λ st section, dispatchTo sectionSubscriberBuffer (isEmpty packets) (sectionOffer (ps_Section section)) st)
                     sections (sd_sections e, c);
  Ret (MkStreamDemuxer packets sections c).

(** [close], once. *)
Definition closeDemuxer (err : option streamError) (e : streamDemuxer) : outcome streamDemuxer :=
  let c := sd_core e in
  if dc_stopOnce c then Ret e
  else
    let c := MkCore (dc_demux c) (dc_nextID c) err (dc_started c) true true (dc_done c) (dc_cancelled c) (dc_running c)
               (dc_closers c) (dc_empties c) in
    '(packets, c) ← finishAll (isEmpty (sd_sections e)) err (sd_packets e, c);
    '(sections, c) ← finishAll (isEmpty packets) err (sd_sections e, c);
    if dc_done c then Panic
    else Ret (MkStreamDemuxer packets sections
           (MkCore (dc_demux c) (dc_nextID c) (dc_err c) (dc_started c) (dc_stopped c) (dc_stopOnce c) true (dc_cancelled c)
              (dc_running c) (dc_closers c) (S (dc_empties c)))).

Definition startLocked (c : demuxerCore) : demuxerCore :=
  if dc_started c then c
  else MkCore (dc_demux c) (dc_nextID c) (dc_err c) true (dc_stopped c) (dc_stopOnce c) (dc_done c) (dc_cancelled c) true
         (dc_closers c) (dc_empties c).

Definition nextID (c : demuxerCore) : demuxerCore :=
  MkCore (dc_demux c) (S (dc_nextID c)) (dc_err c) (dc_started c) (dc_stopped c) (dc_stopOnce c) (dc_done c) (dc_cancelled c)
    (dc_running c) (dc_closers c) (dc_empties c).

(** The id, or [None] for [ErrDemuxerStopped]. *)
Definition attachPacket (serviceID : option Z) (e : streamDemuxer) : streamDemuxer * option nat :=
  let c := sd_core e in
  if dc_stopped c then (e, None)
  else
    let id := dc_nextID c in
    let sub := newSubscription (Service <$> serviceID) (MkWriter newMonitor 0 0) in
    (MkStreamDemuxer (attach id sub (sd_packets e)) (sd_sections e) (startLocked (nextID c)), Some id).

Definition attachSection (accept : SectionBytes → bool) (start : bool) (e : streamDemuxer) : streamDemuxer * option nat :=
  let c := sd_core e in
  if dc_stopped c then (e, None)
  else
    let id := dc_nextID c in
    let c := if start then startLocked (nextID c) else nextID c in
    (MkStreamDemuxer (sd_packets e) (attach id (newSubscription accept tt) (sd_sections e)) c, Some id).

Definition finishPacket (id : nat) (err : option streamError) (e : streamDemuxer) : outcome streamDemuxer :=
  '(packets, c) ← finishLocked (isEmpty (sd_sections e)) id err (sd_packets e, sd_core e);
  Ret (MkStreamDemuxer packets (sd_sections e) c).
Definition finishSection (id : nat) (err : option streamError) (e : streamDemuxer) : outcome streamDemuxer :=
  '(sections, c) ← finishLocked (isEmpty (sd_packets e)) id err (sd_sections e, sd_core e);
  Ret (MkStreamDemuxer (sd_packets e) sections c).

Definition setDemux (d : Demuxer) (c : demuxerCore) : demuxerCore :=
  MkCore d (dc_nextID c) (dc_err c) (dc_started c) (dc_stopped c) (dc_stopOnce c) (dc_done c) (dc_cancelled c) (dc_running c)
    (dc_closers c) (dc_empties c).

(** A turn of the loop of [run]. *)
Definition readPacket (packet : Packet) (e : streamDemuxer) : outcome streamDemuxer :=
  '(d, sections) ← FeedWithPID packet (dc_demux (sd_core e));
  dispatch packet sections (MkStreamDemuxer (sd_packets e) (sd_sections e) (setDemux d (sd_core e))).

(** The end of [run]. *)
Definition runEnds (err : option streamError) (e : streamDemuxer) : outcome streamDemuxer :=
  let c := sd_core e in
  closeDemuxer err (MkStreamDemuxer (sd_packets e) (sd_sections e)
    (MkCore (dc_demux c) (dc_nextID c) (dc_err c) (dc_started c) (dc_stopped c) (dc_stopOnce c) (dc_done c) (dc_cancelled c) false
       (dc_closers c) (dc_empties c))).

(** The critical section of [Stop]; the [close] of a demuxer that never started
    follows. *)
Definition Stop (e : streamDemuxer) : streamDemuxer :=
  let c := sd_core e in
  if dc_stopped c then e
  else MkStreamDemuxer (sd_packets e) (sd_sections e)
         (MkCore (dc_demux c) (dc_nextID c) (dc_err c) (dc_started c) true (dc_stopOnce c) (dc_done c)
            (if dc_started c then true else dc_cancelled c) (dc_running c)
            (if dc_started c then dc_closers c else S (dc_closers c)) (dc_empties c)).

Definition closerRuns (e : streamDemuxer) : outcome streamDemuxer :=
  let c := sd_core e in
  closeDemuxer None (MkStreamDemuxer (sd_packets e) (sd_sections e)
    (MkCore (dc_demux c) (dc_nextID c) (dc_err c) (dc_started c) (dc_stopped c) (dc_stopOnce c) (dc_done c) (dc_cancelled c)
       (dc_running c) (pred (dc_closers c)) (dc_empties c))).

(** [packetWriteBatchBytes / PacketSize] *)
Definition packetWriteBatch : nat := 64.

Definition countPacket (w : packetWriter) (packet : Packet) : outcome packetWriter :=
  '(m, drop) ← observe packet (pw_continuity w);
  Ret (MkWriter m (pw_Packet w + 1) (pw_Drop w + match drop with Some _ => 1 | None => 0 end)).

(** A turn of the loop of [writePackets], which has got [k] packets from the
    queue; [err] is the error of the write. *)
Definition writePackets (id k : nat) (err : option streamError) (e : streamDemuxer) : outcome streamDemuxer :=
  match sb_all (sd_packets e) !! id with
  | None => Panic
  | Some sub =>
      w ← foldM countPacket (take k (su_queue sub)) (su_writer sub);
      let sub := setWriter w (takeQueue k sub) in
      match err with
      | None => Ret (MkStreamDemuxer (setSub id sub (sd_packets e)) (sd_sections e) (sd_core e))
      | Some _ => finishPacket id err (MkStreamDemuxer (setSub id (setWriterDone sub) (sd_packets e)) (sd_sections e) (sd_core e))
      end
  end.

(** A turn of the loop of [writeSections]. *)
Definition writeSection (id : nat) (err : option streamError) (e : streamDemuxer) : outcome streamDemuxer :=
  match sb_all (sd_sections e) !! id with
  | None => Panic
  | Some sub =>
      let sub := takeQueue 1 sub in
      match err with
      | None => Ret (MkStreamDemuxer (sd_packets e) (setSub id sub (sd_sections e)) (sd_core e))
      | Some _ => finishSection id err (MkStreamDemuxer (sd_packets e) (setSub id (setWriterDone sub) (sd_sections e)) (sd_core e))
      end
  end.

(** The writers' [close(sub.writerDone)] at the end of their queue. *)
Definition writerLeaves {T V W} (id : nat) (s : subscribers T V W) : subscribers T V W :=
  MkSubscribers T V W (alter setWriterDone id (sb_all s)) (sb_map s) (sb_list s).

End Code.

(** ** The steps *)

Inductive action : Type :=
| AttachPacket (serviceID : option Z)
| AttachSection (accept : SectionBytes → bool) (start : bool)
| ReadPacket (packet : Packet)
| RunEnds (err : option streamError)
| WritePackets (id k : nat) (err : option streamError)
| WriteSection (id : nat) (err : option streamError)
| PacketWriterLeaves (id : nat)
| SectionWriterLeaves (id : nat)
| FinishPacket (id : nat) (err : option streamError)
| FinishSection (id : nat) (err : option streamError)
| StopCalled
| CloserRuns.

(** A writer takes from its queue until it ends. *)
Definition canWrite {T V W} (id k : nat) (s : subscribers T V W) : bool :=
  match sb_all s !! id with
  | Some sub => negb (su_writerDone sub) && bool_decide (1 ≤ k ≤ length (su_queue sub))%nat
  | None => false
  end.
Definition canLeave {T V W} (id : nat) (s : subscribers T V W) : bool :=
  match sb_all s !! id with
  | Some sub => negb (su_writerDone sub) && su_closed sub && bool_decide (su_queue sub = [])
  | None => false
  end.

Definition enabled (a : action) (e : streamDemuxer) : bool :=
  match a with
  | AttachPacket _ | AttachSection _ _ | FinishPacket _ _ | FinishSection _ _ | StopCalled => true
  | ReadPacket packet => dc_running (sd_core e) && forallb (λ b, (0 <=? b) && (b <? 256)) packet
  | RunEnds _ => dc_running (sd_core e)
  | WritePackets id k _ => canWrite id k (sd_packets e) && bool_decide (k ≤ packetWriteBatch)%nat
  | WriteSection id _ => canWrite id 1 (sd_sections e)
  | PacketWriterLeaves id => canLeave id (sd_packets e)
  | SectionWriterLeaves id => canLeave id (sd_sections e)
  | CloserRuns => bool_decide (0 < dc_closers (sd_core e))%nat
  end.

Definition perform {O : RangeOrder Z} (a : action) (e : streamDemuxer) : outcome streamDemuxer :=
  match a with
  | AttachPacket serviceID => Ret (fst (attachPacket serviceID e))
  | AttachSection accept start => Ret (fst (attachSection accept start e))
  | ReadPacket packet => readPacket packet e
  | RunEnds err => runEnds err e
  | WritePackets id k err => writePackets id k err e
  | WriteSection id err => writeSection id err e
  | PacketWriterLeaves id => Ret (MkStreamDemuxer (writerLeaves id (sd_packets e)) (sd_sections e) (sd_core e))
  | SectionWriterLeaves id => Ret (MkStreamDemuxer (sd_packets e) (writerLeaves id (sd_sections e)) (sd_core e))
  | FinishPacket id err => finishPacket id err e
  | FinishSection id err => finishSection id err e
  | StopCalled => Ret (Stop e)
  | CloserRuns => closerRuns e
  end.

(** ** The flags *)

(** [empty] tells whether there is no subscription.  A stopped demuxer is closed,
    or will be by its reading loop, which is cancelled, or by a goroutine. *)
Record core_inv (empty : bool) (c : demuxerCore) : Prop := {
  ci_once : dc_stopOnce c = dc_done c;
  ci_empties : dc_empties c = if dc_done c then 1%nat else 0%nat;
  ci_done : dc_done c = true → dc_stopped c = true ∧ empty = true ∧ dc_running c = false;
  ci_running : dc_running c = true → dc_started c = true;
  ci_started : dc_started c = true → dc_running c = true ∨ dc_done c = true;
  ci_cancelled : dc_cancelled c = true → dc_started c = true;
  ci_closers : (0 < dc_closers c)%nat → dc_started c = false ∧ dc_stopped c = true;
  ci_stopped : dc_stopped c = true → dc_done c = true ∨ (dc_running c = true ∧ dc_cancelled c = true) ∨ (0 < dc_closers c)%nat;
  ci_empty : empty = true → (0 < dc_nextID c)%nat → dc_stopped c = true
}.

(** The fields a finished subscription leaves alone. *)
Definition core_frame (c c' : demuxerCore) : Prop :=
  dc_demux c' = dc_demux c ∧ dc_nextID c' = dc_nextID c ∧ dc_err c' = dc_err c ∧ dc_started c' = dc_started c ∧
  dc_stopOnce c' = dc_stopOnce c ∧ dc_done c' = dc_done c ∧ dc_running c' = dc_running c ∧ dc_empties c' = dc_empties c ∧
  (dc_stopped c = true → dc_stopped c' = true) ∧ (dc_started c = true → dc_closers c' = dc_closers c) ∧
  (dc_cancelled c' = true → dc_cancelled c = true ∨ dc_started c = true).

Lemma core_frame_refl c : core_frame c c.
Proof. unfold core_frame. tauto. Qed.

Lemma core_frame_trans c1 c2 c3 : core_frame c1 c2 → core_frame c2 c3 → core_frame c1 c3.
Proof.
  intros (A1 & A2 & A3 & A4 & A5 & A6 & A7 & A8 & A9 & A10 & A11) (B1 & B2 & B3 & B4 & B5 & B6 & B7 & B8 & B9 & B10 & B11).
  split_and!; try congruence; [by auto | |].
  - intros Hs. rewrite (B10 ltac:(congruence)). by apply A10.
  - intros Hc. destruct (B11 Hc) as [H | H]; [by apply A11 | right; congruence].
Qed.

Lemma core_frame_cancel empty c : core_frame c (cancelIfEmptyLocked empty c).
Proof. unfold cancelIfEmptyLocked. destruct empty; [| apply core_frame_refl]. cbn [negb]. split_and!; cbn; destruct (dc_started c); try done; auto. Qed.

Lemma core_stop empty c : core_inv empty c → dc_done c = false → core_inv empty (cancelIfEmptyLocked true c).
Proof.
  intros [A1 A2 A3 A4 A5 A6 A7 A8 A9] Hd. unfold cancelIfEmptyLocked. cbn [negb].
  split; cbn; try done; rewrite ?Hd in *; try done.
  all: destruct (dc_started c) eqn:E; try done; try tauto.
  intros _. right. right. lia.
Qed.

Lemma core_cancel empty c : core_inv false c → dc_done c = false → core_inv empty (cancelIfEmptyLocked empty c).
Proof.
  intros [A1 A2 A3 A4 A5 A6 A7 A8 A9] Hd. unfold cancelIfEmptyLocked. destruct empty; [| by split]. cbn [negb].
  split; cbn; try done; rewrite ?Hd in *; try done.
  all: destruct (dc_started c) eqn:E; try done; try tauto.
  intros _. right. right. lia.
Qed.

(** ** Subscriptions *)

Section Subscribers.
Context {T V W H : Type} (choose : H → V → outcome (V * offer T)) (capacity : Z) (okT : T → Prop) (okV : V → Prop)
  (okW : W → list T → Prop).

(** What a subscription is sent of a history: [served v l v' out] when the
    offers of [l] take its view from [v] to [v'] and send it [out]. *)
Inductive served (v : V) : list H → V → list T → Prop :=
| served_nil : served v [] v []
| served_skip l v1 out h v2 : served v l v1 out → choose h v1 = Ret (v2, Skip) → served v (l ++ [h]) v2 out
| served_send l v1 out h v2 x : served v l v1 out → choose h v1 = Ret (v2, Send x) → served v (l ++ [h]) v2 (out ++ [x]).

(** A subscription has got, or has in its queue, all it was sent from its start
    on: to the present or, once finished, to its end. *)
Definition complete (v0 : V) (since : list H) (sub : subscription T V W) : Prop :=
  ∃ n v, (n ≤ length since)%nat ∧ (su_finished sub = false → n = length since ∧ v = su_view sub) ∧
    served v0 (take n since) v (su_taken sub ++ su_queue sub).

(** The subscriptions of one kind: those that are not finished are in the map
    and, once, in the list, and only their channels are open. *)
Record subs_base (next : nat) (s : subscribers T V W) : Prop := {
  sk_map : ∀ id, id ∈ sb_map s ↔ ∃ sub, sb_all s !! id = Some sub ∧ su_finished sub = false;
  sk_list : ∀ id, id ∈ sb_list s ↔ id ∈ sb_map s;
  sk_nodup : NoDup (sb_list s);
  sk_flags : ∀ id sub, sb_all s !! id = Some sub → su_closed sub = su_finished sub ∧ su_done sub = su_finished sub;
  sk_capacity : ∀ id sub, sb_all s !! id = Some sub → len (su_queue sub) ≤ capacity;
  sk_next : ∀ id, is_Some (sb_all s !! id) → (id < next)%nat;
  sk_items : ∀ id sub, sb_all s !! id = Some sub → okV (su_view sub) ∧ Forall okT (su_queue sub) ∧ okW (su_writer sub) (su_taken sub)
}.

(** [start] tells the first view of every subscription and the length of the
    history when it was attached. *)
Definition started_ok (hist : list H) (start : gmap nat (V * nat)) (id : nat) (sub : subscription T V W) : Prop :=
  ∃ v0 n, start !! id = Some (v0, n) ∧ (n ≤ length hist)%nat ∧ complete v0 (drop n hist) sub.
Definition subs_complete (hist : list H) (start : gmap nat (V * nat)) (s : subscribers T V W) : Prop :=
  map_Forall (started_ok hist start) (sb_all s).

Definition closedSub (err : option streamError) (sub : subscription T V W) : subscription T V W :=
  MkSubscription T V W (su_view sub) (su_queue sub) true true true err (su_writer sub) (su_writerDone sub) (su_taken sub).
Definition finishedAt (id : nat) (err : option streamError) (sub : subscription T V W) (s : subscribers T V W) : subscribers T V W :=
  MkSubscribers T V W (<[id := closedSub err sub]> (sb_all s)) (sb_map s ∖ {[id]}) (filter (λ i, i ≠ id) (sb_list s)).

Lemma live_sub next s id : subs_base next s → id ∈ sb_map s → ∃ sub, sb_all s !! id = Some sub ∧ su_finished sub = false.
Proof. intros Hs Hid. by apply (sk_map _ _ Hs). Qed.

Lemma finishLocked_live others next id err s c sub : subs_base next s → sb_all s !! id = Some sub → su_finished sub = false →
  finishLocked others id err (s, c) =
    Ret (finishedAt id err sub s, cancelIfEmptyLocked (bool_decide (sb_map s ∖ {[id]} = ∅) && others) c).
Proof.
  intros Hs Hsub Hf. unfold finishLocked. rewrite bool_decide_true by (apply (sk_map _ _ Hs); eauto). cbn [negb].
  rewrite Hsub, Hf. destruct (sk_flags _ _ Hs id sub Hsub) as [E1 E2]. unfold finishSub. rewrite E1, E2, Hf. done.
Qed.

Lemma finishLocked_gone others next id err s c : subs_base next s → id ∉ sb_map s → finishLocked others id err (s, c) = Ret (s, c).
Proof. intros Hs Hid. unfold finishLocked. by rewrite bool_decide_false. Qed.

Lemma finishedAt_ok next id err sub s : subs_base next s → sb_all s !! id = Some sub → subs_base next (finishedAt id err sub s).
Proof.
  intros [H1 H2 H3 H4 H5 H6 H7] Hsub. split; cbn [finishedAt sb_all sb_map sb_list].
  - intros i. rewrite elem_of_difference, elem_of_singleton, H1. destruct (decide (i = id)) as [-> | Hne].
    + rewrite lookup_insert_eq. split; [by intros [_ []] | by intros (? & [= <-] & ?)].
    + rewrite lookup_insert_ne by done. naive_solver.
  - intros i. rewrite list_elem_of_filter, elem_of_difference, elem_of_singleton, H2. tauto.
  - by apply NoDup_filter.
  - intros i x. destruct (decide (i = id)) as [-> | Hne]; [rewrite lookup_insert_eq; by intros [= <-] |].
    rewrite lookup_insert_ne by done. apply H4.
  - intros i x. destruct (decide (i = id)) as [-> | Hne]; [rewrite lookup_insert_eq; intros [= <-]; by apply (H5 id sub) |].
    rewrite lookup_insert_ne by done. apply H5.
  - intros i. destruct (decide (i = id)) as [-> | Hne]; [intros _; apply H6; by exists sub |].
    rewrite lookup_insert_ne by done. apply H6.
  - intros i x. destruct (decide (i = id)) as [-> | Hne]; [rewrite lookup_insert_eq; intros [= <-]; by apply (H7 id sub) |].
    rewrite lookup_insert_ne by done. apply H7.
Qed.

(** A subscription replaced by one that differs in what it was sent. *)
Lemma setSub_ok next id sub sub' s : subs_base next s → sb_all s !! id = Some sub →
  su_closed sub' = su_closed sub → su_done sub' = su_done sub → su_finished sub' = su_finished sub → len (su_queue sub') ≤ capacity →
  okV (su_view sub') → Forall okT (su_queue sub') → okW (su_writer sub') (su_taken sub') → subs_base next (setSub id sub' s).
Proof.
  intros [H1 H2 H3 H4 H5 H6 H7] Hsub E1 E2 E3 Hcap Hv Hq Hw. split; cbn [setSub sb_all sb_map sb_list]; try done.
  - intros i. rewrite H1. destruct (decide (i = id)) as [-> | Hne]; [| by rewrite lookup_insert_ne].
    rewrite lookup_insert_eq, Hsub. split; intros (x & [= <-] & Hx); eexists; (split; [done |]); congruence.
  - intros i x. destruct (decide (i = id)) as [-> | Hne]; [| rewrite lookup_insert_ne by done; apply H4].
    rewrite lookup_insert_eq. intros [= <-]. rewrite E1, E2, E3. by apply (H4 id).
  - intros i x. destruct (decide (i = id)) as [-> | Hne]; [| rewrite lookup_insert_ne by done; apply H5].
    rewrite lookup_insert_eq. by intros [= <-].
  - intros i. destruct (decide (i = id)) as [-> | Hne]; [| rewrite lookup_insert_ne by done; apply H6].
    intros _. apply H6. by exists sub.
  - intros i x. destruct (decide (i = id)) as [-> | Hne]; [| rewrite lookup_insert_ne by done; apply H7].
    rewrite lookup_insert_eq. by intros [= <-].
Qed.

Lemma complete_longer v0 since h sub : su_finished sub = true → complete v0 since sub → complete v0 (since ++ [h]) sub.
Proof.
  intros Hf (n & v & Hn & _ & Hs). exists n, v. split; [rewrite length_app; lia |]. split; [by rewrite Hf |].
  by rewrite take_app_le.
Qed.

Lemma complete_closed v0 since h sub sub' : su_finished sub' = true →
  su_taken sub' ++ su_queue sub' = su_taken sub ++ su_queue sub → complete v0 since sub → complete v0 (since ++ [h]) sub'.
Proof.
  intros Hf Hq (n & v & Hn & _ & Hs). exists n, v. split; [rewrite length_app; lia |]. split; [by rewrite Hf |].
  rewrite Hq. by rewrite take_app_le.
Qed.

Lemma complete_same v0 since sub sub' : su_finished sub' = su_finished sub → su_view sub' = su_view sub →
  su_taken sub' ++ su_queue sub' = su_taken sub ++ su_queue sub → complete v0 since sub → complete v0 since sub'.
Proof. unfold complete. intros -> -> ->. done. Qed.

Lemma complete_ends v0 since err sub : complete v0 since sub → complete v0 since (closedSub err sub).
Proof. intros (n & v & Hn & _ & Hs). by exists n, v. Qed.

(** One more offer. *)
Lemma complete_next v0 since h sub v' o sub' : complete v0 since sub → su_finished sub = false → choose h (su_view sub) = Ret (v', o) →
  su_view sub' = v' → match o with
    | Refuse _ => False
    | Skip => su_taken sub' ++ su_queue sub' = su_taken sub ++ su_queue sub
    | Send x => su_taken sub' ++ su_queue sub' = (su_taken sub ++ su_queue sub) ++ [x]
    end → complete v0 (since ++ [h]) sub'.
Proof.
  intros (n & v & Hn & Hlive & Hs) Hf Hc Hv Ho. destruct (Hlive Hf) as [-> ->]. rewrite take_ge in Hs by lia.
  exists (length (since ++ [h])), v'. split; [done |]. split; [done |]. rewrite take_ge by done.
  destruct o as [| | x]; [done | rewrite Ho | rewrite Ho].
  - by eapply served_skip.
  - by eapply served_send.
Qed.

Lemma started_mono hist start id sub h (P : ∀ v0 since, complete v0 since sub → complete v0 (since ++ [h]) sub) :
  started_ok hist start id sub → started_ok (hist ++ [h]) start id sub.
Proof.
  intros (v0 & n & Hst & Hn & Hc). exists v0, n. split; [done |]. split; [rewrite length_app; lia |].
  rewrite drop_app_le by done. by apply P.
Qed.

(** A loop of [dispatch]: before the [i]-th subscription of the list all have had
    the offer, from it on none. *)
Definition offered (hist : list H) (h : H) (start : gmap nat (V * nat)) (i : nat) (s : subscribers T V W) : Prop :=
  ∀ id sub, sb_all s !! id = Some sub →
    if decide (id ∈ drop i (sb_list s)) then started_ok hist start id sub else started_ok (hist ++ [h]) start id sub.

Lemma split_nth {A} (l : list A) i x : l !! i = Some x → l = take i l ++ x :: drop (S i) l ∧ length (take i l) = i.
Proof.
  intros Hi. split; [by rewrite take_drop_middle |]. apply lookup_lt_Some in Hi. rewrite length_take. lia.
Qed.

Lemma filter_absent (id : nat) (l : list nat) : id ∉ l → filter (λ j, j ≠ id) l = l.
Proof.
  induction l as [| j l IH]; intros Hid; [done |]. apply not_elem_of_cons in Hid as [Hj Hid].
  rewrite filter_cons_True by done. by rewrite IH.
Qed.

Lemma filter_nth (i id : nat) (l : list nat) : NoDup l → l !! i = Some id → filter (λ j, j ≠ id) l = take i l ++ drop (S i) l.
Proof.
  intros Hnd Hi. destruct (split_nth l i id Hi) as [Hl _]. rewrite Hl in Hnd.
  apply NoDup_app in Hnd as (_ & Hdisj & Hnd). apply NoDup_cons in Hnd as [Hr _].
  rewrite Hl at 1. rewrite filter_app, filter_cons_False by (intros H1; by apply H1).
  rewrite !filter_absent; [done | done |]. intros Hin. apply (Hdisj id Hin). by left.
Qed.

Lemma offered_start next hist h start s : subs_base next s → subs_complete hist start s → offered hist h start 0 s.
Proof.
  intros Hs Hc id sub Hsub. rewrite drop_0. case_decide as Hid; [by apply (Hc id) |].
  apply started_mono; [| by apply (Hc id)]. intros v0 since. apply complete_longer.
  destruct (su_finished sub) eqn:E; [done |]. exfalso. apply Hid, (sk_list _ _ Hs), (sk_map _ _ Hs). eauto.
Qed.

(** What the loop keeps of the rest of the demuxer. *)
Definition core_kept (others : bool) (c0 : demuxerCore) (st : subscribers T V W * demuxerCore) : Prop :=
  core_inv (bool_decide (sb_map (fst st) = ∅) && others) (snd st) ∧ core_frame c0 (snd st).

Lemma finish_kept others next id err sub s c c0 : subs_base next s → sb_all s !! id = Some sub → su_finished sub = false →
  dc_done c0 = false → core_kept others c0 (s, c) →
  returns (finishLocked others id err (s, c)) (λ st, fst st = finishedAt id err sub s ∧ core_kept others c0 st).
Proof.
  intros Hs Hsub Hf Hd [Hi Hfr]. rewrite (finishLocked_live others next id err s c sub Hs Hsub Hf).
  split; [done |]. cbn [fst snd] in *. split.
  - apply core_cancel; [| unfold core_frame in Hfr; destruct Hfr as (_ & _ & _ & _ & _ & -> & _); done].
    rewrite bool_decide_false in Hi; [done |]. intros Hempty. assert (id ∈ sb_map s) as Hid by (apply (sk_map _ _ Hs); eauto).
    rewrite Hempty in Hid. by apply elem_of_empty in Hid.
  - eapply core_frame_trans; [exact Hfr | apply core_frame_cancel].
Qed.

(** The [i]-th subscription has had the offer. *)
Lemma offered_next next hist h start i i' id sub' s s' : subs_base next s → sb_list s !! i = Some id → offered hist h start i s →
  started_ok (hist ++ [h]) start id sub' → sb_all s' = <[id := sub']> (sb_all s) → drop i' (sb_list s') = drop (S i) (sb_list s) →
  offered hist h start i' s'.
Proof.
  intros Hs Hid Ho Hsub' Eall Elist j x. rewrite Eall, Elist. pose proof (sk_nodup _ _ Hs) as Hnd.
  destruct (split_nth _ _ _ Hid) as [Hsplit _]. rewrite Hsplit in Hnd. apply NoDup_app in Hnd as (_ & _ & [Hnot _]%NoDup_cons).
  destruct (decide (j = id)) as [-> | Hj].
  - rewrite lookup_insert_eq. intros [= <-]. by rewrite decide_False.
  - rewrite lookup_insert_ne by done. intros Hx. specialize (Ho j x Hx).
    rewrite (decide_ext _ (j ∈ drop i (sb_list s))); [exact Ho |]. rewrite (drop_S (sb_list s) id i) by done. rewrite elem_of_cons. clear - Hj. firstorder.
Qed.

Lemma started_next hist h start id n v0 sub sub' : start !! id = Some (v0, n) → (n ≤ length hist)%nat →
  (∀ since, complete v0 since sub → complete v0 (since ++ [h]) sub') → complete v0 (drop n hist) sub →
  started_ok (hist ++ [h]) start id sub'.
Proof.
  intros Hst Hn Hmore Hcomp. exists v0, n. split; [done |]. split; [rewrite length_app; lia |]. rewrite drop_app_le by done. by apply Hmore.
Qed.

(** What the loop of [dispatch] keeps. *)
Definition loop_inv (others : bool) (next : nat) (hist : list H) (h : H) (start : gmap nat (V * nat)) (c : demuxerCore)
    (st : nat * (subscribers T V W * demuxerCore)) : Prop :=
  subs_base next (fst (snd st)) ∧ offered hist h start (fst st) (fst (snd st)) ∧ core_kept others c (snd st) ∧
  (fst st ≤ length (sb_list (fst (snd st))))%nat.

(** A turn that ends the [i]-th subscription, which has had the offer. *)
Lemma dispatch_finish others next hist h start i id sub sub1 s c c0 err : loop_inv others next hist h start c0 (i, (s, c)) →
  dc_done c0 = false → sb_list s !! i = Some id → sb_all s !! id = Some sub → su_finished sub = false → su_finished sub1 = false →
  subs_base next (setSub id sub1 s) → started_ok (hist ++ [h]) start id (closedSub err sub1) →
  returns (finishLocked others id err (setSub id sub1 s, c)) (λ st,
    loop_inv others next hist h start c0 (i, st) ∧ (length (sb_list (fst st)) - i < length (sb_list s) - i)%nat).
Proof.
  intros (Hs & Ho & Hk & Hlen) Hd Hid Hsub Hf Hf1 Hs1 Hst. cbn [fst snd] in *.
  assert (sb_all (setSub id sub1 s) !! id = Some sub1) as Hsub1 by apply lookup_insert_eq.
  eapply safe_mono; [by apply (finish_kept others next id err sub1 (setSub id sub1 s) c c0) |].
  intros [s2 c2] [Es2 Hk2]. cbn [fst] in Es2. subst s2. cbn [fst snd].
  destruct (split_nth _ _ _ Hid) as [_ Htake]. pose proof (lookup_lt_Some _ _ _ Hid).
  assert (sb_list (finishedAt id err sub1 (setSub id sub1 s)) = take i (sb_list s) ++ drop (S i) (sb_list s)) as El.
  { cbn [finishedAt sb_list setSub]. apply filter_nth; [exact (sk_nodup _ _ Hs) | done]. }
  rewrite El, length_app, length_drop, Htake. split; [| lia].
  split_and!; cbn [fst snd]; [by apply finishedAt_ok | | done | rewrite El, length_app, length_drop, Htake; lia].
  eapply (offered_next next hist h start i i id (closedSub err sub1) s); [done | done | done | done | | by rewrite El, drop_app_length'].
  cbn [finishedAt sb_all setSub]. apply insert_insert_eq.
Qed.

(** A turn that changes it and goes on. *)
Lemma dispatch_next others next hist h start i id sub2 s s2 c c0 : loop_inv others next hist h start c0 (i, (s, c)) →
  sb_list s !! i = Some id → subs_base next s2 → sb_all s2 = <[id := sub2]> (sb_all s) → sb_map s2 = sb_map s → sb_list s2 = sb_list s →
  started_ok (hist ++ [h]) start id sub2 →
  loop_inv others next hist h start c0 (S i, (s2, c)) ∧ (length (sb_list s2) - S i < length (sb_list s) - i)%nat.
Proof.
  intros (Hs & Ho & Hk & Hlen) Hid Hs2 E1 E2 E3 Hst. cbn [fst snd] in *. pose proof (lookup_lt_Some _ _ _ Hid). rewrite E3. split; [| lia].
  split_and!; cbn [fst snd]; [done | | | rewrite E3; lia].
  - eapply (offered_next next hist h start i (S i) id sub2 s); [done | done | done | done | done | by rewrite E3].
  - unfold core_kept in *. cbn [fst snd] in *. by rewrite E2.
Qed.

Lemma dispatchBody_ok others next hist h start i s c c0 : loop_inv others next hist h start c0 (i, (s, c)) → dc_done c0 = false →
  (∀ v, okV v → returns (choose h v) (λ '(v', o), okV v' ∧ ∀ x, o = Send x → okT x)) →
  returns (dispatchBody capacity others (choose h) (i, (s, c))) (λ r,
    match r with
    | inl st => loop_inv others next hist h start c0 st ∧ (length (sb_list (fst (snd st))) - fst st < length (sb_list s) - i)%nat
    | inr st => subs_base next (fst st) ∧ subs_complete (hist ++ [h]) start (fst st) ∧ core_kept others c0 st
    end).
Proof.
  intros Hl Hd Hchoose. pose proof Hl as (Hs & Ho & Hk & Hlen). cbn [fst snd] in *. unfold dispatchBody.
  destruct (sb_list s !! i) as [id |] eqn:Hid.
  2: { apply safe_ret. cbn [fst snd]. split_and!; [done | | done]. intros j y Hy. specialize (Ho j y Hy).
       apply lookup_ge_None in Hid. rewrite drop_ge in Ho by done. rewrite decide_False in Ho; [done | apply not_elem_of_nil]. }
  assert (id ∈ sb_list s) as Hin by (by eapply list_elem_of_lookup_2).
  destruct (live_sub next s id Hs) as (sub & Hsub & Hf); [by apply (sk_list _ _ Hs) |]. rewrite Hsub.
  destruct (sk_items _ _ Hs id sub Hsub) as (Hv & Hq & Hw). destruct (sk_flags _ _ Hs id sub Hsub) as [Hcl _].
  pose proof (Ho id sub Hsub) as Hsame. rewrite decide_True in Hsame by (rewrite (drop_S _ id) by done; by left).
  destruct Hsame as (v0 & n & Hst & Hn & Hcomp).
  apply safe_bind. pose proof (Hchoose (su_view sub) Hv) as Hch.
  destruct (choose h (su_view sub)) as [[view o] | | |] eqn:Eo; try done. destruct Hch as [Hview Hitem].
  assert (subs_base next (setSub id (setView view sub) s)) as Hs1 by (apply (setSub_ok next id sub); try done; by apply (sk_capacity _ _ Hs id sub)).
  assert (∀ err, started_ok (hist ++ [h]) start id (closedSub err (setView view sub))) as Hclosed.
  { intros err. eapply (started_next hist h start id n v0 sub); try done. intros since. by apply complete_closed. }
  cbn [ends]. destruct o as [err | | x].
  - apply safe_bind. eapply safe_mono; [by apply (dispatch_finish others next hist h start i id sub (setView view sub) s c c0) |].
    intros st Hst'. by apply safe_ret.
  - apply safe_ret. apply (dispatch_next others next hist h start i id (setView view sub) s _ c c0); try done.
    eapply (started_next hist h start id n v0 sub); try done. intros since Hsince. by apply (complete_next v0 _ h sub view Skip).
  - unfold trySend. cbn [su_closed setView su_queue]. rewrite Hcl, Hf.
    destruct (Z.ltb_spec (len (su_queue sub)) capacity) as [Hlt | Hge]; cbn [mbind outcome_bind].
    2: { apply safe_bind. eapply safe_mono; [by apply (dispatch_finish others next hist h start i id sub (setView view sub) s c c0) |].
         intros st Hst'. by apply safe_ret. }
    apply safe_ret. set (sub2 := setQueue (su_queue sub ++ [x]) (setView view sub)).
    apply (dispatch_next others next hist h start i id sub2 s _ c c0); try done.
    + apply (setSub_ok next id (setView view sub)); try done; cbn [sub2 setQueue su_queue]; [apply lookup_insert_eq | |].
      * unfold len in *. rewrite length_app. cbn [length]. lia.
      * apply Forall_snoc; [done |]. by apply Hitem.
    + cbn [setSub sb_all]. apply insert_insert_eq.
    + eapply (started_next hist h start id n v0 sub); try done. intros since Hsince. apply (complete_next v0 _ h sub view (Send x)); try done.
      cbn. by rewrite app_assoc.
Qed.

Lemma dispatchTo_ok others next hist start h s c : subs_base next s → subs_complete hist start s → dc_done c = false →
  core_inv (bool_decide (sb_map s = ∅) && others) c →
  (∀ v, okV v → returns (choose h v) (λ '(v', o), okV v' ∧ ∀ x, o = Send x → okT x)) →
  returns (dispatchTo capacity others (choose h) (s, c)) (λ st,
    subs_base next (fst st) ∧ subs_complete (hist ++ [h]) start (fst st) ∧ core_kept others c st).
Proof.
  intros Hs Hc Hd Hi Hchoose. unfold dispatchTo. cbn [fst].
  apply (safe_loop (loop_inv others next hist h start c) (λ st, length (sb_list (fst (snd st))) - fst st)%nat);
    [| split_and!; cbn [fst snd]; [done | by eapply offered_start | split; [done | apply core_frame_refl] | lia] | cbn; lia].
  intros [i [s1 c1]] Hl. by apply dispatchBody_ok.
Qed.

(** A subscription that ends between two offers. *)
Lemma finishedAt_complete hist start id err sub s : sb_all s !! id = Some sub → subs_complete hist start s →
  subs_complete hist start (finishedAt id err sub s).
Proof.
  intros Hsub Hc i x. cbn [finishedAt sb_all]. destruct (decide (i = id)) as [-> | Hne]; [| rewrite lookup_insert_ne by done; apply Hc].
  rewrite lookup_insert_eq. intros [= <-]. destruct (Hc id sub Hsub) as (v0 & n & Hst & Hn & Hcomp).
  exists v0, n. split_and!; [done | done | by apply complete_ends].
Qed.

(** A subscription that keeps its view and what it was sent. *)
Lemma setSub_complete hist start id sub sub' s : sb_all s !! id = Some sub → su_finished sub' = su_finished sub →
  su_view sub' = su_view sub → su_taken sub' ++ su_queue sub' = su_taken sub ++ su_queue sub → subs_complete hist start s →
  subs_complete hist start (setSub id sub' s).
Proof.
  intros Hsub E1 E2 E3 Hc i x. cbn [setSub sb_all]. destruct (decide (i = id)) as [-> | Hne]; [| rewrite lookup_insert_ne by done; apply Hc].
  rewrite lookup_insert_eq. intros [= <-]. destruct (Hc id sub Hsub) as (v0 & n & Hst & Hn & Hcomp).
  exists v0, n. split_and!; [done | done | by apply (complete_same v0 _ sub)].
Qed.

(** One subscription finished, if it is live. *)
Lemma finish_ok others next hist start id err s c : subs_base next s → subs_complete hist start s → dc_done c = false ∨ sb_map s = ∅ →
  core_inv (bool_decide (sb_map s = ∅) && others) c →
  returns (finishLocked others id err (s, c)) (λ st, subs_base next (fst st) ∧ subs_complete hist start (fst st) ∧ core_kept others c st).
Proof.
  intros Hs Hc Hd Hi. destruct (decide (id ∈ sb_map s)) as [Hid | Hid].
  - destruct Hd as [Hd | Hd]; [| rewrite Hd in Hid; by apply elem_of_empty in Hid].
    destruct (live_sub next s id Hs Hid) as (sub & Hsub & Hf).
    eapply safe_mono; [apply (finish_kept others next id err sub s c c); try done; split; [done | apply core_frame_refl] |].
    intros [s' c'] [Es Hk]. cbn [fst] in *. subst s'. split_and!; [by apply finishedAt_ok | by apply finishedAt_complete | done].
  - rewrite (finishLocked_gone others next) by done. split_and!; [done | done | split; [done | apply core_frame_refl]].
Qed.

Lemma finishAll_ok others next hist start err s c : subs_base next s → subs_complete hist start s →
  returns (finishAll others err (s, c)) (λ st, subs_base next (fst st) ∧ subs_complete hist start (fst st) ∧
    sb_map (fst st) = ∅ ∧ core_frame c (snd st)).
Proof.
  intros Hs Hc. unfold finishAll. cbn [fst].
  apply (safe_loop (λ st, subs_base next (fst st) ∧ subs_complete hist start (fst st) ∧ core_frame c (snd st)) (λ st, length (sb_list (fst st))));
    [| cbn [fst snd]; split_and!; [done | done | apply core_frame_refl] | cbn; lia].
  clear Hs Hc s. intros [s c1] (Hs & Hc & Hf). cbn [fst snd] in *. destruct (sb_list s) as [| id l] eqn:El.
  - apply safe_ret. cbn [fst snd]. split_and!; try done. apply elem_of_equiv_empty_L. intros i Hi.
    apply (sk_list _ _ Hs) in Hi. rewrite El in Hi. by apply elem_of_nil in Hi.
  - assert (id ∈ sb_map s) as Hid by (apply (sk_list _ _ Hs); rewrite El; left).
    destruct (live_sub next s id Hs Hid) as (sub & Hsub & Hlive).
    rewrite (finishLocked_live others next id err s c1 sub Hs Hsub Hlive). cbn [mbind outcome_bind]. apply safe_ret. cbn [fst snd]. split.
    + split_and!; [by apply finishedAt_ok | by apply finishedAt_complete |]. eapply core_frame_trans; [exact Hf | apply core_frame_cancel].
    + cbn [finishedAt sb_list]. rewrite El. rewrite filter_cons_False by (intros H1; by apply H1).
      pose proof (length_filter (λ i, i ≠ id) l). cbn [length]. lia.
Qed.

(** A new subscription. *)
Lemma attach_ok next v w s : subs_base next s → okV v → okW w [] → 0 ≤ capacity → subs_base (S next) (attach next (newSubscription v w) s).
Proof.
  intros [H1 H2 H3 H4 H5 H6 H7] Hv Hw Hcap. assert (sb_all s !! next = None) as Hnew.
  { destruct (sb_all s !! next) eqn:E; [| done]. specialize (H6 next). rewrite E in H6. specialize (H6 ltac:(by eexists)). lia. }
  assert (next ∉ sb_map s) as Hnot by (rewrite H1; intros (? & ? & _); congruence).
  split; cbn [attach sb_all sb_map sb_list].
  - intros i. rewrite elem_of_union, elem_of_singleton, H1. destruct (decide (i = next)) as [-> | Hne].
    + rewrite lookup_insert_eq. split; [intros _; by eexists | by left].
    + rewrite lookup_insert_ne by done. split; [intros [? | ?]; done | by right].
  - intros i. rewrite elem_of_app, list_elem_of_singleton, elem_of_union, elem_of_singleton, H2. tauto.
  - apply NoDup_app. split; [done |]. split; [| apply NoDup_singleton]. intros i Hi ->%list_elem_of_singleton. by apply Hnot, H2.
  - intros i x. destruct (decide (i = next)) as [-> | Hne]; [rewrite lookup_insert_eq; by intros [= <-] | rewrite lookup_insert_ne by done; apply H4].
  - intros i x. destruct (decide (i = next)) as [-> | Hne]; [rewrite lookup_insert_eq; by intros [= <-] | rewrite lookup_insert_ne by done; apply H5].
  - intros i. destruct (decide (i = next)) as [-> | Hne]; [lia | rewrite lookup_insert_ne by done]. intros Hi. specialize (H6 i Hi). lia.
  - intros i x. destruct (decide (i = next)) as [-> | Hne]; [rewrite lookup_insert_eq; intros [= <-]; by split | rewrite lookup_insert_ne by done; apply H7].
Qed.

Lemma subs_base_more next s : subs_base next s → subs_base (S next) s.
Proof. intros [H1 H2 H3 H4 H5 H6 H7]. split; try done. intros i Hi. specialize (H6 i Hi). lia. Qed.

Lemma attach_complete next v w hist start s : subs_base next s → subs_complete hist start s →
  subs_complete hist (<[next := (v, length hist)]> start) (attach next (newSubscription v w) s).
Proof.
  intros Hs Hc i x. cbn [attach sb_all]. destruct (decide (i = next)) as [-> | Hne].
  - rewrite lookup_insert_eq. intros [= <-]. exists v, (length hist). rewrite lookup_insert_eq. split_and!; [done | done |].
    exists 0%nat, v. split_and!; [lia | rewrite drop_all; done | rewrite take_0; constructor].
  - rewrite lookup_insert_ne by done. intros Hx. destruct (Hc i x Hx) as (v0 & n & Hst & Hrest). exists v0, n.
    by rewrite lookup_insert_ne by done.
Qed.

Lemma subs_base_empty : subs_base 0 (MkSubscribers T V W ∅ ∅ []).
Proof.
  split; cbn [sb_all sb_map sb_list]; try (intros id ? H1; by rewrite lookup_empty in H1).
  - intros id. rewrite elem_of_empty. split; [done |]. intros (sub & H1 & _). by rewrite lookup_empty in H1.
  - intros id. by rewrite elem_of_empty, elem_of_nil.
  - constructor.
  - intros id [sub H1]. by rewrite lookup_empty in H1.
Qed.

End Subscribers.

(** ** The monitor *)

(** The packets the monitor looks at. *)
Definition monitored (p : Packet) : bool :=
  (len p =? PacketSize) && (byteAt p 0 =? SyncByte) && negb (bit (byteAt p 1) 0x80) && negb (pidOf p =? 0x1fff) &&
  negb (hasAF p && (188 <? plOff p)).

Lemma unmonitored_ret packet : bytes_ok packet →
  unmonitored packet = Ret (negb (monitored packet)) ∧ (monitored packet = true → packet_ok packet).
Proof.
  intros Hb. unfold unmonitored, monitored. destruct (Z.eqb_spec (len packet) PacketSize) as [Hl | Hl]; [| done].
  assert (packet_ok packet) as Hp by done. split; [| done]. cbn [negb andb].
  rewrite (packet_byte packet Hp 0) by lia. run. destruct (byteAt packet 0 =? SyncByte); [| done]. cbn [negb andb].
  rewrite TransportErrorIndicator_full by done. run. destruct (bit (byteAt packet 1) 0x80); [done |]. cbn [negb andb].
  rewrite IsNull_full by done. run. destruct (pidOf packet =? 0x1fff); [done |]. cbn [negb andb].
  rewrite ValidPayloadOffset_full by done. run. by rewrite negb_involutive.
Qed.

Definition counterOf (p : Packet) : Z := Z.land (byteAt p 3) 0x0f.
Definition discontinuous (p : Packet) : bool := hasAF p && (1 <=? byteAt p 4) && bit (byteAt p 5) 0x80.

(** What is known of a PID: its last packet with a payload since the last
    discontinuity, and whether that was accepted as a repetition. *)
Definition continuity : Type := option (Packet * bool).
Definition before (st : continuity) (p : Packet) : continuity := if discontinuous p then None else st.
Definition repeats (st : continuity) (p : Packet) : bool :=
  match st with Some (q, again) => bool_decide (p = q) && negb again | None => false end.
Definition track (st : continuity) (p : Packet) : continuity :=
  if hasPL p then Some (p, repeats (before st p) p) else before st p.
(** A packet is reported when it neither follows the last nor repeats it. *)
Definition dropped (st : continuity) (p : Packet) : option continuityDrop :=
  match before st p with
  | Some (q, _) =>
      if hasPL p && negb (repeats (before st p) p) && negb (counterOf p =? (counterOf q + 1) mod 16)
      then Some (MkDrop (pidOf p) ((counterOf q + 1) mod 16) (counterOf p)) else None
  | None => None
  end.
Definition lastOf (pid : Z) (l : list Packet) : continuity :=
  fold_left (λ st p, if monitored p && (pidOf p =? pid) then track st p else st) l None.

(** The monitor's arrays at a PID. *)
Record monitors (m : continuityMonitor) (pid : Z) (st : continuity) : Prop := {
  mo_seen : pid ∈ cm_seen m ↔ st ≠ None;
  mo_last : ∀ q again, st = Some (q, again) → cm_last m !! pid = Some (counterOf q);
  mo_duplicate : pid ∈ cm_duplicateSeen m ↔ ∃ q, st = Some (q, true);
  mo_lastPacket : cm_lastPacket m !! pid = fst <$> st;
  mo_length : ∀ q again, st = Some (q, again) → len q = PacketSize
}.

Lemma elem_setElem b x y s : y ∈ setElem b x s ↔ if decide (y = x) then b = true else y ∈ s.
Proof. unfold setElem. destruct b; case_decide; set_solver. Qed.

Lemma DiscontinuityIndicator_ret p : packet_ok p → DiscontinuityIndicator p = Ret (discontinuous p).
Proof.
  intros Hp. unfold DiscontinuityIndicator, discontinuous. destruct (proj2 Hp). rewrite Z.leb_refl. run.
  rewrite HasAdaptationField_full by done. run. destruct (hasAF p) eqn:E; [| done]. cbn [andb].
  rewrite AdaptationFieldLength_full, E by done. run. destruct (1 <=? byteAt p 4); [| done]. cbn [andb]. run.
  by rewrite (packet_byte p Hp 5) by lia.
Qed.

Lemma next_counter q : Z.land (u8 (counterOf q + 1)) 0x0f = (counterOf q + 1) mod 16.
Proof.
  pose proof (land_mask (byteAt q 3) 0x0f ltac:(lia)). change 0x0f with (Z.ones 4) at 1. rewrite Z.land_ones by lia.
  unfold u8. rewrite (Z.mod_small (counterOf q + 1) (2 ^ 8)) by (unfold counterOf; lia). done.
Qed.

(** One packet. *)
Lemma observe_ok p m pst : bytes_ok p → (∀ pid, monitors m pid (pst pid)) →
  returns (observe p m) (λ '(m', r),
    r = (if monitored p then dropped (pst (pidOf p)) p else None) ∧
    ∀ pid, monitors m' pid (if monitored p && (pidOf p =? pid) then track (pst pid) p else pst pid)).
Proof.
  intros Hb Hm. unfold observe. destruct (unmonitored_ret p Hb) as [-> Hok]. run. destruct (monitored p); [| done]. cbn [negb].
  assert (packet_ok p) as Hp by by apply Hok. clear Hok. rewrite PID_full by done. run.
  pose proof (pidOf_bound p Hp) as Hpid. rewrite (proj2 (Z.ltb_ge PIDNull (pidOf p))) by (unfold PIDNull; lia).
  rewrite DiscontinuityIndicator_ret by done. run. set (pid := pidOf p) in *.
  set (m1 := if discontinuous p then _ else m). set (st := before (pst pid) p).
  assert (∀ i, monitors m1 i (if i =? pid then st else pst i)) as Hm1.
  { intros i. destruct (Hm i) as [A1 A2 A3 A4 A5]. unfold m1, st, before. destruct (Z.eqb_spec i pid) as [-> | Hne].
    - destruct (discontinuous p); [| by split]. split; cbn [cm_seen cm_last cm_duplicateSeen cm_lastPacket].
      + rewrite elem_setElem, decide_True by done. done.
      + done.
      + rewrite elem_setElem, decide_True by done. split; [done | by intros []].
      + apply lookup_delete_eq.
      + done.
    - destruct (discontinuous p); [| by split]. split; cbn [cm_seen cm_last cm_duplicateSeen cm_lastPacket]; try done.
      + by rewrite elem_setElem, decide_False.
      + by rewrite elem_setElem, decide_False.
      + by rewrite lookup_delete_ne. }
  clearbody m1. clear Hm m.
  rewrite HasPayload_full by done. run. unfold dropped, track. fold st. destruct (hasPL p) eqn:Epl; cbn [negb andb].
  2: { cbn [ends]. split; [by repeat case_match |]. intros i. specialize (Hm1 i). rewrite (Z.eqb_sym pid i).
       destruct (Z.eqb_spec i pid) as [E |]; [rewrite E in Hm1 |- * |]; exact Hm1. }
  rewrite ContinuityCounter_full by done. run. fold (counterOf p).
  pose proof (Hm1 pid) as Hmp. rewrite Z.eqb_refl in Hmp. destruct Hmp as [B1 B2 B3 B4 B5].
  assert (∀ dup lp, monitors (MkMonitor (setElem true pid (cm_seen m1)) (<[pid := counterOf p]> (cm_last m1))
      (setElem dup pid (cm_duplicateSeen m1)) lp) pid (Some (p, dup)) ↔ lp !! pid = Some p) as Hself.
  { intros dup lp. split; [by intros [_ _ _ H _] |]. intros Hlp. split; cbn [cm_seen cm_last cm_duplicateSeen cm_lastPacket].
    - by rewrite elem_setElem, decide_True.
    - intros q again [= <- <-]. apply lookup_insert_eq.
    - rewrite elem_setElem, decide_True by done. split; [intros ->; by exists p | by intros (q & [= _ ->])].
    - done.
    - intros q again [= <- <-]. apply Hp. }
  assert (∀ dup lp i, i ≠ pid → lp !! i = cm_lastPacket m1 !! i → monitors (MkMonitor (setElem true pid (cm_seen m1))
      (<[pid := counterOf p]> (cm_last m1)) (setElem dup pid (cm_duplicateSeen m1)) lp) i (pst i)) as Hother.
  { intros dup lp i Hi Hlp. specialize (Hm1 i). rewrite (proj2 (Z.eqb_neq i pid) Hi) in Hm1. destruct Hm1 as [C1 C2 C3 C4 C5].
    split; cbn [cm_seen cm_last cm_duplicateSeen cm_lastPacket]; try done.
    - by rewrite elem_setElem, decide_False.
    - by rewrite lookup_insert_ne by done.
    - by rewrite elem_setElem, decide_False.
    - congruence. }
  cbn [cm_seen cm_last cm_duplicateSeen cm_lastPacket sameAsLast]. unfold sameAsLast. cbn [cm_lastPacket].
  assert (before (pst pid) p = st) as Est by done. clearbody st.
  assert (∀ b m' r, b = repeats st p → (r = match st with
      | Some (q, _) => if negb b && negb (counterOf p =? (counterOf q + 1) mod 16)
                       then Some (MkDrop pid ((counterOf q + 1) mod 16) (counterOf p)) else None
      | None => None end) → monitors m' pid (Some (p, b)) → (∀ i, i ≠ pid → monitors m' i (pst i)) →
    returns (Ret (m', r)) (λ '(m', r),
      r = match st with
          | Some (q, _) => if negb (repeats st p) && negb (counterOf p =? (counterOf q + 1) mod 16)
                           then Some (MkDrop pid ((counterOf q + 1) mod 16) (counterOf p)) else None
          | None => None end ∧
      ∀ i, monitors m' i (if pid =? i then Some (p, repeats (before (pst i) p) p) else pst i))) as Hfinal.
  { intros b m' r -> Hr Hm' Hmi. cbn [ends]. split; [exact Hr |]. intros i. rewrite (Z.eqb_sym pid i).
    destruct (Z.eqb_spec i pid) as [E |]; [by rewrite E, Est | by apply Hmi]. }
  destruct st as [[q again] |].
  - rewrite bool_decide_true by (by apply B1). rewrite (B2 q again eq_refl).
    rewrite (B4 : @lookup Z (list Z) (gmap Z Packet) _ pid (cm_lastPacket m1) = Some q).
    cbn [default fmap option_fmap option_map fst andb]. rewrite (B5 q again eq_refl), Z.eqb_refl. cbn [andb].
    assert (bool_decide (pid ∈ cm_duplicateSeen m1) = again) as ->.
    { apply eq_true_iff_eq. rewrite bool_decide_eq_true, B3. split; [by intros (? & [= _ ->]) | intros ->; by exists q]. }
    match goal with |- ends _ (if ?b then _ else _) _ => replace b with (repeats (Some (q, again)) p) end.
    2: { cbn [repeats]. destruct (decide (p = q)) as [-> | Hne]; [by rewrite Z.eqb_refl, !bool_decide_true, andb_true_r |].
         rewrite !bool_decide_false by congruence. by rewrite andb_false_r. }
    destruct (repeats (Some (q, again)) p) eqn:Erep.
    + apply (Hfinal true); [done | done | | by intros i Hi; apply Hother].
      apply Hself. cbn [repeats] in Erep. apply andb_true_iff in Erep as [E%bool_decide_eq_true _]. rewrite E. exact B4.
    + unfold remember. cbn [cm_seen cm_last cm_duplicateSeen cm_lastPacket]. apply (Hfinal false); [done | cbn [from_option id andb negb]; by rewrite <- !next_counter | |].
      * apply Hself. apply lookup_insert_eq.
      * intros i Hi. apply Hother; [done |]. by rewrite lookup_insert_ne.
  - rewrite bool_decide_false by (rewrite B1; by intros H). cbn [andb]. unfold remember. cbn [cm_seen cm_last cm_duplicateSeen cm_lastPacket].
    apply (Hfinal false); [done | done | |].
    + apply Hself. apply lookup_insert_eq.
    + intros i Hi. apply Hother; [done |]. by rewrite lookup_insert_ne.
Qed.

Lemma observeAll_ok l : Forall bytes_ok l →
  returns (foldM (λ m p, fst <$> observe p m) l newMonitor) (λ m, ∀ pid, monitors m pid (lastOf pid l)).
Proof.
  intros Hl. apply (safe_foldM_prefix (λ k m, ∀ pid, monitors m pid (lastOf pid k))).
  - intros pid. split; [done | done | | done | done]. split; [done | by intros (q & ?)].
  - intros k p m Hm [r Hpre]. rewrite Hpre, !Forall_app in Hl. destruct Hl as [[_ Hp] _]. apply Forall_inv in Hp.
    apply safe_fmap. eapply safe_mono; [by apply (observe_ok p m (λ pid, lastOf pid k)) |]. intros [m' r'] [_ Hm'] pid. cbn [fst].
    unfold lastOf. rewrite fold_left_app. cbn [fold_left]. apply Hm'.
Qed.

(** The packets a monitor reports of a sequence. *)
Definition reports (l : list Packet) : list continuityDrop :=
  snd (fold_left (λ '(k, out) p, (k ++ [p], out ++ match (if monitored p then dropped (lastOf (pidOf p) k) p else None) with
                                               Some d => [d] | None => [] end)) l ([], [])).

Lemma reports_snoc l p : reports (l ++ [p]) =
  reports l ++ match (if monitored p then dropped (lastOf (pidOf p) l) p else None) with Some d => [d] | None => [] end.
Proof.
  unfold reports. rewrite fold_left_app. cbn [fold_left].
  assert (∀ l (k : list Packet) (out : list continuityDrop), fst (fold_left (λ '(k, out) p, (k ++ [p],
    out ++ match (if monitored p then dropped (lastOf (pidOf p) k) p else None) with Some d => [d] | None => [] end)) l (k, out)) = k ++ l) as Hfst.
  { clear. induction l as [| p l IH]; intros k out; cbn [fold_left]; [by rewrite app_nil_r |]. rewrite IH. by rewrite <- app_assoc. }
  specialize (Hfst l [] []). destruct (fold_left _ l ([], [])) as [k out]. cbn [fst] in Hfst. subst k. done.
Qed.

(** ** The world *)

(** What a writer counts is what it took. *)
Definition writer_ok (w : packetWriter) (taken : list Packet) : Prop :=
  (∀ pid, monitors (pw_continuity w) pid (lastOf pid taken)) ∧ pw_Packet w = len taken ∧ pw_Drop w = len (reports taken).

Lemma countPackets_ok l : ∀ w taken, Forall bytes_ok l → writer_ok w taken →
  returns (foldM countPacket l w) (λ w', writer_ok w' (taken ++ l)).
Proof.
  induction l as [| p l IH]; intros w taken Hl Hw; cbn [foldM]; [by rewrite app_nil_r |].
  apply Forall_cons in Hl as [Hp Hl]. destruct Hw as (Hm & Hn & Hd). apply safe_bind. unfold countPacket. apply safe_bind.
  eapply safe_mono; [by apply (observe_ok p (pw_continuity w) (λ pid, lastOf pid taken)) |]. intros [m r] [-> Hm']. apply safe_ret.
  replace (taken ++ p :: l) with ((taken ++ [p]) ++ l) by by rewrite <- app_assoc. apply IH; [done |]. split_and!; cbn [pw_continuity pw_Packet pw_Drop].
  - intros pid. unfold lastOf. rewrite fold_left_app. apply Hm'.
  - rewrite Hn. unfold len. rewrite length_app. cbn. lia.
  - rewrite reports_snoc, Hd. unfold len. rewrite length_app. destruct (if monitored p then _ else _); cbn; lia.
Qed.

(** The demuxer and what went through it: every packet, with the demultiplexer
    after it, and every section; and for every subscription its first view and
    how much had gone through when it was attached. *)
Record world : Type := MkWorld {
  w_demuxer : streamDemuxer;
  w_packets : list (Demuxer * Packet);
  w_sections : list SectionBytes;
  w_packetStart : gmap nat (option ServiceDemux * nat);
  w_sectionStart : gmap nat ((SectionBytes → bool) * nat)
}.
Definition newWorld : world := MkWorld newStreamDemuxer [] [] ∅ ∅.

Section World.
Context {O : RangeOrder Z}.

(** What an action adds to the history of the demuxer [e]. *)
Definition after (a : action) (w : world) (e' : streamDemuxer) : world :=
  let c := sd_core (w_demuxer w) in
  let new := dc_nextID c in
  match a with
  | ReadPacket packet =>
      let sections := match FeedWithPID packet (dc_demux c) with Ret (_, sections) => map ps_Section sections | _ => [] end in
      MkWorld e' (w_packets w ++ [(dc_demux (sd_core e'), packet)]) (w_sections w ++ sections) (w_packetStart w) (w_sectionStart w)
  | AttachPacket serviceID =>
      MkWorld e' (w_packets w) (w_sections w)
        (if dc_stopped c then w_packetStart w else <[new := (Service <$> serviceID, length (w_packets w))]> (w_packetStart w)) (w_sectionStart w)
  | AttachSection accept _ =>
      MkWorld e' (w_packets w) (w_sections w) (w_packetStart w)
        (if dc_stopped c then w_sectionStart w else <[new := (accept, length (w_sections w))]> (w_sectionStart w))
  | _ => MkWorld e' (w_packets w) (w_sections w) (w_packetStart w) (w_sectionStart w)
  end.

Inductive distributed : world → Prop :=
| distributed_new : distributed newWorld
| distributed_step w a e' : distributed w → enabled a (w_demuxer w) = true → perform a (w_demuxer w) = Ret e' → distributed (after a w e').

Definition choosePacket (h : Demuxer * Packet) (view : option ServiceDemux) : outcome (option ServiceDemux * offer Packet) :=
  packetOffer (fst h) (snd h) view.
Definition view_fine (view : option ServiceDemux) : Prop := match view with Some service => out_ok (sd_output service) | None => True end.

Abbreviation packets_base := (subs_base packetSubscriberBuffer bytes_ok view_fine writer_ok).
Definition anySection (_ : SectionBytes) : Prop := True.
Definition anyAccept (_ : SectionBytes → bool) : Prop := True.
Definition anyWriter (_ : unit) (_ : list SectionBytes) : Prop := True.
Abbreviation sections_base := (subs_base sectionSubscriberBuffer anySection anyAccept anyWriter).

Record world_inv (w : world) : Prop := {
  wi_packets : packets_base (dc_nextID (sd_core (w_demuxer w))) (sd_packets (w_demuxer w));
  wi_packetsSent : subs_complete choosePacket (w_packets w) (w_packetStart w) (sd_packets (w_demuxer w));
  wi_sections : sections_base (dc_nextID (sd_core (w_demuxer w))) (sd_sections (w_demuxer w));
  wi_sectionsSent : subs_complete sectionOffer (w_sections w) (w_sectionStart w) (sd_sections (w_demuxer w));
  wi_core : core_inv (isEmpty (sd_packets (w_demuxer w)) && isEmpty (sd_sections (w_demuxer w))) (sd_core (w_demuxer w));
  wi_demux : demux_ok false (dc_demux (sd_core (w_demuxer w)))
}.

Lemma packetOffer_ok d packet view : demux_ok false d → bytes_ok packet → view_fine view →
  returns (packetOffer d packet view) (λ '(view', o), view_fine view' ∧ ∀ x, o = Send x → bytes_ok x).
Proof.
  intros Hd Hb Hv. unfold packetOffer. destruct view as [service |]; [| split; [done | by intros x [= <-]]].
  destruct (PATReady d && _); [by split |]. apply safe_bind. unfold ViewPacket. apply safe_bind.
  eapply safe_mono; [by apply (servicePacket_ok false) |]. intros [output r] (Ho & _ & Hr & _). apply safe_ret. cbn [fst snd]. apply safe_ret.
  split; [exact Ho |]. destruct r as [q |]; [| done]. intros x [= <-]. by apply (Hr q).
Qed.

Lemma sectionOffer_ok section accept : returns (sectionOffer section accept) (λ '(accept', o), anyAccept accept' ∧ ∀ x, o = Send x → anySection x).
Proof. done. Qed.

(** The sections of one packet. *)
Lemma dispatchSections_ok others next start sections : ∀ hist s c, sections_base next s → subs_complete sectionOffer hist start s →
  dc_done c = false → core_inv (bool_decide (sb_map s = ∅) && others) c →
  returns (foldM (λ st section, dispatchTo sectionSubscriberBuffer others (sectionOffer (ps_Section section)) st) sections (s, c))
    (λ st, sections_base next (fst st) ∧ subs_complete sectionOffer (hist ++ map ps_Section sections) start (fst st) ∧ core_kept others c st).
Proof.
  induction sections as [| section sections IH]; intros hist s c Hs Hc Hd Hi; cbn [foldM map].
  - rewrite app_nil_r. split_and!; [done | done | split; [done | apply core_frame_refl]].
  - apply safe_bind. eapply safe_mono; [by apply (dispatchTo_ok sectionOffer _ anySection anyAccept anyWriter others next hist start (ps_Section section) s c) |].
    intros [s1 c1] (Hs1 & Hc1 & Hi1 & Hf1). cbn [fst snd] in *. assert (dc_done c1 = false) as Hd1.
    { unfold core_frame in Hf1. destruct Hf1 as (_ & _ & _ & _ & _ & -> & _). done. }
    eapply safe_mono; [by apply (IH (hist ++ [ps_Section section]) s1 c1) |]. intros [s2 c2] (Hs2 & Hc2 & Hi2 & Hf2). cbn [fst snd] in *.
    split_and!; [done | by rewrite cons_middle, app_assoc | split; [done | by eapply core_frame_trans]].
Qed.

Lemma readPacket_ok w packet : world_inv w → bytes_ok packet → dc_running (sd_core (w_demuxer w)) = true →
  returns (readPacket packet (w_demuxer w)) (λ e', world_inv (after (ReadPacket packet) w e')).
Proof.
  intros [Hp Hpc Hs Hsc Hi Hd] Hb Hrun. set (e := w_demuxer w) in *. set (c := sd_core e) in *. unfold readPacket. fold c.
  pose proof (FeedWithPID_safe false packet (dc_demux c) Hd Hb eq_refl) as Hfeed.
  unfold after. fold e c. destruct (FeedWithPID packet (dc_demux c)) as [[d sections] | | |]; try done. destruct Hfeed as [Hd' _].
  cbn [mbind outcome_bind]. unfold dispatch. cbn [sd_packets sd_sections sd_core]. set (c1 := setDemux d c).
  assert (dc_done c1 = false) as Hdone.
  { change (dc_done c = false). destruct (dc_done c) eqn:E; [| done]. destruct (ci_done _ _ Hi E) as (_ & _ & H). fold c in H. congruence. }
  assert (core_inv (isEmpty (sd_packets e) && isEmpty (sd_sections e)) c1) as Hi1 by (destruct Hi; by split).
  apply safe_bind. eapply safe_mono.
  { apply (dispatchTo_ok choosePacket _ bytes_ok view_fine writer_ok (isEmpty (sd_sections e)) _ (w_packets w) (w_packetStart w) (d, packet) (sd_packets e) c1 Hp Hpc Hdone Hi1).
    intros v Hv. by apply packetOffer_ok. }
  intros [p2 c2] (Hp2 & Hpc2 & Hi2 & Hf2). cbn [fst snd] in *. apply safe_bind.
  assert (dc_done c2 = false) as Hdone2 by (unfold core_frame in Hf2; destruct Hf2 as (_ & _ & _ & _ & _ & -> & _); done).
  eapply safe_mono.
  { apply (dispatchSections_ok (isEmpty p2) _ (w_sectionStart w) sections (w_sections w) (sd_sections e) c2 Hs Hsc Hdone2). by rewrite andb_comm. }
  intros [s3 c3] (Hs3 & Hsc3 & Hi3 & Hf3). cbn [fst snd] in *. apply safe_ret.
  pose proof (core_frame_trans _ _ _ Hf2 Hf3) as (F1 & F2 & _).
  split; cbn [w_demuxer w_packets w_sections w_packetStart w_sectionStart sd_packets sd_sections sd_core]; rewrite ?F1, ?F2; try done.
  by rewrite andb_comm.
Qed.

(** The flags when [close] is called. *)
Record core_closing (empty : bool) (c : demuxerCore) : Prop := {
  cl_once : dc_stopOnce c = dc_done c;
  cl_empties : dc_empties c = if dc_done c then 1%nat else 0%nat;
  cl_done : dc_done c = true → dc_stopped c = true ∧ empty = true;
  cl_running : dc_running c = false;
  cl_cancelled : dc_cancelled c = true → dc_started c = true;
  cl_closers : (0 < dc_closers c)%nat → dc_started c = false
}.

Lemma closing_done empty c : core_closing empty c → dc_done c = true → core_inv empty c.
Proof.
  intros [A1 A2 A3 A4 A5 A6] Hd. destruct (A3 Hd) as [Hs He]. split; auto; try congruence.
Qed.

Lemma close_ok w err : core_closing (isEmpty (sd_packets (w_demuxer w)) && isEmpty (sd_sections (w_demuxer w))) (sd_core (w_demuxer w)) →
  packets_base (dc_nextID (sd_core (w_demuxer w))) (sd_packets (w_demuxer w)) →
  subs_complete choosePacket (w_packets w) (w_packetStart w) (sd_packets (w_demuxer w)) →
  sections_base (dc_nextID (sd_core (w_demuxer w))) (sd_sections (w_demuxer w)) →
  subs_complete sectionOffer (w_sections w) (w_sectionStart w) (sd_sections (w_demuxer w)) →
  demux_ok false (dc_demux (sd_core (w_demuxer w))) →
  returns (closeDemuxer err (w_demuxer w)) (λ e',
    world_inv (MkWorld e' (w_packets w) (w_sections w) (w_packetStart w) (w_sectionStart w)) ∧ dc_done (sd_core e') = true).
Proof.
  intros Hc Hp Hpc Hs Hsc Hd. unfold closeDemuxer. set (e := w_demuxer w) in *. set (c := sd_core e) in *.
  rewrite (cl_once _ _ Hc). destruct (dc_done c) eqn:Edone.
  { split; [| done]. split; try done. by apply closing_done. }
  set (c1 := MkCore _ _ _ _ _ _ _ _ _ _ _). apply safe_bind. eapply safe_mono.
  { apply (finishAll_ok choosePacket _ bytes_ok view_fine writer_ok (isEmpty (sd_sections e)) _ (w_packets w) (w_packetStart w) err (sd_packets e) c1 Hp Hpc). }
  intros [p2 c2] (Hp2 & Hpc2 & Hempty2 & Hf2). cbn [fst snd] in *. apply safe_bind. eapply safe_mono.
  { apply (finishAll_ok sectionOffer _ anySection anyAccept anyWriter (isEmpty p2) _ (w_sections w) (w_sectionStart w) err (sd_sections e) c2 Hs Hsc). }
  intros [s3 c3] (Hs3 & Hsc3 & Hempty3 & Hf3). cbn [fst snd] in *.
  pose proof (core_frame_trans _ _ _ Hf2 Hf3) as (F1 & F2 & F3 & F4 & F5 & F6 & F7 & F8 & F9 & F10 & F11).
  rewrite F6. change (dc_done c1) with false. split; [| done].
  assert (isEmpty p2 = true ∧ isEmpty s3 = true) as [E1 E2] by (unfold isEmpty; rewrite Hempty2, Hempty3; done).
  split; cbn [w_demuxer w_packets w_sections w_packetStart w_sectionStart sd_packets sd_sections sd_core dc_demux dc_nextID]; rewrite ?F1, ?F2; try done.
  destruct Hc as [A1 A2 A3 A4 A5 A6]. rewrite E1, E2. split; cbn; rewrite ?F4, ?F5, ?F7, ?F8; cbn; try done.
  - by rewrite A2, Edone.
  - intros _. split_and!; [by apply F9 | done | done].
  - by rewrite A4.
  - by right.
  - intros H. destruct (F11 H) as [H' | H']; [by apply A5 | done].
  - intros H. split; [| by apply F9]. destruct (dc_started c) eqn:Est; [| done]. rewrite (F10 eq_refl) in H. by apply A6.
  - by left.
  - intros _ _. by apply F9.
Qed.

(** A step that changes one subscription, or none. *)
Lemma finishPacket_ok w id err : world_inv w → returns (finishPacket id err (w_demuxer w)) (λ e',
  world_inv (MkWorld e' (w_packets w) (w_sections w) (w_packetStart w) (w_sectionStart w))).
Proof.
  intros [Hp Hpc Hs Hsc Hi Hd]. set (e := w_demuxer w) in *. unfold finishPacket. apply safe_bind. eapply safe_mono.
  { apply (finish_ok choosePacket _ bytes_ok view_fine writer_ok (isEmpty (sd_sections e)) _ _ _ id err _ _ Hp Hpc); [| exact Hi].
    destruct (dc_done (sd_core e)) eqn:E; [| by left]. right. destruct (ci_done _ _ Hi E) as (_ & He & _).
    apply andb_true_iff in He as [He _]. by apply bool_decide_eq_true in He. }
  intros [p2 c2] (Hp2 & Hpc2 & Hi2 & Hf2). cbn [fst snd] in *. apply safe_ret. destruct Hf2 as (F1 & F2 & _).
  split; cbn [w_demuxer w_packets w_sections w_packetStart w_sectionStart sd_packets sd_sections sd_core]; rewrite ?F1, ?F2; done.
Qed.

Lemma finishSection_ok w id err : world_inv w → returns (finishSection id err (w_demuxer w)) (λ e',
  world_inv (MkWorld e' (w_packets w) (w_sections w) (w_packetStart w) (w_sectionStart w))).
Proof.
  intros [Hp Hpc Hs Hsc Hi Hd]. set (e := w_demuxer w) in *. unfold finishSection. rewrite andb_comm in Hi. apply safe_bind. eapply safe_mono.
  { apply (finish_ok sectionOffer _ anySection anyAccept anyWriter (isEmpty (sd_packets e)) _ _ _ id err _ _ Hs Hsc); [| exact Hi].
    destruct (dc_done (sd_core e)) eqn:E; [| by left]. right. destruct (ci_done _ _ Hi E) as (_ & He & _).
    apply andb_true_iff in He as [He _]. by apply bool_decide_eq_true in He. }
  intros [s2 c2] (Hs2 & Hsc2 & Hi2 & Hf2). cbn [fst snd] in *. apply safe_ret. destruct Hf2 as (F1 & F2 & _).
  split; cbn [w_demuxer w_packets w_sections w_packetStart w_sectionStart sd_packets sd_sections sd_core]; rewrite ?F1, ?F2; try done.
  by rewrite andb_comm.
Qed.

(** The flags of a demuxer that has a new subscription. *)
Lemma core_attach start empty c : core_inv empty c → dc_stopped c = false →
  core_inv false (if start : bool then startLocked (nextID c) else nextID c).
Proof.
  intros [A1 A2 A3 A4 A5 A6 A7 A8 A9] Hst.
  assert (dc_done c = false) as Hd by (destruct (dc_done c) eqn:E; [destruct (A3 eq_refl); congruence | done]).
  assert (dc_closers c = 0%nat) as Hcl by (destruct (dc_closers c) eqn:E; [done | destruct A7; [lia | congruence]]).
  unfold startLocked, nextID. destruct start; cbn [dc_started]; [destruct (dc_started c) eqn:Es |]; split; cbn; rewrite ?Es, ?Hd, ?Hst, ?Hcl in *; try done; try lia; auto.
Qed.

Lemma attachPacket_ok w serviceID : world_inv w → world_inv (after (AttachPacket serviceID) w (fst (attachPacket serviceID (w_demuxer w)))).
Proof.
  intros Hw. pose proof Hw as [Hp Hpc Hs Hsc Hi Hd]. unfold attachPacket, after. set (e := w_demuxer w) in *. set (c := sd_core e) in *.
  destruct (dc_stopped c) eqn:Est; [by split |]. cbn [fst].
  pose proof (core_attach true _ c Hi Est) as Hi'.
  assert (dc_nextID (startLocked (nextID c)) = S (dc_nextID c)) as En by (unfold startLocked, nextID; cbn; by destruct (dc_started c)).
  assert (dc_demux (startLocked (nextID c)) = dc_demux c) as Ed by (unfold startLocked, nextID; cbn; by destruct (dc_started c)).
  split; cbn [w_demuxer w_packets w_sections w_packetStart w_sectionStart sd_packets sd_sections sd_core]; rewrite ?En, ?Ed; try done.
  - apply attach_ok; [done | by destruct serviceID; [apply newOutput_ok |] | | done]. split_and!; [| done | done].
    intros pid. split; [done | done | | done | done]. split; [done | by intros (q & ?)].
  - by apply (attach_complete choosePacket packetSubscriberBuffer bytes_ok view_fine writer_ok).
  - by apply subs_base_more.
  - unfold isEmpty at 1. cbn [attach sb_map]. rewrite bool_decide_false; [exact Hi' |]. intros E.
    assert (dc_nextID c ∈ ({[dc_nextID c]} ∪ sb_map (sd_packets e) : gset nat)) as Hin by set_solver. rewrite E in Hin. by apply elem_of_empty in Hin.
Qed.

Lemma attachSection_ok w accept start : world_inv w →
  world_inv (after (AttachSection accept start) w (fst (attachSection accept start (w_demuxer w)))).
Proof.
  intros Hw. pose proof Hw as [Hp Hpc Hs Hsc Hi Hd]. unfold attachSection, after. set (e := w_demuxer w) in *. set (c := sd_core e) in *.
  destruct (dc_stopped c) eqn:Est; [by split |]. cbn [fst].
  pose proof (core_attach start _ c Hi Est) as Hi'. set (c' := if start then startLocked (nextID c) else nextID c) in *.
  assert (dc_nextID c' = S (dc_nextID c) ∧ dc_demux c' = dc_demux c) as [En Ed].
  { unfold c', startLocked, nextID. cbn. by destruct start, (dc_started c). }
  split; cbn [w_demuxer w_packets w_sections w_packetStart w_sectionStart sd_packets sd_sections sd_core]; rewrite ?En, ?Ed; try done.
  - by apply subs_base_more.
  - by apply attach_ok.
  - by apply (attach_complete sectionOffer sectionSubscriberBuffer anySection anyAccept anyWriter).
  - unfold isEmpty at 2. cbn [attach sb_map]. rewrite bool_decide_false, andb_false_r; [exact Hi' |]. intros E.
    assert (dc_nextID c ∈ ({[dc_nextID c]} ∪ sb_map (sd_sections e) : gset nat)) as Hin by set_solver. rewrite E in Hin. by apply elem_of_empty in Hin.
Qed.

(** A subscription that its writer changes. *)
Lemma writer_inv w id sub sub' : world_inv w → sb_all (sd_packets (w_demuxer w)) !! id = Some sub →
  su_closed sub' = su_closed sub → su_done sub' = su_done sub → su_finished sub' = su_finished sub → su_view sub' = su_view sub →
  su_taken sub' ++ su_queue sub' = su_taken sub ++ su_queue sub → len (su_queue sub') ≤ len (su_queue sub) → Forall bytes_ok (su_queue sub') →
  writer_ok (su_writer sub') (su_taken sub') →
  world_inv (MkWorld (MkStreamDemuxer (setSub id sub' (sd_packets (w_demuxer w))) (sd_sections (w_demuxer w)) (sd_core (w_demuxer w)))
    (w_packets w) (w_sections w) (w_packetStart w) (w_sectionStart w)).
Proof.
  intros [Hp Hpc Hs Hsc Hi Hd] Hsub E1 E2 E3 E4 E5 Hlen Hq Hw.
  split; cbn [w_demuxer w_packets w_sections w_packetStart w_sectionStart sd_packets sd_sections sd_core]; try done.
  - apply (setSub_ok _ _ _ _ _ id sub); try done; [pose proof (sk_capacity _ _ _ _ _ _ Hp id sub Hsub); lia |].
    rewrite E4. apply (sk_items _ _ _ _ _ _ Hp id sub Hsub).
  - by apply (setSub_complete choosePacket _ _ id sub).
Qed.

Lemma sectionWriter_inv w id sub sub' : world_inv w → sb_all (sd_sections (w_demuxer w)) !! id = Some sub →
  su_closed sub' = su_closed sub → su_done sub' = su_done sub → su_finished sub' = su_finished sub → su_view sub' = su_view sub →
  su_taken sub' ++ su_queue sub' = su_taken sub ++ su_queue sub → len (su_queue sub') ≤ len (su_queue sub) →
  world_inv (MkWorld (MkStreamDemuxer (sd_packets (w_demuxer w)) (setSub id sub' (sd_sections (w_demuxer w))) (sd_core (w_demuxer w)))
    (w_packets w) (w_sections w) (w_packetStart w) (w_sectionStart w)).
Proof.
  intros [Hp Hpc Hs Hsc Hi Hd] Hsub E1 E2 E3 E4 E5 Hlen.
  split; cbn [w_demuxer w_packets w_sections w_packetStart w_sectionStart sd_packets sd_sections sd_core]; try done.
  - apply (setSub_ok _ _ _ _ _ id sub); try done; [pose proof (sk_capacity _ _ _ _ _ _ Hs id sub Hsub); lia |]. by apply Forall_true.
  - by apply (setSub_complete sectionOffer _ _ id sub).
Qed.

Lemma writerLeaves_set {T V W} id (sub : subscription T V W) s : sb_all s !! id = Some sub → writerLeaves id s = setSub id (setWriterDone sub) s.
Proof.
  intros Hsub. unfold writerLeaves, setSub. f_equal. apply map_eq. intros i. destruct (decide (i = id)) as [-> | Hne].
  - by rewrite lookup_alter_eq, Hsub, lookup_insert_eq.
  - by rewrite lookup_alter_ne, lookup_insert_ne by done.
Qed.

Lemma canWrite_ok {T V W} id k (s : subscribers T V W) : canWrite id k s = true →
  ∃ sub, sb_all s !! id = Some sub ∧ su_writerDone sub = false ∧ (1 ≤ k ≤ length (su_queue sub))%nat.
Proof.
  unfold canWrite. destruct (sb_all s !! id) as [sub |]; [| done]. intros [H1%negb_true_iff H2%bool_decide_eq_true]%andb_true_iff. by exists sub.
Qed.

Lemma canLeave_ok {T V W} id (s : subscribers T V W) : canLeave id s = true → ∃ sub, sb_all s !! id = Some sub.
Proof. unfold canLeave. destruct (sb_all s !! id) as [sub |]; [| done]. by exists sub. Qed.

Lemma take_queue {T V W} k (sub : subscription T V W) : su_taken (takeQueue k sub) ++ su_queue (takeQueue k sub) = su_taken sub ++ su_queue sub.
Proof. cbn [takeQueue su_taken su_queue]. by rewrite <- app_assoc, take_drop. Qed.

Lemma writePackets_ok w id k err : world_inv w → canWrite id k (sd_packets (w_demuxer w)) = true →
  returns (writePackets id k err (w_demuxer w)) (λ e', world_inv (MkWorld e' (w_packets w) (w_sections w) (w_packetStart w) (w_sectionStart w))).
Proof.
  intros Hw (sub & Hsub & _ & Hk)%canWrite_ok. unfold writePackets. rewrite Hsub.
  destruct (sk_items _ _ _ _ _ _ (wi_packets _ Hw) id sub Hsub) as (_ & Hq & Hwr).
  assert (Forall bytes_ok (drop k (su_queue sub))) as Hdrop by by apply Forall_drop.
  assert (len (drop k (su_queue sub)) ≤ len (su_queue sub)) as Hlen by (unfold len; rewrite length_drop; lia).
  apply safe_bind. eapply safe_mono; [apply (countPackets_ok _ _ (su_taken sub)); [by apply Forall_take | done] |].
  intros w' Hw'. destruct err as [err |]; [| apply safe_ret].
  - apply (finishPacket_ok (MkWorld _ (w_packets w) (w_sections w) (w_packetStart w) (w_sectionStart w)) id (Some err)).
    apply (writer_inv w id sub); try done. apply take_queue.
  - apply (writer_inv w id sub); try done. apply take_queue.
Qed.

Lemma writeSection_ok w id err : world_inv w → canWrite id 1 (sd_sections (w_demuxer w)) = true →
  returns (writeSection id err (w_demuxer w)) (λ e', world_inv (MkWorld e' (w_packets w) (w_sections w) (w_packetStart w) (w_sectionStart w))).
Proof.
  intros Hw (sub & Hsub & _ & Hk)%canWrite_ok. unfold writeSection. rewrite Hsub.
  assert (len (drop 1 (su_queue sub)) ≤ len (su_queue sub)) as Hlen by (unfold len; rewrite length_drop; lia).
  destruct err as [err |]; [| apply safe_ret].
  - apply (finishSection_ok (MkWorld _ (w_packets w) (w_sections w) (w_packetStart w) (w_sectionStart w)) id (Some err)).
    apply (sectionWriter_inv w id sub); try done. apply take_queue.
  - apply (sectionWriter_inv w id sub); try done. apply take_queue.
Qed.

Lemma runEnds_ok w err : world_inv w → dc_running (sd_core (w_demuxer w)) = true →
  returns (runEnds err (w_demuxer w)) (λ e', world_inv (MkWorld e' (w_packets w) (w_sections w) (w_packetStart w) (w_sectionStart w)) ∧
    dc_done (sd_core e') = true).
Proof.
  intros [Hp Hpc Hs Hsc [A1 A2 A3 A4 A5 A6 A7 A8 A9] Hd] Hrun.
  apply (close_ok (MkWorld (MkStreamDemuxer _ _ (MkCore _ _ _ _ _ _ _ _ _ _ _)) _ _ _ _)); cbn; try done.
  split; cbn; try done.
  - intros E. destruct (A3 E) as (_ & _ & H). congruence.
  - intros E. destruct (A7 E) as [H _]. specialize (A4 Hrun). congruence.
Qed.

Lemma closerRuns_ok w : world_inv w → (0 < dc_closers (sd_core (w_demuxer w)))%nat →
  returns (closerRuns (w_demuxer w)) (λ e', world_inv (MkWorld e' (w_packets w) (w_sections w) (w_packetStart w) (w_sectionStart w)) ∧
    dc_done (sd_core e') = true).
Proof.
  intros [Hp Hpc Hs Hsc [A1 A2 A3 A4 A5 A6 A7 A8 A9] Hd] Hcl. destruct (A7 Hcl) as [Hst Hstop].
  apply (close_ok (MkWorld (MkStreamDemuxer _ _ (MkCore _ _ _ _ _ _ _ _ _ _ _)) _ _ _ _)); cbn; try done.
  split; cbn; try done.
  - intros E. by destruct (A3 E) as (? & ? & _).
  - destruct (dc_running (sd_core (w_demuxer w))) eqn:E; [| done]. specialize (A4 eq_refl). congruence.
Qed.

Lemma Stop_ok w : world_inv w → world_inv (MkWorld (Stop (w_demuxer w)) (w_packets w) (w_sections w) (w_packetStart w) (w_sectionStart w)).
Proof.
  intros [Hp Hpc Hs Hsc Hi Hd]. unfold Stop. destruct (dc_stopped (sd_core (w_demuxer w))) eqn:Est; [by split |].
  split; cbn [w_demuxer w_packets w_sections w_packetStart w_sectionStart sd_packets sd_sections sd_core dc_nextID dc_demux]; try done.
  change (core_inv (isEmpty (sd_packets (w_demuxer w)) && isEmpty (sd_sections (w_demuxer w))) (cancelIfEmptyLocked true (sd_core (w_demuxer w)))).
  apply core_stop; [done |]. destruct (dc_done _) eqn:E; [| done]. destruct (ci_done _ _ Hi E). congruence.
Qed.

Lemma distributed_perform w a : world_inv w → enabled a (w_demuxer w) = true → returns (perform a (w_demuxer w)) (λ e', world_inv (after a w e')).
Proof.
  intros Hw He. destruct a as [serviceID | accept start | packet | err | id k err | id err | id | id | id err | id err | |]; cbn [perform enabled] in *.
  - apply safe_ret. by apply attachPacket_ok.
  - apply safe_ret. by apply attachSection_ok.
  - apply andb_true_iff in He as [Hrun Hb]. apply readPacket_ok; [done | | done]. apply Forall_forall. intros b Hin%list_elem_of_In.
    rewrite forallb_forall in Hb. specialize (Hb b Hin). apply andb_true_iff in Hb as [?%Z.leb_le ?%Z.ltb_lt]. unfold byte_ok. lia.
  - eapply safe_mono; [by apply runEnds_ok |]. by intros e' [H _].
  - apply andb_true_iff in He as [He _]. by apply writePackets_ok.
  - by apply writeSection_ok.
  - apply safe_ret. destruct (canLeave_ok _ _ He) as [sub Hsub]. rewrite (writerLeaves_set id sub) by done.
    destruct (sk_items _ _ _ _ _ _ (wi_packets _ Hw) id sub Hsub) as (_ & Hq & Hwr). by apply (writer_inv w id sub).
  - apply safe_ret. destruct (canLeave_ok _ _ He) as [sub Hsub]. rewrite (writerLeaves_set id sub) by done. by apply (sectionWriter_inv w id sub).
  - by apply finishPacket_ok.
  - by apply finishSection_ok.
  - apply safe_ret. by apply Stop_ok.
  - apply bool_decide_eq_true in He. eapply safe_mono; [by apply closerRuns_ok |]. by intros e' [H _].
Qed.

Lemma distributed_inv w : distributed w → world_inv w.
Proof.
  induction 1 as [| w a e' _ Hw He Hp]; [| pose proof (distributed_perform w a Hw He) as H; by rewrite Hp in H].
  split; cbn [newWorld newStreamDemuxer w_demuxer w_packets w_sections w_packetStart w_sectionStart sd_packets sd_sections sd_core].
  - apply subs_base_empty.
  - apply map_Forall_empty.
  - apply subs_base_empty.
  - apply map_Forall_empty.
  - split; cbn; try done; lia.
  - apply (world_reachable false NewDemuxer [] (reach_NewDemuxer false)).
Qed.

End World.

(** ** What a subscription is sent *)

Section Sent.
Context {O : RangeOrder Z}.

Lemma served_raw l v out : served choosePacket None l v out → v = None ∧ out = map snd l.
Proof.
  induction 1 as [| l v1 out h v2 _ IH Hch | l v1 out h v2 x _ IH Hch]; [done | |]; destruct IH as [-> ->].
  - done.
  - injection Hch as <- <-. by rewrite map_app.
Qed.

Lemma served_sections accept l v out : served sectionOffer accept l v out → v = accept ∧ out = List.filter accept l.
Proof.
  induction 1 as [| l v1 out h v2 _ IH Hch | l v1 out h v2 x _ IH Hch]; [done | |]; destruct IH as [-> ->]; unfold sectionOffer in Hch;
    destruct (accept h) eqn:E; try done; injection Hch as <-; rewrite List.filter_app; cbn [List.filter]; rewrite E; [by rewrite app_nil_r | by subst h].
Qed.

(** The view of a service over a sequence of packets. *)
Definition viewPacket (st : ServiceDemux * list Packet) (h : Demuxer * Packet) : outcome (ServiceDemux * list Packet) :=
  '(service, out) ← ViewPacket (fst h) (snd h) (fst st);
  Ret (service, snd st ++ match out with Some q => [q] | None => [] end).
Definition viewPackets (l : list (Demuxer * Packet)) (service : ServiceDemux) : outcome (ServiceDemux * list Packet) :=
  foldM viewPacket l (service, []).

Lemma served_service service l v out : served choosePacket (Some service) l v out →
  ∃ service', v = Some service' ∧ viewPackets l service = Ret (service', out).
Proof.
  unfold viewPackets.
  induction 1 as [| l v1 out h v2 _ IH Hch | l v1 out h v2 x _ IH Hch]; [by exists service | |];
    destruct IH as (service1 & -> & Hfold); unfold choosePacket, packetOffer in Hch; destruct (PATReady _ && _); try done;
    destruct (ViewPacket (fst h) (snd h) service1) as [[service2 r] | | |] eqn:E; try done; cbn [mbind outcome_bind] in Hch;
    destruct r as [q |]; try done; injection Hch as <-; exists service2; (split; [done |]); rewrite foldM_app, Hfold; cbn [mbind outcome_bind foldM];
    unfold viewPacket; cbn [fst snd]; rewrite E; cbn; [by rewrite app_nil_r | by subst x].
Qed.

End Sent.

(** ** Theorems *)

Section Theorems.
Context {O : RangeOrder Z}.

(** The channels of the subscriptions of one kind. *)
Definition channels_ok {T V W} (capacity : Z) (s : subscribers T V W) : Prop :=
  NoDup (sb_list s) ∧ (∀ id, id ∈ sb_list s ↔ id ∈ sb_map s) ∧
  (∀ id, id ∈ sb_map s ↔ ∃ sub, sb_all s !! id = Some sub ∧ su_finished sub = false) ∧
  ∀ id sub, sb_all s !! id = Some sub →
    su_closed sub = su_finished sub ∧ su_done sub = su_finished sub ∧ len (su_queue sub) ≤ capacity.

Lemma subs_channels {T V W} capacity okT okV okW next (s : subscribers T V W) : subs_base capacity okT okV okW next s → channels_ok capacity s.
Proof.
  intros [H1 H2 H3 H4 H5 _ _]. split_and!; [done | done | done |]. intros id sub Hsub. destruct (H4 id sub Hsub). split_and!; try done. by eapply H5.
Qed.

(** C9 (invariant): in every state that subscribers, their writers, the reading
    loop, [Stop] and the goroutines that close the demuxer can bring about, in any
    order, whatever may come next is done without a panic - no channel is closed
    twice, nothing is sent on a closed channel and no array is indexed out of
    range; exactly the subscriptions that have not ended are in the map and, once,
    in the list, their channels are open and the others' closed; a queue holds at
    most 16384 packets, or 512 sections; and the counts a subscriber is shown are
    those of the packets its writer has taken and of the breaks of continuity in
    them. *)
Theorem distribution_invariant w : distributed w →
  (∀ a, enabled a (w_demuxer w) = true → returns (perform a (w_demuxer w)) (λ e', distributed (after a w e'))) ∧
  channels_ok packetSubscriberBuffer (sd_packets (w_demuxer w)) ∧ channels_ok sectionSubscriberBuffer (sd_sections (w_demuxer w)) ∧
  ∀ id sub, sb_all (sd_packets (w_demuxer w)) !! id = Some sub →
    pw_Packet (su_writer sub) = len (su_taken sub) ∧ pw_Drop (su_writer sub) = len (reports (su_taken sub)).
Proof.
  intros Hw. pose proof (distributed_inv w Hw) as Hi. split_and!.
  - intros a He. pose proof (distributed_perform w a Hi He) as Hp. destruct (perform a (w_demuxer w)) as [e' | | |] eqn:E; try done.
    by apply distributed_step.
  - eapply subs_channels, wi_packets, Hi.
  - eapply subs_channels, wi_sections, Hi.
  - intros id sub Hsub. by destruct (sk_items _ _ _ _ _ _ (wi_packets _ Hi) id sub Hsub) as (_ & _ & _ & H).
Qed.

(** C8 (safety): a subscriber gets everything it asked for, in order and without a
    gap, from the moment it was attached: what its writer has taken, followed by
    what its queue holds, is - for a channel - every packet, for a service the
    service's view of them, for sections those it accepts, up to the present or,
    when the subscription has ended, up to its end.  In particular a queue that
    overflows ends the subscription and loses nothing before that. *)
Theorem subscribers_served w : distributed w →
  (∀ id sub, sb_all (sd_packets (w_demuxer w)) !! id = Some sub →
    ∃ view from n, w_packetStart w !! id = Some (view, from) ∧ (from + n ≤ length (w_packets w))%nat ∧
      (su_finished sub = false → (from + n)%nat = length (w_packets w)) ∧
      let seen := take n (drop from (w_packets w)) in
      match view with
      | None => su_taken sub ++ su_queue sub = map snd seen
      | Some service => ∃ service', viewPackets seen service = Ret (service', su_taken sub ++ su_queue sub)
      end) ∧
  (∀ id sub, sb_all (sd_sections (w_demuxer w)) !! id = Some sub →
    ∃ accept from n, w_sectionStart w !! id = Some (accept, from) ∧ (from + n ≤ length (w_sections w))%nat ∧
      (su_finished sub = false → (from + n)%nat = length (w_sections w)) ∧
      su_taken sub ++ su_queue sub = List.filter accept (take n (drop from (w_sections w)))).
Proof.
  intros Hw. pose proof (distributed_inv w Hw) as Hi. split; intros id sub Hsub.
  - destruct (wi_packetsSent _ Hi id sub Hsub) as (view & from & Hst & Hfrom & n & v & Hn & Hlive & Hserved).
    rewrite length_drop in Hn, Hlive. exists view, from, n. split_and!; [done | lia | intros Hf; destruct (Hlive Hf); lia |].
    destruct view as [service |]; [| by apply served_raw in Hserved as [_ ?]].
    apply served_service in Hserved as (service' & _ & Hv). by exists service'.
  - destruct (wi_sectionsSent _ Hi id sub Hsub) as (accept & from & Hst & Hfrom & n & v & Hn & Hlive & Hserved).
    rewrite length_drop in Hn, Hlive. exists accept, from, n. split_and!; [done | lia | intros Hf; destruct (Hlive Hf); lia |].
    by apply served_sections in Hserved as [_ ?].
Qed.

(** C10 (liveness): a demuxer is stopped as soon as it has had subscriptions and none
    is left, and [Stop] stops it, without ending a subscription itself; and a stopped
    demuxer, also one that [Stop] has just stopped, always comes to its end: it has ended, or its reading loop runs with its context cancelled, or a
    goroutine is about to close it - and when the loop returns or that goroutine
    runs, it ends.  At its end every subscription has ended, the loop is over and
    [onEmpty] has been called, exactly once; before, it has not.  A stopped
    demuxer takes no new subscription. *)
Theorem distribution_closes w : distributed w →
  let e := w_demuxer w in
  let c := sd_core e in
  (sb_list (sd_packets e) = [] → sb_list (sd_sections e) = [] → (0 < dc_nextID c)%nat → dc_stopped c = true) ∧
  (let e' := Stop e in let c' := sd_core e' in
   dc_stopped c' = true ∧ (dc_done c' = true ∨ (dc_running c' = true ∧ dc_cancelled c' = true) ∨ enabled CloserRuns e' = true) ∧
   sd_packets e' = sd_packets e ∧ sd_sections e' = sd_sections e) ∧
  (dc_stopped c = true → dc_done c = true ∨ (dc_running c = true ∧ dc_cancelled c = true) ∨ enabled CloserRuns e = true) ∧
  (∀ err, dc_running c = true → returns (perform (RunEnds err) e) (λ e', dc_done (sd_core e') = true)) ∧
  (enabled CloserRuns e = true → returns (perform CloserRuns e) (λ e', dc_done (sd_core e') = true)) ∧
  (dc_done c = true → sb_list (sd_packets e) = [] ∧ sb_list (sd_sections e) = [] ∧ dc_running c = false ∧ dc_stopped c = true) ∧
  dc_empties c = (if dc_done c then 1 else 0)%nat ∧
  (dc_stopped c = true → (∀ serviceID, attachPacket serviceID e = (e, None)) ∧ ∀ accept start, attachSection accept start e = (e, None)).
Proof.
  intros Hw e c. pose proof (distributed_inv w Hw) as Hi. pose proof (wi_core _ Hi) as Hc. fold e c in Hc.
  assert (∀ {T V W} capacity okT okV okW next (s : subscribers T V W), subs_base capacity okT okV okW next s → sb_list s = [] ↔ isEmpty s = true) as Hlist.
  { clear. intros T V W capacity okT okV okW next s Hs. unfold isEmpty. rewrite bool_decide_eq_true. split.
    - intros El. apply elem_of_equiv_empty_L. intros i Hi. apply (sk_list _ _ _ _ _ _ Hs) in Hi. rewrite El in Hi. by apply elem_of_nil in Hi.
    - intros Em. destruct (sb_list s) as [| i l] eqn:El; [done |].
      assert (i ∈ sb_map s) as Hin by (apply (sk_list _ _ _ _ _ _ Hs); rewrite El; left). rewrite Em in Hin. by apply elem_of_empty in Hin. }
  assert (sb_list (sd_packets e) = [] ↔ isEmpty (sd_packets e) = true) as Hp by (eapply Hlist, wi_packets, Hi).
  assert (sb_list (sd_sections e) = [] ↔ isEmpty (sd_sections e) = true) as Hs by (eapply Hlist, wi_sections, Hi).
  split_and!.
  - intros E1%Hp E2%Hs. apply (ci_empty _ _ Hc). by rewrite E1, E2.
  - pose proof (wi_core _ (Stop_ok w Hi)) as Hc'. cbn [w_demuxer] in Hc'. fold e in Hc'. cbv zeta.
    assert (dc_stopped (sd_core (Stop e)) = true) as Hst by (unfold Stop; fold c; by destruct (dc_stopped c) eqn:E).
    split; [done |]. split; [| unfold Stop; by destruct (dc_stopped (sd_core e))].
    destruct (ci_stopped _ _ Hc' Hst) as [? | [? | Hcl]]; [by left | by right; left |]. right. right. by apply bool_decide_eq_true.
  - intros Hst. destruct (ci_stopped _ _ Hc Hst) as [? | [? | Hcl]]; [by left | by right; left |]. right. right. by apply bool_decide_eq_true.
  - intros err Hrun. eapply safe_mono; [by apply runEnds_ok |]. by intros e' [_ H].
  - intros Hcl%bool_decide_eq_true. eapply safe_mono; [by apply closerRuns_ok |]. by intros e' [_ H].
  - intros Hd. destruct (ci_done _ _ Hc Hd) as (Hst & [E1 E2]%andb_true_iff & Hrun). split_and!; [by apply Hp | by apply Hs | done | done].
  - exact (ci_empties _ _ Hc).
  - intros Hst. fold c in Hst. unfold attachPacket, attachSection. fold c. by rewrite Hst.
Qed.

End Theorems.

(** After any packets a monitor reports a packet exactly when it
    looks at it, the packet has a payload and no discontinuity indicator, the
    packet before it with a payload and the same PID, since the last
    discontinuity, was counted, the counter is not the next one, and the packet is
    not the first exact repetition of that one; and what it reports is the counter
    it expected and the one it got. *)
Theorem continuity_follows l p : Forall bytes_ok l → bytes_ok p →
  returns (foldM (λ m q, fst <$> observe q m) l newMonitor) (λ m,
    returns (observe p m) (λ '(_, drop), drop = if monitored p then dropped (lastOf (pidOf p) l) p else None)).
Proof.
  intros Hl Hp. eapply safe_mono; [by apply observeAll_ok |]. intros m Hm.
  eapply safe_mono; [by apply (observe_ok p m (λ pid, lastOf pid l)) |]. by intros [m' r] [H _].
Qed.

(** ** Examples *)

#[local] Instance sampleDistributionOrder : RangeOrder Z := keyOrder.

Definition performAll (l : list action) (w : world) : outcome world :=
  foldM (λ w a, if enabled a (w_demuxer w) then e' ← perform a (w_demuxer w); Ret (after a w e') else Panic) l w.

Lemma performAll_distributed l : ∀ w w', distributed w → performAll l w = Ret w' → distributed w'.
Proof.
  unfold performAll. induction l as [| a l IH]; intros w w' Hw; cbn [foldM]; [by intros [= <-] |].
  destruct (enabled a (w_demuxer w)) eqn:He; [| done]. destruct (perform a (w_demuxer w)) as [e' | | |] eqn:E; try done.
  apply IH. by apply distributed_step.
Qed.

Definition sampleRun (l : list action) : world := match performAll l newWorld with Ret w => w | _ => newWorld end.
Definition runs (l : list action) : bool := match performAll l newWorld with Ret _ => true | _ => false end.

Lemma sampleRun_distributed l : runs l = true → distributed (sampleRun l).
Proof.
  unfold runs, sampleRun. destruct (performAll l newWorld) as [w | | |] eqn:E; try done. intros _.
  eapply performAll_distributed; [apply distributed_new | done].
Qed.

(** A channel, a service and the sections of the PAT; then two packets. *)
Definition sampleSubscribed : list action :=
  [AttachPacket None; AttachSection (λ s, byteAt s 0 =? 0) true; AttachPacket (Some 0x418); ReadPacket samplePATPacket; ReadPacket samplePMTPacket].
Definition sampleLeaving : list action :=
  sampleSubscribed ++ [WritePackets 0 2 None; WriteSection 1 (Some (OtherError 0)); FinishPacket 2 None; FinishPacket 0 None].

Lemma sampleSubscribed_runs : runs sampleSubscribed = true.
Proof. vm_compute. reflexivity. Qed.
Lemma sampleLeaving_runs : runs sampleLeaving = true.
Proof. vm_compute. reflexivity. Qed.

Lemma distribution_invariant_witness :
  sb_list (sd_packets (w_demuxer (sampleRun sampleSubscribed))) = [0; 2]%nat ∧
  returns (perform (WritePackets 0 2 None) (w_demuxer (sampleRun sampleSubscribed)))
    (λ e', distributed (after (WritePackets 0 2 None) (sampleRun sampleSubscribed) e')).
Proof.
  split; [vm_compute; reflexivity |].
  apply (proj1 (distribution_invariant (sampleRun sampleSubscribed) (sampleRun_distributed _ sampleSubscribed_runs))).
  vm_compute. reflexivity.
Defined.

Lemma subscribers_served_witness : ∃ sub, sb_all (sd_packets (w_demuxer (sampleRun sampleSubscribed))) !! 0%nat = Some sub ∧
  su_taken sub ++ su_queue sub = [samplePATPacket; samplePMTPacket].
Proof.
  destruct (sb_all (sd_packets (w_demuxer (sampleRun sampleSubscribed))) !! 0%nat) as [sub |] eqn:E; [| vm_compute in E; discriminate].
  exists sub. split; [done |].
  destruct (proj1 (subscribers_served (sampleRun sampleSubscribed) (sampleRun_distributed _ sampleSubscribed_runs)) 0%nat sub E)
    as (view & from & n & Hst & _ & Hlive & Hsent).
  assert (su_finished sub = false) as Hf by (vm_compute in E; injection E as <-; reflexivity).
  specialize (Hlive Hf).
  assert (w_packetStart (sampleRun sampleSubscribed) !! 0%nat = Some (None, 0%nat)) as Hst' by (vm_compute; reflexivity).
  rewrite Hst' in Hst. injection Hst as <- <-.
  assert (n = 2%nat) as -> by (transitivity (length (w_packets (sampleRun sampleSubscribed))); [exact Hlive | vm_compute; reflexivity]). rewrite Hsent. vm_compute. reflexivity.
Defined.

Lemma distribution_closes_witness :
  dc_stopped (sd_core (w_demuxer (sampleRun sampleLeaving))) = true ∧
  returns (perform (RunEnds None) (w_demuxer (sampleRun sampleLeaving))) (λ e', dc_done (sd_core e') = true).
Proof.
  destruct (distribution_closes (sampleRun sampleLeaving) (sampleRun_distributed _ sampleLeaving_runs)) as (H1 & _ & _ & H3 & _). split.
  - apply H1; [vm_compute; reflexivity | vm_compute; reflexivity | apply Nat.ltb_lt; vm_compute; reflexivity].
  - apply H3. vm_compute. reflexivity.
Defined.

(** A packet of PID 0x1f0 with counter 0, and the same with counter 2. *)
Definition sampleLaterPacket : Packet := built 0x1f0 2 true (pmtSection 3 0 0 sample_pmt).

Lemma continuity_follows_witness :
  returns (foldM (λ m q, fst <$> observe q m) [samplePMTPacket; samplePMTPacket] newMonitor) (λ m,
    returns (observe sampleLaterPacket m) (λ '(_, drop), drop = Some (MkDrop 0x1f0 1 2))).
Proof.
  assert (∀ p, forallb (λ b, (0 <=? b) && (b <? 256)) p = true → bytes_ok p) as Hok.
  { intros p Hp. apply Forall_forall. intros b Hb%list_elem_of_In. rewrite forallb_forall in Hp. specialize (Hp b Hb).
    apply andb_true_iff in Hp as [?%Z.leb_le ?%Z.ltb_lt]. unfold byte_ok. lia. }
  assert (bytes_ok samplePMTPacket) as Hp by (apply Hok; vm_compute; reflexivity).
  assert (bytes_ok sampleLaterPacket) as Hq by (apply Hok; vm_compute; reflexivity).
  assert ((if monitored sampleLaterPacket then dropped (lastOf (pidOf sampleLaterPacket) [samplePMTPacket; samplePMTPacket]) sampleLaterPacket
           else None) = Some (MkDrop 0x1f0 1 2)) as <- by (vm_compute; reflexivity).
  apply (continuity_follows [samplePMTPacket; samplePMTPacket] sampleLaterPacket); [| exact Hq].
  apply Forall_cons; split; [exact Hp |]. apply Forall_cons; split; [exact Hp |]. by apply Forall_nil.
Defined.
