(* ===== verification/Gate.v ===== *)
(** * The gate of a programme stream ([internal/stream/demux/program.go])

    The stream of a programme is the stream of its service between the sightings
    of its event in the EIT of the present.  The gate opens at the first sighting
    and cancels the stream from a timer: [closeIfStale] cancels when the last
    sighting is old, and sets the timer again when it is not.

    Times are in nanoseconds.  A timer that expires starts a call of
    [closeIfStale] in a goroutine of its own, which reads the last sighting under
    the lock and acts on it later; sightings, packets and several such calls may
    come in between, in any order. *)

From S2P Require Import Prelude Crc32 Section AribTables Aribstr Descriptors Psi Events.

(** ** The code *)

Definition second : Z := 10 ^ 9.
Definition programEventEndGrace : Z := second.
Definition programEventMissingFallback : Z := 180 * second.
Definition programEventStaleAfter : Z := 10 * second.
Definition programEventWatchInterval : Z := 3 * second.

(** [time.Until] of a time in nanoseconds: the difference, at the ends of the
    [Duration]s where it is not one. *)
Definition minDuration : Z := - 2 ^ 63.
Definition maxDuration : Z := 2 ^ 63 - 1.
Definition Until (time now : Z) : Z := Z.max minDuration (Z.min maxDuration (time - now)).
Definition i64 (x : Z) : Z := (x + 2 ^ 63) mod 2 ^ 64 - 2 ^ 63.

(** [startAt] and [duration] are in milliseconds. *)
Definition programTimeout (startAt duration now : Z) : Z :=
  let timeout := Until (i64 (startAt + duration) * 10 ^ 6) now in
  let timeout := if duration =? 1 then i64 (timeout + programEventMissingFallback) else timeout in
  if timeout <? 0 then programEventMissingFallback else timeout.

(** [pg_timer] is when the timer expires, if it is running; [pg_calls] are the
    calls of [closeIfStale] under way, with what they have read and when. *)
Record programGate : Type := MkGate {
  pg_eventID : Z;
  pg_networkID : Z;
  pg_serviceID : Z;
  pg_ready : bool;
  pg_lastDetectedAt : option Z;
  pg_timer : option Z;
  pg_cancelled : bool;
  pg_calls : list (option (option Z * Z))
}.

Definition newProgramGate (networkID serviceID eventID timeout now : Z) : programGate :=
  let timeout := if timeout <=? 0 then programEventMissingFallback else timeout in
  MkGate eventID networkID serviceID false None (Some (now + timeout)) false [].

(** The EIT is that of the present, of this service. *)
Definition observes (eit : EIT) (g : programGate) : option Z :=
  if negb (eit_TableID eit =? TableIDEITPF0) || negb (eit_SectionNumber eit =? 0) || negb (eit_ServiceID eit =? pg_serviceID g) ||
     negb (eit_OriginalNetworkID eit =? pg_networkID g) then None
  else ev_EventID <$> head (eit_Events eit).

Definition observe (eit : EIT) (now : Z) (g : programGate) : programGate :=
  match observes eit g with
  | None => g
  | Some event =>
      if event =? pg_eventID g then
        MkGate (pg_eventID g) (pg_networkID g) (pg_serviceID g) true (Some now) (Some (now + programEventStaleAfter)) (pg_cancelled g) (pg_calls g)
      else if pg_ready g then
        MkGate (pg_eventID g) (pg_networkID g) (pg_serviceID g) true (pg_lastDetectedAt g) (Some (now + programEventEndGrace)) (pg_cancelled g)
          (pg_calls g)
      else g
  end.

(** The timer expires. *)
Definition timerFires (g : programGate) : programGate :=
  MkGate (pg_eventID g) (pg_networkID g) (pg_serviceID g) (pg_ready g) (pg_lastDetectedAt g) None (pg_cancelled g) (pg_calls g ++ [None]).

(** The two halves of [closeIfStale]. *)
Definition callReads (i : nat) (now : Z) (g : programGate) : programGate :=
  MkGate (pg_eventID g) (pg_networkID g) (pg_serviceID g) (pg_ready g) (pg_lastDetectedAt g) (pg_timer g) (pg_cancelled g)
    (<[i := Some (pg_lastDetectedAt g, now)]> (pg_calls g)).

Definition fresh (last : option Z) (now : Z) : bool :=
  match last with Some last => now - last <? programEventStaleAfter | None => false end.

Definition callActs (i : nat) (last : option Z) (now : Z) (g : programGate) : programGate :=
  let calls := delete i (pg_calls g) in
  if fresh last now
  then MkGate (pg_eventID g) (pg_networkID g) (pg_serviceID g) (pg_ready g) (pg_lastDetectedAt g) (Some (now + programEventWatchInterval))
         (pg_cancelled g) calls
  else MkGate (pg_eventID g) (pg_networkID g) (pg_serviceID g) (pg_ready g) (pg_lastDetectedAt g) (pg_timer g) true calls.

(** What [copyProgram] will write of a packet it has read, as it finds the gate under
    the lock. *)
Definition copyPacket (packet : list Z) (g : programGate) : option (list Z) := if pg_ready g then Some packet else None.

(** ** The steps *)

(** The gate, what has been copied, where [copyProgram] is in its turn - it reads a
    packet, looks at the gate and may write the packet, and anything may happen in
    between - the time, and what happened: when the gate was made and its timer would
    first expire, the sightings of the event with the number of packets for which the
    gate had been looked at before each, all these packets, the last sighting of
    another event. *)
Inductive turn : Type := Idle | HasRead (packet : list Z) | Writes (packet : list Z).

Record stream : Type := MkStream {
  s_gate : programGate;
  s_out : list (list Z);
  s_turn : turn;
  s_now : Z;
  s_first : Z;
  s_sightings : list (Z * nat);
  s_packets : list (list Z);
  s_other : option Z
}.

Definition newStream (networkID serviceID eventID timeout now : Z) : stream :=
  let g := newProgramGate networkID serviceID eventID timeout now in
  MkStream g [] Idle now (default now (pg_timer g)) [] [] None.

Inductive step : stream → stream → Prop :=
| step_observe s eit t : s_now s ≤ t →
    step s (MkStream (observe eit t (s_gate s)) (s_out s) (s_turn s) t (s_first s)
      (s_sightings s ++ if bool_decide (observes eit (s_gate s) = Some (pg_eventID (s_gate s))) then [(t, length (s_packets s))] else [])
      (s_packets s)
      (if bool_decide (observes eit (s_gate s) = Some (pg_eventID (s_gate s)) ∨ observes eit (s_gate s) = None) then s_other s else Some t))
| step_fires s d t : s_now s ≤ t → pg_timer (s_gate s) = Some d → d ≤ t →
    step s (MkStream (timerFires (s_gate s)) (s_out s) (s_turn s) t (s_first s) (s_sightings s) (s_packets s) (s_other s))
| step_reads s i t : s_now s ≤ t → pg_calls (s_gate s) !! i = Some None →
    step s (MkStream (callReads i t (s_gate s)) (s_out s) (s_turn s) t (s_first s) (s_sightings s) (s_packets s) (s_other s))
| step_acts s i last r t : s_now s ≤ t → pg_calls (s_gate s) !! i = Some (Some (last, r)) →
    step s (MkStream (callActs i last t (s_gate s)) (s_out s) (s_turn s) t (s_first s) (s_sightings s) (s_packets s) (s_other s))
| step_reads_packet s packet t : s_now s ≤ t → s_turn s = Idle →
    step s (MkStream (s_gate s) (s_out s) (HasRead packet) t (s_first s) (s_sightings s) (s_packets s) (s_other s))
| step_checks s packet t : s_now s ≤ t → s_turn s = HasRead packet →
    step s (MkStream (s_gate s) (s_out s) (from_option Writes Idle (copyPacket packet (s_gate s))) t (s_first s) (s_sightings s)
      (s_packets s ++ [packet]) (s_other s))
| step_writes s packet t : s_now s ≤ t → s_turn s = Writes packet →
    step s (MkStream (s_gate s) (s_out s ++ [packet]) Idle t (s_first s) (s_sightings s) (s_packets s) (s_other s)).

(** What is about to be written. *)
Definition toWrite (u : turn) : list (list Z) := match u with Writes packet => [packet] | _ => [] end.

Inductive gated (networkID serviceID eventID timeout now : Z) : stream → Prop :=
| gated_new : gated networkID serviceID eventID timeout now (newStream networkID serviceID eventID timeout now)
| gated_step s s' : gated networkID serviceID eventID timeout now s → step s s' → gated networkID serviceID eventID timeout now s'.

(** ** The invariant *)

(** What a call that read at [r] knew: the last of the sightings before [r], or
    that there were none and the first time had come. *)
Definition knew (s : stream) (last : option Z) (r : Z) : Prop :=
  ∃ k, (k ≤ length (s_sightings s))%nat ∧ last = fst <$> list.last (take k (s_sightings s)) ∧ (∀ x, x ∈ drop k (s_sightings s) → r ≤ fst x) ∧
    (last = None → s_first s ≤ r).

Record gate_inv (s : stream) : Prop := {
  gi_ready : pg_ready (s_gate s) = true ↔ s_sightings s ≠ [];
  gi_last : pg_lastDetectedAt (s_gate s) = fst <$> list.last (s_sightings s);
  gi_times : ∀ x, x ∈ s_sightings s → fst x ≤ s_now s ∧ ∃ l, pg_lastDetectedAt (s_gate s) = Some l ∧ fst x ≤ l;
  gi_counts : ∀ x, x ∈ s_sightings s → (snd x ≤ length (s_packets s))%nat;
  gi_out : s_out s ++ toWrite (s_turn s) = match s_sightings s with [] => [] | (_, n) :: _ => drop n (s_packets s) end;
  gi_timer : ∀ d, pg_timer (s_gate s) = Some d → d = s_first s ∨
    (∃ l, pg_lastDetectedAt (s_gate s) = Some l ∧ d ≤ l + (programEventStaleAfter + programEventWatchInterval)) ∨
    (∃ o, s_other s = Some o ∧ d ≤ o + programEventEndGrace);
  gi_first : s_sightings s = [] → ∀ d, pg_timer (s_gate s) = Some d → d = s_first s;
  gi_unread : ∀ i, pg_calls (s_gate s) !! i = Some None → s_sightings s = [] → s_first s ≤ s_now s;
  gi_read : ∀ i last r, pg_calls (s_gate s) !! i = Some (Some (last, r)) → r ≤ s_now s ∧ knew s last r;
  gi_alive : pg_cancelled (s_gate s) = false → is_Some (pg_timer (s_gate s)) ∨ pg_calls (s_gate s) ≠ [];
  gi_cancelled : pg_cancelled (s_gate s) = true →
    ∃ last r t, r ≤ t ≤ s_now s ∧ knew s last r ∧ fresh last t = false
}.

Lemma knew_later s s' new last r : knew s last r → r ≤ s_now s → s_first s' = s_first s → s_sightings s' = s_sightings s ++ new →
  (∀ x, x ∈ new → s_now s ≤ fst x) → knew s' last r.
Proof.
  intros (k & Hk & Hlast & Hlater & Hnone) Hr E1 E2 Hnew. exists k. rewrite E1, E2, length_app. split_and!; [lia | by rewrite take_app_le | | done].
  intros x. rewrite drop_app_le by done. intros [Hx | Hx]%elem_of_app; [by apply Hlater |]. specialize (Hnew x Hx). lia.
Qed.

Lemma knew_same s s' last r : knew s last r → s_first s' = s_first s → s_sightings s' = s_sightings s → knew s' last r.
Proof. unfold knew. by intros H -> ->. Qed.

(** A step that leaves the sightings alone. *)
Lemma gate_same s g out u now packets other : gate_inv s → s_now s ≤ now →
  pg_ready g = pg_ready (s_gate s) → pg_lastDetectedAt g = pg_lastDetectedAt (s_gate s) →
  out ++ toWrite u = match s_sightings s with [] => [] | (_, n) :: _ => drop n packets end →
  (length (s_packets s) ≤ length packets)%nat →
  (∀ d, pg_timer g = Some d → (pg_timer (s_gate s) = Some d ∧ (other = s_other s ∨ s_sightings s = [])) ∨
    (∃ l, pg_lastDetectedAt g = Some l ∧ d ≤ l + (programEventStaleAfter + programEventWatchInterval)) ∨
    (∃ o, other = Some o ∧ d ≤ o + programEventEndGrace ∧ s_sightings s ≠ [])) →
  (∀ i, pg_calls g !! i = Some None → s_sightings s = [] → s_first s ≤ now) →
  (∀ i last r, pg_calls g !! i = Some (Some (last, r)) → r ≤ now ∧ knew s last r) →
  (pg_cancelled g = false → is_Some (pg_timer g) ∨ pg_calls g ≠ []) →
  (pg_cancelled g = true → ∃ last r t, r ≤ t ≤ now ∧ knew s last r ∧ fresh last t = false) →
  gate_inv (MkStream g out u now (s_first s) (s_sightings s) packets other).
Proof.
  intros [I1 I2 I3 I4 I5 I6 I7 I8 I9 I10 I11] Hnow E1 E2 Hout Hlen Ht Hu Hr Ha Hc.
  split; cbn [s_gate s_out s_turn s_now s_first s_sightings s_packets s_other]; rewrite ?E1, ?E2; try done.
  - intros x Hx. destruct (I3 x Hx) as [H1 H2]. split; [lia | done].
  - intros x Hx. specialize (I4 x Hx). lia.
  - intros d Hd. destruct (Ht d Hd) as [[H [-> | Hnil]] | [H | (o & Ho & Hle & _)]].
    + destruct (I6 d H) as [? | [? | ?]]; [by left | by right; left | by right; right].
    + left. by apply I7.
    + right. left. destruct H as (l & Hl & Hle). exists l. by rewrite <- E2.
    + right. right. by exists o.
  - intros Hnil d Hd. destruct (Ht d Hd) as [[H _] | [(l & Hl & _) | (o & _ & _ & H)]]; [by apply I7 | | done].
    rewrite E2, I2, Hnil in Hl. done.
Qed.

(** What is known later of what was known before. *)
Lemma unread_later s now : gate_inv s → s_now s ≤ now → ∀ i, pg_calls (s_gate s) !! i = Some None → s_sightings s = [] → s_first s ≤ now.
Proof. intros Hs Hnow i Hi Hnil. pose proof (gi_unread _ Hs i Hi Hnil). lia. Qed.

Lemma read_later s now : gate_inv s → s_now s ≤ now → ∀ i last r, pg_calls (s_gate s) !! i = Some (Some (last, r)) → r ≤ now ∧ knew s last r.
Proof. intros Hs Hnow i last r Hi. destruct (gi_read _ Hs i last r Hi). split; [lia | done]. Qed.

Lemma cancelled_later s now : gate_inv s → s_now s ≤ now → pg_cancelled (s_gate s) = true →
  ∃ last r t, r ≤ t ≤ now ∧ knew s last r ∧ fresh last t = false.
Proof. intros Hs Hnow Hc. destruct (gi_cancelled _ Hs Hc) as (last & r & t & Hr & Hk & Hf). exists last, r, t. split_and!; [lia | lia | done | done]. Qed.

#[local] Hint Resolve unread_later read_later cancelled_later : core.

Lemma gate_sighting s t : gate_inv s → s_now s ≤ t →
  let g := s_gate s in
  gate_inv (MkStream (MkGate (pg_eventID g) (pg_networkID g) (pg_serviceID g) true (Some t) (Some (t + programEventStaleAfter)) (pg_cancelled g) (pg_calls g))
    (s_out s) (s_turn s) t (s_first s) (s_sightings s ++ [(t, length (s_packets s))]) (s_packets s) (s_other s)).
Proof.
  intros Hs Ht g. pose proof Hs as [I1 I2 I3 I4 I5 I6 I7 I8 I9 I10 I11]. subst g.
  split; cbn [s_gate s_out s_turn s_now s_first s_sightings s_packets s_other pg_ready pg_lastDetectedAt pg_timer pg_cancelled pg_calls].
  - split; [intros _ Hnil; by apply app_eq_nil in Hnil as [] | done].
  - by rewrite last_snoc.
  - intros x [Hx | ->%list_elem_of_singleton]%elem_of_app; [destruct (I3 x Hx) as [? _] | cbn]; (split; [lia |]); exists t; (split; [done | cbn; lia]).
  - intros x [Hx | ->%list_elem_of_singleton]%elem_of_app; [by apply I4 | done].
  - rewrite I5. destruct (s_sightings s) as [| [u n] l] eqn:El; [| done]. cbn. by rewrite drop_all.
  - intros d [= <-]. right. left. exists t. split; [done |]. unfold programEventWatchInterval, second. lia.
  - intros Hnil. by apply app_eq_nil in Hnil as [].
  - intros i _ Hnil. by apply app_eq_nil in Hnil as [].
  - intros i last r Hi. destruct (I9 i last r Hi) as [Hr Hk]. split; [lia |].
    eapply (knew_later s); [done | done | done | done |]. by intros x ->%list_elem_of_singleton.
  - intros _. left. by eexists.
  - intros Hc. destruct (I11 Hc) as (last & r & u & Hr & Hk & Hf). exists last, r, u. split_and!; [lia | lia | | done].
    eapply (knew_later s); [done | lia | done | done |]. by intros x ->%list_elem_of_singleton.
Qed.

Lemma gate_step s s' : gate_inv s → step s s' → gate_inv s'.
Proof.
  intros Hs Hstep. revert Hs. destruct Hstep as [s1 eit t Ht | s1 d t Ht Htimer Hd | s1 i t Ht Hi | s1 i last r t Ht Hi | s1 packet t Ht Hu | s1 packet t Ht Hu | s1 packet t Ht Hu]; intros Hs.
  - pose proof Hs as [I1 I2 I3 I4 I5 I6 I7 I8 I9 I10 I11]. unfold observe. destruct (observes eit (s_gate s1)) as [event |] eqn:Eo.
    + destruct (Z.eqb_spec event (pg_eventID (s_gate s1))) as [-> | Hne].
      * rewrite bool_decide_true, (bool_decide_true (_ ∨ _)) by auto. by apply gate_sighting.
      * rewrite bool_decide_false, (bool_decide_false (_ ∨ _)) by (intros H; naive_solver). rewrite app_nil_r.
        destruct (pg_ready (s_gate s1)) eqn:Er; apply gate_same; try done; cbn [pg_timer pg_cancelled pg_calls]; eauto.
        -- intros d [= <-]. right. right. exists t. split_and!; [done | done |]. by apply I1.
        -- intros d Hd. left. split; [done | right]. destruct (s_sightings s1); [done | exfalso]. by apply diff_false_true, I1.
    + rewrite bool_decide_false, (bool_decide_true (_ ∨ _)) by auto. rewrite app_nil_r. apply gate_same; try done; eauto 7.
  - pose proof Hs as [I1 I2 I3 I4 I5 I6 I7 I8 I9 I10 I11]. apply gate_same; try done; cbn [timerFires pg_timer pg_calls pg_cancelled]; eauto 7.
    + intros i Hi Hnil. specialize (I7 Hnil d Htimer). lia.
    + intros i last r Hi. apply lookup_app_Some in Hi as [Hi | [_ Hi]]; [destruct (I9 i last r Hi); split; [lia | done] |].
      apply list_lookup_singleton_Some in Hi as [_ ?]. done.
    + intros _. right. intros Hnil. by apply app_eq_nil in Hnil as [].
  - pose proof Hs as [I1 I2 I3 I4 I5 I6 I7 I8 I9 I10 I11]. apply gate_same; try done; cbn [callReads pg_timer pg_calls pg_cancelled]; eauto 7.
    + intros j last r Hj. destruct (decide (j = i)) as [-> | Hne].
      * rewrite list_lookup_insert_eq in Hj by (by eapply lookup_lt_Some). injection Hj as <- <-. split; [done |].
        exists (length (s_sightings s1)). rewrite firstn_all, drop_all. split_and!; [done | done | by intros x ?%elem_of_nil |].
        rewrite I2. intros Hnone. assert (s_sightings s1 = []) as Hnil.
        { apply last_None. by destruct (list.last (s_sightings s1)). }
        specialize (I8 i Hi Hnil). lia.
      * rewrite list_lookup_insert_ne in Hj by done. destruct (I9 j last r Hj). split; [lia | done].
    + intros Hc. destruct (I10 Hc) as [H | H]; [by left | right]. intros Hnil. apply H. apply length_zero_iff_nil.
      by rewrite <- (length_insert (pg_calls (s_gate s1)) i (Some (pg_lastDetectedAt (s_gate s1), t))), Hnil.
  - pose proof Hs as [I1 I2 I3 I4 I5 I6 I7 I8 I9 I10 I11]. destruct (I9 i last r Hi) as [Hr Hk].
    assert (∀ j c, delete i (pg_calls (s_gate s1)) !! j = Some c → ∃ k, pg_calls (s_gate s1) !! k = Some c) as Hdel.
    { intros j c Hj. rewrite list_lookup_delete in Hj. by eexists. }
    unfold callActs. destruct (fresh last t) eqn:Ef; apply gate_same; try done; cbn [pg_ready pg_lastDetectedAt pg_timer pg_calls pg_cancelled]; eauto 7.
    + intros d [= <-]. right. left. destruct last as [l |]; [| done]. cbn [fresh] in Ef. apply Z.ltb_lt in Ef.
      destruct Hk as (k & Hlen & Hlast & _). symmetry in Hlast. apply fmap_Some in Hlast as (x & Hx & ->).
      assert (x ∈ s_sightings s1) as Hin by (apply last_Some_elem_of in Hx; by apply subseteq_take in Hx).
      destruct (I3 x Hin) as (_ & l' & Hl' & Hle). exists l'. split; [done |]. lia.
    + intros j Hj. destruct (Hdel j _ Hj). eauto.
    + intros j last' r' Hj. destruct (Hdel j _ Hj). eauto.
    + intros j Hj. destruct (Hdel j _ Hj). eauto.
    + intros j last' r' Hj. destruct (Hdel j _ Hj). eauto.
    + intros _. exists last, r, t. split_and!; [lia | lia | done | done].
  - pose proof Hs as [I1 I2 I3 I4 I5 I6 I7 I8 I9 I10 I11]. rewrite Hu in I5. apply gate_same; try done; eauto 7.
  - pose proof Hs as [I1 I2 I3 I4 I5 I6 I7 I8 I9 I10 I11]. rewrite Hu, app_nil_r in I5. apply gate_same; try done; eauto 7.
    + unfold copyPacket. rewrite I5. destruct (s_sightings s1) as [| [u n] l] eqn:El.
      * assert (pg_ready (s_gate s1) = false) as -> by (destruct (pg_ready _); [by destruct (proj1 I1 eq_refl) | done]). done.
      * rewrite (proj2 I1) by done. cbn [from_option toWrite]. rewrite drop_app_le; [done |]. apply (I4 (u, n)). left.
    + rewrite length_app. lia.
  - pose proof Hs as [I1 I2 I3 I4 I5 I6 I7 I8 I9 I10 I11]. rewrite Hu in I5. apply gate_same; try done; eauto 7. cbn [toWrite]. by rewrite app_nil_r.
Qed.

Lemma gated_inv networkID serviceID eventID timeout now s : gated networkID serviceID eventID timeout now s → gate_inv s.
Proof.
  induction 1 as [| s s' _ IH Hstep]; [| by eapply gate_step]. unfold newStream, newProgramGate.
  split; cbn [s_gate s_out s_turn s_now s_first s_sightings s_packets s_other pg_ready pg_lastDetectedAt pg_timer pg_cancelled pg_calls from_option id]; try done.
  - by intros x ?%elem_of_nil.
  - by intros x ?%elem_of_nil.
  - intros d [= <-]. by left.
  - by intros _ d [= <-].
  - intros _. left. by eexists.
Qed.

Lemma gated_first networkID serviceID eventID timeout now s : gated networkID serviceID eventID timeout now s →
  s_first s = now + (if timeout <=? 0 then programEventMissingFallback else timeout).
Proof. induction 1 as [| s s' _ IH Hstep]; [done |]. by destruct Hstep. Qed.

Lemma programTimeout_bound startAt duration now : 0 ≤ programTimeout startAt duration now < 2 ^ 63.
Proof.
  unfold programTimeout. set (u := Until _ now). assert (- 2 ^ 63 ≤ u < 2 ^ 63) as Hu by (unfold u, Until, minDuration, maxDuration; lia).
  assert (∀ x, - 2 ^ 63 ≤ i64 x < 2 ^ 63) as Hi by (intros x; unfold i64; pose proof (Z.mod_pos_bound (x + 2 ^ 63) (2 ^ 64)); lia).
  specialize (Hi (u + programEventMissingFallback)). clearbody u.
  destruct (duration =? 1); [destruct (Z.ltb_spec (i64 (u + programEventMissingFallback)) 0) | destruct (Z.ltb_spec u 0)];
    unfold programEventMissingFallback, second in *; lia.
Qed.

(** ** Theorems *)

(** C28 (safety): whatever the order in which sections, packets, the timer and the
    calls it starts come, a programme's subscriber gets, with what is about to be
    written, exactly the packets for which the gate was looked at since the event was
    first seen in the EIT of the present - those read since, and one that had just been
    read - and no packet before; the stream is cancelled only by a call that found at the time [r] that the
    event had not been seen and the programme's timeout had passed, or, at a time
    [t] after [r], that the last sighting before [r] was ten seconds old or
    more. *)
Theorem gate_safe networkID serviceID eventID timeout now s : gated networkID serviceID eventID timeout now s →
  s_out s ++ toWrite (s_turn s) = match s_sightings s with [] => [] | (_, n) :: _ => drop n (s_packets s) end ∧
  (pg_cancelled (s_gate s) = true → ∃ last r t, r ≤ t ≤ s_now s ∧
    (∃ k, last = fst <$> list.last (take k (s_sightings s)) ∧ ∀ x, x ∈ drop k (s_sightings s) → r ≤ fst x) ∧
    match last with
    | Some l => l + programEventStaleAfter ≤ t
    | None => now + (if timeout <=? 0 then programEventMissingFallback else timeout) ≤ r
    end).
Proof.
  intros Hs. pose proof (gated_inv _ _ _ _ _ _ Hs) as Hi. split; [apply Hi |]. intros Hc.
  destruct (gi_cancelled _ Hi Hc) as (last & r & t & Hr & (k & _ & Hlast & Hlater & Hfirst) & Hf).
  exists last, r, t. split_and!; [lia | lia | by exists k |]. destruct last as [l |]; cbn [fresh] in Hf; [apply Z.ltb_ge in Hf; lia |].
  rewrite <- (gated_first _ _ _ _ _ _ Hs). by apply Hfirst.
Qed.

(** A call that the timer starts when it expires, undisturbed. *)
Definition timerRuns (t : Z) (g : programGate) : programGate :=
  let i := length (pg_calls g) in
  callActs i (pg_lastDetectedAt g) t (callReads i t (timerFires g)).

(** A stream that has not been cancelled is watched: its timer runs
    or a call is under way.  The timer expires at the programme's timeout at the
    latest if the event has not been seen; and otherwise at most thirteen seconds
    after the last sighting, or one second after a sighting of another event.  And
    when it expires ten seconds or more after the last sighting, the stream is
    cancelled. *)
Theorem gate_ends networkID serviceID eventID timeout now s : gated networkID serviceID eventID timeout now s →
  (pg_cancelled (s_gate s) = false → is_Some (pg_timer (s_gate s)) ∨ pg_calls (s_gate s) ≠ []) ∧
  (∀ d, pg_timer (s_gate s) = Some d →
    d = now + (if timeout <=? 0 then programEventMissingFallback else timeout) ∨
    (∃ l n, list.last (s_sightings s) = Some (l, n) ∧ d ≤ l + (programEventStaleAfter + programEventWatchInterval)) ∨
    (∃ o, s_other s = Some o ∧ d ≤ o + programEventEndGrace)) ∧
  (∀ t, fresh (fst <$> list.last (s_sightings s)) t = false → pg_cancelled (timerRuns t (s_gate s)) = true).
Proof.
  intros Hs. pose proof (gated_inv _ _ _ _ _ _ Hs) as Hi. split; [apply Hi |]. split.
  - intros d Hd. destruct (gi_timer _ Hi d Hd) as [-> | [(l & Hl & Hle) | H]]; [left; by eapply gated_first | | by right; right].
    right. left. rewrite (gi_last _ Hi) in Hl. apply fmap_Some in Hl as ([l' n] & Hl & ->). by exists l', n.
  - intros t Hf. rewrite <- (gi_last _ Hi) in Hf. unfold timerRuns, callActs. by rewrite Hf.
Qed.

(** C40 (bounds): the timeout of a programme is a [Duration] that is not negative,
    whatever its start and its length are - also where their sum or the difference
    to the clock does not fit 64 bits - so the timer is never set to the past. *)
Theorem gate_timeout networkID serviceID eventID startAt duration now :
  0 ≤ programTimeout startAt duration now < 2 ^ 63 ∧
  ∃ d, pg_timer (newProgramGate networkID serviceID eventID (programTimeout startAt duration now) now) = Some d ∧ now < d.
Proof.
  pose proof (programTimeout_bound startAt duration now) as Hb. split; [done |]. eexists. split; [done |].
  destruct (Z.leb_spec (programTimeout startAt duration now) 0); unfold programEventMissingFallback, second; lia.
Qed.

(** ** Examples *)

Inductive move : Type := Observes (eit : EIT) (t : Z) | Fires (t : Z) | Reads (i : nat) (t : Z) | Acts (i : nat) (t : Z) | Takes (packet : list Z) (t : Z) | Checks (t : Z) | Puts (t : Z).

Definition moved (m : move) (s : stream) : option stream :=
  let g := s_gate s in
  let next t g := MkStream g (s_out s) (s_turn s) t (s_first s) (s_sightings s) (s_packets s) (s_other s) in
  match m with
  | Observes eit t =>
      if s_now s <=? t then Some (MkStream (observe eit t g) (s_out s) (s_turn s) t (s_first s)
        (s_sightings s ++ if bool_decide (observes eit g = Some (pg_eventID g)) then [(t, length (s_packets s))] else []) (s_packets s)
        (if bool_decide (observes eit g = Some (pg_eventID g) ∨ observes eit g = None) then s_other s else Some t)) else None
  | Fires t =>
      match pg_timer g with Some d => if (s_now s <=? t) && (d <=? t) then Some (next t (timerFires g)) else None | None => None end
  | Reads i t =>
      match pg_calls g !! i with Some None => if s_now s <=? t then Some (next t (callReads i t g)) else None | _ => None end
  | Acts i t =>
      match pg_calls g !! i with Some (Some (last, _)) => if s_now s <=? t then Some (next t (callActs i last t g)) else None | _ => None end
  | Takes packet t =>
      match s_turn s with
      | Idle => if s_now s <=? t then Some (MkStream g (s_out s) (HasRead packet) t (s_first s) (s_sightings s) (s_packets s) (s_other s)) else None
      | _ => None
      end
  | Checks t =>
      match s_turn s with
      | HasRead packet =>
          if s_now s <=? t then Some (MkStream g (s_out s) (from_option Writes Idle (copyPacket packet g)) t (s_first s) (s_sightings s)
            (s_packets s ++ [packet]) (s_other s)) else None
      | _ => None
      end
  | Puts t =>
      match s_turn s with
      | Writes packet => if s_now s <=? t then Some (MkStream g (s_out s ++ [packet]) Idle t (s_first s) (s_sightings s) (s_packets s) (s_other s)) else None
      | _ => None
      end
  end.

Lemma moved_step m s s' : moved m s = Some s' → step s s'.
Proof.
  destruct m as [eit t | t | i t | i t | packet t | t | t]; cbn [moved].
  - destruct (Z.leb_spec (s_now s) t); [| done]. intros [= <-]. by constructor.
  - destruct (pg_timer (s_gate s)) as [d |] eqn:E; [| done]. destruct (Z.leb_spec (s_now s) t), (Z.leb_spec d t); try done. intros [= <-]. by eapply step_fires.
  - destruct (pg_calls (s_gate s) !! i) as [[|] |] eqn:E; try done. destruct (Z.leb_spec (s_now s) t); [| done]. intros [= <-]. by constructor.
  - destruct (pg_calls (s_gate s) !! i) as [[[last r] |] |] eqn:E; try done. destruct (Z.leb_spec (s_now s) t); [| done]. intros [= <-].
    by eapply step_acts.
  - destruct (s_turn s) eqn:Eu; try done. destruct (Z.leb_spec (s_now s) t); [| done]. intros [= <-]. by eapply step_reads_packet.
  - destruct (s_turn s) eqn:Eu; try done. destruct (Z.leb_spec (s_now s) t); [| done]. intros [= <-]. by apply step_checks.
  - destruct (s_turn s) eqn:Eu; try done. destruct (Z.leb_spec (s_now s) t); [| done]. intros [= <-]. by apply step_writes.
Qed.

Definition sampleStart : stream := newStream 1 101 10 (300 * second) 0.
Definition sampleMoves (l : list move) : stream := fold_left (λ s m, default s (moved m s)) l sampleStart.

Lemma sampleMoves_gated l : gated 1 101 10 (300 * second) 0 (sampleMoves l).
Proof.
  unfold sampleMoves. cut (∀ s, gated 1 101 10 (300 * second) 0 s → gated 1 101 10 (300 * second) 0 (fold_left (λ s m, default s (moved m s)) l s)).
  { intros H. apply H, gated_new. }
  induction l as [| m l IH]; intros s Hs; cbn [fold_left]; [done |]. apply IH. destruct (moved m s) as [s' |] eqn:E; [| done].
  eapply gated_step; [exact Hs | by eapply moved_step].
Qed.

Definition sampleEIT (event : Z) : EIT := MkEIT 101 0 1 TableIDEITPF0 0 0 0 0 0 [MkEvent event 0 0 4 false []].

(** The event is seen after a second, when a packet has just been read, and the next
    one after three; the timer expires after four, then every three seconds. *)
Definition sampleProgramme : list move :=
  [Takes [1] 0; Checks 0; Takes [2] 0; Observes (sampleEIT 10) second; Checks (2 * second); Puts (2 * second); Observes (sampleEIT 11) (3 * second);
   Fires (4 * second); Reads 0 (4 * second); Acts 0 (4 * second); Takes [3] (5 * second); Checks (5 * second)].
Definition sampleProgrammeEnd : list move :=
  sampleProgramme ++ [Fires (7 * second); Reads 0 (7 * second); Acts 0 (7 * second); Fires (10 * second); Reads 0 (10 * second); Acts 0 (10 * second);
   Fires (13 * second); Reads 0 (13 * second); Acts 0 (13 * second)].

(** The second of grace after the event has no effect: the call that it starts
    finds the last sighting less than ten seconds old and sets the timer again, so
    that the stream goes on into the next programme. *)
Example grace_has_no_effect :
  pg_cancelled (s_gate (sampleMoves sampleProgramme)) = false ∧ s_out (sampleMoves sampleProgramme) ++ toWrite (s_turn (sampleMoves sampleProgramme)) = [[2]; [3]] ∧
  pg_timer (s_gate (sampleMoves sampleProgramme)) = Some (7 * second) ∧ pg_cancelled (s_gate (sampleMoves sampleProgrammeEnd)) = true.
Proof. vm_compute. repeat split; reflexivity. Qed.

Lemma gate_safe_witness : s_out (sampleMoves sampleProgramme) ++ toWrite (s_turn (sampleMoves sampleProgramme)) = drop 1 (s_packets (sampleMoves sampleProgramme)) ∧
  ∃ last r t, r ≤ t ≤ 13 * second ∧ match last with Some l => l + programEventStaleAfter ≤ t | None => 300 * second ≤ r end.
Proof.
  split.
  - exact (proj1 (gate_safe 1 101 10 (300 * second) 0 _ (sampleMoves_gated sampleProgramme))).
  - assert (pg_cancelled (s_gate (sampleMoves sampleProgrammeEnd)) = true) as Hc by (vm_compute; reflexivity).
    destruct (proj2 (gate_safe 1 101 10 (300 * second) 0 _ (sampleMoves_gated sampleProgrammeEnd)) Hc) as (last & r & t & Hr & _ & Hlast).
    exists last, r, t. split; [exact Hr | exact Hlast].
Defined.

Lemma gate_ends_witness : pg_cancelled (timerRuns (11 * second) (s_gate (sampleMoves sampleProgramme))) = true.
Proof.
  apply (proj2 (proj2 (gate_ends 1 101 10 (300 * second) 0 _ (sampleMoves_gated sampleProgramme)))). vm_compute. reflexivity.
Defined.
