(* ===== verification/ModuleCache.v ===== *)
(** * The cache of completed modules ([internal/stream/databroadcast/module_cache.go])

    Completed DSM-CC modules outlive the session of their channel in a store.
    [ModuleStore] is the interface of a store, [StoreLaws] what its clients rely
    on; [ModuleCache] is the implementation in memory, a least-recently-used cache
    bounded in bytes, specified by a list in the order of use.  The other
    implementation keeps the modules in SQLite and is not modelled; nor is the
    nil cache, which holds nothing. *)

From S2P Require Import Prelude Crc32 Packet Section AribTables Aribstr Descriptors Psi Dsmcc Carousel.

(** ** The code *)

Definition DefaultModuleCacheBytes : Z := 128 * 1024 * 1024.

(** The fields of the version key, and the size. *)
Record ModuleVersionKey : Type := MkVersionKey {
  vk_ChannelType : string;
  vk_ChannelID : string;
  vk_ServiceID : Z;
  vk_ComponentTag : Z;
  vk_DownloadID : Z;
  vk_ModuleID : Z;
  vk_Version : Z
}.

Record ModuleCacheKey : Type := MkCacheKey {
  VersionKey : ModuleVersionKey;
  ck_Size : Z
}.

#[export] Instance ModuleVersionKey_eq_dec : EqDecision ModuleVersionKey.
Proof. solve_decision. Defined.
#[export] Instance ModuleVersionKey_countable : Countable ModuleVersionKey.
Proof.
  apply (inj_countable' (λ k, (vk_ChannelType k, vk_ChannelID k, vk_ServiceID k, vk_ComponentTag k, vk_DownloadID k, vk_ModuleID k, vk_Version k))
    (λ '(a, b, c, d, e, f, g), MkVersionKey a b c d e f g)). by intros [].
Defined.
#[export] Instance ModuleCacheKey_eq_dec : EqDecision ModuleCacheKey.
Proof. solve_decision. Defined.
#[export] Instance ModuleCacheKey_countable : Countable ModuleCacheKey.
Proof. apply (inj_countable' (λ k, (VersionKey k, ck_Size k)) (λ '(a, b), MkCacheKey a b)). by intros []. Defined.

Class ModuleStore (S : Type) : Type := {
  get : ModuleCacheKey → S → outcome (S * option DSMCCModule);
  getVersion : ModuleVersionKey → S → outcome (S * option DSMCCModule);
  put : ModuleCacheKey → DSMCCModule → S → outcome (S * bool);
  persistent : bool
}.

(** What a client relies on: a store holds nothing but what was put into it, under
    its key.  [store_ok P s] says that everything [s] holds satisfies [P]. *)
Class StoreLaws (S : Type) `{ModuleStore S} : Type := {
  store_ok : (ModuleCacheKey → DSMCCModule → Prop) → S → Prop;
  get_ok P key s : store_ok P s → returns (get key s) (λ '(s', r), store_ok P s' ∧ ∀ m, r = Some m → P key m);
  getVersion_ok P key s : store_ok P s →
    returns (getVersion key s) (λ '(s', r), store_ok P s' ∧ ∀ m, r = Some m → ∃ size, P (MkCacheKey key size) m);
  put_ok P key m s : store_ok P s → P key m → returns (put key m s) (λ '(s', _), store_ok P s')
}.

Record moduleCacheEntry : Type := MkEntry {
  en_module : DSMCCModule;
  en_used : Z
}.

Record ModuleCache : Type := MkCache {
  mc_maxBytes : Z;
  mc_bytes : Z;
  mc_generation : Z;
  mc_entries : gmap ModuleCacheKey moduleCacheEntry
}.

Definition NewModuleCache (maxBytes : Z) : ModuleCache :=
  MkCache (if maxBytes =? 0 then DefaultModuleCacheBytes else maxBytes) 0 0 ∅.

(** [c.generation++], and the entry is used. *)
Definition use (key : ModuleCacheKey) (m : DSMCCModule) (c : ModuleCache) : ModuleCache :=
  let generation := u64 (mc_generation c + 1) in
  MkCache (mc_maxBytes c) (mc_bytes c) generation (<[key := MkEntry m generation]> (mc_entries c)).

Definition Get (key : ModuleCacheKey) (c : ModuleCache) : ModuleCache * option DSMCCModule :=
  match mc_entries c !! key with
  | None => (c, None)
  | Some entry => (use key (en_module entry) c, Some (en_module entry))
  end.

Section Orders.
Context {O : RangeOrderOf ModuleCacheKey moduleCacheEntry}.

(** The first loop of [GetVersion]; [None] when two entries differ in size. *)
Definition findVersion (key : ModuleVersionKey) (l : list (ModuleCacheKey * moduleCacheEntry)) : option (option moduleCacheEntry) :=
  fold_left (λ found '(candidateKey, candidate),
    match found with
    | None => None
    | Some entry =>
        if negb (bool_decide (VersionKey candidateKey = key)) then found
        else match entry with
             | Some entry => if negb (m_Size (en_module candidate) =? m_Size (en_module entry)) then None else Some (Some candidate)
             | None => Some (Some candidate)
             end
    end) l (Some None).

Definition GetVersion (key : ModuleVersionKey) (c : ModuleCache) : ModuleCache * option DSMCCModule :=
  match findVersion key (rangeOf (mc_entries c)) with
  | None | Some None => (c, None)
  | Some (Some entry) =>
      let matches '(candidateKey, candidate) :=
        bool_decide (VersionKey candidateKey = key) && (m_Size (en_module candidate) =? m_Size (en_module entry)) in
      let c := match List.find matches (rangeOf (mc_entries c)) with
               | Some (candidateKey, candidate) => use candidateKey (en_module candidate) c
               | None => MkCache (mc_maxBytes c) (mc_bytes c) (u64 (mc_generation c + 1)) (mc_entries c)
               end in
      (c, Some (en_module entry))
  end.

(** The loop that looks for the entry to evict. *)
Definition oldestEntry (l : list (ModuleCacheKey * moduleCacheEntry)) : option (ModuleCacheKey * moduleCacheEntry) :=
  fold_left (λ oldest candidate,
    match oldest with
    | None => Some candidate
    | Some o => if en_used (snd candidate) <? en_used (snd o) then Some candidate else oldest
    end) l None.

Definition evictBody (c : ModuleCache) : outcome (ModuleCache + ModuleCache) :=
  if mc_maxBytes c <? mc_bytes c then
    match oldestEntry (rangeOf (mc_entries c)) with
    | None => break c
    | Some (key, entry) =>
        continue (MkCache (mc_maxBytes c) (u64 (mc_bytes c - u64 (len (m_Data (en_module entry))))) (mc_generation c) (delete key (mc_entries c)))
    end
  else break c.

Definition Put (key : ModuleCacheKey) (m : DSMCCModule) (c : ModuleCache) : outcome (ModuleCache * bool) :=
  if mc_maxBytes c <? u64 (len (m_Data m)) then Ret (c, false)
  else
    let bytes := match mc_entries c !! key with
                 | Some old => u64 (mc_bytes c - u64 (len (m_Data (en_module old))))
                 | None => mc_bytes c
                 end in
    let c := use key m (MkCache (mc_maxBytes c) bytes (mc_generation c) (mc_entries c)) in
    let c := MkCache (mc_maxBytes c) (u64 (mc_bytes c + u64 (len (m_Data m)))) (mc_generation c) (mc_entries c) in
    c ← loop (S (S (size (mc_entries c)))) evictBody c;
    Ret (c, true).

#[export] Instance cacheStore : ModuleStore ModuleCache := {|
  get key c := Ret (Get key c);
  getVersion key c := Ret (GetVersion key c);
  put := Put;
  persistent := false
|}.

End Orders.

(** ** The specification: a list in the order of use *)

Abbreviation lru := (list (ModuleCacheKey * DSMCCModule)).

Definition bytesOf (l : lru) : Z := foldr (λ e n, len (m_Data (snd e)) + n) 0 l.

Definition without (key : ModuleCacheKey) (l : lru) : lru := filter (λ e, fst e ≠ key) l.

Definition lruFind (key : ModuleCacheKey) (l : lru) : option DSMCCModule := (list_to_map l : gmap ModuleCacheKey DSMCCModule) !! key.

Definition lruGet (key : ModuleCacheKey) (l : lru) : lru * option DSMCCModule :=
  match lruFind key l with
  | Some m => (without key l ++ [(key, m)], Some m)
  | None => (l, None)
  end.

(** A version is served when exactly one size of it is held. *)
Definition lruGetVersion (key : ModuleVersionKey) (l : lru) : lru * option DSMCCModule :=
  match filter (λ e, VersionKey (fst e) = key) l with
  | [(k, m)] => (without k l ++ [(k, m)], Some m)
  | _ => (l, None)
  end.

(** The oldest entries make room. *)
Fixpoint trim (maxBytes : Z) (l : lru) : lru :=
  match l with
  | [] => []
  | e :: l' => if maxBytes <? bytesOf l then trim maxBytes l' else l
  end.

Definition lruPut (maxBytes : Z) (key : ModuleCacheKey) (m : DSMCCModule) (l : lru) : lru * bool :=
  if maxBytes <? len (m_Data m) then (l, false) else (trim maxBytes (without key l ++ [(key, m)]), true).

(** The entries in the order of use. *)
Definition usedBefore (a b : ModuleCacheKey * moduleCacheEntry) : Prop := en_used (snd a) < en_used (snd b).
Definition plain (e : ModuleCacheKey * moduleCacheEntry) : ModuleCacheKey * DSMCCModule := (fst e, en_module (snd e)).

Record entries_ok (generation : Z) (entries : gmap ModuleCacheKey moduleCacheEntry) (le : list (ModuleCacheKey * moduleCacheEntry)) : Prop := {
  eo_entries : entries = list_to_map le;
  eo_keys : NoDup le.*1;
  eo_sorted : StronglySorted usedBefore le;
  eo_used : Forall (λ e, en_used (snd e) ≤ generation) le;
  eo_sizes : Forall (λ e, m_Size (en_module (snd e)) = ck_Size (fst e)) le
}.

(** The cache holds the list. *)
Definition holds (c : ModuleCache) (l : lru) : Prop :=
  ∃ le, entries_ok (mc_generation c) (mc_entries c) le ∧ l = map plain le ∧ mc_bytes c = bytesOf l ∧ 0 ≤ mc_generation c ∧
    bytesOf l ≤ mc_maxBytes c < 2 ^ 63.

(** ** Lists of entries *)

Lemma bytesOf_app l k : bytesOf (l ++ k) = bytesOf l + bytesOf k.
Proof. induction l as [| e l IH]; cbn [bytesOf foldr app] in *; [done |]. unfold bytesOf in *. lia. Qed.

Lemma bytesOf_nonneg l : 0 ≤ bytesOf l.
Proof. induction l as [| e l IH]; cbn [bytesOf foldr] in *; [done |]. unfold bytesOf, len in *. lia. Qed.

Lemma plain_keys le : (map plain le).*1 = le.*1.
Proof. induction le as [| e le IH]; [done |]. cbn. by f_equal. Qed.

Lemma without_plain key le : without key (map plain le) = map plain (filter (λ e, fst e ≠ key) le).
Proof.
  unfold without. induction le as [| e le IH]; [done |]. cbn [map].
  destruct (decide (fst e ≠ key)); [rewrite !filter_cons_True by done; cbn [map]; by rewrite IH | rewrite !filter_cons_False by done; exact IH].
Qed.

Lemma Forall_filtered {A} (P Q : A → Prop) `{∀ x, Decision (Q x)} l : Forall P l → Forall P (filter Q l).
Proof. rewrite !Forall_forall. intros HP x [_ Hx]%list_elem_of_filter. by apply HP. Qed.

Lemma without_absent key le : key ∉ le.*1 → without key (map plain le) = map plain le.
Proof.
  intros Hk. rewrite without_plain. f_equal. induction le as [| e le IH]; [done |]. cbn [fmap list_fmap] in Hk.
  apply not_elem_of_cons in Hk as [Hne Hk]. rewrite filter_cons_True by done. f_equal. by apply IH.
Qed.

Lemma without_bytes key le e : NoDup le.*1 → (key, e) ∈ le → bytesOf (map plain le) = len (m_Data (en_module e)) + bytesOf (without key (map plain le)).
Proof.
  induction le as [| [k e'] le IH]; intros Hnd Hin; [by apply elem_of_nil in Hin |].
  cbn [fmap list_fmap fst] in Hnd. apply NoDup_cons in Hnd as [Hk Hnd]. cbn [map]. unfold without.
  apply elem_of_cons in Hin as [[= <- <-] | Hin].
  - rewrite filter_cons_False by (intros H; by apply H). fold (without key (map plain le)). by rewrite without_absent.
  - rewrite filter_cons_True by (intros E; cbn in E; subst k; apply Hk, list_elem_of_fmap; by exists (key, e)).
    fold (without key (map plain le)). cbn [bytesOf foldr]. specialize (IH Hnd Hin). unfold bytesOf in *. lia.
Qed.

Lemma entries_lookup generation entries le k e : entries_ok generation entries le → entries !! k = Some e ↔ (k, e) ∈ le.
Proof. intros [-> Hk _ _ _]. symmetry. by apply elem_of_list_to_map. Qed.

Lemma entries_find generation entries le k : entries_ok generation entries le → lruFind k (map plain le) = en_module <$> entries !! k.
Proof.
  intros He. unfold lruFind. destruct (entries !! k) as [e |] eqn:E; cbn [fmap option_fmap option_map].
  - apply elem_of_list_to_map; [rewrite plain_keys; apply He |]. apply list_elem_of_fmap. exists (k, e). split; [done |]. by eapply entries_lookup.
  - apply not_elem_of_list_to_map. rewrite plain_keys. intros (x & -> & Hx)%list_elem_of_fmap.
    destruct x as [k' e]. apply (entries_lookup _ _ _ k' e He) in Hx. cbn [fst] in E. congruence.
Qed.

Lemma entries_size generation entries le : entries_ok generation entries le → size entries = length le.
Proof.
  intros [-> Hk _ _ _]. rewrite <- length_map_to_list. apply Permutation_length. by apply map_to_list_to_map.
Qed.

(** An entry that is used moves to the end. *)
Lemma entries_use generation entries le key m : entries_ok generation entries le → m_Size m = ck_Size key →
  entries_ok (generation + 1) (<[key := MkEntry m (generation + 1)]> entries) (filter (λ e, fst e ≠ key) le ++ [(key, MkEntry m (generation + 1))]).
Proof.
  intros [-> Hk Hs Hu Hz] Hm. set (le' := filter _ le).
  assert (le'.*1 ⊆ le.*1) as Hsub by (intros k (x & -> & [_ Hx]%list_elem_of_filter)%list_elem_of_fmap; apply list_elem_of_fmap; by exists x).
  assert (key ∉ le'.*1) as Hkey by (intros (x & -> & [Hx _]%list_elem_of_filter)%list_elem_of_fmap; done).
  assert (NoDup le'.*1) as Hnd.
  { unfold le'. clear - Hk. induction le as [| e le IH]; [constructor |]. cbn [fmap list_fmap] in Hk. apply NoDup_cons in Hk as [He Hk].
    rewrite filter_cons. case_decide; [| by apply IH]. cbn. apply NoDup_cons. split; [| by apply IH].
    intros (x & Ex & [_ Hx]%list_elem_of_filter)%list_elem_of_fmap. apply He. rewrite Ex. apply list_elem_of_fmap. by exists x. }
  assert (∀ P : ModuleCacheKey * moduleCacheEntry → Prop, Forall P le → Forall P le') as Hforall by (intros P H; by apply Forall_filtered).
  split.
  - apply map_eq. intros k. destruct (decide (k = key)) as [-> | Hne].
    + rewrite lookup_insert_eq. symmetry. apply elem_of_list_to_map; [| apply elem_of_app; right; by left].
      rewrite fmap_app. apply NoDup_app. split_and!; [done | | apply NoDup_singleton]. intros k Hin ->%list_elem_of_singleton. done.
    + rewrite lookup_insert_ne by done. rewrite list_to_map_app, lookup_union. cbn [list_to_map foldr].
      rewrite (lookup_insert_ne ∅), lookup_empty by done. assert (∀ o : option moduleCacheEntry, o ∪ None = o) as -> by (by intros []).
      apply option_eq. intros e. rewrite <- !elem_of_list_to_map by done. unfold le'. rewrite list_elem_of_filter. naive_solver.
  - rewrite fmap_app. apply NoDup_app. split_and!; [done | | apply NoDup_singleton]. intros k Hin ->%list_elem_of_singleton. done.
  - apply StronglySorted_app_2.
    + intros x y Hx ->%list_elem_of_singleton. unfold usedBefore. cbn [snd en_used]. specialize (Hforall _ Hu). rewrite Forall_forall in Hforall. specialize (Hforall x Hx). cbv beta in Hforall. lia.
    + unfold le'. clear - Hs. induction Hs as [| e le Hs IH He]; [constructor |]. rewrite filter_cons. case_decide; [| done].
      constructor; [done |]. by apply Forall_filtered.
    + repeat constructor.
  - apply Forall_app. split; [| by apply Forall_singleton]. eapply Forall_impl; [apply (Hforall _ Hu) |]. cbn. lia.
  - apply Forall_app. split; [by apply Hforall | by apply Forall_singleton].
Qed.

(** ** The loops *)

Section Loops.
Context {O : RangeOrderOf ModuleCacheKey moduleCacheEntry}.

Lemma range_entries generation entries le : entries_ok generation entries le → rangeOf entries ≡ₚ le.
Proof. intros [-> Hk _ _ _]. rewrite rangeOf_perm. by apply map_to_list_to_map. Qed.

(** The scan keeps an entry that no other was used before. *)
Lemma oldestEntry_min l : match oldestEntry l with
  | None => l = []
  | Some o => o ∈ l ∧ ∀ e, e ∈ l → en_used (snd o) ≤ en_used (snd e)
  end.
Proof.
  unfold oldestEntry. induction l as [| e l IH] using rev_ind; [done |]. rewrite fold_left_app. cbn [fold_left].
  destruct (fold_left _ l None) as [o |].
  - destruct IH as [Ho Hmin]. destruct (Z.ltb_spec (en_used (snd e)) (en_used (snd o))).
    + split; [apply elem_of_app; right; by left |]. intros x [Hx | ->%list_elem_of_singleton]%elem_of_app; [specialize (Hmin x Hx) |]; lia.
    + split; [apply elem_of_app; by left |]. intros x [Hx | ->%list_elem_of_singleton]%elem_of_app; [by apply Hmin | done].
  - subst l. split; [by left |]. by intros x ->%list_elem_of_singleton.
Qed.

Lemma oldestEntry_head generation entries le : entries_ok generation entries le → oldestEntry (rangeOf entries) = head le.
Proof.
  intros He. pose proof (range_entries _ _ _ He) as Hp. pose proof (oldestEntry_min (rangeOf entries)) as Hmin.
  destruct (oldestEntry (rangeOf entries)) as [o |].
  - destruct Hmin as [Ho Hmin]. rewrite Hp in Ho. destruct le as [| e le]; [by apply elem_of_nil in Ho |]. cbn. f_equal.
    apply elem_of_cons in Ho as [-> | Ho]; [done |]. exfalso. pose proof (eo_sorted _ _ _ He) as Hs. inversion Hs as [| ? ? _ Hall]; subst.
    rewrite Forall_forall in Hall. specialize (Hall o Ho). unfold usedBefore in Hall.
    specialize (Hmin e ltac:(rewrite Hp; by left)). lia.
  - rewrite Hmin in Hp. apply Permutation_nil in Hp. by rewrite Hp.
Qed.

Lemma entries_tail generation entries e le : entries_ok generation entries (e :: le) → entries_ok generation (delete (fst e) entries) le.
Proof.
  intros [-> Hk Hs Hu Hz]. cbn [fmap list_fmap] in Hk. apply NoDup_cons in Hk as [He Hk]. apply Forall_cons in Hu as [_ Hu]. apply Forall_cons in Hz as [_ Hz].
  inversion Hs; subst. split; try done. destruct e as [k e]. cbn [list_to_map foldr fst]. apply delete_insert_id. by apply not_elem_of_list_to_map.
Qed.

Lemma evictBody_eq c : evictBody c =
  if mc_maxBytes c <? mc_bytes c then
    match oldestEntry (rangeOf (mc_entries c)) with
    | None => break c
    | Some (key, entry) =>
        continue (MkCache (mc_maxBytes c) (u64 (mc_bytes c - u64 (len (m_Data (en_module entry))))) (mc_generation c) (delete key (mc_entries c)))
    end
  else break c.
Proof. done. Qed.

(** The loop of [Put] evicts the oldest. *)
Lemma evict_trims maxBytes generation le : ∀ entries bytes fuel, entries_ok generation entries le → bytes = bytesOf (map plain le) →
  bytes < 2 ^ 64 → (length le < fuel)%nat → 0 ≤ maxBytes →
  ∃ entries' le', loop fuel evictBody (MkCache maxBytes bytes generation entries) =
      Ret (MkCache maxBytes (bytesOf (map plain le')) generation entries') ∧
    entries_ok generation entries' le' ∧ map plain le' = trim maxBytes (map plain le).
Proof.
  induction le as [| e le IH]; intros entries bytes fuel He Hb Hlt Hf Hmax; (destruct fuel as [| fuel]; [cbn in Hf; lia |]); rewrite loop_S, evictBody_eq;
    cbn [mc_maxBytes mc_bytes mc_entries mc_generation]; rewrite Hb.
  - change (bytesOf (map plain [])) with 0. rewrite (proj2 (Z.ltb_ge maxBytes 0)) by lia. exists entries, []. by split_and!.
  - cbn [map trim]. destruct (Z.ltb_spec maxBytes (bytesOf (plain e :: map plain le))) as [Hover | Hfit].
    + rewrite (oldestEntry_head _ _ _ He). cbn [head]. destruct e as [k e]. cbn [mbind outcome_bind].
      cbn [map plain bytesOf foldr fst snd] in Hb. fold (bytesOf (map plain le)) in Hb. pose proof (bytesOf_nonneg (map plain le)).
      assert (u64 (len (m_Data (en_module e))) = len (m_Data (en_module e))) as Hl by (apply Z.mod_small; unfold len in *; lia).
      cbn [plain fst snd bytesOf foldr]. fold (bytesOf (map plain le)). rewrite Hl.
      replace (u64 (len (m_Data (en_module e)) + bytesOf (map plain le) - len (m_Data (en_module e)))) with (bytesOf (map plain le))
        by (symmetry; unfold u64; rewrite Z.mod_small; unfold len in *; lia).
      apply IH; [by apply (entries_tail _ _ (k, e)) | done | unfold len in *; lia | cbn in Hf; lia | done].
    + exists entries, (e :: le). by split_and!.
Qed.

(** The versions of a key. *)
Lemma findVersion_filter key l : NoDup l.*1 → Forall (λ e, m_Size (en_module (snd e)) = ck_Size (fst e)) l →
  findVersion key l = match filter (λ e, VersionKey (fst e) = key) l with
                      | [] => Some None
                      | [e] => Some (Some (snd e))
                      | _ => None
                      end.
Proof.
  unfold findVersion. induction l as [| [k e] l IH] using rev_ind; intros Hk Hz; [done |].
  rewrite fmap_app in Hk. apply NoDup_app in Hk as (Hk & Hdisj & _). apply Forall_app in Hz as [Hz He%Forall_inv]. cbn [fst snd] in He.
  rewrite fold_left_app, IH, filter_app by done. cbn [fold_left]. destruct (decide (VersionKey k = key)) as [Ek | Ek].
  - rewrite bool_decide_true by done. rewrite filter_cons_True by done.
    change (filter _ []) with (@nil (ModuleCacheKey * moduleCacheEntry)). cbn [negb].
    destruct (filter _ l) as [| [k1 e1] [| x r]] eqn:Ef; [done | | by destruct r].
    assert ((k1, e1) ∈ l ∧ VersionKey k1 = key) as [Hin E1].
    { assert ((k1, e1) ∈ filter (λ e, VersionKey (fst e) = key) l) as H by (rewrite Ef; left). apply list_elem_of_filter in H as [? ?]. done. }
    cbn [snd app]. assert (m_Size (en_module e1) = ck_Size k1) as Hz1 by exact (proj1 (Forall_forall _ l) Hz (k1, e1) Hin). rewrite He, Hz1.
    destruct (Z.eqb_spec (ck_Size k) (ck_Size k1)) as [Es |]; [exfalso | done]. apply (Hdisj k1); [apply list_elem_of_fmap; by exists (k1, e1) |].
    apply list_elem_of_singleton. destruct k, k1. cbn in *. congruence.
  - rewrite bool_decide_false by done. rewrite filter_cons_False by done.
    change (filter _ []) with (@nil (ModuleCacheKey * moduleCacheEntry)). rewrite app_nil_r. cbn [negb].
    by destruct (filter _ l) as [| [] []].
Qed.

End Loops.

(** ** The cache as a store *)

Section Laws.
Context {O : RangeOrderOf ModuleCacheKey moduleCacheEntry}.

Definition cache_ok (P : ModuleCacheKey → DSMCCModule → Prop) (c : ModuleCache) : Prop :=
  ∀ k e, mc_entries c !! k = Some e → P k (en_module e).

Lemma use_ok P key m c : cache_ok P c → P key m → cache_ok P (use key m c).
Proof.
  intros Hc Hm k e. unfold use. cbn [mc_entries]. destruct (decide (k = key)) as [-> | Hne].
  - rewrite lookup_insert_eq. by intros [= <-].
  - rewrite lookup_insert_ne by done. apply Hc.
Qed.

Lemma Get_ok P key c : cache_ok P c → cache_ok P (fst (Get key c)) ∧ ∀ m, snd (Get key c) = Some m → P key m.
Proof.
  intros Hc. unfold Get. destruct (mc_entries c !! key) as [e |] eqn:E; [| done]. cbn [fst snd]. specialize (Hc key e E) as He.
  split; [by apply use_ok | by intros m [= <-]].
Qed.

Lemma findVersion_found key l e : findVersion key l = Some (Some e) → ∃ k, (k, e) ∈ l ∧ VersionKey k = key.
Proof.
  unfold findVersion. revert e. induction l as [| [k x] l IH] using rev_ind; intros e; [done |]. rewrite fold_left_app. cbn [fold_left].
  destruct (fold_left _ l (Some None)) as [found |]; [| done].
  case_bool_decide as Hk; cbn [negb]; [destruct found as [e0 |]; [destruct (m_Size (en_module x) =? m_Size (en_module e0)); cbn [negb]; [| done] |] |].
  1,2: intros [= <-]; exists k; split; [apply elem_of_app; right; by left | done].
  intros He. destruct (IH e He) as (k' & Hin & Hk'). exists k'. split; [apply elem_of_app; by left | done].
Qed.

Lemma rangeOf_lookup (entries : gmap ModuleCacheKey moduleCacheEntry) k e : (k, e) ∈ rangeOf entries ↔ entries !! k = Some e.
Proof. by rewrite rangeOf_perm, elem_of_map_to_list. Qed.

Lemma GetVersion_ok P key c : cache_ok P c →
  cache_ok P (fst (GetVersion key c)) ∧ ∀ m, snd (GetVersion key c) = Some m → ∃ size, P (MkCacheKey key size) m.
Proof.
  intros Hc. unfold GetVersion. destruct (findVersion key (rangeOf (mc_entries c))) as [[e |] |] eqn:E; [| done | done]. cbn [fst snd]. split.
  - destruct (List.find _ (rangeOf (mc_entries c))) as [[k x] |] eqn:Ef; [| exact Hc]. apply List.find_some in Ef as [Hin _].
    apply use_ok; [done |]. by apply Hc, rangeOf_lookup, list_elem_of_In.
  - intros m [= <-]. apply findVersion_found in E as (k & Hin & <-). exists (ck_Size k). apply rangeOf_lookup in Hin.
    destruct k as [v size]. by apply Hc.
Qed.

Lemma evict_ok P c fuel : cache_ok P c → (size (mc_entries c) < fuel)%nat → returns (loop fuel evictBody c) (cache_ok P).
Proof.
  intros Hc Hf. apply (safe_loop (cache_ok P) (λ c, size (mc_entries c))); [| done | done]. clear c Hc Hf. intros c Hc. rewrite evictBody_eq.
  destruct (mc_maxBytes c <? mc_bytes c); [| by apply safe_ret]. pose proof (oldestEntry_min (rangeOf (mc_entries c))) as Ho.
  destruct (oldestEntry (rangeOf (mc_entries c))) as [[k e] |]; [| by apply safe_ret]. destruct Ho as [Hin%rangeOf_lookup _].
  apply safe_ret. split; cbn [mc_entries].
  - intros k' e' H'. cbn [mc_entries] in H'. apply lookup_delete_Some in H' as [_ H']. by apply Hc.
  - rewrite map_size_delete_Some by (by eexists). assert (size (mc_entries c) ≠ 0%nat); [| lia].
    intros Hz. apply map_size_empty_inv in Hz. rewrite Hz in Hin. by rewrite lookup_empty in Hin.
Qed.

Lemma Put_ok P key m c : cache_ok P c → P key m → returns (Put key m c) (λ '(c', _), cache_ok P c').
Proof.
  intros Hc Hm. unfold Put. destruct (mc_maxBytes c <? u64 (len (m_Data m))); [done |]. apply safe_bind.
  eapply safe_mono; [apply (evict_ok P); [| cbn; lia] |]; [| intros c' Hc'; by apply safe_ret].
  set (c1 := MkCache _ (match mc_entries c !! key with Some _ => _ | None => _ end) _ _). apply (use_ok P key m c1); [exact Hc | done].
Qed.

#[export] Instance cacheLaws : StoreLaws ModuleCache.
Proof.
  refine {| store_ok := cache_ok |}.
  - intros P key s Hs. cbn. destruct (Get key s) as [s' r] eqn:E. pose proof (Get_ok P key s Hs) as H. rewrite E in H. exact H.
  - intros P key s Hs. cbn. destruct (GetVersion key s) as [s' r] eqn:E. pose proof (GetVersion_ok P key s Hs) as H. rewrite E in H. exact H.
  - intros P key m s. apply Put_ok.
Defined.

(** ** The refinement *)

Lemma holds_get c l key : holds c l → mc_generation c + 1 < 2 ^ 64 →
  snd (Get key c) = snd (lruGet key l) ∧ holds (fst (Get key c)) (fst (lruGet key l)).
Proof.
  intros (le & He & -> & Hb & Hg & Hm) Hgen. unfold Get, lruGet. rewrite (entries_find _ _ le key He).
  destruct (mc_entries c !! key) as [e |] eqn:E; cbn [fmap option_fmap option_map fst snd]; [| split; [done | by exists le]]. split; [done |].
  pose proof E as Hin. apply (entries_lookup _ _ _ key e He) in Hin.
  assert (m_Size (en_module e) = ck_Size key) as Hsize by exact (proj1 (Forall_forall _ le) (eo_sizes _ _ _ He) _ Hin).
  exists (filter (λ e, fst e ≠ key) le ++ [(key, MkEntry (en_module e) (mc_generation c + 1))]).
  assert (u64 (mc_generation c + 1) = mc_generation c + 1) as Hu by (apply Z.mod_small; lia).
  pose proof (without_bytes key le e (eo_keys _ _ _ He) Hin) as Hw.
  unfold use. cbn [mc_generation mc_entries mc_bytes mc_maxBytes]. rewrite Hu, map_app, <- without_plain. split_and!; [by apply entries_use | done | | lia | |];
    rewrite ?bytesOf_app; unfold bytesOf in *; cbn [foldr plain map fst snd en_module] in *; lia.
Qed.

Lemma holds_getVersion c l key : holds c l → mc_generation c + 1 < 2 ^ 64 →
  snd (GetVersion key c) = snd (lruGetVersion key l) ∧ holds (fst (GetVersion key c)) (fst (lruGetVersion key l)).
Proof.
  intros Hc Hgen. pose proof Hc as (le & He & -> & _). unfold GetVersion, lruGetVersion. pose proof (range_entries _ _ _ He) as Hp.
  rewrite findVersion_filter; [| rewrite Hp; apply He | rewrite Hp; apply He].
  assert (filter (λ e, VersionKey (fst e) = key) (map plain le) = map plain (filter (λ e, VersionKey (fst e) = key) le)) as ->.
  { clear. induction le as [| e le IH]; [done |]. cbn [map]. destruct (decide (VersionKey (fst e) = key));
      [rewrite !filter_cons_True by done; cbn [map]; by rewrite IH | rewrite !filter_cons_False by done; exact IH]. }
  assert (filter (λ e, VersionKey (fst e) = key) (rangeOf (mc_entries c)) ≡ₚ filter (λ e, VersionKey (fst e) = key) le) as Hpf by by rewrite Hp.
  destruct (filter _ le) as [| [k e] [| x r]] eqn:Ef.
  - apply Permutation_nil_r in Hpf. rewrite Hpf. cbn. split; [done | exact Hc].
  - apply Permutation_singleton_r in Hpf. rewrite Hpf. cbn [snd fst map plain].
    assert ((k, e) ∈ le ∧ VersionKey k = key) as [Hin Hk].
    { assert ((k, e) ∈ filter (λ e, VersionKey (fst e) = key) le) as H by (rewrite Ef; left). apply list_elem_of_filter in H as [? ?]. done. }
    set (f := λ '(k, c), _).
    assert (List.find f (rangeOf (mc_entries c)) = Some (k, e)) as ->.
    { destruct (List.find f (rangeOf (mc_entries c))) as [[k' e'] |] eqn:Ef'.
      - apply List.find_some in Ef' as [Hin' Hf']. apply andb_true_iff in Hf' as [Hk'%bool_decide_eq_true _].
        assert ((k', e') ∈ filter (λ e, VersionKey (fst e) = key) (rangeOf (mc_entries c))) as H by (apply list_elem_of_filter; split; [done | by apply list_elem_of_In]).
        rewrite Hpf in H. by apply list_elem_of_singleton in H as ->.
      - exfalso. pose proof (List.find_none _ _ Ef' (k, e)) as Hf'. assert (f (k, e) = true) as Ht by (unfold f; rewrite bool_decide_true, Z.eqb_refl by done; done).
        rewrite Hf' in Ht; [done |]. apply list_elem_of_In. by rewrite Hp. }
    destruct (holds_get c (map plain le) k Hc Hgen) as [_ Hh]. unfold Get, lruGet in Hh. rewrite (entries_find _ _ le k He) in Hh.
    rewrite (proj2 (entries_lookup _ _ _ k e He) Hin) in Hh. split; [done |]. exact Hh.
  - destruct (filter _ (rangeOf (mc_entries c))) as [| y [| z r']].
    + by apply Permutation_nil_l in Hpf.
    + apply Permutation_length in Hpf. done.
    + cbn. split; [done | exact Hc].
Qed.

Lemma holds_put c l key m : holds c l → mc_generation c + 1 < 2 ^ 64 → m_Size m = ck_Size key → len (m_Data m) < 2 ^ 64 →
  returns (Put key m c) (λ '(c', ok), ok = snd (lruPut (mc_maxBytes c) key m l) ∧ holds c' (fst (lruPut (mc_maxBytes c) key m l))).
Proof.
  intros Hc Hgen Hsize Hlen. pose proof Hc as (le & He & -> & Hb & Hg & Hm). unfold Put, lruPut.
  assert (u64 (len (m_Data m)) = len (m_Data m)) as Hul by (apply Z.mod_small; unfold len in *; lia). rewrite Hul.
  destruct (Z.ltb_spec (mc_maxBytes c) (len (m_Data m))) as [Hbig | Hfit]; [done |]. cbn [fst snd].
  set (bytes := match mc_entries c !! key with Some _ => _ | None => _ end).
  assert (bytes = bytesOf (without key (map plain le))) as Ebytes.
  { unfold bytes. pose proof (bytesOf_nonneg (without key (map plain le))). destruct (mc_entries c !! key) as [e |] eqn:E.
    - apply (entries_lookup _ _ _ key e He) in E. pose proof (without_bytes key le e (eo_keys _ _ _ He) E) as Hw.
      assert (u64 (len (m_Data (en_module e))) = len (m_Data (en_module e))) as -> by (apply Z.mod_small; unfold len in *; lia).
      rewrite Hb, Hw. unfold u64. rewrite Z.mod_small by (unfold len in *; lia). lia.
    - rewrite without_absent; [done |]. intros ([k e] & -> & Hin)%list_elem_of_fmap. apply (entries_lookup _ _ _ k e He) in Hin. cbn [fst] in E. congruence. }
  clearbody bytes. unfold use. cbn [mc_generation mc_entries mc_bytes mc_maxBytes].
  assert (u64 (mc_generation c + 1) = mc_generation c + 1) as -> by (apply Z.mod_small; lia).
  pose proof (entries_use _ _ le key m He Hsize) as He'. set (le' := filter _ le ++ _) in He'.
  assert (map plain le' = without key (map plain le) ++ [(key, m)]) as El by (unfold le'; by rewrite map_app, <- without_plain).
  assert (bytesOf (without key (map plain le)) ≤ bytesOf (map plain le)) as Hle.
  { unfold without. clear. induction (map plain le) as [| e l IH]; [done |]. rewrite filter_cons. unfold bytesOf, len in *. case_decide; cbn [foldr] in *; lia. }
  pose proof (bytesOf_nonneg (without key (map plain le))).
  assert (u64 (bytes + len (m_Data m)) = bytesOf (map plain le')) as ->.
  { rewrite El, bytesOf_app, Ebytes. unfold u64. rewrite Z.mod_small; unfold bytesOf, len in *; cbn [foldr snd] in *; lia. }
  destruct (evict_trims (mc_maxBytes c) (mc_generation c + 1) le' _ (bytesOf (map plain le')) (S (S (size (<[key := MkEntry m (mc_generation c + 1)]> (mc_entries c))))) He' eq_refl)
    as (entries' & le2 & Hloop & He2 & Htrim).
  - rewrite El, bytesOf_app. unfold bytesOf, len in *. cbn [foldr snd] in *. lia.
  - rewrite (entries_size _ _ _ He'). lia.
  - unfold bytesOf, len in *. lia.
  - rewrite Hloop. cbn [mbind outcome_bind]. rewrite <- El. split; [done |]. exists le2. cbn [mc_generation mc_entries mc_bytes mc_maxBytes].
    split_and!; [done | done | by rewrite Htrim | lia | | lia]. rewrite <- Htrim.
    assert (∀ l, 0 ≤ mc_maxBytes c → bytesOf (trim (mc_maxBytes c) l) ≤ mc_maxBytes c) as Ht.
    { clear. intros l H. induction l as [| e l IH]; [done |]. cbn [trim]. destruct (Z.ltb_spec (mc_maxBytes c) (bytesOf (e :: l))); [apply IH | lia]. }
    rewrite Htrim. apply Ht. unfold bytesOf, len in *. lia.
Qed.

End Laws.

(** ** Theorems *)

Lemma holds_new n : 0 ≤ n < 2 ^ 63 → holds (NewModuleCache n) [].
Proof.
  intros Hn. exists []. split_and!; try done; [split; by constructor | |]; unfold NewModuleCache; cbn [mc_maxBytes]; change (bytesOf []) with 0;
    destruct (Z.eqb_spec n 0); unfold DefaultModuleCacheBytes; lia.
Qed.

(** C14 (refinement): the cache in memory is a list of modules in the order of use:
    [Get] finds a module by its key and moves it to the end; [GetVersion] does so
    for the only size held of a version and refuses when there are several; [Put]
    refuses a module that is too large alone, and otherwise replaces the module of
    the key, appends it and drops the oldest modules until the rest fits - whatever
    the order in which Go ranges over the entries.  So at most [maxBytes] bytes are
    held, and a module stays until it is replaced or older modules do not make
    enough room. *)
Theorem cache_is_lru {O : RangeOrderOf ModuleCacheKey moduleCacheEntry} c l : holds c l → mc_generation c + 1 < 2 ^ 64 →
  bytesOf l ≤ mc_maxBytes c ∧
  (∀ key, snd (Get key c) = snd (lruGet key l) ∧ holds (fst (Get key c)) (fst (lruGet key l))) ∧
  (∀ key, snd (GetVersion key c) = snd (lruGetVersion key l) ∧ holds (fst (GetVersion key c)) (fst (lruGetVersion key l))) ∧
  (∀ key m, m_Size m = ck_Size key → len (m_Data m) < 2 ^ 64 →
    returns (Put key m c) (λ '(c', ok), ok = snd (lruPut (mc_maxBytes c) key m l) ∧ holds c' (fst (lruPut (mc_maxBytes c) key m l)))).
Proof.
  intros Hc Hgen. split_and!.
  - by destruct Hc as (le & _ & _ & _ & _ & H & _).
  - intros key. by apply holds_get.
  - intros key. by apply holds_getVersion.
  - intros key m. by apply holds_put.
Qed.

(** ** Examples *)

Definition sampleKey (id : Z) : ModuleCacheKey := MkCacheKey (MkVersionKey "GR" "27" 1024 0x40 7 id 1) 2.
Definition sampleModule (id : Z) : DSMCCModule := MkModule 7 id 1 2 [] [id; id] 0.
#[local] Instance sampleEntries : RangeOrderOf ModuleCacheKey moduleCacheEntry := keyOrderOf.

(** Room for two modules: the second is used, so that the third takes the place of
    the first. *)
Definition sampleEntriesList : list (ModuleCacheKey * moduleCacheEntry) :=
  [(sampleKey 1, MkEntry (sampleModule 1) 1); (sampleKey 2, MkEntry (sampleModule 2) 2)].
Definition sampleCache : ModuleCache := MkCache 5 4 2 (list_to_map sampleEntriesList).

Example sampleCache_evicts : returns (Put (sampleKey 3) (sampleModule 3) (fst (Get (sampleKey 1) sampleCache)))
  (λ '(c, ok), ok = true ∧ snd (Get (sampleKey 2) c) = None ∧ snd (Get (sampleKey 1) c) = Some (sampleModule 1)).
Proof. vm_compute. repeat split; reflexivity. Qed.

Lemma cache_is_lru_witness : holds sampleCache [(sampleKey 1, sampleModule 1); (sampleKey 2, sampleModule 2)] ∧
  returns (Put (sampleKey 3) (sampleModule 3) sampleCache) (λ '(c, ok), holds c [(sampleKey 2, sampleModule 2); (sampleKey 3, sampleModule 3)]).
Proof.
  assert (holds sampleCache [(sampleKey 1, sampleModule 1); (sampleKey 2, sampleModule 2)]) as Hc.
  { exists sampleEntriesList. split_and!; [| reflexivity | reflexivity | done | done | done].
    split; [reflexivity | | | |].
    - apply NoDup_cons. split; [| apply NoDup_singleton]. by intros ?%list_elem_of_singleton.
    - apply SSorted_cons; [apply SSorted_cons; [apply SSorted_nil | by apply Forall_nil] |]. apply Forall_singleton. unfold usedBefore. cbn. lia.
    - apply Forall_cons. split; [cbn; lia |]. apply Forall_singleton. cbn. lia.
    - apply Forall_cons. split; [reflexivity |]. apply Forall_singleton. reflexivity. }
  split; [exact Hc |].
  assert (fst (lruPut (mc_maxBytes sampleCache) (sampleKey 3) (sampleModule 3) [(sampleKey 1, sampleModule 1); (sampleKey 2, sampleModule 2)]) =
    [(sampleKey 2, sampleModule 2); (sampleKey 3, sampleModule 3)]) as <- by (vm_compute; reflexivity).
  assert (mc_generation sampleCache + 1 < 2 ^ 64) as Hgen by (vm_compute; reflexivity).
  assert (m_Size (sampleModule 3) = ck_Size (sampleKey 3)) as Hsize by reflexivity.
  assert (len (m_Data (sampleModule 3)) < 2 ^ 64) as Hlen by (vm_compute; reflexivity).
  pose proof (proj2 (proj2 (proj2 (cache_is_lru sampleCache _ Hc Hgen))) (sampleKey 3) (sampleModule 3) Hsize Hlen) as H.
  destruct (Put (sampleKey 3) (sampleModule 3) sampleCache) as [[c ok] | | |]; [exact (proj2 H) | exact H..].
Defined.
