(* ===== verification/CarouselStates.v ===== *)
(** * What a carousel does to its modules one by one

    For the clients of [DSMCCCarousel] ([ts/dsmcc_carousel.go]): a property of
    module states holds of every module of a carousel through all its operations
    if it holds of the states these make - fresh ones, those a block was written
    to, restored and released ones.  And without any invariant: which module of
    before a module of the result is, and which it was announced by. *)

From S2P Require Import Prelude Crc32 Packet Section AribTables Aribstr Descriptors Psi Dsmcc Carousel.

Section States.
Context {O : RangeOrder dsmccModuleState} (P : dsmccModuleState → Prop).

Definition all_states (c : DSMCCCarousel) : Prop := map_Forall (λ _ s, P s) (c_modules c).

Definition fresh (dii : DSMCCDII) (m : DSMCCModuleInfo) (generation : Z) : dsmccModuleState :=
  MkState m (dii_DownloadID dii) (dii_BlockSize dii) (replicate (Z.to_nat (mi_ModuleSize m)) 0)
    (replicate (Z.to_nat (blockCount (mi_ModuleSize m) (dii_BlockSize dii))) false) 0 false generation.

(** A module in flight whose last block is in. *)
Definition finished (s : dsmccModuleState) (data : list Z) (received : list bool) : dsmccModuleState :=
  MkState (ms_info s) (ms_downloadID s) (ms_blockSize s) data [] (received_count received) true (ms_generation s).

Definition restored (s : dsmccModuleState) (m : DSMCCModule) : dsmccModuleState :=
  MkState (ms_info s) (ms_downloadID s) (ms_blockSize s) (m_Data m) [] (blockCount (mi_ModuleSize (ms_info s)) (ms_blockSize s)) true
    (ms_generation s).

Definition released (s : dsmccModuleState) : dsmccModuleState :=
  MkState (ms_info s) (ms_downloadID s) (ms_blockSize s) [] (ms_received s) (ms_count s) (ms_completed s) (ms_generation s).

Lemma all_subseteq c c' : c_modules c' ⊆ c_modules c → all_states c → all_states c'.
Proof. intros Hsub Hc id s Hs. apply (Hc id). by eapply lookup_weaken. Qed.

Lemma all_insert c c' id s : c_modules c' ⊆ <[id := s]> (c_modules c) → all_states c → P s → all_states c'.
Proof.
  intros Hsub Hc Hs id' s' Hs'. pose proof (lookup_weaken _ _ _ _ Hs' Hsub) as Hl. destruct (decide (id' = id)) as [-> | Hne].
  - rewrite lookup_insert_eq in Hl. by injection Hl as <-.
  - rewrite lookup_insert_ne in Hl by done. by apply (Hc id').
Qed.

Lemma remove_modules id c : c_modules (remove id c) = delete id (c_modules c).
Proof. unfold remove. destruct (c_modules c !! id) as [s |] eqn:E; [by destruct (ms_completed s) | by rewrite delete_id]. Qed.

Lemma all_remove id c : all_states c → all_states (remove id c).
Proof. apply all_subseteq. rewrite remove_modules. apply delete_subseteq. Qed.

(** A module that [ObserveDII] has accepted. *)
Definition acceptable (dii : DSMCCDII) (m : DSMCCModuleInfo) : Prop :=
  m ∈ dii_Modules dii ∧ mi_ModuleSize m ≠ 0 ∧ dii_BlockSize dii ≠ 0.

Lemma observeModule_states dii c acc m : carousel_ok c → m ∈ dii_Modules dii → word16 (dii_BlockSize dii) →
  all_states c → Forall (acceptable dii) acc → (∀ generation, acceptable dii m → P (fresh dii m generation)) →
  returns (observeModule dii (c, acc) m) (λ '(c', acc'), all_states c' ∧ Forall (acceptable dii) acc').
Proof.
  intros Hc Hm Hbs Hall Hacc Hfresh. set (id := mi_ModuleID m). unfold observeModule. fold id.
  destruct (Z.eqb_spec (mi_ModuleSize m) 0) as [| Hsize]; [split; [by apply all_remove | done] |].
  destruct (Z.eqb_spec (dii_BlockSize dii) 0) as [| Hblock]; [split; [by apply all_remove | done] |].
  destruct (Z.ltb_spec (MaxModuleSize (c_limits c)) (mi_ModuleSize m)); [split; [by apply all_remove | done] |].
  assert (acceptable dii m) as Hok by done.
  set (c1 := setRejected _ c). assert (carousel_ok c1) as H1 by by apply accept_ok. assert (all_states c1) as Hall1 by done. cbv zeta.
  destruct (match c_modules c1 !! id with Some _ => _ | None => _ end).
  { split; [done |]. apply Forall_app. split; [done | by apply Forall_singleton]. }
  assert (carousel_ok (remove id c1)) as H2 by (eapply shrinks_carousel; [done | apply remove_shrinks, H1]).
  assert (all_states (remove id c1)) as Hall2 by by apply all_remove. set (c2 := remove id c1) in *.
  destruct (Z.ltb_spec (MaxInFlightBytes (c_limits c2)) (mi_ModuleSize m)); [by split |].
  apply safe_bind. eapply (evictWhile_spec _ _ _ _ _ _ _ evictOldestInFlight_evicts (proj1 H2)).
  intros c3 Hsh _ _. assert (all_states c3) as Hall3 by (eapply all_subseteq; [apply Hsh | done]).
  destruct (MaxInFlightBytes (c_limits c3) <? _); [by split |]. split; [| apply Forall_app; split; [done | by apply Forall_singleton]].
  apply (all_insert c3 _ id (fresh dii m (u64 (c_generation c3 + 1)))); [reflexivity | done |]. by apply Hfresh.
Qed.

Lemma ObserveDII_states dii c : carousel_ok c → Forall module_ok (dii_Modules dii) → word16 (dii_BlockSize dii) → all_states c →
  (∀ m generation, acceptable dii m → P (fresh dii m generation)) →
  returns (ObserveDII dii c) (λ '(c', acc), carousel_ok c' ∧ same_limits c c' ∧ all_states c' ∧ Forall (acceptable dii) acc).
Proof.
  intros Hc Hms Hbs Hall Hfresh.
  assert (returns (ObserveDII dii c) (λ '(c', acc), all_states c' ∧ Forall (acceptable dii) acc)) as Hstates.
  { unfold ObserveDII. apply safe_bind. eapply safe_mono; [apply (safe_foldM (λ '(c', acc), (carousel_ok c' ∧ all_states c') ∧ Forall (acceptable dii) acc)) |].
    - split; [by split | done].
    - intros [c1 acc1] m [[Hc1 Hall1] Hacc1] Hm. rewrite Forall_forall in Hms.
      pose proof (observeModule_ok dii c1 acc1 m Hc1 (Hms m Hm) Hbs) as H1.
      pose proof (observeModule_states dii c1 acc1 m Hc1 Hm Hbs Hall1 Hacc1 (λ g, Hfresh m g)) as H2.
      destruct (observeModule dii (c1, acc1) m) as [[c2 acc2] | | |]; try done. destruct H1 as [H1 _], H2 as [H2 H3]. by split.
    - intros [c1 acc1] [[Hc1 Hall1] Hacc1]. cbv zeta. split; [| done]. set (seen := list_to_set _).
      destruct (removeUnseen_spec seen (range (c_modules c1)) c1 Hc1) as (_ & _ & Hm1 & _).
      cbv zeta in *. by eapply all_subseteq. }
  pose proof (ObserveDII_ok dii c Hc Hms Hbs) as Hok. destruct (ObserveDII dii c) as [[c' acc] | | |]; try done.
  destruct Hok as (? & ? & _), Hstates. by split_and!.
Qed.

(** Completing a module only removes others. *)
Lemma completeModule_states id s0 s c : carousel_ok c → c_modules c !! id = Some s0 → ms_completed s0 = false →
  ms_info s = ms_info s0 → ms_blockSize s = ms_blockSize s0 → ms_completed s = true → ms_received s = [] →
  len (ms_data s) = mi_ModuleSize (ms_info s) → all_states c → P s →
  returns (completeModule id s c) (λ '(c', kept), carousel_ok c' ∧ same_limits c c' ∧
    c_modules c' !! id = (if kept : bool then Some s else None) ∧ all_states c').
Proof.
  intros Hc E Ec Hi Hbs Hcomp Hrec Hdata Hall Hs.
  pose proof (completeModule_ok id s0 s c Hc E Ec Hi Hbs Hcomp Hrec Hdata) as Hok.
  assert (returns (completeModule id s c) (λ '(c', _), c_modules c' ⊆ <[id := s]> (c_modules c))) as Hsub.
  { clear Hok. unfold completeModule. cbv zeta. pose proof Hc as ([Hl Hst Hf Hd Hm H64] & Hdone & Hr).
    pose proof (Hst id s0 E) as [S1 S2 S3 S4 S5]. pose proof Hl as (L1 & L2 & L3).
    pose proof (total_replace inFlightOf id s0 s _ E) as T1. pose proof (total_replace completedOf id s0 s _ E) as T2.
    assert (inFlightOf s0 = mi_ModuleSize (ms_info s0)) as W1 by (unfold inFlightOf; by rewrite Ec).
    assert (completedOf s0 = 0) as W2 by (unfold completedOf; by rewrite Ec).
    assert (inFlightOf s = 0) as W3 by (unfold inFlightOf; by rewrite Hcomp).
    assert (completedOf s = mi_ModuleSize (ms_info s)) as W4 by (unfold completedOf; by rewrite Hcomp).
    pose proof (total_delete inFlightOf id s0 _ E) as T3.
    assert (0 ≤ total inFlightOf (delete id (c_modules c))).
    { apply total_nonneg. intros j t Ht. eapply inFlightOf_nonneg. by apply (states_delete _ id Hst). }
    assert (0 ≤ total completedOf (c_modules c)) by (apply total_nonneg; intros; apply completedOf_nonneg).
    rewrite Hi in *. set (sz := mi_ModuleSize (ms_info s0)) in *.
    cbn [c_completedBytes c_inFlightBytes c_limits setModules setInFlightBytes setCompletedBytes].
    rewrite !u64_small by lia. set (c1 := setCompletedBytes _ _).
    assert (accounts_ok c1) as H1.
    { split; cbn; [done | | lia | lia | lia | lia]. apply map_Forall_insert_2; [| done].
      split; rewrite ?Hi, ?Hbs; try done; [by rewrite Hcomp | intros _; split; [done | by left]]. }
    apply safe_bind. eapply (evictWhile_spec _ _ _ _ _ _ _ (evictOldestCompletedExcept_evicts id) H1).
    intros c2 Hsh _ _. pose proof (sh_modules _ _ Hsh) as Hm2. destruct (_ <? _); [| done].
    apply safe_ret. rewrite remove_modules. etrans; [apply delete_subseteq | done]. }
  destruct (completeModule id s c) as [[c' kept] | | |]; try done. destruct Hok as (H1 & H2 & H3 & _).
  split_and!; [done | done | done |]. by eapply all_insert.
Qed.

(** A block. *)
Lemma ObserveDDB_states ddb c : carousel_ok c → ddb_ok ddb → all_states c →
  (∀ s, c_modules c !! ddb_ModuleID ddb = Some s → accepts s ddb →
    let received := <[Z.to_nat (ddb_BlockNumber ddb) := true]> (ms_received s) in
    P (marked s (written s ddb) received) ∧ (received_count received = len received → P (finished s (written s ddb) received))) →
  returns (ObserveDDBWithResult ddb c) (λ '(c', r), carousel_ok c' ∧ same_limits c c' ∧ all_states c' ∧
    ∀ m, do_module r = Some m → ∃ s, c_modules c' !! ddb_ModuleID ddb = Some s ∧ m = module s ∧ ms_completed s = true ∧
      len (ms_data s) = mi_ModuleSize (ms_info s)).
Proof.
  intros Hc Hd Hall Hblock. pose proof (ObserveDDB_spec ddb c Hc Hd) as Hspec. pose proof Hd as (_ & _ & _ & Hbn & _).
  unfold ObserveDDBWithResult in *. set (id := ddb_ModuleID ddb) in *.
  destruct (c_modules c !! id) as [s |] eqn:E; [| by split_and!]. specialize (Hblock s eq_refl).
  pose proof (map_Forall_lookup_1 _ _ _ _ (ac_states _ (proj1 Hc)) E) as Hs. pose proof Hs as [S1 S2 S3 S4 S5].
  destruct (ms_completed s || _ || _ || _) eqn:Eg; [by split_and! |].
  destruct (Z.leb_spec (len (ms_received s)) (ddb_BlockNumber ddb)); [by split_and! |].
  unfold word16 in Hbn. pose proof (accepts_guard s ddb ltac:(lia) ltac:(lia) Eg ltac:(lia)) as Hacc.
  pose proof Hacc as (Hcomp & _ & _ & Hn). destruct (S4 Hcomp) as (HD & HR & HC & Hlt). specialize (Hblock Hacc). cbv zeta in *.
  destruct (Z.leb_spec (len (ms_data s)) (ddb_BlockNumber ddb * ms_blockSize s)); [by split_and! |].
  set (off := ddb_BlockNumber ddb * ms_blockSize s) in *. set (stop := if len (ms_data s) <? _ then _ else _) in *.
  assert (stop = Z.min (len (ms_data s)) (off + len (ddb_Data ddb))) as Hstop
    by (unfold stop; destruct (Z.ltb_spec (len (ms_data s)) (off + len (ddb_Data ddb))); lia).
  rewrite Hstop in *. set (n := Z.to_nat (ddb_BlockNumber ddb)) in *. pose proof (len_nonneg (ddb_Data ddb)).
  assert (0 ≤ off) by (unfold off; nia).
  destruct (lookup_lt_is_Some_2 (ms_received s) n) as [b Hb]; [unfold n, len in *; lia |].
  rewrite (idx_lookup (ms_received s) (ddb_BlockNumber ddb) b) in * by (done || lia). cbn [mbind outcome_bind] in *.
  rewrite slice_sub in * by lia. cbn [mbind outcome_bind] in *.
  assert ((if b then ms_received s else <[n := true]> (ms_received s)) = <[n := true]> (ms_received s)) as Erec
    by (destruct b; [by rewrite list_insert_id | done]). rewrite Erec in *.
  set (received := <[n := true]> (ms_received s)) in *.
  assert ((if b then ms_count s else ms_count s + 1) = received_count received) as Ecnt.
  { unfold received. rewrite HC. destruct b; [by rewrite list_insert_id | by rewrite received_count_insert]. }
  rewrite Ecnt in *. change (list_inserts (Z.to_nat off) _ (ms_data s)) with (written s ddb) in *.
  pose proof (received_count_le received) as Hle. destruct (Z.ltb_spec (received_count received) (len received)) as [Hmore | Hfull].
  - destruct Hspec as (Hc' & Hl' & _). split_and!; [done | done | | done].
    apply (all_insert c _ id (marked s (written s ddb) received)); [reflexivity | done |]. apply Hblock.
  - clear Hspec. apply safe_bind. assert (len (written s ddb) = len (ms_data s)) as Hlw by (unfold written, len; by rewrite length_inserts).
    eapply safe_mono; [apply (completeModule_states id s); try done; [cbn; by rewrite Hlw | apply Hblock; lia] |].
    intros [c' kept] (Hc' & Hl' & Hm' & Hall'). destruct kept; (split_and!; [done | done | done |]); [| done].
    intros m [= <-]. eexists. split_and!; [exact Hm' | done | done | cbn; by rewrite Hlw].
Qed.

(** A module from a store. *)
Lemma Restore_states m c : carousel_ok c → len (m_Data m) < 2 ^ 32 → all_states c →
  (∀ s, c_modules c !! m_ModuleID m = Some s → ms_completed s = false → ms_downloadID s = m_DownloadID m → mi_Version (ms_info s) = m_Version m →
    mi_ModuleSize (ms_info s) = m_Size m → len (m_Data m) = m_Size m → P (restored s m)) →
  returns (Restore m c) (λ '(c', _), carousel_ok c' ∧ same_limits c c' ∧ all_states c').
Proof.
  intros Hc Hlen Hall Hres. unfold Restore. set (id := m_ModuleID m) in *.
  destruct (c_modules c !! id) as [s |] eqn:E; [| by split_and!].
  destruct (_ || _) eqn:Eg; [by split_and! |]. bools.
  unfold u32 in *. rewrite Z.mod_small in * by (pose proof (len_nonneg (m_Data m)); lia).
  eapply safe_mono; [apply (completeModule_states id s); try done; simpl; [congruence |] |].
  - apply Hres; try done; congruence.
  - intros [c' kept] (Hc' & Hl' & _ & Hall'). by split_and!.
Qed.

Lemma ReleaseCompletedPayload_states id c : carousel_ok c → all_states c →
  (∀ s, c_modules c !! id = Some s → ms_completed s = true → P (released s)) →
  let c' := (ReleaseCompletedPayload id c).1 in carousel_ok c' ∧ same_limits c c' ∧ all_states c'.
Proof.
  intros Hc Hall Hrel. destruct (ReleaseCompletedPayload_ok id c Hc) as [Hok Hl]. split_and!; [done | done |].
  unfold ReleaseCompletedPayload. destruct (c_modules c !! id) as [s |] eqn:E; [| done].
  destruct (_ || _) eqn:Eg; [done |]. bools. apply (all_insert c _ id (released s)); [reflexivity | done |]. by apply Hrel.
Qed.

(** ** The rejected modules *)

Section Rejected.
Variable Q : DSMCCModuleInfo → Prop.

Definition all_rejected (c : DSMCCCarousel) : Prop := map_Forall (λ _ r, Q (rj_Module r)) (c_rejected c).

Lemma remove_rejected id c : c_rejected (remove id c) = c_rejected c.
Proof. unfold remove. destruct (c_modules c !! id) as [s |]; [by destruct (ms_completed s) | done]. Qed.

Lemma reject_rejected m reason c : Q m → all_rejected c → all_rejected (reject m reason c).
Proof. intros Hm Hc. apply (map_Forall_insert_2 (λ _ r, Q (rj_Module r))); done. Qed.

Lemma evictWhile_rejected cond evict c c' : (∀ c, c_rejected (fst (evict c)) = c_rejected c) →
  evictWhile cond evict c = Ret c' → c_rejected c' = c_rejected c.
Proof.
  intros Hev. unfold evictWhile. generalize (S (S (size (c_modules c)))) as fuel. intros fuel. revert c.
  induction fuel as [| fuel IH]; intros c; [done |]. rewrite loop_S. cbn beta. destruct (cond c); [| by intros [= ->]].
  specialize (Hev c). destruct (evict c) as [c1 [|]]; cbn in *; [| by intros [= ->]]. intros H. rewrite <- Hev. by apply IH.
Qed.

Lemma evictOldestInFlight_rejected c : c_rejected (fst (evictOldestInFlight c)) = c_rejected c.
Proof. unfold evictOldestInFlight. destruct (oldestOf _ _) as [[id s] |]; [apply remove_rejected | done]. Qed.

Lemma evictOldestCompletedExcept_rejected id c : c_rejected (fst (evictOldestCompletedExcept id c)) = c_rejected c.
Proof. unfold evictOldestCompletedExcept. destruct (oldestOf _ _) as [[k s] |]; [apply remove_rejected | done]. Qed.

Lemma observeModule_rejected dii c acc m c' acc' : Q m → all_rejected c → observeModule dii (c, acc) m = Ret (c', acc') → all_rejected c'.
Proof.
  intros Hm Hc. unfold observeModule. assert (∀ r c, all_rejected c → all_rejected (reject m r (remove (mi_ModuleID m) c))) as Hrej.
  { intros r c0 H0. apply reject_rejected; [done |]. unfold all_rejected. by rewrite remove_rejected. }
  destruct (_ =? 0); [intros [= <- <-]; by apply Hrej |]. destruct (_ =? 0); [intros [= <- <-]; by apply Hrej |].
  destruct (_ <? _); [intros [= <- <-]; by apply Hrej |]. set (c1 := setRejected _ c).
  assert (all_rejected c1) as H1 by (apply (map_Forall_delete (λ _ r, Q (rj_Module r))); exact Hc). cbv zeta.
  destruct (match c_modules c1 !! _ with Some _ => _ | None => _ end); [by intros [= <- <-] |].
  destruct (_ <? _); [intros [= <- <-]; by apply Hrej |]. intros (c3 & E3 & E)%bind_Ret_inv.
  apply evictWhile_rejected in E3; [| apply evictOldestInFlight_rejected]. rewrite remove_rejected in E3.
  assert (all_rejected c3) as H3 by (unfold all_rejected; by rewrite E3).
  destruct (_ <? _); injection E as <- <-; [by apply reject_rejected | done].
Qed.

Lemma ObserveDII_rejected dii c c' acc : Forall Q (dii_Modules dii) → all_rejected c → ObserveDII dii c = Ret (c', acc) → all_rejected c'.
Proof.
  intros Hms Hc. unfold ObserveDII. intros ([c1 acc1] & E1 & E)%bind_Ret_inv. injection E as <- <-.
  assert (all_rejected c1) as H1.
  { revert E1. generalize (@nil DSMCCModuleInfo). revert c Hc. induction Hms as [| m ms Hm _ IH]; intros c Hc acc0; cbn; [by intros [= <- <-] |].
    intros ([c2 acc2] & E2 & E)%bind_Ret_inv. apply observeModule_rejected in E2; [| done | done]. by apply (IH c2 E2 acc2). }
  assert (∀ l c, all_rejected c →
    all_rejected (fold_left (λ c (e : Z * dsmccModuleState), if bool_decide (fst e ∈ (list_to_set (map mi_ModuleID (dii_Modules dii)) : gset Z)) then c else remove (fst e) c) l c)) as Hfold.
  { clear. intros l. induction l as [| e l IH]; intros c Hc; [done |]. cbn [fold_left]. apply IH. case_bool_decide; [done |].
    unfold all_rejected. by rewrite remove_rejected. }
  specialize (Hfold (range (c_modules c1)) c1 H1). cbn [c_rejected setRejected all_rejected].
  intros id r [Hr _]%map_lookup_filter_Some. by eapply Hfold.
Qed.

Lemma completeModule_rejected id s c c' kept : completeModule id s c = Ret (c', kept) → c_rejected c' = c_rejected c.
Proof.
  unfold completeModule. cbv zeta. intros (c2 & E2 & E)%bind_Ret_inv. apply evictWhile_rejected in E2; [| apply evictOldestCompletedExcept_rejected].
  destruct (_ <? _); injection E as <- <-; rewrite ?remove_rejected; by rewrite E2.
Qed.

Lemma ObserveDDB_rejected ddb c c' r : ObserveDDBWithResult ddb c = Ret (c', r) → c_rejected c' = c_rejected c.
Proof.
  unfold ObserveDDBWithResult. destruct (c_modules c !! ddb_ModuleID ddb) as [s |]; [| by intros [= <- <-]].
  destruct (ms_completed s || _ || _ || _); [by intros [= <- <-] |]. destruct (_ <=? _); [by intros [= <- <-] |].
  destruct (_ <=? _); [by intros [= <- <-] |]. cbv zeta. intros (b & _ & E)%bind_Ret_inv. apply bind_Ret_inv in E as (src & _ & E).
  destruct (_ <? len _); [by injection E as <- <- |]. apply bind_Ret_inv in E as ([c2 kept] & E2 & E).
  apply completeModule_rejected in E2. destruct kept; by injection E as <- <-.
Qed.

Lemma Restore_rejected m c c' ok : Restore m c = Ret (c', ok) → c_rejected c' = c_rejected c.
Proof.
  unfold Restore. destruct (c_modules c !! m_ModuleID m) as [s |]; [| by intros [= <- <-]].
  destruct (_ || _); [by intros [= <- <-] |]. apply completeModule_rejected.
Qed.

Lemma ReleaseCompletedPayload_rejected id c : c_rejected (fst (ReleaseCompletedPayload id c)) = c_rejected c.
Proof. unfold ReleaseCompletedPayload. destruct (c_modules c !! id) as [s |]; [| done]. by destruct (_ || _). Qed.

End Rejected.

End States.

(** ** What becomes of the modules

    A module of the result is one of before, with the same announcement; it is as
    complete as it was, or has become complete and is [new]. *)

Section Descent.
Context {O : RangeOrder dsmccModuleState}.

Definition descends (new : dsmccModuleState → Prop) (c c' : DSMCCCarousel) : Prop :=
  ∀ id s', c_modules c' !! id = Some s' → ∃ s, c_modules c !! id = Some s ∧ ms_info s' = ms_info s ∧ ms_downloadID s' = ms_downloadID s ∧
    (ms_completed s = true → ms_completed s' = true) ∧ (ms_completed s' = true → ms_completed s = true ∨ new s').

Lemma descends_subseteq new c c' : c_modules c' ⊆ c_modules c → descends new c c'.
Proof. intros Hsub id s' Hs'. exists s'. split_and!; [by eapply lookup_weaken | done | done | done | by left]. Qed.

Lemma descends_trans new1 new2 (new : dsmccModuleState → Prop) c c1 c2 : descends new1 c c1 → descends new2 c1 c2 →
  (∀ s s', new1 s → ms_info s' = ms_info s → ms_downloadID s' = ms_downloadID s → new s') → (∀ s, new2 s → new s) → descends new c c2.
Proof.
  intros H1 H2 Hn1 Hn2 id s2 Hs2. destruct (H2 id s2 Hs2) as (s1 & Hs1 & A1 & A2 & A3 & A4). destruct (H1 id s1 Hs1) as (s & Hs & B1 & B2 & B3 & B4).
  exists s. split_and!; [done | congruence | congruence | by auto |]. intros Hc. destruct (A4 Hc) as [Hc1 | Hc1]; [| by auto].
  destruct (B4 Hc1) as [? | Hn]; [by left | right; by eapply Hn1].
Qed.

Lemma descends_none new c c' : descends new c c' → (∀ s, ¬ new s) → descends (λ _, False) c c'.
Proof.
  intros Hd Hn id s' Hs'. destruct (Hd id s' Hs') as (s & ? & ? & ? & ? & Hc). exists s. split_and!; try done. intros Hs.
  destruct (Hc Hs) as [? | ?]; [by left | by destruct (Hn s')].
Qed.

Lemma descends_insert new id s0 s c c' : c_modules c !! id = Some s0 → ms_info s = ms_info s0 → ms_downloadID s = ms_downloadID s0 →
  (ms_completed s0 = true → ms_completed s = true) → (c_modules c' !! id = Some s → ms_completed s = true → ms_completed s0 = true ∨ new s) →
  c_modules c' ⊆ <[id := s]> (c_modules c) → descends new c c'.
Proof.
  intros E H1 H2 H3 H4 Hsub k s' Hs'. pose proof (lookup_weaken _ _ _ _ Hs' Hsub) as Hl. destruct (decide (k = id)) as [-> | Hne].
  - rewrite lookup_insert_eq in Hl. injection Hl as <-. exists s0. split_and!; auto.
  - rewrite lookup_insert_ne in Hl by done. exists s'. split_and!; [done | done | done | done | by left].
Qed.

Lemma evictWhile_subseteq cond evict c c' : (∀ c, c_modules (fst (evict c)) ⊆ c_modules c) → evictWhile cond evict c = Ret c' →
  c_modules c' ⊆ c_modules c.
Proof.
  intros Hev. unfold evictWhile. generalize (S (S (size (c_modules c)))) as fuel. intros fuel. revert c.
  induction fuel as [| fuel IH]; intros c; [done |]. rewrite loop_S. cbn beta. destruct (cond c); [| by intros [= ->]].
  specialize (Hev c). destruct (evict c) as [c1 [|]]; cbn in *; [| by intros [= <-]]. intros H. etrans; [by apply IH | done].
Qed.

Lemma evictOldestInFlight_subseteq c : c_modules (fst (evictOldestInFlight c)) ⊆ c_modules c.
Proof. unfold evictOldestInFlight. destruct (oldestOf _ _) as [[k s] |]; [| done]. cbn [fst]. rewrite remove_modules. apply delete_subseteq. Qed.

Lemma evictOldestCompletedExcept_subseteq id c : c_modules (fst (evictOldestCompletedExcept id c)) ⊆ c_modules c.
Proof. unfold evictOldestCompletedExcept. destruct (oldestOf _ _) as [[k s] |]; [| done]. cbn [fst]. rewrite remove_modules. apply delete_subseteq. Qed.

Lemma completeModule_subseteq id s c c' kept : completeModule id s c = Ret (c', kept) →
  c_modules c' ⊆ <[id := s]> (c_modules c) ∧ (kept = false → c_modules c' !! id = None).
Proof.
  unfold completeModule. cbv zeta. intros (c2 & E2 & E)%bind_Ret_inv. apply evictWhile_subseteq in E2; [| apply evictOldestCompletedExcept_subseteq].
  destruct (_ <? _); injection E as <- <-; [| split; [exact E2 | done]]. rewrite remove_modules.
  split; [etrans; [apply delete_subseteq | exact E2] | intros _; apply lookup_delete_eq].
Qed.

Lemma ObserveDDB_descends ddb c c' r : ObserveDDBWithResult ddb c = Ret (c', r) →
  descends (λ s, do_module r = Some (module s) ∧ do_err r = None ∧ do_complete r = true) c c'.
Proof.
  unfold ObserveDDBWithResult. destruct (c_modules c !! ddb_ModuleID ddb) as [s |] eqn:Es; [| intros [= <- <-]; by apply descends_subseteq].
  destruct (ms_completed s || _ || _ || _) eqn:Eg; [intros [= <- <-]; by apply descends_subseteq |]. bools.
  destruct (_ <=? _); [intros [= <- <-]; by apply descends_subseteq |].
  destruct (_ <=? _); [intros [= <- <-]; by apply descends_subseteq |]. cbv zeta. intros (b & _ & E)%bind_Ret_inv. apply bind_Ret_inv in E as (src & _ & E).
  destruct (_ <? len _).
  - injection E as <- <-. eapply descends_insert; [exact Es | | | | | cbn [fst c_modules setModules]; reflexivity]; cbn; [done | done | congruence | done].
  - apply bind_Ret_inv in E as ([c2 kept] & E2 & E). apply completeModule_subseteq in E2 as [Hsub Hnone].
    destruct kept; injection E as <- <-; (eapply descends_insert; [exact Es | | | | | exact Hsub]); try done; [by right |].
    intros Hs. by rewrite (Hnone eq_refl) in Hs.
Qed.

Lemma Restore_descends m c c' ok : Restore m c = Ret (c', ok) →
  descends (λ s, ok = true ∧ c_modules c' !! m_ModuleID m = Some s ∧ ms_downloadID s = m_DownloadID m ∧ mi_Version (ms_info s) = m_Version m ∧
    mi_ModuleSize (ms_info s) = m_Size m) c c'.
Proof.
  unfold Restore. destruct (c_modules c !! m_ModuleID m) as [s |] eqn:Es; [| intros [= <- <-]; by apply descends_subseteq].
  destruct (_ || _) eqn:Eg; [intros [= <- <-]; by apply descends_subseteq |]. bools. intros [Hsub Hnone]%completeModule_subseteq.
  eapply descends_insert; [exact Es | | | | | exact Hsub]; try done. intros Hs _. right.
  destruct ok; [by split_and! | by rewrite (Hnone eq_refl) in Hs].
Qed.

Lemma Restore_completed m c c' s : Restore m c = Ret (c', true) → c_modules c' !! m_ModuleID m = Some s → ms_completed s = true.
Proof.
  unfold Restore. destruct (c_modules c !! m_ModuleID m) as [s0 |] eqn:Es; [| done]. destruct (_ || _); [done |].
  intros [Hsub _]%completeModule_subseteq Hs. pose proof (lookup_weaken _ _ _ _ Hs Hsub) as Hl. rewrite lookup_insert_eq in Hl. by injection Hl as <-.
Qed.

Lemma Release_descends id c : descends (λ _, False) c (fst (ReleaseCompletedPayload id c)).
Proof.
  unfold ReleaseCompletedPayload. destruct (c_modules c !! id) as [s |] eqn:Es; [| by apply descends_subseteq].
  destruct (_ || _); [by apply descends_subseteq |]. eapply descends_insert; [exact Es | | | | | cbn [fst c_modules setModules]; reflexivity]; try done. by left.
Qed.

(** The modules after a DII are those it announced and that were accepted. *)
Definition announcedBy (dii : DSMCCDII) (acc : list DSMCCModuleInfo) (id : Z) (s : dsmccModuleState) : Prop :=
  ∃ m, m ∈ acc ∧ mi_ModuleID m = id ∧ ms_downloadID s = dii_DownloadID dii ∧ mi_Version (ms_info s) = mi_Version m ∧
    mi_ModuleSize (ms_info s) = mi_ModuleSize m.

Definition announced_in (dii : DSMCCDII) (acc : list DSMCCModuleInfo) (seen : list DSMCCModuleInfo) (c : DSMCCCarousel) : Prop :=
  ∀ id s, id ∈ map mi_ModuleID seen → c_modules c !! id = Some s → announcedBy dii acc id s.

Lemma announced_rejected dii acc seen m r c c' : c_modules c' ⊆ c_modules c → announced_in dii acc seen c → c_modules c' !! mi_ModuleID m = None →
  announced_in dii acc (seen ++ [m]) (reject m r c').
Proof.
  intros Hsub Hc Hnone id s Hid Hs. cbn [c_modules reject setRejected] in Hs. rewrite map_app in Hid.
  apply elem_of_app in Hid as [Hid | ->%list_elem_of_singleton]; [| congruence]. apply (Hc id s Hid). by eapply lookup_weaken.
Qed.

Lemma announced_accepted dii acc seen m s0 c c' : c_modules c' ⊆ <[mi_ModuleID m := s0]> (c_modules c) → announced_in dii acc seen c →
  announcedBy dii [m] (mi_ModuleID m) s0 → announced_in dii (acc ++ [m]) (seen ++ [m]) c'.
Proof.
  intros Hsub Hc (m0 & Hm0 & H0) id s Hid Hs. pose proof (lookup_weaken _ _ _ _ Hs Hsub) as Hl. destruct (decide (id = mi_ModuleID m)) as [-> | Hne].
  - rewrite lookup_insert_eq in Hl. injection Hl as ->. exists m0. split; [apply elem_of_app; by right | done].
  - rewrite lookup_insert_ne in Hl by done. rewrite map_app in Hid. apply elem_of_app in Hid as [Hid | ->%list_elem_of_singleton]; [| done].
    destruct (Hc id s Hid Hl) as (m1 & Hm1 & H1). exists m1. split; [apply elem_of_app; by left | done].
Qed.

Lemma observeModule_announced dii c acc seen m c' acc' : announced_in dii acc seen c → observeModule dii (c, acc) m = Ret (c', acc') →
  announced_in dii acc' (seen ++ [m]) c'.
Proof.
  intros Hc. unfold observeModule. set (id := mi_ModuleID m).
  assert (∀ r c0, c_modules c0 = c_modules c → announced_in dii acc (seen ++ [m]) (reject m r (remove id c0))) as Hreject.
  { intros r c0 E0. apply (announced_rejected _ _ _ _ _ c); [| done |]; rewrite remove_modules, E0; [apply delete_subseteq | apply lookup_delete_eq]. }
  destruct (_ =? 0); [intros [= <- <-]; by apply Hreject |]. destruct (_ =? 0); [intros [= <- <-]; by apply Hreject |].
  destruct (_ <? _); [intros [= <- <-]; by apply Hreject |]. set (c1 := setRejected _ c). cbv zeta. change (c_modules c1) with (c_modules c).
  destruct (match c_modules c !! id with Some _ => _ | None => false end) eqn:Esame.
  { destruct (c_modules c !! id) as [s |] eqn:Es; [| done]. bools. intros [= <- <-]. apply (announced_accepted dii acc seen m s c); [| done |].
    - change (c_modules c1) with (c_modules c). by rewrite insert_id.
    - exists m. split_and!; [by left | done..]. }
  destruct (_ <? _); [intros [= <- <-]; by apply Hreject |]. intros (c3 & E3 & E)%bind_Ret_inv.
  apply evictWhile_subseteq in E3; [| apply evictOldestInFlight_subseteq]. rewrite remove_modules in E3. change (c_modules c1) with (c_modules c) in E3.
  destruct (_ <? _); injection E as <- <-.
  - apply (announced_rejected _ _ _ _ _ c); [etrans; [exact E3 | apply delete_subseteq] | done |].
    destruct (c_modules c3 !! id) as [s |] eqn:Es; [| done]. pose proof (lookup_weaken _ _ _ _ Es E3) as H. by rewrite lookup_delete_eq in H.
  - eapply (announced_accepted dii acc seen m _ c); [| done |].
    + cbn [c_modules setInFlightBytes setModules setGeneration]. apply insert_mono. etrans; [exact E3 | apply delete_subseteq].
    + exists m. split_and!; [by left | done..].
Qed.

Lemma ObserveDII_announced dii c c' acc : ObserveDII dii c = Ret (c', acc) → map_Forall (announcedBy dii acc) (c_modules c').
Proof.
  unfold ObserveDII. intros ([c1 acc1] & E1 & E)%bind_Ret_inv. injection E as <- <-.
  assert (∀ ms seen c acc, announced_in dii acc seen c → foldM (observeModule dii) ms (c, acc) = Ret (c1, acc1) →
    announced_in dii acc1 (seen ++ ms) c1) as Hfold.
  { clear. intros ms. induction ms as [| m ms IH]; intros seen c acc Hc; cbn [foldM]; [intros [= -> ->]; by rewrite app_nil_r |].
    intros ([c2 acc2] & E2 & E)%bind_Ret_inv. apply (observeModule_announced _ _ _ seen) in E2; [| done].
    specialize (IH _ _ _ E2 E). by rewrite <- app_assoc in IH. }
  specialize (Hfold _ [] _ _ ltac:(intros id s Hid; by apply elem_of_nil in Hid) E1). cbn [app] in Hfold. set (seen := list_to_set _).
  assert (∀ l c, c_modules (fold_left (λ c (e : Z * dsmccModuleState), if bool_decide (fst e ∈ (seen : gset Z)) then c else remove (fst e) c) l c) =
    filter (λ e, fst e ∈ seen ∨ fst e ∉ l.*1) (c_modules c)) as Hseen.
  { clear. intros l. induction l as [| e l IH]; intros c; cbn [fold_left].
    - symmetry. apply map_filter_id. intros i x _. right. apply not_elem_of_nil.
    - rewrite IH. case_bool_decide as Hd.
      + apply map_filter_ext. intros i x _. cbn. rewrite not_elem_of_cons. destruct (decide (i = fst e)) as [-> |]; tauto.
      + rewrite remove_modules, map_filter_delete. apply map_eq. intros i. apply option_eq. intros x.
        rewrite lookup_delete_Some, !map_lookup_filter_Some. cbn. rewrite not_elem_of_cons.
        destruct (decide (i = fst e)) as [-> |]; split; [tauto | intros [? [? | [? ?]]]; done | |]; intuition. }
  intros id s Hs. cbn [c_modules setRejected] in Hs. rewrite Hseen in Hs. apply map_lookup_filter_Some in Hs as [Hs Hid]. cbn in Hid.
  apply Hfold; [| done]. destruct Hid as [Hid | Hid]; [by apply elem_of_list_to_set in Hid |]. exfalso. apply Hid, list_elem_of_fmap.
  exists (id, s). split; [done | by apply range_elem].
Qed.

End Descent.
