(* ===== verification/DataBroadcast.v ===== *)
(** * Data broadcasting ([internal/stream/databroadcast/data_broadcast.go])

    The hub observes the sections of a channel: the PMT of each service names its
    carousels, DII and DDB sections fill them, and each change is an event for the
    subscribers of the service, who start from a snapshot.  A subscriber that does
    not keep up loses its channel.  Every method works under the hub's mutex and is
    one function here (what it does before it takes the lock, or after, touches
    nothing the others see); the theorems are in [DataBroadcastHub].

    Not modelled: [moduleStarts], which only measures durations, and the metrics. *)

From Stdlib Require Import Ascii.
From S2P Require Import Prelude Crc32 Packet Section AribTables Aribstr Descriptors Psi Events EventDescriptors TableSections Demux Dsmcc Carousel ModuleCache.

Definition dataBroadcastSubscriberBuffer : Z := 64.

(** ** Hexadecimal digits *)

Definition hexDigit (n : Z) : ascii := default "0"%char (String.get (Z.to_nat n) "0123456789abcdef").

(** [%0nx], for a value of [n] digits. *)
Fixpoint hexWord (n : nat) (x : Z) : string :=
  match n with
  | O => ""
  | S n => String.String (hexDigit (Z.land (Z.shiftr x (4 * Z.of_nat n)) 15)) (hexWord n x)
  end.

(** [hex.EncodeToString] *)
Definition EncodeToString (b : list Z) : string := foldr (λ x s, String.append (hexWord 2 x) s) "" b.

(** ** Data *)

Inductive CarouselStatus : Type := waitingForDii | active | empty_ | resourceLimitExceeded | unsupported.
Inductive ModuleStatus : Type := announced | receiving | complete | rejected.

Record DataBroadcastModule : Type := MkBroadcastModule {
  dm_ComponentTag : Z;
  dm_ModuleID : Z;
  dm_DownloadID : Z;
  dm_Version : Z;
  dm_Size : Z;
  dm_Info : list Z;
  dm_Complete : bool;
  dm_Status : ModuleStatus;
  dm_RejectionReason : option rejection;
  dm_ReceivedBlocks : Z;
  dm_TotalBlocks : Z;
  dm_ETag : string;
  dm_Data : list Z;
  dm_Metadata : option DSMCCModuleMetadata
}.

Record DataBroadcastComponent : Type := MkBroadcastComponent {
  dc_ComponentTag : Z;
  dc_PID : Z;
  dc_StreamType : Z;
  dc_DataComponentID : option Z;
  dc_BXMLInfo : option AdditionalAribBXMLInfo;
  dc_DataEventID : Z;
  dc_ReturnToEntry : option bool;
  dc_CarouselStatus : CarouselStatus;
  dc_CarouselDownloadID : option Z;
  dc_CarouselBlockSize : option Z;
  dc_Modules : list DataBroadcastModule
}.

Record DataBroadcastPMT : Type := MkBroadcastPMT {
  dp_ServiceID : Z;
  dp_Version : Z;
  dp_PCRPID : Z;
  dp_Components : list DataBroadcastComponent;
  dp_RawSectionHex : string
}.

Record DataBroadcastModuleList : Type := MkModuleList {
  dl_ComponentTag : Z;
  dl_DownloadID : Z;
  dl_BlockSize : Z;
  dl_DataEventID : Z;
  dl_ReturnToEntry : option bool;
  dl_Modules : list DataBroadcastModule
}.

Record DataBroadcastProgramInfo : Type := MkProgramInfo {
  di_ServiceID : Z;
  di_EventIDs : list Z;
  di_RawSectionHex : string
}.

Record DataBroadcastGeneralEvent : Type := MkBroadcastGeneral {
  dg_Type : string;
  dg_EventMessageGroupID : Z;
  dg_TimeMode : Z;
  dg_TimeValueHex : string;
  dg_EventMessageType : Z;
  dg_EventMessageID : Z;
  dg_PrivateData : list Z;
  dg_EventMessageNPT : option Z;
  dg_NPTReference : option DSMCCNPTReference
}.

Record DataBroadcastESEvent : Type := MkESEvent {
  de_ComponentTag : Z;
  de_DataEventID : Z;
  de_EventMessageGroupID : Z;
  de_Version : Z;
  de_SectionNumber : Z;
  de_Events : list DataBroadcastGeneralEvent;
  de_RawSectionHex : string
}.

Record DataBroadcastPCR : Type := MkBroadcastPCR {
  PCRBase : Z;
  PCRExtension : Z
}.

Record DataBroadcastBroadcaster : Type := MkBroadcastBroadcaster {
  db_BroadcasterID : Z;
  db_BroadcasterName : option (list Z);
  db_Services : list ServiceListEntry;
  db_Affiliations : list Z;
  db_AffiliationBroadcasters : list AffiliatedBroadcaster;
  db_TerrestrialBroadcasterID : option Z
}.

Record DataBroadcastBIT : Type := MkBroadcastBIT {
  dbit_OriginalNetworkID : Z;
  dbit_Version : Z;
  dbit_Broadcasters : list DataBroadcastBroadcaster;
  dbit_RawSectionHex : string
}.

Record DataBroadcastSnapshot : Type := MkBroadcastSnapshot {
  ds_ServiceID : Z;
  ds_Revision : Z;
  ds_PMT : option DataBroadcastPMT;
  ds_Components : list DataBroadcastComponent;
  ds_ProgramInfo : option DataBroadcastProgramInfo;
  ds_CurrentTime : option Z;
  ds_BIT : option DataBroadcastBIT;
  ds_PCR : option DataBroadcastPCR
}.

(** The type of an event and the field that goes with it; the current time is in
    milliseconds. *)
Inductive broadcastData : Type :=
| PMTData (pmt : DataBroadcastPMT)
| ModuleListData (list : DataBroadcastModuleList)
| ModuleData (module : DataBroadcastModule)
| ProgramInfoData (info : DataBroadcastProgramInfo)
| CurrentTimeData (time : Z)
| ESEventData (event : DataBroadcastESEvent)
| BITData (bit : DataBroadcastBIT)
| PCRData (pcr : DataBroadcastPCR).

Record DataBroadcastEvent : Type := MkBroadcastEvent {
  be_Sequence : Z;
  be_Revision : Z;
  be_data : broadcastData
}.

Record dataBroadcastCarouselState : Type := MkCarouselState {
  cs_status : CarouselStatus;
  cs_downloadID : Z;
  cs_blockSize : Z
}.

Record dataBroadcastService : Type := MkBroadcastService {
  sv_pmt : option DataBroadcastPMT;
  sv_pmtSection : SectionBytes;
  sv_pidToTag : gmap Z Z;
  sv_carousels : gmap Z DSMCCCarousel;
  sv_diiSections : gmap Z SectionBytes;
  sv_carouselStates : gmap Z dataBroadcastCarouselState;
  sv_programInfo : option DataBroadcastProgramInfo;
  sv_currentTime : option Z;
  sv_pcr : option DataBroadcastPCR;
  sv_revision : Z;
  sv_sequence : Z
}.

Definition newBroadcastService : dataBroadcastService := MkBroadcastService None [] ∅ ∅ ∅ ∅ None None None 0 0.

(** A channel of a subscriber: its buffer, and for the specification the service,
    the snapshot the subscriber got and the sequence number it was taken at, and
    the events received. *)
Record eventChannel : Type := MkChannel {
  ch_buffer : list DataBroadcastEvent;
  ch_closed : bool;
  ch_service : Z;
  ch_start : DataBroadcastSnapshot;
  ch_base : Z;
  ch_taken : list DataBroadcastEvent
}.

(** [hb_subs] holds the [closed] flags of the subscribers. *)
Record DataBroadcastHub (S : Type) : Type := MkHub {
  hb_services : gmap Z dataBroadcastService;
  hb_subs : gmap Z (gmap Z bool);
  hb_bit : option DataBroadcastBIT;
  hb_channelType : string;
  hb_channelID : string;
  hb_moduleStore : option S;
  hb_channels : gmap Z eventChannel;
  hb_next : Z
}.
Arguments MkHub {S} _ _ _ _ _ _ _ _.
Arguments hb_services {S} _.
Arguments hb_subs {S} _.
Arguments hb_bit {S} _.
Arguments hb_channelType {S} _.
Arguments hb_channelID {S} _.
Arguments hb_moduleStore {S} _.
Arguments hb_channels {S} _.
Arguments hb_next {S} _.

Definition NewDataBroadcastHub {S} (channelType channelID : string) (store : option S) : DataBroadcastHub S :=
  MkHub ∅ ∅ None channelType channelID store ∅ 0.

(** ** Fields *)

Definition setCarousels (cs : gmap Z DSMCCCarousel) (s : dataBroadcastService) : dataBroadcastService :=
  MkBroadcastService (sv_pmt s) (sv_pmtSection s) (sv_pidToTag s) cs (sv_diiSections s) (sv_carouselStates s) (sv_programInfo s)
    (sv_currentTime s) (sv_pcr s) (sv_revision s) (sv_sequence s).
Definition setCarousel (tag : Z) (c : DSMCCCarousel) (s : dataBroadcastService) : dataBroadcastService :=
  setCarousels (<[tag := c]> (sv_carousels s)) s.
Definition setProgramInfo (info : DataBroadcastProgramInfo) (s : dataBroadcastService) : dataBroadcastService :=
  MkBroadcastService (sv_pmt s) (sv_pmtSection s) (sv_pidToTag s) (sv_carousels s) (sv_diiSections s) (sv_carouselStates s) (Some info)
    (sv_currentTime s) (sv_pcr s) (sv_revision s) (sv_sequence s).
Definition setCurrentTime (t : Z) (s : dataBroadcastService) : dataBroadcastService :=
  MkBroadcastService (sv_pmt s) (sv_pmtSection s) (sv_pidToTag s) (sv_carousels s) (sv_diiSections s) (sv_carouselStates s) (sv_programInfo s)
    (Some t) (sv_pcr s) (sv_revision s) (sv_sequence s).
Definition setPCR (pcr : DataBroadcastPCR) (s : dataBroadcastService) : dataBroadcastService :=
  MkBroadcastService (sv_pmt s) (sv_pmtSection s) (sv_pidToTag s) (sv_carousels s) (sv_diiSections s) (sv_carouselStates s) (sv_programInfo s)
    (sv_currentTime s) (Some pcr) (sv_revision s) (sv_sequence s).
Definition setCounters (revision sequence : Z) (s : dataBroadcastService) : dataBroadcastService :=
  MkBroadcastService (sv_pmt s) (sv_pmtSection s) (sv_pidToTag s) (sv_carousels s) (sv_diiSections s) (sv_carouselStates s) (sv_programInfo s)
    (sv_currentTime s) (sv_pcr s) revision sequence.

Definition setHubServices {S} (services : gmap Z dataBroadcastService) (h : DataBroadcastHub S) : DataBroadcastHub S :=
  MkHub services (hb_subs h) (hb_bit h) (hb_channelType h) (hb_channelID h) (hb_moduleStore h) (hb_channels h) (hb_next h).
Definition setService {S} (serviceID : Z) (s : dataBroadcastService) (h : DataBroadcastHub S) : DataBroadcastHub S :=
  setHubServices (<[serviceID := s]> (hb_services h)) h.
Definition setSubs {S} (subs : gmap Z (gmap Z bool)) (h : DataBroadcastHub S) : DataBroadcastHub S :=
  MkHub (hb_services h) subs (hb_bit h) (hb_channelType h) (hb_channelID h) (hb_moduleStore h) (hb_channels h) (hb_next h).
Definition setBIT {S} (bit : DataBroadcastBIT) (h : DataBroadcastHub S) : DataBroadcastHub S :=
  MkHub (hb_services h) (hb_subs h) (Some bit) (hb_channelType h) (hb_channelID h) (hb_moduleStore h) (hb_channels h) (hb_next h).
Definition setStore {S} (store : option S) (h : DataBroadcastHub S) : DataBroadcastHub S :=
  MkHub (hb_services h) (hb_subs h) (hb_bit h) (hb_channelType h) (hb_channelID h) store (hb_channels h) (hb_next h).
Definition setChannel {S} (ch : Z) (c : eventChannel) (h : DataBroadcastHub S) : DataBroadcastHub S :=
  MkHub (hb_services h) (hb_subs h) (hb_bit h) (hb_channelType h) (hb_channelID h) (hb_moduleStore h) (<[ch := c]> (hb_channels h)) (hb_next h).

(** [ch <- event], and [close(ch)] *)
Definition pushed (event : DataBroadcastEvent) (c : eventChannel) : eventChannel :=
  MkChannel (ch_buffer c ++ [event]) (ch_closed c) (ch_service c) (ch_start c) (ch_base c) (ch_taken c).
Definition shut (c : eventChannel) : eventChannel :=
  MkChannel (ch_buffer c) true (ch_service c) (ch_start c) (ch_base c) (ch_taken c).

(** ** Modules *)

(** In quotes. *)
Definition moduleETag (downloadID moduleID version size : Z) : string :=
  let quote := String.String (ascii_of_nat 34) "" in
  quote +:+ "dsmcc-" +:+ hexWord 8 downloadID +:+ "-" +:+ hexWord 4 moduleID +:+ "-" +:+ hexWord 2 version +:+ "-" +:+ hexWord 8 size +:+ quote.

Definition apiModule (componentTag : Z) (m : DSMCCModule) (includeData : bool) : outcome DataBroadcastModule :=
  metadata ← Metadata (MkModuleInfo 0 0 0 (m_Info m));
  Ret (MkBroadcastModule componentTag (m_ModuleID m) (m_DownloadID m) (m_Version m) (m_Size m) (m_Info m) true complete None 0 0
         (moduleETag (m_DownloadID m) (m_ModuleID m) (m_Version m) (m_Size m)) (if includeData then m_Data m else []) metadata).

Definition rejectedModule (componentTag downloadID : Z) (r : DSMCCModuleRejection) : outcome DataBroadcastModule :=
  let m := rj_Module r in
  metadata ← Metadata m;
  Ret (MkBroadcastModule componentTag (mi_ModuleID m) downloadID (mi_Version m) (mi_ModuleSize m) (mi_Info m) false rejected (Some (rj_Reason r)) 0 0
         (moduleETag downloadID (mi_ModuleID m) (mi_Version m) (mi_ModuleSize m)) [] metadata).

(** A module of the loop over [Announcements]. *)
Definition announcedModule (componentTag : Z) (a : DSMCCModuleAnnouncement) : outcome DataBroadcastModule :=
  m ← apiModule componentTag (an_Module a) false;
  Ret (MkBroadcastModule (dm_ComponentTag m) (dm_ModuleID m) (dm_DownloadID m) (dm_Version m) (dm_Size m) (dm_Info m) (an_Complete a)
         (if an_Complete a then complete else if 0 <? an_ReceivedBlocks a then receiving else announced) (dm_RejectionReason m)
         (an_ReceivedBlocks a) (an_TotalBlocks a) (dm_ETag m) (dm_Data m) (dm_Metadata m)).

(** The components [slices.SortFunc] returns: sorted by tag, the order of equal
    tags unspecified. *)
Definition byTag (a b : DataBroadcastComponent) : Prop := dc_ComponentTag a ≤ dc_ComponentTag b.

Class ComponentSort : Type := {
  sortComponents : list DataBroadcastComponent → list DataBroadcastComponent;
  sortComponents_perm l : sortComponents l ≡ₚ l;
  sortComponents_sorted l : Sorted byTag (sortComponents l)
}.

Definition stated (st : dataBroadcastCarouselState) (c : DataBroadcastComponent) : DataBroadcastComponent :=
  MkBroadcastComponent (dc_ComponentTag c) (dc_PID c) (dc_StreamType c) (dc_DataComponentID c) (dc_BXMLInfo c) (dc_DataEventID c)
    (dc_ReturnToEntry c) (cs_status st) (Some (cs_downloadID st)) (Some (cs_blockSize st)) (dc_Modules c).

Section Hub.
Context {S : Type} {store : ModuleStore S} {jis : ISO2022JP} {sorting : ComponentSort}.
Context {OS : RangeOrder dataBroadcastService} {OC : RangeOrder bool} {OG : RangeOrder (gmap Z bool)}.
Context {OM : RangeOrder dsmccModuleState} {OR : RangeOrder DSMCCModuleRejection} {OK : RangeOrder DSMCCCarousel}.

(** ** Events *)

Definition serviceLocked (serviceID : Z) (h : DataBroadcastHub S) : DataBroadcastHub S * dataBroadcastService :=
  match hb_services h !! serviceID with
  | Some s => (h, s)
  | None => (setService serviceID newBroadcastService h, newBroadcastService)
  end.

(** One subscriber of the loop of [broadcastLocked]: its channel takes the event or
    is closed.  A send to a closed channel and a second close would panic. *)
Definition offerEvent (serviceID : Z) (event : DataBroadcastEvent) (h : DataBroadcastHub S) (e : Z * bool) : outcome (DataBroadcastHub S) :=
  let '(ch, closed) := e in
  if closed : bool then Ret h
  else match hb_channels h !! ch with
       | None => Panic
       | Some c =>
           if ch_closed c then Panic
           else if len (ch_buffer c) <? dataBroadcastSubscriberBuffer then Ret (setChannel ch (pushed event c) h)
           else Ret (setChannel ch (shut c) (setSubs (alter (delete ch) serviceID (hb_subs h)) h))
       end.

Definition isPCR (data : broadcastData) : bool := match data with PCRData _ => true | _ => false end.

Definition broadcastLocked (serviceID : Z) (data : broadcastData) (h : DataBroadcastHub S) : outcome (DataBroadcastHub S) :=
  let '(h, service) := serviceLocked serviceID h in
  let revision := if isPCR data then sv_revision service else u64 (sv_revision service + 1) in
  let sequence := u64 (sv_sequence service + 1) in
  let h := setService serviceID (setCounters revision sequence service) h in
  foldM (offerEvent serviceID (MkBroadcastEvent sequence revision data)) (range (default ∅ (hb_subs h !! serviceID))) h.

(** ** Snapshots *)

Definition overlay (s : dataBroadcastService) (c : DataBroadcastComponent) : DataBroadcastComponent :=
  match sv_carouselStates s !! dc_ComponentTag c with
  | Some st => stated st c
  | None => c
  end.

Definition withModules (modules : list DataBroadcastModule) (c : DataBroadcastComponent) : DataBroadcastComponent :=
  MkBroadcastComponent (dc_ComponentTag c) (dc_PID c) (dc_StreamType c) (dc_DataComponentID c) (dc_BXMLInfo c) (dc_DataEventID c)
    (dc_ReturnToEntry c) (dc_CarouselStatus c) (dc_CarouselDownloadID c) (dc_CarouselBlockSize c) modules.

Definition appendTo {A} (f : A → outcome DataBroadcastModule) (modules : list DataBroadcastModule) (x : A) : outcome (list DataBroadcastModule) :=
  m ← f x; Ret (modules ++ [m]).

(** A component of a snapshot. *)
Definition snapshotComponent (s : dataBroadcastService) (c : DataBroadcastComponent) : outcome DataBroadcastComponent :=
  let c := overlay s c in
  match sv_carousels s !! dc_ComponentTag c with
  | None => Ret c
  | Some carousel =>
      modules ← foldM (appendTo (announcedModule (dc_ComponentTag c))) (Announcements carousel) (dc_Modules c);
      modules ← foldM (appendTo (rejectedModule (dc_ComponentTag c) (default 0 (dc_CarouselDownloadID c)))) (RejectedAnnouncements carousel) modules;
      Ret (withModules modules c)
  end.

Fixpoint snapshotComponents (s : dataBroadcastService) (l : list DataBroadcastComponent) : outcome (list DataBroadcastComponent) :=
  match l with
  | [] => Ret []
  | c :: l => c ← snapshotComponent s c; l ← snapshotComponents s l; Ret (c :: l)
  end.

Definition snapshotLocked (serviceID : Z) (h : DataBroadcastHub S) : outcome DataBroadcastSnapshot :=
  match hb_services h !! serviceID with
  | None => Ret (MkBroadcastSnapshot serviceID 0 None [] None None (hb_bit h) None)
  | Some s =>
      components ← match sv_pmt s with Some pmt => snapshotComponents s (dp_Components pmt) | None => Ret [] end;
      Ret (MkBroadcastSnapshot serviceID (sv_revision s) (sv_pmt s) components (sv_programInfo s) (sv_currentTime s) (hb_bit h) (sv_pcr s))
  end.

Definition Snapshot (serviceID : Z) (h : DataBroadcastHub S) : outcome DataBroadcastSnapshot := snapshotLocked serviceID h.

(** ** Subscribers *)

Definition Subscribe (serviceID : Z) (h : DataBroadcastHub S) : outcome (DataBroadcastHub S * (DataBroadcastSnapshot * Z)) :=
  let ch := hb_next h in
  snapshot ← snapshotLocked serviceID h;
  let base := match hb_services h !! serviceID with Some s => sv_sequence s | None => 0 end in
  let subs := <[serviceID := <[ch := false]> (default ∅ (hb_subs h !! serviceID))]> (hb_subs h) in
  Ret (MkHub (hb_services h) subs (hb_bit h) (hb_channelType h) (hb_channelID h) (hb_moduleStore h)
         (<[ch := MkChannel [] false serviceID snapshot base []]> (hb_channels h)) (ch + 1), (snapshot, ch)).

(** The function [unsubscribe] that [Subscribe] made for [ch]. *)
Definition unsubscribe (serviceID ch : Z) (h : DataBroadcastHub S) : outcome (DataBroadcastHub S) :=
  match default ∅ (hb_subs h !! serviceID) !! ch with
  | None => Ret h
  | Some closed =>
      let subs := alter (delete ch) serviceID (hb_subs h) in
      let subs := if decide (default ∅ (subs !! serviceID) = ∅) then delete serviceID subs else subs in
      let h := setSubs subs h in
      if closed : bool then Ret h
      else match hb_channels h !! ch with
           | Some c => if ch_closed c then Panic else Ret (setChannel ch (shut c) h)
           | None => Panic
           end
  end.

(** A subscriber takes an event out of its channel. *)
Definition receive (ch : Z) (h : DataBroadcastHub S) : DataBroadcastHub S :=
  match hb_channels h !! ch with
  | Some c =>
      match ch_buffer c with
      | event :: buffer =>
          setChannel ch (MkChannel buffer (ch_closed c) (ch_service c) (ch_start c) (ch_base c) (ch_taken c ++ [event])) h
      | [] => h
      end
  | None => h
  end.

(** ** Carousels of a PID *)

Fixpoint taggedService (pid : Z) (l : list (Z * dataBroadcastService)) : option (Z * dataBroadcastService * Z) :=
  match l with
  | [] => None
  | (serviceID, s) :: l => match sv_pidToTag s !! pid with Some tag => Some (serviceID, s, tag) | None => taggedService pid l end
  end.

Definition carouselByPIDLocked (pid : Z) (h : DataBroadcastHub S) : DataBroadcastHub S * option (Z * Z * DSMCCCarousel) :=
  match taggedService pid (range (hb_services h)) with
  | None => (h, None)
  | Some (serviceID, s, tag) =>
      match sv_carousels s !! tag with
      | Some carousel => (h, Some (serviceID, tag, carousel))
      | None => let carousel := NewDSMCCCarousel (MkLimits 0 0 0) in
                (setService serviceID (setCarousel tag carousel s) h, Some (serviceID, tag, carousel))
      end
  end.

(** The carousel is shared: what is done to it is seen by the service. *)
Definition storeCarousel (serviceID tag : Z) (carousel : DSMCCCarousel) (h : DataBroadcastHub S) : DataBroadcastHub S :=
  setHubServices (alter (setCarousel tag carousel) serviceID (hb_services h)) h.

(** ** Sections *)

Fixpoint streamIdentifierComponentTag (descriptors : list Descriptor) : outcome (option Z) :=
  match descriptors with
  | [] => Ret None
  | d :: ds =>
      found ← (t ← Tag d; Ret (t =? 0x52)) &&? (n ← Length d; Ret (1 <=? n));
      if found : bool then (data ← Data d; tag ← data![0]; Ret (Some tag)) else streamIdentifierComponentTag ds
  end.

Fixpoint dataComponentDescriptor (descriptors : list Descriptor) : outcome (option DataComponentDescriptor) :=
  match descriptors with
  | [] => Ret None
  | d :: ds => t ← Tag d; if negb (t =? DescriptorTagDataComponent) then dataComponentDescriptor ds else caught (ParseDataComponentDescriptor d)
  end.

Definition isAribBXMLDataComponent (id : Z) : bool := (id =? 0x0007) || (id =? 0x000b) || (id =? 0x000c) || (id =? 0x000d).

Definition componentTagExists (components : list DataBroadcastComponent) (tag : Z) : bool :=
  existsb (λ c, dc_ComponentTag c =? tag) components.

(** The loop over the elements of a PMT. *)
Definition pmtComponent (st : list DataBroadcastComponent * gmap Z Z) (elem : PMTElement) : outcome (list DataBroadcastComponent * gmap Z Z) :=
  let '(components, pidToTag) := st in
  if negb (StreamType elem =? StreamTypeDSMCCUNMessages) && negb (StreamType elem =? StreamTypeDSMCCDataCarousel) &&
     negb (StreamType elem =? StreamTypeDSMCCStreamDescriptors) then Ret st
  else
    tag ← streamIdentifierComponentTag (el_Descriptors elem);
    match tag with
    | None => Ret st
    | Some tag =>
        descriptor ← dataComponentDescriptor (el_Descriptors elem);
        '(id, bxml) ← match descriptor with
                      | None => Ret (None, None)
                      | Some d =>
                          bxml ← (if isAribBXMLDataComponent (DataComponentID d)
                                  then caught (ParseAdditionalAribBXMLInfo (AdditionalDataComponentInfo d)) else Ret None);
                          Ret (Some (DataComponentID d), bxml)
                      end;
        Ret (components ++ [MkBroadcastComponent tag (ElementaryPID elem) (StreamType elem) id bxml 0 None waitingForDii None None []],
             <[ElementaryPID elem := tag]> pidToTag)
    end.

(** The loops over the carousels. *)
Definition keepCarousels (components : list DataBroadcastComponent) (s : dataBroadcastService)
    : gmap Z DSMCCCarousel * gmap Z dataBroadcastCarouselState :=
  let '(carousels, states) := fold_left (λ st e, if componentTagExists components (fst e) then st else (delete (fst e) (fst st), delete (fst e) (snd st)))
    (range (sv_carousels s)) (sv_carousels s, sv_carouselStates s) in
  (fold_left (λ cs c, match cs !! dc_ComponentTag c with
                      | Some _ => cs
                      | None => <[dc_ComponentTag c := NewDSMCCCarousel (MkLimits 0 0 0)]> cs
                      end) components carousels, states).

Definition observePMT (section : PIDSection) (h : DataBroadcastHub S) : outcome (DataBroadcastHub S) :=
  pmt ← caught (ParsePMT (ps_Section section));
  match pmt with
  | None => Ret h
  | Some pmt =>
      '(components, pidToTag) ← foldM pmtComponent (pmt_Elements pmt) ([], ∅);
      let components := sortComponents components in
      let serviceID := pmt_ProgramNumber pmt in
      let '(h, service) := serviceLocked serviceID h in
      if bool_decide (sv_pmtSection service = ps_Section section) then Ret h
      else
        let value := MkBroadcastPMT serviceID (pmt_VersionNumber pmt) (pmt_PCRPID pmt) components (EncodeToString (ps_Section section)) in
        let '(carousels, states) := keepCarousels components service in
        let service := MkBroadcastService (Some value) (ps_Section section) pidToTag carousels (sv_diiSections service) states
                         (sv_programInfo service) (sv_currentTime service) (sv_pcr service) (sv_revision service) (sv_sequence service) in
        broadcastLocked serviceID (PMTData value) (setService serviceID service h)
  end.

Definition streamEvent (events : list DataBroadcastGeneralEvent) (d : Descriptor) : outcome (list DataBroadcastGeneralEvent) :=
  reference ← ParseDSMCCNPTReference d;
  match reference with
  | Some r => Ret (events ++ [MkBroadcastGeneral "nptReference" 0 0 "" 0 0 [] None (Some r)])
  | None =>
      item ← ParseDSMCCGeneralEvent d;
      match item with
      | None => Ret events
      | Some item =>
          let eventType := if ge_TimeMode item =? 0 then "immediateEvent" else if ge_TimeMode item =? 2 then "nptEvent" else "event" in
          npt ← EventMessageNPT item;
          Ret (events ++ [MkBroadcastGeneral eventType (ge_EventMessageGroupID item) (ge_TimeMode item) (EncodeToString (ge_TimeValue item))
                            (ge_EventMessageType item) (ge_EventMessageID item) (ge_PrivateData item) npt None])
      end
  end.

Definition observeES (section : PIDSection) (h : DataBroadcastHub S) : outcome (DataBroadcastHub S) :=
  stream ← caught (ParseDSMCCStream (ps_Section section));
  match stream with
  | None => Ret h
  | Some stream =>
      if negb (st_CurrentNext stream) then Ret h
      else
        let '(h, found) := carouselByPIDLocked (ps_PID section) h in
        match found with
        | None => Ret h
        | Some (serviceID, componentTag, _) =>
            events ← foldM streamEvent (st_Descriptors stream) [];
            broadcastLocked serviceID (ESEventData (MkESEvent componentTag (st_DataEventID stream) (st_EventMessageGroupID stream)
              (st_VersionNumber stream) (st_SectionNumber stream) events (EncodeToString (ps_Section section)))) h
        end
  end.

(** The private data of a DII is a list of descriptors; tag 0xf0 starts with the
    flag. *)
Definition returnToEntryBody (privateData : list Z) : outcome (list Z + option bool) :=
  if 2 <=? len privateData then
    tag ← privateData![0];
    length ← privateData![1];
    privateData ← privateData![2; len privateData];
    if len privateData <? length then break None
    else if (tag =? 0xf0) && (0 <? length) then b ← privateData![0]; break (Some (bit b 0x80))
    else privateData ← privateData![length; len privateData]; continue privateData
  else break None.

Definition diiReturnToEntry (privateData : list Z) : outcome (option bool) :=
  loop (Datatypes.S (length privateData)) returnToEntryBody privateData.

Definition carouselStatus (infos : list DSMCCModuleInfo) (rejections : list DSMCCModuleRejection) : CarouselStatus :=
  fold_left (λ status r,
    match rj_Reason r with
    | moduleSizeLimitExceeded | inFlightBudgetExceeded => resourceLimitExceeded
    | _ => match status with resourceLimitExceeded => status | _ => unsupported end
    end) rejections match infos with [] => empty_ | _ => active end.

(** The first component of the tag. *)
Fixpoint updateComponent (tag dataEventID : Z) (returnToEntry : option bool) (st : dataBroadcastCarouselState) (l : list DataBroadcastComponent)
    : list DataBroadcastComponent :=
  match l with
  | [] => []
  | c :: l =>
      if dc_ComponentTag c =? tag
      then MkBroadcastComponent (dc_ComponentTag c) (dc_PID c) (dc_StreamType c) (dc_DataComponentID c) (dc_BXMLInfo c) dataEventID returnToEntry
             (cs_status st) (Some (cs_downloadID st)) (Some (cs_blockSize st)) (dc_Modules c) :: l
      else c :: updateComponent tag dataEventID returnToEntry st l
  end.

Definition updatePMT (tag dataEventID : Z) (returnToEntry : option bool) (st : dataBroadcastCarouselState) (pmt : DataBroadcastPMT) : DataBroadcastPMT :=
  MkBroadcastPMT (dp_ServiceID pmt) (dp_Version pmt) (dp_PCRPID pmt) (updateComponent tag dataEventID returnToEntry st (dp_Components pmt))
    (dp_RawSectionHex pmt).

Definition moduleCacheKey (h : DataBroadcastHub S) (serviceID componentTag downloadID moduleID version size : Z) : ModuleCacheKey :=
  MkCacheKey (MkVersionKey (hb_channelType h) (hb_channelID h) serviceID componentTag downloadID moduleID version) size.

(** What the loop over the accepted modules changes. *)
Record announcing : Type := MkAnnouncing {
  ag_carousel : DSMCCCarousel;
  ag_store : option S;
  ag_modules : list DataBroadcastModule;
  ag_restored : list DataBroadcastModule
}.

Definition completedModule (m : DataBroadcastModule) : DataBroadcastModule :=
  MkBroadcastModule (dm_ComponentTag m) (dm_ModuleID m) (dm_DownloadID m) (dm_Version m) (dm_Size m) (dm_Info m) true complete (dm_RejectionReason m)
    (dm_TotalBlocks m) (dm_TotalBlocks m) (dm_ETag m) (dm_Data m) (dm_Metadata m).

Definition announceModule (h : DataBroadcastHub S) (serviceID tag : Z) (dii : DSMCCDII) (st : announcing) (info : DSMCCModuleInfo)
    : outcome announcing :=
  if dii_BlockSize dii =? 0 then Panic
  else
    metadata ← Metadata info;
    let m := MkBroadcastModule tag (mi_ModuleID info) (dii_DownloadID dii) (mi_Version info) (mi_ModuleSize info) (mi_Info info) false announced None
               0 (blockCount (mi_ModuleSize info) (dii_BlockSize dii))
               (moduleETag (dii_DownloadID dii) (mi_ModuleID info) (mi_Version info) (mi_ModuleSize info)) [] metadata in
    let missed s := MkAnnouncing (ag_carousel st) s (ag_modules st ++ [m]) (ag_restored st) in
    match ag_store st with
    | None => Ret (missed None)
    | Some s =>
        '(s, cached) ← get (moduleCacheKey h serviceID tag (dii_DownloadID dii) (mi_ModuleID info) (mi_Version info) (mi_ModuleSize info)) s;
        match cached with
        | None => Ret (missed (Some s))
        | Some cached =>
            '(carousel, ok) ← Restore cached (ag_carousel st);
            if ok : bool then
              api ← apiModule tag cached false;
              let carousel := if persistent then fst (ReleaseCompletedPayload (mi_ModuleID info) carousel) else carousel in
              Ret (MkAnnouncing carousel (Some s) (ag_modules st ++ [completedModule m]) (ag_restored st ++ [api]))
            else Ret (MkAnnouncing carousel (Some s) (ag_modules st ++ [m]) (ag_restored st))
        end
    end.

Definition observeDII (section : PIDSection) (h : DataBroadcastHub S) : outcome (DataBroadcastHub S) :=
  dii ← caught (ParseDSMCCDII (ps_Section section));
  match dii with
  | None => Ret h
  | Some dii =>
      let '(h, found) := carouselByPIDLocked (ps_PID section) h in
      match found with
      | None => Ret h
      | Some (serviceID, tag, carousel) =>
          match hb_services h !! serviceID with
          | None => Panic
          | Some service =>
              if bool_decide (default [] (sv_diiSections service !! tag) = ps_Section section) then Ret h
              else
                '(carousel, infos) ← ObserveDII dii carousel;
                let rejections := RejectedAnnouncements carousel in
                let state := MkCarouselState (carouselStatus infos rejections) (dii_DownloadID dii) (dii_BlockSize dii) in
                let dataEventID := u8 (Z.shiftr (dii_DownloadID dii) 28) in
                returnToEntry ← diiReturnToEntry (dii_PrivateData dii);
                st ← foldM (announceModule h serviceID tag dii) infos (MkAnnouncing carousel (hb_moduleStore h) [] []);
                modules ← foldM (appendTo (rejectedModule tag (dii_DownloadID dii))) rejections (ag_modules st);
                let service := MkBroadcastService (updatePMT tag dataEventID returnToEntry state <$> sv_pmt service) (sv_pmtSection service)
                  (sv_pidToTag service) (<[tag := ag_carousel st]> (sv_carousels service)) (<[tag := ps_Section section]> (sv_diiSections service))
                  (<[tag := state]> (sv_carouselStates service)) (sv_programInfo service) (sv_currentTime service) (sv_pcr service)
                  (sv_revision service) (sv_sequence service) in
                let h := setStore (ag_store st) (setService serviceID service h) in
                h ← broadcastLocked serviceID (ModuleListData (MkModuleList tag (dii_DownloadID dii) (dii_BlockSize dii) dataEventID returnToEntry modules)) h;
                foldM (λ h m, broadcastLocked serviceID (ModuleData m) h) (ag_restored st) h
          end
      end
  end.

Definition observeDDB (section : PIDSection) (h : DataBroadcastHub S) : outcome (DataBroadcastHub S) :=
  ddb ← caught (ParseDSMCCDDB (ps_Section section));
  match ddb with
  | None => Ret h
  | Some ddb =>
      let '(h, found) := carouselByPIDLocked (ps_PID section) h in
      match found with
      | None => Ret h
      | Some (serviceID, tag, carousel) =>
          '(carousel, r) ← ObserveDDBWithResult ddb carousel;
          let h := storeCarousel serviceID tag carousel h in
          match do_err r with
          | Some _ => Ret h
          | None =>
              if negb (do_complete r) then Ret h
              else match do_module r with
                   | None => Panic
                   | Some m =>
                       api ← apiModule tag m false;
                       h ← match hb_moduleStore h with
                           | None => Ret h
                           | Some s =>
                               '(s, ok) ← put (moduleCacheKey h serviceID tag (m_DownloadID m) (m_ModuleID m) (m_Version m) (m_Size m)) m s;
                               let h := setStore (Some s) h in
                               Ret (if (ok : bool) && persistent
                                    then storeCarousel serviceID tag (fst (ReleaseCompletedPayload (m_ModuleID m) carousel)) h else h)
                           end;
                       broadcastLocked serviceID (ModuleData api) h
                   end
          end
      end
  end.

(** A descriptor of a broadcaster. *)
Definition broadcasterDescriptor (b : DataBroadcastBroadcaster) (d : Descriptor) : outcome DataBroadcastBroadcaster :=
  tag ← Tag d;
  if tag =? DescriptorTagBroadcasterName then
    name ← caught (ParseBroadcasterNameDescriptor d);
    match name with
    | None => Ret b
    | Some name => Ret (MkBroadcastBroadcaster (db_BroadcasterID b) (Some name) (db_Services b) (db_Affiliations b) (db_AffiliationBroadcasters b)
                          (db_TerrestrialBroadcasterID b))
    end
  else if tag =? DescriptorTagServiceList then
    services ← caught (ParseServiceListDescriptor d);
    match services with
    | None => Ret b
    | Some services => Ret (MkBroadcastBroadcaster (db_BroadcasterID b) (db_BroadcasterName b) (db_Services b ++ services) (db_Affiliations b)
                              (db_AffiliationBroadcasters b) (db_TerrestrialBroadcasterID b))
    end
  else if tag =? DescriptorTagExtendedBroadcaster then
    extended ← caught (ParseExtendedBroadcasterDescriptor d);
    match extended with
    | None => Ret b
    | Some x =>
        Ret (MkBroadcastBroadcaster (db_BroadcasterID b) (db_BroadcasterName b) (db_Services b) (xb_AffiliationIDs x)
               (db_AffiliationBroadcasters b ++ xb_Broadcasters x)
               (if (xb_BroadcasterType x =? 1) || (xb_BroadcasterType x =? 2) then Some (xb_TerrestrialBroadcasterID x)
                else db_TerrestrialBroadcasterID b))
    end
  else Ret b.

Definition bitBroadcaster (l : list DataBroadcastBroadcaster) (source : BITBroadcaster) : outcome (list DataBroadcastBroadcaster) :=
  b ← foldM broadcasterDescriptor (bb_Descriptors source) (MkBroadcastBroadcaster (bb_BroadcasterID source) None [] [] [] None);
  Ret (l ++ [b]).

Definition observeBIT (section : SectionBytes) (h : DataBroadcastHub S) : outcome (DataBroadcastHub S) :=
  bit ← caught (ParseBIT section);
  match bit with
  | None => Ret h
  | Some bit =>
      if negb (bit_CurrentNext bit) then Ret h
      else
        broadcasters ← foldM bitBroadcaster (bit_Broadcasters bit) [];
        let value := MkBroadcastBIT (bit_OriginalNetworkID bit) (bit_VersionNumber bit) broadcasters (EncodeToString section) in
        let h := setBIT value h in
        foldM (λ h e, broadcastLocked (fst e) (BITData value) h) (range (hb_subs h)) h
  end.

Definition observeEIT (section : SectionBytes) (h : DataBroadcastHub S) : outcome (DataBroadcastHub S) :=
  eit ← caught (ParseEIT section);
  match eit with
  | None => Ret h
  | Some eit =>
      let serviceID := eit_ServiceID eit in
      let info := MkProgramInfo serviceID (map ev_EventID (eit_Events eit)) (EncodeToString section) in
      let '(h, service) := serviceLocked serviceID h in
      broadcastLocked serviceID (ProgramInfoData info) (setService serviceID (setProgramInfo info service) h)
  end.

(** The loops over the services write to the service the map holds. *)
Definition updateService (serviceID : Z) (f : dataBroadcastService → dataBroadcastService) (h : DataBroadcastHub S) : DataBroadcastHub S :=
  setHubServices (alter f serviceID (hb_services h)) h.

Definition observeTOT (section : SectionBytes) (h : DataBroadcastHub S) : outcome (DataBroadcastHub S) :=
  tot ← caught (ParseTOT section);
  match tot with
  | None => Ret h
  | Some tot =>
      let current := UnixMilli (tot_JSTTime tot) in
      foldM (λ h e, broadcastLocked (fst e) (CurrentTimeData current) (updateService (fst e) (setCurrentTime current) h)) (range (hb_services h)) h
  end.

Definition Observe (section : PIDSection) (h : DataBroadcastHub S) : outcome (DataBroadcastHub S) :=
  tableID ← TableID (ps_Section section);
  if tableID =? TableIDPMT then observePMT section h
  else if tableID =? TableIDDSMCCDII then observeDII section h
  else if tableID =? TableIDDSMCCDDB then observeDDB section h
  else if tableID =? TableIDDSMCCStream then observeES section h
  else if tableID =? TableIDBIT then observeBIT (ps_Section section) h
  else if (tableID =? TableIDEITPF0) || (tableID =? TableIDEITPF1) then observeEIT (ps_Section section) h
  else if tableID =? TableIDTOT then observeTOT (ps_Section section) h
  else Ret h.

Definition ObservePacket (packet : Packet) (h : DataBroadcastHub S) : outcome (DataBroadcastHub S) :=
  reference ← ProgramClockReference packet;
  match reference with
  | None => Ret h
  | Some (base, extension) =>
      pid ← PID packet;
      let pcr := MkBroadcastPCR base extension in
      foldM (λ h e,
        match sv_pmt (snd e) with
        | Some pmt => if dp_PCRPID pmt =? pid then broadcastLocked (fst e) (PCRData pcr) (updateService (fst e) (setPCR pcr) h) else Ret h
        | None => Ret h
        end) (range (hb_services h)) h
  end.

(** ** Requests *)

(** The Go method is [Module]. *)
Definition hubModule (serviceID componentTag moduleID : Z) (h : DataBroadcastHub S) : outcome (option DataBroadcastModule) :=
  match hb_services h !! serviceID with
  | None => Ret None
  | Some service =>
      match sv_carousels service !! componentTag with
      | None => Ret None
      | Some carousel =>
          match Module_ moduleID carousel with
          | None => Ret None
          | Some m => api ← apiModule componentTag m true; Ret (Some api)
          end
      end
  end.

Definition ModuleVersion (serviceID componentTag downloadID moduleID version : Z) (h : DataBroadcastHub S)
    : outcome (DataBroadcastHub S * option DataBroadcastModule) :=
  match hb_services h !! serviceID with
  | None => Ret (h, None)
  | Some service =>
      match sv_carousels service !! componentTag with
      | None => Ret (h, None)
      | Some carousel =>
          let live := match Module_ moduleID carousel with
                      | Some m => if (m_DownloadID m =? downloadID) && (m_Version m =? version) then Some m else None
                      | None => None
                      end in
          match live with
          | Some m => api ← apiModule componentTag m true; Ret (h, Some api)
          | None =>
              match hb_moduleStore h with
              | None => Ret (h, None)
              | Some s =>
                  '(s, cached) ← getVersion (VersionKey (moduleCacheKey h serviceID componentTag downloadID moduleID version 0)) s;
                  let h := setStore (Some s) h in
                  match cached with
                  | None => Ret (h, None)
                  | Some cached => api ← apiModule componentTag cached true; Ret (h, Some api)
                  end
              end
          end
      end
  end.

(** [path.Base] *)
Fixpoint dropSlashes (reversed : list Z) : list Z :=
  match reversed with
  | c :: l => if c =? 47 then dropSlashes l else reversed
  | [] => []
  end.
Fixpoint lastElement (reversed : list Z) : list Z :=
  match reversed with
  | c :: l => if c =? 47 then [] else lastElement l ++ [c]
  | [] => []
  end.
Definition pathBase (path : list Z) : list Z :=
  match path with
  | [] => [46]
  | _ => match dropSlashes (reverse path) with [] => [47] | l => lastElement l end
  end.

(** [strings.ToLower] as far as a comparison with ASCII text can tell: outside ASCII
    only U+0130 and U+212A have a lower case in ASCII. *)
Fixpoint toLower (s : list Z) : list Z :=
  match s with
  | 0xc4 :: 0xb0 :: l => 105 :: toLower l
  | 0xe2 :: 0x84 :: 0xaa :: l => 107 :: toLower l
  | c :: l => (if (65 <=? c) && (c <=? 90) then c + 32 else c) :: toLower l
  | [] => []
  end.

Definition asciiBytes (s : string) : list Z := map (λ c, Z.of_N (N_of_ascii c)) (Stdlib.Strings.String.list_ascii_of_string s).

Example entry_document : toLower (pathBase (asciiBytes "/40/Startup/Index.BML//")) = asciiBytes "index.bml".
Proof. reflexivity. Qed.

Definition DDBPriority (section : PIDSection) (h : DataBroadcastHub S) : outcome (DataBroadcastHub S * (Z * bool)) :=
  ddb ← caught (ParseDSMCCDDB (ps_Section section));
  match ddb with
  | None => Ret (h, (0, false))
  | Some ddb =>
      let '(h, found) := carouselByPIDLocked (ps_PID section) h in
      match found with
      | None => Ret (h, (0, false))
      | Some (_, _, carousel) =>
          match ModuleInfo (ddb_ModuleID ddb) carousel with
          | None => Ret (h, (0, false))
          | Some info =>
              if negb (mi_Version info =? ddb_ModuleVersion ddb) then Ret (h, (0, false))
              else
                metadata ← Metadata info;
                match metadata with
                | None => Ret (h, (0, false))
                | Some metadata =>
                    let priority := default 0 (md_CachingPriority metadata) in
                    let name := toLower (pathBase (md_Name metadata)) in
                    Ret (h, (priority, bool_decide (name = asciiBytes "index.bml") || bool_decide (name = asciiBytes "index.xhtml")))
                end
          end
      end
  end.

(** ** What happens to a hub *)

Inductive hubOp : Type :=
| Sees (section : PIDSection)
| Prioritizes (section : PIDSection)
| SeesPacket (packet : Packet)
| Subscribes (serviceID : Z)
| Unsubscribes (serviceID ch : Z)
| Receives (ch : Z)
| Requests (serviceID componentTag downloadID moduleID version : Z).

Definition perform (op : hubOp) (h : DataBroadcastHub S) : outcome (DataBroadcastHub S) :=
  match op with
  | Sees section => Observe section h
  | Prioritizes section => '(h, _) ← DDBPriority section h; Ret h
  | SeesPacket packet => ObservePacket packet h
  | Subscribes serviceID => '(h, _) ← Subscribe serviceID h; Ret h
  | Unsubscribes serviceID ch => unsubscribe serviceID ch h
  | Receives ch => Ret (receive ch h)
  | Requests serviceID componentTag downloadID moduleID version =>
      '(h, _) ← ModuleVersion serviceID componentTag downloadID moduleID version h; Ret h
  end.

End Hub.
