(* ===== verification/DataBroadcastHub.v ===== *)
(** * The hub of data broadcasting: theorems

    What the hub of [DataBroadcast] promises, whatever sections, packets,
    subscriptions and requests come in whatever order: it does not panic; a
    subscriber that applies the events of its channel to the snapshot it started
    from has the current snapshot but for the modules, and of these it has every one
    that is there in its lists and was told of every one that is complete; its channel
    gets every event of its service and is closed rather than missing one; and a
    module that is served has the content that was broadcast. *)

From stdpp Require Import functions.
From S2P Require Import Prelude Crc32 Packet Section AribTables Aribstr Descriptors Psi Events EventDescriptors TableSections Demux Dsmcc Carousel ModuleCache CarouselStates DataBroadcast.

(** ** The view of a client *)

(** Snapshots without their modules, which are not followed event by event: blocks
    that arrive and modules that are evicted change them silently.  What a client
    knows of the modules comes below. *)
Definition plain (s : DataBroadcastSnapshot) : DataBroadcastSnapshot :=
  MkBroadcastSnapshot (ds_ServiceID s) (ds_Revision s) (ds_PMT s) (map (withModules []) (ds_Components s)) (ds_ProgramInfo s) (ds_CurrentTime s)
    (ds_BIT s) (ds_PCR s).

(** A component of a new PMT keeps the state of the carousel that had its tag. *)
Definition retain (old : list DataBroadcastComponent) (c : DataBroadcastComponent) : DataBroadcastComponent :=
  match List.find (λ o, dc_ComponentTag o =? dc_ComponentTag c) old with
  | Some o =>
      match dc_CarouselDownloadID o, dc_CarouselBlockSize o with
      | Some downloadID, Some blockSize => withModules [] (stated (MkCarouselState (dc_CarouselStatus o) downloadID blockSize) c)
      | _, _ => withModules [] c
      end
  | None => withModules [] c
  end.

(** The status of a carousel, from the list of its modules. *)
Definition reasonStatus (status : CarouselStatus) (reason : option rejection) : CarouselStatus :=
  match reason with
  | None => status
  | Some moduleSizeLimitExceeded | Some inFlightBudgetExceeded => resourceLimitExceeded
  | Some _ => match status with resourceLimitExceeded => status | _ => unsupported end
  end.
Definition listStatus (reasons : list (option rejection)) : CarouselStatus :=
  fold_left reasonStatus reasons (if existsb (λ r, match r with None => true | Some _ => false end) reasons then active else empty_).

Definition listState (l : DataBroadcastModuleList) : dataBroadcastCarouselState :=
  MkCarouselState (listStatus (map dm_RejectionReason (dl_Modules l))) (dl_DownloadID l) (dl_BlockSize l).

Definition restate (tag : Z) (st : dataBroadcastCarouselState) (c : DataBroadcastComponent) : DataBroadcastComponent :=
  if dc_ComponentTag c =? tag then stated st c else c.

(** What a client does with an event. *)
Definition follow (s : DataBroadcastSnapshot) (e : DataBroadcastEvent) : DataBroadcastSnapshot :=
  let keep := MkBroadcastSnapshot (ds_ServiceID s) (be_Revision e) in
  match be_data e with
  | PMTData pmt =>
      keep (Some pmt) (map (retain (ds_Components s)) (dp_Components pmt)) (ds_ProgramInfo s) (ds_CurrentTime s) (ds_BIT s) (ds_PCR s)
  | ModuleListData l =>
      let st := listState l in
      keep (updatePMT (dl_ComponentTag l) (dl_DataEventID l) (dl_ReturnToEntry l) st <$> ds_PMT s)
        (map (restate (dl_ComponentTag l) st) (updateComponent (dl_ComponentTag l) (dl_DataEventID l) (dl_ReturnToEntry l) st (ds_Components s)))
        (ds_ProgramInfo s) (ds_CurrentTime s) (ds_BIT s) (ds_PCR s)
  | ModuleData _ | ESEventData _ => keep (ds_PMT s) (ds_Components s) (ds_ProgramInfo s) (ds_CurrentTime s) (ds_BIT s) (ds_PCR s)
  | ProgramInfoData info => keep (ds_PMT s) (ds_Components s) (Some info) (ds_CurrentTime s) (ds_BIT s) (ds_PCR s)
  | CurrentTimeData t => keep (ds_PMT s) (ds_Components s) (ds_ProgramInfo s) (Some t) (ds_BIT s) (ds_PCR s)
  | BITData bit => keep (ds_PMT s) (ds_Components s) (ds_ProgramInfo s) (ds_CurrentTime s) (Some bit) (ds_PCR s)
  | PCRData pcr => keep (ds_PMT s) (ds_Components s) (ds_ProgramInfo s) (ds_CurrentTime s) (ds_BIT s) (Some pcr)
  end.

(** The snapshot of a service without its modules. *)
Definition componentsOf (s : dataBroadcastService) : list DataBroadcastComponent := from_option dp_Components [] (sv_pmt s).
Definition viewOf (bit : option DataBroadcastBIT) (serviceID : Z) (s : dataBroadcastService) : DataBroadcastSnapshot :=
  MkBroadcastSnapshot serviceID (sv_revision s) (sv_pmt s) (map (λ c, withModules [] (overlay s c)) (componentsOf s)) (sv_programInfo s)
    (sv_currentTime s) bit (sv_pcr s).

(** *** The modules a client knows

    Modules are told apart by their identity, and a refused one from an accepted one
    by the reason. *)
Definition sameModule (x m : DataBroadcastModule) : Prop :=
  dm_ModuleID x = dm_ModuleID m ∧ dm_DownloadID x = dm_DownloadID m ∧ dm_Version x = dm_Version m ∧ dm_Size x = dm_Size m ∧
  dm_RejectionReason x = dm_RejectionReason m.

#[global] Instance rejection_eq_dec : EqDecision rejection.
Proof. solve_decision. Defined.
#[global] Instance sameModule_dec x m : Decision (sameModule x m).
Proof. unfold sameModule. apply _. Defined.
#[global] Instance sameModule_equiv : Equivalence sameModule.
Proof. unfold sameModule. split; [done | intros x y; naive_solver | intros x y z; naive_solver congruence]. Qed.

(** How a snapshot shows a module of a carousel, and one that was refused; the
    metadata aside. *)
Definition stateModule (tag : Z) (s : dsmccModuleState) : DataBroadcastModule :=
  let i := ms_info s in
  MkBroadcastModule tag (mi_ModuleID i) (ms_downloadID s) (mi_Version i) (mi_ModuleSize i) (mi_Info i) (ms_completed s)
    (if ms_completed s then complete else if 0 <? ms_count s then receiving else announced) None (ms_count s)
    (if ms_completed s then ms_count s else len (ms_received s)) (moduleETag (ms_downloadID s) (mi_ModuleID i) (mi_Version i) (mi_ModuleSize i)) [] None.
Definition refusedModule (tag downloadID : Z) (r : DSMCCModuleRejection) : DataBroadcastModule :=
  let i := rj_Module r in
  MkBroadcastModule tag (mi_ModuleID i) downloadID (mi_Version i) (mi_ModuleSize i) (mi_Info i) false rejected (Some (rj_Reason r)) 0 0
    (moduleETag downloadID (mi_ModuleID i) (mi_Version i) (mi_ModuleSize i)) [] None.
Definition withoutMetadata (m : DataBroadcastModule) : DataBroadcastModule :=
  MkBroadcastModule (dm_ComponentTag m) (dm_ModuleID m) (dm_DownloadID m) (dm_Version m) (dm_Size m) (dm_Info m) (dm_Complete m) (dm_Status m)
    (dm_RejectionReason m) (dm_ReceivedBlocks m) (dm_TotalBlocks m) (dm_ETag m) (dm_Data m) None.

(** The list of a component as the client has it: the last one it was sent, with the
    modules that were completed since. *)
Definition modulesOf (tag : Z) (l : list DataBroadcastComponent) : list DataBroadcastModule :=
  concat (map dc_Modules (filter (λ c, dc_ComponentTag c = tag) l)).
Definition hearModule (m x : DataBroadcastModule) : DataBroadcastModule := if decide (sameModule x m) then completedModule x else x.
Definition hears (tag : Z) (l : list DataBroadcastModule) (e : DataBroadcastEvent) : list DataBroadcastModule :=
  match be_data e with
  | ModuleListData list => if dl_ComponentTag list =? tag then dl_Modules list else l
  | ModuleData m => if dm_ComponentTag m =? tag then map (hearModule m) l else l
  | _ => l
  end.
Definition heard (tag : Z) (start : DataBroadcastSnapshot) (events : list DataBroadcastEvent) : list DataBroadcastModule :=
  fold_left (hears tag) events (modulesOf tag (ds_Components start)).

(** And all that it was ever sent of the modules of the component. *)
Definition mentions (tag : Z) (e : DataBroadcastEvent) : list DataBroadcastModule :=
  match be_data e with
  | ModuleListData list => if dl_ComponentTag list =? tag then dl_Modules list else []
  | ModuleData m => if dm_ComponentTag m =? tag then [m] else []
  | _ => []
  end.
Definition told (tag : Z) (start : DataBroadcastSnapshot) (events : list DataBroadcastEvent) : list DataBroadcastModule :=
  modulesOf tag (ds_Components start) ++ concat (map (mentions tag) events).

(** Every module of the carousel is in the client's list; those that are complete it
    was told to be complete, and no other is complete in its list; every refused one
    is in the list with the reason. *)
Record knowsCarousel (tag : Z) (st : option dataBroadcastCarouselState) (c : DSMCCCarousel) (current all : list DataBroadcastModule) : Prop := {
  kc_listed id s : c_modules c !! id = Some s → ∃ x, x ∈ current ∧ sameModule x (stateModule tag s);
  kc_told id s : c_modules c !! id = Some s → ms_completed s = true → ∃ x, x ∈ all ∧ sameModule x (stateModule tag s) ∧ dm_Complete x = true;
  kc_sound id s x : c_modules c !! id = Some s → x ∈ current → sameModule x (stateModule tag s) → dm_Complete x = true → ms_completed s = true;
  kc_refused id r : c_rejected c !! id = Some r → ∃ x, x ∈ current ∧ sameModule x (refusedModule tag (from_option cs_downloadID 0 st) r)
}.
Definition modulesKnown (s : dataBroadcastService) (start : DataBroadcastSnapshot) (events : list DataBroadcastEvent) : Prop :=
  ∀ tag c, sv_carousels s !! tag = Some c → knowsCarousel tag (sv_carouselStates s !! tag) c (heard tag start events) (told tag start events).

(** What the subscriber knows of its service from its snapshot and its events. *)
Definition known (bit : option DataBroadcastBIT) (serviceID : Z) (s : dataBroadcastService) (start : DataBroadcastSnapshot)
    (events : list DataBroadcastEvent) : Prop :=
  viewOf bit serviceID s = fold_left follow events (plain start) ∧ modulesKnown s start events.

(** The events of a channel, those taken out of it first. *)
Definition sent (c : eventChannel) : list DataBroadcastEvent := ch_taken c ++ ch_buffer c.

(** *** What becomes of that knowledge *)

Lemma heard_snoc tag start es e : heard tag start (es ++ [e]) = hears tag (heard tag start es) e.
Proof. unfold heard. by rewrite fold_left_app. Qed.
Lemma told_snoc tag start es e : told tag start (es ++ [e]) = told tag start es ++ mentions tag e.
Proof. unfold told. rewrite map_app, concat_app, app_assoc. cbn. by rewrite app_nil_r. Qed.

Lemma sameModule_state tag s s' : ms_info s' = ms_info s → ms_downloadID s' = ms_downloadID s → sameModule (stateModule tag s) (stateModule tag s').
Proof. unfold sameModule. cbn. by intros -> ->. Qed.

Lemma hearModule_same m x : sameModule (hearModule m x) x.
Proof. unfold hearModule. by case_decide. Qed.

Lemma knows_told tag st c cur all all' : all ⊆ all' → knowsCarousel tag st c cur all → knowsCarousel tag st c cur all'.
Proof.
  intros Hsub [K1 K2 K3 K4]. split; try done. intros id s Hs Hc. destruct (K2 id s Hs Hc) as (x & Hx & H). exists x. split; [by apply Hsub | done].
Qed.

Lemma knows_new tag st cur all : knowsCarousel tag st (NewDSMCCCarousel (MkLimits 0 0 0)) cur all.
Proof. split; intros id s; cbn; rewrite lookup_empty; done. Qed.

(** The modules go on, one that has become complete is announced. *)
Lemma knows_module tag st c c' new m cur all : knowsCarousel tag st c cur all → descends new c c' → c_rejected c' = c_rejected c →
  dm_Complete m = true → (∀ s, new s → sameModule m (stateModule tag s)) →
  (∀ id s, c_modules c' !! id = Some s → sameModule m (stateModule tag s) → ms_completed s = true) →
  knowsCarousel tag st c' (map (hearModule m) cur) (all ++ [m]).
Proof.
  intros [K1 K2 K3 K4] Hd Hr Hm Hnew Hdone.
  assert (∀ y, (∃ x, x ∈ cur ∧ sameModule x y) → ∃ x, x ∈ map (hearModule m) cur ∧ sameModule x y) as Hmap.
  { intros y (x & Hx & H). exists (hearModule m x). split; [by apply list_elem_of_fmap_2 |]. by rewrite hearModule_same. }
  split.
  - intros id s' Hs'. destruct (Hd id s' Hs') as (s & Hs & E1 & E2 & _). apply Hmap. destruct (K1 id s Hs) as (x & Hx & H). exists x. split; [done |].
    etrans; [exact H | by apply sameModule_state].
  - intros id s' Hs' Hc'. destruct (Hd id s' Hs') as (s & Hs & E1 & E2 & _ & [Hc | Hn]); [done | |].
    + destruct (K2 id s Hs Hc) as (x & Hx & H & Hxc). exists x. split_and!; [apply elem_of_app; by left | | done].
      etrans; [exact H | by apply sameModule_state].
    + exists m. split_and!; [apply elem_of_app; right; by left | by apply Hnew | done].
  - intros id s' x' Hs' Hx' Hsame Hxc. apply list_elem_of_fmap in Hx' as (x & -> & Hx). unfold hearModule in *. case_decide as Hmx.
    + apply (Hdone id s' Hs'). etrans; [symmetry; exact Hmx | exact Hsame].
    + destruct (Hd id s' Hs') as (s & Hs & E1 & E2 & Hdone' & _). apply Hdone', (K3 id s x Hs Hx); [| done].
      etrans; [exact Hsame | by apply sameModule_state].
  - intros id r Hir. rewrite Hr in Hir. apply Hmap. by apply (K4 id).
Qed.

Lemma knows_descends tag st c c' cur all : knowsCarousel tag st c cur all → descends (λ _, False) c c' → c_rejected c' = c_rejected c →
  knowsCarousel tag st c' cur all.
Proof.
  intros [K1 K2 K3 K4] Hd Hr. split.
  - intros id s' Hs'. destruct (Hd id s' Hs') as (s & Hs & E1 & E2 & _). destruct (K1 id s Hs) as (x & Hx & H). exists x. split; [done |].
    etrans; [exact H | by apply sameModule_state].
  - intros id s' Hs' Hc'. destruct (Hd id s' Hs') as (s & Hs & E1 & E2 & _ & [Hc | []]); [done |]. destruct (K2 id s Hs Hc) as (x & Hx & H & Hxc).
    exists x. split_and!; [done | | done]. etrans; [exact H | by apply sameModule_state].
  - intros id s' x Hs' Hx H Hxc. destruct (Hd id s' Hs') as (s & Hs & E1 & E2 & Hdone & _). apply Hdone, (K3 id s x Hs Hx); [| done].
    etrans; [exact H | by apply sameModule_state].
  - intros id r Hir. rewrite Hr in Hir. by apply (K4 id).
Qed.

(** An event about something else. *)
Definition isModuleData (data : broadcastData) : bool := match data with ModuleListData _ | ModuleData _ => true | _ => false end.

Lemma known_other s s' start es e : modulesKnown s start es → isModuleData (be_data e) = false →
  sv_carousels s' = sv_carousels s → sv_carouselStates s' = sv_carouselStates s → modulesKnown s' start (es ++ [e]).
Proof.
  intros Hk He E1 E2 tag c Hc. rewrite E1 in Hc. rewrite E2, heard_snoc, told_snoc. unfold hears, mentions.
  by destruct (be_data e); try done; rewrite app_nil_r; apply Hk.
Qed.

(** ** Channels *)

Section Channels.
Context {S : Type}.

Definition serviceOf (serviceID : Z) (h : DataBroadcastHub S) : dataBroadcastService := default newBroadcastService (hb_services h !! serviceID).
Definition view (h : DataBroadcastHub S) (serviceID : Z) : DataBroadcastSnapshot := viewOf (hb_bit h) serviceID (serviceOf serviceID h).
Definition knownTo (h : DataBroadcastHub S) (serviceID : Z) : DataBroadcastSnapshot → list DataBroadcastEvent → Prop :=
  known (hb_bit h) serviceID (serviceOf serviceID h).
Definition sequenceOf (h : DataBroadcastHub S) (serviceID : Z) : Z := sv_sequence (serviceOf serviceID h).
Definition subscribed (h : DataBroadcastHub S) (serviceID ch : Z) : option bool := default ∅ (hb_subs h !! serviceID) !! ch.

Record channel_ok (knows : Z → DataBroadcastSnapshot → list DataBroadcastEvent → Prop) (sequences : Z → Z) (c : eventChannel) : Prop := {
  cc_room : len (ch_buffer c) ≤ dataBroadcastSubscriberBuffer;
  cc_numbers : ∀ i e, sent c !! i = Some e → be_Sequence e = u64 (ch_base c + 1 + Z.of_nat i);
  cc_sequence : ch_closed c = false → sequences (ch_service c) = u64 (ch_base c + len (sent c));
  cc_knows : ch_closed c = false → knows (ch_service c) (ch_start c) (sent c)
}.

Record channels_ok (knows : Z → DataBroadcastSnapshot → list DataBroadcastEvent → Prop) (sequences : Z → Z) (h : DataBroadcastHub S) : Prop := {
  co_subs serviceID ch b : subscribed h serviceID ch = Some b →
    b = false ∧ ∃ c, hb_channels h !! ch = Some c ∧ ch_closed c = false ∧ ch_service c = serviceID;
  co_open ch c : hb_channels h !! ch = Some c → ch_closed c = false → subscribed h (ch_service c) ch = Some false;
  co_next ch c : hb_channels h !! ch = Some c → ch < hb_next h;
  co_channel ch c : hb_channels h !! ch = Some c → channel_ok knows sequences c
}.

(** Only the services of open channels matter. *)
Lemma channels_ok_knows (knows knows' : Z → DataBroadcastSnapshot → list DataBroadcastEvent → Prop) sequences sequences' h h' :
  channels_ok knows sequences h →
  hb_subs h' = hb_subs h → hb_channels h' = hb_channels h → hb_next h' = hb_next h →
  (∀ serviceID ch, is_Some (subscribed h serviceID ch) →
    (∀ start es, knows serviceID start es → knows' serviceID start es) ∧ sequences' serviceID = sequences serviceID) →
  channels_ok knows' sequences' h'.
Proof.
  intros [H1 H2 H3 H4] Es Ec En Hv. split; unfold subscribed in *; rewrite ?Es, ?Ec, ?En; try done.
  intros ch c Hc. destruct (H4 ch c Hc) as [C1 C2 C3 C4].
  assert (ch_closed c = false → (∀ start es, knows (ch_service c) start es → knows' (ch_service c) start es) ∧
    sequences' (ch_service c) = sequences (ch_service c)) as Hvc.
  { intros Ho. apply (Hv _ ch). rewrite (H2 ch c Hc Ho). by eexists. }
  split; try done; intros Ho; destruct (Hvc Ho) as [E1 E2]; rewrite ?E2; auto.
Qed.

(** Everything but the subscribers. *)
Record kept (h h' : DataBroadcastHub S) : Prop := {
  kp_services : hb_services h' = hb_services h;
  kp_bit : hb_bit h' = hb_bit h;
  kp_type : hb_channelType h' = hb_channelType h;
  kp_id : hb_channelID h' = hb_channelID h;
  kp_store : hb_moduleStore h' = hb_moduleStore h;
  kp_next : hb_next h' = hb_next h
}.

Definition roomFor (c : eventChannel) : bool := len (ch_buffer c) <? dataBroadcastSubscriberBuffer.
Definition offered (e : DataBroadcastEvent) (c : eventChannel) : eventChannel := if roomFor c then pushed e c else shut c.
Definition fullChannel (h : DataBroadcastHub S) (ch : Z) : bool := match hb_channels h !! ch with Some c => negb (roomFor c) | None => false end.

Lemma subscribed_delete h sid ch s k : default ∅ (alter (delete ch) sid (hb_subs h) !! s) !! k =
  if decide (s = sid ∧ k = ch) then None else subscribed h s k.
Proof.
  unfold subscribed. destruct (decide (s = sid)) as [-> | Hs].
  - rewrite lookup_alter_eq. destruct (hb_subs h !! sid) as [m |]; cbn; [| rewrite lookup_empty; by case_decide].
    destruct (decide (k = ch)) as [-> | Hk]; [rewrite lookup_delete_eq, decide_True by done; done |].
    rewrite lookup_delete_ne, decide_False by naive_solver. done.
  - rewrite lookup_alter_ne, decide_False by naive_solver. done.
Qed.

Lemma offers_ok sid e l : ∀ h, NoDup l.*1 →
  (∀ ch b, (ch, b) ∈ l → b = false ∧ ∃ c, hb_channels h !! ch = Some c ∧ ch_closed c = false) →
  returns (foldM (offerEvent sid e) l h) (λ h', kept h h' ∧
    (∀ ch, hb_channels h' !! ch = (if decide (ch ∈ l.*1) then offered e else id) <$> hb_channels h !! ch) ∧
    ∀ s ch, subscribed h' s ch = if decide (s = sid ∧ ch ∈ l.*1 ∧ fullChannel h ch = true) then None else subscribed h s ch).
Proof.
  induction l as [| [ch b] l IH]; intros h Hnd Hl; cbn [foldM].
  { apply safe_ret. split; [by split |]. split.
    - intros ch. rewrite decide_False by apply not_elem_of_nil. by rewrite option_fmap_id.
    - intros s ch. rewrite decide_False; [done |]. intros (_ & H & _). by apply elem_of_nil in H. }
  cbn [fmap list_fmap fst] in Hnd |- *. apply NoDup_cons in Hnd as [Hch Hnd]. destruct (Hl ch b) as (-> & c & Hc & Ho); [by left |].
  assert (∀ h1, kept h h1 → hb_channels h1 = <[ch := offered e c]> (hb_channels h) →
    (∀ s k, subscribed h1 s k = if decide (s = sid ∧ k = ch ∧ roomFor c = false) then None else subscribed h s k) →
    returns (foldM (offerEvent sid e) l h1) (λ h', kept h h' ∧
      (∀ k, hb_channels h' !! k = (if decide (k ∈ ch :: l.*1) then offered e else id) <$> hb_channels h !! k) ∧
      ∀ s k, subscribed h' s k = if decide (s = sid ∧ k ∈ ch :: l.*1 ∧ fullChannel h k = true) then None else subscribed h s k)) as Hnext.
  { intros h1 Hk E1 Hs1. assert (∀ k, k ≠ ch → hb_channels h1 !! k = hb_channels h !! k) as Hne by (intros k Hk'; by rewrite E1, lookup_insert_ne).
    eapply safe_mono; [apply (IH h1 Hnd) |].
    - intros k b Hk'. destruct (Hl k b) as (-> & c' & Hc' & Ho'); [by right |]. split; [done |]. exists c'. rewrite Hne; [done |].
      intros ->. apply Hch, list_elem_of_fmap. by exists (ch, false).
    - intros h' (Hk' & Hc' & Hs'). split; [| split].
      + destruct Hk, Hk'. split; congruence.
      + intros k. rewrite Hc'. destruct (decide (k = ch)) as [-> | Hkc].
        * rewrite (decide_False (P := ch ∈ l.*1)) by done. rewrite (decide_True (P := ch ∈ ch :: _)) by (by left).
          rewrite E1, lookup_insert_eq, Hc. done.
        * rewrite Hne by done. destruct (decide (k ∈ l.*1)) as [Hin | Hin]; [rewrite decide_True by (by right); done |].
          rewrite decide_False; [done |]. by intros [? | ?]%elem_of_cons.
      + intros s k. rewrite Hs', Hs1. unfold fullChannel. destruct (decide (k = ch)) as [-> | Hkc].
        * rewrite (decide_False (P := s = sid ∧ ch ∈ l.*1 ∧ _)) by naive_solver. rewrite Hc.
          destruct (decide (s = sid ∧ ch = ch ∧ roomFor c = false)) as [(-> & _ & Hr) | Hn].
          -- rewrite decide_True; [done |]. split_and!; [done | by left | by rewrite Hr].
          -- rewrite decide_False; [done |]. intros (-> & _ & Hr). apply Hn. by destruct (roomFor c).
        * rewrite Hne by done. rewrite (decide_False (P := s = sid ∧ k = ch ∧ _)) by naive_solver.
          apply decide_ext. split; intros (? & ? & ?); (split_and!; [done | | done]); [by right |]. by apply elem_of_cons in H0 as [? | ?]. }
  apply safe_bind. cbn [offerEvent]. rewrite Hc, Ho. unfold offered, roomFor in Hnext.
  destruct (len (ch_buffer c) <? dataBroadcastSubscriberBuffer) eqn:E; apply safe_ret; apply Hnext; try done.
  - intros s k. rewrite decide_False by naive_solver. done.
  - intros s k. change (subscribed (setChannel ch (shut c) (setSubs (alter (delete ch) sid (hb_subs h)) h)) s k) with
      (default ∅ (alter (delete ch) sid (hb_subs h) !! s) !! k). rewrite subscribed_delete.
    apply decide_ext. naive_solver.
Qed.

End Channels.

(** ** Broadcasts *)

Section Broadcasts.
Context {S : Type} {OC : RangeOrder bool}.
Implicit Types h : DataBroadcastHub S.

Definition revised (data : broadcastData) (s : dataBroadcastService) : Z :=
  if isPCR data then sv_revision s else u64 (sv_revision s + 1).
Definition numbered (data : broadcastData) (s : dataBroadcastService) : DataBroadcastEvent :=
  MkBroadcastEvent (u64 (sv_sequence s + 1)) (revised data s) data.
Definition counted (data : broadcastData) (s : dataBroadcastService) : dataBroadcastService :=
  setCounters (revised data s) (u64 (sv_sequence s + 1)) s.

(** What is known after an event. *)
Definition after (e : DataBroadcastEvent) (knows : DataBroadcastSnapshot → list DataBroadcastEvent → Prop)
    (start : DataBroadcastSnapshot) (es : list DataBroadcastEvent) : Prop := ∃ before, es = before ++ [e] ∧ knows start before.

(** The channels of the service take the event or are closed, the others are not
    concerned. *)
Lemma offered_channel_ok knows sequences e c : channel_ok knows sequences c → ch_closed c = false →
  be_Sequence e = u64 (sequences (ch_service c) + 1) →
  channel_ok (<[ch_service c := after e (knows (ch_service c))]> knows) (<[ch_service c := u64 (sequences (ch_service c) + 1)]> sequences) (offered e c).
Proof.
  intros [C1 C2 C3 C4] Ho He. unfold offered. destruct (roomFor c) eqn:Hr; [| by split].
  unfold roomFor in Hr. assert (sent (pushed e c) = sent c ++ [e]) as Es by (unfold sent; cbn; by rewrite app_assoc).
  split; rewrite ?Es; cbn [pushed ch_buffer ch_closed ch_service ch_start ch_base].
  - rewrite len_app, len_cons, len_nil. bools. lia.
  - intros i x Hx. apply lookup_snoc_Some in Hx as [[_ Hx] | [-> <-]]; [by apply C2 |].
    rewrite He, (C3 Ho). unfold u64, len. rewrite Zplus_mod_idemp_l. f_equal. lia.
  - intros _. rewrite fn_lookup_insert, len_app, len_cons, len_nil, (C3 Ho). unfold u64. rewrite Zplus_mod_idemp_l. f_equal. lia.
  - intros _. rewrite fn_lookup_insert. exists (sent c). auto.
Qed.

Lemma other_channel_ok knows sequences sid k n c : channel_ok knows sequences c → (ch_closed c = false → ch_service c ≠ sid) →
  channel_ok (<[sid := k]> knows) (<[sid := n]> sequences) c.
Proof. intros [C1 C2 C3 C4] Hne. split; try done; intros Ho; rewrite fn_lookup_insert_ne by (symmetry; auto); auto. Qed.

(** The event goes to every subscriber of the service, and its channel says so. *)
Lemma broadcast_ok knows sequences sid data h : channels_ok knows sequences h → sequences sid = sequenceOf h sid →
  returns (broadcastLocked sid data h) (λ h',
    kept (setService sid (counted data (serviceOf sid h)) h) h' ∧ (∀ s ch, is_Some (subscribed h' s ch) → is_Some (subscribed h s ch)) ∧
    channels_ok (<[sid := after (numbered data (serviceOf sid h)) (knows sid)]> knows)
      (<[sid := u64 (sequenceOf h sid + 1)]> sequences) h').
Proof.
  intros Hch Hseq. unfold broadcastLocked, serviceLocked.
  assert ((match hb_services h !! sid with Some s => (h, s) | None => (setService sid newBroadcastService h, newBroadcastService) end) =
    (match hb_services h !! sid with Some _ => h | None => setService sid newBroadcastService h end, serviceOf sid h)) as ->
    by (unfold serviceOf; by destruct (hb_services h !! sid)).
  set (h0 := match hb_services h !! sid with Some _ => h | None => _ end).
  change (MkBroadcastEvent (u64 (sv_sequence (serviceOf sid h) + 1)) _ data) with (numbered data (serviceOf sid h)).
  change (setCounters _ _ (serviceOf sid h)) with (counted data (serviceOf sid h)). set (s' := counted data _). set (e := numbered data _).
  assert (setService sid s' h0 = setService sid s' h) as -> by (unfold h0; destruct (hb_services h !! sid); [done |];
    unfold setService, setHubServices; cbn; by rewrite insert_insert_eq).
  change (hb_subs (setService sid s' h)) with (hb_subs h). set (h1 := setService sid s' h). set (l := range _).
  assert (∀ ch b, (ch, b) ∈ l ↔ subscribed h sid ch = Some b) as Hl by (intros ch b; unfold l; by rewrite range_elem).
  assert (∀ ch, ch ∈ l.*1 ↔ is_Some (subscribed h sid ch)) as Hl1.
  { intros ch. split.
    - intros ([k b] & -> & Hin)%list_elem_of_fmap. apply Hl in Hin. by exists b.
    - intros [b Hb]. apply list_elem_of_fmap. exists (ch, b). split; [done | by apply Hl]. }
  pose proof Hch as [H1 H2 H3 H4].
  eapply safe_mono; [apply (offers_ok sid e l h1) |].
  - unfold l. rewrite range_perm. apply NoDup_fst_map_to_list.
  - intros ch b Hin%Hl. destruct (H1 _ _ _ Hin) as (-> & c & Hc & Ho & _). split; [done | by exists c].
  - intros h' (Hk & Hc' & Hs'). split; [done |]. split; [intros s ch; rewrite Hs'; case_decide; [by intros [? ?] | done] |].
    assert (∀ ch c, hb_channels h !! ch = Some c → ch_closed c = false → ch ∈ l.*1 ↔ ch_service c = sid) as Hopen.
    { intros ch c Hc Ho. rewrite Hl1. specialize (H2 ch c Hc Ho). split; [| intros <-; by exists false].
      intros [b Hb]. destruct (H1 _ _ _ Hb) as (_ & c1 & Hc1 & _ & <-). change (hb_channels h) with (hb_channels h) in Hc1. congruence. }
    assert (∀ ch c, hb_channels h !! ch = Some c → ch_closed c = true → ch ∉ l.*1) as Hclosed.
    { intros ch c Hc Ho [b Hb]%Hl1. destruct (H1 _ _ _ Hb) as (_ & c1 & Hc1 & Ho1 & _). congruence. }
    split.
    + intros s ch b Hb. rewrite Hs' in Hb. case_decide as Hd; [done |]. change (subscribed h1 s ch) with (subscribed h s ch) in Hb.
      destruct (H1 _ _ _ Hb) as (-> & c & Hc & Ho & Hsv). split; [done |]. specialize (Hc' ch). change (hb_channels h1) with (hb_channels h) in Hc'.
      rewrite Hc in Hc'. destruct (decide (ch ∈ l.*1)) as [Hin | Hin]; [| by exists c].
      assert (roomFor c = true) as Hr.
      { destruct (roomFor c) eqn:E; [done |]. exfalso. apply Hd. apply (Hopen ch c Hc Ho) in Hin as Hsid. split_and!; [congruence | done |].
        unfold fullChannel. change (hb_channels h1) with (hb_channels h). by rewrite Hc, E. }
      exists (pushed e c). cbn in Hc'. unfold offered in Hc'. by rewrite Hr in Hc'.
    + intros ch c' Hcc Ho. rewrite Hc' in Hcc. change (hb_channels h1) with (hb_channels h) in Hcc.
      destruct (hb_channels h !! ch) as [c |] eqn:Hc; [| done]. injection Hcc as <-.
      assert (ch_closed c = false) as Hoc by (destruct (decide (ch ∈ l.*1)); [unfold offered in Ho; by destruct (roomFor c) | done]).
      assert (ch_service ((if decide (ch ∈ l.*1) then offered e else id) c) = ch_service c) as Esv
        by (destruct (decide (ch ∈ l.*1)); [unfold offered; by destruct (roomFor c) | done]).
      rewrite Hs', Esv. rewrite decide_False; [by apply H2 |]. intros (Esid & Hin & Hfull).
      rewrite decide_True in Ho by done. unfold fullChannel in Hfull. change (hb_channels h1) with (hb_channels h) in Hfull. rewrite Hc in Hfull.
      unfold offered in Ho. by destruct (roomFor c).
    + intros ch c' Hcc. rewrite Hc' in Hcc. rewrite (kp_next _ _ Hk). change (hb_channels h1) with (hb_channels h) in Hcc.
      destruct (hb_channels h !! ch) as [c |] eqn:Hc; [| done]. by eapply H3.
    + intros ch c' Hcc. rewrite Hc' in Hcc. change (hb_channels h1) with (hb_channels h) in Hcc.
      destruct (hb_channels h !! ch) as [c |] eqn:Hc; [| done]. injection Hcc as <-. specialize (H4 ch c Hc).
      destruct (ch_closed c) eqn:Ho.
      { rewrite decide_False by (by eapply Hclosed). apply other_channel_ok; [done |]. cbn [id]. congruence. }
      specialize (Hopen ch c Hc Ho). destruct (decide (ch ∈ l.*1)) as [Hin | Hin].
      * apply Hopen in Hin as <-. rewrite <- Hseq. by apply offered_channel_ok; [| | rewrite Hseq].
      * apply other_channel_ok; [done |]. naive_solver.
Qed.

End Broadcasts.

(** ** The invariant of the hub *)

Section Hub.
Context {S : Type} {MS : ModuleStore S} {laws : StoreLaws S} {jis : ISO2022JP} {sorting : ComponentSort}.
Context {OS : RangeOrder dataBroadcastService} {OC : RangeOrder bool} {OG : RangeOrder (gmap Z bool)}.
Context {OM : RangeOrder dsmccModuleState} {OR : RangeOrder DSMCCModuleRejection} {OK : RangeOrder DSMCCCarousel}.
Implicit Types h : DataBroadcastHub S.

(** The channel, and the content of the modules that are known. *)
Context (channelType channelID : string) (content : ModuleCacheKey → option (list Z)).
Context (jis_text : ∀ l s, Transform l = Some s → text_ok s).
Context (content_sizes : ∀ key d, content key = Some d → len d = ck_Size key).

Definition keyFor (serviceID tag downloadID moduleID version size : Z) : ModuleCacheKey :=
  MkCacheKey (MkVersionKey channelType channelID serviceID tag downloadID moduleID version) size.
Definition moduleKeyOf (serviceID tag : Z) (s : dsmccModuleState) : ModuleCacheKey :=
  keyFor serviceID tag (ms_downloadID s) (mi_ModuleID (ms_info s)) (mi_Version (ms_info s)) (mi_ModuleSize (ms_info s)).

(** What a carousel holds of a module agrees with its content. *)
Definition agrees (d : list Z) (s : dsmccModuleState) : Prop :=
  if ms_completed s then ms_data s = d ∨ ms_data s = [] else assembled d s.
Definition fine (serviceID tag : Z) (s : dsmccModuleState) : Prop :=
  bytes_ok (mi_Info (ms_info s)) ∧ ∀ d, content (moduleKeyOf serviceID tag s) = Some d → agrees d s.

(** And so does a module in the store. *)
Definition good (key : ModuleCacheKey) (m : DSMCCModule) : Prop :=
  bytes_ok (m_Info m) ∧ len (m_Data m) < 2 ^ 32 ∧ m_DownloadID m = vk_DownloadID (VersionKey key) ∧ m_ModuleID m = vk_ModuleID (VersionKey key) ∧
  m_Version m = vk_Version (VersionKey key) ∧ m_Size m = ck_Size key ∧ ∀ d, content key = Some d → m_Data m = d.

Definition infoBytes (m : DSMCCModuleInfo) : Prop := bytes_ok (mi_Info m).

Record carousel_fine (serviceID tag : Z) (c : DSMCCCarousel) : Prop := {
  cf_ok : carousel_ok c;
  cf_limits : c_limits c = withDefaults (MkLimits 0 0 0);
  cf_states : all_states (fine serviceID tag) c;
  cf_rejected : all_rejected infoBytes c
}.

Definition tagsOf (l : list DataBroadcastComponent) : list Z := map dc_ComponentTag l.

Record service_ok (serviceID : Z) (s : dataBroadcastService) : Prop := {
  sk_carousels : map_Forall (carousel_fine serviceID) (sv_carousels s);
  sk_tags pid tag : sv_pidToTag s !! pid = Some tag → tag ∈ tagsOf (componentsOf s) ∧ is_Some (sv_carousels s !! tag);
  sk_states tag : is_Some (sv_carouselStates s !! tag) → tag ∈ tagsOf (componentsOf s) ∧ is_Some (sv_carousels s !! tag);
  sk_components c : c ∈ componentsOf s → is_Some (dc_CarouselDownloadID c) → is_Some (sv_carouselStates s !! dc_ComponentTag c);
  sk_sequence : 0 ≤ sv_sequence s < 2 ^ 64;
  sk_owned tag : is_Some (sv_carousels s !! tag) → tag ∈ tagsOf (componentsOf s);
  sk_bare c : c ∈ componentsOf s → dc_Modules c = []
}.

Record hub_base h : Prop := {
  hk_type : hb_channelType h = channelType;
  hk_id : hb_channelID h = channelID;
  hk_services : map_Forall service_ok (hb_services h);
  hk_store s : hb_moduleStore h = Some s → store_ok good s
}.
Definition hub_ok h : Prop := hub_base h ∧ channels_ok (knownTo h) (sequenceOf h) h.

Lemma newHubService_ok serviceID : service_ok serviceID newBroadcastService.
Proof.
  split; cbn; [apply map_Forall_empty | intros pid tag H | intros tag [st H] | by intros c ?%elem_of_nil | lia | intros tag [c H] | by intros c ?%elem_of_nil];
    by rewrite lookup_empty in H.
Qed.

Lemma serviceOf_ok h serviceID : hub_base h → service_ok serviceID (serviceOf serviceID h).
Proof.
  intros [_ _ H _]. unfold serviceOf. destruct (hb_services h !! serviceID) as [s |] eqn:E; [by apply (H serviceID) | apply newHubService_ok].
Qed.

Lemma setService_base serviceID s h : hub_base h → service_ok serviceID s → hub_base (setService serviceID s h).
Proof. intros [H1 H2 H3 H4] Hs. split; try done. by apply map_Forall_insert_2. Qed.

Lemma kept_base h h' : kept h h' → hub_base h → hub_base h'.
Proof. intros [E1 E2 E3 E4 E5 E6] [H1 H2 H3 H4]. split; [congruence | congruence | by rewrite E1 | by rewrite E5]. Qed.

Lemma serviceOf_set h sid s k : serviceOf k (setService sid s h) = if decide (k = sid) then s else serviceOf k h.
Proof.
  unfold serviceOf. cbn. destruct (decide (k = sid)) as [-> | Hne]; [by rewrite lookup_insert_eq | by rewrite lookup_insert_ne].
Qed.

(** A change of a service that a client that knows it need not be told. *)
Lemma silent_ok sid s h : hub_ok h → service_ok sid s → viewOf (hb_bit h) sid s = view h sid → sv_sequence s = sequenceOf h sid →
  (∀ start es, modulesKnown (serviceOf sid h) start es → modulesKnown s start es) →
  hub_ok (setService sid s h).
Proof.
  intros [Hb Hc] Hs Hv Hn Hm. split; [by apply setService_base |]. eapply channels_ok_knows; [exact Hc | done | done | done |].
  intros k ? _. unfold knownTo, sequenceOf. rewrite serviceOf_set. cbn [hb_bit setService setHubServices].
  destruct (decide (k = sid)) as [-> |]; [| done]. split; [| exact Hn]. intros start es [E1 E2]. split; [by rewrite Hv | by apply Hm].
Qed.

(** A change that an event announces. *)
Lemma change_ok sid s data h : hub_ok h → service_ok sid s → sv_sequence s = sequenceOf h sid →
  viewOf (hb_bit h) sid (counted data s) = follow (view h sid) (numbered data s) →
  (∀ start es, modulesKnown (serviceOf sid h) start es → modulesKnown s start (es ++ [numbered data s])) →
  returns (broadcastLocked sid data (setService sid s h)) (λ h', hub_ok h' ∧
    hb_services h' = <[sid := counted data s]> (hb_services h)).
Proof.
  intros [Hb Hc] Hs Hn Hv Hm.
  assert (serviceOf sid (setService sid s h) = s) as Es by (rewrite serviceOf_set; by rewrite decide_True).
  assert (channels_ok (knownTo h) (sequenceOf h) (setService sid s h)) as Hc1 by (by eapply channels_ok_knows).
  eapply safe_mono; [apply (broadcast_ok _ _ sid data _ Hc1); unfold sequenceOf at 2; by rewrite Es |].
  intros h' (Hk & _ & Hc'). rewrite Es in *. assert (sequenceOf (setService sid s h) sid = sv_sequence s) as Eq by (unfold sequenceOf; by rewrite Es). rewrite Eq in Hc'.
  assert (setService sid (counted data s) (setService sid s h) = setService sid (counted data s) h) as E
    by (unfold setService, setHubServices; cbn; by rewrite insert_insert_eq). rewrite E in Hk.
  assert (service_ok sid (counted data s)) as Hcs.
  { destruct Hs as [K1 K2 K3 K4 K5 K6 K7]. split; try done. cbn. unfold u64. apply Z.mod_pos_bound. lia. }
  split; [split |].
  - eapply kept_base; [exact Hk |]. by apply setService_base.
  - eapply channels_ok_knows; [exact Hc' | done | done | done |]. intros k ? _. unfold knownTo, sequenceOf, serviceOf. rewrite (kp_services _ _ Hk), (kp_bit _ _ Hk).
    cbn [setService setHubServices hb_services hb_bit]. destruct (decide (k = sid)) as [-> | Hne].
    + rewrite lookup_insert_eq, !fn_lookup_insert. split; [| reflexivity]. intros start ? (es & -> & E1 & E2). split; [| by apply Hm].
      rewrite fold_left_app. cbn [fold_left]. rewrite <- E1. exact Hv.
    + rewrite lookup_insert_ne, !fn_lookup_insert_ne by done. done.
  - by rewrite (kp_services _ _ Hk).
Qed.

Lemma serviceLocked_ok sid h : hub_ok h → let '(h', s) := serviceLocked sid h in
  hub_ok h' ∧ s = serviceOf sid h ∧ hb_services h' !! sid = Some s ∧ hb_bit h' = hb_bit h.
Proof.
  intros Hh. unfold serviceLocked, serviceOf. destruct (hb_services h !! sid) as [s |] eqn:E; [done |]. split; [| split_and!; try done; apply lookup_insert_eq].
  apply silent_ok; [done | apply newHubService_ok | | |]; unfold view, sequenceOf, serviceOf; by rewrite E.
Qed.

Lemma setStore_ok st h : hub_ok h → (∀ s, st = Some s → store_ok good s) → hub_ok (setStore st h).
Proof. intros [[H1 H2 H3 H4] Hc] Hs. split; [by split |]. by eapply channels_ok_knows. Qed.

(** ** Carousels *)

Lemma newCarousel_fine sid tag : carousel_fine sid tag (NewDSMCCCarousel (MkLimits 0 0 0)).
Proof. split; [apply NewDSMCCCarousel_ok, sampleLimits_ok | done | apply map_Forall_empty | apply map_Forall_empty]. Qed.

Lemma setCarousel_ok sid tag c s : service_ok sid s → tag ∈ tagsOf (componentsOf s) → carousel_fine sid tag c → service_ok sid (setCarousel tag c s).
Proof.
  intros [K1 K2 K3 K4 K5 K6 K7] Htag Hc. assert (∀ t, is_Some (sv_carousels s !! t) → is_Some (sv_carousels (setCarousel tag c s) !! t)) as Hmono.
  { intros t Ht. cbn. apply lookup_insert_is_Some'. by right. }
  split; try done; [by apply map_Forall_insert_2 | | |].
  - intros pid t Ht. destruct (K2 pid t Ht). auto.
  - intros t Ht. destruct (K3 t Ht). auto.
  - intros t Ht. cbn in Ht. apply lookup_insert_is_Some' in Ht as [<- | Ht]; [exact Htag | by apply K6].
Qed.

(** The knowledge of one carousel is all that a change of it concerns. *)
Lemma setCarousel_known tag c s start es es' :
  knowsCarousel tag (sv_carouselStates s !! tag) c (heard tag start es') (told tag start es') →
  (∀ t, t ≠ tag → heard t start es' = heard t start es ∧ told t start es' = told t start es) →
  modulesKnown s start es → modulesKnown (setCarousel tag c s) start es'.
Proof.
  intros Hc Hother Hk t c' Ht. cbn in Ht |- *. destruct (decide (t = tag)) as [-> | Hne].
  - rewrite lookup_insert_eq in Ht. by injection Ht as <-.
  - rewrite lookup_insert_ne in Ht by done. destruct (Hother t Hne) as [-> ->]. by apply Hk.
Qed.

Lemma taggedService_spec pid l : match taggedService pid l with
  | Some (sid, s, tag) => (sid, s) ∈ l ∧ sv_pidToTag s !! pid = Some tag
  | None => True
  end.
Proof.
  induction l as [| [sid s] l IH]; [done |]. cbn [taggedService]. destruct (sv_pidToTag s !! pid) as [tag |] eqn:E; [split; [by left | done] |].
  destruct (taggedService pid l) as [[[sid' s'] tag'] |]; [| done]. destruct IH. split; [by right | done].
Qed.

(** The carousel found is that of the service. *)
Definition mapped (h : DataBroadcastHub S) (pid sid tag : Z) (c : DSMCCCarousel) : Prop :=
  ∃ s, hb_services h !! sid = Some s ∧ sv_pidToTag s !! pid = Some tag ∧ sv_carousels s !! tag = Some c.

Lemma carouselByPIDLocked_ok pid h : hub_ok h → let '(h', found) := carouselByPIDLocked pid h in
  hub_ok h' ∧ hb_bit h' = hb_bit h ∧
  match found with
  | Some (sid, tag, c) => mapped h' pid sid tag c ∧
      (mapped h pid sid tag c ∨ c = NewDSMCCCarousel (MkLimits 0 0 0))
  | None => True
  end.
Proof.
  intros Hh. unfold carouselByPIDLocked. pose proof (taggedService_spec pid (range (hb_services h))) as Hf.
  destruct (taggedService pid (range (hb_services h))) as [[[sid s] tag] |]; [| done]. destruct Hf as [Hs%range_elem Htag].
  destruct (sv_carousels s !! tag) as [c |] eqn:E.
  - split_and!; [done | done | by exists s | left; by exists s].
  - assert (serviceOf sid h = s) as Es by (unfold serviceOf; by rewrite Hs). pose proof (hk_services _ (proj1 Hh) sid _ Hs) as Hok.
    split; [| split_and!; [done | | by right]].
    + apply silent_ok; [done | | unfold view; by rewrite Es | unfold sequenceOf; by rewrite Es |].
      * apply setCarousel_ok; [done | by eapply sk_tags | apply newCarousel_fine].
      * rewrite Es. intros start es. apply setCarousel_known; [apply knows_new | done].
    + eexists. split; [apply lookup_insert_eq |]. split; [done |]. apply lookup_insert_eq.
Qed.

Lemma storeCarousel_eq sid tag c h s : hb_services h !! sid = Some s → storeCarousel sid tag c h = setService sid (setCarousel tag c s) h.
Proof.
  intros E. unfold storeCarousel, setService, setHubServices. f_equal. apply map_eq. intros k. destruct (decide (k = sid)) as [-> |].
  - by rewrite lookup_alter_eq, lookup_insert_eq, E.
  - by rewrite lookup_alter_ne, lookup_insert_ne.
Qed.

(** A carousel goes on without a module that has become complete. *)
Lemma storeCarousel_ok sid tag c0 c h s : hub_ok h → hb_services h !! sid = Some s → sv_carousels s !! tag = Some c0 → carousel_fine sid tag c →
  descends (λ _, False) c0 c → c_rejected c = c_rejected c0 → hub_ok (storeCarousel sid tag c h).
Proof.
  intros Hh E Ec Hc Hd Hr. rewrite (storeCarousel_eq _ _ _ _ _ E). assert (serviceOf sid h = s) as Es by (unfold serviceOf; by rewrite E).
  pose proof (hk_services _ (proj1 Hh) sid _ E) as Hok. apply silent_ok; [done | | unfold view; by rewrite Es | unfold sequenceOf; by rewrite Es |].
  - apply setCarousel_ok; [done | by apply (sk_owned _ _ Hok); eexists | done].
  - rewrite Es. intros start es Hk. apply (setCarousel_known _ _ _ _ es); [| done | done]. eapply knows_descends; [by apply Hk | done | done].
Qed.

(** ** Modules *)

Lemma apiModule_ok tag m data : bytes_ok (m_Info m) → returns (apiModule tag m data) (λ a,
  dm_RejectionReason a = None ∧ dm_ModuleID a = m_ModuleID m ∧ dm_DownloadID a = m_DownloadID m ∧ dm_Version a = m_Version m ∧
  dm_Size a = m_Size m ∧ dm_Data a = (if data : bool then m_Data m else []) ∧ dm_ComponentTag a = tag ∧ dm_Complete a = true).
Proof.
  intros Hb. unfold apiModule. apply safe_bind. eapply safe_mono; [by apply (Metadata_safe (MkModuleInfo 0 0 0 (m_Info m))) |]. done.
Qed.

Lemma rejectedModule_ok tag download r : infoBytes (rj_Module r) →
  returns (rejectedModule tag download r) (λ a, withoutMetadata a = refusedModule tag download r).
Proof. intros Hb. unfold rejectedModule. apply safe_bind. eapply safe_mono; [by apply Metadata_safe |]. done. Qed.

Lemma appendTo_ok {A} (f : A → outcome DataBroadcastModule) (spec : A → DataBroadcastModule) l ms :
  (∀ x, x ∈ l → returns (f x) (λ a, withoutMetadata a = spec x)) →
  returns (foldM (appendTo f) l ms) (λ ms', ∃ added, ms' = ms ++ added ∧ map withoutMetadata added = map spec l).
Proof.
  revert ms. induction l as [| x l IH]; intros ms Hf; cbn [foldM map]; [apply safe_ret; exists []; by rewrite app_nil_r |].
  apply safe_bind. unfold appendTo at 1. apply safe_bind. eapply safe_mono; [apply Hf; by left |]. intros a Ha. apply safe_ret.
  eapply safe_mono; [apply IH; intros y Hy; apply Hf; by right |]. intros ms' (added & -> & Hadded). exists (a :: added).
  split; [by rewrite <- app_assoc |]. cbn [map]. by rewrite Ha, Hadded.
Qed.

(** Modules that are known up to their metadata. *)
Lemma withoutMetadata_elem {A} (spec : A → DataBroadcastModule) added l m : map withoutMetadata added = map spec l → m ∈ added →
  ∃ x, x ∈ l ∧ withoutMetadata m = spec x.
Proof.
  intros E Hm. assert (withoutMetadata m ∈ map withoutMetadata added) as Hin by by apply list_elem_of_fmap_2.
  rewrite E in Hin. apply list_elem_of_fmap in Hin as (x & ? & ?). by exists x.
Qed.
Lemma elem_withoutMetadata {A} (spec : A → DataBroadcastModule) added l x : map withoutMetadata added = map spec l → x ∈ l →
  ∃ m, m ∈ added ∧ withoutMetadata m = spec x.
Proof.
  intros E Hx. assert (spec x ∈ map spec l) as Hin by by apply list_elem_of_fmap_2. rewrite <- E in Hin.
  apply list_elem_of_fmap in Hin as (m & ? & ?). by exists m.
Qed.
Lemma sameModule_without m y : withoutMetadata m = y → sameModule m y.
Proof. by intros <-. Qed.

Lemma fine_fresh sid tag dii m generation : module_ok m → fine sid tag (fresh dii m generation).
Proof.
  intros (_ & Hsize & _ & Hb). split; [exact Hb |]. intros d Hd. apply content_sizes in Hd. cbn in Hd |- *. split.
  - cbn. rewrite length_replicate. unfold len in Hd. lia.
  - cbn. intros k _ Hk. apply lookup_replicate in Hk as [? _]. done.
Qed.

Lemma fine_block sid tag limits id s ddb : limits_ok limits → state_ok limits id s → ddb_ok ddb → accepts s ddb → fine sid tag s →
  (∀ d, content (moduleKeyOf sid tag s) = Some d → honest d s ddb) →
  let received := <[Z.to_nat (ddb_BlockNumber ddb) := true]> (ms_received s) in
  fine sid tag (marked s (written s ddb) received) ∧ (received_count received = len received → fine sid tag (finished s (written s ddb) received)).
Proof.
  intros Hl Hs Hok Hacc [Hb Hfine] Htrue. pose proof Hs as [S1 S2 S3 S4 _]. pose proof Hacc as (Hcomp & _ & _ & Hn).
  destruct (S4 Hcomp) as (HD & HR & HC & _). pose proof (block_in_range _ _ _ (ddb_BlockNumber ddb) Hs Hl Hcomp Hn) as Hoff. cbv zeta.
  set (received := <[_ := true]> _).
  assert (∀ d, content (moduleKeyOf sid tag s) = Some d → assembled d (marked s (written s ddb) received)) as Ha.
  { intros d Hd. specialize (Hfine d Hd). unfold agrees in Hfine. rewrite Hcomp in Hfine. pose proof Hfine as [HL _].
    apply written_assembled; [done | by apply Htrue | lia |]. unfold len in *. lia. }
  split; [by split |]. intros Hall. split; [exact Hb |]. intros d Hd. left. specialize (Ha d Hd).
  apply (assembled_complete d (marked s (written s ddb) received)); [done | cbn; lia | | exact Hall]. cbn. pose proof Ha as [HL _]. cbn in HL.
  assert (length (written s ddb) = length (ms_data s)) as Hw by (unfold written; apply length_inserts).
  assert (len received = len (ms_received s)) as Hlr by (unfold received, len; by rewrite length_insert).
  destruct (blockCount_spec (mi_ModuleSize (ms_info s)) (ms_blockSize s)) as (_ & _ & Hup); [destruct Hl as [? _]; lia | done |].
  rewrite Hlr, HR. unfold len in *. lia.
Qed.

Lemma good_module sid tag id s limits : state_ok limits id s → fine sid tag s → ms_completed s = true → len (ms_data s) = mi_ModuleSize (ms_info s) →
  limits_ok limits → good (moduleKeyOf sid tag s) (module s).
Proof.
  intros [_ Hsize _ _ _] [Hb Hf] Hc Hlen [Hl _]. split_and!; try done; [cbn; lia |]. intros d Hd. specialize (Hf d Hd). unfold agrees in Hf. rewrite Hc in Hf.
  destruct Hf as [Hf | Hf]; [exact Hf |]. rewrite Hf, len_nil in Hlen. lia.
Qed.

Lemma carousel_limits_ok sid tag c : carousel_fine sid tag c → limits_ok (c_limits c).
Proof. intros [Hc _ _ _]. apply Hc. Qed.

Lemma carousel_state_ok sid tag c id s : carousel_fine sid tag c → c_modules c !! id = Some s → state_ok (c_limits c) id s.
Proof. intros [Hc _ _ _] E. exact (map_Forall_lookup_1 _ _ _ _ (ac_states _ (proj1 Hc)) E). Qed.

Lemma ObserveDDB_fine sid tag ddb c : carousel_fine sid tag c → ddb_ok ddb →
  (∀ s d, c_modules c !! ddb_ModuleID ddb = Some s → accepts s ddb → content (moduleKeyOf sid tag s) = Some d → honest d s ddb) →
  returns (ObserveDDBWithResult ddb c) (λ '(c', r), carousel_fine sid tag c' ∧
    ∀ m, do_module r = Some m → good (keyFor sid tag (m_DownloadID m) (m_ModuleID m) (m_Version m) (m_Size m)) m ∧
      ∀ s, c_modules c' !! m_ModuleID m = Some s → ms_completed s = true).
Proof.
  intros Hf Hok Htrue. pose proof (ObserveDDB_states (fine sid tag) ddb c (cf_ok _ _ _ Hf) Hok (cf_states _ _ _ Hf)) as H.
  pose proof (ObserveDDB_rejected ddb c) as Hrej.
  assert (∀ s, c_modules c !! ddb_ModuleID ddb = Some s → accepts s ddb →
    let received := <[Z.to_nat (ddb_BlockNumber ddb) := true]> (ms_received s) in
    fine sid tag (marked s (written s ddb) received) ∧ (received_count received = len received → fine sid tag (finished s (written s ddb) received))) as Hblock.
  { intros s Hs Hacc. eapply fine_block; try done; [by eapply carousel_limits_ok | by eapply carousel_state_ok | by apply (cf_states _ _ _ Hf) in Hs | eauto]. }
  specialize (H Hblock). destruct (ObserveDDBWithResult ddb c) as [[c' r] | | |]; try done. destruct H as (Hc' & Hl & Hall & Hm).
  assert (carousel_fine sid tag c') as Hf'.
  { split; [done | unfold same_limits in Hl; rewrite Hl; apply Hf | done |]. unfold all_rejected. rewrite (Hrej c' r eq_refl). apply Hf. }
  split; [done |]. intros m E. destruct (Hm m E) as (s & Hs & -> & Hcomp & Hlen).
  split; [| intros s'; cbn; rewrite (so_id _ _ _ (carousel_state_ok _ _ _ _ _ Hf' Hs)); congruence].
  apply (good_module sid tag (ddb_ModuleID ddb) s (c_limits c')); try done; [by eapply carousel_state_ok | by apply (Hall _ _ Hs) | by eapply carousel_limits_ok].
Qed.

Lemma Release_fine sid tag id c : carousel_fine sid tag c → carousel_fine sid tag (fst (ReleaseCompletedPayload id c)).
Proof.
  intros Hf. pose proof (ReleaseCompletedPayload_rejected id c) as Hrej.
  destruct (ReleaseCompletedPayload_states (fine sid tag) id c (cf_ok _ _ _ Hf) (cf_states _ _ _ Hf)) as (H1 & H2 & H3).
  - intros s Hs Hc. pose proof (cf_states _ _ _ Hf _ _ Hs) as [Hb Hd]. split; [exact Hb |]. intros d Ed. unfold agrees. cbn. rewrite Hc. by right.
  - split; [done | unfold same_limits in H2; rewrite H2; apply Hf | done |]. unfold all_rejected. rewrite Hrej. apply Hf.
Qed.

Lemma Restore_fine sid tag m c : carousel_fine sid tag c → good (keyFor sid tag (m_DownloadID m) (m_ModuleID m) (m_Version m) (m_Size m)) m →
  returns (Restore m c) (λ '(c', _), carousel_fine sid tag c').
Proof.
  intros Hf (Hb & Hlen & _ & _ & _ & _ & Hd). pose proof (Restore_states (fine sid tag) m c (cf_ok _ _ _ Hf) Hlen (cf_states _ _ _ Hf)) as H.
  pose proof (Restore_rejected m c) as Hrej.
  assert (∀ s, c_modules c !! m_ModuleID m = Some s → ms_completed s = false → ms_downloadID s = m_DownloadID m → mi_Version (ms_info s) = m_Version m →
    mi_ModuleSize (ms_info s) = m_Size m → len (m_Data m) = m_Size m → fine sid tag (restored s m)) as Hres.
  { intros s Hs Hc E1 E2 E3 E4. pose proof (cf_states _ _ _ Hf _ _ Hs) as [Hbs _]. pose proof (carousel_state_ok _ _ _ _ _ Hf Hs) as [Hid _ _ _ _].
    split; [exact Hbs |]. intros d Ed. unfold agrees. cbn. left. apply Hd. rewrite <- Ed. unfold moduleKeyOf. cbn. by rewrite E1, E2, E3, Hid. }
  specialize (H Hres). destruct (Restore m c) as [[c' ok] | | |]; try done. destruct H as (H1 & H2 & H3).
  split; [done | unfold same_limits in H2; rewrite H2; apply Hf | done |]. unfold all_rejected. rewrite (Hrej c' ok eq_refl). apply Hf.
Qed.

Lemma ObserveDII_fine sid tag dii c : carousel_fine sid tag c → word16 (dii_BlockSize dii) → Forall module_ok (dii_Modules dii) →
  returns (ObserveDII dii c) (λ '(c', acc), carousel_fine sid tag c' ∧ Forall (acceptable dii) acc).
Proof.
  intros Hf Hbs Hms. pose proof (ObserveDII_states (fine sid tag) dii c (cf_ok _ _ _ Hf) Hms Hbs (cf_states _ _ _ Hf)) as H.
  pose proof (ObserveDII_rejected infoBytes dii c) as Hrej.
  assert (∀ m generation, acceptable dii m → fine sid tag (fresh dii m generation)) as Hfresh.
  { intros m g (Hin & _ & _). apply fine_fresh. by eapply Forall_forall in Hms. }
  specialize (H Hfresh). destruct (ObserveDII dii c) as [[c' acc] | | |]; try done. destruct H as (H1 & H2 & H3 & H4). split; [| done].
  split; [done | unfold same_limits in H2; rewrite H2; apply Hf | done |]. eapply Hrej; [| apply Hf | done].
  eapply Forall_impl; [exact Hms |]. by intros m (_ & _ & _ & Hb).
Qed.

Lemma ObserveDDB_complete ddb c c' r : ObserveDDBWithResult ddb c = Ret (c', r) → do_complete r = true → is_Some (do_module r).
Proof.
  unfold ObserveDDBWithResult. destruct (c_modules c !! ddb_ModuleID ddb) as [s |]; [| by intros [= <- <-]].
  destruct (ms_completed s || _ || _ || _); [by intros [= <- <-] |]. destruct (_ <=? _); [by intros [= <- <-] |].
  destruct (_ <=? _); [by intros [= <- <-] |]. cbv zeta. intros (b & _ & E)%bind_Ret_inv. apply bind_Ret_inv in E as (src & _ & E).
  destruct (_ <? len _); [by injection E as <- <- |]. apply bind_Ret_inv in E as ([c2 kept] & _ & E). destruct kept; [| by injection E as <- <-].
  injection E as <- <-. by eexists.
Qed.

(** The key of a module that the store gave out. *)
Lemma good_key sid tag d i v z m : good (keyFor sid tag d i v z) m → good (keyFor sid tag (m_DownloadID m) (m_ModuleID m) (m_Version m) (m_Size m)) m.
Proof. intros (H1 & H2 & H3 & H4 & H5 & H6 & H7). cbn in H3, H4, H5, H6. by rewrite H3, H4, H5, H6. Qed.

Lemma rejections_infos c r : all_rejected infoBytes c → r ∈ RejectedAnnouncements c → infoBytes (rj_Module r).
Proof.
  intros Hc Hr. unfold RejectedAnnouncements in Hr. rewrite merge_sort_Permutation in Hr. apply list_elem_of_fmap in Hr as ([k x] & -> & Hin%range_elem).
  by apply (Hc k).
Qed.

(** ** Programme map tables *)

Lemma streamIdentifier_safe ds : descriptors_ok ds → returns (streamIdentifierComponentTag ds) (λ _, True).
Proof.
  induction 1 as [| d ds [Hb Hd] _ IH]; [done |]. cbn [streamIdentifierComponentTag]. pose proof (desc_ok_complete d Hd) as [H2 Hl].
  pose proof (byteAt_ok d 1 Hb) as Hn. unfold byte_ok in Hn. assert (len (sub d 2 (2 + byteAt d 1)) = byteAt d 1) as HL by (rewrite len_sub; lia).
  unfold Tag, Length. go; [| done | done]. apply Data_safe; [done | by apply desc_ok_complete |]. intros Hdb. go. done.
Qed.

Lemma dataComponent_safe ds : descriptors_ok ds → returns (dataComponentDescriptor ds) (λ r, ∀ d, r = Some d → bytes_ok (AdditionalDataComponentInfo d)).
Proof.
  induction 1 as [| d ds [Hb Hd] _ IH]; [done |]. cbn [dataComponentDescriptor]. pose proof (desc_ok_complete d Hd) as [H2 Hl].
  unfold Tag. go; [exact IH |]. eapply caught_returns. clear IH. unfold ParseDataComponentDescriptor.
  apply safe_bind, (checkComplete_safe (λ _, True)); [done | done |]. intros Hc. pose proof (byteAt_ok d 1 Hb) as Hn. unfold byte_ok in Hn.
  assert (len (sub d 2 (2 + byteAt d 1)) = byteAt d 1) as HL by (rewrite len_sub; lia).
  unfold Tag. go. apply Data_safe; [done | done |]. intros Hdb. go. apply Data_safe; [done | done |]. intros _. go. cbn. by apply bytes_ok_sub.
Qed.

Lemma pmtComponent_ok els : Forall element_ok els → returns (foldM pmtComponent els ([], ∅)) (λ '(comps, pidToTag),
  (∀ pid tag, pidToTag !! pid = Some tag → tag ∈ tagsOf comps) ∧ Forall (λ c, dc_CarouselDownloadID c = None ∧ dc_Modules c = []) comps).
Proof.
  intros Hels. apply (safe_foldM (λ '(comps, pidToTag), (∀ pid tag, (pidToTag : gmap Z Z) !! pid = Some tag → tag ∈ tagsOf comps) ∧
    Forall (λ c, dc_CarouselDownloadID c = None ∧ dc_Modules c = []) comps)); [by split; [intros ? ? H; rewrite lookup_empty in H |] |].
  intros [comps pidToTag] el [Htags Hnone] Hel. unfold pmtComponent. destruct (_ && _ && _); [done |].
  rewrite Forall_forall in Hels. destruct (Hels el Hel) as (_ & _ & Hb & Hmax). apply maximal_descriptors in Hmax; [| done].
  apply safe_bind. eapply safe_mono; [by apply streamIdentifier_safe |]. intros [tag |] _; [| done].
  apply safe_bind. eapply safe_mono; [by apply dataComponent_safe |]. intros descriptor Hdescriptor. apply safe_bind.
  apply (safe_mono _ (λ _, True)).
  { destruct descriptor as [d |]; [| done]. apply safe_bind. specialize (Hdescriptor d eq_refl). destruct (isAribBXMLDataComponent _); [| done].
    eapply safe_mono; [eapply caught_returns; by apply ParseBXML_safe |]. done. }
  intros [id bxml] _. apply safe_ret. split; [| by apply Forall_snoc]. unfold tagsOf. rewrite map_app. cbn.
  intros pid t Ht. apply elem_of_app. apply lookup_insert_Some in Ht as [[_ ->] | [_ Ht]]; [right; by left | left; by eapply Htags].
Qed.

Lemma componentTagExists_spec comps t : componentTagExists comps t = true ↔ t ∈ tagsOf comps.
Proof.
  unfold componentTagExists, tagsOf. rewrite existsb_exists, list_elem_of_fmap. split.
  - intros (c & Hin & <-%Z.eqb_eq). exists c. split; [done |]. by apply list_elem_of_In.
  - intros (c & -> & Hin). exists c. split; [by apply list_elem_of_In | apply Z.eqb_refl].
Qed.

Lemma dropCarousels_spec comps l : ∀ (cs : gmap Z DSMCCCarousel) (st : gmap Z dataBroadcastCarouselState),
  let '(cs', st') := fold_left (λ st (e : Z * DSMCCCarousel),
    if componentTagExists comps (fst e) then st else (delete (fst e) (fst st), delete (fst e) (snd st))) l (cs, st) in
  ∀ t, (cs' !! t, st' !! t) = if componentTagExists comps t then (cs !! t, st !! t) else if decide (t ∈ l.*1) then (None, None) else (cs !! t, st !! t).
Proof.
  induction l as [| e l IH]; intros cs st; cbn [fold_left].
  { intros t. rewrite decide_False by apply not_elem_of_nil. by destruct (componentTagExists comps t). }
  destruct (componentTagExists comps (fst e)) eqn:E.
  - specialize (IH cs st). destruct (fold_left _ l (cs, st)) as [cs' st'].
    intros t. rewrite IH. destruct (componentTagExists comps t) eqn:Et; [done |]. apply decide_ext. cbn. rewrite elem_of_cons. split; [by right |].
    intros [-> | ?]; [congruence | done].
  - cbn [fst snd]. specialize (IH (delete (fst e) cs) (delete (fst e) st)). destruct (fold_left _ l _) as [cs' st'].
    intros t. rewrite IH. cbn. destruct (decide (t = fst e)) as [-> | Hne].
    + rewrite E, !lookup_delete_eq. rewrite (decide_True (P := fst e ∈ fst e :: _)) by (by left). by case_decide.
    + rewrite !lookup_delete_ne by done. destruct (componentTagExists comps t); [done |]. apply decide_ext. rewrite elem_of_cons. naive_solver.
Qed.

Lemma addCarousels_spec l : ∀ cs : gmap Z DSMCCCarousel,
  let cs' := fold_left (λ cs c, match cs !! dc_ComponentTag c with
    | Some _ => cs | None => <[dc_ComponentTag c := NewDSMCCCarousel (MkLimits 0 0 0)]> cs end) l cs in
  ∀ t, match cs' !! t with
       | Some c => cs !! t = Some c ∨ t ∈ tagsOf l ∧ c = NewDSMCCCarousel (MkLimits 0 0 0)
       | None => cs !! t = None ∧ t ∉ tagsOf l
       end.
Proof.
  induction l as [| x l IH]; intros cs; cbn [fold_left tagsOf map]; [intros t; destruct (cs !! t); [by left | split; [done | apply not_elem_of_nil]] |].
  intros t. specialize (IH (match cs !! dc_ComponentTag x with Some _ => cs | None => <[dc_ComponentTag x := NewDSMCCCarousel (MkLimits 0 0 0)]> cs end) t).
  cbv zeta in IH. destruct (fold_left _ l _ !! t) as [c |].
  - destruct IH as [IH | [? ?]]; [| right; split; [by right | done]]. destruct (cs !! dc_ComponentTag x) as [c0 |] eqn:E; [by left |].
    apply lookup_insert_Some in IH as [[<- <-] | [_ IH]]; [right; split; [by left | done] | by left].
  - destruct IH as [IH Ht]. destruct (cs !! dc_ComponentTag x) as [c0 |] eqn:E; rewrite not_elem_of_cons; [split_and!; [done | congruence | done] |].
    apply lookup_insert_None in IH as [? ?]. split_and!; [done | congruence | done].
Qed.

Lemma keepCarousels_spec comps s : let '(carousels, states) := keepCarousels comps s in
  (∀ t c, carousels !! t = Some c → t ∈ tagsOf comps ∧ (sv_carousels s !! t = Some c ∨ c = NewDSMCCCarousel (MkLimits 0 0 0))) ∧
  (∀ t, t ∈ tagsOf comps → is_Some (carousels !! t)) ∧
  ∀ t, states !! t = if componentTagExists comps t then sv_carouselStates s !! t else
    match sv_carousels s !! t with Some _ => None | None => sv_carouselStates s !! t end.
Proof.
  unfold keepCarousels. pose proof (dropCarousels_spec comps (range (sv_carousels s)) (sv_carousels s) (sv_carouselStates s)) as Hdel.
  destruct (fold_left _ (range _) _) as [cs st]. pose proof (addCarousels_spec comps cs) as Hadd. cbv zeta in Hadd.
  assert (∀ t, t ∈ (range (sv_carousels s)).*1 ↔ is_Some (sv_carousels s !! t)) as Hr.
  { intros t. rewrite list_elem_of_fmap. split; [intros ([k c] & -> & Hin%range_elem); by exists c | intros [c Hc]; exists (t, c); split; [done | by apply range_elem]]. }
  assert (∀ t, cs !! t = if componentTagExists comps t then sv_carousels s !! t else None) as Hcs.
  { intros t. specialize (Hdel t). destruct (componentTagExists comps t); [congruence |]. case_decide as Hd; [congruence |].
    rewrite Hr in Hd. apply eq_None_not_Some in Hd. congruence. }
  split_and!.
  - intros t c Hc. specialize (Hadd t). rewrite Hc in Hadd. destruct Hadd as [Hc' | [? ->]]; [| by auto]. rewrite Hcs in Hc'.
    destruct (componentTagExists comps t) eqn:E; [| done]. apply componentTagExists_spec in E. auto.
  - intros t Ht. specialize (Hadd t). destruct (fold_left _ comps cs !! t) as [c |]; [by eexists |]. by destruct Hadd.
  - intros t. specialize (Hdel t). destruct (componentTagExists comps t); [congruence |].
    case_decide as Hd; rewrite Hr in Hd; destruct (sv_carousels s !! t); try congruence; [by destruct Hd | exfalso; apply Hd; by eexists].
Qed.

(** The client finds the state of a carousel in the components it has. *)
Lemma retain_overlay sid s c : service_ok sid s →
  retain (map (λ c, withModules [] (overlay s c)) (componentsOf s)) c =
  withModules [] (match sv_carouselStates s !! dc_ComponentTag c with Some st => stated st c | None => c end).
Proof.
  intros [_ _ K3 K4 _ _ _]. unfold retain. destruct (List.find _ _) as [o |] eqn:E.
  - apply find_some in E as [Hin Ho%Z.eqb_eq]. apply in_map_iff in Hin as (c0 & <- & Hin). apply list_elem_of_In in Hin.
    unfold overlay in *. destruct (sv_carouselStates s !! dc_ComponentTag c0) as [st |] eqn:Est; cbn in Ho |- *; rewrite <- Ho, Est; [by destruct st |].
    destruct (dc_CarouselDownloadID c0) as [d |] eqn:Ed; [| done]. destruct (K4 c0 Hin ltac:(by eexists)) as [st Hst]. congruence.
  - destruct (sv_carouselStates s !! dc_ComponentTag c) as [st |] eqn:Est; [| done]. exfalso.
    destruct (K3 (dc_ComponentTag c) ltac:(by eexists)) as [Hin _]. apply list_elem_of_fmap in Hin as (c0 & Et & Hin).
    assert (dc_ComponentTag (withModules [] (overlay s c0)) = dc_ComponentTag c) as Etag
      by (unfold overlay; destruct (sv_carouselStates s !! dc_ComponentTag c0); cbn; congruence).
    assert (In (withModules [] (overlay s c0)) (map (λ c, withModules [] (overlay s c)) (componentsOf s))) as Hc0
      by (apply in_map_iff; exists c0; split; [done | by apply list_elem_of_In]).
    pose proof (find_none _ _ E _ Hc0) as Hn. cbv beta in Hn. rewrite Etag, Z.eqb_refl in Hn. done.
Qed.

Lemma hub_observePMT_ok section h : hub_ok h → bytes_ok (ps_Section section) → returns (observePMT section h) hub_ok.
Proof.
  intros Hh Hb. unfold observePMT. apply safe_bind. eapply safe_mono; [eapply caught_returns, ParsePMT_safe; exact Hb |].
  intros [pmt |] Hpmt; [| done]. destruct (Hpmt pmt eq_refl) as (_ & _ & Hels). apply safe_bind. eapply safe_mono; [by apply pmtComponent_ok |].
  intros [comps pidToTag] [Htags Hnone]. cbv zeta. set (sid := pmt_ProgramNumber pmt). pose proof (serviceLocked_ok sid h Hh) as Hsl.
  destruct (serviceLocked sid h) as [h1 s]. destruct Hsl as (Hh1 & _ & Hs & _). case_bool_decide; [done |].
  set (sorted := sortComponents comps). assert (sorted ≡ₚ comps) as Hperm by apply sortComponents_perm.
  assert (∀ t, t ∈ tagsOf sorted ↔ t ∈ tagsOf comps) as Hst by (intros t; unfold tagsOf; by rewrite Hperm). rewrite <- Hperm in Hnone.
  pose proof (keepCarousels_spec sorted s) as Hk. destruct (keepCarousels sorted s) as [carousels states]. destruct Hk as (Hk1 & Hk2 & Hk3).
  pose proof (hk_services _ (proj1 Hh1) _ _ Hs) as Hsok. pose proof Hsok as [K1 K2 K3 K4 K5 K6 K7].
  assert (serviceOf sid h1 = s) as Es by (unfold serviceOf; by rewrite Hs). set (value := MkBroadcastPMT _ _ _ _ _).
  eapply safe_mono; [apply change_ok; [exact Hh1 | | unfold sequenceOf; by rewrite Es | |] | by intros h' [? _]].
  - split; cbn [sv_carousels sv_pidToTag sv_carouselStates sv_sequence componentsOf sv_pmt from_option dp_Components value].
    + intros t c Hc. destruct (Hk1 t c Hc) as [_ [Hc' | ->]]; [by apply K1 | apply newCarousel_fine].
    + intros pid tag Ht. assert (tag ∈ tagsOf sorted) by (apply Hst; by eapply Htags). split; [done | by apply Hk2].
    + intros t Ht. rewrite Hk3 in Ht. assert (t ∈ tagsOf sorted) as Hin; [| split; [done | by apply Hk2]].
      destruct (componentTagExists sorted t) eqn:Ex; [by apply componentTagExists_spec |]. exfalso.
      destruct (sv_carousels s !! t) eqn:Ec; [by destruct Ht |]. destruct (K3 t Ht) as [_ [? ?]]. congruence.
    + intros c Hin [d Hd]. rewrite Forall_forall in Hnone. destruct (Hnone c Hin) as [Hn _]. congruence.
    + exact K5.
    + intros t [c Hc]. by apply (Hk1 t c).
    + intros c Hin. rewrite Forall_forall in Hnone. by apply Hnone.
  - unfold view. rewrite Es. unfold viewOf, follow, numbered, counted, setCounters, revised.
    cbn [isPCR sv_revision sv_sequence sv_pmt sv_programInfo sv_currentTime sv_pcr be_data be_Revision ds_ServiceID ds_ProgramInfo ds_CurrentTime
      ds_BIT ds_PCR ds_Components componentsOf from_option dp_Components value].
    f_equal. apply map_ext_in. intros c Hin%list_elem_of_In. change (from_option dp_Components [] (sv_pmt s)) with (componentsOf s).
    rewrite (retain_overlay sid) by done. unfold overlay. cbn [sv_carouselStates]. rewrite Hk3.
    rewrite (proj2 (componentTagExists_spec sorted (dc_ComponentTag c))); [done |]. apply list_elem_of_fmap. by exists c.
  - rewrite Es. intros start es Hknown. set (s' := MkBroadcastService _ _ _ carousels _ states _ _ _ _ _).
    apply (known_other s' s'); [| done..]. intros t c Hc. cbn in Hc |- *. destruct (Hk1 t c Hc) as [Hin [Hc' | ->]]; [| apply knows_new].
    rewrite Hk3, (proj2 (componentTagExists_spec sorted t)) by done. by apply Hknown.
Qed.

(** ** The other sections *)

(** An event that leaves the service as it is. *)
Lemma notice_ok sid data h : hub_ok h →
  viewOf (hb_bit h) sid (counted data (serviceOf sid h)) = follow (view h sid) (numbered data (serviceOf sid h)) →
  hb_services h !! sid = Some (serviceOf sid h) →
  (∀ start es, modulesKnown (serviceOf sid h) start es → modulesKnown (serviceOf sid h) start (es ++ [numbered data (serviceOf sid h)])) →
  returns (broadcastLocked sid data h) (λ h', hub_ok h' ∧ hb_services h' = <[sid := counted data (serviceOf sid h)]> (hb_services h)).
Proof.
  intros Hh Hv Hs Hm. assert (setService sid (serviceOf sid h) h = h) as E.
  { unfold setService, setHubServices. rewrite insert_id by done. by destruct h. }
  pose proof (change_ok sid (serviceOf sid h) data h Hh (serviceOf_ok h sid (proj1 Hh)) eq_refl Hv Hm) as H. by rewrite E in H.
Qed.

Lemma streamEvent_safe events d : bytes_ok d ∧ desc_ok d → returns (streamEvent events d) (λ _, True).
Proof.
  intros [Hb Hd]. apply desc_ok_complete in Hd. unfold streamEvent. apply safe_bind. eapply safe_mono; [by apply ParseDSMCCNPTReference_safe |].
  intros [r |] _; [done |]. apply safe_bind. eapply safe_mono; [by apply ParseDSMCCGeneralEvent_safe |]. intros [item |] _; [| done].
  apply safe_bind. apply (safe_mono _ (λ _, True)); [| done]. unfold EventMessageNPT. destruct (negb _ || _) eqn:E; [done |]. bools.
  destruct (ge_TimeValue item) as [| a [| b [| c [| x [| y [| z l]]]]]]; try (rewrite ?len_cons, ?len_nil in *; pose proof (len_nonneg l); lia); try done.
Qed.

Lemma observeES_ok section h : hub_ok h → bytes_ok (ps_Section section) → returns (observeES section h) hub_ok.
Proof.
  intros Hh Hb. unfold observeES. apply safe_bind. eapply safe_mono; [eapply caught_returns, ParseDSMCCStream_safe; exact Hb |].
  intros [stream |] Hstream; [| done]. specialize (Hstream stream eq_refl). destruct (negb _); [done |].
  pose proof (carouselByPIDLocked_ok (ps_PID section) h Hh) as Hc. destruct (carouselByPIDLocked _ h) as [h1 found]. destruct Hc as (Hh1 & _ & Hf).
  destruct found as [[[sid tag] c] |]; [| done]. destruct Hf as [(s & Hs & _) _]. apply safe_bind.
  apply (safe_mono _ (λ _, True)); [apply safe_foldM; [done |]; intros es d _ Hd; unfold descriptors_ok in Hstream; rewrite Forall_forall in Hstream; by apply streamEvent_safe, Hstream |].
  intros events _. assert (serviceOf sid h1 = s) as Es by (unfold serviceOf; by rewrite Hs).
  eapply safe_mono; [apply notice_ok; [done | unfold view; by rewrite Es | by rewrite Es | intros start es Hk; by apply (known_other _ _ _ _ _ Hk)] | by intros h' [? _]].
Qed.

Lemma observeEIT_ok section h : hub_ok h → bytes_ok section → returns (observeEIT section h) hub_ok.
Proof.
  intros Hh Hb. unfold observeEIT. apply safe_bind. eapply safe_mono; [eapply caught_returns, ParseEIT_safe; exact Hb |].
  intros [eit |] _; [| done]. cbv zeta. set (sid := eit_ServiceID eit). pose proof (serviceLocked_ok sid h Hh) as Hsl.
  destruct (serviceLocked sid h) as [h1 s]. destruct Hsl as (Hh1 & _ & Hs & _). pose proof (hk_services _ (proj1 Hh1) _ _ Hs) as [K1 K2 K3 K4 K5 K6 K7].
  assert (serviceOf sid h1 = s) as Es by (unfold serviceOf; by rewrite Hs).
  eapply safe_mono; [apply change_ok; [done | by split | unfold sequenceOf; by rewrite Es | unfold view; by rewrite Es |] | by intros h' [? _]].
  rewrite Es. intros start es Hk. by apply (known_other _ _ _ _ _ Hk).
Qed.

(** A turn of the loops over the services. *)
Lemma updateService_eq sid f h s : hb_services h !! sid = Some s → updateService sid f h = setService sid (f s) h.
Proof.
  intros E. unfold updateService, setService, setHubServices. f_equal. apply map_eq. intros k. destruct (decide (k = sid)) as [-> |].
  - by rewrite lookup_alter_eq, lookup_insert_eq, E.
  - by rewrite lookup_alter_ne, lookup_insert_ne.
Qed.

Lemma hub_update_ok sid f data h : hub_ok h → is_Some (hb_services h !! sid) → isModuleData data = false →
  (∀ s, sv_carousels (f s) = sv_carousels s ∧ sv_carouselStates (f s) = sv_carouselStates s) →
  (∀ s, service_ok sid s → service_ok sid (f s)) → (∀ s, sv_sequence (f s) = sv_sequence s) →
  (∀ bit s, viewOf bit sid (counted data (f s)) = follow (viewOf bit sid s) (numbered data (f s))) →
  returns (broadcastLocked sid data (updateService sid f h)) (λ h', hub_ok h' ∧ ∀ k, is_Some (hb_services h !! k) → is_Some (hb_services h' !! k)).
Proof.
  intros Hh [s Hs] Hdata Hsame Hok Hn Hv. rewrite (updateService_eq _ _ _ _ Hs). assert (serviceOf sid h = s) as Es by (unfold serviceOf; by rewrite Hs).
  eapply safe_mono; [apply change_ok; [done | apply Hok; by apply (hk_services _ (proj1 Hh) sid) | unfold sequenceOf; by rewrite Es, Hn | unfold view; by rewrite Es |] |].
  { rewrite Es. intros start es Hk. apply (known_other _ _ _ _ _ Hk); [done | apply Hsame..]. }
  intros h' [Hh' ->]. split; [done |]. intros k Hk. rewrite lookup_insert_is_Some. destruct (decide (sid = k)); [by left | by right].
Qed.

Lemma range_services h k s : (k, s) ∈ range (hb_services h) → is_Some (hb_services h !! k).
Proof. intros H%range_elem. by eexists. Qed.

Lemma observeTOT_ok section h : hub_ok h → bytes_ok section → returns (observeTOT section h) hub_ok.
Proof.
  intros Hh Hb. unfold observeTOT. apply safe_bind. eapply safe_mono; [eapply caught_returns, ParseTOT_safe; exact Hb |].
  intros [tot |] _; [| done]. cbv zeta. eapply safe_mono; [apply (safe_foldM (λ h', hub_ok h' ∧ ∀ k, is_Some (hb_services h !! k) → is_Some (hb_services h' !! k))) |].
  - by split.
  - intros h1 [k s] [Hh1 Hdom] Hin%range_services. cbn [fst]. eapply safe_mono; [apply hub_update_ok; [done | by apply Hdom | done | done | | done | done] |].
    + intros s0 [K1 K2 K3 K4 K5 K6 K7]. by split.
    + intros h2 [Hh2 Hdom2]. split; [done |]. intros j Hj. by apply Hdom2, Hdom.
  - by intros h' [? _].
Qed.

Lemma ObservePacket_ok packet h : hub_ok h → packet_ok packet → returns (ObservePacket packet h) hub_ok.
Proof.
  intros Hh Hp. unfold ObservePacket. apply safe_bind. eapply safe_mono; [by apply ProgramClockReference_safe |].
  intros [[base ext] |] _; [| done]. rewrite PID_full by done. cbn [mbind outcome_bind]. cbv zeta.
  eapply safe_mono; [apply (safe_foldM (λ h', hub_ok h' ∧ ∀ k, is_Some (hb_services h !! k) → is_Some (hb_services h' !! k))) |].
  - by split.
  - intros h1 [k s] [Hh1 Hdom] Hin%range_services. cbn [fst snd]. destruct (sv_pmt s) as [pmt |]; [| done]. destruct (_ =? _); [| done].
    eapply safe_mono; [apply hub_update_ok; [done | by apply Hdom | done | done | | done | done] |].
    + intros s0 [K1 K2 K3 K4 K5 K6 K7]. by split.
    + intros h2 [Hh2 Hdom2]. split; [done |]. intros j Hj. by apply Hdom2, Hdom.
  - by intros h' [? _].
Qed.

Lemma broadcasterDescriptor_safe b d : bytes_ok d ∧ desc_ok d → returns (broadcasterDescriptor b d) (λ _, True).
Proof.
  intros [Hb Hd]. apply desc_ok_complete in Hd as Hc. destruct Hc as [H2 Hl]. unfold broadcasterDescriptor, Tag. go.
  - eapply safe_mono; [eapply (caught_returns (λ _, True) _ (λ _, True)) | by intros [?|] _].
    unfold ParseBroadcasterNameDescriptor, Length, Tag. go; try exact I. apply Data_safe; [done | done |]. intros Hdb. eapply returns_ends; [by apply (Decode_ok _ jis_text) | done].
  - eapply safe_mono; [eapply caught_returns; by apply ParseServiceListDescriptor_safe | by intros [?|] _].
  - eapply safe_mono; [eapply caught_returns; by apply ParseExtended_safe | by intros [?|] _].
  - done.
Qed.

Lemma observeBIT_ok section h : hub_ok h → bytes_ok section → returns (observeBIT section h) hub_ok.
Proof.
  intros Hh Hb. unfold observeBIT. apply safe_bind. eapply safe_mono; [eapply caught_returns, ParseBIT_safe; exact Hb |].
  intros [bit |] Hbit; [| done]. destruct (Hbit bit eq_refl) as (_ & Hbs & _). destruct (negb _); [done |]. apply safe_bind.
  apply (safe_mono _ (λ _, True)).
  { apply safe_foldM; [done |]. intros bs b _ Hin. rewrite Forall_forall in Hbs. destruct (Hbs b Hin) as [_ Hds]. unfold bitBroadcaster. apply safe_bind.
    apply (safe_mono _ (λ _, True)); [| done]. apply safe_foldM; [done |]. intros b' d _ Hd. unfold descriptors_ok in Hds. rewrite Forall_forall in Hds. by apply broadcasterDescriptor_safe, Hds. }
  intros broadcasters _. cbv zeta. set (value := MkBroadcastBIT _ _ _ _). destruct Hh as [Hbase Hch].
  assert (hub_base (setBIT value h)) as Hbase1 by (destruct Hbase; by split).
  eapply safe_mono; [apply (safe_foldM_prefix (λ k h', hub_base h' ∧ hb_bit h' = Some value ∧ (∀ s ch, is_Some (subscribed h' s ch) → is_Some (subscribed h s ch)) ∧
    channels_ok (λ sid, if decide (sid ∈ k.*1) then knownTo h' sid else known (hb_bit h) sid (serviceOf sid h')) (sequenceOf h') h' )) |].
  - do 3 (split; [done |]). eapply channels_ok_knows; [exact Hch | done | done | done |]. intros sid ch _. split; [| done].
    rewrite decide_False by apply not_elem_of_nil. done.
  - intros k [sid m] h1 (Hb1 & Hbit1 & Hsub1 & Hc1) Hpre. cbn [fst]. pose proof (range_fresh _ _ _ Hpre) as Hfresh. cbn [fst] in Hfresh.
    eapply safe_mono; [apply (broadcast_ok _ _ sid (BITData value) h1 Hc1 eq_refl) |]. intros h2 (Hk & Hsub2 & Hc2). split; [| split; [| split]].
    + eapply kept_base; [exact Hk |]. apply setService_base; [done |]. destruct (serviceOf_ok h1 sid Hb1) as [K1 K2 K3 K4 K5 K6 K7]. split; try done.
      cbn. unfold u64. apply Z.mod_pos_bound. lia.
    + by rewrite (kp_bit _ _ Hk).
    + intros s ch Hs. by apply Hsub1, Hsub2.
    + assert (∀ j, serviceOf j h2 = if decide (j = sid) then counted (BITData value) (serviceOf sid h1) else serviceOf j h1) as Es.
      { intros j. unfold serviceOf at 1. rewrite (kp_services _ _ Hk). apply (serviceOf_set h1). }
      eapply channels_ok_knows; [exact Hc2 | done | done | done |]. intros j ch _. rewrite fmap_app. cbn [fmap list_fmap fst].
      unfold knownTo, sequenceOf. rewrite Es, (kp_bit _ _ Hk). cbn [setService setHubServices hb_bit]. rewrite Hbit1.
      destruct (decide (j = sid)) as [-> | Hne].
      * rewrite (decide_True (P := sid ∈ _ ++ _)) by (apply elem_of_app; right; by left). rewrite !fn_lookup_insert, decide_False by done. split; [| done].
        intros start ? (es & -> & E1 & E2). split; [| by apply (known_other _ _ _ _ _ E2)]. rewrite fold_left_app. cbn [fold_left]. by rewrite <- E1.
      * rewrite !fn_lookup_insert_ne by done. split; [| done]. intros start es. destruct (decide (j ∈ k.*1)) as [Hj | Hj] in |- *.
        -- by rewrite decide_True by (apply elem_of_app; by left).
        -- rewrite decide_False; [done |]. by intros [? | ?%list_elem_of_singleton]%elem_of_app.
  - intros h' (Hb' & Hbit' & Hsub' & Hc'). split; [done |]. eapply channels_ok_knows; [exact Hc' | done | done | done |]. intros sid ch Hs. split; [| done].
    cbv beta. case_decide as Hd; [done |]. exfalso. apply Hd. apply Hsub' in Hs as [b Hs]. unfold subscribed in Hs.
    destruct (hb_subs h !! sid) as [m |] eqn:E; [| cbn in Hs; by rewrite lookup_empty in Hs]. apply list_elem_of_fmap. exists (sid, m). split; [done |].
    by apply range_elem.
Qed.

(** ** Download messages *)

Lemma returnToEntry_safe p : bytes_ok p → returns (diiReturnToEntry p) (λ _, True).
Proof.
  intros Hp. unfold diiReturnToEntry. apply (safe_loop bytes_ok (λ p, length p)); [| done | lia]. clear p Hp. intros p Hp. unfold returnToEntryBody.
  destruct (Z.leb_spec 2 (len p)); [| done]. pose proof (byteAt_ok p 1 Hp) as Hn. unfold byte_ok in Hn. go; try exact I.
  split; [by apply bytes_ok_sub, bytes_ok_sub | unfold len in *; lia].
Qed.

Lemma status_reasons infos rejections reasons : reasons = map (λ _ : DSMCCModuleInfo, None) infos ++ map (λ r, Some (rj_Reason r)) rejections →
  carouselStatus infos rejections = listStatus reasons.
Proof.
  intros ->. unfold carouselStatus, listStatus. rewrite existsb_app, fold_left_app.
  assert (∀ st, fold_left reasonStatus (map (λ _ : DSMCCModuleInfo, None) infos) st = st) as -> by (induction infos; intros; cbn; auto).
  assert (existsb (λ r : option rejection, match r with None => true | Some _ => false end) (map (λ r, Some (rj_Reason r)) rejections) = false) as ->
    by (induction rejections; cbn; auto).
  rewrite orb_false_r.
  assert (match infos with [] => empty_ | _ => active end = if existsb (λ r : option rejection, match r with None => true | Some _ => false end)
    (map (λ _ : DSMCCModuleInfo, None) infos) then active else empty_) as -> by (by destruct infos).
  generalize (if existsb (λ r : option rejection, match r with None => true | Some _ => false end) (map (λ _ : DSMCCModuleInfo, None) infos) then active else empty_).
  induction rejections as [| r l IH]; intros st; [done |]. cbn [fold_left map]. rewrite IH. f_equal.
Qed.

Lemma updateComponent_elem tag ev rte st l c : c ∈ updateComponent tag ev rte st l → dc_ComponentTag c = tag ∨ c ∈ l.
Proof.
  induction l as [| x l IH]; cbn [updateComponent]; [by right |]. destruct (Z.eqb_spec (dc_ComponentTag x) tag) as [E |].
  - intros [-> | H]%elem_of_cons; [by left | right; by right].
  - intros [-> | H]%elem_of_cons; [right; by left |]. destruct (IH H); [by left | right; by right].
Qed.

Lemma updateComponent_tags tag ev rte st l : tagsOf (updateComponent tag ev rte st l) = tagsOf l.
Proof. induction l as [| x l IH]; [done |]. cbn [updateComponent]. destruct (_ =? _); cbn; [done |]. by f_equal. Qed.

Lemma updateComponent_bare tag ev rte st l c : c ∈ updateComponent tag ev rte st l → (∀ x, x ∈ l → dc_Modules x = []) → dc_Modules c = [].
Proof.
  induction l as [| x l IH]; cbn [updateComponent]; [by intros ?%elem_of_nil |]. intros Hc Hl. destruct (_ =? _); apply elem_of_cons in Hc as [-> | Hc].
  - cbn. apply Hl. by left.
  - apply Hl. by right.
  - apply Hl. by left.
  - apply IH; [done |]. intros y Hy. apply Hl. by right.
Qed.

(** The components of the client and those of the service stay in step. *)
Lemma restate_overlay tag ev rte st s s' l : sv_carouselStates s' = <[tag := st]> (sv_carouselStates s) →
  map (λ c, withModules [] (overlay s' c)) (updateComponent tag ev rte st l) =
  map (restate tag st) (updateComponent tag ev rte st (map (λ c, withModules [] (overlay s c)) l)).
Proof.
  intros Hs. assert (∀ l, map (λ c, withModules [] (overlay s' c)) l = map (restate tag st) (map (λ c, withModules [] (overlay s c)) l)) as Hrest.
  { intros l0. rewrite map_map. apply map_ext. intros c. unfold overlay, restate. rewrite Hs. destruct (decide (dc_ComponentTag c = tag)) as [E | Hne].
    - rewrite E, lookup_insert_eq. destruct (sv_carouselStates s !! tag); cbn; by rewrite E, Z.eqb_refl.
    - rewrite lookup_insert_ne by done. apply Z.eqb_neq in Hne. destruct (sv_carouselStates s !! dc_ComponentTag c); cbn; by rewrite Hne. }
  induction l as [| c l IH]; [done |]. cbn [updateComponent map].
  assert (dc_ComponentTag (withModules [] (overlay s c)) = dc_ComponentTag c) as -> by (unfold overlay; by destruct (sv_carouselStates s !! dc_ComponentTag c)).
  destruct (Z.eqb_spec (dc_ComponentTag c) tag) as [E | Hne]; cbn [map].
  - rewrite Hrest. f_equal. unfold overlay, restate. cbn [dc_ComponentTag]. rewrite Hs, E, lookup_insert_eq.
    destruct (sv_carouselStates s !! tag); cbn; by rewrite ?E, ?Z.eqb_refl.
  - rewrite IH. f_equal. specialize (Hrest [c]). cbn in Hrest. by injection Hrest.
Qed.

(** The loop over the accepted modules has listed each of them; it has completed
    none but those it lists as complete. *)
Record announcing_ok (sid tag : Z) (dii : DSMCCDII) (c : DSMCCCarousel) (infos : list DSMCCModuleInfo) (st : announcing (S := S)) : Prop := {
  ao_fine : carousel_fine sid tag (ag_carousel st);
  ao_store s : ag_store st = Some s → store_ok good s;
  ao_listed : Forall2 (λ x info, sameModule x (stateModule tag (fresh dii info 0))) (ag_modules st) infos;
  ao_descends : descends (λ s, ∃ x, x ∈ ag_modules st ∧ sameModule x (stateModule tag s) ∧ dm_Complete x = true) c (ag_carousel st);
  ao_rejected : c_rejected (ag_carousel st) = c_rejected c;
  ao_sound x id s : x ∈ ag_modules st ++ ag_restored st → c_modules (ag_carousel st) !! id = Some s → sameModule x (stateModule tag s) →
    dm_Complete x = true → ms_completed s = true;
  ao_restored x : x ∈ ag_restored st → dm_ComponentTag x = tag ∧ dm_Complete x = true
}.

Lemma announcing_step sid tag dii c infos st info m c' store' restored new : announcing_ok sid tag dii c infos st →
  carousel_fine sid tag c' → (∀ s, store' = Some s → store_ok good s) → sameModule m (stateModule tag (fresh dii info 0)) →
  descends new (ag_carousel st) c' → c_rejected c' = c_rejected (ag_carousel st) →
  (∀ s, new s → dm_Complete m = true ∧ sameModule m (stateModule tag s)) →
  (∀ x, x ∈ restored → dm_ComponentTag x = tag ∧ dm_Complete x = true ∧ sameModule x m) →
  (dm_Complete m = false → restored = []) →
  (∀ id s, dm_Complete m = true → c_modules c' !! id = Some s → sameModule m (stateModule tag s) → ms_completed s = true) →
  announcing_ok sid tag dii c (infos ++ [info]) (MkAnnouncing c' store' (ag_modules st ++ [m]) (ag_restored st ++ restored)).
Proof.
  intros [A1 A2 A3 A4 A5 A6 A7] Hf Hst Hm Hd Hr Hnew Hres Hnone Hdone. split; cbn [ag_carousel ag_store ag_modules ag_restored]; try done.
  - apply Forall2_app; [done | by apply Forall2_cons].
  - eapply descends_trans; [exact A4 | exact Hd | |].
    + intros s s' (x & Hx & H & Hxc) E1 E2. exists x. split_and!; [apply elem_of_app; by left | | done]. etrans; [exact H | by apply sameModule_state].
    + intros s [Hmc H]%Hnew. exists m. split_and!; [apply elem_of_app; right; by left | done | done].
  - congruence.
  - intros x id s Hx Hs H Hxc. destruct (Hd id s Hs) as (s0 & Hs0 & E1 & E2 & Hkeep & _).
    assert (x ∈ ag_modules st ++ ag_restored st → ms_completed s = true) as Hold.
    { intros Hin. apply Hkeep, (A6 x id s0 Hin Hs0); [| done]. etrans; [exact H | by apply sameModule_state]. }
    rewrite !elem_of_app, list_elem_of_singleton in Hx. rewrite elem_of_app in Hold. destruct Hx as [[Hx | ->] | [Hx | Hx]]; [by auto | by eapply Hdone | by auto |].
    destruct (Hres x Hx) as (_ & _ & Hxm). apply (Hdone id s); [| done | by rewrite <- Hxm].
    destruct (dm_Complete m) eqn:E; [done |]. rewrite (Hnone eq_refl) in Hx. by apply elem_of_nil in Hx.
  - intros x [Hx | Hx]%elem_of_app; [by apply A7 | by destruct (Hres x Hx) as (? & ? & _)].
Qed.

Lemma announceModule_ok h sid tag dii c infos st info : hub_base h → acceptable dii info → Forall module_ok (dii_Modules dii) →
  announcing_ok sid tag dii c infos st →
  returns (announceModule h sid tag dii st info) (announcing_ok sid tag dii c (infos ++ [info])).
Proof.
  intros Hb (Hin & _ & Hbs) Hms Hst. unfold announceModule. rewrite (proj2 (Z.eqb_neq _ _) Hbs). rewrite Forall_forall in Hms.
  destruct (Hms info Hin) as (_ & _ & _ & Hinfo). apply safe_bind. eapply safe_mono; [by apply Metadata_safe |]. intros metadata _. cbv zeta.
  set (m := MkBroadcastModule _ _ _ _ _ _ _ _ _ _ _ _ _ _).
  assert (∀ c' store', carousel_fine sid tag c' → (∀ s, store' = Some s → store_ok good s) → descends (λ _, False) (ag_carousel st) c' →
    c_rejected c' = c_rejected (ag_carousel st) →
    announcing_ok sid tag dii c (infos ++ [info]) (MkAnnouncing c' store' (ag_modules st ++ [m]) (ag_restored st))) as Hmissed.
  { intros c' store' Hc' Hs' Hd Hr. rewrite <- (app_nil_r (ag_restored st)). eapply announcing_step; try done. by intros x ?%elem_of_nil. }
  pose proof (ao_fine _ _ _ _ _ _ Hst) as Hf. pose proof (ao_store _ _ _ _ _ _ Hst) as Hstore.
  destruct (ag_store st) as [s |] eqn:Es; [| apply safe_ret, Hmissed; [done | done | by apply descends_subseteq | done]].
  apply safe_bind. eapply safe_mono; [apply (get_ok good); by apply Hstore |]. intros [s1 cached] [Hs1 Hcached].
  assert (∀ s, Some s1 = Some s → store_ok good s) as Hs1' by by intros ? [= <-].
  destruct cached as [cached |]; [| apply safe_ret, Hmissed; [done | done | by apply descends_subseteq | done]].
  specialize (Hcached cached eq_refl). unfold moduleCacheKey in Hcached. rewrite (hk_type _ Hb), (hk_id _ Hb) in Hcached.
  pose proof (good_key _ _ _ _ _ _ _ Hcached) as Hgood. pose proof Hcached as (Hbytes & _ & E1 & E2 & E3 & E4 & _). cbn in E1, E2, E3, E4.
  apply safe_bind. pose proof (Restore_fine sid tag cached _ Hf Hgood) as Hres. destruct (Restore cached (ag_carousel st)) as [[c1 ok] | | |] eqn:ER; try done.
  cbn [ends]. pose proof (Restore_descends _ _ _ _ ER) as Hd. apply Restore_rejected in ER as Hrej.
  assert (∀ id s, c_modules c1 !! id = Some s → mi_ModuleID (ms_info s) = id) as Hid by (intros id s0 Hs0; by apply (carousel_state_ok _ _ _ _ _ Hres Hs0)).
  destruct ok; [| apply safe_ret, Hmissed; [done | done | by eapply descends_none; [exact Hd | intros s0 [? _]] | done]].
  apply safe_bind. eapply safe_mono; [apply apiModule_ok; exact Hbytes |]. intros api (P1 & P2 & P3 & P4 & P5 & _ & P6 & P7). apply safe_ret.
  set (c2 := if persistent then _ else c1).
  assert (carousel_fine sid tag c2) as Hc2 by (unfold c2; destruct persistent; [by apply Release_fine | done]).
  assert (descends (λ _, False) c1 c2) as Hd2 by (unfold c2; destruct persistent; [apply Release_descends | by apply descends_subseteq]).
  assert (c_rejected c2 = c_rejected c1) as Hr2 by (unfold c2; destruct persistent; [apply ReleaseCompletedPayload_rejected | done]).
  assert (descends (λ s', sameModule (completedModule m) (stateModule tag s')) (ag_carousel st) c2) as Hdesc.
  { eapply descends_trans; [exact Hd | exact Hd2 | | done]. intros s0 s' (_ & Hs0 & H1 & H2 & H3) Ei Ed. apply Hid in Hs0.
    unfold sameModule. cbn. rewrite Ei, Ed. split_and!; congruence. }
  assert (∀ x, x ∈ [api] → sameModule x (completedModule m)) as Hapi.
  { intros x ->%list_elem_of_singleton. unfold sameModule. cbn. split_and!; congruence. }
  apply (announcing_step _ _ _ _ _ _ info (completedModule m) _ _ _ _ Hst Hc2 Hs1' ltac:(done) Hdesc); [congruence | done | | done |].
  - intros x Hx. split_and!; [by apply list_elem_of_singleton in Hx as -> .. | by apply Hapi].
  - intros id s2 _ Hs2 (Hsame & _). destruct (Hd2 id s2 Hs2) as (s0 & Hs0 & Ei & _ & Hkeep & _). apply Hkeep, (Restore_completed _ _ _ _ ER).
    cbn in Hsame. by rewrite E2, Hsame, Ei, (Hid _ _ Hs0).
Qed.

(** A module event that says of a module of the carousel that it is complete. *)
Lemma module_known s tag c0 c new m e start es : modulesKnown s start es → be_data e = ModuleData m → dm_ComponentTag m = tag →
  sv_carousels s !! tag = Some c0 → descends new c0 c → c_rejected c = c_rejected c0 → dm_Complete m = true →
  (∀ st, new st → sameModule m (stateModule tag st)) →
  (∀ id st, c_modules c !! id = Some st → sameModule m (stateModule tag st) → ms_completed st = true) →
  modulesKnown (setCarousel tag c s) start (es ++ [e]).
Proof.
  intros Hk He Htag Hc Hd Hr Hm Hnew Hdone. apply (setCarousel_known _ _ _ _ es); [| | done]; rewrite ?heard_snoc, ?told_snoc; unfold hears, mentions.
  - rewrite He, Htag, Z.eqb_refl. eapply knows_module; [by apply Hk | done..].
  - intros t Ht. rewrite heard_snoc, told_snoc. unfold hears, mentions. rewrite He, Htag. rewrite (proj2 (Z.eqb_neq tag t)) by done. by rewrite app_nil_r.
Qed.

Lemma setCarousel_id tag c s : sv_carousels s !! tag = Some c → setCarousel tag c s = s.
Proof. intros Hc. unfold setCarousel, setCarousels. rewrite insert_id by done. by destruct s. Qed.

Lemma notices_ok sid tag c l h s : hub_ok h → hb_services h !! sid = Some s → sv_carousels s !! tag = Some c →
  (∀ m, m ∈ l → dm_ComponentTag m = tag ∧ dm_Complete m = true ∧
    ∀ id st, c_modules c !! id = Some st → sameModule m (stateModule tag st) → ms_completed st = true) →
  returns (foldM (λ h m, broadcastLocked sid (ModuleData m) h) l h) hub_ok.
Proof.
  intros Hh Hs Hc Hl.
  eapply safe_mono; [apply (safe_foldM (λ h', hub_ok h' ∧ ∃ s', hb_services h' !! sid = Some s' ∧ sv_carousels s' !! tag = Some c)); [by eauto |] | by intros h' [? _]].
  intros h1 m [Hh1 (s1 & Hs1 & Hc1)] Hm. assert (serviceOf sid h1 = s1) as Es by (unfold serviceOf; by rewrite Hs1).
  destruct (Hl m Hm) as (Htag & Hmc & Hdone). eapply safe_mono; [apply notice_ok; [done | unfold view; by rewrite Es | by rewrite Es |] |].
  - rewrite Es. intros start es Hk. rewrite <- (setCarousel_id tag c s1 Hc1) at 1. eapply (module_known s1 tag c c (λ _, False)); try done.
    by apply descends_subseteq.
  - intros h2 [Hh2 ->]. split; [done |]. rewrite lookup_insert_eq, Es. by eexists.
Qed.

(** After the list of a DII the client knows the carousel anew. *)
Lemma listed_known sid tag s start es dii c c1 infos st added rejections e l state s' : modulesKnown s start es →
  sv_carousels s !! tag = Some c → carousel_fine sid tag c → word16 (dii_BlockSize dii) → Forall module_ok (dii_Modules dii) →
  ObserveDII dii c = Ret (c1, infos) → carousel_fine sid tag c1 → announcing_ok sid tag dii c1 infos st → rejections = RejectedAnnouncements c1 →
  map withoutMetadata added = map (refusedModule tag (dii_DownloadID dii)) rejections →
  be_data e = ModuleListData l → dl_ComponentTag l = tag → dl_Modules l = ag_modules st ++ added →
  cs_downloadID state = dii_DownloadID dii → sv_carousels s' = <[tag := ag_carousel st]> (sv_carousels s) →
  sv_carouselStates s' = <[tag := state]> (sv_carouselStates s) → modulesKnown s' start (es ++ [e]).
Proof.
  intros Hk Hc Hf Hbs Hms EDII Hf1 Hst -> Hadded He Htag Hmodules Hdownload Ecs Est t c' Hc'. rewrite Ecs in Hc'. rewrite Est, heard_snoc, told_snoc.
  unfold hears, mentions. rewrite He, Htag. destruct (Z.eqb_spec tag t) as [<- | Hne].
  2: { rewrite !lookup_insert_ne in * by done. rewrite app_nil_r. by apply Hk. }
  rewrite lookup_insert_eq in Hc'. injection Hc' as <-. rewrite lookup_insert_eq, Hmodules. destruct Hst as [_ _ A3 A4 A5 A6 _].
  set (all := told tag start es) in *. specialize (Hk tag c Hc). split.
  - intros id s2 Hs2. destruct (A4 id s2 Hs2) as (s1 & Hs1 & Ei & Ed & _). destruct (ObserveDII_announced _ _ _ _ EDII id s1 Hs1) as (m & Hm & H1 & H2 & H3 & H4).
    apply list_elem_of_lookup in Hm as [i Hi]. destruct (Forall2_lookup_r _ _ _ _ _ A3 Hi) as (x & Hx & Hsame). exists x.
    split; [apply elem_of_app; left; by eapply list_elem_of_lookup_2 |]. etrans; [exact Hsame |]. unfold sameModule. cbn. rewrite Ei, Ed.
    pose proof (so_id _ _ _ (carousel_state_ok _ _ _ _ _ Hf1 Hs1)). split_and!; congruence.
  - intros id s2 Hs2 Hdone. destruct (A4 id s2 Hs2) as (s1 & Hs1 & Ei & Ed & _ & [Hd1 | (x & Hx & Hsame & Hxc)]); [done | |].
    + assert (all_states (λ s, ms_completed s = true → ∃ x, x ∈ all ∧ sameModule x (stateModule tag s) ∧ dm_Complete x = true) c1) as Hall.
      { pose proof (ObserveDII_states (λ s, ms_completed s = true → ∃ x, x ∈ all ∧ sameModule x (stateModule tag s) ∧ dm_Complete x = true)
          dii c (cf_ok _ _ _ Hf) Hms Hbs (kc_told _ _ _ _ _ Hk)) as H. rewrite EDII in H. apply H. done. }
      destruct (Hall id s1 Hs1 Hd1) as (x & Hx & Hsame & Hxc). exists x. split_and!; [apply elem_of_app; by left | | done].
      etrans; [exact Hsame | by apply sameModule_state].
    + exists x. split_and!; [apply elem_of_app; right; apply elem_of_app; by left | done | done].
  - intros id s2 x Hs2 [Hx | Hx]%elem_of_app Hsame Hxc; [eapply A6; [apply elem_of_app; by left | done..] |].
    destruct (withoutMetadata_elem _ _ _ _ Hadded Hx) as (r & _ & Er). apply sameModule_without in Er. exfalso.
    destruct Er as (_ & _ & _ & _ & Er), Hsame as (_ & _ & _ & _ & Hr). cbn in Er, Hr. congruence.
  - intros id r Hr. rewrite A5 in Hr. destruct (elem_withoutMetadata (refusedModule tag (dii_DownloadID dii)) added (RejectedAnnouncements c1) r Hadded) as (x & Hx & Er).
    + unfold RejectedAnnouncements. rewrite merge_sort_Permutation. apply list_elem_of_fmap. exists (id, r). split; [done | by apply range_elem].
    + exists x. split; [apply elem_of_app; by right |]. cbn [from_option]. rewrite Hdownload. by apply sameModule_without.
Qed.

Lemma observeDII_ok section h : hub_ok h → bytes_ok (ps_Section section) → returns (observeDII section h) hub_ok.
Proof.
  intros Hh Hb. unfold observeDII. apply safe_bind. eapply safe_mono; [eapply caught_returns, ParseDSMCCDII_safe; exact Hb |].
  intros [dii |] Hdii; [| done]. destruct (Hdii dii eq_refl) as (_ & Hbs & Hms & Hpriv).
  pose proof (carouselByPIDLocked_ok (ps_PID section) h Hh) as Hc. destruct (carouselByPIDLocked _ h) as [h1 found]. destruct Hc as (Hh1 & _ & Hf).
  destruct found as [[[sid tag] c] |]; [| done]. destruct Hf as [(s & Hs & Htag & Hcar) _]. rewrite Hs. case_bool_decide; [done |].
  pose proof (hk_services _ (proj1 Hh1) _ _ Hs) as [K1 K2 K3 K4 K5 K6 K7]. assert (serviceOf sid h1 = s) as Es by (unfold serviceOf; by rewrite Hs).
  pose proof (ObserveDII_fine sid tag dii c (K1 tag c Hcar) Hbs Hms) as HDII. apply safe_bind.
  destruct (ObserveDII dii c) as [[c1 infos] | | |] eqn:EDII; try done. destruct HDII as [Hc1 Hinfos]. cbn [ends]. cbv zeta.
  apply safe_bind. eapply safe_mono; [by apply returnToEntry_safe |]. intros returnToEntry _. apply safe_bind.
  eapply safe_mono; [apply (safe_foldM_prefix (announcing_ok sid tag dii c1)) |].
  { split; cbn; [done | apply (hk_store _ (proj1 Hh1)) | constructor | by apply descends_subseteq | done | by intros x id s0 ?%elem_of_nil | by intros x ?%elem_of_nil]. }
  { intros k info st Hst Hpre. rewrite Forall_forall in Hinfos. apply announceModule_ok; [by apply Hh1 | apply Hinfos | done..].
    destruct Hpre as [r ->]. apply elem_of_app. left. apply elem_of_app. right. by left. }
  intros st Hst. apply safe_bind. eapply safe_mono.
  { apply (appendTo_ok (rejectedModule tag (dii_DownloadID dii)) (refusedModule tag (dii_DownloadID dii))). intros r Hr. apply rejectedModule_ok.
    eapply rejections_infos; [apply Hc1 | exact Hr]. }
  intros modules (added & Emodules & Hadded). set (rejections := RejectedAnnouncements c1) in *.
  set (state := MkCarouselState (carouselStatus infos rejections) _ _). set (ev := u8 _). set (s' := MkBroadcastService (updatePMT tag ev returnToEntry state <$> _) _ _ _ _ _ _ _ _ _ _).
  assert (componentsOf s' = updateComponent tag ev returnToEntry state (componentsOf s)) as Ecs by (unfold componentsOf; cbn; by destruct (sv_pmt s)).
  change (setStore (ag_store st) (setService sid s' h1)) with (setService sid s' (setStore (ag_store st) h1)). apply safe_bind.
  set (list := MkModuleList tag _ _ ev returnToEntry modules).
  assert (listState list = state) as Elist.
  { unfold listState, list, state. cbn. f_equal. symmetry. apply status_reasons. rewrite Emodules, map_app. f_equal.
    - clear -Hst. destruct Hst as [_ _ H _ _ _ _]. induction H as [| x info xs infos Hx _ IH]; [done |]. cbn [map]. rewrite IH. f_equal. apply Hx.
    - assert (map dm_RejectionReason added = map dm_RejectionReason (map withoutMetadata added)) as -> by (rewrite map_map; by apply map_ext).
      rewrite Hadded, map_map. by apply map_ext. }
  eapply safe_mono; [apply change_ok; [apply setStore_ok; [done | apply Hst] | | | |] |].
  - split; cbn [sv_carousels sv_pidToTag sv_carouselStates sv_sequence s'].
    + apply map_Forall_insert_2; [apply Hst | done].
    + intros pid t Ht. rewrite Ecs, updateComponent_tags, lookup_insert_is_Some'. destruct (K2 pid t Ht). split; [done | by right].
    + intros t Ht. rewrite Ecs, updateComponent_tags, lookup_insert_is_Some'. apply lookup_insert_is_Some' in Ht as [<- | Ht].
      * split; [by eapply K2 | by left].
      * destruct (K3 t Ht). split; [done | by right].
    + intros x Hx Hd. rewrite Ecs in Hx. rewrite lookup_insert_is_Some'. apply updateComponent_elem in Hx as [-> | Hx]; [by left | right; by apply K4].
    + exact K5.
    + intros t Ht. rewrite Ecs, updateComponent_tags. apply lookup_insert_is_Some' in Ht as [<- | Ht]; [by eapply K2 | by apply K6].
    + intros x Hx. rewrite Ecs in Hx. by eapply updateComponent_bare.
  - change (sequenceOf (setStore (ag_store st) h1) sid) with (sequenceOf h1 sid). unfold sequenceOf. by rewrite Es.
  - change (view (setStore (ag_store st) h1) sid) with (view h1 sid). unfold view. rewrite Es. change (hb_bit (setStore (ag_store st) h1)) with (hb_bit h1).
    unfold viewOf at 1. change (componentsOf (counted (ModuleListData list) s')) with (componentsOf s'). rewrite Ecs.
    change (λ c, withModules [] (overlay (counted (ModuleListData list) s') c)) with (λ c, withModules [] (overlay s' c)).
    rewrite (restate_overlay tag ev returnToEntry state s s') by done.
    unfold follow. cbn [be_data numbered dl_ComponentTag dl_DataEventID dl_ReturnToEntry list ds_PMT ds_Components viewOf]. rewrite Elist. done.
  - change (serviceOf sid (setStore (ag_store st) h1)) with (serviceOf sid h1). rewrite Es. intros start es Hk.
    by eapply (listed_known sid tag s start es dii c c1 infos st added rejections _ list state s' Hk Hcar (K1 tag c Hcar)).
  - intros h2 [Hh2 Hs2]. apply (notices_ok sid tag (ag_carousel st) _ _ (counted (ModuleListData list) s')); [done | by rewrite Hs2, lookup_insert_eq | apply lookup_insert_eq |].
    intros m Hm. destruct (ao_restored _ _ _ _ _ _ Hst m Hm) as [H1 H2]. split_and!; [done | done |]. intros id s1 Hs1 Hsame.
    eapply (ao_sound _ _ _ _ _ _ Hst m id); [apply elem_of_app; by right | done..].
Qed.

(** ** Blocks *)

(** The blocks of the modules whose content is known carry it. *)
Definition truthfulSection (section : PIDSection) h : Prop :=
  ∀ ddb sid tag c s d, ParseDSMCCDDB (ps_Section section) = Ret ddb → mapped h (ps_PID section) sid tag c →
    c_modules c !! ddb_ModuleID ddb = Some s → accepts s ddb → content (moduleKeyOf sid tag s) = Some d → honest d s ddb.

(** Storing a module that has become complete only releases its payload. *)
Lemma stored_ok sid tag s c0 c1 m h : hub_ok h → hb_services h !! sid = Some s → sv_carousels s !! tag = Some c0 → carousel_fine sid tag c1 →
  good (keyFor sid tag (m_DownloadID m) (m_ModuleID m) (m_Version m) (m_Size m)) m →
  let h2 := setService sid (setCarousel tag c1 s) h in
  returns (match hb_moduleStore h2 with
           | None => Ret h2
           | Some st => '(st, ok) ← put (moduleCacheKey h2 sid tag (m_DownloadID m) (m_ModuleID m) (m_Version m) (m_Size m)) m st;
                        let h := setStore (Some st) h2 in
                        Ret (if (ok : bool) && persistent then storeCarousel sid tag (fst (ReleaseCompletedPayload (m_ModuleID m) c1)) h else h)
           end)
    (λ h3, ∃ store' c2, h3 = setService sid (setCarousel tag c2 s) (setStore store' h) ∧ (∀ st, store' = Some st → store_ok good st) ∧
      carousel_fine sid tag c2 ∧ descends (λ _, False) c1 c2 ∧ c_rejected c2 = c_rejected c1).
Proof.
  intros Hh Hs Hc0 Hc1 Hgood. cbn [hb_moduleStore setService setHubServices]. pose proof (hk_store _ (proj1 Hh)) as Hstore.
  destruct (hb_moduleStore h) as [st |] eqn:Est.
  - apply safe_bind. eapply safe_mono; [apply (put_ok good); [by apply Hstore |] |].
    { unfold moduleCacheKey. cbn. rewrite (hk_type _ (proj1 Hh)), (hk_id _ (proj1 Hh)). exact Hgood. }
    intros [st1 ok] Hst1. apply safe_ret. exists (Some st1). destruct (ok && persistent).
    + exists (fst (ReleaseCompletedPayload (m_ModuleID m) c1)). split_and!; [| by intros ? [= <-] | by apply Release_fine | apply Release_descends | apply ReleaseCompletedPayload_rejected].
      rewrite (storeCarousel_eq sid tag _ _ (setCarousel tag c1 s)) by apply lookup_insert_eq.
      unfold setService, setHubServices, setStore, setCarousel, setCarousels. cbn. by rewrite !insert_insert_eq.
    + exists c1. split_and!; [done | by intros ? [= <-] | done | by apply descends_subseteq | done].
  - apply safe_ret. exists None, c1. split_and!; [| done | done | by apply descends_subseteq | done].
    unfold setStore, setService, setHubServices. cbn. by rewrite Est.
Qed.

Lemma observeDDB_ok section h : hub_ok h → bytes_ok (ps_Section section) → truthfulSection section h → returns (observeDDB section h) hub_ok.
Proof.
  intros Hh Hb Htrue. unfold observeDDB. pose proof (ParseDSMCCDDB_safe _ Hb) as Hddb. unfold truthfulSection in Htrue.
  destruct (ParseDSMCCDDB (ps_Section section)) as [ddb | | |]; try done. cbn [caught mbind outcome_bind]. destruct Hddb as [Hddb _].
  pose proof (carouselByPIDLocked_ok (ps_PID section) h Hh) as Hc. destruct (carouselByPIDLocked _ h) as [h1 found]. destruct Hc as (Hh1 & _ & Hf).
  destruct found as [[[sid tag] c] |]; [| done]. destruct Hf as [(s & Hs & Htag & Hcar) Hold].
  pose proof (hk_services _ (proj1 Hh1) _ _ Hs) as Hok. assert (serviceOf sid h1 = s) as Es by (unfold serviceOf; by rewrite Hs). apply safe_bind.
  pose proof (ObserveDDB_fine sid tag ddb c (sk_carousels _ _ Hok tag c Hcar) Hddb) as Hfine.
  assert (∀ s d, c_modules c !! ddb_ModuleID ddb = Some s → accepts s ddb → content (moduleKeyOf sid tag s) = Some d → honest d s ddb) as Hhonest.
  { intros s0 d Hs0. destruct Hold as [Hold | ->]; [by eapply Htrue | cbn in Hs0; by rewrite lookup_empty in Hs0]. }
  specialize (Hfine Hhonest). destruct (ObserveDDBWithResult ddb c) as [[c1 r] | | |] eqn:EDDB; try done. destruct Hfine as [Hc1 Hgood]. cbv zeta. cbn [ends].
  apply ObserveDDB_descends in EDDB as Hd. apply ObserveDDB_rejected in EDDB as Hrej. pose proof (ObserveDDB_complete ddb c c1 r EDDB) as Hcomplete.
  assert ((∀ s, ¬ (do_module r = Some (module s) ∧ do_err r = None ∧ do_complete r = true)) → hub_ok (storeCarousel sid tag c1 h1)) as Hsilent.
  { intros Hn. eapply storeCarousel_ok; [done | done | exact Hcar | done | by eapply descends_none | done]. }
  destruct (do_err r); [apply Hsilent; by intros ? (_ & ? & _) |]. destruct (do_complete r) eqn:Ec; cbn [negb]; [| apply Hsilent; by intros ? (_ & _ & ?)].
  clear Hsilent. rewrite (storeCarousel_eq sid tag c1 h1 s Hs). destruct (Hcomplete eq_refl) as [m Hm]. rewrite Hm in *.
  destruct (Hgood m eq_refl) as [Hm1 Hdone]. apply safe_bind. eapply safe_mono; [apply apiModule_ok; apply Hm1 |].
  intros api (P1 & P2 & P3 & P4 & P5 & _ & P6 & P7). apply safe_bind. eapply safe_mono; [by apply (stored_ok sid tag s c c1 m h1) |].
  intros h3 (store' & c2 & -> & Hst & Hc2 & Hd2 & Hr2).
  assert (∀ s', m = module s' → sameModule api (stateModule tag s')) as Hapi by (intros s' ->; exact (conj P2 (conj P3 (conj P4 (conj P5 P1))))).
  eapply safe_mono; [apply change_ok; [by apply setStore_ok | | | |] | by intros h' [? _]].
  - apply setCarousel_ok; [done | by eapply sk_tags | done].
  - change (sequenceOf (setStore store' h1) sid) with (sequenceOf h1 sid). unfold sequenceOf. by rewrite Es.
  - change (view (setStore store' h1) sid) with (view h1 sid). unfold view. by rewrite Es.
  - change (serviceOf sid (setStore store' h1)) with (serviceOf sid h1). rewrite Es. intros start es Hk.
    apply (module_known s tag c c2 (λ s', sameModule api (stateModule tag s')) api); try done; [| congruence |].
    + eapply descends_trans; [exact Hd | exact Hd2 | | done]. intros s1 s' ([= Em] & _) Ei Ed. rewrite (Hapi s1 Em). by apply sameModule_state.
    + intros id s2 Hs2 (Hsame & _). destruct (Hd2 id s2 Hs2) as (s1 & Hs1 & Ei & _ & Hkeep & _). apply Hkeep.
      apply Hdone. rewrite <- Hs1. f_equal. pose proof (so_id _ _ _ (carousel_state_ok _ _ _ _ _ Hc1 Hs1)). cbn in Hsame. congruence.
Qed.

(** ** Subscribers *)

Definition announcedEntry (tag : Z) (a : DSMCCModuleAnnouncement) : DataBroadcastModule :=
  let m := an_Module a in
  MkBroadcastModule tag (m_ModuleID m) (m_DownloadID m) (m_Version m) (m_Size m) (m_Info m) (an_Complete a)
    (if an_Complete a then complete else if 0 <? an_ReceivedBlocks a then receiving else announced) None (an_ReceivedBlocks a) (an_TotalBlocks a)
    (moduleETag (m_DownloadID m) (m_ModuleID m) (m_Version m) (m_Size m)) [] None.

Lemma announcedModule_ok sid tag c a : carousel_fine sid tag c → a ∈ Announcements c →
  returns (announcedModule tag a) (λ m, withoutMetadata m = announcedEntry tag a).
Proof.
  intros Hc Ha. unfold Announcements in Ha. apply list_elem_of_fmap in Ha as ([id s] & -> & Hin). rewrite merge_sort_Permutation in Hin. apply range_elem in Hin.
  unfold announcedModule, apiModule. apply safe_bind, safe_bind. eapply safe_mono; [apply Metadata_safe; cbn; by apply (cf_states _ _ _ Hc id s Hin) |]. done.
Qed.

Lemma Announcements_perm tag c : map (announcedEntry tag) (Announcements c) ≡ₚ map (stateModule tag) (map_to_list (c_modules c)).*2.
Proof.
  unfold Announcements. rewrite map_map, merge_sort_Permutation, range_perm. rewrite <- list_fmap_compose. apply reflexive_eq, map_ext. by intros [id s].
Qed.
Lemma Rejected_perm tag download c :
  map (refusedModule tag download) (RejectedAnnouncements c) ≡ₚ map (refusedModule tag download) (map_to_list (c_rejected c)).*2.
Proof. unfold RejectedAnnouncements. by rewrite merge_sort_Permutation, range_perm. Qed.

(** The modules that a snapshot shows of a component. *)
Definition modulesShown (s : dataBroadcastService) (tag : Z) : list DataBroadcastModule :=
  match sv_carousels s !! tag with
  | Some c => map (stateModule tag) (map_to_list (c_modules c)).*2 ++
      map (refusedModule tag (from_option cs_downloadID 0 (sv_carouselStates s !! tag))) (map_to_list (c_rejected c)).*2
  | None => []
  end.
Definition shows (s : dataBroadcastService) (k : DataBroadcastComponent) : Prop :=
  map withoutMetadata (dc_Modules k) ≡ₚ modulesShown s (dc_ComponentTag k).

Lemma overlay_tag s c : dc_ComponentTag (overlay s c) = dc_ComponentTag c.
Proof. unfold overlay. by destruct (sv_carouselStates s !! dc_ComponentTag c). Qed.

Lemma overlay_download sid s c : service_ok sid s → c ∈ componentsOf s →
  default 0 (dc_CarouselDownloadID (overlay s c)) = from_option cs_downloadID 0 (sv_carouselStates s !! dc_ComponentTag c).
Proof.
  intros Hok Hin. unfold overlay. destruct (sv_carouselStates s !! dc_ComponentTag c) as [st |] eqn:E; [done |].
  destruct (dc_CarouselDownloadID c) eqn:Ed; [| done]. destruct (sk_components _ _ Hok c Hin) as [st Hst]; [by eexists | congruence].
Qed.

Lemma snapshotComponent_ok sid s c : service_ok sid s → c ∈ componentsOf s →
  returns (snapshotComponent s c) (λ k, withModules [] k = withModules [] (overlay s c) ∧ shows s k).
Proof.
  intros Hok Hin. unfold snapshotComponent, shows, modulesShown. cbv zeta. rewrite (overlay_download sid) by done. rewrite !overlay_tag.
  assert (dc_Modules (overlay s c) = []) as Hbare by (unfold overlay; destruct (sv_carouselStates s !! dc_ComponentTag c); cbn; by apply (sk_bare _ _ Hok)).
  destruct (sv_carousels s !! dc_ComponentTag c) as [car |] eqn:Ec; [| apply safe_ret; rewrite overlay_tag, Ec, Hbare; done].
  pose proof (sk_carousels _ _ Hok _ _ Ec) as Hc. apply safe_bind.
  eapply safe_mono; [apply (appendTo_ok _ (announcedEntry (dc_ComponentTag c))); intros a Ha; by eapply announcedModule_ok |].
  intros ms (l1 & -> & E1). apply safe_bind. set (download := from_option cs_downloadID 0 _).
  eapply safe_mono; [apply (appendTo_ok _ (refusedModule (dc_ComponentTag c) download)) |].
  { intros r Hr. apply rejectedModule_ok. eapply rejections_infos; [apply Hc | exact Hr]. }
  intros ms (l2 & -> & E2). apply safe_ret. split; [done |]. cbn [dc_Modules dc_ComponentTag withModules]. rewrite overlay_tag, Ec, Hbare, !map_app, E1, E2.
  cbn [map app]. by rewrite Announcements_perm, Rejected_perm.
Qed.

Lemma snapshotComponents_ok sid s l : service_ok sid s → l ⊆ componentsOf s →
  returns (snapshotComponents s l) (λ ks, map (withModules []) ks = map (λ c, withModules [] (overlay s c)) l ∧ Forall (shows s) ks).
Proof.
  intros Hok. induction l as [| c l IH]; intros Hl; [by split |]. cbn [snapshotComponents]. apply safe_bind.
  eapply safe_mono; [apply (snapshotComponent_ok sid); [done | apply Hl; by left] |]. intros k [H1 H2]. apply safe_bind.
  eapply safe_mono; [apply IH; intros x Hx; apply Hl; by right |]. intros ks [H3 H4]. apply safe_ret. cbn [map]. rewrite H1, H3. split; [done | by apply Forall_cons].
Qed.

Lemma snapshotLocked_ok sid h : hub_ok h →
  returns (snapshotLocked sid h) (λ s, plain s = view h sid ∧ Forall (shows (serviceOf sid h)) (ds_Components s)).
Proof.
  intros Hh. unfold snapshotLocked, view, serviceOf. destruct (hb_services h !! sid) as [s |] eqn:E; [| by split]. cbn [default].
  pose proof (hk_services _ (proj1 Hh) _ _ E) as Hok. apply safe_bind.
  apply (safe_mono _ (λ ks, map (withModules []) ks = map (λ c, withModules [] (overlay s c)) (componentsOf s) ∧ Forall (shows s) ks)).
  - unfold componentsOf. destruct (sv_pmt s) as [pmt |] eqn:Ep; [| by split]. apply (snapshotComponents_ok sid); [done |].
    unfold componentsOf. by rewrite Ep.
  - intros ks [H1 H2]. apply safe_ret. unfold plain, viewOf. cbn. by rewrite H1.
Qed.

(** What a snapshot shows is what the client knows of the modules. *)
Lemma shows_elem s k m c : shows s k → sv_carousels s !! dc_ComponentTag k = Some c → m ∈ dc_Modules k →
  (∃ id st, c_modules c !! id = Some st ∧ withoutMetadata m = stateModule (dc_ComponentTag k) st) ∨
  (∃ id r, c_rejected c !! id = Some r ∧
    withoutMetadata m = refusedModule (dc_ComponentTag k) (from_option cs_downloadID 0 (sv_carouselStates s !! dc_ComponentTag k)) r).
Proof.
  unfold shows, modulesShown. intros Hk Hc Hm. rewrite Hc in Hk. apply (list_elem_of_fmap_2 withoutMetadata) in Hm. unfold fmap in Hm.
  change (list_fmap _ _ withoutMetadata (dc_Modules k)) with (map withoutMetadata (dc_Modules k)) in Hm. rewrite Hk in Hm.
  apply elem_of_app in Hm as [Hm | Hm]; apply list_elem_of_fmap in Hm as (x & E & Hx); apply list_elem_of_fmap in Hx as ([id y] & -> & Hy%elem_of_map_to_list);
    [left | right]; by exists id, y.
Qed.

Lemma modulesShown_elem s k c m : shows s k → sv_carousels s !! dc_ComponentTag k = Some c →
  (∃ id st, c_modules c !! id = Some st ∧ m = stateModule (dc_ComponentTag k) st) ∨
  (∃ id r, c_rejected c !! id = Some r ∧ m = refusedModule (dc_ComponentTag k) (from_option cs_downloadID 0 (sv_carouselStates s !! dc_ComponentTag k)) r) →
  ∃ x, x ∈ dc_Modules k ∧ withoutMetadata x = m.
Proof.
  unfold shows, modulesShown. intros Hk Hc Hm. rewrite Hc in Hk. assert (m ∈ map withoutMetadata (dc_Modules k)) as Hin.
  { rewrite Hk. apply elem_of_app. destruct Hm as [(id & y & Hy & ->) | (id & y & Hy & ->)]; [left | right]; apply list_elem_of_fmap; exists y;
      (split; [done |]); apply list_elem_of_fmap; exists (id, y); (split; [done | by apply elem_of_map_to_list]). }
  apply list_elem_of_fmap in Hin as (x & ? & ?). by exists x.
Qed.

Lemma modulesOf_elem tag l x : x ∈ modulesOf tag l ↔ ∃ k, k ∈ l ∧ dc_ComponentTag k = tag ∧ x ∈ dc_Modules k.
Proof.
  unfold modulesOf. rewrite list_elem_of_In, in_concat. split.
  - intros (ms & (k & <- & Hk)%in_map_iff & Hx). apply list_elem_of_In, list_elem_of_filter in Hk as [Et Hk]. apply list_elem_of_In in Hx. by exists k.
  - intros (k & Hk & Et & Hx). exists (dc_Modules k). split; [| by apply list_elem_of_In]. apply in_map, list_elem_of_In, list_elem_of_filter. done.
Qed.

Lemma snapshot_known sid h start : hub_ok h → plain start = view h sid → Forall (shows (serviceOf sid h)) (ds_Components start) →
  modulesKnown (serviceOf sid h) start [].
Proof.
  intros Hh Hplain Hshows tag c Hc. pose proof (serviceOf_ok h sid (proj1 Hh)) as Hok. set (s := serviceOf sid h) in *. rewrite Forall_forall in Hshows.
  assert (∃ k, k ∈ ds_Components start ∧ dc_ComponentTag k = tag) as (k & Hk & Etag).
  { pose proof (sk_owned _ _ Hok tag ltac:(by eexists)) as Hin. apply (f_equal (map dc_ComponentTag ∘ ds_Components)) in Hplain. cbn in Hplain.
    change (serviceOf sid h) with s in Hplain. rewrite !map_map in Hplain. assert (tag ∈ map (λ c, dc_ComponentTag (withModules [] (overlay s c))) (componentsOf s)) as Ht.
    { unfold tagsOf in Hin. rewrite (map_ext _ dc_ComponentTag); [done |]. intros x. apply overlay_tag. }
    rewrite <- Hplain in Ht. apply list_elem_of_fmap in Ht as (k & -> & Hk). by exists k. }
  pose proof (Hshows k Hk) as Hsk. rewrite <- Etag in Hc |- *. assert (∀ x, x ∈ dc_Modules k → x ∈ modulesOf (dc_ComponentTag k) (ds_Components start)) as Hin.
  { intros x Hx. apply modulesOf_elem. by exists k. }
  unfold heard, told. cbn [fold_left map concat]. rewrite app_nil_r. split.
  - intros id st Hst. destruct (modulesShown_elem s k c (stateModule (dc_ComponentTag k) st) Hsk Hc) as (x & Hx & E); [left; by exists id, st |].
    exists x. split; [by apply Hin | by apply sameModule_without].
  - intros id st Hst Hdone. destruct (modulesShown_elem s k c (stateModule (dc_ComponentTag k) st) Hsk Hc) as (x & Hx & E); [left; by exists id, st |].
    exists x. split_and!; [by apply Hin | by apply sameModule_without |]. apply (f_equal dm_Complete) in E. cbn in E. congruence.
  - intros id st x Hst Hx Hsame Hxc. apply modulesOf_elem in Hx as (k' & Hk' & Et & Hx). pose proof (Hshows k' Hk') as Hsk'. rewrite <- Et in Hc, Hsame.
    pose proof (sk_carousels _ _ Hok _ _ Hc) as Hf. destruct (shows_elem s k' x c Hsk' Hc Hx) as [(id' & st' & Hst' & E) | (id' & r & _ & E)].
    + pose proof (sameModule_without _ _ E) as Hsame'. assert (st' = st) as ->.
      { pose proof (so_id _ _ _ (carousel_state_ok _ _ _ _ _ Hf Hst)). pose proof (so_id _ _ _ (carousel_state_ok _ _ _ _ _ Hf Hst')).
        destruct Hsame as (I & _), Hsame' as (I' & _). cbn in I, I'. congruence. }
      apply (f_equal dm_Complete) in E. cbn in E. congruence.
    + apply sameModule_without in E. destruct E as (_ & _ & _ & _ & E), Hsame as (_ & _ & _ & _ & Hr). cbn in E, Hr. congruence.
  - intros id r Hr. destruct (modulesShown_elem s k c (refusedModule (dc_ComponentTag k) (from_option cs_downloadID 0 (sv_carouselStates s !! dc_ComponentTag k)) r) Hsk Hc)
      as (x & Hx & E); [right; by exists id, r |]. exists x. split; [by apply Hin | by apply sameModule_without].
Qed.

(** A module of a present snapshot, for a client that knows the carousels. *)
Lemma shown_known s k m start es : shows s k → modulesKnown s start es → m ∈ dc_Modules k →
  (∃ x, x ∈ heard (dc_ComponentTag k) start es ∧ sameModule x m) ∧
  (dm_Complete m = true → ∃ x, x ∈ told (dc_ComponentTag k) start es ∧ sameModule x m ∧ dm_Complete x = true) ∧
  ∀ x, x ∈ heard (dc_ComponentTag k) start es → sameModule x m → dm_RejectionReason m = None → dm_Complete x = true → dm_Complete m = true.
Proof.
  intros Hk Hknown Hm. destruct (sv_carousels s !! dc_ComponentTag k) as [c |] eqn:Hc.
  2: { unfold shows, modulesShown in Hk. rewrite Hc in Hk. apply Permutation_nil_r in Hk. destruct (dc_Modules k); [by apply elem_of_nil in Hm | done]. }
  destruct (Hknown _ _ Hc) as [K1 K2 K3 K4]. destruct (shows_elem s k m c Hk Hc Hm) as [(id & st & Hst & E) | (id & r & Hr & E)].
  - pose proof (sameModule_without _ _ E) as Hsame. apply (f_equal dm_Complete) in E. cbn in E. rewrite E. split_and!.
    + destruct (K1 id st Hst) as (x & Hx & H). exists x. split; [done |]. by rewrite Hsame.
    + intros Hd. destruct (K2 id st Hst Hd) as (x & Hx & H & Hxc). exists x. by rewrite Hsame.
    + intros x Hx H _ Hxc. apply (K3 id st x Hst Hx); [by rewrite <- Hsame | done].
  - pose proof (sameModule_without _ _ E) as Hsame. split_and!.
    + destruct (K4 id r Hr) as (x & Hx & H). exists x. split; [done |]. by rewrite Hsame.
    + apply (f_equal dm_Complete) in E. cbn in E. congruence.
    + intros x _ _ Hreason. destruct Hsame as (_ & _ & _ & _ & Er). cbn in Er. congruence.
Qed.

Lemma Subscribe_ok sid h : hub_ok h → returns (Subscribe sid h) (λ '(h', (snapshot, ch)), hub_ok h').
Proof.
  intros Hh. unfold Subscribe. cbv zeta. apply safe_bind. eapply safe_mono; [by apply snapshotLocked_ok |]. intros snapshot [Hsnap Hshows]. apply safe_ret.
  pose proof (snapshot_known sid h snapshot Hh Hsnap Hshows) as Hknown. pose proof (serviceOf_ok h sid (proj1 Hh)) as [_ _ _ _ K5 _ _]. destruct Hh as [[B1 B2 B3 B4] [H1 H2 H3 H4]]. split; [by split |].
  set (ch := hb_next h). set (h' := MkHub _ _ _ _ _ _ _ _).
  assert (hb_channels h !! ch = None) as Hfresh.
  { destruct (hb_channels h !! ch) as [c |] eqn:E; [| done]. specialize (H3 _ _ E). unfold ch in H3. lia. }
  assert (∀ s k, subscribed h' s k = if decide (s = sid ∧ k = ch) then Some false else subscribed h s k) as Hsub.
  { intros s k. unfold subscribed. cbn [hb_subs h']. destruct (decide (s = sid)) as [-> | Hs].
    - rewrite lookup_insert_eq. cbn [default]. destruct (decide (k = ch)) as [-> | Hk].
      + rewrite decide_True by done. apply lookup_insert_eq.
      + rewrite decide_False by naive_solver. by apply lookup_insert_ne.
    - rewrite decide_False by naive_solver. by rewrite lookup_insert_ne. }
  split.
  - intros s k b. rewrite Hsub. cbn [hb_channels h']. case_decide as Hd.
    + destruct Hd as [-> ->]. intros [= <-]. split; [done |]. rewrite lookup_insert_eq. by eexists.
    + intros Hb. destruct (H1 s k b Hb) as (-> & c & Hc & Ho & Hsv). split; [done |]. exists c. rewrite lookup_insert_ne; [done |]. intros <-. congruence.
  - intros k c Hc Ho. rewrite Hsub. cbn [hb_channels h'] in Hc. apply lookup_insert_Some in Hc as [[<- <-] | [Hne Hc]]; [by rewrite decide_True |].
    rewrite decide_False by naive_solver. by apply H2.
  - intros k c Hc. cbn [hb_channels hb_next h'] in *. apply lookup_insert_Some in Hc as [[<- <-] | [Hne Hc]]; [lia |]. specialize (H3 k c Hc). unfold ch. lia.
  - intros k c Hc. cbn [hb_channels h'] in Hc. apply lookup_insert_Some in Hc as [[<- <-] | [Hne Hc]]; [| exact (H4 _ _ Hc)].
    split; cbn [ch_buffer ch_closed ch_service ch_start ch_base sent ch_taken app]; [done | by intros i e | intros _ | intros _; split; [by rewrite Hsnap | exact Hknown]].
    change (sequenceOf h' sid) with (sequenceOf h sid). change (len []) with 0. rewrite Z.add_0_r. unfold sequenceOf, serviceOf in *.
    destruct (hb_services h !! sid); cbn [default] in *; unfold u64; by rewrite Z.mod_small.
Qed.

Lemma unsubscribe_ok sid ch h : hub_ok h → returns (unsubscribe sid ch h) hub_ok.
Proof.
  intros Hh. unfold unsubscribe. change (default ∅ (hb_subs h !! sid) !! ch) with (subscribed h sid ch).
  destruct (subscribed h sid ch) as [b |] eqn:Eb; [| done]. destruct Hh as [[B1 B2 B3 B4] [H1 H2 H3 H4]].
  destruct (H1 _ _ _ Eb) as (-> & c & Hc & Ho & Hsv). cbv zeta. set (subs0 := alter (delete ch) sid (hb_subs h)).
  set (subs := if decide _ then delete sid subs0 else subs0). cbn [hb_channels setSubs]. rewrite Hc, Ho. apply safe_ret.
  set (h' := setChannel ch (shut c) (setSubs subs h)).
  assert (∀ s k, subscribed h' s k = if decide (s = sid ∧ k = ch) then None else subscribed h s k) as Hsub.
  { intros s k. rewrite <- subscribed_delete. fold subs0. unfold subscribed. cbn [hb_subs h' setChannel setSubs]. unfold subs.
    destruct (decide (default ∅ (subs0 !! sid) = ∅)) as [He |]; [| done]. destruct (decide (s = sid)) as [-> | Hs].
    - by rewrite lookup_delete_eq, He.
    - by rewrite lookup_delete_ne. }
  split; [by split |]. split.
  - intros s k b. rewrite Hsub. case_decide as Hd; [done |]. intros Hb. destruct (H1 s k b Hb) as (-> & c' & Hc' & Ho' & Hsv'). split; [done |].
    exists c'. cbn [hb_channels h' setChannel]. rewrite lookup_insert_ne; [done |]. intros <-. apply Hd. split; congruence.
  - intros k c' Hc' Ho'. rewrite Hsub. cbn [hb_channels h' setChannel] in Hc'. apply lookup_insert_Some in Hc' as [[<- <-] | [Hne Hc']]; [done |].
    rewrite decide_False by naive_solver. by apply H2.
  - intros k c' Hc'. cbn [hb_channels h' setChannel] in Hc'. apply lookup_insert_Some in Hc' as [[<- <-] | [_ Hc']]; [exact (H3 _ _ Hc) | exact (H3 _ _ Hc')].
  - intros k c' Hc'. cbn [hb_channels h' setChannel] in Hc'. apply lookup_insert_Some in Hc' as [[<- <-] | [_ Hc']]; [| exact (H4 _ _ Hc')].
    destruct (H4 ch c Hc) as [C1 C2 C3 C4]. by split.
Qed.

Lemma receive_ok ch h : hub_ok h → hub_ok (receive ch h).
Proof.
  intros Hh. unfold receive. destruct (hb_channels h !! ch) as [c |] eqn:Hc; [| done]. destruct (ch_buffer c) as [| e buffer] eqn:Eb; [done |].
  destruct Hh as [[B1 B2 B3 B4] [H1 H2 H3 H4]]. split; [by split |]. set (c1 := MkChannel _ _ _ _ _ _). set (h' := setChannel ch c1 h).
  assert (∀ k c', hb_channels h' !! k = Some c' → ∃ c0, hb_channels h !! k = Some c0 ∧ ch_closed c' = ch_closed c0 ∧ ch_service c' = ch_service c0) as Hold.
  { intros k c' Hc'. cbn [hb_channels h' setChannel] in Hc'. apply lookup_insert_Some in Hc' as [[<- <-] | [_ Hc']]; [by exists c | by exists c']. }
  split.
  - intros s k b Hb. destruct (H1 s k b Hb) as (-> & c' & Hc' & Ho' & Hsv'). split; [done |]. cbn [hb_channels h' setChannel].
    destruct (decide (k = ch)) as [-> | Hne]; [| exists c'; by rewrite lookup_insert_ne]. rewrite lookup_insert_eq. exists c1. by simplify_eq.
  - intros k c' Hc' Ho'. destruct (Hold k c' Hc') as (c0 & Hc0 & E1 & ->). apply H2; congruence.
  - intros k c' Hc'. destruct (Hold k c' Hc') as (c0 & Hc0 & _). exact (H3 _ _ Hc0).
  - intros k c' Hc'. cbn [hb_channels h' setChannel] in Hc'. apply lookup_insert_Some in Hc' as [[<- <-] | [_ Hc']]; [| exact (H4 _ _ Hc')].
    destruct (H4 ch c Hc) as [C1 C2 C3 C4]. assert (sent c1 = sent c) as Es by (unfold sent; cbn; by rewrite Eb, <- app_assoc).
    rewrite Eb, len_cons in C1. split; rewrite ?Es; try done. cbn. lia.
Qed.

(** ** Requests *)

(** What is served is the content that was broadcast. *)
Definition servesContent (sid tag : Z) (m : DataBroadcastModule) : Prop :=
  ∀ d, content (keyFor sid tag (dm_DownloadID m) (dm_ModuleID m) (dm_Version m) (dm_Size m)) = Some d → dm_Data m = d.

Lemma live_good h sid tag id s c m : hub_ok h → hb_services h !! sid = Some s → sv_carousels s !! tag = Some c → Module_ id c = Some m →
  good (keyFor sid tag (m_DownloadID m) (m_ModuleID m) (m_Version m) (m_Size m)) m ∧ m_ModuleID m = id.
Proof.
  intros Hh Hs Hc. unfold Module_. destruct (c_modules c !! id) as [st |] eqn:Est; [| done]. destruct (negb _ || _) eqn:E; [done |]. bools. intros [= <-].
  pose proof (sk_carousels _ _ (hk_services _ (proj1 Hh) _ _ Hs) _ _ Hc) as Hf. pose proof (carousel_state_ok _ _ _ _ _ Hf Est) as Hok.
  split; [| apply Hok]. apply (good_module sid tag id st (c_limits c)); [done | by apply (cf_states _ _ _ Hf id) | done | | by eapply carousel_limits_ok].
  destruct (so_done _ _ _ Hok) as [_ [Hl | Hl]]; [done | exact Hl |]. exfalso. pose proof (so_size _ _ _ Hok) as Hsize. rewrite Hl in H0. change (u32 (len [])) with 0 in H0. lia.
Qed.

Lemma serves_api sid tag m : good (keyFor sid tag (m_DownloadID m) (m_ModuleID m) (m_Version m) (m_Size m)) m →
  returns (apiModule tag m true) (λ a, servesContent sid tag a ∧ dm_ModuleID a = m_ModuleID m ∧ dm_DownloadID a = m_DownloadID m ∧ dm_Version a = m_Version m).
Proof.
  intros Hg. eapply safe_mono; [apply apiModule_ok; apply Hg |]. intros a (_ & E1 & E2 & E3 & E4 & E5 & _). split; [| done].
  unfold servesContent. rewrite E1, E2, E3, E4, E5. apply Hg.
Qed.

Lemma hubModule_ok sid tag id h : hub_ok h → returns (hubModule sid tag id h) (λ r, ∀ m, r = Some m → servesContent sid tag m ∧ dm_ModuleID m = id).
Proof.
  intros Hh. unfold hubModule. destruct (hb_services h !! sid) as [s |] eqn:Hs; [| done]. destruct (sv_carousels s !! tag) as [c |] eqn:Hc; [| done].
  destruct (Module_ id c) as [m |] eqn:Em; [| done]. destruct (live_good h sid tag id s c m Hh Hs Hc Em) as [Hg Hid].
  apply safe_bind. eapply safe_mono; [by apply (serves_api sid) |]. intros a (Ha & E & _). intros m' [= <-]. split; [done | congruence].
Qed.

Lemma ModuleVersion_ok sid tag download id version h : hub_ok h → returns (ModuleVersion sid tag download id version h) (λ '(h', r), hub_ok h' ∧
  ∀ m, r = Some m → servesContent sid tag m ∧ dm_DownloadID m = download ∧ dm_ModuleID m = id ∧ dm_Version m = version).
Proof.
  intros Hh. unfold ModuleVersion. destruct (hb_services h !! sid) as [s |] eqn:Hs; [| done]. destruct (sv_carousels s !! tag) as [c |] eqn:Hc; [| done].
  cbv zeta. destruct (match Module_ id c with Some m => _ | None => None end) as [m |] eqn:El.
  - destruct (Module_ id c) as [m0 |] eqn:Em; [| done]. destruct (_ && _) eqn:E; [| done]. injection El as ->. bools.
    destruct (live_good h sid tag id s c m Hh Hs Hc Em) as [Hg Hid]. apply safe_bind. eapply safe_mono; [by apply (serves_api sid) |].
    intros a (Ha & E1 & E2 & E3). split; [done |]. intros m' [= <-]. split_and!; [done | congruence..].
  - destruct (hb_moduleStore h) as [st |] eqn:Est; [| done]. apply safe_bind. eapply safe_mono; [apply (getVersion_ok good); by apply (hk_store _ (proj1 Hh)) |].
    intros [st1 cached] [Hst1 Hcached]. assert (hub_ok (setStore (Some st1) h)) as Hh1 by (apply setStore_ok; [done | by intros ? [= <-]]).
    destruct cached as [m |]; [| done]. destruct (Hcached m eq_refl) as [size Hg]. unfold moduleCacheKey in Hg. rewrite (hk_type _ (proj1 Hh)), (hk_id _ (proj1 Hh)) in Hg.
    change (good (keyFor sid tag download id version size) m) in Hg. pose proof Hg as (_ & _ & E1 & E2 & E3 & _). cbn in E1, E2, E3.
    apply safe_bind. eapply safe_mono; [apply (serves_api sid); by eapply good_key |]. intros a (Ha & A1 & A2 & A3). split; [done |].
    intros m' [= <-]. split_and!; [done | congruence..].
Qed.

(** Every PID of a service has its carousel. *)
Lemma carouselByPIDLocked_same pid h : hub_ok h → ∃ found, carouselByPIDLocked pid h = (h, found) ∧
  ∀ sid tag c, found = Some (sid, tag, c) → carousel_fine sid tag c.
Proof.
  intros Hh. unfold carouselByPIDLocked. pose proof (taggedService_spec pid (range (hb_services h))) as Hf.
  destruct (taggedService pid (range (hb_services h))) as [[[sid s] tag] |]; [| by exists None]. destruct Hf as [Hs%range_elem Htag].
  pose proof (hk_services _ (proj1 Hh) _ _ Hs) as Hok. destruct (sk_tags _ _ Hok _ _ Htag) as [_ [c Hc]]. rewrite Hc. eexists. split; [done |].
  intros ? ? ? [= <- <- <-]. by apply (sk_carousels _ _ Hok).
Qed.

Lemma DDBPriority_ok section h : hub_ok h → bytes_ok (ps_Section section) → returns (DDBPriority section h) (λ '(h', _), h' = h).
Proof.
  intros Hh Hb. unfold DDBPriority. apply safe_bind. eapply safe_mono; [eapply caught_returns, ParseDSMCCDDB_safe; exact Hb |].
  intros [ddb |] _; [| done]. destruct (carouselByPIDLocked_same (ps_PID section) h Hh) as (found & -> & Hf).
  destruct found as [[[sid tag] c] |]; [| done]. specialize (Hf _ _ _ eq_refl). destruct (ModuleInfo _ c) as [info |] eqn:Ei; [| done]. case_match; [done |].
  unfold ModuleInfo in Ei. apply fmap_Some in Ei as (st & Est & ->). apply safe_bind. eapply safe_mono; [apply Metadata_safe; by apply (cf_states _ _ _ Hf (ddb_ModuleID ddb)) |].
  by intros [metadata |] _.
Qed.

(** ** Runs *)

Definition op_ok (op : hubOp) : Prop :=
  match op with
  | Sees section => bytes_ok (ps_Section section) ∧ ps_Section section ≠ []
  | Prioritizes section => bytes_ok (ps_Section section)
  | SeesPacket packet => packet_ok packet
  | _ => True
  end.

Definition truthful (op : hubOp) h : Prop := match op with Sees section => truthfulSection section h | _ => True end.

Lemma hub_perform_ok op h : hub_ok h → op_ok op → truthful op h → returns (perform op h) hub_ok.
Proof.
  intros Hh Hop Htrue. destruct op as [section | section | packet | sid | sid ch | ch | sid tag download id version]; cbn [perform].
  - destruct Hop as [Hb Hne]. unfold Observe, TableID. destruct (ps_Section section) as [| b0 l] eqn:E; [done |]. rewrite <- E in *. apply safe_bind, safe_byte.
    + done.
    + rewrite E, len_cons. pose proof (len_nonneg l). lia.
    + intros _. repeat (case_match; [by auto using hub_observePMT_ok, observeDII_ok, observeDDB_ok, observeES_ok, observeBIT_ok, observeEIT_ok, observeTOT_ok |]). done.
  - apply safe_bind. eapply safe_mono; [by apply DDBPriority_ok |]. by intros [h' x] ->.
  - by apply ObservePacket_ok.
  - apply safe_bind. eapply safe_mono; [by apply Subscribe_ok |]. by intros [h' [snapshot ch]] ?.
  - by apply unsubscribe_ok.
  - by apply receive_ok.
  - apply safe_bind. eapply safe_mono; [by apply ModuleVersion_ok |]. by intros [h' r] [? _].
Qed.

Inductive hubReachable : DataBroadcastHub S → Prop :=
| hub_new store : (∀ s, store = Some s → store_ok good s) → hubReachable (NewDataBroadcastHub channelType channelID store)
| hub_step h op h' : hubReachable h → op_ok op → truthful op h → perform op h = Ret h' → hubReachable h'.

Lemma reachable_hub h : hubReachable h → hub_ok h.
Proof.
  induction 1 as [st Hst | h op h' _ IH Hop Htrue E].
  - split; [split; [done | done | apply map_Forall_empty | exact Hst] |]. split; cbn.
    + intros sid ch b Hb. unfold subscribed in Hb. cbn in Hb. by rewrite lookup_empty in Hb.
    + intros ch c Hc. by rewrite lookup_empty in Hc.
    + intros ch c Hc. by rewrite lookup_empty in Hc.
    + intros ch c Hc. by rewrite lookup_empty in Hc.
  - pose proof (hub_perform_ok op h IH Hop Htrue) as H. by rewrite E in H.
Qed.

(** Whatever sections, packets, subscriptions, cancellations and
    requests come, and in whatever order, the hub answers each of them - no nil
    dereference, no division by a block size of zero, no send to a closed channel
    and no second close; asking for the priority of a block only reads; and a channel
    is registered for its service exactly as long as it is open, and holds at most 64
    events. *)
Theorem hub_total h op : hubReachable h → op_ok op → truthful op h →
  returns (perform op h) (λ _, True) ∧
  (∀ section, bytes_ok (ps_Section section) → returns (DDBPriority section h) (λ '(h', _), h' = h)) ∧
  ∀ ch c, hb_channels h !! ch = Some c → len (ch_buffer c) ≤ dataBroadcastSubscriberBuffer ∧
    ∀ sid, subscribed h sid ch = if bool_decide (ch_closed c = false ∧ ch_service c = sid) then Some false else None.
Proof.
  intros Hr Hop Htrue. apply reachable_hub in Hr as Hh. split; [eapply safe_mono; [by apply hub_perform_ok | done] |].
  split; [intros section; by apply DDBPriority_ok |]. intros ch c Hc. destruct Hh as [_ [H1 H2 H3 H4]]. split; [apply (H4 ch c Hc) |]. intros sid. case_bool_decide as Hd.
  - destruct Hd as [Ho <-]. by apply H2.
  - destruct (subscribed h sid ch) as [b |] eqn:E; [| done]. exfalso. apply Hd. destruct (H1 _ _ _ E) as (_ & c' & Hc' & Ho & Hsv).
    rewrite Hc in Hc'. injection Hc' as <-. done.
Qed.

(** C15 (refinement): the events of a channel, those received and those in its
    buffer, are numbered without a gap from the sequence number of its service when
    it was subscribed.  As long as the channel is open, applying them one after the
    other to the snapshot of the subscription gives the snapshot of the present in
    everything but the modules of its components.  Of the modules, each component of
    the snapshot shows exactly those of its carousel, with their progress, and those
    that were refused, with the reason; each of them is in the list that the client
    has of the component; each that is complete the client was told to be complete;
    and none is complete in the client's list that is not.  So a slow subscriber never
    misses an event unnoticed: its channel is closed instead.  (Blocks that arrive
    and modules that are evicted are no events.) *)
Theorem subscribers_follow h ch c : hubReachable h → hb_channels h !! ch = Some c →
  (∀ i e, sent c !! i = Some e → be_Sequence e = u64 (ch_base c + 1 + Z.of_nat i)) ∧
  (ch_closed c = false → returns (Snapshot (ch_service c) h) (λ s,
    plain s = fold_left follow (sent c) (plain (ch_start c)) ∧
    ∀ k, k ∈ ds_Components s →
      let tag := dc_ComponentTag k in
      shows (serviceOf (ch_service c) h) k ∧
      ∀ m, m ∈ dc_Modules k →
        (∃ x, x ∈ heard tag (ch_start c) (sent c) ∧ sameModule x m) ∧
        (dm_Complete m = true → ∃ x, x ∈ told tag (ch_start c) (sent c) ∧ sameModule x m ∧ dm_Complete x = true) ∧
        ∀ x, x ∈ heard tag (ch_start c) (sent c) → sameModule x m → dm_RejectionReason m = None → dm_Complete x = true → dm_Complete m = true)).
Proof.
  intros Hr Hc. apply reachable_hub in Hr as Hh. pose proof Hh as [_ [H1 H2 H3 H4]]. destruct (H4 ch c Hc) as [C1 C2 C3 C4]. split; [done |].
  intros Ho. destruct (C4 Ho) as [Hview Hknown]. eapply safe_mono; [by apply snapshotLocked_ok |]. intros s [Hplain Hshows].
  split; [by rewrite Hplain |]. intros k Hk. rewrite Forall_forall in Hshows. split; [by apply Hshows |]. intros m Hm.
  exact (shown_known _ k m _ _ (Hshows k Hk) Hknown Hm).
Qed.

(** C16 (functional): a module is served with exactly the bytes that were broadcast
    under its identity - the live module of the carousel or a generation kept in the
    store, assembled from blocks in any order and with any repetitions, restored or
    released in between - if the blocks broadcast for it are parts of these bytes;
    and the identity is the requested one. *)
Theorem hub_serves_content h sid tag download id version : hubReachable h →
  returns (hubModule sid tag id h) (λ r, ∀ m, r = Some m → dm_ModuleID m = id ∧
    ∀ d, content (keyFor sid tag (dm_DownloadID m) id (dm_Version m) (dm_Size m)) = Some d → dm_Data m = d) ∧
  returns (ModuleVersion sid tag download id version h) (λ '(_, r), ∀ m, r = Some m →
    dm_DownloadID m = download ∧ dm_ModuleID m = id ∧ dm_Version m = version ∧
    ∀ d, content (keyFor sid tag download id version (dm_Size m)) = Some d → dm_Data m = d).
Proof.
  intros Hr. apply reachable_hub in Hr as Hh. split.
  - eapply safe_mono; [by apply hubModule_ok |]. intros r H m Em. destruct (H m Em) as [Hm <-]. split; [done | exact Hm].
  - eapply safe_mono; [by apply ModuleVersion_ok |]. intros [h' r] [_ H] m Em. destruct (H m Em) as (Hm & <- & <- & <-). done.
Qed.

End Hub.

(** ** Examples *)

#[local] Instance sampleJis : ISO2022JP := λ _, None.
#[local] Instance sampleServices : RangeOrder dataBroadcastService := keyOrder.
#[local] Instance sampleFlags : RangeOrder bool := keyOrder.
#[local] Instance sampleSubs : RangeOrder (gmap Z bool) := keyOrder.
#[local] Instance sampleStates : RangeOrder dsmccModuleState := keyOrder.
#[local] Instance sampleRejections : RangeOrder DSMCCModuleRejection := keyOrder.
#[local] Instance sampleCarousels : RangeOrder DSMCCCarousel := keyOrder.
#[local] Instance sampleCached : RangeOrderOf ModuleCacheKey moduleCacheEntry := keyOrderOf.

#[local] Instance byTag_dec : RelDecision byTag.
Proof. intros a b. unfold byTag. apply _. Defined.
#[local] Instance byTag_total : Total byTag.
Proof. intros a b. unfold byTag. lia. Qed.
#[local] Instance sampleSort : ComponentSort := {|
  sortComponents := merge_sort byTag;
  sortComponents_perm := merge_sort_Permutation byTag;
  sortComponents_sorted := Sorted_merge_sort byTag
|}.

(** A service with one carousel, whose DII announces a module of five bytes in
    blocks of three; the private data of the DII set the flag of the return to the
    entry. *)
Definition samplePMTWith (version : Z) (elements : list PMTElement) : PIDSection :=
  MkPIDSection 0x1f0 (pmtSection version 0 0 (MkPMT 101 version 0x100 [] [] elements)).
Definition sampleElement : PMTElement := MkElement StreamTypeDSMCCDataCarousel 0x140 [0x52; 1; 0x40] [[0x52; 1; 0x40]].
Definition sampleHubDII : PIDSection :=
  MkPIDSection 0x140 (diiSection 1 0 0 0 (replicate 10 0) [] (MkDII 0x70000001 3 [MkModuleInfo 1 5 2 [0x02; 1; 0x41]] [0xf0; 1; 0x80])).
Definition sampleHubDDB (block : Z) (data : list Z) : PIDSection :=
  MkPIDSection 0x140 (ddbSection 0 0 0 (MkDDB 0x70000001 1 2 block data)).

Definition runOps (ops : list hubOp) (h : DataBroadcastHub ModuleCache) : DataBroadcastHub ModuleCache :=
  fold_left (λ h op, match perform op h with Ret h' => h' | _ => h end) ops h.
Definition sampleHub : DataBroadcastHub ModuleCache := NewDataBroadcastHub "GR" "27" (Some (NewModuleCache 1024)).

Definition sampleOps : list hubOp :=
  [Subscribes 101; Sees (samplePMTWith 0 [sampleElement]); Sees sampleHubDII; Sees (sampleHubDDB 1 [40; 50]); Sees (sampleHubDDB 0 [10; 20; 30]);
   Receives 0].

Definition summary (h : DataBroadcastHub ModuleCache) : list (Z * Z * bool * list Z) :=
  concat (map (λ e : Z * dataBroadcastService, concat (map (λ f : Z * DSMCCCarousel,
    map (λ g : Z * dsmccModuleState, (fst e, fst g, ms_completed (snd g), ms_data (snd g))) (map_to_list (c_modules (snd f))))
    (map_to_list (sv_carousels (snd e))))) (map_to_list (hb_services h))).

Lemma sampleJis_text l s : Transform l = Some s → text_ok s.
Proof. done. Qed.

(** A run whose operations are well formed and truthful. *)
Fixpoint truthfulRun (content : ModuleCacheKey → option (list Z)) (ops : list hubOp) (h : DataBroadcastHub ModuleCache) : Prop :=
  match ops with
  | [] => True
  | op :: ops => op_ok op ∧ truthful "GR" "27" content op h ∧ truthfulRun content ops (runOps [op] h)
  end.

Lemma runOps_reachable content ops : (∀ key d, content key = Some d → len d = ck_Size key) → truthfulRun content ops sampleHub →
  hubReachable "GR" "27" content (runOps ops sampleHub).
Proof.
  intros Hsizes. assert (hubReachable "GR" "27" content sampleHub) as Hr.
  { apply hub_new. intros s [= <-]. intros k e He. cbn in He. by rewrite lookup_empty in He. }
  revert Hr. generalize sampleHub. induction ops as [| op ops IH]; intros h Hr; [done |]. intros (Hop & Htrue & Hrest).
  change (runOps (op :: ops) h) with (runOps ops (runOps [op] h)). apply IH; [| done]. cbn [runOps fold_left].
  pose proof (hub_total "GR" "27" content sampleJis_text Hsizes h op Hr Hop Htrue) as [H _].
  destruct (perform op h) as [h' | | |] eqn:E; try done. by eapply hub_step.
Qed.

(** Nothing is known of the modules. *)
Definition nothing (_ : ModuleCacheKey) : option (list Z) := None.
Lemma nothing_sizes key d : nothing key = Some d → len d = ck_Size key.
Proof. done. Qed.
Lemma nothing_truthful op h : truthful "GR" "27" nothing op (h : DataBroadcastHub ModuleCache).
Proof. by destruct op. Qed.
Lemma nothing_truthfulRun ops h : Forall op_ok ops → truthfulRun nothing ops h.
Proof.
  intros Hops. revert h. induction Hops as [| op ops Hop _ IH]; intros h; [done |]. split_and!; [done | apply nothing_truthful | apply IH].
Qed.

Lemma section_ok section : bool_decide (ps_Section section ≠ []) && bytes_okb (ps_Section section) = true → op_ok (Sees section).
Proof. intros H. bools. split; [by apply bytes_okb_spec | by apply bool_decide_eq_true in H]. Qed.

Lemma sampleOps_ok : Forall op_ok sampleOps.
Proof. repeat (apply Forall_cons; split; [first [exact I | apply section_ok; vm_compute; reflexivity] |]). apply Forall_nil_2. Qed.

Lemma sampleOps_reachable : hubReachable "GR" "27" nothing (runOps sampleOps sampleHub).
Proof. apply runOps_reachable; [exact nothing_sizes | apply nothing_truthfulRun, sampleOps_ok]. Qed.

Lemma hub_total_witness : returns (perform (Sees (sampleHubDDB 0 [10; 20; 30])) (runOps sampleOps sampleHub)) (λ _, True).
Proof.
  assert (op_ok (Sees (sampleHubDDB 0 [10; 20; 30]))) as Hop by (apply section_ok; vm_compute; reflexivity).
  exact (proj1 (hub_total "GR" "27" nothing sampleJis_text nothing_sizes _ _ sampleOps_reachable Hop (nothing_truthful _ _))).
Defined.

(** The subscriber has taken the PMT; the list of modules and the module wait. *)
Lemma subscribers_follow_witness : ∃ c, hb_channels (runOps sampleOps sampleHub) !! 0 = Some c ∧
  map be_Sequence (sent c) = [1; 2; 3] ∧ length (ch_buffer c) = 2%nat ∧
  returns (Snapshot 101 (runOps sampleOps sampleHub)) (λ s, plain s = fold_left follow (sent c) (plain (ch_start c)) ∧
    ∀ k m, k ∈ ds_Components s → m ∈ dc_Modules k → dm_Complete m = true →
      ∃ x, x ∈ told (dc_ComponentTag k) (ch_start c) (sent c) ∧ sameModule x m ∧ dm_Complete x = true).
Proof.
  destruct (hb_channels (runOps sampleOps sampleHub) !! 0) as [c |] eqn:E; [| vm_compute in E; discriminate E].
  assert (ch_closed c = false ∧ ch_service c = 101 ∧ map be_Sequence (sent c) = [1; 2; 3] ∧ length (ch_buffer c) = 2%nat) as (Ho & Hs & Hn & Hl).
  { assert ((λ c, (ch_closed c, ch_service c, map be_Sequence (sent c), length (ch_buffer c))) <$> hb_channels (runOps sampleOps sampleHub) !! 0 =
      Some (false, 101, [1; 2; 3], 2%nat)) as H by (vm_compute; reflexivity). rewrite E in H. clear E. injection H as H1 H2 H3 H4. exact (conj H1 (conj H2 (conj H3 H4))). }
  exists c. split; [reflexivity |]. split; [exact Hn |]. split; [exact Hl |]. rewrite <- Hs.
  eapply safe_mono; [exact (proj2 (subscribers_follow "GR" "27" nothing sampleJis_text nothing_sizes _ 0 c sampleOps_reachable E) Ho) |].
  intros s [Hplain Hmodules]. split; [exact Hplain |]. intros k m Hk Hm. exact (proj1 (proj2 (proj2 (Hmodules k Hk) m Hm))).
Defined.

(** *** A module that is known *)

Definition honestb (d : list Z) (s : dsmccModuleState) (ddb : DSMCCDDB) : bool :=
  let off := ddb_BlockNumber ddb * ms_blockSize s in
  bool_decide (ddb_ModuleID ddb = mi_ModuleID (ms_info s) ∧ ddb_DownloadID ddb = ms_downloadID s ∧ ddb_ModuleVersion ddb = mi_Version (ms_info s) ∧
    (0 ≤ ddb_BlockNumber ddb ∧ ddb_BlockNumber ddb < blockCount (mi_ModuleSize (ms_info s)) (ms_blockSize s)) ∧
    ddb_Data ddb = sub d off (Z.min (off + ms_blockSize s) (len d))).

Definition truthfulb (content : ModuleCacheKey → option (list Z)) (section : PIDSection) (h : DataBroadcastHub ModuleCache) : bool :=
  match ParseDSMCCDDB (ps_Section section) with
  | Ret ddb => forallb (λ e : Z * dataBroadcastService,
      match sv_pidToTag (snd e) !! ps_PID section with
      | Some tag => match sv_carousels (snd e) !! tag ≫= (λ c, c_modules c !! ddb_ModuleID ddb) with
                    | Some s => match content (moduleKeyOf "GR" "27" (fst e) tag s) with Some d => honestb d s ddb | None => true end
                    | None => true
                    end
      | None => true
      end) (map_to_list (hb_services h))
  | _ => true
  end.

Lemma truthfulb_spec content section h : op_ok (Sees section) → truthfulb content section h = true → truthful "GR" "27" content (Sees section) h.
Proof.
  intros [Hb _] Ht ddb sid tag c s d Eddb (sv & Hsv & Htag & Hc) Hs _ Hd. unfold truthfulb in Ht. pose proof (ParseDSMCCDDB_safe _ Hb) as Hddb.
  rewrite Eddb in Ht, Hddb. destruct Hddb as [Hddb _]. rewrite forallb_forall in Ht.
  specialize (Ht (sid, sv)). cbn [fst snd] in Ht. rewrite Htag, Hc in Ht. cbn [mbind option_bind] in Ht. rewrite Hs, Hd in Ht.
  assert (honestb d s ddb = true) as H by (apply Ht, list_elem_of_In, elem_of_map_to_list, Hsv). apply bool_decide_eq_true in H.
  exact (conj Hddb H).
Qed.

Fixpoint truthfulRunb (content : ModuleCacheKey → option (list Z)) (ops : list hubOp) (h : DataBroadcastHub ModuleCache) : bool :=
  match ops with
  | [] => true
  | op :: ops => match op with Sees section => truthfulb content section h | _ => true end && truthfulRunb content ops (runOps [op] h)
  end.

Lemma truthfulRunb_spec content ops h : Forall op_ok ops → truthfulRunb content ops h = true → truthfulRun content ops h.
Proof.
  intros Hops. revert h. induction Hops as [| op ops Hop _ IH]; intros h Ht; [done |]. cbn [truthfulRunb] in Ht.
  apply andb_true_iff in Ht as [Ht Hrest]. split_and!; [done | | by apply IH]. destruct op; try done. by apply truthfulb_spec.
Qed.

Definition sampleKey : ModuleCacheKey := MkCacheKey (MkVersionKey "GR" "27" 101 0x40 0x70000001 1 2) 5.
Definition sampleContent (key : ModuleCacheKey) : option (list Z) := if decide (key = sampleKey) then Some [10; 20; 30; 40; 50] else None.
Lemma sampleContent_sizes key d : sampleContent key = Some d → len d = ck_Size key.
Proof. unfold sampleContent. case_decide as E; [| done]. intros H. injection H as H. rewrite <- H, E. done. Qed.

Lemma sampleContent_reachable : hubReachable "GR" "27" sampleContent (runOps sampleOps sampleHub).
Proof.
  apply runOps_reachable; [exact sampleContent_sizes |]. apply truthfulRunb_spec; [exact sampleOps_ok |]. vm_compute. reflexivity.
Qed.

(** The module whose two blocks came in the wrong order is served with its content. *)
Lemma hub_serves_content_witness : ∃ m, hubModule 101 0x40 1 (runOps sampleOps sampleHub) = Ret (Some m) ∧ dm_Data m = [10; 20; 30; 40; 50].
Proof.
  pose proof (proj1 (hub_serves_content "GR" "27" sampleContent sampleJis_text sampleContent_sizes _ 101 0x40 0 1 0 sampleContent_reachable)) as H.
  assert (match hubModule 101 0x40 1 (runOps sampleOps sampleHub) with
          | Ret (Some m) => sampleContent (keyFor "GR" "27" 101 0x40 (dm_DownloadID m) 1 (dm_Version m) (dm_Size m)) | _ => None end =
    Some [10; 20; 30; 40; 50]) as E by (vm_compute; reflexivity).
  destruct (hubModule 101 0x40 1 (runOps sampleOps sampleHub)) as [[m |] | | |]; try discriminate E.
  exists m. split; [reflexivity |]. exact (proj2 (H m eq_refl) _ E).
Defined.

(** *** What changes of the PMT do to a carousel *)

Definition statusOf (h : DataBroadcastHub ModuleCache) : list (CarouselStatus * Z) :=
  match Snapshot 101 h with Ret s => map (λ c, (dc_CarouselStatus c, dc_DataEventID c)) (ds_Components s) | _ => [] end.

(** A carousel that leaves the PMT and returns: its DII is the one that was last
    seen, so it is ignored, and the carousel waits as long as the DII stays the same. *)
Lemma returning_carousel_waits :
  let h := runOps [Sees (samplePMTWith 0 [sampleElement]); Sees sampleHubDII] sampleHub in
  let back := runOps [Sees (samplePMTWith 1 []); Sees (samplePMTWith 2 [sampleElement]); Sees sampleHubDII; Sees (sampleHubDDB 0 [10; 20; 30])] h in
  statusOf h = [(active, 7)] ∧ statusOf back = [(waitingForDii, 0)] ∧ summary back = [].
Proof. vm_compute. done. Qed.

(** A new version of the PMT resets the data event of a component, whose carousel
    stays active: the DII that would tell it again is ignored. *)
Lemma new_PMT_forgets_the_event :
  let h := runOps [Sees (samplePMTWith 0 [sampleElement]); Sees sampleHubDII] sampleHub in
  statusOf h = [(active, 7)] ∧ statusOf (runOps [Sees (samplePMTWith 1 [sampleElement]); Sees sampleHubDII] h) = [(active, 0)].
Proof. vm_compute. done. Qed.

(** A new DII that announces a complete module again lists it as not complete, and no
    event corrects that: [Restore] refuses a module that is complete. *)
Definition sampleHubDII' : PIDSection :=
  MkPIDSection 0x140 (diiSection 1 0 0 0 (replicate 10 0) [] (MkDII 0x70000001 3 [MkModuleInfo 1 5 2 [0x02; 1; 0x41]] [])).

Lemma kept_module_listed_incomplete :
  let h := runOps (sampleOps ++ [Sees sampleHubDII']) sampleHub in
  match hb_channels h !! 0, Snapshot 101 h with
  | Some c, Ret s => ch_closed c = false ∧ map dm_Complete (heard 0x40 (ch_start c) (sent c)) = [false] ∧
      map dm_Complete (concat (map dc_Modules (ds_Components s))) = [true]
  | _, _ => False
  end.
Proof. vm_compute. done. Qed.

(** Two services that share the elementary stream of a carousel: which one gets the
    DII is up to the order of iteration over the services. *)
Definition secondPMT : PIDSection := MkPIDSection 0x1f1 (pmtSection 0 0 0 (MkPMT 102 0 0x100 [] [] [sampleElement])).
Definition backwards : RangeOrder dataBroadcastService := {|
  range m := reverse (map_to_list m);
  range_perm m := reverse_Permutation (map_to_list m)
|}.
Definition owners (r : outcome (DataBroadcastHub ModuleCache)) : list Z :=
  match r with
  | Ret h => map fst (filter (λ e : Z * dataBroadcastService, map_to_list (sv_carouselStates (snd e)) ≠ []) (map_to_list (hb_services h)))
  | _ => []
  end.

Lemma shared_carousel_depends_on_order :
  let h := runOps [Sees (samplePMTWith 0 [sampleElement]); Sees secondPMT] sampleHub in
  let one := owners (perform (OS := sampleServices) (Sees sampleHubDII) h) in
  let other := owners (perform (OS := backwards) (Sees sampleHubDII) h) in
  length one = 1%nat ∧ length other = 1%nat ∧ one ≠ other.
Proof. vm_compute. split_and!; [done | done | discriminate]. Qed.
