(* ===== verification/Updates.v ===== *)
(** * The updates of a channel session ([internal/stream/channel/section_updates.go],
      [session.go])

    The sections that the demuxer of a channel hands to its session: EIT p/f,
    CDT and SDTT sections and the carousels of logos go through bounded queues to a
    goroutine that calls the updaters, where EIT p/f sections that only repeat what
    is stored or on its way are dropped; the blocks of data broadcasting go through
    a normal and a priority queue to another goroutine that shows them to the hub of
    [DataBroadcast].  A step is what one goroutine does in one critical section.

    The demuxer's reading loop ends before the session is told to stop
    ([Distribution.distribution_closes]), and is the only one that observes: a
    remote input that starts a second demuxer and second goroutines is not
    modelled.  What the updaters do with a call is a parameter of the step. *)

From stdpp Require Import functions.
From S2P Require Import Prelude Crc32 Packet Section AribTables Aribstr Descriptors Psi Events EventDescriptors TableSections Demux Dsmcc Carousel Logo ModuleCache CarouselStates DataBroadcast DataBroadcastHub.

Definition sectionQueueSize : Z := 64.
Definition carouselQueueSize : Z := 256.
Definition dataBroadcastQueueSize : Z := 1024.
Definition dataBroadcastPriorityQueueSize : Z := 256.

Record eitPFSectionKey : Type := MkPFKey {
  pk_tableID : Z;
  pk_serviceID : Z;
  pk_transportStreamID : Z;
  pk_originalNetworkID : Z;
  pk_sectionNumber : Z
}.
#[export] Instance eitPFSectionKey_eq_dec : EqDecision eitPFSectionKey.
Proof. solve_decision. Defined.
#[export] Instance eitPFSectionKey_countable : Countable eitPFSectionKey.
Proof.
  apply (inj_countable' (λ k, (pk_tableID k, pk_serviceID k, pk_transportStreamID k, pk_originalNetworkID k, pk_sectionNumber k))
    (λ '(t, s, x, o, n), MkPFKey t s x o n)). by intros [].
Defined.

Definition eitPFSectionFingerprint (section : SectionBytes) : outcome (option (eitPFSectionKey * Z)) :=
  skip ← (Ret (len section <? 14)) ||? (t ← TableID section; Ret (negb (IsEITPF t)));
  if skip : bool then Ret None
  else
    total ← TotalLength section;
    if (total <? 4) || (len section <? total) then Ret None
    else
      tableID ← TableID section;
      serviceID ← get16 section 3;
      transportStreamID ← get16 section 8;
      originalNetworkID ← get16 section 10;
      sectionNumber ← section![6];
      fingerprint ← get32 section (total - 4);
      Ret (Some (MkPFKey tableID serviceID transportStreamID originalNetworkID sectionNumber, fingerprint)).

(** ** The state *)

(** The reading loop of the demuxer, between two critical sections. *)
Inductive observer : Type :=
| Watching
| SendingSection (section : SectionBytes) (coalesce : option (eitPFSectionKey * Z))
| SendingBlock (section : PIDSection) (priority : bool).

(** [runSectionUpdates]: the call of [UpsertEIT] failed, or the section did not
    parse, in [Releasing]. *)
Inductive pump : Type :=
| Pumping
| Updating (section : SectionBytes)
| Releasing (section : SectionBytes) (key : eitPFSectionKey) (fingerprint : Z)
| PumpEnded.

(** [runDataBroadcastUpdates]: before its first and its second [select], in the loop
    that finishes the backlog, and with a section. *)
Inductive worker : Type :=
| Looking
| Waiting
| Draining
| Observing (section : PIDSection) (priority draining : bool)
| WorkerEnded.

(** The calls of the updaters. *)
Inductive update : Type :=
| UpsertEIT (section : SectionBytes) (eit : EIT) (ok : bool)
| UpsertLogoImage (image : LogoImage)
| UpsertCommonLogoImage (image : CommonLogoImage)
| UpsertCommonDataAnnouncement (announcement : CommonDataAnnouncement).

(** The specification keeps the calls made, the fingerprint last seen for each key,
    and the blocks that entered a queue and were shown to the hub. *)
Record Session (S : Type) : Type := MkSession {
  se_dataBroadcast : DataBroadcastHub S;
  se_logoCarousel : DSMCCLogoCarousel;
  se_fingerprints : gmap eitPFSectionKey Z;
  se_sectionQueue : list SectionBytes;
  se_carouselQueue : list SectionBytes;
  se_blockQueue : bool → list PIDSection;
  se_waitGroup : Z;
  se_cancelled : bool;
  se_observer : observer;
  se_pump : pump;
  se_worker : worker;
  se_calls : list update;
  se_seen : gmap eitPFSectionKey Z;
  se_accepted : bool → list PIDSection;
  se_shown : bool → list PIDSection
}.
Arguments MkSession {S} _ _ _ _ _ _ _ _ _ _ _ _ _ _ _.
Arguments se_dataBroadcast {S} _.
Arguments se_logoCarousel {S} _.
Arguments se_fingerprints {S} _.
Arguments se_sectionQueue {S} _.
Arguments se_carouselQueue {S} _.
Arguments se_blockQueue {S} _.
Arguments se_waitGroup {S} _.
Arguments se_cancelled {S} _.
Arguments se_observer {S} _.
Arguments se_pump {S} _.
Arguments se_worker {S} _.
Arguments se_calls {S} _.
Arguments se_seen {S} _.
Arguments se_accepted {S} _.
Arguments se_shown {S} _.

(** ** Fields *)

Definition setBroadcast {S} (x : DataBroadcastHub S) (s : Session S) : Session S :=
  MkSession x (se_logoCarousel s) (se_fingerprints s) (se_sectionQueue s) (se_carouselQueue s) (se_blockQueue s) (se_waitGroup s) (se_cancelled s) (se_observer s) (se_pump s) (se_worker s) (se_calls s) (se_seen s) (se_accepted s) (se_shown s).
Definition setLogoCarousel {S} (x : DSMCCLogoCarousel) (s : Session S) : Session S :=
  MkSession (se_dataBroadcast s) x (se_fingerprints s) (se_sectionQueue s) (se_carouselQueue s) (se_blockQueue s) (se_waitGroup s) (se_cancelled s) (se_observer s) (se_pump s) (se_worker s) (se_calls s) (se_seen s) (se_accepted s) (se_shown s).
Definition setFingerprints {S} (x : gmap eitPFSectionKey Z) (s : Session S) : Session S :=
  MkSession (se_dataBroadcast s) (se_logoCarousel s) x (se_sectionQueue s) (se_carouselQueue s) (se_blockQueue s) (se_waitGroup s) (se_cancelled s) (se_observer s) (se_pump s) (se_worker s) (se_calls s) (se_seen s) (se_accepted s) (se_shown s).
Definition setSectionQueue {S} (x : list SectionBytes) (s : Session S) : Session S :=
  MkSession (se_dataBroadcast s) (se_logoCarousel s) (se_fingerprints s) x (se_carouselQueue s) (se_blockQueue s) (se_waitGroup s) (se_cancelled s) (se_observer s) (se_pump s) (se_worker s) (se_calls s) (se_seen s) (se_accepted s) (se_shown s).
Definition setCarouselQueue {S} (x : list SectionBytes) (s : Session S) : Session S :=
  MkSession (se_dataBroadcast s) (se_logoCarousel s) (se_fingerprints s) (se_sectionQueue s) x (se_blockQueue s) (se_waitGroup s) (se_cancelled s) (se_observer s) (se_pump s) (se_worker s) (se_calls s) (se_seen s) (se_accepted s) (se_shown s).
Definition setBlockQueue {S} (x : bool → list PIDSection) (s : Session S) : Session S :=
  MkSession (se_dataBroadcast s) (se_logoCarousel s) (se_fingerprints s) (se_sectionQueue s) (se_carouselQueue s) x (se_waitGroup s) (se_cancelled s) (se_observer s) (se_pump s) (se_worker s) (se_calls s) (se_seen s) (se_accepted s) (se_shown s).
Definition setWaitGroup {S} (x : Z) (s : Session S) : Session S :=
  MkSession (se_dataBroadcast s) (se_logoCarousel s) (se_fingerprints s) (se_sectionQueue s) (se_carouselQueue s) (se_blockQueue s) x (se_cancelled s) (se_observer s) (se_pump s) (se_worker s) (se_calls s) (se_seen s) (se_accepted s) (se_shown s).
Definition setCancelled {S} (x : bool) (s : Session S) : Session S :=
  MkSession (se_dataBroadcast s) (se_logoCarousel s) (se_fingerprints s) (se_sectionQueue s) (se_carouselQueue s) (se_blockQueue s) (se_waitGroup s) x (se_observer s) (se_pump s) (se_worker s) (se_calls s) (se_seen s) (se_accepted s) (se_shown s).
Definition setObserver {S} (x : observer) (s : Session S) : Session S :=
  MkSession (se_dataBroadcast s) (se_logoCarousel s) (se_fingerprints s) (se_sectionQueue s) (se_carouselQueue s) (se_blockQueue s) (se_waitGroup s) (se_cancelled s) x (se_pump s) (se_worker s) (se_calls s) (se_seen s) (se_accepted s) (se_shown s).
Definition setPump {S} (x : pump) (s : Session S) : Session S :=
  MkSession (se_dataBroadcast s) (se_logoCarousel s) (se_fingerprints s) (se_sectionQueue s) (se_carouselQueue s) (se_blockQueue s) (se_waitGroup s) (se_cancelled s) (se_observer s) x (se_worker s) (se_calls s) (se_seen s) (se_accepted s) (se_shown s).
Definition setWorker {S} (x : worker) (s : Session S) : Session S :=
  MkSession (se_dataBroadcast s) (se_logoCarousel s) (se_fingerprints s) (se_sectionQueue s) (se_carouselQueue s) (se_blockQueue s) (se_waitGroup s) (se_cancelled s) (se_observer s) (se_pump s) x (se_calls s) (se_seen s) (se_accepted s) (se_shown s).
Definition setCalls {S} (x : list update) (s : Session S) : Session S :=
  MkSession (se_dataBroadcast s) (se_logoCarousel s) (se_fingerprints s) (se_sectionQueue s) (se_carouselQueue s) (se_blockQueue s) (se_waitGroup s) (se_cancelled s) (se_observer s) (se_pump s) (se_worker s) x (se_seen s) (se_accepted s) (se_shown s).
Definition setSeen {S} (x : gmap eitPFSectionKey Z) (s : Session S) : Session S :=
  MkSession (se_dataBroadcast s) (se_logoCarousel s) (se_fingerprints s) (se_sectionQueue s) (se_carouselQueue s) (se_blockQueue s) (se_waitGroup s) (se_cancelled s) (se_observer s) (se_pump s) (se_worker s) (se_calls s) x (se_accepted s) (se_shown s).
Definition setAccepted {S} (x : bool → list PIDSection) (s : Session S) : Session S :=
  MkSession (se_dataBroadcast s) (se_logoCarousel s) (se_fingerprints s) (se_sectionQueue s) (se_carouselQueue s) (se_blockQueue s) (se_waitGroup s) (se_cancelled s) (se_observer s) (se_pump s) (se_worker s) (se_calls s) (se_seen s) x (se_shown s).
Definition setShown {S} (x : bool → list PIDSection) (s : Session S) : Session S :=
  MkSession (se_dataBroadcast s) (se_logoCarousel s) (se_fingerprints s) (se_sectionQueue s) (se_carouselQueue s) (se_blockQueue s) (se_waitGroup s) (se_cancelled s) (se_observer s) (se_pump s) (se_worker s) (se_calls s) (se_seen s) (se_accepted s) x.

Definition push (priority : bool) (section : PIDSection) (f : bool → list PIDSection) : bool → list PIDSection :=
  <[priority := f priority ++ [section]]> f.

(** ** The code *)

Section Session.
Context {S : Type} {store : ModuleStore S} {jis : ISO2022JP} {sorting : ComponentSort}.
Context {OS : RangeOrder dataBroadcastService} {OC : RangeOrder bool} {OG : RangeOrder (gmap Z bool)}.
Context {OM : RangeOrder dsmccModuleState} {OR : RangeOrder DSMCCModuleRejection} {OK : RangeOrder DSMCCCarousel}.
(** Whether the updaters are there. *)
Context (eitUpdater logoUpdater : bool).

Definition NewSession (typ channel : string) (store : option S) : Session S :=
  MkSession (NewDataBroadcastHub typ channel store) NewDSMCCLogoCarousel ∅ [] [] (λ _, []) 0 false Watching Pumping Looking [] ∅ (λ _, []) (λ _, []).

Definition reserveEITPFSection (key : eitPFSectionKey) (fingerprint : Z) (s : Session S) : Session S * bool :=
  if bool_decide (se_fingerprints s !! key = Some fingerprint) then (s, false)
  else (setFingerprints (<[key := fingerprint]> (se_fingerprints s)) s, true).

Definition releaseEITPFSection (key : eitPFSectionKey) (fingerprint : Z) (s : Session S) : Session S :=
  if bool_decide (se_fingerprints s !! key = Some fingerprint) then setFingerprints (delete key (se_fingerprints s)) s else s.

(** [observeSection], up to the send to the queue of sections. *)
Definition observeSection (section : SectionBytes) (s : Session S) : outcome (Session S) :=
  t ← TableID section;
  if (t =? TableIDDSMCCDII) || (t =? TableIDDSMCCDDB) then
    if negb logoUpdater then Ret s
    else
      '(carousel, accepts) ← AcceptsSection section (se_logoCarousel s);
      let s := setLogoCarousel carousel s in
      if negb accepts then Ret s
      else if len (se_carouselQueue s) <? carouselQueueSize then Ret (setCarouselQueue (se_carouselQueue s ++ [section]) s) else Ret s
  else if negb (IsEITPF t) && negb (t =? TableIDCDT) && negb (t =? TableIDSDTT) then Ret s
  else
    coalesce ← eitPFSectionFingerprint section;
    match coalesce with
    | None => Ret (setObserver (SendingSection section None) s)
    | Some (key, fingerprint) =>
        let s := setSeen (<[key := fingerprint]> (se_seen s)) s in
        let '(s, reserved) := reserveEITPFSection key fingerprint s in
        if reserved : bool then Ret (setObserver (SendingSection section (Some (key, fingerprint))) s) else Ret s
    end.

(** The [select] of [observeSection]. *)
Definition sendSection (section : SectionBytes) (coalesce : option (eitPFSectionKey * Z)) (s : Session S) : Session S :=
  let s := setObserver Watching s in
  if len (se_sectionQueue s) <? sectionQueueSize then setSectionQueue (se_sectionQueue s ++ [section]) s
  else match coalesce with Some (key, fingerprint) => releaseEITPFSection key fingerprint s | None => s end.

(** [observePIDSection], up to the send. *)
Definition observePIDSection (section : PIDSection) (s : Session S) : outcome (Session S) :=
  t ← TableID (ps_Section section);
  if negb (t =? TableIDDSMCCDDB) then
    hub ← Observe section (se_dataBroadcast s);
    Ret (setBroadcast hub s)
  else
    '(hub, (priority, entryDocument)) ← DDBPriority section (se_dataBroadcast s);
    Ret (setObserver (SendingBlock section (entryDocument || (0 <? priority))) (setWaitGroup (se_waitGroup s + 1) (setBroadcast hub s))).

(** [WaitGroup.Done]; a negative counter panics. *)
Definition Done (s : Session S) : outcome (Session S) :=
  if se_waitGroup s - 1 <? 0 then Panic else Ret (setWaitGroup (se_waitGroup s - 1) s).

Definition queueCapacity (priority : bool) : Z := if priority then dataBroadcastPriorityQueueSize else dataBroadcastQueueSize.

(** Its [select]. *)
Definition sendBlock (section : PIDSection) (priority : bool) (s : Session S) : outcome (Session S) :=
  let s := setObserver Watching s in
  if len (se_blockQueue s priority) <? queueCapacity priority
  then Ret (setAccepted (push priority section (se_accepted s)) (setBlockQueue (push priority section (se_blockQueue s)) s))
  else Done s.

(** [updateSection] without its first statement. *)
Definition updateLogos (section : SectionBytes) (s : Session S) : outcome (Session S) :=
  let call u s := setCalls (se_calls s ++ [u]) s in
  t ← TableID section;
  s ← if (t =? TableIDCDT) && logoUpdater then
        cdt ← caught (ParseCDT section);
        match cdt with
        | None => Ret s
        | Some cdt =>
            image ← caught (ParseCDTLogoImage cdt);
            Ret match image with Some image => call (UpsertLogoImage image) s | None => s end
        end
      else Ret s;
  s ← if (t =? TableIDSDTT) && logoUpdater then
        announcements ← caught (ParseSDTTCommonDataAnnouncements section);
        Ret (fold_left (λ s a, call (UpsertCommonDataAnnouncement a) s) (default [] announcements) s)
      else Ret s;
  s ← if (t =? TableIDDSMCCDII) && logoUpdater then
        dii ← caught (ParseDSMCCDII section);
        Ret match dii with Some dii => setLogoCarousel (ObserveLogoDII dii (se_logoCarousel s)) s | None => s end
      else Ret s;
  if (t =? TableIDDSMCCDDB) && logoUpdater then
    ddb ← caught (ParseDSMCCDDB section);
    match ddb with
    | None => Ret s
    | Some ddb =>
        '(carousel, (images, err)) ← ObserveLogoDDB ddb (se_logoCarousel s);
        let s := setLogoCarousel carousel s in
        match err with
        | Some _ => Ret s
        | None => Ret (fold_left (λ s i, call (UpsertCommonLogoImage i) s) images s)
        end
    end
  else Ret s.

(** [updateSection]; [ok] tells whether [UpsertEIT] returns no error. *)
Definition updateSection (ok : bool) (section : SectionBytes) (s : Session S) : outcome (Session S) :=
  t ← TableID section;
  '(s, failed) ←
    if IsEITPF t && eitUpdater then
      coalesced ← eitPFSectionFingerprint section;
      eit ← caught (ParseEIT section);
      match eit with
      | None => Ret (s, coalesced)
      | Some eit => Ret (setCalls (se_calls s ++ [UpsertEIT section eit ok]) s, if ok then None else coalesced)
      end
    else Ret (s, None);
  match failed with
  | Some (key, fingerprint) => Ret (setPump (Releasing section key fingerprint) s)
  | None => s ← updateLogos section s; Ret (setPump Pumping s)
  end.

(** The release, and the rest of [updateSection]. *)
Definition finishSectionUpdate (section : SectionBytes) (key : eitPFSectionKey) (fingerprint : Z) (s : Session S) : outcome (Session S) :=
  s ← updateLogos section (releaseEITPFSection key fingerprint s); Ret (setPump Pumping s).

(** A receive from a queue of blocks. *)
Definition takeBlock (priority draining : bool) (s : Session S) : outcome (Session S) :=
  match se_blockQueue s priority with
  | [] => Ret s
  | section :: q => Ret (setWorker (Observing section priority draining) (setBlockQueue (<[priority := q]> (se_blockQueue s)) s))
  end.

(** The first [select]. *)
Definition look (s : Session S) : outcome (Session S) :=
  match se_blockQueue s true with [] => Ret (setWorker Waiting s) | _ => takeBlock true false s end.

Definition observeQueuedDDB (section : PIDSection) (priority draining : bool) (s : Session S) : outcome (Session S) :=
  hub ← Observe section (se_dataBroadcast s);
  s ← Done (setBroadcast hub s);
  Ret (setShown (push priority section (se_shown s)) (setWorker (if draining then Draining else Looking) s)).

(** ** The steps *)

Inductive sessionStep : Type :=
| ObservesSection (section : SectionBytes)
| SendsSection
| ObservesPIDSection (section : PIDSection)
| SendsBlock
| ObservesPacket (packet : Packet)
| PumpTakes (carousel : bool)
| PumpUpdates (ok : bool)
| PumpReleases
| PumpEnds
| WorkerLooks
| WorkerTakes (priority : bool)
| WorkerShows
| WorkerDrains
| WorkerEnds
| Cancels
| Viewer (op : hubOp).

Definition nonempty {A} (l : list A) : bool := match l with [] => false | _ => true end.

Definition canStep (a : sessionStep) (s : Session S) : bool :=
  match a with
  | ObservesSection _ | ObservesPIDSection _ | ObservesPacket _ => match se_observer s with Watching => negb (se_cancelled s) | _ => false end
  | SendsSection => match se_observer s with SendingSection _ _ => true | _ => false end
  | SendsBlock => match se_observer s with SendingBlock _ _ => true | _ => false end
  | PumpTakes carousel =>
      match se_pump s with Pumping => nonempty (if carousel then se_carouselQueue s else se_sectionQueue s) | _ => false end
  | PumpUpdates _ => match se_pump s with Updating _ => true | _ => false end
  | PumpReleases => match se_pump s with Releasing _ _ _ => true | _ => false end
  | PumpEnds => match se_pump s with Pumping => se_cancelled s | _ => false end
  | WorkerLooks => match se_worker s with Looking => true | _ => false end
  | WorkerTakes priority => match se_worker s with Waiting | Draining => nonempty (se_blockQueue s priority) | _ => false end
  | WorkerShows => match se_worker s with Observing _ _ _ => true | _ => false end
  | WorkerDrains => match se_worker s with Waiting => se_cancelled s | _ => false end
  | WorkerEnds => match se_worker s with Draining => negb (nonempty (se_blockQueue s true)) && negb (nonempty (se_blockQueue s false)) | _ => false end
  | Cancels => match se_observer s with Watching => true | _ => false end
  | Viewer op => match op with Sees _ | SeesPacket _ => false | _ => true end
  end.

Definition act (a : sessionStep) (s : Session S) : outcome (Session S) :=
  match a with
  | ObservesSection section => observeSection section s
  | SendsSection => match se_observer s with SendingSection section coalesce => Ret (sendSection section coalesce s) | _ => Ret s end
  | ObservesPIDSection section => observePIDSection section s
  | SendsBlock => match se_observer s with SendingBlock section priority => sendBlock section priority s | _ => Ret s end
  | ObservesPacket packet => hub ← ObservePacket packet (se_dataBroadcast s); Ret (setBroadcast hub s)
  | PumpTakes carousel =>
      match (if carousel then se_carouselQueue s else se_sectionQueue s) with
      | [] => Ret s
      | section :: q => Ret (setPump (Updating section) ((if carousel then setCarouselQueue else setSectionQueue) q s))
      end
  | PumpUpdates ok => match se_pump s with Updating section => updateSection ok section s | _ => Ret s end
  | PumpReleases => match se_pump s with Releasing section key fingerprint => finishSectionUpdate section key fingerprint s | _ => Ret s end
  | PumpEnds => Ret (setPump PumpEnded s)
  | WorkerLooks => look s
  | WorkerTakes priority => takeBlock priority (match se_worker s with Draining => true | _ => false end) s
  | WorkerShows => match se_worker s with Observing section priority draining => observeQueuedDDB section priority draining s | _ => Ret s end
  | WorkerDrains => Ret (setWorker Draining s)
  | WorkerEnds => Ret (setWorker WorkerEnded s)
  | Cancels => Ret (setCancelled true s)
  | Viewer op => hub ← perform op (se_dataBroadcast s); Ret (setBroadcast hub s)
  end.

End Session.

(** ** The carousel of logos, under any sections *)

Definition logo_module_ok (m : dsmccLogoModuleState) : Prop := module_ok (lm_info m) ∧ map_Forall (λ _ d, bytes_ok d) (lm_blocks m).
Definition logos_ok (c : DSMCCLogoCarousel) : Prop := map_Forall (λ _ m, logo_module_ok m) c.

Lemma observeLogoDII_logos dii c : Forall module_ok (dii_Modules dii) → logos_ok c → logos_ok (fst (observeLogoDII dii c)).
Proof.
  intros Hms Hc. unfold observeLogoDII. change c with (fst (c, false)) in Hc. revert Hc. generalize (c, false).
  induction Hms as [| m ms Hm _ IH]; intros st Hst; [done |]. cbn [fold_left]. apply IH. destruct st as [c1 accepted]. unfold observeLogoModule.
  destruct (negb _); [done |]. cbn [fst]. case_match; [done |]. apply map_Forall_insert_2; [| done]. split; [done | apply map_Forall_empty].
Qed.

Lemma AcceptsSection_safe section c : bytes_ok section → section ≠ [] → logos_ok c → returns (AcceptsSection section c) (λ '(c', _), logos_ok c').
Proof.
  intros Hb Hne Hc. unfold AcceptsSection, TableID. apply safe_bind, safe_byte; [done | destruct section; [done |]; rewrite len_cons; pose proof (len_nonneg section); lia |].
  intros _. case_match; [| case_match; [| done]]; apply safe_bind.
  - eapply safe_mono; [eapply caught_returns, ParseDSMCCDII_safe; exact Hb |]. intros [dii |] Hdii; [| done]. apply safe_ret.
    destruct (Hdii dii eq_refl) as (_ & _ & Hms & _). pose proof (observeLogoDII_logos dii c Hms Hc). by destruct (observeLogoDII dii c).
  - eapply safe_mono; [eapply caught_returns, ParseDSMCCDDB_safe; exact Hb |]. intros ddb _. done.
Qed.

Lemma joinBlocks_bytes n : ∀ i blocks data, map_Forall (λ _ d, bytes_ok d) blocks → joinBlocks n i blocks = Some data → bytes_ok data.
Proof.
  induction n as [| n IH]; intros i blocks data Hb E; cbn [joinBlocks] in E; [injection E as <-; apply Forall_nil_2 |].
  destruct (blocks !! u16 i) as [block |] eqn:Ei; [| done]. cbn in E. destruct (joinBlocks n (i + 1) blocks) as [rest |] eqn:Er; [| done].
  injection E as <-. apply bytes_ok_app; [exact (Hb _ _ Ei) | by eapply IH].
Qed.

Lemma assemble_safe m : logo_module_ok m → returns (assemble m) (λ r, ∀ data, r = Some data → bytes_ok data).
Proof.
  intros [(_ & Hsize & _) Hb]. unfold assemble. case_match; [done |]. cbv zeta. case_match; [done |]. destruct (joinBlocks _ _ _) as [data |] eqn:E; [| done].
  case_match; [done |]. bools. assert (u32 (len data) ≤ len data) by (unfold u32; apply Z.mod_le; [apply len_nonneg | lia]).
  rewrite slice_sub by lia. cbn. intros d [= <-]. by apply bytes_ok_sub; eapply joinBlocks_bytes.
Qed.

Lemma LogoType_safe m : bytes_ok (mi_Info m) → returns (LogoType m) (λ _, True).
Proof.
  intros Hb. unfold LogoType. destruct (bytesIndex _ _) as [idx |] eqn:E; [| done]. case_match; [done |]. bools.
  assert (0 ≤ idx) by (clear -E; revert idx E; induction (mi_Info m) as [| x l IH]; intros idx E; cbn [bytesIndex] in E; case_match;
    [by injection E as <- | done | by injection E as <- |]; destruct (bytesIndex l logoName) as [j |]; [| done]; injection E as <-; specialize (IH j eq_refl); lia).
  apply safe_bind, safe_byte; [done | lia |]. intros _. by case_match.
Qed.

Lemma ObserveLogoDDB_safe ddb c : ddb_ok ddb → logos_ok c → returns (ObserveLogoDDB ddb c) (λ '(c', _), logos_ok c').
Proof.
  intros (_ & _ & _ & _ & Hd) Hc. unfold ObserveLogoDDB. destruct (c !! ddb_ModuleID ddb) as [m |] eqn:E; [| done]. case_match; [done |].
  destruct (Hc _ _ E) as [Hm Hb]. set (blocks := <[ddb_BlockNumber ddb := ddb_Data ddb]> (lm_blocks m)).
  assert (map_Forall (λ _ d, bytes_ok d) blocks) as Hblocks by by apply map_Forall_insert_2.
  assert (∀ emitted, logos_ok (<[ddb_ModuleID ddb := MkLogoState (lm_info m) (lm_downloadID m) (lm_blockSize m) blocks emitted]> c)) as Hstored
    by (intros emitted; by apply map_Forall_insert_2).
  apply safe_bind. eapply safe_mono; [by apply assemble_safe |]. intros [data |] Hdata; [| by apply safe_ret].
  pose proof (ParseLogoDataModule_safe data (Hdata data eq_refl)) as Himages. destruct (ParseLogoDataModule data) as [images | e | |]; try done.
  - apply safe_bind. eapply safe_mono; [apply LogoType_safe, Hm |]. intros t _. apply safe_ret, Hstored.
  - apply safe_ret, Hstored.
Qed.

(** ** The invariant *)

Definition noContent (_ : ModuleCacheKey) : option (list Z) := None.
Lemma noContent_sizes key d : noContent key = Some d → len d = ck_Size key.
Proof. done. Qed.

Definition section_fine (section : SectionBytes) : Prop := bytes_ok section ∧ section ≠ [].

(** The fingerprint of a section, if it is one of the key. *)
Definition printOf (key : eitPFSectionKey) (section : SectionBytes) : option Z :=
  match eitPFSectionFingerprint section with Ret (Some (k, f)) => if decide (k = key) then Some f else None | _ => None end.

(** EIT p/f sections stored and on their way, in order. *)
Definition delivered (calls : list update) : list SectionBytes :=
  omap (λ u, match u with UpsertEIT section _ true => Some section | _ => None end) calls.
Definition inPump (p : pump) : list SectionBytes :=
  match p with Updating section | Releasing section _ _ => [section] | _ => [] end.
Definition sending (o : observer) : list SectionBytes := match o with SendingSection section _ => [section] | _ => [] end.
Definition pipeline {S} (s : Session S) : list SectionBytes :=
  delivered (se_calls s) ++ inPump (se_pump s) ++ se_sectionQueue s ++ sending (se_observer s).

(** The blocks of a queue that the worker or the observer holds. *)
Definition held (w : worker) (priority : bool) : list PIDSection :=
  match w with Observing section p _ => if decide (p = priority) then [section] else [] | _ => [] end.
Definition pending (o : observer) : Z := match o with SendingBlock _ _ => 1 | _ => 0 end.
Definition busy (w : worker) : Z := match w with Observing _ _ _ => 1 | _ => 0 end.

Lemma eitPFSectionFingerprint_safe section : bytes_ok section → returns (eitPFSectionFingerprint section) (λ _, True).
Proof.
  intros Hb. unfold eitPFSectionFingerprint, TableID. destruct (len section <? 14) eqn:El; [done |]. bools. cbn [orM mbind outcome_bind].
  rewrite !idx_byteAt by lia. cbn [mbind outcome_bind]. case_match; [done |]. rewrite TotalLength_ret by lia. cbn [mbind outcome_bind].
  pose proof (totalOf_bound section Hb). case_match; [done |]. bools. go. exact I.
Qed.

Lemma printOf_none section key : (∀ k f, eitPFSectionFingerprint section = Ret (Some (k, f)) → False) → printOf key section = None.
Proof. unfold printOf. intros H. destruct (eitPFSectionFingerprint section) as [[[k f] |] | | |] eqn:E; [exfalso; by eapply H | done..]. Qed.

Lemma fingerprint_EIT section k f t : eitPFSectionFingerprint section = Ret (Some (k, f)) → TableID section = Ret t → IsEITPF t = true.
Proof.
  unfold eitPFSectionFingerprint. intros E Ht. rewrite Ht in E. destruct (len section <? 14); [done |]. cbn in E. by destruct (IsEITPF t).
Qed.

#[local] Arguments eitPFSectionFingerprint : simpl never.

Section Theorems.
Context {S : Type} {MS : ModuleStore S} {laws : StoreLaws S} {jis : ISO2022JP} {sorting : ComponentSort}.
Context {OS : RangeOrder dataBroadcastService} {OC : RangeOrder bool} {OG : RangeOrder (gmap Z bool)}.
Context {OM : RangeOrder dsmccModuleState} {OR : RangeOrder DSMCCModuleRejection} {OK : RangeOrder DSMCCCarousel}.
Context (eitUpdater logoUpdater : bool) (typ channel : string).
Context (jis_text : ∀ l s, Transform l = Some s → text_ok s).
Implicit Types s : Session S.

Definition hubGood (h : DataBroadcastHub S) : Prop := hubReachable typ channel noContent h.

Definition observer_fine (o : observer) : Prop :=
  match o with
  | Watching => True
  | SendingSection section coalesce => section_fine section ∧ eitPFSectionFingerprint section = Ret coalesce
  | SendingBlock section _ => section_fine (ps_Section section)
  end.
Definition pump_fine (p : pump) : Prop :=
  match p with
  | Updating section => section_fine section
  | Releasing section key f => section_fine section ∧ eitPFSectionFingerprint section = Ret (Some (key, f))
  | _ => True
  end.
Definition worker_fine (s : Session S) : Prop :=
  match se_worker s with
  | Observing section _ draining => section_fine (ps_Section section) ∧ (draining = true → se_cancelled s = true)
  | Draining => se_cancelled s = true
  | WorkerEnded => se_cancelled s = true ∧ ∀ p, se_blockQueue s p = []
  | _ => True
  end.

(** What the sections need; and the fingerprints, which are those last seen and
    those of the last section stored or on its way. *)
Record sections_ok s : Prop := {
  sc_logos : logos_ok (se_logoCarousel s);
  sc_observer : observer_fine (se_observer s);
  sc_pump : pump_fine (se_pump s);
  sc_queue : Forall section_fine (se_sectionQueue s) ∧ len (se_sectionQueue s) ≤ sectionQueueSize;
  sc_carousels : Forall (λ x, section_fine x ∧ ∀ key, printOf key x = None) (se_carouselQueue s) ∧ len (se_carouselQueue s) ≤ carouselQueueSize;
  sc_prints : eitUpdater = true → ∀ key f, se_fingerprints s !! key = Some f →
    se_seen s !! key = Some f ∧ last (omap (printOf key) (pipeline s)) = Some f
}.

Record blocks_ok s : Prop := {
  bk_hub : hubGood (se_dataBroadcast s);
  bk_queue p : Forall (λ b, section_fine (ps_Section b)) (se_blockQueue s p) ∧ len (se_blockQueue s p) ≤ queueCapacity p;
  bk_worker : worker_fine s;
  bk_wait : se_waitGroup s = len (se_blockQueue s true) + len (se_blockQueue s false) + busy (se_worker s) + pending (se_observer s);
  bk_blocks p : se_accepted s p = se_shown s p ++ held (se_worker s) p ++ se_blockQueue s p;
  bk_cancelled : se_cancelled s = true → se_observer s = Watching
}.

Definition session_ok s : Prop := sections_ok s ∧ blocks_ok s.

(** The parts a step of the sections leaves alone, and one of the blocks. *)
Lemma blocks_ok_same s s' : blocks_ok s → se_dataBroadcast s' = se_dataBroadcast s → se_blockQueue s' = se_blockQueue s → se_worker s' = se_worker s →
  se_waitGroup s' = se_waitGroup s → pending (se_observer s') = pending (se_observer s) → se_accepted s' = se_accepted s → se_shown s' = se_shown s →
  se_cancelled s' = se_cancelled s → (se_cancelled s = true → se_observer s' = Watching) → blocks_ok s'.
Proof.
  intros [H1 H2 H3 H4 H5 H6] E1 E2 E3 E4 E5 E6 E7 E8 Hw. split; rewrite ?E1, ?E2, ?E3, ?E4, ?E5, ?E6, ?E7, ?E8; try done.
  unfold worker_fine in *. by rewrite E2, E3, E8.
Qed.

Lemma sections_ok_same s s' : sections_ok s → se_logoCarousel s' = se_logoCarousel s → se_pump s' = se_pump s →
  se_sectionQueue s' = se_sectionQueue s → se_carouselQueue s' = se_carouselQueue s → se_fingerprints s' = se_fingerprints s →
  se_seen s' = se_seen s → se_calls s' = se_calls s → observer_fine (se_observer s') → sending (se_observer s') = sending (se_observer s) → sections_ok s'.
Proof.
  intros [H1 H2 H3 H4 H5 H6] E1 E2 E3 E4 E5 E6 E7 Hf E8. split; rewrite ?E1, ?E2, ?E3, ?E4, ?E5, ?E6; try done.
  unfold pipeline. by rewrite E2, E3, E7, E8.
Qed.

(** ** Steps of the sections *)

Lemma last_omap_snoc {A B} (f : A → option B) l x : last (omap f (l ++ [x])) = match f x with Some y => Some y | None => last (omap f l) end.
Proof. rewrite omap_app. cbn. destruct (f x); [apply last_snoc | by rewrite app_nil_r]. Qed.

(** The last element, when another one is taken out. *)
Lemma last_omap_without {A B} (f : A → option B) l x k y :
  last (omap f (l ++ x :: k)) = Some y → f x ≠ Some y → last (omap f (l ++ k)) = Some y.
Proof.
  rewrite !omap_app. cbn. destruct (f x) as [z |]; [| done]. intros H Hne. destruct (omap f k) as [| w r]; [| by rewrite last_app_cons in *].
  rewrite last_app_cons in H. cbn in H. congruence.
Qed.

Lemma session_observeSection_ok section s : session_ok s → section_fine section → se_observer s = Watching → se_cancelled s = false →
  returns (observeSection logoUpdater section s) session_ok.
Proof.
  intros [Hs Hk] [Hb Hne] Ho Hc. unfold observeSection, TableID. destruct section as [| b0 l] eqn:El; [done |]. rewrite <- El in *.
  assert (0 < len section) by (rewrite El, len_cons; pose proof (len_nonneg l); lia). apply safe_bind, safe_byte; [done | lia |]. intros _.
  pose proof Hs as [H1 H2 H3 H4 H5 H6]. case_match.
  { assert (∀ key, printOf key section = None) as Hnone.
    { intros key. apply printOf_none. intros k f Ef. pose proof (fingerprint_EIT _ _ _ (byteAt section 0) Ef (idx_byteAt section 0 ltac:(lia))) as Ht.
      revert Ht H0. unfold IsEITPF, TableIDEITPF0, TableIDEITPF1, TableIDDSMCCDII, TableIDDSMCCDDB. lia. }
    destruct logoUpdater; [| done]. cbn [negb]. apply safe_bind. eapply safe_mono; [by apply (AcceptsSection_safe section) |].
    intros [carousel accepts] Hl. cbv zeta. repeat case_match; apply safe_ret; (split; [| by apply (blocks_ok_same s)]); split; try done.
    cbn. bools. split; [apply Forall_app; split; [apply H5 | by apply Forall_singleton] | rewrite len_app; cbn in *; change (len [section]) with 1; lia]. }
  case_match; [done |]. pose proof (eitPFSectionFingerprint_safe section Hb) as Hsafe. destruct (eitPFSectionFingerprint section) as [coalesce | | |] eqn:Ef; try done.
  cbn [mbind outcome_bind]. assert (∀ coalesce', observer_fine (SendingSection section coalesce') ↔ coalesce' = coalesce) as Hfine.
  { intros c'. cbn. rewrite Ef. split; [by intros [_ [= ->]] | by intros ->]. }
  destruct coalesce as [[key f] |]; unfold reserveEITPFSection; [case_bool_decide as Hd |]; apply safe_ret;
    (split; [| apply (blocks_ok_same s); cbn; rewrite ?Ho; first [done | congruence]]); split; try done; cbn -[observer_fine]; try by apply Hfine.
  - intros Hu k g Hg. destruct (H6 Hu k g Hg) as [E1 E2]. split; [| done]. destruct (decide (k = key)) as [-> |]; [| by rewrite lookup_insert_ne].
    rewrite lookup_insert_eq. cbn in Hd. congruence.
  - intros Hu k g Hg. unfold pipeline. cbn. rewrite !app_assoc, last_omap_snoc. unfold printOf at 1. rewrite Ef.
    rewrite <- app_assoc. case_decide as Hk'; [subst k; rewrite lookup_insert_eq in Hg; injection Hg as ->; by rewrite lookup_insert_eq |].
    rewrite lookup_insert_ne in Hg |- * by done. destruct (H6 Hu k g Hg) as [E1 E2]. split; [done |]. unfold pipeline in E2. by rewrite Ho, app_nil_r in E2.
  - intros Hu k g Hg. destruct (H6 Hu k g Hg) as [E1 E2]. split; [done |]. unfold pipeline in *. cbn. rewrite !app_assoc, last_omap_snoc. unfold printOf at 1. rewrite Ef.
    rewrite Ho, app_nil_r, app_assoc in E2. done.
Qed.

Lemma sendSection_ok section coalesce s : session_ok s → se_observer s = SendingSection section coalesce → session_ok (sendSection section coalesce s).
Proof.
  intros [Hs Hk] Ho. pose proof Hs as [H1 H2 H3 H4 H5 H6]. rewrite Ho in H2. destruct H2 as [Hf Ef]. unfold sendSection. cbv zeta.
  assert (∀ k, printOf k section = match coalesce with Some (key, f) => if decide (key = k) then Some f else None | None => None end) as Hprint.
  { intros k. unfold printOf. by rewrite Ef. }
  destruct (len _ <? sectionQueueSize) eqn:Elen; [| destruct coalesce as [[key f] |]; [unfold releaseEITPFSection; case_bool_decide as Hd |]];
    (split; [| apply (blocks_ok_same s); cbn; rewrite ?Ho; done]); split; try done; cbn in *.
  - bools. split; [apply Forall_app; split; [apply H4 | by apply Forall_singleton] | rewrite len_app; change (len [section]) with 1; lia].
  - intros Hu k g Hg. unfold pipeline. cbn. destruct (H6 Hu k g Hg) as [E1 E2]. unfold pipeline in E2. rewrite Ho in E2. by rewrite app_nil_r.
  - intros Hu k g Hg. apply lookup_delete_Some in Hg as [Hne Hg]. destruct (H6 Hu k g Hg) as [E1 E2]. split; [done |].
    unfold pipeline in *. rewrite Ho in E2. cbn in *. rewrite !app_assoc, last_omap_snoc, Hprint, decide_False, <- app_assoc in E2 by done. by rewrite app_nil_r.
  - intros Hu k g Hg. destruct (H6 Hu k g Hg) as [E1 E2]. split; [done |]. unfold pipeline in *. rewrite Ho in E2. cbn in *.
    rewrite !app_assoc, last_omap_snoc, Hprint, <- app_assoc in E2. rewrite app_nil_r. case_decide; [| done]. congruence.
  - intros Hu k g Hg. destruct (H6 Hu k g Hg) as [E1 E2]. split; [done |]. unfold pipeline in *. rewrite Ho in E2. cbn in *.
    rewrite !app_assoc, last_omap_snoc, Hprint, <- app_assoc in E2. by rewrite app_nil_r.
Qed.

Lemma delivered_app x y : delivered (x ++ y) = delivered x ++ delivered y.
Proof. apply omap_app. Qed.

(** What [updateLogos] changes. *)
Definition logos_only s s' : Prop := logos_ok (se_logoCarousel s') ∧
  ∃ extra, s' = setLogoCarousel (se_logoCarousel s') (setCalls (se_calls s ++ extra) s) ∧ delivered extra = [].

Lemma logos_only_refl s : logos_ok (se_logoCarousel s) → logos_only s s.
Proof. intros H. split; [done |]. exists []. rewrite app_nil_r. by destruct s. Qed.

Lemma logos_only_trans s s' s'' : logos_only s s' → logos_only s' s'' → logos_only s s''.
Proof.
  intros [_ (x & -> & Hx)] [H2 (y & -> & Hy)]. split; [done |]. exists (x ++ y). cbn. rewrite app_assoc. split; [done |].
  by rewrite delivered_app, Hx, Hy.
Qed.

Lemma logos_only_calls {A} (f : A → update) l s : (∀ a, delivered [f a] = []) → logos_ok (se_logoCarousel s) →
  logos_only s (fold_left (λ s a, setCalls (se_calls s ++ [f a]) s) l s).
Proof.
  intros Hf. revert s. induction l as [| a l IH]; intros s Hs; [by apply logos_only_refl |]. eapply logos_only_trans; [| by apply IH].
  split; [done |]. exists [f a]. by destruct s.
Qed.

Lemma logos_only_call u s : delivered [u] = [] → logos_ok (se_logoCarousel s) → logos_only s (setCalls (se_calls s ++ [u]) s).
Proof. intros Hu Hs. exact (logos_only_calls (λ _ : unit, u) [()] s (λ _, Hu) Hs). Qed.

Lemma logos_only_carousel c s : logos_ok c → logos_only s (setLogoCarousel c s).
Proof. intros Hc. split; [done |]. exists []. rewrite app_nil_r. by destruct s. Qed.

Lemma safe_then {P : Session S → Prop} (m : outcome (Session S)) (f : Session S → outcome (Session S)) s :
  returns m (logos_only s) → (∀ s', logos_only s s' → returns (f s') (logos_only s')) → returns (s' ← m; f s') (logos_only s).
Proof.
  intros Hm Hf. apply safe_bind. eapply safe_mono; [exact Hm |]. intros s' Hs'. eapply safe_mono; [by apply Hf |]. intros s'' Hs''.
  by eapply logos_only_trans.
Qed.

Lemma updateLogos_safe section s : section_fine section → logos_ok (se_logoCarousel s) → returns (updateLogos logoUpdater section s) (logos_only s).
Proof.
  intros [Hb Hne] Hl. unfold updateLogos, TableID. destruct section as [| b0 l] eqn:El; [done |]. rewrite <- El in *.
  assert (0 < len section) by (rewrite El, len_cons; pose proof (len_nonneg l); lia). apply safe_bind, safe_byte; [done | lia |]. intros _.
  apply (safe_then (P := λ _, True)); [| intros s1 [Hl1 _]; apply (safe_then (P := λ _, True)); [| intros s2 [Hl2 _]; apply (safe_then (P := λ _, True));
    [| intros s3 [Hl3 _]]]]; (case_match; [| by apply safe_ret, logos_only_refl]); apply safe_bind.
  - eapply safe_mono; [eapply caught_returns, ParseCDT_safe; exact Hb |]. intros [cdt |] Hcdt; [| by apply safe_ret, logos_only_refl].
    pose proof (Hcdt cdt eq_refl) as Hcdt'. apply safe_bind. eapply safe_mono; [eapply caught_returns, ParseCDTLogoImage_safe; apply Hcdt' |].
    intros [image |] _; apply safe_ret; [by apply logos_only_call | by apply logos_only_refl].
  - eapply safe_mono; [eapply caught_returns, ParseSDTT_safe; exact Hb |]. intros announcements _. apply safe_ret. by apply logos_only_calls.
  - eapply safe_mono; [eapply caught_returns, ParseDSMCCDII_safe; exact Hb |]. intros [dii |] Hdii; apply safe_ret; [| by apply logos_only_refl].
    destruct (Hdii dii eq_refl) as (_ & _ & Hms & _). by apply logos_only_carousel, observeLogoDII_logos.
  - eapply safe_mono; [eapply caught_returns, ParseDSMCCDDB_safe; exact Hb |]. intros [ddb |] Hddb; [| by apply safe_ret, logos_only_refl].
    destruct (Hddb ddb eq_refl) as [Hok _]. apply safe_bind. eapply safe_mono; [by apply ObserveLogoDDB_safe |]. intros [carousel [images err]] Hc. cbv zeta.
    destruct err; apply safe_ret; [by apply logos_only_carousel |]. eapply logos_only_trans; [by apply logos_only_carousel | by apply logos_only_calls].
Qed.

(** The pump is done with a section. *)
Lemma done_ok section s s' : session_ok s → logos_only s s' → inPump (se_pump s) = [section] →
  (eitUpdater = true → ∀ k f, se_fingerprints s !! k = Some f → last (omap (printOf k) (delivered (se_calls s) ++ se_sectionQueue s ++ sending (se_observer s))) = Some f) →
  session_ok (setPump Pumping s').
Proof.
  intros [[H1 H2 H3 H4 H5 H6] Hk] [Hl (extra & -> & Hx)] Hp Hlast. split; [| by apply (blocks_ok_same s); try done; apply Hk].
  split; try done. cbn. intros Hu k f Hf. destruct (H6 Hu k f Hf) as [E1 _]. split; [done |]. unfold pipeline. cbn.
  rewrite delivered_app, Hx, app_nil_r. by apply Hlast.
Qed.

Lemma updateSection_ok ok section s : session_ok s → se_pump s = Updating section → returns (updateSection eitUpdater logoUpdater ok section s) session_ok.
Proof.
  intros [Hs Hk] Hp. pose proof Hs as [H1 H2 H3 H4 H5 H6]. rewrite Hp in H3. pose proof H3 as [Hb Hne]. unfold updateSection.
  destruct (TableID section) as [t | | |] eqn:Et; [| by unfold TableID in Et; destruct section..]. cbn [mbind outcome_bind].
  assert (pipeline s = delivered (se_calls s) ++ section :: se_sectionQueue s ++ sending (se_observer s)) as Epipe by (unfold pipeline; by rewrite Hp).
  assert (∀ s1, session_ok s1 → inPump (se_pump s1) = [section] → (eitUpdater = true → ∀ k f, se_fingerprints s1 !! k = Some f →
      last (omap (printOf k) (delivered (se_calls s1) ++ se_sectionQueue s1 ++ sending (se_observer s1))) = Some f) →
    returns (s ← updateLogos logoUpdater section s1; Ret (setPump Pumping s)) session_ok) as Hrest.
  { intros s1 Hs1 Hp1 Hlast. apply safe_bind. eapply safe_mono; [apply updateLogos_safe; [done | apply Hs1] |]. intros s2 Hs2. apply safe_ret.
    by eapply done_ok. }
  assert ((∀ k f, eitPFSectionFingerprint section = Ret (Some (k, f)) → False) → eitUpdater = true → ∀ k f, se_fingerprints s !! k = Some f →
      last (omap (printOf k) (delivered (se_calls s) ++ se_sectionQueue s ++ sending (se_observer s))) = Some f) as Hplain.
  { intros Hno Hu k f Hf. destruct (H6 Hu k f Hf) as [_ E]. rewrite Epipe in E. apply last_omap_without in E; [done |]. by rewrite printOf_none. }
  destruct (IsEITPF t && eitUpdater) eqn:Ee.
  2: { cbn [mbind outcome_bind]. apply Hrest; [done | by rewrite Hp |]. intros Hu. rewrite Hu in Ee. apply Hplain; [| done].
       intros k f Ef. pose proof (fingerprint_EIT _ _ _ _ Ef Et). destruct (IsEITPF t); done. }
  pose proof (eitPFSectionFingerprint_safe section Hb) as Hsafe. destruct (eitPFSectionFingerprint section) as [coalesced | | |] eqn:Ef; try done. cbn [mbind outcome_bind].
  pose proof (caught_returns _ _ _ (ParseEIT_safe section Hb)) as Heit. destruct (caught (ParseEIT section)) as [[eit |] | | |]; try done; cbn [mbind outcome_bind].
  - set (s1 := setCalls _ s). assert (ok = false → session_ok s1) as Hs1.
    { intros ->. split; [| by apply (blocks_ok_same s); try done; apply Hk]. split; try done; [cbn; by rewrite Hp |].
      intros Hu k f Hf. destruct (H6 Hu k f Hf) as [E1 E2]. split; [done |]. unfold pipeline in *. cbn. rewrite delivered_app. cbn. by rewrite app_nil_r. }
    destruct ok.
    + apply safe_bind. eapply safe_mono; [apply updateLogos_safe; done |]. intros s2 Hs2. apply safe_ret.
      split; [| by destruct Hs2 as [_ (x & -> & _)]; apply (blocks_ok_same s); try done; apply Hk]. destruct Hs2 as [Hl (x & -> & Hx)]. split; try done. cbn.
      intros Hu k f Hf. destruct (H6 Hu k f Hf) as [E1 E2]. split; [done |]. rewrite Epipe in E2. unfold pipeline. cbn.
      rewrite !delivered_app, Hx. cbn. by rewrite <- !app_assoc.
    + destruct coalesced as [[key f] |]; [| apply Hrest; [by apply Hs1 | by cbn; rewrite Hp |]].
      * apply safe_ret. destruct (Hs1 eq_refl) as [[J1 J2 J3 J4 J5 J6] Jk]. split; [| by apply (blocks_ok_same s1); try done; apply Jk]. split; try done.
        intros Hu k g Hg. destruct (J6 Hu k g Hg) as [E1 E2]. split; [done |]. unfold pipeline in *. cbn in *. by rewrite Hp in E2.
      * intros Hu k g Hg. unfold s1 in *. cbn [se_calls setCalls se_sectionQueue se_observer se_fingerprints] in *. rewrite delivered_app. cbn [delivered omap list_omap].
        rewrite app_nil_r. by apply Hplain.
  - destruct coalesced as [[key f] |].
    + apply safe_ret. split; [| by apply (blocks_ok_same s); try done; apply Hk]. split; try done.
      intros Hu k g Hg. destruct (H6 Hu k g Hg) as [E1 E2]. split; [done |]. unfold pipeline in *. cbn in *. by rewrite Hp in E2.
    + apply Hrest; [done | by rewrite Hp |]. apply Hplain. by intros.
Qed.

Lemma finishSectionUpdate_ok section key f s : session_ok s → se_pump s = Releasing section key f →
  returns (finishSectionUpdate logoUpdater section key f s) session_ok.
Proof.
  intros [Hs Hk] Hp. pose proof Hs as [H1 H2 H3 H4 H5 H6]. rewrite Hp in H3. destruct H3 as [Hf Ef]. unfold finishSectionUpdate.
  set (s1 := releaseEITPFSection key f s). assert (∃ m, s1 = setFingerprints m s ∧ ∀ k g, m !! k = Some g → se_fingerprints s !! k = Some g ∧ (k = key → g ≠ f)) as (m & -> & Hm).
  { unfold s1, releaseEITPFSection. case_bool_decide as Hd.
    - eexists. split; [done |]. intros k g Hg. by apply lookup_delete_Some in Hg as [? ?].
    - exists (se_fingerprints s). split; [by destruct s |]. intros k g Hg. split; [done |]. intros -> ->. done. }
  assert (session_ok (setFingerprints m s)) as Hs1.
  { split; [| by apply (blocks_ok_same s); try done; apply Hk]. split; try done; [cbn; by rewrite Hp |]. intros Hu k g Hg. apply Hm in Hg as [Hg _].
    destruct (H6 Hu k g Hg). done. }
  apply safe_bind. eapply safe_mono; [by apply updateLogos_safe |]. intros s2 Hs2. apply safe_ret. eapply done_ok; [exact Hs1 | done | cbn; by rewrite Hp |].
  cbn. intros Hu k g Hg. apply Hm in Hg as [Hg Hne]. destruct (H6 Hu k g Hg) as [_ E]. unfold pipeline in E. rewrite Hp in E. cbn in E.
  apply last_omap_without in E; [done |]. unfold printOf. rewrite Ef. case_decide; [| done]. subst. intros [= ->]. by apply Hne.
Qed.

Lemma pumpTakes_ok carousel s section q : session_ok s → se_pump s = Pumping → (if carousel : bool then se_carouselQueue s else se_sectionQueue s) = section :: q →
  session_ok (setPump (Updating section) ((if carousel then setCarouselQueue else setSectionQueue) q s)).
Proof.
  intros [[H1 H2 H3 [H4 L4] [H5 L5] H6] Hk] Hp Hq. destruct carousel; (split; [| by apply (blocks_ok_same s); try done; apply Hk]).
  - rewrite Hq in H5, L5. apply Forall_cons in H5 as [[Hsec Hnone] Hqs]. rewrite len_cons in L5. split; try done; cbn; [split; [done | lia] |].
    intros Hu k f Hf. destruct (H6 Hu k f Hf) as [E1 E2]. split; [done |]. unfold pipeline in *. rewrite Hp in E2. cbn in *.
    rewrite omap_app. cbn. rewrite Hnone, <- omap_app. done.
  - rewrite Hq in H4, L4. apply Forall_cons in H4 as [Hsec Hqs]. rewrite len_cons in L4. split; try done; cbn; [split; [done | lia] |].
    intros Hu k f Hf. destruct (H6 Hu k f Hf) as [E1 E2]. split; [done |]. unfold pipeline in *. rewrite Hp, Hq in E2. done.
Qed.

(** ** Steps of the blocks *)

Lemma hub_good_step h op h' : hubGood h → op_ok op → perform op h = Ret h' → hubGood h'.
Proof. intros Hh Hop E. eapply hub_step; [exact Hh | exact Hop | by destruct op | exact E]. Qed.

Lemma hub_good_perform h op : hubGood h → op_ok op → returns (perform op h) hubGood.
Proof.
  intros Hh Hop. pose proof (hub_total typ channel noContent jis_text noContent_sizes h op Hh Hop ltac:(by destruct op)) as [H _].
  destruct (perform op h) as [h' | | |] eqn:E; try done. by eapply hub_good_step.
Qed.

Lemma hub_changes h s : session_ok s → hubGood h → session_ok (setBroadcast h s).
Proof. intros [Hs [K1 K2 K3 K4 K5 K6]] Hh. split; [by apply (sections_ok_same s); try done; apply Hs |]. by split. Qed.

Lemma observePIDSection_ok section s : session_ok s → section_fine (ps_Section section) → se_observer s = Watching → se_cancelled s = false →
  returns (observePIDSection section s) session_ok.
Proof.
  intros Hok [Hb Hne] Ho Hc. pose proof Hok as [Hs Hk]. unfold observePIDSection.
  destruct (TableID (ps_Section section)) as [t | | |] eqn:Et; [| by unfold TableID in Et; destruct (ps_Section section)..]. cbn [mbind outcome_bind].
  case_match; apply safe_bind.
  - pose proof (hub_good_perform _ (Sees section) (bk_hub _ Hk) (conj Hb Hne)) as Hh. cbn [perform] in Hh. eapply safe_mono; [exact Hh |].
    intros h Hg. apply safe_ret. by apply hub_changes.
  - pose proof (hub_good_perform _ (Prioritizes section) (bk_hub _ Hk) Hb) as Hh. cbn [perform] in Hh.
    destruct (DDBPriority section (se_dataBroadcast s)) as [[h [priority entry]] | | |]; try done. cbn in Hh. apply safe_ret.
    destruct (hub_changes h s Hok Hh) as [Hs1 [K1 K2 K3 K4 K5 K6]]. split; [apply (sections_ok_same s); try done; cbn; by rewrite Ho |].
    split; try done; cbn; [cbn in K4; rewrite Ho in K4; cbn in K4; lia | congruence].
Qed.

Lemma len_push p section (f : bool → list PIDSection) :
  len (push p section f true) + len (push p section f false) = len (f true) + len (f false) + 1.
Proof.
  unfold push. destruct p; rewrite fn_lookup_insert, fn_lookup_insert_ne by done; rewrite len_app; change (len [section]) with 1; lia.
Qed.

Lemma sendBlock_ok section p s : session_ok s → se_observer s = SendingBlock section p → returns (sendBlock section p s) session_ok.
Proof.
  intros [Hs Hk] Ho. pose proof Hk as [K1 K2 K3 K4 K5 K6]. unfold sendBlock. cbv zeta. assert (sections_ok (setObserver Watching s)) as Hs1
    by (apply (sections_ok_same s); try done; cbn; by rewrite Ho).
  pose proof (sc_observer _ Hs) as Hf. rewrite Ho in Hf. rewrite Ho in K4. cbn in K4. cbn [se_blockQueue setObserver].
  assert (se_cancelled s = false) as Hc by (destruct (se_cancelled s) eqn:E; [specialize (K6 eq_refl); congruence | done]).
  destruct (len (se_blockQueue s p) <? queueCapacity p) eqn:E.
  - apply safe_ret. split; [by apply (sections_ok_same (setObserver Watching s)); try done |]. bools.
    assert (∀ q, len (push p section (se_blockQueue s) q) ≤ queueCapacity q ∧ Forall (λ b, section_fine (ps_Section b)) (push p section (se_blockQueue s) q)) as Hq.
    { intros q. unfold push. destruct (K2 q) as [F L]. destruct (decide (q = p)) as [-> | Hne]; [| rewrite fn_lookup_insert_ne by done; done].
      rewrite fn_lookup_insert, len_app. change (len [section]) with 1. split; [lia |]. apply Forall_app. split; [done | by apply Forall_singleton]. }
    split; try done; cbn -[push].
    + intros q. split; apply Hq.
    + unfold worker_fine in *. cbn -[push]. destruct (se_worker s); try done. destruct K3 as [K3 _]. congruence.
    + rewrite len_push. lia.
    + intros q. unfold push. specialize (K5 q). destruct (decide (q = p)) as [-> | Hne]; [| by rewrite !fn_lookup_insert_ne by done].
      rewrite !fn_lookup_insert, K5, <- !app_assoc. done.
  - unfold Done. cbn [se_waitGroup setObserver]. pose proof (len_nonneg (se_blockQueue s true)). pose proof (len_nonneg (se_blockQueue s false)).
    assert (0 ≤ busy (se_worker s)) by (destruct (se_worker s); done). rewrite (proj2 (Z.ltb_ge _ _)) by lia. apply safe_ret.
    split; [by apply (sections_ok_same (setObserver Watching s)) |]. split; try done. cbn. lia.
Qed.

Lemma takeBlock_ok p draining s : session_ok s → (draining = true → se_cancelled s = true) → busy (se_worker s) = 0 → (∀ q, held (se_worker s) q = []) →
  returns (takeBlock p draining s) session_ok.
Proof.
  intros [Hs [K1 K2 K3 K4 K5 K6]] Hd Hb Hh. unfold takeBlock. destruct (se_blockQueue s p) as [| section r] eqn:Eq; [done |]. apply safe_ret.
  split; [by apply (sections_ok_same s); try done; apply Hs |]. pose proof (K2 p) as [F L]. rewrite Eq in F, L. rewrite len_cons in L. apply Forall_cons in F as [Hsec Hr].
  assert (len (<[p:=r]> (se_blockQueue s) true) + len (<[p:=r]> (se_blockQueue s) false) + 1 = len (se_blockQueue s true) + len (se_blockQueue s false)) as Hlen.
  { destruct p; rewrite fn_lookup_insert, fn_lookup_insert_ne by done; rewrite Eq, len_cons; lia. }
  split; try done; cbn.
  - intros q. destruct (decide (q = p)) as [-> | Hne]; [rewrite fn_lookup_insert; split; [done | lia] | rewrite fn_lookup_insert_ne by done; apply K2].
  - lia.
  - intros q. specialize (K5 q). rewrite Hh in K5. destruct (decide (q = p)) as [-> | Hne].
    + rewrite decide_True, fn_lookup_insert, K5, Eq by done. done.
    + rewrite decide_False, fn_lookup_insert_ne, K5 by congruence. done.
Qed.

Lemma observeQueuedDDB_ok section p draining s : session_ok s → se_worker s = Observing section p draining →
  returns (observeQueuedDDB section p draining s) session_ok.
Proof.
  intros Hok Hw. pose proof Hok as [Hs [K1 K2 K3 K4 K5 K6]]. unfold worker_fine in K3. rewrite Hw in K3, K4. destruct K3 as [Hsec Hd]. unfold observeQueuedDDB.
  pose proof (hub_good_perform _ (Sees section) K1 Hsec) as Hh. cbn [perform] in Hh. apply safe_bind. eapply safe_mono; [exact Hh |]. intros h Hg.
  unfold Done. cbn [se_waitGroup setBroadcast]. pose proof (len_nonneg (se_blockQueue s true)). pose proof (len_nonneg (se_blockQueue s false)).
  assert (0 ≤ pending (se_observer s)) by (destruct (se_observer s); done). cbn in K4. rewrite (proj2 (Z.ltb_ge _ _)) by lia. apply safe_bind, safe_ret, safe_ret.
  split; [by apply (sections_ok_same s); try done; apply Hs |]. split; try done; cbn -[push].
  - unfold worker_fine. cbn -[push]. destruct draining; [by apply Hd | done].
  - destruct draining; cbn; lia.
  - intros q. specialize (K5 q). rewrite Hw in K5. cbn in K5. replace (held (if draining then Draining else Looking) q) with (@nil PIDSection) by by destruct draining.
    unfold push. destruct (decide (q = p)) as [-> | Hne].
    + rewrite fn_lookup_insert, K5, decide_True by done. by rewrite <- app_assoc.
    + rewrite fn_lookup_insert_ne, K5, decide_False by congruence. done.
Qed.

(** ** Runs *)

Definition step_ok (a : sessionStep) : Prop :=
  match a with
  | ObservesSection section => section_fine section
  | ObservesPIDSection section => section_fine (ps_Section section)
  | ObservesPacket packet => packet_ok packet
  | Viewer op => op_ok op
  | _ => True
  end.

Notation doAct := (act eitUpdater logoUpdater).

Lemma act_ok a s : session_ok s → canStep a s = true → step_ok a → returns (doAct a s) session_ok.
Proof.
  intros Hok Hc Ha. pose proof Hok as [Hs Hk]. destruct a as [section | | section | | packet | carousel | ok | | | | p | | | | | op]; cbn [canStep step_ok act] in *.
  - destruct (se_observer s) eqn:Ho; try done. apply session_observeSection_ok; [done | done | done |]. by destruct (se_cancelled s).
  - destruct (se_observer s) eqn:Ho; try done. apply safe_ret. by apply sendSection_ok.
  - destruct (se_observer s) eqn:Ho; try done. apply observePIDSection_ok; [done | done | done |]. by destruct (se_cancelled s).
  - destruct (se_observer s) eqn:Ho; try done. by apply sendBlock_ok.
  - apply safe_bind. pose proof (hub_good_perform _ (SeesPacket packet) (bk_hub _ Hk) Ha) as Hh. cbn [perform] in Hh.
    eapply safe_mono; [exact Hh |]. intros h Hg. apply safe_ret. by apply hub_changes.
  - destruct (se_pump s) eqn:Hp; try done. destruct (if carousel then _ else _) as [| section q] eqn:Eq; [done |]. apply safe_ret. by apply pumpTakes_ok.
  - destruct (se_pump s) eqn:Hp; try done. by apply updateSection_ok.
  - destruct (se_pump s) eqn:Hp; try done. by apply finishSectionUpdate_ok.
  - destruct (se_pump s) eqn:Hp; try done. apply safe_ret. split; [| by apply (blocks_ok_same s); try done; apply Hk].
    destruct Hs as [H1 H2 H3 H4 H5 H6]. split; try done. intros Hu k f Hf. destruct (H6 Hu k f Hf) as [E1 E2]. unfold pipeline in *. by rewrite Hp in E2.
  - destruct (se_worker s) eqn:Hw; try done. unfold look. destruct (se_blockQueue s true) eqn:Eq; [| by apply takeBlock_ok; try done; rewrite Hw].
    apply safe_ret. split; [by apply (sections_ok_same s); try done; apply Hs |]. destruct Hk as [K1 K2 K3 K4 K5 K6]. split; try done; cbn; by rewrite ?Hw in K4, K5.
  - unfold worker_fine in *. pose proof (bk_worker _ Hk) as Hwf. unfold worker_fine in Hwf. destruct (se_worker s) eqn:Hw; try done; apply takeBlock_ok; try done; by rewrite Hw.
  - destruct (se_worker s) eqn:Hw; try done. by apply observeQueuedDDB_ok.
  - destruct (se_worker s) eqn:Hw; try done. apply safe_ret. split; [by apply (sections_ok_same s); try done; apply Hs |].
    destruct Hk as [K1 K2 K3 K4 K5 K6]. split; try done; cbn; by rewrite ?Hw in K4, K5.
  - pose proof (bk_worker _ Hk) as Hwf. unfold worker_fine in Hwf. destruct (se_worker s) eqn:Hw; try done. apply safe_ret.
    split; [by apply (sections_ok_same s); try done; apply Hs |]. destruct Hk as [K1 K2 K3 K4 K5 K6]. split; try done; cbn; try by rewrite ?Hw in K4, K5.
    unfold worker_fine. cbn. split; [done |]. intros p. apply andb_true_iff in Hc as [Hc1 Hc2]. by destruct p, (se_blockQueue s true), (se_blockQueue s false).
  - destruct (se_observer s) eqn:Ho; try done. apply safe_ret. split; [by apply (sections_ok_same s); try done; apply Hs |].
    destruct Hk as [K1 K2 K3 K4 K5 K6]. split; try done. unfold worker_fine in *. cbn. destruct (se_worker s); try done; by destruct K3.
  - apply safe_bind. eapply safe_mono; [apply (hub_good_perform _ op (bk_hub _ Hk)); by destruct op |]. intros h Hg. apply safe_ret. by apply hub_changes.
Qed.

Inductive sessionReachable : Session S → Prop :=
| session_new (st : option S) : (∀ x, st = Some x → store_ok (good noContent) x) → sessionReachable (NewSession typ channel st)
| session_step a s s' : sessionReachable s → canStep a s = true → step_ok a → doAct a s = Ret s' → sessionReachable s'.

Lemma reachable_session s : sessionReachable s → session_ok s.
Proof.
  induction 1 as [st Hst | a s s' _ IH Hc Ha E].
  - split; split; try done; cbn; try apply map_Forall_empty; [by apply hub_new |].
    intros p. split; [apply Forall_nil_2 | by destruct p].
  - pose proof (act_ok a s IH Hc Ha) as H. by rewrite E in H.
Qed.

(** Whatever sections and packets are observed, however the updaters
    answer and the goroutines and the viewers interleave, no step panics: the wait
    group counts exactly the blocks queued, in the worker's hands or about to be
    queued, and never goes below zero.  No queue exceeds its bound; and the blocks
    accepted into a queue are shown to the hub once each and in order: those shown,
    then one in the worker's hands, then those queued. *)
Theorem session_total s a : sessionReachable s → canStep a s = true → step_ok a →
  returns (doAct a s) (λ _, True) ∧
  len (se_sectionQueue s) ≤ sectionQueueSize ∧ len (se_carouselQueue s) ≤ carouselQueueSize ∧
  (∀ p, len (se_blockQueue s p) ≤ queueCapacity p ∧ se_accepted s p = se_shown s p ++ held (se_worker s) p ++ se_blockQueue s p) ∧
  se_waitGroup s = len (se_blockQueue s true) + len (se_blockQueue s false) + busy (se_worker s) + pending (se_observer s).
Proof.
  intros Hr Hc Ha. apply reachable_session in Hr as Hok. pose proof Hok as [[] []]. split; [eapply safe_mono; [by apply act_ok | done] |].
  split_and!; try done; try apply sc_queue0; try apply sc_carousels0. intros p. split; [apply bk_queue0 | done].
Qed.

(** C17 (invariant): the EIT p/f sections that are dropped as repetitions are not
    missed.  While a fingerprint is recorded for a key - a table, service, stream,
    network and section number - it is that of the last section observed with the
    key, and of the last one among those stored by a successful call, in the pump's
    hands, queued and about to be queued, in this order - whatever queues were full
    and whatever sections did not parse or failed to be stored; so when the pump has
    caught up, what was stored last is what was seen last. *)
Theorem eit_current s key f : eitUpdater = true → sessionReachable s → se_fingerprints s !! key = Some f →
  se_seen s !! key = Some f ∧ last (omap (printOf key) (pipeline s)) = Some f.
Proof. intros Hu Hr. apply reachable_session in Hr as [[] _]. auto. Qed.

(** ** Blocks *)

(** What the steps leave alone that are not the worker's. *)
Record frame s s' : Prop := {
  fr_worker : se_worker s' = se_worker s;
  fr_shown : se_shown s' = se_shown s;
  fr_cancelled : se_cancelled s = true → se_cancelled s' = true;
  fr_queue : se_blockQueue s' = se_blockQueue s ∨
    ∃ section p, se_observer s = SendingBlock section p ∧ se_blockQueue s' = push p section (se_blockQueue s)
}.

Lemma frame_logos s s1 s2 p : frame s s1 → logos_only s1 s2 → frame s (setPump p s2).
Proof. intros [F1 F2 F3 F4] [_ (extra & -> & _)]. by split. Qed.

Lemma frame_sections s : frame s s.
Proof. split; try done. by left. Qed.

Definition isWorkers (a : sessionStep) : bool :=
  match a with WorkerLooks | WorkerTakes _ | WorkerShows | WorkerDrains | WorkerEnds => true | _ => false end.

Lemma act_frame a s : session_ok s → canStep a s = true → step_ok a → isWorkers a = false → ∀ s', doAct a s = Ret s' → frame s s'.
Proof.
  intros [Hs Hk] Hc Ha Hw s' E. destruct a as [section | | section | | packet | carousel | ok | | | | p | | | | | op]; cbn [canStep step_ok act isWorkers] in *; try done.
  - unfold observeSection in E. apply bind_Ret_inv in E as (t & _ & E). case_match.
    + case_match; [by injection E as <-; apply frame_sections |]. apply bind_Ret_inv in E as ([carousel accepts] & _ & E). cbv zeta in E.
      repeat case_match; injection E as <-; by split; try done; left.
    + case_match; [by injection E as <-; apply frame_sections |]. apply bind_Ret_inv in E as (coalesce & _ & E).
      destruct coalesce as [[key f] |]; unfold reserveEITPFSection in E; [case_bool_decide |]; injection E as <-; by split; try done; left.
  - destruct (se_observer s) eqn:Ho; try done. injection E as <-. unfold sendSection, releaseEITPFSection. cbv zeta.
    repeat first [case_bool_decide | case_match]; by split; try done; left.
  - unfold observePIDSection in E. apply bind_Ret_inv in E as (t & _ & E). case_match.
    + apply bind_Ret_inv in E as (h & _ & E). injection E as <-. by split; try done; left.
    + apply bind_Ret_inv in E as ([h [priority entry]] & _ & E). injection E as <-. by split; try done; left.
  - destruct (se_observer s) as [| | section p] eqn:Ho; try done. unfold sendBlock, Done in E. cbv zeta in E. repeat case_match; try done; injection E as <-; split; try done.
    + right. by exists section, p.
    + by left.
  - apply bind_Ret_inv in E as (h & _ & E). injection E as <-. by split; try done; left.
  - destruct (se_pump s) eqn:Hp; try done. destruct (if carousel then _ else _) as [| section q]; [done |]. injection E as <-. destruct carousel; by split; try done; left.
  - destruct (se_pump s) as [| section | |] eqn:Hp; try done. pose proof (sc_pump _ Hs) as Hsec. rewrite Hp in Hsec. unfold updateSection in E.
    apply bind_Ret_inv in E as (t & _ & E). apply bind_Ret_inv in E as ([s1 failed] & E1 & E).
    assert (frame s s1 ∧ se_logoCarousel s1 = se_logoCarousel s) as [F1 El].
    { destruct (IsEITPF t && eitUpdater); [| by injection E1 as <- <-; split; [apply frame_sections |]]. apply bind_Ret_inv in E1 as (coalesced & _ & E1).
      apply bind_Ret_inv in E1 as (eit & _ & E1). destruct eit; injection E1 as <- <-; (split; [| done]); by split; try done; left. }
    destruct failed as [[key f] |]; [injection E as <-; destruct F1; by split |]. apply bind_Ret_inv in E as (s2 & E2 & E). injection E as <-.
    pose proof (updateLogos_safe section s1 Hsec ltac:(rewrite El; apply Hs)) as Hl. rewrite E2 in Hl. by eapply frame_logos.
  - destruct (se_pump s) as [| | section key f |] eqn:Hp; try done. pose proof (sc_pump _ Hs) as Hsec. rewrite Hp in Hsec. destruct Hsec as [Hsec _].
    unfold finishSectionUpdate in E. apply bind_Ret_inv in E as (s2 & E2 & E). injection E as <-. set (s1 := releaseEITPFSection key f s) in *.
    assert (frame s s1 ∧ se_logoCarousel s1 = se_logoCarousel s) as [F1 El]
      by (unfold s1, releaseEITPFSection; case_bool_decide; (split; [| done]); by split; try done; left).
    pose proof (updateLogos_safe section s1 Hsec ltac:(rewrite El; apply Hs)) as Hl. rewrite E2 in Hl. by eapply frame_logos.
  - injection E as <-. by split; try done; left.
  - injection E as <-. by split; try done; left.
  - apply bind_Ret_inv in E as (h & _ & E). injection E as <-. by split; try done; left.
Qed.

(** How many blocks the worker took from a queue, and may still take from the
    normal one before it looks at the other. *)
Definition taken s (p : bool) : Z := len (se_shown s p) + len (held (se_worker s) p).
Definition slack s : Z := match se_worker s with Waiting => 1 | _ => 0 end.

Inductive sessionSteps : Session S → Session S → Prop :=
| steps_none s : sessionSteps s s
| steps_more a s s' s'' : canStep a s = true → step_ok a → doAct a s = Ret s' → sessionSteps s' s'' → sessionSteps s s''.

(** The lists the worker may hold. *)
Local Ltac held_lists := cbn -[push len]; repeat first [rewrite decide_True by done | rewrite decide_False by done];
  change (len (@nil PIDSection)) with 0; repeat change (len [?x]) with 1.

Lemma step_takes a s s' : session_ok s → canStep a s = true → step_ok a → doAct a s = Ret s' → se_cancelled s' = false → se_blockQueue s true ≠ [] →
  se_cancelled s = false ∧ taken s true ≤ taken s' true ∧
  (taken s' true = taken s true → se_blockQueue s' true ≠ [] ∧ taken s' false + slack s' ≤ taken s false + slack s).
Proof.
  intros Hok Hc Ha E Hcn Hne. destruct (isWorkers a) eqn:Hw.
  2: { destruct (act_frame a s Hok Hc Ha Hw s' E) as [F1 F2 F3 F4]. unfold taken, slack. rewrite F1, F2. split; [destruct (se_cancelled s); [by rewrite F3 in Hcn | done] |].
       split; [done |]. intros _. split; [| done]. destruct F4 as [-> | (section & p & _ & ->)]; [done |]. unfold push.
       destruct p; [rewrite fn_lookup_insert; by destruct (se_blockQueue s true) | by rewrite fn_lookup_insert_ne]. }
  pose proof (bk_worker _ (proj2 Hok)) as Hwf. unfold worker_fine in Hwf. unfold taken, slack.
  destruct a as [| | | | | | | | | | p | | | | |]; cbn [canStep step_ok act isWorkers] in *; try done.
  - destruct (se_worker s) eqn:Ew; try done. unfold look, takeBlock in E. destruct (se_blockQueue s true); [done |]. injection E as <-.
    split; [done |]. held_lists. split; [lia |]. intros ?. lia.
  - assert (se_cancelled s = false) as Hcs.
    { destruct (se_worker s) eqn:Ew; try done; unfold takeBlock in E; destruct (se_blockQueue s p) eqn:Eq; try done; injection E as <-; done. }
    split; [done |]. destruct (se_worker s) eqn:Ew; try done; [| congruence]. unfold takeBlock in E. destruct (se_blockQueue s p) as [| section q] eqn:Eq; [done |].
    injection E as <-. destruct p; held_lists.
    + split; [lia |]. intros ?. lia.
    + split; [lia |]. intros _. rewrite fn_lookup_insert_ne by done. split; [done | lia].
  - destruct (se_worker s) as [| | | section p draining |] eqn:Ew; try done. unfold observeQueuedDDB in E. apply bind_Ret_inv in E as (h & _ & E).
    apply bind_Ret_inv in E as (s1 & E1 & E). unfold Done in E1. destruct (_ <? 0); [done |]. injection E1 as <-. injection E as <-. cbn -[push len] in *.
    split; [done |]. assert (draining = false) as -> by (destruct draining; [destruct Hwf as [_ Hwf]; rewrite Hwf in Hcn; done | done]). unfold push.
    destruct p; held_lists; rewrite fn_lookup_insert, fn_lookup_insert_ne, len_app by done; change (len [section]) with 1; rewrite ?Z.add_0_r; (split; [lia |]); intros _; (split; [done |]); lia.
  - destruct (se_worker s) eqn:Ew; try done. injection E as <-. cbn in *. congruence.
  - destruct (se_worker s) eqn:Ew; try done. injection E as <-. cbn in *. congruence.
Qed.

Lemma act_cancelled a s s' : session_ok s → canStep a s = true → step_ok a → doAct a s = Ret s' → se_cancelled s = true → se_cancelled s' = true.
Proof.
  intros Hok Hc Ha E Hcn. destruct (isWorkers a) eqn:Hw; [| by apply (act_frame a s Hok Hc Ha Hw s' E)].
  destruct a as [| | | | | | | | | | p | | | | |]; cbn [canStep act isWorkers] in *; try done.
  - unfold look, takeBlock in E. destruct (se_blockQueue s true); by injection E as <-.
  - unfold takeBlock in E. destruct (se_blockQueue s p); by injection E as <-.
  - destruct (se_worker s); try done. unfold observeQueuedDDB in E. apply bind_Ret_inv in E as (h & _ & E).
    apply bind_Ret_inv in E as (s1 & E1 & E). unfold Done in E1. destruct (_ <? 0); [done |]. injection E1 as <-. by injection E as <-.
  - by injection E as <-.
  - by injection E as <-.
Qed.

Lemma taken_grows a s s' : session_ok s → canStep a s = true → step_ok a → doAct a s = Ret s' → taken s true ≤ taken s' true.
Proof.
  intros Hok Hc Ha E. destruct (isWorkers a) eqn:Hw; [| unfold taken; by destruct (act_frame a s Hok Hc Ha Hw s' E) as [-> -> _ _]]. unfold taken.
  destruct a as [| | | | | | | | | | p | | | | |]; cbn [canStep act isWorkers] in *; try done.
  - destruct (se_worker s) eqn:Ew; try done. unfold look, takeBlock in E. destruct (se_blockQueue s true); injection E as <-; held_lists; lia.
  - destruct (se_worker s) eqn:Ew; try done; unfold takeBlock in E; destruct (se_blockQueue s p); injection E as <-; rewrite ?Ew; destruct p; held_lists; lia.
  - destruct (se_worker s) as [| | | section p draining |] eqn:Ew; try done. unfold observeQueuedDDB in E. apply bind_Ret_inv in E as (h & _ & E).
    apply bind_Ret_inv in E as (s1 & E1 & E). unfold Done in E1. destruct (_ <? 0); [done |]. injection E1 as <-. injection E as <-. unfold push.
    destruct p, draining; held_lists; rewrite ?fn_lookup_insert, ?fn_lookup_insert_ne, ?len_app by done; held_lists; lia.
  - destruct (se_worker s) eqn:Ew; try done. injection E as <-. held_lists. lia.
  - destruct (se_worker s) eqn:Ew; try done. injection E as <-. held_lists. lia.
Qed.

Lemma steps_take s s' : sessionSteps s s' → session_ok s → se_cancelled s' = false → se_blockQueue s true ≠ [] →
  taken s true ≤ taken s' true ∧ (taken s' true = taken s true → taken s' false + slack s' ≤ taken s false + slack s).
Proof.
  induction 1 as [s | a s s1 s2 Hc Ha E Hrest IH]; intros Hok Hcn Hne; [split; [done | lia] |].
  assert (session_ok s1) as Hok1 by (pose proof (act_ok a s Hok Hc Ha) as H; by rewrite E in H).
  assert (∀ x y, sessionSteps x y → session_ok x → se_cancelled x = true → se_cancelled y = true) as Hstay.
  { clear -laws jis_text. induction 1 as [| a s s1 s2 Hc Ha E _ IH]; intros Hok Hx; [done |].
    apply IH; [pose proof (act_ok a s Hok Hc Ha) as H; by rewrite E in H | by eapply act_cancelled]. }
  assert (se_cancelled s1 = false) as Hc1 by (destruct (se_cancelled s1) eqn:Ec; [by rewrite (Hstay _ _ Hrest Hok1 Ec) in Hcn | done]).
  destruct (step_takes a s s1 Hok Hc Ha E Hc1 Hne) as (_ & Hle & Heq). destruct (decide (se_blockQueue s1 true = [])) as [He | Hne1].
  - assert (taken s1 true ≠ taken s true) by (intros Ht; by apply Heq in Ht as [? _]). assert (taken s1 true ≤ taken s2 true); [| split; [lia | intros ?; lia]].
    clear -Hrest Hok1 laws jis_text. induction Hrest as [| a s s1 s2 Hc Ha E _ IH]; [done |].
    assert (session_ok s1) as Hok2 by (pose proof (act_ok a s Hok1 Hc Ha) as H; by rewrite E in H). etrans; [| by apply IH]. by eapply taken_grows.
  - destruct (IH Hok1 Hcn Hne1) as [Hle2 Heq2]. split; [lia |]. intros Ht. destruct Heq as [_ Hs]; [lia |]. specialize (Heq2 ltac:(lia)). lia.
Qed.

(** While a block waits in the priority queue and none of that
    queue is taken, the worker takes at most one block of the normal queue, and none
    unless it was already waiting for either. *)
Theorem priority_first s s' : sessionReachable s → sessionSteps s s' → se_cancelled s' = false → se_blockQueue s true ≠ [] →
  taken s' true = taken s true → taken s' false ≤ taken s false + slack s.
Proof.
  intros Hr Hst Hcn Hne Ht. apply reachable_session in Hr. destruct (steps_take s s' Hst Hr Hcn Hne) as [_ H]. specialize (H Ht).
  assert (0 ≤ slack s') by (unfold slack; by destruct (se_worker s')). lia.
Qed.

(** ** The end *)

Definition workerRank (w : worker) : Z :=
  match w with Observing _ _ _ => 4 | Looking => 3 | Waiting => 2 | Draining => 1 | WorkerEnded => 0 end.
Definition weight s : Z := 5 * (len (se_blockQueue s true) + len (se_blockQueue s false)) + workerRank (se_worker s).

Definition workersNext s : sessionStep :=
  match se_worker s with
  | Looking => WorkerLooks
  | Waiting => WorkerDrains
  | Draining => if nonempty (se_blockQueue s true) then WorkerTakes true else if nonempty (se_blockQueue s false) then WorkerTakes false else WorkerEnds
  | _ => WorkerShows
  end.

Lemma worker_weight a s s' : canStep a s = true → isWorkers a = true → doAct a s = Ret s' → weight s' < weight s.
Proof.
  intros Hc Hw E. assert (∀ p draining, 0 < workerRank (se_worker s) → nonempty (se_blockQueue s p) = true → takeBlock p draining s = Ret s' → weight s' < weight s) as Htake.
  { intros p draining Hr Hne Et. unfold takeBlock in Et. destruct (se_blockQueue s p) as [| section q] eqn:Eq; [done |]. injection Et as <-. unfold weight. cbn -[len].
    destruct p; rewrite fn_lookup_insert, fn_lookup_insert_ne by done; rewrite Eq, len_cons; lia. }
  destruct a as [| | | | | | | | | | p | | | | |]; cbn [canStep act isWorkers] in *; try done; destruct (se_worker s) as [| | | section p' draining |] eqn:Ew; try done.
  - unfold look in E. destruct (se_blockQueue s true) eqn:Eq; [injection E as <-; unfold weight; rewrite Ew; cbn -[len]; lia |]. by apply (Htake true false); try done; rewrite Eq.
  - by eapply Htake.
  - by eapply Htake.
  - unfold observeQueuedDDB in E. apply bind_Ret_inv in E as (h & _ & E). apply bind_Ret_inv in E as (s1 & E1 & E). unfold Done in E1. destruct (_ <? 0); [done |].
    injection E1 as <-. injection E as <-. unfold weight. rewrite Ew. destruct draining; cbn -[len]; lia.
  - injection E as <-. unfold weight. rewrite Ew. cbn -[len]. lia.
  - injection E as <-. unfold weight. rewrite Ew. cbn -[len]. lia.
Qed.

(** When the session is told to stop, the worker of the blocks
    finishes its backlog: as long as it has not ended it has a next step, each of its
    steps brings the end nearer and nothing else moves it away; and when it has
    ended, every block that was ever accepted has been shown to the hub, in the order
    of its queue, and nothing waits on the wait group. *)
Theorem session_drains s : sessionReachable s → se_cancelled s = true →
  (se_worker s = WorkerEnded → (∀ p, se_accepted s p = se_shown s p) ∧ se_waitGroup s = 0) ∧
  (se_worker s ≠ WorkerEnded → canStep (workersNext s) s = true) ∧
  (∀ a, canStep a s = true → step_ok a → returns (doAct a s) (λ s', se_cancelled s' = true ∧ if isWorkers a then weight s' < weight s else weight s' = weight s)).
Proof.
  intros Hr Hcn. apply reachable_session in Hr as Hok. pose proof Hok as [Hs [K1 K2 K3 K4 K5 K6]]. specialize (K6 Hcn). split_and!.
  - intros Hw. unfold worker_fine in K3. rewrite Hw in K3. destruct K3 as [_ Hq]. rewrite Hw, K6, !Hq in K4. split; [| exact K4].
    intros p. specialize (K5 p). rewrite Hw, Hq in K5. cbn in K5. by rewrite app_nil_r in K5.
  - unfold workersNext. intros Hw. destruct (se_worker s) eqn:Ew; cbn; rewrite ?Ew; try done.
    destruct (se_blockQueue s true) eqn:E1; cbn; [destruct (se_blockQueue s false) eqn:E2; cbn |]; rewrite ?Ew, ?E1, ?E2; done.
  - intros a Hc Ha. pose proof (act_ok a s Hok Hc Ha) as Hret. destruct (doAct a s) as [s' | | |] eqn:E; try done. cbn. split; [exact (act_cancelled a s s' Hok Hc Ha E Hcn) |].
    destruct (isWorkers a) eqn:Hw.
    + by eapply worker_weight.
    + destruct (act_frame a s Hok Hc Ha Hw s' E) as [F1 F2 F3 F4]. unfold weight. rewrite F1. destruct F4 as [-> | (section & p & Ho & _)]; [done | congruence].
Qed.

End Theorems.

(** ** Examples *)

#[local] Existing Instances sampleJis sampleServices sampleFlags sampleSubs sampleStates sampleRejections sampleCarousels sampleCached sampleSort.

Definition sampleAct : sessionStep → Session ModuleCache → outcome (Session ModuleCache) := act true true.
Definition runSteps (steps : list sessionStep) (s : Session ModuleCache) : Session ModuleCache :=
  fold_left (λ s a, match sampleAct a s with Ret s' => s' | _ => s end) steps s.
Definition sampleSession : Session ModuleCache := NewSession "GR" "27" (Some (NewModuleCache 1024)).

Definition section_fineb (section : SectionBytes) : bool := bytes_okb section && nonempty section.
Definition step_okb (a : sessionStep) : bool :=
  match a with
  | ObservesSection section => section_fineb section
  | ObservesPIDSection section => section_fineb (ps_Section section)
  | ObservesPacket _ => false
  | Viewer op => match op with Subscribes _ | Receives _ => true | _ => false end
  | _ => true
  end.

Lemma section_fineb_spec section : section_fineb section = true → section_fine section.
Proof. intros [Hb Hn]%andb_true_iff. split; [by apply bytes_okb_spec | by intros ->]. Qed.
Lemma step_okb_spec a : step_okb a = true → step_ok a.
Proof. destruct a as [| | | | | | | | | | | | | | | op]; try done; cbn; try apply section_fineb_spec. by destruct op. Qed.

Fixpoint legal (steps : list sessionStep) (s : Session ModuleCache) : bool :=
  match steps with
  | [] => true
  | a :: steps => canStep a s && step_okb a && legal steps (runSteps [a] s)
  end.

Lemma legal_runs steps : ∀ s, sessionReachable true true "GR" "27" s → legal steps s = true →
  sessionReachable true true "GR" "27" (runSteps steps s) ∧ sessionSteps true true s (runSteps steps s).
Proof.
  induction steps as [| a steps IH]; intros s Hr Hl; [split; [done | apply steps_none] |]. cbn [legal] in Hl. apply andb_true_iff in Hl as [[Hc Ha]%andb_true_iff Hl].
  apply step_okb_spec in Ha. pose proof (session_total true true "GR" "27" sampleJis_text s a Hr Hc Ha) as [Hret _].
  change (runSteps (a :: steps) s) with (runSteps steps (runSteps [a] s)). cbn [runSteps fold_left] in *. unfold sampleAct in *.
  destruct (act true true a s) as [s' | | |] eqn:E; try done. destruct (IH s') as [H1 H2]; [by eapply session_step | done |]. split; [done | by eapply steps_more].
Qed.

Lemma sampleSession_reachable : sessionReachable true true "GR" "27" sampleSession.
Proof. apply session_new. intros x [= <-] k e He. cbn in He. by rewrite lookup_empty in He. Qed.

Lemma legal_reachable steps : legal steps sampleSession = true → sessionReachable true true "GR" "27" (runSteps steps sampleSession).
Proof. intros H. apply legal_runs; [exact sampleSession_reachable | exact H]. Qed.

(** An EIT p/f section, its repetition, a new version while the first is being
    stored, whose call fails. *)
Definition sampleEIT (version : Z) : SectionBytes := eitSection 0x4e version 0 1 1 0x4e 0x65 0x7fe1 0x7fe1 sample_events.
Definition eitSteps : list sessionStep :=
  [ObservesSection (sampleEIT 5); SendsSection; ObservesSection (sampleEIT 5); PumpTakes false; ObservesSection (sampleEIT 6); SendsSection;
   PumpUpdates false; PumpReleases; PumpTakes false; PumpUpdates true].
Definition eitKey : eitPFSectionKey := MkPFKey 0x4e 0x65 0x7fe1 0x7fe1 0.

Lemma eit_current_witness : ∃ f, se_fingerprints (runSteps eitSteps sampleSession) !! eitKey = Some f ∧
  map (λ u, match u with UpsertEIT _ eit ok => (eit_VersionNumber eit, ok) | _ => (0, false) end) (se_calls (runSteps eitSteps sampleSession)) = [(5, false); (6, true)] ∧
  last (omap (printOf eitKey) (pipeline (runSteps eitSteps sampleSession))) = Some f.
Proof.
  assert (is_Some (se_fingerprints (runSteps eitSteps sampleSession) !! eitKey)) as [f Hf] by (vm_compute; eexists; reflexivity).
  exists f. split; [exact Hf |]. split; [vm_compute; reflexivity |].
  refine (proj2 (eit_current true true "GR" "27" sampleJis_text _ eitKey f eq_refl (legal_reachable eitSteps _) Hf)). vm_compute. reflexivity.
Defined.

(** A normal block is accepted and the worker waits; then a block of the entry
    document comes. *)
Definition entryDII : PIDSection :=
  MkPIDSection 0x140 (diiSection 1 0 0 0 (replicate 10 0) []
    (MkDII 0x70000001 3 [MkModuleInfo 1 5 2 ([0x02; 9] ++ asciiBytes "Index.bml"); MkModuleInfo 2 5 2 [0x02; 1; 0x41]] [])).
Definition sampleBlock (module block : Z) (data : list Z) : PIDSection := MkPIDSection 0x140 (ddbSection 0 0 0 (MkDDB 0x70000001 module 2 block data)).
Definition blockSteps : list sessionStep :=
  [ObservesPIDSection (samplePMTWith 0 [sampleElement]); ObservesPIDSection entryDII; WorkerLooks;
   ObservesPIDSection (sampleBlock 2 0 [1; 2; 3]); SendsBlock; ObservesPIDSection (sampleBlock 2 1 [4; 5]); SendsBlock;
   ObservesPIDSection (sampleBlock 1 0 [1; 2; 3]); SendsBlock].
Definition normalSteps : list sessionStep := [WorkerTakes false; WorkerShows].

Lemma blockSteps_legal : legal blockSteps sampleSession = true.
Proof. vm_compute. reflexivity. Qed.

Lemma session_total_witness : returns (sampleAct WorkerLooks (runSteps (blockSteps ++ normalSteps) sampleSession)) (λ _, True).
Proof.
  refine (proj1 (session_total true true "GR" "27" sampleJis_text _ WorkerLooks (legal_reachable (blockSteps ++ normalSteps) _) _ I)); vm_compute; reflexivity.
Defined.

Lemma priority_first_witness : taken (runSteps normalSteps (runSteps blockSteps sampleSession)) false ≤ taken (runSteps blockSteps sampleSession) false + 1.
Proof.
  refine (priority_first true true "GR" "27" sampleJis_text (runSteps blockSteps sampleSession) _ (legal_reachable blockSteps blockSteps_legal)
    (proj2 (legal_runs normalSteps _ (legal_reachable blockSteps blockSteps_legal) _)) _ _ _); vm_compute; first [reflexivity | discriminate].
Defined.

(** It has looked at the priority queue, finishes it, and then the rest. *)
Definition endSteps : list sessionStep :=
  [WorkerLooks; WorkerShows; Cancels; WorkerLooks; WorkerDrains; WorkerTakes false; WorkerShows; WorkerEnds].

Lemma session_drains_witness :
  let s := runSteps (blockSteps ++ normalSteps ++ endSteps) sampleSession in se_accepted s true = se_shown s true ∧ se_accepted s false = se_shown s false.
Proof.
  assert (∀ p, se_accepted (runSteps (blockSteps ++ normalSteps ++ endSteps) sampleSession) p =
    se_shown (runSteps (blockSteps ++ normalSteps ++ endSteps) sampleSession) p) as H.
  { refine (proj1 (proj1 (session_drains true true "GR" "27" sampleJis_text _ (legal_reachable (blockSteps ++ normalSteps ++ endSteps) _) _) _)); vm_compute; reflexivity. }
  exact (conj (H true) (H false)).
Defined.

(** Both queues hold a block, and the normal one's is taken. *)
Lemma priority_overtaken :
  nonempty (se_blockQueue (runSteps blockSteps sampleSession) true) = true ∧
  canStep (WorkerTakes false) (runSteps blockSteps sampleSession) = true ∧
  taken (runSteps normalSteps (runSteps blockSteps sampleSession)) false = 1.
Proof. vm_compute. done. Qed.
