(* ===== verification/MultiWriter.v ===== *)
(** * The fan-out of a tuner's stream ([internal/util/dynamicmultiwriter.go])

    [DynamicMultiWriter] copies what the process of a tuner writes into buffers
    that are counted, shared by the queues of all subscribers, and reused when the
    last one is through with them.  Each subscriber has a goroutine that writes its
    queue out; one that is 128 writes behind loses its oldest.  The model has the
    memory: a queue holds numbers of buffers, and a buffer that is filled again
    changes for everybody who still holds it.

    A step is one operation on a channel, a counter or the pool, or one critical
    section; [Write] holds the read lock from its first step to its last, and is
    called by one goroutine, that of the process.  Counters are unbounded ([int32]
    in the code, for as many subscribers). *)

From S2P Require Import Prelude.

Definition dynamicMultiWriterBufferSize : Z := 128.

(** ** The state *)

Record dynamicMultiWriterChunk : Type := MkChunk {
  ck_refs : Z;
  ck_data : list Z
}.

(** The goroutine [run] of a subscriber: at the channel, in [Write], about to call
    [onError], in [drain], and after it. *)
Inductive runner : Type :=
| Receiving
| Writing (c : nat)
| Failing
| Draining
| Ended.

(** The specification keeps the number of calls of [Write] before the subscriber was
    attached, what was enqueued for it, what its writer was given, and the number of
    buffers dropped on the way. *)
Record dynamicMultiWriterSubscriber : Type := MkSubscriber {
  su_writer : Z;
  su_ch : list nat;
  su_closed : bool;
  su_run : runner;
  su_from : nat;
  su_offered : list (list Z);
  su_given : list (list Z);
  su_lost : nat
}.

(** [enqueue]: its three [select]s. *)
Inductive phase : Type := TrySend | DropOldest | SendAgain.

(** The call of [Write] with its buffer and the subscribers it has not served, the
    first of them in some phase. *)
Inductive writing : Type :=
| NotWriting
| Enqueuing (c : nat) (rest : list nat) (ph : phase).

(** Every subscriber there ever was, by number, those in [subscribers], and those
    that calls of [Close] have taken out but not closed; for the specification, what
    [Write] was called with. *)
Record DynamicMultiWriter : Type := MkMultiWriter {
  mw_chunks : list dynamicMultiWriterChunk;
  mw_pool : list nat;
  mw_all : list dynamicMultiWriterSubscriber;
  mw_subscribers : list nat;
  mw_closing : list nat;
  mw_write : writing;
  mw_log : list (list Z)
}.

Definition NewDynamicMultiWriter : DynamicMultiWriter := MkMultiWriter [] [] [] [] [] NotWriting [].

Definition setQueue (ch : list nat) (s : dynamicMultiWriterSubscriber) : dynamicMultiWriterSubscriber :=
  MkSubscriber (su_writer s) ch (su_closed s) (su_run s) (su_from s) (su_offered s) (su_given s) (su_lost s).
Definition setRun (r : runner) (s : dynamicMultiWriterSubscriber) : dynamicMultiWriterSubscriber :=
  MkSubscriber (su_writer s) (su_ch s) (su_closed s) r (su_from s) (su_offered s) (su_given s) (su_lost s).
Definition offerTo (data : list Z) (s : dynamicMultiWriterSubscriber) : dynamicMultiWriterSubscriber :=
  MkSubscriber (su_writer s) (su_ch s) (su_closed s) (su_run s) (su_from s) (su_offered s ++ [data]) (su_given s) (su_lost s).
Definition giveTo (data : list Z) (s : dynamicMultiWriterSubscriber) : dynamicMultiWriterSubscriber :=
  MkSubscriber (su_writer s) (su_ch s) (su_closed s) (su_run s) (su_from s) (su_offered s) (su_given s ++ [data]) (su_lost s).
Definition loseOne (s : dynamicMultiWriterSubscriber) : dynamicMultiWriterSubscriber :=
  MkSubscriber (su_writer s) (su_ch s) (su_closed s) (su_run s) (su_from s) (su_offered s) (su_given s) (S (su_lost s)).

Definition setChunks (chunks : list dynamicMultiWriterChunk) (pool : list nat) (d : DynamicMultiWriter) : DynamicMultiWriter :=
  MkMultiWriter chunks pool (mw_all d) (mw_subscribers d) (mw_closing d) (mw_write d) (mw_log d).
Definition setSub (id : nat) (s : dynamicMultiWriterSubscriber) (d : DynamicMultiWriter) : DynamicMultiWriter :=
  MkMultiWriter (mw_chunks d) (mw_pool d) (<[id := s]> (mw_all d)) (mw_subscribers d) (mw_closing d) (mw_write d) (mw_log d).
Definition setSubscribers (l : list nat) (d : DynamicMultiWriter) : DynamicMultiWriter :=
  MkMultiWriter (mw_chunks d) (mw_pool d) (mw_all d) l (mw_closing d) (mw_write d) (mw_log d).
Definition setClosing (l : list nat) (d : DynamicMultiWriter) : DynamicMultiWriter :=
  MkMultiWriter (mw_chunks d) (mw_pool d) (mw_all d) (mw_subscribers d) l (mw_write d) (mw_log d).
Definition setWrite (w : writing) (d : DynamicMultiWriter) : DynamicMultiWriter :=
  MkMultiWriter (mw_chunks d) (mw_pool d) (mw_all d) (mw_subscribers d) (mw_closing d) w (mw_log d).

Definition setLog (l : list (list Z)) (d : DynamicMultiWriter) : DynamicMultiWriter :=
  MkMultiWriter (mw_chunks d) (mw_pool d) (mw_all d) (mw_subscribers d) (mw_closing d) (mw_write d) l.

(** ** The code *)

(** [close], under its [sync.Once]. *)
Definition closeSub (s : dynamicMultiWriterSubscriber) : dynamicMultiWriterSubscriber :=
  MkSubscriber (su_writer s) (su_ch s) true (su_run s) (su_from s) (su_offered s) (su_given s) (su_lost s).

Definition Attach (writer : Z) (d : DynamicMultiWriter) : DynamicMultiWriter :=
  MkMultiWriter (mw_chunks d) (mw_pool d) (mw_all d ++ [MkSubscriber writer [] false Receiving (length (mw_log d)) [] [] 0])
    (mw_subscribers d ++ [length (mw_all d)]) (mw_closing d) (mw_write d) (mw_log d).

(** The subscriber [Detach] looks up. *)
Definition findSubscriber (writer : Z) (d : DynamicMultiWriter) : option nat :=
  List.find (λ id, match mw_all d !! id with Some s => su_writer s =? writer | None => false end) (mw_subscribers d).

Definition detachSubscriber (id : nat) (d : DynamicMultiWriter) : outcome DynamicMultiWriter :=
  if decide (id ∈ mw_subscribers d) then
    match mw_all d !! id with
    | Some s => Ret (setSub id (closeSub s) (setSubscribers (list_difference (mw_subscribers d) [id]) d))
    | None => Panic
    end
  else Ret d.

(** [Close]: its critical section, and the [close] of one subscriber. *)
Definition CloseAll (d : DynamicMultiWriter) : DynamicMultiWriter :=
  setClosing (mw_closing d ++ mw_subscribers d) (setSubscribers [] d).
Definition closeNext (d : DynamicMultiWriter) : outcome DynamicMultiWriter :=
  match mw_closing d with
  | [] => Ret d
  | id :: rest =>
      match mw_all d !! id with
      | Some s => Ret (setSub id (closeSub s) (setClosing rest d))
      | None => Panic
      end
  end.

(** A buffer of the pool, or a new one. *)
Definition newChunk (p : list Z) (refs : Z) (choice : option nat) (d : DynamicMultiWriter) : DynamicMultiWriter * nat :=
  match choice with
  | Some c => (setChunks (<[c := MkChunk refs p]> (mw_chunks d)) (list_difference (mw_pool d) [c]) d, c)
  | None => (setChunks (mw_chunks d ++ [MkChunk refs p]) (mw_pool d) d, length (mw_chunks d))
  end.

Definition release (c : nat) (d : DynamicMultiWriter) : outcome DynamicMultiWriter :=
  match mw_chunks d !! c with
  | None => Panic
  | Some chunk =>
      let refs := ck_refs chunk - 1 in
      if refs =? 0 then Ret (setChunks (<[c := MkChunk 0 []]> (mw_chunks d)) (mw_pool d ++ [c]) d)
      else Ret (setChunks (<[c := MkChunk refs (ck_data chunk)]> (mw_chunks d)) (mw_pool d) d)
  end.

(** [Write], up to its loop. *)
Definition Write (p : list Z) (choice : option nat) (d : DynamicMultiWriter) : DynamicMultiWriter :=
  match mw_subscribers d with
  | [] => d
  | ids => let '(d', c) := newChunk p (len ids) choice d in setLog (mw_log d ++ [p]) (setWrite (Enqueuing c ids TrySend) d')
  end.

Definition nextSubscriber (c : nat) (rest : list nat) : writing :=
  match rest with [] => NotWriting | _ => Enqueuing c rest TrySend end.

(** A send to a subscriber's channel that has room. *)
Definition sendChunk (id c : nat) (s : dynamicMultiWriterSubscriber) (rest : list nat) (d : DynamicMultiWriter) : DynamicMultiWriter :=
  let data := match mw_chunks d !! c with Some chunk => ck_data chunk | None => [] end in
  setWrite (nextSubscriber c rest) (setSub id (offerTo data (setQueue (su_ch s ++ [c]) s)) d).

(** A [select] of [enqueue]. *)
Definition enqueue (d : DynamicMultiWriter) : outcome DynamicMultiWriter :=
  match mw_write d with
  | Enqueuing c (id :: rest) ph =>
      match mw_all d !! id with
      | None => Panic
      | Some s =>
          match ph with
          | TrySend =>
              if su_closed s then Panic
              else if len (su_ch s) <? dynamicMultiWriterBufferSize then Ret (sendChunk id c s rest d)
              else Ret (setWrite (Enqueuing c (id :: rest) DropOldest) d)
          | DropOldest =>
              match su_ch s with
              | x :: ch => release x (setWrite (Enqueuing c (id :: rest) SendAgain) (setSub id (loseOne (setQueue ch s)) d))
              | [] => if su_closed s then Panic else Ret (setWrite (Enqueuing c (id :: rest) SendAgain) d)
              end
          | SendAgain =>
              if su_closed s then Panic
              else if len (su_ch s) <? dynamicMultiWriterBufferSize then Ret (sendChunk id c s rest d)
              else release c (setWrite (nextSubscriber c rest) (setSub id (loseOne s) d))
          end
      end
  | _ => Ret d
  end.

(** The loop of [run]: a receive, which ends it when the channel is closed and
    empty, and the [Write] of the writer with what follows. *)
Definition runReceives (id : nat) (d : DynamicMultiWriter) : outcome DynamicMultiWriter :=
  match mw_all d !! id with
  | None => Panic
  | Some s =>
      match su_ch s with
      | c :: ch => Ret (setSub id (setRun (Writing c) (setQueue ch s)) d)
      | [] => Ret (setSub id (setRun Draining s) d)
      end
  end.
Definition runWrites (id : nat) (ok : bool) (d : DynamicMultiWriter) : outcome DynamicMultiWriter :=
  match mw_all d !! id with
  | Some s =>
      match su_run s with
      | Writing c =>
          match mw_chunks d !! c with
          | None => Panic
          | Some chunk => release c (setSub id (setRun (if ok then Receiving else Failing) (giveTo (ck_data chunk) s)) d)
          end
      | _ => Ret d
      end
  | None => Panic
  end.

(** [onError] *)
Definition runFails (id : nat) (d : DynamicMultiWriter) : outcome DynamicMultiWriter :=
  d ← detachSubscriber id d;
  match mw_all d !! id with
  | Some s => Ret (setSub id (setRun Draining s) d)
  | None => Panic
  end.

(** A turn of [drain]. *)
Definition drain (id : nat) (d : DynamicMultiWriter) : outcome DynamicMultiWriter :=
  match mw_all d !! id with
  | None => Panic
  | Some s =>
      match su_ch s with
      | c :: ch => release c (setSub id (loseOne (setQueue ch s)) d)
      | [] => Ret (setSub id (setRun Ended s) d)
      end
  end.

(** ** The steps *)

Inductive writerStep : Type :=
| Attaches (writer : Z)
| Detaches (id : nat)
| Closes
| ClosesNext
| WriteCalled (p : list Z) (choice : option nat)
| Enqueues
| RunReceives (id : nat)
| RunWrites (id : nat) (ok : bool)
| RunFails (id : nat)
| RunDrains (id : nat).

Definition notWriting (d : DynamicMultiWriter) : bool := match mw_write d with NotWriting => true | _ => false end.
Definition runnerOf (id : nat) (d : DynamicMultiWriter) : runner := match mw_all d !! id with Some s => su_run s | None => Ended end.
Definition canReceive (id : nat) (d : DynamicMultiWriter) : bool :=
  match mw_all d !! id with
  | Some s => match su_ch s with [] => su_closed s | _ => true end
  | None => false
  end.

(** [Attach], [Detach], [Close] and [onError] need the lock. *)
Definition canWriter (a : writerStep) (d : DynamicMultiWriter) : bool :=
  match a with
  | Attaches _ | Closes => notWriting d
  | Detaches id => notWriting d && bool_decide (id < length (mw_all d))%nat
  | ClosesNext => match mw_closing d with [] => false | _ => true end
  | WriteCalled _ choice => notWriting d && match choice with Some c => bool_decide (c ∈ mw_pool d) | None => true end
  | Enqueues => negb (notWriting d)
  | RunReceives id => match runnerOf id d with Receiving => canReceive id d | _ => false end
  | RunWrites id _ => match runnerOf id d with Writing _ => true | _ => false end
  | RunFails id => match runnerOf id d with Failing => notWriting d | _ => false end
  | RunDrains id => match runnerOf id d with Draining => true | _ => false end
  end.

Definition doWriter (a : writerStep) (d : DynamicMultiWriter) : outcome DynamicMultiWriter :=
  match a with
  | Attaches writer => Ret (Attach writer d)
  | Detaches id => detachSubscriber id d
  | Closes => Ret (CloseAll d)
  | ClosesNext => closeNext d
  | WriteCalled p choice => Ret (Write p choice d)
  | Enqueues => enqueue d
  | RunReceives id => runReceives id d
  | RunWrites id ok => runWrites id ok d
  | RunFails id => runFails id d
  | RunDrains id => drain id d
  end.

(** ** Counting *)

Definition occ (c : nat) (l : list nat) : nat := length (filter (eq c) l).

Lemma occ_app c l k : occ c (l ++ k) = (occ c l + occ c k)%nat.
Proof. unfold occ. by rewrite filter_app, length_app. Qed.
Lemma occ_cons c x l : occ c (x :: l) = ((if decide (c = x) then 1 else 0) + occ c l)%nat.
Proof. unfold occ. rewrite filter_cons. by case_decide. Qed.
Lemma occ_elem c l : c ∈ l → (0 < occ c l)%nat.
Proof.
  induction l as [| x l IH]; [by intros ?%elem_of_nil |]. rewrite occ_cons. intros [-> | H]%elem_of_cons; [rewrite decide_True by done; lia |].
  specialize (IH H). lia.
Qed.

Lemma sum_insert {A} (f : A → nat) l i x y : l !! i = Some x →
  (sum_list_with f (<[i := y]> l) + f x = sum_list_with f l + f y)%nat.
Proof.
  revert i. induction l as [| z l IH]; intros [| i] E; try done.
  - injection E as ->. cbn. lia.
  - specialize (IH i E). change (<[S i := y]> (z :: l)) with (z :: <[i := y]> l). cbn [sum_list_with]. lia.
Qed.
Lemma sum_lookup {A} (f : A → nat) l i x : l !! i = Some x → (f x ≤ sum_list_with f l)%nat.
Proof.
  revert i. induction l as [| z l IH]; intros [| i] E; try done.
  - injection E as ->. cbn. lia.
  - specialize (IH i E). cbn [sum_list_with]. lia.
Qed.

(** Who holds a buffer: queues, the runners that write it, and the call of [Write]
    for the subscribers it has not served. *)
Definition holdsRun (c : nat) (r : runner) : nat := match r with Writing x => if decide (c = x) then 1 else 0 | _ => 0 end.
Definition holdsSub (c : nat) (s : dynamicMultiWriterSubscriber) : nat := (occ c (su_ch s) + holdsRun c (su_run s))%nat.
Definition holdsWrite (c : nat) (w : writing) : nat := match w with Enqueuing x rest _ => if decide (c = x) then length rest else 0 | NotWriting => 0 end.
Definition holders (c : nat) (d : DynamicMultiWriter) : nat := (sum_list_with (holdsSub c) (mw_all d) + holdsWrite c (mw_write d))%nat.

Definition dataOf (d : DynamicMultiWriter) (c : nat) : list Z := match mw_chunks d !! c with Some chunk => ck_data chunk | None => [] end.

(** ** The invariant *)

(** The counters, where [extra] is what a step under way still has to release. *)
Record memory_ok (extra : nat → nat) (d : DynamicMultiWriter) : Prop := {
  me_refs c k : mw_chunks d !! c = Some k → ck_refs k = Z.of_nat (holders c d + extra c) ∧ (c ∈ mw_pool d ↔ (holders c d + extra c = 0)%nat);
  me_alloc c : (0 < holders c d + extra c)%nat → is_Some (mw_chunks d !! c);
  me_pool : NoDup (mw_pool d) ∧ Forall (λ c, is_Some (mw_chunks d !! c)) (mw_pool d)
}.

(** What the writer was given, with what it is being given, is what was enqueued
    before the queue's, but for what was lost. *)
Definition givenOf (data : nat → list Z) (s : dynamicMultiWriterSubscriber) : list (list Z) :=
  su_given s ++ match su_run s with Writing c => [data c] | _ => [] end.
Definition served (data : nat → list Z) (s : dynamicMultiWriterSubscriber) : Prop :=
  ∃ pre, su_offered s = pre ++ map data (su_ch s) ∧ sublist (givenOf data s) pre ∧ (su_lost s = 0%nat → givenOf data s = pre).

Record sub_ok (d : DynamicMultiWriter) (id : nat) (s : dynamicMultiWriterSubscriber) : Prop := {
  sb_room : len (su_ch s) ≤ dynamicMultiWriterBufferSize;
  sb_listed : id ∈ mw_subscribers d → su_closed s = false ∧ match su_run s with Draining | Ended => False | _ => True end;
  sb_ended : su_run s = Ended → su_ch s = [];
  sb_served : served (dataOf d) s
}.

Definition write_ok (d : DynamicMultiWriter) : Prop :=
  match mw_write d with
  | NotWriting => True
  | Enqueuing c rest ph => rest ≠ [] ∧ rest `suffix_of` mw_subscribers d ∧ last (mw_log d) = Some (dataOf d c) ∧
      (ph = SendAgain → ∀ id r s, rest = id :: r → mw_all d !! id = Some s → len (su_ch s) < dynamicMultiWriterBufferSize)
  end.

Record lists_ok (d : DynamicMultiWriter) : Prop := {
  li_subs id s : mw_all d !! id = Some s → sub_ok d id s;
  li_listed : NoDup (mw_subscribers d) ∧ Forall (λ id, is_Some (mw_all d !! id)) (mw_subscribers d);
  li_closing : Forall (λ id, is_Some (mw_all d !! id) ∧ id ∉ mw_subscribers d) (mw_closing d);
  li_write : write_ok d
}.

Definition none (_ : nat) : nat := 0.
Definition one (c x : nat) : nat := if decide (x = c) then 1 else 0.
Definition writer_ok (d : DynamicMultiWriter) : Prop := memory_ok none d ∧ lists_ok d.

Lemma holders_sub d id s c : mw_all d !! id = Some s → (occ c (su_ch s) + holdsRun c (su_run s) ≤ holders c d)%nat.
Proof. intros Hs. pose proof (sum_lookup (holdsSub c) _ _ _ Hs) as H. change (holdsSub c s) with (occ c (su_ch s) + holdsRun c (su_run s))%nat in H. unfold holders. lia. Qed.
Lemma holders_queue d id s c : mw_all d !! id = Some s → c ∈ su_ch s → (0 < holders c d)%nat.
Proof. intros Hs Hc. pose proof (holders_sub d id s c Hs) as H1. pose proof (occ_elem c _ Hc) as H2. lia. Qed.
Lemma holders_run d id s c : mw_all d !! id = Some s → su_run s = Writing c → (0 < holders c d)%nat.
Proof. intros Hs Hr. pose proof (holders_sub d id s c Hs) as H. rewrite Hr in H. cbn in H. rewrite decide_True in H by done. lia. Qed.

(** Only the contents of the buffers that are held matter. *)
Lemma served_data f g s : (∀ c, c ∈ su_ch s ∨ su_run s = Writing c → f c = g c) → served f s → served g s.
Proof.
  intros Hfg (pre & E & Hsub & Heq). assert (map f (su_ch s) = map g (su_ch s)) as Em by (apply map_ext_in; intros c Hc%list_elem_of_In; apply Hfg; by left).
  assert (givenOf f s = givenOf g s) as Eg by (unfold givenOf; destruct (su_run s) eqn:Er; try done; do 2 f_equal; apply Hfg; by right).
  exists pre. by rewrite <- Em, <- Eg.
Qed.

(** A change of the memory that leaves the held buffers alone. *)
Lemma lists_ok_memory d chunks pool : lists_ok d → (∀ c, (0 < holders c d)%nat → dataOf (setChunks chunks pool d) c = dataOf d c) →
  lists_ok (setChunks chunks pool d).
Proof.
  intros [H1 H2 H3 H4] Hd. split; try done.
  2: { unfold write_ok in *. cbn. destruct (mw_write d) as [| c rest ph] eqn:Ew; [done |]. destruct H4 as (W1 & W2 & W3 & W4). split_and!; try done.
       rewrite Hd; [done |]. unfold holders. rewrite Ew. cbn -[decide]. rewrite decide_True by done. destruct rest; [done | cbn; lia]. }
  intros id s Hs. destruct (H1 id s Hs) as [S1 S2 S3 S4]. split; try done.
  eapply served_data; [| exact S4]. intros c Hc. symmetry. apply Hd. destruct Hc as [Hc | Hc]; [by eapply holders_queue | by eapply holders_run].
Qed.

Lemma release_ok c d : memory_ok (one c) d → lists_ok d → returns (release c d) (λ d', writer_ok d' ∧ ∃ chunks pool, d' = setChunks chunks pool d).
Proof.
  intros [M1 M2 [M3 M4]] Hl. unfold release. assert (one c c = 1%nat) as E1 by (unfold one; by rewrite decide_True).
  destruct (M2 c ltac:(lia)) as [k Hk]. rewrite Hk. destruct (M1 c k Hk) as [Hr Hp]. rewrite E1 in Hr, Hp.
  assert (∀ x, x ≠ c → one c x = 0%nat) as E0 by (intros x Hx; unfold one; by rewrite decide_False).
  destruct (ck_refs k - 1 =? 0) eqn:Ez; apply safe_ret; (split; [| by do 2 eexists]); bools; (split; [| apply lists_ok_memory; [done |]]).
  - assert (holders c d = 0%nat) as E by lia. split; cbn [mw_chunks mw_pool setChunks] in *.
    + intros x kx Hx. change (holders x (setChunks _ _ d)) with (holders x d). rewrite elem_of_app, list_elem_of_singleton. unfold none. destruct (decide (x = c)) as [-> | Hne].
      * rewrite list_lookup_insert_eq in Hx by (by eapply lookup_lt_Some). injection Hx as <-. rewrite E. cbn. split; [done |]. split; [done |]. by right.
      * rewrite list_lookup_insert_ne in Hx by done. destruct (M1 x kx Hx) as [Hr' Hp']. rewrite E0 in Hr', Hp' by done. split; [done |].
        rewrite <- Hp'. split; [by intros [? | ?] | by left].
    + intros x Hx. change (holders x (setChunks _ _ d)) with (holders x d) in Hx. apply list_lookup_insert_is_Some, M2. unfold none in Hx. lia.
    + split.
      * apply NoDup_app. split; [done |]. split; [| apply NoDup_singleton]. intros x Hx ->%list_elem_of_singleton. apply Hp in Hx. lia.
      * apply Forall_app. split; [eapply Forall_impl; [exact M4 |]; intros x Hx; by apply list_lookup_insert_is_Some |].
        apply Forall_singleton, list_lookup_insert_is_Some. by eexists.
  - intros x Hx. unfold dataOf. cbn. rewrite list_lookup_insert_ne; [done |]. intros <-. lia.
  - split; cbn [mw_chunks mw_pool setChunks] in *.
    + intros x kx Hx. change (holders x (setChunks _ _ d)) with (holders x d). unfold none. destruct (decide (x = c)) as [-> | Hne].
      * rewrite list_lookup_insert_eq in Hx by (by eapply lookup_lt_Some). injection Hx as <-. cbn. split; [lia |]. rewrite Hp. lia.
      * rewrite list_lookup_insert_ne in Hx by done. destruct (M1 x kx Hx) as [Hr' Hp']. rewrite E0 in Hr', Hp' by done. done.
    + intros x Hx. change (holders x (setChunks _ _ d)) with (holders x d) in Hx. apply list_lookup_insert_is_Some, M2. unfold none in Hx. lia.
    + split; [done |]. eapply Forall_impl; [exact M4 |]. intros x Hx. by apply list_lookup_insert_is_Some.
  - intros x Hx. unfold dataOf. cbn. destruct (decide (x = c)) as [-> | Hne]; [| by rewrite list_lookup_insert_ne].
    rewrite list_lookup_insert_eq by (by eapply lookup_lt_Some). by rewrite Hk.
Qed.

(** ** The steps *)

Lemma setSub_subs id s d i x : mw_all (setSub id s d) !! i = Some x → (i = id ∧ x = s) ∨ (i ≠ id ∧ mw_all d !! i = Some x).
Proof.
  cbn. intros H. destruct (decide (i = id)) as [-> | Hne]; [| rewrite list_lookup_insert_ne in H by done; by right].
  pose proof (lookup_lt_Some _ _ _ H) as Hl. rewrite length_insert in Hl. rewrite list_lookup_insert_eq in H by done. injection H as <-. by left.
Qed.

Lemma memory_move extra extra' d id s s' w : memory_ok extra d → mw_all d !! id = Some s →
  (∀ c, (holdsSub c s + holdsWrite c (mw_write d) + extra c = holdsSub c s' + holdsWrite c w + extra' c)%nat) →
  memory_ok extra' (setWrite w (setSub id s' d)).
Proof.
  intros [M1 M2 M3] Hs He. assert (∀ c, (holders c (setWrite w (setSub id s' d)) + extra' c = holders c d + extra c)%nat) as Eh.
  { intros c. unfold holders. cbn. pose proof (sum_insert (holdsSub c) _ _ _ s' Hs). specialize (He c). lia. }
  split; [intros c k; rewrite Eh; apply M1 | intros c; rewrite Eh; apply M2 | exact M3].
Qed.

Lemma setWrite_same d : setWrite (mw_write d) d = d.
Proof. by destruct d. Qed.

Lemma memory_move_sub extra extra' d id s s' : memory_ok extra d → mw_all d !! id = Some s →
  (∀ c, (holdsSub c s + extra c = holdsSub c s' + extra' c)%nat) → memory_ok extra' (setSub id s' d).
Proof.
  intros Hm Hs He. rewrite <- (setWrite_same (setSub id s' d)). eapply memory_move; [exact Hm | exact Hs |]. cbn. intros c. specialize (He c). lia.
Qed.

Lemma lists_move d id s' w : lists_ok d → sub_ok d id s' → write_ok (setWrite w (setSub id s' d)) → lists_ok (setWrite w (setSub id s' d)).
Proof.
  intros [H1 H2 H3 H4] Hs' Hw. split; try done.
  - intros i x Hx. apply setSub_subs in Hx as [[-> ->] | [_ Hx]]; [destruct Hs' as [S1 S2 S3 S4] | destruct (H1 i x Hx) as [S1 S2 S3 S4]]; by split.
  - split; [apply H2 |]. eapply Forall_impl; [apply H2 |]. intros x Hx. by apply list_lookup_insert_is_Some.
  - eapply Forall_impl; [exact H3 |]. intros x [Hx ?]. split; [by apply list_lookup_insert_is_Some | done].
Qed.

Lemma lists_move_sub d id s s' : lists_ok d → mw_all d !! id = Some s → sub_ok d id s' → len (su_ch s') ≤ len (su_ch s) → lists_ok (setSub id s' d).
Proof.
  intros Hl Hs Hs' Hlen. rewrite <- (setWrite_same (setSub id s' d)). apply lists_move; [done.. |]. pose proof (li_write _ Hl) as Hw. unfold write_ok in *. cbn.
  destruct (mw_write d) as [| c rest ph]; [done |]. destruct Hw as (W1 & W2 & W4 & W3). split_and!; try done. intros Hph i r x -> Hx.
  apply setSub_subs in Hx as [[-> ->] | [_ Hx]]; [specialize (W3 Hph id r s eq_refl Hs); lia | by eapply W3].
Qed.

Lemma served_queue f s x ch : served f s → su_ch s = x :: ch → served f (loseOne (setQueue ch s)).
Proof.
  intros (pre & E & Hsub & _) Hch. exists (pre ++ [f x]). rewrite Hch in E. cbn in *. split; [by rewrite E, <- app_assoc |]. split; [| done].
  by apply sublist_inserts_r.
Qed.

Lemma Attach_ok writer d : writer_ok d → mw_write d = NotWriting → writer_ok (Attach writer d).
Proof.
  intros [[M1 M2 M3] [H1 [H2 H2'] H3 H4]] Hw. assert (∀ c, holders c (Attach writer d) = holders c d) as Eh.
  { intros c. unfold holders. cbn. rewrite sum_list_with_app. cbn. lia. }
  assert (∀ id, is_Some (mw_all d !! id) → is_Some (mw_all (Attach writer d) !! id) ∧ id ≠ length (mw_all d)) as Hold.
  { intros id [s Hs]. split; [cbn; rewrite lookup_app_l; [by exists s | by eapply lookup_lt_Some] |]. apply lookup_lt_Some in Hs. lia. }
  split; [split; [intros c k; rewrite Eh; apply M1 | intros c; rewrite Eh; apply M2 | exact M3] |]. split.
  - intros id s Hs. cbn in Hs. apply lookup_app_Some in Hs as [Hs | [Hlen Hs]].
    + destruct (H1 id s Hs) as [S1 S2 S3 S4]. split; try done. intros [Hin | Hin%list_elem_of_singleton]%elem_of_app; [by apply S2 |].
      destruct (Hold id ltac:(by exists s)) as [_ []]. done.
    + apply list_lookup_singleton_Some in Hs as [_ <-]. split; try done. exists []. split; [done |]. split; [apply sublist_nil_l | done].
  - cbn. split.
    + apply NoDup_app. split; [done |]. split; [| apply NoDup_singleton]. intros x Hx ->%list_elem_of_singleton. rewrite Forall_forall in H2'.
      by destruct (Hold _ (H2' _ Hx)) as [_ []].
    + apply Forall_app. split; [eapply Forall_impl; [exact H2' |]; intros x Hx; by apply Hold |]. apply Forall_singleton. by rewrite lookup_app_r, Nat.sub_diag.
  - cbn. eapply Forall_impl; [exact H3 |]. intros x [Hx Hn]. destruct (Hold x Hx) as [? Hne]. split; [done |].
    intros [? | ->%list_elem_of_singleton]%elem_of_app; by eauto.
  - unfold write_ok. cbn. by rewrite Hw.
Qed.

Lemma holdsSub_close c s : holdsSub c (closeSub s) = holdsSub c s.
Proof. done. Qed.

(** A subscriber leaves the list and its channel is closed. *)
Lemma detach_ok id s run l d : writer_ok d → mw_all d !! id = Some s → mw_write d = NotWriting → l ⊆ mw_subscribers d → NoDup l → id ∉ l →
  run = su_run s ∨ (su_run s = Failing ∧ run = Draining) → writer_ok (setSub id (setRun run (closeSub s)) (setSubscribers l d)).
Proof.
  intros [[M1 M2 M3] [H1 [H2 H2'] H3 H4]] Hs Hw Hl Hnd Hid Hrun.
  assert (∀ c, holders c (setSub id (setRun run (closeSub s)) (setSubscribers l d)) = holders c d) as Eh.
  { intros c. unfold holders. cbn. pose proof (sum_insert (holdsSub c) _ _ _ (setRun run (closeSub s)) Hs) as H.
    assert (holdsSub c (setRun run (closeSub s)) = holdsSub c s) by (unfold holdsSub; cbn; destruct Hrun as [-> | [-> ->]]; done). lia. }
  split; [split; [intros c k; rewrite Eh; apply M1 | intros c; rewrite Eh; apply M2 | exact M3] |]. split.
  - intros i x Hx. apply (setSub_subs id _ (setSubscribers l d)) in Hx as [[-> ->] | [_ Hx]].
    + destruct (H1 id s Hs) as [S1 S2 S3 S4]. split; try done; cbn.
      * intros E. destruct Hrun as [-> | [_ ->]]; [by apply S3 | done].
      * destruct S4 as (pre & E & Hsub & Heq). exists pre. unfold givenOf in *. cbn. destruct Hrun as [-> | [Er ->]]; [done |]. by rewrite Er in Hsub, Heq.
    + destruct (H1 i x Hx) as [S1 S2 S3 S4]. split; try done. intros Hin. apply S2. by apply Hl.
  - cbn. split; [done |]. apply Forall_forall. intros x Hx. apply list_lookup_insert_is_Some. rewrite Forall_forall in H2'. by apply H2', Hl.
  - cbn. eapply Forall_impl; [exact H3 |]. intros x [Hx Hn]. split; [by apply list_lookup_insert_is_Some |]. intros Hin. by apply Hn, Hl.
  - unfold write_ok. cbn. by rewrite Hw.
Qed.

Lemma detachSubscriber_ok id d : writer_ok d → mw_write d = NotWriting → returns (detachSubscriber id d) (λ d', writer_ok d' ∧ mw_write d' = NotWriting ∧
  id ∉ mw_subscribers d' ∧ ∀ s, mw_all d !! id = Some s → mw_all d' !! id = Some s ∨ mw_all d' !! id = Some (closeSub s)).
Proof.
  intros Hd Hw. pose proof Hd as [_ [H1 [H2 H2'] H3 H4]]. unfold detachSubscriber. case_decide as Hin; [| apply safe_ret; split_and!; try done; intros s Hs; by left].
  rewrite Forall_forall in H2'. destruct (H2' id Hin) as [s Hs]. rewrite Hs. apply safe_ret.
  assert (id ∉ list_difference (mw_subscribers d) [id]) as Hout by (intros [_ Hn]%list_elem_of_difference; by apply Hn; left).
  split_and!; try done.
  - assert (closeSub s = setRun (su_run s) (closeSub s)) as -> by by destruct s. apply detach_ok; try done; [| by apply NoDup_list_difference | by left].
    intros x Hx. by apply list_elem_of_difference in Hx as [? _].
  - intros s' Hs'. injection Hs' as <-. right. cbn. apply list_lookup_insert_eq. by eapply lookup_lt_Some.
Qed.

Lemma CloseAll_ok d : writer_ok d → mw_write d = NotWriting → writer_ok (CloseAll d).
Proof.
  intros [[M1 M2 M3] [H1 [H2 H2'] H3 H4]] Hw. split; [by split |]. split.
  - intros i s Hs. destruct (H1 i s Hs) as [S1 S2 S3 S4]. split; try done. by intros ?%elem_of_nil.
  - split; [apply NoDup_nil_2 | apply Forall_nil_2].
  - cbn. apply Forall_app. split; [eapply Forall_impl; [exact H3 |] | eapply Forall_impl; [exact H2' |]]; intros x Hx; (split; [apply Hx || done | apply not_elem_of_nil]).
  - unfold write_ok. cbn. by rewrite Hw.
Qed.

Lemma closeNext_ok d : writer_ok d → returns (closeNext d) writer_ok.
Proof.
  intros [Hm Hl]. unfold closeNext. destruct (mw_closing d) as [| id rest] eqn:Ec; [done |]. pose proof (li_closing _ Hl) as H3. rewrite Ec in H3.
  apply Forall_cons in H3 as [[[s Hs] Hn] H3]. rewrite Hs. apply safe_ret. split.
  - apply (memory_move_sub none none (setClosing rest d) id s (closeSub s)); [by destruct Hm | done | done].
  - destruct (li_subs _ Hl id s Hs) as [S1 S2 S3 S4]. apply (lists_move_sub (setClosing rest d) id s); [| done | by split | done].
    destruct Hl as [H1 H2 H3' H4]. split; try done. intros i x Hx. destruct (H1 i x Hx). by split.
Qed.

Lemma pooledChunk_ok p choice d rest ph : writer_ok d → mw_write d = NotWriting → (∀ c, choice = Some c → c ∈ mw_pool d) → rest ≠ [] → rest `suffix_of` mw_subscribers d → ph = TrySend →
  let '(d', c) := newChunk p (len rest) choice d in writer_ok (setLog (mw_log d ++ [p]) (setWrite (Enqueuing c rest ph) d')).
Proof.
  intros [[M1 M2 [M3 M4]] Hl] Hw Hchoice Hne Hrest ->.
  assert (∀ d' c, mw_all d' = mw_all d → ∀ x, holders x (setLog (mw_log d ++ [p]) (setWrite (Enqueuing c rest TrySend) d')) = (holders x d + if decide (x = c) then length rest else 0)%nat) as Eh.
  { intros d' c E x. unfold holders. rewrite Hw. cbn. rewrite E. lia. }
  assert (∀ chunks pool c, (∀ x, (0 < holders x d)%nat → dataOf (setChunks chunks pool d) x = dataOf d x) →
    dataOf (setChunks chunks pool d) c = p → lists_ok (setLog (mw_log d ++ [p]) (setWrite (Enqueuing c rest TrySend) (setChunks chunks pool d)))) as Hlists.
  { intros chunks pool c Hdata Hp. pose proof (lists_ok_memory d chunks pool Hl Hdata) as [H1 H2 H3 H4].
    split; [intros i s Hs; destruct (H1 i s Hs); by split | done | done |]. unfold write_ok. cbn. rewrite last_snoc. split_and!; try done. by rewrite <- Hp. }
  unfold newChunk. destruct choice as [c |].
  - pose proof (Hchoice c eq_refl) as Hc. rewrite Forall_forall in M4. destruct (M4 c Hc) as [k Hk]. assert (holders c d = 0%nat) as E0 by (apply (M1 c k Hk) in Hc; unfold none in Hc; lia).
    split; [| apply Hlists; [intros x Hx; unfold dataOf; cbn; rewrite list_lookup_insert_ne; [done |]; intros <-; lia |];
      unfold dataOf; cbn; by rewrite list_lookup_insert_eq by (by eapply lookup_lt_Some)]. split.
    + intros x kx. rewrite Eh by done. cbn. intros Hx. rewrite list_elem_of_difference, list_elem_of_singleton. unfold none. destruct (decide (x = c)) as [-> | Hnx].
      * rewrite list_lookup_insert_eq in Hx by (by eapply lookup_lt_Some). injection Hx as <-. cbn. unfold len. rewrite E0. split; [lia |].
        split; [by intros [_ []] |]. intros Hz. destruct rest; [done | cbn in Hz; lia].
      * rewrite list_lookup_insert_ne in Hx by done. destruct (M1 x kx Hx) as [Hr Hp]. unfold none in *. rewrite Nat.add_0_r. split; [done |]. rewrite <- Hp. naive_solver.
    + intros x. rewrite Eh by done. intros Hx. apply list_lookup_insert_is_Some. case_decide as Hd; [subst; by exists k | apply M2; unfold none in *; lia].
    + cbn. split; [by apply NoDup_list_difference |]. apply Forall_forall. intros x [Hx _]%list_elem_of_difference. apply list_lookup_insert_is_Some. by apply M4.
  - set (c := length (mw_chunks d)). assert (holders c d = 0%nat) as E0.
    { destruct (holders c d) eqn:E; [done |]. destruct (M2 c ltac:(lia)) as [k Hk]. apply lookup_lt_Some in Hk. unfold c in Hk. lia. }
    assert (∀ x, is_Some (mw_chunks d !! x) → (mw_chunks d ++ [MkChunk (len rest) p]) !! x = mw_chunks d !! x ∧ x ≠ c) as Hold.
    { intros x [k Hk]. pose proof (lookup_lt_Some _ _ _ Hk). split; [by rewrite lookup_app_l | unfold c; lia]. }
    split; [| apply Hlists; [intros x Hx; unfold dataOf; cbn; destruct (Hold x) as [-> _]; [apply M2; lia | done] |];
      unfold dataOf; cbn; by rewrite lookup_app_r, Nat.sub_diag]. split.
    + intros x kx. rewrite Eh by done. cbn. intros Hx. unfold none. apply lookup_app_Some in Hx as [Hx | [Hlen Hx]].
      * destruct (Hold x ltac:(by exists kx)) as [_ Hnx]. rewrite decide_False by done. destruct (M1 x kx Hx) as [Hr Hp]. unfold none in *. by rewrite !Nat.add_0_r in *.
      * apply list_lookup_singleton_Some in Hx as [Hlen' <-]. assert (x = c) as -> by (unfold c; lia). rewrite decide_True by done. cbn. unfold len. rewrite E0. split; [lia |].
        split; [| intros Hz; destruct rest; [done | cbn in Hz; lia]]. intros Hc. rewrite Forall_forall in M4. by destruct (Hold c (M4 c Hc)) as [_ []].
    + intros x. rewrite Eh by done. intros Hx. cbn. case_decide as Hd; [subst x; rewrite lookup_app_r, Nat.sub_diag by done; by eexists |].
      assert (is_Some (mw_chunks d !! x)) as Hx' by (apply M2; unfold none in *; lia). destruct (Hold x Hx') as [-> _]. done.
    + cbn. split; [done |]. eapply Forall_impl; [exact M4 |]. intros x Hx. by destruct (Hold x Hx) as [-> _].
Qed.

Lemma suffix_head {A} (x : A) l k : (x :: l) `suffix_of` k → x ∈ k ∧ l `suffix_of` k.
Proof.
  intros [p ->]. split; [apply elem_of_app; right; by left |]. exists (p ++ [x]). by rewrite <- app_assoc.
Qed.

Lemma write_ok_next d c id rest ph s' : write_ok d → mw_write d = Enqueuing c (id :: rest) ph → write_ok (setWrite (nextSubscriber c rest) (setSub id s' d)).
Proof.
  unfold write_ok. intros Hw E. rewrite E in Hw. destruct Hw as (_ & Hsuf & Hlog & _). apply suffix_head in Hsuf as [_ Hsuf]. cbn.
  destruct rest as [| x rest]; [done |]. cbn. split_and!; done.
Qed.

Lemma sendChunk_ok d id c s rest ph : writer_ok d → mw_write d = Enqueuing c (id :: rest) ph → mw_all d !! id = Some s → su_closed s = false →
  len (su_ch s) < dynamicMultiWriterBufferSize → match su_run s with Draining | Ended => False | _ => True end → writer_ok (sendChunk id c s rest d).
Proof.
  intros [Hm Hl] Hw Hs Hc Hroom Hrun. pose proof (li_subs _ Hl id s Hs) as [S1 S2 S3 S4]. unfold sendChunk.
  change (match mw_chunks d !! c with Some chunk => ck_data chunk | None => [] end) with (dataOf d c). split.
  - eapply memory_move; [exact Hm | exact Hs |]. intros x. rewrite Hw. unfold holdsSub. cbn -[occ]. rewrite occ_app, occ_cons. unfold nextSubscriber.
    destruct rest; cbn; repeat case_decide; cbn; lia.
  - apply lists_move; [done | | by eapply write_ok_next; [apply Hl |]]. split; cbn.
    + rewrite len_app. change (len [c]) with 1. lia.
    + done.
    + intros E. by rewrite E in Hrun.
    + destruct S4 as (pre & E & Hsub & Heq). exists pre. cbn -[dataOf]. rewrite map_app, E, <- app_assoc. done.
Qed.

Lemma enqueue_ok d : writer_ok d → notWriting d = false → returns (enqueue d) writer_ok.
Proof.
  intros Hd Hn. pose proof Hd as [Hm Hl]. pose proof (li_write _ Hl) as Hw. unfold enqueue, notWriting, write_ok in *.
  destruct (mw_write d) as [| c rest ph] eqn:Ew; [done |]. destruct Hw as (Hne & Hsuf & Hlog & Hroom). destruct rest as [| id rest]; [done |].
  pose proof (suffix_head _ _ _ Hsuf) as [Hin _]. destruct (li_listed _ Hl) as [_ H2]. rewrite Forall_forall in H2. destruct (H2 id Hin) as [s Hs]. rewrite Hs.
  pose proof (li_subs _ Hl id s Hs) as [S1 S2 S3 S4]. destruct (S2 Hin) as [Hc Hrun]. rewrite Hc.
  assert (∀ ph', (ph' = SendAgain → len (su_ch s) < dynamicMultiWriterBufferSize) → writer_ok (setWrite (Enqueuing c (id :: rest) ph') d)) as Hphase.
  { intros ph' Hph. split.
    - destruct Hm as [M1 M2 M3]. assert (∀ x, holders x (setWrite (Enqueuing c (id :: rest) ph') d) = holders x d) as Eh by (intros x; unfold holders; by rewrite Ew).
      split; [intros x k; rewrite Eh; apply M1 | intros x; rewrite Eh; apply M2 | exact M3].
    - destruct Hl as [H1 H2' H3 H4]. split; [intros i x Hx; destruct (H1 i x Hx); by split | done | done |]. unfold write_ok. cbn. split_and!; try done.
      intros E i r x [= <- <-] Hx. rewrite Hs in Hx. injection Hx as <-. by apply Hph. }
  destruct ph.
  - destruct (len (su_ch s) <? _) eqn:E; bools; apply safe_ret; [by eapply sendChunk_ok | by apply Hphase].
  - destruct (su_ch s) as [| x ch] eqn:Ech; [apply safe_ret, Hphase; intros _; done |].
    set (d1 := setWrite _ _). assert (memory_ok (one x) d1) as Hm1.
    { eapply memory_move; [exact Hm | exact Hs |]. intros y. rewrite Ew. unfold holdsSub, none, one. cbn -[occ]. rewrite Ech, occ_cons. case_decide; cbn; lia. }
    assert (lists_ok d1) as Hl1.
    { apply lists_move; [done | |].
      - rewrite len_cons in S1. split; cbn; [lia | done | | by apply (served_queue _ _ x)]. intros E. apply S3 in E. congruence.
      - unfold write_ok. cbn. split_and!; try done. intros _ i r y [= <- <-] Hy. apply (setSub_subs id (loseOne (setQueue ch s)) d) in Hy as [[_ ->] | [[] _]]; [| done].
        rewrite len_cons in S1. cbn. lia. }
    eapply safe_mono; [by apply release_ok |]. by intros d' [? _].
  - specialize (Hroom eq_refl id rest s eq_refl Hs). rewrite (proj2 (Z.ltb_lt _ _)) by done. apply safe_ret. by eapply sendChunk_ok.
Qed.

Lemma runReceives_ok id d : writer_ok d → runnerOf id d = Receiving → canReceive id d = true → returns (runReceives id d) writer_ok.
Proof.
  intros [Hm Hl] Hr Hc. unfold runnerOf, canReceive, runReceives in *. destruct (mw_all d !! id) as [s |] eqn:Hs; [| done].
  pose proof (li_subs _ Hl id s Hs) as [S1 S2 S3 S4]. destruct (su_ch s) as [| c ch] eqn:Ech; apply safe_ret; split.
  - eapply memory_move_sub; [exact Hm | exact Hs |]. intros x. unfold holdsSub. cbn. by rewrite Hr.
  - apply (lists_move_sub d id s); [done | done | | done]. split; cbn; [by rewrite Ech | | by rewrite Ech |].
    + intros Hin. destruct (S2 Hin). congruence.
    + destruct S4 as (pre & E & Hsub & Heq). exists pre. unfold givenOf in *. cbn. rewrite Hr in Hsub, Heq. by rewrite Ech in *.
  - eapply memory_move_sub; [exact Hm | exact Hs |]. intros x. unfold holdsSub. cbn -[occ]. rewrite Ech, Hr, occ_cons. cbn -[occ]. lia.
  - rewrite len_cons in S1. apply (lists_move_sub d id s); [done | done | | rewrite Ech, len_cons; cbn; lia]. split; cbn; [lia | | done |].
    + intros Hin. destruct (S2 Hin). done.
    + destruct S4 as (pre & E & Hsub & Heq). exists (pre ++ [dataOf d c]). unfold givenOf in *. cbn. rewrite Hr in Hsub, Heq. rewrite app_nil_r in Hsub, Heq.
      rewrite Ech in E. split; [by rewrite E, <- app_assoc |]. split; [by apply sublist_app | intros H0; by rewrite Heq].
Qed.

Lemma runWrites_ok id ok c d : writer_ok d → runnerOf id d = Writing c → returns (runWrites id ok d) writer_ok.
Proof.
  intros [Hm Hl] Hr. unfold runnerOf, runWrites in *. destruct (mw_all d !! id) as [s |] eqn:Hs; [| done]. rewrite Hr.
  pose proof (li_subs _ Hl id s Hs) as [S1 S2 S3 S4]. destruct (me_alloc _ _ Hm c) as [k Hk]; [pose proof (holders_run d id s c Hs Hr); lia |]. rewrite Hk.
  set (s' := setRun _ _). assert (memory_ok (one c) (setSub id s' d)) as Hm1.
  { eapply memory_move_sub; [exact Hm | exact Hs |]. intros x. unfold holdsSub, one, none, s'. cbn -[occ decide]. rewrite Hr. destruct ok; cbn -[occ decide]; repeat case_decide; lia. }
  assert (lists_ok (setSub id s' d)) as Hl1.
  { apply (lists_move_sub d id s); [done | done | | done]. unfold s'. split; cbn; [done | | by destruct ok |].
    - intros Hin. destruct (S2 Hin). split; [done | by destruct ok].
    - destruct S4 as (pre & E & Hsub & Heq). exists pre. unfold givenOf in *. cbn. rewrite Hr in Hsub, Heq. unfold dataOf in Hsub at 1, Heq at 1. rewrite Hk in Hsub, Heq.
      destruct ok; cbn; by rewrite app_nil_r. }
  eapply safe_mono; [by apply release_ok |]. by intros d' [? _].
Qed.

Lemma runFails_ok id d : writer_ok d → runnerOf id d = Failing → mw_write d = NotWriting → returns (runFails id d) writer_ok.
Proof.
  intros Hd Hr Hw. unfold runnerOf, runFails in *. destruct (mw_all d !! id) as [s |] eqn:Hs; [| done]. apply safe_bind.
  eapply safe_mono; [by apply detachSubscriber_ok |]. intros d' ([Hm Hl] & Hw' & Hout & Hsub). destruct (Hsub s Hs) as [Hs' | Hs']; rewrite Hs'; apply safe_ret;
    pose proof (li_subs _ Hl id _ Hs') as [S1 S2 S3 S4]; (split; [eapply memory_move_sub; [exact Hm | exact Hs' |]; intros x; unfold holdsSub; cbn; by rewrite Hr |]);
    (apply (lists_move_sub d' id _ _ Hl Hs'); [| done]); (split; cbn; [done | done | done |]); destruct S4 as (pre & E & Hsub' & Heq); exists pre; unfold givenOf in *; cbn in *;
    by rewrite Hr in Hsub', Heq.
Qed.

Lemma drain_ok id d : writer_ok d → runnerOf id d = Draining → returns (drain id d) writer_ok.
Proof.
  intros [Hm Hl] Hr. unfold runnerOf, drain in *. destruct (mw_all d !! id) as [s |] eqn:Hs; [| done]. pose proof (li_subs _ Hl id s Hs) as [S1 S2 S3 S4].
  destruct (su_ch s) as [| c ch] eqn:Ech.
  - apply safe_ret. split; [eapply memory_move_sub; [exact Hm | exact Hs |]; intros x; unfold holdsSub; cbn; by rewrite Hr |].
    apply (lists_move_sub d id s); [done | done | | done]. split; cbn; [by rewrite Ech | | done |].
    + intros Hin. destruct (S2 Hin) as [_ H]. by rewrite Hr in H.
    + destruct S4 as (pre & E & Hsub & Heq). exists pre. unfold givenOf in *. cbn. by rewrite Hr, Ech in *.
  - set (s' := loseOne (setQueue ch s)). rewrite len_cons in S1. assert (memory_ok (one c) (setSub id s' d)) as Hm1.
    { eapply memory_move_sub; [exact Hm | exact Hs |]. intros x. unfold holdsSub, one, none, s'. cbn -[occ]. rewrite Ech, occ_cons. repeat case_decide; lia. }
    assert (lists_ok (setSub id s' d)) as Hl1.
    { apply (lists_move_sub d id s); [done | done | | unfold s'; cbn; rewrite Ech, len_cons; lia]. split; cbn; [lia | exact S2 | | by apply (served_queue _ _ c)].
      intros E. congruence. }
    eapply safe_mono; [by apply release_ok |]. by intros d' [? _].
Qed.

Lemma doWriter_ok a d : writer_ok d → canWriter a d = true → returns (doWriter a d) writer_ok.
Proof.
  intros Hd Hc. assert (notWriting d = true → mw_write d = NotWriting) as Hnw by (unfold notWriting; by destruct (mw_write d)).
  destruct a as [w | id | | | p choice | | id | id ok | id | id]; cbn [canWriter doWriter] in *.
  - apply safe_ret, Attach_ok; auto.
  - apply andb_true_iff in Hc as [Hc _]. eapply safe_mono; [apply detachSubscriber_ok; auto |]. by intros d' [? _].
  - apply safe_ret, CloseAll_ok; auto.
  - by apply closeNext_ok.
  - apply andb_true_iff in Hc as [Hc Hp]. apply safe_ret. unfold Write. destruct (mw_subscribers d) as [| id l] eqn:El; [done |]. rewrite <- El.
    pose proof (pooledChunk_ok p choice d (mw_subscribers d) TrySend Hd (Hnw Hc)) as H.
    destruct (newChunk _ _ _ _) as [d' c]. apply H; [| by rewrite El | done | done]. intros x ->. by apply bool_decide_eq_true in Hp.
  - apply enqueue_ok; [done |]. by apply negb_true_iff in Hc.
  - destruct (runnerOf id d) eqn:Er; try done. by apply runReceives_ok.
  - destruct (runnerOf id d) eqn:Er; try done. by eapply runWrites_ok.
  - destruct (runnerOf id d) eqn:Er; try done. apply runFails_ok; auto.
  - destruct (runnerOf id d) eqn:Er; try done. by apply drain_ok.
Qed.

(** ** What is enqueued *)

(** The subscribers the call of [Write] has still to serve. *)
Definition pendingSubs (w : writing) : list nat := match w with Enqueuing _ rest _ => rest | NotWriting => [] end.
Definition lastWrite (d : DynamicMultiWriter) : list Z := default [] (last (mw_log d)).
Definition pendingData (d : DynamicMultiWriter) (id : nat) : list (list Z) := if decide (id ∈ pendingSubs (mw_write d)) then [lastWrite d] else [].

(** A subscriber in the list has been offered every write since it was attached but
    the one under way; one that has left it, those up to some moment. *)
Definition logged (d : DynamicMultiWriter) (id : nat) (s : dynamicMultiWriterSubscriber) : Prop :=
  (su_from s ≤ length (mw_log d))%nat ∧
  if decide (id ∈ mw_subscribers d) then su_offered s ++ pendingData d id = drop (su_from s) (mw_log d)
  else su_offered s `prefix_of` drop (su_from s) (mw_log d).
Definition log_ok (d : DynamicMultiWriter) : Prop := ∀ id s, mw_all d !! id = Some s → logged d id s.

Lemma release_Ret c d d' : release c d = Ret d' → ∃ chunks pool, d' = setChunks chunks pool d.
Proof. unfold release. repeat case_match; try done; intros [= <-]; by do 2 eexists. Qed.

Lemma logged_memory chunks pool d : log_ok d → log_ok (setChunks chunks pool d).
Proof. done. Qed.

Lemma logged_setSub id s s' d : log_ok d → mw_all d !! id = Some s → su_offered s' = su_offered s → su_from s' = su_from s → log_ok (setSub id s' d).
Proof.
  intros H Hs E1 E2 i x Hx. apply setSub_subs in Hx as [[-> ->] | [_ Hx]]; [| exact (H i x Hx)].
  specialize (H id s Hs). unfold logged in *. rewrite E1, E2. exact H.
Qed.

Lemma logged_leaves l d : log_ok d → l ⊆ mw_subscribers d → mw_write d = NotWriting → log_ok (setSubscribers l d).
Proof.
  intros H Hl Hw id s Hs. specialize (H id s Hs). destruct H as [H1 H2]. split; [done |]. unfold pendingData in *. rewrite Hw in H2. cbn -[decide] in *. rewrite Hw.
  cbn -[decide]. rewrite (decide_False (P := id ∈ [])) in * by apply not_elem_of_nil. rewrite app_nil_r in *. destruct (decide (id ∈ l)) as [Hin | Hin].
  - rewrite decide_True in H2 by (by apply Hl). done.
  - destruct (decide (id ∈ mw_subscribers d)); [by rewrite H2 | done].
Qed.

Lemma sendChunk_logged d id c s rest ph : writer_ok d → log_ok d → mw_write d = Enqueuing c (id :: rest) ph → mw_all d !! id = Some s → log_ok (sendChunk id c s rest d).
Proof.
  intros [_ Hl] H Hw Hs. pose proof (li_write _ Hl) as Hwok. unfold write_ok in Hwok. rewrite Hw in Hwok. destruct Hwok as (_ & Hsuf & Hlog & _).
  pose proof (suffix_head _ _ _ Hsuf) as [Hin _]. destruct (li_listed _ Hl) as [Hnd _]. assert (NoDup (id :: rest)) as Hnd' by (destruct Hsuf as [k Hk]; rewrite Hk in Hnd; by apply NoDup_app in Hnd as (_ & _ & ?)).
  apply NoDup_cons in Hnd' as [Hid _]. unfold sendChunk. change (match mw_chunks d !! c with Some chunk => ck_data chunk | None => [] end) with (dataOf d c).
  assert (pendingSubs (nextSubscriber c rest) = rest) as Er by by destruct rest.
  intros i x Hx. change (mw_all (setSub id (offerTo (dataOf d c) (setQueue (su_ch s ++ [c]) s)) d) !! i = Some x) in Hx.
  apply setSub_subs in Hx as [[-> ->] | [Hne Hx]].
  - destruct (H id s Hs) as [H1 H2]. split; [done |]. rewrite decide_True in * by done. unfold pendingData in *. rewrite Hw in H2. cbn -[decide nextSubscriber dataOf] in *. rewrite Er.
    rewrite decide_True in H2 by (by left). rewrite decide_False by done. unfold lastWrite in H2. rewrite Hlog in H2. by rewrite app_nil_r.
  - destruct (H i x Hx) as [H1 H2]. split; [done |]. change (mw_subscribers (setWrite _ _)) with (mw_subscribers d). change (mw_log (setWrite _ _)) with (mw_log d).
    case_decide; [| done]. rewrite <- H2. f_equal. unfold pendingData. rewrite Hw. change (mw_write (setWrite (nextSubscriber c rest) _)) with (nextSubscriber c rest). rewrite Er. cbn [pendingSubs].
    destruct (decide (i ∈ rest)) as [Hi | Hi]; [by rewrite decide_True by (by right) |]. rewrite decide_False; [done |]. by intros [? | ?]%elem_of_cons.
Qed.

Lemma detachSubscriber_logged id d d' : log_ok d → mw_write d = NotWriting → detachSubscriber id d = Ret d' → log_ok d'.
Proof.
  intros H Hw. unfold detachSubscriber. case_decide; [| by intros [= <-]]. destruct (mw_all d !! id) as [s |] eqn:Hs; [| done]. intros [= <-].
  apply (logged_setSub id s); [| exact Hs | done | done]. apply logged_leaves; [done | | done]. by intros x [? _]%list_elem_of_difference.
Qed.

Lemma Write_logged p choice d : log_ok d → mw_write d = NotWriting → log_ok (Write p choice d).
Proof.
  intros H Hw. unfold Write. destruct (mw_subscribers d) as [| id0 l] eqn:El; [done |]. rewrite <- El. destruct (newChunk _ _ _ _) as [d' c] eqn:Ec.
  assert (mw_all d' = mw_all d ∧ mw_subscribers d' = mw_subscribers d) as [E1 E2] by (unfold newChunk in Ec; destruct choice; injection Ec as <- <-; done).
  intros id s Hs. change (mw_all d' !! id = Some s) in Hs. rewrite E1 in Hs. destruct (H id s Hs) as [H1 H2]. unfold logged, pendingData, lastWrite in *. cbn -[decide]. rewrite E2, length_app, Hw in *. cbn -[decide] in *. split; [lia |].
  rewrite last_snoc, drop_app_le by lia. rewrite (decide_False (P := id ∈ [])) in H2 by apply not_elem_of_nil. rewrite app_nil_r in H2.
  case_decide as Hin; [cbn; by rewrite H2 |]. by apply prefix_app_r.
Qed.

Lemma doWriter_logged a d d' : writer_ok d → log_ok d → canWriter a d = true → doWriter a d = Ret d' → log_ok d'.
Proof.
  intros Hd H Hc E. assert (notWriting d = true → mw_write d = NotWriting) as Hnw by (unfold notWriting; by destruct (mw_write d)).
  destruct a as [w | id | | | p choice | | id | id ok | id | id]; cbn [canWriter doWriter] in *.
  - injection E as <-. intros i x Hx. cbn in Hx. apply lookup_app_Some in Hx as [Hx | [Hlen Hx]].
    + destruct (H i x Hx) as [H1 H2]. split; [done |]. change (pendingData (Attach w d) i) with (pendingData d i). cbn -[decide]. apply lookup_lt_Some in Hx.
      destruct (decide (i ∈ mw_subscribers d)) as [Hin | Hin]; [by rewrite decide_True by (apply elem_of_app; by left) |].
      rewrite decide_False; [done |]. intros [? | ->%list_elem_of_singleton]%elem_of_app; [done | lia].
    + apply list_lookup_singleton_Some in Hx as [Hlen' <-]. split; [done |]. assert (i = length (mw_all d)) as -> by lia. cbn -[decide]. rewrite decide_True by (apply elem_of_app; right; by left).
      unfold pendingData. cbn -[decide]. rewrite (Hnw Hc). cbn -[decide]. rewrite decide_False by apply not_elem_of_nil. by rewrite drop_all.
  - apply andb_true_iff in Hc as [Hc _]. eapply detachSubscriber_logged; eauto.
  - injection E as <-. apply (logged_leaves [] d); [done | by intros x ?%elem_of_nil | auto].
  - unfold closeNext in E. destruct (mw_closing d) as [| id rest]; [done |]. destruct (mw_all d !! id) as [s |] eqn:Hs; [| done]. injection E as <-.
    exact (logged_setSub id s (closeSub s) (setClosing rest d) H Hs eq_refl eq_refl).
  - injection E as <-. apply andb_true_iff in Hc as [Hc _]. apply Write_logged; auto.
  - pose proof (li_write _ (proj2 Hd)) as Hw. unfold enqueue, write_ok in *. destruct (mw_write d) as [| c [| id rest] ph] eqn:Ew; [by injection E as <- | by injection E as <- |].
    destruct (mw_all d !! id) as [s |] eqn:Hs; [| done].
    assert (∀ ph', log_ok (setWrite (Enqueuing c (id :: rest) ph') d)) as Hphase.
    { intros ph' i x Hx. destruct (H i x Hx) as [H1 H2]. split; [done |]. unfold pendingData in *. by rewrite Ew in H2. }
    destruct ph.
    + destruct (su_closed s); [done |]. destruct (_ <? _); injection E as <-; [by eapply sendChunk_logged | apply Hphase].
    + destruct (su_ch s) as [| x ch] eqn:Ech; [destruct (su_closed s); [done |]; injection E as <-; apply Hphase |].
      apply release_Ret in E as (chunks & pool & ->). exact (logged_setSub id s (loseOne (setQueue ch s)) _ (Hphase SendAgain) Hs eq_refl eq_refl).
    + destruct (su_closed s); [done |]. destruct Hw as (_ & _ & _ & Hw). specialize (Hw eq_refl id rest s eq_refl Hs). rewrite (proj2 (Z.ltb_lt _ _)) in E by done.
      injection E as <-. by eapply sendChunk_logged.
  - unfold runReceives in E. destruct (mw_all d !! id) as [s |] eqn:Hs; [| done]. destruct (su_ch s); injection E as <-; by eapply logged_setSub.
  - unfold runWrites in E. destruct (mw_all d !! id) as [s |] eqn:Hs; [| done]. destruct (su_run s) eqn:Er; try (by injection E as <-).
    destruct (mw_chunks d !! c); [| done]. apply release_Ret in E as (chunks & pool & ->). apply logged_memory. by eapply logged_setSub.
  - unfold runFails in E. apply bind_Ret_inv in E as (d1 & E1 & E). destruct (runnerOf id d); try done. pose proof (detachSubscriber_logged _ _ _ H (Hnw Hc) E1) as H1.
    destruct (mw_all d1 !! id) as [s |] eqn:Hs; [| done]. injection E as <-. by eapply logged_setSub.
  - unfold drain in E. destruct (mw_all d !! id) as [s |] eqn:Hs; [| done]. destruct (su_ch s); [injection E as <-; by eapply logged_setSub |].
    apply release_Ret in E as (chunks & pool & ->). apply logged_memory. by eapply logged_setSub.
Qed.

(** ** Runs *)

Inductive writerReachable : DynamicMultiWriter → Prop :=
| writer_new : writerReachable NewDynamicMultiWriter
| writer_step a d d' : writerReachable d → canWriter a d = true → doWriter a d = Ret d' → writerReachable d'.

Lemma reachable_writer d : writerReachable d → writer_ok d ∧ log_ok d.
Proof.
  induction 1 as [| a d d' _ [IH Hlog] Hc E].
  - split; [split |].
    + split; [done | intros c H; unfold none in H; cbn in H; lia | split; [apply NoDup_nil_2 | apply Forall_nil_2]].
    + split; [done | split; [apply NoDup_nil_2 | apply Forall_nil_2] | apply Forall_nil_2 | done].
    + intros id s Hs. done.
  - split; [| by eapply doWriter_logged]. pose proof (doWriter_ok a d IH Hc) as H. by rewrite E in H.
Qed.

(** C18 (safety): whatever the process writes and however subscribers come, go, fail
    and dawdle, no step panics - nothing is sent on a closed channel - and a buffer
    is in the pool, to be filled anew, exactly when nobody holds it any more: its
    counter is the number of its holders in queues, in the hands of goroutines and
    still to be served by [Write]. *)
Theorem buffers_safe d a : writerReachable d → canWriter a d = true →
  returns (doWriter a d) (λ _, True) ∧
  ∀ c k, mw_chunks d !! c = Some k → ck_refs k = Z.of_nat (holders c d) ∧ (c ∈ mw_pool d ↔ holders c d = 0%nat).
Proof.
  intros Hr Hc. apply reachable_writer in Hr as [Hd _]. split; [eapply safe_mono; [by apply doWriter_ok | done] |].
  intros c k Hk. destruct (me_refs _ _ (proj1 Hd) c k Hk) as [H1 H2]. unfold none in *. by rewrite Nat.add_0_r in *.
Qed.

(** C19 (functional): a subscriber in the list has been enqueued every write since it
    was attached, in order, but the one that is being served to it; one that has
    left, those up to some moment.  Its queue, at most 128 buffers long, holds the
    last ones as they were written, although the buffers are reused; and its writer
    was given, with what it is being given, the others in order - all of them if
    nothing was lost to a full queue or to its end. *)
Theorem fan_out d id s : writerReachable d → mw_all d !! id = Some s →
  logged d id s ∧ len (su_ch s) ≤ dynamicMultiWriterBufferSize ∧
  ∃ pre, su_offered s = pre ++ map (dataOf d) (su_ch s) ∧ sublist (givenOf (dataOf d) s) pre ∧ (su_lost s = 0%nat → givenOf (dataOf d) s = pre).
Proof.
  intros Hr Hs. apply reachable_writer in Hr as [Hd Hlog]. split; [by apply Hlog |]. destruct (li_subs _ (proj2 Hd) id s Hs) as [S1 _ _ S4]. done.
Qed.

(** ** Progress *)

Definition writeLeft (d : DynamicMultiWriter) : nat :=
  match mw_write d with
  | Enqueuing _ rest ph => 3 * length rest - match ph with TrySend => 0 | DropOldest => 1 | SendAgain => 2 end
  | NotWriting => 0
  end%nat.

Lemma release_write c d d' : release c d = Ret d' → mw_write d' = mw_write d.
Proof. intros (chunks & pool & ->)%release_Ret. done. Qed.

Lemma others_write a d d' : canWriter a d = true → notWriting d = false → a ≠ Enqueues → doWriter a d = Ret d' → mw_write d' = mw_write d.
Proof.
  intros Hc Hn Ha E. destruct a as [w | id | | | p choice | | id | id ok | id | id]; cbn [canWriter doWriter] in *; rewrite ?Hn in Hc; try done.
  - unfold closeNext in E. repeat case_match; try done; by injection E as <-.
  - unfold runReceives in E. repeat case_match; try done; by injection E as <-.
  - unfold runWrites in E. repeat case_match; try done; try (by injection E as <-); by apply release_write in E.
  - by destruct (runnerOf id d).
  - unfold drain in E. repeat case_match; try done; try (by injection E as <-); by apply release_write in E.
Qed.

Lemma enqueue_left d d' : writer_ok d → notWriting d = false → enqueue d = Ret d' → (writeLeft d' < writeLeft d)%nat.
Proof.
  intros [_ Hl] Hn E. pose proof (li_write _ Hl) as Hw. unfold notWriting, enqueue, write_ok in *. destruct (mw_write d) as [| c rest ph] eqn:Ew; [done |]. destruct Hw as (Hne & _).
  destruct rest as [| id rest]; [done |].
  assert (∀ x, mw_write x = nextSubscriber c rest → (writeLeft x < writeLeft d)%nat) as Hnext.
  { intros x Ex. unfold writeLeft. rewrite Ex, Ew. destruct rest, ph; cbn; lia. }
  destruct (mw_all d !! id) as [s |]; [| done]. destruct ph; repeat case_match; try done; try (injection E as <-); try (by apply Hnext);
    try (apply release_write in E); try (by apply Hnext); unfold writeLeft; rewrite ?E, ?Ew; cbn; lia.
Qed.

(** The process is never held up: a call of [Write] has always a next
    step of its own, which brings it nearer to its end, and nothing else moves it: it
    returns after at most three steps for each subscriber, however slow these are. *)
Theorem write_returns d : writerReachable d → notWriting d = false →
  canWriter Enqueues d = true ∧ returns (doWriter Enqueues d) (λ d', (writeLeft d' < writeLeft d)%nat) ∧
  ∀ a, canWriter a d = true → a ≠ Enqueues → returns (doWriter a d) (λ d', mw_write d' = mw_write d).
Proof.
  intros Hr Hn. apply reachable_writer in Hr as [Hd _]. split; [cbn; by rewrite Hn |]. split.
  - pose proof (enqueue_ok d Hd Hn) as H. cbn. destruct (enqueue d) as [d' | | |] eqn:E; try done. by apply enqueue_left.
  - intros a Hc Ha. pose proof (doWriter_ok a d Hd Hc) as H. destruct (doWriter a d) as [d' | | |] eqn:E; try done. by eapply others_write.
Qed.

(** The steps of a subscriber's goroutine. *)
Definition isRunner (id : nat) (a : writerStep) : bool :=
  match a with RunReceives i | RunWrites i _ | RunFails i | RunDrains i => bool_decide (i = id) | _ => false end.
Definition runnerNext (id : nat) (d : DynamicMultiWriter) : writerStep :=
  match runnerOf id d with Receiving => RunReceives id | Writing _ => RunWrites id true | Failing => RunFails id | _ => RunDrains id end.
Definition runnerRank (r : runner) : nat := match r with Writing _ => 5 | Failing => 4 | Receiving => 3 | Draining => 2 | Ended => 0 end.
Definition runnerLeft (s : dynamicMultiWriterSubscriber) : nat := 4 * length (su_ch s) + runnerRank (su_run s).

(** What other steps do to a subscriber whose channel is closed. *)
Definition untouched (s s' : dynamicMultiWriterSubscriber) : Prop := su_closed s' = true ∧ su_ch s' = su_ch s ∧ su_run s' = su_run s.

Lemma untouched_refl s : su_closed s = true → untouched s s.
Proof. done. Qed.

Lemma setSub_untouched id i s x x' d : mw_all d !! id = Some s → su_closed s = true → mw_all d !! i = Some x → (i = id → untouched x x') →
  ∃ s', mw_all (setSub i x' d) !! id = Some s' ∧ untouched s s'.
Proof.
  intros Hs Hc Hx Hu. destruct (decide (i = id)) as [-> | Hne].
  - rewrite Hs in Hx. injection Hx as <-. exists x'. split; [cbn; apply list_lookup_insert_eq; by eapply lookup_lt_Some | by apply Hu].
  - exists s. split; [cbn; by rewrite list_lookup_insert_ne | by apply untouched_refl].
Qed.

Lemma detach_untouched id i s d d' : mw_all d !! id = Some s → su_closed s = true → detachSubscriber i d = Ret d' →
  ∃ s', mw_all d' !! id = Some s' ∧ untouched s s'.
Proof.
  intros Hs Hcl E. unfold detachSubscriber in E. case_decide; [| injection E as <-; by exists s]. destruct (mw_all d !! i) as [x |] eqn:Hx; [| done]. injection E as <-.
  apply (setSub_untouched id i s x (closeSub x) (setSubscribers _ d)); done.
Qed.

Lemma others_sub a d d' id s : writer_ok d → canWriter a d = true → doWriter a d = Ret d' → mw_all d !! id = Some s → su_closed s = true → isRunner id a = false →
  ∃ s', mw_all d' !! id = Some s' ∧ untouched s s'.
Proof.
  intros Hd Hc E Hs Hcl Hr. destruct a as [w | i | | | p choice | | i | i ok | i | i]; cbn [canWriter doWriter isRunner] in *;
    try (apply bool_decide_eq_false in Hr).
  - injection E as <-. exists s. split; [| done]. cbn. rewrite lookup_app_l; [done | by eapply lookup_lt_Some].
  - by eapply detach_untouched.
  - injection E as <-. by exists s.
  - unfold closeNext in E. destruct (mw_closing d) as [| i rest]; [done |]. destruct (mw_all d !! i) as [x |] eqn:Hx; [| done]. injection E as <-.
    apply (setSub_untouched id i s x (closeSub x) (setClosing rest d)); done.
  - injection E as <-. unfold Write. destruct (mw_subscribers d); [by exists s |]. unfold newChunk. destruct choice; by exists s.
  - pose proof (li_write _ (proj2 Hd)) as Hw. unfold enqueue, write_ok in *. destruct (mw_write d) as [| c [| i rest] ph] eqn:Ew; [by injection E as <-; exists s.. |].
    destruct Hw as (_ & Hsuf & _). apply suffix_head in Hsuf as [Hin _]. destruct (mw_all d !! i) as [x |] eqn:Hx; [| done].
    destruct (sb_listed _ _ _ (li_subs _ (proj2 Hd) i x Hx) Hin) as [Hxc _]. assert (i ≠ id) as Hne by (intros ->; congruence).
    assert (∀ x' d0, mw_all d0 = mw_all d → ∃ s', mw_all (setSub i x' d0) !! id = Some s' ∧ untouched s s') as Hset.
    { intros x' d0 E0. apply (setSub_untouched id i s x); [by rewrite E0 | done | by rewrite E0 | done]. }
    rewrite Hxc in E. destruct ph; repeat case_match; try done; try (apply release_Ret in E as (chunks & pool & ->)); try (injection E as <-); try (by exists s); by apply Hset.
  - unfold runReceives in E. destruct (mw_all d !! i) as [x |] eqn:Hx; [| done]. destruct (su_ch x); injection E as <-; by eapply setSub_untouched.
  - unfold runWrites in E. destruct (mw_all d !! i) as [x |] eqn:Hx; [| done]. destruct (su_run x); try (by injection E as <-; exists s).
    destruct (mw_chunks d !! c); [| done]. apply release_Ret in E as (chunks & pool & ->). by eapply (setSub_untouched id i s x _ d).
  - unfold runFails in E. apply bind_Ret_inv in E as (d1 & E1 & E). destruct (detach_untouched id i s d d1 Hs Hcl E1) as (s1 & Hs1 & Hc1 & Hq1 & Hr1).
    destruct (mw_all d1 !! i) as [x |] eqn:Hx; [| done]. injection E as <-. destruct (setSub_untouched id i s1 x (setRun Draining x) d1 Hs1 Hc1 Hx ltac:(done)) as (s2 & Hs2 & Hc2 & Hq2 & Hr2).
    exists s2. split; [done |]. split; [done |]. split; congruence.
  - unfold drain in E. destruct (mw_all d !! i) as [x |] eqn:Hx; [| done]. destruct (su_ch x); [injection E as <-; by eapply setSub_untouched |].
    apply release_Ret in E as (chunks & pool & ->). by eapply (setSub_untouched id i s x _ d).
Qed.

Lemma runner_sub a d d' id s : canWriter a d = true → doWriter a d = Ret d' → mw_all d !! id = Some s → su_closed s = true → isRunner id a = true →
  ∃ s', mw_all d' !! id = Some s' ∧ su_closed s' = true ∧ (runnerLeft s' < runnerLeft s)%nat.
Proof.
  intros Hc E Hs Hcl Hr. assert (∀ x d0, mw_all d0 = mw_all d → mw_all (setSub id x d0) !! id = Some x) as Hset
    by (intros x d0 E0; cbn; rewrite E0; apply list_lookup_insert_eq; by eapply lookup_lt_Some).
  destruct a as [w | i | | | p choice | | i | i ok | i | i]; cbn [canWriter doWriter isRunner] in *; try done; apply bool_decide_eq_true in Hr as ->; unfold runnerOf in Hc; rewrite Hs in Hc.
  - unfold runReceives in E. rewrite Hs in E. destruct (su_run s) eqn:Er; try done. destruct (su_ch s) eqn:Eq; injection E as <-; eexists; (split; [by apply Hset |]); (split; [done |]);
      unfold runnerLeft; cbn; rewrite ?Er, ?Eq; cbn; lia.
  - unfold runWrites in E. rewrite Hs in E. destruct (su_run s) eqn:Er; try done. destruct (mw_chunks d !! c); [| done]. apply release_Ret in E as (chunks & pool & ->).
    eexists. split; [by apply (Hset _ d) |]. split; [done |]. unfold runnerLeft. cbn. rewrite Er. destruct ok; cbn; lia.
  - unfold runFails in E. apply bind_Ret_inv in E as (d1 & E1 & E). destruct (su_run s) eqn:Er; try done. destruct (detach_untouched id id s d d1 Hs Hcl E1) as (s1 & Hs1 & Hc1 & Hq1 & Hr1).
    rewrite Hs1 in E. injection E as <-. eexists. split; [cbn; apply list_lookup_insert_eq; by eapply lookup_lt_Some |]. split; [done |]. unfold runnerLeft. cbn. rewrite Er, Hq1. cbn. lia.
  - unfold drain in E. rewrite Hs in E. destruct (su_run s) eqn:Er; try done. destruct (su_ch s) eqn:Eq; [injection E as <- | apply release_Ret in E as (chunks & pool & ->)];
      eexists; (split; [by apply (Hset _ d) |]); (split; [done |]); unfold runnerLeft; cbn; rewrite ?Er, ?Eq; cbn; lia.
Qed.

(** A subscriber whose channel is closed - by [Detach], by [Close] or
    after its writer failed - comes to its end, and what waits for it goes on: its
    goroutine has a next step, except that it may wait for the end of a [Write] to
    take the lock; each of its steps brings the end nearer, and nothing else moves
    it. *)
Theorem closed_subscriber_ends d id s : writerReachable d → mw_all d !! id = Some s → su_closed s = true →
  (su_run s ≠ Ended → notWriting d = true → canWriter (runnerNext id d) d = true) ∧
  ∀ a, canWriter a d = true → returns (doWriter a d) (λ d', ∃ s', mw_all d' !! id = Some s' ∧ su_closed s' = true ∧
    if isRunner id a then (runnerLeft s' < runnerLeft s)%nat else runnerLeft s' = runnerLeft s).
Proof.
  intros Hr Hs Hcl. apply reachable_writer in Hr as [Hd _]. split.
  - intros He Hn. unfold runnerNext, runnerOf. rewrite Hs. destruct (su_run s) eqn:Er; try done; cbn; unfold runnerOf, canReceive; rewrite Hs, Er; try done.
    by destruct (su_ch s).
  - intros a Hc. pose proof (doWriter_ok a d Hd Hc) as H. destruct (doWriter a d) as [d' | | |] eqn:E; try done. cbn. destruct (isRunner id a) eqn:Ea.
    + by eapply runner_sub.
    + destruct (others_sub a d d' id s Hd Hc E Hs Hcl Ea) as (s' & Hs' & H1 & H2 & H3). exists s'. split; [done |]. split; [done |]. unfold runnerLeft. by rewrite H2, H3.
Qed.

(** ** Examples *)

Definition runWriter (steps : list writerStep) (d : DynamicMultiWriter) : DynamicMultiWriter :=
  fold_left (λ d a, match doWriter a d with Ret d' => d' | _ => d end) steps d.
Fixpoint allowed (steps : list writerStep) (d : DynamicMultiWriter) : bool :=
  match steps with [] => true | a :: steps => canWriter a d && allowed steps (runWriter [a] d) end.

Lemma allowed_reachable steps : ∀ d, writerReachable d → allowed steps d = true → writerReachable (runWriter steps d).
Proof.
  induction steps as [| a steps IH]; intros d Hr Ha; [done |]. cbn [allowed] in Ha. apply andb_true_iff in Ha as [Hc Ha].
  change (runWriter (a :: steps) d) with (runWriter steps (runWriter [a] d)). apply IH; [| done]. cbn [runWriter fold_left] in *.
  pose proof (buffers_safe d a Hr Hc) as [H _]. destruct (doWriter a d) as [d' | | |] eqn:E; try done. by eapply writer_step.
Qed.

(** Two subscribers; the second is behind by one when the buffer of the first write
    is used again for the third, and the process is in the middle of that call. *)
Definition sampleSteps : list writerStep :=
  [Attaches 7; Attaches 8; WriteCalled [1; 2] None; Enqueues; Enqueues; RunReceives 0; RunWrites 0 true; RunReceives 1; RunWrites 1 true;
   WriteCalled [3] None; Enqueues; Enqueues; RunReceives 0; WriteCalled [4; 5; 6] (Some 0%nat); Enqueues].
Definition sampleWriter : DynamicMultiWriter := runWriter sampleSteps NewDynamicMultiWriter.

Lemma sampleWriter_reachable : writerReachable sampleWriter.
Proof. apply allowed_reachable; [apply writer_new | vm_compute; reflexivity]. Qed.

Lemma buffers_safe_witness : map ck_refs (mw_chunks sampleWriter) = [2; 2] ∧ returns (doWriter (RunWrites 0 true) sampleWriter) (λ _, True).
Proof.
  split; [vm_compute; reflexivity |]. refine (proj1 (buffers_safe sampleWriter (RunWrites 0 true) sampleWriter_reachable _)). vm_compute. reflexivity.
Defined.

Lemma fan_out_witness : ∃ s, mw_all sampleWriter !! 1%nat = Some s ∧ su_given s = [[1; 2]] ∧ givenOf (dataOf sampleWriter) s ++ map (dataOf sampleWriter) (su_ch s) = [[1; 2]; [3]] ∧
  logged sampleWriter 1 s.
Proof.
  destruct (mw_all sampleWriter !! 1%nat) as [s |] eqn:E; [| vm_compute in E; discriminate E]. exists s. split; [reflexivity |].
  assert (su_given s = [[1; 2]] ∧ givenOf (dataOf sampleWriter) s ++ map (dataOf sampleWriter) (su_ch s) = [[1; 2]; [3]]) as [H1 H2]
    by (vm_compute in E; injection E as <-; split; vm_compute; reflexivity).
  split; [exact H1 |]. split; [exact H2 |]. exact (proj1 (fan_out sampleWriter 1 s sampleWriter_reachable E)).
Defined.

Lemma write_returns_witness : canWriter Enqueues sampleWriter = true ∧ writeLeft sampleWriter = 3%nat ∧
  returns (doWriter Enqueues sampleWriter) (λ d, (writeLeft d < 3)%nat).
Proof.
  assert (notWriting sampleWriter = false) as Hn by (vm_compute; reflexivity). pose proof (write_returns sampleWriter sampleWriter_reachable Hn) as (H1 & H2 & _).
  split; [exact H1 |]. split; [vm_compute; reflexivity | exact H2].
Defined.

(** Its writer fails while it has a buffer left. *)
Definition failingSteps : list writerStep := sampleSteps ++ [Enqueues; RunReceives 1; RunWrites 1 false; RunFails 1].
Lemma closed_subscriber_ends_witness : canWriter (RunDrains 1) (runWriter failingSteps NewDynamicMultiWriter) = true ∧
  returns (doWriter (RunDrains 1) (runWriter failingSteps NewDynamicMultiWriter)) (λ d, ∃ s, mw_all d !! 1%nat = Some s ∧ (runnerLeft s < 6)%nat).
Proof.
  assert (writerReachable (runWriter failingSteps NewDynamicMultiWriter)) as Hr by (apply allowed_reachable; [apply writer_new | vm_compute; reflexivity]).
  destruct (mw_all (runWriter failingSteps NewDynamicMultiWriter) !! 1%nat) as [s |] eqn:E; [| vm_compute in E; discriminate E].
  assert (su_closed s = true ∧ runnerLeft s = 6%nat) as [Hc Hleft] by (vm_compute in E; injection E as <-; split; vm_compute; reflexivity).
  assert (canWriter (RunDrains 1) (runWriter failingSteps NewDynamicMultiWriter) = true) as Hcan by (vm_compute; reflexivity).
  split; [exact Hcan |]. eapply safe_mono; [exact (proj2 (closed_subscriber_ends _ 1 s Hr E Hc) (RunDrains 1) Hcan) |].
  intros d (s' & Hs' & _ & Hlt). exists s'. split; [exact Hs' |].
  assert (isRunner 1 (RunDrains 1) = true) as Er by reflexivity. rewrite Er, Hleft in Hlt. exact Hlt.
Defined.
