(* ===== verification/Config.v ===== *)
(** * The configuration

    [internal/config]: [channel.go], [system.go], [tuners.go], [remotes.go] and
    [config.go], from the data the YAML library yields to the configuration the
    program runs with.  The file system, [sigs.k8s.io/yaml], [net/url]'s parser and
    the quoting of [fmt]'s [%q] are parameters: a parser of each file's type, which
    may fail, and which starts from the defaults where the code passes them.

    The code checks each entry and rewrites it in place.  The theorems set it against
    the list of the rules an entry has to obey: which configurations are accepted,
    what is reported of the others, and what an accepted configuration looks like to
    the rest of the program. *)

From S2P Require Import Prelude.

Section Config.

(** What YAML may put in a map of command variables besides strings. *)
Context {yamlValue : Type}.

(** The dynamic types of the values of [map[string]any]: those that YAML yields and
    those that the code puts there. *)
Inductive any : Type :=
| AnyString (s : string)
| AnyUint8 (n : Z)
| AnyUint32 (n : Z)
| AnyYaml (v : yamlValue).

Abbreviation commandVars := (gmap string any).

(** ** Channels and their routes *)

Record ChannelRouteConfig : Type := MkRouteConfig {
  rc_Id : string;
  rc_Remote : string;
  rc_Type : string;
  rc_Channel : string;
  rc_ServiceId : option Z;
  rc_TsmfRelTs : option Z;
  rc_CommandVars : option commandVars;
  rc_IsDisabled : option bool;
  rc_Priority : option Z
}.

Record ChannelConfig : Type := MkChannelConfig {
  cc_Name : string;
  cc_Type : string;
  cc_Channel : string;
  cc_ServiceId : option Z;
  cc_TsmfRelTs : option Z;
  cc_CommandVars : option commandVars;
  cc_IsDisabled : option bool;
  cc_Satelite : option string;
  cc_Satellite : option string;
  cc_Space : option Z;
  cc_Freq : option Z;
  cc_Polarity : option string;
  cc_Routes : list ChannelRouteConfig
}.

Definition IsChannelDisabled (channel : ChannelConfig) : bool :=
  match cc_IsDisabled channel with Some b => b | None => false end.

(** [RouteChannelConfig]: the channel a route tunes to. *)
Definition RouteChannelConfig (c : ChannelConfig) (route : ChannelRouteConfig) : ChannelConfig :=
  MkChannelConfig (cc_Name c) (rc_Type route) (rc_Channel route) (rc_ServiceId route) (rc_TsmfRelTs route) (rc_CommandVars route)
    (rc_IsDisabled route) (cc_Satelite c) (cc_Satellite c) (cc_Space c) (cc_Freq c) (cc_Polarity c) [].

Definition RoutesOrDefault (c : ChannelConfig) : list ChannelRouteConfig :=
  match cc_Routes c with
  | [] => [MkRouteConfig "default" "" (cc_Type c) (cc_Channel c) (cc_ServiceId c) (cc_TsmfRelTs c) (cc_CommandVars c) (cc_IsDisabled c) None]
  | routes => routes
  end.

Definition empty (s : string) : bool := bool_decide (s = "").
Definition given {A} (x : option A) : bool := match x with Some _ => true | None => false end.

(** The two checks of a TSMF number. *)
Definition tsmfAlone (tsmf service : option Z) : bool := given tsmf && negb (given service).
Definition tsmfTooLarge (tsmf : option Z) : bool := match tsmf with Some n => 0x0f <? n | None => false end.

Definition routeId (r : ChannelRouteConfig) : string :=
  if empty (rc_Id r) then
    if empty (rc_Remote r) then rc_Type r +:+ ":" +:+ rc_Channel r
    else rc_Remote r +:+ ":" +:+ rc_Type r +:+ ":" +:+ rc_Channel r
  else rc_Id r.

(** One turn of the loop of [normalizeRoutes], with the identifiers seen. *)
Definition normalizeRoute (seen : gset string) (r : ChannelRouteConfig) : outcome (ChannelRouteConfig * gset string) :=
  _ ← errorIf (empty (rc_Type r)) (ErrNew "route type is required");
  _ ← errorIf (empty (rc_Channel r)) (ErrNew "route channel is required");
  let id := routeId r in
  _ ← errorIf (bool_decide (id ∈ seen)) (ErrNew "duplicate route id");
  _ ← errorIf (tsmfAlone (rc_TsmfRelTs r) (rc_ServiceId r)) (ErrNew "serviceId is required when route tsmfRelTs is set");
  _ ← errorIf (tsmfTooLarge (rc_TsmfRelTs r)) (ErrNew "route tsmfRelTs must be between 0 and 15");
  Ret (MkRouteConfig id (rc_Remote r) (rc_Type r) (rc_Channel r) (rc_ServiceId r) (rc_TsmfRelTs r)
         (Some (default ∅ (rc_CommandVars r))) (Some (default false (rc_IsDisabled r))) (rc_Priority r), {[id]} ∪ seen).

Fixpoint normalizeRoutes (seen : gset string) (routes : list ChannelRouteConfig) : outcome (list ChannelRouteConfig) :=
  match routes with
  | [] => Ret []
  | r :: routes =>
      '(r, seen) ← normalizeRoute seen r;
      routes ← normalizeRoutes seen routes;
      Ret (r :: routes)
  end.

(** [config[i].CommandVars[name] = *value]. *)
Definition move {A} (name : string) (wrap : A → any) (value : option A) (vars : commandVars) : commandVars :=
  match value with Some x => <[name := wrap x]> vars | None => vars end.

(** One turn of the loop of [LoadAndParseChannelsConfig]. *)
Definition normalizeChannel (c : ChannelConfig) : outcome ChannelConfig :=
  _ ← errorIf (empty (cc_Name c)) (ErrNew "channel name is required");
  _ ← errorIf (empty (cc_Type c)) (ErrNew "channel type is required");
  _ ← errorIf (empty (cc_Channel c)) (ErrNew "channel symbol is required");
  _ ← errorIf (tsmfAlone (cc_TsmfRelTs c) (cc_ServiceId c)) (ErrNew "serviceId is required when tsmfRelTs is set");
  _ ← errorIf (tsmfTooLarge (cc_TsmfRelTs c)) (ErrNew "tsmfRelTs must be between 0 and 15");
  _ ← errorIf (given (cc_CommandVars c) && (given (cc_Satelite c) || given (cc_Satellite c) || given (cc_Space c) || given (cc_Freq c) || given (cc_Polarity c)))
        (ErrNew "commandVars cannot be used with satelite, satellite, space, freq, or polarity");
  let vars := default ∅ (cc_CommandVars c) in
  let vars := move "satellite" AnyString (cc_Satelite c) vars in
  let vars := move "satellite" AnyString (cc_Satellite c) vars in
  let vars := move "space" AnyUint8 (cc_Space c) vars in
  let vars := move "freq" AnyUint32 (cc_Freq c) vars in
  let vars := move "polarity" AnyString (cc_Polarity c) vars in
  routes ← normalizeRoutes ∅ (cc_Routes c);
  Ret (MkChannelConfig (cc_Name c) (cc_Type c) (cc_Channel c) (cc_ServiceId c) (cc_TsmfRelTs c) (Some vars) (Some (default false (cc_IsDisabled c)))
         None None None None None routes).

Fixpoint normalizeChannels (config : list ChannelConfig) : outcome (list ChannelConfig) :=
  match config with
  | [] => Ret []
  | c :: config => c ← normalizeChannel c; config ← normalizeChannels config; Ret (c :: config)
  end.

(** ** The system *)

Record ServerAddress : Type := MkAddress { sa_Http : string; sa_Unix : string }.
Record JobScheduleConfig : Type := MkSchedule { js_Key : string; js_Schedule : string }.

Record ObservabilityConfig : Type := MkObservability {
  ob_ServiceName : string;
  ob_Endpoint : string;
  ob_Headers : gmap string string;
  ob_Logs : bool;
  ob_Traces : bool;
  ob_Metrics : bool
}.

Record SystemConfig : Type := MkSystem {
  sy_Addresses : list ServerAddress;
  sy_LogLevel : string;
  sy_Observability : ObservabilityConfig;
  sy_MaxConcurrentJobs : Z;
  sy_Jobs : list JobScheduleConfig;
  sy_DatabasePath : string;
  sy_DataBroadcastCachePath : string;
  sy_DataBroadcastCacheBytes : Z;
  sy_DataBroadcastCacheMaxAgeDays : Z;
  sy_EpgRetentionDays : Z;
  sy_EpgRetrievalTime : Z;
  sy_EpgStaleAfter : Z;
  sy_LogoGatherTimeout : Z;
  sy_ServiceScanTimeout : Z
}.

(** The configuration an empty file stands for. *)
Definition defaultSystem : SystemConfig :=
  MkSystem [] "" (MkObservability "" "" ∅ false false false) 1 [] "./db/mahiron.db" "./db/data-broadcast-cache.db" (128 * 1024 * 1024) 14 3 600000 7200000
    1200000 30000.

(** [url.Parse], which yields a scheme and a host or an error. *)
Variable urlParse : string → option (string * string).

Definition endpointOk (endpoint : string) : bool :=
  match urlParse endpoint with
  | Some (scheme, host) => (bool_decide (scheme = "http") || bool_decide (scheme = "https")) && negb (empty host)
  | None => false
  end.

Fixpoint checkAddresses (addresses : list ServerAddress) : outcome unit :=
  match addresses with
  | [] => Ret tt
  | addr :: addresses =>
      _ ← errorIf (empty (sa_Http addr) && empty (sa_Unix addr)) (ErrNew "at least one address is required");
      _ ← errorIf (negb (empty (sa_Http addr)) && negb (empty (sa_Unix addr))) (ErrNew "only one address type is allowed");
      checkAddresses addresses
  end.

Definition logLevels : list string := ["debug"; "info"; "warn"; "error"].

Definition orElse (s replacement : string) : string := if empty s then replacement else s.

(** [LoadAndParseSystemConfig], after the file is parsed. *)
Definition checkSystem (config : SystemConfig) : outcome SystemConfig :=
  let addresses := match sy_Addresses config with [] => [MkAddress "localhost:40772" ""] | l => l end in
  _ ← checkAddresses addresses;
  let level := orElse (sy_LogLevel config) "info" in
  let ob := sy_Observability config in
  let ob := MkObservability (orElse (ob_ServiceName ob) "mahiron") (ob_Endpoint ob) (ob_Headers ob) (ob_Logs ob) (ob_Traces ob) (ob_Metrics ob) in
  _ ← errorIf (negb (empty (ob_Endpoint ob)) && negb (endpointOk (ob_Endpoint ob)))
        (ErrNew "observability endpoint must be a URL like http://localhost:4318");
  _ ← errorIf (negb (bool_decide (level ∈ logLevels))) (ErrNew "invalid log level");
  _ ← errorIf ((sy_MaxConcurrentJobs config <? 1) || (100 <? sy_MaxConcurrentJobs config)) (ErrNew "maxConcurrentJobs must be between 1 and 100");
  _ ← errorIf (sy_EpgRetentionDays config <? 0) (ErrNew "epgRetentionDays must be >= 0 (0 = unlimited)");
  _ ← errorIf (sy_DataBroadcastCacheMaxAgeDays config <? 0) (ErrNew "dataBroadcastCacheMaxAgeDays must be >= 0 (0 = unlimited)");
  _ ← errorIf (sy_EpgRetrievalTime config <? 5000) (ErrNew "epgRetrievalTime must be >= 5000");
  _ ← errorIf (sy_EpgStaleAfter config <=? 0) (ErrNew "epgStaleAfter must be > 0");
  _ ← errorIf (sy_LogoGatherTimeout config <=? 0) (ErrNew "logoGatherTimeout must be > 0");
  _ ← errorIf (sy_ServiceScanTimeout config <? 5000) (ErrNew "serviceScanTimeout must be >= 5000");
  Ret (MkSystem addresses level ob (sy_MaxConcurrentJobs config) (sy_Jobs config) (sy_DatabasePath config) (sy_DataBroadcastCachePath config)
         (sy_DataBroadcastCacheBytes config) (sy_DataBroadcastCacheMaxAgeDays config) (sy_EpgRetentionDays config) (sy_EpgRetrievalTime config)
         (sy_EpgStaleAfter config) (sy_LogoGatherTimeout config) (sy_ServiceScanTimeout config)).

(** ** Tuners *)

Record TunerConfig : Type := MkTunerConfig {
  tu_Name : string;
  tu_Types : list string;
  tu_Command : string;
  tu_DvbDevicePath : string;
  tu_Decoder : string;
  tu_IsDisabled : bool;
  tu_StartupRetryMax : Z;
  tu_StartupTimeout : Z;
  tu_StartupRetryDelay : Z
}.

(** [TunersConfig] is a list of pointers: an entry may be nil. *)
Definition TunersConfig : Type := list (option TunerConfig).

Definition checkTuner (tuner : TunerConfig) : outcome unit :=
  _ ← errorIf (empty (tu_Name tuner)) (ErrNew "tuner name is required");
  _ ← errorIf (empty (tu_Command tuner)) (ErrNew "command is required");
  _ ← errorIf (negb (empty (tu_DvbDevicePath tuner)) && empty (tu_Command tuner)) (ErrNew "dvbDevicePath is only allowed when command is set");
  _ ← errorIf (bool_decide (tu_Types tuner = [])) (ErrNew "at least one types is required");
  _ ← errorIf (tu_StartupRetryMax tuner <? 0) (ErrNew "startupRetryMax must be >= 0");
  _ ← errorIf (tu_StartupTimeout tuner <? 0) (ErrNew "startupTimeout must be >= 0");
  errorIf (tu_StartupRetryDelay tuner <? 0) (ErrNew "startupRetryDelay must be >= 0").

Fixpoint checkTuners (config : TunersConfig) : outcome unit :=
  match config with
  | [] => Ret tt
  | None :: _ => Panic
  | Some tuner :: config => _ ← checkTuner tuner; checkTuners config
  end.

(** ** Remotes *)

Record BasicAuthConfig : Type := MkAuth { au_Username : string; au_Password : string }.
Record RemoteConfig : Type := MkRemote { re_Name : string; re_URL : string; re_BasicAuth : option BasicAuthConfig }.

Definition authIncomplete (auth : option BasicAuthConfig) : bool :=
  match auth with Some a => empty (au_Username a) || empty (au_Password a) | None => false end.

Fixpoint checkRemotes (seen : gset string) (config : list RemoteConfig) : outcome unit :=
  match config with
  | [] => Ret tt
  | remote :: config =>
      _ ← errorIf (empty (re_Name remote)) (ErrNew "remote name is required");
      _ ← errorIf (bool_decide (re_Name remote ∈ seen)) (ErrNew "duplicate remote name");
      _ ← errorIf (empty (re_URL remote)) (ErrNew "remote url is required");
      _ ← errorIf (authIncomplete (re_BasicAuth remote)) (ErrNew "remote basicAuth username and password are required");
      checkRemotes ({[re_Name remote]} ∪ seen) config
  end.

Fixpoint getRemote (c : list RemoteConfig) (name : string) : option RemoteConfig :=
  match c with
  | [] => None
  | remote :: c => if bool_decide (re_Name remote = name) then Some remote else getRemote c name
  end.

(** ** The files *)

Variable readFile : string → outcome string.
Variable unmarshalChannels : string → outcome (list ChannelConfig).
Variable unmarshalSystem : string → SystemConfig → outcome SystemConfig.
Variable unmarshalTuners : string → outcome TunersConfig.
Variable unmarshalRemotes : string → outcome (list RemoteConfig).

Definition LoadAndParseChannelsConfig (filePath : string) : outcome (list ChannelConfig) :=
  file ← readFile filePath;
  config ← unmarshalChannels file;
  _ ← errorIf (bool_decide (config = [])) (ErrNew "at least one channel is required");
  normalizeChannels config.

Definition LoadAndParseSystemConfig (filePath : string) : outcome SystemConfig :=
  file ← readFile filePath;
  config ← unmarshalSystem file defaultSystem;
  checkSystem config.

Definition LoadAndParseTunersConfig (filePath : string) : outcome TunersConfig :=
  file ← readFile filePath;
  config ← unmarshalTuners file;
  _ ← errorIf (bool_decide (config = [])) (ErrNew "at least one tuner is required");
  _ ← checkTuners config;
  Ret config.

Definition LoadAndParseRemotesConfig (filePath : string) : outcome (list RemoteConfig) :=
  file ← readFile filePath;
  config ← unmarshalRemotes file;
  _ ← checkRemotes ∅ config;
  Ret config.

(** [loadRemotesForChannels]. *)
Definition needsRemotes (channels : list ChannelConfig) : bool :=
  existsb (λ c, existsb (λ route, negb (empty (rc_Remote route))) (RoutesOrDefault c)) channels.

(** [%q]. *)
Variable quoted : string → string.

Definition notConfigured (name : string) : error := ErrNew ("remote " +:+ quoted name +:+ " is not configured").

Fixpoint checkRouteRemotes (remotes : list RemoteConfig) (routes : list ChannelRouteConfig) : outcome unit :=
  match routes with
  | [] => Ret tt
  | route :: routes =>
      if empty (rc_Remote route) then checkRouteRemotes remotes routes
      else match getRemote remotes (rc_Remote route) with
           | None => Err (notConfigured (rc_Remote route))
           | Some _ => checkRouteRemotes remotes routes
           end
  end.

Fixpoint checkChannelRemotes (remotes : list RemoteConfig) (channels : list ChannelConfig) : outcome unit :=
  match channels with
  | [] => Ret tt
  | c :: channels => _ ← checkRouteRemotes remotes (RoutesOrDefault c); checkChannelRemotes remotes channels
  end.

Definition loadRemotesForChannels (filePath : string) (channels : list ChannelConfig) : outcome (list RemoteConfig) :=
  match LoadAndParseRemotesConfig filePath with
  | Err ErrNotExist => if needsRemotes channels then Err ErrNotExist else Ret []
  | Ret remotes => _ ← checkChannelRemotes remotes channels; Ret remotes
  | m => m
  end.

Record Config : Type := MkConfig {
  cf_Channels : list ChannelConfig;
  cf_Remotes : list RemoteConfig;
  cf_System : SystemConfig;
  cf_Tuners : TunersConfig
}.

(** [filepath.Join]. *)
Variable joinPath : string → string → string.

Definition LoadAndParseConfigFromDir (configDir : string) : outcome Config :=
  channels ← LoadAndParseChannelsConfig (joinPath configDir "channels.yml");
  system ← LoadAndParseSystemConfig (joinPath configDir "server.yml");
  tuners ← LoadAndParseTunersConfig (joinPath configDir "tuners.yml");
  remotes ← loadRemotesForChannels (joinPath configDir "remotes.yml") channels;
  Ret (MkConfig channels remotes system tuners).

(** ** The rules

    A rule that is broken is reported, or stops the program. *)

Inductive problem : Type := Reports (e : error) | Crashes.
Definition rule : Type := bool * problem.
Definition says (broken : bool) (message : string) : rule := (broken, Reports (ErrNew message)).

(** The first broken rule. *)
Definition verdict (rules : list rule) : outcome unit :=
  match list_find (λ r : rule, r.1 = true) rules with
  | None => Ret tt
  | Some (_, (_, Reports e)) => Err e
  | Some (_, (_, Crashes)) => Panic
  end.

(** The rules of the items of a list, each with those before it. *)
Fixpoint inOrder {A} (rules : list A → A → list rule) (before l : list A) : list rule :=
  match l with [] => [] | x :: l => rules before x ++ inOrder rules (before ++ [x]) l end.

Definition routeRules (before : list ChannelRouteConfig) (r : ChannelRouteConfig) : list rule :=
  [says (empty (rc_Type r)) "route type is required";
   says (empty (rc_Channel r)) "route channel is required";
   says (bool_decide (routeId r ∈ map routeId before)) "duplicate route id";
   says (tsmfAlone (rc_TsmfRelTs r) (rc_ServiceId r)) "serviceId is required when route tsmfRelTs is set";
   says (tsmfTooLarge (rc_TsmfRelTs r)) "route tsmfRelTs must be between 0 and 15"].

(** A deprecated setting. *)
Definition deprecated (c : ChannelConfig) : bool :=
  given (cc_Satelite c) || given (cc_Satellite c) || given (cc_Space c) || given (cc_Freq c) || given (cc_Polarity c).

Definition channelRules (_ : list ChannelConfig) (c : ChannelConfig) : list rule :=
  [says (empty (cc_Name c)) "channel name is required";
   says (empty (cc_Type c)) "channel type is required";
   says (empty (cc_Channel c)) "channel symbol is required";
   says (tsmfAlone (cc_TsmfRelTs c) (cc_ServiceId c)) "serviceId is required when tsmfRelTs is set";
   says (tsmfTooLarge (cc_TsmfRelTs c)) "tsmfRelTs must be between 0 and 15";
   says (given (cc_CommandVars c) && deprecated c) "commandVars cannot be used with satelite, satellite, space, freq, or polarity"] ++
  inOrder routeRules [] (cc_Routes c).

Definition channelsRules (config : list ChannelConfig) : list rule :=
  says (bool_decide (config = [])) "at least one channel is required" :: inOrder channelRules [] config.

Definition addressRules (_ : list ServerAddress) (addr : ServerAddress) : list rule :=
  [says (empty (sa_Http addr) && empty (sa_Unix addr)) "at least one address is required";
   says (negb (empty (sa_Http addr)) && negb (empty (sa_Unix addr))) "only one address type is allowed"].

Definition systemRules (s : SystemConfig) : list rule :=
  inOrder addressRules [] (sy_Addresses s) ++
  [says (negb (empty (ob_Endpoint (sy_Observability s))) && negb (endpointOk (ob_Endpoint (sy_Observability s))))
     "observability endpoint must be a URL like http://localhost:4318";
   says (negb (bool_decide (sy_LogLevel s ∈ logLevels)) && negb (empty (sy_LogLevel s))) "invalid log level";
   says ((sy_MaxConcurrentJobs s <? 1) || (100 <? sy_MaxConcurrentJobs s)) "maxConcurrentJobs must be between 1 and 100";
   says (sy_EpgRetentionDays s <? 0) "epgRetentionDays must be >= 0 (0 = unlimited)";
   says (sy_DataBroadcastCacheMaxAgeDays s <? 0) "dataBroadcastCacheMaxAgeDays must be >= 0 (0 = unlimited)";
   says (sy_EpgRetrievalTime s <? 5000) "epgRetrievalTime must be >= 5000";
   says (sy_EpgStaleAfter s <=? 0) "epgStaleAfter must be > 0";
   says (sy_LogoGatherTimeout s <=? 0) "logoGatherTimeout must be > 0";
   says (sy_ServiceScanTimeout s <? 5000) "serviceScanTimeout must be >= 5000"].

(** An entry that is null stops the program; the rule on [dvbDevicePath] is never the
    first to be broken. *)
Definition tunerRules (_ : TunersConfig) (entry : option TunerConfig) : list rule :=
  match entry with
  | None => [(true, Crashes)]
  | Some t =>
      [says (empty (tu_Name t)) "tuner name is required";
       says (empty (tu_Command t)) "command is required";
       says (bool_decide (tu_Types t = [])) "at least one types is required";
       says (tu_StartupRetryMax t <? 0) "startupRetryMax must be >= 0";
       says (tu_StartupTimeout t <? 0) "startupTimeout must be >= 0";
       says (tu_StartupRetryDelay t <? 0) "startupRetryDelay must be >= 0"]
  end.

Definition tunersRules (config : TunersConfig) : list rule :=
  says (bool_decide (config = [])) "at least one tuner is required" :: inOrder tunerRules [] config.

Definition remoteRules (before : list RemoteConfig) (r : RemoteConfig) : list rule :=
  [says (empty (re_Name r)) "remote name is required";
   says (bool_decide (re_Name r ∈ map re_Name before)) "duplicate remote name";
   says (empty (re_URL r)) "remote url is required";
   says (authIncomplete (re_BasicAuth r)) "remote basicAuth username and password are required"].

(** The routes of all channels, those they have by default included. *)
Definition allRoutes (channels : list ChannelConfig) : list ChannelRouteConfig := concat (map RoutesOrDefault channels).

Definition referenceRules (remotes : list RemoteConfig) (route : ChannelRouteConfig) : list rule :=
  [(negb (empty (rc_Remote route)) && negb (bool_decide (rc_Remote route ∈ map re_Name remotes)), Reports (notConfigured (rc_Remote route)))].

(** ** What the entries become *)

Definition normalRoute (r : ChannelRouteConfig) : ChannelRouteConfig :=
  MkRouteConfig (routeId r) (rc_Remote r) (rc_Type r) (rc_Channel r) (rc_ServiceId r) (rc_TsmfRelTs r)
    (Some (default ∅ (rc_CommandVars r))) (Some (default false (rc_IsDisabled r))) (rc_Priority r).

(** The command variables: those given, and the deprecated settings. *)
Definition movedVars (c : ChannelConfig) : commandVars :=
  list_to_map (omap id
    [pair "polarity" ∘ AnyString <$> cc_Polarity c; pair "freq" ∘ AnyUint32 <$> cc_Freq c; pair "space" ∘ AnyUint8 <$> cc_Space c;
     pair "satellite" ∘ AnyString <$> cc_Satellite c; pair "satellite" ∘ AnyString <$> cc_Satelite c]) ∪ default ∅ (cc_CommandVars c).

Definition normalChannel (c : ChannelConfig) : ChannelConfig :=
  MkChannelConfig (cc_Name c) (cc_Type c) (cc_Channel c) (cc_ServiceId c) (cc_TsmfRelTs c) (Some (movedVars c)) (Some (default false (cc_IsDisabled c)))
    None None None None None (map normalRoute (cc_Routes c)).

Definition normalSystem (s : SystemConfig) : SystemConfig :=
  let ob := sy_Observability s in
  MkSystem (match sy_Addresses s with [] => [MkAddress "localhost:40772" ""] | l => l end) (orElse (sy_LogLevel s) "info")
    (MkObservability (orElse (ob_ServiceName ob) "mahiron") (ob_Endpoint ob) (ob_Headers ob) (ob_Logs ob) (ob_Traces ob) (ob_Metrics ob))
    (sy_MaxConcurrentJobs s) (sy_Jobs s) (sy_DatabasePath s) (sy_DataBroadcastCachePath s) (sy_DataBroadcastCacheBytes s) (sy_DataBroadcastCacheMaxAgeDays s)
    (sy_EpgRetentionDays s) (sy_EpgRetrievalTime s) (sy_EpgStaleAfter s) (sy_LogoGatherTimeout s) (sy_ServiceScanTimeout s).

(** A file, judged by rules. *)
Definition judged {A} (parsed : outcome A) (rules : A → list rule) (become : A → A) : outcome A :=
  raw ← parsed; _ ← verdict (rules raw); Ret (become raw).
Definition parsed {A} (path : string) (unmarshal : string → outcome A) : outcome A := file ← readFile path; unmarshal file.

Definition judgedRemotes (path : string) (channels : list ChannelConfig) : outcome (list RemoteConfig) :=
  match judged (parsed path unmarshalRemotes) (inOrder remoteRules []) id with
  | Err ErrNotExist => if existsb (λ r, negb (empty (rc_Remote r))) (allRoutes channels) then Err ErrNotExist else Ret []
  | m => remotes ← m; _ ← verdict (concat (map (referenceRules remotes) (allRoutes channels))); Ret remotes
  end.

(** ** Judging *)

Lemma verdict_cons r rules :
  verdict (r :: rules) = if r.1 then match r.2 with Reports e => Err e | Crashes => Panic end else verdict rules.
Proof.
  unfold verdict. destruct r as [[] p]; cbn; [by destruct p |]. destruct (list_find _ rules) as [[i [b q]] |]; [by destruct q | done].
Qed.

Lemma verdict_says b message rules : verdict (says b message :: rules) = (_ ← errorIf b (ErrNew message); verdict rules).
Proof. rewrite verdict_cons. by destruct b. Qed.

Lemma verdict_app rules more : verdict (rules ++ more) = (_ ← verdict rules; verdict more).
Proof.
  induction rules as [| r rules IH]; [done |]. cbn [app]. rewrite !verdict_cons, IH. destruct r as [[] p]; cbn; [by destruct p | done].
Qed.

Lemma verdict_ok rules : verdict rules = Ret tt ↔ Forall (λ r : rule, r.1 = false) rules.
Proof.
  induction rules as [| r rules IH]; [by split; [constructor |] |]. rewrite verdict_cons, Forall_cons, <- IH. destruct r as [[] p]; cbn; [| by intuition].
  split; [by destruct p | by intros [? _]].
Qed.

(** A loop that checks its items one after the other is judged by their rules. *)
Lemma judged_loop {A B} (rules : list A → A → list rule) (check : list A → A → outcome B) (run : list A → list A → outcome (list B)) (become : A → B) :
  (∀ before, run before [] = Ret []) →
  (∀ before x l, run before (x :: l) = (y ← check before x; ys ← run (before ++ [x]) l; Ret (y :: ys))) →
  (∀ before x, check before x = (_ ← verdict (rules before x); Ret (become x))) →
  ∀ l before, run before l = (_ ← verdict (inOrder rules before l); Ret (map become l)).
Proof.
  intros Hnil Hcons Hcheck l. induction l as [| x l IH]; intros before; [apply Hnil |]. rewrite Hcons, Hcheck. cbn [inOrder map]. rewrite verdict_app, IH, !bind_assoc.
  destruct (verdict (rules before x)); try done. cbn. by destruct (verdict (inOrder rules (before ++ [x]) l)).
Qed.

Lemma checked_loop {A} (rules : list A → A → list rule) (run : list A → list A → outcome unit) :
  (∀ before, run before [] = Ret tt) →
  (∀ before x l, run before (x :: l) = (_ ← verdict (rules before x); run (before ++ [x]) l)) →
  ∀ l before, run before l = verdict (inOrder rules before l).
Proof. intros Hnil Hcons l. induction l as [| x l IH]; intros before; [apply Hnil |]. cbn [inOrder]. by rewrite Hcons, verdict_app, IH. Qed.

(** *** Channels *)

Definition idsOf (before : list ChannelRouteConfig) : gset string := list_to_set (map routeId before).

Lemma idsOf_snoc before r : idsOf (before ++ [r]) = {[routeId r]} ∪ idsOf before.
Proof. unfold idsOf. rewrite map_app, list_to_set_app_L. cbn. set_solver. Qed.

Lemma normalizeRoute_eq before r :
  normalizeRoute (idsOf before) r = (_ ← verdict (routeRules before r); Ret (normalRoute r, idsOf (before ++ [r]))).
Proof.
  unfold normalizeRoute, routeRules. rewrite !verdict_says, idsOf_snoc. rewrite !bind_assoc.
  assert (bool_decide (routeId r ∈ idsOf before) = bool_decide (routeId r ∈ map routeId before)) as ->.
  { apply bool_decide_ext. unfold idsOf. by rewrite elem_of_list_to_set. }
  unfold errorIf. destruct (empty (rc_Type r)), (empty (rc_Channel r)), (bool_decide _), (tsmfAlone _ _), (tsmfTooLarge _); done.
Qed.

Lemma normalizeRoutes_eq routes : normalizeRoutes ∅ routes = (_ ← verdict (inOrder routeRules [] routes); Ret (map normalRoute routes)).
Proof.
  refine (judged_loop routeRules (λ before r, fst <$> normalizeRoute (idsOf before) r) (λ before l, normalizeRoutes (idsOf before) l) normalRoute _ _ _ routes []);
    [done | |].
  - intros before r l. cbn [normalizeRoutes]. rewrite normalizeRoute_eq. by destruct (verdict (routeRules before r)).
  - intros before r. rewrite normalizeRoute_eq. by destruct (verdict (routeRules before r)).
Qed.

Lemma moved_eq c :
  move "polarity" AnyString (cc_Polarity c) (move "freq" AnyUint32 (cc_Freq c) (move "space" AnyUint8 (cc_Space c)
    (move "satellite" AnyString (cc_Satellite c) (move "satellite" AnyString (cc_Satelite c) (default ∅ (cc_CommandVars c)))))) = movedVars c.
Proof.
  unfold movedVars, move. destruct (cc_Polarity c), (cc_Freq c), (cc_Space c), (cc_Satellite c), (cc_Satelite c); cbn;
    rewrite <- ?insert_union_l; rewrite map_empty_union; done.
Qed.

Lemma normalizeChannel_eq before c : normalizeChannel c = (_ ← verdict (channelRules before c); Ret (normalChannel c)).
Proof.
  unfold normalizeChannel, channelRules. rewrite verdict_app, !verdict_says, !bind_assoc. cbv zeta. rewrite moved_eq, normalizeRoutes_eq.
  unfold errorIf. fold (deprecated c).
  destruct (empty (cc_Name c)), (empty (cc_Type c)), (empty (cc_Channel c)), (tsmfAlone _ _), (tsmfTooLarge _), (given (cc_CommandVars c) && deprecated c); try done.
  cbn. by destruct (verdict (inOrder routeRules [] (cc_Routes c))).
Qed.

Lemma normalizeChannels_eq config : normalizeChannels config = (_ ← verdict (inOrder channelRules [] config); Ret (map normalChannel config)).
Proof.
  refine (judged_loop channelRules (λ _, normalizeChannel) (λ _, normalizeChannels) normalChannel _ _ _ config []); [done | done |].
  intros before c. apply normalizeChannel_eq.
Qed.

Lemma LoadAndParseChannelsConfig_eq path : LoadAndParseChannelsConfig path = judged (parsed path unmarshalChannels) channelsRules (map normalChannel).
Proof.
  unfold LoadAndParseChannelsConfig, judged, parsed. rewrite bind_assoc. destruct (readFile path) as [file | | |]; [| done | done | done]. cbn.
  destruct (unmarshalChannels file) as [raw | | |]; [| done | done | done]. cbn. unfold channelsRules. rewrite verdict_says, bind_assoc.
  destruct (errorIf _ _); [| done | done | done]. apply normalizeChannels_eq.
Qed.

(** *** The other files *)

Lemma checkAddresses_eq l : checkAddresses l = verdict (inOrder addressRules [] l).
Proof.
  refine (checked_loop addressRules (λ _, checkAddresses) _ _ l []); [done |]. intros before addr addresses. unfold addressRules.
  rewrite !verdict_says, !bind_assoc. cbn [checkAddresses]. by destruct (empty (sa_Http addr)), (empty (sa_Unix addr)).
Qed.

Lemma checkSystem_eq s : checkSystem s = (_ ← verdict (systemRules s); Ret (normalSystem s)).
Proof.
  assert (checkAddresses (match sy_Addresses s with [] => [MkAddress "localhost:40772" ""] | l => l end) = verdict (inOrder addressRules [] (sy_Addresses s))) as Ha.
  { rewrite <- checkAddresses_eq. by destruct (sy_Addresses s). }
  assert (negb (bool_decide (orElse (sy_LogLevel s) "info" ∈ logLevels)) = negb (bool_decide (sy_LogLevel s ∈ logLevels)) && negb (empty (sy_LogLevel s))) as Hl.
  { unfold orElse, empty. destruct (decide (sy_LogLevel s = "")) as [He | He]; [by rewrite He |].
    rewrite (bool_decide_eq_false_2 _ He). by rewrite andb_true_r. }
  unfold checkSystem, systemRules. cbv zeta. rewrite Ha, Hl, verdict_app, bind_assoc.
  destruct (verdict (inOrder addressRules [] (sy_Addresses s))); [| done | done | done]. cbn [mbind outcome_bind ob_Endpoint].
  rewrite !verdict_says, !bind_assoc. by repeat (destruct (errorIf _ _); [cbn [mbind outcome_bind] | done | done | done]).
Qed.

Lemma checkTuners_eq l : checkTuners l = verdict (inOrder tunerRules [] l).
Proof.
  refine (checked_loop tunerRules (λ _, checkTuners) _ _ l []); [done |]. intros before [t |] tuners; [| done]. cbn [checkTuners tunerRules]. unfold checkTuner.
  rewrite !verdict_says. destruct (empty (tu_Name t)), (empty (tu_Command t)), (bool_decide (tu_Types t = [])), (tu_StartupRetryMax t <? 0),
    (tu_StartupTimeout t <? 0), (tu_StartupRetryDelay t <? 0), (empty (tu_DvbDevicePath t)); done.
Qed.

Definition namesOf (before : list RemoteConfig) : gset string := list_to_set (map re_Name before).

Lemma checkRemotes_eq l : checkRemotes ∅ l = verdict (inOrder remoteRules [] l).
Proof.
  refine (checked_loop remoteRules (λ before, checkRemotes (namesOf before)) _ _ l []); [done |]. intros before r remotes. cbn [checkRemotes]. unfold remoteRules.
  assert (namesOf (before ++ [r]) = {[re_Name r]} ∪ namesOf before) as -> by (unfold namesOf; rewrite map_app, list_to_set_app_L; cbn; set_solver).
  assert (bool_decide (re_Name r ∈ namesOf before) = bool_decide (re_Name r ∈ map re_Name before)) as ->.
  { apply bool_decide_ext. unfold namesOf. by rewrite elem_of_list_to_set. }
  rewrite !verdict_says, !bind_assoc. destruct (empty (re_Name r)), (bool_decide _), (empty (re_URL r)), (authIncomplete (re_BasicAuth r)); done.
Qed.

Lemma getRemote_Some remotes name : is_Some (getRemote remotes name) ↔ name ∈ map re_Name remotes.
Proof.
  induction remotes as [| r remotes IH]; cbn; [split; [by intros [] | by intros ?%not_elem_of_nil] |]. case_bool_decide as H.
  - rewrite <- H. split; [intros _; apply list_elem_of_here | eauto].
  - rewrite IH, elem_of_cons. naive_solver.
Qed.

Lemma checkRouteRemotes_eq remotes routes : checkRouteRemotes remotes routes = verdict (concat (map (referenceRules remotes) routes)).
Proof.
  induction routes as [| r routes IH]; [done |]. cbn [checkRouteRemotes map concat]. unfold referenceRules at 1. cbn [app]. rewrite verdict_cons, <- IH. cbn.
  destruct (empty (rc_Remote r)); [done |]. cbn. pose proof (getRemote_Some remotes (rc_Remote r)) as H. case_bool_decide as Hin; cbn.
  - apply H in Hin as [x ->]. done.
  - destruct (getRemote remotes (rc_Remote r)); [| done]. exfalso. apply Hin, H. eauto.
Qed.

Lemma checkChannelRemotes_eq remotes channels : checkChannelRemotes remotes channels = verdict (concat (map (referenceRules remotes) (allRoutes channels))).
Proof.
  unfold allRoutes. induction channels as [| c channels IH]; [done |]. cbn [checkChannelRemotes map concat].
  by rewrite checkRouteRemotes_eq, IH, map_app, concat_app, verdict_app.
Qed.

Lemma needsRemotes_eq channels : needsRemotes channels = existsb (λ r, negb (empty (rc_Remote r))) (allRoutes channels).
Proof. unfold needsRemotes, allRoutes. induction channels as [| c channels IH]; [done |]. cbn [existsb map concat]. by rewrite existsb_app, IH. Qed.

Lemma LoadAndParseRemotesConfig_eq path : LoadAndParseRemotesConfig path = judged (parsed path unmarshalRemotes) (inOrder remoteRules []) id.
Proof.
  unfold LoadAndParseRemotesConfig, judged, parsed. rewrite bind_assoc. destruct (readFile path) as [file | | |]; [| done | done | done]. cbn.
  destruct (unmarshalRemotes file) as [raw | | |]; [| done | done | done]. cbn. by rewrite checkRemotes_eq.
Qed.

Lemma loadRemotesForChannels_eq path channels : loadRemotesForChannels path channels = judgedRemotes path channels.
Proof.
  unfold loadRemotesForChannels, judgedRemotes. rewrite LoadAndParseRemotesConfig_eq, needsRemotes_eq.
  destruct (judged _ _ _) as [remotes | e | |]; [| by destruct e | done | done]. cbn. by rewrite checkChannelRemotes_eq.
Qed.

Lemma config_reports_eq dir : LoadAndParseConfigFromDir dir =
  (channels ← judged (parsed (joinPath dir "channels.yml") unmarshalChannels) channelsRules (map normalChannel);
   system ← judged (parsed (joinPath dir "server.yml") (λ file, unmarshalSystem file defaultSystem)) systemRules normalSystem;
   tuners ← judged (parsed (joinPath dir "tuners.yml") unmarshalTuners) tunersRules id;
   remotes ← judgedRemotes (joinPath dir "remotes.yml") channels;
   Ret (MkConfig channels remotes system tuners)).
Proof.
  unfold LoadAndParseConfigFromDir. rewrite LoadAndParseChannelsConfig_eq. destruct (judged _ channelsRules _) as [channels | | |]; [| done | done | done]. cbn.
  assert (∀ path, LoadAndParseSystemConfig path = judged (parsed path (λ file, unmarshalSystem file defaultSystem)) systemRules normalSystem) as ->.
  { intros path. unfold LoadAndParseSystemConfig, judged, parsed. rewrite bind_assoc. destruct (readFile path) as [file | | |]; [| done | done | done]. cbn.
    destruct (unmarshalSystem file defaultSystem); [| done | done | done]. apply checkSystem_eq. }
  destruct (judged _ systemRules _) as [system | | |]; [| done | done | done]. cbn.
  assert (∀ path, LoadAndParseTunersConfig path = judged (parsed path unmarshalTuners) tunersRules id) as ->.
  { intros path. unfold LoadAndParseTunersConfig, judged, parsed. rewrite bind_assoc. destruct (readFile path) as [file | | |]; [| done | done | done]. cbn.
    destruct (unmarshalTuners file) as [raw | | |]; [| done | done | done]. cbn. unfold tunersRules. rewrite verdict_says, bind_assoc.
    destruct (errorIf _ _); [| done | done | done]. cbn. by rewrite checkTuners_eq. }
  destruct (judged _ tunersRules _) as [tuners | | |]; [| done | done | done]. cbn. by rewrite loadRemotesForChannels_eq.
Qed.

(** ** The theorems *)

(** C26 (error): a directory is loaded file by file - channels, system, tuners,
    remotes - and judged by the rules: the first that is broken, in the order of the
    files, their entries and the rules of an entry, is what is reported, whatever
    else is wrong; an entry of tuners.yml that is null stops the program, if nothing
    before it is reported; and a directory none of whose rules is broken is accepted.
    The rule about [dvbDevicePath] is never the one reported. *)
Theorem config_reports dir : LoadAndParseConfigFromDir dir =
  (channels ← judged (parsed (joinPath dir "channels.yml") unmarshalChannels) channelsRules (map normalChannel);
   system ← judged (parsed (joinPath dir "server.yml") (λ file, unmarshalSystem file defaultSystem)) systemRules normalSystem;
   tuners ← judged (parsed (joinPath dir "tuners.yml") unmarshalTuners) tunersRules id;
   remotes ← judgedRemotes (joinPath dir "remotes.yml") channels;
   Ret (MkConfig channels remotes system tuners)).
Proof. apply config_reports_eq. Qed.

(** ** What is accepted *)

Definition tsmf_ok (service tsmf : option Z) : Prop := ∀ n, tsmf = Some n → n ≤ 15 ∧ is_Some service.

Record route_wf (r : ChannelRouteConfig) : Prop := {
  rw_Id : rc_Id r ≠ "";
  rw_Type : rc_Type r ≠ "";
  rw_Channel : rc_Channel r ≠ "";
  rw_Tsmf : tsmf_ok (rc_ServiceId r) (rc_TsmfRelTs r);
  rw_CommandVars : is_Some (rc_CommandVars r);
  rw_IsDisabled : is_Some (rc_IsDisabled r)
}.

Record channel_wf (c : ChannelConfig) : Prop := {
  cw_Name : cc_Name c ≠ "";
  cw_Type : cc_Type c ≠ "";
  cw_Channel : cc_Channel c ≠ "";
  cw_Tsmf : tsmf_ok (cc_ServiceId c) (cc_TsmfRelTs c);
  cw_CommandVars : is_Some (cc_CommandVars c);
  cw_IsDisabled : is_Some (cc_IsDisabled c);
  cw_deprecated : deprecated c = false;
  cw_Routes : Forall route_wf (cc_Routes c);
  cw_ids : NoDup (map rc_Id (cc_Routes c))
}.

Record system_wf (s : SystemConfig) : Prop := {
  sw_Addresses : sy_Addresses s ≠ [] ∧ Forall (λ a, sa_Http a = "" ↔ sa_Unix a ≠ "") (sy_Addresses s);
  sw_LogLevel : sy_LogLevel s ∈ logLevels;
  sw_ServiceName : ob_ServiceName (sy_Observability s) ≠ "";
  sw_Endpoint : ob_Endpoint (sy_Observability s) ≠ "" → endpointOk (ob_Endpoint (sy_Observability s)) = true;
  sw_MaxConcurrentJobs : 1 ≤ sy_MaxConcurrentJobs s ≤ 100;
  sw_Epg : 0 ≤ sy_EpgRetentionDays s ∧ 5000 ≤ sy_EpgRetrievalTime s ∧ 0 < sy_EpgStaleAfter s;
  sw_Cache : 0 ≤ sy_DataBroadcastCacheMaxAgeDays s;
  sw_Timeouts : 0 < sy_LogoGatherTimeout s ∧ 5000 ≤ sy_ServiceScanTimeout s
}.

Record tuner_wf (t : TunerConfig) : Prop := {
  tw_Name : tu_Name t ≠ "";
  tw_Command : tu_Command t ≠ "";
  tw_Types : tu_Types t ≠ [];
  tw_Startup : 0 ≤ tu_StartupRetryMax t ∧ 0 ≤ tu_StartupTimeout t ∧ 0 ≤ tu_StartupRetryDelay t
}.

Record remote_wf (r : RemoteConfig) : Prop := {
  ew_Name : re_Name r ≠ "";
  ew_URL : re_URL r ≠ "";
  ew_BasicAuth : ∀ a, re_BasicAuth r = Some a → au_Username a ≠ "" ∧ au_Password a ≠ ""
}.

Record config_wf (cfg : Config) : Prop := {
  fw_Channels : cf_Channels cfg ≠ [] ∧ Forall channel_wf (cf_Channels cfg);
  fw_System : system_wf (cf_System cfg);
  fw_Tuners : cf_Tuners cfg ≠ [] ∧ Forall (λ e, ∃ t, e = Some t ∧ tuner_wf t) (cf_Tuners cfg);
  fw_Remotes : Forall remote_wf (cf_Remotes cfg) ∧ NoDup (map re_Name (cf_Remotes cfg));
  fw_references : Forall (λ route, rc_Remote route = "" ∨ rc_Remote route ∈ map re_Name (cf_Remotes cfg)) (allRoutes (cf_Channels cfg))
}.

(** What an accepted route keeps of its entry: all that is given; without an
    identifier it is named after its remote, type and channel, without command
    variables it has none, and without a setting it is enabled. *)
Definition carriesRoute (raw r : ChannelRouteConfig) : Prop :=
  rc_Remote r = rc_Remote raw ∧ rc_Type r = rc_Type raw ∧ rc_Channel r = rc_Channel raw ∧ rc_ServiceId r = rc_ServiceId raw ∧
  rc_TsmfRelTs r = rc_TsmfRelTs raw ∧ rc_Priority r = rc_Priority raw ∧
  (rc_Id raw ≠ "" → rc_Id r = rc_Id raw) ∧
  (rc_Id raw = "" → rc_Id r = (if decide (rc_Remote raw = "") then "" else rc_Remote raw +:+ ":") +:+ rc_Type raw +:+ ":" +:+ rc_Channel raw) ∧
  rc_CommandVars r = Some (match rc_CommandVars raw with Some vars => vars | None => ∅ end) ∧
  rc_IsDisabled r = Some (match rc_IsDisabled raw with Some b => b | None => false end).

(** What an accepted channel keeps of the entry in the file: the command variables
    are those given, or else the deprecated settings. *)
Definition carries (raw c : ChannelConfig) : Prop :=
  cc_Name c = cc_Name raw ∧ cc_Type c = cc_Type raw ∧ cc_Channel c = cc_Channel raw ∧ cc_ServiceId c = cc_ServiceId raw ∧
  cc_TsmfRelTs c = cc_TsmfRelTs raw ∧ IsChannelDisabled c = IsChannelDisabled raw ∧
  Forall2 carriesRoute (cc_Routes raw) (cc_Routes c) ∧
  match cc_CommandVars raw with
  | Some vars => cc_CommandVars c = Some vars
  | None => ∃ vars, cc_CommandVars c = Some vars ∧
      vars !! "satellite" = AnyString <$> (if given (cc_Satellite raw) then cc_Satellite raw else cc_Satelite raw) ∧
      vars !! "space" = AnyUint8 <$> cc_Space raw ∧ vars !! "freq" = AnyUint32 <$> cc_Freq raw ∧ vars !! "polarity" = AnyString <$> cc_Polarity raw ∧
      ∀ name, name ∉ ["satellite"; "space"; "freq"; "polarity"] → vars !! name = None
  end.

Abbreviation unbroken := (Forall (λ r : rule, r.1 = false)).

Lemma unbroken_says b message rules : unbroken (says b message :: rules) ↔ b = false ∧ unbroken rules.
Proof. by rewrite Forall_cons. Qed.

Lemma inOrder_unbroken {A} (rules : list A → A → list rule) (P : A → Prop) before l :
  (∀ before x, unbroken (rules before x) → P x) → unbroken (inOrder rules before l) → Forall P l.
Proof.
  intros HP. revert before. induction l as [| x l IH]; intros before; cbn; [constructor |]. rewrite Forall_app. intros [H1 H2].
  constructor; [by eapply HP | by eapply IH].
Qed.

Lemma inOrder_distinct {A} (rules : list A → A → list rule) (key : A → string) before l :
  (∀ before x, unbroken (rules before x) → key x ∉ map key before) → NoDup (map key before) → unbroken (inOrder rules before l) → NoDup (map key (before ++ l)).
Proof.
  intros Hk. revert before. induction l as [| x l IH]; intros before Hd; cbn; [by rewrite app_nil_r |]. rewrite Forall_app. intros [H1 H2].
  rewrite (cons_middle x before l), app_assoc. apply IH; [| done]. rewrite map_app. apply NoDup_app. split; [done |]. split; [| apply NoDup_singleton].
  intros k Hin Hk'. apply list_elem_of_singleton in Hk' as ->. by apply (Hk before x).
Qed.

Lemma empty_false s : empty s = false ↔ s ≠ "".
Proof. apply bool_decide_eq_false. Qed.
Lemma empty_true s : empty s = true ↔ s = "".
Proof. apply bool_decide_eq_true. Qed.

Lemma tsmf_rules service tsmf : tsmfAlone tsmf service = false → tsmfTooLarge tsmf = false → tsmf_ok service tsmf.
Proof.
  intros H1 H2 n ->. cbn in *. apply Z.ltb_ge in H2. destruct service; [split; [done | by eexists] | done].
Qed.

Lemma append_assoc (a b c : string) : (a +:+ b) +:+ c = a +:+ b +:+ c.
Proof. induction a as [| x a IH]; [done |]. change (String.String x ((a +:+ b) +:+ c) = String.String x (a +:+ b +:+ c)). by rewrite IH. Qed.

Lemma append_not_empty a b c : a ≠ "" → a +:+ String b c ≠ "".
Proof. by destruct a. Qed.

Lemma routeId_not_empty r : rc_Type r ≠ "" → routeId r ≠ "".
Proof. intros H. unfold routeId. destruct (empty (rc_Id r)) eqn:E; [| by apply empty_false]. destruct (empty (rc_Remote r)) eqn:E'; [by apply append_not_empty |].
  apply empty_false in E'. by apply append_not_empty. Qed.

Lemma routeRules_wf before r : unbroken (routeRules before r) → route_wf (normalRoute r).
Proof.
  unfold routeRules. rewrite !unbroken_says, !empty_false. intros (H1 & H2 & _ & H4 & H5 & _). constructor; cbn; [by apply routeId_not_empty | done | done | | eauto | eauto].
  by apply tsmf_rules.
Qed.

Lemma routes_distinct routes : unbroken (inOrder routeRules [] routes) → NoDup (map rc_Id (map normalRoute routes)).
Proof.
  intros H. rewrite map_map. apply (inOrder_distinct routeRules routeId [] routes); [| constructor | done]. clear. intros before r. unfold routeRules.
  rewrite !unbroken_says, bool_decide_eq_false. naive_solver.
Qed.

Lemma movedVars_given c vars : cc_CommandVars c = Some vars → deprecated c = false → movedVars c = vars.
Proof.
  intros Hv Hd. unfold deprecated in Hd. unfold movedVars. rewrite Hv. destruct (cc_Satelite c), (cc_Satellite c), (cc_Space c), (cc_Freq c), (cc_Polarity c); try done.
  cbn. apply map_empty_union.
Qed.

Lemma movedVars_deprecated c name : cc_CommandVars c = None → movedVars c !! name =
  if decide (name = "polarity") then AnyString <$> cc_Polarity c else if decide (name = "freq") then AnyUint32 <$> cc_Freq c
  else if decide (name = "space") then AnyUint8 <$> cc_Space c
  else if decide (name = "satellite") then AnyString <$> (if given (cc_Satellite c) then cc_Satellite c else cc_Satelite c) else None.
Proof.
  intros Hv. unfold movedVars. rewrite Hv. cbn [default]. rewrite map_union_empty.
  destruct (cc_Satelite c), (cc_Satellite c), (cc_Space c), (cc_Freq c), (cc_Polarity c); cbn; repeat case_decide; subst; by simplify_map_eq.
Qed.

Lemma normalRoute_carries r : carriesRoute r (normalRoute r).
Proof.
  unfold carriesRoute, normalRoute, routeId, empty. cbn. split_and!; try done.
  - intros Hid. by rewrite bool_decide_eq_false_2.
  - intros Hid. rewrite bool_decide_eq_true_2 by done. case_decide; [by rewrite bool_decide_eq_true_2 |]. rewrite bool_decide_eq_false_2 by done. symmetry. apply append_assoc.
Qed.

Lemma normalChannel_carries before c : unbroken (channelRules before c) → channel_wf (normalChannel c) ∧ carries c (normalChannel c).
Proof.
  unfold channelRules. cbn [app]. rewrite !unbroken_says, !empty_false. intros (H1 & H2 & H3 & H4 & H5 & H6 & H7). split.
  - constructor; cbn; [done | done | done | by apply tsmf_rules | eauto | eauto | done | | by apply routes_distinct].
    apply Forall_map. eapply inOrder_unbroken; [| exact H7]. intros b r. apply routeRules_wf.
  - unfold carries. cbn. split_and!; try done; [apply Forall2_fmap_r, Forall_Forall2_diag, Forall_true, normalRoute_carries |].
    destruct (cc_CommandVars c) as [vars |] eqn:Hv; [f_equal; apply movedVars_given; [done | exact H6] |].
    exists (movedVars c). split; [done |]. do 4 (split; [rewrite movedVars_deprecated by done; vm_compute; reflexivity |]). intros name Hn. rewrite movedVars_deprecated by done.
    repeat case_decide; subst; try done; exfalso; apply Hn; set_solver.
Qed.

(** An accepted entry normalizes to itself. *)
Lemma normalRoute_again r : route_wf r → normalRoute r = r.
Proof.
  intros [Hi _ _ _ [v Hv] [b Hb]]. unfold normalRoute, routeId. rewrite (proj2 (empty_false _) Hi), Hv, Hb. cbn. destruct r; cbn in *. congruence.
Qed.

Lemma normalChannel_again c : channel_wf c → normalChannel c = c.
Proof.
  intros [_ _ _ _ [v Hv] [b Hb] Hd Hr _]. unfold normalChannel. rewrite (movedVars_given c v Hv Hd), Hb. cbn.
  assert (map normalRoute (cc_Routes c) = cc_Routes c) as ->.
  { clear - Hr. induction Hr as [| r l Hr _ IH]; [done |]. cbn. by rewrite normalRoute_again, IH. }
  unfold deprecated in Hd. destruct c as [? ? ? ? ? ? ? [] [] [] [] [] ?]; cbn in *; try done. by rewrite <- Hv, <- Hb.
Qed.

Lemma tsmf_unbroken service tsmf : tsmf_ok service tsmf → tsmfAlone tsmf service = false ∧ tsmfTooLarge tsmf = false.
Proof.
  intros H. destruct tsmf as [n |]; [| done]. destruct (H n eq_refl) as [Hn [s ->]]. split; [done |]. cbn. apply Z.ltb_ge. lia.
Qed.

Lemma route_unbroken before r : route_wf r → rc_Id r ∉ map rc_Id before → Forall route_wf before → unbroken (routeRules before r).
Proof.
  intros Hwf Hd Hb. pose proof Hwf as [Hi Ht Hc Hs _ _]. destruct (tsmf_unbroken _ _ Hs). unfold routeRules. rewrite !unbroken_says, !empty_false, bool_decide_eq_false.
  split_and!; try done. assert (∀ x, route_wf x → routeId x = rc_Id x) as Hid by (intros x [Hx]; unfold routeId; by rewrite (proj2 (empty_false _) Hx)).
  assert (map routeId before = map rc_Id before) as -> by (apply map_ext_in; intros x Hx; apply Hid; eapply Forall_forall; [done | by apply list_elem_of_In]).
  by rewrite Hid.
Qed.

Lemma routes_unbroken before routes : Forall route_wf before → Forall route_wf routes → NoDup (map rc_Id (before ++ routes)) → unbroken (inOrder routeRules before routes).
Proof.
  intros Hb Hr. revert before Hb. induction Hr as [| r routes Hr _ IH]; intros before Hb Hd; cbn [inOrder]; [constructor |]. apply Forall_app. split.
  - apply route_unbroken; [done | | done]. rewrite map_app in Hd. apply NoDup_app in Hd as (_ & Hd & _). intros Hin. apply (Hd _ Hin). apply list_elem_of_here.
  - apply IH; [| by rewrite <- app_assoc]. apply Forall_app. auto.
Qed.

Lemma channel_unbroken before c : channel_wf c → unbroken (channelRules before c).
Proof.
  intros [Hn Ht Hc Hs _ _ Hd Hr Hi]. destruct (tsmf_unbroken _ _ Hs). unfold channelRules. cbn [app]. rewrite !unbroken_says, !empty_false, Hd, andb_false_r.
  split_and!; try done. by apply routes_unbroken.
Qed.

Lemma channels_unbroken before l : Forall channel_wf l → unbroken (inOrder channelRules before l).
Proof.
  intros H. revert before. induction H as [| c l Hc _ IH]; intros before; cbn [inOrder]; [constructor |]. apply Forall_app. split; [by apply channel_unbroken | apply IH].
Qed.

Lemma system_rules s : unbroken (systemRules s) → system_wf (normalSystem s).
Proof.
  unfold systemRules. rewrite Forall_app, !unbroken_says. intros (Ha & He & Hl & Hm & Hr & Hc & Ht & Hst & Hlt & Hsc & _).
  apply orb_false_iff in Hm as [Hm1 Hm2]. constructor; cbn; try lia.
  - destruct (sy_Addresses s) as [| a l] eqn:E; [split; [done |]; by repeat constructor |]. rewrite <- E in *. split; [by rewrite E |].
    eapply inOrder_unbroken; [| exact Ha]. intros before x. unfold addressRules. rewrite !unbroken_says.
    rewrite <- !empty_true. destruct (empty (sa_Http x)), (empty (sa_Unix x)); cbn; naive_solver.
  - unfold orElse. apply andb_false_iff in Hl as [Hl | Hl].
    + apply negb_false_iff, bool_decide_eq_true in Hl. destruct (empty (sy_LogLevel s)); [| done]. unfold logLevels. set_solver.
    + apply negb_false_iff in Hl as ->. unfold logLevels. set_solver.
  - unfold orElse. destruct (empty (ob_ServiceName _)) eqn:E; [done | by apply empty_false].
  - intros Hne%empty_false. rewrite Hne in He. cbn in He. by apply negb_false_iff.
Qed.

Lemma addresses_unbroken before l : Forall (λ a, sa_Http a = "" ↔ sa_Unix a ≠ "") l → unbroken (inOrder addressRules before l).
Proof.
  intros H. revert before. induction H as [| a l Ha _ IH]; intros before; cbn [inOrder]; [constructor |]. apply Forall_app. split; [| apply IH].
  unfold addressRules. rewrite !unbroken_says. rewrite <- !empty_true in Ha. destruct (empty (sa_Http a)), (empty (sa_Unix a)); cbn; naive_solver.
Qed.

Lemma system_again s : system_wf s → checkSystem s = Ret s.
Proof.
  intros [[Hne Ha] Hl Hn He Hm Hep Hc Ht]. rewrite checkSystem_eq.
  assert (verdict (systemRules s) = Ret tt) as ->.
  { apply verdict_ok. unfold systemRules. rewrite Forall_app, !unbroken_says. rewrite (bool_decide_eq_true_2 _ Hl). cbn [negb andb].
    split_and!; try lia; try done; [by apply addresses_unbroken |].
    destruct (empty (ob_Endpoint _)) eqn:E; [done |]. apply empty_false in E. by rewrite (He E). }
  cbn. f_equal. destruct s as [addresses level [name ? ? ? ? ?]]. unfold normalSystem. cbn in *. f_equal.
  - by destruct addresses.
  - unfold orElse. destruct (empty level) eqn:E; [| done]. apply empty_true in E as ->. exfalso. revert Hl. unfold logLevels. rewrite !elem_of_cons, elem_of_nil. naive_solver.
  - unfold orElse. by rewrite (proj2 (empty_false _) Hn).
Qed.

Lemma tuner_rules before e : unbroken (tunerRules before e) → ∃ t, e = Some t ∧ tuner_wf t.
Proof.
  destruct e as [t |]; cbn; [| by intros [? _]%Forall_cons]. rewrite !unbroken_says, !empty_false, bool_decide_eq_false. intros (H1 & H2 & H3 & H4 & H5 & H6 & _).
  exists t. split; [done |]. constructor; try done; try lia.
Qed.

Lemma remote_rules before r : unbroken (remoteRules before r) → remote_wf r ∧ re_Name r ∉ map re_Name before.
Proof.
  unfold remoteRules. rewrite !unbroken_says, !empty_false, bool_decide_eq_false. intros (H1 & H2 & H3 & H4 & _). split; [| done]. constructor; try done.
  intros a Ha. unfold authIncomplete in H4. rewrite Ha in H4. by apply orb_false_iff in H4 as [?%empty_false ?%empty_false].
Qed.

Lemma judged_Ret {A} (p : outcome A) rules become a :
  judged p rules become = Ret a → ∃ raw, p = Ret raw ∧ unbroken (rules raw) ∧ a = become raw.
Proof.
  unfold judged. intros H. apply bind_Ret_inv in H as (raw & -> & H). apply bind_Ret_inv in H as ([] & Hv & H). exists raw. apply verdict_ok in Hv. by injection H as <-.
Qed.

Lemma references_rules remotes channels :
  unbroken (concat (map (referenceRules remotes) (allRoutes channels))) → Forall (λ route, rc_Remote route = "" ∨ rc_Remote route ∈ map re_Name remotes) (allRoutes channels).
Proof.
  induction (allRoutes channels) as [| r l IH]; cbn; [constructor |]. unfold referenceRules. intros [H1 H2]%Forall_cons. constructor; [| by apply IH]. cbn in H1.
  apply andb_false_iff in H1 as [?%negb_false_iff%empty_true | ?%negb_false_iff%bool_decide_eq_true]; auto.
Qed.

Lemma judgedRemotes_wf path channels remotes : judgedRemotes path channels = Ret remotes →
  Forall remote_wf remotes ∧ NoDup (map re_Name remotes) ∧ Forall (λ route, rc_Remote route = "" ∨ rc_Remote route ∈ map re_Name remotes) (allRoutes channels).
Proof.
  unfold judgedRemotes. intros H. destruct (judged _ _ _) as [rs | e | |] eqn:E; [| | done | done].
  - apply judged_Ret in E as (raw & _ & Hu & ->). cbn in H. apply bind_Ret_inv in H as ([] & Hv & H). injection H as <-. apply verdict_ok in Hv. split_and!.
    + eapply inOrder_unbroken; [| exact Hu]. intros before r Hr. by apply remote_rules in Hr as [? _].
    + apply (inOrder_distinct remoteRules re_Name [] raw); [| constructor | done]. intros before r Hr. by apply remote_rules in Hr as [_ ?].
    + by apply references_rules.
  - assert (e = ErrNotExist) as -> by (destruct e; done). destruct (existsb _ _) eqn:Ex; [done |]. injection H as <-. split_and!; [constructor | constructor |].
    apply Forall_forall. intros r Hr. left. apply empty_true. destruct (empty (rc_Remote r)) eqn:Ee; [done |]. exfalso.
    assert (existsb (λ r, negb (empty (rc_Remote r))) (allRoutes channels) = true); [| congruence].
    apply existsb_exists. exists r. split; [by apply list_elem_of_In | by rewrite Ee].
Qed.

(** C27 (type): an accepted configuration is well formed: every channel has a name, a
    type and a channel, a TSMF number only of four bits and with a service, its
    command variables and none of the deprecated settings, and routes with different
    identifiers; every route that names a remote names one that is configured; the
    remotes have different names; and the system's numbers are in their ranges.  Each
    channel carries the data of its entry, the deprecated settings among the
    variables, and its routes those of the entry's routes in order, each with its
    variables and whether it is disabled. *)
Theorem config_wellformed dir cfg : LoadAndParseConfigFromDir dir = Ret cfg →
  config_wf cfg ∧ ∃ raw, parsed (joinPath dir "channels.yml") unmarshalChannels = Ret raw ∧ Forall2 carries raw (cf_Channels cfg).
Proof.
  rewrite config_reports_eq. intros H. apply bind_Ret_inv in H as (channels & Hc & H). apply bind_Ret_inv in H as (system & Hs & H).
  apply bind_Ret_inv in H as (tuners & Ht & H). apply bind_Ret_inv in H as (remotes & Hr & H). injection H as <-.
  apply judged_Ret in Hc as (raw & Hp & [Hne Hc]%unbroken_says & ->). apply judged_Ret in Hs as (s & _ & Hs & ->). apply judged_Ret in Ht as (ts & _ & [Htne Ht]%unbroken_says & ->).
  apply judgedRemotes_wf in Hr as (Hr & Hd & Href). rewrite bool_decide_eq_false in Hne, Htne. split.
  - constructor; cbn; [split | by apply system_rules | split | done | done].
    + by destruct raw.
    + apply Forall_map. eapply inOrder_unbroken; [| exact Hc]. intros before c Hu. by apply normalChannel_carries in Hu as [? _].
    + done.
    + eapply inOrder_unbroken; [| exact Ht]. intros before e. apply tuner_rules.
  - exists raw. split; [done |]. cbn. apply Forall2_fmap_r. apply Forall_Forall2_diag. eapply inOrder_unbroken; [| exact Hc].
    intros before c Hu. by apply normalChannel_carries in Hu as [_ ?].
Qed.

(** Loading is idempotent: the channels and the system of an accepted
    configuration, written to files and loaded again, are accepted and come back as
    they are. *)
Theorem config_stable dir cfg : LoadAndParseConfigFromDir dir = Ret cfg →
  normalizeChannels (cf_Channels cfg) = Ret (cf_Channels cfg) ∧ checkSystem (cf_System cfg) = Ret (cf_System cfg) ∧ checkTuners (cf_Tuners cfg) = Ret tt.
Proof.
  rewrite config_reports_eq. intros H. apply bind_Ret_inv in H as (channels & Hc & H). apply bind_Ret_inv in H as (system & Hs & H).
  apply bind_Ret_inv in H as (tuners & Ht & H). apply bind_Ret_inv in H as (remotes & Hr & H). injection H as <-.
  apply judged_Ret in Hc as (raw & Hp & [Hne Hc]%unbroken_says & ->). apply judged_Ret in Hs as (s & _ & Hs & ->). apply judged_Ret in Ht as (ts & _ & [Htne Ht]%unbroken_says & ->).
  cbn [cf_Channels cf_System cf_Tuners]. split_and!.
  - assert (Forall channel_wf (map normalChannel raw)) as Hwf.
    { apply Forall_map. eapply inOrder_unbroken; [| exact Hc]. intros before c Hu. by apply normalChannel_carries in Hu as [? _]. }
    rewrite normalizeChannels_eq, (proj2 (verdict_ok _)) by (by apply channels_unbroken). cbn. f_equal.
    clear - Hwf. induction Hwf as [| c l Hw _ IH]; [done |]. cbn. by rewrite normalChannel_again, IH.
  - by apply system_again, system_rules.
  - rewrite checkTuners_eq. by apply verdict_ok.
Qed.

End Config.

(** ** Examples *)

Definition sampleRoute (id remote : string) : ChannelRouteConfig (yamlValue := Empty_set) := MkRouteConfig id remote "GR" "27" None None None None None.
Definition sampleChannel (vars : option (gmap string any)) (routes : list ChannelRouteConfig) : ChannelConfig (yamlValue := Empty_set) :=
  MkChannelConfig "NHK" "BS" "101" (Some 101) (Some 3) vars None (Some "JCSAT") None (Some 2) None None routes.
Definition sampleTuner (command path : string) : TunerConfig := MkTunerConfig "adapter0" ["GR"] command path "" false 0 0 0.
Definition sampleRemote : RemoteConfig := MkRemote "upstairs" "http://upstairs:40772" (Some (MkAuth "user" "secret")).

Section Sample.
Variable tuners : TunersConfig.
Variable remotes : outcome (list RemoteConfig).

(** A directory whose files hold these entries; an empty server.yml keeps the
    defaults. *)
Definition loadSample (channels : list (ChannelConfig (yamlValue := Empty_set))) : outcome Config :=
  LoadAndParseConfigFromDir (λ _, None) Ret (λ _, Ret channels) (λ _ s, Ret s) (λ _, Ret tuners) (λ _, remotes) (λ s, String (Ascii.ascii_of_nat 34) (s +:+ String (Ascii.ascii_of_nat 34) ""))
    (λ dir file, dir +:+ "/" +:+ file) ".".
End Sample.

Definition goodChannels : list (ChannelConfig (yamlValue := Empty_set)) := [sampleChannel None [sampleRoute "" "upstairs"; sampleRoute "" ""]].
Definition loadGood : outcome Config := loadSample [Some (sampleTuner "recpt1" "")] (Ret [sampleRemote]) goodChannels.

Lemma config_wellformed_witness : ∃ cfg, loadGood = Ret cfg ∧ config_wf (λ _, None) cfg ∧
  map (λ c, default ∅ (cc_CommandVars c) !! "space") (cf_Channels cfg) = [Some (AnyUint8 2)] ∧
  map (λ c, map rc_Id (cc_Routes c)) (cf_Channels cfg) = [["upstairs:GR:27"; "GR:27"]].
Proof.
  assert (∃ cfg, loadGood = Ret cfg) as [cfg Hcfg] by (eexists; vm_compute; reflexivity). exists cfg. split; [exact Hcfg |].
  split; [exact (proj1 (config_wellformed _ _ _ _ _ _ _ _ _ _ Hcfg)) |]. assert (cfg = match loadGood with Ret c => c | _ => cfg end) as -> by (by rewrite Hcfg).
  split; vm_compute; reflexivity.
Defined.

Lemma config_stable_witness : ∃ cfg, loadGood = Ret cfg ∧ normalizeChannels (cf_Channels cfg) = Ret (cf_Channels cfg).
Proof.
  assert (∃ cfg, loadGood = Ret cfg) as [cfg Hcfg] by (eexists; vm_compute; reflexivity). exists cfg. split; [exact Hcfg |].
  exact (proj1 (config_stable _ _ _ _ _ _ _ _ _ _ Hcfg)).
Defined.

(** A null entry of tuners.yml stops the program instead of being reported. *)
Example null_tuner_panics : loadSample [Some (sampleTuner "recpt1" ""); None] (Ret [sampleRemote]) goodChannels = Panic.
Proof. vm_compute. reflexivity. Qed.

(** A device path without a command is reported as a missing command. *)
Example dvb_path_without_command : loadSample [Some (sampleTuner "" "/dev/dvb/adapter0")] (Ret [sampleRemote]) goodChannels = Err (ErrNew "command is required").
Proof. vm_compute. reflexivity. Qed.

(** Without remotes.yml only a configuration without remote routes is accepted. *)
Example remotes_needed : loadSample [Some (sampleTuner "recpt1" "")] (Err ErrNotExist) goodChannels = Err ErrNotExist ∧
  ∃ cfg, loadSample [Some (sampleTuner "recpt1" "")] (Err ErrNotExist) [sampleChannel None []] = Ret cfg.
Proof. split; [vm_compute; reflexivity | eexists; vm_compute; reflexivity]. Qed.
