(* ===== verification/Sources.v ===== *)
(** * The sources of channels

    [internal/stream/source]: [pool.go], [route_source.go], [broadcast.go] and
    [remote_input.go], which find a route for a channel, open the tuner device of a
    local route once for all that watch it, and close it after the last one.

    The selection of a route is a function of what each attempt at a route gives.  The
    pool and its broadcasts are a transition system: a step is a critical section of
    a goroutine or what it does between two, and the goroutines of requests,
    subscribers and of the shutdown interleave in any order.  A device is what
    [AcquireDevice] returned and is held until [source.Stop] has returned; whether it
    can be acquired and started is up to the step. *)

From stdpp Require Import pretty.
From S2P Require Import Prelude Config.

(** ** The selection of a route *)

Section Routes.

Context {yamlValue : Type}.
Abbreviation ChannelConfig := (@ChannelConfig yamlValue).
Abbreviation ChannelRouteConfig := (@ChannelRouteConfig yamlValue).

Definition ErrChannelNotFound : error := ErrNew "channel not found".

Definition isEnabled (route : ChannelRouteConfig) : bool := match rc_IsDisabled route with Some b => negb b | None => true end.
Definition routePriority (route : ChannelRouteConfig) : Z := default 0 (rc_Priority route).

Definition enabledRoutes (routes : list ChannelRouteConfig) : list ChannelRouteConfig := SliceStable (λ a b, routePriority a <? routePriority b) (filter (λ r, isEnabled r = true) routes).

Fixpoint findChannel (channelType channel : string) (channels : list ChannelConfig) : option ChannelConfig :=
  match channels with
  | [] => None
  | c :: channels =>
      if bool_decide (cc_Type c = channelType) && bool_decide (cc_Channel c = channel) && negb (IsChannelDisabled c) then Some c
      else findChannel channelType channel channels
  end.

(** [tryRoute] in a round of attempts: what it selects, or an error. *)
Context {selection : Type}.
Variable tryRoute : nat → ChannelRouteConfig → outcome selection.
(** [errors.Is(err, tuner.ErrTunerUnavailable)]. *)
Variable isUnavailable : error → bool.
(** [waitForRouteRetry] after a round: the end of the request's context is an error. *)
Variable waitForRouteRetry : nat → outcome unit.

(** The inner loop of [selectRoute], with [lastErr] and [unavailable]. *)
Fixpoint tryRoutes (round : nat) (routes : list ChannelRouteConfig) (lastErr : option error) (unavailable : bool) : outcome (selection + option error * bool) :=
  match routes with
  | [] => Ret (inr (lastErr, unavailable))
  | route :: routes =>
      match tryRoute round route with
      | Ret selected => Ret (inl selected)
      | Err e => tryRoutes round routes (Some e) (unavailable || isUnavailable e)
      | Panic => Panic
      | Diverge => Diverge
      end
  end.

Fixpoint selectRounds (fuel round : nat) (wait : bool) (routes : list ChannelRouteConfig) : outcome selection :=
  match fuel with
  | O => Diverge
  | S fuel =>
      r ← tryRoutes round routes None false;
      match r with
      | inl selected => Ret selected
      | inr (lastErr, unavailable) =>
          if negb wait || negb unavailable then Err (default ErrChannelNotFound lastErr)
          else _ ← waitForRouteRetry round; selectRounds fuel (S round) wait routes
      end
  end.

Definition selectRoute (fuel : nat) (channel : ChannelConfig) (wait : bool) : outcome selection :=
  selectRounds fuel 0 wait (enabledRoutes (RoutesOrDefault channel)).

(** [Acquire], up to the lease of what was selected. *)
Definition Acquire (fuel : nat) (channels : list ChannelConfig) (channelType channel : string) (wait : bool) : outcome selection :=
  match findChannel channelType channel channels with
  | None => Err ErrChannelNotFound
  | Some c => selectRoute fuel c wait
  end.

(** *** The order of the routes *)

Abbreviation sorted := (StronglySorted (λ a b, routePriority a ≤ routePriority b)).
Definition withPriority (p : Z) (l : list ChannelRouteConfig) : list ChannelRouteConfig := filter (λ r, routePriority r = p) l.

Lemma enabledRoutes_spec routes : sorted (enabledRoutes routes) ∧ ∀ p, withPriority p (enabledRoutes routes) = filter (λ r, isEnabled r = true) (withPriority p routes).
Proof.
  split.
  - assert (strict_weak (λ a b : ChannelRouteConfig, routePriority a <? routePriority b)) as Hw by (constructor; intros *; rewrite ?Z.ltb_lt, ?Z.ltb_ge; lia).
    unfold enabledRoutes. induction (SliceStable_sorted _ (filter (λ r, isEnabled r = true) routes) Hw) as [| r l _ IH Hr]; [constructor |].
    constructor; [done |]. eapply Forall_impl; [exact Hr |]. intros x. cbn. by rewrite Z.ltb_ge.
  - intros p. unfold enabledRoutes, withPriority. rewrite SliceStable_stable by (intros a b -> ->; apply Z.ltb_irrefl). rewrite !list_filter_filter.
    apply list_filter_iff. tauto.
Qed.

(** *** What an attempt gives *)

(** The routes a round has refused. *)
Definition refused (round : nat) (r : ChannelRouteConfig) : Prop := ∃ e, tryRoute round r = Err e.

Hypothesis tryRoute_ends : ∀ round r, safe (tryRoute round r) (λ _, True).
Hypothesis waitForRouteRetry_ends : ∀ round, safe (waitForRouteRetry round) (λ _, True).

Definition lostTuner (round : nat) (routes : list ChannelRouteConfig) : Prop := ∃ r e, r ∈ routes ∧ tryRoute round r = Err e ∧ isUnavailable e = true.
(** The error of the last route. *)
Definition lastError (round : nat) (routes : list ChannelRouteConfig) (none : option error) : option error :=
  match last routes with Some r => match tryRoute round r with Err e => Some e | _ => None end | None => none end.

Lemma tryRoutes_spec round routes lastErr unavailable :
  match tryRoutes round routes lastErr unavailable with
  | Ret (inl s) => ∃ before r after, routes = before ++ r :: after ∧ Forall (refused round) before ∧ tryRoute round r = Ret s
  | Ret (inr (lastErr', unavailable')) => Forall (refused round) routes ∧ (unavailable' = true ↔ unavailable = true ∨ lostTuner round routes) ∧
      lastErr' = lastError round routes lastErr
  | _ => False
  end.
Proof.
  revert lastErr unavailable. induction routes as [| r routes IH]; intros lastErr unavailable; cbn [tryRoutes].
  { split; [constructor |]. split; [| done]. split; [auto | intros [? | (r & e & Hr & _)]; [done | by apply elem_of_nil in Hr]]. }
  pose proof (tryRoute_ends round r) as Hend. destruct (tryRoute round r) as [s | e | |] eqn:E; [| | done | done].
  - exists [], r, routes. split; [done |]. split; [constructor | done].
  - specialize (IH (Some e) (unavailable || isUnavailable e)). destruct (tryRoutes round routes _ _) as [[s | [last' un]] | | |]; [| | done | done | done].
    + destruct IH as (before & r' & after & -> & Hb & Hs). exists (r :: before), r', after. split; [done |]. split; [constructor; [by exists e | done] | done].
    + destruct IH as (Hall & Hun & ->). split; [constructor; [by exists e | done] |]. split.
      * rewrite Hun, orb_true_iff. split.
        -- intros [[? | ?] | (r' & e' & ? & ? & ?)]; [by left | right; exists r, e | right; exists r', e']; split_and!; try done; by constructor.
        -- intros [? | (r' & e' & [-> | Hin]%elem_of_cons & He & Hu)]; [by left; left | left; right; congruence | right; by exists r', e'].
      * unfold lastError. rewrite last_cons. destruct (last routes); [done | by rewrite E].
Qed.

(** A round after which the request tries again. *)
Definition passed (wait : bool) (routes : list ChannelRouteConfig) (round : nat) : Prop :=
  wait = true ∧ Forall (refused round) routes ∧ lostTuner round routes ∧ waitForRouteRetry round = Ret tt.

Lemma selectRounds_spec fuel round wait routes :
  match selectRounds fuel round wait routes with
  | Ret s => ∃ n before r after, (round ≤ n)%nat ∧ (∀ m, (round ≤ m < n)%nat → passed wait routes m) ∧
      routes = before ++ r :: after ∧ Forall (refused n) before ∧ tryRoute n r = Ret s
  | Err e => ∃ n, (round ≤ n)%nat ∧ (∀ m, (round ≤ m < n)%nat → passed wait routes m) ∧ Forall (refused n) routes ∧
      ((wait = false ∨ ¬ lostTuner n routes) ∧ e = default ErrChannelNotFound (lastError n routes None) ∨
       wait = true ∧ lostTuner n routes ∧ waitForRouteRetry n = Err e)
  | Panic => False
  | Diverge => ∀ m, (round ≤ m < round + fuel)%nat → passed wait routes m
  end.
Proof.
  revert round. induction fuel as [| fuel IH]; intros round; cbn [selectRounds]; [intros m Hm; lia |].
  pose proof (tryRoutes_spec round routes None false) as Hr. destruct (tryRoutes round routes None false) as [[s | [lastErr un]] | | |]; [| | done | done | done].
  - destruct Hr as (before & r & after & Hr). exists round, before, r, after. split; [lia |]. split; [intros m Hm; lia | done].
  - destruct Hr as (Hall & Hun & ->). cbn. destruct (negb wait || negb un) eqn:E.
    + exists round. split; [lia |]. split; [intros m Hm; lia |]. split; [done |]. left. split; [| done]. apply orb_true_iff in E as [E | E]; [left; by destruct wait |].
      right. intros Hl. destruct un; [done |]. by assert (false = true) by (apply Hun; auto).
    + apply orb_false_iff in E as [->%negb_false_iff ->%negb_false_iff]. assert (lostTuner round routes) as Hl by (by destruct (proj1 Hun eq_refl)).
      pose proof (waitForRouteRetry_ends round) as Hw. destruct (waitForRouteRetry round) as [[] | e | |] eqn:Ew; [| | done | done]; cbn.
      * assert (passed true routes round) as Hp by done. specialize (IH (S round)).
        assert (∀ n, (∀ m, (S round ≤ m < n)%nat → passed true routes m) → ∀ m, (round ≤ m < n)%nat → passed true routes m) as Hmore.
        { intros n Hn m Hm. destruct (decide (m = round)) as [-> |]; [done | apply Hn; lia]. }
        destruct (selectRounds fuel (S round) true routes).
        -- destruct IH as (n & before & r & after & Hn & Hm & Hrest). exists n, before, r, after. split; [lia |]. split; [by apply Hmore | done].
        -- destruct IH as (n & Hn & Hm & Hrest). exists n. split; [lia |]. split; [by apply Hmore | done].
        -- done.
        -- intros m Hm. apply (Hmore (S round + fuel)%nat); [done | lia].
      * exists round. split; [lia |]. split; [intros m Hm; lia |]. split; [done |]. by right.
Qed.

(** C23 (error): the enabled routes of a channel are tried in the order of their
    priorities, those of the same priority in the order of the configuration, and
    the first that can be had is selected.  When a whole round is refused, the
    request tries again only if it may wait and some tuner was merely unavailable;
    else it gets the error of the last route, or that the channel is not found if
    no route is enabled.  It gets the end of its own context only while it waits for
    the next round, and goes on only as long as every round ends like this. *)
Theorem route_selection fuel channel wait :
  let routes := enabledRoutes (RoutesOrDefault channel) in
  (sorted routes ∧ ∀ p, withPriority p routes = filter (λ r, isEnabled r = true) (withPriority p (RoutesOrDefault channel))) ∧
  match selectRoute fuel channel wait with
  | Ret s => ∃ n before r after, (∀ m, (m < n)%nat → passed wait routes m) ∧
      routes = before ++ r :: after ∧ Forall (refused n) before ∧ tryRoute n r = Ret s
  | Err e => ∃ n, (∀ m, (m < n)%nat → passed wait routes m) ∧ Forall (refused n) routes ∧
      ((wait = false ∨ ¬ lostTuner n routes) ∧ e = default ErrChannelNotFound (lastError n routes None) ∨
       wait = true ∧ lostTuner n routes ∧ waitForRouteRetry n = Err e)
  | Panic => False
  | Diverge => ∀ m, (m < fuel)%nat → passed wait routes m
  end.
Proof.
  cbv zeta. split; [apply enabledRoutes_spec |].
  unfold selectRoute. pose proof (selectRounds_spec fuel 0 wait (enabledRoutes (RoutesOrDefault channel))) as H. destruct (selectRounds _ _ _ _) as [s | e | |].
    + destruct H as (n & before & r & after & _ & Hm & H). exists n, before, r, after. split; [intros m Hlt; apply Hm; lia | done].
    + destruct H as (n & _ & Hm & H). exists n. split; [intros m Hlt; apply Hm; lia | done].
    + done.
    + intros m Hm. apply H. lia.
Qed.

End Routes.

(** ** The pool of local routes *)

Record routeSourceKey : Type := MkKey {
  rk_remote : string;
  rk_typ : string;
  rk_channel : string;
  rk_serviceID : string;
  rk_tsmfRelTS : string;
  rk_commandVars : string
}.

#[export] Instance routeSourceKey_eq_dec : EqDecision routeSourceKey.
Proof. solve_decision. Defined.
#[export] Instance routeSourceKey_countable : Countable routeSourceKey.
Proof.
  apply (inj_countable' (λ k, (rk_remote k, rk_typ k, rk_channel k, rk_serviceID k, rk_tsmfRelTS k, rk_commandVars k))
    (λ '(a, b, c, d, e, f), MkKey a b c d e f)). by intros [].
Defined.

(** [strconv.FormatUint(n, 10)], or nothing. *)
Definition formatUint (n : option Z) : string := match n with Some n => pretty (Z.to_N n) | None => "" end.

(** [json.Marshal] of the command variables is a parameter: it is only compared. *)
Definition newRouteSourceKey {yamlValue} (marshal : option (gmap string (@any yamlValue)) → string) (route : @ChannelRouteConfig yamlValue) : routeSourceKey :=
  MkKey (rc_Remote route) (rc_Type route) (rc_Channel route) (formatUint (rc_ServiceId route)) (formatUint (rc_TsmfRelTs route)) (marshal (rc_CommandVars route)).

(** A [Broadcast]: the key it is registered under, the subscribers in [hub], and
    whether [source.Stop] has returned, which gives its device back. *)
Record Broadcast : Type := MkBroadcast {
  bc_key : routeSourceKey;
  bc_refs : Z;
  bc_started : bool;
  bc_stopped : bool;
  bc_hub : list nat;
  bc_released : bool
}.

(** Where a goroutine is.  The stopping ones hold the broadcasts they have still to
    call [Stop] for: one, after a [detach] or a failed [attach]; any, in [Shutdown]. *)
Inductive place : Type :=
| Looking (key : routeSourceKey)
| Awaiting (key : routeSourceKey) (creating : nat)
| Acquiring (key : routeSourceKey)
| Finishing (key : routeSourceKey) (broadcast : option nat)
| Holding (b : nat)
| Subscribed (b : nat)
| Stopping (l : list nat)
| StoppingSource (b : nat) (l : list nat)
| Removing (b : nat) (l : list nat)
| Gone.

#[export] Instance place_eq_dec : EqDecision place.
Proof. solve_decision. Defined.

(** The channel [creating] that a goroutine makes is named by the goroutine. *)
Record Pool : Type := MkPool {
  po_routeSources : gmap routeSourceKey nat;
  po_routeSourceCreates : gmap routeSourceKey nat;
  po_closed : gset nat;
  po_broadcasts : list Broadcast;
  po_goroutines : list place
}.

Definition NewPool : Pool := MkPool ∅ ∅ ∅ [] [].

Definition setSources (m : gmap routeSourceKey nat) (po : Pool) : Pool :=
  MkPool m (po_routeSourceCreates po) (po_closed po) (po_broadcasts po) (po_goroutines po).
Definition setCreates (m : gmap routeSourceKey nat) (po : Pool) : Pool :=
  MkPool (po_routeSources po) m (po_closed po) (po_broadcasts po) (po_goroutines po).
Definition setClosed (s : gset nat) (po : Pool) : Pool :=
  MkPool (po_routeSources po) (po_routeSourceCreates po) s (po_broadcasts po) (po_goroutines po).
Definition setBroadcasts (l : list Broadcast) (po : Pool) : Pool :=
  MkPool (po_routeSources po) (po_routeSourceCreates po) (po_closed po) l (po_goroutines po).
Definition putBroadcast (b : nat) (bc : Broadcast) (po : Pool) : Pool := setBroadcasts (<[b := bc]> (po_broadcasts po)) po.
Definition goesTo (p : nat) (x : place) (po : Pool) : Pool :=
  MkPool (po_routeSources po) (po_routeSourceCreates po) (po_closed po) (po_broadcasts po) (<[p := x]> (po_goroutines po)).

Definition NewBroadcast (key : routeSourceKey) : Broadcast := MkBroadcast key 0 false false [] false.

(** [beginRouteSourceCreate]: one turn of its loop.  [po_closed] are the channels
    closed so far. *)
Definition beginRouteSourceCreate (p : nat) (key : routeSourceKey) (po : Pool) : Pool :=
  match po_routeSources po !! key with
  | Some b => goesTo p (Holding b) po
  | None =>
      match po_routeSourceCreates po !! key with
      | Some creating => goesTo p (Awaiting key creating) po
      | None => goesTo p (Acquiring key) (setCreates (<[key := p]> (po_routeSourceCreates po)) po)
      end
  end.

(** [finish], called once. *)
Definition finishCreate (p : nat) (key : routeSourceKey) (po : Pool) : outcome Pool :=
  if bool_decide (po_routeSourceCreates po !! key = Some p) then
    if bool_decide (p ∈ po_closed po) then Panic
    else Ret (setClosed ({[p]} ∪ po_closed po) (setCreates (delete key (po_routeSourceCreates po)) po))
  else Ret po.

(** [commitRouteSource], with the device of the new broadcast: [None] if it is not
    used because another source is registered. *)
Definition commitRouteSource (key : routeSourceKey) (po : Pool) : Pool * nat * bool :=
  match po_routeSources po !! key with
  | Some b => (po, b, false)
  | None =>
      let b := length (po_broadcasts po) in
      (setSources (<[key := b]> (po_routeSources po)) (setBroadcasts (po_broadcasts po ++ [NewBroadcast key]) po), b, true)
  end.

Definition removeRouteSource (key : routeSourceKey) (po : Pool) : Pool := setSources (delete key (po_routeSources po)) po.

(** [attach] by a subscriber, where [source.Start] succeeds or not. *)
Definition attach (p b : nat) (starts : bool) (po : Pool) : outcome Pool :=
  match po_broadcasts po !! b with
  | None => Panic
  | Some bc =>
      if bc_stopped bc then Ret (goesTo p Gone po)
      else if bc_started bc || starts then
        Ret (goesTo p (Subscribed b) (putBroadcast b (MkBroadcast (bc_key bc) (bc_refs bc + 1) true false (bc_hub bc ++ [p]) (bc_released bc)) po))
      else Ret (goesTo p (Stopping [b]) po)
  end.

(** [detach]. *)
Definition detach (p b : nat) (po : Pool) : outcome Pool :=
  match po_broadcasts po !! b with
  | None => Panic
  | Some bc =>
      let refs := if 0 <? bc_refs bc then bc_refs bc - 1 else bc_refs bc in
      let po := putBroadcast b (MkBroadcast (bc_key bc) refs (bc_started bc) (bc_stopped bc) (filter (λ q, q ≠ p) (bc_hub bc)) (bc_released bc)) po in
      Ret (goesTo p (if refs =? 0 then Stopping [b] else Gone) po)
  end.

(** Where a goroutine goes on after a [Stop]. *)
Definition afterStop (l : list nat) : place := match l with [] => Gone | _ => Stopping l end.

(** [Stop]: its critical section; [source.Stop], which the model only lets happen
    once; the callback [onStop]. *)
Definition stopBroadcast (p b : nat) (l : list nat) (po : Pool) : outcome Pool :=
  match po_broadcasts po !! b with
  | None => Panic
  | Some bc =>
      if bc_stopped bc then Ret (goesTo p (afterStop l) po)
      else Ret (goesTo p (StoppingSource b l) (putBroadcast b (MkBroadcast (bc_key bc) (bc_refs bc) (bc_started bc) true [] (bc_released bc)) po))
  end.
Definition stopSource (p b : nat) (l : list nat) (po : Pool) : outcome Pool :=
  match po_broadcasts po !! b with
  | None => Panic
  | Some bc =>
      if bc_released bc then Panic
      else Ret (goesTo p (Removing b l) (putBroadcast b (MkBroadcast (bc_key bc) (bc_refs bc) (bc_started bc) (bc_stopped bc) (bc_hub bc) true) po))
  end.
Definition runOnStop (p b : nat) (l : list nat) (po : Pool) : outcome Pool :=
  match po_broadcasts po !! b with
  | None => Panic
  | Some bc => Ret (goesTo p (afterStop l) (removeRouteSource (bc_key bc) po))
  end.

(** ** The steps

    [Tries] and [Uses] start goroutines: one that tries a local route, one that uses
    the input of a handle that some request got.  A request gives up when its context
    ends, and a handle may be released without having been used, which does nothing.  [Shuts] is a call of [Shutdown],
    which lists the broadcasts in some order. *)
Inductive poolStep : Type :=
| Tries (key : routeSourceKey)
| Uses (b : nat)
| Shuts (l : list nat)
| Begins (p : nat)
| Woken (p : nat)
| GivesUp (p : nat)
| Acquired (p : nat) (ok : bool)
| Finishes (p : nat)
| Attaches (p : nat) (starts : bool)
| Detaches (p : nat)
| StopsNext (p : nat).

Definition spawn (x : place) (po : Pool) : Pool :=
  MkPool (po_routeSources po) (po_routeSourceCreates po) (po_closed po) (po_broadcasts po) (po_goroutines po ++ [x]).

Definition placeOf (p : nat) (po : Pool) : place := default Gone (po_goroutines po !! p).

Definition canPool (a : poolStep) (po : Pool) : bool :=
  match a with
  | Tries _ => true
  | Uses b => bool_decide (b < length (po_broadcasts po))%nat
  | Shuts l => bool_decide (l ≡ₚ map snd (map_to_list (po_routeSources po)))
  | Begins p => match placeOf p po with Looking _ => true | _ => false end
  | Woken p => match placeOf p po with Awaiting _ c => bool_decide (c ∈ po_closed po) | _ => false end
  | GivesUp p => match placeOf p po with Awaiting _ _ | Holding _ => true | _ => false end
  | Acquired p _ => match placeOf p po with Acquiring _ => true | _ => false end
  | Finishes p => match placeOf p po with Finishing _ _ => true | _ => false end
  | Attaches p _ => match placeOf p po with Holding _ => true | _ => false end
  | Detaches p => match placeOf p po with Subscribed _ => true | _ => false end
  | StopsNext p => match placeOf p po with Stopping _ | StoppingSource _ _ | Removing _ _ => true | _ => false end
  end.

(** A device that [AcquireDevice] returned and no broadcast holds would be lost:
    the model stops there. *)
Definition doPool (a : poolStep) (po : Pool) : outcome Pool :=
  match a with
  | Tries key => Ret (spawn (Looking key) po)
  | Uses b => Ret (spawn (Holding b) po)
  | Shuts l => Ret (spawn (afterStop l) po)
  | Begins p => match placeOf p po with Looking key => Ret (beginRouteSourceCreate p key po) | _ => Ret po end
  | Woken p => match placeOf p po with Awaiting key _ => Ret (goesTo p (Looking key) po) | _ => Ret po end
  | GivesUp p => Ret (goesTo p Gone po)
  | Acquired p ok =>
      match placeOf p po with
      | Acquiring key =>
          if ok : bool then
            let '(po, b, used) := commitRouteSource key po in
            if used : bool then Ret (goesTo p (Finishing key (Some b)) po) else Panic
          else Ret (goesTo p (Finishing key None) po)
      | _ => Ret po
      end
  | Finishes p =>
      match placeOf p po with
      | Finishing key b => po ← finishCreate p key po; Ret (goesTo p (match b with Some b => Holding b | None => Gone end) po)
      | _ => Ret po
      end
  | Attaches p starts => match placeOf p po with Holding b => attach p b starts po | _ => Ret po end
  | Detaches p => match placeOf p po with Subscribed b => detach p b po | _ => Ret po end
  | StopsNext p =>
      match placeOf p po with
      | Stopping [] => Ret (goesTo p Gone po)
      | Stopping (b :: l) => stopBroadcast p b l po
      | StoppingSource b l => stopSource p b l po
      | Removing b l => runOnStop p b l po
      | _ => Ret po
      end
  end.

Inductive poolReachable : Pool → Prop :=
| pool_new : poolReachable NewPool
| pool_step po a po' : poolReachable po → canPool a po = true → doPool a po = Ret po' → poolReachable po'.

(** ** The invariant *)

Definition b2n (b : bool) : nat := if b then 1 else 0.
Definition count (f : place → bool) (l : list place) : nat := length (filter (λ x, f x = true) l).

Lemma count_snoc f l x : count f (l ++ [x]) = (count f l + b2n (f x))%nat.
Proof. unfold count. rewrite filter_app, length_app. f_equal. rewrite filter_cons. cbn. destruct (f x); done. Qed.

Lemma count_insert f l p x y : l !! p = Some x → (count f (<[p := y]> l) + b2n (f x) = count f l + b2n (f y))%nat.
Proof.
  intros Hp. pose proof (lookup_lt_Some _ _ _ Hp) as Hlt. rewrite insert_take_drop by done. rewrite <- (take_drop_middle _ _ _ Hp) at 3. unfold count.
  rewrite !filter_app, !filter_cons, !length_app. repeat case_decide; cbn; destruct (f x), (f y); cbn in *; try done; lia.
Qed.

Lemma count_pos f l : (0 < count f l)%nat ↔ ∃ p x, l !! p = Some x ∧ f x = true.
Proof.
  unfold count. split.
  - intros H. destruct (filter (λ x, f x = true) l) as [| x k] eqn:E; [cbn in H; lia |]. assert (x ∈ filter (λ x, f x = true) l) as Hin by (rewrite E; constructor).
    apply list_elem_of_filter in Hin as [Hf Hin]. apply list_elem_of_lookup in Hin as [p Hp]. eauto.
  - intros (p & x & Hp & Hf). assert (x ∈ filter (λ x, f x = true) l) as Hin by (apply list_elem_of_filter; split; [done | by eapply list_elem_of_lookup_2]).
    destruct (filter _ l); [by apply elem_of_nil in Hin | cbn; lia].
Qed.

(** What a goroutine is to a broadcast, and to a creation. *)
Definition subscribedTo (b : nat) (x : place) : bool := match x with Subscribed c => bool_decide (b = c) | _ => false end.
Definition stopsSourceOf (b : nat) (x : place) : bool := match x with StoppingSource c _ => bool_decide (b = c) | _ => false end.
Definition removes (b : nat) (x : place) : bool := match x with Removing c _ => bool_decide (b = c) | _ => false end.
Definition willStop (b : nat) (x : place) : bool :=
  match x with Stopping l | StoppingSource _ l | Removing _ l => bool_decide (b ∈ l) | _ => false end.
Definition creatingOf (x : place) : option routeSourceKey := match x with Acquiring key | Finishing key _ => Some key | _ => None end.
Definition isPast (x : place) : bool := match x with Looking _ | Awaiting _ _ | Acquiring _ | Finishing _ _ => false | _ => true end.
Definition mentions (x : place) : list nat :=
  match x with
  | Finishing _ (Some b) | Holding b | Subscribed b => [b]
  | Stopping l => l
  | StoppingSource b l | Removing b l => b :: l
  | _ => []
  end.

Record broadcast_ok (sources : gmap routeSourceKey nat) (gs : list place) (b : nat) (bc : Broadcast) : Prop := {
  bo_refs : bc_refs bc = Z.of_nat (count (subscribedTo b) gs);
  bo_stopping : count (stopsSourceOf b) gs = b2n (bc_stopped bc && negb (bc_released bc));
  bo_removing : count (removes b) gs = b2n (bc_released bc && bool_decide (sources !! bc_key bc = Some b));
  bo_held : bc_released bc = false → sources !! bc_key bc = Some b;
  bo_released : bc_released bc = true → bc_stopped bc = true;
  bo_hub : bc_stopped bc = false → NoDup (bc_hub bc) ∧ ∀ p, p ∈ bc_hub bc ↔ gs !! p = Some (Subscribed b);
  bo_started : 0 < bc_refs bc → bc_started bc = true;
  bo_watched : bc_started bc = true → bc_refs bc = 0 → bc_stopped bc = false → ∃ p x, gs !! p = Some x ∧ willStop b x = true
}.

Record creates_ok (po : Pool) : Prop := {
  co_creating : ∀ p x key, po_goroutines po !! p = Some x → creatingOf x = Some key → po_routeSourceCreates po !! key = Some p;
  co_creates : ∀ key p, po_routeSourceCreates po !! key = Some p → ∃ x, po_goroutines po !! p = Some x ∧ creatingOf x = Some key;
  co_closed : ∀ p, p ∈ po_closed po → ∃ x, po_goroutines po !! p = Some x ∧ isPast x = true;
  co_awaiting : ∀ p key c, po_goroutines po !! p = Some (Awaiting key c) → c ∈ po_closed po ∨ po_routeSourceCreates po !! key = Some c;
  co_acquiring : ∀ p key, po_goroutines po !! p = Some (Acquiring key) → po_routeSources po !! key = None
}.

Record sources_ok (po : Pool) : Prop := {
  so_sources : ∀ key b, po_routeSources po !! key = Some b → ∃ bc, po_broadcasts po !! b = Some bc ∧ bc_key bc = key;
  so_broadcasts : ∀ b bc, po_broadcasts po !! b = Some bc → broadcast_ok (po_routeSources po) (po_goroutines po) b bc;
  so_range : ∀ p x b, po_goroutines po !! p = Some x → b ∈ mentions x → (b < length (po_broadcasts po))%nat
}.

Definition pool_ok (po : Pool) : Prop := creates_ok po ∧ sources_ok po.

(** A goroutine that has done with creations moves on. *)
Lemma creates_past po p x y sources broadcasts : creates_ok po → po_goroutines po !! p = Some x → isPast x = true → isPast y = true →
  (∀ key, po_routeSources po !! key = None → sources !! key = None) →
  creates_ok (MkPool sources (po_routeSourceCreates po) (po_closed po) broadcasts (<[p := y]> (po_goroutines po))).
Proof.
  intros [C1 C2 C3 C4 C5] Hp Hx Hy Hs.
  assert (∀ q z, <[p := y]> (po_goroutines po) !! q = Some z → isPast z = false → po_goroutines po !! q = Some z) as Hold.
  { intros q z Hq Hz. apply list_lookup_insert_Some in Hq as [(-> & -> & _) | [_ Hq]]; [congruence | done]. }
  constructor; cbn.
  - intros q z key Hq Hz. eapply C1; [apply Hold; [done | by destruct z] | done].
  - intros key q Hq. destruct (C2 key q Hq) as (z & Hz & Hk). exists z. split; [| done]. rewrite list_lookup_insert_ne; [done |]. intros ->.
    rewrite Hp in Hz. injection Hz as <-. by destruct x.
  - intros q Hq. destruct (decide (q = p)) as [-> | Hne]; [exists y; split; [by apply list_lookup_insert_eq, (lookup_lt_Some _ _ x) | done] |].
    rewrite list_lookup_insert_ne by done. by apply C3.
  - intros q key c Hq%Hold; [by eapply C4 | done].
  - intros q key Hq%Hold; [| done]. apply Hs. by eapply C5.
Qed.

(** A broadcast to which a goroutine is, after a move, what it was before. *)
Lemma broadcast_frame sources sources' gs p x y b bc : broadcast_ok sources gs b bc → gs !! p = Some x →
  subscribedTo b x = subscribedTo b y → stopsSourceOf b x = stopsSourceOf b y → removes b x = removes b y →
  (willStop b x = true → willStop b y = true ∨ bc_stopped bc = true) → (sources !! bc_key bc = Some b ↔ sources' !! bc_key bc = Some b) →
  broadcast_ok sources' (<[p := y]> gs) b bc.
Proof.
  intros [B1 B2 B3 B4 B5 B6 B7 B8] Hp H1 H2 H3 H4 Hs.
  pose proof (count_insert (subscribedTo b) gs p x y Hp) as E1. pose proof (count_insert (stopsSourceOf b) gs p x y Hp) as E2.
  pose proof (count_insert (removes b) gs p x y Hp) as E3. rewrite H1 in E1. rewrite H2 in E2. rewrite H3 in E3.
  constructor; try done.
  - rewrite B1. lia.
  - rewrite <- B2. lia.
  - replace (bool_decide (sources' !! bc_key bc = Some b)) with (bool_decide (sources !! bc_key bc = Some b)) by (by apply bool_decide_ext). rewrite <- B3. lia.
  - intros Hr. by apply Hs, B4.
  - intros Hst. destruct (B6 Hst) as [Hd Hh]. split; [done |]. intros q. rewrite Hh. destruct (decide (q = p)) as [-> | Hne]; [| by rewrite list_lookup_insert_ne].
    rewrite Hp, list_lookup_insert_eq by (by eapply lookup_lt_Some). split; intros [= ->]; cbn in H1; rewrite bool_decide_eq_true_2 in H1 by done.
    + destruct y; try done. symmetry in H1. apply bool_decide_eq_true in H1. by subst.
    + destruct x; try done. apply bool_decide_eq_true in H1. by subst.
  - intros Hst Hr Hsp. destruct (B8 Hst Hr Hsp) as (q & z & Hq & Hz). destruct (decide (q = p)) as [-> | Hne].
    + rewrite Hp in Hq. injection Hq as <-. destruct (H4 Hz) as [Hy | Hy]; [| congruence]. exists p, y. split; [by apply list_lookup_insert_eq, (lookup_lt_Some _ _ x) | done].
    + exists q, z. by rewrite list_lookup_insert_ne.
Qed.

Lemma broadcast_spawn sources gs y b bc : broadcast_ok sources gs b bc → (∀ f, f ∈ [subscribedTo b; stopsSourceOf b; removes b] → f y = false) →
  broadcast_ok sources (gs ++ [y]) b bc.
Proof.
  intros [B1 B2 B3 B4 B5 B6 B7 B8] Hf. assert (subscribedTo b y = false ∧ stopsSourceOf b y = false ∧ removes b y = false) as (H1 & H2 & H3) by (split_and!; apply Hf; set_solver).
  constructor; rewrite ?count_snoc, ?H1, ?H2, ?H3; cbn; rewrite ?Nat.add_0_r; try done.
  - intros Hst. destruct (B6 Hst) as [Hd Hh]. split; [done |]. intros q. rewrite Hh. split; [by apply lookup_app_l_Some |].
    intros [Hq | [_ Hq]]%lookup_app_Some; [done |]. apply list_lookup_singleton_Some in Hq as [_ ->]. cbn in H1. by rewrite bool_decide_eq_true_2 in H1.
  - intros Hst Hr Hsp. destruct (B8 Hst Hr Hsp) as (q & z & Hq & Hz). exists q, z. split; [by apply lookup_app_l_Some | done].
Qed.

Lemma placeOf_Some p po x : placeOf p po = x → x ≠ Gone → po_goroutines po !! p = Some x.
Proof. unfold placeOf. destruct (po_goroutines po !! p) as [y |]; cbn; [by intros -> | by intros <-]. Qed.

(** A move that changes no broadcast. *)
Lemma sources_goes po p x y creates closed : sources_ok po → po_goroutines po !! p = Some x →
  (∀ b bc, po_broadcasts po !! b = Some bc → subscribedTo b x = subscribedTo b y ∧ stopsSourceOf b x = stopsSourceOf b y ∧ removes b x = removes b y ∧
    (willStop b x = true → willStop b y = true ∨ bc_stopped bc = true)) →
  (∀ b, b ∈ mentions y → (b < length (po_broadcasts po))%nat) →
  sources_ok (MkPool (po_routeSources po) creates closed (po_broadcasts po) (<[p := y]> (po_goroutines po))).
Proof.
  intros [S1 S2 S3] Hp Hb Hm. constructor; cbn; [done | |].
  - intros b bc Hbc. destruct (Hb b bc Hbc) as (H1 & H2 & H3 & H4). by eapply broadcast_frame; [apply S2 | ..].
  - intros q z b Hq Hin. apply list_lookup_insert_Some in Hq as [(-> & -> & _) | [_ Hq]]; [by apply Hm | by eapply S3].
Qed.

(** A move that changes one broadcast and the table of sources. *)
Lemma sources_change po p x y b bc bc' sources : sources_ok po → po_goroutines po !! p = Some x → po_broadcasts po !! b = Some bc →
  bc_key bc' = bc_key bc → broadcast_ok sources (<[p := y]> (po_goroutines po)) b bc' →
  (∀ c, c ≠ b → subscribedTo c x = subscribedTo c y ∧ stopsSourceOf c x = stopsSourceOf c y ∧ removes c x = removes c y ∧ willStop c x = willStop c y) →
  (∀ key c, sources !! key = Some c → po_routeSources po !! key = Some c) →
  (∀ key c, c ≠ b → po_routeSources po !! key = Some c → sources !! key = Some c) →
  (∀ c, c ∈ mentions y → (c < length (po_broadcasts po))%nat) →
  sources_ok (MkPool sources (po_routeSourceCreates po) (po_closed po) (<[b := bc']> (po_broadcasts po)) (<[p := y]> (po_goroutines po))).
Proof.
  intros [S1 S2 S3] Hp Hbc Hkey Hok Hx Hs1 Hs2 Hm. constructor; cbn.
  - intros key c Hc. destruct (S1 key c (Hs1 _ _ Hc)) as (cc & Hcc & Hk). destruct (decide (c = b)) as [-> | Hne].
    + exists bc'. rewrite Hbc in Hcc. injection Hcc as <-. split; [by apply list_lookup_insert_eq, (lookup_lt_Some _ _ bc) | congruence].
    + exists cc. by rewrite list_lookup_insert_ne.
  - intros c cc Hc. apply list_lookup_insert_Some in Hc as [(-> & -> & _) | [Hne Hc]]; [done |]. destruct (Hx c) as (H1 & H2 & H3 & H4); [done |].
    eapply broadcast_frame; [by apply S2 | done | done | done | done | rewrite H4; auto |]. split; [by apply Hs2 | by apply Hs1].
  - rewrite length_insert. intros q z c Hq Hin. apply list_lookup_insert_Some in Hq as [(-> & -> & _) | [_ Hq]]; [by apply Hm | by eapply S3].
Qed.

(** *** The steps of a creation *)

Lemma creates_goes po p x y : creates_ok po → po_goroutines po !! p = Some x → creatingOf x = None → creatingOf y = None →
  (isPast x = true → isPast y = true) → (∀ key c, y = Awaiting key c → c ∈ po_closed po ∨ po_routeSourceCreates po !! key = Some c) →
  creates_ok (goesTo p y po).
Proof.
  intros [C1 C2 C3 C4 C5] Hp Hx Hy Hpast Haw. constructor; cbn.
  - intros q z key Hq Hz. apply list_lookup_insert_Some in Hq as [(-> & -> & _) | [_ Hq]]; [congruence | by eapply C1].
  - intros key q Hq. destruct (C2 key q Hq) as (z & Hz & Hk). exists z. split; [| done]. rewrite list_lookup_insert_ne; [done |]. intros ->. congruence.
  - intros q Hq. destruct (C3 q Hq) as (z & Hz & Hzp). destruct (decide (q = p)) as [-> | Hne]; [| by rewrite list_lookup_insert_ne; eauto].
    exists y. split; [by apply list_lookup_insert_eq, (lookup_lt_Some _ _ x) |]. apply Hpast. congruence.
  - intros q key c Hq. apply list_lookup_insert_Some in Hq as [(-> & -> & _) | [_ Hq]]; [by apply Haw | by eapply C4].
  - intros q key Hq. apply list_lookup_insert_Some in Hq as [(-> & -> & _) | [_ Hq]]; [done | by eapply C5].
Qed.

Lemma begin_ok p key po : pool_ok po → placeOf p po = Looking key → pool_ok (beginRouteSourceCreate p key po).
Proof.
  intros [HC HS] Hp%placeOf_Some; [| done]. unfold beginRouteSourceCreate. destruct (po_routeSources po !! key) as [b |] eqn:Es.
  { split; [by eapply creates_goes |]. eapply sources_goes; [done | done | done |]. intros c ->%list_elem_of_singleton.
    destruct (so_sources _ HS key b Es) as (bc & Hb & _). by eapply lookup_lt_Some. }
  destruct (po_routeSourceCreates po !! key) as [c |] eqn:Ec.
  { split; [eapply creates_goes; try done; intros ? ? [= <- <-]; by right |]. eapply sources_goes; [done | done | done |]. intros b Hb. by apply elem_of_nil in Hb. }
  split; [| eapply (sources_goes po); [done | done | done |]; intros b Hb; by apply elem_of_nil in Hb]. pose proof (lookup_lt_Some _ _ _ Hp) as Hlt. destruct HC as [C1 C2 C3 C4 C5].
  constructor; cbn.
  - intros q z k Hq Hz. apply list_lookup_insert_Some in Hq as [(-> & <- & _) | [Hne Hq]].
    + injection Hz as <-. by rewrite lookup_insert_eq.
    + rewrite lookup_insert_ne; [by eapply C1 |]. intros <-. rewrite (C1 q z key Hq Hz) in Ec. done.
  - intros k q Hq. apply lookup_insert_Some in Hq as [[<- <-] | [Hne Hq]]; [exists (Acquiring key); by rewrite list_lookup_insert_eq |].
    destruct (C2 k q Hq) as (z & Hz & Hk). exists z. split; [| done]. rewrite list_lookup_insert_ne; [done |]. intros ->. rewrite Hp in Hz. by injection Hz as <-.
  - intros q Hq. destruct (C3 q Hq) as (z & Hz & Hzp). exists z. split; [| done]. rewrite list_lookup_insert_ne; [done |]. intros ->. rewrite Hp in Hz. by injection Hz as <-.
  - intros q k c Hq. apply list_lookup_insert_Some in Hq as [(_ & ? & _) | [_ Hq]]; [done |]. destruct (C4 q k c Hq) as [Hc | Hc]; [by left |]. right.
    rewrite lookup_insert_ne; [done | congruence].
  - intros q k Hq. apply list_lookup_insert_Some in Hq as [(_ & [= <-] & _) | [_ Hq]]; [done | by eapply C5].
Qed.

Lemma acquired_ok p key ok po : pool_ok po → placeOf p po = Acquiring key → returns (doPool (Acquired p ok) po) pool_ok.
Proof.
  intros [HC HS] Hp. cbn [doPool]. rewrite Hp. apply placeOf_Some in Hp; [| done]. pose proof (co_acquiring _ HC p key Hp) as Hnone.
  assert (∀ sources b, (∀ k, k ≠ key → po_routeSources po !! k = None → sources !! k = None) →
    ∀ broadcasts, creates_ok (MkPool sources (po_routeSourceCreates po) (po_closed po) broadcasts (<[p := Finishing key b]> (po_goroutines po)))) as Hcreates.
  { intros sources b Hk broadcasts. pose proof (lookup_lt_Some _ _ _ Hp) as Hlt. pose proof HC as [C1 C2 C3 C4 C5]. constructor; cbn.
    - intros q z k Hq Hz. apply list_lookup_insert_Some in Hq as [(-> & <- & _) | [_ Hq]]; [injection Hz as <-; by eapply C1 | by eapply C1].
    - intros k q Hq. destruct (C2 k q Hq) as (z & Hz & Hkz). destruct (decide (q = p)) as [-> | Hne]; [| exists z; by rewrite list_lookup_insert_ne].
      exists (Finishing key b). rewrite list_lookup_insert_eq by done. split; [done |]. rewrite Hp in Hz. injection Hz as <-. done.
    - intros q Hq. destruct (C3 q Hq) as (z & Hz & Hzp). exists z. split; [| done]. rewrite list_lookup_insert_ne; [done |]. intros ->. rewrite Hp in Hz. by injection Hz as <-.
    - intros q k c Hq. apply list_lookup_insert_Some in Hq as [(_ & ? & _) | [_ Hq]]; [done | by eapply C4].
    - intros q k Hq. apply list_lookup_insert_Some in Hq as [(_ & ? & _) | [Hne Hq]]; [done |]. apply Hk; [| by eapply C5]. intros ->. apply Hne.
      pose proof (C1 q _ key Hq eq_refl) as E1. pose proof (C1 p _ key Hp eq_refl) as E2. congruence. }
  destruct ok; cbn; [| split; [by apply Hcreates |]; eapply (sources_goes po); [done | done | done |]; intros b Hb; by apply elem_of_nil in Hb].
  unfold commitRouteSource. rewrite Hnone. cbn. split; [apply (Hcreates (<[key := length (po_broadcasts po)]> (po_routeSources po))); intros k Hk Hn; by rewrite lookup_insert_ne |].
  pose proof HS as [S1 S2 S3]. assert (∀ b bc, po_broadcasts po !! b = Some bc → b ≠ length (po_broadcasts po)) as Hfresh by (intros b bc Hb%lookup_lt_Some; lia).
  constructor; cbn.
  - intros k b Hb. apply lookup_insert_Some in Hb as [[<- <-] | [_ Hb]]; [exists (NewBroadcast key); split; [by apply list_lookup_middle | done] |].
    destruct (S1 k b Hb) as (bc & Hbc & Hk). exists bc. split; [by apply lookup_app_l_Some | done].
  - intros b bc Hb. apply lookup_app_Some in Hb as [Hb | [Hge Hb]].
    + eapply broadcast_frame; [by apply S2 | done | done | done | done | done |]. destruct (decide (bc_key bc = key)) as [-> | Hne]; [| by rewrite lookup_insert_ne].
      rewrite lookup_insert_eq, Hnone. split; [done |]. intros [= E]. by destruct (Hfresh b bc Hb).
    + apply list_lookup_singleton_Some in Hb as [E <-]. assert (b = length (po_broadcasts po)) as -> by lia.
      assert (∀ f, (∀ x, f x = true → length (po_broadcasts po) ∈ mentions x) → f (Finishing key (Some (length (po_broadcasts po)))) = false →
        count f (<[p := Finishing key (Some (length (po_broadcasts po)))]> (po_goroutines po)) = 0%nat) as Hzero.
      { intros f Hf Hff. destruct (decide (count f (<[p := Finishing key (Some (length (po_broadcasts po)))]> (po_goroutines po)) = 0%nat)) as [| Hn]; [done |]. exfalso.
        assert (0 < count f (<[p := Finishing key (Some (length (po_broadcasts po)))]> (po_goroutines po)))%nat as (q & z & Hq & Hz)%count_pos by lia.
        apply list_lookup_insert_Some in Hq as [(_ & <- & _) | [_ Hq]]; [congruence |]. pose proof (S3 q z _ Hq (Hf z Hz)). lia. }
      constructor; cbn; try done.
      * rewrite Hzero; [done | | done]. intros x. destruct x; cbn; try done. intros ->%bool_decide_eq_true. constructor.
      * rewrite Hzero; [done | | done]. intros x. destruct x; cbn; try done. intros ->%bool_decide_eq_true. constructor.
      * rewrite Hzero; [done | | done]. intros x. destruct x; cbn; try done. intros ->%bool_decide_eq_true. constructor.
      * intros _. by rewrite lookup_insert_eq.
      * intros _. split; [constructor |]. intros q. split; [by intros ?%elem_of_nil |]. intros Hq. exfalso.
        apply list_lookup_insert_Some in Hq as [(_ & ? & _) | [_ Hq]]; [done |]. pose proof (S3 q _ (length (po_broadcasts po)) Hq ltac:(constructor)). lia.
  - rewrite length_app. cbn. intros q z b Hq Hin. apply list_lookup_insert_Some in Hq as [(_ & <- & _) | [_ Hq]]; [apply list_elem_of_singleton in Hin; lia |].
    pose proof (S3 q z b Hq Hin). lia.
Qed.

Lemma finishes_ok p key b po : pool_ok po → placeOf p po = Finishing key b → returns (doPool (Finishes p) po) pool_ok.
Proof.
  intros [HC HS] Hp. cbn [doPool]. rewrite Hp. apply placeOf_Some in Hp; [| done]. pose proof (co_creating _ HC p _ key Hp eq_refl) as Hcr.
  unfold finishCreate. rewrite bool_decide_eq_true_2 by done. rewrite bool_decide_eq_false_2.
  2: { intros (x & Hx & Hpast)%(co_closed _ HC). rewrite Hp in Hx. by injection Hx as <-. }
  cbn. split; [| eapply (sources_goes po p (Finishing key b)); [done | done | by destruct b |]; intros c Hc;
    eapply (so_range _ HS p (Finishing key b)); [done | destruct b; [done | by apply elem_of_nil in Hc]]].
  pose proof (lookup_lt_Some _ _ _ Hp) as Hlt. destruct HC as [C1 C2 C3 C4 C5]. set (y := match b with Some b => Holding b | None => Gone end).
  assert (creatingOf y = None ∧ isPast y = true) as [Hy Hyp] by (by destruct b). constructor; cbn.
  - intros q z k Hq Hz. apply list_lookup_insert_Some in Hq as [(_ & <- & _) | [Hne Hq]]; [congruence |]. rewrite lookup_delete_ne; [by eapply C1 |].
    intros <-. pose proof (C1 q z key Hq Hz). congruence.
  - intros k q Hq. apply lookup_delete_Some in Hq as [Hne Hq]. destruct (C2 k q Hq) as (z & Hz & Hk). exists z. split; [| done].
    rewrite list_lookup_insert_ne; [done |]. intros ->. rewrite Hp in Hz. injection Hz as <-. cbn in Hk. congruence.
  - intros q [-> %elem_of_singleton | Hq]%elem_of_union; [exists y; by rewrite list_lookup_insert_eq |].
    destruct (C3 q Hq) as (z & Hz & Hzp). exists z. split; [| done]. rewrite list_lookup_insert_ne; [done |]. intros ->. rewrite Hp in Hz. by injection Hz as <-.
  - intros q k c Hq. apply list_lookup_insert_Some in Hq as [(_ & E & _) | [_ Hq]]; [subst y; by destruct b |]. destruct (C4 q k c Hq) as [Hc | Hc]; [left; set_solver |].
    destruct (decide (k = key)) as [-> | Hne]; [left; rewrite Hcr in Hc; injection Hc as ->; set_solver | right; by rewrite lookup_delete_ne].
  - intros q k Hq. apply list_lookup_insert_Some in Hq as [(_ & E & _) | [_ Hq]]; [subst y; by destruct b | by eapply C5].
Qed.

(** *** The steps of a broadcast *)

(** What the counts become, and who is where, when [p] moves from [x] to [y]. *)
Ltac moves Hp :=
  repeat match goal with
  | |- context [count ?f (<[?p := ?y]> ?l)] => let E := fresh "Hcount" in pose proof (count_insert f l p _ y Hp) as E; cbn in E; revert E; generalize (count f (<[p := y]> l)); intros ? E
  end.

Lemma decide_self b : bool_decide (b = b :> nat) = true.
Proof. by apply bool_decide_eq_true_2. Qed.
Lemma decide_other b c : c ≠ b → bool_decide (c = b :> nat) = false.
Proof. intros. by apply bool_decide_eq_false_2. Qed.

Lemma attach_pool_ok p b starts po : pool_ok po → placeOf p po = Holding b → returns (attach p b starts po) pool_ok.
Proof.
  intros [HC HS] Hp%placeOf_Some; [| done]. unfold attach. assert (b < length (po_broadcasts po))%nat as Hlt by (eapply (so_range _ HS p); [done | constructor]).
  destruct (lookup_lt_is_Some_2 _ _ Hlt) as [bc Hbc]. rewrite Hbc. destruct (bc_stopped bc) eqn:Est.
  { cbn. split; [by eapply creates_goes |]. eapply (sources_goes po); [done | done | done |]. intros c Hc. by apply elem_of_nil in Hc. }
  pose proof (so_broadcasts _ HS b bc Hbc) as [B1 B2 B3 B4 B5 B6 B7 B8]. pose proof (lookup_lt_Some _ _ _ Hp) as Hpl.
  assert (bc_released bc = false) as Hrel by (destruct (bc_released bc) eqn:E; [by rewrite B5 in Est |  done]).
  destruct (bc_started bc || starts) eqn:Estart.
  - cbn. split; [by eapply (creates_past po) |]. eapply (sources_change po p (Holding b)); [done | done | done | done | | | done | done |].
    + rewrite Est, Hrel in *. cbn in *. destruct (B6 eq_refl) as [Hd Hh]. constructor; cbn; try done; rewrite ?Hrel; cbn.
      * moves Hp. rewrite decide_self in Hcount. cbn in Hcount. lia.
      * moves Hp. lia.
      * moves Hp. lia.
      * intros _. split.
        -- apply NoDup_app. split; [done |]. split; [| apply NoDup_singleton]. intros q Hq ->%list_elem_of_singleton. apply Hh in Hq. congruence.
        -- intros q. rewrite elem_of_app, list_elem_of_singleton, Hh. destruct (decide (q = p)) as [-> | Hne]; [rewrite list_lookup_insert_eq by done; tauto |].
           rewrite list_lookup_insert_ne by done. tauto.
      * lia.
    + intros c Hne. cbn. by rewrite (decide_other b c).
    + intros c ->%list_elem_of_singleton. done.
  - cbn. split; [by eapply creates_goes |]. eapply (sources_goes po); [done | done | done |]. intros c ->%list_elem_of_singleton. done.
Qed.

Lemma detach_pool_ok p b po : pool_ok po → placeOf p po = Subscribed b → returns (detach p b po) pool_ok.
Proof.
  intros [HC HS] Hp%placeOf_Some; [| done]. unfold detach. assert (b < length (po_broadcasts po))%nat as Hlt by (eapply (so_range _ HS p); [done | constructor]).
  destruct (lookup_lt_is_Some_2 _ _ Hlt) as [bc Hbc]. rewrite Hbc. cbn. pose proof (so_broadcasts _ HS b bc Hbc) as [B1 B2 B3 B4 B5 B6 B7 B8].
  assert (0 < count (subscribedTo b) (po_goroutines po))%nat as Hpos by (apply count_pos; exists p, (Subscribed b); cbn; by rewrite decide_self).
  assert ((0 <? bc_refs bc) = true) as -> by (apply Z.ltb_lt; lia). set (y := if bc_refs bc - 1 =? 0 then Stopping [b] else Gone).
  assert (isPast y = true ∧ ∀ c, c ≠ b → willStop c y = false) as [Hy Hyc] by (subst y; case_match; cbn; split; try done; intros c Hc; apply bool_decide_eq_false_2; set_solver).
  assert (∀ c, subscribedTo c y = false ∧ stopsSourceOf c y = false ∧ removes c y = false) as Hyf by (intros c; subst y; by case_match).
  split; [by eapply (creates_past po) |]. eapply (sources_change po p (Subscribed b)); [done | done | done | done | | | done | done |].
  - destruct (Hyf b) as (Y1 & Y2 & Y3). constructor; cbn; try done.
    + moves Hp. rewrite decide_self, Y1 in Hcount. cbn in Hcount. lia.
    + moves Hp. rewrite Y2 in Hcount. cbn in Hcount. lia.
    + moves Hp. rewrite Y3 in Hcount. cbn in Hcount. lia.
    + intros Hst. destruct (B6 Hst) as [Hd Hh]. split; [by apply NoDup_filter |]. intros q. rewrite list_elem_of_filter, Hh. destruct (decide (q = p)) as [-> | Hne].
      * rewrite list_lookup_insert_eq by (by eapply lookup_lt_Some). split; [tauto |]. intros [= E]. subst y. by case_match.
      * rewrite list_lookup_insert_ne by done. tauto.
    + intros _. apply B7. lia.
    + intros _ Hz _. exists p, y. split; [apply list_lookup_insert_eq; by eapply lookup_lt_Some |]. subst y. rewrite (proj2 (Z.eqb_eq _ _) Hz). cbn. apply bool_decide_eq_true_2. set_solver.
  - intros c Hne. destruct (Hyf c) as (-> & -> & ->). cbn. by rewrite (decide_other b c), Hyc.
  - intros c. subst y. case_match; [by intros ->%list_elem_of_singleton | by intros ?%elem_of_nil].
Qed.

Lemma afterStop_facts l : isPast (afterStop l) = true ∧ mentions (afterStop l) = l ∧
  ∀ c, subscribedTo c (afterStop l) = false ∧ stopsSourceOf c (afterStop l) = false ∧ removes c (afterStop l) = false ∧ willStop c (afterStop l) = bool_decide (c ∈ l).
Proof. split; [by destruct l |]. split; [by destruct l |]. intros c. by destruct l. Qed.

Lemma decide_cons (c b : nat) l : c ≠ b → bool_decide (c ∈ b :: l) = bool_decide (c ∈ l).
Proof. intros. apply bool_decide_ext. set_solver. Qed.

Lemma stop_pool_ok p b l po : pool_ok po → placeOf p po = Stopping (b :: l) → returns (stopBroadcast p b l po) pool_ok.
Proof.
  intros [HC HS] Hp%placeOf_Some; [| done]. assert (∀ c, c ∈ b :: l → (c < length (po_broadcasts po))%nat) as Hrange by (intros c Hc; by eapply (so_range _ HS p)).
  unfold stopBroadcast. destruct (lookup_lt_is_Some_2 _ _ (Hrange b ltac:(constructor))) as [bc Hbc]. rewrite Hbc.
  destruct (afterStop_facts l) as (Ha1 & Ha2 & Ha3). destruct (bc_stopped bc) eqn:Est.
  - cbn. split; [eapply creates_goes; try done; by destruct l |]. eapply (sources_goes po); [done | done | |].
    + intros c cc Hc. destruct (Ha3 c) as (-> & -> & -> & ->). split_and!; try done. cbn. destruct (decide (c = b)) as [-> | Hne]; [right; congruence |].
      rewrite decide_cons by done. auto.
    + rewrite Ha2. intros c Hc. apply Hrange. by constructor.
  - cbn. split; [by eapply (creates_past po) |]. pose proof (so_broadcasts _ HS b bc Hbc) as [B1 B2 B3 B4 B5 B6 B7 B8].
    assert (bc_released bc = false) as Hrel by (destruct (bc_released bc) eqn:E; [by rewrite B5 in Est |  done]).
    eapply (sources_change po p (Stopping (b :: l))); [done | done | done | done | | | done | done |].
    + rewrite Est, Hrel in *. cbn in *. constructor; cbn; try done; rewrite ?Hrel; cbn.
      * moves Hp. lia.
      * moves Hp. rewrite decide_self in Hcount. cbn in Hcount. lia.
      * moves Hp. lia.
    + intros c Hne. cbn. by rewrite (decide_other b c), decide_cons.
    + intros c Hc. by apply Hrange.
Qed.

Lemma stopSource_pool_ok p b l po : pool_ok po → placeOf p po = StoppingSource b l → returns (stopSource p b l po) pool_ok.
Proof.
  intros [HC HS] Hp%placeOf_Some; [| done]. assert (∀ c, c ∈ b :: l → (c < length (po_broadcasts po))%nat) as Hrange by (intros c Hc; by eapply (so_range _ HS p)).
  unfold stopSource. destruct (lookup_lt_is_Some_2 _ _ (Hrange b ltac:(constructor))) as [bc Hbc]. rewrite Hbc. pose proof (so_broadcasts _ HS b bc Hbc) as [B1 B2 B3 B4 B5 B6 B7 B8].
  assert (0 < count (stopsSourceOf b) (po_goroutines po))%nat as Hpos by (apply count_pos; exists p, (StoppingSource b l); cbn; by rewrite decide_self).
  assert (bc_stopped bc = true ∧ bc_released bc = false) as [Hst Hrel] by (destruct (bc_stopped bc), (bc_released bc); cbn in *; try done; lia). rewrite Hrel.
  cbn. split; [by eapply (creates_past po) |]. eapply (sources_change po p (StoppingSource b l)); [done | done | done | done | | | done | done |].
  - rewrite Hst, Hrel in *. cbn in *. specialize (B4 eq_refl). constructor; cbn; try done.
    + moves Hp. lia.
    + moves Hp. rewrite decide_self in Hcount. cbn in Hcount. cbn. lia.
    + moves Hp. rewrite decide_self in Hcount. cbn in Hcount. rewrite B4, bool_decide_eq_true_2 by done. cbn. lia.
  - intros c Hne. cbn. by rewrite (decide_other b c).
  - intros c Hc. by apply Hrange.
Qed.

Lemma onStop_pool_ok p b l po : pool_ok po → placeOf p po = Removing b l → returns (runOnStop p b l po) pool_ok.
Proof.
  intros [HC HS] Hp%placeOf_Some; [| done]. assert (∀ c, c ∈ b :: l → (c < length (po_broadcasts po))%nat) as Hrange by (intros c Hc; by eapply (so_range _ HS p)).
  unfold runOnStop. destruct (lookup_lt_is_Some_2 _ _ (Hrange b ltac:(constructor))) as [bc Hbc]. rewrite Hbc. pose proof (so_broadcasts _ HS b bc Hbc) as [B1 B2 B3 B4 B5 B6 B7 B8].
  destruct (afterStop_facts l) as (Ha1 & Ha2 & Ha3). destruct (Ha3 b) as (A1 & A2 & A3 & A4).
  assert (0 < count (removes b) (po_goroutines po))%nat as Hpos by (apply count_pos; exists p, (Removing b l); cbn; by rewrite decide_self).
  assert (bc_released bc = true ∧ po_routeSources po !! bc_key bc = Some b) as [Hrel Hsrc].
  { destruct (bc_released bc); cbn in *; [| lia]. destruct (bool_decide (po_routeSources po !! bc_key bc = Some b)) eqn:E; [apply bool_decide_eq_true in E; done | cbn in *; lia]. }
  specialize (B5 Hrel). cbn. split; [eapply (creates_past po); try done; intros key Hn; apply lookup_delete_None; by right |].
  cut (sources_ok (MkPool (delete (bc_key bc) (po_routeSources po)) (po_routeSourceCreates po) (po_closed po) (<[b := bc]> (po_broadcasts po))
    (<[p := afterStop l]> (po_goroutines po)))); [by rewrite list_insert_id by done |].
  eapply (sources_change po p (Removing b l)); [done | done | done | done | | | | |].
  - rewrite B5, Hrel in *. cbn in *. constructor; cbn; try done; rewrite ?B5, ?Hrel; cbn; try done.
    + moves Hp. rewrite A1 in Hcount. cbn in Hcount. lia.
    + moves Hp. rewrite A2 in Hcount. cbn in Hcount. lia.
    + moves Hp. rewrite decide_self, A3 in Hcount. cbn in Hcount. rewrite lookup_delete_eq, bool_decide_eq_false_2 by done. cbn.
      rewrite bool_decide_eq_true_2 in B3 by done. cbn in B3. lia.
  - intros c Hne. destruct (Ha3 c) as (-> & -> & -> & ->). cbn. by rewrite (decide_other b c).
  - intros key c [_ Hc]%lookup_delete_Some. done.
  - intros key c Hne Hc. rewrite lookup_delete_ne; [done |]. intros <-. congruence.
  - rewrite Ha2. intros c Hc. apply Hrange. by constructor.
Qed.

Lemma spawn_ok x po : pool_ok po → creatingOf x = None → (∀ key c, x ≠ Awaiting key c) →
  (∀ b f, f ∈ [subscribedTo b; stopsSourceOf b; removes b] → f x = false) → (∀ b, b ∈ mentions x → (b < length (po_broadcasts po))%nat) → pool_ok (spawn x po).
Proof.
  intros [[C1 C2 C3 C4 C5] [S1 S2 S3]] Hx Haw Hf Hm.
  assert (∀ q z, (po_goroutines po ++ [x]) !! q = Some z → po_goroutines po !! q = Some z ∨ z = x) as Hold.
  { intros q z [Hq | [_ Hq]]%lookup_app_Some; [by left |]. apply list_lookup_singleton_Some in Hq as [_ ->]. by right. }
  split; constructor; cbn.
  - intros q z key [Hq | ->]%Hold Hz; [by eapply C1 | congruence].
  - intros key q Hq. destruct (C2 key q Hq) as (z & Hz & Hk). exists z. split; [by apply lookup_app_l_Some | done].
  - intros q Hq. destruct (C3 q Hq) as (z & Hz & Hk). exists z. split; [by apply lookup_app_l_Some | done].
  - intros q key c [Hq | E]%Hold; [by eapply C4 | by destruct (Haw key c (eq_sym E))].
  - intros q key [Hq | E]%Hold; [by eapply C5 | by rewrite <- E in Hx].
  - done.
  - intros b bc Hb. apply broadcast_spawn; [by apply S2 | by apply Hf].
  - intros q z b [Hq | ->]%Hold; [by eapply S3 | by apply Hm].
Qed.

Lemma doPool_ok a po : pool_ok po → canPool a po = true → returns (doPool a po) pool_ok.
Proof.
  intros Hok Hc. pose proof Hok as [HC HS]. destruct a as [key | b | l | p | p | p | p ok | p | p starts | p | p]; cbn [canPool] in Hc.
  - apply spawn_ok; try done; [by intros b f Hf; repeat (apply elem_of_cons in Hf as [-> | Hf]; [done |]); apply elem_of_nil in Hf | by intros b ?%elem_of_nil].
  - apply bool_decide_eq_true in Hc. apply spawn_ok; try done; [by intros c f Hf; repeat (apply elem_of_cons in Hf as [-> | Hf]; [done |]); apply elem_of_nil in Hf |].
    by intros c ->%list_elem_of_singleton.
  - apply bool_decide_eq_true in Hc. destruct (afterStop_facts l) as (Ha1 & Ha2 & Ha3). apply spawn_ok; try done; [by destruct l | by destruct l | |].
    + intros b f Hf. destruct (Ha3 b) as (A1 & A2 & A3 & _). by repeat (apply elem_of_cons in Hf as [-> | Hf]; [done |]); apply elem_of_nil in Hf.
    + rewrite Ha2. intros b Hb. rewrite Hc in Hb. apply list_elem_of_fmap in Hb as ([key b'] & -> & Hkb%elem_of_map_to_list).
      destruct (so_sources _ HS key b' Hkb) as (bc & Hbc & _). by eapply lookup_lt_Some.
  - cbn [doPool]. destruct (placeOf p po) eqn:Hp; try done. by apply begin_ok.
  - cbn [doPool]. destruct (placeOf p po) as [| key c | | | | | | | |] eqn:Hp; try done. apply placeOf_Some in Hp; [| done].
    split; [by eapply creates_goes |]. eapply (sources_goes po); [done | done | done |]. by intros b ?%elem_of_nil.
  - cbn [doPool]. assert (∃ x, po_goroutines po !! p = Some x ∧ creatingOf x = None ∧ ∀ b, subscribedTo b x = false ∧ stopsSourceOf b x = false ∧ removes b x = false ∧ willStop b x = false)
      as (x & Hp & Hx & Hxb) by (destruct (placeOf p po) eqn:Hp; try done; apply placeOf_Some in Hp; try done; eauto 10).
    split; [by eapply creates_goes |]. eapply (sources_goes po); [done | done | | by intros b ?%elem_of_nil]. intros b bc _. by destruct (Hxb b) as (-> & -> & -> & ->).
  - destruct (placeOf p po) eqn:Hp; try done. by eapply acquired_ok.
  - destruct (placeOf p po) eqn:Hp; try done. by eapply finishes_ok.
  - cbn [doPool]. destruct (placeOf p po) eqn:Hp; try done. by apply attach_pool_ok.
  - cbn [doPool]. destruct (placeOf p po) eqn:Hp; try done. by apply detach_pool_ok.
  - cbn [doPool]. destruct (placeOf p po) as [| | | | | | [| b l] | | |] eqn:Hp; try done.
    + apply placeOf_Some in Hp; [| done]. split; [by eapply creates_goes |]. eapply (sources_goes po); [done | done | | by intros b ?%elem_of_nil].
      intros b bc _. done.
    + by apply stop_pool_ok.
    + by apply stopSource_pool_ok.
    + by apply onStop_pool_ok.
Qed.

Lemma reachable_pool po : poolReachable po → pool_ok po.
Proof.
  induction 1 as [| po a po' _ IH Hc E]; [| pose proof (doPool_ok a po IH Hc) as H; by rewrite E in H]. split; constructor; cbn; try done.
Qed.

(** ** The theorems *)

(** C11 (safety): whatever requests, subscribers and shutdowns do and in whatever
    order, no step fails: a creation's channel is closed once, a device that was
    acquired gets a broadcast, and a broadcast's device is stopped once.  And a route
    is opened at most once at a time: of the broadcasts of a key one at most has a
    device that is not given back, and while a request acquires a device for a key
    it is the only one that does, and there is no other device. *)
Theorem one_device_per_route po a : poolReachable po → canPool a po = true →
  returns (doPool a po) (λ _, True) ∧
  (∀ b b' bc bc', po_broadcasts po !! b = Some bc → po_broadcasts po !! b' = Some bc' → bc_key bc = bc_key bc' →
    bc_released bc = false → bc_released bc' = false → b = b') ∧
  ∀ p key, po_goroutines po !! p = Some (Acquiring key) → (∀ q, po_goroutines po !! q = Some (Acquiring key) → q = p) ∧
    ∀ b bc, po_broadcasts po !! b = Some bc → bc_key bc = key → bc_released bc = true.
Proof.
  intros Hr Hc. apply reachable_pool in Hr as Hok. pose proof Hok as [HC HS]. split; [eapply safe_mono; [by apply doPool_ok | done] |]. split.
  - intros b b' bc bc' Hb Hb' Hk H1 H2. pose proof (bo_held _ _ _ _ (so_broadcasts _ HS b bc Hb) H1) as E1.
    pose proof (bo_held _ _ _ _ (so_broadcasts _ HS b' bc' Hb') H2) as E2. congruence.
  - intros p key Hp. split.
    + intros q Hq. pose proof (co_creating _ HC p _ key Hp eq_refl). pose proof (co_creating _ HC q _ key Hq eq_refl). congruence.
    + intros b bc Hb <-. pose proof (co_acquiring _ HC p _ Hp) as Hn. destruct (bc_released bc) eqn:E; [done |].
      pose proof (bo_held _ _ _ _ (so_broadcasts _ HS b bc Hb) E). congruence.
Qed.

(** The count of a broadcast is that of its subscribers; a broadcast
    with subscribers has been started; until it is stopped, its multi-writer serves
    exactly its subscribers, each once, and it is the one the pool hands out for its
    route; and once its device is given back, it has been stopped, and is handed out
    only while one goroutine is about to remove it. *)
Theorem broadcast_counts po b bc : poolReachable po → po_broadcasts po !! b = Some bc →
  bc_refs bc = Z.of_nat (count (subscribedTo b) (po_goroutines po)) ∧ (0 < bc_refs bc → bc_started bc = true) ∧
  (bc_stopped bc = false → NoDup (bc_hub bc) ∧ (∀ p, p ∈ bc_hub bc ↔ po_goroutines po !! p = Some (Subscribed b)) ∧
    po_routeSources po !! bc_key bc = Some b) ∧
  (bc_released bc = true → bc_stopped bc = true ∧
    count (removes b) (po_goroutines po) = b2n (bool_decide (po_routeSources po !! bc_key bc = Some b))).
Proof.
  intros Hr Hb. apply reachable_pool in Hr as [_ HS]. pose proof (so_broadcasts _ HS b bc Hb) as [B1 B2 B3 B4 B5 B6 B7 B8].
  split; [done |]. split; [done |]. split.
  - intros Hst. destruct (B6 Hst) as [Hd Hh]. split; [done |]. split; [done |]. apply B4. destruct (bc_released bc); [| done]. by rewrite B5 in Hst.
  - intros Hrel. split; [by apply B5 |]. by rewrite Hrel in B3.
Qed.

(** *** Progress *)

Definition isStopping (x : place) : bool := match x with Stopping _ | StoppingSource _ _ | Removing _ _ => true | _ => false end.
(** The steps a stopping goroutine has left, at most. *)
Definition placeLeft (x : place) : nat :=
  match x with Stopping l => 3 * length l + 1 | StoppingSource _ l => 3 * length l + 3 | Removing _ l => 3 * length l + 2 | _ => 0 end.
Definition actor (a : poolStep) : option nat :=
  match a with
  | Tries _ | Uses _ | Shuts _ => None
  | Begins p | Woken p | GivesUp p | Acquired p _ | Finishes p | Attaches p _ | Detaches p | StopsNext p => Some p
  end.

Lemma afterStop_left l : (placeLeft (afterStop l) ≤ 3 * length l + 1)%nat.
Proof. destruct l; cbn; lia. Qed.

(** A step moves its own goroutine only. *)
Lemma others_stay a po po' p x : canPool a po = true → doPool a po = Ret po' → actor a ≠ Some p → po_goroutines po !! p = Some x → po_goroutines po' !! p = Some x.
Proof.
  intros Hc E Ha Hp. destruct a as [key | b | l | q | q | q | q ok | q | q starts | q | q]; cbn [doPool actor canPool] in *;
    try (injection E as <-; by apply lookup_app_l_Some); assert (q ≠ p) as Hne by congruence;
    try (destruct (placeOf q po) as [| | | | | | [| b' l'] | | |] eqn:Eq; try done);
    try (injection E as <-; cbn; by rewrite list_lookup_insert_ne).
  - injection E as <-. unfold beginRouteSourceCreate. repeat case_match; cbn; by rewrite list_lookup_insert_ne.
  - destruct ok; [| injection E as <-; cbn; by rewrite list_lookup_insert_ne]. unfold commitRouteSource in E. repeat case_match; simplify_eq; cbn; by rewrite list_lookup_insert_ne.
  - apply bind_Ret_inv in E as (po1 & E1 & E). unfold finishCreate in E1. repeat case_match; simplify_eq; cbn; by rewrite list_lookup_insert_ne.
  - unfold attach in E. repeat case_match; simplify_eq; cbn; by rewrite list_lookup_insert_ne.
  - unfold detach in E. repeat case_match; simplify_eq; cbn; by rewrite list_lookup_insert_ne.
  - unfold stopBroadcast in E. repeat case_match; simplify_eq; cbn; by rewrite list_lookup_insert_ne.
  - unfold stopSource in E. repeat case_match; simplify_eq; cbn; by rewrite list_lookup_insert_ne.
  - unfold runOnStop in E. repeat case_match; simplify_eq; cbn; by rewrite list_lookup_insert_ne.
Qed.

Lemma stopping_moves po po' p x : po_goroutines po !! p = Some x → isStopping x = true → doPool (StopsNext p) po = Ret po' →
  ∃ y, po_goroutines po' !! p = Some y ∧ (placeLeft y < placeLeft x)%nat.
Proof.
  intros Hp Hx E. assert (placeOf p po = x) as Ep by (unfold placeOf; by rewrite Hp). cbn [doPool] in E. rewrite Ep in E. pose proof (lookup_lt_Some _ _ _ Hp) as Hlt.
  assert (∀ y po1, po_goroutines po1 = po_goroutines po → (placeLeft y < placeLeft x)%nat → goesTo p y po1 = po' → ∃ y, po_goroutines po' !! p = Some y ∧ (placeLeft y < placeLeft x)%nat) as Hgo.
  { intros y po1 Hpo1 Hy <-. exists y. split; [| done]. cbn. rewrite Hpo1. by apply list_lookup_insert_eq. }
  destruct x as [| | | | | | [| b l] | b l | b l |]; try done.
  - injection E as E. eapply Hgo; [| | exact E]; [done | cbn; lia].
  - unfold stopBroadcast in E. destruct (po_broadcasts po !! b) as [bc |]; [| done]. pose proof (afterStop_left l). destruct (bc_stopped bc); injection E as E; (eapply Hgo; [| | exact E]; [done | cbn; lia]).
  - unfold stopSource in E. destruct (po_broadcasts po !! b) as [bc |]; [| done]. destruct (bc_released bc); [done |]. injection E as E. eapply Hgo; [| | exact E]; [done | cbn; lia].
  - unfold runOnStop in E. destruct (po_broadcasts po !! b) as [bc |]; [| done]. pose proof (afterStop_left l). injection E as E. eapply Hgo; [| | exact E]; [done | cbn; lia].
Qed.

Lemma stoppers_act po a p x : canPool a po = true → po_goroutines po !! p = Some x → isStopping x = true → actor a = Some p → a = StopsNext p.
Proof.
  intros Hc Hp Hx Ha. assert (placeOf p po = x) as Ep by (unfold placeOf; by rewrite Hp).
  destruct a; cbn in *; try done; simplify_eq; try done; destruct (placeOf p po); done.
Qed.

(** C12 (liveness): no device is kept for nobody: when the last subscriber of a
    broadcast has left, some goroutine is about to stop it until the device is given
    back; that goroutine always has a next step, each of its steps brings its end
    nearer and nothing else moves it.  And a request that waits for another's creation
    can go on, or that creation is at work. *)
Theorem unwatched_is_stopped po : poolReachable po →
  (∀ b bc, po_broadcasts po !! b = Some bc → bc_started bc = true → bc_refs bc = 0 → bc_released bc = false →
    ∃ p x, po_goroutines po !! p = Some x ∧ isStopping x = true ∧ (willStop b x || stopsSourceOf b x) = true) ∧
  (∀ p x, po_goroutines po !! p = Some x → isStopping x = true →
    canPool (StopsNext p) po = true ∧ returns (doPool (StopsNext p) po) (λ po', ∃ y, po_goroutines po' !! p = Some y ∧ (placeLeft y < placeLeft x)%nat) ∧
    ∀ a, canPool a po = true → a ≠ StopsNext p → returns (doPool a po) (λ po', po_goroutines po' !! p = Some x)) ∧
  (∀ p key c, po_goroutines po !! p = Some (Awaiting key c) → canPool (Woken p) po = true ∨
    ∃ x, po_goroutines po !! c = Some x ∧ creatingOf x = Some key ∧ (canPool (Acquired c true) po || canPool (Finishes c) po) = true).
Proof.
  intros Hr. apply reachable_pool in Hr as Hok. pose proof Hok as [HC HS]. split_and!.
  - intros b bc Hb Hst Hrefs Hrel. destruct (so_broadcasts _ HS b bc Hb) as [_ B2 _ _ _ _ _ B8]. destruct (bc_stopped bc) eqn:Es.
    + rewrite Hrel in B2. cbn in B2. assert (0 < count (stopsSourceOf b) (po_goroutines po))%nat as (p & x & Hp & Hx)%count_pos by lia. exists p, x.
      split; [done |]. split; [by destruct x |]. by rewrite Hx, orb_true_r.
    + destruct (B8 Hst Hrefs eq_refl) as (p & x & Hp & Hx). exists p, x. split; [done |]. split; [by destruct x | by rewrite Hx].
  - intros p x Hp Hx. assert (placeOf p po = x) as Ep by (unfold placeOf; by rewrite Hp). assert (canPool (StopsNext p) po = true) as Hc by (cbn; rewrite Ep; by destruct x).
    split; [done |]. split.
    + pose proof (doPool_ok (StopsNext p) po Hok Hc) as H. destruct (doPool (StopsNext p) po) as [po' | | |] eqn:E; try done. by eapply stopping_moves.
    + intros a Ha Hne. pose proof (doPool_ok a po Hok Ha) as H. destruct (doPool a po) as [po' | | |] eqn:E; try done. cbn.
      eapply others_stay; [done | done | | done]. intros Hact. apply Hne. by eapply stoppers_act.
  - intros p key c Hp. assert (placeOf p po = Awaiting key c) as Ep by (unfold placeOf; by rewrite Hp). destruct (co_awaiting _ HC p key c Hp) as [Hcl | Hcr].
    + left. cbn. rewrite Ep. by apply bool_decide_eq_true_2.
    + right. destruct (co_creates _ HC key c Hcr) as (x & Hx & Hk). exists x. split; [done |]. split; [done |]. cbn.
      assert (placeOf c po = x) as -> by (unfold placeOf; by rewrite Hx). by destruct x.
Qed.

(** ** The users of a remote input *)

Section RemoteUsers.

(** [tuner.User], of which only the identifier matters here. *)
Context {user : Type}.
Variable userID : user → string.

Record trackedUser : Type := MkTracked { tk_user : user; tk_refs : Z }.
Abbreviation remoteUsers := (gmap string trackedUser).

(** [WithUser] before it calls [run], and after. *)
Definition enterUser (u : user) (users : remoteUsers) : remoteUsers :=
  if empty (userID u) then users
  else <[userID u := MkTracked u (match users !! userID u with Some t => tk_refs t + 1 | None => 1 end)]> users.
Definition leaveUser (u : user) (users : remoteUsers) : remoteUsers :=
  if empty (userID u) then users
  else match users !! userID u with
       | Some t => if tk_refs t <=? 1 then delete (userID u) users else <[userID u := MkTracked (tk_user t) (tk_refs t - 1)]> users
       | None => delete (userID u) users
       end.

#[local] Instance userOrder_dec (a b : user) : Decision (String.leb (userID a) (userID b) = true).
Proof. apply _. Defined.

(** [Users]: sorted by identifier. *)
Definition Users (users : remoteUsers) : list user :=
  merge_sort (λ a b, String.leb (userID a) (userID b) = true) (map (λ e, tk_user (snd e)) (map_to_list users)).

(** The calls of [WithUser] that run. *)
Inductive userCalls : list user → remoteUsers → Prop :=
| calls_none : userCalls [] ∅
| calls_enter calls users u : userCalls calls users → userCalls (u :: calls) (enterUser u users)
| calls_leave before u after users : userCalls (before ++ u :: after) users → userCalls (before ++ after) (leaveUser u users).

Definition callsOf (id : string) (calls : list user) : list user := filter (λ u, userID u = id) calls.

Lemma callsOf_cons id u calls : callsOf id (u :: calls) = if decide (userID u = id) then u :: callsOf id calls else callsOf id calls.
Proof. unfold callsOf. by rewrite filter_cons. Qed.
Lemma callsOf_app id l k : callsOf id (l ++ k) = callsOf id l ++ callsOf id k.
Proof. unfold callsOf. by rewrite filter_app. Qed.

(** Every identifier with running calls, and no other, is tracked with their number. *)
Lemma calls_tracked calls users : userCalls calls users →
  ∀ id, match users !! id with
        | Some t => id ≠ "" ∧ tk_refs t = len (callsOf id calls) ∧ 0 < tk_refs t ∧ userID (tk_user t) = id
        | None => id = "" ∨ callsOf id calls = []
        end.
Proof.
  induction 1 as [| calls users u _ IH | before u after users _ IH]; intros id; [rewrite lookup_empty; by right | |].
  - specialize (IH id). unfold enterUser. rewrite callsOf_cons. destruct (empty (userID u)) eqn:E.
    + apply empty_true in E. case_decide as Hid; [| done]. rewrite <- Hid, E in *. destruct (users !! "") as [t |]; [by destruct IH | by left].
    + apply empty_false in E. case_decide as Hid; [subst id; rewrite lookup_insert_eq | by rewrite lookup_insert_ne].
      destruct (users !! userID u) as [t |]; cbn; rewrite len_cons.
      * destruct IH as (_ & -> & ? & _). split_and!; [done | lia | lia | done].
      * destruct IH as [? | ->]; [done |]. rewrite len_nil. split_and!; [done | lia | lia | done].
  - specialize (IH id). rewrite callsOf_app, callsOf_cons in IH. unfold leaveUser. rewrite callsOf_app. destruct (empty (userID u)) eqn:E.
    + apply empty_true in E. case_decide as Hid; [| done]. assert (id = "") as -> by congruence. revert IH. destruct (users !! "") as [t |]; [by intros [? _] | by left].
    + apply empty_false in E. case_decide as Hid.
      * subst id. destruct (users !! userID u) as [t |] eqn:Et.
        -- destruct IH as (_ & Hr & Hpos & Hu). rewrite len_app, len_cons in Hr. destruct (tk_refs t <=? 1) eqn:El.
           ++ rewrite lookup_delete_eq. right. apply len_zero_nil. rewrite len_app. pose proof (len_nonneg (callsOf (userID u) before)). pose proof (len_nonneg (callsOf (userID u) after)). lia.
           ++ rewrite lookup_insert_eq. cbn. rewrite len_app. split_and!; [done | lia | lia | done].
        -- rewrite lookup_delete_eq. right. destruct IH as [? | IH]; [done |]. by destruct (callsOf (userID u) before).
      * destruct (users !! userID u) as [t |]; [destruct (tk_refs t <=? 1) |]; rewrite ?lookup_delete_ne, ?lookup_insert_ne by done; done.
Qed.

(** The users of a remote input are, sorted by their identifiers,
    one for each identifier that some running call has, however calls begin and
    end. *)
Theorem remote_users calls users : userCalls calls users →
  Sorted (λ a b, String.leb (userID a) (userID b) = true) (Users users) ∧ NoDup (map userID (Users users)) ∧
  ∀ id, id ∈ map userID (Users users) ↔ id ≠ "" ∧ callsOf id calls ≠ [].
Proof.
  intros H. pose proof (calls_tracked calls users H) as Ht. split.
  { apply Sorted_merge_sort. intros a b. destruct (String.leb_total (userID a) (userID b)) as [E | E]; [by left | by right]. }
  assert (map userID (Users users) ≡ₚ map fst (map_to_list users)) as Hp.
  { unfold Users. rewrite (merge_sort_Permutation _ (map _ _)), map_map. match goal with |- ?l ≡ₚ ?k => cut (l = k); [by intros -> |] end. apply map_ext_in. intros [id t] Hin%list_elem_of_In%elem_of_map_to_list. cbn.
    specialize (Ht id). rewrite Hin in Ht. by destruct Ht as (_ & _ & _ & ?). }
  split; [rewrite Hp; apply NoDup_fst_map_to_list |]. intros id. rewrite Hp, list_elem_of_fmap. specialize (Ht id). split.
  - intros ([id' t] & -> & Hin%elem_of_map_to_list). cbn in *. rewrite Hin in Ht. destruct Ht as (Hne & Hr & Hpos & _). split; [done |]. intros Hn. rewrite Hn, len_nil in Hr. lia.
  - intros [Hne Hc]. destruct (users !! id) as [t |] eqn:E; [| by destruct Ht]. exists (id, t). split; [done | by apply elem_of_map_to_list].
Qed.

End RemoteUsers.

(** ** Examples *)

(** Two routes of the same priority and one of a higher priority that is disabled;
    the first tuner is busy until the second round. *)
Definition plainRoute (id : string) (disabled : bool) (priority : option Z) : @Config.ChannelRouteConfig Empty_set :=
  MkRouteConfig id "" "GR" id None None None (Some disabled) priority.
Definition routedChannel : @Config.ChannelConfig Empty_set :=
  MkChannelConfig "NHK" "GR" "27" None None None (Some false) None None None None None
    [plainRoute "c" false (Some 5); plainRoute "a" false None; plainRoute "x" true (Some (-1)); plainRoute "b" false (Some 0)].
Definition busyTuner : error := ErrNew "tuner is unavailable".
Definition sampleTry (round : nat) (r : @Config.ChannelRouteConfig Empty_set) : outcome string :=
  if bool_decide (rc_Id r = "a") then (match round with O => Err busyTuner | _ => Ret "a" end) else Err (ErrNew "no such device").

Lemma route_selection_witness :
  map rc_Id (enabledRoutes (RoutesOrDefault routedChannel)) = ["a"; "b"; "c"] ∧
  selectRoute sampleTry (λ e, bool_decide (e = busyTuner)) (λ _, Ret tt) 5 routedChannel true = Ret "a" ∧
  selectRoute sampleTry (λ e, bool_decide (e = busyTuner)) (λ _, Ret tt) 5 routedChannel false = Err (ErrNew "no such device") ∧
  ∃ n before r after, enabledRoutes (RoutesOrDefault routedChannel) = before ++ r :: after ∧ sampleTry n r = Ret "a".
Proof.
  assert (selectRoute sampleTry (λ e, bool_decide (e = busyTuner)) (λ _, Ret tt) 5 routedChannel true = Ret "a") as E by (vm_compute; reflexivity).
  assert (∀ round r, safe (sampleTry round r) (λ _, True)) as Htry by (intros [| round] r; unfold sampleTry; case_bool_decide; exact I).
  pose proof (proj2 (route_selection sampleTry (λ e, bool_decide (e = busyTuner)) (λ _, Ret tt) Htry (λ _, I) 5 routedChannel true)) as H. rewrite E in H.
  split; [vm_compute; reflexivity |]. split; [exact E |]. split; [vm_compute; reflexivity |].
  destruct H as (n & before & r & after & _ & Hr & _ & Ht). exists n, before, r, after. split; [exact Hr | exact Ht].
Defined.

Definition runPool (steps : list poolStep) (po : Pool) : Pool := fold_left (λ po a, match doPool a po with Ret po' => po' | _ => po end) steps po.
Fixpoint poolAllowed (steps : list poolStep) (po : Pool) : bool :=
  match steps with
  | [] => true
  | a :: steps => canPool a po && match doPool a po with Ret po' => poolAllowed steps po' | _ => false end
  end.

Lemma poolAllowed_reachable steps : ∀ po, poolReachable po → poolAllowed steps po = true → poolReachable (runPool steps po).
Proof.
  induction steps as [| a steps IH]; intros po Hr; cbn [poolAllowed runPool fold_left]; [done |]. intros [Hc Ha]%andb_true_iff.
  destruct (doPool a po) as [po' | | |] eqn:E; try done. apply IH; [by eapply pool_step | done].
Qed.

Definition sampleKey : routeSourceKey := newRouteSourceKey (λ _, "null") (plainRoute "27" false None).

(** Two requests for a route: the second waits for the first, and both subscribe. *)
Definition sharedSteps : list poolStep :=
  [Tries sampleKey; Tries sampleKey; Begins 0; Begins 1; Acquired 0 true; Finishes 0; Woken 1; Begins 1; Attaches 0 true; Attaches 1 true].
(** Then both leave; the second stops the broadcast. *)
Definition leftSteps : list poolStep := sharedSteps ++ [Detaches 0; Detaches 1].

Lemma one_device_per_route_witness : let po := runPool sharedSteps NewPool in
  map bc_refs (po_broadcasts po) = [2] ∧ returns (doPool (Detaches 0) po) (λ _, True).
Proof.
  split; [vm_compute; reflexivity |].
  refine (proj1 (one_device_per_route _ (Detaches 0) (poolAllowed_reachable sharedSteps NewPool pool_new _) _)); vm_compute; reflexivity.
Defined.

Lemma broadcast_counts_witness : ∃ bc, po_broadcasts (runPool sharedSteps NewPool) !! 0%nat = Some bc ∧ bc_hub bc = [0; 1]%nat ∧ bc_started bc = true.
Proof.
  destruct (po_broadcasts (runPool sharedSteps NewPool) !! 0%nat) as [bc |] eqn:E; [| vm_compute in E; discriminate E]. exists bc. split; [reflexivity |].
  assert (bc_hub bc = [0; 1]%nat ∧ 0 < bc_refs bc) as [Hh Hr] by (vm_compute in E; injection E as <-; vm_compute; split; reflexivity). split; [exact Hh |].
  refine (proj1 (proj2 (broadcast_counts _ 0 bc (poolAllowed_reachable sharedSteps NewPool pool_new _) E)) Hr). vm_compute. reflexivity.
Defined.

Lemma unwatched_is_stopped_witness : let po := runPool leftSteps NewPool in
  placeOf 1 po = Stopping [0]%nat ∧ canPool (StopsNext 1) po = true ∧
  map bc_released (po_broadcasts (runPool [StopsNext 1; StopsNext 1; StopsNext 1] po)) = [true] ∧ map_to_list (po_routeSources (runPool [StopsNext 1; StopsNext 1; StopsNext 1] po)) = [].
Proof.
  split; [vm_compute; reflexivity |]. split; [| split; vm_compute; reflexivity].
  assert (poolReachable (runPool leftSteps NewPool)) as Hr by (apply poolAllowed_reachable; [exact pool_new | vm_compute; reflexivity]).
  refine (proj1 (proj1 (proj2 (unwatched_is_stopped _ Hr)) 1%nat (Stopping [0]%nat) _ _)); vm_compute; reflexivity.
Defined.

(** The last subscriber has left, and another subscribes before the broadcast is
    stopped: its stream is cut off at once. *)
Example late_subscriber_is_cut_off :
  let steps := leftSteps ++ [Uses 0; Attaches 2 true; StopsNext 1] in
  poolAllowed steps NewPool = true ∧ placeOf 2 (runPool steps NewPool) = Subscribed 0 ∧
  map (λ bc, (bc_stopped bc, bc_hub bc, bc_refs bc)) (po_broadcasts (runPool steps NewPool)) = [(true, [], 1)].
Proof. vm_compute. done. Qed.

(** A request whose context ends between getting its input and subscribing to it
    leaves its device behind: nobody is about to stop it. *)
Example unused_input_keeps_its_device :
  let steps := [Tries sampleKey; Begins 0; Acquired 0 true; Finishes 0; GivesUp 0] in
  poolAllowed steps NewPool = true ∧ po_goroutines (runPool steps NewPool) = [Gone] ∧ map bc_released (po_broadcasts (runPool steps NewPool)) = [false].
Proof. vm_compute. done. Qed.

Lemma remote_users_witness : Users id (leaveUser id "b" (enterUser id "a" (enterUser id "b" (enterUser id "b" ∅)))) = ["a"; "b"] ∧
  NoDup (map id (Users id (leaveUser id "b" (enterUser id "a" (enterUser id "b" (enterUser id "b" ∅)))))).
Proof.
  split; [vm_compute; reflexivity |].
  refine (proj1 (proj2 (remote_users id ([("a" : string)] ++ ["b"]) _ _))).
  apply (calls_leave id ["a"] "b" ["b"]). apply calls_enter, calls_enter, calls_enter, calls_none.
Defined.
