(* ===== verification/Services.v ===== *)
(** * Services

    [internal/service]: [service.go], [order.go] and [manager.go], the services found
    by the scans, in the order they are displayed in, and the events by which the
    rest of the program follows their changes.  The SQLite store behind the manager
    is the interface [ServiceStore]: what it answers is a parameter, and the theorem
    on events assumes that it keeps what it is given. *)

From S2P Require Import Prelude Config.

Record EPGStatus : Type := MkEPG {
  ep_LastAttemptAt : option Z;
  ep_LastSuccessAt : option Z;
  ep_LastError : string
}.
Definition noEPG : EPGStatus := MkEPG None None "".

Record Service : Type := MkService {
  se_Id : string;
  se_ServiceId : Z;
  se_NetworkId : Z;
  se_TransportStreamId : Z;
  se_Name : string;
  se_Type : Z;
  se_EITScheduleFlag : bool;
  se_EITPresentFollowing : bool;
  se_LogoId : option Z;
  se_LogoVersion : option Z;
  se_LogoDownloadDataId : option Z;
  se_HasLogoData : bool;
  se_RemoteControlKeyId : Z;
  se_ChannelType : string;
  se_ChannelId : string;
  se_EPG : EPGStatus
}.

#[export] Instance EPGStatus_eq_dec : EqDecision EPGStatus.
Proof. solve_decision. Defined.
#[export] Instance Service_eq_dec : EqDecision Service.
Proof. solve_decision. Defined.

Definition ItemId (s : Service) : Z := se_NetworkId s * 100000 + se_ServiceId s.

(** ** The order of display *)

(** [strconv.ParseInt(s, 10, 64)]. *)
Definition digit (c : Ascii.ascii) : option Z :=
  let n := Z.of_nat (Ascii.nat_of_ascii c) in if (48 <=? n) && (n <=? 57) then Some (n - 48) else None.
Fixpoint parseDigits (acc : Z) (s : string) : option Z :=
  match s with
  | EmptyString => Some acc
  | String c s => match digit c with Some d => parseDigits (acc * 10 + d) s | None => None end
  end.
Definition ParseInt (s : string) : option Z :=
  let '(negative, digits) :=
    match s with
    | String c rest => if bool_decide (c = Ascii.ascii_of_nat 43) then (false, rest) else if bool_decide (c = Ascii.ascii_of_nat 45) then (true, rest) else (false, s)
    | EmptyString => (false, s)
    end in
  match digits with
  | EmptyString => None
  | _ =>
      match parseDigits 0 digits with
      | None => None
      | Some n => if negative : bool then (if n <=? 2 ^ 63 then Some (- n) else None) else (if n <? 2 ^ 63 then Some n else None)
      end
  end.

Definition compareInts (a b : Z) : Z := if a <? b then -1 else if b <? a then 1 else 0.
(** [compareInt64s] and [compareUint16s] have the same body. *)
Abbreviation compareInt64s := compareInts.
Abbreviation compareUint16s := compareInts.
Definition compareStrings (a b : string) : Z := match String.compare a b with Lt => -1 | Gt => 1 | Eq => 0 end.
Definition compareRemoteControlKeys (a b : Z) : Z :=
  if (a =? 0) && (b =? 0) then 0 else if a =? 0 then 1 else if b =? 0 then -1 else compareInts a b.

Definition serviceSortID (s : Service) : Z := match ParseInt (se_Id s) with Some n => n | None => ItemId s end.

Definition serviceDisplayOrder : Type := gmap string Z.

(** [serviceOrder]: the types of the enabled channels in the order of the
    configuration. *)
Definition serviceOrderBody {Y} (order : gmap string Z) (channel : @ChannelConfig Y) : gmap string Z :=
  if IsChannelDisabled channel then order
  else match order !! cc_Type channel with Some _ => order | None => <[cc_Type channel := Z.of_nat (size order)]> order end.
Definition serviceOrder {Y} (channels : list (@ChannelConfig Y)) : serviceDisplayOrder := fold_left serviceOrderBody channels ∅.

Definition maxInt : Z := 2 ^ 63 - 1.
Definition channelTypeSortNumber (o : serviceDisplayOrder) (s : Service) : Z :=
  match (o : gmap string Z) !! se_ChannelType s with Some n => n | None => maxInt end.

Definition less (o : serviceDisplayOrder) (a b : Service) : bool :=
  let cmp := compareInts (channelTypeSortNumber o a) (channelTypeSortNumber o b) in
  if negb (cmp =? 0) then cmp <? 0
  else let cmp := compareStrings (se_ChannelType a) (se_ChannelType b) in
  if negb (cmp =? 0) then cmp <? 0
  else let cmp := compareRemoteControlKeys (se_RemoteControlKeyId a) (se_RemoteControlKeyId b) in
  if negb (cmp =? 0) then cmp <? 0
  else let cmp := compareUint16s (se_ServiceId a) (se_ServiceId b) in
  if negb (cmp =? 0) then cmp <? 0
  else let cmp := compareUint16s (se_NetworkId a) (se_NetworkId b) in
  if negb (cmp =? 0) then cmp <? 0
  else let cmp := compareUint16s (se_TransportStreamId a) (se_TransportStreamId b) in
  if negb (cmp =? 0) then cmp <? 0
  else let cmp := compareInt64s (serviceSortID a) (serviceSortID b) in
  if negb (cmp =? 0) then cmp <? 0
  else match String.compare (se_Id a) (se_Id b) with Lt => true | _ => false end.

Definition orderServices {Y} (channels : list (@ChannelConfig Y)) (services : list Service) : list Service :=
  SliceStable (less (serviceOrder channels)) services.

(** *** Comparisons *)

(** A three-way comparison that orders its domain, ties apart. *)
Record comparing {A} (cmp : A → A → Z) : Prop := {
  cmp_flip : ∀ a b, cmp b a = - cmp a b;
  cmp_trans : ∀ a b c, cmp a b ≤ 0 → cmp b c ≤ 0 → cmp a c ≤ 0
}.

Lemma comparing_ints : comparing compareInts.
Proof. unfold compareInts. split; intros *; repeat case_match; lia. Qed.

Lemma comparing_keys : comparing compareRemoteControlKeys.
Proof. unfold compareRemoteControlKeys, compareInts. split; intros *; repeat case_match; lia. Qed.

Lemma compareStrings_le a b : compareStrings a b ≤ 0 ↔ String.le a b.
Proof. unfold compareStrings, String.le, String.leb. destruct (String.compare a b); cbn; split; try done; lia. Qed.

Lemma comparing_strings : comparing compareStrings.
Proof.
  split; intros *.
  - unfold compareStrings. rewrite (String.compare_antisym b a). by destruct (String.compare a b).
  - rewrite !compareStrings_le. apply transitivity.
Qed.

Lemma comparing_by {A B} (f : A → B) cmp : comparing cmp → comparing (λ a b, cmp (f a) (f b)).
Proof. intros [H1 H2]. split; eauto. Qed.

(** One comparison, and another for its ties. *)
Definition thenBy {A} (cmp cmp' : A → A → Z) (a b : A) : Z := if negb (cmp a b =? 0) then cmp a b else cmp' a b.

Lemma comparing_then {A} (cmp cmp' : A → A → Z) : comparing cmp → comparing cmp' → comparing (thenBy cmp cmp').
Proof.
  intros [F1 T1] [F2 T2]. unfold thenBy. split.
  - intros a b. rewrite (F1 a b). destruct (cmp a b =? 0) eqn:E; cbn; [| destruct (- cmp a b =? 0) eqn:E'; cbn; [lia | done]].
    apply Z.eqb_eq in E as ->. cbn. apply F2.
  - intros a b c H1 H2. pose proof (T1 a b c) as T. pose proof (T1 c a b) as Ta. pose proof (T1 b c a) as Tb. rewrite (F1 a c) in Ta, Tb. rewrite (F1 b c) in Ta. rewrite (F1 a b) in Tb.
    pose proof (T2 a b c) as T'. destruct (cmp a b =? 0) eqn:Eab, (cmp b c =? 0) eqn:Ebc, (cmp a c =? 0) eqn:Eac; cbn in *; lia.
Qed.

Lemma comparing_strict {A} (cmp : A → A → Z) : comparing cmp → strict_weak (λ a b, cmp a b <? 0).
Proof.
  intros [F T]. split.
  - intros a b H%Z.ltb_lt. apply Z.ltb_ge. rewrite F. lia.
  - intros a b c H1%Z.ltb_ge H2%Z.ltb_ge. apply Z.ltb_ge. pose proof (T c b a). rewrite (F a c), (F a b), (F b c) in *. lia.
Qed.

(** The comparison behind [less]. *)
Definition compareServices (o : serviceDisplayOrder) : Service → Service → Z :=
  thenBy (λ a b, compareInts (channelTypeSortNumber o a) (channelTypeSortNumber o b))
  (thenBy (λ a b, compareStrings (se_ChannelType a) (se_ChannelType b))
  (thenBy (λ a b, compareRemoteControlKeys (se_RemoteControlKeyId a) (se_RemoteControlKeyId b))
  (thenBy (λ a b, compareInts (se_ServiceId a) (se_ServiceId b))
  (thenBy (λ a b, compareInts (se_NetworkId a) (se_NetworkId b))
  (thenBy (λ a b, compareInts (se_TransportStreamId a) (se_TransportStreamId b))
  (thenBy (λ a b, compareInts (serviceSortID a) (serviceSortID b))
     (λ a b, compareStrings (se_Id a) (se_Id b)))))))).

Lemma less_compare o a b : less o a b = (compareServices o a b <? 0).
Proof.
  unfold less, compareServices, thenBy. cbv zeta. repeat (match goal with |- context [if negb (?x =? 0) then _ else _] => destruct (x =? 0) eqn:?; cbn [negb]; [| done] end).
  unfold compareStrings. by destruct (String.compare (se_Id a) (se_Id b)).
Qed.

Lemma comparing_services o : comparing (compareServices o).
Proof.
  unfold compareServices. repeat (apply comparing_then; [first [apply (comparing_by (channelTypeSortNumber o)), comparing_ints
    | apply (comparing_by se_ChannelType), comparing_strings | apply (comparing_by se_RemoteControlKeyId), comparing_keys
    | apply (comparing_by se_ServiceId), comparing_ints | apply (comparing_by se_NetworkId), comparing_ints
    | apply (comparing_by se_TransportStreamId), comparing_ints | apply (comparing_by serviceSortID), comparing_ints] |]).
  apply (comparing_by se_Id), comparing_strings.
Qed.

Lemma less_strict o : strict_weak (less o).
Proof.
  pose proof (comparing_strict _ (comparing_services o)) as [H1 H2]. split.
  - intros a b. rewrite !less_compare. apply H1.
  - intros a b c. rewrite !less_compare. apply H2.
Qed.

(** Services that the order does not tell apart have the same identifier. *)
Lemma less_tie o a b : less o a b = false → less o b a = false → se_Id a = se_Id b.
Proof.
  rewrite !less_compare, !Z.ltb_ge, (cmp_flip _ (comparing_services o) a b). intros H1 H2. assert (compareServices o a b = 0) as E by lia. clear H1 H2.
  unfold compareServices, thenBy in E. repeat (match type of E with context [if negb (?x =? 0) then _ else _] => destruct (x =? 0) eqn:?; cbn [negb] in E; [| lia] end).
  unfold compareStrings in E. destruct (String.compare (se_Id a) (se_Id b)) eqn:Ec; try lia. by apply String.compare_eq_iff.
Qed.

(** The services are displayed in one order that does not depend on
    the order in which the store lists them, if their identifiers are different: it
    is a permutation of them, sorted by [less], and any listing of the same services
    gives the same. *)
Theorem services_ordered {Y} (channels : list (@ChannelConfig Y)) services :
  orderServices channels services ≡ₚ services ∧
  StronglySorted (λ a b, less (serviceOrder channels) b a = false) (orderServices channels services) ∧
  ∀ services', NoDup (map se_Id services) → services' ≡ₚ services → orderServices channels services' = orderServices channels services.
Proof.
  unfold orderServices. set (o := serviceOrder channels). split; [apply SliceStable_perm |]. split; [by apply SliceStable_sorted, less_strict |].
  intros services' Hd Hp. eapply StronglySorted_unique_strong; [| by apply SliceStable_sorted, less_strict.. | by rewrite !SliceStable_perm].
  intros a b Ha Hb H1 H2. rewrite SliceStable_perm in Ha, Hb. rewrite Hp in Ha. pose proof (less_tie o a b H2 H1) as E.
  apply list_elem_of_lookup in Ha as [i Hi]. apply list_elem_of_lookup in Hb as [j Hj].
  assert (i = j) as <-; [| rewrite Hi in Hj; by injection Hj]. eapply NoDup_lookup; [exact Hd | rewrite list_lookup_fmap, Hi; reflexivity |]. by rewrite list_lookup_fmap, Hj, E.
Qed.

(** ** The manager *)

Record ChannelKey : Type := MkChannelKey { ck_Type : string; ck_ID : string }.
#[export] Instance ChannelKey_eq_dec : EqDecision ChannelKey.
Proof. solve_decision. Defined.

(** What the manager uses of its store. *)
Class ServiceStore (S : Type) := {
  storeList : S → outcome (list Service);
  storeGetByID : string → S → outcome (option Service);
  storeGetByItemID : Z → S → outcome (option Service);
  storeGetByNetworkServiceID : Z → Z → S → outcome (option Service);
  storeGetByChannel : string → string → S → outcome (list Service);
  storeReplaceChannelServices : string → string → list (option Service) → S → outcome S;
  storePruneChannels : list ChannelKey → S → outcome S;
  storeSetEPGAttempt : Z → Z → Z → string → S → outcome S;
  storeSetEPGSuccess : Z → Z → Z → S → outcome S
}.

(** The services of a list that may hold nil. *)
Definition present (services : list (option Service)) : list Service := omap id services.

(** What the store promises: the services of a channel have different identifiers,
    and after they were replaced they are those that were given. *)
Class LawfulServiceStore (S : Type) `{ServiceStore S} : Prop := {
  channel_distinct t c l s : storeGetByChannel t c s = Ret l → NoDup (map se_Id l);
  replaced_channel t c services s s' : storeReplaceChannelServices t c services s = Ret s' → NoDup (map se_Id (present services)) →
    ∃ after, storeGetByChannel t c s' = Ret after ∧ ∀ id, id ∈ map se_Id after ↔ id ∈ map se_Id (present services)
}.

Section Manager.

Context {Y S : Type} `{Store : ServiceStore S} {Order : RangeOrderOf string Service}.
Abbreviation ChannelConfig := (@ChannelConfig Y).

Inductive eventType : Type := eventTypeCreate | eventTypeUpdate | eventTypeRemove.

(** A published event: [EventData] of the service and the channel. *)
Record serviceEvent : Type := MkServiceEvent { ev_typ : eventType; ev_service : Service; ev_channel : option ChannelConfig }.

(** [sm_publishes] tells whether there is a publisher, [sm_events] what it was
    given. *)
Record ServiceManager : Type := MkServiceManager {
  sm_store : S;
  sm_channels : list ChannelConfig;
  sm_publishes : bool;
  sm_events : list serviceEvent
}.

Definition setStore (s : S) (m : ServiceManager) : ServiceManager := MkServiceManager s (sm_channels m) (sm_publishes m) (sm_events m).
Definition setEvents (l : list serviceEvent) (m : ServiceManager) : ServiceManager := MkServiceManager (sm_store m) (sm_channels m) (sm_publishes m) l.

Definition GetChannels (m : ServiceManager) : list ChannelConfig := filter (λ c, IsChannelDisabled c = false) (sm_channels m).

Fixpoint findEnabledChannel (channelType channelId : string) (channels : list ChannelConfig) : option ChannelConfig :=
  match channels with
  | [] => None
  | c :: channels =>
      if bool_decide (cc_Type c = channelType) && bool_decide (cc_Channel c = channelId) && negb (IsChannelDisabled c) then Some c
      else findEnabledChannel channelType channelId channels
  end.
Definition GetChannel (channelType channelId : string) (m : ServiceManager) : option ChannelConfig :=
  findEnabledChannel channelType channelId (sm_channels m).

Definition publishService (typ : eventType) (svc : option Service) (m : ServiceManager) : ServiceManager :=
  match svc with
  | Some svc => if sm_publishes m then setEvents (sm_events m ++ [MkServiceEvent typ svc (GetChannel (se_ChannelType svc) (se_ChannelId svc) m)]) m else m
  | None => m
  end.
Definition publishServiceByKey (typ : eventType) (networkID serviceID : Z) (m : ServiceManager) : ServiceManager :=
  match storeGetByNetworkServiceID networkID serviceID (sm_store m) with Ret svc => publishService typ svc m | _ => m end.

Definition GetServices (m : ServiceManager) : outcome (list Service) :=
  services ← storeList (sm_store m); Ret (orderServices (sm_channels m) services).
Definition GetServicesByChannel (channelType channelId : string) (m : ServiceManager) : outcome (list Service) :=
  services ← storeGetByChannel channelType channelId (sm_store m); Ret (orderServices (sm_channels m) services).
Definition GetServiceById (id : string) (m : ServiceManager) : outcome (option Service) :=
  svc ← storeGetByID id (sm_store m);
  match svc with
  | Some svc => Ret (Some svc)
  | None => match ParseInt id with None => Ret None | Some n => storeGetByItemID n (sm_store m) end
  end.

Definition SetEPGAttempt (networkID serviceID attemptedAt : Z) (lastError : string) (m : ServiceManager) : outcome ServiceManager :=
  s ← storeSetEPGAttempt networkID serviceID attemptedAt lastError (sm_store m);
  Ret (publishServiceByKey eventTypeUpdate networkID serviceID (setStore s m)).
Definition SetEPGSuccess (networkID serviceID succeededAt : Z) (m : ServiceManager) : outcome ServiceManager :=
  s ← storeSetEPGSuccess networkID serviceID succeededAt (sm_store m);
  Ret (publishServiceByKey eventTypeUpdate networkID serviceID (setStore s m)).

Definition keyOfService (svc : Service) : ChannelKey := MkChannelKey (se_ChannelType svc) (se_ChannelId svc).
Definition prunedServices (active : list ChannelKey) (m : ServiceManager) : outcome (list Service) :=
  services ← storeList (sm_store m); Ret (filter (λ svc, keyOfService svc ∉ active) services).
Definition ReconcileChannels (m : ServiceManager) : outcome ServiceManager :=
  let active := map (λ c, MkChannelKey (cc_Type c) (cc_Channel c)) (GetChannels m) in
  removed ← prunedServices active m;
  s ← storePruneChannels active (sm_store m);
  Ret (fold_left (λ m svc, publishService eventTypeRemove (Some svc) m) removed (setStore s m)).

Definition SeedEventLog (m : ServiceManager) : outcome ServiceManager :=
  services ← storeList (sm_store m);
  Ret (fold_left (λ m svc, publishService eventTypeCreate (Some svc) m) services m).

(** [sameServiceCore]: equal but for the status of the EPG. *)
Definition core (svc : Service) : Service :=
  MkService (se_Id svc) (se_ServiceId svc) (se_NetworkId svc) (se_TransportStreamId svc) (se_Name svc) (se_Type svc) (se_EITScheduleFlag svc)
    (se_EITPresentFollowing svc) (se_LogoId svc) (se_LogoVersion svc) (se_LogoDownloadDataId svc) (se_HasLogoData svc) (se_RemoteControlKeyId svc)
    (se_ChannelType svc) (se_ChannelId svc) noEPG.
Definition sameServiceCore (a b : Service) : bool := bool_decide (core a = core b).

(** [byID[svc.Id] = svc] over a list. *)
Definition byID (l : list Service) : gmap string Service := fold_left (λ m svc, <[se_Id svc := svc]> m) l ∅.

(** One turn of the loop of [ReplaceChannelServices], with what is left of [before]. *)
Definition replaceBody (after : gmap string Service) (st : gmap string Service * ServiceManager) (svc : option Service) : gmap string Service * ServiceManager :=
  let '(before, m) := st in
  match svc with
  | None => (before, m)
  | Some svc =>
      let existing := before !! se_Id svc in
      let before := delete (se_Id svc) before in
      let current := default svc (after !! se_Id svc) in
      match existing with
      | None => (before, publishService eventTypeCreate (Some current) m)
      | Some existing => if negb (sameServiceCore existing current) then (before, publishService eventTypeUpdate (Some current) m) else (before, m)
      end
  end.

Definition ReplaceChannelServices (channelType channelId : string) (services : list (option Service)) (m : ServiceManager) : outcome ServiceManager :=
  beforeList ← storeGetByChannel channelType channelId (sm_store m);
  s ← storeReplaceChannelServices channelType channelId services (sm_store m);
  let m := setStore s m in
  afterList ← storeGetByChannel channelType channelId s;
  let '(before, m) := fold_left (replaceBody (byID afterList)) services (byID beforeList, m) in
  Ret (fold_left (λ m e, publishService eventTypeRemove (Some (snd e)) m) (rangeOf before) m).

(** *** Following the events *)

(** What a follower of the events knows of a channel's services, but for the EPG. *)
Definition coresOf (l : list Service) : gmap string Service := core <$> byID l.
Definition followEvent (k : gmap string Service) (e : serviceEvent) : gmap string Service :=
  match ev_typ e with
  | eventTypeRemove => delete (se_Id (ev_service e)) k
  | _ => <[se_Id (ev_service e) := core (ev_service e)]> k
  end.

Lemma byID_lookup l id svc : NoDup (map se_Id l) → byID l !! id = Some svc ↔ svc ∈ l ∧ se_Id svc = id.
Proof.
  unfold byID. assert (∀ l (m : gmap string Service), NoDup (map se_Id l) → (∀ svc, svc ∈ l → m !! se_Id svc = None) →
    fold_left (λ m svc, <[se_Id svc := svc]> m) l m !! id = Some svc ↔ (svc ∈ l ∧ se_Id svc = id) ∨ m !! id = Some svc) as H.
  { clear l. induction l as [| x l IH]; intros m Hd Hm; cbn; [rewrite elem_of_nil; tauto |]. cbn in Hd. apply NoDup_cons in Hd as [Hx Hd].
    assert (∀ y, y ∈ l → se_Id y ≠ se_Id x) as Hne by (intros y Hy E; apply Hx; rewrite <- E; by apply list_elem_of_fmap_2).
    rewrite IH; [| done |].
    - rewrite elem_of_cons. destruct (decide (se_Id x = id)) as [<- | Hn].
      + rewrite lookup_insert_eq. split; [intros [[? ?] | [= ->]]; tauto |]. intros [[[-> | Hin] E] | Hm']; [by right | by destruct (Hne svc Hin) |].
        rewrite Hm in Hm' by constructor. done.
      + rewrite lookup_insert_ne by done. split; [tauto |]. intros [[[-> | Hin] E] | Hm']; [done | by left | by right].
    - intros y Hy. rewrite lookup_insert_ne by (intros E; by apply (Hne y)). apply Hm. by constructor. }
  intros Hd. rewrite H; [| done | by intros ? _; apply lookup_empty]. rewrite lookup_empty. naive_solver.
Qed.

(** An event is justified if it tells what changed between the two lists. *)
Definition justified (before after : gmap string Service) (e : serviceEvent) : Prop :=
  let id := se_Id (ev_service e) in
  match ev_typ e with
  | eventTypeCreate => before !! id = None ∧ after !! id = Some (ev_service e)
  | eventTypeUpdate => after !! id = Some (ev_service e) ∧ ∃ svc, before !! id = Some svc ∧ core svc ≠ core (ev_service e)
  | eventTypeRemove => before !! id = Some (ev_service e) ∧ after !! id = None
  end.

(** What events do to a follower: [ids] are those they have dealt with. *)
Record caught_up (before after : gmap string Service) (ids : list string) (events : list serviceEvent) : Prop := {
  cu_known : ∀ id, fold_left followEvent events (core <$> before) !! id = core <$> (if decide (id ∈ ids) then after !! id else before !! id);
  cu_ids : Forall (λ e, se_Id (ev_service e) ∈ ids) events;
  cu_once : NoDup (map (λ e, se_Id (ev_service e)) events);
  cu_justified : Forall (justified before after) events
}.

Lemma caught_up_quiet before after ids events id : caught_up before after ids events → id ∉ ids → core <$> before !! id = core <$> after !! id →
  caught_up before after (ids ++ [id]) events.
Proof.
  intros [C1 C2 C3 C4] Hid Hsame. constructor; [| eapply Forall_impl; [exact C2 |]; set_solver | done | done]. intros i. rewrite C1.
  destruct (decide (i ∈ ids)), (decide (i ∈ ids ++ [id])) as [Hin | Hn]; try done; [set_solver |].
  apply elem_of_app in Hin as [? | ->%list_elem_of_singleton]; [done |]. done.
Qed.

Lemma caught_up_event before after ids events e : caught_up before after ids events → se_Id (ev_service e) ∉ ids → justified before after e →
  caught_up before after (ids ++ [se_Id (ev_service e)]) (events ++ [e]).
Proof.
  intros [C1 C2 C3 C4] Hid Hj. set (id := se_Id (ev_service e)) in *. constructor.
  - intros i. rewrite fold_left_app. cbn. unfold followEvent at 1. fold id. destruct (decide (i = id)) as [-> | Hne].
    + rewrite decide_True by set_solver. unfold justified in Hj. fold id in Hj.
      destruct (ev_typ e); [destruct Hj as [_ ->]; by rewrite lookup_insert_eq | destruct Hj as [-> _]; by rewrite lookup_insert_eq | destruct Hj as [_ ->]; by rewrite lookup_delete_eq].
    + replace (match ev_typ e with eventTypeRemove => delete id (fold_left followEvent events (core <$> before))
        | _ => <[id:=core (ev_service e)]> (fold_left followEvent events (core <$> before)) end !! i) with (fold_left followEvent events (core <$> before) !! i).
      * rewrite C1. destruct (decide (i ∈ ids)), (decide (i ∈ ids ++ [id])); set_solver.
      * destruct (ev_typ e); rewrite ?lookup_insert_ne, ?lookup_delete_ne by done; done.
  - apply Forall_app. split; [eapply Forall_impl; [exact C2 |]; set_solver |]. constructor; [set_solver | constructor].
  - rewrite map_app. apply NoDup_app. split; [done |]. split; [| apply NoDup_singleton]. intros i (e' & -> & He')%list_elem_of_fmap Hi%list_elem_of_singleton.
    fold id in Hi. rewrite Forall_forall in C2. rewrite <- Hi in Hid. by apply Hid, C2.
  - apply Forall_app. split; [done |]. by constructor.
Qed.

(** What the manager publishes, one event after the other. *)
Definition published (m m' : ServiceManager) (events : list serviceEvent) : Prop :=
  m' = setEvents (sm_events m ++ events) m.

Lemma publish_one typ svc m m' events : sm_publishes m = true → published m m' events →
  published m (publishService typ (Some svc) m') (events ++ [MkServiceEvent typ svc (GetChannel (se_ChannelType svc) (se_ChannelId svc) m)]).
Proof. intros Hp ->. unfold published, publishService. cbn. rewrite Hp. unfold setEvents. cbn. by rewrite app_assoc. Qed.

Lemma replaceBody_ok before0 after m services all ids before m' events : sm_publishes m = true → (∀ id svc, after !! id = Some svc → se_Id svc = id) →
  all = ids ++ map se_Id (present services) → NoDup all → (∀ svc, svc ∈ present services → is_Some (after !! se_Id svc)) →
  (∀ id, before !! id = if decide (id ∈ ids) then None else before0 !! id) → caught_up before0 after ids events → published m m' events →
  ∃ before' events' m'', fold_left (replaceBody after) services (before, m') = (before', m'') ∧ published m m'' events' ∧
    (∀ id, before' !! id = if decide (id ∈ all) then None else before0 !! id) ∧ caught_up before0 after all events'.
Proof.
  intros Hp Hafter. revert ids before m' events. induction services as [| [svc |] services IH]; intros ids before m' events Hall Hd Hin Hb Hc Hm.
  { exists before, events, m'. cbn in Hall. rewrite app_nil_r in Hall. by rewrite Hall. }
  - change (present (Some svc :: services)) with (svc :: present services) in *. cbn [map] in *. rewrite (cons_middle (se_Id svc)), app_assoc in Hall.
    destruct (Hin svc ltac:(constructor)) as [current Hcur]. pose proof (Hafter _ _ Hcur) as Hid.
    assert (se_Id svc ∉ ids) as Hnew by (rewrite Hall in Hd; apply NoDup_app in Hd as (Hd & _); apply NoDup_app in Hd as (_ & Hd & _); intros ?; by apply (Hd (se_Id svc)), list_elem_of_singleton).
    assert (∀ id, delete (se_Id svc) before !! id = if decide (id ∈ ids ++ [se_Id svc]) then None else before0 !! id) as Hb'.
    { intros id. destruct (decide (id = se_Id svc)) as [-> | Hne]; [rewrite lookup_delete_eq, decide_True by set_solver; done |]. rewrite lookup_delete_ne, Hb by done.
      destruct (decide (id ∈ ids)), (decide (id ∈ ids ++ [se_Id svc])); set_solver. }
    assert (before !! se_Id svc = before0 !! se_Id svc) as Hex by (by rewrite Hb, decide_False).
    cbn [fold_left replaceBody]. rewrite Hcur. change (default svc (Some current)) with current. rewrite Hex.
    assert (∀ typ, justified before0 after (MkServiceEvent typ current (GetChannel (se_ChannelType current) (se_ChannelId current) m)) →
      ∃ events', caught_up before0 after (ids ++ [se_Id svc]) events' ∧ published m (publishService typ (Some current) m') events') as Hpub.
    { intros typ Hj. eexists. split; [| by apply publish_one]. set (e := MkServiceEvent typ current _) in *. rewrite <- Hid. change (se_Id current) with (se_Id (ev_service e)).
      apply caught_up_event; [done | cbn; by rewrite Hid | done]. }
    destruct (before0 !! se_Id svc) as [existing |] eqn:E.
    + unfold sameServiceCore. destruct (bool_decide (core existing = core current)) eqn:Es; cbn [negb].
      * apply (IH (ids ++ [se_Id svc]) (delete (se_Id svc) before) m' events); try done; [intros x Hx; apply Hin; by constructor |]. apply caught_up_quiet; [done | done |]. rewrite E, Hcur. cbn. f_equal. by apply bool_decide_eq_true in Es.
      * destruct (Hpub eventTypeUpdate) as (events' & Hcu & Hpu). { unfold justified. cbn. rewrite Hid. split; [done |]. exists existing. split; [done | by apply bool_decide_eq_false in Es]. }
        apply (IH (ids ++ [se_Id svc]) (delete (se_Id svc) before) _ events'); try done. intros x Hx. apply Hin. by constructor.
    + destruct (Hpub eventTypeCreate) as (events' & Hcu & Hpu). { unfold justified. cbn. by rewrite Hid. }
      apply (IH (ids ++ [se_Id svc]) (delete (se_Id svc) before) _ events'); try done. intros x Hx. apply Hin. by constructor.
  - change (present (None :: services)) with (present services) in *. cbn [fold_left replaceBody]. by eapply IH.
Qed.

Lemma removals_ok before0 after m l ids m' events : sm_publishes m = true → NoDup (map fst l) → (∀ id, id ∈ map fst l → id ∉ ids) →
  (∀ id svc, (id, svc) ∈ l → before0 !! id = Some svc ∧ se_Id svc = id ∧ after !! id = None) → caught_up before0 after ids events → published m m' events →
  ∃ events', published m (fold_left (λ m e, publishService eventTypeRemove (Some (snd e)) m) l m') events' ∧ caught_up before0 after (ids ++ map fst l) events'.
Proof.
  intros Hp. revert ids m' events. induction l as [| [id svc] l IH]; intros ids m' events Hd Hn Hl Hc Hm; [exists events; cbn; by rewrite app_nil_r |].
  cbn [map fst] in *. apply NoDup_cons in Hd as [Hx Hd]. destruct (Hl id svc ltac:(constructor)) as (Hb & Hid & Ha). rewrite (cons_middle id), app_assoc. cbn [fold_left snd].
  eapply IH; [done | | | | by apply publish_one].
  - intros i Hi [Hin | ->%list_elem_of_singleton]%elem_of_app; [by apply (Hn i); [constructor |] | done].
  - intros i s Hin. apply Hl. by constructor.
  - set (e := MkServiceEvent eventTypeRemove svc _). rewrite <- Hid. change (se_Id svc) with (se_Id (ev_service e)).
    apply caught_up_event; [done | cbn; rewrite Hid; apply Hn; constructor |]. unfold justified. cbn. by rewrite Hid.
Qed.

(** C22 (refinement): the events keep a follower in step with the store.  When the
    services of a channel are replaced - by services with different identifiers - the
    events published take one who knew the old list to the new one, up to the status
    of the EPG; and there is at most one event for a service, a creation only of one
    that was not there, an update only of one that differs, a removal only of one
    that is gone. *)
Theorem events_follow_services `{!LawfulServiceStore S} channelType channelId services m m' beforeList :
  sm_publishes m = true → NoDup (map se_Id (present services)) → storeGetByChannel channelType channelId (sm_store m) = Ret beforeList →
  ReplaceChannelServices channelType channelId services m = Ret m' →
  ∃ afterList events, storeGetByChannel channelType channelId (sm_store m') = Ret afterList ∧ (∀ id, id ∈ map se_Id afterList ↔ id ∈ map se_Id (present services)) ∧
    sm_events m' = sm_events m ++ events ∧ fold_left followEvent events (coresOf beforeList) = coresOf afterList ∧
    NoDup (map (λ e, se_Id (ev_service e)) events) ∧ Forall (justified (byID beforeList) (byID afterList)) events.
Proof.
  intros Hp Hd Hbefore. unfold ReplaceChannelServices. rewrite Hbefore. cbn [mbind outcome_bind]. intros H. apply bind_Ret_inv in H as (s & Hs & H).
  destruct (replaced_channel _ _ _ _ _ Hs Hd) as (afterList & Hget & Hids). cbv zeta in H. rewrite Hget in H. cbn [mbind outcome_bind] in H.
  pose proof (channel_distinct _ _ _ _ Hbefore) as Hdb. pose proof (channel_distinct _ _ _ _ Hget) as Hda.
  assert (∀ id, is_Some (byID afterList !! id) ↔ id ∈ map se_Id afterList) as Hsome.
  { intros id. rewrite list_elem_of_fmap. split; [intros [svc [Hin <-]%byID_lookup]; eauto | intros (svc & -> & Hin); exists svc; by apply byID_lookup]. }
  destruct (replaceBody_ok (byID beforeList) (byID afterList) (setStore s m) services (map se_Id (present services)) [] (byID beforeList) (setStore s m) []) as (before' & events & m1 & E & Hpub & Hb & Hcu).
  - done.
  - intros id svc Hsv. by apply byID_lookup in Hsv as [_ ?].
  - done.
  - done.
  - intros svc Hin. apply Hsome, Hids. by apply list_elem_of_fmap_2.
  - intros id. by rewrite decide_False by apply not_elem_of_nil.
  - constructor; cbn; [| constructor..]. intros id. rewrite decide_False by apply not_elem_of_nil. by rewrite lookup_fmap.
  - unfold published, setEvents. cbn. by rewrite app_nil_r.
  - cbn [app] in *. rewrite E in H. injection H as <-.
    assert (∀ id svc, (id, svc) ∈ rangeOf before' ↔ id ∉ map se_Id (present services) ∧ byID beforeList !! id = Some svc) as Hrange.
    { intros id svc. rewrite rangeOf_perm, elem_of_map_to_list, Hb. case_decide; naive_solver. }
    destruct (removals_ok (byID beforeList) (byID afterList) (setStore s m) (rangeOf before') (map se_Id (present services)) m1 events) as (events' & Hpub' & Hcu'); try done.
    + rewrite rangeOf_perm. apply NoDup_fst_map_to_list.
    + intros id ([i svc] & -> & Hin)%list_elem_of_fmap. by apply Hrange in Hin as [? _].
    + intros id svc [Hn Hsv]%Hrange. split; [done |]. split; [by apply byID_lookup in Hsv as [_ ?] |]. destruct (byID afterList !! id) eqn:Ea; [| done].
      exfalso. apply Hn, Hids, Hsome. eauto.
    + exists afterList, events'. rewrite Hpub'. cbn. split_and!; try done; [| by destruct Hcu' | by destruct Hcu'].
      apply map_eq. intros id. rewrite (cu_known _ _ _ _ Hcu'). unfold coresOf. rewrite lookup_fmap. f_equal. case_decide as Hin; [done |].
      rewrite elem_of_app in Hin. destruct (byID afterList !! id) eqn:Ea; [exfalso; apply Hin; left; apply Hids, Hsome; eauto |].
      destruct (byID beforeList !! id) as [svc |] eqn:Eb; [| done]. exfalso. apply Hin. right. apply list_elem_of_fmap. exists (id, svc). split; [done |]. apply Hrange. split; [| done].
      intros ?. apply Hin. by left.
Qed.

End Manager.

(** ** Examples *)

(** A store in memory. *)
Abbreviation memoryStore := (gmap (string * string) (list Service)).
Definition memoryChannel (t c : string) (s : memoryStore) : list Service := map snd (map_to_list (byID (default [] (s !! (t, c))))).
#[export] Instance memory_store : ServiceStore memoryStore := {|
  storeList s := Ret (concat (map snd (map_to_list s)));
  storeGetByID _ _ := Ret None;
  storeGetByItemID _ _ := Ret None;
  storeGetByNetworkServiceID _ _ _ := Ret None;
  storeGetByChannel t c s := Ret (memoryChannel t c s);
  storeReplaceChannelServices t c l s := Ret (<[(t, c) := present l]> s);
  storePruneChannels _ s := Ret s;
  storeSetEPGAttempt _ _ _ _ s := Ret s;
  storeSetEPGSuccess _ _ _ s := Ret s
|}.

Lemma byID_key l id svc : byID l !! id = Some svc → se_Id svc = id.
Proof.
  unfold byID. assert (∀ l (m : gmap string Service), (∀ id svc, m !! id = Some svc → se_Id svc = id) →
    ∀ id svc, fold_left (λ m svc, <[se_Id svc := svc]> m) l m !! id = Some svc → se_Id svc = id) as H.
  { clear. induction l as [| x l IH]; intros m Hm; cbn; [done |]. apply IH. intros id svc. destruct (decide (se_Id x = id)) as [<- | Hne].
    - rewrite lookup_insert_eq. by intros [= <-].
    - rewrite lookup_insert_ne by done. apply Hm. }
  apply H. intros i s. by rewrite lookup_empty.
Qed.

Lemma memory_ids l : map se_Id (map snd (map_to_list (byID l))) = map fst (map_to_list (byID l)).
Proof. rewrite map_map. apply map_ext_in. intros [id svc] Hin%list_elem_of_In%elem_of_map_to_list. cbn. by apply byID_key in Hin. Qed.

#[export] Instance memory_lawful : LawfulServiceStore memoryStore.
Proof.
  split.
  - intros t c l s [= <-]. unfold memoryChannel. rewrite memory_ids. apply NoDup_fst_map_to_list.
  - intros t c services s s' [= <-] Hd. eexists. split; [reflexivity |]. intros id. unfold memoryChannel. rewrite lookup_insert_eq. change (default [] (Some (present services))) with (present services). rewrite memory_ids, !list_elem_of_fmap. split.
    + intros ([i svc] & -> & Hin%elem_of_map_to_list). exists svc. by apply byID_lookup in Hin as [? <-].
    + intros (svc & -> & Hin). exists (se_Id svc, svc). split; [done |]. by apply elem_of_map_to_list, byID_lookup.
Qed.

Definition sampleService (id name typ : string) (key sid : Z) : Service :=
  MkService id sid 0x7fe8 0x7fe8 name 1 true true None None None false key typ "27" noEPG.
Definition nhk : Service := sampleService "3274101024" "NHK" "GR" 1 1024.
Definition etv : Service := sampleService "3273701032" "NHK E" "GR" 2 1032.
Definition tbs : Service := sampleService "3274101048" "TBS" "GR" 6 1048.
Definition emptyManager : @ServiceManager Empty_set memoryStore := MkServiceManager ∅ [] true [].

#[local] Existing Instance keyOrderOf.

Definition second : list (option Service) := [Some tbs; None; Some (sampleService "3274101024" "NHK G" "GR" 1 1024)].
Definition replaced (services : list (option Service)) (m : @ServiceManager Empty_set memoryStore) : @ServiceManager Empty_set memoryStore :=
  match ReplaceChannelServices "GR" "27" services m with Ret m => m | _ => m end.
Definition oneManager : @ServiceManager Empty_set memoryStore := replaced [Some nhk; Some etv] emptyManager.
Definition twoManager : @ServiceManager Empty_set memoryStore := replaced second oneManager.

Lemma events_follow_services_witness : ∃ afterList events,
  sm_events twoManager = sm_events oneManager ++ events ∧ fold_left followEvent events (coresOf (memoryChannel "GR" "27" (sm_store oneManager))) = coresOf afterList ∧
  map (λ e, (ev_typ e, se_Name (ev_service e))) (drop 2 (sm_events twoManager)) = [(eventTypeCreate, "TBS"); (eventTypeUpdate, "NHK G"); (eventTypeRemove, "NHK E")].
Proof.
  assert (ReplaceChannelServices "GR" "27" second oneManager = Ret twoManager) as E by (vm_compute; reflexivity).
  assert (sm_publishes oneManager = true) as Hp by (vm_compute; reflexivity).
  assert (NoDup (map se_Id (present second))) as Hd by (apply (bool_decide_unpack (NoDup (map se_Id (present second)))); vm_compute; exact I).
  assert (storeGetByChannel "GR" "27" (sm_store oneManager) = Ret (memoryChannel "GR" "27" (sm_store oneManager))) as Hb by reflexivity.
  destruct (events_follow_services "GR" "27" second oneManager twoManager (memoryChannel "GR" "27" (sm_store oneManager)) Hp Hd Hb E)
    as (afterList & events & _ & _ & Hev & Hf & _).
  exists afterList, events. split; [exact Hev |]. split; [exact Hf |]. vm_compute. reflexivity.
Defined.

Definition sampleChannels : list (@ChannelConfig Empty_set) :=
  [MkChannelConfig "BS" "BS" "101" None None None None None None None None None []; MkChannelConfig "NHK" "GR" "27" None None None None None None None None None []].
Lemma services_ordered_witness :
  map se_Name (orderServices sampleChannels [tbs; nhk; sampleService "bs" "NHK BS" "BS" 0 101; etv]) = ["NHK BS"; "NHK"; "NHK E"; "TBS"] ∧
  orderServices sampleChannels [etv; nhk; tbs] = orderServices sampleChannels [tbs; nhk; etv].
Proof.
  split; [vm_compute; reflexivity |]. apply (services_ordered sampleChannels [tbs; nhk; etv]).
  - apply (bool_decide_unpack _). vm_compute. exact I.
  - exact (Permutation_rev [tbs; nhk; etv]) || (symmetry; exact (Permutation_rev [tbs; nhk; etv])).
Defined.
