(* ===== verification/EpgPlan.v ===== *)
(** * The plan of an EPG collection

    [internal/epg/topology.go] and the parts of [gather.go] and [collect.go] that
    decide: which channels are tuned for the guide of a network, in which order they
    are tried, which services are still missing after each, and which sections of a
    collection count.

    The plan is computed twice: for all networks at once by [groupServicesByNetwork],
    and for one by [buildNetworkInputs] when its job runs; the theorem is that the
    two agree. *)

From S2P Require Import Prelude Crc32 Section AribTables Aribstr Descriptors Psi Events EventDescriptors Schedule Dsmcc Carousel Logo Programs Config Services.

Section Plan.

Context {Y : Type}.
Abbreviation ChannelConfig := (@ChannelConfig Y).

(** ** Topology *)

(** A [Candidate]: the type and the channel. *)
Definition Candidate : Type := string * string.

Record Network : Type := MkNetwork {
  nw_Candidates : list Candidate;
  nw_Services : list ServiceKey
}.

Definition epgChannelKey (channelType channelID : string) : string := channelType +:+ String Ascii.zero channelID.

(** [m[key]] of a map of sets or slices. *)
Definition setAt {K} `{Countable K} {V} `{Countable V} (m : gmap K (gset V)) (k : K) : gset V := default ∅ (m !! k).
Definition listAt {K} `{Countable K} {V} (m : gmap K (list V)) (k : K) : list V := default [] (m !! k).

Definition broadEPGCandidateForNetwork (channelType : string) (typeNetworks : gmap string (gset Z)) (networkID : Z) : bool :=
  IsSatelliteOriginalNetworkID networkID && bool_decide (size (setAt typeNetworks channelType) = 1%nat) && bool_decide (networkID ∈ setAt typeNetworks channelType).

Definition broadEPGCandidateNetwork (channelType : string) (typeNetworks : gmap string (gset Z)) : Z * bool :=
  if negb (bool_decide (size (setAt typeNetworks channelType) = 1%nat)) then (0, false)
  else match elements (setAt typeNetworks channelType) with
       | networkID :: _ => (networkID, IsSatelliteOriginalNetworkID networkID)
       | [] => (0, false)
       end.

Definition serviceKeyOf (svc : Service) : ServiceKey := (se_NetworkId svc, se_ServiceId svc, se_TransportStreamId svc).
Definition channelKeyOf (svc : Service) : string := epgChannelKey (se_ChannelType svc) (se_ChannelId svc).

(** *** All networks *)

(** The first loop of [groupServicesByNetwork], whose [networkTypes] is not used. *)
Definition indexService (ix : gmap string (list Z) * gmap string (gset Z)) (item : Service) : gmap string (list Z) * gmap string (gset Z) :=
  let '(byChannel, typeNetworks) := ix in
  (<[channelKeyOf item := listAt byChannel (channelKeyOf item) ++ [se_NetworkId item]]> byChannel,
   <[se_ChannelType item := {[se_NetworkId item]} ∪ setAt typeNetworks (se_ChannelType item)]> typeNetworks).

Definition addCandidate (key : string) (candidate : Candidate) (st : gmap Z Network * gmap Z (gset string)) (nid : Z) : gmap Z Network * gmap Z (gset string) :=
  let '(groups, seen) := st in
  let network := default (MkNetwork [] []) (groups !! nid) in
  let groups := <[nid := network]> groups in
  let seen := <[nid := setAt seen nid]> seen in
  if bool_decide (key ∈ setAt seen nid) then (groups, seen)
  else (<[nid := MkNetwork (nw_Candidates network ++ [candidate]) (nw_Services network)]> groups, <[nid := {[key]} ∪ setAt seen nid]> seen).

Definition candidateNetworks (byChannel : gmap string (list Z)) (typeNetworks : gmap string (gset Z)) (configured : ChannelConfig) : list Z :=
  let '(broadNetwork, ok) := broadEPGCandidateNetwork (cc_Type configured) typeNetworks in
  if ok : bool then [broadNetwork] else listAt byChannel (epgChannelKey (cc_Type configured) (cc_Channel configured)).

Definition groupChannel (byChannel : gmap string (list Z)) (typeNetworks : gmap string (gset Z))
    (st : gmap Z Network * gmap Z (gset string)) (configured : ChannelConfig) : gmap Z Network * gmap Z (gset string) :=
  if IsChannelDisabled configured then st
  else fold_left (addCandidate (epgChannelKey (cc_Type configured) (cc_Channel configured)) (cc_Type configured, cc_Channel configured))
         (candidateNetworks byChannel typeNetworks configured) st.

Definition groupService (st : gmap Z Network * gset ServiceKey) (svc : Service) : gmap Z Network * gset ServiceKey :=
  let '(groups, serviceSeen) := st in
  if negb (se_EITScheduleFlag svc) then st
  else match groups !! se_NetworkId svc with
       | Some network =>
           if bool_decide (serviceKeyOf svc ∈ serviceSeen) then st
           else (<[se_NetworkId svc := MkNetwork (nw_Candidates network) (nw_Services network ++ [serviceKeyOf svc])]> groups, {[serviceKeyOf svc]} ∪ serviceSeen)
       | None => st
       end.

Definition groupServicesByNetwork (services : list Service) (channels : list ChannelConfig) : gmap Z Network :=
  let '(byChannel, typeNetworks) := fold_left indexService services (∅, ∅) in
  let '(groups, _) := fold_left (groupChannel byChannel typeNetworks) channels (∅, ∅) in
  fst (fold_left groupService services (groups, ∅)).

(** *** One network *)

Definition indexNetwork (networkID : Z) (ix : gset string * gset string * gmap string (gset Z)) (item : Service) : gset string * gset string * gmap string (gset Z) :=
  let '(byChannel, networkTypes, typeNetworks) := ix in
  let typeNetworks := <[se_ChannelType item := {[se_NetworkId item]} ∪ setAt typeNetworks (se_ChannelType item)]> typeNetworks in
  if negb (se_NetworkId item =? networkID) then (byChannel, networkTypes, typeNetworks)
  else ({[channelKeyOf item]} ∪ byChannel, {[se_ChannelType item]} ∪ networkTypes, typeNetworks).

Definition isCandidate (byChannel networkTypes : gset string) (typeNetworks : gmap string (gset Z)) (networkID : Z) (configured : ChannelConfig) : bool :=
  negb (IsChannelDisabled configured) &&
  (bool_decide (epgChannelKey (cc_Type configured) (cc_Channel configured) ∈ byChannel) ||
   broadEPGCandidateForNetwork (cc_Type configured) typeNetworks networkID && bool_decide (cc_Type configured ∈ networkTypes)).

Definition networkService (networkID : Z) (st : list ServiceKey * gset ServiceKey) (svc : Service) : list ServiceKey * gset ServiceKey :=
  let '(networkServices, serviceSeen) := st in
  if negb (se_NetworkId svc =? networkID) || negb (se_EITScheduleFlag svc) || bool_decide (serviceKeyOf svc ∈ serviceSeen) then st
  else (networkServices ++ [serviceKeyOf svc], {[serviceKeyOf svc]} ∪ serviceSeen).

Definition candidateOf (c : ChannelConfig) : Candidate := (cc_Type c, cc_Channel c).

Definition networkInputs (storedServices : list Service) (channels : list ChannelConfig) (networkID : Z) : list Candidate * list ServiceKey :=
  let '(byChannel, networkTypes, typeNetworks) := fold_left (indexNetwork networkID) storedServices (∅, ∅, ∅) in
  (map candidateOf (filter (λ c, isCandidate byChannel networkTypes typeNetworks networkID c = true) channels),
   fst (fold_left (networkService networkID) storedServices ([], ∅))).

(** [buildNetworkInputs], with what the store answers. *)
Definition buildNetworkInputs (stored : outcome (list Service)) (channels : list ChannelConfig) (networkID : Z) : outcome (list Candidate * list ServiceKey) :=
  services ← stored; Ret (networkInputs services channels networkID).

(** ** What the plan is *)

(** The items of a list, each at its first place only. *)
Fixpoint firsts {A} `{EqDecision A} (seen : list A) (l : list A) : list A :=
  match l with
  | [] => []
  | x :: l => if decide (x ∈ seen) then firsts seen l else x :: firsts (seen ++ [x]) l
  end.

(** The networks of the services of a type, and of a channel. *)
Definition networksOfType (services : list Service) (t : string) : gset Z := list_to_set (map se_NetworkId (filter (λ s, se_ChannelType s = t) services)).

(** A satellite network that is the only one of a channel type. *)
Definition broadNetwork (services : list Service) (t : string) (nid : Z) : Prop :=
  IsSatelliteOriginalNetworkID nid = true ∧ networksOfType services t = {[nid]}.

(** A channel is tuned for a network if a service of the network was found on it, or
    if the network is the broad one of its type. *)
Definition tuned (services : list Service) (nid : Z) (c : Candidate) : Prop :=
  (∃ s, s ∈ services ∧ se_NetworkId s = nid ∧ (se_ChannelType s, se_ChannelId s) = c) ∨ broadNetwork services c.1 nid.

(** A type without a NUL, which separates it from the channel in a key. *)
Fixpoint noNul (s : string) : bool := match s with EmptyString => true | String c s => negb (bool_decide (c = Ascii.zero)) && noNul s end.

Lemma key_inj t c t' c' : noNul t = true → noNul t' = true → epgChannelKey t c = epgChannelKey t' c' → t = t' ∧ c = c'.
Proof.
  unfold epgChannelKey. revert t'. induction t as [| a t IH]; intros [| a' t'] Ht Ht' E; cbn in *.
  - by injection E as ->.
  - injection E as <- _. apply andb_true_iff in Ht' as [Ht' _]. by apply negb_true_iff, bool_decide_eq_false in Ht'.
  - injection E as -> _. apply andb_true_iff in Ht as [Ht _]. by apply negb_true_iff, bool_decide_eq_false in Ht.
  - injection E as -> E. apply andb_true_iff in Ht as [_ Ht]. apply andb_true_iff in Ht' as [_ Ht']. destruct (IH t' Ht Ht' E) as [-> ->]. done.
Qed.

(** *** The indexes *)

Lemma setAt_insert {K} `{Countable K} {V} `{Countable V} (m : gmap K (gset V)) k k' s : setAt (<[k := s]> m) k' = if decide (k = k') then s else setAt m k'.
Proof. unfold setAt. case_decide as E; [by rewrite E, lookup_insert_eq | by rewrite lookup_insert_ne]. Qed.
Lemma listAt_insert {K} `{Countable K} {V} (m : gmap K (list V)) k k' s : listAt (<[k := s]> m) k' = if decide (k = k') then s else listAt m k'.
Proof. unfold listAt. case_decide as E; [by rewrite E, lookup_insert_eq | by rewrite lookup_insert_ne]. Qed.

Lemma networksOfType_cons s services t :
  networksOfType (s :: services) t = if decide (se_ChannelType s = t) then {[se_NetworkId s]} ∪ networksOfType services t else networksOfType services t.
Proof. unfold networksOfType. rewrite filter_cons. by case_decide. Qed.

Lemma elem_of_networks services t nid : nid ∈ networksOfType services t ↔ ∃ s, s ∈ services ∧ se_ChannelType s = t ∧ se_NetworkId s = nid.
Proof. unfold networksOfType. rewrite elem_of_list_to_set, list_elem_of_fmap. setoid_rewrite list_elem_of_filter. naive_solver. Qed.

Lemma indexService_spec services : ∀ byChannel typeNetworks byChannel' typeNetworks',
  fold_left indexService services (byChannel, typeNetworks) = (byChannel', typeNetworks') →
  (∀ key, listAt byChannel' key = listAt byChannel key ++ map se_NetworkId (filter (λ s, channelKeyOf s = key) services)) ∧
  ∀ t, setAt typeNetworks' t = setAt typeNetworks t ∪ networksOfType services t.
Proof.
  induction services as [| s services IH]; intros byChannel typeNetworks byChannel' typeNetworks' E.
  { injection E as <- <-. split; [intros key; by rewrite app_nil_r | intros t; unfold networksOfType; cbn; set_solver]. }
  cbn [fold_left indexService] in E. apply IH in E as [H1 H2]. split.
  - intros key. rewrite H1, listAt_insert, filter_cons. case_decide as Hk; [| done]. rewrite <- Hk. cbn [map]. by rewrite <- app_assoc.
  - intros t. rewrite H2, setAt_insert, networksOfType_cons. case_decide as Ht; [rewrite Ht | done]. set_solver.
Qed.

Lemma indexNetwork_spec networkID services : ∀ byChannel types typeNetworks byChannel' types' typeNetworks',
  fold_left (indexNetwork networkID) services (byChannel, types, typeNetworks) = (byChannel', types', typeNetworks') →
  (∀ key, key ∈ byChannel' ↔ key ∈ byChannel ∨ ∃ s, s ∈ services ∧ se_NetworkId s = networkID ∧ channelKeyOf s = key) ∧
  (∀ t, t ∈ types' ↔ t ∈ types ∨ networkID ∈ networksOfType services t) ∧
  ∀ t, setAt typeNetworks' t = setAt typeNetworks t ∪ networksOfType services t.
Proof.
  induction services as [| s services IH]; intros byChannel types typeNetworks byChannel' types' typeNetworks' E.
  { injection E as <- <- <-. split_and!; intros x; [split; [by left | intros [? | (? & ?%elem_of_nil & _)]; done] | unfold networksOfType; cbn; set_solver..]. }
  cbn [fold_left indexNetwork] in E. destruct (se_NetworkId s =? networkID) eqn:En; cbn [negb] in E; apply IH in E as (H1 & H2 & H3).
  - apply Z.eqb_eq in En. split_and!.
    + intros key. rewrite H1, elem_of_union, elem_of_singleton. setoid_rewrite elem_of_cons. naive_solver.
    + intros t. rewrite H2, networksOfType_cons, elem_of_union, elem_of_singleton. case_decide; set_solver.
    + intros t. rewrite H3, setAt_insert, networksOfType_cons. case_decide as Ht; [rewrite Ht | done]. set_solver.
  - apply Z.eqb_neq in En. split_and!.
    + intros key. rewrite H1. setoid_rewrite elem_of_cons. naive_solver.
    + intros t. rewrite H2, networksOfType_cons. case_decide; set_solver.
    + intros t. rewrite H3, setAt_insert, networksOfType_cons. case_decide as Ht; [rewrite Ht | done]. set_solver.
Qed.

Lemma singleton_size (s : gset Z) nid : size s = 1%nat ∧ nid ∈ s ↔ s = {[nid]}.
Proof.
  split; [| intros ->; rewrite size_singleton; set_solver]. intros [Hs Hin]. apply size_1_elem_of in Hs as [x Hx]. apply set_eq. intros y. rewrite Hx in *.
  apply elem_of_singleton in Hin as ->. done.
Qed.

Lemma broadFor_spec services typeNetworks t nid : (∀ t, setAt typeNetworks t = networksOfType services t) →
  broadEPGCandidateForNetwork t typeNetworks nid = true ↔ broadNetwork services t nid.
Proof.
  intros Ht. unfold broadEPGCandidateForNetwork, broadNetwork. rewrite Ht, !andb_true_iff, !bool_decide_eq_true, <- singleton_size. tauto.
Qed.

Lemma broadCandidate_spec services typeNetworks t : (∀ t, setAt typeNetworks t = networksOfType services t) →
  match broadEPGCandidateNetwork t typeNetworks with
  | (b, true) => ∀ nid, broadNetwork services t nid ↔ nid = b
  | (_, false) => ∀ nid, ¬ broadNetwork services t nid
  end.
Proof.
  intros Ht. unfold broadEPGCandidateNetwork, broadNetwork. rewrite Ht. destruct (bool_decide (size (networksOfType services t) = 1%nat)) eqn:Es; cbn [negb].
  - apply bool_decide_eq_true in Es. apply size_1_elem_of in Es as [b Hb]. assert (networksOfType services t = {[b]}) as -> by (by apply set_eq).
    rewrite elements_singleton. destruct (IsSatelliteOriginalNetworkID b) eqn:Eb.
    + intros nid. split; [intros [_ E]; set_solver | intros ->; done].
    + intros nid [H E]. assert (nid = b) as -> by set_solver. congruence.
  - apply bool_decide_eq_false in Es. intros nid [_ E]. apply Es. rewrite E. apply size_singleton.
Qed.

(** *** The candidates *)

Section Agree.

Variable services : list Service.
Hypothesis services_types : Forall (λ s, noNul (se_ChannelType s) = true) services.

Lemma key_services t c s : noNul t = true → s ∈ services → channelKeyOf s = epgChannelKey t c ↔ (se_ChannelType s, se_ChannelId s) = (t, c).
Proof.
  intros Ht Hs. split; [| by intros [= <- <-]]. unfold channelKeyOf. rewrite Forall_forall in services_types.
  intros E. by destruct (key_inj _ _ _ _ (services_types s Hs) Ht E) as [-> ->].
Qed.

Lemma on_channel nid t c : noNul t = true →
  (∃ s, s ∈ services ∧ se_NetworkId s = nid ∧ channelKeyOf s = epgChannelKey t c) ↔ ∃ s, s ∈ services ∧ se_NetworkId s = nid ∧ (se_ChannelType s, se_ChannelId s) = (t, c).
Proof.
  intros Ht. split; intros (s & Hs & Hn & Hk); exists s; (split; [done |]; split; [done |]); by apply (key_services t c s Ht Hs).
Qed.

Lemma candidateNetworks_spec byChannel typeNetworks (c : ChannelConfig) nid : noNul (cc_Type c) = true →
  fold_left indexService services (∅, ∅) = (byChannel, typeNetworks) →
  nid ∈ candidateNetworks byChannel typeNetworks c ↔ tuned services nid (candidateOf c).
Proof.
  intros Ht E. apply indexService_spec in E as [H1 H2]. assert (∀ t, setAt typeNetworks t = networksOfType services t) as Htn.
  { intros t. rewrite H2. unfold setAt. rewrite lookup_empty. cbn. set_solver. }
  assert (nid ∈ listAt byChannel (epgChannelKey (cc_Type c) (cc_Channel c)) ↔ ∃ s, s ∈ services ∧ se_NetworkId s = nid ∧ (se_ChannelType s, se_ChannelId s) = candidateOf c) as Hlist.
  { rewrite H1. unfold listAt at 1. rewrite lookup_empty. cbn [default app]. unfold candidateOf. rewrite <- on_channel by done. rewrite list_elem_of_fmap.
    setoid_rewrite list_elem_of_filter. naive_solver. }
  unfold candidateNetworks, tuned. cbn [fst candidateOf]. pose proof (broadCandidate_spec services typeNetworks (cc_Type c) Htn) as Hb.
  destruct (broadEPGCandidateNetwork (cc_Type c) typeNetworks) as [b [|]].
  - rewrite list_elem_of_singleton, Hb. split; [by right |]. intros [(s & Hs & <- & Hc) | ?]; [| done]. injection Hc as Hty _.
    assert (broadNetwork services (cc_Type c) b) as [_ Hone] by (by apply Hb). assert (se_NetworkId s ∈ networksOfType services (cc_Type c)) as Hin by (apply elem_of_networks; eauto).
    rewrite Hone in Hin. set_solver.
  - rewrite Hlist. split; [by left |]. intros [? | Hbr]; [done |]. by destruct (Hb nid).
Qed.

Lemma isCandidate_spec byChannel types typeNetworks (c : ChannelConfig) nid : noNul (cc_Type c) = true →
  fold_left (indexNetwork nid) services (∅, ∅, ∅) = (byChannel, types, typeNetworks) →
  isCandidate byChannel types typeNetworks nid c = true ↔ IsChannelDisabled c = false ∧ tuned services nid (candidateOf c).
Proof.
  intros Ht E. apply indexNetwork_spec in E as (H1 & H2 & H3). assert (∀ t, setAt typeNetworks t = networksOfType services t) as Htn.
  { intros t. rewrite H3. unfold setAt. rewrite lookup_empty. cbn. set_solver. }
  unfold isCandidate, tuned. cbn [fst candidateOf]. rewrite andb_true_iff, negb_true_iff, orb_true_iff, andb_true_iff, !bool_decide_eq_true, (broadFor_spec services) by done.
  rewrite H1, H2. unfold candidateOf. rewrite <- on_channel by done.
  assert (broadNetwork services (cc_Type c) nid → nid ∈ networksOfType services (cc_Type c)) as Hin by (intros [_ ->]; set_solver). set_solver.
Qed.

(** *** The two agree *)

Lemma firsts_skip {A} `{EqDecision A} (l : list A) x : ∀ seen, firsts seen (l ++ [x]) = if decide (x ∈ seen ++ l) then firsts seen l else firsts seen l ++ [x].
Proof.
  induction l as [| y l IH]; intros seen; cbn [firsts app].
  - rewrite app_nil_r. by case_decide.
  - destruct (decide (y ∈ seen)) as [Hy | Hy]; rewrite IH.
    + destruct (decide (x ∈ seen ++ l)) as [H | H], (decide (x ∈ seen ++ y :: l)) as [H' | H']; try done; exfalso; set_solver.
    + destruct (decide (x ∈ (seen ++ [y]) ++ l)) as [H | H], (decide (x ∈ seen ++ y :: l)) as [H' | H']; try done; exfalso; set_solver.
Qed.

(** The networks that see a channel, for one network: the candidates so far and
    the keys taken. *)
Definition sees (key : string) (candidate : Candidate) (st : option Network * gset string) : option Network * gset string :=
  let network := default (MkNetwork [] []) (fst st) in
  if bool_decide (key ∈ snd st) then (Some network, snd st) else (Some (MkNetwork (nw_Candidates network ++ [candidate]) (nw_Services network)), {[key]} ∪ snd st).

Definition at_network (nid : Z) (st : gmap Z Network * gmap Z (gset string)) : option Network * gset string := (fst st !! nid, setAt (snd st) nid).

Lemma sees_twice key c st : sees key c (sees key c st) = sees key c st.
Proof.
  destruct st as [o seen]. unfold sees. cbn [fst snd]. destruct (bool_decide (key ∈ seen)) eqn:E; cbn [fst snd default].
  - by rewrite E.
  - rewrite bool_decide_eq_true_2 by set_solver. done.
Qed.

Lemma addCandidate_at key c st nid nid' : at_network nid (addCandidate key c st nid') = if decide (nid' = nid) then sees key c (at_network nid st) else at_network nid st.
Proof.
  destruct st as [groups seen]. unfold addCandidate, at_network, sees. cbn [fst snd]. rewrite !setAt_insert, !decide_True by done. case_decide as E.
  - rewrite E. case_bool_decide; cbn [fst snd]; by rewrite !setAt_insert, !decide_True, lookup_insert_eq.
  - case_bool_decide; cbn [fst snd]; by rewrite !setAt_insert, !decide_False, !lookup_insert_ne.
Qed.

Lemma addCandidates_at key c nid nids : ∀ st, at_network nid (fold_left (addCandidate key c) nids st) = if decide (nid ∈ nids) then sees key c (at_network nid st) else at_network nid st.
Proof.
  induction nids as [| nid' nids IH]; intros st; [done |]. cbn [fold_left]. rewrite IH, addCandidate_at.
  destruct (decide (nid' = nid)) as [-> | Hne].
  - rewrite (decide_True (P := nid ∈ nid :: nids)) by set_solver. case_decide; [apply sees_twice | done].
  - destruct (decide (nid ∈ nids)), (decide (nid ∈ nid' :: nids)); try done; exfalso; set_solver.
Qed.

Variable channels : list ChannelConfig.
Hypothesis channels_types : Forall (λ c, noNul (cc_Type c) = true) channels.

Section OneNetwork.

Variable nid : Z.
Variable byChannel : gmap string (list Z).
Variable typeNetworks : gmap string (gset Z).
Variable chosen : ChannelConfig → bool.
Hypothesis indexed : fold_left indexService services (∅, ∅) = (byChannel, typeNetworks).
Hypothesis chosen_spec : ∀ c, c ∈ channels → chosen c = true ↔ IsChannelDisabled c = false ∧ nid ∈ candidateNetworks byChannel typeNetworks c.

Definition network_of (l : list Candidate) : option Network := match l with [] => None | _ => Some (MkNetwork (firsts [] l) []) end.
Definition keyOf (c : Candidate) : string := epgChannelKey c.1 c.2.

Lemma network_of_spec l : network_of l = if decide (l = []) then None else Some (MkNetwork (firsts [] l) []).
Proof. by destruct l. Qed.

Lemma sees_network_of (l : list Candidate) seen c :
  Forall (λ c, noNul c.1 = true) (c :: l) → (∀ key, key ∈ seen ↔ key ∈ map keyOf l) →
  fst (sees (keyOf c) c (network_of l, seen)) = network_of (l ++ [c]) ∧ ∀ key, key ∈ snd (sees (keyOf c) c (network_of l, seen)) ↔ key ∈ map keyOf (l ++ [c]).
Proof.
  intros Hty Hseen. apply Forall_cons in Hty as [Hc Hl]. rewrite Forall_forall in Hl.
  assert (keyOf c ∈ seen ↔ c ∈ l) as Hin.
  { rewrite Hseen, list_elem_of_fmap. split; [| intros; by exists c]. intros (c' & E & Hc'). destruct (key_inj _ _ _ _ Hc (Hl _ Hc') E) as [E1 E2].
    destruct c, c'. cbn in *. by subst. }
  assert (network_of (l ++ [c]) = Some (MkNetwork (if decide (c ∈ l) then firsts [] l else firsts [] l ++ [c]) [])) as ->.
  { rewrite network_of_spec, decide_False by (by destruct l). by rewrite firsts_skip. }
  rewrite map_app. unfold sees. cbn [fst snd]. destruct (decide (c ∈ l)) as [H | H].
  - rewrite bool_decide_eq_true_2 by tauto. cbn [fst snd]. split; [by destruct l; [apply elem_of_nil in H |] |].
    intros key. rewrite elem_of_app, Hseen. cbn. rewrite list_elem_of_singleton. split; [by left |]. intros [? | ->]; [done |]. apply list_elem_of_fmap. by exists c.
  - rewrite bool_decide_eq_false_2 by tauto. cbn [fst snd]. split; [by destruct l |].
    intros key. rewrite elem_of_app, elem_of_union, elem_of_singleton, Hseen. cbn. rewrite list_elem_of_singleton. tauto.
Qed.

Lemma groupChannels_at (l : list Candidate) st cs :
  Forall (λ c, noNul c.1 = true) l → cs ⊆ channels →
  fst (at_network nid st) = network_of l → (∀ key, key ∈ snd (at_network nid st) ↔ key ∈ map keyOf l) →
  fst (at_network nid (fold_left (groupChannel byChannel typeNetworks) cs st)) = network_of (l ++ map candidateOf (filter (λ c, chosen c = true) cs)).
Proof.
  revert l st. induction cs as [| c cs IH]; intros l st Hl Hcs E1 E2; [by rewrite app_nil_r |].
  assert (c ∈ channels) as Hc by (apply Hcs; left). assert (cs ⊆ channels) as Hcs' by (intros x Hx; apply Hcs; by right).
  cbn [fold_left]. rewrite filter_cons. pose proof (chosen_spec c Hc) as Hch. unfold groupChannel at 2.
  destruct (IsChannelDisabled c) eqn:Ed.
  { rewrite decide_False by (intros H; apply Hch in H; naive_solver). by apply IH. }
  destruct (decide (chosen c = true)) as [H | H].
  - replace (l ++ map candidateOf (c :: filter (λ c, chosen c = true) cs)) with ((l ++ [candidateOf c]) ++ map candidateOf (filter (λ c, chosen c = true) cs)) by (by rewrite <- app_assoc).
    assert (Forall (λ c, noNul c.1 = true) (candidateOf c :: l)) as Hall.
    { constructor; [| done]. rewrite Forall_forall in channels_types. by apply (channels_types c). }
    apply IH; try done.
    { apply Forall_app. split; [done |]. apply Forall_singleton. by apply Forall_cons in Hall as [Hall _]. }
    all: rewrite addCandidates_at, decide_True by (by apply Hch); destruct (at_network nid st) as [o seen]; cbn [fst snd] in E1, E2; subst o;
      by destruct (sees_network_of l seen (candidateOf c) Hall E2).
  - assert (nid ∉ candidateNetworks byChannel typeNetworks c) as Hn by naive_solver.
    apply IH; try done; by rewrite addCandidates_at, decide_False by done.
Qed.

End OneNetwork.

(** The services of the guide of a network: flagged, each once. *)
Definition guided (nid : Z) (l : list Service) : list ServiceKey := map serviceKeyOf (filter (λ s, se_NetworkId s = nid ∧ se_EITScheduleFlag s = true) l).

Definition matches (nid : Z) (l : list ServiceKey) (seen : gset ServiceKey) : Prop := ∀ key : ServiceKey, key.1.1 = nid → key ∈ seen ↔ key ∈ l.

Lemma guided_cons nid s l : guided nid (s :: l) = if decide (se_NetworkId s = nid ∧ se_EITScheduleFlag s = true) then serviceKeyOf s :: guided nid l else guided nid l.
Proof. unfold guided. rewrite filter_cons. by case_decide. Qed.

Lemma matches_add nid l seen s : se_NetworkId s = nid → matches nid l seen → matches nid (l ++ [serviceKeyOf s]) ({[serviceKeyOf s]} ∪ seen).
Proof. intros Hs H key Hk. rewrite elem_of_union, elem_of_singleton, elem_of_app, list_elem_of_singleton, (H key Hk). tauto. Qed.

Lemma matches_other nid l seen s : se_NetworkId s ≠ nid → matches nid l seen → matches nid l ({[serviceKeyOf s]} ∪ seen).
Proof. intros Hs H key Hk. rewrite elem_of_union, elem_of_singleton, <- (H key Hk). split; [| by right]. intros [-> | ?]; done. Qed.

Lemma matches_skip nid l seen s : serviceKeyOf s ∈ seen → se_NetworkId s = nid → matches nid l seen → matches nid (l ++ [serviceKeyOf s]) seen.
Proof.
  intros Hin Hs H key Hk. rewrite elem_of_app, list_elem_of_singleton, <- (H key Hk). split; [by left |]. by intros [? | ->].
Qed.

Lemma matches_firsts nid l seen s : se_NetworkId s = nid → matches nid l seen →
  firsts [] (l ++ [serviceKeyOf s]) = if bool_decide (serviceKeyOf s ∈ seen) then firsts [] l else firsts [] l ++ [serviceKeyOf s].
Proof.
  intros Hs H. rewrite firsts_skip. cbn [app]. assert (serviceKeyOf s ∈ seen ↔ serviceKeyOf s ∈ l) as E by (by apply H).
  destruct (decide (serviceKeyOf s ∈ l)); [rewrite bool_decide_eq_true_2 by tauto | rewrite bool_decide_eq_false_2 by tauto]; done.
Qed.

Lemma groupServices_at nid cands rest : ∀ groups seen l,
  groups !! nid = Some (MkNetwork cands (firsts [] l)) → matches nid l seen →
  fst (fold_left groupService rest (groups, seen)) !! nid = Some (MkNetwork cands (firsts [] (l ++ guided nid rest))).
Proof.
  induction rest as [| s rest IH]; intros groups seen l E H; [by rewrite app_nil_r |]. rewrite guided_cons. cbn [fold_left groupService].
  destruct (se_EITScheduleFlag s) eqn:Ef; cbn [negb]; [| rewrite decide_False by naive_solver; by apply IH].
  destruct (decide (se_NetworkId s = nid)) as [Hs | Hs].
  - rewrite Hs, E, decide_True by done. replace (l ++ serviceKeyOf s :: guided nid rest) with ((l ++ [serviceKeyOf s]) ++ guided nid rest) by (by rewrite <- app_assoc).
    pose proof (matches_firsts nid l seen s Hs H) as Hf. case_bool_decide as Hin.
    + apply IH; [by rewrite Hf | by apply matches_skip].
    + apply IH; [rewrite Hf; apply lookup_insert_eq | by apply matches_add].
  - rewrite decide_False by naive_solver. destruct (groups !! se_NetworkId s) as [network |]; [| by apply IH]. case_bool_decide; [by apply IH |].
    apply IH; [by rewrite lookup_insert_ne | by apply matches_other].
Qed.

Lemma groupServices_none nid rest : ∀ groups seen, groups !! nid = None → fst (fold_left groupService rest (groups, seen)) !! nid = None.
Proof.
  induction rest as [| s rest IH]; intros groups seen E; [done |]. cbn [fold_left groupService]. destruct (se_EITScheduleFlag s); cbn [negb]; [| by apply IH].
  destruct (groups !! se_NetworkId s) as [network |] eqn:En; [| by apply IH]. case_bool_decide; [by apply IH |]. apply IH. rewrite lookup_insert_ne; congruence.
Qed.

Lemma networkServices_spec nid rest : ∀ seen l, matches nid l seen → fst (fold_left (networkService nid) rest (firsts [] l, seen)) = firsts [] (l ++ guided nid rest).
Proof.
  induction rest as [| s rest IH]; intros seen l H; [by rewrite app_nil_r |]. rewrite guided_cons. cbn [fold_left networkService].
  destruct (Z.eqb_spec (se_NetworkId s) nid) as [Hs | Hs]; cbn [negb orb]; [| rewrite decide_False by naive_solver; by apply IH].
  destruct (se_EITScheduleFlag s) eqn:Ef; cbn [negb orb]; [| rewrite decide_False by naive_solver; by apply IH].
  rewrite decide_True by done. replace (l ++ serviceKeyOf s :: guided nid rest) with ((l ++ [serviceKeyOf s]) ++ guided nid rest) by (by rewrite <- app_assoc).
  pose proof (matches_firsts nid l seen s Hs H) as Hf. case_bool_decide as Hin.
  - rewrite <- Hf. apply IH. by apply matches_skip.
  - rewrite <- Hf. apply IH. by apply matches_add.
Qed.

Lemma groups_at nid byChannel typeNetworks chosen : fold_left indexService services (∅, ∅) = (byChannel, typeNetworks) →
  (∀ c, c ∈ channels → chosen c = true ↔ IsChannelDisabled c = false ∧ nid ∈ candidateNetworks byChannel typeNetworks c) →
  fst (fold_left (groupChannel byChannel typeNetworks) channels (∅, ∅)) !! nid = network_of (map candidateOf (filter (λ c, chosen c = true) channels)).
Proof.
  intros E Hc. apply (groupChannels_at nid byChannel typeNetworks chosen Hc [] (∅, ∅) channels); [constructor | done | done |].
  intros key. unfold at_network, setAt. cbn. set_solver.
Qed.

(** The plan of all networks and the plan of one are the same. A network
    is in the plan of [groupServicesByNetwork] exactly when [buildNetworkInputs] finds
    a channel for it; its candidates are those of [buildNetworkInputs], each once, and
    its services the same. The candidates are the enabled channels of the
    configuration on which a service of the network was found, and for a
    satellite network that is alone on a channel type every enabled channel of the
    type; the services are those with an EIT schedule, in the order of the store,
    each once. *)
Theorem inputs_agree (nid : Z) cands keys :
  networkInputs services channels nid = (cands, keys) →
  match groupServicesByNetwork services channels !! nid with
  | Some network => cands ≠ [] ∧ nw_Candidates network = firsts [] cands ∧ nw_Services network = keys
  | None => cands = []
  end ∧
  (∀ c, c ∈ cands ↔ ∃ configured, configured ∈ channels ∧ candidateOf configured = c ∧ IsChannelDisabled configured = false ∧ tuned services nid c) ∧
  keys = firsts [] (guided nid services).
Proof.
  unfold networkInputs, groupServicesByNetwork. destruct (fold_left (indexNetwork nid) services (∅, ∅, ∅)) as [[on types] typeNetworks1] eqn:E1. intros [= <- <-].
  destruct (fold_left indexService services (∅, ∅)) as [byChannel typeNetworks2] eqn:E2. pose proof channels_types as Hty. rewrite Forall_forall in Hty.
  assert (∀ c, c ∈ channels → isCandidate on types typeNetworks1 nid c = true ↔ IsChannelDisabled c = false ∧ tuned services nid (candidateOf c)) as Hcand.
  { intros c Hc. apply isCandidate_spec; [by apply Hty | done]. }
  assert (fst (fold_left (networkService nid) services ([], ∅)) = firsts [] (guided nid services)) as Hkeys.
  { apply (networkServices_spec nid services ∅ []). intros key _. set_solver. }
  pose proof (groups_at nid byChannel typeNetworks2 (isCandidate on types typeNetworks1 nid) E2) as Hg.
  assert (∀ c, c ∈ channels → isCandidate on types typeNetworks1 nid c = true ↔ IsChannelDisabled c = false ∧ nid ∈ candidateNetworks byChannel typeNetworks2 c) as Hch.
  { intros c Hc. rewrite Hcand by done. by rewrite (candidateNetworks_spec byChannel typeNetworks2 c nid (Hty c Hc) E2). }
  apply Hg in Hch. clear Hg. rewrite Hkeys. destruct (fold_left (groupChannel byChannel typeNetworks2) channels (∅, ∅)) as [groups seen]. cbn [fst] in Hch.
  split_and!; [| | done].
  - rewrite network_of_spec in Hch. case_decide as Hnil.
    + by rewrite (groupServices_none nid services groups ∅ Hch).
    + rewrite (groupServices_at nid _ services groups ∅ [] Hch); [done |]. intros key _. set_solver.
  - intros c. rewrite list_elem_of_fmap. setoid_rewrite list_elem_of_filter. split.
    + intros (configured & -> & Hc & Hin). exists configured. by apply Hcand in Hc.
    + intros (configured & Hin & <- & Hd & Ht). exists configured. by rewrite Hcand.
Qed.

End Agree.

End Plan.

(** ** A satellite network and a terrestrial one *)

Definition planService (network sid : Z) (typ channel : string) : Service :=
  MkService "" sid network network "" 1 true true None None None false 0 typ channel noEPG.
Definition planServices : list Service :=
  [planService 4 101 "BS" "15"; planService 0x7fe8 1024 "GR" "27"; planService 4 102 "BS" "15"; planService 0x7fe8 1024 "GR" "27"].
Definition planChannel (typ channel : string) (disabled : option bool) : @ChannelConfig Empty_set :=
  MkChannelConfig "" typ channel None None None disabled None None None None None [].
(** Nothing was found yet on the channel 17 of the satellite. *)
Definition planChannels : list (@ChannelConfig Empty_set) :=
  [planChannel "GR" "27" None; planChannel "BS" "15" (Some true); planChannel "BS" "17" None; planChannel "BS" "15" (Some false); planChannel "GR" "27" None; planChannel "GR" "21" None].

Example plan_of_satellite :
  (λ n, (nw_Candidates n, nw_Services n)) <$> groupServicesByNetwork planServices planChannels !! 4 = Some ([("BS", "17"); ("BS", "15")], [(4, 101, 4); (4, 102, 4)]) ∧
  networkInputs planServices planChannels 0x7fe8 = ([("GR", "27"); ("GR", "27")], [(0x7fe8, 1024, 0x7fe8)]) ∧
  (λ n, (nw_Candidates n, nw_Services n)) <$> groupServicesByNetwork planServices planChannels !! 0x7fe8 = Some ([("GR", "27")], [(0x7fe8, 1024, 0x7fe8)]).
Proof. vm_compute. done. Qed.

Lemma inputs_agree_witness : ∃ cands keys, networkInputs planServices planChannels 4 = (cands, keys) ∧
  match groupServicesByNetwork planServices planChannels !! 4 with
  | Some network => cands ≠ [] ∧ nw_Candidates network = firsts [] cands ∧ nw_Services network = keys
  | None => cands = []
  end.
Proof.
  assert (Forall (λ s, noNul (se_ChannelType s) = true) planServices) as Hs by repeat constructor.
  assert (Forall (λ c : @ChannelConfig Empty_set, noNul (cc_Type c) = true) planChannels) as Hc by repeat constructor.
  destruct (networkInputs planServices planChannels 4) as [cands keys] eqn:E. exists cands, keys. split; [done |].
  exact (proj1 (inputs_agree planServices Hs planChannels Hc 4 cands keys E)).
Defined.
