(* ===== verification/Collect.v ===== *)
(** * Collecting the guide of a network

    [internal/epg/gather.go], [remote_sync.go], [collect_workers.go], [service.go] and
    what [collect.go] decides: which sections of a stream count, what becomes of
    the services that were seen and of those that were not, and which channels
    are tuned one after another until no service is left.

    The program and service stores are interfaces of the package.  What they are
    asked is a log of calls, and their answers are a function of the log so far
    and the call: every store is such a function.  A channel is tuned and its
    sections are collected by code modelled elsewhere or not at all; what comes
    of it is, for [gatherNetwork], again a function of what was tried so far.

    An [error] joined by [errors.Join] is the list of what was joined, nil the
    empty list.  Log lines, spans, metrics and the data of the report items
    that repeats their numbers are left out. *)

From stdpp Require Import pretty.
From S2P Require Import Prelude Crc32 AribTables Aribstr Descriptors Psi Events Schedule EventDescriptors Programs Completion Peers Config Services EpgPlan.

(** ** The sections that count *)

Record expectedServiceIndex : Type := MkIndex {
  ix_byNID : gmap Z (gmap Z (gset Z));
  ix_networks : gset Z
}.

Definition addExpected (idx : expectedServiceIndex) (key : ServiceKey) : expectedServiceIndex :=
  let '(networkID, serviceID, transportStreamID) := key in
  let byTSID := default ∅ (ix_byNID idx !! networkID) in
  MkIndex (<[networkID := <[transportStreamID := {[serviceID]} ∪ default ∅ (byTSID !! transportStreamID)]> byTSID]> (ix_byNID idx))
    ({[networkID]} ∪ ix_networks idx).

Definition newExpectedServiceIndex (expected : list ServiceKey) : expectedServiceIndex := fold_left addExpected expected (MkIndex ∅ ∅).

Definition matchesExpected (idx : expectedServiceIndex) (section : EITSection) : bool :=
  match ix_byNID idx !! OriginalNetworkID section with
  | None => false
  | Some byTSID =>
      match match byTSID !! TransportStreamID section with Some ids => Some ids | None => byTSID !! 0 end with
      | None => false
      | Some ids => bool_decide (ServiceID section ∈ ids)
      end
  end.

Definition matchesCollectionNetwork (idx : expectedServiceIndex) (section : EITSection) : bool :=
  bool_decide (OriginalNetworkID section ∈ ix_networks idx).

(** The index answers for its keys. *)
Definition indexed (expected : list ServiceKey) (n t s : Z) : Prop := (n, s, t) ∈ expected.

Lemma index_spec expected : ∀ idx,
  (∀ n t s, (∃ byTSID ids, ix_byNID (fold_left addExpected expected idx) !! n = Some byTSID ∧ byTSID !! t = Some ids ∧ s ∈ ids) ↔
            (∃ byTSID ids, ix_byNID idx !! n = Some byTSID ∧ byTSID !! t = Some ids ∧ s ∈ ids) ∨ (n, s, t) ∈ expected) ∧
  (∀ n t, (∃ byTSID, ix_byNID (fold_left addExpected expected idx) !! n = Some byTSID ∧ is_Some (byTSID !! t)) ↔
          (∃ byTSID, ix_byNID idx !! n = Some byTSID ∧ is_Some (byTSID !! t)) ∨ ∃ s, (n, s, t) ∈ expected) ∧
  ∀ n, n ∈ ix_networks (fold_left addExpected expected idx) ↔ n ∈ ix_networks idx ∨ ∃ s t, (n, s, t) ∈ expected.
Proof.
  induction expected as [| [[n0 s0] t0] expected IH]; intros idx.
  { split_and!; intros; cbn [fold_left]; set_solver. }
  cbn [fold_left]. destruct (IH (addExpected idx (n0, s0, t0))) as (H1 & H2 & H3). split_and!.
  - intros n t s. rewrite H1, elem_of_cons. cbn [addExpected ix_byNID]. clear. split.
    + intros [(b & ids & Hb & Hi & Hs) |]; [| tauto]. destruct (decide (n0 = n)) as [-> | Hn]; [| rewrite lookup_insert_ne in Hb by done; left; eauto].
      rewrite lookup_insert_eq in Hb. injection Hb as <-. destruct (decide (t0 = t)) as [-> | Ht].
      * rewrite lookup_insert_eq in Hi. injection Hi as <-. apply elem_of_union in Hs as [->%elem_of_singleton | Hs]; [by right; left |].
        destruct (ix_byNID idx !! n) as [b |] eqn:Eb; cbn in Hs; [| rewrite lookup_empty in Hs; set_solver].
        destruct (b !! t) as [ids |] eqn:Ei; cbn in Hs; [left; eauto | set_solver].
      * rewrite lookup_insert_ne in Hi by done. destruct (ix_byNID idx !! n) as [b |] eqn:Eb; cbn in Hi; [left; eauto | by rewrite lookup_empty in Hi].
    + intros [(b & ids & Hb & Hi & Hs) | [[= -> -> ->] |]]; [| left | tauto].
      * left. destruct (decide (n0 = n)) as [-> | Hn]; [| rewrite lookup_insert_ne by done; eauto]. rewrite lookup_insert_eq, Hb. cbn.
        destruct (decide (t0 = t)) as [-> | Ht]; [| by exists (<[t0:={[s0]} ∪ default ∅ (b !! t0)]> b), ids; rewrite lookup_insert_ne by done].
        eexists _, _. split; [done |]. rewrite lookup_insert_eq, Hi. cbn. split; [done | set_solver].
      * eexists _, _. rewrite lookup_insert_eq. split; [done |]. rewrite lookup_insert_eq. split; [done | set_solver].
  - intros n t. rewrite H2. setoid_rewrite elem_of_cons. cbn [addExpected ix_byNID]. clear. split.
    + intros [(b & Hb & Hi) |]; [| naive_solver]. destruct (decide (n0 = n)) as [-> | Hn]; [| rewrite lookup_insert_ne in Hb by done; left; eauto].
      rewrite lookup_insert_eq in Hb. injection Hb as <-. destruct (decide (t0 = t)) as [-> | Ht]; [right; exists s0; by left |].
      rewrite lookup_insert_ne in Hi by done. destruct (ix_byNID idx !! n) as [b |] eqn:Eb; cbn in Hi; [left; eauto | by destruct Hi].
    + intros [(b & Hb & Hi) | (s & [[= -> -> ->] |])]; [| left | naive_solver].
      * left. destruct (decide (n0 = n)) as [-> | Hn]; [| rewrite lookup_insert_ne by done; eauto]. rewrite lookup_insert_eq, Hb. eexists. split; [done |].
        cbn. apply lookup_insert_is_Some'. by right.
      * rewrite lookup_insert_eq. eexists. split; [done |]. rewrite lookup_insert_eq. by eexists.
  - intros n. rewrite H3. setoid_rewrite elem_of_cons. cbn [addExpected ix_networks]. clear. set_solver.
Qed.

(** A section is of an expected service if the service was expected on its transport
    stream, or, when no service was expected on that, on stream 0. *)
Lemma matchesExpected_spec expected section :
  matchesExpected (newExpectedServiceIndex expected) section = true ↔
  let '(n, t, s) := (OriginalNetworkID section, TransportStreamID section, ServiceID section) in
  (n, s, t) ∈ expected ∨ (¬ ∃ s', (n, s', t) ∈ expected) ∧ (n, s, 0) ∈ expected.
Proof.
  unfold matchesExpected, newExpectedServiceIndex. destruct (index_spec expected (MkIndex ∅ ∅)) as (H1 & H2 & _). cbv zeta beta iota.
  set (idx := fold_left addExpected expected (MkIndex ∅ ∅)) in *. set (n := OriginalNetworkID section). set (t := TransportStreamID section). set (s := ServiceID section).
  assert (∀ t s, (n, s, t) ∈ expected ↔ ∃ b ids, ix_byNID idx !! n = Some b ∧ b !! t = Some ids ∧ s ∈ ids) as H1'.
  { intros t' s'. rewrite H1. cbn. split; [by right |]. intros [(? & ? & ? & _) |]; done. }
  assert ((∃ s', (n, s', t) ∈ expected) ↔ ∃ b, ix_byNID idx !! n = Some b ∧ is_Some (b !! t)) as H2'.
  { rewrite H2. cbn. split; [by right |]. intros [(? & ? & _) |]; done. }
  rewrite H2', !H1'. clear H1 H2 H1' H2'. destruct (ix_byNID idx !! n) as [b |]; [| naive_solver].
  destruct (b !! t) as [ids |] eqn:Et; [rewrite bool_decide_eq_true |].
  - split; [naive_solver |]. intros [(b' & ids' & [= <-] & E & Hs) | [Hno _]]; [congruence |]. destruct Hno. exists b. rewrite Et. by eauto.
  - destruct (b !! 0) as [ids |] eqn:E0; [rewrite bool_decide_eq_true |].
    + split; [| naive_solver]. intros Hs. right. split; [| eauto]. intros (b' & [= <-] & [x Hx]). congruence.
    + split; [done |]. naive_solver.
Qed.

Lemma matchesCollectionNetwork_spec expected section :
  matchesCollectionNetwork (newExpectedServiceIndex expected) section = true ↔ ∃ s t, (OriginalNetworkID section, s, t) ∈ expected.
Proof.
  unfold matchesCollectionNetwork, newExpectedServiceIndex. destruct (index_spec expected (MkIndex ∅ ∅)) as (_ & _ & H). rewrite bool_decide_eq_true, H. cbn. set_solver.
Qed.

(** The clock of the broadcast, or of the machine until one was seen: [now] is what
    [time.Now] answers. *)
Definition collectClock : Type := option Z.
Definition clockSet (clock : option Z) (c : collectClock) : collectClock := match clock with None => c | Some t => Some t end.
Definition clockNow (now : Z) (c : collectClock) : Z := default now c.

(** ** The workers that store while a collection runs *)

Section Workers.
Context {P : Type}.

(** [ErrEITPFQueueOverflow] and an error of the store. *)
Inductive pfError : Type := ErrEITPFQueueOverflow | PFStore (e : error).

(** The upserter of present and following events. [pf_sending] is an [enqueue]
    between the lock and the send, [pf_working] what [run] has taken. *)
Record eitPFUpserter : Type := MkPF {
  pf_requests : list P;
  pf_closed : bool;
  pf_err : option pfError;
  pf_pending : Z;
  pf_sending : option P;
  pf_working : option P;
  pf_done : bool
}.

Definition eitsCollectionBuffer : Z := 4096.

Definition newEITPFUpserter : eitPFUpserter := MkPF [] false None 0 None None false.

Definition setErr (e : pfError) (u : eitPFUpserter) : eitPFUpserter :=
  MkPF (pf_requests u) (pf_closed u) (match pf_err u with None => Some e | Some e => Some e end) (pf_pending u) (pf_sending u) (pf_working u) (pf_done u).
Definition setPending (n : Z) (u : eitPFUpserter) : eitPFUpserter :=
  MkPF (pf_requests u) (pf_closed u) (pf_err u) n (pf_sending u) (pf_working u) (pf_done u).

(** The part of [enqueue] under the lock, for programs that are not empty. *)
Definition pfEnqueue (programs : P) (u : eitPFUpserter) : eitPFUpserter :=
  if negb (bool_decide (pf_err u = None)) || negb (pf_pending u =? 0) then u
  else MkPF (pf_requests u) (pf_closed u) (pf_err u) (pf_pending u + 1) (Some programs) (pf_working u) (pf_done u).

(** The send, which panics on a closed channel. *)
Definition pfSend (u : eitPFUpserter) : outcome eitPFUpserter :=
  match pf_sending u with
  | None => Ret u
  | Some programs =>
      if pf_closed u then Panic
      else if len (pf_requests u) <? eitsCollectionBuffer then
        Ret (MkPF (pf_requests u ++ [programs]) false (pf_err u) (pf_pending u) None (pf_working u) (pf_done u))
      else Ret (setErr ErrEITPFQueueOverflow (MkPF (pf_requests u) false (pf_err u) (pf_pending u - 1) None (pf_working u) (pf_done u)))
  end.

(** [run] takes a request, or ends when the channel is closed and empty. *)
Definition pfTake (u : eitPFUpserter) : eitPFUpserter :=
  match pf_working u, pf_done u, pf_requests u with
  | None, false, programs :: requests => MkPF requests (pf_closed u) (pf_err u) (pf_pending u) (pf_sending u) (Some programs) false
  | None, false, [] => if pf_closed u then MkPF [] true (pf_err u) (pf_pending u) (pf_sending u) None true else u
  | _, _, _ => u
  end.

(** It has stored them. *)
Definition pfStored (answer : option error) (u : eitPFUpserter) : eitPFUpserter :=
  match pf_working u with
  | None => u
  | Some _ =>
      let u := MkPF (pf_requests u) (pf_closed u) (pf_err u) (pf_pending u) (pf_sending u) None (pf_done u) in
      let u := match answer with Some e => setErr (PFStore e) u | None => u end in
      setPending (pf_pending u - 1) u
  end.

(** [stop] *)
Definition pfStop (u : eitPFUpserter) : eitPFUpserter :=
  MkPF (pf_requests u) true (pf_err u) (pf_pending u) (pf_sending u) (pf_working u) (pf_done u).

(** The collection's goroutine enqueues and, when it has handled its last section,
    stops; the worker interleaves. *)
Inductive pfStep : eitPFUpserter → eitPFUpserter → Prop :=
| PFEnqueue u programs : pf_sending u = None → pf_closed u = false → pfStep u (pfEnqueue programs u)
| PFSend u u' : pfSend u = Ret u' → pfStep u u'
| PFTake u : pfStep u (pfTake u)
| PFStored u answer : pfStep u (pfStored answer u)
| PFStop u : pf_sending u = None → pfStep u (pfStop u).

Definition held {X} (o : option X) : Z := match o with Some _ => 1 | None => 0 end.

Record pf_ok (u : eitPFUpserter) : Prop := {
  pf_counts : pf_pending u = held (pf_sending u) + len (pf_requests u) + held (pf_working u);
  pf_one : pf_pending u ≤ 1;
  pf_errs : pf_err u ≠ Some ErrEITPFQueueOverflow;
  pf_open : is_Some (pf_sending u) → pf_closed u = false;
  pf_ended : pf_done u = true → pf_closed u = true ∧ pf_pending u = 0
}.

Lemma pf_new_ok : pf_ok newEITPFUpserter.
Proof. by constructor. Qed.

Lemma len_pos {X} (l : list X) : 0 ≤ len l.
Proof. unfold len. lia. Qed.

Lemma pfEnqueue_ok programs u : pf_sending u = None → pf_closed u = false → pf_ok u → pf_ok (pfEnqueue programs u).
Proof.
  intros Hs Hc [H1 H2 H3 H4 H5]. unfold pfEnqueue. destruct (bool_decide (pf_err u = None)) eqn:Ee; cbn [negb orb]; [| by constructor].
  destruct (Z.eqb_spec (pf_pending u) 0) as [E | E]; cbn [negb orb]; [| by constructor]. rewrite Hs in H1. cbn in H1.
  constructor; cbn; try done; try lia. intros Hd. apply H5 in Hd as [? _]. congruence.
Qed.

Lemma pfSend_ok u : pf_ok u → ∃ u', pfSend u = Ret u' ∧ pf_ok u' ∧ pf_sending u' = None.
Proof.
  intros [H1 H2 H3 H4 H5]. unfold pfSend. destruct (pf_sending u) as [programs |] eqn:Es; [| eexists; split; [done |]; split; [by constructor; rewrite ?Es | done]].
  rewrite H4 by eauto. cbn [held] in H1. pose proof (len_pos (pf_requests u)). assert (0 ≤ held (pf_working u)) by (by destruct (pf_working u)).
  assert (len (pf_requests u) <? eitsCollectionBuffer = true) as -> by (unfold eitsCollectionBuffer; lia).
  eexists. split; [done |]. split; [| done]. constructor; cbn; try done.
  - unfold len in *. rewrite length_app. cbn. lia.
  - intros Hd. apply H5 in Hd as [Hc _]. rewrite H4 in Hc by eauto. done.
Qed.

Lemma pfTake_ok u : pf_ok u → pf_ok (pfTake u).
Proof.
  intros [H1 H2 H3 H4 H5]. unfold pfTake. destruct (pf_working u) as [w |] eqn:Ew; [by constructor; rewrite ?Ew |].
  destruct (pf_done u) eqn:Ed; [by constructor; rewrite ?Ew, ?Ed |]. destruct (pf_requests u) as [| r rs] eqn:Er.
  - destruct (pf_closed u) eqn:Ec; [| by constructor; rewrite ?Ew, ?Ed, ?Er].
    assert (pf_sending u = None) as Hs by (destruct (pf_sending u) eqn:Es; [discriminate H4; eauto | done]).
    rewrite Hs in *. by constructor.
  - constructor; cbn in *; try done. unfold len in *. cbn in *. lia.
Qed.

Lemma pfStored_ok answer u : pf_ok u → pf_ok (pfStored answer u).
Proof.
  intros [H1 H2 H3 H4 H5]. unfold pfStored. destruct (pf_working u) as [w |] eqn:Ew; [| by constructor; rewrite ?Ew].
  cbn [held] in H1. assert (pf_done u = false) as Hd.
  { destruct (pf_done u); [| done]. destruct H5 as [_ H5]; [done |]. pose proof (len_pos (pf_requests u)). destruct (pf_sending u); cbn in *; lia. }
  destruct answer as [e |]; constructor; cbn; rewrite ?Hd; try done; try lia. by destruct (pf_err u).
Qed.

Lemma pfStop_ok u : pf_sending u = None → pf_ok u → pf_ok (pfStop u).
Proof.
  intros Hs [H1 H2 H3 H4 H5]. constructor; cbn; try done; rewrite ?Hs in *; try done; intros Hd. by apply H5 in Hd as [_ ?].
Qed.

(** The upserter of the present and following events never holds more than
    one request: at most one is being sent, waits in the channel or is being
    stored, and while there is one, or after the store has failed, what is enqueued
    is dropped. So the buffer of 4096 is never full, [ErrEITPFQueueOverflow] is
    never set, the send never blocks and never meets a closed channel, and when
    the worker has ended nothing is left. *)
Theorem pf_upserter (u : eitPFUpserter) : rtc pfStep newEITPFUpserter u →
  pf_err u ≠ Some ErrEITPFQueueOverflow ∧ len (pf_requests u) ≤ 1 ∧
  (is_Some (pf_working u) → pf_requests u = [] ∧ pf_sending u = None) ∧
  (∃ u', pfSend u = Ret u' ∧ pf_sending u' = None) ∧
  (pf_done u = true → pf_requests u = [] ∧ pf_sending u = None ∧ pf_working u = None).
Proof.
  intros Hr. assert (pf_ok u) as Hok.
  { revert Hr. apply (rtc_ind_r pf_ok); [apply pf_new_ok |]. intros u1 u2 _ Hs H1.
    destruct Hs as [u1 programs ? ? | u1 u2 E | u1 | u1 answer | u1 ?]; eauto using pfEnqueue_ok, pfTake_ok, pfStored_ok, pfStop_ok.
    destruct (pfSend_ok u1 H1) as (u' & E' & H' & _). congruence. }
  destruct Hok as [H1 H2 H3 H4 H5] eqn:Eok. clear Eok. pose proof (len_pos (pf_requests u)) as Hl.
  assert (0 ≤ held (pf_sending u) ∧ 0 ≤ held (pf_working u)) as [Hs Hw] by (by destruct (pf_sending u), (pf_working u)).
  assert (∀ l : list P, len l ≤ 0 → l = []) as Hnil by (intros [| x l] H; [done |]; unfold len in H; cbn in H; lia).
  assert (∀ o : option P, held o ≤ 0 → o = None) as Hnone by (intros [x |] H; [cbn in H; lia | done]).
  split_and!; [done | lia | | |].
  - intros [w Ew]. rewrite Ew in H1. cbn [held] in H1. split; [apply Hnil | apply Hnone]; lia.
  - destruct (pfSend_ok u Hok) as (u' & E & _ & Hu'). eauto.
  - intros Hd. apply H5 in Hd as [_ Hd]. split_and!; [apply Hnil | apply Hnone | apply Hnone]; lia.
Qed.

(** The flusher of partial schedules: a flush is skipped while one waits. *)
Definition partialFlush (programs : list P) (requests : list (list P)) : bool * list (list P) :=
  match programs with
  | [] => (true, requests)
  | _ => if len requests <? 1 then (true, requests ++ [programs]) else (false, requests)
  end.

End Workers.

(** ** The stores *)

(** What the stores are asked. *)
Inductive Call : Type :=
| UpsertPrograms (programs : list (option (Program textMap)))
| ReplaceServicePrograms (networkID serviceID : Z) (since : Z) (programs : list (option (Program textMap)))
| DeleteEndedBefore (cutoff : Z)
| SetEPGAttempt (networkID serviceID : Z) (at_ : Z) (lastError : string)
| SetEPGSuccess (networkID serviceID : Z) (at_ : Z).

Inductive collectError : Type :=
| MergeFailed (serviceID : Z) (e : error)
| SuccessFailed (e : error)
| EITSIncomplete (serviceID : Z)
| ListFailed (serviceID : Z) (e : error)
| ReplaceFailed (serviceID : Z) (e : error)
| SyncExpired (e : error)
| ExpectedEmpty
| NoKnownServices (networkID : Z)
| NoCandidates (networkID : Z)
| NetworkIncomplete (networkID : Z) (services : Z)
| Cancelled (e : error)
| SessionFailed (e : error)
| CandidateFailed (channelType channel : string) (e : list collectError).

Record CollectResult : Type := MkCollectResult {
  cr_Observed : list ServiceKey;
  cr_Unobserved : list ServiceKey;
  cr_ProgramCount : Z
}.

Section Stores.

(** What the stores answer, and the text of an error. *)
Variable answer : list Call → Call → option error.
Variable text : error → string.

Definition call (c : Call) (log : list Call) : option error * list Call := (answer log c, log ++ [c]).

(** An attempt whose own failure is only counted. *)
Definition attempt (key : ServiceKey) (at_ : Z) (message : string) (log : list Call) : list Call :=
  snd (call (SetEPGAttempt key.1.1 key.1.2 at_ message) log).

(** *** [persistObservedSnapshots] *)

Section Persist.
Context {A : Type} `{Countable A} {O : RangeOrderOf programPeerKey (list A)} {OS : RangeOrderOf ServiceKey unit}.

(** What the snapshot answers: the services with a basic table, and their programs. *)
Variable observed : ServiceKey → bool.
Variable programsOf : ServiceKey → list (option A).

(** The transport stream of each expected service: the last counts. *)
Definition transportStreams (expected : list ServiceKey) : gmap (Z * Z) Z :=
  fold_left (λ m key, <[key.1 := key.2]> m) expected ∅.

Definition mergesAlso (expected : list ServiceKey) (key : ServiceKey) : bool :=
  negb (bool_decide (key ∈ expected) || negb (observed key)) &&
  match transportStreams expected !! key.1 with
  | Some expectedTSID => negb (negb (expectedTSID =? 0) && negb (key.2 =? expectedTSID))
  | None => true
  end.

Definition mergeKeys (expected : list ServiceKey) (observedServices : gmap ServiceKey unit) : list ServiceKey :=
  expected ++ filter (λ key, mergesAlso expected key = true) (map fst (rangeOf observedServices)).

Record persisting : Type := MkPersisting {
  ps_result : CollectResult;
  ps_err : list collectError;
  ps_expectedObserved : Z;
  ps_unobserved : list collectError;
  ps_log : list Call
}.

Definition observedResult (key : ServiceKey) (programs : Z) (r : CollectResult) : CollectResult :=
  MkCollectResult (cr_Observed r ++ [key]) (cr_Unobserved r) (cr_ProgramCount r + programs).
Definition unobservedResult (key : ServiceKey) (r : CollectResult) : CollectResult :=
  MkCollectResult (cr_Observed r) (cr_Unobserved r ++ [key]) (cr_ProgramCount r).

(** [*item] of the pointers given to the store. *)
Definition valuesAt (heap : gmap A (Program textMap)) (programs : list (option A)) : list (option (Program textMap)) :=
  map (λ item, item ≫= λ a, heap !! a) programs.

(** The programs of an observed service are stored. *)
Definition persistPrograms (heap : gmap A (Program textMap)) (updatedAt : Z) (key : ServiceKey) (log : list Call) : outcome (list collectError * list Call) :=
  let programs := programsOf key in
  let '(err, log) := call (UpsertPrograms (valuesAt heap programs)) log in
  match err with
  | Some e => Ret ([MergeFailed key.1.2 e], attempt key updatedAt (text e) log)
  | None =>
      let '(err, log) := call (SetEPGSuccess key.1.1 key.1.2 updatedAt) log in
      warning ← lowQualityProgramWarning programs heap;
      Ret (match err with Some e => [SuccessFailed e] | None => [] end,
           if bool_decide (warning = ""%string) then log else attempt key updatedAt warning log)
  end.

Definition incompleteText (serviceID : Z) : string := ("service " +:+ pretty serviceID +:+ " EITS incomplete")%string.

Definition persistKey (heap : gmap A (Program textMap)) (expected : list ServiceKey) (updatedAt : Z) (st : persisting) (key : ServiceKey) : outcome persisting :=
  let isExpected := bool_decide (key ∈ expected) in
  let '(MkPersisting r err expectedObserved unobserved log) := st in
  if observed key then
    '(errs, log) ← persistPrograms heap updatedAt key log;
    Ret (MkPersisting (observedResult key (len (programsOf key)) r) (err ++ errs)
           (if isExpected then expectedObserved + 1 else expectedObserved) unobserved log)
  else if isExpected then
    Ret (MkPersisting (unobservedResult key r) err expectedObserved (unobserved ++ [EITSIncomplete key.1.2])
           (attempt key updatedAt (incompleteText key.1.2) log))
  else Ret st.

(** [result] starts empty. *)
Definition persistObservedSnapshots (heap : gmap A (Program textMap)) (expected : list ServiceKey) (observedServices : gmap ServiceKey unit)
    (updatedAt : Z) (log : list Call) : outcome (CollectResult * list collectError * list Call) :=
  let keys := mergeKeys expected observedServices in
  heap ← fillProgramsFromSharedPeers (flat_map programsOf (filter (λ key, observed key = true) keys)) heap;
  st ← foldM (persistKey heap expected updatedAt) keys (MkPersisting (MkCollectResult [] [] 0) [] 0 [] log);
  Ret (ps_result st, if ps_expectedObserved st =? 0 then ps_err st ++ ps_unobserved st else ps_err st, ps_log st).

(** ** What becomes of the services *)

(** Every call holds [P] with the log before it. *)
Fixpoint everyCall (P : list Call → Call → Prop) (log new : list Call) : Prop :=
  match new with
  | [] => True
  | c :: new => P log c ∧ everyCall P (log ++ [c]) new
  end.

Lemma everyCall_app P log new1 new2 : everyCall P log (new1 ++ new2) ↔ everyCall P log new1 ∧ everyCall P (log ++ new1) new2.
Proof.
  revert log. induction new1 as [| c new1 IH]; intros log; cbn [everyCall app]; [rewrite app_nil_r; tauto |]. rewrite IH, <- app_assoc. tauto.
Qed.

Lemma everyCall_mono (P Q : list Call → Call → Prop) log new : (∀ log c, P log c → Q log c) → everyCall P log new → everyCall Q log new.
Proof. intros HPQ. revert log. induction new as [| c new IH]; intros log; [done |]. cbn. intros [? ?]. split; auto. Qed.

(** The calls that store, in their order. *)
Definition upserts (new : list Call) : list (list (option (Program textMap))) := omap (λ c, match c with UpsertPrograms programs => Some programs | _ => None end) new.

(** A call that stores is answered nil. *)
Definition storedWell (log : list Call) (c : Call) : Prop :=
  match c with UpsertPrograms _ | SetEPGSuccess _ _ _ => answer log c = None | _ => True end.

(** A success is recorded only right after the programs of the service were stored. *)
Definition successEarned (heap : gmap A (Program textMap)) (keys : list ServiceKey) (updatedAt : Z) (log : list Call) (c : Call) : Prop :=
  match c with
  | SetEPGSuccess networkID serviceID at_ =>
      at_ = updatedAt ∧ ∃ log' key, key ∈ keys ∧ key.1 = (networkID, serviceID) ∧
        log = log' ++ [UpsertPrograms (valuesAt heap (programsOf key))] ∧ answer log' (UpsertPrograms (valuesAt heap (programsOf key))) = None
  | _ => True
  end.

Lemma successEarned_mono heap keys keys' updatedAt log new : keys ⊆ keys' →
  everyCall (successEarned heap keys updatedAt) log new → everyCall (successEarned heap keys' updatedAt) log new.
Proof.
  intros Hk. apply everyCall_mono. intros log' [| | | |]; cbn; try done. intros (? & l & key & Hin & ? & ? & ?). split; [done |]. exists l, key. split; [by apply Hk | done].
Qed.

Lemma warning_returns (heap : gmap A (Program textMap)) programs : loaded programs heap → ∃ warning, lowQualityProgramWarning programs heap = Ret warning.
Proof.
  intros Hl. pose proof (programTitleCounts_ok programs heap Hl) as Hc. unfold lowQualityProgramWarning. destruct (programTitleCounts programs heap) as [[m t] | | |]; try done.
  cbn. eauto.
Qed.

Lemma persistPrograms_ok heap updatedAt key log : loaded (programsOf key) heap →
  returns (persistPrograms heap updatedAt key log) (λ '(errs, log'), ∃ new, log' = log ++ new ∧
    upserts new = [valuesAt heap (programsOf key)] ∧ everyCall (successEarned heap [key] updatedAt) log new ∧ (errs = [] ↔ everyCall storedWell log new)).
Proof.
  intros Hl. unfold persistPrograms, attempt, call. cbn [fst snd]. destruct (answer log (UpsertPrograms (valuesAt heap (programsOf key)))) as [e |] eqn:E1.
  - cbn. eexists. rewrite <- app_assoc. split; [done |]. cbn. rewrite E1. split_and!; try done. split; [done |]. intros [? _]. congruence.
  - destruct (warning_returns heap (programsOf key) Hl) as [warning ->]. cbn [mbind outcome_bind]. apply safe_ret. set (u := UpsertPrograms _) in *.
    exists ([u; SetEPGSuccess key.1.1 key.1.2 updatedAt] ++ (if bool_decide (warning = ""%string) then [] else [SetEPGAttempt key.1.1 key.1.2 updatedAt warning])).
    split; [case_bool_decide; by rewrite <- ?app_assoc |]. split; [by case_bool_decide |]. rewrite !everyCall_app. cbn [everyCall]. split.
    + split; [| by case_bool_decide]. split; [done |]. split; [| done]. cbn. split; [done |]. exists log, key. split; [by left |]. by destruct key as [[? ?] ?].
    + destruct (answer (log ++ [u]) (SetEPGSuccess key.1.1 key.1.2 updatedAt)) as [e |] eqn:E2.
      * split; [done |]. intros [[_ [Hst _]] _]. cbn in Hst. congruence.
      * split; [| done]. intros _. split; [by split_and! |]. by case_bool_decide.
Qed.

Fixpoint countPrograms (keys : list ServiceKey) : Z :=
  match keys with [] => 0 | key :: keys => len (programsOf key) + countPrograms keys end.

Lemma countPrograms_app keys keys' : countPrograms (keys ++ keys') = countPrograms keys + countPrograms keys'.
Proof. induction keys as [| key keys IH]; cbn [countPrograms app]; lia. Qed.

(** The services seen, and the expected ones that were not. *)
Definition seenOf (keys : list ServiceKey) : list ServiceKey := filter (λ key, observed key = true) keys.
Definition missedOf (expected keys : list ServiceKey) : list ServiceKey := filter (λ key, observed key = false ∧ key ∈ expected) keys.
Definition expectedSeen (expected keys : list ServiceKey) : list ServiceKey := filter (λ key, observed key = true ∧ key ∈ expected) keys.

(** The calls [new] for the services [keys]. *)
Record persisted (heap : gmap A (Program textMap)) (expected keys : list ServiceKey) (updatedAt : Z) (log new : list Call) : Prop := {
  pd_upserts : upserts new = map (λ key, valuesAt heap (programsOf key)) (seenOf keys);
  pd_success : everyCall (successEarned heap (seenOf keys) updatedAt) log new;
  pd_missed key : key ∈ missedOf expected keys → SetEPGAttempt key.1.1 key.1.2 updatedAt (incompleteText key.1.2) ∈ new
}.

Record persist_state (heap : gmap A (Program textMap)) (expected : list ServiceKey) (updatedAt : Z) (log : list Call) (keys : list ServiceKey) (st : persisting) : Prop := {
  pt_result : ps_result st = MkCollectResult (seenOf keys) (missedOf expected keys) (countPrograms (seenOf keys));
  pt_expected : ps_expectedObserved st = len (expectedSeen expected keys);
  pt_unobserved : ps_unobserved st = map (λ key, EITSIncomplete key.1.2) (missedOf expected keys);
  pt_log : ∃ new, ps_log st = log ++ new ∧ persisted heap expected keys updatedAt log new ∧ (ps_err st = [] ↔ everyCall storedWell log new)
}.

Lemma persisted_app heap expected keys keys' updatedAt log new new' :
  persisted heap expected keys updatedAt log new → persisted heap expected keys' updatedAt (log ++ new) new' →
  persisted heap expected (keys ++ keys') updatedAt log (new ++ new').
Proof.
  intros [H1 H2 H3] [H1' H2' H3']. unfold seenOf, missedOf in *. constructor; unfold seenOf, missedOf; rewrite ?filter_app.
  - unfold upserts in *. by rewrite omap_app, map_app, H1, H1'.
  - apply everyCall_app. split; eapply successEarned_mono; [| exact H2 | | exact H2']; set_solver.
  - intros key. rewrite !elem_of_app. intros [? | ?]; [left | right]; auto.
Qed.

Lemma persistKey_ok heap expected updatedAt log keys st key :
  loaded (flat_map programsOf (seenOf [key])) heap → persist_state heap expected updatedAt log keys st →
  returns (persistKey heap expected updatedAt st key) (persist_state heap expected updatedAt log (keys ++ [key])).
Proof.
  intros Hl [H1 H2 H3 (new & Hlog & Hp & Herr)]. destruct st as [r err expectedObserved unobserved log1]. cbn [ps_result ps_err ps_expectedObserved ps_unobserved ps_log] in *.
  subst r expectedObserved unobserved log1. unfold persistKey.
  assert (∀ new' errs, persisted heap expected [key] updatedAt (log ++ new) new' → (errs = [] ↔ everyCall storedWell (log ++ new) new') →
    ∃ new0, (log ++ new) ++ new' = log ++ new0 ∧ persisted heap expected (keys ++ [key]) updatedAt log new0 ∧ (err ++ errs = [] ↔ everyCall storedWell log new0)) as Hgo.
  { intros new' errs Hn He. exists (new ++ new'). split; [by rewrite app_assoc |]. split; [by apply persisted_app |]. rewrite everyCall_app, <- Herr, <- He, app_nil. tauto. }
  destruct (observed key) eqn:Eo.
  - assert (seenOf [key] = [key]) as Hs by (unfold seenOf; by rewrite filter_cons_True). assert (missedOf expected [key] = []) as Hm by (unfold missedOf; rewrite filter_cons_False by (intros [? ?]; congruence); done).
    rewrite Hs in Hl. cbn [flat_map] in Hl. rewrite app_nil_r in Hl. apply safe_bind. eapply safe_mono; [by apply persistPrograms_ok |].
    intros [errs log'] (new' & -> & Hu & Hsu & He). apply safe_ret. constructor; cbn [ps_result ps_err ps_expectedObserved ps_unobserved ps_log].
    + unfold seenOf, missedOf in *. rewrite !filter_app, Hs, Hm, countPrograms_app, app_nil_r. unfold observedResult. cbn [cr_Observed cr_Unobserved cr_ProgramCount countPrograms]. f_equal; lia.
    + unfold expectedSeen. rewrite filter_app, filter_cons, filter_nil. unfold len. rewrite length_app. case_bool_decide; case_decide; cbn; first [lia | tauto].
    + unfold missedOf in *. by rewrite filter_app, Hm, app_nil_r.
    + apply Hgo; [| done]. constructor; [by rewrite Hs | by rewrite Hs | rewrite Hm; by intros ? ?%elem_of_nil].
  - assert (seenOf [key] = []) as Hs by (unfold seenOf; by rewrite filter_cons_False by congruence).
    assert (expectedSeen expected (keys ++ [key]) = expectedSeen expected keys) as He by (unfold expectedSeen; rewrite filter_app, filter_cons_False, app_nil_r by (intros [? ?]; congruence); done).
    case_bool_decide as Hin.
    + assert (missedOf expected [key] = [key]) as Hm by (unfold missedOf; by rewrite filter_cons_True).
      apply safe_ret. constructor; cbn [ps_result ps_err ps_expectedObserved ps_unobserved ps_log].
      * unfold seenOf, missedOf in *. rewrite !filter_app, Hs, Hm, app_nil_r. done.
      * by rewrite He.
      * unfold missedOf in *. rewrite filter_app, Hm, map_app. done.
      * destruct (Hgo [SetEPGAttempt key.1.1 key.1.2 updatedAt (incompleteText key.1.2)] []) as (new0 & E & ? & Hq); [| done |].
        -- constructor; rewrite ?Hs, ?Hm; [done | done |]. intros k ->%list_elem_of_singleton. by left.
        -- exists new0. rewrite app_nil_r in Hq. done.
    + assert (missedOf expected [key] = []) as Hm by (unfold missedOf; rewrite filter_cons_False by (intros [? ?]; congruence); done).
      apply safe_ret. constructor; cbn [ps_result ps_err ps_expectedObserved ps_unobserved ps_log].
      * unfold seenOf, missedOf in *. by rewrite !filter_app, Hs, Hm, !app_nil_r.
      * by rewrite He.
      * unfold missedOf in *. by rewrite filter_app, Hm, app_nil_r.
      * destruct (Hgo [] []) as (new0 & E & ? & Hq); [| done |].
        -- constructor; rewrite ?Hs, ?Hm; [done | done |]. by intros ? ?%elem_of_nil.
        -- exists new0. rewrite app_nil_r in E, Hq. done.
Qed.

Lemma filter_ext_in {X} (P Q : X → Prop) `{∀ x, Decision (P x), ∀ x, Decision (Q x)} (l : list X) : (∀ x, x ∈ l → P x ↔ Q x) → filter P l = filter Q l.
Proof.
  induction l as [| x l IH]; intros HPQ; [done |]. rewrite !filter_cons. rewrite IH by (intros y Hy; apply HPQ; by right).
  assert (P x ↔ Q x) as Hx by (apply HPQ; by left). destruct (decide (P x)), (decide (Q x)); tauto.
Qed.

Lemma filter_none {X} (P : X → Prop) `{∀ x, Decision (P x)} (l : list X) : (∀ x, x ∈ l → ¬ P x) → filter P l = [].
Proof. induction l as [| x l IH]; intros HP; [done |]. rewrite filter_cons_False by (apply HP; by left). apply IH. intros y Hy. apply HP. by right. Qed.

Lemma persistKeys_ok heap expected updatedAt log keys : loaded (flat_map programsOf (seenOf keys)) heap →
  returns (foldM (persistKey heap expected updatedAt) keys (MkPersisting (MkCollectResult [] [] 0) [] 0 [] log)) (persist_state heap expected updatedAt log keys).
Proof.
  intros Hl. apply (safe_foldM_prefix (λ k st, persist_state heap expected updatedAt log k st)).
  - constructor; try done. exists []. rewrite app_nil_r. split; [done |]. split; [| done]. constructor; try done. by intros key ?%elem_of_nil.
  - intros k key st Hst [rest Hpre]. apply persistKey_ok; [| done]. intros a Ha. apply Hl.
    apply list_elem_of_In, in_flat_map in Ha as (key' & Hk & Ha). apply list_elem_of_In, in_flat_map. exists key'. split; [| done].
    apply list_elem_of_In in Hk. apply list_elem_of_In. unfold seenOf in *. apply list_elem_of_filter in Hk as [Ho ->%list_elem_of_singleton]. apply list_elem_of_filter.
    split; [done |]. rewrite Hpre. set_solver.
Qed.

(** The transport stream on which a service is expected: the last counts. *)
Lemma transportStreams_last expected service : transportStreams expected !! service = snd <$> list.last (filter (λ k : ServiceKey, k.1 = service) expected).
Proof.
  unfold transportStreams. induction expected as [| key expected IH] using rev_ind; [done |].
  rewrite fold_left_app, filter_app, filter_cons, filter_nil. cbn [fold_left]. destruct (decide (key.1 = service)) as [<- | Hne].
  - by rewrite lookup_insert_eq, last_snoc.
  - by rewrite lookup_insert_ne, app_nil_r.
Qed.

(** The expected services come first, in their order, and each other once. *)
Lemma mergeKeys_seen expected observedServices : ∃ others, seenOf (mergeKeys expected observedServices) = filter (λ key, observed key = true) expected ++ others ∧
  NoDup others ∧ ∀ key, key ∈ others ↔ observed key = true ∧ key ∉ expected ∧ is_Some (observedServices !! key) ∧
    ∀ k, list.last (filter (λ k, k.1 = key.1) expected) = Some k → k.2 = 0 ∨ key.2 = k.2.
Proof.
  unfold seenOf, mergeKeys. rewrite filter_app. eexists. split; [done |]. split.
  { do 2 apply NoDup_filter. rewrite rangeOf_perm. apply NoDup_fst_map_to_list. }
  intros key. rewrite !list_elem_of_filter, list_elem_of_fmap.
  assert ((∃ y : ServiceKey * (), key = y.1 ∧ y ∈ rangeOf observedServices) ↔ is_Some (observedServices !! key)) as ->.
  { setoid_rewrite rangeOf_perm. split; [intros ([k []] & -> & Hin%elem_of_map_to_list); eauto | intros [[] Hin]; exists (key, ()); by rewrite elem_of_map_to_list]. }
  unfold mergesAlso. rewrite andb_true_iff, negb_true_iff, orb_false_iff, bool_decide_eq_false, negb_false_iff, transportStreams_last.
  assert (match snd <$> list.last (filter (λ k : ServiceKey, k.1 = key.1) expected) with
    Some t => negb (negb (t =? 0) && negb (key.2 =? t)) | None => true end = true ↔
    ∀ k, list.last (filter (λ k : ServiceKey, k.1 = key.1) expected) = Some k → k.2 = 0 ∨ key.2 = k.2) as ->; [| tauto].
  destruct (list.last (filter (λ k : ServiceKey, k.1 = key.1) expected)) as [k |]; cbn; [| done]. rewrite negb_true_iff, andb_false_iff, !negb_false_iff, !Z.eqb_eq.
  split; [intros Ht k' [= <-]; done | intros Ht; by apply Ht].
Qed.

Lemma mergeKeys_missed expected observedServices : missedOf expected (mergeKeys expected observedServices) = filter (λ key, observed key = false) expected.
Proof.
  unfold missedOf, mergeKeys. rewrite filter_app. rewrite (filter_none _ (filter _ _)).
  - rewrite app_nil_r. apply filter_ext_in. intros key Hk. tauto.
  - intros key [Hm _]%list_elem_of_filter [Ho _]. unfold mergesAlso in Hm. rewrite Ho in Hm. cbn in Hm. by rewrite orb_true_r in Hm.
Qed.

(** C20 (functional): what a collection leaves. Every service with a basic table in the snapshot is
    merged: the expected ones in their order, as often as they are expected, and then,
    once each, the others that were seen on the way, unless the service is expected on
    another transport stream; its programs, with
    what their shared events lack filled in over all services, are given to the
    store in that order, and [SetEPGSuccess] is called only after its store
    answered nil. Every expected service without one is reported unobserved and
    gets the attempt [service N EITS incomplete]. The call returns nil exactly
    when the stores answered nil throughout and some expected service was seen. *)
Theorem persist_accounts heap expected observedServices updatedAt log :
  let keys := mergeKeys expected observedServices in
  loaded (flat_map programsOf (seenOf keys)) heap →
  returns (persistObservedSnapshots heap expected observedServices updatedAt log) (λ '(r, err, log'), ∃ filled same new,
    grouping (flat_map programsOf (seenOf keys)) heap same ∧
    (∀ a, filled !! a = (λ p, if decide (a ∈ addresses (flat_map programsOf (seenOf keys)))
       then fillAll p (filter (λ q, same (programKey q) (programKey p) = true) (programsAt heap (addresses (flat_map programsOf (seenOf keys))))) else p) <$> heap !! a) ∧
    (∃ others, cr_Observed r = filter (λ key, observed key = true) expected ++ others ∧ NoDup others ∧
       ∀ key, key ∈ others ↔ observed key = true ∧ key ∉ expected ∧ is_Some (observedServices !! key) ∧
         ∀ k, list.last (filter (λ k, k.1 = key.1) expected) = Some k → k.2 = 0 ∨ key.2 = k.2) ∧
    cr_Unobserved r = filter (λ key, observed key = false) expected ∧ cr_ProgramCount r = countPrograms (cr_Observed r) ∧
    log' = log ++ new ∧
    upserts new = map (λ key, valuesAt filled (programsOf key)) (cr_Observed r) ∧
    everyCall (successEarned filled (cr_Observed r) updatedAt) log new ∧
    (∀ key, key ∈ cr_Unobserved r → SetEPGAttempt key.1.1 key.1.2 updatedAt (incompleteText key.1.2) ∈ new) ∧
    (err = [] ↔ everyCall storedWell log new ∧ (expected = [] ∨ ∃ key, key ∈ expected ∧ observed key = true))).
Proof.
  intros keys Hl. unfold persistObservedSnapshots. fold keys. fold (seenOf keys). set (programs := flat_map programsOf (seenOf keys)) in *.
  apply safe_bind. eapply safe_mono; [by apply groups_filled |]. intros filled (same & Hsame & Hfill).
  assert (loaded programs filled) as Hl'.
  { intros a Ha. rewrite Hfill. apply fmap_is_Some. by apply Hl. }
  apply safe_bind. eapply safe_mono; [by apply persistKeys_ok |]. intros st [H1 H2 H3 (new & Hlog & [Hu Hs Hm] & He)].
  apply safe_ret. exists filled, same, new. rewrite H1. cbn [cr_Observed cr_Unobserved cr_ProgramCount]. unfold keys in *. rewrite mergeKeys_missed in *.
  split_and!; try done. { apply mergeKeys_seen. }
  assert (expectedSeen expected (mergeKeys expected observedServices) = [] ↔ ¬ ∃ key, key ∈ expected ∧ observed key = true) as Hnone.
  { unfold expectedSeen. split.
    - intros E (key & Hk & Ho). assert (key ∈ filter (λ key, observed key = true ∧ key ∈ expected) (mergeKeys expected observedServices)) as Hin.
      { apply list_elem_of_filter. split; [done |]. unfold mergeKeys. set_solver. }
      rewrite E in Hin. by apply elem_of_nil in Hin.
    - intros Hno. apply filter_none. intros key _ [Ho Hk]. eauto. }
  rewrite H2, H3. destruct (Z.eqb_spec (len (expectedSeen expected (mergeKeys expected observedServices))) 0) as [E | E].
  - assert (expectedSeen expected (mergeKeys expected observedServices) = []) as E' by (destruct (expectedSeen _ _); [done | unfold len in E; cbn in E; lia]).
    apply Hnone in E'. rewrite app_nil, He. split.
    + intros [Hq Hmap]. split; [done |]. left. destruct expected as [| key expected]; [done |]. exfalso.
      destruct (observed key) eqn:Eo; [apply E'; exists key; split; [by left | done] |]. by rewrite filter_cons_True in Hmap.
    + intros [Hq [-> | ?]]; [done | tauto].
  - rewrite He. split; [| tauto]. intros Hq. split; [done |]. right. clear Hnone H2. destruct (expectedSeen expected (mergeKeys expected observedServices)) as [| key l] eqn:Ek; [done |].
    assert (key ∈ expectedSeen expected (mergeKeys expected observedServices)) as [[Ho Hk] _]%list_elem_of_filter by (rewrite Ek; by left). eauto.
Qed.

End Persist.

(** *** [syncStoredServicePrograms] *)

Section Sync.

(** What another server lists for a service, the state of the context, the clock. *)
Variable ListServicePrograms : list Call → Z → Z → list (option (Program textMap)) + error.
Variable expired : list Call → option error.
Variable now : list Call → Z.

Fixpoint syncStoredServicePrograms (expected : list ServiceKey) (result : list collectError) (log : list Call) : list collectError * list Call :=
  match expected with
  | [] => (result, log)
  | key :: expected =>
      match expired log with
      | Some e => (result ++ [SyncExpired e], log)
      | None =>
          let at_ := now log in
          match ListServicePrograms log key.1.1 key.1.2 with
          | inr e => syncStoredServicePrograms expected (result ++ [ListFailed key.1.2 e]) (attempt key at_ (text e) log)
          | inl programs =>
              let '(err, log) := call (ReplaceServicePrograms key.1.1 key.1.2 0 programs) log in
              match err with
              | Some e => syncStoredServicePrograms expected (result ++ [ReplaceFailed key.1.2 e]) (attempt key at_ (text e) log)
              | None =>
                  let '(err, log) := call (SetEPGSuccess key.1.1 key.1.2 at_) log in
                  syncStoredServicePrograms expected (match err with Some e => result ++ [SuccessFailed e] | None => result end) log
              end
          end
      end
  end.

(** [CollectServiceSnapshots] of a session that lists stored programs; [startedAt] is
    the clock at the start. *)
Definition collectStored (expected : list ServiceKey) (startedAt : Z) (log : list Call) : option CollectResult * list collectError * list Call :=
  match expected with
  | [] => (None, [ExpectedEmpty], log)
  | _ =>
      let log := fold_left (λ log key, attempt key startedAt "" log) expected log in
      let '(err, log) := syncStoredServicePrograms expected [] log in
      (Some (MkCollectResult (match err with [] => expected | _ => [] end) [] 0), err, log)
  end.

(** A call that replaces or succeeds is answered nil, and what is replaced was listed. *)
Definition replacedWell (log : list Call) (c : Call) : Prop :=
  match c with
  | ReplaceServicePrograms networkID serviceID since programs => since = 0 ∧ ListServicePrograms log networkID serviceID = inl programs ∧ answer log c = None
  | SetEPGSuccess _ _ _ => answer log c = None
  | _ => False
  end.

(** The services of the successes. *)
Definition successes (new : list Call) : list (Z * Z) := omap (λ c, match c with SetEPGSuccess networkID serviceID _ => Some (networkID, serviceID) | _ => None end) new.

Lemma sync_err expected : ∀ result log, fst (syncStoredServicePrograms expected result log) = [] → result = [].
Proof.
  induction expected as [| key expected IH]; intros result log; cbn [syncStoredServicePrograms]; [done |]. unfold call, attempt.
  assert (∀ (e : collectError) l, fst (syncStoredServicePrograms expected (result ++ [e]) l) = [] → result = []) as Hno.
  { intros e l Hl. apply IH in Hl. by apply app_nil in Hl as [? ?]. }
  destruct (expired log); [by intros [? ?]%app_nil |]. destruct (ListServicePrograms log key.1.1 key.1.2) as [programs | e]; cbn [fst snd]; [| apply Hno].
  destruct (answer log _); cbn [fst snd]; [apply Hno |]. destruct (answer (log ++ _) _); [apply Hno | apply IH].
Qed.

(** When it returns nil, the programs of every service were listed, replaced and recorded,
    one service after the other. *)
Lemma sync_done expected : ∀ log, fst (syncStoredServicePrograms expected [] log) = [] →
  ∃ new, snd (syncStoredServicePrograms expected [] log) = log ++ new ∧ everyCall replacedWell log new ∧ successes new = map fst expected.
Proof.
  induction expected as [| key expected IH]; intros log; cbn [syncStoredServicePrograms]; [intros _; exists []; by rewrite app_nil_r |].
  unfold call, attempt. destruct (expired log); [done |]. destruct (ListServicePrograms log key.1.1 key.1.2) as [programs | e] eqn:El; cbn [fst snd]; [| by intros ?%sync_err].
  destruct (answer log _) as [e |] eqn:E1; cbn [fst snd]; [by intros ?%sync_err |]. destruct (answer (log ++ _) _) as [e |] eqn:E2; [by intros ?%sync_err |].
  intros Herr. destruct (IH _ Herr) as (new & -> & Hn & Hs). rewrite <- !app_assoc in *. eexists. split; [done |]. rewrite !everyCall_app, <- app_assoc. cbn [everyCall].
  split; [by split_and! |]. unfold successes in *. rewrite !omap_app, Hs. by destruct key as [[? ?] ?].
Qed.

End Sync.

(** *** [Service.Cleanup] *)

(** A [time.Duration] is an [int64] of nanoseconds. *)
Definition duration (z : Z) : Z := (z + 2 ^ 63) mod 2 ^ 64 - 2 ^ 63.

Definition retention (days : Z) : Z := duration (- days * 24 * 3600000000000).

(** [now] in nanoseconds since 1970. *)
Definition Cleanup (retentionDays now : Z) (log : list Call) : option error * list Call :=
  if retentionDays <=? 0 then (None, log) else call (DeleteEndedBefore ((now + retention retentionDays) / 1000000)) log.

(** For up to 106751 days nothing that ended within the days is deleted. *)
Lemma cleanup_keeps days now log : 0 < days ≤ 106751 →
  snd (Cleanup days now log) = log ++ [DeleteEndedBefore ((now - days * 86400000000000) / 1000000)].
Proof.
  intros Hd. unfold Cleanup, call. replace (days <=? 0) with false by lia. cbn [snd]. replace (retention days) with (- days * 86400000000000); [do 4 f_equal; lia |].
  unfold retention, duration. rewrite Z.mod_small by lia. lia.
Qed.

End Stores.

(** [Service.Groups], with what the store answers. *)
Definition Groups {Y : Type} (stored : outcome (list Service)) (channels : list (@ChannelConfig Y)) : outcome (gmap Z Network) :=
  services ← stored;
  match services with
  | [] => Err (ErrNew "EPG gathering requires scanned services")
  | _ => Ret (groupServicesByNetwork services channels)
  end.

(** ** [gatherNetwork] *)

(** What comes of a candidate: its session, collected for the services that remain, and the
    state of the context afterwards. *)
Record Attempted : Type := MkAttempted {
  at_result : option CollectResult;
  at_err : list collectError;
  at_ctx : option error
}.

(** The report: an item of a candidate has the services it was the first to observe, the
    services left, its programs and whether it succeeded. *)
Record CandidateItem : Type := MkItem {
  it_candidate : Candidate;
  it_observed : Z;
  it_remaining : Z;
  it_programs : Z;
  it_success : bool
}.

Record GatherReport : Type := MkGatherReport {
  rp_candidates : Z;
  rp_services : Z;
  rp_observed : Z;
  rp_remaining : Z;
  rp_programs : Z;
  rp_items : list CandidateItem;
  rp_unobserved : list ServiceKey;
  rp_warnings : list Candidate
}.

Definition serviceKeyDifference (keys remove : list ServiceKey) : list ServiceKey :=
  let seen : gset ServiceKey := list_to_set remove in filter (λ key, key ∉ seen) keys.

Record gathering : Type := MkGathering {
  ga_remaining : list ServiceKey;
  ga_result : list collectError;
  ga_items : list CandidateItem;
  ga_warnings : list Candidate;
  ga_observed : Z;
  ga_programs : Z
}.

Section Gather.

(** [HasSession], asked for each candidate in turn, and what comes of the candidates, given those
    tried before. *)
Variable HasSession : nat → Candidate → bool.
Variable collect : list Candidate → Candidate → list ServiceKey → Attempted.
Variable networkID : Z.

Definition activeCandidates (candidates : list Candidate) : list Candidate :=
  map fst (filter (λ e : Candidate * bool, snd e = true) (imap (λ i candidate, (candidate, HasSession i candidate)) candidates)).

(** Those with a session first. *)
Definition orderCandidates (candidates : list Candidate) : list Candidate :=
  let active : gset Candidate := list_to_set (activeCandidates candidates) in
  activeCandidates candidates ++ filter (λ candidate, candidate ∉ active) candidates.

(** The counters after a candidate. *)
Definition observedOf (a : Attempted) : list ServiceKey := match at_result a with Some r => cr_Observed r | None => [] end.
Definition programsCount (a : Attempted) : Z := match at_result a with Some r => cr_ProgramCount r | None => 0 end.

Definition afterAttempt (candidate : Candidate) (a : Attempted) (g : gathering) : gathering :=
  let remaining := match observedOf a with [] => ga_remaining g | observed => serviceKeyDifference (ga_remaining g) observed end in
  let programs := match observedOf a with [] => ga_programs g | _ => ga_programs g + programsCount a end in
  let observedInRemaining := len (ga_remaining g) - len remaining in
  MkGathering remaining (ga_result g)
    (ga_items g ++ [MkItem candidate observedInRemaining (len remaining) (programsCount a) (match at_err a with [] => true | _ => false end)])
    (ga_warnings g) (ga_observed g + observedInRemaining) programs.

Definition warn (candidate : Candidate) (err : list collectError) (g : gathering) : gathering :=
  MkGathering (ga_remaining g) (ga_result g ++ [CandidateFailed candidate.1 candidate.2 err]) (ga_items g) (ga_warnings g ++ [candidate]) (ga_observed g) (ga_programs g).

Definition epgGatherResult (candidateCount serviceCount : Z) (unobserved : list ServiceKey) (g : gathering) : GatherReport :=
  MkGatherReport candidateCount serviceCount (ga_observed g) (len (ga_remaining g)) (ga_programs g) (ga_items g) unobserved (ga_warnings g).

(** The loop over the candidates: [inr] is a return from inside it, with the error and the
    report. *)
Fixpoint gatherCandidates (candidateCount serviceCount : Z) (tried ordered : list Candidate) (g : gathering)
    : gathering + (list collectError * option GatherReport) :=
  match ordered with
  | [] => inl g
  | candidate :: ordered =>
      match ga_remaining g with
      | [] => inr ([], Some (epgGatherResult candidateCount serviceCount [] g))
      | remaining =>
          let a := collect tried candidate remaining in
          let g := afterAttempt candidate a g in
          match at_err a, ga_remaining g with
          | [], [] => inr ([], Some (epgGatherResult candidateCount serviceCount [] g))
          | err, _ =>
              match at_ctx a with
              | Some e => inr ([Cancelled e], None)
              | None => gatherCandidates candidateCount serviceCount (tried ++ [candidate]) ordered
                          (match err with [] => g | _ => warn candidate err g end)
              end
          end
      end
  end.

Definition gatherNetwork (candidates : list Candidate) (serviceKeys : list ServiceKey) : list collectError * option GatherReport :=
  match serviceKeys with
  | [] => ([NoKnownServices networkID], None)
  | _ =>
      let ordered := orderCandidates candidates in
      match gatherCandidates (len candidates) (len serviceKeys) [] ordered (MkGathering serviceKeys [] [] [] 0 0) with
      | inr r => r
      | inl g =>
          match ga_result g, ordered with
          | [], [] => ([NoCandidates networkID], None)
          | result, _ =>
              (match result with [] => [NetworkIncomplete networkID (len (ga_remaining g))] | _ => result end,
               Some (epgGatherResult (len candidates) (len serviceKeys) (ga_remaining g) g))
          end
      end
  end.

(** ** What a collection of a network does *)

(** The services left after the first [n] candidates, and the attempt of the next. *)
Fixpoint leftAfter (ordered : list Candidate) (keys : list ServiceKey) (n : nat) : list ServiceKey :=
  match n with
  | O => keys
  | S n => match ordered !! n with
           | Some candidate => filter (λ key, key ∉ observedOf (collect (take n ordered) candidate (leftAfter ordered keys n))) (leftAfter ordered keys n)
           | None => leftAfter ordered keys n
           end
  end.
Definition attemptOf (ordered : list Candidate) (keys : list ServiceKey) (n : nat) : option Attempted :=
  (λ candidate, collect (take n ordered) candidate (leftAfter ordered keys n)) <$> ordered !! n.

Lemma difference_filter keys remove : serviceKeyDifference keys remove = filter (λ key, key ∉ remove) keys.
Proof. unfold serviceKeyDifference. apply list_filter_iff. intros key. by rewrite elem_of_list_to_set. Qed.

Lemma orderCandidates_spec candidates :
  (∀ c, c ∈ orderCandidates candidates ↔ c ∈ candidates) ∧
  (∀ c, c ∈ activeCandidates candidates ↔ ∃ i, candidates !! i = Some c ∧ HasSession i c = true) ∧
  ∃ others, orderCandidates candidates = activeCandidates candidates ++ others ∧ ∀ c, c ∈ others → c ∉ activeCandidates candidates.
Proof.
  assert (∀ c, c ∈ activeCandidates candidates ↔ ∃ i, candidates !! i = Some c ∧ HasSession i c = true) as Ha.
  { intros c. unfold activeCandidates. rewrite list_elem_of_fmap. setoid_rewrite list_elem_of_filter. split.
    - intros ([c' b] & -> & Hb & Hin). cbn in Hb. apply elem_of_lookup_imap in Hin as (i & x & [= -> ->] & Hi). eauto.
    - intros (i & Hi & Hs). exists (c, true). split; [done |]. split; [done |]. apply elem_of_lookup_imap. exists i, c. by rewrite Hs. }
  split_and!; [| done |].
  - intros c. unfold orderCandidates. rewrite elem_of_app, list_elem_of_filter, elem_of_list_to_set, Ha. split.
    + intros [(i & Hi & _) | [_ ?]]; [by eapply list_elem_of_lookup_2 | done].
    + intros Hc. destruct (decide (c ∈ activeCandidates candidates)) as [Hin | Hin]; [left; by apply Ha | right]. by rewrite <- Ha.
  - eexists. split; [done |]. intros c [Hc _]%list_elem_of_filter. by rewrite elem_of_list_to_set in Hc.
Qed.

(** The state before candidate [n]. *)
Record gather_state (ordered : list Candidate) (keys : list ServiceKey) (n : nat) (g : gathering) : Prop := {
  gs_remaining : ga_remaining g = leftAfter ordered keys n;
  gs_items : map it_candidate (ga_items g) = take n ordered;
  gs_sum : ga_observed g + len (ga_remaining g) = len keys;
  gs_missing k : (k < n)%nat → leftAfter ordered keys k ≠ []
}.

(** The services were not all observed by candidates that succeeded: some are left, or
    the last candidate failed. *)
Definition unfinished (ordered : list Candidate) (keys : list ServiceKey) (n : nat) : Prop :=
  leftAfter ordered keys n ≠ [] ∨ ∃ a, attemptOf ordered keys (pred n) = Some a ∧ at_err a ≠ [].

Definition report_of (ordered : list Candidate) (keys : list ServiceKey) (n : nat) (r : GatherReport) : Prop :=
  rp_remaining r = len (leftAfter ordered keys n) ∧ rp_observed r + rp_remaining r = len keys ∧ map it_candidate (rp_items r) = take n ordered.

Lemma report_ok ordered keys n g cs ss un : gather_state ordered keys n g → report_of ordered keys n (epgGatherResult cs ss un g).
Proof. intros [H1 H2 H3 _]. unfold report_of. cbn. rewrite H1 in *. done. Qed.

Lemma afterAttempt_ok ordered keys n g candidate : ordered !! n = Some candidate → ga_remaining g ≠ [] → gather_state ordered keys n g →
  let a := collect (take n ordered) candidate (ga_remaining g) in
  attemptOf ordered keys n = Some a ∧ gather_state ordered keys (S n) (afterAttempt candidate a g).
Proof.
  intros Hc Hne [H1 H2 H3 H4]. cbv zeta. unfold attemptOf. rewrite Hc, H1. split; [done |].
  assert (ga_remaining (afterAttempt candidate (collect (take n ordered) candidate (leftAfter ordered keys n)) g) = leftAfter ordered keys (S n)) as Hleft.
  { cbn [leftAfter]. rewrite Hc. unfold afterAttempt. cbn [ga_remaining]. rewrite H1. destruct (observedOf _) as [| key observed]; [| apply difference_filter].
    generalize (leftAfter ordered keys n). intros l. symmetry. induction l as [| x l IH]; [done |]. rewrite filter_cons_True by set_solver. by rewrite IH. }
  constructor; [done | | |].
  - cbn [afterAttempt ga_items]. rewrite map_app, H2. cbn. by rewrite (take_S_r _ _ _ Hc).
  - rewrite Hleft. rewrite <- Hleft. cbn [afterAttempt ga_observed ga_remaining]. rewrite H1 in *. lia.
  - intros k Hk. destruct (decide (k = n)) as [-> | Hkn]; [by rewrite <- H1 | apply H4; lia].
Qed.

Lemma gatherCandidates_ok cs ss ordered keys : ∀ rest n g,
  rest = drop n ordered → (n ≤ length ordered)%nat → gather_state ordered keys n g →
  (rest = [] → unfinished ordered keys n) →
  match gatherCandidates cs ss (take n ordered) rest g with
  | inl g' => gather_state ordered keys (length ordered) g' ∧ unfinished ordered keys (length ordered)
  | inr (err, report) => ∃ n', (n' ≤ length ordered)%nat ∧ (∀ k, (k < n')%nat → leftAfter ordered keys k ≠ []) ∧
      ((err = [] ∧ leftAfter ordered keys n' = [] ∧ ∃ r, report = Some r ∧ report_of ordered keys n' r) ∨
       ∃ a e, attemptOf ordered keys (pred n') = Some a ∧ at_ctx a = Some e ∧ err = [Cancelled e] ∧ report = None)
  end.
Proof.
  induction rest as [| candidate rest IH]; intros n g Hrest Hn Hg Hend; cbn [gatherCandidates].
  { assert (n = length ordered) as -> by (apply (f_equal length) in Hrest; rewrite length_drop in Hrest; cbn in Hrest; lia). auto. }
  assert (ordered !! n = Some candidate) as Hc by (rewrite <- (Nat.add_0_r n), <- lookup_drop, <- Hrest; done).
  assert (rest = drop (S n) ordered) as Hrest' by (rewrite <- (drop_drop ordered n 1), Nat.add_1_r || idtac; by rewrite (drop_S _ _ _ Hc) in Hrest; injection Hrest).
  assert (S n ≤ length ordered)%nat as Hn' by (apply lookup_lt_Some in Hc; lia).
  destruct (ga_remaining g) as [| key remaining] eqn:Er.
  { exists n. split; [done |]. split; [by apply (gs_missing _ _ _ _ Hg) |]. left. split; [done |]. split; [by rewrite <- (gs_remaining _ _ _ _ Hg) |].
    eexists. split; [done |]. by apply report_ok. }
  destruct (afterAttempt_ok ordered keys n g candidate Hc) as [Ha Hg']; [by rewrite Er | done |]. rewrite Er in Ha, Hg'.
  set (a := collect (take n ordered) candidate (key :: remaining)) in *. set (g1 := afterAttempt candidate a g) in *.
  assert (take n ordered ++ [candidate] = take (S n) ordered) as -> by (by rewrite (take_S_r _ _ _ Hc)).
  assert (∀ g2, gather_state ordered keys (S n) g2 → unfinished ordered keys (S n) →
    match match at_ctx a with Some e => inr ([Cancelled e], None) | None => gatherCandidates cs ss (take (S n) ordered) rest g2 end with
    | inl g' => gather_state ordered keys (length ordered) g' ∧ unfinished ordered keys (length ordered)
    | inr (err, report) => ∃ n', (n' ≤ length ordered)%nat ∧ (∀ k, (k < n')%nat → leftAfter ordered keys k ≠ []) ∧
        ((err = [] ∧ leftAfter ordered keys n' = [] ∧ ∃ r, report = Some r ∧ report_of ordered keys n' r) ∨
         ∃ a e, attemptOf ordered keys (pred n') = Some a ∧ at_ctx a = Some e ∧ err = [Cancelled e] ∧ report = None)
    end) as Hgo.
  { intros g2 Hg2 Hun. destruct (at_ctx a) as [e |] eqn:Ectx; [| by apply IH].
    exists (S n). split; [done |]. split; [by apply (gs_missing _ _ _ _ Hg2) |]. right. exists a, e. done. }
  destruct (at_err a) as [| err1 errs] eqn:Ee.
  - destruct (ga_remaining g1) as [| key1 remaining1] eqn:Er1.
    + exists (S n). split; [done |]. split; [by apply (gs_missing _ _ _ _ Hg') |]. left. split; [done |]. split; [by rewrite <- (gs_remaining _ _ _ _ Hg') |].
      eexists. split; [done |]. by apply report_ok.
    + apply Hgo; [done |]. left. by rewrite <- (gs_remaining _ _ _ _ Hg'), Er1.
  - apply Hgo; [by destruct Hg'; constructor |]. right. exists a. split; [done |]. by rewrite Ee.
Qed.

(** C21 (functional): a collection of a network tries the candidates one after another, those with a
    session first, each for the services that no candidate before has observed, and
    stops when none is left: a candidate is tried only while a service is missing.
    It returns nil only when every service was observed; else the context was
    cancelled during the last attempt, or every candidate was tried and services
    are missing or the last candidate failed. The report of the run accounts for
    every service: those observed and those remaining are all, and its items are
    the candidates tried. *)
Theorem gather_accounts candidates keys : keys ≠ [] →
  let ordered := orderCandidates candidates in
  let '(err, report) := gatherNetwork candidates keys in
  ∃ n, (n ≤ length ordered)%nat ∧ (∀ k, (k < n)%nat → leftAfter ordered keys k ≠ []) ∧
    (err = [] → leftAfter ordered keys n = []) ∧
    (err ≠ [] → (∃ a e, attemptOf ordered keys (pred n) = Some a ∧ at_ctx a = Some e ∧ err = [Cancelled e]) ∨
       n = length ordered ∧ unfinished ordered keys n) ∧
    (∀ r, report = Some r → report_of ordered keys n r) ∧
    (∀ c, c ∈ ordered ↔ c ∈ candidates) ∧
    ∃ others, ordered = activeCandidates candidates ++ others ∧
      (∀ c, c ∈ activeCandidates candidates ↔ ∃ i, candidates !! i = Some c ∧ HasSession i c = true) ∧ ∀ c, c ∈ others → c ∉ activeCandidates candidates.
Proof.
  intros Hkeys ordered. destruct (orderCandidates_spec candidates) as (Ho1 & Ho2 & others & Ho3 & Ho4). fold ordered in Ho1, Ho3.
  unfold gatherNetwork. fold ordered. destruct keys as [| key keys0] eqn:Ek; [done |]. rewrite <- Ek in *. clear Ek key keys0.
  pose proof (gatherCandidates_ok (len candidates) (len keys) ordered keys ordered 0 (MkGathering keys [] [] [] 0 0)) as Hg. rewrite drop_0 in Hg. change (take 0 ordered) with (@nil Candidate) in Hg.
  specialize (Hg eq_refl (Nat.le_0_l _)). destruct (gatherCandidates (len candidates) (len keys) [] ordered (MkGathering keys [] [] [] 0 0)) as [g | [err report]]; cbn beta iota in Hg.
  - destruct Hg as [Hg Hun]; [by constructor; cbn; try lia | by left |].
    assert (∀ (err : list collectError) report, err ≠ [] → (∀ r, report = Some r → report_of ordered keys (length ordered) r) →
      ∃ n, (n ≤ length ordered)%nat ∧ (∀ k, (k < n)%nat → leftAfter ordered keys k ≠ []) ∧ (err = [] → leftAfter ordered keys n = []) ∧
        (err ≠ [] → (∃ a e, attemptOf ordered keys (pred n) = Some a ∧ at_ctx a = Some e ∧ err = [Cancelled e]) ∨ n = length ordered ∧ unfinished ordered keys n) ∧
        (∀ r, report = Some r → report_of ordered keys n r) ∧ (∀ c, c ∈ ordered ↔ c ∈ candidates) ∧ ∃ others, ordered = activeCandidates candidates ++ others ∧
      (∀ c, c ∈ activeCandidates candidates ↔ ∃ i, candidates !! i = Some c ∧ HasSession i c = true) ∧ ∀ c, c ∈ others → c ∉ activeCandidates candidates) as Hend.
    { intros err report He Hr. exists (length ordered). split; [done |]. split; [by apply (gs_missing _ _ _ _ Hg) |]. split; [done |]. split; [by right |]. split; [done |]. split; [done |]. eauto. }
    pose proof (λ cs ss un, report_ok ordered keys _ g cs ss un Hg) as Hrep.
    destruct (ga_result g) as [| err1 errs]; [destruct ordered as [| c0 ordered0] eqn:Eo |]; apply Hend; try done; intros r [= <-]; apply Hrep.
  - destruct Hg as (n & Hn & Hk & Hres); [by constructor; cbn; try lia | by left |]. exists n. split; [done |]. split; [done |].
    split; [| split; [| split; [| split; [done | eauto]]]].
    + intros ->. destruct Hres as [(_ & ? & _) | (? & ? & _ & _ & ? & _)]; done.
    + intros He. destruct Hres as [(? & _) | (a & e & ? & ? & ? & _)]; [done |]. left. eauto.
    + intros r ->. destruct Hres as [(_ & _ & r' & [= <-] & ?) | (? & ? & _ & _ & _ & ?)]; done.
Qed.

End Gather.

(** ** A network of two services *)

(** The upserter with a request at work. *)
Lemma pf_upserter_witness : rtc pfStep newEITPFUpserter (pfTake (MkPF [7] false None 1 None None false)) ∧
  len (pf_requests (pfTake (MkPF [7] false None 1 None None false))) ≤ 1.
Proof.
  assert (rtc pfStep newEITPFUpserter (pfTake (MkPF [7] false None 1 None None false))) as Hr.
  { eapply rtc_l; [by apply (PFEnqueue _ 7) |]. eapply rtc_l; [by apply PFSend |]. eapply rtc_l; [apply PFTake | reflexivity]. }
  split; [done |]. exact (proj1 (proj2 (pf_upserter _ Hr))).
Defined.

Definition nhkKey : ServiceKey := (0x7fe8, 1024, 0x7fe8).
Definition etvKey : ServiceKey := (0x7fe8, 1032, 0x7fe8).
Definition otherKey : ServiceKey := (0x7fe9, 1040, 0x7fe9).

(** Two programs of NHK, one of another network seen on the way; E was not seen. *)
Definition sampleObserved (key : ServiceKey) : bool := negb (bool_decide (key = etvKey)).
Definition samplePrograms (key : ServiceKey) : list (option nat) :=
  if decide (key = nhkKey) then [Some 0%nat; Some 1%nat] else if decide (key = otherKey) then [Some 2%nat] else [].
Definition sampleServicesSeen : gmap ServiceKey unit := {[nhkKey := (); otherKey := ()]}.
(** The store fails for the programs of NHK. *)
Definition sampleAnswer (log : list Call) (c : Call) : option error :=
  match c with UpsertPrograms [_; _] => Some (ErrIO 5) | _ => None end.
Definition samplePersist : outcome (CollectResult * list collectError * list Call) :=
  persistObservedSnapshots (O := keyOrderOf) (OS := keyOrderOf) sampleAnswer (λ _, "disk full") sampleObserved samplePrograms
    sampleHeap [nhkKey; etvKey] sampleServicesSeen 1000 [].

Example sample_persisted :
  (λ '(r, err, log), (cr_Observed r, cr_Unobserved r, cr_ProgramCount r, err, map (λ c, match c with
     | UpsertPrograms programs => inl (len programs) | SetEPGAttempt n s t m => inr (n, s, m) | SetEPGSuccess n s t => inr (n, s, "success") | _ => inl 0 end) log)) <$> samplePersist =
  Ret ([nhkKey; otherKey], [etvKey], 3, [MergeFailed 1024 (ErrIO 5)],
    [inl 2; inr (0x7fe8, 1024, "disk full"); inr (0x7fe8, 1032, "service 1032 EITS incomplete"); inl 1; inr (0x7fe9, 1040, "success")]).
Proof. vm_compute. done. Qed.

Lemma persist_accounts_witness :
  returns samplePersist (λ '(r, err, log), cr_Unobserved r = [etvKey] ∧ err ≠ []).
Proof.
  assert (loaded (flat_map samplePrograms (seenOf sampleObserved (mergeKeys (OS := keyOrderOf) sampleObserved [nhkKey; etvKey] sampleServicesSeen))) sampleHeap) as Hl.
  { intros a Ha. replace (flat_map _ _) with [Some 0%nat; Some 1%nat; Some 2%nat] in Ha by (vm_compute; done). rewrite !elem_of_cons in Ha.
    destruct Ha as [[= ->] | [[= ->] | [[= ->] | ?%elem_of_nil]]]; first [done | by eexists]. }
  pose proof (persist_accounts sampleAnswer (λ _, "disk full") sampleObserved samplePrograms (O := keyOrderOf) (OS := keyOrderOf) sampleHeap [nhkKey; etvKey] sampleServicesSeen 1000 [] Hl) as Hp.
  change (persistObservedSnapshots _ _ _ _ _ _ _ _ _) with samplePersist in Hp.
  pose proof sample_persisted as Hs. destruct samplePersist as [[[r err] log] | | |]; try done. cbn [ends] in *.
  destruct Hp as (filled & same & new & _ & _ & _ & Hun & _). split; [rewrite Hun; vm_compute; done |]. cbn in Hs. by injection Hs as _ _ _ ->.
Defined.

(** Two channels: the first shows NHK, the second E. *)
Definition sampleCandidates : list Candidate := [("GR", "27"); ("GR", "26")].
Definition sampleSession (i : nat) (c : Candidate) : bool := bool_decide (c = ("GR", "26")).
Definition sampleCollect (failing : bool) (tried : list Candidate) (c : Candidate) (remaining : list ServiceKey) : Attempted :=
  if decide (c = ("GR", "26")) then MkAttempted (Some (MkCollectResult [etvKey] [nhkKey] 1)) [] None
  else MkAttempted (Some (MkCollectResult [nhkKey; etvKey] [] 3)) (if failing then [MergeFailed 1024 (ErrIO 5)] else []) None.

Lemma gather_accounts_witness : [nhkKey; etvKey] ≠ [] ∧
  ∃ err report, gatherNetwork sampleSession (sampleCollect false) 0x7fe8 sampleCandidates [nhkKey; etvKey] = (err, Some report) ∧ err = [] ∧
    rp_observed report + rp_remaining report = 2.
Proof.
  split; [done |]. pose proof (gather_accounts sampleSession (sampleCollect false) 0x7fe8 sampleCandidates [nhkKey; etvKey] ltac:(done)) as Hg.
  assert (fst (gatherNetwork sampleSession (sampleCollect false) 0x7fe8 sampleCandidates [nhkKey; etvKey]) = []) as E by (vm_compute; done).
  assert (is_Some (snd (gatherNetwork sampleSession (sampleCollect false) 0x7fe8 sampleCandidates [nhkKey; etvKey]))) as [r Er] by (vm_compute; eauto).
  destruct (gatherNetwork sampleSession (sampleCollect false) 0x7fe8 sampleCandidates [nhkKey; etvKey]) as [err report]. cbn [fst snd] in E, Er. subst report.
  exists err, r. split; [done |]. split; [done |]. destruct Hg as (n & _ & _ & _ & _ & Hr & _). destruct (Hr r eq_refl) as (_ & Hsum & _). exact Hsum.
Defined.

(** When the last candidate observes the last services and then fails, the network fails with
    nothing remaining; with one more candidate, not even tried, the same attempts
    are a success. *)
Example last_failure_counts :
  (let '(err, report) := gatherNetwork sampleSession (sampleCollect true) 0x7fe8 sampleCandidates [nhkKey; etvKey] in (err, rp_remaining <$> report)) =
    ([CandidateFailed "GR" "27" [MergeFailed 1024 (ErrIO 5)]], Some 0) ∧
  (let '(err, report) := gatherNetwork sampleSession (sampleCollect true) 0x7fe8 (sampleCandidates ++ [("GR", "25")]) [nhkKey; etvKey] in
   (err, map it_candidate ∘ rp_items <$> report)) = ([], Some [("GR", "26"); ("GR", "27")]).
Proof. vm_compute. done. Qed.

(** A retention that the configuration accepts, of 292 years and more, overflows: the cutoff
    lies in the future, and everything is deleted instead of kept. *)
Example long_retention_deletes : ∃ cutoff, snd (Cleanup (λ _ _, None) 106752 1700000000000000000 []) = [DeleteEndedBefore cutoff] ∧ 1700000000000 < cutoff.
Proof. eexists. split; [vm_compute; done | done]. Qed.
