(* ===== verification/ProgramSync.v ===== *)
(** * Programs between servers

    The programs of one server become those of another: the manager of
    [internal/program] merges what the collections bring into the SQLite store and
    queues an event for what changed; [EventData] and the API render a program as a
    JSON object; [internal/stream/remote] reads such objects back, drops those of
    services it does not know and gives the rest to its own manager.

    Slices and maps are nil or not here, since [reflect.DeepEqual] tells an empty
    slice from nil: a slice is an option of a list.  A JSON column of the store is
    the value it encodes, or NULL; a JSON object is a record with an option for
    each member that may be missing.  The queries are those of
    [internal/db/queries/programs.sql] and of [upsertProgramSQL]. *)

From stdpp Require Import sorting.
From S2P Require Import Prelude Crc32 AribTables Aribstr Descriptors Psi Events Schedule EventDescriptors Programs Config Services.

(** ** The code: a program of [internal/program] *)

Abbreviation slice A := (option (list A)).
Definition items {A} (s : slice A) : list A := default [] s.

Record ItemAudio : Type := MkItemAudio {
  ia_ComponentType : Z;
  ia_ComponentTag : option Z;
  ia_IsMain : option bool;
  ia_SamplingRate : option Z;
  ia_Langs : slice (list Z)
}.

Record Item : Type := MkItem {
  i_ID : Z;
  i_EventID : Z;
  i_ServiceID : Z;
  i_NetworkID : Z;
  i_StartAt : Z;
  i_Duration : Z;
  i_IsFree : bool;
  i_Name : list Z;
  i_Description : list Z;
  i_Genres : slice Genre;
  i_Video : option Video;
  i_Audios : slice ItemAudio;
  i_Extended : option textMap;
  i_RelatedItems : slice RelatedItem;
  i_Series : option Series
}.

#[local] Instance Genre_eq_dec : EqDecision Genre.
Proof. solve_decision. Defined.
#[local] Instance Video_eq_dec : EqDecision Video.
Proof. solve_decision. Defined.
#[local] Instance RelatedItem_eq_dec : EqDecision RelatedItem.
Proof. unfold EqDecision. intros [] []. unfold RelatedItemType in *. solve_decision. Defined.
#[local] Instance Series_eq_dec : EqDecision Series.
Proof. solve_decision. Defined.
#[local] Instance ItemAudio_eq_dec : EqDecision ItemAudio.
Proof. solve_decision. Defined.
#[export] Instance Item_eq_dec : EqDecision Item.
Proof. solve_decision. Defined.

(** [append([]T(nil), items...)], and the other clones: nil when empty. *)
Definition cloneSlice {A} (s : slice A) : slice A := match items s with [] => None | l => Some l end.
Definition cloneAudio (a : ItemAudio) : ItemAudio :=
  MkItemAudio (ia_ComponentType a) (ia_ComponentTag a) (ia_IsMain a) (ia_SamplingRate a) (cloneSlice (ia_Langs a)).
Definition cloneAudios (s : slice ItemAudio) : slice ItemAudio := match items s with [] => None | l => Some (map cloneAudio l) end.
Definition cloneStringMap (m : option textMap) : option textMap := match m with Some m => if decide (m = ∅) then None else Some m | None => None end.

Definition cloneItem (p : Item) : Item :=
  MkItem (i_ID p) (i_EventID p) (i_ServiceID p) (i_NetworkID p) (i_StartAt p) (i_Duration p) (i_IsFree p) (i_Name p) (i_Description p)
    (cloneSlice (i_Genres p)) (i_Video p) (cloneAudios (i_Audios p)) (cloneStringMap (i_Extended p)) (cloneSlice (i_RelatedItems p)) (i_Series p).

(** [if empty(merged) { merged = clone(existing) }], the clone of an empty value being empty. *)
Definition orClone {A} (merged existing : option A) : option A := match merged with None => existing | _ => merged end.

Definition mergeUpsertProgram (existing : option Item) (incoming : Item) : Item :=
  let m := cloneItem incoming in
  match existing with
  | None => m
  | Some e =>
      MkItem (i_ID m) (i_EventID m) (i_ServiceID m) (i_NetworkID m) (i_StartAt m) (i_Duration m) (i_IsFree m)
        (orList (i_Name m) (i_Name e)) (orList (i_Description m) (i_Description e))
        (orClone (i_Genres m) (cloneSlice (i_Genres e))) (orClone (i_Video m) (i_Video e)) (orClone (i_Audios m) (cloneAudios (i_Audios e)))
        (orClone (i_Extended m) (cloneStringMap (i_Extended e))) (orClone (i_RelatedItems m) (cloneSlice (i_RelatedItems e))) (orClone (i_Series m) (i_Series e))
  end.

(** ** The code: the store *)

Record Row : Type := MkRow {
  r_id : Z;
  r_event_id : Z;
  r_service_id : Z;
  r_network_id : Z;
  r_start_at : Z;
  r_duration : Z;
  r_is_free : Z;
  r_name : option (list Z);
  r_description : option (list Z);
  r_genres : slice Genre;
  r_video : option Video;
  r_audios : slice ItemAudio;
  r_extended : option textMap;
  r_related_items : slice RelatedItem;
  r_series : option Series
}.

(** [null], [[]] and [{}] are stored as NULL. *)
Definition encodeSlice {A} (s : slice A) : slice A := match items s with [] => None | l => Some l end.
Definition encodeMap (m : option textMap) : option textMap := match m with Some m => if decide (m = ∅) then None else Some m | None => None end.
Definition encodeText (t : list Z) : option (list Z) := match t with [] => None | _ => Some t end.

Definition toUpsertProgramParams (p : Item) : Row :=
  MkRow (i_ID p) (i_EventID p) (i_ServiceID p) (i_NetworkID p) (i_StartAt p) (i_Duration p) (if i_IsFree p then 1 else 0)
    (encodeText (i_Name p)) (encodeText (i_Description p)) (encodeSlice (i_Genres p)) (i_Video p) (encodeSlice (i_Audios p))
    (encodeMap (i_Extended p)) (encodeSlice (i_RelatedItems p)) (i_Series p).

Definition fromGenProgram (r : Row) : Item :=
  MkItem (r_id r) (r_event_id r) (r_service_id r) (r_network_id r) (r_start_at r) (r_duration r) (negb (r_is_free r =? 0))
    (default [] (r_name r)) (default [] (r_description r)) (r_genres r) (r_video r) (r_audios r) (r_extended r) (r_related_items r) (r_series r).

(** [COALESCE(excluded.c, programs.c)] *)
Definition coalesce {A} (excluded old : option A) : option A := match excluded with Some _ => excluded | None => old end.

Definition onConflict (excluded old : Row) : Row :=
  MkRow (r_id old) (r_event_id excluded) (r_service_id excluded) (r_network_id excluded) (r_start_at excluded) (r_duration excluded) (r_is_free excluded)
    (coalesce (r_name excluded) (r_name old)) (coalesce (r_description excluded) (r_description old)) (coalesce (r_genres excluded) (r_genres old))
    (coalesce (r_video excluded) (r_video old)) (coalesce (r_audios excluded) (r_audios old)) (coalesce (r_extended excluded) (r_extended old))
    (coalesce (r_related_items excluded) (r_related_items old)) (coalesce (r_series excluded) (r_series old)).

Abbreviation table := (gmap Z Row).

Definition upsertRow (excluded : Row) (t : table) : table :=
  <[r_id excluded := match t !! r_id excluded with Some old => onConflict excluded old | None => excluded end]> t.

(** A nil program is dereferenced. *)
Definition upsertPrograms (programs : list (option Item)) (t : table) : outcome table :=
  foldM (λ t p, match p with None => Panic | Some p => Ret (upsertRow (toUpsertProgramParams p) t) end) programs t.

(** [ORDER BY start_at, id] *)
Definition rowLe (a b : Row) : Prop := r_start_at a < r_start_at b ∨ r_start_at a = r_start_at b ∧ r_id a ≤ r_id b.
#[local] Instance rowLe_dec a b : Decision (rowLe a b).
Proof. unfold rowLe. apply _. Defined.
Definition rows (t : table) : list Row := merge_sort rowLe (map snd (map_to_list t)).

(** What the database refuses. *)
Inductive StoreOp : Type := OpUpsertAll | OpListByIDs | OpListByServiceFrom | OpListEnded | OpDeleteEnded | OpReplace.

Section Manager.

Variable fault : StoreOp → option error.

Definition query {A} (op : StoreOp) (a : outcome A) : outcome A := match fault op with Some e => Err e | None => a end.

Definition UpsertAll (programs : list (option Item)) (t : table) : outcome table := query OpUpsertAll (upsertPrograms programs t).

Definition Get (t : table) (id : Z) : option Item := fromGenProgram <$> t !! id.

Record Query : Type := MkQuery {
  q_ID : option Z;
  q_NetworkID : option Z;
  q_ServiceID : option Z;
  q_EventID : option Z
}.
Definition matchesQuery (q : Query) (r : Row) : Prop :=
  default (r_id r) (q_ID q) = r_id r ∧ default (r_network_id r) (q_NetworkID q) = r_network_id r ∧
  default (r_service_id r) (q_ServiceID q) = r_service_id r ∧ default (r_event_id r) (q_EventID q) = r_event_id r.
#[local] Instance matchesQuery_dec q r : Decision (matchesQuery q r).
Proof. unfold matchesQuery. apply _. Defined.
Definition List (t : table) (q : Query) : list Item := map fromGenProgram (filter (matchesQuery q) (rows t)).

Definition ListByIDs (t : table) (ids : list Z) : outcome (list Item) :=
  query OpListByIDs (Ret (map fromGenProgram (filter (λ r, r_id r ∈ ids) (rows t)))).

Definition ListByServiceFrom (t : table) (networkID serviceID from : Z) : outcome (list Item) :=
  query OpListByServiceFrom (Ret (map fromGenProgram (filter (λ r, r_network_id r = networkID ∧ r_service_id r = serviceID ∧ from ≤ r_start_at r) (rows t)))).

Definition ListEndedIDsBefore (t : table) (cutoff : Z) : outcome (list Z) :=
  query OpListEnded (Ret (merge_sort Z.le (map r_id (filter (λ r, r_start_at r + r_duration r < cutoff) (rows t))))).

Definition DeleteEndedAtBefore (t : table) (cutoff : Z) : outcome table :=
  query OpDeleteEnded (Ret (filter (λ e : Z * Row, ¬ r_start_at e.2 + r_duration e.2 < cutoff) t)).

(** The transaction deletes what ends at [from] or later. *)
Definition deleteServiceFrom (t : table) (networkID serviceID from : Z) : table :=
  filter (λ e : Z * Row, ¬ (r_network_id e.2 = networkID ∧ r_service_id e.2 = serviceID ∧ from ≤ r_start_at e.2 + r_duration e.2)) t.
Definition replaceRows (t : table) (networkID serviceID from : Z) (programs : list (option Item)) : outcome table :=
  query OpReplace (upsertPrograms programs (deleteServiceFrom t networkID serviceID from)).

(** ** The code: the manager *)

Inductive programEvent : Type :=
| EventProgram (typ : string) (program : Item)
| EventRemove (removeID : Z).

Definition eventTypeCreate : string := "create".
Definition eventTypeUpdate : string := "update".
Definition eventTypeRemove : string := "remove".

(** [events] is whether the manager publishes; the timer runs while events wait. *)
Record ProgramManager : Type := MkManager {
  pm_store : table;
  pm_events : bool;
  pm_eventTimer : bool;
  pm_eventQueue : list programEvent
}.

Definition NewProgramManager (events : bool) : ProgramManager := MkManager ∅ events false [].

Definition withStore (t : table) (m : ProgramManager) : ProgramManager := MkManager t (pm_events m) (pm_eventTimer m) (pm_eventQueue m).

Definition enqueueEvent (e : programEvent) (m : ProgramManager) : ProgramManager :=
  if pm_events m then MkManager (pm_store m) true true (pm_eventQueue m ++ [e]) else m.

(** The loop of [UpsertPrograms] that collects the last program of each id. *)
Definition collectPending (programs : list (option Item)) : list Z * gmap Z Item :=
  fold_left (λ '(ids, pending) p, match p with
    | None => (ids, pending)
    | Some p => (match pending !! i_ID p with None => ids ++ [i_ID p] | Some _ => ids end, <[i_ID p := p]> pending)
    end) programs ([], ∅).

Definition byItemID (l : list Item) : gmap Z Item := fold_left (λ m p, <[i_ID p := p]> m) l ∅.

Definition upsertEvent (before : gmap Z Item) (m : ProgramManager) (p : Item) : ProgramManager :=
  let existing := before !! i_ID p in
  let after := mergeUpsertProgram existing p in
  match existing with
  | None => enqueueEvent (EventProgram eventTypeCreate after) m
  | Some e => if negb (bool_decide (e = after)) then enqueueEvent (EventProgram eventTypeUpdate after) m else m
  end.

Definition UpsertPrograms {O : RangeOrder Item} (programs : list (option Item)) (m : ProgramManager) : outcome ProgramManager :=
  let '(ids, pending) := collectPending programs in
  existingPrograms ← ListByIDs (pm_store m) ids;
  let before := byItemID existingPrograms in
  t ← UpsertAll programs (pm_store m);
  Ret (fold_left (upsertEvent before) (map snd (range pending)) (withStore t m)).

Definition DeleteEndedBefore (cutoff : Z) (m : ProgramManager) : outcome ProgramManager :=
  removed ← ListEndedIDsBefore (pm_store m) cutoff;
  t ← DeleteEndedAtBefore (pm_store m) cutoff;
  Ret (fold_left (λ m id, enqueueEvent (EventRemove id) m) removed (withStore t m)).

(** An iteration of the loop of [ReplaceServicePrograms]. *)
Definition replaceEvent (st : gmap Z Item * ProgramManager) (p : option Item) : gmap Z Item * ProgramManager :=
  let '(before, m) := st in
  match p with
  | None => st
  | Some p =>
      (delete (i_ID p) before,
       match before !! i_ID p with
       | None => enqueueEvent (EventProgram eventTypeCreate p) m
       | Some existing => if negb (bool_decide (existing = p)) then enqueueEvent (EventProgram eventTypeUpdate p) m else m
       end)
  end.

Definition ReplaceServicePrograms {O : RangeOrder Item} (networkID serviceID from : Z) (programs : list (option Item)) (m : ProgramManager) : outcome ProgramManager :=
  beforeList ← ListByServiceFrom (pm_store m) networkID serviceID from;
  t ← replaceRows (pm_store m) networkID serviceID from programs;
  let '(before, m) := fold_left replaceEvent programs (byItemID beforeList, withStore t m) in
  Ret (fold_left (λ m id, enqueueEvent (EventRemove id) m) (map fst (range before)) m).

(** What the timer publishes. *)
Definition flushEvents (m : ProgramManager) : list programEvent * ProgramManager :=
  (pm_eventQueue m, MkManager (pm_store m) (pm_events m) false []).

Definition Count (t : table) : Z := Z.of_nat (size t).

End Manager.

(** ** The code: the JSON object of a program *)

Record JAudio : Type := MkJAudio {
  ja_componentType : Z;
  ja_componentTag : option Z;
  ja_isMain : option bool;
  ja_samplingRate : option Z;
  ja_langs : slice (list Z)
}.

Record JRelated : Type := MkJRelated {
  jr_type : option string;
  jr_networkId : option Z;
  jr_transportStreamId : option Z;
  jr_serviceId : option Z;
  jr_eventId : option Z
}.

Record JSeries : Type := MkJSeries {
  js_id : Z;
  js_repeat : Z;
  js_pattern : option Z;
  js_expiresAt : option Z;
  js_episode : Z;
  js_lastEpisode : Z;
  js_name : option (list Z)
}.

Record JVideo : Type := MkJVideo {
  jv_streamContent : Z;
  jv_componentType : Z;
  jv_type : option string;
  jv_resolution : option string
}.

Record JProgram : Type := MkJProgram {
  j_id : Z;
  j_eventId : Z;
  j_serviceId : Z;
  j_networkId : Z;
  j_startAt : Z;
  j_duration : Z;
  j_isFree : bool;
  j_name : option (list Z);
  j_description : option (list Z);
  j_genres : list Genre;
  j_video : option JVideo;
  j_audios : list JAudio;
  j_extended : option textMap;
  j_relatedItems : list JRelated;
  j_series : option JSeries
}.

Definition VideoType (streamContent : Z) : option string :=
  if streamContent =? 1 then Some "mpeg2" else if streamContent =? 5 then Some "h.264" else if streamContent =? 9 then Some "h.265" else None.

Definition VideoResolution (componentType : Z) : option string :=
  if (0x01 <=? componentType) && (componentType <=? 0x04) then Some "480i"
  else if componentType =? 0x83 then Some "4320p"
  else if (0x91 <=? componentType) && (componentType <=? 0x94) then Some "2160p"
  else if (0xa1 <=? componentType) && (componentType <=? 0xa4) then Some "480p"
  else if (0xb1 <=? componentType) && (componentType <=? 0xb4) then Some "1080i"
  else if (0xc1 <=? componentType) && (componentType <=? 0xc4) then Some "720p"
  else if (0xd1 <=? componentType) && (componentType <=? 0xd4) then Some "240p"
  else if (0xe1 <=? componentType) && (componentType <=? 0xe4) then Some "1080p"
  else None.

Definition videoData (v : Video) : JVideo := MkJVideo (v_StreamContent v) (v_ComponentType v) (VideoType (v_StreamContent v)) (VideoResolution (v_ComponentType v)).

(** *** [EventData] *)

Definition genreListEventData (genres : slice Genre) : list Genre := items genres.
Definition audioListEventData (audios : slice ItemAudio) : list JAudio :=
  map (λ a, MkJAudio (ia_ComponentType a) (ia_ComponentTag a) (ia_IsMain a) (ia_SamplingRate a) (cloneSlice (ia_Langs a))) (items audios).
Definition nonzero (n : Z) : option Z := if n =? 0 then None else Some n.
Definition relatedItemListEventData (l : slice RelatedItem) : list JRelated :=
  map (λ r, MkJRelated (if bool_decide (ri_Type r = ""%string) then None else Some (ri_Type r)) (ri_NetworkID r) (ri_TransportStreamID r) (nonzero (ri_ServiceID r)) (nonzero (ri_EventID r))) (items l).
Definition seriesEventData (s : Series) : JSeries :=
  MkJSeries (s_ID s) (s_Repeat s) (Some (s_Pattern s)) (s_ExpiresAt s) (s_Episode s) (s_LastEpisode s) (encodeText (s_Name s)).

Definition EventData (p : Item) : JProgram :=
  MkJProgram (i_ID p) (i_EventID p) (i_ServiceID p) (i_NetworkID p) (i_StartAt p) (i_Duration p) (i_IsFree p)
    (encodeText (i_Name p)) (encodeText (i_Description p)) (genreListEventData (i_Genres p)) (videoData <$> i_Video p) (audioListEventData (i_Audios p))
    (encodeMap (i_Extended p)) (relatedItemListEventData (i_RelatedItems p)) (seriesEventData <$> i_Series p).

(** *** [apiProgram] *)

Definition ascii (s : string) : list Z := map (λ c, Z.of_nat (Ascii.nat_of_ascii c)) (String.list_ascii_of_string s).
Definition apiLangs : list (list Z) := map ascii ["jpn"; "eng"; "deu"; "fra"; "ita"; "rus"; "zho"; "kor"; "spa"; "etc"]%string.
Definition apiProgramAudioLangs (langs : slice (list Z)) : list (list Z) := filter (λ lang, lang ∈ apiLangs) (items langs).
Definition apiProgramAudios (audios : slice ItemAudio) : list JAudio :=
  map (λ a, MkJAudio (ia_ComponentType a) (ia_ComponentTag a) (ia_IsMain a) (ia_SamplingRate a) (Some (apiProgramAudioLangs (ia_Langs a)))) (items audios).
Definition apiRelatedItem (r : RelatedItem) : JRelated :=
  MkJRelated (if bool_decide (ri_Type r = ""%string) then None else Some (ri_Type r)) (ri_NetworkID r) (ri_TransportStreamID r) (Some (ri_ServiceID r)) (Some (ri_EventID r)).
Definition apiProgramSeries (s : Series) : JSeries :=
  MkJSeries (s_ID s) (s_Repeat s) (if 0 <=? s_Pattern s then Some (s_Pattern s) else None) (s_ExpiresAt s) (s_Episode s) (s_LastEpisode s) (encodeText (s_Name s)).

Definition apiProgram (p : Item) : JProgram :=
  MkJProgram (i_ID p) (i_EventID p) (i_ServiceID p) (i_NetworkID p) (i_StartAt p) (i_Duration p) (i_IsFree p)
    (encodeText (i_Name p)) (encodeText (i_Description p)) (items (i_Genres p)) (videoData <$> i_Video p) (apiProgramAudios (i_Audios p))
    (encodeMap (i_Extended p)) (map apiRelatedItem (items (i_RelatedItems p))) (apiProgramSeries <$> i_Series p).

(** ** The code: the other server *)

Definition remoteGenres (l : list Genre) : slice Genre := Some l.
Definition remoteAudios (l : list JAudio) : slice ItemAudio :=
  Some (map (λ a, MkItemAudio (ja_componentType a) (ja_componentTag a) (ja_isMain a) (ja_samplingRate a) (ja_langs a)) l).
(** There is no member for the transport stream. *)
Definition remoteRelatedItems (l : list JRelated) : slice RelatedItem :=
  Some (map (λ r, MkRelatedItem (default ""%string (jr_type r)) (jr_networkId r) None (default 0 (jr_serviceId r)) (default 0 (jr_eventId r))) l).
Definition remoteSeries (s : JSeries) : Series :=
  MkSeries (js_id s) (js_repeat s) (default (-1) (js_pattern s)) (js_expiresAt s) (js_episode s) (js_lastEpisode s) (default [] (js_name s)).

(** [remoteProgram.Program] of the object that was read. *)
Definition remoteProgram (j : JProgram) : Item :=
  MkItem (j_id j) (j_eventId j) (j_serviceId j) (j_networkId j) (j_startAt j) (j_duration j) (j_isFree j)
    (default [] (j_name j)) (default [] (j_description j)) (remoteGenres (j_genres j)) ((λ v, MkVideo (jv_streamContent v) (jv_componentType v)) <$> j_video j)
    (remoteAudios (j_audios j)) (j_extended j) (remoteRelatedItems (j_relatedItems j)) (remoteSeries <$> j_series j).

(** *** [knownServiceProgramUpdater] *)

Record knownServiceProgramUpdater : Type := MkKnown {
  ku_known : gset (Z * Z);
  ku_loaded : bool
}.

Definition newUpdater : knownServiceProgramUpdater := MkKnown ∅ false.

(** [refresh], with what the lister answers. *)
Definition refresh (services : outcome (list (option Service))) (u : knownServiceProgramUpdater) : outcome knownServiceProgramUpdater :=
  services ← services;
  Ret (MkKnown (list_to_set (omap (λ svc, (λ s, (se_NetworkId s, se_ServiceId s)) <$> svc) services)) true).

Definition isKnown (u : knownServiceProgramUpdater) (p : Item) : Prop := (i_NetworkID p, i_ServiceID p) ∈ ku_known u.
#[export] Instance isKnown_dec u p : Decision (isKnown u p).
Proof. unfold isKnown. apply _. Defined.

(** [filter]: the programs of known services, and whether another was met. *)
Definition filterKnown (u : knownServiceProgramUpdater) (programs : list (option Item)) : list Item * bool :=
  (filter (isKnown u) (omap id programs), existsb (λ p, negb (bool_decide (isKnown u p))) (omap id programs)).

Definition updaterUpsert {S} (GetServices : outcome (list (option Service))) (inner : list (option Item) → S → outcome S)
    (programs : list (option Item)) (st : knownServiceProgramUpdater * S) : outcome (knownServiceProgramUpdater * S) :=
  let '(u, s) := st in
  match programs with
  | [] => Ret st
  | _ =>
      u ← (if ku_loaded u then Ret u else refresh GetServices u);
      let '(filtered, unknown) := filterKnown u programs in
      '(u, filtered) ← (if unknown : bool then u ← refresh GetServices u; Ret (u, fst (filterKnown u programs)) else Ret (u, filtered));
      match filtered with
      | [] => Ret (u, s)
      | _ => s ← inner (map Some filtered) s; Ret (u, s)
      end
  end.

(** An event as the reader decodes it: the resource, the type and the program, or [None] where
    that is not one. *)
Definition readEvent {S} (GetServices : outcome (list (option Service))) (inner : list (option Item) → S → outcome S)
    (st : knownServiceProgramUpdater * S) (e : string * string * option JProgram) : outcome (knownServiceProgramUpdater * S) :=
  let '(resource, typ, data) := e in
  if negb (String.eqb resource "program") || negb (String.eqb typ "update") && negb (String.eqb typ "create") then Ret st
  else match data with
       | None => Ret st
       | Some remote => updaterUpsert GetServices inner [Some (remoteProgram remote)] st
       end.

(** The event of a manager, as the hub carries it. *)
Definition eventJSON (e : programEvent) : string * string * option JProgram :=
  match e with
  | EventProgram typ p => ("program", typ, Some (EventData p))
  | EventRemove id => ("program", eventTypeRemove, None)
  end.

(** ** Programs as values *)

#[local] Instance Audio_eq_dec : EqDecision Audio.
Proof. solve_decision. Defined.
#[local] Instance Program_eq_dec : EqDecision (Program textMap).
Proof. solve_decision. Defined.

(** What a program says: nil and empty are the same. *)
Definition valAudio (a : ItemAudio) : Audio := MkAudio (ia_ComponentType a) (ia_ComponentTag a) (ia_IsMain a) (ia_SamplingRate a) (items (ia_Langs a)).
Definition val (p : Item) : Program textMap :=
  MkProgram _ (i_ID p) (i_EventID p) (i_ServiceID p) (i_NetworkID p) (i_StartAt p) (i_Duration p) (i_IsFree p) (i_Name p) (i_Description p)
    (items (i_Genres p)) (i_Video p) (map valAudio (items (i_Audios p))) (default ∅ (i_Extended p)) (items (i_RelatedItems p)) (i_Series p).

(** The same with nil for what is empty. *)
Definition ofList {A} (l : list A) : slice A := match l with [] => None | _ => Some l end.
#[local] Arguments items : simpl never.
#[local] Arguments ofList : simpl never.
Definition audioOf (a : Audio) : ItemAudio := MkItemAudio (a_ComponentType a) (a_ComponentTag a) (a_IsMain a) (a_SamplingRate a) (ofList (a_Langs a)).
Definition canonOf (v : Program textMap) : Item :=
  MkItem (p_ID v) (p_EventID v) (p_ServiceID v) (p_NetworkID v) (p_StartAt v) (p_Duration v) (p_IsFree v) (p_Name v) (p_Description v)
    (ofList (p_Genres v)) (p_Video v) (ofList (map audioOf (p_Audios v))) (if decide (p_Extended v = ∅) then None else Some (p_Extended v)) (ofList (p_RelatedItems v)) (p_Series v).
Definition canonical (p : Item) : Prop := canonOf (val p) = p.

(** What is stored of [new] over [old]: what it lacks is kept. *)
Definition mergeValue (old : option (Program textMap)) (new : Program textMap) : Program textMap :=
  match old with
  | None => new
  | Some old =>
      MkProgram _ (p_ID new) (p_EventID new) (p_ServiceID new) (p_NetworkID new) (p_StartAt new) (p_Duration new) (p_IsFree new)
        (orList (p_Name new) (p_Name old)) (orList (p_Description new) (p_Description old)) (orList (p_Genres new) (p_Genres old))
        (orOption (p_Video new) (p_Video old)) (orList (p_Audios new) (p_Audios old)) (if decide (p_Extended new = ∅) then p_Extended old else p_Extended new)
        (orList (p_RelatedItems new) (p_RelatedItems old)) (orOption (p_Series new) (p_Series old))
  end.

Lemma items_ofList {A} (l : list A) : items (ofList l) = l.
Proof. by destruct l. Qed.
Lemma items_cloneSlice {A} (s : slice A) : items (cloneSlice s) = items s.
Proof. by destruct s as [[|]|]. Qed.
Lemma cloneSlice_ofList {A} (s : slice A) : cloneSlice s = ofList (items s).
Proof. unfold cloneSlice. by destruct (items s). Qed.
Lemma ofList_items {A} (s : slice A) : s ≠ Some [] → ofList (items s) = s.
Proof. by destruct s as [[|]|]. Qed.

Lemma valAudio_audioOf a : valAudio (audioOf a) = a.
Proof. destruct a. unfold valAudio. cbn. by rewrite items_ofList. Qed.
Lemma audioOf_valAudio a : ia_Langs a ≠ Some [] → audioOf (valAudio a) = a.
Proof. destruct a. unfold audioOf. cbn. intros ?. by rewrite ofList_items. Qed.

Lemma cloneAudio_val l : map audioOf (map valAudio l) = map cloneAudio l.
Proof. rewrite map_map. apply map_ext. intros a. unfold cloneAudio, audioOf. cbn. by rewrite cloneSlice_ofList. Qed.

Lemma val_canonOf v : val (canonOf v) = v.
Proof.
  destruct v. unfold val, canonOf. cbn. f_equal; rewrite ?items_ofList; try done.
  - rewrite map_map. rewrite (map_ext _ id) by apply valAudio_audioOf. by rewrite map_id.
  - by case_decide; subst.
Qed.

Lemma canonOf_canonical v : canonical (canonOf v).
Proof. unfold canonical. by rewrite val_canonOf. Qed.

Lemma cloneItem_canonOf p : cloneItem p = canonOf (val p).
Proof.
  destruct p as [x1 x2 x3 x4 x5 x6 x7 x8 x9 genres x11 audios ext related x15]. unfold cloneItem, canonOf, val. cbn. f_equal; try apply cloneSlice_ofList.
  - unfold cloneAudios. rewrite cloneAudio_val. by destruct (items audios).
  - destruct ext as [m |]; cbn; [done |]. by rewrite decide_True.
Qed.

Lemma mergeUpsert_canonOf existing incoming : mergeUpsertProgram existing incoming = canonOf (mergeValue (val <$> existing) (val incoming)).
Proof.
  unfold mergeUpsertProgram. rewrite cloneItem_canonOf. destruct existing as [e |]; [| done].
  destruct incoming as [x1 x2 x3 x4 x5 x6 x7 x8 x9 genres video audios ext related series], e as [y1 y2 y3 y4 y5 y6 y7 y8 y9 genres' video' audios' ext' related' series'].
  unfold canonOf, val, mergeValue. cbn. f_equal.
  - rewrite cloneSlice_ofList. by destruct (items genres).
  - unfold cloneAudios. destruct (items audios); [| done]. destruct (items audios') as [| b l']; [done |].
    change (Some (map cloneAudio (b :: l')) = ofList (map audioOf (map valAudio (b :: l')))). by rewrite cloneAudio_val.
  - destruct ext as [m |]; cbn; [case_decide; cbn |]; rewrite ?decide_True by done; try by destruct ext'.
    rewrite decide_False by done. done.
  - rewrite cloneSlice_ofList. by destruct (items related).
Qed.

(** A slice of languages that is empty, but not nil, is not canonical. *)
Definition tidy (p : Item) : Prop := Forall (λ a, ia_Langs a ≠ Some []) (items (i_Audios p)).

Lemma canonical_spec p : canonical p ↔ i_Genres p ≠ Some [] ∧ i_Audios p ≠ Some [] ∧ tidy p ∧ i_Extended p ≠ Some ∅ ∧ i_RelatedItems p ≠ Some [].
Proof.
  destruct p as [x1 x2 x3 x4 x5 x6 x7 x8 x9 genres video audios ext related series]. unfold canonical, canonOf, val, tidy. cbn. split.
  - intros E. injection E as Hg Ha He Hr. split_and!; [by intros -> | by intros -> | | | by intros ->].
    + destruct audios as [l |]; [| constructor]. change (items (Some l)) with l in *. rewrite cloneAudio_val in Ha. assert (map cloneAudio l = l) as Hl by (destruct l as [| b l]; [done |]; injection Ha as Hb Hl'; cbn; by f_equal).
      rewrite <- Hl. apply Forall_map, Forall_true. intros a. cbn. unfold cloneSlice. by destruct (items (ia_Langs a)).
    + intros ->. cbn in He. by rewrite decide_True in He.
  - intros (Hg & Ha & Ht & He & Hr). f_equal; rewrite ?ofList_items by done; try done.
    + rewrite map_map. rewrite <- (ofList_items audios) at 2 by done. f_equal. induction Ht as [| a l Hl Ht IH]; [done |]. cbn. by rewrite audioOf_valAudio, IH.
    + destruct ext as [m |]; cbn; case_decide; congruence.
Qed.

Lemma canonical_inj p q : canonical p → canonical q → val p = val q → p = q.
Proof. unfold canonical. intros Hp Hq E. by rewrite <- Hp, <- Hq, E. Qed.

(** *** The store *)

Definition valRow (r : Row) : Program textMap := val (fromGenProgram r).
Definition values (t : table) : gmap Z (Program textMap) := valRow <$> t.

(** Rows under their ids, without empty slices. *)
Definition table_ok (t : table) : Prop := ∀ id r, t !! id = Some r → r_id r = id ∧ canonical (fromGenProgram r).

Lemma items_encodeSlice {A} (s : slice A) : items (encodeSlice s) = items s.
Proof. unfold encodeSlice. by destruct (items s). Qed.
Lemma items_coalesce {A} (s old : slice A) : items (coalesce (encodeSlice s) old) = orList (items s) (items old).
Proof. unfold encodeSlice. by destruct (items s). Qed.
Lemma text_coalesce (t : list Z) old : default [] (coalesce (encodeText t) old) = orList t (default [] old).
Proof. by destruct t. Qed.
Lemma default_encodeMap (m : option textMap) : default ∅ (encodeMap m) = default (∅ : textMap) m.
Proof. destruct m as [m |]; cbn; [| done]. by case_decide. Qed.
Lemma map_coalesce (m old : option textMap) : default ∅ (coalesce (encodeMap m) old) = if decide (default (∅ : textMap) m = ∅) then default ∅ old else default ∅ m.
Proof. destruct m as [m |]; cbn; case_decide; cbn; try done. Qed.

Lemma valRow_params p : valRow (toUpsertProgramParams p) = val p.
Proof.
  unfold valRow, val. cbn [fromGenProgram toUpsertProgramParams i_ID i_EventID i_ServiceID i_NetworkID i_StartAt i_Duration i_IsFree i_Name i_Description i_Genres i_Video i_Audios
    i_Extended i_RelatedItems i_Series r_id r_event_id r_service_id r_network_id r_start_at r_duration r_is_free r_name r_description r_genres r_video r_audios r_extended r_related_items r_series].
  rewrite !items_encodeSlice, default_encodeMap. f_equal; [by destruct (i_IsFree p) | by destruct (i_Name p) | by destruct (i_Description p)].
Qed.

Lemma map_orList {A B} (f : A → B) (l l' : list A) : map f (orList l l') = orList (map f l) (map f l').
Proof. by destruct l. Qed.

Lemma valRow_conflict p old : r_id old = i_ID p → valRow (onConflict (toUpsertProgramParams p) old) = mergeValue (Some (valRow old)) (val p).
Proof.
  intros Hid. unfold valRow, val, mergeValue. cbn [fromGenProgram toUpsertProgramParams onConflict i_ID i_EventID i_ServiceID i_NetworkID i_StartAt i_Duration i_IsFree i_Name i_Description i_Genres i_Video i_Audios
    i_Extended i_RelatedItems i_Series r_id r_event_id r_service_id r_network_id r_start_at r_duration r_is_free r_name r_description r_genres r_video r_audios r_extended r_related_items r_series
    p_ID p_EventID p_ServiceID p_NetworkID p_StartAt p_Duration p_IsFree p_Name p_Description p_Genres p_Video p_Audios p_Extended p_RelatedItems p_Series].
  rewrite !items_coalesce, !text_coalesce, map_coalesce, map_orList, Hid. f_equal. by destruct (i_IsFree p).
Qed.

(** The programs after an upsert. *)
Definition upsertValue (v : gmap Z (Program textMap)) (p : Item) : gmap Z (Program textMap) := <[i_ID p := mergeValue (v !! i_ID p) (val p)]> v.

Lemma values_upsertRow t p : table_ok t → values (upsertRow (toUpsertProgramParams p) t) = upsertValue (values t) p.
Proof.
  intros Ht. unfold values, upsertRow, upsertValue. cbn [r_id toUpsertProgramParams]. rewrite fmap_insert, lookup_fmap. f_equal.
  destruct (t !! i_ID p) as [old |] eqn:E; cbn; [| apply valRow_params]. apply Ht in E as [Hid _]. by apply valRow_conflict.
Qed.

Lemma coalesce_ne {A} (s old : slice A) : old ≠ Some [] → coalesce (encodeSlice s) old ≠ Some [].
Proof. unfold encodeSlice. by destruct (items s). Qed.

Lemma tidy_encode (s old : slice ItemAudio) (P : ItemAudio → Prop) : Forall P (items s) → Forall P (items old) → Forall P (items (coalesce (encodeSlice s) old)).
Proof. unfold encodeSlice. unfold items at 1. destruct s as [[|]|]; cbn; auto. Qed.

Lemma params_canonical p : tidy p → canonical (fromGenProgram (toUpsertProgramParams p)).
Proof.
  intros Ht. apply canonical_spec. cbn [fromGenProgram toUpsertProgramParams i_Genres i_Audios i_Extended i_RelatedItems r_genres r_audios r_extended r_related_items].
  split_and!; try (unfold encodeSlice; by destruct (items _)).
  - unfold tidy. cbn. by rewrite items_encodeSlice.
  - destruct (i_Extended p) as [m |]; cbn; [| done]. case_decide; congruence.
Qed.

Lemma table_upsert t p : table_ok t → tidy p → table_ok (upsertRow (toUpsertProgramParams p) t).
Proof.
  intros Ht Hp id r Hr. unfold upsertRow in Hr. cbn [r_id toUpsertProgramParams] in Hr. destruct (decide (i_ID p = id)) as [<- | Hne]; [| rewrite lookup_insert_ne in Hr by done; by apply Ht].
  rewrite lookup_insert_eq in Hr. injection Hr as <-. destruct (t !! i_ID p) as [old |] eqn:E; [| split; [done | by apply params_canonical]].
  apply Ht in E as [Hid Hc]. split; [done |]. apply canonical_spec in Hc as (H1 & H2 & H3 & H4 & H5). apply canonical_spec.
  cbn [fromGenProgram toUpsertProgramParams onConflict i_Genres i_Audios i_Extended i_RelatedItems r_genres r_audios r_extended r_related_items] in *.
  split_and!; try (by apply coalesce_ne).
  - unfold tidy in *. cbn in *. by apply tidy_encode.
  - destruct (i_Extended p) as [m |]; cbn; [| done]. case_decide; cbn; congruence.
Qed.

Lemma upsertPrograms_ok (ps : list Item) : ∀ t, table_ok t → Forall tidy ps →
  ∃ t', upsertPrograms (map Some ps) t = Ret t' ∧ table_ok t' ∧ values t' = fold_left upsertValue ps (values t).
Proof.
  induction ps as [| p ps IH]; intros t Ht Hps; [by exists t |]. apply Forall_cons in Hps as [Hp Hps].
  destruct (IH (upsertRow (toUpsertProgramParams p) t)) as (t' & E & Ht' & Hv); [by apply table_upsert | done |]. exists t'.
  split; [exact E |]. split; [done |]. cbn [fold_left]. by rewrite <- values_upsertRow.
Qed.

(** A batch of programs with different ids. *)
Lemma upsertValues_lookup ps : ∀ v, NoDup (map i_ID ps) →
  (∀ p, p ∈ ps → fold_left upsertValue ps v !! i_ID p = Some (mergeValue (v !! i_ID p) (val p))) ∧
  ∀ id, id ∉ map i_ID ps → fold_left upsertValue ps v !! id = v !! id.
Proof.
  induction ps as [| q ps IH]; intros v Hnd; [split; [by intros p ?%elem_of_nil | done] |]. cbn in Hnd. apply NoDup_cons in Hnd as [Hq Hnd].
  destruct (IH (upsertValue v q) Hnd) as [H1 H2]. cbn [fold_left]. split.
  - intros p [-> | Hp]%elem_of_cons.
    + rewrite H2 by done. apply lookup_insert_eq.
    + rewrite H1 by done. unfold upsertValue. rewrite lookup_insert_ne; [done |]. intros E. apply Hq. rewrite E. by apply list_elem_of_fmap_2.
  - intros id Hid. cbn in Hid. rewrite H2 by set_solver. unfold upsertValue. rewrite lookup_insert_ne; [done |]. set_solver.
Qed.

Lemma elem_of_rows t r : table_ok t → r ∈ rows t ↔ t !! r_id r = Some r.
Proof.
  intros Ht. unfold rows. rewrite merge_sort_Permutation, list_elem_of_fmap. split.
  - intros ([id r'] & -> & Hin%elem_of_map_to_list). cbn. by destruct (Ht _ _ Hin) as [-> _].
  - intros Hr. exists (r_id r, r). split; [done |]. by apply elem_of_map_to_list.
Qed.

Lemma byItemID_lookup l : ∀ (m : gmap Z Item) id, (∀ p q, p ∈ l → q ∈ l → i_ID p = i_ID q → p = q) →
  fold_left (λ m p, <[i_ID p := p]> m) l m !! id = match list_find (λ p, i_ID p = id) l with Some (_, p) => Some p | None => m !! id end.
Proof.
  induction l as [| q l IH]; intros m id Hu; [done |]. cbn [fold_left]. rewrite IH by (intros p p' ? ?; apply Hu; by right). cbn [list_find].
  destruct (decide (i_ID q = id)) as [E | E].
  - destruct (list_find _ l) as [[i p] |] eqn:Ef; cbn; [| by rewrite E, lookup_insert_eq]. apply list_find_Some in Ef as (Hp & Hid & _). f_equal.
    apply Hu; [right; by eapply list_elem_of_lookup_2 | by left | congruence].
  - rewrite lookup_insert_ne by done. by destruct (list_find _ l) as [[i p] |].
Qed.

(** What the manager finds of the programs before. *)
Lemma before_lookup t (ids : list Z) id : table_ok t → id ∈ ids →
  byItemID (map fromGenProgram (filter (λ r, r_id r ∈ ids) (rows t))) !! id = fromGenProgram <$> t !! id.
Proof.
  intros Ht Hid. unfold byItemID.
  assert (∀ p, p ∈ map fromGenProgram (filter (λ r, r_id r ∈ ids) (rows t)) → (fromGenProgram <$> t !! i_ID p) = Some p) as Hin.
  { intros p (r & -> & [_ Hr]%list_elem_of_filter)%list_elem_of_fmap. apply elem_of_rows in Hr; [| done]. cbn. by rewrite Hr. }
  rewrite byItemID_lookup; [| intros p q Hp Hq E; apply Hin in Hp; apply Hin in Hq; congruence].
  destruct (list_find _ _) as [[i p] |] eqn:Ef.
  - apply list_find_Some in Ef as (Hp & <- & _). symmetry. apply Hin. by eapply list_elem_of_lookup_2.
  - rewrite lookup_empty. destruct (t !! id) as [r |] eqn:Er; [| done]. exfalso. apply list_find_None in Ef. rewrite Forall_forall in Ef.
    destruct (Ht _ _ Er) as [Hrid _]. apply (Ef (fromGenProgram r)); [| done]. apply list_elem_of_fmap_2, list_elem_of_filter. split; [by rewrite Hrid |].
    apply elem_of_rows; [done | by rewrite Hrid].
Qed.

Lemma collectPending_ok ps : NoDup (map i_ID ps) →
  fst (collectPending (map Some ps)) = map i_ID ps ∧ ∀ id p, snd (collectPending (map Some ps)) !! id = Some p ↔ p ∈ ps ∧ i_ID p = id.
Proof.
  unfold collectPending. enough (∀ (ids : list Z) (pending : gmap Z Item), NoDup (map i_ID ps) → (∀ id, id ∈ map i_ID ps → pending !! id = None) →
    let '(ids', pending') := fold_left (λ '(ids, pending) p, match p with None => (ids, pending)
      | Some p => (match pending !! i_ID p with None => ids ++ [i_ID p] | Some _ => ids end, <[i_ID p := p]> pending) end) (map Some ps) (ids, pending) in
    ids' = ids ++ map i_ID ps ∧ ∀ id p, pending' !! id = Some p ↔ pending !! id = Some p ∨ p ∈ ps ∧ i_ID p = id) as Hgen.
  { intros Hnd. specialize (Hgen [] ∅ Hnd (λ _ _, lookup_empty _)). destruct (fold_left _ _ _) as [ids' pending']. destruct Hgen as [-> Hp]. split; [done |].
    intros id p. cbn. rewrite Hp, lookup_empty. naive_solver. }
  induction ps as [| q ps IH]; intros ids pending Hnd Hnone; cbn [map fold_left].
  - split; [by rewrite app_nil_r |]. set_solver.
  - cbn in Hnd. apply NoDup_cons in Hnd as [Hq Hnd]. rewrite (Hnone (i_ID q)) by (by left).
    specialize (IH (ids ++ [i_ID q]) (<[i_ID q := q]> pending) Hnd). destruct (fold_left _ _ _) as [ids' pending'].
    destruct IH as [-> Hp].
    { intros id Hid. rewrite lookup_insert_ne; [apply Hnone; by right | intros E; by rewrite <- E in Hid]. }
    split; [by rewrite <- app_assoc |]. intros id p. rewrite Hp, elem_of_cons, lookup_insert_Some. split.
    + intros [[[<- <-] | [_ ?]] | [? ?]]; auto.
    + intros [Hold | [[-> | ?] Hid]]; auto. destruct (decide (i_ID q = id)) as [E | E]; [| auto]. rewrite <- E in Hold. rewrite Hnone in Hold by (by left). done.
Qed.

(** The event of a program, given the programs before. *)
Definition published (v : gmap Z (Program textMap)) (p : Item) : option programEvent :=
  match v !! i_ID p with
  | None => Some (EventProgram eventTypeCreate (canonOf (val p)))
  | Some old => if decide (mergeValue (Some old) (val p) = old) then None else Some (EventProgram eventTypeUpdate (canonOf (mergeValue (Some old) (val p))))
  end.

Definition enqueueAll (m : ProgramManager) (evs : list programEvent) : ProgramManager := fold_left (λ m e, enqueueEvent e m) evs m.

Lemma enqueueAll_queue evs : ∀ m, pm_events m = true →
  pm_eventQueue (enqueueAll m evs) = pm_eventQueue m ++ evs ∧ pm_store (enqueueAll m evs) = pm_store m ∧ pm_events (enqueueAll m evs) = true.
Proof.
  induction evs as [| e evs IH]; intros m Hm; cbn [enqueueAll fold_left]; [by rewrite app_nil_r |].
  unfold enqueueEvent at 2 4 6. rewrite Hm. destruct (IH (MkManager (pm_store m) true true (pm_eventQueue m ++ [e])) eq_refl) as (H1 & H2 & H3).
  unfold enqueueAll in *. rewrite H1, H2. cbn. by rewrite <- app_assoc.
Qed.

Lemma upsertEvents_ok t before (L : list Item) : ∀ m, table_ok t → (∀ p, p ∈ L → before !! i_ID p = fromGenProgram <$> t !! i_ID p) →
  fold_left (upsertEvent before) L m = enqueueAll m (omap (published (values t)) L).
Proof.
  induction L as [| p L IH]; intros m Ht Hb; [done |]. cbn [fold_left omap list_omap].
  assert (upsertEvent before m p = enqueueAll m (option_list (published (values t) p))) as ->.
  { unfold upsertEvent, published, values. rewrite Hb by (by left). rewrite lookup_fmap, mergeUpsert_canonOf. destruct (t !! i_ID p) as [r |] eqn:Er; cbn [fmap option_fmap option_map option_list]; [| done].
    change (valRow r) with (val (fromGenProgram r)). set (v := mergeValue _ (val p)). destruct (Ht _ _ Er) as [_ Hc].
    destruct (decide (v = val (fromGenProgram r))) as [E | E].
    - rewrite bool_decide_eq_true_2; [done |]. by rewrite E, Hc.
    - rewrite bool_decide_eq_false_2; [done |]. intros E'. apply E. rewrite E'. symmetry. apply val_canonOf. }
  rewrite IH by (try done; intros q Hq; apply Hb; by right). destruct (published (values t) p); done.
Qed.

(** What a manager holds: rows under their ids, nothing empty that is not nil. *)
Definition manager_ok (m : ProgramManager) : Prop := table_ok (pm_store m) ∧ pm_events m = true.

Definition noFault : StoreOp → option error := λ _, None.

Section Publish.
Context {O : RangeOrder Item}.

Lemma upsert_ok ps m : manager_ok m → NoDup (map i_ID ps) → Forall tidy ps →
  ∃ m' L, UpsertPrograms noFault (map Some ps) m = Ret m' ∧ manager_ok m' ∧ L ≡ₚ ps ∧
    pm_eventQueue m' = pm_eventQueue m ++ omap (published (values (pm_store m))) L ∧
    values (pm_store m') = fold_left upsertValue ps (values (pm_store m)).
Proof.
  intros [Ht He] Hnd Htidy. unfold UpsertPrograms. destruct (collectPending_ok ps Hnd) as [Hids Hpend]. destruct (collectPending (map Some ps)) as [ids pending]. cbn [fst snd] in *. subst ids.
  unfold ListByIDs, UpsertAll, query. cbn [noFault mbind outcome_bind]. destruct (upsertPrograms_ok ps (pm_store m) Ht Htidy) as (t' & -> & Ht' & Hv). cbn [mbind outcome_bind].
  set (before := byItemID _). set (L := map snd (range pending)).
  assert (L ≡ₚ ps) as HL.
  { apply NoDup_Permutation; [| by eapply (NoDup_fmap_1 i_ID) |].
    - unfold L. rewrite range_perm. apply (NoDup_fmap_1 i_ID). rewrite <- list_fmap_compose. replace (((i_ID ∘ snd) : Z * Item → Z) <$> map_to_list pending) with (map_to_list pending).*1; [apply NoDup_fst_map_to_list |].
      apply list_fmap_ext. intros i [id p] Hi. cbn. apply list_elem_of_lookup_2, elem_of_map_to_list, Hpend in Hi. by destruct Hi.
    - intros p. unfold L. rewrite range_perm, list_elem_of_fmap. split.
      + intros ([id q] & -> & Hin%elem_of_map_to_list%Hpend). by destruct Hin.
      + intros Hp. exists (i_ID p, p). split; [done |]. by apply elem_of_map_to_list, Hpend. }
  exists (fold_left (upsertEvent before) L (withStore t' m)), L. split; [done |].
  rewrite (upsertEvents_ok (pm_store m)); [| done |].
  - destruct (enqueueAll_queue (omap (published (values (pm_store m))) L) (withStore t' m) He) as (H1 & H2 & H3). unfold manager_ok. rewrite H1, H2, H3. done.
  - intros p Hp. rewrite HL in Hp. apply before_lookup; [done |]. by apply list_elem_of_fmap_2.
Qed.


End Publish.

(** ** What the other server reads *)

(** A related item without its transport stream. *)
Definition dropStream (r : RelatedItem) : RelatedItem := MkRelatedItem (ri_Type r) (ri_NetworkID r) None (ri_ServiceID r) (ri_EventID r).
Definition dropStreams (v : Program textMap) : Program textMap := setRelatedItems (map dropStream (p_RelatedItems v)) v.

(** What the API does not say: languages it has no code for, a negative pattern. *)
Definition apiShown (v : Program textMap) : Program textMap :=
  setSeries ((λ s, MkSeries (s_ID s) (s_Repeat s) (if 0 <=? s_Pattern s then s_Pattern s else -1) (s_ExpiresAt s) (s_Episode s) (s_LastEpisode s) (s_Name s)) <$> p_Series v)
    (setAudios (map (λ a, MkAudio (a_ComponentType a) (a_ComponentTag a) (a_IsMain a) (a_SamplingRate a) (filter (λ lang, lang ∈ apiLangs) (a_Langs a))) (p_Audios v)) v).

Lemma default_encodeText (t : list Z) : default [] (encodeText t) = t.
Proof. by destruct t. Qed.
Lemma default_nonzero n : default 0 (nonzero n) = n.
Proof. unfold nonzero. by destruct (Z.eqb_spec n 0). Qed.
Lemma default_type (t : string) : default ""%string (if bool_decide (t = ""%string) then None else Some t) = t.
Proof. by case_bool_decide. Qed.
Lemma video_read (o : option Video) : (λ v, MkVideo (jv_streamContent v) (jv_componentType v)) <$> (videoData <$> o) = o.
Proof. by destruct o as [[]|]. Qed.

Lemma event_read p : val (remoteProgram (EventData p)) = dropStreams (val p).
Proof.
  unfold val at 1. unfold remoteProgram, EventData. cbn [i_ID i_EventID i_ServiceID i_NetworkID i_StartAt i_Duration i_IsFree i_Name i_Description i_Genres i_Video i_Audios
    i_Extended i_RelatedItems i_Series j_id j_eventId j_serviceId j_networkId j_startAt j_duration j_isFree j_name j_description j_genres j_video j_audios j_extended j_relatedItems j_series].
  rewrite !default_encodeText, default_encodeMap, video_read. unfold dropStreams, setRelatedItems, val. cbn. f_equal.
  - unfold remoteAudios, audioListEventData. change (items (Some ?l)) with l. rewrite !map_map. apply map_ext. intros a. unfold valAudio. cbn. by rewrite items_cloneSlice.
  - unfold remoteRelatedItems, relatedItemListEventData. change (items (Some ?l)) with l. rewrite map_map. apply map_ext. intros r. cbn. unfold dropStream. by rewrite default_type, !default_nonzero.
  - destruct (i_Series p) as [s |]; [| done]. destruct s as [s1 s2 s3 s4 s5 s6 name]. cbn. unfold remoteSeries. cbn. by rewrite default_encodeText.
Qed.

Lemma api_read p : val (remoteProgram (apiProgram p)) = apiShown (dropStreams (val p)).
Proof.
  unfold val at 1. unfold remoteProgram, apiProgram. cbn [i_ID i_EventID i_ServiceID i_NetworkID i_StartAt i_Duration i_IsFree i_Name i_Description i_Genres i_Video i_Audios
    i_Extended i_RelatedItems i_Series j_id j_eventId j_serviceId j_networkId j_startAt j_duration j_isFree j_name j_description j_genres j_video j_audios j_extended j_relatedItems j_series].
  rewrite !default_encodeText, default_encodeMap, video_read. unfold apiShown, dropStreams, setRelatedItems, setAudios, setSeries, val. cbn. f_equal.
  - unfold remoteAudios, apiProgramAudios. change (items (Some ?l)) with l. rewrite !map_map. apply map_ext. done.
  - unfold remoteRelatedItems. change (items (Some ?l)) with l. rewrite map_map. apply map_ext. intros r. cbn. unfold dropStream. by rewrite default_type.
  - destruct (i_Series p) as [s |]; [| done]. destruct s as [s1 s2 pattern s4 s5 s6 name]. cbn. unfold remoteSeries. cbn. rewrite default_encodeText. by destruct (0 <=? pattern).
Qed.

(** C24 (roundtrip): a program that goes to another server as an event comes back whole, but for the
    transport streams of its related items, which the reader has no member for;
    and through the API, but also for languages outside the ten that the API has
    codes for and for negative series patterns, which become -1. A program without
    such comes back as it was, on both ways. *)
Theorem remote_reads p :
  val (remoteProgram (EventData p)) = dropStreams (val p) ∧ val (remoteProgram (apiProgram p)) = apiShown (dropStreams (val p)) ∧
  (Forall (λ r, ri_TransportStreamID r = None) (p_RelatedItems (val p)) →
   val (remoteProgram (EventData p)) = val p ∧
   (Forall (λ a, Forall (λ lang, lang ∈ apiLangs) (a_Langs a)) (p_Audios (val p)) → (∀ s, p_Series (val p) = Some s → -1 ≤ s_Pattern s) →
    val (remoteProgram (apiProgram p)) = val p)).
Proof.
  rewrite event_read, api_read. split; [done |]. split; [done |]. generalize (val p). intros v Hts.
  assert (dropStreams v = v) as ->.
  { destruct v as [x1 x2 x3 x4 x5 x6 x7 x8 x9 x10 x11 x12 x13 related x15]. unfold dropStreams, setRelatedItems. cbn in *. f_equal.
    induction Hts as [| r l Hr Hts IH]; [done |]. cbn. rewrite IH. f_equal. destruct r. cbn in Hr. by subst. }
  split; [done |]. intros Hl Hs. destruct v as [x1 x2 x3 x4 x5 x6 x7 x8 x9 x10 x11 audios x13 related series]. unfold apiShown, setAudios, setSeries. cbn in *. f_equal.
  - clear Hs Hts. induction Hl as [| a l Ha Hl IH]; [done |]. cbn. rewrite IH. f_equal. destruct a as [a1 a2 a3 a4 langs]. cbn in *. f_equal.
    induction Ha as [| lang langs Hin Ha IHa]; [done |]. by rewrite filter_cons_True, IHa.
  - destruct series as [s |]; [| done]. cbn. specialize (Hs s eq_refl). destruct s as [s1 s2 pattern s4 s5 s6 name]. cbn in *. destruct (Z.leb_spec 0 pattern); [done |]. do 2 f_equal. lia.
Qed.

(** *** A server that follows another *)

(** The service of a program's id. *)
Definition serviceOf (id : Z) : Z * Z := (id / 10000000000, id mod 10000000000 / 100000).
Definition identified (p : Item) : Prop := i_ID p = ProgramID (i_NetworkID p) (i_ServiceID p) (i_EventID p) ∧ 0 ≤ i_ServiceID p < 65536 ∧ 0 ≤ i_EventID p < 65536.

Lemma identified_service p : identified p → serviceOf (i_ID p) = (i_NetworkID p, i_ServiceID p).
Proof.
  intros (-> & Hs & He). unfold serviceOf, ProgramID. f_equal.
  - symmetry. apply (Z.div_unique_pos _ _ _ (i_ServiceID p * 100000 + i_EventID p)); lia.
  - assert ((i_NetworkID p * 10000000000 + i_ServiceID p * 100000 + i_EventID p) mod 10000000000 = i_ServiceID p * 100000 + i_EventID p) as ->.
    { symmetry. apply (Z.mod_unique_pos _ _ (i_NetworkID p)); lia. }
    symmetry. apply (Z.div_unique_pos _ _ _ (i_EventID p)); lia.
Qed.

Lemma drop_merge o x : mergeValue (dropStreams <$> o) (dropStreams (mergeValue o x)) = dropStreams (mergeValue o x).
Proof.
  destruct o as [o |]; [| done]. destruct o as [o1 o2 o3 o4 o5 o6 o7 name desc genres video audios ext related series], x as [x1 x2 x3 x4 x5 x6 x7 name' desc' genres' video' audios' ext' related' series'].
  unfold dropStreams, setRelatedItems, mergeValue. cbn. f_equal.
  - by destruct name', name.
  - by destruct desc', desc.
  - by destruct genres', genres.
  - by destruct video', video.
  - by destruct audios', audios.
  - destruct (decide (ext' = ∅)); [| by rewrite decide_False]. by case_decide.
  - by destruct related', related.
  - by destruct series', series.
Qed.

Section Mirror.
Context {O : RangeOrder Item}.
Variable services : list (option Service).

(** The services the other server knows. *)
Definition knownServices : gset (Z * Z) := list_to_set (omap (λ svc, (λ s, (se_NetworkId s, se_ServiceId s)) <$> svc) services).

Definition reader (st : knownServiceProgramUpdater * ProgramManager) (e : programEvent) : outcome (knownServiceProgramUpdater * ProgramManager) :=
  readEvent (Ret services) (UpsertPrograms noFault) st (eventJSON e).

(** A batch is upserted by one server, whose events reach the other in their order. *)
Definition mirrorBatch (st : ProgramManager * (knownServiceProgramUpdater * ProgramManager)) (ps : list Item) : outcome (ProgramManager * (knownServiceProgramUpdater * ProgramManager)) :=
  let '(a, b) := st in
  a ← UpsertPrograms noFault (map Some ps) a;
  let '(evs, a) := flushEvents a in
  b ← foldM reader evs b;
  Ret (a, b).

Definition updater_ok (u : knownServiceProgramUpdater) : Prop := ku_loaded u = true → ku_known u = knownServices.

(** The programs of the services it knows. *)
Definition mirrored (v : gmap Z (Program textMap)) (id : Z) : option (Program textMap) :=
  if decide (serviceOf id ∈ knownServices) then dropStreams <$> v !! id else None.

Lemma updater_one p u b : updater_ok u →
  ∃ u', updater_ok u' ∧ updaterUpsert (Ret services) (UpsertPrograms noFault) [Some p] (u, b) =
    if decide ((i_NetworkID p, i_ServiceID p) ∈ knownServices) then b' ← UpsertPrograms noFault [Some p] b; Ret (u', b') else Ret (u', b).
Proof.
  intros Hu. set (u0 := MkKnown knownServices true). unfold updaterUpsert.
  assert (∃ u1, ku_known u1 = knownServices ∧ updater_ok u1 ∧ (if ku_loaded u then Ret u else refresh (Ret services) u) = Ret u1) as (u1 & Hk1 & Hok1 & ->).
  { destruct (ku_loaded u) eqn:E; [exists u; auto | exists u0; by split]. }
  cbn [mbind outcome_bind]. unfold filterKnown. change (omap id [Some p]) with [p]. cbn [existsb]. rewrite orb_false_r.
  assert (∀ u2, ku_known u2 = knownServices → isKnown u2 p ↔ (i_NetworkID p, i_ServiceID p) ∈ knownServices) as Hk by (intros u2 E; unfold isKnown; by rewrite E).
  destruct (decide ((i_NetworkID p, i_ServiceID p) ∈ knownServices)) as [Hin | Hin].
  - rewrite bool_decide_eq_true_2 by (by apply Hk). exists u1. split; [done |]. cbn [negb mbind outcome_bind]. by rewrite filter_cons_True by (by apply Hk).
  - rewrite bool_decide_eq_false_2 by (by rewrite Hk). exists u0. split; [done |]. cbn [negb mbind outcome_bind refresh]. fold knownServices. fold u0. cbn [fst].
    by rewrite filter_cons_False by (by rewrite Hk).
Qed.

Lemma readEvent_program typ q st : typ = eventTypeCreate ∨ typ = eventTypeUpdate →
  reader st (EventProgram typ q) = updaterUpsert (Ret services) (UpsertPrograms noFault) [Some (remoteProgram (EventData q))] st.
Proof. by intros [-> | ->]. Qed.

Lemma remote_tidy q : tidy (remoteProgram (EventData q)).
Proof.
  unfold tidy, remoteProgram, remoteAudios. cbn. change (items (Some ?l)) with l. apply Forall_map, Forall_map, Forall_true. intros a. cbn. unfold cloneSlice. by destruct (items (ia_Langs a)).
Qed.

(** An event of a program, on the other server. *)
Lemma reader_one v typ id u b : typ = eventTypeCreate ∨ typ = eventTypeUpdate → p_ID v = id → (p_NetworkID v, p_ServiceID v) = serviceOf id →
  updater_ok u → manager_ok b → mergeValue (values (pm_store b) !! id) (dropStreams v) = dropStreams v ∨ serviceOf id ∉ knownServices →
  ∃ u' b', reader (u, b) (EventProgram typ (canonOf v)) = Ret (u', b') ∧ updater_ok u' ∧ manager_ok b' ∧
    ∀ id', values (pm_store b') !! id' = if decide (id' = id ∧ serviceOf id ∈ knownServices) then Some (dropStreams v) else values (pm_store b) !! id'.
Proof.
  intros Htyp Hid Hsvc Hu Hb Hmerge. rewrite readEvent_program by done. set (r := remoteProgram (EventData (canonOf v))).
  destruct (updater_one r u b Hu) as (u' & Hu' & ->). change (i_NetworkID r, i_ServiceID r) with (p_NetworkID v, p_ServiceID v). rewrite Hsvc.
  destruct (decide (serviceOf id ∈ knownServices)) as [Hin | Hin].
  - destruct (upsert_ok [r] b Hb) as (b' & L & E & Hb' & _ & _ & Hv); [apply NoDup_singleton | by apply Forall_singleton, remote_tidy |].
    exists u', b'. change (map Some [r]) with [Some r] in E. rewrite E. split; [done |]. split; [done |]. split; [done |]. intros id'. rewrite Hv. cbn [fold_left]. unfold upsertValue.
    change (i_ID r) with (p_ID v). rewrite Hid. assert (val r = dropStreams v) as -> by (unfold r; rewrite event_read; by rewrite val_canonOf).
    destruct Hmerge as [-> | ?]; [| done]. destruct (decide (id' = id ∧ serviceOf id ∈ knownServices)) as [[-> _] | Hne]; [by rewrite lookup_insert_eq |].
    rewrite lookup_insert_ne; [done |]. intros <-. tauto.
  - exists u', b. split; [done |]. split; [done |]. split; [done |]. intros id'. rewrite decide_False by tauto. done.
Qed.

(** The events of a batch. *)
Lemma reader_batch before after (L : list Item) : ∀ done_ u b,
  (∀ p, p ∈ L → after !! i_ID p = Some (mergeValue (before !! i_ID p) (val p)) ∧ identified p) → NoDup (map i_ID (done_ ++ L)) →
  updater_ok u → manager_ok b →
  (∀ id, values (pm_store b) !! id = mirrored (if decide (id ∈ map i_ID done_) then after else before) id) →
  ∃ u' b', foldM reader (omap (published before) L) (u, b) = Ret (u', b') ∧ updater_ok u' ∧ manager_ok b' ∧
    ∀ id, values (pm_store b') !! id = mirrored (if decide (id ∈ map i_ID (done_ ++ L)) then after else before) id.
Proof.
  induction L as [| p L IH]; intros done_ u b HL Hnd Hu Hb Hv; cbn [omap list_omap].
  { exists u, b. rewrite app_nil_r. done. }
  destruct (HL p) as [Ha Hidp]; [by left |]. pose proof (identified_service p Hidp) as Hsvc.
  assert (i_ID p ∉ map i_ID done_) as Hnew.
  { rewrite map_app in Hnd. apply NoDup_app in Hnd as (_ & Hd & _). intros Hin. apply (Hd _ Hin). by left. }
  assert (done_ ++ p :: L = (done_ ++ [p]) ++ L) as Eapp by (by rewrite <- app_assoc). rewrite Eapp in Hnd |- *.
  assert (∀ u1 b1, updater_ok u1 → manager_ok b1 → (∀ id, values (pm_store b1) !! id = mirrored (if decide (id ∈ map i_ID (done_ ++ [p])) then after else before) id) →
    ∃ u' b', foldM reader (omap (published before) L) (u1, b1) = Ret (u', b') ∧ updater_ok u' ∧ manager_ok b' ∧
    ∀ id, values (pm_store b') !! id = mirrored (if decide (id ∈ map i_ID ((done_ ++ [p]) ++ L)) then after else before) id) as Hgo.
  { intros u1 b1 Hu1 Hb1 Hv1. apply IH; try done. intros q Hq. apply HL. by right. }
  assert (∀ id, id ≠ i_ID p → (id ∈ map i_ID (done_ ++ [p]) ↔ id ∈ map i_ID done_)) as Hother by (intros id Hne; rewrite map_app; set_solver).
  assert (i_ID p ∈ map i_ID (done_ ++ [p])) as Hin by (rewrite map_app; set_solver).
  unfold published at 1. destruct (before !! i_ID p) as [old |] eqn:Eold; [destruct (decide (mergeValue (Some old) (val p) = old)) as [Esame | Ediff] |].
  - apply Hgo; [done | done |]. intros id. rewrite Hv. destruct (decide (id = i_ID p)) as [-> | Hne].
    + rewrite decide_False, decide_True by done. unfold mirrored. case_decide; [| done]. rewrite Ha, Eold. by rewrite Esame.
    + destruct (decide (id ∈ map i_ID done_)), (decide (id ∈ map i_ID (done_ ++ [p]))); try done; exfalso; naive_solver.
  - set (w := mergeValue (Some old) (val p)) in *. cbn [foldM]. destruct (reader_one w eventTypeUpdate (i_ID p) u b) as (u1 & b1 & E & Hu1 & Hb1 & Hv1); try done; [by right | |].
    { rewrite Hv. rewrite decide_False by done. unfold mirrored. destruct (decide (serviceOf (i_ID p) ∈ knownServices)); [left | by right]. rewrite Eold. apply (drop_merge (Some old) (val p)). }
    rewrite E. cbn [mbind outcome_bind]. apply Hgo; [done | done |]. intros id. rewrite Hv1. destruct (decide (id = i_ID p)) as [-> | Hne].
    + unfold mirrored at 1. rewrite (decide_True (P := i_ID p ∈ _)) by done. rewrite Ha. destruct (decide (serviceOf (i_ID p) ∈ knownServices)).
      * by rewrite decide_True.
      * rewrite decide_False by tauto. rewrite Hv. unfold mirrored. by rewrite decide_False.
    + rewrite decide_False by tauto. rewrite Hv. destruct (decide (id ∈ map i_ID done_)), (decide (id ∈ map i_ID (done_ ++ [p]))); try done; exfalso; naive_solver.
  - set (w := val p) in *. cbn [foldM]. destruct (reader_one w eventTypeCreate (i_ID p) u b) as (u1 & b1 & E & Hu1 & Hb1 & Hv1); try done; [by left | |].
    { rewrite Hv. rewrite decide_False by done. unfold mirrored. destruct (decide (serviceOf (i_ID p) ∈ knownServices)); [left | by right]. by rewrite Eold. }
    rewrite E. cbn [mbind outcome_bind]. apply Hgo; [done | done |]. intros id. rewrite Hv1. destruct (decide (id = i_ID p)) as [-> | Hne].
    + unfold mirrored at 1. rewrite (decide_True (P := i_ID p ∈ _)) by done. rewrite Ha. destruct (decide (serviceOf (i_ID p) ∈ knownServices)).
      * by rewrite decide_True.
      * rewrite decide_False by tauto. rewrite Hv. unfold mirrored. by rewrite decide_False.
    + rewrite decide_False by tauto. rewrite Hv. destruct (decide (id ∈ map i_ID done_)), (decide (id ∈ map i_ID (done_ ++ [p]))); try done; exfalso; naive_solver.
Qed.

(** A batch as a collection brings it. *)
Definition batch_ok (ps : list Item) : Prop := NoDup (map i_ID ps) ∧ Forall tidy ps ∧ Forall identified ps.

Record follows_ok (v : gmap Z (Program textMap)) (st : ProgramManager * (knownServiceProgramUpdater * ProgramManager)) : Prop := {
  fo_a : manager_ok st.1;
  fo_queue : pm_eventQueue st.1 = [];
  fo_values : values (pm_store st.1) = v;
  fo_u : updater_ok st.2.1;
  fo_b : manager_ok st.2.2;
  fo_mirror id : values (pm_store st.2.2) !! id = mirrored v id
}.

Lemma mirrorBatch_ok v st ps : follows_ok v st → batch_ok ps → returns (mirrorBatch st ps) (follows_ok (fold_left upsertValue ps v)).
Proof.
  destruct st as [a [u b]]. intros [Ha Hq Hva Hu Hb Hm] (Hnd & Htidy & Hid). cbn [fst snd] in *. unfold mirrorBatch.
  destruct (upsert_ok ps a Ha Hnd Htidy) as (a' & L & -> & Ha' & HL & Hq' & Hv'). rewrite Hq, Hva in *. cbn [mbind outcome_bind flushEvents]. rewrite Hq'. cbn [app].
  destruct (upsertValues_lookup ps v Hnd) as [H1 H2]. rewrite Forall_forall in Hid.
  destruct (reader_batch v (fold_left upsertValue ps v) L [] u b) as (u' & b' & -> & Hu' & Hb' & Hm'); try done.
  - intros p Hp. rewrite HL in Hp. auto.
  - cbn [app]. by rewrite HL.
  - apply safe_ret. constructor; cbn [fst snd]; try done. intros id. rewrite Hm'. cbn [app]. case_decide as Hin; [done |].
    unfold mirrored. rewrite H2; [done |]. by rewrite HL in Hin.
Qed.

(** The first server alone, with all events that it publishes. *)
Definition serverBatch (st : ProgramManager * list programEvent) (ps : list Item) : outcome (ProgramManager * list programEvent) :=
  let '(a, evs) := st in
  a ← UpsertPrograms noFault (map Some ps) a;
  let '(q, a) := flushEvents a in
  Ret (a, evs ++ q).
Definition serverRun (batches : list (list Item)) : outcome (ProgramManager * list programEvent) := foldM serverBatch batches (NewProgramManager true, []).

Definition readAll (evs : list programEvent) : outcome (knownServiceProgramUpdater * ProgramManager) := foldM reader evs (newUpdater, NewProgramManager true).

Lemma mirror_starts : follows_ok ∅ (NewProgramManager true, (newUpdater, NewProgramManager true)).
Proof.
  assert (manager_ok (NewProgramManager true)) as Hnew by (split; [by intros id r Hr; cbn in Hr; rewrite lookup_empty in Hr | done]).
  constructor; try done. intros id. unfold mirrored. cbn. by case_decide.
Qed.

Lemma server_mirror batches : Forall batch_ok batches →
  returns (serverRun batches) (λ '(a, evs), ∃ b, readAll evs = Ret b ∧ follows_ok (fold_left (λ v ps, fold_left upsertValue ps v) batches ∅) (a, b)).
Proof.
  intros Hbs. unfold serverRun.
  assert (∀ v a evs b, readAll evs = Ret b → follows_ok v (a, b) → returns (foldM serverBatch batches (a, evs))
    (λ '(a, evs), ∃ b, readAll evs = Ret b ∧ follows_ok (fold_left (λ v ps, fold_left upsertValue ps v) batches v) (a, b))) as Hgo.
  { induction Hbs as [| ps batches Hps Hbs IH]; intros v a evs b Hr Hst; [by exists b |]. cbn [foldM fold_left]. apply safe_bind.
    pose proof (mirrorBatch_ok v (a, b) ps Hst Hps) as Hm. unfold mirrorBatch in Hm. unfold serverBatch at 1.
    destruct (UpsertPrograms noFault (map Some ps) a) as [a' | | |]; cbn [mbind outcome_bind flushEvents] in *; try done.
    destruct (foldM reader (pm_eventQueue a') b) as [b' | | |] eqn:Eb; cbn [mbind outcome_bind] in Hm; try done.
    apply safe_ret. apply (IH _ _ _ b'); [| done]. unfold readAll in *. rewrite foldM_app, Hr. cbn [mbind outcome_bind]. done. }
  by apply (Hgo ∅ _ [] (newUpdater, NewProgramManager true)); [| apply mirror_starts].
Qed.

(** A server that reads the events of another follows it: after any batches of
    programs that the one has merged, from its start, the other has the same
    programs for the services that it knows, and no others; each with all that it
    says, but for the transport streams of related items. It holds although a
    program that did not change has no event, the events of a batch come in any
    order, and the other server merges what it reads into what it has. *)
Theorem mirror_follows batches : Forall batch_ok batches →
  returns (foldM mirrorBatch batches (NewProgramManager true, (newUpdater, NewProgramManager true))) (λ '(a, (_, b)),
    values (pm_store a) = fold_left (λ v ps, fold_left upsertValue ps v) batches ∅ ∧
    ∀ id, values (pm_store b) !! id = if decide (serviceOf id ∈ knownServices) then dropStreams <$> values (pm_store a) !! id else None).
Proof.
  intros Hbs.
  assert (∀ v st, follows_ok v st → returns (foldM mirrorBatch batches st) (follows_ok (fold_left (λ v ps, fold_left upsertValue ps v) batches v))) as Hgo.
  { induction Hbs as [| ps batches Hps Hbs IH]; intros v st Hst; [exact Hst |]. cbn [foldM fold_left]. apply safe_bind. eapply safe_mono; [by apply mirrorBatch_ok |].
    intros st' Hst'. by apply IH. }
  eapply safe_mono; [apply (Hgo ∅) |].
  - apply mirror_starts.
  - intros [a [u b]] [_ _ Hv _ _ Hm]. cbn [fst snd] in *. split; [done |]. intros id. rewrite Hm, Hv. done.
Qed.

End Mirror.

(** What has ended before the cutoff is deleted, and a removal published for each. *)
Lemma delete_ended cutoff m : manager_ok m →
  ∃ m' ids, DeleteEndedBefore noFault cutoff m = Ret m' ∧ pm_eventQueue m' = pm_eventQueue m ++ map EventRemove ids ∧
    (∀ id, id ∈ ids ↔ ∃ v, values (pm_store m) !! id = Some v ∧ p_StartAt v + p_Duration v < cutoff) ∧
    ∀ id, values (pm_store m') !! id = if bool_decide (id ∈ ids) then None else values (pm_store m) !! id.
Proof.
  intros [Ht He]. unfold DeleteEndedBefore, ListEndedIDsBefore, DeleteEndedAtBefore, query. cbn [noFault mbind outcome_bind].
  set (ids := merge_sort _ _). set (t' := filter _ (pm_store m)). exists (fold_left (λ m id, enqueueEvent (EventRemove id) m) ids (withStore t' m)), ids. split; [done |].
  assert (∀ l m0, fold_left (λ m id, enqueueEvent (EventRemove id) m) l m0 = enqueueAll m0 (map EventRemove l)) as -> by (intros l; induction l as [| x l IH]; intros m0; [done | apply IH]).
  destruct (enqueueAll_queue (map EventRemove ids) (withStore t' m) He) as (H1 & H2 & _). rewrite H1, H2. split; [done |].
  assert (∀ id, id ∈ ids ↔ ∃ v, values (pm_store m) !! id = Some v ∧ p_StartAt v + p_Duration v < cutoff) as Hids.
  { intros id. unfold ids. rewrite merge_sort_Permutation, list_elem_of_fmap. setoid_rewrite list_elem_of_filter. unfold values. rewrite lookup_fmap. split.
    - intros (r & -> & Hend & Hr%elem_of_rows); [| done]. exists (valRow r). by rewrite Hr.
    - intros (v & Hv & Hend). destruct (pm_store m !! id) as [r |] eqn:Er; [| done]. cbn in Hv. injection Hv as <-. destruct (Ht _ _ Er) as [Hid _]. exists r.
      split; [done |]. split; [exact Hend |]. apply elem_of_rows; [done | by rewrite Hid]. }
  split; [done |]. intros id. unfold values. cbn [withStore pm_store]. rewrite !lookup_fmap.
  destruct (pm_store m !! id) as [r |] eqn:Er.
  - assert (id ∈ ids ↔ r_start_at r + r_duration r < cutoff) as Hr.
    { rewrite Hids. unfold values. rewrite lookup_fmap, Er. cbn. split; [intros (v & Hv & ?); by injection Hv as <- | intros ?; by eexists]. }
    case_bool_decide as Hin.
    + assert (t' !! id = None) as ->; [| done]. apply map_lookup_filter_None_2. right. intros r' Er' Hn. apply Hr in Hin. cbn in Hn. congruence.
    + assert (t' !! id = Some r) as ->; [| done]. apply map_lookup_filter_Some_2; [done |]. by rewrite Hr in Hin.
  - assert (t' !! id = None) as -> by (apply map_lookup_filter_None_2; by left). by case_bool_decide.
Qed.

(** ** Two servers *)

#[local] Instance itemOrder : RangeOrder Item := {| range := map_to_list; range_perm m := reflexivity _ |}.

Definition sampleItem (service event start : Z) (name : list Z) (audios : slice ItemAudio) (related : slice RelatedItem) : Item :=
  MkItem (ProgramID 4 service event) event service 4 start 1800 true name [] None None audios None related None.
Definition japanese : ItemAudio := MkItemAudio 3 None None None (Some [ascii "jpn"]).
Definition languageless : ItemAudio := MkItemAudio 3 None None None (Some []).

(** Two batches: a program, then its name and one of a service the other server does not know. *)
Definition sampleBatches : list (list Item) :=
  [[sampleItem 101 7 1000 [] (Some [japanese]) (Some [MkRelatedItem "shared" None (Some 5) 102 8])];
   [sampleItem 101 7 1000 [78] None None; sampleItem 141 9 2000 [79] None None]].
Definition sampleKnown : list (option Service) := [Some (MkService "" 101 4 5 "" 1 true true None None None false 0 "BS" "15" noEPG); None].

Lemma sampleBatches_ok : Forall batch_ok sampleBatches.
Proof.
  assert (∀ ps, bool_decide (NoDup (map i_ID ps)) && forallb (λ p, forallb (λ a, negb (bool_decide (ia_Langs a = Some []))) (items (i_Audios p)) &&
    (i_ID p =? ProgramID (i_NetworkID p) (i_ServiceID p) (i_EventID p)) && (0 <=? i_ServiceID p) && (i_ServiceID p <? 65536) && (0 <=? i_EventID p) && (i_EventID p <? 65536)) ps = true → batch_ok ps) as Hok.
  { intros ps [Hnd Hall]%andb_true_iff. apply bool_decide_eq_true in Hnd. rewrite forallb_forall in Hall. split; [done |]. rewrite !Forall_forall. split; intros p Hp%list_elem_of_In%Hall;
      rewrite !andb_true_iff, !Z.leb_le, !Z.ltb_lt, Z.eqb_eq in Hp; destruct Hp as (((((Ht & Hid) & ?) & ?) & ?) & ?).
    - unfold tidy. apply Forall_forall. intros a Ha%list_elem_of_In. rewrite forallb_forall in Ht. specialize (Ht a Ha). by apply negb_true_iff, bool_decide_eq_false in Ht.
    - by split_and!. }
  unfold sampleBatches. rewrite !Forall_cons. split_and!; [apply Hok; vm_compute; done | apply Hok; vm_compute; done | constructor].
Qed.

Lemma mirror_follows_witness : Forall batch_ok sampleBatches ∧
  returns (foldM (mirrorBatch sampleKnown) sampleBatches (NewProgramManager true, (newUpdater, NewProgramManager true))) (λ '(a, (_, b)),
    ∀ id, values (pm_store b) !! id = if decide (serviceOf id ∈ knownServices sampleKnown) then dropStreams <$> values (pm_store a) !! id else None).
Proof.
  split; [apply sampleBatches_ok |]. eapply safe_mono; [exact (mirror_follows sampleKnown sampleBatches sampleBatches_ok) |]. intros [a [u b]] [_ Hm]. exact Hm.
Defined.

Example sample_mirrored :
  (λ '(a, (_, b)), (map (λ e, (fst e, p_Name (snd e), map ri_TransportStreamID (p_RelatedItems (snd e)))) (map_to_list (values (pm_store a))),
     map (λ e, (fst e, p_Name (snd e), map ri_TransportStreamID (p_RelatedItems (snd e)))) (map_to_list (values (pm_store b)))))
    <$> foldM (mirrorBatch sampleKnown) sampleBatches (NewProgramManager true, (newUpdater, NewProgramManager true)) =
  Ret ([(40010100007, [78], [Some 5]); (40014100009, [79], [])], [(40010100007, [78], [None])]).
Proof. vm_compute. done. Qed.


Lemma remote_reads_witness : val (remoteProgram (apiProgram (sampleItem 101 7 1000 [78] (Some [japanese]) None))) = val (sampleItem 101 7 1000 [78] (Some [japanese]) None).
Proof.
  destruct (remote_reads (sampleItem 101 7 1000 [78] (Some [japanese]) None)) as (_ & _ & H). destruct H as [_ H]; [constructor |]. apply H; [| done].
  constructor; [| constructor]. constructor; [| constructor]. apply (bool_decide_unpack _). vm_compute. done.
Defined.

(** A sync of the programs of a remote service publishes an update for a program that did not
    change: the reader makes empty slices, the store reads NULL as nil, and
    [reflect.DeepEqual] tells them apart. *)
Definition listed : Item := remoteProgram (apiProgram (sampleItem 101 7 1000 [78] (Some [japanese]) None)).
Example unchanged_is_updated :
  (λ m, map (λ e, match e with EventProgram typ p => (typ, i_ID p) | EventRemove id => (eventTypeRemove, id) end) (pm_eventQueue m)) <$>
    (m ← ReplaceServicePrograms noFault 4 101 0 [Some listed] (NewProgramManager true); ReplaceServicePrograms noFault 4 101 0 [Some listed] (snd (flushEvents m))) =
  Ret [(eventTypeUpdate, 40010100007)].
Proof. vm_compute. done. Qed.

(** So does an upsert of a program with an audio without languages: [descriptorLangs] makes an
    empty slice, which the store keeps and the clone does not. *)
Example languageless_is_updated :
  let p := sampleItem 101 7 1000 [78] (Some [languageless]) None in
  (λ m, length (pm_eventQueue m)) <$> (m ← UpsertPrograms noFault [Some p] (NewProgramManager true); UpsertPrograms noFault [Some p] m) = Ret 2%nat.
Proof. vm_compute. done. Qed.

(** A nil program is skipped by the manager and dereferenced by its store. *)
Example nil_program_panics : UpsertPrograms noFault [None] (NewProgramManager true) = Panic.
Proof. vm_compute. done. Qed.

(** Of two programs with one id, the event has only what the last says; the store has both. *)
Example event_of_the_last :
  (λ m, (map (λ e, match e with EventProgram _ p => i_Name p | _ => [] end) (pm_eventQueue m), map (p_Name ∘ snd) (map_to_list (values (pm_store m))))) <$>
    UpsertPrograms noFault [Some (sampleItem 101 7 1000 [78] None None); Some (sampleItem 101 7 1000 [] None None)] (NewProgramManager true) =
  Ret ([[]], [[78]]).
Proof. vm_compute. done. Qed.

(** What runs at [from] is deleted by a replacement, but listed only if it starts at [from] or
    later: it goes without a removal. *)
Example running_goes_unseen :
  (λ m, (pm_eventQueue m, size (pm_store m))) <$>
    (m ← UpsertPrograms noFault [Some (sampleItem 101 7 1000 [78] None None)] (NewProgramManager true); ReplaceServicePrograms noFault 4 101 2000 [] (snd (flushEvents m))) =
  Ret ([], 0%nat).
Proof. vm_compute. done. Qed.
