(* ===== verification/EventHub.v ===== *)
(** * Events between servers

    The hub of [internal/event/hub.go], the event stream of
    [internal/web/api/events.go] and its reader in [internal/stream/remote/wire.go]:
    what happens on a server is logged, sent to the subscribers that have room,
    written as a JSON array that is never closed, one event per line, and read line
    by line by another server.

    The lock of the hub makes each operation a step.  The encoder and the decoder of
    a line are arguments; a line is a list of bytes. *)

From S2P Require Import Prelude Crc32 AribTables Aribstr Descriptors Psi Events Schedule EventDescriptors Programs Config Services ProgramSync.

(** ** The code: the hub *)

Definition ResourceProgram : string := "program".
Definition ResourceService : string := "service".
Definition ResourceTuner : string := "tuner".
Definition ResourceJob : string := "job".
Definition ResourceJobSchedule : string := "job_schedule".
Definition defaultLogCapacity : Z := 100.
Definition subscriberBuffer : Z := 128.

Section Hub.
Context {D : Type}.

Record Event : Type := MkEvent {
  ev_Resource : string;
  ev_Type : string;
  ev_Data : D;
  ev_Time : Z
}.

(** The channels of the subscribers with what they hold, and those that were closed; [hb_dropped]
    counts [RecordEventDropped]. *)
Record Hub : Type := MkHub {
  hb_capacity : Z;
  hb_log : list Event;
  hb_subscribers : gmap nat (list Event);
  hb_closed : gmap nat (list Event);
  hb_next : nat;
  hb_dropped : Z
}.

Definition NewWithCapacity (capacity : Z) : Hub := MkHub (if capacity <=? 0 then defaultLogCapacity else capacity) [] ∅ ∅ 0 0.
Definition New : Hub := NewWithCapacity defaultLogCapacity.

Definition room (buf : list Event) : bool := len buf <? subscriberBuffer.
Definition offer (e : Event) (buf : list Event) : list Event := if room buf then buf ++ [e] else buf.

(** [raw] is what [json.Marshal] answers. *)
Definition PublishEvent (resource typ : string) (raw : option D) (now : Z) (h : Hub) : Hub :=
  match raw with
  | None => h
  | Some data =>
      let event := MkEvent resource typ data now in
      let log := hb_log h ++ [event] in
      let overflow := len log - hb_capacity h in
      let log := if 0 <? overflow then drop (Z.to_nat overflow) log else log in
      MkHub (hb_capacity h) log (offer event <$> hb_subscribers h) (hb_closed h) (hb_next h)
        (hb_dropped h + Z.of_nat (size (filter (λ e : nat * list Event, room e.2 = false) (hb_subscribers h))))
  end.

Definition Log (h : Hub) : list Event := hb_log h.
Definition SubscriberCount (h : Hub) : Z := Z.of_nat (size (hb_subscribers h)).

Definition Subscribe (h : Hub) : nat * Hub :=
  (hb_next h, MkHub (hb_capacity h) (hb_log h) (<[hb_next h := []]> (hb_subscribers h)) (hb_closed h) (S (hb_next h)) (hb_dropped h)).

(** The function that [Subscribe] returns: only its first call counts, and the channel is closed
    when no event can be sent to it any more. *)
Definition unsubscribe (id : nat) (h : Hub) : Hub :=
  match hb_subscribers h !! id with
  | None => h
  | Some buf => MkHub (hb_capacity h) (hb_log h) (delete id (hb_subscribers h)) (<[id := buf]> (hb_closed h)) (hb_next h) (hb_dropped h)
  end.

(** A receive: nothing yet, an event, or that the channel is closed and empty. *)
Inductive received : Type := Waits | Got (e : Event) | Closed.

Definition receive (id : nat) (h : Hub) : received * Hub :=
  match hb_subscribers h !! id with
  | Some (e :: buf) => (Got e, MkHub (hb_capacity h) (hb_log h) (<[id := buf]> (hb_subscribers h)) (hb_closed h) (hb_next h) (hb_dropped h))
  | Some [] => (Waits, h)
  | None =>
      match hb_closed h !! id with
      | Some (e :: buf) => (Got e, MkHub (hb_capacity h) (hb_log h) (hb_subscribers h) (<[id := buf]> (hb_closed h)) (hb_next h) (hb_dropped h))
      | _ => (Closed, h)
      end
  end.

(** ** What the subscribers get *)

Inductive hubAction : Type :=
| APublish (resource typ : string) (raw : option D) (now : Z)
| ASubscribe
| AUnsubscribe (id : nat)
| AReceive (id : nat).

(** The hub after an action, with what each subscriber has received. *)
Definition hubStep (st : Hub * gmap nat (list Event)) (a : hubAction) : Hub * gmap nat (list Event) :=
  let '(h, got) := st in
  match a with
  | APublish resource typ raw now => (PublishEvent resource typ raw now h, got)
  | ASubscribe => (snd (Subscribe h), got)
  | AUnsubscribe id => (unsubscribe id h, got)
  | AReceive id => match receive id h with (Got e, h) => (h, <[id := default [] (got !! id) ++ [e]]> got) | (_, h) => (h, got) end
  end.

Definition hubRun (capacity : Z) (actions : list hubAction) : Hub * gmap nat (list Event) := fold_left hubStep actions (NewWithCapacity capacity, ∅).

(** The events published, and those published while a subscription was open: [st] is the number of
    subscriptions so far and those that are open. *)
Definition publishedOf (a : hubAction) : list Event := match a with APublish resource typ (Some data) now => [MkEvent resource typ data now] | _ => [] end.
Definition published (actions : list hubAction) : list Event := flat_map publishedOf actions.

Definition meantStep (id : nat) (st : nat * bool * list Event) (a : hubAction) : nat * bool * list Event :=
  let '(n, open, meant) := st in
  match a with
  | APublish _ _ _ _ => (n, open, if open : bool then meant ++ publishedOf a else meant)
  | ASubscribe => (S n, open || bool_decide (n = id), meant)
  | AUnsubscribe id' => (n, open && negb (bool_decide (id' = id)), meant)
  | AReceive _ => st
  end.
Definition meantFor (id : nat) (actions : list hubAction) : list Event := snd (fold_left (meantStep id) actions (0%nat, false, [])).

(** What is in a channel. *)
Definition waiting (h : Hub) (id : nat) : list Event := match hb_subscribers h !! id with Some buf => buf | None => default [] (hb_closed h !! id) end.

(** The events published while a subscription was open, those that found fewer than 128 in
    its channel and those that found 128. *)
Definition isOpen (id : nat) (before : list hubAction) : bool := (fold_left (meantStep id) before (0%nat, false, [])).1.2.
Definition isFull (capacity : Z) (id : nat) (before : list hubAction) : bool := 128 <=? len (waiting (hubRun capacity before).1 id).
Definition found (full : bool) (capacity : Z) (id : nat) (actions : list hubAction) : list Event :=
  flat_map (λ k, if isOpen id (take k actions) && Bool.eqb (isFull capacity id (take k actions)) full then from_option publishedOf [] (actions !! k) else [])
    (seq 0 (length actions)).
Definition takenBy : Z → nat → list hubAction → list Event := found false.
Definition lostBy : Z → nat → list hubAction → list Event := found true.

Definition lastn {A} (n : Z) (l : list A) : list A := drop (Z.to_nat (len l - n)) l.

Record hub_ok (capacity : Z) (actions : list hubAction) (st : Hub * gmap nat (list Event)) : Prop := {
  hk_capacity : hb_capacity st.1 = (if capacity <=? 0 then defaultLogCapacity else capacity);
  hk_log : hb_log st.1 = lastn (hb_capacity st.1) (published actions);
  hk_next id : (fold_left (meantStep id) actions (0%nat, false, [])).1.1 = hb_next st.1;
  hk_open id : is_Some (hb_subscribers st.1 !! id) ↔ (fold_left (meantStep id) actions (0%nat, false, [])).1.2 = true;
  hk_fresh id : (hb_next st.1 ≤ id)%nat → hb_subscribers st.1 !! id = None ∧ hb_closed st.1 !! id = None ∧ st.2 !! id = None;
  hk_room id : len (waiting st.1 id) ≤ subscriberBuffer;
  hk_sub id : sublist (default [] (st.2 !! id) ++ waiting st.1 id) (meantFor id actions);
  hk_dropped : 0 ≤ hb_dropped st.1;
  hk_all id : hb_dropped st.1 = 0 → default [] (st.2 !! id) ++ waiting st.1 id = meantFor id actions
}.

Lemma lastn_snoc n (l : list Event) e : 0 < n → lastn n (l ++ [e]) =
  let log := lastn n l ++ [e] in if 0 <? len log - n then drop (Z.to_nat (len log - n)) log else log.
Proof.
  intros Hn. cbv zeta. unfold lastn, len. rewrite !length_app, !length_drop. cbn [length].
  destruct (Z.ltb_spec 0 (Z.of_nat (length l - Z.to_nat (Z.of_nat (length l) - n) + 1) - n)) as [H | H].
  - replace (Z.to_nat (Z.of_nat (length l - Z.to_nat (Z.of_nat (length l) - n) + 1) - n)) with 1%nat by lia.
    replace (Z.to_nat (Z.of_nat (length l + 1) - n)) with (S (Z.to_nat (Z.of_nat (length l) - n))) by lia.
    rewrite <- drop_app_le by lia. rewrite drop_drop. f_equal. lia.
  - replace (Z.to_nat (Z.of_nat (length l) - n)) with 0%nat by lia. replace (Z.to_nat (Z.of_nat (length l + 1) - n)) with 0%nat by lia. by rewrite !drop_0.
Qed.

Lemma published_snoc actions a : published (actions ++ [a]) = published actions ++ publishedOf a.
Proof. unfold published. rewrite flat_map_app. cbn. by rewrite app_nil_r. Qed.

Lemma offer_room e buf : len buf ≤ subscriberBuffer → len (offer e buf) ≤ subscriberBuffer.
Proof. unfold offer, room. destruct (Z.ltb_spec (len buf) subscriberBuffer); [| done]. unfold len in *. rewrite length_app. cbn. lia. Qed.

Lemma hub_publish capacity actions resource typ raw now h got : hub_ok capacity actions (h, got) →
  hub_ok capacity (actions ++ [APublish resource typ raw now]) (PublishEvent resource typ raw now h, got).
Proof.
  intros [H1 H2 H3 H4 H5 H6 H7 H8 H9]. cbn [fst snd] in *.
  assert (∀ id, fold_left (meantStep id) (actions ++ [APublish resource typ raw now]) (0%nat, false, []) =
    meantStep id (fold_left (meantStep id) actions (0%nat, false, [])) (APublish resource typ raw now)) as Hf by (intros id; rewrite fold_left_app; reflexivity).
  unfold meantFor in *. destruct raw as [data |]; cbn [PublishEvent].
  2:{ assert (∀ id, fold_left (meantStep id) (actions ++ [APublish resource typ None now]) (0%nat, false, []) = fold_left (meantStep id) actions (0%nat, false, [])) as Hsame.
      { intros id. rewrite Hf. destruct (fold_left (meantStep id) actions (0%nat, false, [])) as [[n []] meant]; cbn; by rewrite ?app_nil_r. }
      constructor; unfold meantFor; cbn [fst snd]; try done; intros *; rewrite ?Hsame, ?published_snoc; cbn [publishedOf]; rewrite ?app_nil_r; auto. }
  set (e := MkEvent resource typ data now).
  set (h' := MkHub (hb_capacity h) (let log := hb_log h ++ [e] in if 0 <? len log - hb_capacity h then drop (Z.to_nat (len log - hb_capacity h)) log else log)
    (offer e <$> hb_subscribers h) (hb_closed h) (hb_next h) (hb_dropped h + Z.of_nat (size (filter (λ e : nat * list Event, room e.2 = false) (hb_subscribers h))))).
  change (hub_ok capacity (actions ++ [APublish resource typ (Some data) now]) (h', got)).
  assert (∀ id, waiting h' id = match hb_subscribers h !! id with Some buf => offer e buf | None => waiting h id end) as Hw.
  { intros id. unfold waiting, h'. cbn [hb_subscribers hb_closed]. rewrite lookup_fmap. by destruct (hb_subscribers h !! id). }
  assert (∀ id, (fold_left (meantStep id) actions (0%nat, false, [])).1.2 = true ↔ is_Some (hb_subscribers h !! id)) as Hopen by (intros id; by rewrite H4).
  constructor; cbn [fst snd]; try unfold meantFor.
  - done.
  - rewrite published_snoc. cbn [publishedOf]. fold e. unfold h' at 2. cbn [hb_capacity]. rewrite lastn_snoc; [by rewrite <- H2 |]. rewrite H1. unfold defaultLogCapacity. destruct (Z.leb_spec capacity 0); lia.
  - intros id. rewrite Hf. specialize (H3 id). by destruct (fold_left (meantStep id) actions (0%nat, false, [])) as [[n o] meant].
  - intros id. rewrite Hf. specialize (H4 id). unfold h'. cbn [hb_subscribers]. rewrite lookup_fmap, fmap_is_Some, H4. by destruct (fold_left (meantStep id) actions (0%nat, false, [])) as [[n o] meant].
  - intros id Hid. destruct (H5 id Hid) as (E1 & E2 & E3). unfold h'. cbn [hb_subscribers hb_closed]. rewrite lookup_fmap, E1. done.
  - intros id. rewrite Hw. specialize (H6 id). unfold waiting in *. destruct (hb_subscribers h !! id); [by apply offer_room | done].
  - intros id. rewrite Hw, Hf. specialize (H7 id). specialize (Hopen id). unfold waiting in *. destruct (fold_left (meantStep id) actions (0%nat, false, [])) as [[n o] meant]. cbn in Hopen, H7 |- *.
    destruct (hb_subscribers h !! id) as [buf |].
    + replace o with true by (symmetry; apply Hopen; eauto). unfold offer. destruct (room buf); [rewrite app_assoc; by apply sublist_app | by apply sublist_inserts_r].
    + destruct o; [by destruct (proj1 Hopen eq_refl) | done].
  - unfold h'. cbn [hb_dropped]. lia.
  - intros id Hd. rewrite Hw, Hf. unfold h' in Hd. cbn [hb_dropped] in Hd. specialize (H9 id ltac:(lia)). specialize (Hopen id). unfold waiting in *.
    destruct (fold_left (meantStep id) actions (0%nat, false, [])) as [[n o] meant]. cbn in Hopen, H9 |- *. destruct (hb_subscribers h !! id) as [buf |] eqn:Eb.
    + replace o with true by (symmetry; apply Hopen; eauto). unfold offer. destruct (room buf) eqn:Er; [by rewrite app_assoc, H9 |]. exfalso.
      assert (size (filter (λ e : nat * list Event, room e.2 = false) (hb_subscribers h)) = 0%nat) as Hz by lia. apply map_size_empty_inv in Hz.
      assert (filter (λ e : nat * list Event, room e.2 = false) (hb_subscribers h) !! id = Some buf) as Hin by (by apply map_lookup_filter_Some_2). by rewrite Hz, lookup_empty in Hin.
    + destruct o; [by destruct (proj1 Hopen eq_refl) | done].
Qed.

Lemma hub_subscribe capacity actions h got : hub_ok capacity actions (h, got) → hub_ok capacity (actions ++ [ASubscribe]) (snd (Subscribe h), got).
Proof.
  intros [H1 H2 H3 H4 H5 H6 H7 H8 H9]. cbn [fst snd] in *. set (h' := snd (Subscribe h)).
  assert (∀ id, fold_left (meantStep id) (actions ++ [ASubscribe]) (0%nat, false, []) =
    (let '(n, open, meant) := fold_left (meantStep id) actions (0%nat, false, []) in (S n, open || bool_decide (n = id), meant))) as Hf by (intros id; rewrite fold_left_app; reflexivity).
  destruct (H5 (hb_next h) (Nat.le_refl _)) as (E1 & E2 & E3).
  assert (∀ id, waiting h' id = waiting h id) as Hw.
  { intros id. unfold waiting, h'. cbn [Subscribe snd hb_subscribers hb_closed]. destruct (decide (hb_next h = id)) as [<- | Hne]; [by rewrite lookup_insert_eq, E1, E2 | by rewrite lookup_insert_ne]. }
  assert (∀ id, meantFor id (actions ++ [ASubscribe]) = meantFor id actions) as Hm.
  { intros id. unfold meantFor. rewrite Hf. by destruct (fold_left (meantStep id) actions (0%nat, false, [])) as [[n o] meant]. }
  constructor; cbn [fst snd]; try (intros id; rewrite ?Hw, ?Hm); auto.
  - rewrite published_snoc. cbn [publishedOf]. by rewrite app_nil_r.
  - rewrite Hf. specialize (H3 id). destruct (fold_left (meantStep id) actions (0%nat, false, [])) as [[n o] meant]. cbn in *. by rewrite H3.
  - rewrite Hf. specialize (H3 id). specialize (H4 id). destruct (fold_left (meantStep id) actions (0%nat, false, [])) as [[n o] meant]. unfold h'. cbn in *. subst n.
    rewrite lookup_insert_is_Some', orb_true_iff, bool_decide_eq_true, <- H4. tauto.
  - unfold h'. cbn. intros Hid. destruct (H5 id) as (? & ? & ?); [lia |]. by rewrite lookup_insert_ne by lia.
Qed.

Lemma hub_unsubscribe capacity actions h got id0 : hub_ok capacity actions (h, got) → hub_ok capacity (actions ++ [AUnsubscribe id0]) (unsubscribe id0 h, got).
Proof.
  intros [H1 H2 H3 H4 H5 H6 H7 H8 H9]. cbn [fst snd] in *. set (h' := unsubscribe id0 h).
  assert (∀ id, fold_left (meantStep id) (actions ++ [AUnsubscribe id0]) (0%nat, false, []) =
    (let '(n, open, meant) := fold_left (meantStep id) actions (0%nat, false, []) in (n, open && negb (bool_decide (id0 = id)), meant))) as Hf by (intros id; rewrite fold_left_app; reflexivity).
  assert (∀ id, hb_subscribers h' !! id = if decide (id0 = id) then None else hb_subscribers h !! id) as Hs.
  { intros id. unfold h', unsubscribe. destruct (hb_subscribers h !! id0) eqn:E; cbn [hb_subscribers].
    - case_decide as Hd; [rewrite Hd; apply lookup_delete_eq | by rewrite lookup_delete_ne].
    - by case_decide as Hd; [rewrite <- Hd |]. }
  assert (hb_capacity h' = hb_capacity h ∧ hb_log h' = hb_log h ∧ hb_next h' = hb_next h ∧ hb_dropped h' = hb_dropped h) as (F1 & F2 & F3 & F4) by (unfold h', unsubscribe; by destruct (hb_subscribers h !! id0)).
  assert (∀ id, waiting h' id = waiting h id) as Hw.
  { intros id. unfold waiting. rewrite Hs. unfold h', unsubscribe. destruct (hb_subscribers h !! id0) as [buf |] eqn:E; cbn [hb_closed].
    - case_decide as Hd; [rewrite <- Hd, E, lookup_insert_eq; done | by rewrite lookup_insert_ne].
    - case_decide as Hd; [by rewrite <- Hd, E | done]. }
  assert (∀ id, meantFor id (actions ++ [AUnsubscribe id0]) = meantFor id actions) as Hm.
  { intros id. unfold meantFor. rewrite Hf. by destruct (fold_left (meantStep id) actions (0%nat, false, [])) as [[n o] meant]. }
  constructor; cbn [fst snd]; rewrite ?F1, ?F2, ?F3, ?F4; try (intros id; rewrite ?Hw, ?Hm); auto.
  - rewrite published_snoc. cbn [publishedOf]. by rewrite app_nil_r.
  - rewrite Hf. specialize (H3 id). by destruct (fold_left (meantStep id) actions (0%nat, false, [])) as [[n o] meant].
  - rewrite Hf, Hs. specialize (H4 id). destruct (fold_left (meantStep id) actions (0%nat, false, [])) as [[n o] meant]. cbn in *. case_decide as Hd.
    + rewrite bool_decide_eq_true_2 by done. rewrite andb_false_r. split; [by intros [? ?] | done].
    + rewrite bool_decide_eq_false_2 by done. by rewrite andb_true_r.
  - intros Hid. destruct (H5 id Hid) as (E1 & E2 & E3). rewrite Hs, E1. split; [by case_decide |]. split; [| done]. unfold h', unsubscribe. destruct (hb_subscribers h !! id0) eqn:E; cbn; [| done].
    rewrite lookup_insert_ne; [done |]. intros ->. congruence.
Qed.

Lemma hub_receive capacity actions h got id0 : hub_ok capacity actions (h, got) → hub_ok capacity (actions ++ [AReceive id0]) (hubStep (h, got) (AReceive id0)).
Proof.
  intros [H1 H2 H3 H4 H5 H6 H7 H8 H9]. cbn [fst snd] in *.
  assert (∀ id, fold_left (meantStep id) (actions ++ [AReceive id0]) (0%nat, false, []) = fold_left (meantStep id) actions (0%nat, false, [])) as Hf.
  { intros id. rewrite fold_left_app. cbn. by destruct (fold_left (meantStep id) actions (0%nat, false, [])) as [[n o] meant]. }
  assert (∀ id, meantFor id (actions ++ [AReceive id0]) = meantFor id actions) as Hm by (intros id; unfold meantFor; by rewrite Hf).
  assert (published (actions ++ [AReceive id0]) = published actions) as Hp by (rewrite published_snoc; cbn; by rewrite app_nil_r).
  assert (∀ h' e, hb_capacity h' = hb_capacity h → hb_log h' = hb_log h → hb_next h' = hb_next h → hb_dropped h' = hb_dropped h → (id0 < hb_next h)%nat →
    (∀ id, is_Some (hb_subscribers h' !! id) ↔ is_Some (hb_subscribers h !! id)) → (∀ id, (hb_next h ≤ id)%nat → hb_subscribers h' !! id = None ∧ hb_closed h' !! id = None) →
    waiting h id0 = e :: waiting h' id0 → (∀ id, id ≠ id0 → waiting h' id = waiting h id) → hub_ok capacity (actions ++ [AReceive id0]) (h', <[id0 := default [] (got !! id0) ++ [e]]> got)) as Hgo.
  { intros h' e F1 F2 F3 F4 Hlt Hsub Hfresh Hw0 Hw.
    assert (∀ id, default [] (<[id0 := default [] (got !! id0) ++ [e]]> got !! id) ++ waiting h' id = default [] (got !! id) ++ waiting h id) as Hsame.
    { intros id. destruct (decide (id = id0)) as [-> | Hne]; [rewrite lookup_insert_eq; cbn; by rewrite <- app_assoc, Hw0 | by rewrite lookup_insert_ne, Hw]. }
    constructor; cbn [fst snd]; rewrite ?F1, ?F2, ?F3, ?F4, ?Hp; try (intros id; rewrite ?Hm, ?Hf, ?Hsub, ?Hsame); auto.
    - intros Hid. destruct (Hfresh id Hid) as [? ?]. split; [done |]. split; [done |]. rewrite lookup_insert_ne by lia. by destruct (H5 id Hid) as (_ & _ & ?).
    - destruct (decide (id = id0)) as [-> | Hne]; [| by rewrite Hw]. specialize (H6 id0). rewrite Hw0 in H6. unfold len in *. cbn in H6. lia. }
  assert (hub_ok capacity (actions ++ [AReceive id0]) (h, got)) as Hsame.
  { constructor; cbn [fst snd]; rewrite ?Hp; try (intros id; rewrite ?Hm, ?Hf); auto. }
  assert (∀ buf, hb_subscribers h !! id0 = Some buf ∨ hb_closed h !! id0 = Some buf → (id0 < hb_next h)%nat) as Hlt.
  { intros buf Hbuf. destruct (Nat.lt_ge_cases id0 (hb_next h)) as [? | Hge]; [done |]. destruct (H5 id0 Hge) as (? & ? & _). by destruct Hbuf; congruence. }
  unfold hubStep, receive. destruct (hb_subscribers h !! id0) as [[| e buf] |] eqn:E; [done | |].
  - apply Hgo; cbn; try done; [eauto | | | |].
    + intros id. rewrite lookup_insert_is_Some'. split; [intros [<- | ?]; [by rewrite E | done] | by right].
    + intros id Hid. destruct (H5 id Hid) as (? & ? & _). rewrite lookup_insert_ne; [done |]. intros <-. congruence.
    + unfold waiting. cbn. by rewrite lookup_insert_eq, E.
    + intros id Hne. unfold waiting. cbn. by rewrite lookup_insert_ne.
  - destruct (hb_closed h !! id0) as [[| e buf] |] eqn:Ec; [done | | done]. apply Hgo; cbn; try done; [eauto | | |].
    + intros id Hid. destruct (H5 id Hid) as (? & ? & _). rewrite lookup_insert_ne; [done |]. intros <-. congruence.
    + unfold waiting. cbn. by rewrite lookup_insert_eq, E, Ec.
    + intros id Hne. unfold waiting. cbn. by rewrite lookup_insert_ne.
Qed.

Lemma hubRun_ok capacity actions : hub_ok capacity actions (hubRun capacity actions).
Proof.
  unfold hubRun. induction actions as [| a actions IH] using rev_ind.
  - constructor; cbn; try done; try (by unfold lastn; rewrite drop_nil); intros id; by rewrite ?lookup_empty.
  - rewrite fold_left_app. cbn [fold_left]. destruct (fold_left hubStep actions (NewWithCapacity capacity, ∅)) as [h got].
    destruct a as [resource typ raw now | | id | id]; [by apply hub_publish | by apply hub_subscribe | by apply hub_unsubscribe | by apply hub_receive].
Qed.

Lemma hubRun_snoc capacity actions a : hubRun capacity (actions ++ [a]) = hubStep (hubRun capacity actions) a.
Proof. unfold hubRun. by rewrite fold_left_app. Qed.

Lemma found_snoc full capacity id actions a : found full capacity id (actions ++ [a]) =
  found full capacity id actions ++ if isOpen id actions && Bool.eqb (isFull capacity id actions) full then publishedOf a else [].
Proof.
  unfold found. rewrite length_app, seq_app, flat_map_app. f_equal.
  - rewrite !flat_map_concat_map. f_equal. apply map_ext_in. intros k [_ Hk]%in_seq. cbn in Hk. by rewrite take_app_le, lookup_app_l by lia.
  - cbn [length seq flat_map plus]. by rewrite app_nil_r, take_app_length, lookup_app_r, Nat.sub_diag by lia.
Qed.

Lemma isOpen_subscribed capacity actions id : isOpen id actions = bool_decide (is_Some (hb_subscribers (hubRun capacity actions).1 !! id)).
Proof.
  pose proof (hk_open _ _ _ (hubRun_ok capacity actions) id) as H. unfold isOpen. symmetry.
  destruct (fold_left (meantStep id) actions (0%nat, false, [])).1.2; [by apply bool_decide_eq_true, H | apply bool_decide_eq_false; by intros ?%H].
Qed.

Lemma room_full capacity actions id buf : hb_subscribers (hubRun capacity actions).1 !! id = Some buf → room buf = negb (isFull capacity id actions).
Proof. intros E. unfold room, isFull, waiting. rewrite E. apply Z.ltb_antisym. Qed.

(** What was received and what waits, after one more action. *)
Lemma hubStep_content capacity actions st a id : hub_ok capacity actions st →
  default [] ((hubStep st a).2 !! id) ++ waiting (hubStep st a).1 id =
  (default [] (st.2 !! id) ++ waiting st.1 id) ++ match hb_subscribers st.1 !! id with Some buf => if room buf then publishedOf a else [] | None => [] end.
Proof.
  intros Hk. destruct st as [h got]. destruct a as [resource typ raw now | | id0 | id0]; cbn [hubStep publishedOf fst snd].
  - destruct raw as [data |]; cbn [PublishEvent]; [| destruct (hb_subscribers h !! id) as [buf |]; [destruct (room buf) |]; by rewrite app_nil_r].
    cbv zeta. rewrite <- app_assoc. f_equal. unfold waiting. cbn [hb_subscribers hb_closed]. rewrite lookup_fmap.
    destruct (hb_subscribers h !! id) as [buf |]; cbn [fmap option_fmap option_map]; [| by rewrite app_nil_r].
    unfold offer. destruct (room buf); by rewrite ?app_nil_r.
  - pose proof (hk_fresh _ _ _ Hk (hb_next h) (Nat.le_refl _)) as (E1 & E2 & E3). cbn [fst snd] in *. unfold waiting. cbn [Subscribe snd hb_subscribers hb_closed].
    assert (∀ buf : list Event, (if room buf then [] else []) = @nil Event) as Hnil by (intros buf; by destruct (room buf)).
    destruct (decide (hb_next h = id)) as [<- | Hne]; [by rewrite lookup_insert_eq, E1, E2, E3 |].
    rewrite lookup_insert_ne by done. destruct (hb_subscribers h !! id); by rewrite ?Hnil, app_nil_r.
  - assert (∀ buf : list Event, (if room buf then [] else []) = @nil Event) as Hnil by (intros buf; by destruct (room buf)).
    transitivity (default [] (got !! id) ++ waiting h id); [| destruct (hb_subscribers h !! id); by rewrite ?Hnil, app_nil_r]. f_equal.
    unfold waiting, unsubscribe. destruct (hb_subscribers h !! id0) as [buf |] eqn:E; [| done]. cbn [hb_subscribers hb_closed].
    destruct (decide (id0 = id)) as [<- | Hne]; [by rewrite lookup_delete_eq, lookup_insert_eq, E | by rewrite lookup_delete_ne, lookup_insert_ne].
  - assert (∀ buf : list Event, (if room buf then [] else []) = @nil Event) as Hnil by (intros buf; by destruct (room buf)).
    transitivity (default [] (got !! id) ++ waiting h id); [| destruct (hb_subscribers h !! id); by rewrite ?Hnil, app_nil_r].
    unfold receive. destruct (hb_subscribers h !! id0) as [[| e buf] |] eqn:E; [done | |].
    + cbn [fst snd]. unfold waiting. cbn [hb_subscribers hb_closed]. destruct (decide (id0 = id)) as [<- | Hne].
      * rewrite !lookup_insert_eq, E. cbn [default from_option id]. by rewrite <- app_assoc.
      * by rewrite !lookup_insert_ne.
    + destruct (hb_closed h !! id0) as [[| e buf] |] eqn:Ec; [done | | done]. cbn [fst snd]. unfold waiting. cbn [hb_subscribers hb_closed].
      destruct (decide (id0 = id)) as [<- | Hne].
      * rewrite !lookup_insert_eq, E, Ec. cbn [default from_option id]. by rewrite <- app_assoc.
      * by rewrite !lookup_insert_ne.
Qed.

Lemma hubRun_taken capacity actions id : default [] ((hubRun capacity actions).2 !! id) ++ waiting (hubRun capacity actions).1 id = takenBy capacity id actions.
Proof.
  induction actions as [| a actions IH] using rev_ind; [done |]. rewrite hubRun_snoc, (hubStep_content capacity actions) by apply hubRun_ok.
  rewrite IH. unfold takenBy. rewrite found_snoc. f_equal. rewrite (isOpen_subscribed capacity). destruct (hb_subscribers _ !! id) as [buf |] eqn:E; [| done].
  rewrite (room_full capacity actions id) by done. cbn. by destruct (isFull capacity id actions).
Qed.

(** What was dropped is counted for each channel. *)
Lemma full_channels capacity actions : Z.of_nat (size (filter (λ e : nat * list Event, room e.2 = false) (hb_subscribers (hubRun capacity actions).1))) =
  len (filter (λ id, isOpen id actions && isFull capacity id actions = true) (seq 0 (hb_next (hubRun capacity actions).1))).
Proof.
  set (h := (hubRun capacity actions).1). set (m := filter (λ e : nat * list Event, room e.2 = false) (hb_subscribers h)).
  unfold len. f_equal. rewrite <- length_map_to_list, <- (length_fmap fst). apply Permutation_length, NoDup_Permutation.
  - apply NoDup_fst_map_to_list.
  - apply NoDup_filter, NoDup_ListNoDup, seq_NoDup.
  - intros id. rewrite list_elem_of_filter, elem_of_seq, andb_true_iff, (isOpen_subscribed capacity), bool_decide_eq_true. fold h. split.
    + intros ([id' buf] & -> & Hin%elem_of_map_to_list)%list_elem_of_fmap. apply map_lookup_filter_Some in Hin as [E Hr]. cbn [fst snd] in *.
      rewrite (room_full capacity actions id') in Hr by done. apply negb_false_iff in Hr. split; [by split; [exists buf |] |].
      destruct (Nat.lt_ge_cases id' (hb_next h)) as [? | Hge]; [lia |]. destruct (hk_fresh _ _ _ (hubRun_ok capacity actions) id' Hge) as [E' _]. fold h in E'. congruence.
    + intros [[[buf E] Hf] _]. apply list_elem_of_fmap. exists (id, buf). split; [done |]. apply elem_of_map_to_list, map_lookup_filter_Some. split; [done |]. cbn [snd].
      rewrite (room_full capacity actions id) by done. by rewrite Hf.
Qed.

Lemma flat_map_snoc_len {A B} (f g : A → list B) (P : A → bool) l : (∀ x, x ∈ l → len (g x) = len (f x) + if P x then 1 else 0) →
  len (flat_map g l) = len (flat_map f l) + len (filter (λ x, P x = true) l).
Proof.
  induction l as [| x l IH]; intros Hx; [done |]. cbn [flat_map]. rewrite !len_app, IH, (Hx x) by (by left || (intros; apply Hx; by right)).
  rewrite filter_cons. destruct (P x); [rewrite decide_True, len_cons by done | rewrite decide_False by done]; lia.
Qed.

Lemma lost_unborn capacity actions id : (hb_next (hubRun capacity actions).1 ≤ id)%nat → lostBy capacity id actions = [].
Proof.
  intros Hid. unfold lostBy. induction actions as [| a actions IH] using rev_ind; [done |]. rewrite found_snoc, (isOpen_subscribed capacity).
  assert (hb_next (hubRun capacity actions).1 ≤ hb_next (hubRun capacity (actions ++ [a])).1)%nat as Hle.
  { rewrite hubRun_snoc. destruct (hubRun capacity actions) as [h got]. destruct a as [? ? [|] ? | | id0 | id0]; cbn [hubStep fst snd PublishEvent Subscribe hb_next]; try lia.
    - unfold unsubscribe. destruct (hb_subscribers h !! id0); cbn; lia.
    - unfold receive. destruct (hb_subscribers h !! id0) as [[|] |]; cbn; try lia. destruct (hb_closed h !! id0) as [[|] |]; cbn; lia. }
  rewrite IH by lia. destruct (hk_fresh _ _ _ (hubRun_ok capacity actions) id ltac:(lia)) as [E _]. rewrite E. by rewrite bool_decide_eq_false_2 by (by intros [? ?]).
Qed.

Lemma hubRun_lost capacity actions : hb_dropped (hubRun capacity actions).1 = len (flat_map (λ id, lostBy capacity id actions) (seq 0 (hb_next (hubRun capacity actions).1))).
Proof.
  induction actions as [| a actions IH] using rev_ind; [done |].
  assert (∀ n, len (flat_map (λ id, lostBy capacity id (actions ++ [a])) (seq 0 n)) = len (flat_map (λ id, lostBy capacity id actions) (seq 0 n)) +
    len (filter (λ id, isOpen id actions && isFull capacity id actions && negb (bool_decide (publishedOf a = [])) = true) (seq 0 n))) as Hsum.
  { intros n. apply flat_map_snoc_len. intros id _. unfold lostBy. rewrite found_snoc, len_app. f_equal.
    destruct (isOpen id actions), (isFull capacity id actions); cbn; try done. destruct a as [? ? [|] ? | | |]; cbn; done. }
  assert (∀ n, publishedOf a = [] → len (flat_map (λ id, lostBy capacity id (actions ++ [a])) (seq 0 n)) = len (flat_map (λ id, lostBy capacity id actions) (seq 0 n))) as Hquiet.
  { intros n Ha. rewrite Hsum. rewrite bool_decide_eq_true_2 by done. rewrite (list_filter_iff _ (λ _, False)) by (intros id; rewrite andb_false_r; done).
    assert (filter (λ _ : nat, False) (seq 0 n) = []) as -> by (by induction (seq 0 n)). rewrite len_nil. lia. }
  rewrite hubRun_snoc. destruct (hubRun capacity actions) as [h got] eqn:Eh. destruct a as [resource typ raw now | | id0 | id0]; cbn [hubStep fst snd] in *.
  - destruct raw as [data |]; cbn [PublishEvent hb_dropped hb_next] in *; [| by rewrite Hquiet].
    pose proof (full_channels capacity actions) as Hf. rewrite Eh in Hf. cbn [fst] in Hf. rewrite Hsum, <- IH, Hf. do 2 f_equal. apply list_filter_iff.
    intros id. by rewrite andb_true_r.
  - cbn [Subscribe snd hb_dropped hb_next]. rewrite IH, seq_S, flat_map_app, len_app. cbn [flat_map plus]. rewrite app_nil_r.
    rewrite Hquiet by done. unfold lostBy in *. rewrite found_snoc.
    pose proof (lost_unborn capacity actions (hb_next h)) as Hn. rewrite Eh in Hn. unfold lostBy in Hn. rewrite Hn by (cbn; lia).
    cbn [publishedOf app]. destruct (_ && _); rewrite len_nil; lia.
  - rewrite Hquiet by done. unfold unsubscribe. by destruct (hb_subscribers h !! id0).
  - rewrite Hquiet by done. unfold receive. destruct (hb_subscribers h !! id0) as [[|] |]; [done | done |]. by destruct (hb_closed h !! id0) as [[|] |].
Qed.

(** C25 (invariant): after any calls, the log of the hub is the last events published, as many
    as its capacity. A subscriber has received, and finds in its channel, exactly the
    events that were published while its subscription was open and found fewer than
    128 in its channel, in their order; those that found 128 were dropped, and the
    hub counted each of them for each such channel, and no other. A channel never
    holds more than 128, and when no drop was counted, none of the events meant for a
    subscriber is missing. *)
Theorem hub_delivers capacity actions h got : hubRun capacity actions = (h, got) →
  Log h = lastn (if capacity <=? 0 then defaultLogCapacity else capacity) (published actions) ∧
  hb_dropped h = len (flat_map (λ id, lostBy capacity id actions) (seq 0 (hb_next h))) ∧
  ∀ id, len (waiting h id) ≤ 128 ∧ default [] (got !! id) ++ waiting h id = takenBy capacity id actions ∧
    sublist (default [] (got !! id) ++ waiting h id) (meantFor id actions) ∧
    (hb_dropped h = 0 → default [] (got !! id) ++ waiting h id = meantFor id actions).
Proof.
  intros E. destruct (hubRun_ok capacity actions) as [H1 H2 _ _ _ H6 H7 _ H9]. pose proof (hubRun_lost capacity actions) as Hl.
  rewrite E in *. cbn [fst snd] in *. split; [unfold Log; by rewrite H2, H1 |]. split; [done |].
  intros id. pose proof (hubRun_taken capacity actions id) as Ht. rewrite E in Ht. split_and!; auto.
Qed.

End Hub.

(** ** The code: the stream and its reader *)

(** The stream's parameters: a resource and a type to keep. *)
Definition matchesEventStreamParams {D} (event : @Event D) (resource typ : option string) : bool :=
  bool_decide (default (ev_Resource event) resource = ev_Resource event) && bool_decide (default (ev_Type event) typ = ev_Type event).

Section Stream.
Context {D A : Type}.

(** [json.Marshal] of the data of an event, [json.Unmarshal] of that into the data of an event
    of the API, which fails if it is not an object, and [json.Marshal] of the latter
    event. *)
Variable marshalData : D → option (list Z).
Variable unmarshalData : list Z → option A.
Variable marshal : @Event A → option (list Z).

Definition apiEventData (payload : D) : option A := raw ← marshalData payload; unmarshalData raw.

Definition apiEvent (event : @Event D) : option (@Event A) :=
  data ← apiEventData (ev_Data event); Some (MkEvent (ev_Resource event) (ev_Type event) data (ev_Time event)).

Definition newline : Z := 10.
Definition comma : Z := 44.

(** [writeOpenJSONArrayEvent]: an event that does not encode ends the stream with an error. *)
Definition writeOpenJSONArrayEvent (event : @Event A) (out : list Z) : outcome (list Z) :=
  match marshal event with None => Err (ErrNew "json") | Some data => Ret (out ++ data ++ [newline; comma; newline]) end.

(** [writeEventsOpenJSONArrayStream] for the events that were received: an event whose data
    is not an object, and one that the parameters exclude, are passed over. *)
Definition writeReceived (resource typ : option string) (out : list Z) (event : @Event D) : outcome (list Z) :=
  match apiEvent event with
  | None => Ret out
  | Some event => if negb (matchesEventStreamParams event resource typ) then Ret out else writeOpenJSONArrayEvent event out
  end.
Definition writeEventsOpenJSONArrayStream (resource typ : option string) (events : list (@Event D)) : outcome (list Z) :=
  foldM (writeReceived resource typ) events [91; newline].

(** *** The reader *)

(** The encodings of [unicode.IsSpace]. *)
Definition spaces : list (list Z) :=
  [[9]; [10]; [11]; [12]; [13]; [32]; [0xc2; 0x85]; [0xc2; 0xa0]; [0xe1; 0x9a; 0x80]; [0xe2; 0x80; 0xa8]; [0xe2; 0x80; 0xa9]; [0xe2; 0x80; 0xaf]; [0xe2; 0x81; 0x9f]; [0xe3; 0x80; 0x80]] ++
  map (λ b, [0xe2; 0x80; Z.of_nat b]) (seq 128 11).

Fixpoint stripPrefix (p l : list Z) : option (list Z) :=
  match p, l with
  | [], _ => Some l
  | x :: p, y :: l => if x =? y then stripPrefix p l else None
  | _ :: _, [] => None
  end.

(** The fuel is the length of the line: each step drops a byte at least. *)
Fixpoint trimLeft (spaces : list (list Z)) (fuel : nat) (l : list Z) : list Z :=
  match fuel with
  | O => l
  | S fuel => match omap (λ p, stripPrefix p l) spaces with l :: _ => trimLeft spaces fuel l | [] => l end
  end.
Definition TrimSpace (l : list Z) : list Z :=
  let l := trimLeft spaces (length l) l in rev (trimLeft (map (@rev Z) spaces) (length l) (rev l)).

Definition trimComma (l : list Z) : list Z := match rev l with c :: r => if c =? comma then rev r else l | [] => l end.

(** [bufio.ScanLines]: the lines, the last without an end if it is not empty. *)
Fixpoint rawLines (current : list Z) (s : list Z) : list (list Z) :=
  match s with
  | [] => match current with [] => [] | _ => [current] end
  | c :: s => if c =? newline then current :: rawLines [] s else rawLines (current ++ [c]) s
  end.
Definition dropCR (l : list Z) : list Z := match rev l with c :: r => if c =? 13 then rev r else l | [] => l end.

(** The scanner's buffer holds 4 MiB, with the end of the line. *)
Definition maxLine : Z := 4 * 1024 * 1024.

Context {S : Type}.

(** What a line decodes to, and the handling of what it is. *)
Variable unmarshal : list Z → option (string * string * option JProgram).
Variable handle : S → string * string * option JProgram → outcome S.

(** An iteration of [readRemoteProgramEvents]. *)
Definition readLine (line : list Z) (s : S) : outcome S :=
  let line := TrimSpace line in
  if bool_decide (line = [] ∨ line = [91] ∨ line = [comma] ∨ line = [93]) then Ret s
  else
    let line := trimComma line in
    if bool_decide (TrimSpace line = []) then Ret s
    else match unmarshal line with None => Ret s | Some e => handle s e end.

(** The loop; [cancelled] is whether the context was, before each line. *)
Fixpoint readLines (cancelled : nat → bool) (i : nat) (lines : list (list Z)) (s : S) : outcome S :=
  match lines with
  | [] => Ret s
  | line :: lines =>
      if maxLine <=? len line then Err (ErrNew "bufio.Scanner: token too long")
      else if cancelled i then Ret s
      else s ← readLine (dropCR line) s; readLines cancelled (Datatypes.S i) lines s
  end.

Definition readRemoteProgramEvents (cancelled : nat → bool) (text : list Z) (s : S) : outcome S := readLines cancelled 0 (rawLines [] text) s.

(** ** What is written is read *)

(** The encoder writes an object on one line, and the decoder reads it back; [decoded] is what
    the reader sees of an event. *)
Variable decoded : @Event A → string * string * option JProgram.
Definition encodes (event : @Event A) : Prop :=
  ∃ body, marshal event = Some (123 :: body ++ [125]) ∧ newline ∉ body ∧ len body + 2 < maxLine ∧ unmarshal (123 :: body ++ [125]) = Some (decoded event).

Lemma rawLines_line l s : ∀ current, newline ∉ l → rawLines current (l ++ newline :: s) = (current ++ l) :: rawLines [] s.
Proof.
  induction l as [| c l IH]; intros current Hl; cbn [rawLines app].
  - rewrite Z.eqb_refl. by rewrite app_nil_r.
  - assert (c =? newline = false) as -> by (apply Z.eqb_neq; intros ->; apply Hl; by left). rewrite IH by (intros H; apply Hl; by right). by rewrite <- app_assoc.
Qed.

Lemma trimLeft_none sp l fuel : Forall (λ p, stripPrefix p l = None) sp → trimLeft sp fuel l = l.
Proof.
  intros Hsp. destruct fuel as [| fuel]; [done |]. cbn [trimLeft]. replace (omap (λ p, stripPrefix p l) sp) with (@nil (list Z)); [done |].
  induction Hsp as [| p sp Hp Hsp IH]; [done |]. cbn. by rewrite Hp.
Qed.

Lemma no_space l : Forall (λ p, stripPrefix p (123 :: l) = None) spaces.
Proof. unfold spaces. cbn [map seq app]. repeat (apply Forall_cons; split; [reflexivity |]). apply Forall_nil. done. Qed.
Lemma no_space_back l : Forall (λ p, stripPrefix p (125 :: l) = None) (map (@rev Z) spaces).
Proof. unfold spaces. cbn [map seq app rev]. repeat (apply Forall_cons; split; [reflexivity |]). apply Forall_nil. done. Qed.

Lemma object_last body : rev (123 :: body ++ [125]) = 125 :: rev (123 :: body).
Proof. cbn [rev]. by rewrite rev_app_distr. Qed.

Lemma TrimSpace_object body : TrimSpace (123 :: body ++ [125]) = 123 :: body ++ [125].
Proof.
  unfold TrimSpace. rewrite (trimLeft_none spaces) by apply no_space. cbv zeta. rewrite object_last, trimLeft_none by apply no_space_back. rewrite <- object_last. apply rev_involutive.
Qed.

Lemma trimComma_object body : trimComma (123 :: body ++ [125]) = 123 :: body ++ [125].
Proof. unfold trimComma. by rewrite object_last. Qed.
Lemma dropCR_object body : dropCR (123 :: body ++ [125]) = 123 :: body ++ [125].
Proof. unfold dropCR. by rewrite object_last. Qed.

Lemma readLine_object event body s : unmarshal (123 :: body ++ [125]) = Some (decoded event) → readLine (dropCR (123 :: body ++ [125])) s = handle s (decoded event).
Proof.
  intros E. unfold readLine. rewrite dropCR_object, TrimSpace_object, trimComma_object, TrimSpace_object. cbv zeta.
  rewrite bool_decide_eq_false_2 by (intros [? | [? | [? | ?]]]; [done | done | done | done]). rewrite bool_decide_eq_false_2 by done. by rewrite E.
Qed.

Lemma readLine_skip line s : line = [91] ∨ line = [comma] → readLine (dropCR line) s = Ret s.
Proof. intros [-> | ->]; vm_compute; done. Qed.

(** The text of the events. *)
Lemma written resource typ received : Forall encodes (omap apiEvent received) → ∀ out,
  ∃ text, foldM (writeReceived resource typ) received out = Ret (out ++ text) ∧
    ∀ i s, readLines (λ _, false) i (rawLines [] text) s =
      foldM (λ s event, handle s (decoded event)) (filter (λ event, matchesEventStreamParams event resource typ = true) (omap apiEvent received)) s.
Proof.
  induction received as [| raw received IH0]; intros Hall out; [exists []; by rewrite app_nil_r |]. cbn [foldM]. change (writeReceived resource typ out raw) with
    (match apiEvent raw with None => Ret out | Some event => if negb (matchesEventStreamParams event resource typ) then Ret out else writeOpenJSONArrayEvent event out end).
  cbn [omap list_omap] in *. destruct (apiEvent raw) as [event |]; [| by apply IH0].
  apply Forall_cons in Hall as [(body & Hm & Hnl & Hlen & Hu) Hall]. specialize (IH0 Hall). rename IH0 into IH. rewrite filter_cons.
  destruct (matchesEventStreamParams event resource typ) eqn:Em; cbn [negb].
  - assert (writeOpenJSONArrayEvent event out = Ret (out ++ (123 :: body ++ [125]) ++ [newline; comma; newline])) as -> by (unfold writeOpenJSONArrayEvent; by rewrite Hm).
    cbn [mbind outcome_bind]. destruct (IH (out ++ (123 :: body ++ [125]) ++ [newline; comma; newline])) as (text & -> & Hread).
    exists (((123 :: body ++ [125]) ++ [newline; comma; newline]) ++ text). split; [by rewrite <- app_assoc |]. intros i s. rewrite decide_True by done. cbn [foldM].
    assert (rawLines [] (((123 :: body ++ [125]) ++ [newline; comma; newline]) ++ text) = (123 :: body ++ [125]) :: [comma] :: rawLines [] text) as ->.
    { rewrite <- app_assoc. change ([newline; comma; newline] ++ text) with (newline :: [comma] ++ newline :: text). rewrite rawLines_line.
      - by rewrite rawLines_line by (by intros ?%list_elem_of_singleton).
      - rewrite elem_of_cons, elem_of_app, list_elem_of_singleton. unfold newline in *. intros [? | [? | ?]]; [done | done | done]. }
    cbn [readLines]. assert (maxLine <=? len (123 :: body ++ [125]) = false) as -> by (apply Z.leb_gt; unfold len in *; rewrite length_cons, length_app; change (length [125]) with 1%nat; lia).
    rewrite (readLine_object event body s Hu). destruct (handle s (decoded event)) as [s' | | |]; cbn [mbind outcome_bind]; try done.
    change (maxLine <=? len [comma]) with false. cbn iota. rewrite (readLine_skip [comma]) by (by right). cbn [mbind outcome_bind]. apply Hread.
  - cbn [mbind outcome_bind]. destruct (IH out) as (text & -> & Hread). exists text. split; [done |]. intros i s. by rewrite decide_False.
Qed.

(** What a server writes of the events to the stream, the other reads: exactly the
    events with an object for data that the parameters of the stream keep, in their order and each once,
    whatever the reader does with them; an error of the reader ends both. *)
Lemma stream_read resource typ events : Forall encodes (omap apiEvent events) →
  ∃ text, writeEventsOpenJSONArrayStream resource typ events = Ret text ∧
    ∀ s, readRemoteProgramEvents (λ _, false) text s =
      foldM (λ s event, handle s (decoded event)) (filter (λ event, matchesEventStreamParams event resource typ = true) (omap apiEvent events)) s.
Proof.
  intros He. destruct (written resource typ events He [91; newline]) as (text & E & Hread). exists ([91; newline] ++ text). split; [exact E |]. intros s.
  unfold readRemoteProgramEvents. change ([91; newline] ++ text) with ([91] ++ newline :: text). rewrite rawLines_line by (by intros ?%list_elem_of_singleton). cbn [readLines app].
  change (maxLine <=? len [91]) with false. cbn iota. rewrite (readLine_skip [91]) by (by left). cbn [mbind outcome_bind]. apply Hread.
Qed.

End Stream.

(** ** Two servers *)

Lemma foldM_map {A B S} (f : S → B → outcome S) (g : A → B) l s : foldM f (map g l) s = foldM (λ s x, f s (g x)) l s.
Proof. revert s. induction l as [| x l IH]; intros s; [done |]. cbn [map foldM]. destruct (f s (g x)); cbn [mbind outcome_bind]; auto. Qed.

(** The data of an event, as far as the reader uses it. *)
Definition decodedEvent (event : @Event (option JProgram)) : string * string * option JProgram := (ev_Resource event, ev_Type event, ev_Data event).

(** C1 (refinement): two servers, the hub, the stream and its reader. The first merges batches of
    programs - in each batch the programs have different identifiers, made of their
    network, service and event, and no audio with an empty list of languages - and its
    manager's events are published to the hub, among others and in any interleaving
    with the subscriptions; the other server's stream subscribes before the first event
    of a program. If the hub dropped nothing and the stream has been sent everything,
    and the events it writes are encoded on a line and decoded again, then the other
    server, which starts empty, reads the text to the programs of the first for the
    services that it knows and no others, each whole but for the transport streams of
    its related items, which are not read. *)
Theorem servers_in_step {D} {O : RangeOrder Item} services (marshalData : D → option (list Z)) unmarshalData marshal unmarshal batches capacity actions id h got :
  Forall batch_ok batches → hubRun capacity actions = (h, got) → hb_dropped h = 0 → waiting h id = [] →
  let sent := omap (apiEvent marshalData unmarshalData) (meantFor id actions) in
  Forall (encodes marshal unmarshal decodedEvent) sent →
  returns (serverRun batches) (λ '(a, evs),
    map decodedEvent (filter (λ e, ev_Resource e = ResourceProgram) sent) = map eventJSON evs →
    ∃ text u b, writeEventsOpenJSONArrayStream marshalData unmarshalData marshal (Some ResourceProgram) None (default [] (got !! id)) = Ret text ∧
      readRemoteProgramEvents unmarshal (readEvent (Ret services) (UpsertPrograms noFault)) (λ _, false) text (newUpdater, NewProgramManager true) = Ret (u, b) ∧
      ∀ program, values (pm_store b) !! program =
        if decide (serviceOf program ∈ knownServices services) then dropStreams <$> values (pm_store a) !! program else None).
Proof.
  intros Hbs Hrun Hdrop Hw sent Hall. eapply safe_mono; [by apply (server_mirror services) |]. intros [a evs] ([u b] & Hread & [_ _ Hv _ _ Hm]) Hevs. cbn [fst snd] in *.
  destruct (hubRun_ok capacity actions) as [_ _ _ _ _ _ _ _ Hmeant]. rewrite Hrun in Hmeant. cbn [fst snd] in Hmeant. specialize (Hmeant id Hdrop). rewrite Hw, app_nil_r in Hmeant. rewrite Hmeant.
  destruct (stream_read marshalData unmarshalData marshal unmarshal (readEvent (Ret services) (UpsertPrograms noFault)) decodedEvent (Some ResourceProgram) None (meantFor id actions) Hall) as (text & Htext & Hlines).
  exists text, u, b. split; [done |]. split; [| intros program; by rewrite Hm, Hv].
  rewrite Hlines, <- foldM_map.
  fold sent. replace (filter (λ event, matchesEventStreamParams event (Some ResourceProgram) None = true) sent) with (filter (λ e : Event, ev_Resource e = ResourceProgram) sent).
  - rewrite Hevs, foldM_map. exact Hread.
  - apply list_filter_iff. intros e. unfold matchesEventStreamParams. rewrite andb_true_iff, !bool_decide_eq_true. change (default (ev_Resource e) (Some ResourceProgram)) with ResourceProgram.
    change (default (ev_Type e) None) with (ev_Type e). split; [intros H; by rewrite H | by intros [H _]].
Qed.

(** ** The two batches of [ProgramSync], over the hub *)

#[local] Instance itemOrder : RangeOrder Item := {| range := map_to_list; range_perm m := reflexivity _ |}.

Definition sampleEvents : list programEvent := match serverRun sampleBatches with Ret (_, evs) => evs | _ => [] end.
Definition sampleHubEvents : list (@Event (option JProgram)) := imap (λ i e, let '(resource, typ, data) := eventJSON e in MkEvent resource typ data (Z.of_nat i + 20)) sampleEvents.
Definition tunerEvent : @Event (option JProgram) := MkEvent ResourceTuner "update" None 19.

(** The hub carries the data as bytes, here the place of the object. *)
Definition sampleObjects : list (option JProgram) := map ev_Data (tunerEvent :: sampleHubEvents).
Definition publish (i : nat) (e : @Event (option JProgram)) : hubAction := APublish (ev_Resource e) (ev_Type e) (Some [Z.of_nat i]) (ev_Time e).
Definition sampleActions : list hubAction :=
  [publish 0 tunerEvent; ASubscribe; publish 0 tunerEvent] ++ imap (λ i, publish (Datatypes.S i)) sampleHubEvents ++ replicate 4 (AReceive 0).
Definition sampleObject (raw : list Z) : option (option JProgram) := match raw with [i] => sampleObjects !! Z.to_nat i | _ => None end.

(** A codec for these events: the time between braces. *)
Definition sampleMarshal (e : @Event (option JProgram)) : option (list Z) := Some (123 :: [ev_Time e] ++ [125]).
Definition sampleUnmarshal (line : list Z) : option (string * string * option JProgram) :=
  match line with [_; t; _] => decodedEvent <$> (snd <$> list_find (λ e, ev_Time e = t) (tunerEvent :: sampleHubEvents)) | _ => None end.

Lemma hub_delivers_witness : ∃ h got, hubRun 2 sampleActions = (h, got) ∧ Log h = lastn 2 (published sampleActions).
Proof.
  destruct (hubRun 2 sampleActions) as [h got] eqn:E. exists h, got. split; [done |]. exact (proj1 (hub_delivers 2 sampleActions h got E)).
Defined.

Lemma sample_encodes : Forall (encodes sampleMarshal sampleUnmarshal decodedEvent) (omap (apiEvent Some sampleObject) (meantFor 0 sampleActions)).
Proof.
  assert (omap (apiEvent Some sampleObject) (meantFor 0 sampleActions) = tunerEvent :: sampleHubEvents) as -> by (vm_compute; done).
  assert (∀ e, sampleUnmarshal [123; ev_Time e; 125] = Some (decodedEvent e) → 19 ≤ ev_Time e → encodes sampleMarshal sampleUnmarshal decodedEvent e) as Hok.
  { intros e He Ht. exists [ev_Time e]. split; [done |]. split; [intros H%list_elem_of_singleton; unfold newline in H; lia |]. split; [done | exact He]. }
  assert (∃ e1 e2 e3, sampleHubEvents = [e1; e2; e3] ∧ Forall (λ e, sampleUnmarshal [123; ev_Time e; 125] = Some (decodedEvent e) ∧ bool_decide (19 ≤ ev_Time e) = true) [tunerEvent; e1; e2; e3]) as (e1 & e2 & e3 & E & Hall).
  { eexists _, _, _. split; [vm_compute; reflexivity |]. repeat (apply Forall_cons; split; [split; vm_compute; reflexivity |]). by apply Forall_nil. }
  rewrite E. eapply Forall_impl; [exact Hall |]. intros e [He Ht%bool_decide_eq_true]. by apply Hok.
Qed.

Lemma servers_in_step_witness : ∃ text u b, readRemoteProgramEvents sampleUnmarshal (readEvent (Ret sampleKnown) (UpsertPrograms noFault)) (λ _, false) text (newUpdater, NewProgramManager true) = Ret (u, b) ∧
  (p_Name <$> values (pm_store b) !! 40010100007) = Some [78].
Proof.
  destruct (hubRun 0 sampleActions) as [h got] eqn:E.
  assert (hb_dropped (fst (hubRun 0 sampleActions)) = 0) as Hd by (vm_compute; done). assert (waiting (fst (hubRun 0 sampleActions)) 0 = []) as Hw by (vm_compute; done).
  rewrite E in Hd, Hw. cbn [fst] in Hd, Hw.
  pose proof (servers_in_step sampleKnown Some sampleObject sampleMarshal sampleUnmarshal sampleBatches 0 sampleActions 0 h got sampleBatches_ok E Hd Hw sample_encodes) as Hs.
  assert (map decodedEvent (filter (λ e, ev_Resource e = ResourceProgram) (omap (apiEvent Some sampleObject) (meantFor 0 sampleActions))) = map eventJSON sampleEvents) as Hevs by (vm_compute; done).
  unfold sampleEvents in Hevs. assert ((λ '(a, _), p_Name <$> values (pm_store a) !! 40010100007) <$> serverRun sampleBatches = Ret (Some [78])) as Hname by (vm_compute; done).
  destruct (serverRun sampleBatches) as [[a evs] | | |]; [| discriminate Hname | discriminate Hname | discriminate Hname]. cbn [ends] in Hs. destruct (Hs Hevs) as (text & u & b & _ & Hread & Hb). exists text, u, b. split; [exact Hread |].
  rewrite Hb, decide_True by (apply (bool_decide_unpack _); vm_compute; done). cbn in Hname. apply (f_equal (λ o, match o with Ret x => x | _ => None end)) in Hname.
  destruct (values (pm_store a) !! 40010100007) as [v |]; [| done]. exact Hname.
Defined.
